(* ===== verification/_CoqProject ===== *)
-Q . S2P
Prelude.v
UtList.v
MemUtil.v
Bytes.v
Cstring.v
Strtoul.v
Kprintf.v
KprintfSpec.v
Range.v
RangeSpec.v
RangeRefine.v
Allocator.v
VmMap.v
Paging.v
Kmem.v
Ordered.v
Splay.v
RbTree.v
RbRep.v
RbInsert.v
RbRemove.v
RbSpec.v
Dlist.v
Listsort.v
Registers.v
Descriptors.v
Sync.v
Malloc.v
Kheap.v
Timer.v
Sort.v
Ports.v
Pic.v
Cmdline.v
Uart.v
Terminal.v
Thread.v
Scheduler.v
Mutex.v
MutexSafe.v
MutexStep.v
Spawn.v
Process.v
AcpiUtil.v
AcpiBits.v
AcpiField.v
AcpiFieldSpec.v
AcpiFieldNamed.v
AcpiOwner.v
AcpiPorts.v
AcpiRegion.v
AcpiRegionSpec.v
AcpiTables.v
AcpiRegionKernel.v
AcpiAml.v
Multiboot.v
Ioapic.v
KernelTests.v
Irq.v
Madt.v
Tty.v
Ps2.v
