(* ===== verification/Prelude.v ===== *)
(** * ChrisOS: a verification development of the kernel's C code

    ChrisOS is a small operating system for 32-bit x86.  This library models
    the kernel's C code under src/kernel, the list macros it uses from
    src/libs/uthash and parts of the ACPI implementation in src/libs/acpica, and
    proves what the parts promise to each other.  The definitions keep the names
    of the code and are executable.

    ** How C is modelled

    Machine integers are elements of [Z], and every operation that can leave
    the range of its C type is followed by the reduction to it ([u8] to [u64],
    [s8] to [s64]).  Code with effects is a function of the state monad [M] of
    this file; its outcomes are a value and a new state, a panic, an access to
    memory that is not an object ([Fault]), and a loop that needs more
    iterations than it is given ([NoFuel]).  Theorems say that code returns, so
    none of the last three happens, or say exactly when one does.  Structs that are linked by pointers live
    in maps from addresses; buffers live in maps from addresses to bytes.

    Loops that are not structural have fuel.  A traversal of a linked list gets
    one iteration more than there are structs, a loop over an array one more
    than there are items, a loop that halves a number one per bit, a walk over a
    table or over input one per byte, a walk in a search tree one more than
    there are structs; the theorems about these loops show that this is enough.
    An access to a bank or index field accesses another field, and its fuel is
    how deep that goes; a field of a buffer or region needs 1.  The loops that wait for a
    device have a bound that is a parameter, and the theorems assume that the
    device is ready within it.

    ** The parts and their files

    - Memory for bookkeeping.  MemUtil.v: utils/mem.c and mm/layout.c, with the
      break that [kalloc_static] moves.  UtList.v, Dlist.v and Listsort.v:
      singly and doubly linked lists and the merge sorts of utlist.h, on heaps
      of structs, related to lists of addresses.
    - Ranges of addresses.  Range.v: the macros of mm/range.h.  RangeSpec.v:
      the same operations on lists of ranges.  RangeRefine.v: the pointer code
      computes the list functions.  Allocator.v: mm/allocator.c, free ranges
      with flags.  VmMap.v: mm/vm_map.c, the areas in use.
    - Paging.v: ia32/paging.c, with the walk the processor makes; the theorems
      say what an address translates to before and after.
    - Kmem.v: mm/kmem.c and mm/vm_space.c, which hand out frames, addresses and
      mapped pages.  It calls the allocator, the areas and the page tables.
    - Multiboot.v: boot/multiboot.c, what the boot loader passes on, copied into
      static memory, and its memory map, given to Kmem.v.
    - Malloc.v: mm/malloc.c, the heap, on top of Kmem.v, with the contents of
      memory.  Kheap.v: the interface of the heap, as a class, and that
      malloc.c implements it.
    - Registers.v and Descriptors.v: bits of the control registers, segment,
      gate and task-state descriptors, and the tables interrupts are
      dispatched through (ia32/registers.c, gdt.c, idt.c, tss.c, interrupts.c).
    - Sync.v: kern/spinlock.c.  One processor with its interrupt flag is a
      class, [Cpu], that the states of all clients of locks implement; the
      module Spin has the single accesses to a lock as a step relation, for
      threads on one processor and for several processors that share the one
      [_current_thread].
    - Thread.v, Scheduler.v: kern/thread.c, ia32/stack.c and kern/scheduler.c.
      The state has the thread structs, the run queues, the stacks and the
      registers a switch saves.
    - Mutex.v, MutexSafe.v, MutexStep.v: kern/mutex.c.  Mutex.v has the
      functions, MutexSafe.v their invariant, MutexStep.v the machine: threads
      that call them, preempted by interrupts at any point between them and
      blocked inside them.
    - Spawn.v: the creation of kernel threads in kern/thread.c, which joins the
      heap's interface with the machine of MutexStep.v.  Process.v:
      kern/process.c, with the lists of processes, children and threads.
    - Timer.v: kern/time.c and kern/timer.c, on the heap's interface and on
      spinlocks.
    - Ports.v, Uart.v, Terminal.v: the bit fields of sys/param.h and the port
      accesses of ia32/io.c; ia32/uart.c; drivers/vga.c and terminal/terminal.c.
      What devices answer is a parameter.
    - Ioapic.v, Madt.v: ia32/apic.c, the interrupt lines of ia32/hal_x86.c and
      the walk of ia32/acpi.c over the table of interrupt controllers, which
      registers them; on the page tables and the static break.
    - Pic.v: ia32/pic.c, against what the data sheet says of the controllers.
    - Irq.v: the lists of handlers and the dispatch of ia32/interrupts.c, the
      handlers of drivers in ia32/hal_x86.c and the system calls of
      kern/syscall.c.  It calls Ioapic.v, Spawn.v and the scheduler; what a
      driver's fast handler and the calls of the terminal do is a parameter.
    - Cmdline.v: kern/cmdline.c, with the hash table as the list of its entries.
    - Tty.v, Ps2.v: drivers/tty.c, the line buffer and its readers, and
      ia32/ps2.c, the scan codes of the keyboard; Ps2.v calls Tty.v.
    - Ordered.v, Splay.v, RbTree.v, RbRep.v, RbInsert.v, RbRemove.v, RbSpec.v:
      the splay and red-black trees of sys/tree.h.  Ordered.v has the ordered
      lists of keys they implement; Splay.v and RbTree.v have the macros, on a
      heap of structs; RbRep.v relates the heap to trees with a place in them,
      RbInsert.v and RbRemove.v follow the recolouring up the tree, and RbSpec.v
      has the theorems for sequences of operations.
    - AcpiField.v, AcpiFieldSpec.v, AcpiFieldNamed.v: of libs/acpica, the fields
      of AML (exfldio.c, exfield.c, exprep.c), over integers as bits and bytes
      (AcpiBits.v).  AcpiFieldSpec.v is about a field in any container of bytes,
      which is a class; AcpiFieldNamed.v shows that buffers, and operation
      regions whose handler keeps bytes, are containers.
    - AcpiPorts.v, AcpiRegion.v, AcpiRegionSpec.v, AcpiRegionKernel.v: the
      protected ports (hwvalid.c), the dispatch of region accesses and the
      default handlers (evregion.c, evrgnini.c, exregion.c).  The OS layer is a
      record of operations; AcpiRegionSpec.v states as a class what its memory
      functions promise, and AcpiRegionKernel.v shows that those of
      ia32/acpica_osl.c, on Kmem.v and the page tables, keep the promise.
    - AcpiUtil.v, AcpiOwner.v, AcpiTables.v, AcpiAml.v: of libs/acpica, 64-bit
      division and conversions of numbers (utmath.c, uthex.c, utuuid.c,
      utstring.c, exconvrt.c, exutils.c), owner IDs and mutexes (utownerid.c,
      utmutex.c), the search for the root pointer (tbxfroot.c, tbprint.c)
      through the memory mappings of ia32/acpica_osl.c, and the package lengths and
      names of AML (psargs.c, and asllength.c and aslcodegen.c of the compiler).
    - KernelTests.v: the unit tests of src/kernel/tests, as programs over
      Allocator.v and the macros of Ports.v.
    - Bytes.v, Cstring.v, Strtoul.v, Kprintf.v, KprintfSpec.v, Sort.v:
      memset and memmove, utils/string.c, strtoul.c and strtouq.c, kprintf.c,
      sort.c.

    ** What the theorems show

    - Memory management, bottom up.  Allocating, freeing and acquiring a range
      changes exactly the set of free addresses it should; areas are found and
      removed; mapping and unmapping change exactly the translations of the
      range; [kmem_alloc] returns fresh, mapped pages; [kmalloc] returns blocks
      that are mapped, aligned and disjoint, and [kfree] undoes it.  The
      invariant these start from is the one the boot establishes: the free
      memory is what the loader's map offers.
    - Concurrency.  Threads of one processor exclude each other with a
      spinlock, which nests and restores the interrupt flag; processors would
      not, as they all lock for the same current thread.  The mutex
      machine never faults, panics or breaks its invariant, and two threads
      are never both inside; the round-robin scheduler runs every runnable
      thread.  The lost wake-up of [mutex_acquire] is exhibited as an execution.
    - Timers.  The lists stay sorted, every operation adds, removes or counts
      down exactly what it should, and the timer that fires is the earliest.
    - Interrupts.  A table of controllers is read to its end, and exactly the
      controllers it describes are registered, sorted and mapped; an interrupt
      is then routed to the vector of its line.  Installing a driver puts it
      first on the list of its vector and starts its thread.  An interrupt is
      ended at the controller, runs the drivers up to the first that does not
      pass and keeps the invariant of the mutex machine; with drivers that count
      ticks it is that machine's interrupt step.  The older controllers hold the
      vectors and masks they are given.
    - Threads and processes.  Creating a thread gives everything back or adds
      one thread that fits the machine, with a new identifier.  The search for a
      process identifier ends at the first one not in use, and a fork puts the
      child first on both of its lists, or faults if there is no memory.
    - Command line.  Options rendered as text are parsed back, in order.
    - Input.  The bytes of the keyboard become the characters of its layout in
      the line buffer, which is a queue that can be edited, and a line typed
      while a reader waits is what the reader gets.
    - ACPICA.  The two versions of 64-bit division agree where the first one
      does not overflow; integers printed in decimal or hexadecimal are read
      back; owner IDs are handed out once each and can be released; the root
      pointer found is the first valid one in the windows the firmware uses, and
      everything mapped for the search is unmapped; the compiler's package
      lengths are decoded.
    - Search trees.  Every sequence of operations on a splay tree or a
      red-black tree gives the results it has on an ordered list of keys, and
      leaves a tree that holds these keys; a search in a red-black tree visits
      at most 2 lg(n + 1) structs.
    - Fields.  What is written to a field is read back, the update rule says
      what becomes of the other bits of its datums, and nothing else changes,
      for every width, position and length; a field of system memory is bits of
      the physical memory, through the dispatch, the cached mapping of the
      handler and the mappings of the host.  The check of port accesses passes no protected
      port on to the host, unless the request wraps around the address space.
    - Output and strings.  What [terminal_writestring] leaves on the screen and
      sends to the serial port, what [kvprintf] prints for a format, that the
      parsers of numbers invert the printer, and what the string and memory
      functions compute.
    - Behaviour that differs from what the code means to do is stated as such,
      at the theorems [vm_map_init_copy_empty],
      [paging_map_first_table_only], [strcpy_unterminated],
      [stack_init_outside], [thread_spawn_kthread_correct],
      [hal_unmask_irq_routes], [tty_gets_reads_line], [cmdline_parse_render] and
      [hal_install_irq_handler_correct], and at the lemmas
      [underflow_example], [kmalloc_wraps], [processors_not_excluded],
      [lost_wakeup], [divide_overflow], [odd_region], [process_exit_loses_process], [process_next_pid_spec],
      [cmdline_parse_trailing_comma], [handle_key_outside], [memset_overruns], [register_bits], [insertion_sort_unsorted],
      [schedule_at_keeps_lock], [time_add_unnormalised], [zero_length_field],
      [short_mapping], [wrapped_request], [kernel_code_handed_out],
      [high_memory_truncated] and [test_all_poisons_pool].

    ** Not modelled

    The start of the machine (boot.S, main.c), the PC's timers, the set-up of the local APIC
    and of the keyboard controller, processor identification, the assembly stubs of
    interrupts and system calls, the cloning of address spaces, the timer
    thread, the set-up of the first thread, threads of processes and user-mode
    threads.  Of ACPICA the namespace, the interpreter but for fields and
    regions, general-purpose events, resources and the installation of tables
    are not modelled, and neither are its debugger, its disassembler, the
    rest of its compiler and its tools, which do not run in the kernel.
    Text printed for debugging is left out where it does not affect the state.
    The memory model is sequentially consistent. *)

From stdpp Require Import base numbers list gmap strings.

Open Scope Z_scope.

(** ** Machine integers

    The kernel is built for 32-bit x86: [uintptr_t], [size_t], [unsigned] and
    [unsigned long] are 32 bits wide.  A value of such a type is a [Z] in
    [0, 2^32); every operation that can leave that range is followed by the
    reduction the hardware performs. *)

Abbreviation W8 := 256 (only parsing).
Abbreviation W16 := 65536 (only parsing).
Abbreviation W32 := 4294967296 (only parsing).
Abbreviation W64 := 18446744073709551616 (only parsing).

Definition u8 (z : Z) : Z := z mod W8.
Definition u16 (z : Z) : Z := z mod W16.
Definition u32 (z : Z) : Z := z mod W32.
Definition u64 (z : Z) : Z := z mod W64.

(** Two's complement reading of a 32-bit word ([int] and [long]). *)
Definition s32 (z : Z) : Z := (z + 2147483648) mod W32 - 2147483648.
Definition s8 (z : Z) : Z := (z + 128) mod W8 - 128.
Definition s16 (z : Z) : Z := (z + 32768) mod W16 - 32768.
Definition s64 (z : Z) : Z := (z + 9223372036854775808) mod W64 - 9223372036854775808.

(** The null pointer. *)
Definition NULL : Z := 0.

Lemma u32_range z : 0 ≤ u32 z < W32.
Proof. unfold u32. apply Z.mod_pos_bound. lia. Qed.

Lemma u32_small z : 0 ≤ z < W32 → u32 z = z.
Proof. apply Z.mod_small. Qed.

Lemma u32_idemp z : u32 (u32 z) = u32 z.
Proof. apply u32_small, u32_range. Qed.

Lemma u32_W32 : u32 W32 = 0.
Proof. reflexivity. Qed.

Lemma s32_range z : -2147483648 ≤ s32 z < 2147483648.
Proof. unfold s32. pose proof (Z.mod_pos_bound (z + 2147483648) W32). lia. Qed.

Lemma s32_small z : -2147483648 ≤ z < 2147483648 → s32 z = z.
Proof. intros. unfold s32. rewrite Z.mod_small; lia. Qed.

(** Joining two bit fields that do not overlap adds them. *)
Lemma lor_disjoint a b k : 0 ≤ k → 0 ≤ a < 2 ^ k → Z.lor a (b * 2 ^ k) = a + b * 2 ^ k.
Proof.
  intros Hk Ha. pose proof (Z.add_lor_land a (b * 2 ^ k)).
  enough (Z.land a (b * 2 ^ k) = 0) as E0 by (rewrite E0 in *; lia). apply Z.bits_inj'. intros i Hi.
  rewrite Z.land_spec, Z.bits_0. destruct (decide (i < k)).
  - rewrite Z.mul_pow2_bits_low by lia. apply andb_false_r.
  - destruct (decide (a = 0)) as [->|]; [by rewrite Z.bits_0|].
    rewrite (Z.bits_above_log2 a i); [done|lia|].
    assert (Z.log2 a < k) by (apply Z.log2_lt_pow2; lia). lia.
Qed.

(** [wrap] decides linear goals about values reduced modulo a fixed width. *)
Ltac wrap :=
  unfold u8, u16, u32, u64, s8, s16, s32, s64 in *;
  Z.to_euclidean_division_equations; lia.

(** Boolean comparisons of the C code, turned into propositions. *)
Ltac bool_to_prop :=
  repeat match goal with
  | H : andb _ _ = true |- _ => apply andb_prop in H; destruct H
  | H : andb _ _ = false |- _ => apply andb_false_iff in H
  | H : orb _ _ = true |- _ => apply orb_prop in H
  | H : orb _ _ = false |- _ => apply orb_false_elim in H; destruct H
  | H : negb _ = true |- _ => apply negb_true_iff in H
  | H : negb _ = false |- _ => apply negb_false_iff in H
  | H : (_ =? _) = true |- _ => apply Z.eqb_eq in H
  | H : (_ =? _) = false |- _ => apply Z.eqb_neq in H
  | H : (_ <? _) = true |- _ => apply Z.ltb_lt in H
  | H : (_ <? _) = false |- _ => apply Z.ltb_ge in H
  | H : (_ <=? _) = true |- _ => apply Z.leb_le in H
  | H : (_ <=? _) = false |- _ => apply Z.leb_gt in H
  end.

(** ** Effects

    A C function that reads and writes memory is a function from a state to
    one of four outcomes: it returns a value in a new state; it reaches
    [panic] (or a failed [assert], which calls [panic]), after which the
    machine is halted; it dereferences a pointer that addresses no object,
    which C leaves undefined; or a loop does not finish within the iterations
    the model allows it. *)
Inductive result (S A : Type) : Type :=
  | Ret (a : A) (s : S)
  | Panic (msg : string)
  | Fault
  | NoFuel.
Arguments Ret {S A} a s.
Arguments Panic {S A} msg.
Arguments Fault {S A}.
Arguments NoFuel {S A}.

Definition M (S A : Type) : Type := S → result S A.

#[export] Instance M_ret S : MRet (M S) := λ A a s, Ret a s.
#[export] Instance M_bind S : MBind (M S) := λ A B k m s,
  match m s with
  | Ret a s' => k a s'
  | Panic msg => Panic msg
  | Fault => Fault
  | NoFuel => NoFuel
  end.

Definition get {S} : M S S := λ s, Ret s s.
Definition put {S} (s : S) : M S unit := λ _, Ret tt s.
Definition modify {S} (f : S → S) : M S unit := λ s, Ret tt (f s).
Definition panic {S A} (msg : string) : M S A := λ _, Panic msg.
Definition fault {S A} : M S A := λ _, Fault.
Definition nofuel {S A} : M S A := λ _, NoFuel.

(** [assert(expr)] of include/assert.h: a false condition panics. *)
Definition assert {S} (b : bool) (msg : string) : M S unit :=
  if b then mret tt else panic msg.

(** Run an operation on one part of a larger state. *)
Definition zoom {S T A} (g : S → T) (p : T → S → S) (m : M T A) : M S A := λ s,
  match m (g s) with
  | Ret a t => Ret a (p t s)
  | Panic msg => Panic msg
  | Fault => Fault
  | NoFuel => NoFuel
  end.

Lemma bind_ret {S A B} (m : M S A) (k : A → M S B) s a s' :
  m s = Ret a s' → (m ≫= k) s = k a s'.
Proof. intros H. unfold mbind, M_bind. by rewrite H. Qed.

Lemma bind_ret_inv {S A B} (m : M S A) (k : A → M S B) s b s'' :
  (m ≫= k) s = Ret b s'' → ∃ a s', m s = Ret a s' ∧ k a s' = Ret b s''.
Proof. unfold mbind, M_bind. destruct (m s) eqn:E; naive_solver. Qed.

Lemma bind_run {S A B} (m m' : M S A) (k : A → M S B) s s' : m s = m' s' → (m ≫= k) s = (m' ≫= k) s'.
Proof. intros H. unfold mbind, M_bind. by rewrite H. Qed.

Lemma bind_fault {S A B} (m : M S A) (k : A → M S B) s : m s = Fault → (m ≫= k) s = Fault.
Proof. intros H. unfold mbind, M_bind. by rewrite H. Qed.

Lemma zoom_ret {S T A} (g : S → T) p (m : M T A) s a t :
  m (g s) = Ret a t → zoom g p m s = Ret a (p t s).
Proof. intros H. unfold zoom. by rewrite H. Qed.

Lemma ret_ok {S A} (a : A) (s : S) : (mret a : M S A) s = Ret a s.
Proof. done. Qed.

Lemma assert_ok {S} b msg (s : S) : b = true → assert b msg s = Ret tt s.
Proof. by intros ->. Qed.

Lemma bind_assoc {S A B C} (m : M S A) (k : A → M S B) (k' : B → M S C) s :
  ((m ≫= k) ≫= k') s = (m ≫= (λ a, k a ≫= k')) s.
Proof. unfold mbind, M_bind. by destruct (m s). Qed.

Lemma bind_get {S B} (k : S → M S B) s : (get ≫= k) s = k s s.
Proof. done. Qed.

Lemma bind_modify {S B} f (k : unit → M S B) s : (modify f ≫= k) s = k tt (f s).
Proof. done. Qed.

(** [step E] runs the first action of a sequence whose outcome is [E]. *)
Ltac step E :=
  rewrite ?bind_assoc; rewrite (bind_ret _ _ _ _ _ E).

(** ** Generic lemmas on lists *)

(** Membership in lists built with [::] and [++]. *)
Ltac mem :=
  intros;
  repeat match goal with
  | H : _ ∈ [] |- _ => by apply not_elem_of_nil in H
  | H : _ ∈ _ :: _ |- _ => apply elem_of_cons in H as [->|H]
  | H : _ ∈ _ ++ _ |- _ => apply elem_of_app in H as [H|H]
  | H : ∀ x, x ∈ ?l → _ ∨ _, Hx : _ ∈ ?l |- _ => apply H in Hx
  | H : ∀ x, x ∈ ?l → _ ∈ _, Hx : _ ∈ ?l |- _ => apply H in Hx
  | H : _ ∨ _ |- _ => destruct H as [H|H]
  end; subst; repeat progress rewrite ?elem_of_app, ?elem_of_cons;
  first [tauto | solve [auto 8]].

Lemma NoDup_split {A} (l1 l2 : list A) x :
  NoDup (l1 ++ x :: l2) → x ∉ l1 ∧ x ∉ l2 ∧ NoDup l1 ∧ NoDup l2.
Proof.
  rewrite NoDup_app, NoDup_cons. intros (H1 & H2 & H3 & H4).
  repeat split; try done. intros Hx. apply (H2 x Hx). by left.
Qed.

Lemma take_S_middle {A} (l1 l2 : list A) x k :
  length l1 = k → take (S k) (l1 ++ x :: l2) = l1 ++ [x].
Proof.
  intros <-. replace (S (length l1)) with (length l1 + 1)%nat by lia.
  by rewrite take_app_add.
Qed.

Lemma drop_S_middle {A} (l1 l2 : list A) x k :
  length l1 = k → drop (S k) (l1 ++ x :: l2) = l2.
Proof.
  intros <-. replace (S (length l1)) with (length l1 + 1)%nat by lia.
  by rewrite drop_app_add.
Qed.
