(* ===== verification/UtList.v ===== *)
(** * utlist.h: intrusive linked lists

    libs/uthash/src/utlist.h implements lists by macros over structs that
    carry their own link fields.  Nodes live in a heap, a finite map from
    addresses to struct values, and every macro is the sequence of loads and
    stores it expands to.  [ll_rep h p ps] says that the singly linked list
    headed by [p] in [h] visits the addresses [ps]; the lemmas show that each
    macro terminates and acts on [ps] as the corresponding list function,
    touching nothing but link fields of the nodes concerned. *)

From stdpp Require Import base numbers list gmap strings fin_maps.
From S2P Require Import Prelude.

(** ** Nodes and heaps *)

(** A struct with a [next] member. *)
Class LLNode (T : Type) := {
  ll_next : T → Z;
  ll_set_next : Z → T → T;
  ll_next_set : ∀ p n, ll_next (ll_set_next p n) = p;
  ll_set_set : ∀ p q n, ll_set_next p (ll_set_next q n) = ll_set_next p n;
  ll_set_id : ∀ n, ll_set_next (ll_next n) n = n
}.

Section Heap.
Context {T : Type}.

(** [*p] as an rvalue and as an lvalue. *)
Definition load (p : Z) : M (gmap Z T) T := λ h,
  match h !! p with Some n => Ret n h | None => Fault end.

Definition store (p : Z) (n : T) : M (gmap Z T) unit := λ h,
  match h !! p with Some _ => Ret tt (<[p := n]> h) | None => Fault end.

Definition update (p : Z) (f : T → T) : M (gmap Z T) unit :=
  n ← load p; store p (f n).

(** A traversal of a list without repetition visits every object of the heap
    at most once, so this many iterations are enough for it. *)
Definition fuel_of_heap : M (gmap Z T) nat := λ h, Ret (S (size h)) h.

Lemma load_ok (h : gmap Z T) p n : h !! p = Some n → load p h = Ret n h.
Proof. intros H. unfold load. by rewrite H. Qed.

Lemma store_ok (h : gmap Z T) p n m :
  h !! p = Some n → store p m h = Ret tt (<[p := m]> h).
Proof. intros H. unfold store. by rewrite H. Qed.

Lemma update_ok (h : gmap Z T) p n f :
  h !! p = Some n → update p f h = Ret tt (<[p := f n]> h).
Proof. intros H. unfold update. step (load_ok _ _ _ H). by apply store_ok with n. Qed.
End Heap.

(** ** Singly linked lists *)

Section LL.
Context {T : Type} `{LLNode T}.
Implicit Types (h : gmap Z T) (p q head : Z) (ps : list Z).

(** [#define LL_PREPEND2(head,add,next)] *)
Definition LL_PREPEND (head add : Z) : M (gmap Z T) Z :=
  update add (ll_set_next head);;
  mret add.

(** [while (_tmp->next) { _tmp = _tmp->next; }] *)
Fixpoint ll_last (fuel : nat) (tmp : Z) : M (gmap Z T) Z :=
  match fuel with
  | O => nofuel
  | S fuel =>
      n ← load tmp;
      if ll_next n =? NULL then mret tmp else ll_last fuel (ll_next n)
  end.

(** [#define LL_APPEND2(head,add,next)] *)
Definition LL_APPEND (head add : Z) : M (gmap Z T) Z :=
  update add (ll_set_next NULL);;
  if negb (head =? NULL) then
    fuel ← fuel_of_heap;
    tmp ← ll_last fuel head;
    update tmp (ll_set_next add);;
    mret head
  else mret add.

(** [while (_tmp->next && (_tmp->next != (del))) { _tmp = _tmp->next; }] *)
Fixpoint ll_pred (fuel : nat) (tmp del : Z) : M (gmap Z T) Z :=
  match fuel with
  | O => nofuel
  | S fuel =>
      n ← load tmp;
      if (ll_next n =? NULL) || (ll_next n =? del) then mret tmp
      else ll_pred fuel (ll_next n) del
  end.

(** [#define LL_DELETE2(head,del,next)] *)
Definition LL_DELETE (head del : Z) : M (gmap Z T) Z :=
  if head =? del then
    n ← load head;
    mret (ll_next n)
  else
    fuel ← fuel_of_heap;
    tmp ← ll_pred fuel head del;
    n ← load tmp;
    (if negb (ll_next n =? NULL) then
       d ← load del;
       update tmp (ll_set_next (ll_next d))
     else mret tt);;
    mret head.

(** [#define LL_PREPEND_ELEM(head, el, add)] *)
Definition LL_PREPEND_ELEM (head el add : Z) : M (gmap Z T) Z :=
  assert (negb (head =? NULL)) "head != NULL";;
  assert (negb (el =? NULL)) "el != NULL";;
  assert (negb (add =? NULL)) "add != NULL";;
  update add (ll_set_next el);;
  if head =? el then mret add
  else
    fuel ← fuel_of_heap;
    tmp ← ll_pred fuel head el;
    n ← load tmp;
    (if negb (ll_next n =? NULL) then update tmp (ll_set_next add) else mret tt);;
    mret head.

(** *** The list a head pointer denotes *)

Fixpoint ll_rep (h : gmap Z T) (p : Z) (ps : list Z) : Prop :=
  match ps with
  | [] => p = NULL
  | q :: ps => p = q ∧ q ≠ NULL ∧ ∃ n, h !! q = Some n ∧ ll_rep h (ll_next n) ps
  end.

(** The members of a node other than its link. *)
Definition ll_data (n : T) : T := ll_set_next NULL n.

(** [h'] differs from [h] at most in the links of the nodes [X]. *)
Definition links_only (X : list Z) (h h' : gmap Z T) : Prop :=
  ∀ q, (q ∉ X → h' !! q = h !! q) ∧ ll_data <$> h' !! q = ll_data <$> h !! q.

Lemma ll_data_set p n : ll_data (ll_set_next p n) = ll_data n.
Proof. apply ll_set_set. Qed.

Lemma links_only_refl X h : links_only X h h.
Proof. by intros q. Qed.

Lemma links_only_trans X Y Z0 h1 h2 h3 :
  links_only X h1 h2 → links_only Y h2 h3 →
  (∀ q, q ∈ X → q ∈ Z0) → (∀ q, q ∈ Y → q ∈ Z0) → links_only Z0 h1 h3.
Proof.
  intros H1 H2 HX HY q. destruct (H1 q) as [A1 B1], (H2 q) as [A2 B2].
  split; [|congruence]. intros Hq. rewrite A2, A1; auto.
Qed.

Lemma links_only_set X h q n p :
  h !! q = Some n → q ∈ X → links_only X h (<[q := ll_set_next p n]> h).
Proof.
  intros Hq HX r. destruct (decide (r = q)) as [->|Hne].
  - split; [done|]. rewrite lookup_insert_eq, Hq. simpl. by rewrite ll_data_set.
  - rewrite lookup_insert_ne by done. done.
Qed.

Lemma ll_rep_inv_null h ps : ll_rep h NULL ps → ps = [].
Proof. destruct ps; [done|]. intros (-> & ? & _). done. Qed.

Lemma ll_rep_inv_cons h p ps :
  p ≠ NULL → ll_rep h p ps →
  ∃ n ps', ps = p :: ps' ∧ h !! p = Some n ∧ ll_rep h (ll_next n) ps'.
Proof. destruct ps as [|q ps]; [done|]. intros ? (<- & ? & n & ? & ?). eauto. Qed.

Lemma ll_rep_frame h h' p ps :
  (∀ q, q ∈ ps → h' !! q = h !! q) → ll_rep h p ps → ll_rep h' p ps.
Proof.
  revert p. induction ps as [|q ps IH]; intros p Hf; [done|].
  intros (-> & ? & n & Hn & Hr). split_and!; [done..|]. exists n.
  rewrite Hf by (by left). split; [done|]. apply IH; [|done]. intros; apply Hf; by right.
Qed.

Lemma ll_rep_frame_links X h h' p ps :
  links_only X h h' → (∀ q, q ∈ ps → q ∉ X) → ll_rep h p ps → ll_rep h' p ps.
Proof. intros Hl Hd. apply ll_rep_frame. intros q Hq. apply Hl. auto. Qed.

(** Writing a node without changing its link. *)
Lemma ll_rep_update h p ps q n n' :
  h !! q = Some n → ll_next n' = ll_next n → ll_rep h p ps → ll_rep (<[q := n']> h) p ps.
Proof.
  intros Hq Hn. revert p. induction ps as [|r ps IH]; intros p; [done|].
  intros (-> & ? & m & Hm & Hr). split_and!; [done..|].
  destruct (decide (r = q)) as [->|Hne].
  - simplify_eq. exists n'. rewrite lookup_insert_eq. split; [done|]. rewrite Hn. auto.
  - exists m. rewrite lookup_insert_ne by done. auto.
Qed.

Lemma ll_rep_det h p ps1 ps2 : ll_rep h p ps1 → ll_rep h p ps2 → ps1 = ps2.
Proof.
  revert p ps2. induction ps1 as [|q ps IH]; intros p ps2.
  - intros ->. intros Hr. by rewrite (ll_rep_inv_null _ _ Hr).
  - intros (-> & ? & n & Hn & Hr) Hr2.
    destruct (ll_rep_inv_cons _ _ _ ltac:(eassumption) Hr2) as (n' & ps' & -> & ? & ?).
    simplify_eq. f_equal. eauto.
Qed.

Lemma ll_rep_head_eq h h' p p' ps : ll_rep h p ps → ll_rep h' p' ps → p = p'.
Proof. destruct ps; simpl; [by intros -> ->|by intros (-> & _) (-> & _)]. Qed.

Lemma ll_rep_app h p ps1 ps2 :
  ll_rep h p (ps1 ++ ps2) → ∃ q, ll_rep h q ps2 ∧ (ps1 = [] → q = p).
Proof.
  revert p. induction ps1 as [|r ps1 IH]; intros p; simpl; [eauto|].
  intros (-> & ? & n & Hn & Hr). destruct (IH _ Hr) as (q & ? & ?). exists q. done.
Qed.

(** A list that ends visits no node twice. *)
Lemma ll_rep_nodup h p ps : ll_rep h p ps → NoDup ps.
Proof.
  revert p. induction ps as [|q ps IH]; intros p; [constructor|].
  intros (-> & Hq & n & Hn & Hr). constructor; [|eauto].
  intros Hin. apply list_elem_of_split in Hin as (l1 & l2 & ->).
  destruct (ll_rep_app _ _ _ _ Hr) as (q' & Hr2 & _).
  pose proof Hr2 as (-> & _).
  assert (ll_rep h q (q :: l1 ++ q :: l2)) as Hr3 by (simpl; eauto).
  pose proof (ll_rep_det _ _ _ _ Hr3 Hr2) as E.
  apply (f_equal length) in E. simpl in E. rewrite length_app in E. simpl in E. lia.
Qed.

Lemma ll_rep_lookup h p ps q : ll_rep h p ps → q ∈ ps → q ≠ NULL ∧ is_Some (h !! q).
Proof.
  revert p. induction ps as [|r ps IH]; intros p; [by rewrite elem_of_nil|].
  intros (-> & ? & n & Hn & Hr) [->|Hin]%elem_of_cons; eauto.
Qed.

Lemma ll_rep_head_in h p ps : ll_rep h p ps → p ≠ NULL → p ∈ ps.
Proof. intros Hr Hp. destruct (ll_rep_inv_cons _ _ _ Hp Hr) as (n & ps' & -> & _). by left. Qed.

Lemma ll_rep_head_ne h p ps q r ps2 : ll_rep h p (ps ++ q :: r :: ps2) → p ≠ r.
Proof.
  intros Hr ->. pose proof (ll_rep_nodup _ _ _ Hr) as Hnd.
  destruct ps as [|s ps]; simpl in *; destruct Hr as (-> & _);
    apply NoDup_cons in Hnd as [Hnd _]; apply Hnd; set_solver.
Qed.

Lemma heap_size_ge h ps : NoDup ps → (∀ q, q ∈ ps → is_Some (h !! q)) → (length ps ≤ size h)%nat.
Proof.
  intros Hnd Hin. rewrite <- size_dom.
  rewrite <- (size_list_to_set (C:=gset Z) ps) by done.
  apply subseteq_size. intros q. rewrite elem_of_list_to_set. intros. by apply elem_of_dom, Hin.
Qed.

Lemma ll_rep_fuel h p ps : ll_rep h p ps → (length ps ≤ size h)%nat.
Proof.
  intros Hr. apply heap_size_ge; [by eapply ll_rep_nodup|].
  intros q Hq. by eapply ll_rep_lookup.
Qed.

(** Changing the link of the last node of a segment splices a new tail. *)
Lemma ll_rep_splice h p ps q n r ps2 :
  ll_rep h p (ps ++ q :: ps2) → h !! q = Some n →
  ∀ h' tail, h' !! q = Some (ll_set_next r n) →
  (∀ x, x ∈ ps → h' !! x = h !! x) →
  ll_rep h' r tail → ll_rep h' p (ps ++ q :: tail).
Proof.
  intros Hr Hq h' tail Hq' Hf Ht. revert p Hr Hf.
  induction ps as [|s ps IH]; intros p; simpl.
  - intros (-> & Hn & m & Hm & _) _. split_and!; [done..|].
    eexists; split; [exact Hq'|]. by rewrite ll_next_set.
  - intros (-> & Hs & m & Hm & Hr) Hf. split_and!; [done..|].
    exists m. rewrite Hf by (by left). split; [done|].
    apply IH; [done|]. intros; apply Hf; by right.
Qed.

(** *** What the macros do *)

Lemma LL_PREPEND_spec h head ps add n :
  ll_rep h head ps → add ≠ NULL → add ∉ ps → h !! add = Some n →
  ∃ h', LL_PREPEND head add h = Ret add h' ∧
    ll_rep h' add (add :: ps) ∧ links_only [add] h h'.
Proof.
  intros Hr Ha Hni Hn. unfold LL_PREPEND. step (update_ok _ _ _ (ll_set_next head) Hn).
  eexists; split; [done|]. split.
  - split_and!; [done..|]. eexists. rewrite lookup_insert_eq. split; [done|].
    rewrite ll_next_set. apply (ll_rep_frame h); [|done].
    intros q Hq. rewrite lookup_insert_ne; [done|]. by intros ->.
  - apply links_only_set; [done|]. by left.
Qed.

Lemma ll_last_spec h p ps q fuel :
  ll_rep h p (ps ++ [q]) → (length ps < fuel)%nat → ll_last fuel p h = Ret q h.
Proof.
  revert p fuel. induction ps as [|r ps IH]; intros p [|fuel] Hr Hf; simpl in *; try lia.
  - destruct Hr as (-> & Hq & n & Hn & Hz). step (load_ok _ _ _ Hn).
    rewrite Hz. done.
  - destruct Hr as (-> & Hq & n & Hn & Hr). step (load_ok _ _ _ Hn).
    destruct (ll_next n =? NULL) eqn:E; bool_to_prop.
    + rewrite E in Hr. apply ll_rep_inv_null in Hr. by destruct ps.
    + apply IH; [done|lia].
Qed.

Lemma LL_APPEND_spec h head ps add n :
  ll_rep h head ps → add ≠ NULL → add ∉ ps → h !! add = Some n →
  ∃ head' h', LL_APPEND head add h = Ret head' h' ∧
    ll_rep h' head' (ps ++ [add]) ∧ links_only (add :: ps) h h'.
Proof.
  intros Hr Ha Hni Hn. unfold LL_APPEND. step (update_ok _ _ _ (ll_set_next NULL) Hn).
  set (h1 := <[add := ll_set_next NULL n]> h).
  assert (Hl1 : links_only [add] h h1) by (apply links_only_set; [done|by left]).
  assert (Hr1 : ll_rep h1 head ps).
  { eapply ll_rep_frame_links; [exact Hl1| |done].
    intros q Hq ->%list_elem_of_singleton. done. }
  assert (Ha1 : h1 !! add = Some (ll_set_next NULL n)) by apply lookup_insert_eq.
  destruct (head =? NULL) eqn:E; bool_to_prop; simpl.
  - subst head. apply ll_rep_inv_null in Hr as ->. eexists _, _; split; [done|].
    split; [|done]. simpl. split_and!; [done..|]. eexists; split; [done|].
    by rewrite ll_next_set.
  - destruct (ll_rep_inv_cons _ _ _ E Hr1) as (m & ps' & -> & _).
    destruct (exists_last (l:=head :: ps') ltac:(done)) as (ps & q & Eps).
    rewrite Eps in *. clear Eps m ps'.
    pose proof (ll_rep_fuel _ _ _ Hr1) as Hfu. rewrite length_app in Hfu. simpl in Hfu.
    step (eq_refl : fuel_of_heap h1 = Ret (S (size h1)) h1).
    step (ll_last_spec h1 head ps q (S (size h1)) Hr1 ltac:(lia)).
    destruct (ll_rep_lookup _ _ _ q Hr1 ltac:(set_solver)) as [Hq0 [m Hm]].
    step (update_ok _ _ _ (ll_set_next add) Hm).
    eexists _, _; split; [done|].
    assert (Hqa : q ≠ add) by set_solver.
    pose proof (ll_rep_nodup _ _ _ Hr1) as Hnd. apply NoDup_app in Hnd as (_ & Hnd & _).
    split.
    + rewrite <- app_assoc. simpl.
      eapply (ll_rep_splice h1); [exact Hr1|exact Hm| | |].
      * apply lookup_insert_eq.
      * intros x Hx. rewrite lookup_insert_ne; [done|]. intros ->. apply (Hnd x Hx). by left.
      * simpl. split_and!; [done..|]. exists (ll_set_next NULL n).
        rewrite lookup_insert_ne by done. by rewrite ll_next_set.
    + eapply links_only_trans;
        [exact Hl1|apply (links_only_set [q]); [exact Hm|by left]|set_solver..].
Qed.

Lemma ll_pred_spec h p ps q del ps2 fuel :
  ll_rep h p (ps ++ q :: del :: ps2) → (length ps < fuel)%nat →
  ll_pred fuel p del h = Ret q h.
Proof.
  intros Hr. pose proof (ll_rep_nodup _ _ _ Hr) as Hnd. revert p fuel Hr Hnd.
  induction ps as [|r ps IH]; intros p [|fuel] Hr Hnd Hf; simpl in *; try lia.
  - destruct Hr as (-> & Hq & n & Hn & (Hnx & _)). step (load_ok _ _ _ Hn).
    by rewrite Hnx, Z.eqb_refl, orb_true_r.
  - destruct Hr as (-> & Hq & n & Hn & Hr). step (load_ok _ _ _ Hn).
    assert (ll_next n ≠ NULL ∧ ll_next n ≠ del) as [H1 H2].
    { apply NoDup_cons in Hnd as [_ Hnd]. destruct ps as [|s ps]; simpl in *.
      - destruct Hr as (E & ? & _). rewrite E. split; [done|]. intros ->.
        apply NoDup_cons in Hnd as [Hnd _]. apply Hnd. by left.
      - destruct Hr as (E & ? & _). rewrite E. split; [done|]. intros ->.
        apply NoDup_cons in Hnd as [Hnd _]. apply Hnd. set_solver. }
    apply Z.eqb_neq in H1, H2. rewrite H1, H2. simpl.
    apply IH; [done| |lia]. by apply NoDup_cons in Hnd as [_ Hnd].
Qed.

Lemma LL_DELETE_spec h head ps1 del ps2 :
  ll_rep h head (ps1 ++ del :: ps2) →
  ∃ head' h', LL_DELETE head del h = Ret head' h' ∧
    ll_rep h' head' (ps1 ++ ps2) ∧ links_only ps1 h h'.
Proof.
  intros Hr. pose proof (ll_rep_nodup _ _ _ Hr) as Hnd. unfold LL_DELETE.
  destruct ps1 as [|p ps1] using rev_ind; [|clear IHps1].
  - destruct Hr as (-> & ? & n & Hn & Hr). rewrite Z.eqb_refl. step (load_ok _ _ _ Hn).
    eexists _, _; split; [done|]. split; [done|apply links_only_refl].
  - rewrite <- app_assoc in Hr; simpl in Hr.
    rewrite (proj2 (Z.eqb_neq _ _) (ll_rep_head_ne _ _ _ _ _ _ Hr)).
    pose proof (ll_rep_fuel _ _ _ Hr) as Hfu. rewrite length_app in Hfu. simpl in Hfu.
    step (eq_refl : fuel_of_heap h = Ret (S (size h)) h).
    step (ll_pred_spec h head ps1 p del ps2 (S (size h)) Hr ltac:(lia)).
    destruct (ll_rep_app _ _ _ _ Hr) as (q & (-> & Hq & m & Hm & (Hnx & Hd & d & Hdl & Hr2)) & _).
    step (load_ok _ _ _ Hm). rewrite Hnx.
    apply Z.eqb_neq in Hd as Hd'. rewrite Hd'. simpl.
    step (load_ok _ _ _ Hdl). step (update_ok _ _ _ (ll_set_next (ll_next d)) Hm).
    eexists _, _; split; [done|]. rewrite <- !app_assoc in Hnd. simpl in Hnd.
    apply NoDup_split in Hnd as (Hp1 & Hp2 & _ & _).
    split.
    + rewrite <- app_assoc. simpl.
      eapply (ll_rep_splice h); [exact Hr|exact Hm|apply lookup_insert_eq| |].
      * intros x Hx. rewrite lookup_insert_ne; [done|]. by intros ->.
      * eapply ll_rep_frame; [|exact Hr2]. intros x Hx. rewrite lookup_insert_ne; [done|].
        intros ->. set_solver.
    + apply links_only_set; [done|set_solver].
Qed.

Lemma LL_PREPEND_ELEM_spec h head ps1 el ps2 add n :
  ll_rep h head (ps1 ++ el :: ps2) → add ≠ NULL → add ∉ ps1 ++ el :: ps2 → h !! add = Some n →
  ∃ head' h', LL_PREPEND_ELEM head el add h = Ret head' h' ∧
    ll_rep h' head' (ps1 ++ add :: el :: ps2) ∧ links_only (add :: ps1) h h'.
Proof.
  intros Hr Ha Hni Hn. pose proof (ll_rep_nodup _ _ _ Hr) as Hnd. unfold LL_PREPEND_ELEM.
  assert (Hhd : head ≠ NULL).
  { intros ->. apply ll_rep_inv_null in Hr. by destruct ps1. }
  destruct (ll_rep_lookup _ _ _ el Hr ltac:(set_solver)) as [Hel _].
  rewrite (proj2 (Z.eqb_neq _ _) Hhd), (proj2 (Z.eqb_neq _ _) Hel), (proj2 (Z.eqb_neq _ _) Ha).
  simpl. do 3 step (ret_ok tt h).
  step (update_ok _ _ _ (ll_set_next el) Hn).
  set (h1 := <[add := ll_set_next el n]> h).
  assert (Hl1 : links_only [add] h h1) by (apply links_only_set; [done|by left]).
  assert (Hr1 : ll_rep h1 head (ps1 ++ el :: ps2)).
  { eapply ll_rep_frame_links; [exact Hl1| |done].
    intros q Hq ->%list_elem_of_singleton. done. }
  assert (Ha1 : h1 !! add = Some (ll_set_next el n)) by apply lookup_insert_eq.
  assert (Htail : ∀ h2, h2 !! add = h1 !! add → ll_rep h2 el (el :: ps2) →
                  ll_rep h2 add (add :: el :: ps2)).
  { intros h2 E2 Hr2. split_and!; [done..|]. eexists; split; [by rewrite E2|].
    by rewrite ll_next_set. }
  destruct (ll_rep_app _ _ _ _ Hr1) as (q & Hrel & Hq).
  assert (q = el) as -> by apply Hrel.
  destruct ps1 as [|p ps1] using rev_ind; [|clear IHps1].
  - rewrite <- Hq, Z.eqb_refl by done. eexists _, _; split; [done|]. simpl.
    split; [by apply Htail|done].
  - rewrite <- app_assoc in Hr1; simpl in Hr1.
    rewrite (proj2 (Z.eqb_neq _ _) (ll_rep_head_ne _ _ _ _ _ _ Hr1)).
    pose proof (ll_rep_fuel _ _ _ Hr1) as Hfu. rewrite length_app in Hfu. simpl in Hfu.
    step (eq_refl : fuel_of_heap h1 = Ret (S (size h1)) h1).
    step (ll_pred_spec h1 head ps1 p el ps2 (S (size h1)) Hr1 ltac:(lia)).
    destruct (ll_rep_app _ _ _ _ Hr1) as (q & (-> & Hp & m & Hm & (Hnx & Hd & _)) & _).
    step (load_ok _ _ _ Hm). rewrite Hnx, (proj2 (Z.eqb_neq _ _) Hd). simpl.
    step (update_ok _ _ _ (ll_set_next add) Hm).
    eexists _, _; split; [done|]. rewrite <- !app_assoc in Hnd. simpl in Hnd.
    apply NoDup_split in Hnd as (Hp1 & Hp2 & _ & _).
    assert (p ≠ add) by set_solver.
    split.
    + rewrite <- app_assoc. simpl.
      eapply (ll_rep_splice h1); [exact Hr1|exact Hm|apply lookup_insert_eq| |].
      * intros x Hx. rewrite lookup_insert_ne; [done|]. by intros ->.
      * apply Htail; [by rewrite lookup_insert_ne|].
        eapply ll_rep_frame; [|exact Hrel]. intros x Hx. rewrite lookup_insert_ne; [done|].
        intros ->. set_solver.
    + eapply links_only_trans;
        [exact Hl1|apply (links_only_set [p]); [exact Hm|by left]|set_solver..].
Qed.
End LL.
