(* ===== verification/MemUtil.v ===== *)
(** * kernel/utils/mem.c and kernel/mm/layout.c

    Alignment arithmetic, integer logarithms, the byte-level memory routines
    and the bump allocator [kalloc_static], which hands out the memory between
    the end of the kernel image and the end of its first 4MB mapping. *)

From stdpp Require Import base numbers list gmap strings fin_maps.
From S2P Require Import Prelude.

(** ** Alignment *)

Definition PAGE_SIZE : Z := 4096.

Definition align_address (address align : Z) : Z :=
  Z.land (u32 (address + align - 1)) (u32 (Z.lnot (u32 (align - 1)))).

Definition align_padding (address align : Z) : Z :=
  Z.land (u32 (- address)) (u32 (align - 1)).

Definition align_address_down (address align : Z) : Z :=
  Z.land address (u32 (Z.lnot (u32 (align - 1)))).

Definition align_padding_down (address align : Z) : Z :=
  Z.land address (u32 (align - 1)).

Definition page_align (addr : Z) : Z := align_address addr PAGE_SIZE.
Definition page_align_down (addr : Z) : Z := align_address_down addr PAGE_SIZE.

(** The alignments the kernel uses are powers of two. *)
Definition pow2_32 (a : Z) : Prop := ∃ k, 0 ≤ k < 32 ∧ a = 2 ^ k.

(** ** Logarithms and sizes for humans *)

(** The loop [while(n > 1) { i++; n >>= 1; }] shared by [log2_i], [log2_l],
    [log2_32] and [log2_64]; a [w]-bit argument needs fewer than [w] rounds. *)
Fixpoint log2_loop (fuel : nat) (n i : Z) : Z :=
  match fuel with
  | O => i
  | S fuel => if 1 <? n then log2_loop fuel (Z.shiftr n 1) (u32 (i + 1)) else i
  end.

Definition log2_i (n : Z) : Z := log2_loop 32 n 0.
Definition log2_l (n : Z) : Z := log2_loop 32 n 0.
Definition log2_32 (n : Z) : Z := log2_loop 32 n 0.
Definition log2_64 (n : Z) : Z := log2_loop 64 n 0.

(** [memory_calc_human_size]: the value stored in [*result] is a [size_t]. *)
Fixpoint human_size_loop (fuel : nat) (size units : Z) : Z * Z :=
  match fuel with
  | O => (size, units)
  | S fuel => if 1024 <=? size then human_size_loop fuel (size / 1024) (units + 1)
              else (size, units)
  end.

Definition memory_calc_human_size (size : Z) : Z * Z :=
  let '(size, units) := human_size_loop 7 size 0 in (u32 size, units).

(** ** Byte memory *)

(** Mapped bytes; an access outside them faults. *)
Abbreviation bytes := (gmap Z Z).

Definition load8 (p : Z) : M bytes Z := λ m,
  match m !! p with Some b => Ret b m | None => Fault end.

Definition store8 (p b : Z) : M bytes unit := λ m,
  match m !! p with Some _ => Ret tt (<[p := b]> m) | None => Fault end.

(** A store of an [unsigned long], least significant byte first. *)
Definition store32 (p w : Z) : M bytes unit :=
  store8 p (u8 w);;
  store8 (u32 (p + 1)) (u8 (Z.shiftr w 8));;
  store8 (u32 (p + 2)) (u8 (Z.shiftr w 16));;
  store8 (u32 (p + 3)) (u8 (Z.shiftr w 24)).

Definition FILL_LONG_WITH_BYTE (b : Z) : Z :=
  Z.lor b (Z.lor (Z.shiftl b 8) (Z.lor (Z.shiftl b 16) (Z.shiftl b 24))).

(** [for(i = 0; i < n; i++) b_addr[i] = value;] *)
Fixpoint fill_bytes (n : nat) (p value : Z) : M bytes unit :=
  match n with
  | O => mret tt
  | S n => store8 p value;; fill_bytes n (u32 (p + 1)) value
  end.

(** The same loop over words, [i += sizeof(long)]; [n] counts its rounds. *)
Fixpoint fill_words (n : nat) (p w : Z) : M bytes unit :=
  match n with
  | O => mret tt
  | S n => store32 p w;; fill_words n (u32 (p + 4)) w
  end.

Definition memset (addr value len : Z) : M bytes Z :=
  let word_value := FILL_LONG_WITH_BYTE value in
  let len_beginning := align_padding addr 4 in
  let len_middle := u32 (len - len_beginning) in
  let len_end := align_padding_down len_middle 4 in
  let len_middle := u32 (len_middle - len_end) in
  fill_bytes (Z.to_nat len_beginning) addr value;;
  let word_addr := u32 (addr + len_beginning) in
  fill_words (Z.to_nat (len_middle / 4)) word_addr word_value;;
  fill_bytes (Z.to_nat len_end) (u32 (word_addr + len_middle)) value;;
  mret addr.

Fixpoint kmemcpy_b_fwd (n : nat) (dest src : Z) : M bytes unit :=
  match n with
  | O => mret tt
  | S n =>
      b ← load8 src;
      store8 dest b;;
      kmemcpy_b_fwd n (u32 (dest + 1)) (u32 (src + 1))
  end.

Fixpoint kmemcpy_b_rev (n : nat) (dest src : Z) : M bytes unit :=
  match n with
  | O => mret tt
  | S n =>
      b ← load8 (u32 (src + Z.of_nat n));
      store8 (u32 (dest + Z.of_nat n)) b;;
      kmemcpy_b_rev n dest src
  end.

(** The function has no [return] statement; its effect on memory is modelled,
    its return value is not. *)
Definition memmove (dest src len : Z) : M bytes unit :=
  if dest <? src then kmemcpy_b_fwd (Z.to_nat len) dest src
  else kmemcpy_b_rev (Z.to_nat len) dest src.

Definition memcpy (dest src len : Z) : M bytes unit := memmove dest src len.

(** ** The kernel layout and static allocation *)

Record layout := Layout {
  segment_start : Z;
  memory_start : Z;
  memory_end : Z
}.

Abbreviation PT_SPAN := 4194304 (only parsing). (* PAGE_SIZE * PT_ENTRIES *)

(** [KERNEL_VMA] and [_end] are addresses the linker script fixes. *)
Definition layout_init (KERNEL_VMA _end : Z) : layout :=
  Layout KERNEL_VMA (u32 (_end + 4096)) (align_address _end PT_SPAN).

Definition physical_address (l : layout) (kernel_address : Z) : Z :=
  u32 (kernel_address - segment_start l).

Definition oom_msg : string := "kalloc_static start > end. OOM".

Definition kalloc_static (size align : Z) : M layout Z :=
  let align := if align =? 0 then 4 else align in
  l ← get;
  let addr := align_address (memory_start l) align in
  let start := u32 (addr + size) in
  put (Layout (segment_start l) start (memory_end l));;
  if memory_end l <? start then panic oom_msg
  else mret addr.

Definition kalloc_dup_static (src size align : Z) : M (layout * bytes) Z :=
  dest ← zoom fst (λ l s, (l, snd s)) (kalloc_static size align);
  zoom snd (λ m s, (fst s, m)) (memcpy dest src size);;
  mret dest.

(** ** Lemmas on alignment *)

Lemma land_u32_r x y : 0 ≤ x < W32 → Z.land x (u32 y) = Z.land x y.
Proof.
  intros Hx. unfold u32. change W32 with (2 ^ 32). rewrite <- (Z.land_ones y 32) by lia.
  rewrite (Z.land_comm y), Z.land_assoc, Z.land_ones by lia.
  by rewrite Z.mod_small by lia.
Qed.

Lemma land_mask_low x k : 0 ≤ k → Z.land x (2 ^ k - 1) = x mod 2 ^ k.
Proof. intros. rewrite <- Z.land_ones, Z.ones_equiv by lia. f_equal. Qed.

Lemma land_mask_high x k : 0 ≤ k → Z.land x (Z.lnot (2 ^ k - 1)) = x - x mod 2 ^ k.
Proof.
  intros. replace (2 ^ k - 1) with (Z.ones k) by (rewrite Z.ones_equiv; lia).
  rewrite <- Z.ldiff_land, Z.ldiff_ones_r, Z.shiftl_mul_pow2, Z.shiftr_div_pow2 by lia.
  pose proof (Z.div_mod x (2 ^ k)). lia.
Qed.

Lemma pow2_32_bounds a : pow2_32 a → 1 ≤ a ≤ 2147483648 ∧ (a | W32).
Proof.
  intros (k & Hk & ->). split.
  - split; [change 1 with (2 ^ 0); apply Z.pow_le_mono_r; lia|].
    change 2147483648 with (2 ^ 31). apply Z.pow_le_mono_r; lia.
  - change W32 with (2 ^ 32). exists (2 ^ (32 - k)). rewrite <- Z.pow_add_r by lia. f_equal. lia.
Qed.

Lemma align_padding_down_eq x a :
  pow2_32 a → 0 ≤ x < W32 → align_padding_down x a = x mod a.
Proof.
  intros Ha Hx. pose proof (pow2_32_bounds a Ha) as [? _]. destruct Ha as (k & Hk & ->).
  unfold align_padding_down. rewrite u32_small by lia. apply land_mask_low; lia.
Qed.

Lemma align_padding_eq x a : pow2_32 a → align_padding x a = (- x) mod a.
Proof.
  intros Ha. pose proof (pow2_32_bounds a Ha) as [? Hd]. destruct Ha as (k & Hk & ->).
  unfold align_padding. rewrite (u32_small (2 ^ k - 1)) by lia.
  rewrite land_mask_low by lia. unfold u32. rewrite <- Znumtheory.Zmod_div_mod; [done|lia|lia|done].
Qed.

Lemma align_address_down_eq x a :
  pow2_32 a → 0 ≤ x < W32 → align_address_down x a = x - x mod a.
Proof.
  intros Ha Hx. pose proof (pow2_32_bounds a Ha) as [? _]. destruct Ha as (k & Hk & ->).
  unfold align_address_down. rewrite (u32_small (2 ^ k - 1)) by lia.
  rewrite land_u32_r by lia. apply land_mask_high; lia.
Qed.

(** Rounding up in closed form, when the sum does not leave 32 bits. *)
Lemma align_address_eq x a :
  pow2_32 a → 0 ≤ x → x + a - 1 < W32 →
  align_address x a = x + (- x) mod a.
Proof.
  intros Ha Hx Hlt. pose proof (pow2_32_bounds a Ha) as [? _]. destruct Ha as (k & Hk & ->).
  unfold align_address. rewrite (u32_small (_ + _ - 1)) by lia. rewrite (u32_small (2 ^ k - 1)) by lia.
  rewrite land_u32_r by lia. rewrite land_mask_high by lia.
  set (a := 2 ^ k) in *.
  pose proof (Z.div_mod (- x) a ltac:(lia)). pose proof (Z.mod_pos_bound (- x) a ltac:(lia)).
  rewrite <- (Z.mod_unique_pos (x + a - 1) a (- ((- x) / a)) (a - 1 - (- x) mod a)); lia.
Qed.

(** When the sum does leave 32 bits the result is zero. *)
Lemma align_address_wrap x a :
  pow2_32 a → x < W32 → W32 ≤ x + a - 1 → align_address x a = 0.
Proof.
  intros Ha Hx Hge. pose proof (pow2_32_bounds a Ha) as [? _]. destruct Ha as (k & Hk & ->).
  unfold align_address. rewrite (u32_small (2 ^ k - 1)) by lia.
  rewrite land_u32_r by apply u32_range. rewrite land_mask_high by lia.
  replace (u32 (x + 2 ^ k - 1)) with (x + 2 ^ k - 1 - W32) by wrap.
  rewrite Z.mod_small by lia. lia.
Qed.

Lemma align_address_bounds x a :
  pow2_32 a → 0 ≤ x → x + a - 1 < W32 →
  x ≤ align_address x a < x + a ∧ (a | align_address x a).
Proof.
  intros Ha Hx Hlt. rewrite align_address_eq by done.
  pose proof (pow2_32_bounds a Ha) as [? _].
  pose proof (Z.mod_pos_bound (- x) a). split; [lia|].
  apply Z.mod_divide; [lia|]. rewrite Zplus_mod_idemp_r. by rewrite Z.add_opp_diag_r.
Qed.

Lemma align_address_least x a y :
  pow2_32 a → 0 ≤ x → x + a - 1 < W32 → (a | y) → x ≤ y → align_address x a ≤ y.
Proof.
  intros Ha Hx Hlt Hd Hxy. rewrite align_address_eq by done.
  pose proof (pow2_32_bounds a Ha) as [? _].
  assert ((- x) mod a = (y - x) mod a) as ->.
  { destruct Hd as [k ->]. replace (k * a - x) with (- x + k * a) by lia. by rewrite Z.mod_add by lia. }
  pose proof (Z.mod_le (y - x) a). lia.
Qed.

Lemma align_address_id x a :
  pow2_32 a → 0 ≤ x → x + a - 1 < W32 → (a | x) → align_address x a = x.
Proof.
  intros Ha Hx Hlt Hd. rewrite align_address_eq by done.
  pose proof (pow2_32_bounds a Ha) as [? _].
  rewrite (Z.mod_opp_l_z x a); [lia|lia|]. by apply Z.mod_divide; [lia|].
Qed.

(** An aligned address is its own alignment, up to the end of memory. *)
Lemma align_edge x a : pow2_32 a → (a | x) → 0 ≤ x < W32 → align_address x a = x.
Proof.
  intros Ha Hd Hx. destruct (Z.lt_ge_cases (x + a - 1) W32); [by apply align_address_id; [|lia|..]|].
  exfalso. pose proof (pow2_32_bounds a Ha). destruct Ha as (k & Hk & ->), Hd as [m ->].
  assert (HW : W32 = 2 ^ (32 - k) * 2 ^ k) by (rewrite <- Z.pow_add_r by lia; by replace (32 - k + k) with 32 by lia).
  destruct (Z.lt_ge_cases m (2 ^ (32 - k))); nia.
Qed.

Lemma pow2_32_4 : pow2_32 4.
Proof. exists 2. split; [lia|reflexivity]. Qed.

Lemma pow2_32_page : pow2_32 PAGE_SIZE.
Proof. exists 12. split; [lia|reflexivity]. Qed.

(** ** Lemmas on static allocation *)

(** One more object of [size] bytes fits below [memory_end]. *)
Definition static_room (l : layout) (size align : Z) : Prop :=
  align_address (memory_start l) align + size ≤ memory_end l.

(** The static break moved up by at most [n] bytes. *)
Definition lay_grows (n : Z) (l l' : layout) : Prop :=
  segment_start l' = segment_start l ∧ memory_end l' = memory_end l ∧
  memory_start l ≤ memory_start l' ≤ memory_start l + n.

Lemma lay_grows_refl n l : 0 ≤ n → lay_grows n l l.
Proof. unfold lay_grows. intuition lia. Qed.

Lemma lay_grows_trans n m l1 l2 l3 :
  lay_grows n l1 l2 → lay_grows m l2 l3 → lay_grows (n + m) l1 l3.
Proof. unfold lay_grows. intuition (congruence || lia). Qed.

Lemma kalloc_static_ok l size align :
  align ≠ 0 → 0 ≤ size → 0 ≤ memory_end l < W32 →
  0 ≤ align_address (memory_start l) align → static_room l size align →
  let a := align_address (memory_start l) align in
  kalloc_static size align l = Ret a (Layout (segment_start l) (a + size) (memory_end l)).
Proof.
  intros Ha Hs He Hp Hr a. unfold kalloc_static. apply Z.eqb_neq in Ha. rewrite Ha.
  step (eq_refl : get l = Ret l l). fold a. unfold static_room in Hr. fold a in Hr, Hp.
  rewrite u32_small by lia.
  step (eq_refl : put (Layout (segment_start l) (a + size) (memory_end l)) l
         = Ret tt (Layout (segment_start l) (a + size) (memory_end l))).
  destruct (memory_end l <? a + size) eqn:E; [bool_to_prop; lia|done].
Qed.
