(* ===== verification/Bytes.v ===== *)
(** * Runs of bytes in memory

    The representation of arrays and of NUL-terminated strings in the byte
    memory of MemUtil.v, and the effect of [memset], [memmove] and [memcpy]
    of kernel/utils/mem.c on it. *)

From stdpp Require Import base numbers list gmap strings fin_maps.
From S2P Require Import Prelude UtList MemUtil.

(** The bytes [bs] are found from [p] on. *)
Definition array (m : bytes) (p : Z) (bs : list Z) : Prop :=
  ∀ i b, bs !! i = Some b → m !! (p + Z.of_nat i) = Some b.

(** The [n] bytes from [p] on can be accessed. *)
Definition mapped (m : bytes) (p n : Z) : Prop := ∀ x, p ≤ x < p + n → is_Some (m !! x).

(** The memory with the bytes [bs] stored from [p] on. *)
Fixpoint write_at (p : Z) (bs : list Z) (m : bytes) : bytes :=
  match bs with
  | [] => m
  | b :: bs => write_at (p + 1) bs (<[p := b]> m)
  end.

(** A NUL-terminated string. *)
Record cstr (m : bytes) (p : Z) (bs : list Z) : Prop := {
  cstr_array : array m p (bs ++ [0]);
  cstr_bytes : Forall (λ b, 0 < b < W8) bs;
  cstr_low : 0 ≤ p;
  cstr_high : p + Z.of_nat (length bs) < W32
}.

Implicit Types (m : bytes) (bs : list Z) (p : Z).

Lemma array_nil m p : array m p [].
Proof. intros i b. by rewrite lookup_nil. Qed.

Lemma array_cons m p b bs : array m p (b :: bs) ↔ m !! p = Some b ∧ array m (p + 1) bs.
Proof.
  split.
  - intros H. split; [rewrite <- (Z.add_0_r p); by apply (H 0%nat)|].
    intros i c E. rewrite <- (H (S i) c E). f_equal. lia.
  - intros [H0 H] [|i] c E; simpl in E; [simplify_eq; by rewrite Z.add_0_r|].
    rewrite <- (H i c E). f_equal. lia.
Qed.

Lemma array_app m p bs bs' : array m p (bs ++ bs') ↔ array m p bs ∧ array m (p + Z.of_nat (length bs)) bs'.
Proof.
  revert p. induction bs as [|b bs IH]; intros p; simpl.
  - rewrite Z.add_0_r. split; [intros ?; split; [apply array_nil|done]|by intros [_ ?]].
  - rewrite !array_cons, IH. replace (p + Z.of_nat (S (length bs))) with (p + 1 + Z.of_nat (length bs)) by lia. tauto.
Qed.

Lemma array_mapped m p bs : array m p bs → mapped m p (Z.of_nat (length bs)).
Proof.
  intros H x Hx. destruct (lookup_lt_is_Some_2 bs (Z.to_nat (x - p))) as [b E]; [lia|].
  apply H in E. exists b. rewrite <- E. f_equal. lia.
Qed.

Lemma array_ext m m' p bs :
  (∀ x, p ≤ x < p + Z.of_nat (length bs) → m' !! x = m !! x) → array m p bs → array m' p bs.
Proof. intros He H i b E. rewrite He; [by apply H|]. apply lookup_lt_Some in E. lia. Qed.

Lemma mapped_mono m m' p n : (∀ x, is_Some (m !! x) → is_Some (m' !! x)) → mapped m p n → mapped m' p n.
Proof. intros He H x Hx. auto. Qed.

Lemma mapped_insert m p n q b : mapped m p n → mapped (<[q := b]> m) p n.
Proof.
  apply mapped_mono. intros x Hx. destruct (decide (q = x)) as [->|]; [by rewrite lookup_insert_eq|].
  by rewrite lookup_insert_ne.
Qed.

Lemma write_at_lookup bs m p x :
  write_at p bs m !! x = if decide (p ≤ x < p + Z.of_nat (length bs)) then bs !! Z.to_nat (x - p) else m !! x.
Proof.
  revert m p. induction bs as [|b bs IH]; intros m p; cbn [write_at length]; [by rewrite decide_False by lia|].
  rewrite IH. destruct (decide (p = x)) as [->|Hx].
  - rewrite decide_False, decide_True by lia. rewrite lookup_insert_eq. by rewrite Z.sub_diag.
  - destruct (decide (p + 1 ≤ x < _)) as [Hi|Hi].
    + rewrite decide_True by lia. by replace (Z.to_nat (x - p)) with (S (Z.to_nat (x - (p + 1)))) by lia.
    + rewrite decide_False by lia. by rewrite lookup_insert_ne.
Qed.

Lemma write_at_app bs bs' m p : write_at p (bs ++ bs') m = write_at (p + Z.of_nat (length bs)) bs' (write_at p bs m).
Proof.
  revert m p. induction bs as [|b bs IH]; intros m p; simpl; [by rewrite Z.add_0_r|].
  rewrite IH. f_equal. lia.
Qed.

Lemma write_at_insert bs m p q b :
  ¬ p ≤ q < p + Z.of_nat (length bs) → write_at p bs (<[q := b]> m) = <[q := b]> (write_at p bs m).
Proof.
  intros Hq. apply map_eq. intros x. rewrite write_at_lookup. destruct (decide (x = q)) as [->|Hx].
  - by rewrite decide_False, !lookup_insert_eq.
  - by rewrite !lookup_insert_ne, write_at_lookup by done.
Qed.

Lemma write_at_array bs m p : array (write_at p bs m) p bs.
Proof.
  intros i b E. pose proof (lookup_lt_Some _ _ _ E). rewrite write_at_lookup, decide_True by lia.
  by replace (Z.to_nat (p + Z.of_nat i - p)) with i by lia.
Qed.

Lemma write_at_other bs m p q bs' :
  q + Z.of_nat (length bs') ≤ p ∨ p + Z.of_nat (length bs) ≤ q → array m q bs' → array (write_at p bs m) q bs'.
Proof. intros Hd. apply array_ext. intros x Hx. rewrite write_at_lookup, decide_False; [done|]. lia. Qed.

Lemma write_at_mapped bs m p q n : mapped m q n → mapped (write_at p bs m) q n.
Proof.
  apply mapped_mono. intros x Hx. rewrite write_at_lookup. case_decide; [|done]. apply lookup_lt_is_Some. lia.
Qed.

Lemma load8_ok m p b : m !! p = Some b → load8 p m = Ret b m.
Proof. intros E. unfold load8. by rewrite E. Qed.

Lemma store8_ok m p b : is_Some (m !! p) → store8 p b m = Ret tt (<[p := b]> m).
Proof. intros [c E]. unfold store8. by rewrite E. Qed.

(** ** Filling and copying *)

(** The bytes of a 32-bit word in memory. *)
Definition le32 (w : Z) : list Z := [u8 w; u8 (Z.shiftr w 8); u8 (Z.shiftr w 16); u8 (Z.shiftr w 24)].

Lemma store32_ok m p w : mapped m p 4 → 0 ≤ p → p + 4 ≤ W32 → store32 p w m = Ret tt (write_at p (le32 w) m).
Proof.
  intros Hm Hp He. unfold store32. rewrite !u32_small by lia.
  assert (Hi : ∀ m' q b, mapped m' p 4 → p ≤ q < p + 4 → store8 q b m' = Ret tt (<[q := b]> m') ∧ mapped (<[q := b]> m') p 4).
  { intros m' q b Hm' Hq. split; [apply store8_ok; by apply Hm'|by apply mapped_insert]. }
  destruct (Hi m p (u8 w) Hm ltac:(lia)) as [S0 M0]. step S0.
  destruct (Hi _ (p + 1) (u8 (Z.shiftr w 8)) M0 ltac:(lia)) as [S1 M1]. step S1.
  destruct (Hi _ (p + 2) (u8 (Z.shiftr w 16)) M1 ltac:(lia)) as [S2 M2]. step S2.
  destruct (Hi _ (p + 3) (u8 (Z.shiftr w 24)) M2 ltac:(lia)) as [S3 M3]. rewrite S3.
  cbn [le32 write_at]. by rewrite <- !Z.add_assoc.
Qed.

Lemma fill_bytes_spec n m p v :
  mapped m p (Z.of_nat n) → 0 ≤ p → p + Z.of_nat n ≤ W32 →
  fill_bytes n p v m = Ret tt (write_at p (replicate n v) m).
Proof.
  revert m p. induction n as [|n IH]; intros m p Hm Hp He; [done|]. cbn [fill_bytes replicate write_at].
  step (store8_ok m p v ltac:(apply Hm; lia)). destruct n as [|n]; [done|].
  rewrite u32_small by lia. apply IH; [|lia..]. apply mapped_insert. intros x Hx. apply Hm. lia.
Qed.

Lemma fill_byte_bytes v : 0 ≤ v < W8 →
  let w := FILL_LONG_WITH_BYTE v in u8 w = v ∧ u8 (Z.shiftr w 8) = v ∧ u8 (Z.shiftr w 16) = v ∧ u8 (Z.shiftr w 24) = v.
Proof.
  intros Hv w. unfold w, FILL_LONG_WITH_BYTE, u8.
  assert (Hh : ∀ i, 8 ≤ i → Z.testbit v i = false).
  { intros i Hi. destruct (decide (v = 0)) as [->|]; [apply Z.bits_0|]. apply Z.bits_above_log2; [lia|].
    apply Z.log2_lt_pow2; [lia|]. apply Z.lt_le_trans with (2 ^ 8); [lia|]. apply Z.pow_le_mono_r; lia. }
  assert (Hw : ∀ k, 0 ≤ k → k ∈ [0; 8; 16; 24] →
    Z.shiftr (Z.lor v (Z.lor (Z.shiftl v 8) (Z.lor (Z.shiftl v 16) (Z.shiftl v 24)))) k mod W8 = v).
  { intros k Hk Hin. change W8 with (2 ^ 8). apply Z.bits_inj'. intros i Hi.
    destruct (Z_lt_le_dec i 8) as [Hlt|Hge]; [|by rewrite Z.mod_pow2_bits_high, Hh by lia].
    rewrite Z.mod_pow2_bits_low, Z.shiftr_spec, !Z.lor_spec, !Z.shiftl_spec by lia.
    repeat (apply elem_of_cons in Hin as [->|Hin]; [|]); [..|by apply elem_of_nil in Hin];
      repeat match goal with
      | |- context [Z.testbit v ?j] =>
          lazymatch j with i => fail | _ => first [rewrite (Z.testbit_neg_r v j) by lia | rewrite (Hh j) by lia | replace j with i by lia] end
      end; by rewrite ?orb_false_r, ?orb_false_l. }
  split; [rewrite <- (Z.shiftr_0_r (Z.lor _ _)) at 1|split; [|split]]; apply Hw; first [lia|set_solver].
Qed.

Lemma store32_fill m p v :
  mapped m p 4 → 0 ≤ p → p + 4 ≤ W32 → 0 ≤ v < W8 →
  store32 p (FILL_LONG_WITH_BYTE v) m = Ret tt (write_at p (replicate 4 v) m).
Proof.
  intros Hm Hp He Hv. destruct (fill_byte_bytes v Hv) as (E0 & E1 & E2 & E3). unfold store32.
  rewrite E0, E1, E2, E3, !u32_small by lia.
  assert (Hi : ∀ m' q, mapped m' p 4 → p ≤ q < p + 4 → store8 q v m' = Ret tt (<[q := v]> m') ∧ mapped (<[q := v]> m') p 4).
  { intros m' q Hm' Hq. split; [apply store8_ok; by apply Hm'|by apply mapped_insert]. }
  destruct (Hi m p Hm ltac:(lia)) as [S0 M0]. step S0.
  destruct (Hi _ (p + 1) M0 ltac:(lia)) as [S1 M1]. step S1.
  destruct (Hi _ (p + 2) M1 ltac:(lia)) as [S2 M2]. step S2.
  destruct (Hi _ (p + 3) M2 ltac:(lia)) as [S3 M3]. rewrite S3.
  cbn [replicate write_at]. by rewrite <- !Z.add_assoc.
Qed.

Lemma fill_words_spec n m p v :
  mapped m p (4 * Z.of_nat n) → 0 ≤ p → p + 4 * Z.of_nat n ≤ W32 → 0 ≤ v < W8 →
  fill_words n p (FILL_LONG_WITH_BYTE v) m = Ret tt (write_at p (replicate (4 * n) v) m).
Proof.
  intros Hm Hp He Hv. revert m p Hm Hp He. induction n as [|n IH]; intros m p Hm Hp He; [done|].
  cbn [fill_words]. step (store32_fill m p v ltac:(intros x Hx; apply Hm; lia) Hp ltac:(lia) Hv).
  replace (4 * S n)%nat with (4 + 4 * n)%nat by lia. rewrite replicate_add, write_at_app.
  rewrite length_replicate. destruct n as [|n]; [done|].
  rewrite u32_small by lia. apply IH; [|lia..]. apply write_at_mapped. intros x Hx. apply Hm. lia.
Qed.

Lemma pow2_4 : pow2_32 4.
Proof. by exists 2. Qed.

(** [memset] fills exactly the [len] bytes from [addr] on, provided the
    range reaches the first word boundary. *)
Theorem memset_fills m addr v len :
  0 ≤ v < W8 → 0 ≤ addr → 0 ≤ len → addr + len ≤ W32 - 1 → mapped m addr len → (- addr) mod 4 ≤ len →
  memset addr v len m = Ret addr (write_at addr (replicate (Z.to_nat len) v) m).
Proof.
  intros Hv Ha Hl He Hm Hpad. unfold memset. rewrite align_padding_eq by exact pow2_4.
  set (b := (- addr) mod 4) in *. assert (0 ≤ b < 4) by (apply Z.mod_pos_bound; lia).
  rewrite (u32_small (len - b)) by lia. rewrite align_padding_down_eq by (exact pow2_4 || lia).
  set (e := (len - b) mod 4). assert (0 ≤ e < 4) by (apply Z.mod_pos_bound; lia).
  assert (Hq : len - b - e = 4 * ((len - b) / 4)) by (unfold e; pose proof (Z.div_mod (len - b) 4); lia).
  set (q := (len - b) / 4) in *. assert (0 ≤ q) by lia.
  rewrite (u32_small (len - b - e)) by lia. rewrite Hq, (Z.mul_comm 4 q), Z.div_mul by lia.
  rewrite (u32_small (addr + b)), (u32_small (addr + b + q * 4)) by lia.
  step (fill_bytes_spec (Z.to_nat b) m addr v ltac:(intros x Hx; apply Hm; lia) Ha ltac:(lia)).
  set (m1 := write_at addr (replicate (Z.to_nat b) v) m).
  assert (Hm1 : mapped m1 addr len) by (by apply write_at_mapped).
  step (fill_words_spec (Z.to_nat q) m1 (addr + b) v ltac:(intros x Hx; apply Hm1; lia) ltac:(lia) ltac:(lia) Hv).
  set (m2 := write_at (addr + b) _ m1).
  assert (Hm2 : mapped m2 addr len) by (by apply write_at_mapped).
  step (fill_bytes_spec (Z.to_nat e) m2 (addr + b + q * 4) v ltac:(intros x Hx; apply Hm2; lia) ltac:(lia) ltac:(lia)).
  replace (Z.to_nat len) with (Z.to_nat b + (4 * Z.to_nat q + Z.to_nat e))%nat by lia.
  rewrite !replicate_add, !write_at_app, !length_replicate. fold m1.
  replace (addr + Z.of_nat (Z.to_nat b)) with (addr + b) by lia. unfold m2. by repeat f_equal; lia.
Qed.

(** [memset] of a range that ends before the first word boundary writes
    past it: the length left for the words wraps around.  With one byte asked
    for and the three up to the boundary accessible, it faults. *)
Lemma memset_overruns m addr v :
  addr mod 4 = 1 → 0 ≤ addr → addr + 3 < W32 → mapped m addr 3 → m !! (addr + 3) = None →
  memset addr v 1 m = Fault.
Proof.
  intros Hmod Ha He Hm Hn. unfold memset. rewrite align_padding_eq by exact pow2_4.
  assert (Hb : (- addr) mod 4 = 3) by (Z.to_euclidean_division_equations; lia). rewrite Hb.
  step (fill_bytes_spec (Z.to_nat 3) m addr v Hm Ha ltac:(lia)).
  change (u32 (u32 (1 - 3) - align_padding_down (u32 (1 - 3)) 4) / 4) with 1073741823.
  rewrite (u32_small (addr + 3)) by lia.
  destruct (Z.to_nat 1073741823) as [|n] eqn:En; [lia|]. clear En. cbn [fill_words].
  do 3 apply bind_fault. unfold store8. rewrite write_at_lookup, decide_False by (simpl; lia). by rewrite Hn.
Qed.

Lemma copy_fwd_spec bs m dest src :
  array m src bs → mapped m dest (Z.of_nat (length bs)) → 0 ≤ dest < src → src + Z.of_nat (length bs) ≤ W32 →
  kmemcpy_b_fwd (length bs) dest src m = Ret tt (write_at dest bs m).
Proof.
  revert m dest src. induction bs as [|b bs IH]; intros m dest src Hs Hd Hlt He; [done|].
  apply array_cons in Hs as [Hb Hs]. cbn [length kmemcpy_b_fwd write_at] in *.
  step (load8_ok m src b Hb). step (store8_ok m dest b ltac:(apply Hd; lia)).
  destruct bs as [|c bs]; [done|]. rewrite (u32_small (dest + 1)), (u32_small (src + 1)) by (simpl in He; lia).
  apply IH; [| |lia|lia].
  - eapply array_ext; [|exact Hs]. intros x Hx. rewrite lookup_insert_ne by lia. done.
  - apply mapped_insert. intros x Hx. apply Hd. lia.
Qed.

Lemma copy_rev_spec bs m dest src :
  array m src bs → mapped m dest (Z.of_nat (length bs)) → 0 ≤ src ≤ dest → dest + Z.of_nat (length bs) ≤ W32 →
  kmemcpy_b_rev (length bs) dest src m = Ret tt (write_at dest bs m).
Proof.
  revert m. induction bs as [|b bs IH] using rev_ind; intros m Hs Hd Hle He; [done|].
  apply array_app in Hs as [Hs Hb]. apply array_cons in Hb as [Hb _].
  rewrite length_app in *. cbn [length] in *. rewrite Nat.add_1_r in *. cbn [kmemcpy_b_rev].
  rewrite !u32_small by lia. step (load8_ok m _ b Hb).
  step (store8_ok m (dest + Z.of_nat (length bs)) b ltac:(apply Hd; lia)).
  rewrite IH; [| | |lia|lia].
  - rewrite write_at_app. cbn [write_at]. rewrite write_at_insert by lia. done.
  - eapply array_ext; [|exact Hs]. intros x Hx. rewrite lookup_insert_ne by lia. done.
  - apply mapped_insert. intros x Hx. apply Hd. lia.
Qed.

(** [memmove], and so [memcpy], moves the bytes of the source to the
    destination as they were at the call, whether or not the two overlap, and
    touches nothing else. *)
Theorem memmove_moves m dest src bs :
  array m src bs → mapped m dest (Z.of_nat (length bs)) → 0 ≤ dest → 0 ≤ src →
  dest + Z.of_nat (length bs) ≤ W32 → src + Z.of_nat (length bs) ≤ W32 →
  memcpy dest src (Z.of_nat (length bs)) m = Ret tt (write_at dest bs m) ∧ array (write_at dest bs m) dest bs.
Proof.
  intros Hs Hd H1 H2 H3 H4. split; [|apply write_at_array].
  unfold memcpy, memmove. rewrite Nat2Z.id. destruct (Z.ltb_spec dest src); [apply copy_fwd_spec|apply copy_rev_spec]; done || lia.
Qed.

Definition ex_bytes : bytes := list_to_map ((λ i, (Z.of_nat i + 97, Z.of_nat i + 1)) <$> seq 0 6).

Lemma memmove_moves_witness : ∃ m', memcpy 98 97 5 ex_bytes = Ret tt m' ∧ array m' 98 [1; 2; 3; 4; 5].
Proof.
  destruct (memmove_moves ex_bytes 98 97 [1; 2; 3; 4; 5]) as [E H]; [| |lia|lia|simpl; lia|simpl; lia|].
  - repeat (apply array_cons; split; [reflexivity|]). apply array_nil.
  - intros x Hx. assert (x ∈ [98; 99; 100; 101; 102]) as Hin by (simpl in Hx; rewrite !elem_of_cons; lia).
    repeat (apply elem_of_cons in Hin as [->|Hin]; [by eexists|]). by apply elem_of_nil in Hin.
  - exists (write_at 98 [1; 2; 3; 4; 5] ex_bytes). split; [exact E|exact H].
Defined.

Lemma memset_fills_witness : ∃ m', memset 97 7 6 ex_bytes = Ret 97 m' ∧ array m' 97 [7; 7; 7; 7; 7; 7].
Proof.
  exists (write_at 97 [7; 7; 7; 7; 7; 7] ex_bytes). split; [|apply write_at_array].
  apply (memset_fills ex_bytes 97 7 6); [lia|lia|lia|lia| |vm_compute; discriminate].
  intros x Hx. assert (x ∈ [97; 98; 99; 100; 101; 102]) as Hin by (rewrite !elem_of_cons; lia).
  repeat (apply elem_of_cons in Hin as [->|Hin]; [by eexists|]). by apply elem_of_nil in Hin.
Defined.
