(* ===== verification/Cstring.v ===== *)
(** * kernel/utils/string.c, strtoul.c and strtouq.c

    Strings are NUL-terminated runs of bytes in memory.  A [char] is signed
    on ia32.  Loops that look for the NUL byte get one round per accessible
    byte, which is enough because every round reads another address.  Where a
    function allocates memory, the state is any one that contains the byte
    memory, and [kmalloc] is an argument. *)

From stdpp Require Import base numbers list gmap strings fin_maps.
From S2P Require Import Prelude UtList MemUtil Bytes.

(** ** string.c *)

Fixpoint strlen_loop (fuel : nat) (str ret : Z) : M bytes Z :=
  match fuel with
  | O => nofuel
  | S fuel =>
      c ← load8 (u32 (str + ret));
      if c =? 0 then mret ret else strlen_loop fuel str (u32 (ret + 1))
  end.

Definition strlen (str : Z) : M bytes Z :=
  fuel ← fuel_of_heap; strlen_loop fuel str 0.

(** The value of a [char]. *)
Definition load_char (p : Z) : M bytes Z := c ← load8 p; mret (s8 c).

Fixpoint strcmp_loop (fuel : nat) (a b ca cb : Z) : M bytes Z :=
  match fuel with
  | O => nofuel
  | S fuel =>
      if negb (ca =? 0) && negb (cb =? 0) then
        if ca <? cb then mret (-1)
        else if cb <? ca then mret 1
        else
          let a := u32 (a + 1) in
          let b := u32 (b + 1) in
          ca ← load_char a;
          cb ← load_char b;
          strcmp_loop fuel a b ca cb
      else if negb (ca =? 0) then mret 1
      else if negb (cb =? 0) then mret (-1)
      else mret 0
  end.

Definition strcmp (a b : Z) : M bytes Z :=
  fuel ← fuel_of_heap;
  ca ← load_char a;
  cb ← load_char b;
  strcmp_loop fuel a b ca cb.

(** [for(i = 0; i < n; i++)], [n] rounds to go. *)
Fixpoint strncmp_loop (n : nat) (a b : Z) : M bytes Z :=
  match n with
  | O => mret 0
  | S n =>
      ca ← load_char a;
      cb ← load_char b;
      if (ca =? 0) && (cb =? 0) then mret 0
      else if ca =? 0 then mret (-1)
      else if cb =? 0 then mret 1
      else if ca <? cb then mret (-1)
      else if cb <? ca then mret 1
      else strncmp_loop n (u32 (a + 1)) (u32 (b + 1))
  end.

Definition strncmp (a b n : Z) : M bytes Z := strncmp_loop (Z.to_nat n) a b.

Fixpoint memcmp_loop (n : nat) (ca cb : Z) : M bytes Z :=
  match n with
  | O => mret 0
  | S n =>
      cca ← load8 ca;
      ccb ← load8 cb;
      if cca <? ccb then mret (-1)
      else if ccb <? cca then mret 1
      else memcmp_loop n (u32 (ca + 1)) (u32 (cb + 1))
  end.

Definition memcmp (a b n : Z) : M bytes Z := memcmp_loop (Z.to_nat n) a b.

Fixpoint strcpy_loop (fuel : nat) (dst src i : Z) : M bytes unit :=
  match fuel with
  | O => nofuel
  | S fuel =>
      c ← load8 (u32 (src + i));
      if c =? 0 then mret tt
      else
        store8 (u32 (dst + i)) c;;
        strcpy_loop fuel dst src (u32 (i + 1))
  end.

Definition strcpy (dst src : Z) : M bytes Z :=
  fuel ← fuel_of_heap; strcpy_loop fuel dst src 0;; mret dst.

(** [while(src[j] && j < n)], shared by [strncpy] and [strncat]; the result
    is the final [j].  [k] counts the rounds until [j] reaches [n]. *)
Fixpoint strn_copy (k : nat) (dst src i j n : Z) : M bytes Z :=
  c ← load8 (u32 (src + j));
  if negb (c =? 0) && (j <? n) then
    match k with
    | O => nofuel
    | S k =>
        store8 (u32 (dst + i)) c;;
        strn_copy k dst src (u32 (i + 1)) (u32 (j + 1)) n
    end
  else mret j.

Definition strncpy (dst src n : Z) : M bytes Z :=
  i ← strn_copy (Z.to_nat n) dst src 0 0 n;
  fill_bytes (Z.to_nat (n - i)) (u32 (dst + i)) 0;;
  mret dst.

(** [while(src[j])]; the result is the final [i]. *)
Fixpoint strcat_loop (fuel : nat) (dst src i j : Z) : M bytes Z :=
  match fuel with
  | O => nofuel
  | S fuel =>
      c ← load8 (u32 (src + j));
      if c =? 0 then mret i
      else
        store8 (u32 (dst + i)) c;;
        strcat_loop fuel dst src (u32 (i + 1)) (u32 (j + 1))
  end.

Definition strcat (dst src : Z) : M bytes Z :=
  i ← strlen dst;
  fuel ← fuel_of_heap;
  i ← strcat_loop fuel dst src i 0;
  store8 (u32 (dst + i)) 0;;
  mret dst.

Definition strncat (dst src n : Z) : M bytes Z :=
  i ← strlen dst;
  j ← strn_copy (Z.to_nat n) dst src i 0 n;
  store8 (u32 (dst + u32 (i + j))) 0;;
  mret dst.

Section Dup.
Context {S : Type}.
Variable mem_of : S → bytes.
Variable set_mem : bytes → S → S.
Variable kmalloc : Z → M S Z.

Definition on_mem {A} (m : M bytes A) : M S A := zoom mem_of set_mem m.

(** [for(i = 0; i < n; i++) result[i] = s1[i];] is the loop of [memmove]. *)
Definition strdup (s1 : Z) : M S Z :=
  n ← on_mem (strlen s1);
  let len := u32 (n + 1) in
  result ← kmalloc len;
  on_mem (kmemcpy_b_fwd (Z.to_nat len) result s1);;
  mret result.

(** [for(i = 0; i < n; i++) if(s1[i] == 0) { n = i + 1; break; }] *)
Fixpoint strn_size (k : nat) (s1 i n : Z) : M bytes Z :=
  match k with
  | O => mret n
  | Datatypes.S k =>
      c ← load8 (u32 (s1 + i));
      if c =? 0 then mret (u32 (i + 1)) else strn_size k s1 (u32 (i + 1)) n
  end.

Definition strndup (s1 n : Z) : M S Z :=
  n ← on_mem (strn_size (Z.to_nat n) s1 0 n);
  result ← kmalloc (u32 (n + 1));
  on_mem (kmemcpy_b_fwd (Z.to_nat n) result s1);;
  on_mem (store8 (u32 (result + n)) 0);;
  mret result.
End Dup.

(** ** Reading a string *)
Implicit Types (m : bytes) (bs cs : list Z).

Lemma cstr_nil m p : cstr m p [] ↔ m !! p = Some 0 ∧ 0 ≤ p < W32.
Proof.
  split.
  - intros [Ha _ Hl Hh]. apply array_cons in Ha as [Ha _]. simpl in Hh. split; [done|lia].
  - intros [E Hp]. split; [|done|lia|simpl; lia]. apply array_cons. split; [done|apply array_nil].
Qed.

Lemma cstr_cons m p b bs : cstr m p (b :: bs) ↔ m !! p = Some b ∧ 0 < b < W8 ∧ 0 ≤ p ∧ cstr m (p + 1) bs.
Proof.
  split.
  - intros [Ha Hb Hl Hh]. simpl in Ha, Hh. apply array_cons in Ha as [E Ha]. apply Forall_cons_1 in Hb as [Hb Hbs].
    split; [done|]. split; [done|]. split; [done|]. split; [done|done|lia|lia].
  - intros (E & Hb & Hl & [Ha Hbs Hl' Hh]). split; [|by constructor|lia|simpl; lia].
    simpl. by apply array_cons.
Qed.

Lemma cstr_drop m p bs i : cstr m p bs → (i ≤ length bs)%nat → cstr m (p + Z.of_nat i) (drop i bs).
Proof.
  revert p bs. induction i as [|i IH]; intros p bs H Hi; [by rewrite Z.add_0_r|].
  destruct bs as [|b bs]; simpl in Hi; [lia|]. apply cstr_cons in H as (_ & _ & _ & H).
  replace (p + Z.of_nat (S i)) with (p + 1 + Z.of_nat i) by lia. simpl. apply IH; [done|lia].
Qed.

Lemma array_size m p bs : array m p bs → (length bs ≤ size m)%nat.
Proof.
  intros H. rewrite <- (length_seq (length bs) 0), <- (length_fmap (λ i, p + Z.of_nat i) (seq 0 (length bs))).
  apply heap_size_ge.
  - apply NoDup_fmap_2; [intros i j E; lia|apply NoDup_seq].
  - intros q (i & -> & Hi%elem_of_seq)%list_elem_of_fmap. apply (array_mapped _ _ _ H). lia.
Qed.

Lemma cstr_size m p bs : cstr m p bs → (length bs < size m)%nat.
Proof. intros [H _ _ _]. apply array_size in H. rewrite length_app in H. simpl in H. lia. Qed.

Lemma load_char_ok m p b : m !! p = Some b → load_char p m = Ret (s8 b) m.
Proof. intros E. unfold load_char. by step (load8_ok _ _ _ E). Qed.

(** A byte that is not 0 is not 0 as a [char] either, and the [char] tells the byte. *)
Lemma s8_zero b : 0 ≤ b < W8 → (s8 b =? 0) = (b =? 0).
Proof. intros Hb. unfold s8. destruct (Z.eqb_spec b 0) as [->|]; [done|]. apply Z.eqb_neq. Z.to_euclidean_division_equations; lia. Qed.

Lemma s8_inj b c : 0 ≤ b < W8 → 0 ≤ c < W8 → s8 b = s8 c → b = c.
Proof. intros. wrap. Qed.

Lemma strlen_loop_spec bs m p i fuel :
  cstr m (p + i) bs → 0 ≤ p → 0 ≤ i → (length bs < fuel)%nat →
  strlen_loop fuel p i m = Ret (i + Z.of_nat (length bs)) m.
Proof.
  revert i fuel. induction bs as [|b bs IH]; intros i [|fuel] H Hp Hi Hf; simpl in Hf; try lia; cbn [strlen_loop].
  - apply cstr_nil in H as [E Hr]. rewrite (u32_small (p + i)) by lia. step (load8_ok _ _ _ E). simpl. by rewrite Z.add_0_r.
  - pose proof (cstr_high _ _ _ H) as Hh. apply cstr_cons in H as (E & Hb & _ & H). simpl in Hh.
    rewrite (u32_small (p + i)) by lia. step (load8_ok _ _ _ E). rewrite (proj2 (Z.eqb_neq b 0)) by lia.
    rewrite u32_small by lia. rewrite IH; [f_equal; simpl; lia|by rewrite Z.add_assoc|lia..].
Qed.

Lemma strlen_spec m p bs : cstr m p bs → strlen p m = Ret (Z.of_nat (length bs)) m.
Proof.
  intros H. pose proof (cstr_size _ _ _ H). pose proof (cstr_low _ _ _ H). unfold strlen.
  step (eq_refl : fuel_of_heap m = Ret (S (size m)) m).
  rewrite (strlen_loop_spec bs); [done|by rewrite Z.add_0_r|lia..].
Qed.

(** ** Comparing *)

(** The lexicographic order of strings of [char]s, as -1, 0 or 1. *)
Fixpoint lex (xs ys : list Z) : Z :=
  match xs, ys with
  | [], [] => 0
  | [], _ => -1
  | _, [] => 1
  | x :: xs, y :: ys => if s8 x <? s8 y then -1 else if s8 y <? s8 x then 1 else lex xs ys
  end.

Abbreviation chars bs := (Forall (λ b, 0 < b < W8) bs).

Lemma lex_zero xs ys : chars xs → chars ys → lex xs ys = 0 ↔ xs = ys.
Proof.
  intros Hx. revert ys. induction Hx as [|x xs Hx0 Hx IH]; intros ys Hy; destruct Hy as [|y ys Hy0 Hy]; simpl; try done.
  destruct (Z.ltb_spec (s8 x) (s8 y)); [split; [done|intros [= -> ->]; lia]|].
  destruct (Z.ltb_spec (s8 y) (s8 x)); [split; [done|intros [= -> ->]; lia]|].
  rewrite IH by done. assert (x = y) as -> by (apply s8_inj; lia). split; [by intros ->|by intros [= ->]].
Qed.

Lemma lex_opp xs ys : lex ys xs = - lex xs ys.
Proof.
  revert ys. induction xs as [|x xs IH]; intros [|y ys]; simpl; try done.
  destruct (Z.ltb_spec (s8 x) (s8 y)), (Z.ltb_spec (s8 y) (s8 x)); try done; lia.
Qed.

Lemma lex_trans xs ys zs : lex xs ys ≤ 0 → lex ys zs ≤ 0 → lex xs zs ≤ 0.
Proof.
  revert ys zs. induction xs as [|x xs IH]; intros [|y ys] [|z zs]; simpl; try lia.
  destruct (Z.ltb_spec (s8 x) (s8 y)), (Z.ltb_spec (s8 y) (s8 x)), (Z.ltb_spec (s8 y) (s8 z)),
    (Z.ltb_spec (s8 z) (s8 y)), (Z.ltb_spec (s8 x) (s8 z)), (Z.ltb_spec (s8 z) (s8 x)); try lia. apply IH.
Qed.

(** The first byte of a string, 0 at its end. *)
Definition head_byte bs : Z := match bs with [] => 0 | b :: _ => b end.

Lemma cstr_head m p bs : cstr m p bs → m !! p = Some (head_byte bs) ∧ 0 ≤ head_byte bs < W8.
Proof. destruct bs as [|b bs]; [intros [E _]%cstr_nil|intros (E & Hb & _)%cstr_cons]; simpl; (split; [done|lia]). Qed.

Lemma cstr_next m p b bs : cstr m p (b :: bs) → u32 (p + 1) = p + 1 ∧ cstr m (p + 1) bs.
Proof.
  intros H. pose proof (cstr_high _ _ _ H) as Hh. apply cstr_cons in H as (_ & _ & Hp & H). simpl in Hh.
  split; [apply u32_small; lia|done].
Qed.

Lemma strcmp_loop_spec m xs p q ys fuel :
  cstr m p xs → cstr m q ys → (length xs < fuel)%nat →
  strcmp_loop fuel p q (s8 (head_byte xs)) (s8 (head_byte ys)) m = Ret (lex xs ys) m.
Proof.
  revert p q ys fuel. induction xs as [|x xs IH]; intros p q ys [|fuel] Hx Hy Hf; simpl in Hf; try lia.
  - cbn [strcmp_loop]. rewrite s8_zero, s8_zero by (done || by eapply cstr_head). simpl.
    destruct ys as [|y ys]; [done|]. apply cstr_cons in Hy as (_ & Hy & _). simpl. by rewrite (proj2 (Z.eqb_neq y 0)) by lia.
  - destruct (cstr_next _ _ _ _ Hx) as [Ep Hx']. apply cstr_cons in Hx as (_ & Hx & _).
    cbn [strcmp_loop]. rewrite s8_zero, s8_zero by (simpl; lia || by eapply cstr_head).
    cbn [head_byte]. rewrite (proj2 (Z.eqb_neq x 0)) by lia. destruct ys as [|y ys]; [done|].
    destruct (cstr_next _ _ _ _ Hy) as [Eq Hy']. apply cstr_cons in Hy as (_ & Hy & _).
    cbn [head_byte]. rewrite (proj2 (Z.eqb_neq y 0)) by lia. cbn [negb andb lex].
    destruct (s8 x <? s8 y); [done|]. destruct (s8 y <? s8 x); [done|].
    rewrite Ep, Eq. step (load_char_ok _ _ _ (proj1 (cstr_head _ _ _ Hx'))).
    step (load_char_ok _ _ _ (proj1 (cstr_head _ _ _ Hy'))). apply IH; [done|done|lia].
Qed.

Lemma strcmp_spec m p q xs ys : cstr m p xs → cstr m q ys → strcmp p q m = Ret (lex xs ys) m.
Proof.
  intros Hx Hy. unfold strcmp. step (eq_refl : fuel_of_heap m = Ret (S (size m)) m).
  step (load_char_ok _ _ _ (proj1 (cstr_head _ _ _ Hx))). step (load_char_ok _ _ _ (proj1 (cstr_head _ _ _ Hy))).
  apply strcmp_loop_spec; [done..|]. pose proof (cstr_size _ _ _ Hx). lia.
Qed.

Lemma strncmp_loop_spec m n p q xs ys :
  cstr m p xs → cstr m q ys → strncmp_loop n p q m = Ret (lex (take n xs) (take n ys)) m.
Proof.
  revert p q xs ys. induction n as [|n IH]; intros p q xs ys Hx Hy; [done|]. cbn [strncmp_loop].
  destruct (cstr_head _ _ _ Hx) as [Ex Bx]. destruct (cstr_head _ _ _ Hy) as [Ey By].
  step (load_char_ok _ _ _ Ex). step (load_char_ok _ _ _ Ey). rewrite !s8_zero by done.
  destruct xs as [|x xs], ys as [|y ys]; [done| | |]; cbn [head_byte] in *.
  - apply cstr_cons in Hy as (_ & Hy & _). by rewrite (proj2 (Z.eqb_neq y 0)) by lia.
  - apply cstr_cons in Hx as (_ & Hx & _). by rewrite (proj2 (Z.eqb_neq x 0)) by lia.
  - destruct (cstr_next _ _ _ _ Hx) as [-> Hx']. destruct (cstr_next _ _ _ _ Hy) as [-> Hy'].
    apply cstr_cons in Hx as (_ & Hx & _). apply cstr_cons in Hy as (_ & Hy & _).
    rewrite (proj2 (Z.eqb_neq x 0)), (proj2 (Z.eqb_neq y 0)) by lia. cbn [andb take lex].
    destruct (s8 x <? s8 y); [done|]. destruct (s8 y <? s8 x); [done|]. by apply IH.
Qed.

(** [strcmp] decides the lexicographic order of strings of signed
    characters, which is a total order whose equivalence is equality, and
    [strncmp] decides it for the first [n] characters. *)
Theorem strcmp_orders m p q r xs ys zs n :
  cstr m p xs → cstr m q ys → cstr m r zs →
  strcmp p q m = Ret (lex xs ys) m ∧ strncmp p q n m = Ret (lex (take (Z.to_nat n) xs) (take (Z.to_nat n) ys)) m ∧
  (lex xs ys = 0 ↔ xs = ys) ∧ lex ys xs = - lex xs ys ∧ (lex xs ys ≤ 0 → lex ys zs ≤ 0 → lex xs zs ≤ 0).
Proof.
  intros Hx Hy Hz. split; [by apply strcmp_spec|]. split; [by apply strncmp_loop_spec|].
  split; [apply lex_zero; by eapply cstr_bytes|]. split; [apply lex_opp|apply lex_trans].
Qed.

(** ** Copying *)

(** The source string is not overwritten by [n] bytes stored from [p] on. *)
Definition apart (p n q : Z) bs : Prop := p + n ≤ q ∨ q + Z.of_nat (length bs) < p.

Lemma cstr_insert m q bs p c : apart p 1 q bs → cstr m q bs → cstr (<[p := c]> m) q bs.
Proof.
  intros Hd [Ha Hb Hl Hh]. split; [|done..]. eapply array_ext; [|exact Ha]. intros x Hx.
  rewrite length_app in Hx. simpl in Hx. unfold apart in Hd. rewrite lookup_insert_ne by lia. done.
Qed.

Lemma cstr_write_at m q bs p cs : apart p (Z.of_nat (length cs)) q bs → cstr m q bs → cstr (write_at p cs m) q bs.
Proof.
  intros Hd [Ha Hb Hl Hh]. split; [|done..]. apply write_at_other; [|done]. rewrite length_app. simpl.
  unfold apart in Hd. lia.
Qed.

Lemma strcpy_loop_spec bs m dst src i fuel :
  cstr m (src + i) bs → mapped m (dst + i) (Z.of_nat (length bs)) → apart (dst + i) (Z.of_nat (length bs)) (src + i) bs →
  0 ≤ src → 0 ≤ dst → 0 ≤ i → dst + i + Z.of_nat (length bs) ≤ W32 → (length bs < fuel)%nat →
  strcpy_loop fuel dst src i m = Ret tt (write_at (dst + i) bs m).
Proof.
  revert m i fuel. induction bs as [|b bs IH]; intros m i [|fuel] H Hm Hd Hs Hdst Hi He Hf; simpl in Hf; try lia; cbn [strcpy_loop].
  - apply cstr_nil in H as [E Hr]. rewrite (u32_small (src + i)) by lia. by step (load8_ok _ _ _ E).
  - pose proof (cstr_high _ _ _ H) as Hh. apply cstr_cons in H as (E & Hb & _ & H). cbn [length] in *.
    rewrite (u32_small (src + i)) by lia. step (load8_ok _ _ _ E). rewrite (proj2 (Z.eqb_neq b 0)) by lia.
    rewrite (u32_small (dst + i)) by lia. step (store8_ok m (dst + i) b ltac:(apply Hm; lia)).
    rewrite (u32_small (i + 1)) by lia. unfold apart in *. rewrite IH; [by rewrite Z.add_assoc| | |unfold apart; cbn [length] in *; lia|lia..].
    + rewrite Z.add_assoc. apply cstr_insert; [unfold apart; cbn [length] in *; lia|done].
    + apply mapped_insert. intros x Hx. apply Hm. lia.
Qed.

Lemma strcat_loop_spec bs m dst src i j fuel :
  cstr m (src + j) bs → mapped m (dst + i) (Z.of_nat (length bs)) → apart (dst + i) (Z.of_nat (length bs)) (src + j) bs →
  0 ≤ src → 0 ≤ dst → 0 ≤ i → 0 ≤ j → dst + i + Z.of_nat (length bs) < W32 → (length bs < fuel)%nat →
  strcat_loop fuel dst src i j m = Ret (i + Z.of_nat (length bs)) (write_at (dst + i) bs m).
Proof.
  revert m i j fuel. induction bs as [|b bs IH]; intros m i j [|fuel] H Hm Hd Hs Hdst Hi Hj He Hf; simpl in Hf; try lia; cbn [strcat_loop].
  - apply cstr_nil in H as [E Hr]. rewrite (u32_small (src + j)) by lia. step (load8_ok _ _ _ E). simpl. by rewrite Z.add_0_r.
  - pose proof (cstr_high _ _ _ H) as Hh. apply cstr_cons in H as (E & Hb & _ & H). cbn [length] in *.
    rewrite (u32_small (src + j)) by lia. step (load8_ok _ _ _ E). rewrite (proj2 (Z.eqb_neq b 0)) by lia.
    rewrite (u32_small (dst + i)) by lia. step (store8_ok m (dst + i) b ltac:(apply Hm; lia)).
    rewrite (u32_small (i + 1)), (u32_small (j + 1)) by lia. unfold apart in *.
    rewrite IH; [f_equal; [lia|cbn [write_at]; by rewrite Z.add_assoc]| | |unfold apart; cbn [length] in *; lia|lia..].
    + rewrite Z.add_assoc. apply cstr_insert; [unfold apart; cbn [length] in *; lia|done].
    + apply mapped_insert. intros x Hx. apply Hm. lia.
Qed.

Lemma strn_copy_spec bs m dst src i j n k (w := take k bs) :
  cstr m (src + j) bs → mapped m (dst + i) (Z.of_nat (length w)) → apart (dst + i) (Z.of_nat (length w)) (src + j) bs →
  0 ≤ src → 0 ≤ dst → 0 ≤ i → 0 ≤ j → dst + i + Z.of_nat (length w) < W32 → n = j + Z.of_nat k →
  strn_copy k dst src i j n m = Ret (j + Z.of_nat (length w)) (write_at (dst + i) w m).
Proof.
  unfold w. clear w. revert m i j bs. induction k as [|k IH]; intros m i j bs H Hm Hd Hs Hdst Hi Hj He Hn; subst n; cbn [strn_copy].
  - destruct (cstr_head _ _ _ H) as [E _]. pose proof (cstr_high _ _ _ H). rewrite (u32_small (src + j)) by (pose proof (cstr_low _ _ _ H); lia).
    step (load8_ok _ _ _ E). rewrite Z.add_0_r, Z.ltb_irrefl, andb_false_r. simpl. by rewrite Z.add_0_r.
  - pose proof (cstr_high _ _ _ H) as Hh. pose proof (cstr_low _ _ _ H). rewrite (u32_small (src + j)) by lia.
    destruct bs as [|b bs].
    + apply cstr_nil in H as [E _]. step (load8_ok _ _ _ E). simpl. by rewrite Z.add_0_r.
    + apply cstr_cons in H as (E & Hb & _ & H). cbn [take length] in *. step (load8_ok _ _ _ E).
      rewrite (proj2 (Z.eqb_neq b 0)), (proj2 (Z.ltb_lt j _)) by lia. cbn [negb andb].
      rewrite (u32_small (dst + i)) by lia. step (store8_ok m (dst + i) b ltac:(apply Hm; lia)).
      rewrite (u32_small (i + 1)), (u32_small (j + 1)) by lia. unfold apart in *. cbn [length] in *.
      rewrite (IH _ (i + 1) (j + 1) bs); [f_equal; [lia|cbn [write_at]; by rewrite Z.add_assoc]| | |unfold apart; lia|lia..].
      * rewrite Z.add_assoc. apply cstr_insert; [unfold apart; lia|done].
      * apply mapped_insert. intros x Hx. apply Hm. lia.
Qed.

(** A string and the bytes after it. *)
Lemma cstr_of_array m p bs : array m p (bs ++ [0]) → chars bs → 0 ≤ p → p + Z.of_nat (length bs) < W32 → cstr m p bs.
Proof. by intros. Qed.

(** [dst] holds [xs] and has room for [n] more bytes; [src] is elsewhere. *)
Record appendable m (dst src : Z) xs ys (n : Z) : Prop := {
  ap_dst : cstr m dst xs;
  ap_src : cstr m src ys;
  ap_room : mapped m dst (Z.of_nat (length xs) + n + 1);
  ap_apart : apart dst (Z.of_nat (length xs) + n + 1) src ys;
  ap_end : dst + Z.of_nat (length xs) + n < W32
}.

Lemma append_result m dst src xs ys w :
  appendable m dst src xs ys (Z.of_nat (length w)) → chars w →
  let m' := write_at (dst + Z.of_nat (length xs)) (w ++ [0]) m in cstr m' dst (xs ++ w) ∧ cstr m' src ys.
Proof.
  intros [Hx Hy Hr Ha He] Hw m'. split.
  - apply cstr_of_array.
    + rewrite <- app_assoc. apply array_app. split; [|apply write_at_array].
      apply write_at_other; [left; lia|]. apply (array_app _ _ xs [0]). apply Hx.
    + apply Forall_app. split; [apply Hx|done].
    + apply Hx.
    + rewrite length_app. lia.
  - apply cstr_write_at; [|done]. rewrite length_app. simpl. unfold apart in *. pose proof (cstr_low _ _ _ Hx). lia.
Qed.

(** [strcat] leaves at [dst] the string that was there followed by the one
    at [src], and [strncat] the string followed by the first [n] characters
    of the other; the string at [src] is unchanged. *)
Theorem strcat_appends m dst src xs ys n (w := take (Z.to_nat n) ys) :
  0 ≤ n →
  (appendable m dst src xs ys (Z.of_nat (length ys)) →
    ∃ m', strcat dst src m = Ret dst m' ∧ cstr m' dst (xs ++ ys) ∧ cstr m' src ys) ∧
  (appendable m dst src xs ys (Z.of_nat (length w)) →
    ∃ m', strncat dst src n m = Ret dst m' ∧ cstr m' dst (xs ++ w) ∧ cstr m' src ys).
Proof.
  intros Hn. split; intros Hap; pose proof Hap as [Hx Hy Hr Ha He]; pose proof (cstr_low _ _ _ Hx); pose proof (cstr_low _ _ _ Hy);
    (eexists; split; [|eapply append_result; [exact Hap|try (apply Forall_take); apply Hy]]).
  - unfold strcat. step (strlen_spec _ _ _ Hx). step (eq_refl : fuel_of_heap m = Ret (S (size m)) m).
    pose proof (cstr_size _ _ _ Hy). set (i := Z.of_nat (length xs)) in *.
    step (strcat_loop_spec ys m dst src i 0 (S (size m)) ltac:(by rewrite Z.add_0_r) ltac:(intros x Hx'; apply Hr; lia)
      ltac:(unfold apart in *; lia) ltac:(lia) ltac:(lia) ltac:(lia) ltac:(lia) ltac:(lia) ltac:(lia)).
    rewrite (u32_small (dst + _)) by lia.
    step (store8_ok (write_at (dst + i) ys m) (dst + (i + Z.of_nat (length ys))) 0
      ltac:(apply (write_at_mapped ys m (dst + i) _ _ Hr); lia)).
    rewrite write_at_app. cbn [write_at]. by rewrite Z.add_assoc.
  - unfold strncat. step (strlen_spec _ _ _ Hx). set (i := Z.of_nat (length xs)) in *.
    step (strn_copy_spec ys m dst src i 0 n (Z.to_nat n) ltac:(by rewrite Z.add_0_r) ltac:(intros x Hx'; apply Hr; unfold w; lia)
      ltac:(unfold apart, w in *; lia) ltac:(lia) ltac:(lia) ltac:(lia) ltac:(lia) ltac:(unfold w in *; lia) ltac:(lia)).
    fold w. rewrite Z.add_0_l, (u32_small (i + _)), (u32_small (dst + _)) by lia.
    step (store8_ok (write_at (dst + i) w m) (dst + (i + Z.of_nat (length w))) 0
      ltac:(apply (write_at_mapped w m (dst + i) _ _ Hr); lia)).
    rewrite write_at_app. cbn [write_at]. by rewrite Z.add_assoc.
Qed.

(** [strcpy] copies the characters of the string and not its terminator:
    the byte after the copy is the one that was there, so the result is
    [src]'s string only if that byte was 0 already.  [strncpy] pads with
    zeros up to [n]. *)
Theorem strcpy_unterminated m dst src bs n (w := take (Z.to_nat n) bs) :
  cstr m src bs → 0 ≤ dst → 0 ≤ n →
  mapped m dst (Z.max (Z.of_nat (length bs) + 1) n) →
  apart dst (Z.max (Z.of_nat (length bs) + 1) n) src bs → dst + Z.max (Z.of_nat (length bs)) n < W32 →
  (∃ m', strcpy dst src m = Ret dst m' ∧ m' = write_at dst bs m ∧
    (cstr m' dst bs ↔ m !! (dst + Z.of_nat (length bs)) = Some 0)) ∧
  strncpy dst src n m = Ret dst (write_at dst (w ++ replicate (Z.to_nat n - length w) 0) m).
Proof.
  intros H Hdst Hn Hm Hap He. pose proof (cstr_size _ _ _ H). pose proof (cstr_low _ _ _ H). split.
  - eexists. split; [|split; [reflexivity|]].
    + unfold strcpy. step (eq_refl : fuel_of_heap m = Ret (S (size m)) m).
      step (strcpy_loop_spec bs m dst src 0 (S (size m)) ltac:(by rewrite Z.add_0_r) ltac:(intros x Hx; apply Hm; lia)
        ltac:(unfold apart in *; lia) ltac:(lia) ltac:(lia) ltac:(lia) ltac:(lia) ltac:(lia)). by rewrite Z.add_0_r.
    + rewrite <- (decide_False (P := dst ≤ dst + Z.of_nat (length bs) < dst + Z.of_nat (length bs))
        (bs !! Z.to_nat (dst + Z.of_nat (length bs) - dst)) (m !! (dst + Z.of_nat (length bs)))) by lia.
      rewrite <- write_at_lookup. split; intros Hc.
      * destruct Hc as [Hc _ _ _]. apply array_app in Hc as [_ Hc]. by apply array_cons in Hc as [Hc _].
      * apply cstr_of_array; [|apply H|lia|lia]. apply array_app. split; [apply write_at_array|].
        apply array_cons. split; [done|apply array_nil].
  - assert (Z.of_nat (length w) ≤ n) by (unfold w; rewrite length_take; lia).
    assert (Z.of_nat (length w) ≤ Z.of_nat (length bs)) by (unfold w; rewrite length_take; lia).
    unfold strncpy.
    step (strn_copy_spec bs m dst src 0 0 n (Z.to_nat n) ltac:(by rewrite Z.add_0_r)
      ltac:(intros x Hx; apply Hm; fold w in Hx; lia) ltac:(unfold apart in *; fold w; lia) ltac:(lia) ltac:(lia) ltac:(lia) ltac:(lia)
      ltac:(fold w; lia) ltac:(lia)). fold w. rewrite Z.add_0_l, Z.add_0_r, (u32_small (dst + _)) by lia.
    rewrite write_at_app. replace (Z.to_nat (n - Z.of_nat (length w))) with (Z.to_nat n - length w)%nat by lia.
    step (fill_bytes_spec (Z.to_nat n - length w) (write_at dst w m) (dst + Z.of_nat (length w)) 0
      ltac:(apply write_at_mapped; intros x Hx; apply Hm; lia) ltac:(lia) ltac:(lia)). done.
Qed.

(** ** Examples: "abc" at 100 with room behind it, "abd" at 200 *)
Definition ex_text : bytes := write_at 100 [97; 98; 99; 0; 7; 7; 7; 7] (write_at 200 [97; 98; 100; 0] ∅).

Lemma ex_abc : cstr ex_text 100 [97; 98; 99].
Proof.
  apply cstr_of_array; [|by repeat constructor|lia|simpl; lia].
  by apply (array_app _ _ [97; 98; 99; 0] [7; 7; 7; 7]), write_at_array.
Qed.

Lemma ex_abd : cstr ex_text 200 [97; 98; 100].
Proof.
  apply cstr_of_array; [|by repeat constructor|lia|simpl; lia].
  apply write_at_other; [simpl; lia|]. apply write_at_array.
Qed.

Lemma ex_room : mapped ex_text 100 8.
Proof. apply (array_mapped _ _ [97; 98; 99; 0; 7; 7; 7; 7]), write_at_array. Qed.

Lemma strcmp_orders_witness : strcmp 100 200 ex_text = Ret (-1) ex_text ∧ strncmp 100 200 2 ex_text = Ret 0 ex_text.
Proof.
  destruct (strcmp_orders ex_text 100 200 200 _ _ _ 2 ex_abc ex_abd ex_abd) as (E1 & E2 & _). split; [exact E1|exact E2].
Defined.

Lemma strcat_appends_witness : ∃ m', strcat 100 200 ex_text = Ret 100 m' ∧ cstr m' 100 [97; 98; 99; 97; 98; 100].
Proof.
  destruct (strcat_appends ex_text 100 200 [97; 98; 99] [97; 98; 100] 1 ltac:(lia)) as [H _].
  destruct H as (m' & E & Hc & _).
  - split; [exact ex_abc|exact ex_abd| |left; simpl; lia|simpl; lia]. intros x Hx. apply ex_room. simpl in Hx. lia.
  - exists m'. split; [exact E|exact Hc].
Defined.

Lemma strcpy_unterminated_witness : ∃ m', strcpy 103 200 ex_text = Ret 103 m' ∧ ¬ cstr m' 103 [97; 98; 100].
Proof.
  destruct (strcpy_unterminated ex_text 103 200 [97; 98; 100] 2 ex_abd) as [(m' & E & _ & Hc) _]; [lia|lia| |left; simpl; lia|simpl; lia|].
  - intros x Hx. apply ex_room. simpl in Hx. lia.
  - exists m'. split; [exact E|]. intros H. apply Hc in H. vm_compute in H. discriminate H.
Defined.
