(* ===== verification/Strtoul.v ===== *)
(** * kernel/utils/strtoul.c and strtouq.c: numbers from strings

    [strtoul] and [strtouq] differ in the width of the result only, so both
    are instances of [strto].  The macros of kernel/sys/ctype.h are boolean
    functions.  The theorem gives the value, its saturation and the end
    pointer for every string that starts with a number. *)

From stdpp Require Import base numbers list gmap strings fin_maps.
From S2P Require Import Prelude UtList MemUtil Bytes Cstring.

(** ** ctype.h *)
Definition isspace (c : Z) : bool := (c =? 32) || ((9 <=? c) && (c <=? 13)).
Abbreviation isascii c := (Z.land c (Z.lnot 127) =? 0) (only parsing).
Abbreviation isupper c := ((65 <=? c) && (c <=? 90)) (only parsing).
Abbreviation islower c := ((97 <=? c) && (c <=? 122)) (only parsing).
Definition isalpha (c : Z) : bool := isupper c || islower c.
Definition isdigit (c : Z) : bool := (48 <=? c) && (c <=? 57).
Definition toupper (c : Z) : Z := c - 32 * Z.b2z ((97 <=? c) && (c <=? 122)).

(** ** The conversion *)

(** [do { c = *s++; } while (isspace(c));] *)
Fixpoint skip_spaces (fuel : nat) (s : Z) : M bytes (Z * Z) :=
  match fuel with
  | O => nofuel
  | S fuel =>
      c ← load8 s;
      let s := u32 (s + 1) in
      if isspace c then skip_spaces fuel s else mret (c, s)
  end.

(** What the character stands for, if it is a digit or a letter. *)
Definition digit_value (c : Z) : option Z :=
  if negb (isascii c) then None
  else if isdigit c then Some (u8 (c - 48))
  else if isalpha c then Some (u8 (c - (if isupper c then 55 else 87)))
  else None.

(** [if (c == '-') ... else if (c == '+') ...] *)
Definition read_sign (c s : Z) : M bytes (bool * Z * Z) :=
  if c =? 45 then c ← load8 s; mret (true, c, u32 (s + 1))
  else if c =? 43 then c ← load8 s; mret (false, c, u32 (s + 1))
  else mret (false, c, s).

(** [if ((base == 0 || base == 16) && c == '0' && ...)] *)
Definition read_prefix (base c s : Z) : M bytes (Z * Z * Z) :=
  if ((base =? 0) || (base =? 16)) && (c =? 48) then
    x ← load8 s;
    if (x =? 120) || (x =? 88) then c ← load8 (u32 (s + 1)); mret (c, u32 (s + 2), 16)
    else mret (c, s, base)
  else mret (c, s, base).

Section Strto.
(** The largest value of the result type. *)
Variable limit : Z.

Definition wrap_limit (z : Z) : Z := z mod (limit + 1).

Definition convert_digit (ubase cutoff cutlim acc any c : Z) : Z * Z :=
  if (any <? 0) || (cutoff <? acc) || ((acc =? cutoff) && (cutlim <? c)) then (acc, -1)
  else (wrap_limit (wrap_limit (acc * ubase) + c), 1).

(** [for (acc = 0, any = 0;; c = *s++)]; the result is [acc], [any] and [s]. *)
Fixpoint convert_loop (fuel : nat) (base ubase cutoff cutlim s c acc any : Z) : M bytes (Z * Z * Z) :=
  match fuel with
  | O => nofuel
  | S fuel =>
      match digit_value c with
      | None => mret (acc, any, s)
      | Some c =>
          if base <=? c then mret (acc, any, s)
          else
            let '(acc, any) := convert_digit ubase cutoff cutlim acc any c in
            c ← load8 s;
            convert_loop fuel base ubase cutoff cutlim (u32 (s + 1)) c acc any
      end
  end.

Definition strto (nptr endptr base : Z) : M bytes Z :=
  fuel ← fuel_of_heap;
  '(c, s) ← skip_spaces fuel nptr;
  '(neg, c, s) ← read_sign c s;
  '(c, s, base) ← read_prefix base c s;
  let base := if base =? 0 then (if c =? 48 then 8 else 10) else base in
  let ubase := u32 base in
  let cutoff := limit / ubase in
  let cutlim := s32 (limit mod ubase) in
  '(acc, any, s) ← convert_loop fuel base ubase cutoff cutlim s c 0 0;
  let acc := if any <? 0 then limit else if (neg : bool) then wrap_limit (- acc) else acc in
  (if negb (endptr =? 0) then store32 endptr (if negb (any =? 0) then u32 (s - 1) else nptr) else mret tt);;
  mret acc.
End Strto.

Abbreviation ULONG_MAX := 4294967295 (only parsing).
Abbreviation UQUAD_MAX := 18446744073709551615 (only parsing).

Definition strtoul : Z → Z → Z → M bytes Z := strto ULONG_MAX.
Definition strtouq : Z → Z → Z → M bytes Z := strto UQUAD_MAX.

(** ** The value of a numeral *)

Definition digit_in (base c : Z) : bool :=
  match digit_value c with Some d => d <? base | None => false end.

Definition digit_of (c : Z) : Z := default 0 (digit_value c).

Definition numeral (base : Z) (ds : list Z) : Z := foldl (λ acc c, acc * base + digit_of c) 0 ds.

Implicit Types (m : bytes) (ds bs ws : list Z).

Lemma digit_value_nonneg c d : digit_value c = Some d → 0 ≤ d.
Proof.
  unfold digit_value. destruct (isascii c); [|done]. destruct (isdigit c); simpl; [intros [= <-]|destruct (isalpha c); [intros [= <-]|done]];
    apply Z.mod_pos_bound; lia.
Qed.

Lemma digit_of_bounds base c : digit_in base c = true → 0 ≤ digit_of c < base.
Proof.
  unfold digit_in, digit_of. destruct (digit_value c) as [d|] eqn:E; [|done]. intros H%Z.ltb_lt. simpl.
  apply digit_value_nonneg in E. lia.
Qed.

Lemma numeral_from_ge base ds acc : 1 ≤ base → 0 ≤ acc → acc ≤ foldl (λ acc c, acc * base + digit_of c) acc ds.
Proof.
  intros Hb. revert acc. induction ds as [|d ds IH]; intros acc Ha; [done|]. simpl.
  assert (0 ≤ digit_of d).
  { unfold digit_of. destruct (digit_value d) eqn:E; [by eapply digit_value_nonneg|done]. }
  specialize (IH (acc * base + digit_of d)). nia.
Qed.

Section Convert.
Variables limit base : Z.
Hypothesis base_ok : 2 ≤ base ≤ 36.
Hypothesis limit_ok : base ≤ limit.
Set Default Proof Using "Type".

Let cutoff := limit / base.
Let cutlim := s32 (limit mod base).

Lemma cutlim_eq : cutlim = limit mod base ∧ 0 ≤ limit mod base < base.
Proof using base_ok. pose proof (Z.mod_pos_bound limit base ltac:(lia)). unfold cutlim. rewrite s32_small; [done|lia]. Qed.

(** The test against [cutoff] and [cutlim] is the test for overflow. *)
Lemma convert_digit_exact acc any d :
  0 ≤ acc ≤ limit → 0 ≤ any → 0 ≤ d < base →
  convert_digit limit base cutoff cutlim acc any d = if acc * base + d <=? limit then (acc * base + d, 1) else (acc, -1).
Proof using base_ok limit_ok.
  intros Ha Hany Hd. destruct cutlim_eq as [-> Hm]. pose proof (Z.div_mod limit base ltac:(lia)) as Hq. fold cutoff in Hq.
  assert (Hfit : ∀ x, 0 ≤ x * base → x * base + d ≤ limit →
    (wrap_limit limit (wrap_limit limit (x * base) + d), 1) = if x * base + d <=? limit then (x * base + d, 1) else (x, -1)).
  { intros x H1 H2. rewrite (proj2 (Z.leb_le _ _)) by done. unfold wrap_limit.
    by rewrite (Z.mod_small (x * base)), Z.mod_small by lia. }
  unfold convert_digit. rewrite (proj2 (Z.ltb_ge any 0)) by done. simpl.
  destruct (Z.ltb_spec cutoff acc); simpl; [rewrite (proj2 (Z.leb_gt _ _)); [done|nia]|].
  destruct (Z.eqb_spec acc cutoff) as [->|]; simpl.
  - destruct (Z.ltb_spec (limit mod base) d); [rewrite (proj2 (Z.leb_gt _ _)); [done|nia]|].
    by apply Hfit; nia.
  - by apply Hfit; nia.
Qed.

Lemma convert_digit_after acc d : convert_digit limit base cutoff cutlim acc (-1) d = (acc, -1).
Proof. done. Qed.

(** The loop over the digits [ds]. *)
Definition converted acc any ds : Z * Z :=
  foldl (λ '(acc, any) c, convert_digit limit base cutoff cutlim acc any (digit_of c)) (acc, any) ds.

Lemma converted_after acc ds : converted acc (-1) ds = (acc, -1).
Proof. unfold converted. induction ds as [|d ds IH]; [done|]. cbn [foldl]. by rewrite convert_digit_after. Qed.

Lemma converted_numeral ds acc any :
  Forall (λ c, digit_in base c = true) ds → 0 ≤ acc ≤ limit → 0 ≤ any →
  let v := foldl (λ acc c, acc * base + digit_of c) acc ds in
  if decide (v ≤ limit) then converted acc any ds = (v, if ds is [] then any else 1) else (converted acc any ds).2 = -1.
Proof using base_ok limit_ok.
  intros Hd. revert acc any. induction Hd as [|d ds Hd0 Hd IH]; intros acc any Ha Hany v.
  - unfold v. simpl. rewrite decide_True by lia. done.
  - apply digit_of_bounds in Hd0. unfold v, converted. cbn [foldl]. rewrite convert_digit_exact by done.
    destruct (Z.leb_spec (acc * base + digit_of d) limit) as [Hle|Hgt].
    + specialize (IH (acc * base + digit_of d) 1 ltac:(nia) ltac:(lia)). cbv zeta in IH. unfold converted in IH.
      destruct (decide _); [rewrite IH; by destruct ds|done].
    + fold (converted acc (-1) ds). rewrite converted_after. rewrite decide_False; [done|].
      pose proof (numeral_from_ge base ds (acc * base + digit_of d) ltac:(lia) ltac:(nia)). lia.
Qed.

Lemma convert_loop_spec m ds q rest fuel acc any :
  cstr m q (ds ++ rest) → Forall (λ c, digit_in base c = true) ds → digit_in base (head_byte rest) = false →
  (length ds < fuel)%nat →
  convert_loop limit fuel base base cutoff cutlim (u32 (q + 1)) (head_byte (ds ++ rest)) acc any m =
    Ret ((converted acc any ds).1, (converted acc any ds).2, u32 (q + Z.of_nat (length ds) + 1)) m.
Proof.
  intros H Hd Hr. revert q fuel acc any H. induction Hd as [|d ds Hd0 Hd IH]; intros q [|fuel] acc any H Hf; simpl in Hf; try lia.
  - cbn [convert_loop app length]. rewrite Z.add_0_r. unfold digit_in in Hr.
    destruct (digit_value (head_byte rest)) as [d|]; [|done]. apply Z.ltb_ge in Hr. by rewrite (proj2 (Z.leb_le base d)).
  - cbn [app head_byte length] in *. destruct (cstr_next _ _ _ _ H) as [-> H']. cbn [convert_loop].
    unfold converted. cbn [foldl]. unfold digit_in in Hd0. unfold digit_of at 2 4.
    destruct (digit_value d) as [x|]; [|done]. apply Z.ltb_lt in Hd0. cbn [default from_option id]. rewrite (proj2 (Z.leb_gt base x)) by done.
    destruct (convert_digit limit base cutoff cutlim acc any x) as [acc' any'] eqn:Ec.
    step (load8_ok _ _ _ (proj1 (cstr_head _ _ _ H'))).
    rewrite (IH (q + 1) fuel acc' any' H') by lia.
    replace (q + 1 + Z.of_nat (length ds) + 1) with (q + Z.of_nat (S (length ds)) + 1) by lia. done.
Qed.
End Convert.

Lemma skip_spaces_spec m ws q bs fuel :
  cstr m q (ws ++ bs) → Forall (λ c, isspace c = true) ws → isspace (head_byte bs) = false → (length ws < fuel)%nat →
  skip_spaces fuel q m = Ret (head_byte bs, u32 (q + Z.of_nat (length ws) + 1)) m.
Proof.
  intros H Hw Hb. revert q fuel H. induction Hw as [|w ws Hw0 Hw IH]; intros q [|fuel] H Hf; simpl in Hf; try lia; cbn [skip_spaces].
  - step (load8_ok _ _ _ (proj1 (cstr_head _ _ _ H))). cbn [app length]. rewrite Hb. by rewrite Z.add_0_r.
  - cbn [app length] in *. destruct (cstr_next _ _ _ _ H) as [Eq H'].
    step (load8_ok _ _ _ (proj1 (cstr_head _ _ _ H))). cbn [head_byte]. rewrite Hw0, Eq, (IH (q + 1)) by (done || lia).
    do 2 f_equal. f_equal. lia.
Qed.

(** The text starts with "0x" or "0X". *)
Definition hex_prefix bs : bool :=
  match bs with c :: x :: _ => (c =? 48) && ((x =? 120) || (x =? 88)) | _ => false end.

(** The number is written in base [b] when [base] is asked for: the prefix [px] comes before the digits. *)
Inductive radix : Z → list Z → list Z → Z → Prop :=
  | radix_given b ds : 2 ≤ b ≤ 36 → (b = 16 → hex_prefix ds = false) → radix b [] ds b
  | radix_dec ds : head_byte ds ≠ 48 → radix 0 [] ds 10
  | radix_oct ds : head_byte ds = 48 → hex_prefix ds = false → radix 0 [] ds 8
  | radix_hex base x ds : base = 0 ∨ base = 16 → x = 120 ∨ x = 88 → radix base [48; x] ds 16.

Lemma digit_char b c : digit_in b c = true → isspace c = false ∧ c ≠ 45 ∧ c ≠ 43.
Proof.
  unfold digit_in, digit_value. destruct (isascii c); [|done]. simpl. unfold isalpha, isdigit, isspace.
  intros H. assert (48 ≤ c) by (destruct (Z.leb_spec 48 c); [done|];
    rewrite (proj2 (Z.leb_gt 65 c)), (proj2 (Z.leb_gt 97 c)) in H by lia; done).
  split; [|lia]. rewrite (proj2 (Z.eqb_neq c 32)), (proj2 (Z.leb_gt c 13)) by lia. by rewrite andb_false_r.
Qed.

Lemma read_sign_spec m q sg bs :
  cstr m q (sg ++ bs) → sg ∈ [[]; [45]; [43]] → head_byte bs ≠ 45 → head_byte bs ≠ 43 →
  read_sign (head_byte (sg ++ bs)) (u32 (q + 1)) m =
    Ret (bool_decide (sg = [45]), head_byte bs, u32 (q + Z.of_nat (length sg) + 1)) m.
Proof.
  intros H Hs H1 H2. unfold read_sign. repeat (apply elem_of_cons in Hs as [->|Hs]; [|]); [..|by apply elem_of_nil in Hs].
  - cbn [app length]. rewrite (proj2 (Z.eqb_neq _ 45)), (proj2 (Z.eqb_neq _ 43)) by done. by rewrite Z.add_0_r.
  - destruct (cstr_next _ _ _ _ H) as [-> H']. simpl. step (load8_ok _ _ _ (proj1 (cstr_head _ _ _ H'))). done.
  - destruct (cstr_next _ _ _ _ H) as [-> H']. simpl. step (load8_ok _ _ _ (proj1 (cstr_head _ _ _ H'))). done.
Qed.

Lemma read_prefix_spec m q px bs base b :
  cstr m q (px ++ bs) → radix base px bs b →
  ∃ base', read_prefix base (head_byte (px ++ bs)) (u32 (q + 1)) m = Ret (head_byte bs, u32 (q + Z.of_nat (length px) + 1), base') m ∧
    (if base' =? 0 then (if head_byte bs =? 48 then 8 else 10) else base') = b.
Proof.
  intros H Hr. assert (Hno : hex_prefix bs = false → px = [] →
    read_prefix base (head_byte bs) (u32 (q + 1)) m = Ret (head_byte bs, u32 (q + 1), base) m).
  { intros Hp ->. unfold read_prefix. destruct ((base =? 0) || _); [|done]. destruct bs as [|c bs]; [done|]. cbn [app head_byte] in *.
    destruct (Z.eqb_spec c 48) as [->|]; [|done]. simpl. destruct (cstr_next _ _ _ _ H) as [-> H'].
    step (load8_ok _ _ _ (proj1 (cstr_head _ _ _ H'))). destruct bs as [|x bs]; [done|]. simpl in Hp |- *. by rewrite Hp. }
  destruct Hr as [b ds Hb Hx|ds Hh|ds Hh Hx|base x ds Hb Hx]; cbn [app length] in *; rewrite ?Z.add_0_r.
  - exists b. rewrite (proj2 (Z.eqb_neq b 0)) by lia. split; [|done].
    destruct (decide (b = 16)) as [->|Hne]; [by apply Hno; auto|]. unfold read_prefix.
    by rewrite (proj2 (Z.eqb_neq b 0)), (proj2 (Z.eqb_neq b 16)) by lia.
  - exists 0. rewrite (proj2 (Z.eqb_neq _ 48)) by done. split; [|done]. unfold read_prefix.
    by rewrite (proj2 (Z.eqb_neq _ 48)) by done.
  - exists 0. rewrite Hh. split; [rewrite <- Hh; by apply Hno|done].
  - exists 16. split; [|done]. unfold read_prefix. cbn [head_byte].
    assert (((base =? 0) || (base =? 16)) && (48 =? 48) = true) as -> by (by destruct Hb as [-> | ->]).
    destruct (cstr_next _ _ _ _ H) as [-> H']. step (load8_ok _ _ _ (proj1 (cstr_head _ _ _ H'))). cbn [head_byte].
    assert ((x =? 120) || (x =? 88) = true) as -> by (by destruct Hx as [-> | ->]).
    destruct (cstr_next _ _ _ _ H') as [-> H'']. step (load8_ok _ _ _ (proj1 (cstr_head _ _ _ H''))).
    cbn [length]. by replace (q + 1 + 2) with (q + Z.of_nat 2 + 1) by lia.
Qed.

(** A numeral of base [b] in a string: spaces, a sign, a prefix, the digits and what follows. *)
Record number_at m p ws sg px ds rest base b : Prop := {
  nu_string : cstr m p (ws ++ sg ++ px ++ ds ++ rest);
  nu_spaces : Forall (λ c, isspace c = true) ws;
  nu_sign : sg ∈ [[]; [45]; [43]];
  nu_radix : radix base px (ds ++ rest) b;
  nu_digits : Forall (λ c, digit_in b c = true) ds;
  nu_nonempty : ds ≠ [];
  nu_end : digit_in b (head_byte rest) = false
}.

Lemma radix_bounds base px ds b : radix base px ds b → 2 ≤ b ≤ 36.
Proof. destruct 1; lia. Qed.

(** What comes after the sign does not look like a sign or a space. *)
Lemma number_start m p ws sg px ds rest base b :
  number_at m p ws sg px ds rest base b →
  let c := head_byte (px ++ ds ++ rest) in isspace c = false ∧ c ≠ 45 ∧ c ≠ 43.
Proof.
  intros [_ _ _ Hr Hd Hn _] c. unfold c. destruct Hd as [|d ds' Hd _]; [done|]. apply digit_char in Hd. by inversion Hr; subst.
Qed.

Definition saturated (limit v : Z) (neg : bool) : Z :=
  if limit <? v then limit else if neg then (- v) mod (limit + 1) else v.

Lemma strto_spec limit m p e ws sg px ds rest base b :
  limit = ULONG_MAX ∨ limit = UQUAD_MAX → number_at m p ws sg px ds rest base b →
  e = 0 ∨ (0 < e ∧ e + 4 ≤ W32 ∧ mapped m e 4) →
  strto limit p e base m =
    Ret (saturated limit (numeral b ds) (bool_decide (sg = [45])))
      (if e =? 0 then m else write_at e (le32 (p + Z.of_nat (length (ws ++ sg ++ px ++ ds)))) m).
Proof.
  intros Hlim Hnum He. destruct (number_start _ _ _ _ _ _ _ _ _ Hnum) as (Hsp & H45 & H43).
  destruct Hnum as [H Hw Hs Hr Hd Hn Hend]. pose proof (radix_bounds _ _ _ _ Hr) as Hb.
  assert (Hlow : 0 ≤ p) by apply H. pose proof (cstr_high _ _ _ H) as Hhigh. pose proof (cstr_size _ _ _ H) as Hsz.
  rewrite !length_app in Hhigh, Hsz. assert (Hl : b ≤ limit) by lia.
  unfold strto. step (eq_refl : fuel_of_heap m = Ret (S (size m)) m).
  assert (Hsp' : isspace (head_byte (sg ++ px ++ ds ++ rest)) = false).
  { repeat (apply elem_of_cons in Hs as [->|Hs]; [done|]). by apply elem_of_nil in Hs. }
  step (skip_spaces_spec m ws p (sg ++ px ++ ds ++ rest) (S (size m)) H Hw Hsp' ltac:(lia)). cbv beta iota.
  pose proof (cstr_drop m p _ (length ws) H ltac:(rewrite length_app; lia)) as H1. rewrite drop_app_length in H1.
  step (read_sign_spec m _ sg (px ++ ds ++ rest) H1 Hs H45 H43). cbv beta iota.
  pose proof (cstr_drop m _ _ (length sg) H1 ltac:(rewrite length_app; lia)) as H2. rewrite drop_app_length in H2.
  destruct (read_prefix_spec m _ px (ds ++ rest) base b H2 Hr) as (base' & E & Hbase). step E. cbv beta iota zeta. rewrite Hbase.
  pose proof (cstr_drop m _ _ (length px) H2 ltac:(rewrite length_app; lia)) as H3. rewrite drop_app_length in H3.
  rewrite (u32_small b) by lia. set (q := p + Z.of_nat (length ws) + Z.of_nat (length sg) + Z.of_nat (length px)) in *.
  step (convert_loop_spec limit b m ds q rest (S (size m)) 0 0 H3 Hd Hend ltac:(lia)). cbv beta iota.
  pose proof (converted_numeral limit b Hb Hl ds 0 0 Hd ltac:(lia) ltac:(lia)) as Hc. cbv zeta in Hc. fold (numeral b ds) in Hc.
  destruct (converted limit b 0 0 ds) as [acc any]. cbn [fst snd].
  assert (Hany : any ≠ 0 ∧ (if any <? 0 then limit else if bool_decide (sg = [45]) then wrap_limit limit (- acc) else acc) =
    saturated limit (numeral b ds) (bool_decide (sg = [45]))).
  { unfold saturated. destruct (decide (numeral b ds ≤ limit)) as [Hle|Hgt].
    - destruct ds; [done|]. injection Hc as -> ->. by rewrite (proj2 (Z.ltb_ge limit _)).
    - simpl in Hc. subst any. by rewrite (proj2 (Z.ltb_lt limit _)) by lia. }
  destruct Hany as [Hany Hval]. rewrite Hval, (proj2 (Z.eqb_neq any 0)) by done. cbn [negb].
  destruct He as [->|(He0 & He4 & Hem)]; [done|]. rewrite (proj2 (Z.eqb_neq e 0)) by lia. cbn [negb].
  assert (Hu : u32 (u32 (q + Z.of_nat (length ds) + 1) - 1) = p + Z.of_nat (length (ws ++ sg ++ px ++ ds))).
  { rewrite !length_app. unfold q in *. destruct (decide (p + Z.of_nat (length ws) + Z.of_nat (length sg) + Z.of_nat (length px) + Z.of_nat (length ds) + 1 = W32)) as [Hx|Hx].
    - rewrite Hx, u32_W32. unfold u32. change ((0 - 1) mod W32) with 4294967295. lia.
    - rewrite (u32_small (_ + 1)), u32_small by lia. lia. }
  rewrite Hu. by step (store32_ok m e (p + Z.of_nat (length (ws ++ sg ++ px ++ ds))) Hem ltac:(lia) He4).
Qed.

(** For every string that starts, after spaces, a sign and a prefix, with a
    numeral in the base asked for (or in the base its prefix selects when 0 is
    asked for), [strtoul] and [strtouq] return its value, negated in the
    result type if the sign is a minus, or the largest value of the type if
    the numeral exceeds it; and they store the address of the first character
    after the numeral through [endptr] unless that is null. *)
Theorem strto_correct m p e ws sg px ds rest base b (neg := bool_decide (sg = [45])) :
  number_at m p ws sg px ds rest base b → e = 0 ∨ (0 < e ∧ e + 4 ≤ W32 ∧ mapped m e 4) →
  let m' := if e =? 0 then m else write_at e (le32 (p + Z.of_nat (length (ws ++ sg ++ px ++ ds)))) m in
  strtoul p e base m = Ret (saturated ULONG_MAX (numeral b ds) neg) m' ∧
  strtouq p e base m = Ret (saturated UQUAD_MAX (numeral b ds) neg) m'.
Proof. intros Hn He. split; (eapply strto_spec; [auto|done|done]). Qed.

(** " -0x1fg" at 100. *)
Definition ex_number : bytes := write_at 100 [32; 45; 48; 120; 49; 102; 103; 0] (write_at 200 [0; 0; 0; 0] ∅).

Lemma strto_correct_witness :
  ∃ m', strtoul 100 200 0 ex_number = Ret 4294967265 m' ∧ strtouq 100 200 0 ex_number = Ret 18446744073709551585 m' ∧
    array m' 200 (le32 106).
Proof.
  destruct (strto_correct ex_number 100 200 [32] [45] [48; 120] [49; 102] [103] 0 16) as [E1 E2].
  - split; [|by repeat constructor|by right; left|by constructor; [left|left]|by repeat constructor|done|done].
    apply cstr_of_array; [apply write_at_array|by repeat constructor|lia|simpl; lia].
  - right. split; [lia|]. split; [lia|]. apply write_at_mapped. apply (array_mapped _ _ [0; 0; 0; 0]), write_at_array.
  - exists (write_at 200 (le32 106) ex_number). split; [exact E1|]. split; [exact E2|]. apply write_at_array.
Defined.
