(* ===== verification/Kprintf.v ===== *)
(** * kernel/utils/kprintf.c: formatted output

    [kvprintf] reads the format and the strings from byte memory and its
    arguments from the words on the stack, as the ia32 calling convention
    passes them: a 64-bit argument is two words, the lower first.  Characters
    go to [func], modelled as the sequence of its arguments, or through the
    buffer pointer when [func] is null.  The switch is split by groups of
    conversions; [reswitch] is the loop over flags. *)

From stdpp Require Import base numbers list gmap strings fin_maps.
From S2P Require Import Prelude UtList MemUtil Bytes Cstring Strtoul.

(** ** State *)
Record kp := Kp {
  kp_mem : bytes;
  kp_out : list Z;   (* what func was called with *)
  kp_ap : list Z;    (* the words of the variable arguments not read yet *)
  kp_d : Z;          (* the buffer pointer d *)
  kp_retval : Z
}.

Definition set_kp_mem (m : bytes) (k : kp) : kp := Kp m (kp_out k) (kp_ap k) (kp_d k) (kp_retval k).

Definition on_text {A} (m : M bytes A) : M kp A := zoom kp_mem set_kp_mem m.

(** The flags and the number read between % and the conversion character. *)
Record flags := Flags {
  padc : Z; width : Z; dwidth : Z; dot : bool;
  ladjust : bool; sharpflag : bool; sign : bool; upper : bool;
  lflag : bool; qflag : bool; hflag : bool; cflag : bool; jflag : bool; tflag : bool; zflag : bool
}.

Definition no_flags : flags :=
  Flags 32 0 0 false false false false false false false false false false false false.

Definition set_padc v f := Flags v (width f) (dwidth f) (dot f) (ladjust f) (sharpflag f) (sign f) (upper f)
  (lflag f) (qflag f) (hflag f) (cflag f) (jflag f) (tflag f) (zflag f).
Definition set_width v f := Flags (padc f) v (dwidth f) (dot f) (ladjust f) (sharpflag f) (sign f) (upper f)
  (lflag f) (qflag f) (hflag f) (cflag f) (jflag f) (tflag f) (zflag f).
Definition set_dwidth v f := Flags (padc f) (width f) v (dot f) (ladjust f) (sharpflag f) (sign f) (upper f)
  (lflag f) (qflag f) (hflag f) (cflag f) (jflag f) (tflag f) (zflag f).
Definition set_dot v f := Flags (padc f) (width f) (dwidth f) v (ladjust f) (sharpflag f) (sign f) (upper f)
  (lflag f) (qflag f) (hflag f) (cflag f) (jflag f) (tflag f) (zflag f).
Definition set_ladjust v f := Flags (padc f) (width f) (dwidth f) (dot f) v (sharpflag f) (sign f) (upper f)
  (lflag f) (qflag f) (hflag f) (cflag f) (jflag f) (tflag f) (zflag f).
Definition set_sharpflag v f := Flags (padc f) (width f) (dwidth f) (dot f) (ladjust f) v (sign f) (upper f)
  (lflag f) (qflag f) (hflag f) (cflag f) (jflag f) (tflag f) (zflag f).
Definition set_sign v f := Flags (padc f) (width f) (dwidth f) (dot f) (ladjust f) (sharpflag f) v (upper f)
  (lflag f) (qflag f) (hflag f) (cflag f) (jflag f) (tflag f) (zflag f).
Definition set_upper v f := Flags (padc f) (width f) (dwidth f) (dot f) (ladjust f) (sharpflag f) (sign f) v
  (lflag f) (qflag f) (hflag f) (cflag f) (jflag f) (tflag f) (zflag f).
Definition set_lq l q f := Flags (padc f) (width f) (dwidth f) (dot f) (ladjust f) (sharpflag f) (sign f) (upper f)
  l q (hflag f) (cflag f) (jflag f) (tflag f) (zflag f).
Definition set_hc h c f := Flags (padc f) (width f) (dwidth f) (dot f) (ladjust f) (sharpflag f) (sign f) (upper f)
  (lflag f) (qflag f) h c (jflag f) (tflag f) (zflag f).
Definition set_jtz j t z f := Flags (padc f) (width f) (dwidth f) (dot f) (ladjust f) (sharpflag f) (sign f) (upper f)
  (lflag f) (qflag f) (hflag f) (cflag f) j t z.

(** ** Numbers *)

(** "0123456789abcdefghijklmnopqrstuvwxyz" with its terminator. *)
Definition hex2ascii_data : list Z := ((λ i, 48 + Z.of_nat i) <$> seq 0 10) ++ ((λ i, 97 + Z.of_nat i) <$> seq 0 26) ++ [0].

Definition hex2ascii {S} (hex : Z) : M S Z :=
  match hex2ascii_data !! Z.to_nat hex with Some c => mret c | None => fault end.

(** "B", "KB", "MB", "GB", "TB", "PB" *)
Abbreviation human_units := ([[66]; [75; 66]; [77; 66]; [71; 66]; [84; 66]; [80; 66]]) (only parsing).
Abbreviation max_human_unit := 5 (only parsing).

(** A 64-bit number in base 2 and the NUL byte. *)
Definition MAXNBUF : nat := 65.

(** [room] bytes of nbuf are left after [p]; the result is what was stored
    after the NUL byte, the last character first.  A store past the buffer
    faults, and so does a division by zero. *)
Fixpoint ksprintn_loop {S} (room : nat) (num base : Z) (upper : bool) (acc : list Z) : M S (list Z) :=
  match room with
  | O => fault
  | Datatypes.S room =>
      if base =? 0 then fault
      else
        c ← hex2ascii (num mod base);
        let acc := (if upper then toupper c else c) :: acc in
        let num := num / base in
        if negb (num =? 0) then ksprintn_loop room num base upper acc else mret acc
  end.

(** [base] is an [int], converted to [uintmax_t] for the division. *)
Definition ksprintn {S} (num base : Z) (upper : bool) : M S (list Z) :=
  ksprintn_loop (MAXNBUF - 1) num (u64 base) upper [].

Section Print.
(** Whether [func] is given. *)
Variable func : bool.

Definition PCHAR (cc : Z) : M kp unit :=
  (if func then modify (λ k, Kp (kp_mem k) (kp_out k ++ [cc]) (kp_ap k) (kp_d k) (kp_retval k))
   else
     k ← get;
     on_text (store8 (kp_d k) (u8 cc));;
     modify (λ k, Kp (kp_mem k) (kp_out k) (kp_ap k) (u32 (kp_d k + 1)) (kp_retval k)));;
  modify (λ k, Kp (kp_mem k) (kp_out k) (kp_ap k) (kp_d k) (s32 (kp_retval k + 1))).

(** [while (width--) PCHAR(padc);] *)
Fixpoint pad (n : nat) (c : Z) : M kp unit :=
  match n with O => mret tt | S n => PCHAR c;; pad n c end.

(** Characters that the code prints from a string it knows. *)
Fixpoint print_chars (cs : list Z) : M kp unit :=
  match cs with [] => mret tt | c :: cs => PCHAR c;; print_chars cs end.

(** The loop that prints the number buffer from [p] down to the NUL byte:
    [cs] are the stored characters from [p] down, the NUL byte follows them. *)
Fixpoint print_number_buffer (cs : list Z) : M kp unit :=
  match cs with
  | [] => mret tt
  | c :: cs => if c =? 0 then mret tt else PCHAR c;; print_number_buffer cs
  end.

(** *** va_arg *)
Definition va_word : M kp Z :=
  k ← get;
  match kp_ap k with
  | [] => fault
  | w :: ap => modify (λ k, Kp (kp_mem k) (kp_out k) ap (kp_d k) (kp_retval k));; mret w
  end.

Definition va_quad : M kp Z := lo ← va_word; hi ← va_word; mret (lo + Z.shiftl hi 32).

(** handle_nosign and handle_sign: the value of [num], a [uintmax_t]. *)
Definition nosign_arg (f : flags) : M kp Z :=
  if jflag f then va_quad
  else if qflag f then va_quad
  else if tflag f then w ← va_word; mret (u64 (s32 w))
  else if lflag f then va_word
  else if zflag f then va_word
  else if hflag f then w ← va_word; mret (u16 w)
  else if cflag f then w ← va_word; mret (u8 w)
  else va_word.

Definition sign_arg (f : flags) : M kp Z :=
  if jflag f then va_quad
  else if qflag f then va_quad
  else if tflag f then w ← va_word; mret (u64 (s32 w))
  else if lflag f then w ← va_word; mret (u64 (s32 w))
  else if zflag f then w ← va_word; mret (u64 (s32 w))
  else if hflag f then w ← va_word; mret (u64 (s16 w))
  else if cflag f then w ← va_word; mret (u64 (s8 w))
  else w ← va_word; mret (u64 (s32 w)).

(** [while(Bunits < max_human_unit && num > 1024)] *)
Fixpoint human_loop (n : nat) (num Bunits : Z) : Z * Z :=
  match n with
  | O => (num, Bunits)
  | S n => if (Bunits <? max_human_unit) && (1024 <? num) then human_loop n (num / 1024) (Bunits + 1) else (num, Bunits)
  end.

(** [if (cond && width && (width -= tmp) > 0) while (width--) PCHAR(padc);]
    returns the width left. *)
Definition pad_number (cond : bool) (width tmp c : Z) : M kp Z :=
  if cond && negb (width =? 0) then
    let width := s32 (width - tmp) in
    if 0 <? width then pad (Z.to_nat width) c;; mret (-1) else mret width
  else mret width.

(** From the label number on. *)
Definition print_number (f : flags) (Bflag : bool) (base num : Z) : M kp unit :=
  let neg := sign f && (s64 num <? 0) in
  let num := if neg then u64 (- s64 num) else num in
  let '(num, Bunits) := if Bflag then human_loop 5 num 0 else (num, 0) in
  let Bunitsstr := if Bflag then default [] (human_units !! Z.to_nat Bunits) else [] in
  cs ← ksprintn num base (upper f);
  let tmp := Z.of_nat (length cs) in
  let tmp :=
    if sharpflag f && negb (num =? 0) then
      if base =? 8 then tmp + 1 else if base =? 16 then tmp + 2 else tmp
    else tmp in
  let tmp := if neg then tmp + 1 else tmp in
  let tmp := if Bflag then tmp + Z.of_nat (length Bunitsstr) else tmp in
  w ← pad_number (negb (ladjust f) && negb (padc f =? 48)) (width f) tmp (padc f);
  (if neg then PCHAR 45 else mret tt);;
  (if sharpflag f && negb (num =? 0) then
     if base =? 8 then PCHAR 48 else if base =? 16 then PCHAR 48;; PCHAR 120 else mret tt
   else mret tt);;
  w ← pad_number (negb (ladjust f)) w tmp (padc f);
  print_number_buffer cs;;
  print_chars Bunitsstr;;
  w ← pad_number (ladjust f) w tmp (padc f);
  mret tt.

(** *** Strings *)

(** [for (n = 0; n < dwidth && p[n]; n++)], [k] rounds at most. *)
Fixpoint bounded_len (k : nat) (p n : Z) : M bytes Z :=
  match k with
  | O => mret n
  | S k => c ← load8 (u32 (p + n)); if c =? 0 then mret n else bounded_len k p (n + 1)
  end.

(** [while (n--)], a character from [p] each time. *)
Fixpoint print_mem (n : nat) (p : Z) : M kp unit :=
  match n with
  | O => mret tt
  | S n => c ← on_text (load_char p); PCHAR c;; print_mem n (u32 (p + 1))
  end.

(** Where the string literal "(null)" is. *)
Variable null_str : Z.

Definition conv_s (f : flags) : M kp unit :=
  p ← va_word;
  let p := if p =? NULL then null_str else p in
  n ← on_text (if negb (dot f) then strlen p else bounded_len (Z.to_nat (dwidth f)) p 0);
  let n := s32 n in
  let width := s32 (width f - n) in
  (if negb (ladjust f) && (0 <? width) then pad (Z.to_nat width) (padc f) else mret tt);;
  print_mem (Z.to_nat n) p;;
  (if ladjust f && (0 <? width) then pad (Z.to_nat width) (padc f) else mret tt).

(** %b: the characters up to the next one that is not printed. *)
Fixpoint print_name (fuel : nat) (p : Z) : M kp Z :=
  match fuel with
  | O => nofuel
  | S fuel =>
      n ← on_text (load_char p);
      if 32 <? n then PCHAR n;; print_name fuel (u32 (p + 1)) else mret p
  end.

Fixpoint skip_name (fuel : nat) (p : Z) : M kp Z :=
  match fuel with
  | O => nofuel
  | S fuel =>
      n ← on_text (load_char p);
      if 32 <? n then skip_name fuel (u32 (p + 1)) else mret p
  end.

(** The processor uses the low five bits of a shift count. *)
Fixpoint bits_loop (fuel : nat) (num p : Z) (tmp : bool) : M kp bool :=
  match fuel with
  | O => nofuel
  | S fuel =>
      n ← on_text (load_char p);
      if n =? 0 then mret tmp
      else
        let p := u32 (p + 1) in
        if negb (Z.land num (u64 (s32 (Z.shiftl 1 (Z.land (n - 1) 31)))) =? 0) then
          PCHAR (if tmp then 44 else 60);;
          p ← print_name fuel p;
          bits_loop fuel num p true
        else
          p ← skip_name fuel p;
          bits_loop fuel num p tmp
  end.

Definition conv_b (fuel : nat) : M kp unit :=
  num ← va_word;
  p ← va_word;
  base ← on_text (load_char p);
  cs ← ksprintn num base false;
  print_number_buffer cs;;
  if num =? 0 then mret tt
  else
    tmp ← bits_loop fuel num (u32 (p + 1)) false;
    if (tmp : bool) then PCHAR 62 else mret tt.

(** %D: the separator. *)
Fixpoint print_str (fuel : nat) (q : Z) : M kp unit :=
  match fuel with
  | O => nofuel
  | S fuel =>
      c ← on_text (load_char q);
      if c =? 0 then mret tt else PCHAR c;; print_str fuel (u32 (q + 1))
  end.

(** [while(width--)]: [n] more rounds. *)
Fixpoint dump_loop (n fuel : nat) (up p : Z) : M kp unit :=
  match n with
  | O => mret tt
  | S n =>
      b ← on_text (load8 up);
      h ← hex2ascii (Z.shiftr b 4);
      PCHAR h;;
      b ← on_text (load8 up);
      l ← hex2ascii (Z.land b 15);
      PCHAR l;;
      (if negb (Nat.eqb n 0) then print_str fuel p else mret tt);;
      dump_loop n fuel (u32 (up + 1)) p
  end.

Definition conv_D (fuel : nat) (f : flags) : M kp unit :=
  up ← va_word;
  p ← va_word;
  let width := if width f =? 0 then 16 else width f in
  dump_loop (Z.to_nat (u32 width)) fuel up p.

(** %n: the number of characters so far, stored in the type the flags select. *)
Definition conv_n (f : flags) : M kp unit :=
  p ← va_word;
  k ← get;
  let v := kp_retval k in
  on_text
    (if jflag f || qflag f then store32 p (u32 v);; store32 (u32 (p + 4)) (u32 (Z.shiftr v 32))
     else if lflag f || zflag f then store32 p (u32 v)
     else if hflag f then store8 p (u8 v);; store8 (u32 (p + 1)) (u8 (Z.shiftr v 8))
     else if cflag f then store8 p (u8 v)
     else store32 p (u32 v)).

(** [while (percent < fmt) PCHAR( *percent++);] prints [fmt - percent] characters. *)
Definition print_rest (percent fmt : Z) : M kp unit := print_mem (Z.to_nat (fmt - percent)) percent.

(** *** The format *)
Variable radix : Z.

(** The conversions; the result is the new value of [stop], [fmt] is the
    address after the conversion character [ch]. *)
Definition convert (fuel : nat) (f : flags) (ch percent fmt : Z) : M kp bool :=
  match ch with
  | 37 (* % *) => PCHAR ch;; mret false
  | 66 (* B *) => num ← nosign_arg f; print_number (set_sign false f) true 10 num;; mret false
  | 98 (* b *) => conv_b fuel;; mret false
  | 99 (* c *) => w ← va_word; PCHAR (s32 w);; mret false
  | 68 (* D *) => conv_D fuel f;; mret false
  | 100 (* d *) | 105 (* i *) => num ← sign_arg f; print_number (set_sign true f) false 10 num;; mret false
  | 110 (* n *) => conv_n f;; mret false
  | 111 (* o *) => num ← nosign_arg f; print_number (set_sign false f) false 8 num;; mret false
  | 112 (* p *) =>
      num ← va_word;
      print_number (set_sign false (set_sharpflag (width f =? 0) f)) false 16 num;; mret false
  | 114 (* r *) =>
      if sign f then num ← sign_arg f; print_number f false radix num;; mret false
      else num ← nosign_arg f; print_number f false radix num;; mret false
  | 115 (* s *) => conv_s f;; mret false
  | 117 (* u *) => num ← nosign_arg f; print_number (set_sign false f) false 10 num;; mret false
  | 88 (* X *) => num ← nosign_arg f; print_number (set_sign false (set_upper true f)) false 16 num;; mret false
  | 120 (* x *) => num ← nosign_arg f; print_number (set_sign false f) false 16 num;; mret false
  | 121 (* y *) => num ← sign_arg f; print_number (set_sign true f) false 16 num;; mret false
  | _ => print_rest percent fmt;; mret true
  end.

(** [for (n = 0;; ++fmt)]: the value of the digits from [ch] on and the
    address of the first character after them. *)
Fixpoint read_width (fuel : nat) (n ch fmt : Z) : M bytes (Z * Z) :=
  match fuel with
  | O => nofuel
  | S fuel =>
      let n := s32 (n * 10 + ch - 48) in
      ch ← load_char fmt;
      if (ch <? 48) || (57 <? ch) then mret (n, fmt) else read_width fuel n ch (u32 (fmt + 1))
  end.

(** The switch at the label reswitch; the result is [fmt] and [stop]. *)
Fixpoint reswitch (fuel : nat) (percent fmt : Z) (f : flags) : M kp (Z * bool) :=
  match fuel with
  | O => nofuel
  | S fuel =>
      ch ← on_text (load8 fmt);
      let fmt := u32 (fmt + 1) in
      match ch with
      | 46 (* . *) => reswitch fuel percent fmt (set_dot true f)
      | 35 (* # *) => reswitch fuel percent fmt (set_sharpflag true f)
      | 43 (* + *) => reswitch fuel percent fmt (set_sign true f)
      | 45 (* - *) => reswitch fuel percent fmt (set_ladjust true f)
      | 42 (* star *) =>
          w ← va_word;
          let w := s32 w in
          reswitch fuel percent fmt
            (if negb (dot f) then
               if w <? 0 then set_width (s32 (- w)) (set_ladjust (negb (ladjust f)) f) else set_width w f
             else set_dwidth w f)
      | 104 (* h *) => reswitch fuel percent fmt (if hflag f then set_hc false true f else set_hc true (cflag f) f)
      | 106 (* j *) => reswitch fuel percent fmt (set_jtz true (tflag f) (zflag f) f)
      | 108 (* l *) => reswitch fuel percent fmt (if lflag f then set_lq false true f else set_lq true (qflag f) f)
      | 113 (* q *) => reswitch fuel percent fmt (set_lq (lflag f) true f)
      | 116 (* t *) => reswitch fuel percent fmt (set_jtz (jflag f) true (zflag f) f)
      | 122 (* z *) => reswitch fuel percent fmt (set_jtz (jflag f) (tflag f) true f)
      | _ =>
          if (ch =? 48) && negb (dot f) then reswitch fuel percent fmt (set_padc 48 f)
          else if (48 <=? ch) && (ch <=? 57) then
            '(n, fmt) ← on_text (read_width fuel 0 ch fmt);
            reswitch fuel percent fmt (if dot f then set_dwidth n f else set_width n f)
          else
            stop ← convert fuel f ch percent fmt;
            mret (fmt, stop)
      end
  end.

(** [while ((ch = (u_char)*fmt++) != '%' || stop)]: [None] at the end of the
    format, otherwise the address after the percent sign. *)
Fixpoint literal_loop (fuel : nat) (fmt : Z) (stop : bool) : M kp (option Z) :=
  match fuel with
  | O => nofuel
  | S fuel =>
      ch ← on_text (load8 fmt);
      let fmt := u32 (fmt + 1) in
      if negb (ch =? 37) || stop then
        if ch =? 0 then mret None else PCHAR ch;; literal_loop fuel fmt stop
      else mret (Some fmt)
  end.

Fixpoint kvprintf_loop (rounds fuel : nat) (fmt : Z) (stop : bool) : M kp Z :=
  match rounds with
  | O => nofuel
  | S rounds =>
      r ← literal_loop fuel fmt stop;
      match r with
      | None => k ← get; mret (kp_retval k)
      | Some fmt =>
          '(fmt, stop') ← reswitch fuel (u32 (fmt - 1)) fmt no_flags;
          kvprintf_loop rounds fuel fmt (stop || stop')
      end
  end.
End Print.

(** Where the string literal "(fmt null)\n" is, and "(null)". *)
Definition kvprintf (fmt_null null_str : Z) (func : bool) (fmt arg radix : Z) : M kp Z :=
  modify (λ k, Kp (kp_mem k) (kp_out k) (kp_ap k) (if func then NULL else arg) 0);;
  let fmt := if fmt =? NULL then fmt_null else fmt in
  let radix := if (radix <? 2) || (36 <? radix) then 10 else radix in
  fuel ← on_text fuel_of_heap;
  kvprintf_loop func null_str radix fuel fuel fmt false.

(** [kprintf]: the characters go to [putchar], that is to [tty_putc]. *)
Definition kprintf (fmt_null null_str fmt : Z) : M kp unit :=
  kvprintf fmt_null null_str true fmt NULL 10;; mret tt.
