(* ===== verification/KprintfSpec.v ===== *)
(** * What [kvprintf] prints

    [ksprintn] writes the numeral of its argument, which [strtoul] reads back;
    and for every format made of text, percent signs, characters, strings and
    integers with a field width, [kvprintf] prints the fields one after the
    other, padded as the flags say, and consumes exactly their arguments. *)

From stdpp Require Import base numbers list gmap strings fin_maps.
From S2P Require Import Prelude UtList MemUtil Bytes Cstring Strtoul Kprintf.

(** ** Numerals *)

(** The character of a digit. *)
Definition digit_char (upper : bool) (d : Z) : Z :=
  let c := if d <? 10 then 48 + d else 87 + d in if upper then toupper c else c.

(** The numeral of [n] in front of [acc], [fuel] digits at most. *)
Fixpoint digit_text (fuel : nat) (base : Z) (upper : bool) (n : Z) (acc : list Z) : list Z :=
  match fuel with
  | O => acc
  | S fuel =>
      let acc := digit_char upper (n mod base) :: acc in
      if n / base =? 0 then acc else digit_text fuel base upper (n / base) acc
  end.

Definition number_text (base : Z) (upper : bool) (n : Z) : list Z := digit_text 64 base upper n [].

Lemma hex2ascii_ok {S} d (s : S) : 0 ≤ d < 36 → hex2ascii d s = Ret (digit_char false d) s.
Proof.
  intros Hd. unfold hex2ascii, digit_char.
  assert (Hl : hex2ascii_data !! Z.to_nat d = Some (if d <? 10 then 48 + d else 87 + d)).
  { unfold hex2ascii_data. destruct (Z.ltb_spec d 10).
    - rewrite lookup_app_l by (rewrite length_fmap, length_seq; lia). rewrite list_lookup_fmap, lookup_seq_lt by lia. simpl. f_equal. lia.
    - rewrite lookup_app_r by (rewrite length_fmap, length_seq; lia). rewrite length_fmap, length_seq.
      rewrite lookup_app_l by (rewrite length_fmap, length_seq; lia). rewrite list_lookup_fmap, lookup_seq_lt by lia. simpl. f_equal. lia. }
  by rewrite Hl.
Qed.

Lemma ksprintn_loop_ok {S} room num base up acc (s : S) :
  2 ≤ base ≤ 36 → 0 ≤ num < base ^ Z.of_nat room → (0 < room)%nat →
  ksprintn_loop room num base up acc s = Ret (digit_text room base up num acc) s.
Proof.
  intros Hb. revert num acc. induction room as [|room IH]; intros num acc Hn Hr; [lia|].
  cbn [ksprintn_loop digit_text]. rewrite (proj2 (Z.eqb_neq base 0)) by lia.
  pose proof (Z.mod_pos_bound num base ltac:(lia)). step (hex2ascii_ok (num mod base) s ltac:(lia)).
  assert (Hc : (if up then toupper (digit_char false (num mod base)) else digit_char false (num mod base)) =
    digit_char up (num mod base)) by done. rewrite Hc.
  destruct (Z.eqb_spec (num / base) 0) as [|Hq]; [done|]. cbn [negb].
  rewrite Nat2Z.inj_succ, Z.pow_succ_r in Hn by lia.
  assert (num / base < base ^ Z.of_nat room) by (apply Z.div_lt_upper_bound; lia).
  assert (0 ≤ num / base) by (apply Z.div_pos; lia).
  apply IH; [done|]. destruct room; [|lia]. simpl in *. lia.
Qed.

Lemma pow_64 base n : 2 ≤ base → 0 ≤ n < W64 → 0 ≤ n < base ^ Z.of_nat 64.
Proof. intros Hb Hn. pose proof (Z.pow_le_mono_l 2 base (Z.of_nat 64) ltac:(lia)). change (2 ^ Z.of_nat 64) with W64 in *. lia. Qed.

Lemma ksprintn_ok {S} num base up (s : S) :
  2 ≤ base ≤ 36 → 0 ≤ num < W64 → ksprintn num base up s = Ret (number_text base up num) s.
Proof.
  intros Hb Hn. unfold ksprintn, number_text. replace (u64 base) with base by (unfold u64; rewrite Z.mod_small; lia).
  apply ksprintn_loop_ok; [done|by apply pow_64; lia|unfold MAXNBUF; lia].
Qed.

Lemma digit_value_char up d : 0 ≤ d < 36 → digit_value (digit_char up d) = Some d.
Proof.
  intros Hd. assert (Hin : d ∈ Z.of_nat <$> seq 0 36).
  { apply list_elem_of_fmap. exists (Z.to_nat d). split; [lia|]. apply elem_of_seq. lia. }
  assert (Hall : Forall (λ d, ∀ up, digit_value (digit_char up d) = Some d) (Z.of_nat <$> seq 0 36)).
  { simpl. repeat constructor; intros []; reflexivity. }
  by apply (proj1 (Forall_forall _ _) Hall).
Qed.

Lemma digit_char_range up d : 0 ≤ d < 36 → 48 ≤ digit_char up d < 123.
Proof. intros Hd. unfold digit_char, toupper. destruct (Z.ltb_spec d 10), up, (Z.leb_spec 97 (48 + d)), (Z.leb_spec 97 (87 + d)), (Z.leb_spec (48 + d) 122), (Z.leb_spec (87 + d) 122); simpl; lia. Qed.

Lemma digit_of_char up d : 0 ≤ d < 36 → digit_of (digit_char up d) = d.
Proof. intros Hd. unfold digit_of. by rewrite digit_value_char. Qed.

Lemma digit_text_spec fuel base up n acc :
  2 ≤ base ≤ 36 → 0 ≤ n < base ^ Z.of_nat fuel → (0 < fuel)%nat →
  ∃ ds, digit_text fuel base up n acc = ds ++ acc ∧ ds ≠ [] ∧ (length ds ≤ fuel)%nat ∧
    Forall (λ c, digit_in base c = true) ds ∧ Forall (λ c, 48 ≤ c < 123) ds ∧ numeral base ds = n.
Proof.
  intros Hb. revert n acc. induction fuel as [|fuel IH]; intros n acc Hn Hf; [lia|]. cbn [digit_text].
  pose proof (Z.mod_pos_bound n base ltac:(lia)) as Hm. set (c := digit_char up (n mod base)).
  assert (Hc : digit_in base c = true ∧ 48 ≤ c < 123 ∧ digit_of c = n mod base).
  { unfold c. split; [|split; [apply digit_char_range; lia|apply digit_of_char; lia]].
    unfold digit_in. rewrite digit_value_char by lia. apply Z.ltb_lt. lia. }
  destruct Hc as (Hc1 & Hc2 & Hc3). destruct (Z.eqb_spec (n / base) 0) as [Hq|Hq].
  - exists [c]. repeat split; [done|simpl; lia|by constructor|by constructor|]. unfold numeral. simpl. rewrite Hc3.
    pose proof (Z.div_mod n base ltac:(lia)). rewrite Hq in *. lia.
  - rewrite Nat2Z.inj_succ, Z.pow_succ_r in Hn by lia.
    assert (0 ≤ n / base < base ^ Z.of_nat fuel) by (split; [apply Z.div_pos; lia|apply Z.div_lt_upper_bound; lia]).
    destruct (IH (n / base) (c :: acc)) as (ds & E & Hne & Hlen & Hd & Hr & Hv); [done|destruct fuel; [simpl in *; lia|lia]|].
    exists (ds ++ [c]). rewrite E, <- app_assoc. repeat split.
    + by destruct ds.
    + rewrite length_app. simpl. lia.
    + apply Forall_app. split; [done|by constructor].
    + apply Forall_app. split; [done|by constructor].
    + unfold numeral in *. rewrite foldl_app, Hv. simpl. rewrite Hc3. pose proof (Z.div_mod n base ltac:(lia)). lia.
Qed.

Lemma number_text_spec base up n (ds := number_text base up n) :
  2 ≤ base ≤ 36 → 0 ≤ n < W64 →
  ds ≠ [] ∧ (length ds ≤ 64)%nat ∧ Forall (λ c, digit_in base c = true) ds ∧ Forall (λ c, 48 ≤ c < 123) ds ∧ numeral base ds = n.
Proof.
  intros Hb Hn. destruct (digit_text_spec 64 base up n [] Hb) as (ds' & E & H); [by apply pow_64; lia|lia|].
  unfold ds, number_text. rewrite E, app_nil_r. done.
Qed.

#[local] Opaque number_text.

(** C38: Numbers survive printing and reading: for every base from 2 to 36 and
    every 64-bit number, [ksprintn] stays within its buffer and writes a
    numeral of at most 64 characters, in upper or lower case, from which
    [strtouq], and [strtoul] if the number fits in 32 bits, returns the number. *)
Theorem ksprintn_strtouq_roundtrip num base up :
  2 ≤ base ≤ 36 → 0 ≤ num < W64 →
  ∃ cs, ksprintn num base up tt = Ret cs tt ∧ (0 < length cs ≤ 64)%nat ∧
    ∀ m p, cstr m p cs → strtouq p 0 base m = Ret num m ∧ (num < W32 → strtoul p 0 base m = Ret num m).
Proof.
  intros Hb Hn. destruct (number_text_spec base up num Hb Hn) as (Hne & Hlen & Hd & _ & Hv).
  exists (number_text base up num). split; [by apply ksprintn_ok|]. split; [destruct (number_text base up num); [done|simpl; simpl in Hlen; lia]|].
  intros m p Hc. assert (Hnum : number_at m p [] [] [] (number_text base up num) [] base base).
  { split; cbn [app]; rewrite ?app_nil_r; [done|done|by left| |done|done|done]. constructor; [done|]. intros ->.
    destruct Hd as [|c l _ Hd]; [done|]. destruct Hd as [|x l Hx _]; [done|]. simpl.
    destruct (Z.eqb_spec x 120) as [->|]; [done|]. destruct (Z.eqb_spec x 88) as [->|]; [done|]. by rewrite andb_false_r. }
  split; [|intros Hlt].
  - unfold strtouq. rewrite (strto_spec UQUAD_MAX m p 0 _ _ _ _ _ _ _ ltac:(by right) Hnum ltac:(by left)).
    rewrite Hv. unfold saturated. by rewrite (proj2 (Z.ltb_ge _ num)) by lia.
  - unfold strtoul. rewrite (strto_spec ULONG_MAX m p 0 _ _ _ _ _ _ _ ltac:(by left) Hnum ltac:(by left)).
    rewrite Hv. unfold saturated. by rewrite (proj2 (Z.ltb_ge _ num)) by lia.
Qed.

Lemma ksprintn_strtouq_roundtrip_witness :
  ∃ cs, ksprintn 48879 16 false tt = Ret cs tt ∧ strtouq 100 0 16 (write_at 100 (cs ++ [0]) ∅) = Ret 48879 (write_at 100 (cs ++ [0]) ∅).
Proof.
  destruct (ksprintn_strtouq_roundtrip 48879 16 false ltac:(lia) ltac:(lia)) as (cs & E & _ & H). exists cs. split; [exact E|].
  destruct (H (write_at 100 (cs ++ [0]) ∅) 100) as [E' _]; [|exact E'].
  apply cstr_of_array; [apply write_at_array| |lia|]; vm_compute in E; injection E as <-; [by repeat constructor|simpl; lia].
Defined.

(** ** Output *)

(** The state after [func] has been called with [cs]. *)
Definition emit1 (k : kp) (c : Z) : kp := Kp (kp_mem k) (kp_out k ++ [c]) (kp_ap k) (kp_d k) (s32 (kp_retval k + 1)).
Definition emit (cs : list Z) (k : kp) : kp := foldl emit1 k cs.

(** The state after the words before [ap] have been read. *)
Definition set_ap (ap : list Z) (k : kp) : kp := Kp (kp_mem k) (kp_out k) ap (kp_d k) (kp_retval k).

Lemma emit_app cs cs' k : emit (cs ++ cs') k = emit cs' (emit cs k).
Proof. apply foldl_app. Qed.

Lemma emit_cons c cs k : emit (c :: cs) k = emit cs (emit1 k c).
Proof. done. Qed.

Lemma emit_mem cs k : kp_mem (emit cs k) = kp_mem k.
Proof. revert k. induction cs as [|c cs IH]; intros k; [done|]. by rewrite emit_cons, IH. Qed.

Lemma emit_ap cs k : kp_ap (emit cs k) = kp_ap k.
Proof. revert k. induction cs as [|c cs IH]; intros k; [done|]. by rewrite emit_cons, IH. Qed.

Lemma emit_out cs k : kp_out (emit cs k) = kp_out k ++ cs.
Proof.
  revert k. induction cs as [|c cs IH]; intros k; [by rewrite app_nil_r|]. rewrite emit_cons, IH. simpl.
  by rewrite <- app_assoc.
Qed.

Lemma emit_retval cs k n : kp_retval k = s32 n → kp_retval (emit cs k) = s32 (n + Z.of_nat (length cs)).
Proof.
  revert k n. induction cs as [|c cs IH]; intros k n E; [by rewrite Z.add_0_r|]. rewrite emit_cons. cbn [length].
  rewrite (IH _ (n + 1)); [f_equal; lia|]. simpl. rewrite E. wrap.
Qed.

Lemma emit_set_ap cs ap k : emit cs (set_ap ap k) = set_ap ap (emit cs k).
Proof. revert k. induction cs as [|c cs IH]; intros k; [done|]. apply (IH (emit1 k c)). Qed.

Lemma PCHAR_ok c k : PCHAR true c k = Ret tt (emit [c] k).
Proof. done. Qed.

Lemma pad_ok n c k : pad true n c k = Ret tt (emit (replicate n c) k).
Proof. revert k. induction n as [|n IH]; intros k; [done|]. cbn [pad replicate]. step (PCHAR_ok c k). by rewrite IH. Qed.

Lemma print_buffer_ok cs k : Forall (λ c, 48 ≤ c < 123) cs → print_number_buffer true cs k = Ret tt (emit cs k).
Proof.
  intros H. revert k. induction H as [|c cs Hc H IH]; intros k; [done|]. cbn [print_number_buffer].
  rewrite (proj2 (Z.eqb_neq c 0)) by lia. step (PCHAR_ok c k). by rewrite IH.
Qed.

Lemma on_text_ok {A} (m : M bytes A) k a : m (kp_mem k) = Ret a (kp_mem k) → on_text m k = Ret a k.
Proof. intros E. unfold on_text. rewrite (zoom_ret _ _ _ _ _ _ E). by destruct k. Qed.

Lemma print_mem_ok bs p k :
  array (kp_mem k) p bs → 0 ≤ p → p + Z.of_nat (length bs) < W32 →
  print_mem true (length bs) p k = Ret tt (emit (s8 <$> bs) k).
Proof.
  revert p k. induction bs as [|b bs IH]; intros p k Ha Hp He; [done|]. apply array_cons in Ha as [E Ha].
  cbn [print_mem length fmap list_fmap] in *. step (on_text_ok (load_char p) k (s8 b) (load_char_ok _ _ _ E)).
  step (PCHAR_ok (s8 b) k). rewrite u32_small by lia. rewrite IH; [done|by rewrite emit_mem|lia..].
Qed.

Lemma va_word_ok w ap k : kp_ap k = w :: ap → va_word k = Ret w (set_ap ap k).
Proof. intros E. unfold va_word. rewrite bind_get, E. done. Qed.

(** The three places where a number is padded: [pad_number] is skipped or pads once. *)
Lemma pad_number_skip c w tmp pc k : c = false ∨ w = 0 → pad_number true c w tmp pc k = Ret w k.
Proof. intros [-> | ->]; unfold pad_number; [done|]. by rewrite andb_false_r. Qed.

Lemma pad_number_ok w tmp pc k :
  0 < w < 2147483648 → 0 ≤ tmp ≤ 128 →
  ∃ w', pad_number true true w tmp pc k = Ret w' (emit (replicate (Z.to_nat (w - tmp)) pc) k) ∧ -128 ≤ w' ≤ 0.
Proof.
  intros Hw Ht. unfold pad_number. rewrite (proj2 (Z.eqb_neq w 0)) by lia. cbn [andb negb]. rewrite s32_small by lia.
  destruct (Z.ltb_spec 0 (w - tmp)).
  - exists (-1). step (pad_ok (Z.to_nat (w - tmp)) pc k). split; [done|lia].
  - exists (w - tmp). replace (Z.to_nat (w - tmp)) with 0%nat by lia. split; [done|lia].
Qed.

Lemma pad_number_spent c w tmp pc k :
  -128 ≤ w ≤ 0 → 0 ≤ tmp ≤ 128 → ∃ w', pad_number true c w tmp pc k = Ret w' k.
Proof.
  intros Hw Ht. unfold pad_number. destruct (c && negb (w =? 0)); [|by exists w].
  rewrite s32_small by lia. rewrite (proj2 (Z.ltb_ge 0 _)) by lia. by eexists.
Qed.

(** A number with its sign in a field: blanks or zeros on the left, or padding on the right. *)
Definition field (left : bool) (pc w : Z) (sg body : list Z) : list Z :=
  let padding := replicate (Z.to_nat (w - Z.of_nat (length (sg ++ body)))) pc in
  if left then sg ++ body ++ padding else if pc =? 48 then sg ++ padding ++ body else padding ++ sg ++ body.

(** The flags that a field with a width can set. *)
Definition field_flags (left : bool) (pc w : Z) : flags := set_width w (set_padc pc (set_ladjust left no_flags)).

Lemma print_number_ok left pc w sg up base num neg v k :
  2 ≤ base ≤ 36 → 0 ≤ num < W64 → 0 ≤ w < 2147483648 →
  neg = sg && (s64 num <? 0) → v = (if neg then u64 (- s64 num) else num) →
  print_number true (set_sign sg (set_upper up (field_flags left pc w))) false base num k =
    Ret tt (emit (field left pc w (if neg then [45] else []) (number_text base up v)) k).
Proof.
  intros Hb Hn Hw Hneg Hv. unfold print_number.
  change (sign (set_sign sg (set_upper up (field_flags left pc w)))) with sg.
  change (upper (set_sign sg (set_upper up (field_flags left pc w)))) with up.
  change (ladjust (set_sign sg (set_upper up (field_flags left pc w)))) with left.
  change (padc (set_sign sg (set_upper up (field_flags left pc w)))) with pc.
  change (width (set_sign sg (set_upper up (field_flags left pc w)))) with w.
  change (sharpflag (set_sign sg (set_upper up (field_flags left pc w)))) with false.
  cbv zeta. rewrite <- Hneg, <- Hv. cbn [andb].
  assert (Hvr : 0 ≤ v < W64) by (subst v; destruct neg; [apply Z.mod_pos_bound; lia|done]).
  destruct (number_text_spec base up v Hb Hvr) as (_ & Hlen & _ & Hr & _).
  step (ksprintn_ok v base up k Hb Hvr). set (body := number_text base up v) in *.
  set (s := if neg then [45] else []).
  assert (Ht : (if neg then Z.of_nat (length body) + 1 else Z.of_nat (length body)) = Z.of_nat (length (s ++ body)) ∧
    0 ≤ Z.of_nat (length (s ++ body)) ≤ 128).
  { unfold s. rewrite length_app. destruct neg; simpl; lia. }
  destruct Ht as [-> Ht]. set (tmp := Z.of_nat (length (s ++ body))) in *.
  assert (Hsg : ∀ k', (if neg then PCHAR true 45 else mret tt) k' = Ret tt (emit s k')) by (intros k'; unfold s; by destruct neg).
  assert (Hfld : field left pc w s body = let padding := replicate (Z.to_nat (w - tmp)) pc in
    if left then s ++ body ++ padding else if pc =? 48 then s ++ padding ++ body else padding ++ s ++ body) by done.
  rewrite Hfld. cbv zeta. clear Hfld. destruct (decide (w = 0)) as [->|Hw0].
  - replace (Z.to_nat (0 - tmp)) with 0%nat by lia. cbn [replicate].
    step (pad_number_skip (negb left && negb (pc =? 48)) 0 tmp pc k (or_intror eq_refl)). step (Hsg k).
    step (eq_refl : (mret tt : M kp unit) (emit s k) = Ret tt (emit s k)).
    step (pad_number_skip (negb left) 0 tmp pc (emit s k) (or_intror eq_refl)).
    step (print_buffer_ok body (emit s k) Hr). step (eq_refl : print_chars true [] (emit body (emit s k)) = Ret tt (emit body (emit s k))).
    step (pad_number_skip left 0 tmp pc (emit body (emit s k)) (or_intror eq_refl)).
    destruct left, (pc =? 48); cbn [app]; rewrite ?app_nil_r; by rewrite emit_app.
  - assert (Hw' : 0 < w < 2147483648) by lia.
    assert (Hend : ∀ w' k',
      (print_number_buffer true body;; print_chars true [];; w'' ← pad_number true false w' tmp pc; mret tt) k' = Ret tt (emit body k')).
    { intros w' k'. step (print_buffer_ok body k' Hr). step (eq_refl : print_chars true [] (emit body k') = Ret tt (emit body k')).
      by step (pad_number_skip false w' tmp pc (emit body k') (or_introl eq_refl)). }
    destruct left; cbn [negb andb].
    + step (pad_number_skip false w tmp pc k (or_introl eq_refl)). step (Hsg k).
      step (eq_refl : (mret tt : M kp unit) (emit s k) = Ret tt (emit s k)).
      step (pad_number_skip false w tmp pc (emit s k) (or_introl eq_refl)). step (print_buffer_ok body (emit s k) Hr).
      step (eq_refl : print_chars true [] (emit body (emit s k)) = Ret tt (emit body (emit s k))).
      destruct (pad_number_ok w tmp pc (emit body (emit s k)) Hw' Ht) as (w' & E & _). step E. by rewrite !emit_app.
    + destruct (pc =? 48) eqn:Epc; cbn [negb].
      * step (pad_number_skip false w tmp pc k (or_introl eq_refl)). step (Hsg k).
        step (eq_refl : (mret tt : M kp unit) (emit s k) = Ret tt (emit s k)).
        destruct (pad_number_ok w tmp pc (emit s k) Hw' Ht) as (w' & E & Hr'). step E. rewrite Hend. by rewrite !emit_app.
      * destruct (pad_number_ok w tmp pc k Hw' Ht) as (w' & E & Hr'). step E. step (Hsg (emit (replicate (Z.to_nat (w - tmp)) pc) k)).
        set (k' := emit s _). step (eq_refl : (mret tt : M kp unit) k' = Ret tt k').
        destruct (pad_number_spent true w' tmp pc k' Hr' Ht) as (w'' & E'). step E'.
        rewrite Hend. unfold k'. by rewrite !emit_app.
Qed.

(** ** Reading a conversion *)
Section Reswitch.
Variables null_str radix : Z.
Notation reswitch := (reswitch true null_str radix).
Notation convert := (convert true null_str radix).

Lemma reswitch_minus fuel percent p f k bs :
  cstr (kp_mem k) p (45 :: bs) → reswitch (S fuel) percent p f k = reswitch fuel percent (p + 1) (set_ladjust true f) k.
Proof.
  intros H. destruct (cstr_next _ _ _ _ H) as [Ep _]. apply cstr_cons in H as (E & _). cbn [Kprintf.reswitch].
  step (on_text_ok (load8 p) k 45 (load8_ok _ _ _ E)). by rewrite Ep.
Qed.

Lemma reswitch_zero fuel percent p f k bs :
  cstr (kp_mem k) p (48 :: bs) → dot f = false → reswitch (S fuel) percent p f k = reswitch fuel percent (p + 1) (set_padc 48 f) k.
Proof.
  intros H Hd. destruct (cstr_next _ _ _ _ H) as [Ep _]. apply cstr_cons in H as (E & _). cbn [Kprintf.reswitch].
  step (on_text_ok (load8 p) k 48 (load8_ok _ _ _ E)). cbn [Z.eqb Pos.eqb andb]. by rewrite Ep, Hd.
Qed.

(** Decimal digits, the first of which is not 0. *)
Definition width_digits (ws : list Z) : Prop :=
  match ws with [] => True | c :: cs => 49 ≤ c ≤ 57 ∧ Forall (λ c, 48 ≤ c ≤ 57) cs end.

Lemma digit_of_decimal c : 48 ≤ c ≤ 57 → digit_of c = c - 48.
Proof.
  intros Hc. replace c with (digit_char false (c - 48)) at 1.
  - apply digit_of_char. lia.
  - unfold digit_char. rewrite (proj2 (Z.ltb_lt _ 10)) by lia. lia.
Qed.

(** A character that ends a number, read as a [char]. *)
Definition ends_width bs : Prop := let c := s8 (head_byte bs) in c < 48 ∨ 57 < c.

Lemma read_width_ok m cs n c p rest fuel :
  cstr m p (cs ++ rest) → Forall (λ c, 48 ≤ c ≤ 57) cs → 48 ≤ c ≤ 57 → ends_width rest → (length cs < fuel)%nat →
  0 ≤ n → foldl (λ acc c, acc * 10 + digit_of c) n (c :: cs) < 2147483648 →
  read_width fuel n c p m = Ret (foldl (λ acc c, acc * 10 + digit_of c) n (c :: cs), p + Z.of_nat (length cs)) m.
Proof.
  intros H Hcs Hc Hr. revert n c p fuel Hc H. induction Hcs as [|d cs Hd Hcs IH]; intros n c p [|fuel] Hc H Hf Hn Hv; simpl in Hf; try lia;
    cbn [read_width]; cbn [foldl] in Hv |- *; rewrite (digit_of_decimal c) in * by done.
  - step (load_char_ok _ _ _ (proj1 (cstr_head _ _ _ H))). cbn [app length] in *.
    assert ((s8 (head_byte rest) <? 48) || (57 <? s8 (head_byte rest)) = true) as ->.
    { apply orb_true_iff. unfold ends_width in Hr. rewrite Z.ltb_lt, Z.ltb_lt. done. }
    cbn [foldl] in Hv. rewrite s32_small by lia. rewrite Z.add_0_r. unfold mret, M_ret. do 2 f_equal; lia.
  - assert (Hle : n * 10 + (c - 48) < 2147483648).
    { pose proof (numeral_from_ge 10 (d :: cs) (n * 10 + (c - 48)) ltac:(lia) ltac:(lia)). cbn [foldl] in *. lia. }
    step (load_char_ok _ _ _ (proj1 (cstr_head _ _ _ H))). cbn [app head_byte length] in *.
    destruct (cstr_next _ _ _ _ H) as [Ep H']. replace (s8 d) with d by (unfold s8; rewrite Z.mod_small; lia).
    rewrite (proj2 (Z.ltb_ge d 48)), (proj2 (Z.ltb_ge 57 d)) by lia. cbn [orb]. rewrite Ep, s32_small by lia.
    replace (n * 10 + c - 48) with (n * 10 + (c - 48)) by lia.
    rewrite IH; [|done|done|lia|lia|done]. unfold mret, M_ret. do 2 f_equal; lia.
Qed.

Lemma reswitch_width fuel percent p f k ws rest :
  cstr (kp_mem k) p (ws ++ rest) → width_digits ws → ws ≠ [] → ends_width rest → dot f = false →
  numeral 10 ws < 2147483648 → (length ws < fuel)%nat →
  reswitch fuel percent p f k = reswitch (fuel - 1) percent (p + Z.of_nat (length ws)) (set_width (numeral 10 ws) f) k.
Proof.
  intros H Hw Hne Hr Hdot Hv Hf. destruct ws as [|c cs]; [done|]. destruct Hw as [Hc Hcs]. destruct fuel as [|fuel]; [lia|].
  cbn [app length] in *. destruct (cstr_next _ _ _ _ H) as [Ep H']. apply cstr_cons in H as (E & _).
  cbn [Kprintf.reswitch]. step (on_text_ok (load8 p) k c (load8_ok _ _ _ E)). rewrite Ep, Hdot.
  assert (Hrd : on_text (read_width fuel 0 c (p + 1)) k = Ret (numeral 10 (c :: cs), p + Z.of_nat (S (length cs))) k).
  { apply on_text_ok. rewrite (read_width_ok _ cs 0 c (p + 1) rest fuel); [|done|done|lia|done|lia|lia|done]. do 2 f_equal; lia. }
  rewrite Nat.sub_succ, Nat.sub_0_r.
  assert (Hin : c ∈ [49; 50; 51; 52; 53; 54; 55; 56; 57]) by (rewrite !elem_of_cons; lia).
  repeat (apply elem_of_cons in Hin as [->|Hin]; [cbn [Z.eqb Pos.eqb andb negb Z.leb Z.compare Pos.compare Pos.compare_cont]; by step Hrd|]).
  by apply elem_of_nil in Hin.
Qed.

(** The characters of the conversions considered here. *)
Definition conv_chars : list Z := [37; 99; 100; 111; 115; 117; 88; 120].

Lemma reswitch_conv fuel percent p f k c rest :
  cstr (kp_mem k) p (c :: rest) → c ∈ conv_chars →
  reswitch (S fuel) percent p f k = (stop ← convert fuel f c percent (p + 1); mret (p + 1, stop)) k.
Proof.
  intros H Hc. destruct (cstr_next _ _ _ _ H) as [Ep _]. apply cstr_cons in H as (E & _). cbn [Kprintf.reswitch].
  step (on_text_ok (load8 p) k c (load8_ok _ _ _ E)). rewrite Ep.
  repeat (apply elem_of_cons in Hc as [->|Hc]; [reflexivity|]). by apply elem_of_nil in Hc.
Qed.

Lemma conv_ends c rest : c ∈ conv_chars → ends_width (c :: rest).
Proof. intros Hc. repeat (apply elem_of_cons in Hc as [->|Hc]; [by (left + right)|]). by apply elem_of_nil in Hc. Qed.
End Reswitch.

(** ** Formats *)

Inductive conv := Cd | Cu | Cx | CX | Co.
Definition conv_char c : Z := match c with Cd => 100 | Cu => 117 | Cx => 120 | CX => 88 | Co => 111 end.
Definition conv_base c : Z := match c with Cd | Cu => 10 | Cx | CX => 16 | Co => 8 end.
Definition conv_upper c : bool := match c with CX => true | _ => false end.
Definition conv_value c (w : Z) : Z := match c with Cd => s32 w | _ => w end.

(** What a format is made of: text, "%%", a number, a string, a character;
    with the arguments that belong to it. *)
Inductive piece :=
  | Text (bs : list Z)
  | Percent
  | Number (lj zero : bool) (ws : list Z) (c : conv) (w : Z)
  | Str (lj : bool) (ws : list Z) (p : Z) (bs : list Z)
  | Character (w : Z).

Definition zero_text (zero : bool) : list Z := if zero then [48] else [].

(** What follows the percent sign. *)
Definition flag_text (lj zero : bool) (ws : list Z) (c : Z) : list Z :=
  (if lj then [45] else []) ++ zero_text zero ++ ws ++ [c].

Definition directive x : list Z :=
  match x with
  | Text bs => []
  | Percent => flag_text false false [] 37
  | Number lj zero ws c _ => flag_text lj zero ws (conv_char c)
  | Str lj ws _ _ => flag_text lj false ws 115
  | Character _ => flag_text false false [] 99
  end.

Definition render x : list Z := match x with Text bs => bs | _ => 37 :: directive x end.

Definition words x : list Z :=
  match x with Number _ _ _ _ w | Character w => [w] | Str _ _ p _ => [p] | _ => [] end.

Definition output x : list Z :=
  match x with
  | Text bs => bs
  | Percent => [37]
  | Number lj zero ws c w =>
      let v := conv_value c w in
      field lj (if zero then 48 else 32) (numeral 10 ws) (if v <? 0 then [45] else []) (number_text (conv_base c) (conv_upper c) (Z.abs v))
  | Str lj ws _ bs => field lj 32 (numeral 10 ws) [] (s8 <$> bs)
  | Character w => [s32 w]
  end.

Definition width_ok (ws : list Z) : Prop := width_digits ws ∧ numeral 10 ws < 2147483648.

Definition piece_ok (m : bytes) x : Prop :=
  match x with
  | Text bs => Forall (λ b, 0 < b < W8 ∧ b ≠ 37) bs
  | Percent | Character _ => True
  | Number _ _ ws _ w => width_ok ws ∧ 0 ≤ w < W32
  | Str _ ws p bs => width_ok ws ∧ p ≠ NULL ∧ cstr m p bs ∧ Z.of_nat (length bs) < 2147483648
  end.

Lemma numeral_nonneg ws : 0 ≤ numeral 10 ws.
Proof. apply (numeral_from_ge 10 ws 0); lia. Qed.

Abbreviation text xs := (concat (render <$> xs)).
Abbreviation printed xs := (concat (output <$> xs)).
Abbreviation arguments xs := (concat (words <$> xs)).

Section Format.
Variables null_str radix : Z.
Notation reswitch := (reswitch true null_str radix).
Notation convert := (convert true null_str radix).

(** The flags and the width are read. *)
Lemma reswitch_flags fuel percent p k lj zero ws c rest :
  cstr (kp_mem k) p (flag_text lj zero ws c ++ rest) → width_ok ws → c ∈ conv_chars →
  (length (flag_text lj zero ws c) < fuel)%nat →
  ∃ fuel', reswitch fuel percent p no_flags k =
    (let q := p + Z.of_nat (length (flag_text lj zero ws c)) in
     stop ← convert fuel' (field_flags lj (if zero then 48 else 32) (numeral 10 ws)) c percent q; mret (q, stop)) k.
Proof.
  intros H [Hws Hv] Hc. unfold flag_text in *.
  assert (Hwc : ∀ q fl fuel, cstr (kp_mem k) q (ws ++ c :: rest) → dot fl = false → width fl = 0 → (S (length ws) < fuel)%nat →
    ∃ fuel', reswitch fuel percent q fl k =
      (stop ← convert fuel' (set_width (numeral 10 ws) fl) c percent (q + Z.of_nat (length ws) + 1);
       mret (q + Z.of_nat (length ws) + 1, stop)) k).
  { clear H. intros q fl fu H Hdot Hw Hfu. destruct ws as [|w ws'] eqn:Ews.
    - destruct fu as [|fu]; [simpl in Hfu; lia|]. exists fu. rewrite (reswitch_conv null_str radix fu percent q fl k c rest H Hc).
      cbn [length]. rewrite Z.add_0_r. unfold numeral. cbn [foldl]. rewrite <- Hw. by destruct fl.
    - rewrite <- Ews in *. rewrite (reswitch_width null_str radix fu percent q fl k ws (c :: rest)); [|done|done|by subst|by apply conv_ends|done|done|lia].
      pose proof (cstr_drop _ _ _ (length ws) H ltac:(rewrite length_app; lia)) as H'. rewrite drop_app_length in H'.
      destruct fu as [|[|fu]]; [lia|lia|]. exists fu. cbn [Nat.sub]. by rewrite (reswitch_conv null_str radix fu percent _ _ k c rest H' Hc). }
  assert (Hzero : ∀ q fl fuel, cstr (kp_mem k) q (zero_text zero ++ ws ++ c :: rest) → dot fl = false → width fl = 0 → padc fl = 32 →
    (length (zero_text zero) + S (length ws) < fuel)%nat → let n := Z.of_nat (length (zero_text zero)) in
    ∃ fuel', reswitch fuel percent q fl k =
      (stop ← convert fuel' (set_width (numeral 10 ws) (set_padc (if zero then 48 else 32) fl)) c percent (q + n + Z.of_nat (length ws) + 1);
       mret (q + n + Z.of_nat (length ws) + 1, stop)) k).
  { clear H. intros q fl fu H Hdot Hw Hp Hfu n. destruct zero; cbn [zero_text app length] in *.
    - destruct fu as [|fu]; [lia|]. rewrite (reswitch_zero null_str radix fu percent q fl k _ H Hdot).
      destruct (cstr_next _ _ _ _ H) as [_ H']. apply Hwc; [done|done|done|lia].
    - unfold n. cbn [zero_text length]. rewrite Z.add_0_r. replace (set_padc 32 fl) with fl by (rewrite <- Hp; by destruct fl). apply Hwc; [done|done|done|lia]. }
  intros Hf. rewrite !length_app in Hf |- *. cbn [length] in *. rewrite <- !app_assoc in H. cbn [app] in H.
  destruct lj; cbn [app length] in *.
  - destruct fuel as [|fuel]; [lia|]. rewrite (reswitch_minus null_str radix fuel percent p no_flags k _ H).
    destruct (cstr_next _ _ _ _ H) as [_ H'].
    destruct (Hzero (p + 1) (set_ladjust true no_flags) fuel H' eq_refl eq_refl eq_refl) as (fuel' & E); [destruct zero; simpl in *; lia|].
    exists fuel'. rewrite E. cbv zeta. by replace (p + 1 + Z.of_nat (length (zero_text zero)) + Z.of_nat (length ws) + 1)
      with (p + Z.of_nat (1 + (length (zero_text zero) + (length ws + 1)))) by lia.
  - destruct (Hzero p no_flags fuel H eq_refl eq_refl eq_refl) as (fuel' & E); [destruct zero; simpl in *; lia|].
    exists fuel'. rewrite E. cbv zeta. by replace (p + Z.of_nat (length (zero_text zero)) + Z.of_nat (length ws) + 1)
      with (p + Z.of_nat (0 + (length (zero_text zero) + (length ws + 1)))) by lia.
Qed.

Lemma signed_value w : 0 ≤ w < W32 →
  let num := u64 (s32 w) in
  0 ≤ num < W64 ∧ (s64 num <? 0) = (s32 w <? 0) ∧ (if s32 w <? 0 then u64 (- s64 num) else num) = Z.abs (s32 w).
Proof.
  intros Hw num. pose proof (s32_range w) as Hr. set (v := s32 w) in *.
  assert (Hs : s64 num = v) by (unfold num, s64, u64; Z.to_euclidean_division_equations; lia).
  rewrite Hs. split; [apply Z.mod_pos_bound; lia|]. split; [done|].
  destruct (Z.ltb_spec v 0); [unfold u64|unfold num, u64]; rewrite Z.mod_small; lia.
Qed.

Lemma convert_number fuel lj (zero : bool) W c w ap percent fmt k :
  kp_ap k = w :: ap → 0 ≤ w < W32 → 0 ≤ W < 2147483648 →
  let v := conv_value c w in
  convert fuel (field_flags lj (if zero then 48 else 32) W) (conv_char c) percent fmt k =
    Ret false (emit (field lj (if zero then 48 else 32) W (if v <? 0 then [45] else []) (number_text (conv_base c) (conv_upper c) (Z.abs v)))
      (set_ap ap k)).
Proof.
  intros E Hw HW v. set (pc := if zero then 48 else 32).
  assert (Hu : ∀ up base, 2 ≤ base ≤ 36 →
    (num ← nosign_arg (field_flags lj pc W); print_number true (set_sign false (set_upper up (field_flags lj pc W))) false base num;; mret false) k =
    Ret false (emit (field lj pc W [] (number_text base up w)) (set_ap ap k))).
  { intros up base Hb. step (va_word_ok w ap k E).
    by step (print_number_ok lj pc W false up base w false w (set_ap ap k) Hb ltac:(lia) HW eq_refl eq_refl). }
  assert (Habs : ∀ x : Z, 0 ≤ x → (if x <? 0 then [45] else []) =@{list Z} [] ∧ Z.abs x = x).
  { intros x Hx. rewrite (proj2 (Z.ltb_ge x 0)) by done. split; [done|lia]. }
  destruct (Habs w ltac:(lia)) as [Ew1 Ew2].
  destruct c; unfold v; cbn [conv_value conv_base conv_upper conv_char]; rewrite ?Ew1, ?Ew2.
  - destruct (signed_value w Hw) as (Hn & Hneg & Hv). unfold Kprintf.convert.
    change (sign_arg (field_flags lj pc W)) with (w ← va_word; (mret (u64 (s32 w)) : M kp Z)).
    step (va_word_ok w ap k E). step (eq_refl : (mret (u64 (s32 w)) : M kp Z) (set_ap ap k) = Ret (u64 (s32 w)) (set_ap ap k)).
    step (print_number_ok lj pc W true false 10 (u64 (s32 w)) (s32 w <? 0) (Z.abs (s32 w)) (set_ap ap k) ltac:(lia) Hn HW
      ltac:(by rewrite Hneg) ltac:(by rewrite Hv)). done.
  - exact (Hu false 10 ltac:(lia)).
  - exact (Hu false 16 ltac:(lia)).
  - exact (Hu true 16 ltac:(lia)).
  - exact (Hu false 8 ltac:(lia)).
Qed.

Lemma convert_string fuel lj W p bs ap percent fmt k :
  kp_ap k = p :: ap → p ≠ NULL → cstr (kp_mem k) p bs → Z.of_nat (length bs) < 2147483648 → 0 ≤ W < 2147483648 →
  convert fuel (field_flags lj 32 W) 115 percent fmt k =
    Ret false (emit (field lj 32 W [] (s8 <$> bs)) (set_ap ap k)).
Proof.
  intros E Hp Hc Hl HW. unfold Kprintf.convert, conv_s. step (va_word_ok p ap k E).
  rewrite (proj2 (Z.eqb_neq p NULL)) by done. cbn [dot field_flags set_width set_padc set_ladjust no_flags negb].
  step (on_text_ok (strlen p) (set_ap ap k) _ (strlen_spec _ _ _ Hc)). cbn [width ladjust padc].
  rewrite (s32_small (Z.of_nat _)), Nat2Z.id, (s32_small (W - _)) by lia.
  set (n := W - Z.of_nat (length bs)).
  assert (Hmem : ∀ k', kp_mem k' = kp_mem k → print_mem true (length bs) p k' = Ret tt (emit (s8 <$> bs) k')).
  { intros k' Hk. destruct Hc as [Ha _ Hlow Hhigh]. apply print_mem_ok; [|done|done]. rewrite Hk. by apply array_app in Ha as [Ha _]. }
  assert (Hpad : ∀ (b : bool) k', (if b && (0 <? n) then pad true (Z.to_nat n) 32 else mret tt) k' =
    Ret tt (emit (if b then replicate (Z.to_nat n) 32 else []) k')).
  { intros [] k'; [|done]. destruct (Z.ltb_spec 0 n); [apply pad_ok|]. by replace (Z.to_nat n) with 0%nat by lia. }
  step (Hpad (negb lj) (set_ap ap k)). set (k1 := emit (if negb lj then _ else _) (set_ap ap k)).
  step (Hmem k1 ltac:(unfold k1; by rewrite emit_mem)). step (Hpad lj (emit (s8 <$> bs) k1)). unfold k1.
  rewrite <- !emit_app. unfold field. cbn [app]. rewrite length_fmap. fold n. destruct lj; cbn [negb app]; [done|by rewrite app_nil_r].
Qed.

(** A directive prints its output and reads its words. *)
Lemma reswitch_directive fuel percent p k x ap rest :
  (∀ bs, x ≠ Text bs) → piece_ok (kp_mem k) x → cstr (kp_mem k) p (directive x ++ rest) → kp_ap k = words x ++ ap →
  (length (directive x) < fuel)%nat →
  reswitch fuel percent p no_flags k = Ret (p + Z.of_nat (length (directive x)), false) (emit (output x) (set_ap ap k)).
Proof.
  intros Ht Hx H Hap Hf. destruct x as [bs| |lj zero ws c w|lj ws q bs|w]; [by destruct (Ht bs)|..]; cbn [directive words app output] in *.
  - destruct (reswitch_flags fuel percent p k false false [] 37 rest H ltac:(done) ltac:(by left) Hf) as (fuel' & ->).
    cbv zeta. unfold Kprintf.convert. step (PCHAR_ok 37 k). rewrite <- Hap. by destruct k.
  - destruct Hx as [Hws Hw]. destruct (reswitch_flags fuel percent p k lj zero ws (conv_char c) rest H Hws) as (fuel' & ->); [destruct c; set_solver|done|].
    cbv zeta. step (convert_number fuel' lj zero (numeral 10 ws) c w ap percent (p + Z.of_nat (length (flag_text lj zero ws (conv_char c)))) k Hap Hw
      (conj (numeral_nonneg ws) (proj2 Hws))). done.
  - destruct Hx as (Hws & Hq & Hc & Hl). destruct (reswitch_flags fuel percent p k lj false ws 115 rest H Hws) as (fuel' & ->); [set_solver|done|].
    cbv zeta. step (convert_string fuel' lj (numeral 10 ws) q bs ap percent (p + Z.of_nat (length (flag_text lj false ws 115))) k Hap Hq Hc Hl
      (conj (numeral_nonneg ws) (proj2 Hws))). done.
  - destruct (reswitch_flags fuel percent p k false false [] 99 rest H ltac:(done) ltac:(set_solver) Hf) as (fuel' & ->).
    cbv zeta. unfold Kprintf.convert. step (va_word_ok w ap k Hap). by step (PCHAR_ok (s32 w) (set_ap ap k)).
Qed.

Notation literal_loop := (literal_loop true).
Notation kvprintf_loop := (kvprintf_loop true null_str radix).

Lemma literal_text bs lf p k rest :
  cstr (kp_mem k) p (bs ++ rest) → Forall (λ b, 0 < b < W8 ∧ b ≠ 37) bs →
  literal_loop (length bs + lf) p false k = literal_loop lf (p + Z.of_nat (length bs)) false (emit bs k).
Proof.
  intros H Hbs. revert p k H. induction Hbs as [|b bs [Hb Hp] Hbs IH]; intros p k H; [by rewrite Z.add_0_r|].
  cbn [app length plus Kprintf.literal_loop] in *. destruct (cstr_next _ _ _ _ H) as [Ep H']. apply cstr_cons in H as (E & _).
  step (on_text_ok (load8 p) k b (load8_ok _ _ _ E)). rewrite (proj2 (Z.eqb_neq b 37)), (proj2 (Z.eqb_neq b 0)) by lia. cbn [negb orb].
  step (PCHAR_ok b k). rewrite Ep, IH by (by rewrite emit_mem). rewrite emit_cons. by replace (p + Z.of_nat (S (length bs))) with (p + 1 + Z.of_nat (length bs)) by lia.
Qed.

(** What [kvprintf_loop] does after the text up to the next percent sign. *)
Definition continue (rounds fuel : nat) (r : option Z) : M kp Z :=
  match r with
  | None => k ← get; mret (kp_retval k)
  | Some fmt => '(fmt, stop') ← reswitch fuel (u32 (fmt - 1)) fmt no_flags; kvprintf_loop rounds fuel fmt stop'
  end.

Lemma set_ap_id k : set_ap (kp_ap k) k = k.
Proof. by destruct k. Qed.

Lemma pieces_printed fuel xs p k lf rounds ap :
  cstr (kp_mem k) p (text xs) → Forall (piece_ok (kp_mem k)) xs → kp_ap k = arguments xs ++ ap →
  (length (text xs) < lf)%nat → (length (text xs) < fuel)%nat → (length (text xs) < rounds)%nat →
  let k' := emit (printed xs) (set_ap ap k) in
  (literal_loop lf p false ≫= continue rounds fuel) k = Ret (kp_retval k') k'.
Proof.
  revert p k lf rounds. induction xs as [|x xs IH]; intros p k lf rounds H Hok Hap Hlf Hf Hr k'; unfold k'; clear k'.
  - destruct lf as [|lf]; [simpl in Hlf; lia|]. apply cstr_nil in H as [E _]. cbn [Kprintf.literal_loop].
    step (on_text_ok (load8 p) k 0 (load8_ok _ _ _ E)). simpl in Hap. rewrite <- Hap. by rewrite set_ap_id.
  - apply Forall_cons_1 in Hok as [Hx Hok]. cbn [fmap list_fmap concat] in *. rewrite length_app in *. 
    assert (Hd : (∃ bs, x = Text bs) ∨ ∀ bs, x ≠ Text bs) by (destruct x; naive_solver). destruct Hd as [[bs ->]|Hd].
    + cbn [render words output app] in *. replace lf with (length bs + (lf - length bs))%nat by lia.
      rewrite (bind_run _ _ _ _ _ (literal_text bs _ p k _ H Hx)).
      pose proof (cstr_drop _ _ _ (length bs) H ltac:(rewrite length_app; lia)) as H'. rewrite drop_app_length in H'.
      rewrite (IH (p + Z.of_nat (length bs)) (emit bs k) (lf - length bs)%nat rounds);
        [|by rewrite emit_mem|by rewrite emit_mem|by rewrite emit_ap|lia..].
      by rewrite !emit_set_ap, emit_app.
    + assert (Er : render x = 37 :: directive x) by (destruct x; [by destruct (Hd bs)|done..]). rewrite Er in *. cbn [app length] in *.
      destruct lf as [|lf]; [lia|]. destruct rounds as [|rounds]; [lia|]. destruct (cstr_next _ _ _ _ H) as [Ep H'].
      assert (E : literal_loop (S lf) p false k = Ret (Some (p + 1)) k).
      { apply cstr_cons in H as (E & _). cbn [Kprintf.literal_loop]. step (on_text_ok (load8 p) k 37 (load8_ok _ _ _ E)). by rewrite Ep. }
      step E. unfold continue at 1. rewrite <- app_assoc in Hap.
      step (reswitch_directive fuel (u32 (p + 1 - 1)) (p + 1) k x (arguments xs ++ ap) (text xs) Hd Hx H' Hap ltac:(lia)).
      cbv beta iota. pose proof (cstr_drop _ _ _ (length (directive x)) H' ltac:(rewrite length_app; lia)) as H2. rewrite drop_app_length in H2.
      set (k1 := emit (output x) (set_ap (arguments xs ++ ap) k)).
      assert (Em : kp_mem k1 = kp_mem k) by (unfold k1; by rewrite emit_mem).
      change (kvprintf_loop (S rounds) fuel (p + 1 + Z.of_nat (length (directive x))) false)
        with (literal_loop fuel (p + 1 + Z.of_nat (length (directive x))) false ≫= continue rounds fuel).
      rewrite (IH _ k1 fuel rounds); [|by rewrite Em|by rewrite Em|unfold k1; by rewrite emit_ap|lia|lia|lia].
      unfold k1. rewrite emit_app. by rewrite !emit_set_ap.
Qed.
End Format.

(** C37: take a format made of text, "%%", %c, %s of a string that is
    not null, and the conversions %d, %u, %x, %X and %o of 32-bit arguments, where
    the numbers may have the flag '-', the flag '0' and a decimal width, in this
    order, and the strings the flag '-' and a width, widths and the lengths of
    strings being below 2^31.  On it [kvprintf]
    terminates, calls [func] with the characters of the fields in order, each field padded on the
    side and with the character its flags ask for, returns their number as an [int], and
    reads exactly the arguments that belong to the format.  Formats with other
    flags, a precision, a length modifier or another conversion are not
    covered. *)
Theorem kvprintf_prints fmt_null null_str radix arg fmt xs ap k :
  cstr (kp_mem k) fmt (text xs) → fmt ≠ NULL → Forall (piece_ok (kp_mem k)) xs → kp_ap k = arguments xs ++ ap →
  ∃ k', kvprintf fmt_null null_str true fmt arg radix k = Ret (s32 (Z.of_nat (length (printed xs)))) k' ∧
    kp_out k' = kp_out k ++ printed xs ∧ kp_ap k' = ap ∧ kp_mem k' = kp_mem k.
Proof.
  intros H Hfmt Hok Hap. unfold kvprintf. rewrite bind_modify, (proj2 (Z.eqb_neq fmt NULL)) by done.
  set (k0 := Kp (kp_mem k) (kp_out k) (kp_ap k) NULL 0). set (rx := if (radix <? 2) || (36 <? radix) then 10 else radix).
  step (on_text_ok fuel_of_heap k0 (S (size (kp_mem k))) eq_refl). pose proof (cstr_size _ _ _ H) as Hsz.
  set (n := size (kp_mem k)) in *.
  change (kvprintf_loop true null_str rx (S n) (S n) fmt false)
    with (literal_loop true (S n) fmt false ≫= continue null_str rx n (S n)).
  rewrite (pieces_printed null_str rx (S n) xs fmt k0 (S n) n ap); [|done|done|done|lia..].
  exists (emit (printed xs) (set_ap ap k0)). split; [|split; [by rewrite emit_out|split; [by rewrite emit_ap|by rewrite emit_mem]]].
  rewrite (emit_retval _ _ 0) by done. by rewrite Z.add_0_l.
Qed.

(** "n=%-4d%%" with -5. *)
Definition ex_format : list piece := [Text [110; 61]; Number true false [52] Cd 4294967291; Percent].
Definition ex_kp : kp := Kp (write_at 100 (text ex_format ++ [0]) ∅) [] [4294967291] 0 0.

Lemma kvprintf_prints_witness :
  ∃ k', kvprintf 0 0 true 100 0 10 ex_kp = Ret 7 k' ∧ kp_out k' = [110; 61; 45; 53; 32; 32; 37].
Proof.
  destruct (kvprintf_prints 0 0 10 0 100 ex_format [] ex_kp) as (k' & E & Ho & _).
  - apply cstr_of_array; [apply write_at_array|by repeat constructor|lia|simpl; lia].
  - done.
  - repeat constructor; simpl; lia.
  - reflexivity.
  - exists k'. split; [exact E|]. rewrite Ho. vm_compute. reflexivity.
Defined.
