(* ===== verification/Range.v ===== *)
(** * kernel/mm/range.h: sorted lists of address ranges

    range.h is a set of macros that generate, for a region struct, the
    operations of a sorted list of ranges: insert, merge, add, cut, subtract
    and find.  allocator.c and vm_map.c instantiate it.  Here the macros are
    definitions over a class of region structs, [Region], and over the two
    functions the instantiating file must supply, [RegionPool].

    The functions act on a heap of region structs.  Their effect is related,
    by [map_rep], to functions on the list of regions a map denotes
    ([insert_l], [add_l], [subtract_l]), and the latter are proved correct
    against the set of addresses the regions cover. *)

From stdpp Require Import base numbers list gmap strings fin_maps.
From S2P Require Import Prelude UtList MemUtil.

(** ** Region structs *)

(** The members the macros use.  [r_flags] stands for whatever further
    attributes a region has; [r_pre_merge] is [name##_pre_merge]. *)
Class Region (T : Type) := {
  region_node :: LLNode T;
  r_address : T → Z;
  r_size : T → Z;
  r_flags : T → Z;
  r_set_address : Z → T → T;
  r_set_size : Z → T → T;
  r_pre_merge : T → T → bool;
  r_address_set : ∀ a n, r_address (r_set_address a n) = a;
  r_address_set_size : ∀ a n, r_address (r_set_size a n) = r_address n;
  r_address_set_next : ∀ p n, r_address (ll_set_next p n) = r_address n;
  r_size_set : ∀ a n, r_size (r_set_size a n) = a;
  r_size_set_address : ∀ a n, r_size (r_set_address a n) = r_size n;
  r_size_set_next : ∀ p n, r_size (ll_set_next p n) = r_size n;
  r_flags_set_address : ∀ a n, r_flags (r_set_address a n) = r_flags n;
  r_flags_set_size : ∀ a n, r_flags (r_set_size a n) = r_flags n;
  r_flags_set_next : ∀ p n, r_flags (ll_set_next p n) = r_flags n;
  r_next_set_address : ∀ a n, ll_next (r_set_address a n) = ll_next n;
  r_next_set_size : ∀ a n, ll_next (r_set_size a n) = ll_next n;
  r_set_address_next : ∀ a p n,
    r_set_address a (ll_set_next p n) = ll_set_next p (r_set_address a n);
  r_set_size_next : ∀ a p n,
    r_set_size a (ll_set_next p n) = ll_set_next p (r_set_size a n);
  r_pre_merge_flags : ∀ a b, r_pre_merge a b = true → r_flags a = r_flags b;
  r_pre_merge_congr : ∀ a a' b b', r_flags a = r_flags a' → r_flags b = r_flags b' →
    r_pre_merge a b = r_pre_merge a' b';
  r_pre_merge_sym : ∀ a b, r_pre_merge a b = r_pre_merge b a
}.

Create HintDb region.
#[export] Hint Rewrite @r_address_set @r_address_set_size @r_address_set_next
  @r_size_set @r_size_set_address @r_size_set_next
  @r_flags_set_address @r_flags_set_size @r_flags_set_next
  @r_next_set_address @r_next_set_size @ll_next_set @ll_set_set : region.

(** ** Point tests *)

Definition END_POINT_LT_END_POINT (p_start p_size r_start r_size : Z) : bool :=
  p_size <=? u32 (r_size - u32 (p_start - r_start)).

Definition END_POINT_GT_START_POINT (p_start p_size r_start r_size : Z) : bool :=
  (r_start <=? p_start) || (u32 (r_start - p_start) <=? p_size).

Definition START_POINT_IN_RANGE (p start size : Z) : bool :=
  (start <=? p) && (u32 (p - start) <? size).

Definition END_POINT_IN_RANGE (p_start p_size r_start r_size : Z) : bool :=
  END_POINT_GT_START_POINT p_start p_size r_start r_size
  && END_POINT_LT_END_POINT p_start p_size r_start r_size.

Abbreviation POINT_IN_RANGE p start endp := ((start <=? p) && (p <=? endp)) (only parsing).

(** ** Merging and cutting two structs

    [merge] and [cut] take the structs by value and return what the code
    leaves in them; the caller writes them back. *)
Section Structs.
Context {T : Type} `{Region T}.

(** [MR_OVERLAP_IMPL2]: the flag and [*result]. *)
Definition overlap (a b : T) : bool * Z :=
  if r_address a <=? r_address b then
    let d := u32 (r_address b - r_address a) in
    (d <=? r_size a, Z.min (r_size b) (u32 (r_size a - d)))
  else
    let d := u32 (r_address a - r_address b) in
    (d <=? r_size b, Z.min (r_size a) (u32 (r_size b - d))).

(** The middle of [MR_MERGE_IMPL2]: the local [output], when [ret] is set.
    The start address of [a] is at most that of [b]. *)
Definition merge_output (a b : T) : option (Z * Z) :=
  if START_POINT_IN_RANGE (r_address b) (r_address a) (r_size a)
     && END_POINT_IN_RANGE (r_address b) (r_size b) (r_address a) (r_size a) then
    (* b lies completely within a *)
    Some (r_address a, r_size a)
  else if START_POINT_IN_RANGE (r_address b) (r_address a) (r_size a)
     && END_POINT_IN_RANGE (r_address a) (r_size a) (r_address b) (r_size b) then
    (* a and b overlap *)
    Some (r_address a, u32 (r_size b + u32 (r_address b - r_address a)))
  else if u32 (r_address b - r_address a) =? r_size a then
    (* a and b are adjacent *)
    Some (r_address a, u32 (r_size a + r_size b))
  else None.

(** [MR_MERGE_IMPL2]: the flag and the struct [a] points to afterwards;
    [MR_SORT_RANGE] swaps the pointers, [out_param] keeps the first one. *)
Definition merge (out_param b0 : T) : bool * T :=
  if negb (r_pre_merge out_param b0) then (false, out_param)
  else
    let '(a, b) := if r_address b0 <? r_address out_param then (b0, out_param)
                   else (out_param, b0) in
    match merge_output a b with
    | Some (address, size) => (true, r_set_size size (r_set_address address out_param))
    | None => (false, out_param)
    end.

(** [MR_CUT_IMPL2]: the flag and both structs afterwards. *)
Definition cut (a b : T) : bool * T * T :=
  if START_POINT_IN_RANGE (r_address b) (r_address a) (r_size a) then
    if END_POINT_IN_RANGE (r_address b) (r_size b) (r_address a) (r_size a) then
      let second_address := u32 (r_address b + r_size b) in
      let second_size := u32 (r_size a - u32 (second_address - r_address a)) in
      (true,
       r_set_size (u32 (r_address b - r_address a)) (r_set_address (r_address a) a),
       r_set_size second_size (r_set_address second_address b))
    else
      (true,
       r_set_size (u32 (r_address b - r_address a)) (r_set_address (r_address a) a),
       r_set_size 0 b)
  else if r_address b <? r_address a then
    if END_POINT_IN_RANGE (r_address b) (r_size b) (r_address a) (r_size a) then
      (true,
       r_set_size (u32 (r_size a - u32 (r_size b - u32 (r_address a - r_address b))))
         (r_set_address (u32 (r_address b + r_size b)) a),
       r_set_size 0 b)
    else if START_POINT_IN_RANGE (r_address a) (r_address b) (r_size b) then
      (true, r_set_size 0 a, r_set_size 0 b)
    else (false, a, b)
  else (false, a, b).
End Structs.

(** ** The state the generated functions share *)

(** The region structs, the file's static [_free_regions], the head pointer
    [regions] of every map, and the layout [kalloc_static] draws from. *)
Record rstate (T : Type) := RState {
  heap : gmap Z T;
  free_regions : Z;
  maps : gmap Z Z;
  lay : layout
}.
Arguments RState {T}.
Arguments heap {T}.
Arguments free_regions {T}.
Arguments maps {T}.
Arguments lay {T}.

Definition set_heap {T} (h : gmap Z T) (s : rstate T) : rstate T :=
  RState h (free_regions s) (maps s) (lay s).
Definition set_free {T} (p : Z) (s : rstate T) : rstate T :=
  RState (heap s) p (maps s) (lay s).
Definition set_maps {T} (m : gmap Z Z) (s : rstate T) : rstate T :=
  RState (heap s) (free_regions s) m (lay s).
Definition set_lay {T} (l : layout) (s : rstate T) : rstate T :=
  RState (heap s) (free_regions s) (maps s) l.

Section Access.
Context {T : Type}.

Definition on_heap {A} (m : M (gmap Z T) A) : M (rstate T) A := zoom heap set_heap m.
Definition on_lay {A} (m : M layout A) : M (rstate T) A := zoom lay set_lay m.

Definition get_regions (map : Z) : M (rstate T) Z := λ s,
  match maps s !! map with Some p => Ret p s | None => Fault end.

Definition set_regions (map p : Z) : M (rstate T) unit := λ s,
  match maps s !! map with Some _ => Ret tt (set_maps (<[map := p]> (maps s)) s) | None => Fault end.

(** Enough iterations for one traversal of a list of the heap. *)
Definition fuel_of : M (rstate T) nat := λ s, Ret (S (size (heap s))) s.
End Access.

(** [name##_alloc] and [name##_free]. *)
Class RegionAlloc (T : Type) := {
  region_alloc : M (rstate T) Z;
  region_free : Z → M (rstate T) unit
}.

(** ** The generated functions *)
Section Macros.
Context {T : Type} `{Region T} `{RegionAlloc T}.

(** [MRL_INSERT_IMPL2] *)
Fixpoint insert_loop (fuel : nat) (map elem cur_region : Z) : M (rstate T) unit :=
  match fuel with
  | O => nofuel
  | S fuel =>
      if cur_region =? NULL then
        head ← get_regions map;
        head ← on_heap (LL_APPEND head elem);
        set_regions map head
      else
        e ← on_heap (load elem);
        c ← on_heap (load cur_region);
        if r_address e <? r_address c then
          head ← get_regions map;
          head ← on_heap (LL_PREPEND_ELEM head cur_region elem);
          set_regions map head
        else insert_loop fuel map elem (ll_next c)
  end.

Definition region_insert (map elem : Z) : M (rstate T) unit :=
  fuel ← fuel_of;
  head ← get_regions map;
  insert_loop fuel map elem head.

(** [MR_CUT_AND_STITCH_IMPL2]; the code copies [*hole] before anything else. *)
Definition cut_and_stitch (map region : Z) (hole : T) : M (rstate T) unit :=
  a ← on_heap (load region);
  let '(overlap, a', tmp) := cut a hole in
  on_heap (store region a');;
  if overlap then
    (if negb (r_size tmp =? 0) then
       new_piece ← region_alloc;
       r ← on_heap (load region);
       on_heap (store new_piece (r_set_size (r_size tmp) (r_set_address (r_address tmp) r)));;
       region_insert map new_piece
     else mret tt);;
    r ← on_heap (load region);
    if r_size r =? 0 then
      head ← get_regions map;
      head ← on_heap (LL_DELETE head region);
      set_regions map head;;
      region_free region
    else mret tt
  else mret tt.

(** [MRL_SUBTRACT_IMPL2]: [tmp] is read before the body runs. *)
Fixpoint subtract_loop (fuel : nat) (map : Z) (region : T) (current_region : Z)
    : M (rstate T) unit :=
  match fuel with
  | O => nofuel
  | S fuel =>
      if current_region =? NULL then mret tt
      else
        c ← on_heap (load current_region);
        let tmp := ll_next c in
        cut_and_stitch map current_region region;;
        subtract_loop fuel map region tmp
  end.

Definition region_subtract (map : Z) (region : T) : M (rstate T) unit :=
  fuel ← fuel_of;
  head ← get_regions map;
  subtract_loop fuel map region head.

(** [MRL_ADD_IMPL2] *)
Fixpoint add_loop (fuel : nat) (map region cur_region : Z) : M (rstate T) unit :=
  match fuel with
  | O => nofuel
  | S fuel =>
      if cur_region =? NULL then
        (* the loop ended with [added] false *)
        head ← get_regions map;
        head ← on_heap (LL_APPEND head region);
        set_regions map head
      else
        c ← on_heap (load cur_region);
        r ← on_heap (load region);
        let '(merged, c') := merge c r in
        on_heap (store cur_region c');;
        if merged then
          region_free region;;
          c ← on_heap (load cur_region);
          if negb (ll_next c =? NULL) then
            let next := ll_next c in
            n ← on_heap (load next);
            let '(merged, n') := merge n c in
            on_heap (store next n');;
            if merged then
              head ← get_regions map;
              head ← on_heap (LL_DELETE head cur_region);
              set_regions map head;;
              region_free cur_region
            else mret tt
          else mret tt
        else if r_address r <? r_address c then
          head ← get_regions map;
          head ← on_heap (LL_PREPEND_ELEM head cur_region region);
          set_regions map head
        else add_loop fuel map region (ll_next c)
  end.

Definition region_add (map region : Z) : M (rstate T) unit :=
  fuel ← fuel_of;
  head ← get_regions map;
  add_loop fuel map region head.

(** [MRL_FIND_ADDRESS_IMPL2]: the region found, if any. *)
Fixpoint find_loop (fuel : nat) (addr cur_region : Z) : M (rstate T) (option Z) :=
  match fuel with
  | O => nofuel
  | S fuel =>
      if cur_region =? NULL then mret None
      else
        c ← on_heap (load cur_region);
        if r_address c =? addr then mret (Some cur_region)
        else find_loop fuel addr (ll_next c)
  end.

Definition region_find_address (map addr : Z) : M (rstate T) (option Z) :=
  fuel ← fuel_of;
  head ← get_regions map;
  find_loop fuel addr head.
End Macros.

(** ** Pools that fall back on static memory

    allocator.c and vm_map.c supply [name##_alloc] and [name##_free] the same
    way: a free list, and [kalloc_static] when it is empty.  [fresh p] is
    whatever the memory at [p] holds when it is first used as a struct. *)
Section Pool.
Context {T : Type} `{Region T}.
Variable sizeof : Z.
Variable fresh : Z → T.

Definition pool_alloc : M (rstate T) Z :=
  s ← get;
  if negb (free_regions s =? NULL) then
    let region := free_regions s in
    head ← on_heap (LL_DELETE (free_regions s) (free_regions s));
    modify (set_free head);;
    mret region
  else
    p ← on_lay (kalloc_static sizeof 4);
    modify (λ s, set_heap (<[p := fresh p]> (heap s)) s);;
    mret p.

Definition pool_free (region : Z) : M (rstate T) unit :=
  s ← get;
  head ← on_heap (LL_PREPEND (free_regions s) region);
  modify (set_free head).
End Pool.
