(* ===== verification/RangeSpec.v ===== *)
(** * The list operations of range.h, as functions on lists of regions

    [insert_l], [add_l] and [subtract_l] are what the generated functions do
    to the list of region values of a map (Range.v gives the pointer code,
    RangeRefine.v relates the two).  This file proves that they keep the list
    sorted and free of overlaps and that they add and remove exactly the
    addresses they are asked to. *)

From stdpp Require Import base numbers list gmap strings fin_maps.
From S2P Require Import Prelude UtList MemUtil Range.

Section Spec.
Context {T : Type} `{Region T}.
Implicit Types (a b c r hole : T) (l : list T) (x lo f : Z).

Fixpoint insert_l (e : T) l : list T :=
  match l with
  | [] => [e]
  | c :: l' => if r_address e <? r_address c then e :: l else c :: insert_l e l'
  end.

(** How many regions [insert_l] passes before it finds the place. *)
Fixpoint insert_pos (e : T) l : nat :=
  match l with
  | [] => 0
  | c :: l' => if r_address e <? r_address c then 0 else S (insert_pos e l')
  end.

Fixpoint add_l r l : list T :=
  match l with
  | [] => [r]
  | c :: l' =>
      let '(merged, c') := merge c r in
      if merged then
        match l' with
        | [] => [c']
        | n :: l'' =>
            let '(merged, n') := merge n c' in
            if merged then n' :: l'' else c' :: l'
        end
      else if r_address r <? r_address c then r :: l
      else c :: add_l r l'
  end.

(** What is left of [c] after [cut_and_stitch]. *)
Definition pieces hole c : list T :=
  let '(overlap, a, tmp) := cut c hole in
  if overlap then
    (if r_size a =? 0 then [] else [a]) ++
    (if r_size tmp =? 0 then []
     else [r_set_size (r_size tmp) (r_set_address (r_address tmp) a)])
  else [c].

Definition subtract_l hole l : list T := l ≫= pieces hole.

(** ** Well-formed lists and the addresses they cover *)

Definition r_end r : Z := r_address r + r_size r.

Definition in_region x r : Prop := r_address r ≤ x < r_end r.

(** A non-empty range that lies inside the address space and avoids address 0. *)
Definition wf_region r : Prop := 0 < r_address r ∧ 0 < r_size r ∧ r_end r ≤ W32.

(** Sorted by address, without overlap, starting at [lo] or above. *)
Fixpoint wf_from lo l : Prop :=
  match l with
  | [] => True
  | r :: l => lo ≤ r_address r ∧ wf_region r ∧ wf_from (r_end r) l
  end.

Definition wf_list l : Prop := wf_from 1 l.

(** Address [x] is covered by a region with flags [f]. *)
Definition covers l x f : Prop := ∃ r, r ∈ l ∧ r_flags r = f ∧ in_region x r.

Definition disjoint_from r l : Prop := ∀ x c, c ∈ l → in_region x c → ¬ in_region x r.

Lemma wf_from_weaken lo lo' l : lo' ≤ lo → wf_from lo l → wf_from lo' l.
Proof. destruct l; simpl; [done|]. intros ? (? & ? & ?). split_and!; try done. lia. Qed.

Lemma wf_from_lower lo l c : wf_from lo l → c ∈ l → wf_region c ∧ lo ≤ r_address c.
Proof.
  revert lo. induction l as [|d l IH]; intros lo; simpl; [by rewrite elem_of_nil|].
  intros (? & Hd & Hl) [->|Hc]%elem_of_cons; [done|].
  destruct (IH _ Hl Hc) as [? ?]. split; [done|]. destruct Hd. unfold r_end in *. lia.
Qed.

Lemma wf_list_region l c : wf_list l → c ∈ l → wf_region c.
Proof. intros Hw Hc. by apply (wf_from_lower 1 l). Qed.

Lemma covers_nil x f : ¬ covers [] x f.
Proof. intros (r & Hr & _). by apply elem_of_nil in Hr. Qed.

Lemma covers_cons r l x f : covers (r :: l) x f ↔ (r_flags r = f ∧ in_region x r) ∨ covers l x f.
Proof.
  unfold covers. split.
  - intros (c & [->|Hc]%elem_of_cons & ? & ?); eauto.
  - intros [[? ?]|(c & ? & ? & ?)].
    + exists r. split; [by left|done].
    + exists c. split; [by right|done].
Qed.

Lemma covers_app l1 l2 x f : covers (l1 ++ l2) x f ↔ covers l1 x f ∨ covers l2 x f.
Proof. unfold covers. setoid_rewrite elem_of_app. naive_solver. Qed.

(** ** Inserting *)

Lemma insert_l_pos (e : T) l :
  insert_l e l = take (insert_pos e l) l ++ e :: drop (insert_pos e l) l.
Proof.
  induction l as [|c l IH]; simpl; [done|]. destruct (r_address e <? r_address c); simpl; [done|].
  by rewrite <- IH.
Qed.

Lemma insert_pos_between (e : T) l1 l2 :
  Forall (λ c, r_address c ≤ r_address e) l1 →
  (∀ c, head l2 = Some c → r_address e < r_address c) →
  insert_pos e (l1 ++ l2) = length l1.
Proof.
  intros H1 H2. induction H1 as [|c l1 Hc H1 IH]; simpl.
  - destruct l2 as [|c l2]; [done|]. simpl. rewrite (proj2 (Z.ltb_lt _ _)); auto.
  - rewrite (proj2 (Z.ltb_ge _ _)) by done. by rewrite IH.
Qed.

(** ** Merging *)

(** The ranges overlap or are adjacent. *)
Definition touching a b : Prop := r_address a ≤ r_end b ∧ r_address b ≤ r_end a.

(** The smallest range containing both, in the struct [a]. *)
Definition union_region a b : T :=
  let s := Z.min (r_address a) (r_address b) in
  r_set_size (Z.max (r_end a) (r_end b) - s) (r_set_address s a).

Lemma r_address_union a b : r_address (union_region a b) = Z.min (r_address a) (r_address b).
Proof. unfold union_region. by autorewrite with region. Qed.

Lemma r_end_union a b : r_end (union_region a b) = Z.max (r_end a) (r_end b).
Proof. unfold union_region, r_end at 1. autorewrite with region. lia. Qed.

Lemma r_flags_union a b : r_flags (union_region a b) = r_flags a.
Proof. unfold union_region. by autorewrite with region. Qed.

Lemma merge_output_touching a b :
  wf_region a → wf_region b → r_address a ≤ r_address b ≤ r_end a →
  merge_output a b = Some (r_address a, Z.max (r_end a) (r_end b) - r_address a).
Proof.
  intros (?&?&?) (?&?&?) ?. unfold merge_output, r_end, START_POINT_IN_RANGE, END_POINT_IN_RANGE,
    END_POINT_GT_START_POINT, END_POINT_LT_END_POINT in *.
  rewrite !(u32_small (r_address b - r_address a)) by lia.
  rewrite (proj2 (Z.leb_le (r_address a) (r_address b))) by lia. simpl.
  destruct (Z.ltb_spec (r_address b - r_address a) (r_size a)); simpl.
  - rewrite (u32_small (r_size a - _)) by lia.
    destruct (Z.leb_spec (r_size b) (r_size a - (r_address b - r_address a))).
    + do 2 f_equal; lia.
    + rewrite (u32_small (r_size b + _)) by lia.
      rewrite (proj2 (Z.leb_le (r_address b - r_address a) (r_size a))), orb_true_r by lia.
      replace (u32 (r_size b - u32 (r_address a - r_address b)))
        with (r_size b + (r_address b - r_address a)) by wrap.
      rewrite (proj2 (Z.leb_le (r_size a) _)) by lia. simpl. do 2 f_equal; lia.
  - rewrite (proj2 (Z.eqb_eq _ _)) by lia. rewrite u32_small by lia. do 2 f_equal; lia.
Qed.

Lemma merge_output_apart a b :
  wf_region a → wf_region b → r_end a < r_address b → merge_output a b = None.
Proof.
  intros (?&?&?) (?&?&?) ?. unfold merge_output, r_end, START_POINT_IN_RANGE in *.
  rewrite !(u32_small (r_address b - r_address a)) by lia.
  rewrite (proj2 (Z.ltb_ge (r_address b - r_address a) (r_size a))) by lia.
  rewrite !andb_false_r. simpl. rewrite (proj2 (Z.eqb_neq _ _)) by lia. done.
Qed.

Lemma merge_touching a b :
  wf_region a → wf_region b → r_pre_merge a b = true → touching a b →
  merge a b = (true, union_region a b).
Proof.
  intros Ha Hb Hp (?&?). unfold merge, union_region. rewrite Hp. simpl.
  destruct (Z.ltb_spec (r_address b) (r_address a)); rewrite merge_output_touching by (done || lia).
  - rewrite Z.min_r, Z.max_comm by lia. done.
  - rewrite Z.min_l by lia. done.
Qed.

Lemma merge_not a b :
  wf_region a → wf_region b → ¬ (r_pre_merge a b = true ∧ touching a b) →
  merge a b = (false, a).
Proof.
  intros Ha Hb Hn. unfold merge. destruct (r_pre_merge a b); [simpl|done].
  assert (¬ touching a b) as Ht by (intros ?; by apply Hn). unfold touching in Ht.
  destruct (Z.ltb_spec (r_address b) (r_address a)); rewrite merge_output_apart; try done;
    destruct Ha as (?&?&?), Hb as (?&?&?); unfold r_end in *; lia.
Qed.

(** ** Adding *)

Lemma disjoint_cases r c l :
  wf_region r → wf_region c → disjoint_from r l → c ∈ l →
  r_end r ≤ r_address c ∨ r_end c ≤ r_address r.
Proof.
  intros (?&?&?) (?&?&?) Hd Hc. unfold r_end in *.
  destruct (Z.le_gt_cases (r_address c) (r_address r)).
  - right. destruct (Z.le_gt_cases (r_address c + r_size c) (r_address r)); [done|].
    exfalso. apply (Hd (r_address r) c); unfold in_region, r_end; auto; lia.
  - left. destruct (Z.le_gt_cases (r_address r + r_size r) (r_address c)); [done|].
    exfalso. apply (Hd (r_address c) c); unfold in_region, r_end; auto; lia.
Qed.

Lemma disjoint_from_tail r c l : disjoint_from r (c :: l) → disjoint_from r l.
Proof. intros Hd x d Hx. apply Hd. by right. Qed.

Lemma wf_union a b : wf_region a → wf_region b → wf_region (union_region a b).
Proof.
  unfold wf_region. rewrite r_address_union, r_end_union.
  assert (r_size (union_region a b) = r_end (union_region a b) - r_address (union_region a b))
    as -> by (unfold r_end; lia).
  rewrite r_address_union, r_end_union. unfold r_end. lia.
Qed.

Lemma in_union x a b :
  touching a b → in_region x (union_region a b) ↔ in_region x a ∨ in_region x b.
Proof. unfold in_region, touching. rewrite r_address_union, r_end_union. lia. Qed.

Lemma touching_dec a b : {touching a b} + {¬ touching a b}.
Proof. unfold touching. destruct (decide (r_address a ≤ r_end b)), (decide (r_address b ≤ r_end a)); [left|right..]; lia. Qed.

(** The outcome of [merge] on well-formed regions. *)
Lemma merge_cases a b :
  wf_region a → wf_region b →
  (r_pre_merge a b = true ∧ touching a b ∧ merge a b = (true, union_region a b)) ∨
  (¬ (r_pre_merge a b = true ∧ touching a b) ∧ merge a b = (false, a)).
Proof.
  intros Ha Hb. destruct (r_pre_merge a b) eqn:Hp, (touching_dec a b).
  - left. split_and!; [done..|]. by apply merge_touching.
  - right. assert (¬ (r_pre_merge a b = true ∧ touching a b)) by (intros [? ?]; congruence).
    split; [congruence|by apply merge_not].
  - right. assert (¬ (r_pre_merge a b = true ∧ touching a b)) by (intros [? ?]; congruence).
    split; [congruence|by apply merge_not].
  - right. assert (¬ (r_pre_merge a b = true ∧ touching a b)) by (intros [? ?]; congruence).
    split; [congruence|by apply merge_not].
Qed.

Lemma add_l_wf lo r l :
  wf_from lo l → wf_region r → lo ≤ r_address r → disjoint_from r l → wf_from lo (add_l r l).
Proof.
  revert lo. induction l as [|c l IH]; intros lo; simpl; [done|].
  intros (Hlo & Hc & Hl) Hr Hlr Hd.
  pose proof (disjoint_cases r c (c :: l) Hr Hc Hd ltac:(by left)) as Hrc.
  destruct (merge_cases c r Hc Hr) as [(Hp & Ht & ->)|(Hn & ->)].
  - pose proof (wf_union c r Hc Hr) as Hu.
    destruct l as [|n l]; [simpl; rewrite r_address_union; split_and!; auto; lia|].
    destruct Hl as (Hln & Hwn & Hl).
    pose proof (disjoint_cases r n (c :: n :: l) Hr Hwn Hd ltac:(right; by left)) as Hrn.
    assert (r_end r ≤ r_address n) as Hrn'.
    { destruct Hrn; [done|]. destruct Ht, Hc as (?&?&?), Hwn as (?&?&?). unfold r_end in *. lia. }
    destruct (merge_cases n (union_region c r) Hwn Hu) as [(Hp2 & Ht2 & ->)|(Hn2 & ->)]; simpl.
    + rewrite r_address_union, r_end_union, r_address_union, r_end_union.
      split; [|split; [by apply wf_union|]].
      * destruct Hwn as (?&?&?), Hc as (?&?&?), Hr as (?&?&?). unfold r_end in *. lia.
      * eapply wf_from_weaken; [|done]. destruct Hwn as (?&?&?). unfold r_end in *. lia.
    + rewrite r_address_union, r_end_union. split_and!; try done; [lia|].
      unfold r_end in *. lia.
  - destruct (Z.ltb_spec (r_address r) (r_address c)); simpl.
    + split_and!; try done. destruct Hrc; [done|]. destruct Hc as (?&?&?). unfold r_end in *. lia.
    + split_and!; try done. apply IH; try done.
      * destruct Hrc; [destruct Hr as (?&?&?); unfold r_end in *; lia|done].
      * by eapply disjoint_from_tail.
Qed.

Lemma add_l_covers lo r l x f :
  wf_from lo l → wf_region r → disjoint_from r l →
  covers (add_l r l) x f ↔ covers l x f ∨ (r_flags r = f ∧ in_region x r).
Proof.
  revert lo. induction l as [|c l IH]; intros lo; simpl.
  - intros _ _ _. rewrite covers_cons. pose proof (covers_nil x f). tauto.
  - intros (Hlo & Hc & Hl) Hr Hd.
    destruct (merge_cases c r Hc Hr) as [(Hp & Ht & ->)|(Hn & ->)].
    + pose proof (wf_union c r Hc Hr) as Hu. pose proof (r_pre_merge_flags _ _ Hp) as Hf.
      assert (Hcu : r_flags (union_region c r) = f ∧ in_region x (union_region c r) ↔
        (r_flags c = f ∧ in_region x c) ∨ (r_flags r = f ∧ in_region x r)).
      { rewrite r_flags_union, in_union, Hf by done. tauto. }
      destruct l as [|n l]; [rewrite !covers_cons, Hcu; tauto|].
      destruct Hl as (Hln & Hwn & Hl).
      destruct (merge_cases n (union_region c r) Hwn Hu) as [(Hp2 & Ht2 & ->)|(Hn2 & ->)].
      * pose proof (r_pre_merge_flags _ _ Hp2) as Hf2. rewrite r_flags_union in Hf2.
        rewrite !covers_cons, r_flags_union, (in_union _ n), (in_union _ c) by done.
        rewrite Hf2, Hf. tauto.
      * rewrite !covers_cons, Hcu. tauto.
    + destruct (Z.ltb_spec (r_address r) (r_address c)); simpl.
      * rewrite !covers_cons. tauto.
      * rewrite !covers_cons, IH by (try eassumption; by eapply disjoint_from_tail). tauto.
Qed.

(** *** Coalescing: neighbours that could be merged have been *)

Definition mergeable a b : Prop := r_pre_merge a b = true ∧ r_end a = r_address b.

Fixpoint coalesced l : Prop :=
  match l with
  | a :: l => match l with b :: _ => ¬ mergeable a b | [] => True end ∧ coalesced l
  | [] => True
  end.

Lemma mergeable_congr a a' b b' :
  r_flags a = r_flags a' → r_end a = r_end a' → r_flags b = r_flags b' →
  r_address b = r_address b' → mergeable a b → mergeable a' b'.
Proof. intros Hf He Hf' Ha [Hp ?]. split; [|lia]. by rewrite <- (r_pre_merge_congr a a' b b'). Qed.

(** The first region of the result starts where [r] or the old first region did. *)
Lemma add_l_head r c l :
  wf_from 1 (c :: l) → wf_region r → disjoint_from r (c :: l) →
  ∃ h t, add_l r (c :: l) = h :: t ∧
    ((r_address h = r_address r ∧ r_flags h = r_flags r) ∨
     (r_address h = r_address c ∧ r_flags h = r_flags c)).
Proof.
  intros (_ & Hc & Hl) Hr Hd. simpl.
  destruct (merge_cases c r Hc Hr) as [(Hp & Ht & ->)|(Hn & ->)].
  - pose proof (r_pre_merge_flags _ _ Hp) as Hf. pose proof (wf_union c r Hc Hr) as Hu.
    assert (Hfirst : ∀ g, r_address g = r_address (union_region c r) → r_flags g = r_flags c →
      (r_address g = r_address r ∧ r_flags g = r_flags r) ∨
      (r_address g = r_address c ∧ r_flags g = r_flags c)).
    { intros g. rewrite r_address_union. intros Hg ?.
      destruct (Z.min_spec (r_address c) (r_address r)) as [[? E]|[? E]]; [right|left]; split; congruence. }
    destruct l as [|n l]; [eexists _, _; split; [done|]; apply Hfirst; [done|apply r_flags_union]|].
    destruct Hl as (Hln & Hwn & Hl).
    destruct (merge_cases n (union_region c r) Hwn Hu) as [(Hp2 & Ht2 & ->)|(Hn2 & ->)];
      (eexists _, _; split; [done|]; apply Hfirst); try done; try apply r_flags_union.
    + pose proof (disjoint_cases r n (c :: n :: l) Hr Hwn Hd ltac:(right; by left)).
      rewrite r_address_union, !r_address_union.
      destruct Hwn as (?&?&?), Hc as (?&?&?), Hr as (?&?&?). unfold r_end in *. lia.
    + rewrite r_flags_union. rewrite (r_pre_merge_flags _ _ Hp2). apply r_flags_union.
  - destruct (r_address r <? r_address c); eexists _, _; (split; [done|]); auto.
Qed.

Lemma add_l_coalesced r l :
  wf_from 1 l → wf_region r → disjoint_from r l → coalesced l → coalesced (add_l r l).
Proof.
  induction l as [|c l IH]; intros Hw Hr Hd Hco; [done|].
  pose proof Hw as (_ & Hc & Hl). pose proof Hco as [Hcn Hco'].
  pose proof (disjoint_cases r c (c :: l) Hr Hc Hd ltac:(by left)) as Hrc. simpl.
  destruct (merge_cases c r Hc Hr) as [(Hp & Ht & ->)|(Hn & ->)].
  - pose proof (wf_union c r Hc Hr) as Hu.
    destruct l as [|n l]; [done|]. destruct Hl as (Hln & Hwn & Hl).
    pose proof (disjoint_cases r n (c :: n :: l) Hr Hwn Hd ltac:(right; by left)) as Hrn.
    destruct (merge_cases n (union_region c r) Hwn Hu) as [(Hp2 & Ht2 & ->)|(Hn2 & ->)].
    + destruct l as [|n2 l]; [done|]. destruct Hco' as [Hnn Hco']. split; [|done].
      intros Hm. apply Hnn. eapply mergeable_congr; [| | | |exact Hm]; try done.
      * by rewrite r_flags_union.
      * rewrite r_end_union, r_end_union.
        destruct Hwn as (?&?&?), Hc as (?&?&?), Hr as (?&?&?), Ht. unfold r_end in *. lia.
    + split; [|done]. intros [Hm1 Hm2]. apply Hn2. split; [by rewrite r_pre_merge_sym|].
      unfold touching. rewrite Hm2, r_address_union.
      destruct Hwn as (?&?&?), Hc as (?&?&?), Hr as (?&?&?). unfold r_end in *. lia.
  - destruct (Z.ltb_spec (r_address r) (r_address c)) as [Hlt|Hge].
    + split; [|done]. intros [Hm1 Hm2]. apply Hn. split; [by rewrite r_pre_merge_sym|].
      unfold touching. destruct Hc as (?&?&?), Hr as (?&?&?). unfold r_end in *. lia.
    + assert (Hnm : ¬ mergeable c r).
      { intros [Hm1 Hm2]. apply Hn. split; [done|]. unfold touching.
        destruct Hc as (?&?&?), Hr as (?&?&?). unfold r_end in *. lia. }
      assert (Hd' : disjoint_from r l) by (by eapply disjoint_from_tail).
      assert (Hwl : wf_from 1 l).
      { eapply wf_from_weaken; [|exact Hl]. destruct Hc as (?&?&?). unfold r_end. lia. }
      split; [|by apply IH].
      destruct l as [|n l]; [done|].
      destruct (add_l_head r n l) as (h & t & -> & Hh); [done..|].
      destruct Hh as [[Ha Hf]|[Ha Hf]]; intros Hm; [apply Hnm|apply Hcn];
        (eapply mergeable_congr; [| | | |exact Hm]; congruence).
Qed.

(** ** Subtracting *)

(** A possibly empty range inside the address space. *)
Definition wf_hole hole : Prop :=
  0 < r_address hole ∧ 0 ≤ r_size hole ∧ r_end hole ≤ W32.

(** Start, end and flags of a region. *)
Definition ext r : Z * Z * Z := (r_address r, r_end r, r_flags r).

(** The two parts of [c] outside [hole], when they are not empty. *)
Definition ext_left hole c : list (Z * Z * Z) :=
  if r_address c <? r_address hole
  then [(r_address c, Z.min (r_address hole) (r_end c), r_flags c)] else [].
Definition ext_right hole c : list (Z * Z * Z) :=
  if r_end hole <? r_end c
  then [(Z.max (r_end hole) (r_address c), r_end c, r_flags c)] else [].

(** [cut] branch by branch, with the reductions modulo 2^32 discharged. *)
Ltac cut_start :=
  intros (?&?&?) (?&?&?) ?; unfold cut, START_POINT_IN_RANGE, END_POINT_IN_RANGE,
    END_POINT_GT_START_POINT, END_POINT_LT_END_POINT, r_end in *.
Ltac decide_cmp :=
  repeat match goal with
  | |- context [?a <=? ?b] =>
      first [rewrite (proj2 (Z.leb_le a b)) by lia | rewrite (proj2 (Z.leb_gt a b)) by lia]
  | |- context [?a <? ?b] =>
      first [rewrite (proj2 (Z.ltb_lt a b)) by lia | rewrite (proj2 (Z.ltb_ge a b)) by lia]
  | |- context [?a =? ?b] =>
      first [rewrite (proj2 (Z.eqb_eq a b)) by lia | rewrite (proj2 (Z.eqb_neq a b)) by lia]
  end; simpl.

Lemma cut_inside a b :
  wf_region a → wf_hole b → r_address a ≤ r_address b ∧ r_address b < r_end a ∧ r_end b ≤ r_end a →
  cut a b = (true, r_set_size (r_address b - r_address a) (r_set_address (r_address a) a),
             r_set_size (r_end a - r_end b) (r_set_address (u32 (r_end b)) b)).
Proof.
  cut_start. rewrite !(u32_small (r_address b - r_address a)) by lia.
  rewrite (u32_small (r_size a - (r_address b - r_address a))) by lia. decide_cmp.
  do 2 f_equal. wrap.
Qed.

Lemma cut_right a b :
  wf_region a → wf_hole b → r_address a ≤ r_address b ∧ r_address b < r_end a ∧ r_end a < r_end b →
  cut a b = (true, r_set_size (r_address b - r_address a) (r_set_address (r_address a) a),
             r_set_size 0 b).
Proof.
  cut_start. rewrite !(u32_small (r_address b - r_address a)) by lia.
  rewrite (u32_small (r_size a - (r_address b - r_address a))) by lia. by decide_cmp.
Qed.

Lemma cut_left a b :
  wf_region a → wf_hole b → r_address b < r_address a ∧ r_address a ≤ r_end b ∧ r_end b ≤ r_end a →
  cut a b = (true, r_set_size (r_end a - r_end b) (r_set_address (u32 (r_end b)) a), r_set_size 0 b).
Proof.
  cut_start. rewrite !(u32_small (r_address a - r_address b)) by lia.
  replace (u32 (r_size a - u32 (r_address b - r_address a)))
    with (r_size a + (r_address a - r_address b)) by wrap.
  decide_cmp. do 3 f_equal. rewrite (u32_small (r_size b - _)), u32_small; lia.
Qed.

Lemma cut_cover a b :
  wf_region a → wf_hole b → r_address b < r_address a ∧ r_end a < r_end b →
  cut a b = (true, r_set_size 0 a, r_set_size 0 b).
Proof.
  cut_start. rewrite !(u32_small (r_address a - r_address b)) by lia.
  replace (u32 (r_size a - u32 (r_address b - r_address a)))
    with (r_size a + (r_address a - r_address b)) by wrap.
  by decide_cmp.
Qed.

Lemma cut_apart a b :
  wf_region a → wf_hole b → r_end a ≤ r_address b ∨ r_end b < r_address a → cut a b = (false, a, b).
Proof.
  cut_start. destruct (Z.le_gt_cases (r_address a) (r_address b)).
  - rewrite !(u32_small (r_address b - r_address a)) by lia. by decide_cmp.
  - rewrite !(u32_small (r_address a - r_address b)) by lia. by decide_cmp.
Qed.

Ltac ext_eq :=
  repeat first [reflexivity | apply (f_equal2 (@cons _)) | apply (f_equal2 (@pair _ _))]; lia.

Ltac ext_finish :=
  autorewrite with region; unfold wf_region, wf_hole, r_end in *; decide_cmp;
  unfold ext, r_end; autorewrite with region; rewrite ?u32_small by lia; ext_eq.

Lemma pieces_ext hole c :
  wf_region c → wf_hole hole → ext <$> pieces hole c = ext_left hole c ++ ext_right hole c.
Proof.
  intros Hc Hh. unfold pieces, ext_left, ext_right.
  destruct (decide (r_end c ≤ r_address hole ∨ r_end hole < r_address c)).
  { rewrite cut_apart by done.
    destruct (Z.ltb_spec (r_address c) (r_address hole)); ext_finish. }
  assert (r_address hole < r_end c ∧ r_address c ≤ r_end hole) as [? ?] by lia.
  destruct (decide (r_address c ≤ r_address hole)), (decide (r_end hole ≤ r_end c)).
  - rewrite cut_inside by (done || lia).
    destruct (Z.ltb_spec (r_address c) (r_address hole)),
      (Z.ltb_spec (r_end hole) (r_end c)); ext_finish.
  - rewrite cut_right by (done || lia).
    destruct (Z.ltb_spec (r_address c) (r_address hole)); ext_finish.
  - rewrite cut_left by (done || lia).
    destruct (Z.ltb_spec (r_end hole) (r_end c)); ext_finish.
  - rewrite cut_cover by (done || lia). ext_finish.
Qed.

(** Lists seen through the extents of their regions. *)
Fixpoint wf_ext lo (es : list (Z * Z * Z)) : Prop :=
  match es with
  | [] => True
  | (s, e, _) :: es => lo ≤ s ∧ 0 < s ∧ s < e ∧ e ≤ W32 ∧ wf_ext e es
  end.

Lemma wf_from_ext lo l : wf_from lo l ↔ wf_ext lo (ext <$> l).
Proof.
  revert lo. induction l as [|c l IH]; intros lo; simpl; [done|].
  rewrite IH. unfold wf_region, r_end. intuition lia.
Qed.

Lemma wf_ext_app lo es es' :
  wf_ext lo (es ++ es') ↔ wf_ext lo es ∧ wf_ext (foldl (λ (_ : Z) (t : Z * Z * Z), t.1.2) lo es) es'.
Proof.
  revert lo. induction es as [|[[s e] f] es IH]; intros lo; simpl; [tauto|].
  rewrite IH. tauto.
Qed.

Lemma wf_ext_weaken lo lo' es : lo' ≤ lo → wf_ext lo es → wf_ext lo' es.
Proof. destruct es as [|[[s e] f] es]; simpl; [done|]. intuition lia. Qed.

Lemma covers_ext l x f : covers l x f ↔ ∃ s e, (s, e, f) ∈ ext <$> l ∧ s ≤ x < e.
Proof.
  unfold covers. split.
  - intros (r & Hr & <- & Hx). exists (r_address r), (r_end r).
    split; [|done]. by apply (list_elem_of_fmap_2 ext).
  - intros (s & e & Hr & Hx). apply list_elem_of_fmap in Hr as (r & [= -> -> ->] & Hr).
    exists r. done.
Qed.

Lemma subtract_l_ext hole l lo :
  wf_from lo l → wf_hole hole →
  ext <$> subtract_l hole l = l ≫= (λ c, ext_left hole c ++ ext_right hole c).
Proof.
  intros Hw Hh. revert lo Hw. induction l as [|c l IH]; intros lo Hw; [done|].
  destruct Hw as (_ & Hc & Hl). unfold subtract_l in *. rewrite !bind_cons, fmap_app.
  rewrite (IH _ Hl), pieces_ext by done. done.
Qed.

Lemma pieces_wf_app hole c l lo :
  lo ≤ r_address c → wf_region c → wf_hole hole → wf_from (r_end c) l →
  wf_from lo (pieces hole c ++ l).
Proof.
  intros Hlo Hc Hh Hl. apply wf_from_ext. apply wf_from_ext in Hl.
  rewrite fmap_app, pieces_ext, wf_ext_app by done.
  unfold ext_left, ext_right, wf_region, wf_hole in *.
  destruct (Z.ltb_spec (r_address c) (r_address hole)), (Z.ltb_spec (r_end hole) (r_end c));
    simpl; (split; [split_and?; try done; unfold r_end in *; lia|]);
    (eapply wf_ext_weaken; [|exact Hl]); unfold r_end in *; lia.
Qed.

Lemma subtract_l_wf hole l lo :
  wf_from lo l → wf_hole hole → wf_from lo (subtract_l hole l).
Proof.
  intros Hw Hh. revert lo Hw. induction l as [|c l IH]; intros lo; [done|].
  intros (Hlo & Hc & Hl). unfold subtract_l. rewrite bind_cons. by apply pieces_wf_app; [..|apply IH].
Qed.

Lemma subtract_l_covers hole l lo x f :
  wf_from lo l → wf_hole hole →
  covers (subtract_l hole l) x f ↔ covers l x f ∧ ¬ in_region x hole.
Proof.
  intros Hw Hh. rewrite covers_ext, (subtract_l_ext hole l lo) by done. unfold covers.
  setoid_rewrite list_elem_of_bind. unfold ext_left, ext_right, in_region.
  split.
  - intros (s & e & (c & Hin & Hc) & Hx). destruct (wf_from_lower _ _ _ Hw Hc) as [(?&?&?) _].
    apply elem_of_app in Hin. unfold wf_hole, r_end in *.
    destruct (Z.ltb_spec (r_address c) (r_address hole)),
      (Z.ltb_spec (r_address hole + r_size hole) (r_address c + r_size c));
      rewrite ?elem_of_nil, ?list_elem_of_singleton in Hin; destruct Hin as [Hin|Hin]; try done;
      injection Hin as -> -> ->; (split; [exists c; split_and!; try done; lia|lia]).
  - intros ((c & Hc & <- & Hx) & Hn). destruct (wf_from_lower _ _ _ Hw Hc) as [(?&?&?) _].
    unfold wf_hole, r_end in *.
    destruct (Z.lt_ge_cases x (r_address hole)).
    + eexists _, _. split; [exists c; split; [|done]; apply elem_of_app; left|].
      * rewrite (proj2 (Z.ltb_lt _ _)) by lia. by apply list_elem_of_singleton.
      * lia.
    + eexists _, _. split; [exists c; split; [|done]; apply elem_of_app; right|].
      * rewrite (proj2 (Z.ltb_lt _ _)) by lia. by apply list_elem_of_singleton.
      * lia.
Qed.

(** ** Facts the pointer code relies on *)

Lemma cut_false a b : (cut a b).1.1 = false → cut a b = (false, a, b).
Proof. unfold cut. by repeat case_match. Qed.

Lemma merge_false a b : (merge a b).1 = false → (merge a b).2 = a.
Proof. unfold merge. by repeat case_match. Qed.

(** Whether cutting [hole] from [c] leaves two pieces for two structs. *)
Definition splits hole c : Prop := (cut c hole).1.1 = true ∧ r_size (cut c hole).2 ≠ 0.

#[export] Instance splits_dec hole c : Decision (splits hole c).
Proof. unfold splits. apply _. Defined.

Lemma cut_second hole c :
  wf_region c → wf_hole hole → splits hole c →
  r_address (cut c hole).2 = r_end hole ∧ r_address c ≤ r_end hole < r_end c ∧
  r_address (cut c hole).1.2 = r_address c ∧ r_address c ≤ r_address hole.
Proof.
  intros Hc Hh [Ho Hs].
  destruct (decide (r_end c ≤ r_address hole ∨ r_end hole < r_address c)).
  { by rewrite cut_apart in Ho. }
  destruct (decide (r_address c ≤ r_address hole)), (decide (r_end hole ≤ r_end c)).
  - rewrite cut_inside in * by (done || lia). simpl in *. autorewrite with region in *.
    unfold wf_region, wf_hole, r_end in *. rewrite u32_small; lia.
  - rewrite cut_right in Hs by (done || lia). simpl in Hs. by autorewrite with region in Hs.
  - rewrite cut_left in Hs by (done || lia). simpl in Hs. by autorewrite with region in Hs.
  - rewrite cut_cover in Hs by (done || lia). simpl in Hs. by autorewrite with region in Hs.
Qed.

Lemma wf_from_app lo l1 l2 :
  wf_from lo (l1 ++ l2) → wf_from lo l1 ∧ wf_from lo l2 ∧
  (∀ a b, a ∈ l1 → b ∈ l2 → r_end a ≤ r_address b).
Proof.
  revert lo. induction l1 as [|c l1 IH]; intros lo; simpl.
  - intros Hw. split_and!; try done. intros a b Ha. by apply elem_of_nil in Ha.
  - intros (Hlo & Hc & Hw). destruct (IH _ Hw) as (H1 & H2 & H3).
    split_and!; try done.
    + eapply wf_from_weaken; [|exact H2]. unfold wf_region, r_end in *. lia.
    + intros a b [->|Ha]%elem_of_cons Hb; [|by apply H3].
      destruct (wf_from_lower _ _ _ Hw (proj2 (elem_of_app _ _ _) (or_intror Hb))). lia.
Qed.

Lemma pieces_wf hole l1 c l2 lo :
  wf_from lo (l1 ++ c :: l2) → wf_hole hole → wf_from lo (l1 ++ pieces hole c ++ l2).
Proof.
  intros Hw Hh. revert lo Hw. induction l1 as [|d l1 IH]; intros lo; simpl.
  - intros (? & ? & ?). by apply pieces_wf_app.
  - intros (? & ? & ?). auto.
Qed.

(** Cutting a hole that lies inside one region of the list. *)
Lemma cut_one_covers hole l1 c l2 lo x f :
  wf_from lo (l1 ++ c :: l2) → wf_hole hole →
  r_address c ≤ r_address hole → r_end hole ≤ r_end c →
  covers (l1 ++ pieces hole c ++ l2) x f ↔ covers (l1 ++ c :: l2) x f ∧ ¬ in_region x hole.
Proof.
  intros Hw Hh Ha He. destruct (wf_from_app _ _ _ Hw) as (H1 & (Hlo & Hc & H2) & H3).
  pose proof (subtract_l_covers hole [c] (r_address c) x f) as Hone.
  unfold subtract_l in Hone. rewrite bind_cons, app_nil_r in Hone.
  assert (Hout : ∀ d, d ∈ l1 ∨ d ∈ l2 → in_region x d → ¬ in_region x hole).
  { intros d [Hd|Hd] Hx Hxh; unfold in_region in *.
    - specialize (H3 d c Hd ltac:(by left)). lia.
    - destruct (wf_from_lower _ _ _ H2 Hd). unfold wf_hole in *. lia. }
  rewrite !covers_app, covers_cons, Hone; [|by split; [|split]|done].
  rewrite covers_cons. pose proof (covers_nil x f).
  assert (covers l1 x f → ¬ in_region x hole) by (intros (d & ? & _ & ?); eauto).
  assert (covers l2 x f → ¬ in_region x hole) by (intros (d & ? & _ & ?); eauto).
  tauto.
Qed.

Lemma coalesced_app l1 l2 :
  coalesced (l1 ++ l2) ↔ coalesced l1 ∧ coalesced l2 ∧
    ∀ a b, last l1 = Some a → head l2 = Some b → ¬ mergeable a b.
Proof.
  induction l1 as [|c l1 IH]; simpl; [split; [intros ?; by split_and!|tauto]|]. rewrite IH.
  destruct l1 as [|d l1]; simpl.
  - destruct l2 as [|b l2]; simpl; [split; [intros _; by split_and!|done]|].
    split.
    + intros (? & _ & ? & _). split; [done|]. split; [done|]. by intros ? ? [= <-] [= <-].
    + intros (_ & ? & Hm). split; [by apply Hm|]. split; [done|]. split; [done|]. by intros ? ? [=].
  - tauto.
Qed.

(** Cutting a non-empty hole out of one region creates no two regions that
    could be merged. *)
Lemma pieces_coalesced hole l1 c l2 lo :
  wf_from lo (l1 ++ c :: l2) → wf_hole hole → 0 < r_size hole →
  r_address c ≤ r_address hole → r_end hole ≤ r_end c →
  coalesced (l1 ++ c :: l2) → coalesced (l1 ++ pieces hole c ++ l2).
Proof.
  intros Hw Hh Hs Ha He Hco. destruct (wf_from_app _ _ _ Hw) as (_ & (_ & Hc & Hl2) & H3).
  apply coalesced_app in Hco as (Hc1 & Hc2 & H12). change (c :: l2) with ([c] ++ l2) in Hc2.
  apply coalesced_app in Hc2 as (_ & Hc2 & Hcn).
  pose proof (pieces_ext hole c Hc Hh) as Hp. unfold ext_left, ext_right in Hp.
  assert (Hleft : ∀ a b, last l1 = Some a → r_flags b = r_flags c → r_address b = r_address c → ¬ mergeable a b).
  { intros a b Hla Hfb Hab Hm. apply (H12 a c Hla eq_refl). by eapply mergeable_congr. }
  assert (Hright : ∀ a b, head l2 = Some b → r_flags a = r_flags c → r_end a = r_end c → ¬ mergeable a b).
  { intros a b Hlb Hfa Hea Hm. apply (Hcn c b eq_refl Hlb). by eapply mergeable_congr. }
  assert (Hlast : ∀ a, last l1 = Some a → r_end a ≤ r_address c).
  { intros a Hla. apply H3; [by apply last_Some_elem_of|by left]. }
  assert (Hhead : ∀ b, head l2 = Some b → r_end c ≤ r_address b).
  { intros b Hb. destruct l2; simplify_eq/=. destruct Hl2. done. }
  assert (Hcons : ∀ a, r_flags a = r_flags c → r_end a = r_end c → coalesced (a :: l2)).
  { intros a Hfa Hea. destruct l2 as [|b l2]; [done|]. split; [|done]. by eapply Hright. }
  assert (Hskip : ∀ a, r_end a < r_end c → coalesced (a :: l2)).
  { intros a Hea. destruct l2 as [|b l2]; [done|]. split; [|done]. intros [_ ?].
    specialize (Hhead b eq_refl). lia. }
  unfold wf_region, wf_hole in *.
  destruct (Z.ltb_spec (r_address c) (r_address hole)), (Z.ltb_spec (r_end hole) (r_end c));
    simpl in Hp;
    repeat match type of Hp with
    | _ <$> _ = _ :: _ => apply fmap_cons_inv in Hp as (? & ? & [= ? ? ?] & Hp & ->)
    | _ <$> _ = [] => apply fmap_nil_inv in Hp as ->
    | _ = _ <$> _ => symmetry in Hp
    end; simpl.
  - apply coalesced_app. split; [done|]. split.
    + split; [intros [_ ?]; unfold r_end in *; lia|]. by apply Hcons.
    + intros a b Hla [= <-]. by apply Hleft.
  - apply coalesced_app. split; [done|]. split.
    + apply Hskip. unfold r_end in *. lia.
    + intros a b Hla [= <-]. by apply Hleft.
  - apply coalesced_app. split; [done|]. split; [by apply Hcons|].
    intros a b Hla [= <-] [_ ?]. specialize (Hlast a Hla). unfold r_end in *. lia.
  - apply coalesced_app. split; [done|]. split; [done|].
    intros a b Hla Hlb [_ ?]. specialize (Hlast a Hla). specialize (Hhead b Hlb).
    unfold r_end in *. lia.
Qed.

(** At most one region of a list is split. *)
Lemma splits_once hole c l d lo :
  wf_from lo (c :: l) → wf_hole hole → splits hole c → d ∈ l → ¬ splits hole d.
Proof.
  intros (_ & Hc & Hl) Hh Hs Hd Hs'. destruct (wf_from_lower _ _ _ Hl Hd) as [Hwd ?].
  destruct (cut_second hole c Hc Hh Hs) as (_ & ? & _).
  destruct (cut_second hole d Hwd Hh Hs') as (_ & _ & _ & ?).
  unfold wf_hole, r_end in *. lia.
Qed.

(** The second piece belongs between what is left of [c] and its successor. *)
Lemma second_pos hole l1 c l2 (piece : T) :
  wf_list (l1 ++ c :: l2) → wf_hole hole → splits hole c → r_address piece = r_end hole →
  insert_pos piece (l1 ++ (cut c hole).1.2 :: l2) = S (length l1).
Proof.
  intros Hw Hh Hs Hp. destruct (wf_from_app _ _ _ Hw) as (H1 & (Hlo & Hc & H2) & H3).
  destruct (cut_second hole c Hc Hh Hs) as (_ & Hb & Ha & _).
  replace (l1 ++ (cut c hole).1.2 :: l2) with ((l1 ++ [(cut c hole).1.2]) ++ l2)
    by by rewrite <- app_assoc.
  rewrite insert_pos_between; [rewrite length_app; simpl; lia| |].
  - apply Forall_app. split.
    + apply Forall_forall. intros d Hd. pose proof (H3 d c Hd ltac:(by left)).
      destruct (wf_from_lower _ _ _ H1 Hd). unfold wf_region, r_end in *. lia.
    + constructor; [lia|constructor].
  - destruct l2 as [|d l2]; [done|]. simpl. intros ? [= <-]. destruct H2 as (? & _). lia.
Qed.
(** ** Where regions start and end *)

(** Every region starts at an address in [P] and ends at one in [Q]. *)
Definition edges (P Q : Z → Prop) l : Prop := ∀ c, c ∈ l → P (r_address c) ∧ Q (r_end c).

Lemma union_edges (P Q : Z → Prop) a b :
  P (r_address a) → Q (r_end a) → P (r_address b) → Q (r_end b) →
  P (r_address (union_region a b)) ∧ Q (r_end (union_region a b)).
Proof.
  intros. rewrite r_address_union, r_end_union.
  split; [by destruct (Z.min_spec (r_address a) (r_address b)) as [[_ ->]|[_ ->]]|].
  by destruct (Z.max_spec (r_end a) (r_end b)) as [[_ ->]|[_ ->]].
Qed.

Lemma add_l_edges (P Q : Z → Prop) lo r l :
  wf_from lo l → wf_region r → P (r_address r) → Q (r_end r) → edges P Q l → edges P Q (add_l r l).
Proof.
  intros Hw Hr Ha He. revert lo Hw. induction l as [|c l IH]; intros lo Hw Hal; simpl.
  { by intros x ->%list_elem_of_singleton. }
  destruct Hw as (_ & Hc & Hl). destruct (Hal c ltac:(by left)) as [Hca Hce].
  assert (Hal' : edges P Q l) by (intros x Hx; apply Hal; by right).
  destruct (merge_cases c r Hc Hr) as [(_ & _ & ->)|(_ & ->)].
  - pose proof (wf_union c r Hc Hr) as Hu. pose proof (union_edges P Q c r Hca Hce Ha He) as [Hua Hue].
    destruct l as [|n l]; [by intros x ->%list_elem_of_singleton|].
    destruct Hl as (_ & Hwn & _). destruct (Hal' n ltac:(by left)) as [Hna Hne].
    destruct (merge_cases n (union_region c r) Hwn Hu) as [(_ & _ & ->)|(_ & ->)].
    + intros x [->|Hx]%elem_of_cons; [by apply union_edges|]. apply Hal'. by right.
    + intros x [->|Hx]%elem_of_cons; auto.
  - destruct (r_address r <? r_address c).
    + intros x [->|Hx]%elem_of_cons; auto.
    + intros x [->|Hx]%elem_of_cons; [done|]. by eapply IH.
Qed.

(** A hole adds its end to the starts and its start to the ends. *)
Lemma pieces_edges (P Q : Z → Prop) hole l1 c l2 lo :
  wf_from lo (l1 ++ c :: l2) → wf_hole hole → P (r_end hole) → Q (r_address hole) →
  edges P Q (l1 ++ c :: l2) → edges P Q (l1 ++ pieces hole c ++ l2).
Proof.
  intros Hw Hh He Ha Hal x Hx.
  assert (Hcw : wf_region c) by (eapply wf_from_lower; [exact Hw|mem]).
  rewrite !elem_of_app in Hx. destruct Hx as [Hx|[Hx|Hx]]; [apply Hal; mem| |apply Hal; mem].
  destruct (Hal c ltac:(mem)) as [Hca Hce].
  apply (list_elem_of_fmap_2 ext) in Hx. rewrite pieces_ext in Hx by done.
  unfold ext_left, ext_right, ext in Hx. apply elem_of_app in Hx.
  assert (Hmin : Q (Z.min (r_address hole) (r_end c)))
    by (by destruct (Z.min_spec (r_address hole) (r_end c)) as [[_ ->]|[_ ->]]).
  assert (Hmax : P (Z.max (r_end hole) (r_address c)))
    by (by destruct (Z.max_spec (r_end hole) (r_address c)) as [[_ ->]|[_ ->]]).
  destruct (_ <? _), (_ <? _); rewrite ?elem_of_nil, ?list_elem_of_singleton in Hx;
    destruct Hx as [Hx|Hx]; try done; injection Hx as -> -> _; done.
Qed.

Lemma subtract_l_edges (P Q : Z → Prop) hole l lo :
  wf_from lo l → wf_hole hole → P (r_end hole) → Q (r_address hole) →
  edges P Q l → edges P Q (subtract_l hole l).
Proof.
  intros Hw Hh He Ha Hal x (c & Hx & Hc)%list_elem_of_bind.
  destruct (wf_from_lower _ _ _ Hw Hc) as [Hcw _].
  apply (pieces_edges P Q hole [] c [] (r_address c)); try done.
  - intros y ->%list_elem_of_singleton. auto.
  - simpl. by rewrite app_nil_r.
Qed.

(** ** Merged lists are canonical *)

Lemma covers_lower lo l x f : wf_from lo l → covers l x f → lo ≤ x.
Proof.
  intros Hw (c & Hc & _ & Hx). destruct (wf_from_lower _ _ _ Hw Hc) as [_ ?].
  unfold in_region in Hx. lia.
Qed.

(** An address lies in at most one region. *)
Lemma covers_flags lo l x f g : wf_from lo l → covers l x f → covers l x g → f = g.
Proof.
  revert lo. induction l as [|c l IH]; intros lo; [by intros _ []%covers_nil|].
  intros (_ & Hc & Hl). rewrite !covers_cons. unfold in_region.
  intros [[<- Hx]|Hx] [[<- Hy]|Hy]; [done| | |by eapply IH].
  - pose proof (covers_lower _ _ _ _ Hl Hy). lia.
  - pose proof (covers_lower _ _ _ _ Hl Hx). lia.
Qed.

Lemma covers_head c l : wf_region c → covers (c :: l) (r_address c) (r_flags c).
Proof. intros (?&?&?). apply covers_cons. left. split; [done|]. unfold in_region, r_end in *. lia. Qed.

(** When regions with equal flags always merge, a sorted merged list is
    determined by the addresses it covers: the end of its first region is the
    first address that is not covered with the same flags. *)
Lemma head_end_le lo c1 l1 c2 l2 :
  (∀ a b : T, r_flags a = r_flags b → r_pre_merge a b = true) →
  wf_from lo (c1 :: l1) → wf_from lo (c2 :: l2) → coalesced (c1 :: l1) →
  r_address c1 = r_address c2 → r_flags c1 = r_flags c2 →
  (∀ x f, covers (c2 :: l2) x f → covers (c1 :: l1) x f) → r_end c2 ≤ r_end c1.
Proof.
  intros Hpm (_ & Hc1 & Hl1) (_ & Hc2 & Hl2) [Hm _] Ha Hf Hcov.
  destruct (Z.lt_ge_cases (r_end c1) (r_end c2)) as [Hlt|]; [exfalso|done].
  assert (Hx : covers (c1 :: l1) (r_end c1) (r_flags c1)).
  { apply Hcov, covers_cons. left. unfold wf_region, in_region, r_end in *. split; [done|lia]. }
  apply covers_cons in Hx as [[_ Hx]|(d & Hd & Hdf & Hx)]; [unfold in_region in Hx; lia|].
  destruct l1 as [|n l1]; [by apply elem_of_nil in Hd|]. destruct Hl1 as (Hn & Hwn & Hl1).
  apply elem_of_cons in Hd as [->|Hd].
  - apply Hm. split; [apply Hpm; congruence|]. unfold in_region in Hx. lia.
  - destruct (wf_from_lower _ _ _ Hl1 Hd). unfold in_region, wf_region, r_end in *. lia.
Qed.

Lemma covers_tail lo c l x f :
  wf_from lo (c :: l) → covers l x f ↔ covers (c :: l) x f ∧ r_end c ≤ x.
Proof.
  intros (_ & Hc & Hl). rewrite covers_cons. unfold in_region. split.
  - intros Hx. pose proof (covers_lower _ _ _ _ Hl Hx). tauto.
  - intros [[[_ ?]|?] ?]; [lia|done].
Qed.

Lemma coalesced_canonical lo l1 l2 :
  (∀ a b : T, r_flags a = r_flags b → r_pre_merge a b = true) →
  wf_from lo l1 → wf_from lo l2 → coalesced l1 → coalesced l2 →
  (∀ x f, covers l1 x f ↔ covers l2 x f) → ext <$> l1 = ext <$> l2.
Proof.
  intros Hpm. revert lo l2. induction l1 as [|c1 l1 IH]; intros lo [|c2 l2] Hw1 Hw2 Hm1 Hm2 Hcov.
  - done.
  - destruct Hw2 as (_ & Hc2 & _). by pose proof (covers_head c2 l2 Hc2) as []%Hcov%covers_nil.
  - destruct Hw1 as (_ & Hc1 & _). by pose proof (covers_head c1 l1 Hc1) as []%Hcov%covers_nil.
  - pose proof Hw1 as (_ & Hc1 & Hl1). pose proof Hw2 as (_ & Hc2 & Hl2).
    pose proof (proj1 (Hcov _ _) (covers_head c1 l1 Hc1)) as H12.
    pose proof (proj2 (Hcov _ _) (covers_head c2 l2 Hc2)) as H21.
    pose proof (covers_lower (r_address c2) (c2 :: l2) _ _ ltac:(by split) H12).
    pose proof (covers_lower (r_address c1) (c1 :: l1) _ _ ltac:(by split) H21).
    assert (Ha : r_address c1 = r_address c2) by lia.
    assert (Hf : r_flags c1 = r_flags c2).
    { apply covers_cons in H12 as [[? _]|Hx]; [done|].
      pose proof (covers_lower _ _ _ _ Hl2 Hx). unfold wf_region, r_end in *. lia. }
    assert (He : r_end c1 = r_end c2).
    { apply Z.le_antisymm; [eapply (head_end_le lo c2 l2 c1 l1)|eapply (head_end_le lo c1 l1 c2 l2)];
        try done; intros x f; apply Hcov. }
    rewrite !fmap_cons. f_equal; [unfold ext; congruence|].
    apply (IH (r_end c1)); [done|by rewrite He|by destruct Hm1|by destruct Hm2|].
    intros x f. rewrite (covers_tail lo c1 l1), (covers_tail lo c2 l2), Hcov, He by done. done.
Qed.
End Spec.
