(* ===== verification/RangeRefine.v ===== *)
(** * The pointer code of range.h refines the list functions

    [inv s map ps vs fl] describes a state in which [map] denotes the regions
    [vs], held in the structs at [ps], and the free list holds the structs
    [fl].  Each generated function, started in such a state, returns (it
    neither faults nor runs out of iterations) in a state where the map
    denotes the result of the list function, and leaves every other struct
    and every other map alone. *)

From stdpp Require Import base numbers list gmap strings fin_maps.
From S2P Require Import Prelude UtList MemUtil Range RangeSpec.

Section Rep.
Context {T : Type} `{Region T}.
Implicit Types (s : rstate T) (h : gmap Z T) (p q map : Z) (ps fl : list Z) (vs : list T).

(** The values at [ps], links apart, are [vs]. *)
Definition data_at h ps vs : Prop := Forall2 (λ q v, ll_data <$> h !! q = Some v) ps vs.

Definition map_rep s map ps vs : Prop :=
  ∃ p, maps s !! map = Some p ∧ ll_rep (heap s) p ps ∧ data_at (heap s) ps vs.

(** The free list is intact and every struct lies below the static break. *)
Definition pool_inv s fl : Prop :=
  ll_rep (heap s) (free_regions s) fl ∧
  (∀ q, is_Some (heap s !! q) → 0 < q < memory_start (lay s)) ∧
  0 < memory_start (lay s) ≤ memory_end (lay s) ∧ memory_end (lay s) < W32 - 4.

Definition inv s map ps vs fl : Prop :=
  map_rep s map ps vs ∧ pool_inv s fl ∧ (∀ q, q ∈ ps → q ∉ fl).

(** Structs outside [X] and maps other than [map] are as before. *)
Definition frame (X : list Z) map s s' : Prop :=
  (∀ q, is_Some (heap s !! q) → q ∉ X → heap s' !! q = heap s !! q) ∧
  (∀ m, m ≠ map → maps s' !! m = maps s !! m).

Lemma frame_trans X Y W map s1 s2 s3 :
  frame X map s1 s2 → frame Y map s2 s3 →
  (∀ q, q ∈ X → q ∈ W) → (∀ q, q ∈ Y → is_Some (heap s1 !! q) → q ∈ W) →
  frame W map s1 s3.
Proof.
  intros [H1 M1] [H2 M2] HX HY. split.
  - intros q Hq HW. rewrite <- H1 by (auto; set_solver). apply H2; [|intros ?; apply HW; auto].
    rewrite H1; auto.
  - intros m Hm. rewrite M2, M1; done.
Qed.

(** Like [frame_trans], for writes to structs that are new or in [W]. *)
Lemma frame_absorb X Y W map s1 s2 s3 :
  frame X map s1 s2 → frame Y map s2 s3 →
  (∀ q, q ∈ X → is_Some (heap s1 !! q) → q ∈ W) → (∀ q, q ∈ Y → is_Some (heap s1 !! q) → q ∈ W) →
  frame W map s1 s3.
Proof.
  intros [H1 M1] [H2 M2] HX HY. split.
  - intros q Hq HW. assert (q ∉ X) by (intros ?; apply HW; auto).
    assert (q ∉ Y) by (intros ?; apply HW; auto). rewrite H2; rewrite ?H1; auto.
  - intros m Hm. rewrite M2, M1; done.
Qed.

Lemma frame_mono X W map s1 s2 : frame X map s1 s2 → (∀ q, q ∈ X → q ∈ W) → frame W map s1 s2.
Proof. intros [H1 M1] HX. split; [|done]. intros q Hq HW. apply H1; [done|]. auto. Qed.

Lemma data_at_fmap h h' ps vs :
  (∀ q, q ∈ ps → ll_data <$> h' !! q = ll_data <$> h !! q) → data_at h ps vs → data_at h' ps vs.
Proof.
  intros He Hd. induction Hd as [|q v ps vs Hq Hd IH]; constructor.
  - rewrite He; [done|by left].
  - apply IH. intros; apply He; by right.
Qed.

Lemma data_at_app h ps1 ps2 vs1 vs2 :
  data_at h ps1 vs1 → data_at h ps2 vs2 → data_at h (ps1 ++ ps2) (vs1 ++ vs2).
Proof. apply Forall2_app. Qed.

Lemma data_at_lookup h ps1 q ps2 vs1 v vs2 :
  length ps1 = length vs1 → data_at h (ps1 ++ q :: ps2) (vs1 ++ v :: vs2) →
  ∃ n, h !! q = Some n ∧ ll_data n = v.
Proof.
  intros Hl Hd. apply Forall2_app_inv in Hd as [_ Hd]; [|done].
  apply Forall2_cons in Hd as [Hq _]. destruct (h !! q) as [n|]; simpl in Hq; [|done].
  exists n. split; [done|congruence].
Qed.

(** The fields the code looks at do not depend on links. *)
Lemma r_address_data (n : T) : r_address (ll_data n) = r_address n.
Proof. apply r_address_set_next. Qed.
Lemma r_size_data (n : T) : r_size (ll_data n) = r_size n.
Proof. apply r_size_set_next. Qed.
Lemma r_flags_data (n : T) : r_flags (ll_data n) = r_flags n.
Proof. apply r_flags_set_next. Qed.
Lemma ll_data_set_address x (n : T) : ll_data (r_set_address x n) = r_set_address x (ll_data n).
Proof. unfold ll_data. by rewrite r_set_address_next. Qed.
Lemma ll_data_set_size x (n : T) : ll_data (r_set_size x n) = r_set_size x (ll_data n).
Proof. unfold ll_data. by rewrite r_set_size_next. Qed.
Lemma ll_data_idemp (n : T) : ll_data (ll_data n) = ll_data n.
Proof. apply ll_set_set. Qed.

Lemma merge_output_data (a b : T) : merge_output (ll_data a) (ll_data b) = merge_output a b.
Proof. unfold merge_output. by rewrite !r_address_data, !r_size_data. Qed.

Lemma merge_data (a b : T) :
  merge (ll_data a) (ll_data b) = ((merge a b).1, ll_data (merge a b).2).
Proof.
  unfold merge.
  rewrite (r_pre_merge_congr (ll_data a) a (ll_data b) b) by apply r_flags_data.
  destruct (r_pre_merge a b); [simpl|done]. rewrite !r_address_data.
  destruct (r_address b <? r_address a); rewrite merge_output_data;
    destruct (merge_output _ _) as [[??]|]; simpl; try done;
    by rewrite ll_data_set_size, ll_data_set_address.
Qed.

Lemma merge_next (a b : T) : ll_next (merge a b).2 = ll_next a.
Proof.
  unfold merge. destruct (r_pre_merge a b); simpl; [|done].
  destruct (r_address b <? r_address a); destruct (merge_output _ _) as [[??]|]; simpl; try done;
    by autorewrite with region.
Qed.

Lemma cut_data (a hole : T) :
  cut (ll_data a) hole = ((cut a hole).1.1, ll_data (cut a hole).1.2, (cut a hole).2).
Proof.
  unfold cut. rewrite !r_address_data, !r_size_data.
  repeat case_match; simpl; by rewrite ?ll_data_set_size, ?ll_data_set_address.
Qed.

Lemma cut_next (a hole : T) : ll_next (cut a hole).1.2 = ll_next a.
Proof. unfold cut. repeat case_match; simpl; by autorewrite with region. Qed.

(** Heap accesses of the state monad. *)
Lemma on_heap_ok {A} (m : M (gmap Z T) A) s a h :
  m (heap s) = Ret a h → on_heap m s = Ret a (set_heap h s).
Proof. intros E. unfold on_heap. by rewrite (zoom_ret _ _ _ _ _ _ E). Qed.

Lemma set_heap_id s : set_heap (heap s) s = s.
Proof. by destruct s. Qed.

Lemma on_load_ok s p n : heap s !! p = Some n → on_heap (load p) s = Ret n s.
Proof. intros Hn. rewrite (on_heap_ok _ _ _ _ (load_ok _ _ _ Hn)). by rewrite set_heap_id. Qed.

Lemma on_store_ok s p n m :
  heap s !! p = Some n → on_heap (store p m) s = Ret tt (set_heap (<[p := m]> (heap s)) s).
Proof. intros Hn. apply on_heap_ok. by apply store_ok with n. Qed.

Lemma get_regions_ok s map p : maps s !! map = Some p → get_regions map s = Ret p s.
Proof. intros Hm. unfold get_regions. by rewrite Hm. Qed.

Lemma set_regions_ok s map p q :
  maps s !! map = Some p → set_regions map q s = Ret tt (set_maps (<[map := q]> (maps s)) s).
Proof. intros Hm. unfold set_regions. by rewrite Hm. Qed.

Lemma links_only_data X h h' q : links_only X h h' → ll_data <$> h' !! q = ll_data <$> h !! q.
Proof. intros Hl. apply Hl. Qed.

Lemma links_only_dom X h h' q : links_only X h h' → is_Some (h' !! q) ↔ is_Some (h !! q).
Proof. intros Hl. by rewrite <- (fmap_is_Some ll_data), (links_only_data X h h' q Hl), fmap_is_Some. Qed.

(** The state after a list macro has relinked nodes and a new head was stored. *)
Lemma relink_inv s map p p' X ps' vs' fl h' :
  pool_inv s fl → maps s !! map = Some p →
  links_only X (heap s) h' → (∀ q, q ∈ X → q ∉ fl) →
  ll_rep h' p' ps' → data_at (heap s) ps' vs' → (∀ q, q ∈ ps' → q ∉ fl) →
  let s' := set_maps (<[map := p']> (maps s)) (set_heap h' s) in
  inv s' map ps' vs' fl ∧ frame X map s s'.
Proof.
  intros (Hfl & Hb & Hlay) Hp Hl HX Hr Hd Hdis. simpl. split.
  - split_and!; simpl; [exists p'; simpl|split_and!; simpl|done].
    + split_and!; [apply lookup_insert_eq|done|].
      eapply data_at_fmap; [|done]. intros q _. by apply (links_only_data X).
    + eapply ll_rep_frame_links; [done| |done]. intros q Hq HqX. by apply (HX q).
    + intros q Hq. apply Hb. by apply (links_only_dom X (heap s) h').
    + lia.
    + lia.
    + lia.
  - split; simpl.
    + intros q _ Hq. by apply Hl.
    + intros m Hne. by rewrite lookup_insert_ne.
Qed.
End Rep.

(** ** Several maps in one heap

    The maps of one kind share the heap and the free list.  [maps_inv s ms]
    says that every map [m] of [ms] denotes the list [ms !! m], on structs of
    its own.  It hides the structs: this is how the clients of allocator.c and
    vm_map.c see them. *)
Section Maps.
Context {T : Type} `{Region T}.
Implicit Types (s : rstate T) (ms : gmap Z (list T)) (m : Z) (ps fl : list Z) (vs : list T).

Definition maps_inv_at s ms (pss : gmap Z (list Z)) fl : Prop :=
  pool_inv s fl ∧
  (∀ m vs, ms !! m = Some vs → ∃ ps, pss !! m = Some ps ∧ inv s m ps vs fl) ∧
  (∀ m m' ps ps' x, m ≠ m' → pss !! m = Some ps → pss !! m' = Some ps' → x ∈ ps → x ∉ ps') ∧
  (∀ m, is_Some (pss !! m) → is_Some (ms !! m)).

Definition maps_inv s ms : Prop := ∃ pss fl, maps_inv_at s ms pss fl.

Lemma maps_inv_lookup s ms m vs :
  maps_inv s ms → ms !! m = Some vs → ∃ pss ps fl, maps_inv_at s ms pss fl ∧ pss !! m = Some ps ∧ inv s m ps vs fl.
Proof.
  intros (pss & fl & Hm) Hms. pose proof Hm as (_ & Hi & _). destruct (Hi _ _ Hms) as (ps & ? & ?).
  by exists pss, ps, fl.
Qed.

(** A list of another map survives an operation on [m]. *)
Lemma inv_other s s' m m' ps ps' vs' (qs : list Z) (ws : list T) fl fl' :
  inv s m' qs ws fl → frame (ps ++ fl) m s s' → m' ≠ m → inv s' m ps' vs' fl' →
  (∀ x, x ∈ qs → x ∉ ps) → (∀ x, x ∈ ps' ++ fl' → x ∈ ps ++ fl ∨ heap s !! x = None) →
  inv s' m' qs ws fl' ∧ (∀ x, x ∈ qs → x ∉ ps').
Proof.
  intros ((p & Hp & Hr & Hd) & _ & Hdis) [Hf Hm] Hne (_ & Hpool & _) Hqp Hown.
  assert (Hout : ∀ x, x ∈ qs → x ∉ ps ++ fl).
  { intros x Hx [?|?]%elem_of_app; [by apply (Hqp x)|by apply (Hdis x)]. }
  assert (Hsame : ∀ x, x ∈ qs → heap s' !! x = heap s !! x).
  { intros x Hx. apply Hf; [by eapply ll_rep_lookup|auto]. }
  assert (Hnew : ∀ x, x ∈ qs → x ∉ ps' ++ fl').
  { intros x Hx Hin. destruct (Hown x Hin) as [?|Hn]; [by apply (Hout x)|].
    destruct (ll_rep_lookup _ _ _ _ Hr Hx) as [_ [? ?]]. congruence. }
  split; [split; [|split; [done|]]|].
  - exists p. rewrite Hm by done. split_and!; [done| |].
    + eapply ll_rep_frame; [|done]. exact Hsame.
    + eapply data_at_fmap; [|done]. intros x Hx. by rewrite Hsame.
  - intros x Hx Hin. apply (Hnew x Hx), elem_of_app. by right.
  - intros x Hx Hin. apply (Hnew x Hx), elem_of_app. by left.
Qed.

Lemma maps_inv_update s s' ms m pss ps vs vs' ps' fl fl' :
  maps_inv_at s ms pss fl → pss !! m = Some ps → ms !! m = Some vs →
  inv s' m ps' vs' fl' → frame (ps ++ fl) m s s' →
  (∀ x, x ∈ ps' ++ fl' → x ∈ ps ++ fl ∨ heap s !! x = None) →
  maps_inv s' (<[m := vs']> ms).
Proof.
  intros (Hpool & Hi & Hdis & Hdom) Hps Hms Hinv' Hf Hown.
  assert (Hkeep : ∀ m' qs ws, m' ≠ m → pss !! m' = Some qs → ms !! m' = Some ws →
    inv s' m' qs ws fl' ∧ (∀ x, x ∈ qs → x ∉ ps')).
  { intros m' qs ws Hne Hqs Hws. destruct (Hi _ _ Hws) as (qs' & Hqs' & Hinv). simplify_eq.
    apply (inv_other s s' m m' ps ps' vs' qs ws fl fl'); try done. intros x. by apply (Hdis m' m). }
  exists (<[m := ps']> pss), fl'. split; [by destruct Hinv' as (_ & ? & _)|]. split; [|split].
  - intros m' ws. destruct (decide (m' = m)) as [->|Hne].
    + rewrite !lookup_insert_eq. intros [= <-]. by exists ps'.
    + rewrite !lookup_insert_ne by done. intros Hws. destruct (Hi _ _ Hws) as (qs & Hqs & _).
      exists qs. split; [done|]. by eapply Hkeep.
  - assert (Hkeep' : ∀ m' qs, m' ≠ m → pss !! m' = Some qs → ∀ x, x ∈ qs → x ∉ ps').
    { intros m' qs Hne Hqs. destruct (Hdom m') as [ws Hws]; [by eexists|]. by eapply Hkeep. }
    intros m1 m2 qs1 qs2 x Hne. destruct (decide (m1 = m)) as [->|H1], (decide (m2 = m)) as [->|H2];
      rewrite ?lookup_insert_eq, ?lookup_insert_ne by done; try done.
    + intros [= <-] Hq2 Hx Hx2. exact (Hkeep' m2 qs2 H2 Hq2 x Hx2 Hx).
    + intros Hq1 [= <-] Hx. exact (Hkeep' m1 qs1 H1 Hq1 x Hx).
    + intros Hq1 Hq2. by apply (Hdis m1 m2).
  - intros m'. destruct (decide (m' = m)) as [->|Hne].
    + rewrite !lookup_insert_eq. intros _. by eexists.
    + rewrite !lookup_insert_ne by done. apply Hdom.
Qed.

(** The layout may grow under the heap's feet. *)
Lemma maps_inv_set_lay s ms l :
  maps_inv s ms → memory_start (lay s) ≤ memory_start l → memory_start l ≤ memory_end l → memory_end l < W32 - 4 →
  maps_inv (set_lay l s) ms.
Proof.
  intros (pss & fl & (Hpool & Hi & Hrest)) H1 H2 H3.
  assert (Hp : ∀ fl, pool_inv s fl → pool_inv (set_lay l s) fl).
  { intros fl0 (Hr & Hb & Hl0). split; [done|]. simpl. split; [|lia].
    intros q Hq. specialize (Hb q Hq). lia. }
  exists pss, fl. split; [by apply Hp|]. split; [|done].
  intros m vs Hm. destruct (Hi m vs Hm) as (ps & ? & (Hmr & ? & ?)). exists ps. split; [done|].
  split; [exact Hmr|split; [by apply Hp|done]].
Qed.
End Maps.

(** ** What the instantiating file promises *)

(** A region struct can be obtained: one is on the free list or there is room
    for one more below the static break. *)
Definition struct_room {T} (sizeof : Z) (s : rstate T) : Prop :=
  free_regions s ≠ NULL ∨ static_room (lay s) sizeof 4.

(** [region_alloc] delivers a struct that nothing else uses, and [region_free]
    takes one back. *)
Class RegionPool (T : Type) `{Region T} `{RegionAlloc T} := {
  region_sizeof : Z;
  region_sizeof_pos : 0 < region_sizeof;
  region_alloc_spec : ∀ s fl,
    pool_inv s fl → struct_room region_sizeof s →
    ∃ p n s' fl', region_alloc s = Ret p s' ∧ p ≠ NULL ∧ heap s' !! p = Some n ∧
      pool_inv s' fl' ∧ maps s' = maps s ∧ p ∉ fl' ∧
      (p ∈ fl ∨ heap s !! p = None) ∧ (∀ q, q ∈ fl' → q ∈ fl) ∧
      (∀ q, q ≠ p → heap s' !! q = heap s !! q) ∧
      lay_grows (region_sizeof + 3) (lay s) (lay s');
  region_free_spec : ∀ s fl p n,
    pool_inv s fl → p ≠ NULL → p ∉ fl → heap s !! p = Some n →
    ∃ s', region_free p s = Ret tt s' ∧ pool_inv s' (p :: fl) ∧
      maps s' = maps s ∧ lay s' = lay s ∧ links_only [p] (heap s) (heap s')
}.

Section Refine.
Context {T : Type} `{RegionPool T}.
Implicit Types (s : rstate T) (h : gmap Z T) (p q map : Z) (ps fl : list Z) (vs : list T).

(** ** Insert *)

(** [LL_APPEND(map->regions, elem)] *)
Lemma append_spec s map ps vs fl elem ve :
  inv s map ps vs fl → elem ≠ NULL → elem ∉ ps → elem ∉ fl →
  ll_data <$> heap s !! elem = Some ve →
  ∃ s', (head ← get_regions map; head ← on_heap (LL_APPEND head elem);
         set_regions map head) s = Ret tt s' ∧
    inv s' map (ps ++ [elem]) (vs ++ [ve]) fl ∧ frame (elem :: ps) map s s' ∧
    lay s' = lay s ∧ free_regions s' = free_regions s.
Proof.
  intros ((p & Hp & Hr & Hd) & Hpool & Hdis) He Hne Hnf Hve.
  destruct (heap s !! elem) as [ne|] eqn:Hel; [|done]. step (get_regions_ok _ _ _ Hp).
  destruct (LL_APPEND_spec (heap s) p ps elem ne) as (p' & h' & E & Hr' & Hlk); try done.
  step (on_heap_ok _ s _ _ E). erewrite set_regions_ok by exact Hp.
  destruct (relink_inv s map p p' (elem :: ps) (ps ++ [elem]) (vs ++ [ve]) fl h')
    as [Hi Hf]; try done.
  - set_solver.
  - apply data_at_app; [done|]. constructor; [by rewrite Hel|constructor].
  - set_solver.
  - eexists. split_and!; done.
Qed.

(** [LL_PREPEND_ELEM(map->regions, c, elem)] *)
Lemma prepend_elem_spec s map pre c suf vpre vc vsuf fl elem ve :
  inv s map (pre ++ c :: suf) (vpre ++ vc :: vsuf) fl → length pre = length vpre →
  elem ≠ NULL → elem ∉ pre ++ c :: suf → elem ∉ fl → ll_data <$> heap s !! elem = Some ve →
  ∃ s', (head ← get_regions map; head ← on_heap (LL_PREPEND_ELEM head c elem);
         set_regions map head) s = Ret tt s' ∧
    inv s' map (pre ++ elem :: c :: suf) (vpre ++ ve :: vc :: vsuf) fl ∧
    frame (elem :: pre) map s s' ∧ lay s' = lay s ∧ free_regions s' = free_regions s.
Proof.
  intros ((p & Hp & Hr & Hd) & Hpool & Hdis) Hlen He Hne Hnf Hve.
  destruct (heap s !! elem) as [ne|] eqn:Hel; [|done]. step (get_regions_ok _ _ _ Hp).
  destruct (LL_PREPEND_ELEM_spec (heap s) p pre c suf elem ne) as (p' & h' & E & Hr' & Hlk); try done.
  step (on_heap_ok _ s _ _ E). erewrite set_regions_ok by exact Hp.
  destruct (relink_inv s map p p' (elem :: pre) (pre ++ elem :: c :: suf)
    (vpre ++ ve :: vc :: vsuf) fl h') as [Hi Hf]; try done.
  - set_solver.
  - apply Forall2_app_inv in Hd as [Hd1 Hd2]; [|done].
    apply data_at_app; [done|]. constructor; [by rewrite Hel|done].
  - set_solver.
  - eexists. split_and!; done.
Qed.

Lemma insert_loop_spec fuel map elem ve s cur pre suf vpre vsuf fl :
  inv s map (pre ++ suf) (vpre ++ vsuf) fl → length pre = length vpre →
  elem ≠ NULL → elem ∉ pre ++ suf → elem ∉ fl → ll_data <$> heap s !! elem = Some ve →
  ll_rep (heap s) cur suf → (length suf < fuel)%nat →
  let k := insert_pos ve vsuf in
  ∃ s', insert_loop fuel map elem cur s = Ret tt s' ∧
    inv s' map (pre ++ take k suf ++ elem :: drop k suf)
      (vpre ++ take k vsuf ++ ve :: drop k vsuf) fl ∧
    frame (elem :: pre ++ suf) map s s' ∧ lay s' = lay s ∧ free_regions s' = free_regions s.
Proof.
  intros Hinv Hlen He Hne Hnf Hve. revert fuel cur pre vpre vsuf Hinv Hlen Hne.
  induction suf as [|c suf IH]; intros fuel cur pre vpre vsuf Hinv Hlen Hne Hcur Hfuel;
    pose proof Hinv as ((p & Hp & Hr & Hd) & Hpool & Hdis);
    pose proof (Forall2_length _ _ _ Hd) as Hl; rewrite !length_app in Hl; simpl in Hl;
    (destruct fuel as [|fuel]; [simpl in Hfuel; lia|]); simpl;
    destruct (heap s !! elem) as [ne|] eqn:Hel; simpl in Hve; try discriminate Hve.
  - destruct vsuf; simpl in Hl; [|lia]. simpl. rewrite !app_nil_r in *.
    rewrite Hcur, Z.eqb_refl. by apply append_spec; rewrite ?Hel.
  - destruct vsuf as [|vc vsuf]; simpl in Hl; [lia|].
    destruct Hcur as (-> & Hc0 & nc & Hnc & Hsuf). rewrite (proj2 (Z.eqb_neq _ _) Hc0).
    step (on_load_ok _ _ _ Hel). step (on_load_ok _ _ _ Hnc).
    destruct (data_at_lookup _ _ _ _ _ _ _ Hlen Hd) as (nc' & Hnc' & Hvc). simplify_eq.
    simpl. rewrite !r_address_data.
    destruct (r_address ne <? r_address nc) eqn:Ecmp; simpl.
    + destruct (prepend_elem_spec _ _ _ _ _ _ _ _ _ elem (ll_data ne) Hinv Hlen)
        as (s' & E & Hi & Hf & ? & ?); rewrite ?Hel; try done.
      eexists; split_and!; try done. eapply frame_mono; [exact Hf|mem].
    + destruct (IH fuel (ll_next nc) (pre ++ [c]) (vpre ++ [ll_data nc]) vsuf)
        as (s' & E & Hi & Hf & Hlay & Hfr);
        rewrite <- ?app_assoc in *; simpl in *; try done.
      * rewrite !length_app. simpl. lia.
      * lia.
      * by eexists.
Qed.

Lemma region_insert_spec map elem ve s ps vs fl :
  inv s map ps vs fl → elem ≠ NULL → elem ∉ ps → elem ∉ fl →
  ll_data <$> heap s !! elem = Some ve →
  let k := insert_pos ve vs in
  ∃ s', region_insert map elem s = Ret tt s' ∧
    inv s' map (take k ps ++ elem :: drop k ps) (take k vs ++ ve :: drop k vs) fl ∧
    frame (elem :: ps) map s s' ∧ lay s' = lay s ∧ free_regions s' = free_regions s.
Proof.
  intros Hinv He Hne Hnf Hve k. pose proof Hinv as ((p & Hp & Hr & Hd) & _).
  unfold region_insert. step (eq_refl : fuel_of s = Ret (S (size (heap s))) s).
  step (get_regions_ok _ _ _ Hp). pose proof (ll_rep_fuel _ _ _ Hr).
  apply (insert_loop_spec _ _ _ _ _ _ [] ps [] vs); try done. lia.
Qed.

(** ** Cutting a hole into one region of the list *)

(** Writing a struct of the list, links unchanged. *)
Lemma store_inv s map pre q suf vpre v vsuf fl n n' :
  inv s map (pre ++ q :: suf) (vpre ++ v :: vsuf) fl → length pre = length vpre →
  heap s !! q = Some n → ll_next n' = ll_next n →
  let s' := set_heap (<[q := n']> (heap s)) s in
  inv s' map (pre ++ q :: suf) (vpre ++ ll_data n' :: vsuf) fl ∧ frame [q] map s s'.
Proof.
  intros ((p & Hp & Hr & Hd) & (Hfl & Hb & Hlay) & Hdis) Hlen Hn Hnx. simpl.
  pose proof (ll_rep_nodup _ _ _ Hr) as Hnd. apply NoDup_split in Hnd as (Hq1 & Hq2 & _ & _).
  assert (Hne : ∀ x, x ≠ q → <[q:=n']> (heap s) !! x = heap s !! x).
  { intros x Hx. by rewrite lookup_insert_ne. }
  split.
  - split_and!; simpl; [exists p; split_and!; simpl|split_and!; simpl|done].
    + done.
    + by eapply ll_rep_update.
    + apply Forall2_app_inv in Hd as [Hd1 Hd2]; [|done]. apply Forall2_cons in Hd2 as [_ Hd2].
      apply data_at_app; [|constructor; [by rewrite lookup_insert_eq|]];
        (eapply data_at_fmap; [|done]); intros x Hx; rewrite Hne; set_solver.
    + by eapply ll_rep_update.
    + intros x Hx. apply Hb. destruct (decide (x = q)) as [->|]; [by eexists|].
      by rewrite lookup_insert_ne in Hx.
    + lia.
    + lia.
    + lia.
  - split; simpl; [|done]. intros x _ Hx. apply Hne. set_solver.
Qed.

(** Writing a struct that is in neither list. *)
Lemma store_other_inv s map ps vs fl q n n' :
  inv s map ps vs fl → q ∉ ps → q ∉ fl → heap s !! q = Some n →
  let s' := set_heap (<[q := n']> (heap s)) s in inv s' map ps vs fl ∧ frame [q] map s s'.
Proof.
  intros ((p & Hp & Hr & Hd) & (Hfl & Hb & Hlay) & Hdis) Hq1 Hq2 Hn. simpl.
  assert (Hne : ∀ x, x ≠ q → <[q:=n']> (heap s) !! x = heap s !! x).
  { intros x Hx. by rewrite lookup_insert_ne. }
  split.
  - split_and!; simpl; [exists p; split_and!; simpl|split_and!; simpl|done].
    + done.
    + eapply ll_rep_frame; [|done]. intros x Hx. apply Hne. set_solver.
    + eapply data_at_fmap; [|done]. intros x Hx. rewrite Hne; set_solver.
    + eapply ll_rep_frame; [|done]. intros x Hx. apply Hne. set_solver.
    + intros x Hx. apply Hb. destruct (decide (x = q)) as [->|]; [by eexists|].
      by rewrite Hne in Hx.
    + lia.
    + lia.
    + lia.
  - split; simpl; [|done]. intros x _ Hx. apply Hne. set_solver.
Qed.

Lemma update_other_spec s map ps vs fl q n (f : T → T) :
  inv s map ps vs fl → q ∉ ps → q ∉ fl → heap s !! q = Some n →
  ∃ s', on_heap (update q f) s = Ret tt s' ∧ inv s' map ps vs fl ∧ frame [q] map s s' ∧
    heap s' !! q = Some (f n) ∧ lay s' = lay s.
Proof.
  intros Hinv Hq1 Hq2 Hn. destruct (store_other_inv _ _ _ _ _ _ _ (f n) Hinv Hq1 Hq2 Hn) as [Hi Hf].
  eexists. split; [apply on_heap_ok, update_ok, Hn|]. split_and!; try done.
  simpl. by rewrite lookup_insert_eq.
Qed.

(** Taking a struct from the pool leaves the map alone. *)
Lemma alloc_inv s map ps vs fl :
  inv s map ps vs fl → struct_room region_sizeof s →
  ∃ np n s' fl', region_alloc s = Ret np s' ∧ np ≠ NULL ∧ heap s' !! np = Some n ∧
    inv s' map ps vs fl' ∧ np ∉ ps ∧ np ∉ fl' ∧ (np ∈ fl ∨ heap s !! np = None) ∧
    (∀ q, q ∈ fl' → q ∈ fl) ∧ frame [np] map s s' ∧ maps s' = maps s ∧
    lay_grows (region_sizeof + 3) (lay s) (lay s').
Proof.
  intros ((p & Hp & Hr & Hd) & Hpool & Hdis) Hroom.
  destruct (region_alloc_spec s fl Hpool Hroom)
    as (np & n & s' & fl' & E & Hnp & Hn & Hpool' & Hmaps & Hnf & Hfresh & Hsub & Hh & Hg).
  assert (Hps : np ∉ ps).
  { intros Hin. destruct Hfresh as [Hf|Hf]; [by apply (Hdis np)|].
    destruct (ll_rep_lookup _ _ _ _ Hr Hin) as [_ [? ?]]. congruence. }
  exists np, n, s', fl'. split_and!; try done.
  - split; [|split; [done|set_solver]].
    exists p. rewrite Hmaps. split_and!; [done| |].
    + eapply ll_rep_frame; [|done]. intros q Hq. apply Hh. by intros ->.
    + eapply data_at_fmap; [|done]. intros q Hq. rewrite Hh; [done|]. by intros ->.
  - split; [|intros m _; by rewrite Hmaps]. intros q _ Hq. apply Hh. set_solver.
Qed.

(** [LL_DELETE(map->regions, region); name##_free(region)] *)
Lemma delete_free_spec s map pre q suf vpre v vsuf fl :
  inv s map (pre ++ q :: suf) (vpre ++ v :: vsuf) fl → length pre = length vpre →
  ∃ s', (head ← get_regions map; head ← on_heap (LL_DELETE head q);
         set_regions map head;; region_free q) s = Ret tt s' ∧
    inv s' map (pre ++ suf) (vpre ++ vsuf) (q :: fl) ∧
    frame (q :: pre) map s s' ∧ lay s' = lay s ∧
    (∀ x, ll_data <$> heap s' !! x = ll_data <$> heap s !! x).
Proof.
  intros ((p & Hp & Hr & Hd) & Hpool & Hdis) Hlen.
  pose proof (ll_rep_nodup _ _ _ Hr) as Hnd. apply NoDup_split in Hnd as (Hq1 & Hq2 & _ & _).
  destruct (ll_rep_lookup _ _ _ q Hr ltac:(set_solver)) as [Hq0 [n Hn]].
  step (get_regions_ok _ _ _ Hp).
  destruct (LL_DELETE_spec _ _ _ _ _ Hr) as (p' & h' & E & Hr' & Hlk).
  step (on_heap_ok _ s _ _ E).
  destruct (relink_inv s map p p' pre (pre ++ suf) (vpre ++ vsuf) fl h') as [Hi Hf]; try done.
  - set_solver.
  - apply Forall2_app_inv in Hd as [Hd1 Hd2]; [|done]. apply Forall2_cons in Hd2 as [_ Hd2].
    by apply data_at_app.
  - set_solver.
  - step (set_regions_ok (set_heap h' s) _ _ p' Hp).
    simpl in *. set (s1 := set_maps (<[map:=p']> (maps s)) (set_heap h' s)) in *.
    destruct (links_only_dom _ _ _ q Hlk) as [_ [n1 Hn1]]; [by eexists|].
    destruct Hi as ((p1 & Hp1 & Hr1 & Hd1) & Hpool1 & Hdis1).
    destruct (region_free_spec s1 fl q n1) as (s2 & E2 & Hpool2 & Hm2 & Hl2 & Hlk2); try done.
    { set_solver. }
    exists s2. split; [done|]. split_and!; try done.
    + split; [|split; [done|set_solver]].
      exists p1. rewrite Hm2. split_and!; [done| |].
      * eapply ll_rep_frame_links; [done| |done]. set_solver.
      * eapply data_at_fmap; [|done]. intros x _. by apply (links_only_data [q]).
    + eapply frame_trans; [exact Hf|split; [|intros; by rewrite Hm2]| |].
      * intros x _ Hx. by apply Hlk2.
      * set_solver.
      * set_solver.
    + intros x. rewrite (links_only_data [q] _ _ x Hlk2). by apply (links_only_data pre).
Qed.

Lemma inv_length s map ps vs fl : inv s map ps vs fl → length ps = length vs.
Proof. intros ((p & _ & _ & Hd) & _). by apply Forall2_length in Hd. Qed.

Lemma inv_lookup s map pre q suf vpre v vsuf fl :
  inv s map (pre ++ q :: suf) (vpre ++ v :: vsuf) fl → length pre = length vpre →
  ∃ n, heap s !! q = Some n ∧ ll_data n = v.
Proof. intros ((p & _ & _ & Hd) & _) Hlen. by eapply data_at_lookup. Qed.

Lemma inv_some s map ps vs fl q : inv s map ps vs fl → q ∈ ps → is_Some (heap s !! q).
Proof. intros ((p & _ & Hr & _) & _) Hq. by eapply ll_rep_lookup. Qed.

Lemma inv_fl_some s map ps vs fl q : inv s map ps vs fl → q ∈ fl → is_Some (heap s !! q).
Proof. intros (_ & (Hr & _) & _) Hq. by eapply ll_rep_lookup. Qed.

(** The part of [cut_and_stitch] that inserts the second piece. *)
Lemma stitch_spec s map pre q suf vpre a vsuf fl (addr size : Z) :
  let piece := r_set_size size (r_set_address addr a) in
  inv s map (pre ++ q :: suf) (vpre ++ a :: vsuf) fl → length pre = length vpre →
  struct_room region_sizeof s →
  insert_pos piece (vpre ++ a :: vsuf) = S (length vpre) →
  ∃ s' np fl', (new_piece ← region_alloc; r ← on_heap (load q);
      on_heap (store new_piece (r_set_size size (r_set_address addr r)));;
      region_insert map new_piece) s = Ret tt s' ∧
    inv s' map (pre ++ q :: np :: suf) (vpre ++ a :: piece :: vsuf) fl' ∧
    (np ∈ fl ∨ heap s !! np = None) ∧ (∀ x, x ∈ fl' → x ∈ fl) ∧
    frame (pre ++ q :: suf ++ fl) map s s' ∧ lay_grows (region_sizeof + 3) (lay s) (lay s').
Proof.
  intros piece Hinv Hlen Hroom Hpos.
  destruct (alloc_inv _ _ _ _ _ Hinv Hroom)
    as (np & n & s1 & fl' & E & Hnp & Hn & Hinv1 & Hps & Hnf & Hfresh & Hsub & Hf1 & Hmaps & Hg).
  step E.
  destruct (inv_lookup _ _ _ _ _ _ _ _ _ Hinv1 Hlen) as (nq & Hq & Hda).
  step (on_load_ok _ _ _ Hq). step (on_store_ok s1 np n (r_set_size size (r_set_address addr nq)) Hn).
  destruct (store_other_inv s1 map _ _ fl' np n (r_set_size size (r_set_address addr nq)) Hinv1 Hps Hnf Hn)
    as [Hinv2 Hf2].
  set (s2 := set_heap _ s1) in *.
  destruct (region_insert_spec map np piece s2 _ _ fl' Hinv2) as (s3 & E3 & Hinv3 & Hf3 & Hl3 & _); try done.
  { simpl. rewrite lookup_insert_eq. simpl. by rewrite ll_data_set_size, ll_data_set_address, Hda. }
  rewrite Hpos in Hinv3.
  rewrite !take_S_middle, !drop_S_middle, <- !app_assoc in Hinv3 by done. simpl in Hinv3.
  exists s3, np, fl'. split_and!; try done; [|by rewrite Hl3].
  assert (Hnps : ∀ x, x ∈ [np] → is_Some (heap s !! x) → x ∈ pre ++ q :: suf ++ fl).
  { intros x ->%list_elem_of_singleton [? ?]. destruct Hfresh; [set_solver|congruence]. }
  assert (frame (pre ++ q :: suf ++ fl) map s s2) as Hf12.
  { destruct Hf1 as [Hf1 Hm1], Hf2 as [Hf2 Hm2]. split; [|intros m Hm; by rewrite Hm2, Hm1].
    intros x Hx HX. assert (x ∉ [np]) by (intros Hin; apply HX; auto).
    rewrite Hf2; [by apply Hf1| |done]. by rewrite Hf1. }
  eapply frame_trans; [exact Hf12|exact Hf3|done|].
  intros x [->|Hx]%elem_of_cons Hs; [apply Hnps; [by left|done]|set_solver].
Qed.

(** The part of [cut_and_stitch] that drops a region cut down to nothing. *)
Lemma drop_empty_spec s map pre q suf vpre a vsuf fl :
  inv s map (pre ++ q :: suf) (vpre ++ a :: vsuf) fl → length pre = length vpre →
  let keep := negb (r_size a =? 0) in
  ∃ s' fl', (r ← on_heap (load q);
      if r_size r =? 0 then
        head ← get_regions map; head ← on_heap (LL_DELETE head q);
        set_regions map head;; region_free q
      else mret tt) s = Ret tt s' ∧
    inv s' map (pre ++ (if keep then [q] else []) ++ suf)
      (vpre ++ (if keep then [a] else []) ++ vsuf) fl' ∧
    (∀ x, x ∈ fl' → x ∈ fl ∨ x = q) ∧ frame (q :: pre) map s s' ∧
    (struct_room region_sizeof s → struct_room region_sizeof s') ∧ lay s' = lay s.
Proof.
  intros Hinv Hlen keep. subst keep.
  destruct (inv_lookup _ _ _ _ _ _ _ _ _ Hinv Hlen) as (n & Hn & Hd).
  step (on_load_ok _ _ _ Hn). rewrite <- Hd, r_size_data, Hd.
  destruct (r_size n =? 0); simpl.
  - destruct (delete_free_spec _ _ _ _ _ _ _ _ _ Hinv Hlen) as (s' & E & Hinv' & Hf & Hl & _).
    exists s', (q :: fl). split_and!; try done; [mem|]. intros _. left.
    destruct Hinv' as (_ & ((-> & ? & _) & _) & _). done.
  - exists s, fl. split_and!; try done; auto; split; done.
Qed.

Lemma cut_and_stitch_spec s map pre q suf vpre v vsuf fl hole :
  inv s map (pre ++ q :: suf) (vpre ++ v :: vsuf) fl → length pre = length vpre →
  wf_list (vpre ++ v :: vsuf) → wf_hole hole →
  (splits hole v → struct_room region_sizeof s) →
  ∃ s' qs fl', cut_and_stitch map q hole s = Ret tt s' ∧
    inv s' map (pre ++ qs ++ suf) (vpre ++ pieces hole v ++ vsuf) fl' ∧
    length qs = length (pieces hole v) ∧
    (∀ x, x ∈ qs → x = q ∨ x ∈ fl ∨ heap s !! x = None) ∧ (∀ x, x ∈ fl' → x ∈ fl ∨ x = q) ∧
    frame (pre ++ q :: suf ++ fl) map s s' ∧
    (¬ splits hole v → struct_room region_sizeof s → struct_room region_sizeof s') ∧
    lay_grows (region_sizeof + 3) (lay s) (lay s') ∧ (¬ splits hole v → lay s' = lay s).
Proof.
  intros Hinv Hlen Hw Hh Hroom.
  destruct (inv_lookup _ _ _ _ _ _ _ _ _ Hinv Hlen) as (n & Hn & Hd).
  unfold cut_and_stitch. step (on_load_ok _ _ _ Hn).
  pose proof (cut_data n hole) as Hcd. pose proof (cut_next n hole) as Hcn. rewrite Hd in Hcd.
  pose proof (cut_false v hole) as Hcf.
  pose proof (λ pc, second_pos hole vpre v vsuf pc Hw Hh) as Hpos.
  pose proof (cut_second hole v (wf_list_region _ v Hw ltac:(mem)) Hh) as Hsec.
  unfold pieces. unfold splits in *. destruct (cut n hole) as [[ov a'] tmp]. simpl in Hcd, Hcn.
  rewrite Hcd in *. simpl in *.
  step (on_store_ok s q n a' Hn).
  destruct (store_inv s map pre q suf vpre v vsuf fl n a' Hinv Hlen Hn Hcn) as [Hinv1 Hf1].
  set (s1 := set_heap _ s) in *.
  assert (Hroom1 : struct_room region_sizeof s1 ↔ struct_room region_sizeof s) by done.
  assert (HfW : ∀ W s2, (∀ x, x ∈ W → is_Some (heap s !! x) → x ∈ pre ++ q :: suf ++ fl) → frame W map s1 s2 →
    frame (pre ++ q :: suf ++ fl) map s s2).
  { intros W s2 HW Hf. eapply frame_trans; [exact Hf1|exact Hf|mem|done]. }
  destruct ov; simpl.
  - destruct (r_size tmp =? 0) eqn:Et; simpl.
    + step (ret_ok tt s1).
      destruct (drop_empty_spec s1 map pre q suf vpre (ll_data a') vsuf fl Hinv1 Hlen)
        as (s2 & fl' & E & Hinv2 & Hfl' & Hf2 & Hr2 & Hl2).
      assert (lay s2 = lay s) as Hl2' by done.
      assert (Hg2 : lay_grows (region_sizeof + 3) (lay s) (lay s2)).
      { rewrite Hl2'. apply lay_grows_refl. pose proof region_sizeof_pos. lia. }
      exists s2, (if negb (r_size (ll_data a') =? 0) then [q] else []), fl'.
      split; [exact E|]. rewrite app_nil_r.
      destruct (r_size (ll_data a') =? 0); simpl in *; (split_and!; try done; try mem);
        (apply (HfW (q :: pre)); [mem|done]).
    + apply Z.eqb_neq in Et.
      specialize (Hpos (r_set_size (r_size tmp) (r_set_address (r_address tmp) (ll_data a')))).
      destruct Hsec as (Ha & _); [done|].
      destruct (stitch_spec s1 map pre q suf vpre (ll_data a') vsuf fl (r_address tmp) (r_size tmp))
        as (s2 & np & fl2 & E2 & Hinv2 & Hfresh & Hsub & Hf2 & Hg2); try done.
      { apply Hroom1. auto. }
      { apply Hpos; [done|]. by autorewrite with region. }
      rewrite (bind_ret _ _ _ _ _ E2).
      destruct (drop_empty_spec s2 map pre q (np :: suf) vpre (ll_data a')
        (r_set_size (r_size tmp) (r_set_address (r_address tmp) (ll_data a')) :: vsuf) fl2 Hinv2 Hlen)
        as (s3 & fl3 & E3 & Hinv3 & Hfl3 & Hf3 & _ & Hl3).
      change (lay s1) with (lay s) in Hg2. rewrite <- Hl3 in Hg2.
      exists s3, ((if negb (r_size (ll_data a') =? 0) then [q] else []) ++ [np]), fl3.
      split; [exact E3|]. rewrite <- !app_assoc. simpl.
      assert (Hnp : np = q ∨ np ∈ fl ∨ heap s !! np = None).
      { destruct (decide (np = q)) as [->|Hne]; [by left|right]. destruct Hfresh as [?|Hfr]; [by left|right].
        simpl in Hfr. by rewrite lookup_insert_ne in Hfr. }
      assert (Hf : frame (pre ++ q :: suf ++ fl) map s s3).
      { eapply frame_trans; [eapply HfW; [|exact Hf2]; mem|exact Hf3|done|mem]. }
      destruct (r_size (ll_data a') =? 0); simpl in *;
        (split_and!; try done; [intros x Hx; mem|mem|tauto|tauto]).
  - specialize (Hcf eq_refl). injection Hcf as Hva _. rewrite Hva in Hinv1.
    exists s1, [q], fl. simpl. split_and!; try done; [mem|mem| |].
    + apply (HfW []); [mem|by split].
    + apply lay_grows_refl. pose proof region_sizeof_pos. lia.
Qed.

(** ** Subtract *)

Lemma subtract_loop_spec fuel map hole s cur pre suf vpre vsuf fl :
  inv s map (pre ++ suf) (vpre ++ vsuf) fl → length pre = length vpre →
  wf_list (vpre ++ vsuf) → wf_hole hole →
  (∀ c, c ∈ vsuf → splits hole c → struct_room region_sizeof s) →
  ll_rep (heap s) cur suf → (length suf < fuel)%nat →
  ∃ s' ps' fl', subtract_loop fuel map hole cur s = Ret tt s' ∧
    inv s' map ps' (vpre ++ subtract_l hole vsuf) fl' ∧
    (∀ x, x ∈ ps' ++ fl' → x ∈ pre ++ suf ++ fl ∨ heap s !! x = None) ∧
    frame (pre ++ suf ++ fl) map s s' ∧ lay_grows (region_sizeof + 3) (lay s) (lay s') ∧
    ((∀ c, c ∈ vsuf → ¬ splits hole c) → lay s' = lay s).
Proof.
  intros Hinv Hlen Hw Hh. revert fuel s cur pre vpre vsuf fl Hinv Hlen Hw.
  induction suf as [|q suf IH]; intros fuel s cur pre vpre vsuf fl Hinv Hlen Hw Hroom Hcur Hfuel;
    pose proof (inv_length _ _ _ _ _ Hinv) as Hl; rewrite !length_app in Hl; simpl in Hl;
    (destruct fuel as [|fuel]; [simpl in Hfuel; lia|]); simpl.
  - destruct vsuf; simpl in Hl; [|lia]. rewrite Hcur, Z.eqb_refl.
    exists s, pre, fl. rewrite !app_nil_r in *. split; [done|]. split; [done|].
    split; [simpl; auto|]. split; [by split|]. split; [|done].
    apply lay_grows_refl. pose proof region_sizeof_pos. lia.
  - destruct vsuf as [|v vsuf]; simpl in Hl; [lia|].
    destruct Hcur as (-> & Hq0 & n & Hn & Hsuf). rewrite (proj2 (Z.eqb_neq _ _) Hq0).
    step (on_load_ok _ _ _ Hn).
    destruct (cut_and_stitch_spec s map pre q suf vpre v vsuf fl hole)
      as (s1 & qs & fl1 & E1 & Hinv1 & Hlq & Hqs & Hfl1 & Hf1 & Hroom1 & Hg1 & Hl1); try done.
    { apply Hroom. by left. }
    step E1. rewrite !app_assoc in Hinv1.
    assert (Hw1 := pieces_wf _ _ _ _ _ Hw Hh).
    destruct (IH fuel s1 (ll_next n) (pre ++ qs) (vpre ++ pieces hole v) vsuf fl1)
      as (s2 & ps2 & fl2 & E2 & Hinv2 & Hps2 & Hf2 & Hg2 & Hl2); try done.
    + rewrite !length_app. lia.
    + by rewrite <- app_assoc.
    + intros c Hc Hs. apply Hroom1; [|eapply Hroom; [|exact Hs]; by right].
      intros Hsv. destruct (wf_from_app _ _ _ Hw) as (_ & Hw2 & _).
      by apply (splits_once hole v vsuf c 1).
    + destruct Hinv1 as ((p1 & _ & Hr1 & _) & _).
      destruct (ll_rep_app _ _ _ _ Hr1) as (q' & Hq' & _).
      by rewrite (ll_rep_head_eq _ _ _ _ _ Hsuf Hq').
    + simpl in Hfuel. lia.
    + exists s2, ps2, fl2. split; [exact E2|]. unfold subtract_l in *. rewrite bind_cons.
      rewrite <- !app_assoc in Hinv2. split; [exact Hinv2|].
      assert (HX : ∀ x, x ∈ (pre ++ qs) ++ suf ++ fl1 → x ∈ pre ++ (q :: suf) ++ fl ∨ heap s !! x = None).
      { clear - Hqs Hfl1. mem. }
      split; [|split].
      * intros x Hx. destruct (Hps2 x Hx) as [Hx'|Hx']; [by apply HX|].
        destruct (decide (x ∈ pre ++ (q :: suf) ++ fl)); [by left|right].
        destruct (heap s !! x) eqn:Hsx; [|done]. destruct Hf1 as [Hf1 _].
        rewrite Hf1 in Hx' by (rewrite ?Hsx; done). congruence.
      * eapply frame_trans; [exact Hf1|exact Hf2|done|]. intros x Hx [? ?].
        destruct (HX x Hx); [done|congruence].
      * destruct (decide (splits hole v)) as [Hs|Hs].
        -- rewrite Hl2; [split; [done|]|]; [intros Hns; by destruct (Hns v ltac:(by left))|].
           intros c Hc. destruct (wf_from_app _ _ _ Hw) as (_ & Hw2 & _).
           by apply (splits_once hole v vsuf c 1).
        -- rewrite <- (Hl1 Hs). split; [done|]. intros Hns. apply Hl2. intros c Hc.
           apply Hns. by right.
Qed.

Lemma region_subtract_spec map hole s ps vs fl :
  inv s map ps vs fl → wf_list vs → wf_hole hole →
  (∀ c, c ∈ vs → splits hole c → struct_room region_sizeof s) →
  ∃ s' ps' fl', region_subtract map hole s = Ret tt s' ∧
    inv s' map ps' (subtract_l hole vs) fl' ∧
    (∀ x, x ∈ ps' ++ fl' → x ∈ ps ++ fl ∨ heap s !! x = None) ∧
    frame (ps ++ fl) map s s' ∧ lay_grows (region_sizeof + 3) (lay s) (lay s').
Proof.
  intros Hinv Hw Hh Hroom. pose proof Hinv as ((p & Hp & Hr & Hd) & _).
  unfold region_subtract. step (eq_refl : fuel_of s = Ret (S (size (heap s))) s).
  step (get_regions_ok _ _ _ Hp). pose proof (ll_rep_fuel _ _ _ Hr).
  destruct (subtract_loop_spec (S (size (heap s))) map hole s p [] ps [] vs fl)
    as (s' & ps' & fl' & ? & ? & ? & ? & ? & _); try done; [lia|].
  exists s', ps', fl'. done.
Qed.


(** ** Add *)

(** [name##_free] of a struct that is in neither list. *)
Lemma free_other_spec s map ps vs fl q n :
  inv s map ps vs fl → q ≠ NULL → q ∉ ps → q ∉ fl → heap s !! q = Some n →
  ∃ s', region_free q s = Ret tt s' ∧ inv s' map ps vs (q :: fl) ∧ frame [q] map s s' ∧
    lay s' = lay s.
Proof.
  intros ((p & Hp & Hr & Hd) & Hpool & Hdis) Hq0 Hq1 Hq2 Hn.
  destruct (region_free_spec s fl q n) as (s2 & E2 & Hpool2 & Hm2 & Hl2 & Hlk2); try done.
  exists s2. split; [done|]. split; [|split; [|done]].
  - split; [|split; [done|]].
    + exists p. rewrite Hm2. split_and!; [done| |].
      * eapply ll_rep_frame_links; [done| |done]. set_solver.
      * eapply data_at_fmap; [|done]. intros x _. by apply (links_only_data [q]).
    + set_solver.
  - split; [|intros; by rewrite Hm2]. intros x _ Hx. by apply Hlk2.
Qed.

(** The values after the region [a] has grown: its successor may absorb it. *)
Definition absorb_l (a : T) (l : list T) : list T :=
  match l with
  | [] => [a]
  | n :: l' => let '(merged, n') := merge n a in if merged then n' :: l' else a :: l
  end.

Lemma absorb_spec s map pre q suf vpre a vsuf fl :
  inv s map (pre ++ q :: suf) (vpre ++ a :: vsuf) fl → length pre = length vpre →
  ∃ s' ps' fl', (c ← on_heap (load q);
      if negb (ll_next c =? NULL) then
        let next := ll_next c in
        n ← on_heap (load next);
        let '(merged, n') := merge n c in
        on_heap (store next n');;
        if merged then
          head ← get_regions map; head ← on_heap (LL_DELETE head q);
          set_regions map head;; region_free q
        else mret tt
      else mret tt) s = Ret tt s' ∧
    inv s' map ps' (vpre ++ absorb_l a vsuf) fl' ∧
    (∀ x, x ∈ ps' ++ fl' → x ∈ pre ++ q :: suf ++ fl) ∧ frame (pre ++ q :: suf) map s s' ∧
    lay s' = lay s.
Proof.
  intros Hinv Hlen. destruct (inv_lookup _ _ _ _ _ _ _ _ _ Hinv Hlen) as (nq & Hnq & Hdq).
  step (on_load_ok _ _ _ Hnq). pose proof Hinv as ((p & Hp & Hr & Hd) & _).
  destruct (ll_rep_app _ _ _ _ Hr) as (q' & (-> & Hq0 & n & Hn & Hsuf) & _).
  rewrite Hnq in Hn. injection Hn as <-. subst a. rename nq into n.
  pose proof (inv_length _ _ _ _ _ Hinv) as Hl. rewrite !length_app in Hl. simpl in Hl.
  destruct suf as [|x suf], vsuf as [|v vsuf]; simpl in Hl; try lia; simpl.
  - rewrite Hsuf, Z.eqb_refl. exists s, (pre ++ [q]), fl.
    split; [done|]. split; [done|]. split; [mem|]. split; [by split|done].
  - destruct Hsuf as (-> & Hx0 & nx & Hnx & Hsuf). rewrite (proj2 (Z.eqb_neq _ _) Hx0). simpl.
    assert (Hlen' : length (pre ++ [q]) = length (vpre ++ [ll_data n]))
      by (rewrite !length_app; simpl; lia).
    assert (Hinv' : inv s map ((pre ++ [q]) ++ x :: suf) ((vpre ++ [ll_data n]) ++ v :: vsuf) fl)
      by by rewrite <- !app_assoc.
    destruct (inv_lookup _ _ _ _ _ _ _ _ _ Hinv' Hlen') as (nx' & Hnx' & Hdx). simplify_eq.
    step (on_load_ok _ _ _ Hnx). rewrite merge_data.
    pose proof (merge_next nx n) as Hmn. pose proof (merge_false nx n) as Hmf.
    destruct (merge nx n) as [mg nx2]; simpl in *.
    step (on_store_ok _ _ _ nx2 Hnx).
    destruct (store_inv s map _ x suf _ _ vsuf fl nx nx2 Hinv' Hlen' Hnx Hmn) as [Hinv1 Hf1].
    set (s1 := set_heap _ s) in *. rewrite <- !app_assoc in Hinv1. simpl in Hinv1.
    destruct mg.
    + destruct (delete_free_spec _ _ _ _ _ _ _ _ _ Hinv1 Hlen) as (s2 & E & Hinv2 & Hf2 & Hl2 & _).
      exists s2, (pre ++ x :: suf), (q :: fl). split; [exact E|]. split; [exact Hinv2|].
      split; [mem|]. split; [|done]. eapply frame_trans; [exact Hf1|exact Hf2|mem|mem].
    + exists s1, (pre ++ q :: x :: suf), fl. split; [done|]. rewrite Hmf in Hinv1 by done.
      split; [exact Hinv1|]. split; [mem|]. split; [|done].
      eapply frame_mono; [exact Hf1|mem].
Qed.

Lemma add_l_cons r c l :
  add_l r (c :: l) = if (merge c r).1 then absorb_l (merge c r).2 l
    else if r_address r <? r_address c then r :: c :: l else c :: add_l r l.
Proof. simpl. destruct (merge c r) as [[] c']; simpl; [|done]. by destruct l. Qed.

Lemma add_loop_spec fuel map elem ve s cur pre suf vpre vsuf fl :
  inv s map (pre ++ suf) (vpre ++ vsuf) fl → length pre = length vpre →
  elem ≠ NULL → elem ∉ pre ++ suf → elem ∉ fl → ll_data <$> heap s !! elem = Some ve →
  ll_rep (heap s) cur suf → (length suf < fuel)%nat →
  ∃ s' ps' fl', add_loop fuel map elem cur s = Ret tt s' ∧
    inv s' map ps' (vpre ++ add_l ve vsuf) fl' ∧
    (∀ x, x ∈ ps' ++ fl' → x ∈ elem :: pre ++ suf ++ fl) ∧
    frame (elem :: pre ++ suf ++ fl) map s s' ∧ lay s' = lay s.
Proof.
  intros Hinv Hlen He Hne Hnf Hve. revert fuel s cur pre vpre vsuf Hinv Hlen Hne Hve.
  induction suf as [|c suf IH]; intros fuel s cur pre vpre vsuf Hinv Hlen Hne Hve Hcur Hfuel;
    pose proof Hinv as ((p & Hp & Hr & Hd) & Hpool & Hdis);
    pose proof (Forall2_length _ _ _ Hd) as Hl; rewrite !length_app in Hl; simpl in Hl;
    (destruct fuel as [|fuel]; [simpl in Hfuel; lia|]);
    destruct (heap s !! elem) as [ne|] eqn:Hel; simpl in Hve; try discriminate Hve.
  - destruct vsuf; simpl in Hl; [|lia]. simpl. rewrite !app_nil_r in *. rewrite Hcur, Z.eqb_refl.
    destruct (append_spec s map pre vpre fl elem ve) as (s' & E & Hi & Hf & Hl' & _); rewrite ?Hel; try done.
    exists s', (pre ++ [elem]), fl. split; [exact E|]. split; [done|]. split; [mem|]. split; [|done].
    eapply frame_mono; [exact Hf|mem].
  - destruct vsuf as [|vc vsuf]; simpl in Hl; [lia|]. rewrite add_l_cons. simpl.
    destruct Hcur as (-> & Hc0 & nc & Hnc & Hsuf). rewrite (proj2 (Z.eqb_neq _ _) Hc0).
    step (on_load_ok _ _ _ Hnc). step (on_load_ok _ _ _ Hel).
    destruct (data_at_lookup _ _ _ _ _ _ _ Hlen Hd) as (nc' & Hnc' & Hvc). simplify_eq.
    rewrite merge_data. pose proof (merge_next nc ne) as Hmn. pose proof (merge_false nc ne) as Hmf.
    destruct (merge nc ne) as [mg nc2]; simpl in Hmn, Hmf |- *.
    step (on_store_ok _ _ _ nc2 Hnc).
    destruct (store_inv s map _ c suf _ _ vsuf fl nc nc2 Hinv Hlen Hnc Hmn) as [Hinv1 Hf1].
    set (s1 := set_heap _ s) in *.
    assert (Hel1 : heap s1 !! elem = Some ne).
    { simpl. rewrite lookup_insert_ne; [done|]. intros ->. apply Hne. mem. }
    destruct mg.
    + destruct (free_other_spec _ _ _ _ _ _ _ Hinv1 He Hne Hnf Hel1) as (s2 & E2 & Hinv2 & Hf2 & Hl2).
      step E2. destruct (absorb_spec _ _ _ _ _ _ _ _ _ Hinv2 Hlen)
        as (s3 & ps3 & fl3 & E3 & Hinv3 & Hps3 & Hf3 & Hl3).
      exists s3, ps3, fl3. split; [exact E3|]. split; [exact Hinv3|].
      split; [intros x Hx; apply Hps3 in Hx; clear - Hx; mem|]. split; [|by rewrite Hl3, Hl2].
      eapply frame_trans; [eapply (frame_trans [c] [elem] [c; elem]); [exact Hf1|exact Hf2|mem|mem]
        |exact Hf3|mem|mem].
    + rewrite Hmf in * by done. rewrite !r_address_data.
      destruct (r_address ne <? r_address nc) eqn:Ecmp.
      * destruct (prepend_elem_spec _ _ _ _ _ _ _ _ _ elem (ll_data ne) Hinv1 Hlen)
          as (s' & E & Hi & Hf & Hl' & _); rewrite ?Hel1; try done.
        exists s', (pre ++ elem :: c :: suf), fl. split; [exact E|]. split; [done|]. split; [mem|]. split; [|done].
        eapply frame_trans; [exact Hf1|exact Hf|mem|mem].
      * destruct (IH fuel s1 (ll_next nc) (pre ++ [c]) (vpre ++ [ll_data nc]) vsuf)
          as (s' & ps' & fl' & E & Hi & Hps & Hf & Hl');
          rewrite <- ?app_assoc; rewrite ?Hel1; simpl in *; try done.
        { rewrite !length_app. simpl. lia. }
        { rewrite Hmf, insert_id by done. exact Hsuf. }
        { lia. }
        exists s', ps', fl'. split; [exact E|]. rewrite <- app_assoc in Hi. split; [exact Hi|].
        split; [intros x Hx; apply Hps in Hx; clear - Hx; mem|]. split; [|done].
        eapply frame_trans; [exact Hf1|exact Hf|mem|clear; mem].
Qed.

Lemma region_add_spec map elem ve s ps vs fl :
  inv s map ps vs fl → elem ≠ NULL → elem ∉ ps → elem ∉ fl →
  ll_data <$> heap s !! elem = Some ve →
  ∃ s' ps' fl', region_add map elem s = Ret tt s' ∧
    inv s' map ps' (add_l ve vs) fl' ∧
    (∀ x, x ∈ ps' ++ fl' → x ∈ elem :: ps ++ fl) ∧ frame (elem :: ps ++ fl) map s s' ∧
    lay s' = lay s.
Proof.
  intros Hinv He Hne Hnf Hve. pose proof Hinv as ((p & Hp & Hr & Hd) & _).
  unfold region_add. step (eq_refl : fuel_of s = Ret (S (size (heap s))) s).
  step (get_regions_ok _ _ _ Hp). pose proof (ll_rep_fuel _ _ _ Hr).
  apply (add_loop_spec _ _ _ _ _ _ [] ps [] vs); try done. lia.
Qed.

(** ** Find *)

(** The first struct whose region starts at [addr]. *)
Fixpoint find_l (addr : Z) (ps : list Z) (vs : list T) : option Z :=
  match ps, vs with
  | q :: ps, v :: vs => if r_address v =? addr then Some q else find_l addr ps vs
  | _, _ => None
  end.

Lemma find_loop_spec fuel addr s cur ps vs :
  ll_rep (heap s) cur ps → data_at (heap s) ps vs → (length ps < fuel)%nat →
  find_loop fuel addr cur s = Ret (find_l addr ps vs) s.
Proof.
  revert fuel cur vs. induction ps as [|q ps IH]; intros [|fuel] cur vs Hr Hd Hf; simpl in *; try lia.
  - by rewrite Hr, Z.eqb_refl.
  - destruct Hr as (-> & Hq & n & Hn & Hr). rewrite (proj2 (Z.eqb_neq _ _) Hq).
    apply Forall2_cons_inv_l in Hd as (v & vs' & Hv & Hd & ->). step (on_load_ok _ _ _ Hn).
    rewrite Hn in Hv. injection Hv as <-. rewrite r_address_data.
    destruct (_ =? _); [done|]. apply IH; [done..|lia].
Qed.

Lemma region_find_address_spec map addr s ps vs fl :
  inv s map ps vs fl → region_find_address map addr s = Ret (find_l addr ps vs) s.
Proof.
  intros ((p & Hp & Hr & Hd) & _).
  unfold region_find_address. step (eq_refl : fuel_of s = Ret (S (size (heap s))) s).
  step (get_regions_ok _ _ _ Hp). pose proof (ll_rep_fuel _ _ _ Hr).
  apply find_loop_spec; [done..|lia].
Qed.
End Refine.

(** ** Pools that fall back on static memory *)
Section Pool.
Context {T : Type} `{Region T}.
Variable sizeof : Z.
Variable fresh : Z → T.
Implicit Types (s : rstate T) (fl : list Z).

Lemma struct_room_static s :
  0 < memory_start (lay s) → memory_start (lay s) + sizeof + 3 ≤ memory_end (lay s) →
  0 < sizeof → memory_end (lay s) < W32 - 4 → struct_room sizeof s.
Proof.
  intros Hm Hr Hs He. right. unfold static_room.
  destruct (align_address_bounds (memory_start (lay s)) 4) as [? _]; [apply pow2_32_4|lia..].
Qed.

Lemma pool_alloc_spec s fl :
  0 < sizeof → pool_inv s fl → struct_room sizeof s →
  ∃ p n s' fl', pool_alloc sizeof fresh s = Ret p s' ∧ p ≠ NULL ∧ heap s' !! p = Some n ∧
    pool_inv s' fl' ∧ maps s' = maps s ∧ p ∉ fl' ∧
    (p ∈ fl ∨ heap s !! p = None) ∧ (∀ q, q ∈ fl' → q ∈ fl) ∧
    (∀ q, q ≠ p → heap s' !! q = heap s !! q) ∧
    lay_grows (sizeof + 3) (lay s) (lay s').
Proof.
  intros Hs0 (Hfl & Hb & Hlay & Hend) Hroom. unfold pool_alloc. step (eq_refl : get s = Ret s s).
  destruct (Z.eqb_spec (free_regions s) NULL) as [E|E]; simpl.
  - assert (fl = []) as -> by (rewrite E in Hfl; by apply ll_rep_inv_null in Hfl).
    destruct (align_address_bounds (memory_start (lay s)) 4) as [Ha _]; [apply pow2_32_4|lia..|].
    set (a := align_address _ 4) in *.
    destruct Hroom as [?|Hroom]; [done|]. pose proof Hroom as Hroom'. unfold static_room in Hroom'. fold a in Hroom'.
    pose proof (kalloc_static_ok (lay s) sizeof 4) as Ek. fold a in Ek.
    step (zoom_ret lay set_lay _ s _ _ (Ek ltac:(lia) ltac:(lia) ltac:(lia) ltac:(lia) Hroom)).
    assert (Hna : heap s !! a = None).
    { destruct (heap s !! a) eqn:Hx; [|done]. destruct (Hb a); [by eexists|lia]. }
    eexists a, (fresh a), _, []. split; [reflexivity|]. simpl.
    split; [unfold NULL; lia|]. split; [by rewrite lookup_insert_eq|].
    split; [|split_and!; try done; [set_solver|by right|intros q Hq; by rewrite lookup_insert_ne|
      unfold lay_grows; simpl; lia..]].
    split; [done|]. simpl. split; [|lia].
    intros q Hq. destruct (decide (q = a)) as [->|Hne]; [lia|].
    rewrite lookup_insert_ne in Hq by done. destruct (Hb q Hq). lia.
  - destruct (ll_rep_inv_cons _ _ _ E Hfl) as (n & fl' & -> & Hn & Hr).
    pose proof (ll_rep_nodup _ _ _ Hfl) as Hnd. apply NoDup_cons in Hnd as [Hnin _].
    destruct (LL_DELETE_spec _ _ [] _ _ Hfl) as (head' & h' & Ed & Hr' & Hlk).
    step (on_heap_ok _ s _ _ Ed). simpl in *.
    assert (h' = heap s) as ->. { apply map_eq. intros q. apply Hlk. set_solver. }
    eexists (free_regions s), n, _, fl'. split; [reflexivity|]. simpl. split_and!; try done.
    + by left; left.
    + intros q Hq. by right.
    + apply lay_grows_refl. lia.
Qed.

Lemma pool_free_spec s fl p n :
  pool_inv s fl → p ≠ NULL → p ∉ fl → heap s !! p = Some n →
  ∃ s', pool_free p s = Ret tt s' ∧ pool_inv s' (p :: fl) ∧
    maps s' = maps s ∧ lay s' = lay s ∧ links_only [p] (heap s) (heap s').
Proof.
  intros (Hfl & Hb & Hlay) Hp Hni Hn. unfold pool_free. step (eq_refl : get s = Ret s s).
  destruct (LL_PREPEND_spec _ _ _ _ _ Hfl Hp Hni Hn) as (h' & E & Hr & Hlk).
  step (on_heap_ok _ s _ _ E). eexists. split; [reflexivity|]. simpl. split; [|done].
  split; [done|]. split; [|done]. intros q Hq. apply Hb. by apply (links_only_dom _ _ _ q Hlk).
Qed.
End Pool.
