(* ===== verification/Allocator.v ===== *)
(** * kernel/mm/allocator.c and allocator.h: the address-range allocator

    An [allocator_map] is a sorted list of free ranges with flags; the kernel
    keeps one for physical memory, one for the kernel's virtual address space
    and one for the [kmalloc] pool.  [allocator_mem_alloc] takes the first
    range that is large enough after alignment, [allocator_mem_free] and
    [allocator_region_add_new] put a range back and merge it with its
    neighbours, [allocator_range_acquire] removes a given range. *)

From stdpp Require Import base numbers list gmap strings fin_maps.
From S2P Require Import Prelude UtList MemUtil Range RangeSpec RangeRefine.

(** ** Data *)

(** [enum alloc_region_flags] *)
Abbreviation ALLOC_VM_USER := 1 (only parsing).
Abbreviation ALLOC_VM_KERNEL := 2 (only parsing).
Abbreviation ALLOC_PM_DMA := 4 (only parsing).
Abbreviation ALLOC_PM_NORMAL := 8 (only parsing).
Abbreviation ALLOC_PM_HIGH := 16 (only parsing).

(** [struct allocator_region] *)
Record allocator_region := AllocatorRegion {
  ar_next : Z;
  ar_map : Z;
  ar_address : Z;
  ar_size : Z;
  ar_flags : Z
}.

Definition sizeof_allocator_region : Z := 20.

Definition ar_set_next p r := AllocatorRegion p (ar_map r) (ar_address r) (ar_size r) (ar_flags r).
Definition ar_set_address a r := AllocatorRegion (ar_next r) (ar_map r) a (ar_size r) (ar_flags r).
Definition ar_set_size n r := AllocatorRegion (ar_next r) (ar_map r) (ar_address r) n (ar_flags r).
Definition ar_set_flags f r := AllocatorRegion (ar_next r) (ar_map r) (ar_address r) (ar_size r) f.

Definition allocator_region_pre_merge (a b : allocator_region) : bool := ar_flags a =? ar_flags b.

#[export, refine] Instance allocator_region_node : LLNode allocator_region :=
  {| ll_next := ar_next; ll_set_next := ar_set_next |}.
Proof. all: intros; done || by destruct n. Defined.

#[export, refine] Instance allocator_region_region : Region allocator_region :=
  {| region_node := allocator_region_node;
     r_address := ar_address; r_size := ar_size; r_flags := ar_flags;
     r_set_address := ar_set_address; r_set_size := ar_set_size;
     r_pre_merge := allocator_region_pre_merge |}.
Proof.
  all: unfold allocator_region_pre_merge; intros; try done.
  - by apply Z.eqb_eq.
  - congruence.
  - apply Z.eqb_sym.
Defined.

(** ** Operations *)
Section Allocator.
(** What a struct carved from static memory holds before it is written. *)
Variable fresh : Z → allocator_region.

Definition astate : Type := rstate allocator_region.

Definition allocator_region_alloc : M astate Z :=
  s ← get;
  if negb (free_regions s =? NULL) then
    let region := free_regions s in
    head ← on_heap (LL_DELETE (free_regions s) (free_regions s));
    modify (set_free head);;
    mret region
  else
    p ← on_lay (kalloc_static sizeof_allocator_region 4);
    modify (λ s, set_heap (<[p := fresh p]> (heap s)) s);;
    mret p.

Definition allocator_region_free (region : Z) : M astate unit :=
  s ← get;
  head ← on_heap (LL_PREPEND (free_regions s) region);
  modify (set_free head).

#[export] Instance allocator_region_allocs : RegionAlloc allocator_region :=
  {| region_alloc := allocator_region_alloc; region_free := allocator_region_free |}.

(** [MRL_IMPLS(allocator_region, ...)] *)
Definition allocator_region_add : Z → Z → M astate unit := region_add.
Definition allocator_region_subtract : Z → allocator_region → M astate unit := region_subtract.
Definition allocator_region_cut_and_stitch : Z → Z → allocator_region → M astate unit :=
  cut_and_stitch.

Definition allocator_map_init (map : Z) : M astate unit :=
  modify (λ s, set_maps (<[map := NULL]> (maps s)) s).

Definition allocator_region_add_new (map addr size flags : Z) : M astate unit :=
  region ← allocator_region_alloc;
  assert (negb (region =? NULL)) "region";;
  on_heap (update region (ar_set_address addr));;
  on_heap (update region (ar_set_size size));;
  on_heap (update region (ar_set_flags flags));;
  allocator_region_add map region.

(** The loop runs over [map], as the code does, not over [src]. *)
Fixpoint init_copy_loop (fuel : nat) (map region : Z) : M astate unit :=
  match fuel with
  | O => nofuel
  | S fuel =>
      if region =? NULL then mret tt
      else
        r ← on_heap (load region);
        allocator_region_add_new map (ar_address r) (ar_size r) (ar_flags r);;
        r ← on_heap (load region);
        init_copy_loop fuel map (ar_next r)
  end.

Definition allocator_map_init_copy (fuel : nat) (map src : Z) : M astate unit :=
  head ← get_regions map;
  init_copy_loop fuel map head.

(** The struct on the stack is not initialised beyond its address and size;
    [junk] is what its other members happen to hold. *)
Definition allocator_range_acquire (junk : allocator_region) (map address size : Z) : M astate unit :=
  allocator_region_subtract map (ar_set_size size (ar_set_address address junk)).

Definition allocator_mem_free (map ptr size flags : Z) : M astate unit :=
  region ← allocator_region_alloc;
  on_heap (update region (ar_set_address ptr));;
  on_heap (update region (ar_set_size size));;
  on_heap (update region (ar_set_flags flags));;
  allocator_region_add map region.

Fixpoint mem_alloc_loop (fuel : nat) (map size alignment flags hole region : Z)
    : M astate (option Z) :=
  match fuel with
  | O => nofuel
  | S fuel =>
      if region =? NULL then mret None
      else
        r ← on_heap (load region);
        let aligned_start := align_address (ar_address r) alignment in
        let remaining_size := u32 (ar_size r - u32 (aligned_start - ar_address r)) in
        if ((flags =? 0) || (ar_flags r =? flags)) && (size <=? remaining_size) then
          on_heap (update hole (ar_set_address aligned_start));;
          on_heap (update hole (ar_set_size size));;
          h ← on_heap (load hole);
          allocator_region_cut_and_stitch map region h;;
          mret (Some aligned_start)
        else mem_alloc_loop fuel map size alignment flags hole (ar_next r)
  end.

(** [None] stands for the return value [false]. *)
Definition allocator_mem_alloc (map size alignment flags : Z) : M astate (option Z) :=
  hole ← allocator_region_alloc;
  let alignment := if alignment =? 0 then 4 else alignment in
  fuel ← fuel_of;
  head ← get_regions map;
  mem_alloc_loop fuel map size alignment flags hole head.

(** The numbers [allocator_print_map_info] prints: available bytes, largest
    block and fragmentation, all computed in 32-bit unsigned arithmetic. *)
Fixpoint print_loop (fuel : nat) (available largest_block region : Z) : M astate (Z * Z) :=
  match fuel with
  | O => nofuel
  | S fuel =>
      if region =? NULL then mret (available, largest_block)
      else
        r ← on_heap (load region);
        print_loop fuel (u32 (available + ar_size r))
          (if largest_block <? ar_size r then ar_size r else largest_block) (ar_next r)
  end.

Definition allocator_print_map_info (map : Z) : M astate (Z * Z * Z) :=
  fuel ← fuel_of;
  head ← get_regions map;
  '(available, largest_block) ← print_loop fuel 0 0 head;
  let fragmentation :=
    if negb (available =? 0) then s32 (u32 (100 - u32 (100 * largest_block) / available)) else 0 in
  mret (available, largest_block, fragmentation).

(** ** The structs come from a pool that meets the interface of range.h *)

#[export, refine] Instance allocator_region_pool : RegionPool allocator_region :=
  {| region_sizeof := sizeof_allocator_region |}.
Proof.
  - done.
  - intros s fl. exact (pool_alloc_spec sizeof_allocator_region fresh s fl eq_refl).
  - exact pool_free_spec.
Defined.

Implicit Types (s : astate) (vs : list allocator_region).

(** The region struct with the given members. *)
Definition mk_region (addr size flags : Z) (n : allocator_region) : allocator_region :=
  ar_set_flags flags (ar_set_size size (ar_set_address addr n)).

(** Allocating a struct and filling it in. *)
Lemma fill_spec {A} s map ps vs fl addr sz fg (k : Z → M astate A) :
  inv s map ps vs fl → struct_room sizeof_allocator_region s →
  ∃ np n s' fl', inv s' map ps vs fl' ∧ np ≠ NULL ∧ np ∉ ps ∧ np ∉ fl' ∧
    (region ← allocator_region_alloc;
     on_heap (update region (ar_set_address addr));;
     on_heap (update region (ar_set_size sz));;
     on_heap (update region (ar_set_flags fg));;
     k region) s = k np s' ∧
    heap s' !! np = Some (mk_region addr sz fg n) ∧
    (np ∈ fl ∨ heap s !! np = None) ∧ (∀ x, x ∈ fl' → x ∈ fl) ∧ frame [np] map s s' ∧
    lay_grows (sizeof_allocator_region + 3) (lay s) (lay s').
Proof.
  intros Hinv Hroom.
  destruct (alloc_inv s map ps vs fl Hinv)
    as (np & n & s1 & fl' & E & Hnp & Hn & Hi1 & Hps & Hnf & Hfr & Hsub & Hf1 & _ & Hg); [done|].
  change (region_alloc (T := allocator_region)) with allocator_region_alloc in E.
  destruct (update_other_spec _ _ _ _ _ np n (ar_set_address addr) Hi1 Hps Hnf Hn)
    as (s2 & E2 & Hi2 & Hf2 & Hn2 & Hl2).
  destruct (update_other_spec _ _ _ _ _ np _ (ar_set_size sz) Hi2 Hps Hnf Hn2)
    as (s3 & E3 & Hi3 & Hf3 & Hn3 & Hl3).
  destruct (update_other_spec _ _ _ _ _ np _ (ar_set_flags fg) Hi3 Hps Hnf Hn3)
    as (s4 & E4 & Hi4 & Hf4 & Hn4 & Hl4).
  exists np, n, s4, fl'. step E. step E2. step E3. step E4.
  split_and!; try done.
  - apply (frame_trans [np] [np] [np] _ _ s3); try done.
    apply (frame_trans [np] [np] [np] _ _ s2); try done.
    by apply (frame_trans [np] [np] [np] _ _ s1).
  - rewrite Hl4, Hl3, Hl2. done.
Qed.

Lemma mem_free_spec s map ps vs fl addr sz fg :
  inv s map ps vs fl → struct_room sizeof_allocator_region s →
  ∃ s' ps' fl' n, allocator_mem_free map addr sz fg s = Ret tt s' ∧
    inv s' map ps' (add_l (ll_data (mk_region addr sz fg n)) vs) fl' ∧
    (∀ x, x ∈ ps' ++ fl' → x ∈ ps ++ fl ∨ heap s !! x = None) ∧
    frame (ps ++ fl) map s s' ∧ lay_grows (sizeof_allocator_region + 3) (lay s) (lay s').
Proof.
  intros Hinv Hroom. unfold allocator_mem_free.
  destruct (fill_spec s map ps vs fl addr sz fg (λ region, allocator_region_add map region) Hinv Hroom)
    as (np & n & s1 & fl1 & Hi1 & Hnp & Hnps & Hnf & -> & Hn & Hfr & Hsub & Hf1 & Hg).
  destruct (region_add_spec map np _ s1 ps vs fl1 Hi1 Hnp Hnps Hnf ltac:(rewrite Hn; done))
    as (s2 & ps2 & fl2 & E2 & Hi2 & Hps2 & Hf2 & Hl2).
  exists s2, ps2, fl2, n. rewrite Hl2.
  assert (HX : ∀ x, x ∈ np :: ps ++ fl1 → x ∈ ps ++ fl ∨ heap s !! x = None).
  { clear - Hfr Hsub. mem. }
  split; [exact E2|]. split; [exact Hi2|]. split; [auto|]. split; [|done].
  destruct Hf1 as [Hf1 Hm1], Hf2 as [Hf2 Hm2]. split; [|intros m Hm; by rewrite Hm2, Hm1].
  intros x Hx Hni.
  assert (x ∉ np :: ps ++ fl1). { intros Hin. destruct Hx as [? ?]. destruct (HX x Hin); congruence. }
  rewrite Hf2; [apply Hf1|rewrite Hf1|]; auto; rewrite list_elem_of_singleton; intros ->; set_solver.
Qed.

Lemma add_new_eq s map ps vs fl addr sz fg :
  inv s map ps vs fl → struct_room sizeof_allocator_region s →
  allocator_region_add_new map addr sz fg s = allocator_mem_free map addr sz fg s.
Proof.
  intros Hinv Hroom. destruct (alloc_inv s map ps vs fl Hinv) as (np & n & s1 & fl' & E & Hnp & _); [done|].
  change (region_alloc (T := allocator_region)) with allocator_region_alloc in E.
  unfold allocator_region_add_new, allocator_mem_free.
  rewrite !(bind_ret _ _ _ _ _ E). by rewrite (proj2 (Z.eqb_neq _ _) Hnp).
Qed.

(** ** Allocation *)

(** The test of [allocator_mem_alloc] on one region. *)
Definition flags_match (flags : Z) (v : allocator_region) : bool :=
  (flags =? 0) || (ar_flags v =? flags).
Definition padding (alignment : Z) (v : allocator_region) : Z :=
  u32 (align_address (ar_address v) alignment - ar_address v).
Definition fits (size alignment flags : Z) (v : allocator_region) : bool :=
  flags_match flags v && (size <=? u32 (ar_size v - padding alignment v)).

(** The subtraction [region->size - (aligned_start - region->address)] does
    not wrap for any region the loop may look at. *)
Definition no_underflow (alignment flags : Z) vs : Prop :=
  ∀ v, v ∈ vs → flags_match flags v = true → padding alignment v ≤ ar_size v.

Lemma fits_bounds size alignment flags (v : allocator_region) :
  wf_region v → pow2_32 alignment → 0 < size → padding alignment v ≤ ar_size v →
  fits size alignment flags v = true →
  let a := align_address (ar_address v) alignment in
  ar_address v ≤ a ∧ a + size ≤ r_end v ∧ (alignment | a) ∧ flags_match flags v = true.
Proof.
  intros (Ha & Hs & He) Hal Hsz Hp [Hm Hf]%andb_true_iff a. unfold padding in *. fold a in Hp, Hf.
  bool_to_prop. unfold r_end in *. simpl in *. pose proof (pow2_32_bounds _ Hal).
  destruct (Z.lt_ge_cases (ar_address v + alignment - 1) W32) as [Hlt|Hge].
  - destruct (align_address_bounds (ar_address v) alignment Hal) as [Hb Hd]; [lia|done|]. fold a in Hb, Hd.
    rewrite (u32_small (a - _)) in * by lia. rewrite u32_small in Hf by lia. split_and!; done || lia.
  - assert (a = 0) as Ea by (apply align_address_wrap; [done|lia|lia]). rewrite Ea in *.
    replace (u32 (0 - ar_address v)) with (W32 - ar_address v) in * by (unfold u32; wrap).
    rewrite u32_small in Hf by lia. lia.
Qed.

(** What the loop does to the list of regions: nothing, when no region fits;
    otherwise it cuts the block out of the first one that does. *)
Definition alloc_result (size alignment flags : Z) vs (r : option Z) vs' : Prop :=
  match r with
  | None => vs' = vs ∧ ∀ v, v ∈ vs → fits size alignment flags v = false
  | Some a => ∃ l1 v l2 h, vs = l1 ++ v :: l2 ∧ vs' = l1 ++ pieces h v ++ l2 ∧
      (∀ u, u ∈ l1 → fits size alignment flags u = false) ∧ fits size alignment flags v = true ∧
      a = align_address (ar_address v) alignment ∧ ar_address h = a ∧ ar_size h = size
  end.

(** The body of the loop once a region has been found. *)
Lemma take_block_spec s map pre q suf vpre v vsuf fl hole nh a size :
  inv s map (pre ++ q :: suf) (vpre ++ v :: vsuf) fl → length pre = length vpre →
  wf_list (vpre ++ v :: vsuf) → 0 < a → 0 ≤ size → a + size ≤ W32 →
  hole ∉ pre ++ q :: suf → hole ∉ fl → heap s !! hole = Some nh →
  struct_room sizeof_allocator_region s →
  ∃ s' ps' fl' h, (on_heap (update hole (ar_set_address a));;
      on_heap (update hole (ar_set_size size));;
      h ← on_heap (load hole);
      allocator_region_cut_and_stitch map q h;;
      mret (Some a)) s = Ret (Some a) s' ∧
    inv s' map ps' (vpre ++ pieces h v ++ vsuf) fl' ∧ ar_address h = a ∧ ar_size h = size ∧
    (∀ x, x ∈ ps' ++ fl' → x ∈ pre ++ (q :: suf) ++ fl ∨ heap s !! x = None) ∧
    is_Some (heap s' !! hole) ∧
    frame (hole :: pre ++ (q :: suf) ++ fl) map s s' ∧
    lay_grows (sizeof_allocator_region + 3) (lay s) (lay s').
Proof.
  intros Hinv Hlen Hw Ha Hs He Hh1 Hh2 Hh Hroom.
  destruct (update_other_spec _ _ _ _ _ hole nh (ar_set_address a) Hinv Hh1 Hh2 Hh)
    as (s1 & E1 & Hi1 & Hf1 & Hn1 & Hl1).
  destruct (update_other_spec _ _ _ _ _ hole _ (ar_set_size size) Hi1 Hh1 Hh2 Hn1)
    as (s2 & E2 & Hi2 & Hf2 & Hn2 & Hl2).
  step E1. step E2. step (on_load_ok _ _ _ Hn2). set (h := ar_set_size size _) in *.
  assert (Hf12 : frame [hole] map s s2) by (eapply frame_trans; [exact Hf1|exact Hf2|done|done]).
  destruct (cut_and_stitch_spec s2 map pre q suf vpre v vsuf fl h)
    as (s3 & qs & fl3 & E3 & Hi3 & _ & Hqs & Hfl3 & Hf3 & _ & Hg & _); try done.
  { intros _. destruct Hi2 as (_ & (Hr2 & _) & _), Hinv as (_ & (Hr & _) & _).
    destruct Hroom as [Hfr|Hst]; [left|right; by rewrite Hl2, Hl1].
    by rewrite (ll_rep_head_eq _ _ _ _ _ Hr2 Hr). }
  step E3. exists s3, (pre ++ qs ++ suf), fl3, h. split; [done|]. split; [done|].
  split; [done|]. split; [done|]. rewrite Hl2, Hl1 in Hg. split; [|split; [|split; [|done]]].
  - intros x Hx. assert (heap s2 !! x = None → heap s !! x = None).
    { intros Hx2. destruct (heap s !! x) eqn:Ex; [|done].
      destruct (decide (x = hole)) as [->|Hne]; [congruence|]. destruct Hf12 as [Hf12 _].
      rewrite (Hf12 x) in Hx2; [congruence|by eexists|set_solver]. }
    clear - Hqs Hfl3 H Hx. mem.
  - destruct Hf3 as [Hf3 _]. rewrite Hf3; [by eexists|by eexists|].
    clear - Hh1 Hh2. set_solver.
  - eapply frame_trans; [exact Hf12|exact Hf3|mem|mem].
Qed.

Lemma mem_alloc_loop_spec fuel s map size alignment flags hole nh cur pre suf vpre vsuf fl :
  inv s map (pre ++ suf) (vpre ++ vsuf) fl → length pre = length vpre →
  wf_list (vpre ++ vsuf) → pow2_32 alignment → 0 < size → no_underflow alignment flags vsuf →
  hole ∉ pre ++ suf → hole ∉ fl → heap s !! hole = Some nh →
  struct_room sizeof_allocator_region s → ll_rep (heap s) cur suf → (length suf < fuel)%nat →
  ∃ r s' ps' vs' fl', mem_alloc_loop fuel map size alignment flags hole cur s = Ret r s' ∧
    inv s' map ps' (vpre ++ vs') fl' ∧ alloc_result size alignment flags vsuf r vs' ∧
    (∀ x, x ∈ ps' ++ fl' → x ∈ pre ++ suf ++ fl ∨ heap s !! x = None) ∧
    is_Some (heap s' !! hole) ∧
    frame (hole :: pre ++ suf ++ fl) map s s' ∧
    lay_grows (sizeof_allocator_region + 3) (lay s) (lay s').
Proof.
  intros Hinv Hlen Hw Hal Hsz Hnu Hh1 Hh2 Hh Hroom.
  revert fuel cur pre vpre vsuf Hinv Hlen Hw Hnu Hh1.
  induction suf as [|q suf IH]; intros fuel cur pre vpre vsuf Hinv Hlen Hw Hnu Hh1 Hcur Hfuel;
    pose proof (inv_length _ _ _ _ _ Hinv) as Hl; rewrite !length_app in Hl; simpl in Hl;
    (destruct fuel as [|fuel]; [simpl in Hfuel; lia|]); simpl.
  - destruct vsuf; simpl in Hl; [|lia]. rewrite Hcur, Z.eqb_refl.
    exists None, s, pre, [], fl. rewrite !app_nil_r in *. split; [done|]. split; [done|].
    split; [split; [done|set_solver]|]. split; [by left|]. split; [by eexists|]. split; [by split|].
    by apply lay_grows_refl.
  - destruct vsuf as [|v vsuf]; simpl in Hl; [lia|].
    destruct Hcur as (-> & Hq0 & n & Hn & Hsuf). rewrite (proj2 (Z.eqb_neq _ _) Hq0).
    step (on_load_ok _ _ _ Hn).
    destruct (inv_lookup _ _ _ _ _ _ _ _ _ Hinv Hlen) as (n' & Hn' & Hd).
    assert (n' = n) as -> by congruence.
    assert (Ea : ar_address n = ar_address v) by by rewrite <- Hd.
    assert (Es : ar_size n = ar_size v) by by rewrite <- Hd.
    assert (Ef : ar_flags n = ar_flags v) by by rewrite <- Hd.
    rewrite Ea, Es, Ef. change (_ && _) with (fits size alignment flags v).
    destruct (fits size alignment flags v) eqn:Efit.
    + destruct (wf_list_region _ v Hw ltac:(mem)) as (? & ? & ?).
      assert (Hm : flags_match flags v = true) by (apply andb_true_iff in Efit; tauto).
      destruct (fits_bounds size alignment flags v) as (Hlo & Hhi & _); try done; [by apply Hnu; [left|]|].
      destruct (take_block_spec s map pre q suf vpre v vsuf fl hole nh
        (align_address (ar_address v) alignment) size)
        as (s' & ps' & fl' & h & E & Hi & Hha & Hhs & Hrest); try done; [simpl in *; lia..|].
      eexists _, s', ps', (pieces h v ++ vsuf), fl'. split; [exact E|]. split; [done|].
      split; [|done]. exists [], v, vsuf, h. split_and!; try done. set_solver.
    + destruct (IH fuel (ar_next n) (pre ++ [q]) (vpre ++ [v]) vsuf)
        as (r & s' & ps' & vs' & fl' & E & Hi & Hres & Hps & Hho & Hf & Hg);
        rewrite <- ?app_assoc; simpl in *; try done.
      * rewrite !length_app. simpl. lia.
      * intros u Hu. apply Hnu. by right.
      * lia.
      * exists r, s', ps', (v :: vs'), fl'. split; [exact E|]. rewrite <- !app_assoc in *.
        split; [done|]. split; [|done]. destruct r as [a|]; simpl in *.
        -- destruct Hres as (l1 & u & l2 & h & -> & -> & Hl1 & Hrest).
           exists (v :: l1), u, l2, h. split_and!; try tauto. intros w [->|Hw1]%elem_of_cons; auto.
        -- destruct Hres as [-> Hno]. split; [done|]. intros w [->|Hw1]%elem_of_cons; auto.
Qed.

(** Allocation as a function on the list of regions. *)
Lemma mem_alloc_spec s map sz alignment flags ps vs fl :
  let alignment' := if alignment =? 0 then 4 else alignment in
  inv s map ps vs fl → wf_list vs → pow2_32 alignment' → 0 < sz →
  no_underflow alignment' flags vs →
  memory_start (lay s) + 2 * (sizeof_allocator_region + 3) ≤ memory_end (lay s) →
  ∃ r s' ps' vs' fl' hole, allocator_mem_alloc map sz alignment flags s = Ret r s' ∧
    inv s' map ps' vs' fl' ∧ alloc_result sz alignment' flags vs r vs' ∧
    (∀ x, x ∈ ps' ++ fl' → x ∈ ps ++ fl ∨ heap s !! x = None) ∧
    is_Some (heap s' !! hole) ∧ hole ∉ ps' ++ fl' ∧
    frame (ps ++ fl) map s s' ∧ lay_grows (2 * (sizeof_allocator_region + 3)) (lay s) (lay s').
Proof.
  intros al Hinv Hw Hal Hsz Hnu Hroom. unfold allocator_mem_alloc.
  pose proof Hinv as (_ & (_ & _ & Hlay & Hend) & _).
  destruct (alloc_inv s map ps vs fl Hinv)
    as (hole & n & s1 & fl1 & E1 & Hh0 & Hn & Hi1 & Hhp & Hhf & Hfr & Hsub & Hf1 & _ & Hg1).
  { apply struct_room_static; simpl; unfold sizeof_allocator_region in *; lia. }
  change (region_alloc (T := allocator_region)) with allocator_region_alloc in E1.
  step E1. fold al. step (eq_refl : fuel_of s1 = Ret (S (size (heap s1))) s1).
  pose proof Hi1 as ((p & Hp & Hr & Hd) & (_ & _ & Hlay1 & Hend1) & _). step (get_regions_ok _ _ _ Hp).
  pose proof (ll_rep_fuel _ _ _ Hr).
  destruct (mem_alloc_loop_spec (S (size (heap s1))) s1 map sz al flags hole n p [] ps [] vs fl1)
    as (r & s2 & ps2 & vs2 & fl2 & E2 & Hi2 & Hres & Hps & Hho & Hf2 & Hg2); try done.
  { apply struct_room_static; destruct Hg1 as (_ & ? & ?); simpl in *; unfold sizeof_allocator_region in *; lia. }
  { lia. }
  assert (Hnone : ∀ x, heap s1 !! x = None → heap s !! x = None).
  { intros x Hx. destruct (heap s !! x) eqn:Ex; [|done]. destruct (decide (x = hole)) as [->|Hne]; [congruence|].
    destruct Hf1 as [Hf1 _]. rewrite (Hf1 x) in Hx; [congruence|by eexists|set_solver]. }
  exists r, s2, ps2, vs2, fl2, hole. split_and!; try done.
  - intros x Hx. destruct (Hps x Hx) as [Hx'|Hx']; [|by right; auto]. simpl in Hx'. left.
    clear - Hsub Hx'. mem.
  - intros Hin. destruct (Hps hole Hin) as [Hin'|?]; [|congruence].
    clear - Hin' Hhp Hhf. set_solver.
  - destruct Hf1 as [Hf1 Hm1], Hf2 as [Hf2 Hm2]. split; [|intros m Hm; by rewrite Hm2, Hm1].
    intros x [y Hx] Hni. assert (x ≠ hole) by (intros ->; destruct Hfr; [set_solver|congruence]).
    rewrite Hf2; [apply Hf1; [by eexists|set_solver]|rewrite Hf1; [by eexists|by eexists|set_solver]|].
    clear - Hni Hsub H0. set_solver.
  - replace (2 * (sizeof_allocator_region + 3)) with
      (sizeof_allocator_region + 3 + (sizeof_allocator_region + 3)) by lia.
    by eapply lay_grows_trans.
Qed.

(** A region that does not fit holds no aligned block of the wanted size. *)
Lemma not_fits size alignment flags (v : allocator_region) a :
  wf_region v → pow2_32 alignment → 0 < size → padding alignment v ≤ ar_size v →
  fits size alignment flags v = false → flags_match flags v = true →
  (alignment | a) → ar_address v ≤ a → r_end v < a + size.
Proof.
  intros (Ha & Hs & He) Hal Hsz Hp [Hm|Hf]%andb_false_iff Hm' Hd Hle; [congruence|].
  bool_to_prop. unfold padding, r_end in *. simpl in *. pose proof (pow2_32_bounds _ Hal).
  destruct (Z.lt_ge_cases (ar_address v + alignment - 1) W32) as [Hlt|Hge].
  - pose proof (align_address_least (ar_address v) alignment a Hal ltac:(lia) Hlt Hd Hle).
    destruct (align_address_bounds (ar_address v) alignment Hal) as [Hb _]; [lia|done|].
    rewrite (u32_small (_ - ar_address v)) in * by lia. rewrite u32_small in Hf by lia. lia.
  - assert (W32 ≤ a); [|lia].
    destruct Hal as (k & Hk & ->). destruct Hd as [m ->].
    assert (HW : W32 = 2 ^ (32 - k) * 2 ^ k) by (rewrite <- Z.pow_add_r by lia; by replace (32 - k + k) with 32 by lia).
    destruct (Z.lt_ge_cases m (2 ^ (32 - k))); nia.
Qed.

(** ** Correctness *)

(** The outcome of an allocation in terms of the addresses that are free. *)
Definition alloc_outcome (sz alignment flags : Z) vs (r : option Z) vs' : Prop :=
  match r with
  | Some a => (alignment | a) ∧ 0 < a ∧ a + sz ≤ W32 ∧
      (∃ f, (flags = 0 ∨ f = flags) ∧ ∀ x, a ≤ x < a + sz → covers vs x f) ∧
      (∀ x f, covers vs' x f ↔ covers vs x f ∧ ¬ a ≤ x < a + sz)
  | None => vs' = vs ∧ ∀ v a, v ∈ vs → flags_match flags v = true → (alignment | a) →
      ar_address v ≤ a → r_end v < a + sz
  end.

Lemma alloc_result_outcome sz alignment flags vs r vs' :
  wf_list vs → pow2_32 alignment → 0 < sz → no_underflow alignment flags vs →
  alloc_result sz alignment flags vs r vs' →
  wf_list vs' ∧ (coalesced vs → coalesced vs') ∧ alloc_outcome sz alignment flags vs r vs' ∧
  (∀ a, r = Some a →
    (∃ v, v ∈ vs ∧ flags_match flags v = true ∧ a = align_address (ar_address v) alignment) ∧
    ∀ P Q : Z → Prop, edges P Q vs → P (a + sz) → Q a → edges P Q vs').
Proof.
  intros Hw Hal Hsz Hnu Hres. destruct r as [a|]; simpl in Hres.
  - destruct Hres as (l1 & v & l2 & h & -> & -> & _ & Hfit & -> & Hha & Hhs).
    pose proof (wf_list_region _ v Hw ltac:(mem)) as Hv. pose proof Hv as (? & ? & ?).
    assert (Hm : flags_match flags v = true) by (apply andb_true_iff in Hfit; tauto).
    destruct (fits_bounds sz alignment flags v) as (Hlo & Hhi & Hd & _); try done; [apply Hnu; [mem|done]|].
    set (a := align_address _ alignment) in *.
    assert (Hh : wf_hole h) by (unfold wf_hole, r_end; simpl in *; lia).
    assert (Hin : r_address v ≤ r_address h ∧ r_end h ≤ r_end v) by (unfold r_end in *; simpl in *; lia).
    destruct Hin as [Hin1 Hin2]. split; [by apply pieces_wf|].
    split; [apply (pieces_coalesced h l1 v l2 1); try done; simpl; lia|].
    split; [|intros ? [= <-]; split; [exists v; split; [mem|done]|]; intros P Q Hed Hda Hde;
      apply (pieces_edges P Q h l1 v l2 1); try done; unfold r_end; simpl in *; congruence].
    split_and!; try done.
    + simpl in *. lia.
    + simpl in *. lia.
    + exists (ar_flags v). split.
      * unfold flags_match in Hm. apply orb_true_iff in Hm as [?|?]; bool_to_prop; auto.
      * intros x Hx. exists v. split_and!; [mem|done|]. unfold in_region. simpl in *. lia.
    + intros x f. rewrite (cut_one_covers h l1 v l2 1) by done.
      unfold in_region, r_end. simpl in *. by rewrite Hha, Hhs.
  - destruct Hres as [-> Hno]. split; [done|]. split; [done|]. split; [|done]. split; [done|].
    intros v a Hv Hm Hd Hle. by apply (not_fits sz alignment flags v); eauto using wf_list_region.
Qed.

(** What freeing does to the set of free addresses. *)
Lemma mem_free_facts s map ps vs fl addr sz fg :
  inv s map ps vs fl → wf_list vs → struct_room sizeof_allocator_region s →
  0 < addr → 0 < sz → addr + sz ≤ W32 →
  (∀ x f, covers vs x f → ¬ addr ≤ x < addr + sz) →
  ∃ s' ps' vs' fl', allocator_mem_free map addr sz fg s = Ret tt s' ∧
    inv s' map ps' vs' fl' ∧ wf_list vs' ∧ (coalesced vs → coalesced vs') ∧
    (∀ x f, covers vs' x f ↔ covers vs x f ∨ (f = fg ∧ addr ≤ x < addr + sz)) ∧
    (∀ x, x ∈ ps' ++ fl' → x ∈ ps ++ fl ∨ heap s !! x = None) ∧
    frame (ps ++ fl) map s s' ∧ lay_grows (sizeof_allocator_region + 3) (lay s) (lay s') ∧
    (∀ P Q : Z → Prop, edges P Q vs → P addr → Q (addr + sz) → edges P Q vs').
Proof.
  intros Hinv Hw Hroom Ha Hs He Hd.
  destruct (mem_free_spec s map ps vs fl addr sz fg Hinv Hroom)
    as (s' & ps' & fl' & n & E & Hi & Hps & Hf & Hg).
  set (r := ll_data _) in *.
  assert (Hr : wf_region r) by done.
  assert (Hdis : disjoint_from r vs). { intros x c Hc Hx. apply (Hd x (r_flags c)). by exists c. }
  exists s', ps', (add_l r vs), fl'. split; [done|]. split; [done|]. split_and!; try done.
  - apply add_l_wf; try done. simpl. lia.
  - by apply add_l_coalesced.
  - intros x f. rewrite (add_l_covers 1) by done. unfold in_region, r_end. simpl.
    split; (intros [?|[? ?]]; [by left|right; split; [done|lia]]).
  - intros P Q Hal Hda Hde. by apply (add_l_edges P Q 1).
Qed.

(** C9: returning a range that is not free succeeds without a fault, adds
    exactly the addresses of the range to the free set with the given flags,
    keeps the list sorted, disjoint and fully merged, and leaves every other
    struct and map alone. *)
Theorem allocator_mem_free_correct s map ps vs fl addr sz fg :
  inv s map ps vs fl → wf_list vs → coalesced vs → struct_room sizeof_allocator_region s →
  0 < addr → 0 < sz → addr + sz ≤ W32 →
  (∀ x f, covers vs x f → ¬ addr ≤ x < addr + sz) →
  ∃ s' ps' vs' fl', allocator_mem_free map addr sz fg s = Ret tt s' ∧
    inv s' map ps' vs' fl' ∧ wf_list vs' ∧ coalesced vs' ∧
    (∀ x f, covers vs' x f ↔ covers vs x f ∨ (f = fg ∧ addr ≤ x < addr + sz)) ∧
    frame (ps ++ fl) map s s'.
Proof.
  intros. destruct (mem_free_facts s map ps vs fl addr sz fg)
    as (s' & ps' & vs' & fl' & ? & ? & ? & ? & ? & ? & ? & ? & _); try done.
  exists s', ps', vs', fl'. auto 10.
Qed.

(** C10: [allocator_range_acquire] removes exactly the addresses of the given
    range from the free set, whatever their flags, and keeps the list sorted
    and disjoint; it needs one spare struct for the case that the range lies
    strictly inside a free region. *)
Theorem allocator_range_acquire_correct s map ps vs fl junk addr sz :
  inv s map ps vs fl → wf_list vs → struct_room sizeof_allocator_region s →
  0 < addr → 0 ≤ sz → addr + sz ≤ W32 →
  ∃ s' ps' vs' fl', allocator_range_acquire junk map addr sz s = Ret tt s' ∧
    inv s' map ps' vs' fl' ∧ wf_list vs' ∧
    (∀ x f, covers vs' x f ↔ covers vs x f ∧ ¬ addr ≤ x < addr + sz) ∧
    frame (ps ++ fl) map s s'.
Proof.
  intros Hinv Hw Hroom Ha Hs He. set (h := ar_set_size sz (ar_set_address addr junk)).
  assert (Hh : wf_hole h) by done.
  destruct (region_subtract_spec map h s ps vs fl Hinv Hw Hh)
    as (s' & ps' & fl' & E & Hi & _ & Hf & _); [done|].
  exists s', ps', (subtract_l h vs), fl'. split_and!; try done.
  - by apply subtract_l_wf.
  - intros x f. by rewrite (subtract_l_covers h vs 1).
Qed.

(** C8: on a map that is well-formed, for a size above 0 and an
    alignment that is a power of two (0 stands for 4), with room for two structs
    in the static memory: if no free region of the requested kind is smaller
    than the padding up to its first aligned address, [allocator_mem_alloc]
    either returns an aligned block that was entirely free with the requested
    flags and is no longer free afterwards, nothing else having changed, or it
    returns false, the free set is as before, and no free region of the
    requested kind contains an aligned block of that size.  The struct it
    allocates for the hole is in neither list afterwards.  The condition on the
    padding is needed: see [underflow_example]. *)
Theorem allocator_mem_alloc_correct s map sz alignment flags ps vs fl :
  let alignment' := if alignment =? 0 then 4 else alignment in
  inv s map ps vs fl → wf_list vs → pow2_32 alignment' → 0 < sz →
  no_underflow alignment' flags vs →
  memory_start (lay s) + 2 * (sizeof_allocator_region + 3) ≤ memory_end (lay s) →
  ∃ r s' ps' vs' fl' hole, allocator_mem_alloc map sz alignment flags s = Ret r s' ∧
    inv s' map ps' vs' fl' ∧ wf_list vs' ∧ frame (ps ++ fl) map s s' ∧
    is_Some (heap s' !! hole) ∧ hole ∉ ps' ++ fl' ∧
    alloc_outcome sz alignment' flags vs r vs'.
Proof.
  intros al Hinv Hw Hal Hsz Hnu Hroom.
  destruct (mem_alloc_spec s map sz alignment flags ps vs fl)
    as (r & s' & ps' & vs' & fl' & hole & E & Hi & Hres & _ & Hho & Hni & Hf & _); try done.
  destruct (alloc_result_outcome sz al flags vs r vs') as (? & _ & ? & _); try done.
  exists r, s', ps', vs', fl', hole. auto 10.
Qed.

(** Freeing a block that was just allocated restores the list of regions
    to what it was, region by region. *)
Theorem allocator_alloc_free_roundtrip s map sz alignment flags ps vs fl :
  let alignment' := if alignment =? 0 then 4 else alignment in
  inv s map ps vs fl → wf_list vs → coalesced vs → pow2_32 alignment' → 0 < sz → flags ≠ 0 →
  no_underflow alignment' flags vs →
  memory_start (lay s) + 3 * (sizeof_allocator_region + 3) ≤ memory_end (lay s) →
  ∃ r s', allocator_mem_alloc map sz alignment flags s = Ret r s' ∧
    match r with
    | Some a => ∃ s'' ps'' vs'' fl'', allocator_mem_free map a sz flags s' = Ret tt s'' ∧
        inv s'' map ps'' vs'' fl'' ∧ ext <$> vs'' = ext <$> vs
    | None => True
    end.
Proof.
  intros al Hinv Hw Hco Hal Hsz Hf0 Hnu Hroom.
  destruct (mem_alloc_spec s map sz alignment flags ps vs fl)
    as (r & s' & ps' & vs' & fl' & hole & E & Hi & Hres & _ & _ & _ & _ & Hg);
    try done; [unfold sizeof_allocator_region in *; lia|].
  destruct (alloc_result_outcome sz al flags vs r vs') as (Hw' & Hco' & Hout & _); try done.
  exists r, s'. split; [done|]. destruct r as [a|]; [|done].
  destruct Hout as (_ & Ha & Hend & (f & [?|Hff] & Hfree) & Hcov); [done|subst f].
  pose proof Hi as (_ & (_ & _ & Hl' & He') & _).
  destruct (mem_free_facts s' map ps' vs' fl' a sz flags)
    as (s'' & ps'' & vs'' & fl'' & E'' & Hi'' & Hw'' & Hco'' & Hcov'' & _); try done.
  - destruct Hg as (_ & Hge & Hgs). apply struct_room_static; unfold sizeof_allocator_region in *; lia.
  - intros x f Hx. by apply Hcov in Hx as [_ ?].
  - exists s'', ps'', vs'', fl''. split_and!; try done.
    apply (coalesced_canonical 1); auto; [intros ? ? ?; by apply Z.eqb_eq|].
    intros x f. rewrite Hcov'', Hcov. split.
    + intros [[? _]|[-> ?]]; auto.
    + intros Hx. destruct (decide (a ≤ x < a + sz)) as [Hin|]; [right|by left].
      split; [|done]. eapply covers_flags; [exact Hw|exact Hx|auto].
Qed.

(** ** As the clients see it *)

Lemma mem_free_maps s ms m vs addr sz fg :
  maps_inv s ms → ms !! m = Some vs → wf_list vs →
  memory_start (lay s) + (sizeof_allocator_region + 3) ≤ memory_end (lay s) →
  0 < addr → 0 < sz → addr + sz ≤ W32 → (∀ x f, covers vs x f → ¬ addr ≤ x < addr + sz) →
  ∃ s' vs', allocator_mem_free m addr sz fg s = Ret tt s' ∧ maps_inv s' (<[m := vs']> ms) ∧
    wf_list vs' ∧ (coalesced vs → coalesced vs') ∧
    (∀ x f, covers vs' x f ↔ covers vs x f ∨ (f = fg ∧ addr ≤ x < addr + sz)) ∧
    lay_grows (sizeof_allocator_region + 3) (lay s) (lay s') ∧
    (∀ P Q : Z → Prop, edges P Q vs → P addr → Q (addr + sz) → edges P Q vs').
Proof.
  intros Hmi Hm Hw Hroom Ha Hs He Hd.
  destruct (maps_inv_lookup _ _ _ _ Hmi Hm) as (pss & ps & fl & Hat & Hps & Hi).
  pose proof Hi as (_ & (_ & _ & Hl & Hend) & _).
  destruct (mem_free_facts s m ps vs fl addr sz fg)
    as (s' & ps' & vs' & fl' & E & Hi' & Hw' & Hco & Hcov & Hown & Hf & Hg & Hal); try done.
  { apply struct_room_static; unfold sizeof_allocator_region in *; lia. }
  exists s', vs'. split; [done|]. split; [by eapply maps_inv_update|done].
Qed.

Lemma add_new_maps s ms m vs addr sz fg :
  maps_inv s ms → ms !! m = Some vs →
  memory_start (lay s) + (sizeof_allocator_region + 3) ≤ memory_end (lay s) →
  allocator_region_add_new m addr sz fg s = allocator_mem_free m addr sz fg s.
Proof.
  intros Hmi Hm Hroom. destruct (maps_inv_lookup _ _ _ _ Hmi Hm) as (pss & ps & fl & _ & _ & Hi).
  pose proof Hi as (_ & (_ & _ & Hl & Hend) & _). eapply add_new_eq; [done|].
  apply struct_room_static; unfold sizeof_allocator_region in *; lia.
Qed.

Lemma range_acquire_maps s ms m vs junk addr sz :
  maps_inv s ms → ms !! m = Some vs → wf_list vs →
  memory_start (lay s) + (sizeof_allocator_region + 3) ≤ memory_end (lay s) →
  0 < addr → 0 ≤ sz → addr + sz ≤ W32 →
  ∃ s' vs', allocator_range_acquire junk m addr sz s = Ret tt s' ∧ maps_inv s' (<[m := vs']> ms) ∧
    wf_list vs' ∧ (∀ x f, covers vs' x f ↔ covers vs x f ∧ ¬ addr ≤ x < addr + sz) ∧
    lay_grows (sizeof_allocator_region + 3) (lay s) (lay s') ∧
    vs' = subtract_l (ar_set_size sz (ar_set_address addr junk)) vs.
Proof.
  intros Hmi Hm Hw Hroom Ha Hs He.
  destruct (maps_inv_lookup _ _ _ _ Hmi Hm) as (pss & ps & fl & Hat & Hps & Hi).
  pose proof Hi as (_ & (_ & _ & Hl & Hend) & _). set (h := ar_set_size sz (ar_set_address addr junk)).
  destruct (region_subtract_spec m h s ps vs fl) as (s' & ps' & fl' & E & Hi' & Hown & Hf & Hg); try done.
  { intros _ _ _. apply struct_room_static; simpl; unfold sizeof_allocator_region in *; lia. }
  exists s', (subtract_l h vs). split; [done|]. split; [by eapply maps_inv_update|].
  split; [by apply subtract_l_wf|]. split; [|done]. intros x f. by rewrite (subtract_l_covers h vs 1).
Qed.

Lemma mem_alloc_maps s ms m vs sz alignment flags :
  let al := if alignment =? 0 then 4 else alignment in
  maps_inv s ms → ms !! m = Some vs → wf_list vs → pow2_32 al → 0 < sz → no_underflow al flags vs →
  memory_start (lay s) + 2 * (sizeof_allocator_region + 3) ≤ memory_end (lay s) →
  ∃ r s' vs', allocator_mem_alloc m sz alignment flags s = Ret r s' ∧ maps_inv s' (<[m := vs']> ms) ∧
    wf_list vs' ∧ (coalesced vs → coalesced vs') ∧ alloc_outcome sz al flags vs r vs' ∧
    lay_grows (2 * (sizeof_allocator_region + 3)) (lay s) (lay s') ∧
    (∀ a, r = Some a →
      (∃ v, v ∈ vs ∧ flags_match flags v = true ∧ a = align_address (ar_address v) al) ∧
      ∀ P Q : Z → Prop, edges P Q vs → P (a + sz) → Q a → edges P Q vs').
Proof.
  intros al Hmi Hm Hw Hal Hsz Hnu Hroom.
  destruct (maps_inv_lookup _ _ _ _ Hmi Hm) as (pss & ps & fl & Hat & Hps & Hi).
  destruct (mem_alloc_spec s m sz alignment flags ps vs fl)
    as (r & s' & ps' & vs' & fl' & hole & E & Hi' & Hres & Hown & _ & _ & Hf & Hg); try done.
  destruct (alloc_result_outcome sz al flags vs r vs') as (? & ? & ? & ?); try done.
  exists r, s', vs'. split; [done|]. split; [by eapply maps_inv_update|done].
Qed.

(** No region that starts at a multiple of the alignment needs padding. *)
Lemma starts_no_underflow al flags vs Q :
  wf_list vs → edges (λ a, (al | a)) Q vs → pow2_32 al → no_underflow al flags vs.
Proof.
  intros Hw He Hal v Hv _. destruct (He v Hv) as [Ha _].
  destruct (wf_list_region _ v Hw Hv) as (H1 & H2 & H3). unfold r_end in H3. simpl in *.
  unfold padding. rewrite align_edge; [|done|done|lia].
  rewrite Z.sub_diag. change (u32 0) with 0. lia.
Qed.
End Allocator.

(** ** A concrete state *)

Definition ex_fresh (p : Z) : allocator_region := AllocatorRegion 0 0 0 0 0.

(** One map, at address 1, with a megabyte of free memory. *)
Definition ex_region : allocator_region := AllocatorRegion 0 0 1048576 1048576 ALLOC_PM_NORMAL.
Definition ex_state : astate :=
  RState {[ 4096 := ex_region ]} NULL {[ 1 := 4096 ]} (Layout 3221225472 8192 4194304).

Lemma ex_inv : inv ex_state 1 [4096] [ex_region] [].
Proof.
  split_and!; [|split_and!|]; try done.
  - exists 4096. split_and!; [done| |by repeat constructor].
    split_and!; [done..|]. by exists ex_region.
  - intros q Hq. destruct (decide (q = 4096)) as [->|Hne]; [done|].
    simpl in Hq. rewrite lookup_singleton_ne in Hq by done. by destruct Hq.
  - set_solver.
Qed.

Lemma ex_covers x f : covers [ex_region] x f → 1048576 ≤ x < 2097152.
Proof. intros (r & ->%list_elem_of_singleton & _ & Hx). unfold in_region, r_end in Hx. simpl in Hx. lia. Qed.

Lemma allocator_mem_free_correct_witness :
  ∃ s', allocator_mem_free ex_fresh 1 2097152 4096 ALLOC_PM_NORMAL ex_state = Ret tt s'.
Proof.
  destruct (allocator_mem_free_correct ex_fresh ex_state 1 [4096] [ex_region] [] 2097152 4096 ALLOC_PM_NORMAL)
    as (s' & _ & _ & _ & E & _); try done.
  - apply ex_inv.
  - right. vm_compute. discriminate.
  - intros x f Hc. apply ex_covers in Hc. lia.
  - by exists s'.
Defined.

Lemma allocator_range_acquire_correct_witness :
  ∃ s', allocator_range_acquire ex_fresh ex_region 1 1052672 4096 ex_state = Ret tt s'.
Proof.
  destruct (allocator_range_acquire_correct ex_fresh ex_state 1 [4096] [ex_region] [] ex_region 1052672 4096)
    as (s' & _ & _ & _ & E & _); try done.
  - apply ex_inv.
  - right. vm_compute. discriminate.
  - by exists s'.
Defined.

Lemma allocator_mem_alloc_correct_witness :
  ∃ s', allocator_mem_alloc ex_fresh 1 8192 PAGE_SIZE ALLOC_PM_NORMAL ex_state = Ret (Some 1048576) s'.
Proof.
  destruct (allocator_mem_alloc_correct ex_fresh ex_state 1 8192 PAGE_SIZE ALLOC_PM_NORMAL [4096] [ex_region] [])
    as (r & s' & _ & _ & _ & _ & E & _); try done.
  - apply ex_inv.
  - apply pow2_32_page.
  - by intros v ->%list_elem_of_singleton.
  - exists s'. rewrite E. vm_compute in E. by injection E as <- _.
Defined.

Lemma allocator_alloc_free_roundtrip_witness :
  ∃ r s', allocator_mem_alloc ex_fresh 1 8192 PAGE_SIZE ALLOC_PM_NORMAL ex_state = Ret r s'.
Proof.
  destruct (allocator_alloc_free_roundtrip ex_fresh ex_state 1 8192 PAGE_SIZE ALLOC_PM_NORMAL
    [4096] [ex_region] []) as (r & s' & E & _); try done.
  - apply ex_inv.
  - apply pow2_32_page.
  - by intros v ->%list_elem_of_singleton.
  - by exists r, s'.
Defined.

(** A region of 16 bytes just above a page boundary. *)
Definition ex_small : allocator_region := AllocatorRegion 0 0 4097 16 ALLOC_PM_NORMAL.
Definition ex_small_state : astate :=
  RState {[ 4096 := ex_small ]} NULL {[ 1 := 4096 ]} (Layout 3221225472 8192 4194304).

(** Without [no_underflow] the allocator hands out memory that is not
    free: asked for a page-aligned frame when the only free region is 16 bytes
    long and starts just above a page boundary, it returns the next page. *)
Example underflow_example :
  ∃ s', allocator_mem_alloc ex_fresh 1 4096 PAGE_SIZE ALLOC_PM_NORMAL ex_small_state = Ret (Some 8192) s'
    ∧ ∀ x f, covers [ex_small] x f → x < 8192.
Proof.
  eexists. split; [vm_compute; reflexivity|].
  intros x f (r & ->%list_elem_of_singleton & _ & Hx). unfold in_region, r_end in Hx. simpl in Hx. lia.
Qed.
