(* ===== verification/VmMap.v ===== *)
(** * kernel/mm/vm_map.c and vm_map.h: the areas of an address space in use

    A [vm_map] is a sorted list of areas.  Areas are never merged, so the
    size of each one can be looked up from its start address when it is
    freed. *)

From stdpp Require Import base numbers list gmap strings fin_maps.
From S2P Require Import Prelude UtList MemUtil Range RangeSpec RangeRefine.

(** ** Data *)

(** [struct vm_map_region] *)
Record vm_map_region := VmMapRegion {
  vr_next : Z;
  vr_map : Z;
  vr_address : Z;
  vr_size : Z
}.

Definition sizeof_vm_map_region : Z := 16.

Definition vr_set_next p r := VmMapRegion p (vr_map r) (vr_address r) (vr_size r).
Definition vr_set_address a r := VmMapRegion (vr_next r) (vr_map r) a (vr_size r).
Definition vr_set_size n r := VmMapRegion (vr_next r) (vr_map r) (vr_address r) n.

(** Never merge adjacent blocks. *)
Definition vm_map_region_pre_merge (a b : vm_map_region) : bool := false.

#[export, refine] Instance vm_map_region_node : LLNode vm_map_region :=
  {| ll_next := vr_next; ll_set_next := vr_set_next |}.
Proof. all: intros; done || by destruct n. Defined.

(** Areas have no attributes yet. *)
#[export, refine] Instance vm_map_region_region : Region vm_map_region :=
  {| region_node := vm_map_region_node;
     r_address := vr_address; r_size := vr_size; r_flags := λ _, 0;
     r_set_address := vr_set_address; r_set_size := vr_set_size;
     r_pre_merge := vm_map_region_pre_merge |}.
Proof. all: done. Defined.

(** ** Operations *)
Section VmMap.
(** What a struct carved from static memory holds before it is written. *)
Variable fresh : Z → vm_map_region.

Definition vstate : Type := rstate vm_map_region.

Definition vm_map_region_alloc : M vstate Z :=
  s ← get;
  if negb (free_regions s =? NULL) then
    let region := free_regions s in
    head ← on_heap (LL_DELETE (free_regions s) (free_regions s));
    modify (set_free head);;
    mret region
  else
    p ← on_lay (kalloc_static sizeof_vm_map_region 4);
    modify (λ s, set_heap (<[p := fresh p]> (heap s)) s);;
    mret p.

Definition vm_map_region_free (region : Z) : M vstate unit :=
  s ← get;
  head ← on_heap (LL_PREPEND (free_regions s) region);
  modify (set_free head).

#[export] Instance vm_map_region_allocs : RegionAlloc vm_map_region :=
  {| region_alloc := vm_map_region_alloc; region_free := vm_map_region_free |}.

(** [MRL_IMPLS(vm_map_region, ...)] *)
Definition vm_map_region_add : Z → Z → M vstate unit := region_add.
Definition vm_map_region_find_address : Z → Z → M vstate (option Z) := region_find_address.

Definition vm_map_init (map : Z) : M vstate unit :=
  modify (λ s, set_maps (<[map := NULL]> (maps s)) s).

Definition vm_map_region_add_new (map addr size : Z) : M vstate unit :=
  region ← vm_map_region_alloc;
  assert (negb (region =? NULL)) "region";;
  on_heap (update region (vr_set_address addr));;
  on_heap (update region (vr_set_size size));;
  vm_map_region_add map region.

(** The loop runs over [map], as the code does, not over [src]. *)
Fixpoint vm_init_copy_loop (fuel : nat) (map region : Z) : M vstate unit :=
  match fuel with
  | O => nofuel
  | S fuel =>
      if region =? NULL then mret tt
      else
        r ← on_heap (load region);
        vm_map_region_add_new map (vr_address r) (vr_size r);;
        r ← on_heap (load region);
        vm_init_copy_loop fuel map (vr_next r)
  end.

Definition vm_map_init_copy (fuel : nat) (map src : Z) : M vstate unit :=
  head ← get_regions map;
  vm_init_copy_loop fuel map head.

Fixpoint remove_loop (fuel : nat) (map addr region : Z) : M vstate unit :=
  match fuel with
  | O => nofuel
  | S fuel =>
      if region =? NULL then mret tt
      else
        r ← on_heap (load region);
        if vr_address r =? addr then
          head ← get_regions map;
          head ← on_heap (LL_DELETE head region);
          set_regions map head;;
          vm_map_region_free region
        else remove_loop fuel map addr (vr_next r)
  end.

Definition vm_map_region_remove (map addr : Z) : M vstate unit :=
  fuel ← fuel_of;
  head ← get_regions map;
  remove_loop fuel map addr head.

(** ** The structs come from a pool that meets the interface of range.h *)

#[export, refine] Instance vm_map_region_pool : RegionPool vm_map_region :=
  {| region_sizeof := sizeof_vm_map_region |}.
Proof.
  - done.
  - intros s fl. exact (pool_alloc_spec sizeof_vm_map_region fresh s fl eq_refl).
  - exact pool_free_spec.
Defined.

Implicit Types (s : vstate) (vs : list vm_map_region).

(** ** Areas as pairs of address and size *)

Definition area (v : vm_map_region) : Z * Z := (vr_address v, vr_size v).

(** Areas are never merged: adding is inserting at the right place. *)
Lemma add_l_insert (r : vm_map_region) vs : add_l r vs = insert_l r vs.
Proof. induction vs as [|c vs IH]; simpl; [done|]. by rewrite IH. Qed.

Lemma insert_l_perm (r : vm_map_region) vs : insert_l r vs ≡ₚ r :: vs.
Proof.
  induction vs as [|c vs IH]; simpl; [done|]. destruct (_ <? _); [done|].
  rewrite IH. apply Permutation_swap.
Qed.

(** The abstract state of a map: start addresses and sizes of its areas. *)
Definition areas vs : gmap Z Z := list_to_map (area <$> vs).

Definition starts vs : list Z := vr_address <$> vs.

Lemma starts_areas vs : (area <$> vs).*1 = starts vs.
Proof. unfold starts. rewrite <- list_fmap_compose. done. Qed.

Lemma areas_none vs a : areas vs !! a = None ↔ a ∉ starts vs.
Proof. unfold areas. by rewrite <- starts_areas, not_elem_of_list_to_map. Qed.

Lemma areas_insert (r : vm_map_region) vs :
  NoDup (starts vs) → vr_address r ∉ starts vs →
  NoDup (starts (insert_l r vs)) ∧ areas (insert_l r vs) = <[vr_address r := vr_size r]> (areas vs).
Proof.
  intros Hnd Hni.
  assert (Hnd' : NoDup (starts (insert_l r vs))).
  { unfold starts. rewrite insert_l_perm. by apply NoDup_cons. }
  split; [done|]. unfold areas.
  rewrite (list_to_map_proper (area <$> insert_l r vs) (area <$> (r :: vs))); [done| |].
  - by rewrite starts_areas.
  - by rewrite insert_l_perm.
Qed.

(** [vm_map_region_remove] on the list. *)
Fixpoint remove_l (addr : Z) vs : list vm_map_region :=
  match vs with
  | [] => []
  | v :: vs => if vr_address v =? addr then vs else v :: remove_l addr vs
  end.

Lemma areas_remove addr vs :
  NoDup (starts vs) →
  NoDup (starts (remove_l addr vs)) ∧ (∀ a, a ∈ starts (remove_l addr vs) → a ∈ starts vs) ∧
  areas (remove_l addr vs) = delete addr (areas vs).
Proof.
  unfold areas. induction vs as [|v vs IH]; simpl.
  { intros _. split; [apply NoDup_nil_2|]. split; [done|]. symmetry. apply (delete_empty (M := gmap Z)). }
  intros [Hni Hnd]%NoDup_cons. destruct (Z.eqb_spec (vr_address v) addr) as [<-|Hne].
  - split_and!; [done|by right|]. rewrite delete_insert_id; [done|]. by apply areas_none.
  - destruct (IH Hnd) as (Hnd' & Hsub & Heq). split_and!.
    + apply NoDup_cons. split; [|done]. intros Hin. apply Hni. auto.
    + intros a. simpl. rewrite !elem_of_cons. naive_solver.
    + rewrite fmap_cons. simpl. by rewrite Heq, delete_insert_ne.
Qed.

Lemma remove_l_wf lo addr vs : wf_from lo vs → wf_from lo (remove_l addr vs).
Proof.
  revert lo. induction vs as [|v vs IH]; intros lo; simpl; [done|]. intros (Hlo & Hv & Hw).
  destruct (_ =? _); [|by split_and!; auto].
  eapply wf_from_weaken; [|exact Hw]. unfold wf_region, r_end in *. simpl in *. lia.
Qed.

(** ** The pointer code *)

Lemma vm_add_new_spec s map ps vs fl addr sz :
  inv s map ps vs fl → struct_room sizeof_vm_map_region s →
  ∃ s' ps' fl' r, vm_map_region_add_new map addr sz s = Ret tt s' ∧ area r = (addr, sz) ∧
    inv s' map ps' (insert_l r vs) fl' ∧
    (∀ x, x ∈ ps' ++ fl' → x ∈ ps ++ fl ∨ heap s !! x = None) ∧
    frame (ps ++ fl) map s s' ∧ lay_grows (sizeof_vm_map_region + 3) (lay s) (lay s').
Proof.
  intros Hinv Hroom. unfold vm_map_region_add_new.
  destruct (alloc_inv s map ps vs fl Hinv)
    as (np & n & s1 & fl1 & E & Hnp & Hn & Hi1 & Hps & Hnf & Hfr & Hsub & Hf1 & _ & Hg); [done|].
  change (region_alloc (T := vm_map_region)) with vm_map_region_alloc in E. step E.
  rewrite (proj2 (Z.eqb_neq _ _) Hnp). step (ret_ok tt s1).
  destruct (update_other_spec _ _ _ _ _ np n (vr_set_address addr) Hi1 Hps Hnf Hn)
    as (s2 & E2 & Hi2 & Hf2 & Hn2 & Hl2). step E2.
  destruct (update_other_spec _ _ _ _ _ np _ (vr_set_size sz) Hi2 Hps Hnf Hn2)
    as (s3 & E3 & Hi3 & Hf3 & Hn3 & Hl3). step E3.
  destruct (region_add_spec map np _ s3 ps vs fl1 Hi3 Hnp Hps Hnf ltac:(by rewrite Hn3))
    as (s4 & ps4 & fl4 & E4 & Hi4 & Hps4 & Hf4 & Hl4).
  rewrite add_l_insert in Hi4. eexists s4, ps4, fl4, _. split; [exact E4|]. split; [|split; [exact Hi4|]]; [done|].
  assert (HX : ∀ x, x ∈ np :: ps ++ fl1 → x ∈ ps ++ fl ∨ heap s !! x = None) by (clear - Hfr Hsub; mem).
  split; [auto|]. rewrite Hl4, Hl3, Hl2. split; [|done].
  assert (Hf13 : frame [np] map s s3).
  { apply (frame_trans [np] [np] [np] _ _ s2); try done. by apply (frame_trans [np] [np] [np] _ _ s1). }
  apply (frame_absorb [np] (np :: ps ++ fl1) _ _ s s3); [done|done| |].
  - intros x Hx%list_elem_of_singleton [? ?]. subst x. destruct (HX np ltac:(by left)); [done|congruence].
  - intros x Hx [? ?]. destruct (HX x Hx); [done|congruence].
Qed.

Lemma remove_loop_spec fuel map addr s cur pre suf vpre vsuf fl :
  inv s map (pre ++ suf) (vpre ++ vsuf) fl → length pre = length vpre →
  ll_rep (heap s) cur suf → (length suf < fuel)%nat →
  ∃ s' ps' fl', remove_loop fuel map addr cur s = Ret tt s' ∧
    inv s' map ps' (vpre ++ remove_l addr vsuf) fl' ∧
    (∀ x, x ∈ ps' ++ fl' → x ∈ pre ++ suf ++ fl) ∧ frame (pre ++ suf) map s s' ∧ lay s' = lay s ∧
    (∀ x, ll_data <$> heap s' !! x = ll_data <$> heap s !! x).
Proof.
  revert fuel cur pre vpre vsuf. induction suf as [|q suf IH];
    intros fuel cur pre vpre vsuf Hinv Hlen Hcur Hfuel;
    pose proof (inv_length _ _ _ _ _ Hinv) as Hl; rewrite !length_app in Hl; simpl in Hl;
    (destruct fuel as [|fuel]; [simpl in Hfuel; lia|]); simpl.
  - destruct vsuf; simpl in Hl; [|lia]. rewrite Hcur, Z.eqb_refl.
    exists s, pre, fl. rewrite !app_nil_r in *. split; [done|]. split; [done|].
    split; [done|]. split; [by split|done].
  - destruct vsuf as [|v vsuf]; simpl in Hl; [lia|].
    destruct Hcur as (-> & Hq0 & n & Hn & Hsuf). rewrite (proj2 (Z.eqb_neq _ _) Hq0).
    step (on_load_ok _ _ _ Hn).
    destruct (inv_lookup _ _ _ _ _ _ _ _ _ Hinv Hlen) as (n' & Hn' & Hd).
    assert (n' = n) as -> by congruence.
    assert (Ea : vr_address n = vr_address v) by by rewrite <- Hd. rewrite Ea. simpl.
    destruct (vr_address v =? addr) eqn:E.
    + destruct (delete_free_spec s map pre q suf vpre v vsuf fl Hinv Hlen)
        as (s' & Es & Hi & Hf & Hlay & Hdata).
      exists s', (pre ++ suf), (q :: fl). split; [exact Es|]. split; [exact Hi|].
      split; [mem|]. split; [eapply frame_mono; [exact Hf|mem]|done].
    + destruct (IH fuel (vr_next n) (pre ++ [q]) (vpre ++ [v]) vsuf)
        as (s' & ps' & fl' & Es & Hi & Hps & Hf & Hlay & Hdata);
        rewrite <- ?app_assoc; simpl in *; try done.
      * rewrite !length_app. simpl. lia.
      * lia.
      * exists s', ps', fl'. split; [exact Es|]. rewrite <- !app_assoc in *. done.
Qed.

Lemma vm_remove_spec s map ps vs fl addr :
  inv s map ps vs fl →
  ∃ s' ps' fl', vm_map_region_remove map addr s = Ret tt s' ∧
    inv s' map ps' (remove_l addr vs) fl' ∧
    (∀ x, x ∈ ps' ++ fl' → x ∈ ps ++ fl) ∧ frame ps map s s' ∧ lay s' = lay s ∧
    (∀ x, ll_data <$> heap s' !! x = ll_data <$> heap s !! x).
Proof.
  intros Hinv. pose proof Hinv as ((p & Hp & Hr & Hd) & _).
  unfold vm_map_region_remove. step (eq_refl : fuel_of s = Ret (S (size (heap s))) s).
  step (get_regions_ok _ _ _ Hp). pose proof (ll_rep_fuel _ _ _ Hr).
  apply (remove_loop_spec _ _ _ _ _ [] ps [] vs); try done. lia.
Qed.

(** [vm_map_region_find_address] finds the struct of the area, if there is one. *)
Lemma vm_find_spec s map ps vs fl addr :
  inv s map ps vs fl →
  ∃ r, vm_map_region_find_address map addr s = Ret r s ∧
    match r with
    | Some q => ∃ n, heap s !! q = Some n ∧ areas vs !! addr = Some (vr_size n)
    | None => areas vs !! addr = None
    end.
Proof.
  intros Hinv. eexists. split; [by eapply region_find_address_spec|].
  destruct Hinv as ((p & Hp & Hr & Hd) & _). clear Hp Hr.
  induction Hd as [|q v ps vs Hq Hd IH]; simpl; [done|]. unfold areas. simpl.
  destruct (Z.eqb_spec (vr_address v) addr) as [<-|Hne].
  - destruct (heap s !! q) as [n|] eqn:Hn; [|done]. injection Hq as Hq. exists n. split; [done|].
    rewrite lookup_insert_eq. by rewrite <- Hq.
  - rewrite lookup_insert_ne by done. apply IH.
Qed.

(** ** The map implements a finite map from start addresses to sizes *)

(** Recording an area whose start address is not in use updates the
    abstract map at exactly that address and keeps the areas sorted and
    disjoint when the new one overlaps none of them. *)
Theorem vm_map_region_add_new_refines s map ps vs fl addr sz :
  inv s map ps vs fl → NoDup (starts vs) → areas vs !! addr = None →
  struct_room sizeof_vm_map_region s →
  ∃ s' ps' vs' fl', vm_map_region_add_new map addr sz s = Ret tt s' ∧
    inv s' map ps' vs' fl' ∧ NoDup (starts vs') ∧ areas vs' = <[addr := sz]> (areas vs) ∧
    (wf_list vs → 0 < addr → 0 < sz → addr + sz ≤ W32 →
     (∀ x f, covers vs x f → ¬ addr ≤ x < addr + sz) → wf_list vs') ∧
    frame (ps ++ fl) map s s'.
Proof.
  intros Hinv Hnd Hno%areas_none Hroom.
  destruct (vm_add_new_spec s map ps vs fl addr sz Hinv Hroom)
    as (s' & ps' & fl' & r & E & [= <- <-] & Hi & _ & Hf & _).
  destruct (areas_insert r vs Hnd Hno) as [Hnd' Ha].
  exists s', ps', (insert_l r vs), fl'. split_and!; try done.
  intros Hw Ha0 Hs0 He Hdis. rewrite <- add_l_insert. apply add_l_wf; try done; [simpl; lia|].
  intros x c Hc Hx. apply (Hdis x 0). by exists c.
Qed.

(** Removing the area that starts at an address deletes it from the
    abstract map, and is a no-op when there is none; the contents of every
    struct, links apart, survive, so a caller may still read the size of the
    area it removed. *)
Theorem vm_map_region_remove_refines s map ps vs fl addr :
  inv s map ps vs fl → NoDup (starts vs) →
  ∃ s' ps' vs' fl', vm_map_region_remove map addr s = Ret tt s' ∧
    inv s' map ps' vs' fl' ∧ NoDup (starts vs') ∧ areas vs' = delete addr (areas vs) ∧
    (wf_list vs → wf_list vs') ∧
    (∀ x, ll_data <$> heap s' !! x = ll_data <$> heap s !! x) ∧ frame ps map s s'.
Proof.
  intros Hinv Hnd. destruct (vm_remove_spec s map ps vs fl addr Hinv)
    as (s' & ps' & fl' & E & Hi & _ & Hf & _ & Hdata).
  destruct (areas_remove addr vs Hnd) as (Hnd' & _ & Ha).
  exists s', ps', (remove_l addr vs), fl'. split_and!; try done. apply remove_l_wf.
Qed.

(** Copying into an empty map leaves it empty whatever the source map
    holds: the loop of [vm_map_init_copy] runs over the destination. *)
Theorem vm_map_init_copy_empty s map src fuel :
  maps s !! map = Some NULL → vm_map_init_copy (S fuel) map src s = Ret tt s.
Proof. intros Hm. unfold vm_map_init_copy. by step (get_regions_ok _ _ _ Hm). Qed.

(** ** As the clients see it *)

Lemma vm_add_maps s ms m vs addr sz :
  maps_inv s ms → ms !! m = Some vs → NoDup (starts vs) → areas vs !! addr = None →
  memory_start (lay s) + (sizeof_vm_map_region + 3) ≤ memory_end (lay s) →
  ∃ s' vs', vm_map_region_add_new m addr sz s = Ret tt s' ∧ maps_inv s' (<[m := vs']> ms) ∧
    NoDup (starts vs') ∧ areas vs' = <[addr := sz]> (areas vs) ∧
    lay_grows (sizeof_vm_map_region + 3) (lay s) (lay s').
Proof.
  intros Hmi Hm Hnd Hno%areas_none Hroom.
  destruct (maps_inv_lookup _ _ _ _ Hmi Hm) as (pss & ps & fl & Hat & Hps & Hi).
  pose proof Hi as (_ & (_ & _ & Hl & Hend) & _).
  destruct (vm_add_new_spec s m ps vs fl addr sz Hi)
    as (s' & ps' & fl' & r & E & [= <- <-] & Hi' & Hown & Hf & Hg).
  { apply struct_room_static; unfold sizeof_vm_map_region in *; lia. }
  destruct (areas_insert r vs Hnd Hno) as [Hnd' Ha].
  exists s', (insert_l r vs). split; [done|]. split; [by eapply maps_inv_update|done].
Qed.

Lemma vm_remove_maps s ms m vs addr :
  maps_inv s ms → ms !! m = Some vs → NoDup (starts vs) →
  ∃ s' vs', vm_map_region_remove m addr s = Ret tt s' ∧ maps_inv s' (<[m := vs']> ms) ∧
    NoDup (starts vs') ∧ areas vs' = delete addr (areas vs) ∧ lay s' = lay s ∧
    (∀ x, ll_data <$> heap s' !! x = ll_data <$> heap s !! x).
Proof.
  intros Hmi Hm Hnd. destruct (maps_inv_lookup _ _ _ _ Hmi Hm) as (pss & ps & fl & Hat & Hps & Hi).
  destruct (vm_remove_spec s m ps vs fl addr Hi) as (s' & ps' & fl' & E & Hi' & Hown & Hf & Hl & Hdata).
  destruct (areas_remove addr vs Hnd) as (Hnd' & _ & Ha).
  exists s', (remove_l addr vs). split; [done|]. split; [|done].
  eapply (maps_inv_update s s' ms m pss ps vs _ ps' fl fl'); try done.
  - eapply frame_mono; [exact Hf|mem].
  - auto.
Qed.

Lemma vm_find_maps s ms m vs addr :
  maps_inv s ms → ms !! m = Some vs →
  ∃ r, vm_map_region_find_address m addr s = Ret r s ∧
    match r with
    | Some q => ∃ n, heap s !! q = Some n ∧ areas vs !! addr = Some (vr_size n)
    | None => areas vs !! addr = None
    end.
Proof.
  intros Hmi Hm. destruct (maps_inv_lookup _ _ _ _ Hmi Hm) as (pss & ps & fl & Hat & Hps & Hi).
  by eapply vm_find_spec.
Qed.
End VmMap.

(** ** A concrete state *)

Definition ex_vfresh (p : Z) : vm_map_region := VmMapRegion 0 0 0 0.
Definition ex_area : vm_map_region := VmMapRegion 0 0 4096 8192.
Definition ex_vstate : vstate :=
  RState {[ 64 := ex_area ]} NULL {[ 1 := 64; 2 := NULL ]} (Layout 3221225472 8192 4194304).

Lemma ex_vinv : inv ex_vstate 1 [64] [ex_area] [].
Proof.
  split_and!; [|split_and!|]; try done.
  - exists 64. split_and!; [done| |by repeat constructor]. split_and!; [done..|]. by exists ex_area.
  - intros q Hq. destruct (decide (q = 64)) as [->|Hne]; [done|].
    simpl in Hq. rewrite lookup_singleton_ne in Hq by done. by destruct Hq.
  - set_solver.
Qed.

Lemma vm_map_region_add_new_refines_witness :
  ∃ s', vm_map_region_add_new ex_vfresh 1 16384 4096 ex_vstate = Ret tt s'.
Proof.
  destruct (vm_map_region_add_new_refines ex_vfresh ex_vstate 1 [64] [ex_area] [] 16384 4096)
    as (s' & _ & _ & _ & E & _); try done.
  - apply ex_vinv.
  - apply NoDup_singleton.
  - right. vm_compute. discriminate.
  - by exists s'.
Defined.

Lemma vm_map_region_remove_refines_witness :
  ∃ s', vm_map_region_remove 1 4096 ex_vstate = Ret tt s'.
Proof.
  destruct (vm_map_region_remove_refines ex_vfresh ex_vstate 1 [64] [ex_area] [] 4096)
    as (s' & _ & _ & _ & E & _).
  - apply ex_vinv.
  - apply NoDup_singleton.
  - by exists s'.
Defined.

Lemma vm_map_init_copy_empty_witness :
  vm_map_init_copy ex_vfresh 1 2 1 ex_vstate = Ret tt ex_vstate.
Proof. by apply (vm_map_init_copy_empty ex_vfresh ex_vstate 2 1 0). Defined.
