(* ===== verification/Paging.v ===== *)
(** * kernel/ia32/paging.c and arch/paging.h: two-level page tables

    A page directory has 1024 entries, each the frame of a page table with
    1024 entries; every entry is a page frame or'd with attribute bits.
    [paging_map] fills in entries, allocating tables from static memory, and
    [paging_unmap] clears them.  [translate] is the walk the processor does;
    the theorems say what the two functions do to it.

    A pointer to a directory entry is the address of the directory and an
    index.  The tables live at their kernel virtual address, which is the
    physical address in the directory entry plus [KERNEL_VMA]. *)

From stdpp Require Import base numbers list gmap strings fin_maps.
From S2P Require Import Prelude MemUtil.

(** ** Constants *)

Definition PDT_ENTRIES : Z := 1024.
Definition PT_ENTRIES : Z := 1024.
Abbreviation PDT_KERNEL_START := 768 (only parsing).

Definition I86_PDE_PRESENT : Z := 1.
Abbreviation I86_PDE_WRITABLE := 2 (only parsing).
Abbreviation I86_PDE_USER := 4 (only parsing).
Abbreviation I86_PDE_4MB := 128 (only parsing).
Definition I86_PDE_FRAME : Z := 4294963200. (* 0xFFFFF000 *)
Abbreviation I86_PTE_PRESENT := 1 (only parsing).
Abbreviation I86_PTE_WRITABLE := 2 (only parsing).
Abbreviation I86_PTE_USER := 4 (only parsing).
Abbreviation I86_PTE_FRAME := 4294963200 (only parsing).

(** ** Entries *)

Definition paging_set_attr (e attr : Z) : Z := Z.lor e attr.
Definition paging_clear_attr (e attr : Z) : Z := Z.land e (u32 (Z.lnot attr)).

Definition paging_pd_entry_invl (e : Z) : Z := paging_clear_attr e I86_PDE_PRESENT.
Definition paging_pd_entry_zero (e : Z) : Z := 0.
Definition paging_pd_entry_present (e : Z) : Z := paging_set_attr e I86_PDE_PRESENT.
Definition paging_pd_entry_is_present (e : Z) : bool := negb (Z.land e I86_PDE_PRESENT =? 0).
Definition paging_pd_entry_writable (e : Z) : Z := paging_set_attr e I86_PDE_WRITABLE.

Definition paging_pd_entry_set_flags (e flags mask : Z) : Z :=
  let flags_and_frame_mask := Z.lor mask I86_PDE_FRAME in
  Z.lor (Z.land e flags_and_frame_mask) flags.

Definition paging_pd_entry_set_frame {S} (e frame : Z) : M S Z :=
  if negb (Z.land frame (u32 (Z.lnot I86_PDE_FRAME)) =? 0) then panic "frame not page aligned"
  else mret (Z.lor (Z.land e (u32 (Z.lnot I86_PDE_FRAME))) frame).

Definition paging_pd_entry_get_frame (e : Z) : Z := Z.land e I86_PDE_FRAME.

Definition paging_pd_entry_id_for_addr (addr : Z) : Z := addr / PAGE_SIZE / PT_ENTRIES.

Definition paging_pt_entry_id_for_addr {S} (addr : Z) : M S Z :=
  let pt_mask := u32 (PAGE_SIZE * PT_ENTRIES - 1) in
  let id := Z.land addr pt_mask / PAGE_SIZE in
  assert (id <? PT_ENTRIES) "id < PT_ENTRIES";;
  mret id.

(** ** State *)

(** The directories and tables by address, the two directory pointers of
    paging.c, the control registers and the layout. *)
Record pstate := PState {
  pdirs : gmap Z (list Z);
  ptabs : gmap Z (list Z);
  _kernel_page_dir : Z;
  _current_page_dir : Z;
  cr3 : Z;
  cr0_pg : bool;
  play : layout
}.

Definition set_pdirs d s := PState d (ptabs s) (_kernel_page_dir s) (_current_page_dir s) (cr3 s) (cr0_pg s) (play s).
Definition set_ptabs t s := PState (pdirs s) t (_kernel_page_dir s) (_current_page_dir s) (cr3 s) (cr0_pg s) (play s).
Definition set_kernel_pd p s := PState (pdirs s) (ptabs s) p (_current_page_dir s) (cr3 s) (cr0_pg s) (play s).
Definition set_current_pd p s := PState (pdirs s) (ptabs s) (_kernel_page_dir s) p (cr3 s) (cr0_pg s) (play s).
Definition set_cr3 v s := PState (pdirs s) (ptabs s) (_kernel_page_dir s) (_current_page_dir s) v (cr0_pg s) (play s).
Definition set_pg b s := PState (pdirs s) (ptabs s) (_kernel_page_dir s) (_current_page_dir s) (cr3 s) b (play s).
Definition set_play l s := PState (pdirs s) (ptabs s) (_kernel_page_dir s) (_current_page_dir s) (cr3 s) (cr0_pg s) l.

(** Access to element [i] of the array at [p]; outside it the code is undefined. *)
Definition arr_load (a : gmap Z (list Z)) (p i : Z) : option Z :=
  if i <? 0 then None else es ← a !! p; es !! Z.to_nat i.
Definition arr_store (a : gmap Z (list Z)) (p i v : Z) : option (gmap Z (list Z)) :=
  if i <? 0 then None
  else es ← a !! p; if decide (Z.to_nat i < length es)%nat
    then Some (<[p := <[Z.to_nat i := v]> es]> a) else None.

Definition load_pde (ptd i : Z) : M pstate Z := λ s,
  match arr_load (pdirs s) ptd i with Some e => Ret e s | None => Fault end.
Definition store_pde (ptd i e : Z) : M pstate unit := λ s,
  match arr_store (pdirs s) ptd i e with Some d => Ret tt (set_pdirs d s) | None => Fault end.
Definition store_pte (pt i e : Z) : M pstate unit := λ s,
  match arr_store (ptabs s) pt i e with Some t => Ret tt (set_ptabs t s) | None => Fault end.

(** ** Operations *)
Section Paging.
(** The linker symbol: kernel virtual address of physical address 0. *)
Variable KERNEL_VMA : Z.

Definition paging_pd_current : M pstate Z := s ← get; mret (_current_page_dir s).

Definition paging_pt_for_pd_entry (e : Z) : Z :=
  let frame := paging_pd_entry_get_frame e in
  if negb (frame =? 0) then u32 (frame + KERNEL_VMA) else NULL.

Definition paging_pd_install_pt (ptd i pt flags : Z) : M pstate unit :=
  e ← load_pde ptd i;
  e ← paging_pd_entry_set_frame e (u32 (pt - KERNEL_VMA));
  store_pde ptd i e;;
  e ← load_pde ptd i;
  store_pde ptd i (paging_pd_entry_set_flags e flags 0).

(** [memset] leaves the new table zeroed. *)
Definition paging_alloc_static_pt : M pstate Z :=
  pt ← zoom play set_play (kalloc_static (4 * PT_ENTRIES) PAGE_SIZE);
  modify (λ s, set_ptabs (<[pt := replicate (Z.to_nat PT_ENTRIES) 0]> (ptabs s)) s);;
  mret pt.

Fixpoint pt_map_loop (n : nat) (pt i addr flags : Z) : M pstate unit :=
  match n with
  | O => mret tt
  | S n =>
      store_pte pt i (Z.lor addr flags);;
      pt_map_loop n pt (i + 1) (u32 (addr + PAGE_SIZE)) flags
  end.

Definition paging_pt_map (pt vaddr base_addr pages flags : Z) : M pstate Z :=
  pt_id ← paging_pt_entry_id_for_addr vaddr;
  let pt_end_id := u32 (pt_id + pages) in
  let '(actual_pages, pt_end_id) :=
    if PT_ENTRIES <? pt_end_id then (u32 (pages - (pt_end_id - PT_ENTRIES)), PT_ENTRIES)
    else (pages, pt_end_id) in
  pt_map_loop (Z.to_nat (pt_end_id - pt_id)) pt pt_id base_addr flags;;
  mret actual_pages.

Fixpoint pt_unmap_loop (n : nat) (pt i : Z) : M pstate unit :=
  match n with
  | O => mret tt
  | S n => store_pte pt i 0;; pt_unmap_loop n pt (i + 1)
  end.

Definition paging_pt_unmap (pt vaddr pages : Z) : M pstate unit :=
  pt_id ← paging_pt_entry_id_for_addr vaddr;
  let pt_end_id := u32 (pt_id + pages) in
  assert (pt_end_id <=? PT_ENTRIES) "pt_end_id <= PT_ENTRIES";;
  pt_unmap_loop (Z.to_nat (pt_end_id - pt_id)) pt pt_id.

(** The loop of [paging_unmap]; at most [pages] iterations. *)
Fixpoint unmap_loop (fuel : nat) (ptd vaddr size pages : Z) : M pstate unit :=
  if pages =? 0 then assert (size =? 0) "size == 0"
  else match fuel with
  | O => nofuel
  | S fuel =>
      let pde := paging_pd_entry_id_for_addr vaddr in
      e ← load_pde ptd pde;
      let pt := paging_pt_for_pd_entry e in
      if pt =? NULL then panic "page table not installed. can't unmap"
      else if negb (paging_pd_entry_is_present e) then panic "paging pd entry is not present"
      else
        pt_id ← paging_pt_entry_id_for_addr vaddr;
        let cur_pages := Z.min pages (PT_ENTRIES - pt_id) in
        paging_pt_unmap pt vaddr cur_pages;;
        let incr := u32 (cur_pages * PAGE_SIZE) in
        unmap_loop fuel ptd (u32 (vaddr + incr)) (u32 (size - incr)) (pages - cur_pages)
  end.

Definition paging_unmap (ptd vaddr size : Z) : M pstate unit :=
  assert (align_address vaddr PAGE_SIZE =? vaddr) "align_address(vaddr, PAGE_SIZE) == vaddr";;
  assert (align_address size PAGE_SIZE =? size) "align_address(size, PAGE_SIZE) == size";;
  let pages := size / PAGE_SIZE in
  unmap_loop (Z.to_nat pages) ptd vaddr size pages.

(** The page table of a directory entry, allocated and installed if need be. *)
Definition get_pt (ptd pde : Z) : M pstate Z :=
  e ← load_pde ptd pde;
  if paging_pt_for_pd_entry e =? NULL then
    pt ← paging_alloc_static_pt;
    if pt =? NULL then panic "couldn't alloc page table"
    else
      paging_pd_install_pt ptd pde pt (Z.lor (Z.lor I86_PDE_PRESENT I86_PDE_WRITABLE) I86_PDE_USER);;
      mret pt
  else if negb (paging_pd_entry_is_present e) then panic "paging pd entry is not present"
  else mret (paging_pt_for_pd_entry e).

(** The loop of [paging_map]: [vaddr] and [base_addr] are the same in every
    iteration, as in the code, which only advances the unused [addr]. *)
Fixpoint map_loop (fuel : nat) (ptd base_addr vaddr flags size pages : Z) : M pstate unit :=
  if size =? 0 then mret tt
  else match fuel with
  | O => nofuel
  | S fuel =>
      let pde := paging_pd_entry_id_for_addr vaddr in
      pt ← get_pt ptd pde;
      pt_id ← paging_pt_entry_id_for_addr vaddr;
      let cur_pages := Z.min pages (PT_ENTRIES - pt_id) in
      _ ← paging_pt_map pt vaddr base_addr cur_pages flags;
      map_loop fuel ptd base_addr vaddr flags (u32 (size - u32 (cur_pages * PAGE_SIZE)))
        (pages - cur_pages)
  end.

Definition paging_map (ptd base_addr size vaddr flags : Z) : M pstate unit :=
  assert (align_address vaddr PAGE_SIZE =? vaddr) "align_address(vaddr, PAGE_SIZE) == vaddr";;
  assert (align_address size PAGE_SIZE =? size) "align_address(size, PAGE_SIZE) == size";;
  let pages := size / PAGE_SIZE in
  map_loop (Z.to_nat pages) ptd base_addr vaddr flags size pages.

Definition paging_identity_map (ptd base_addr size flags : Z) : M pstate unit :=
  paging_map ptd base_addr size base_addr flags.

(** The loop clears the kernel's directory, whatever [pd] is. *)
Fixpoint pd_init_loop (n : nat) (i : Z) : M pstate unit :=
  match n with
  | O => mret tt
  | S n =>
      s ← get;
      e ← load_pde (_kernel_page_dir s) i;
      store_pde (_kernel_page_dir s) i (paging_pd_entry_zero e);;
      pd_init_loop n (i + 1)
  end.

Definition paging_pd_init (pd : Z) : M pstate unit := pd_init_loop (Z.to_nat PDT_ENTRIES) 0.

(** [garbage] is what the static memory of the directory holds at first. *)
Definition paging_init_kernel_page_dir (garbage : list Z) : M pstate unit :=
  pd ← zoom play set_play (kalloc_static (4 * PDT_ENTRIES) PAGE_SIZE);
  modify (λ s, set_kernel_pd pd (set_pdirs (<[pd := garbage]> (pdirs s)) s));;
  paging_pd_init pd.

Definition paging_map_kernel (ptd : Z) : M pstate unit :=
  s ← get;
  let start := align_address_down (segment_start (play s)) (PT_ENTRIES * PAGE_SIZE) in
  let size := u32 (memory_end (play s) - start) in
  paging_map ptd 0 size start (Z.lor (Z.lor I86_PTE_PRESENT I86_PTE_WRITABLE) I86_PTE_USER).

Definition paging_load_page_dir (pd : Z) : M pstate unit :=
  modify (set_current_pd pd);;
  modify (set_cr3 (u32 (pd - KERNEL_VMA))).

Definition paging_enable : M pstate unit := modify (set_pg true).

(** Reloading cr3 with its own value: the translation caches are not modelled. *)
Definition paging_flush : M pstate unit := s ← get; modify (set_cr3 (cr3 s)).

Definition paging_init (garbage : list Z) : M pstate unit :=
  paging_init_kernel_page_dir garbage;;
  s ← get;
  paging_identity_map (_kernel_page_dir s) 0 (PT_ENTRIES * PAGE_SIZE)
    (Z.lor (Z.lor I86_PTE_PRESENT I86_PTE_WRITABLE) I86_PTE_USER);;
  paging_map_kernel (_kernel_page_dir s);;
  paging_load_page_dir (_kernel_page_dir s);;
  paging_enable.

Definition paging_cleanup_bootstrap : M pstate unit :=
  s ← get;
  paging_unmap (_kernel_page_dir s) 0 (PT_ENTRIES * PAGE_SIZE).

(** ** The processor's page walk *)

(** The page table entry the processor reaches for [v]: both entries must be
    present; pages of 4 MB are not used. *)
Definition walk (s : pstate) (ptd v : Z) : option Z :=
  e ← arr_load (pdirs s) ptd (v / (PAGE_SIZE * PT_ENTRIES));
  if Z.testbit e 0 then
    pte ← arr_load (ptabs s) (u32 (Z.land e I86_PDE_FRAME + KERNEL_VMA)) (v / PAGE_SIZE mod PT_ENTRIES);
    if Z.testbit pte 0 then Some pte else None
  else None.

Definition translate (s : pstate) (ptd v : Z) : option Z :=
  pte ← walk s ptd v;
  Some (Z.land pte I86_PTE_FRAME + v mod PAGE_SIZE).

(** ** Bits of an entry *)

Lemma testbit_frame n : 0 ≤ n → Z.testbit I86_PDE_FRAME n = (12 <=? n) && (n <? 32).
Proof.
  intros Hn. change I86_PDE_FRAME with (Z.shiftl (Z.ones 20) 12).
  rewrite Z.shiftl_spec, Z.testbit_ones by lia.
  destruct (Z.leb_spec 12 n), (Z.ltb_spec n 32), (Z.leb_spec 0 (n - 12)), (Z.ltb_spec (n - 12) 20); try lia; done.
Qed.

Lemma testbit_aligned a n : (PAGE_SIZE | a) → n < 12 → Z.testbit a n = false.
Proof.
  intros [k ->] Hn. change PAGE_SIZE with (2 ^ 12). destruct (Z.lt_ge_cases n 0).
  - by apply Z.testbit_neg_r.
  - by rewrite Z.mul_pow2_bits_low by lia.
Qed.

Lemma testbit_small f k n : 0 ≤ f < 2 ^ k → 0 ≤ k ≤ n → Z.testbit f n = false.
Proof. intros Hf Hn. rewrite <- (Z.mod_small f (2 ^ k)) by lia. by rewrite Z.mod_pow2_bits_high by lia. Qed.

Lemma frame_entry a f :
  (PAGE_SIZE | a) → 0 ≤ a < W32 → 0 ≤ f < PAGE_SIZE → Z.land (Z.lor a f) I86_PDE_FRAME = a.
Proof.
  intros Ha Hr Hf. apply Z.bits_inj'. intros n Hn.
  rewrite Z.land_spec, Z.lor_spec, testbit_frame by done.
  destruct (Z.leb_spec 12 n), (Z.ltb_spec n 32); simpl; rewrite ?andb_false_r, ?andb_true_r.
  - rewrite (testbit_small f 12); [by rewrite orb_false_r|done|lia].
  - by rewrite (testbit_small a 32 n) by lia.
  - by rewrite testbit_aligned by done.
  - lia.
Qed.

Lemma entry_bit0 a f : (PAGE_SIZE | a) → Z.testbit (Z.lor a f) 0 = Z.testbit f 0.
Proof. intros Ha. by rewrite Z.lor_spec, testbit_aligned. Qed.

Lemma land_offset_aligned a :
  (PAGE_SIZE | a) → 0 ≤ a < W32 → Z.land a (u32 (Z.lnot I86_PDE_FRAME)) = 0.
Proof.
  intros [k ->] Ha. change (u32 (Z.lnot I86_PDE_FRAME)) with (Z.ones 12).
  rewrite Z.land_ones by lia. change PAGE_SIZE with (2 ^ 12). by rewrite Z.mod_mul.
Qed.

Lemma frame_aligned e : (PAGE_SIZE | Z.land e I86_PDE_FRAME).
Proof.
  apply Z.mod_divide; [done|]. change PAGE_SIZE with (2 ^ 12). rewrite <- Z.land_ones by lia.
  rewrite <- Z.land_assoc. change (Z.land I86_PDE_FRAME (Z.ones 12)) with 0. apply Z.land_0_r.
Qed.

Lemma frame_range e : 0 ≤ Z.land e I86_PDE_FRAME < W32.
Proof.
  split; [apply Z.land_nonneg; right; done|].
  change I86_PDE_FRAME with (Z.land I86_PDE_FRAME (Z.ones 32)).
  rewrite Z.land_assoc, Z.land_ones by lia. apply Z.mod_pos_bound. done.
Qed.

Lemma present_bit e : paging_pd_entry_is_present e = Z.testbit e 0.
Proof.
  unfold paging_pd_entry_is_present. change I86_PDE_PRESENT with (Z.ones 1).
  rewrite Z.land_ones by lia. change (2 ^ 1) with 2. rewrite <- Z.bit0_mod. by destruct (Z.testbit e 0).
Qed.

Lemma pt_id_eq {S} addr (s : S) :
  paging_pt_entry_id_for_addr addr s = Ret (addr / PAGE_SIZE mod PT_ENTRIES) s.
Proof.
  unfold paging_pt_entry_id_for_addr. change (u32 (PAGE_SIZE * PT_ENTRIES - 1)) with (Z.ones 22).
  rewrite Z.land_ones by lia.
  assert (E : addr mod 2 ^ 22 / PAGE_SIZE = addr / PAGE_SIZE mod PT_ENTRIES).
  { unfold PAGE_SIZE, PT_ENTRIES. change (2 ^ 22) with (4096 * 1024).
    rewrite Z.rem_mul_r by lia. rewrite Z.add_comm, Z.mul_comm, Z.div_add_l by lia.
    rewrite (Z.div_small (addr mod 4096)) by (apply Z.mod_pos_bound; lia). lia. }
  rewrite E. rewrite (proj2 (Z.ltb_lt _ _)); [done|]. apply Z.mod_pos_bound. done.
Qed.

Lemma pd_id_eq addr : paging_pd_entry_id_for_addr addr = addr / (PAGE_SIZE * PT_ENTRIES).
Proof. unfold paging_pd_entry_id_for_addr. by rewrite Z.div_div. Qed.

(** ** Arrays *)

Lemma arr_store_ok a p i v :
  is_Some (arr_load a p i) →
  ∃ a', arr_store a p i v = Some a' ∧
    ∀ q j, arr_load a' q j = if decide (q = p ∧ j = i) then Some v else arr_load a q j.
Proof.
  unfold arr_load, arr_store. intros [e He]. destruct (Z.ltb_spec i 0); [done|].
  destruct (a !! p) as [es|] eqn:Hp; [|done]. simpl in *.
  pose proof (lookup_lt_Some _ _ _ He). rewrite decide_True by done.
  eexists. split; [done|]. intros q j. destruct (decide (q = p)) as [->|Hq].
  - rewrite lookup_insert_eq, Hp. simpl. destruct (Z.ltb_spec j 0).
    + rewrite decide_False; [done|lia].
    + destruct (decide (j = i)) as [->|Hj].
      * rewrite decide_True by done. by rewrite list_lookup_insert_eq.
      * rewrite decide_False by tauto. by rewrite list_lookup_insert_ne by lia.
  - rewrite lookup_insert_ne by done. rewrite decide_False by tauto. done.
Qed.

(** [s'] differs from [s] in page table contents only. *)
Definition only_ptabs (s s' : pstate) : Prop := s' = set_ptabs (ptabs s') s.

Lemma only_ptabs_trans s1 s2 s3 : only_ptabs s1 s2 → only_ptabs s2 s3 → only_ptabs s1 s3.
Proof. unfold only_ptabs. intros -> ->. done. Qed.

Lemma store_pte_ok s pt i v :
  is_Some (arr_load (ptabs s) pt i) →
  ∃ s', store_pte pt i v s = Ret tt s' ∧ only_ptabs s s' ∧
    ∀ q j, arr_load (ptabs s') q j = if decide (q = pt ∧ j = i) then Some v else arr_load (ptabs s) q j.
Proof.
  intros He. destruct (arr_store_ok _ _ _ v He) as (a' & E & Ha).
  exists (set_ptabs a' s). unfold store_pte. rewrite E. by destruct s.
Qed.

Lemma pt_map_loop_spec n pt i addr flags s :
  (∀ j, i ≤ j < i + Z.of_nat n → is_Some (arr_load (ptabs s) pt j)) → 0 ≤ addr < W32 →
  ∃ s', pt_map_loop n pt i addr flags s = Ret tt s' ∧ only_ptabs s s' ∧
    ∀ q j, arr_load (ptabs s') q j =
      if decide (q = pt ∧ i ≤ j < i + Z.of_nat n)
      then Some (Z.lor (u32 (addr + (j - i) * PAGE_SIZE)) flags) else arr_load (ptabs s) q j.
Proof.
  revert i addr s. induction n as [|n IH]; intros i addr s Hs Ha; simpl.
  - exists s. split; [done|]. split; [by destruct s|]. intros q j. by rewrite decide_False by lia.
  - destruct (store_pte_ok s pt i (Z.lor addr flags)) as (s1 & E1 & Ho1 & Hl1); [apply Hs; lia|].
    step E1. destruct (IH (i + 1) (u32 (addr + PAGE_SIZE)) s1) as (s2 & E2 & Ho2 & Hl2).
    + intros j Hj. rewrite Hl1. destruct (decide _); [done|]. apply Hs. lia.
    + apply u32_range.
    + exists s2. split; [done|]. split; [by eapply only_ptabs_trans|]. intros q j. rewrite Hl2, Hl1.
      destruct (decide (q = pt)) as [->|]; [|rewrite !decide_False by tauto; done].
      destruct (decide (j = i)) as [->|Hne].
      * rewrite decide_False, decide_True, decide_True by lia. do 2 f_equal.
        replace (addr + (i - i) * PAGE_SIZE) with addr by lia. by rewrite u32_small.
      * destruct (decide (i ≤ j < i + Z.of_nat (S n))) as [Hin|Hout].
        -- rewrite !decide_True by lia. do 2 f_equal. unfold u32. rewrite Z.add_mod_idemp_l by done.
           f_equal. lia.
        -- rewrite !decide_False by lia. done.
Qed.

Lemma pt_unmap_loop_spec n pt i s :
  (∀ j, i ≤ j < i + Z.of_nat n → is_Some (arr_load (ptabs s) pt j)) →
  ∃ s', pt_unmap_loop n pt i s = Ret tt s' ∧ only_ptabs s s' ∧
    ∀ q j, arr_load (ptabs s') q j =
      if decide (q = pt ∧ i ≤ j < i + Z.of_nat n) then Some 0 else arr_load (ptabs s) q j.
Proof.
  revert i s. induction n as [|n IH]; intros i s Hs; simpl.
  - exists s. split; [done|]. split; [by destruct s|]. intros q j. by rewrite decide_False by lia.
  - destruct (store_pte_ok s pt i 0) as (s1 & E1 & Ho1 & Hl1); [apply Hs; lia|].
    step E1. destruct (IH (i + 1) s1) as (s2 & E2 & Ho2 & Hl2).
    + intros j Hj. rewrite Hl1. destruct (decide _); [done|]. apply Hs. lia.
    + exists s2. split; [done|]. split; [by eapply only_ptabs_trans|]. intros q j. rewrite Hl2, Hl1.
      destruct (decide (q = pt)) as [->|]; [|rewrite !decide_False by tauto; done].
      destruct (decide (j = i)) as [->|Hne].
      * rewrite decide_False, decide_True, decide_True by lia. done.
      * destruct (decide (i ≤ j < i + Z.of_nat (S n))) as [Hin|Hout].
        -- by rewrite !decide_True by lia.
        -- by rewrite !decide_False by lia.
Qed.

(** ** Well-formed directories *)

(** A directory entry is unused, or it is present and its table exists. *)
Definition pde_ok (s : pstate) (e : Z) : Prop :=
  let frame := Z.land e I86_PDE_FRAME in
  (frame = 0 ∧ Z.testbit e 0 = false) ∨
  (frame ≠ 0 ∧ Z.testbit e 0 = true ∧ frame + KERNEL_VMA + PAGE_SIZE ≤ memory_start (play s) ∧
   ∀ j, 0 ≤ j < PT_ENTRIES → is_Some (arr_load (ptabs s) (frame + KERNEL_VMA) j)).

(** Every entry is well-formed, no two entries share a table, and the tables
    lie below the static break. *)
Definition pd_ok (s : pstate) (ptd : Z) : Prop :=
  (∀ i, 0 ≤ i < PDT_ENTRIES → ∃ e, arr_load (pdirs s) ptd i = Some e ∧ pde_ok s e) ∧
  (∀ i j e e', 0 ≤ i < PDT_ENTRIES → 0 ≤ j < PDT_ENTRIES → arr_load (pdirs s) ptd i = Some e → arr_load (pdirs s) ptd j = Some e' →
    Z.land e I86_PDE_FRAME ≠ 0 → Z.land e I86_PDE_FRAME = Z.land e' I86_PDE_FRAME → i = j) ∧
  (PAGE_SIZE | KERNEL_VMA) ∧ 0 < KERNEL_VMA < memory_start (play s) ∧
  memory_start (play s) ≤ memory_end (play s) < W32 - PAGE_SIZE.

Lemma pd_index_range v : 0 ≤ v < W32 → 0 ≤ v / (PAGE_SIZE * PT_ENTRIES) < PDT_ENTRIES.
Proof.
  intros Hv. unfold PAGE_SIZE, PT_ENTRIES, PDT_ENTRIES. split; [apply Z.div_pos; lia|].
  apply Z.div_lt_upper_bound; lia.
Qed.

Lemma pt_index_range v : 0 ≤ v / PAGE_SIZE mod PT_ENTRIES < PT_ENTRIES.
Proof. by apply Z.mod_pos_bound. Qed.

(** The table address the code computes, when the entry is in use. *)
Lemma pt_for_entry s ptd i e :
  pd_ok s ptd → arr_load (pdirs s) ptd i = Some e → pde_ok s e → Z.land e I86_PDE_FRAME ≠ 0 →
  paging_pt_for_pd_entry e = Z.land e I86_PDE_FRAME + KERNEL_VMA ∧
  u32 (Z.land e I86_PDE_FRAME + KERNEL_VMA) = Z.land e I86_PDE_FRAME + KERNEL_VMA ∧
  Z.land e I86_PDE_FRAME + KERNEL_VMA ≠ 0.
Proof.
  intros (_ & _ & _ & Hk & Hm) He [[? _]|(Hf & _ & Hb & _)] Hne; [done|].
  pose proof (frame_range e). unfold paging_pt_for_pd_entry, paging_pd_entry_get_frame.
  rewrite (proj2 (Z.eqb_neq _ _) Hne). simpl. unfold PAGE_SIZE in *.
  rewrite u32_small by lia. split_and!; lia.
Qed.

(** Writes to one table change the walk of the addresses it serves. *)
Lemma table_write s s' ptd d e lo hi g :
  pd_ok s ptd → only_ptabs s s' → 0 ≤ d < PDT_ENTRIES → arr_load (pdirs s) ptd d = Some e → pde_ok s e →
  Z.land e I86_PDE_FRAME ≠ 0 →
  (∀ q j, arr_load (ptabs s') q j =
    if decide (q = Z.land e I86_PDE_FRAME + KERNEL_VMA ∧ lo ≤ j < hi)
    then Some (g j) else arr_load (ptabs s) q j) →
  pd_ok s' ptd ∧ ∀ v, 0 ≤ v < W32 →
    walk s' ptd v =
      let j := v / PAGE_SIZE mod PT_ENTRIES in
      if decide (v / (PAGE_SIZE * PT_ENTRIES) = d ∧ lo ≤ j < hi)
      then (if Z.testbit (g j) 0 then Some (g j) else None) else walk s ptd v.
Proof.
  intros Hok Ho Hd0 He Hpe Hne Hl. pose proof Hok as (Hent & Hinj & Hrest).
  assert (Hd : pdirs s' = pdirs s) by by rewrite Ho.
  assert (Hp : play s' = play s) by by rewrite Ho.
  split.
  - split; [|split; [by rewrite Hd|by rewrite Hp]].
    intros i Hi. destruct (Hent i Hi) as (e' & He' & Hpe'). exists e'. rewrite Hd. split; [done|].
    destruct Hpe' as [?|(H1 & H2 & H3 & H4)]; [by left|right]. rewrite Hp. split_and!; try done.
    intros j Hj. rewrite Hl. destruct (decide _); [done|]. auto.
  - intros v Hv. destruct (Hent _ (pd_index_range v Hv)) as (ev & Hev & Hpv).
    unfold walk. rewrite Hd, Hev. cbn [mbind option_bind].
    destruct Hpv as [[Hf0 Hb]|Hpv].
    + rewrite Hb, decide_False; [done|]. intros [Hvd _]. rewrite Hvd in Hev. congruence.
    + pose proof Hpv as (Hfv & Hb & _). rewrite Hb.
      destruct (pt_for_entry s ptd _ ev Hok Hev (or_intror Hpv) Hfv) as (_ & -> & _). rewrite Hl.
      destruct (decide (v / (PAGE_SIZE * PT_ENTRIES) = d)) as [Hvd|Hvd].
      * rewrite Hvd in Hev. assert (ev = e) as -> by congruence.
        destruct (decide (lo ≤ v / PAGE_SIZE mod PT_ENTRIES < hi)).
        -- by rewrite !decide_True by done.
        -- by rewrite !decide_False by tauto.
      * rewrite !decide_False; [done|tauto|]. intros [Heq _]. apply Hvd.
        apply (Hinj _ _ ev e); try done; [by apply pd_index_range|lia].
Qed.

(** The addresses of consecutive pages served by one table. *)
Lemma range_index v vaddr pages :
  (PAGE_SIZE | vaddr) → 0 ≤ vaddr → 0 ≤ pages →
  vaddr / PAGE_SIZE mod PT_ENTRIES + pages ≤ PT_ENTRIES →
  v / (PAGE_SIZE * PT_ENTRIES) = vaddr / (PAGE_SIZE * PT_ENTRIES) ∧
    vaddr / PAGE_SIZE mod PT_ENTRIES ≤ v / PAGE_SIZE mod PT_ENTRIES
      < vaddr / PAGE_SIZE mod PT_ENTRIES + pages ↔
  vaddr ≤ v < vaddr + pages * PAGE_SIZE.
Proof.
  unfold PAGE_SIZE, PT_ENTRIES. intros [k ->] Hv Hp Hle.
  rewrite <- !Z.div_div, Z.div_mul in * by lia.
  pose proof (Z.div_mod v 4096 ltac:(lia)). pose proof (Z.mod_pos_bound v 4096 ltac:(lia)).
  set (u := v / 4096) in *.
  pose proof (Z.div_mod u 1024 ltac:(lia)). pose proof (Z.mod_pos_bound u 1024 ltac:(lia)).
  pose proof (Z.div_mod k 1024 ltac:(lia)). pose proof (Z.mod_pos_bound k 1024 ltac:(lia)).
  set (uq := u / 1024) in *. set (ur := u mod 1024) in *. set (kq := k / 1024) in *. set (kr := k mod 1024) in *.
  set (vr := v mod 4096) in *. clearbody u uq ur kq kr vr. split; [intros [-> ?]; lia|]. intros. split; [|lia].
  lia.
Qed.

(** ** Allocating and installing a table *)

Lemma arr_load_insert a p es q j :
  arr_load (<[p := es]> a) q j =
    if decide (q = p) then (if j <? 0 then None else es !! Z.to_nat j) else arr_load a q j.
Proof.
  unfold arr_load. destruct (decide (q = p)) as [->|Hq].
  - rewrite lookup_insert_eq. by destruct (j <? 0).
  - by rewrite lookup_insert_ne.
Qed.

Lemma zero_table j :
  (if j <? 0 then None else replicate (Z.to_nat PT_ENTRIES) 0 !! Z.to_nat j) =
    if decide (0 ≤ j < PT_ENTRIES) then Some 0 else None.
Proof.
  destruct (Z.ltb_spec j 0); [by rewrite decide_False by lia|].
  destruct (decide (0 ≤ j < PT_ENTRIES)).
  - apply lookup_replicate_2. unfold PT_ENTRIES in *. lia.
  - apply lookup_replicate_None. unfold PT_ENTRIES in *. lia.
Qed.

Lemma alloc_pt_spec s ptd :
  pd_ok s ptd → static_room (play s) (4 * PT_ENTRIES) PAGE_SIZE →
  ∃ pt s1, paging_alloc_static_pt s = Ret pt s1 ∧
    memory_start (play s) ≤ pt < memory_start (play s) + PAGE_SIZE ∧ (PAGE_SIZE | pt) ∧ pt + PAGE_SIZE ≤ memory_end (play s) ∧
    pdirs s1 = pdirs s ∧
    play s1 = Layout (segment_start (play s)) (pt + PAGE_SIZE) (memory_end (play s)) ∧
    (_kernel_page_dir s1, _current_page_dir s1, cr3 s1, cr0_pg s1) =
      (_kernel_page_dir s, _current_page_dir s, cr3 s, cr0_pg s) ∧
    ∀ q j, arr_load (ptabs s1) q j =
      if decide (q = pt) then (if decide (0 ≤ j < PT_ENTRIES) then Some 0 else None)
      else arr_load (ptabs s) q j.
Proof.
  intros (_ & _ & _ & Hk & Hm) Hroom. unfold paging_alloc_static_pt.
  destruct (align_address_bounds (memory_start (play s)) PAGE_SIZE) as [Hb Hd];
    [apply pow2_32_page|lia|unfold PAGE_SIZE in *; lia|].
  pose proof (kalloc_static_ok (play s) (4 * PT_ENTRIES) PAGE_SIZE) as Ek.
  unfold static_room in Hroom. set (pt := align_address _ _) in *. change (4 * PT_ENTRIES) with PAGE_SIZE in *.
  step (zoom_ret play set_play _ s _ _ (Ek ltac:(done) ltac:(done) ltac:(unfold PAGE_SIZE in *; lia) ltac:(lia) Hroom)).
  eexists pt, _. split; [reflexivity|]. split; [lia|]. split_and!; try done.
  intros q j. simpl. rewrite arr_load_insert. destruct (decide (q = pt)); [|done]. apply zero_table.
Qed.

Lemma store_pde_ok s ptd i v :
  is_Some (arr_load (pdirs s) ptd i) →
  ∃ s', store_pde ptd i v s = Ret tt s' ∧ s' = set_pdirs (pdirs s') s ∧
    ∀ q j, arr_load (pdirs s') q j = if decide (q = ptd ∧ j = i) then Some v else arr_load (pdirs s) q j.
Proof.
  intros He. destruct (arr_store_ok _ _ _ v He) as (a' & E & Ha).
  exists (set_pdirs a' s). unfold store_pde. rewrite E. by destruct s.
Qed.

Lemma load_pde_ok s ptd i e : arr_load (pdirs s) ptd i = Some e → load_pde ptd i s = Ret e s.
Proof. intros He. unfold load_pde. by rewrite He. Qed.

Lemma install_spec s ptd i e pt flags :
  arr_load (pdirs s) ptd i = Some e → (PAGE_SIZE | KERNEL_VMA) → (PAGE_SIZE | pt) →
  KERNEL_VMA < pt < W32 → 0 < KERNEL_VMA →
  ∃ s', paging_pd_install_pt ptd i pt flags s = Ret tt s' ∧ s' = set_pdirs (pdirs s') s ∧
    ∀ q j, arr_load (pdirs s') q j =
      if decide (q = ptd ∧ j = i) then Some (Z.lor (pt - KERNEL_VMA) flags) else arr_load (pdirs s) q j.
Proof.
  intros He Hk Hp Hr Hk0. unfold paging_pd_install_pt. step (load_pde_ok _ _ _ _ He).
  rewrite (u32_small (pt - KERNEL_VMA)) by lia.
  assert (Ha : (PAGE_SIZE | pt - KERNEL_VMA)) by by apply Z.divide_sub_r.
  unfold paging_pd_entry_set_frame. rewrite land_offset_aligned by (done || lia). cbn [Z.eqb negb].
  set (e1 := Z.lor _ _). step (ret_ok e1 s).
  destruct (store_pde_ok s ptd i e1) as (s1 & E1 & Ho1 & Hl1); [by eexists|]. step E1.
  assert (He1 : arr_load (pdirs s1) ptd i = Some e1) by by rewrite Hl1, decide_True.
  step (load_pde_ok _ _ _ _ He1).
  destruct (store_pde_ok s1 ptd i (paging_pd_entry_set_flags e1 flags 0)) as (s2 & E2 & Ho2 & Hl2); [by eexists|].
  exists s2. split; [exact E2|]. split; [rewrite Ho2, Ho1; done|].
  intros q j. rewrite Hl2, Hl1. destruct (decide _); [|done]. f_equal.
  unfold paging_pd_entry_set_flags. rewrite Z.lor_0_l. f_equal. unfold e1. rewrite Z.lor_comm. apply frame_entry; [done|lia|].
  change (u32 (Z.lnot I86_PDE_FRAME)) with (Z.ones 12). rewrite Z.land_ones by lia.
  by apply Z.mod_pos_bound.
Qed.

(** The registers and directory pointers are as before. *)
Definition same_regs (s s' : pstate) : Prop :=
  (_kernel_page_dir s', _current_page_dir s', cr3 s', cr0_pg s') =
    (_kernel_page_dir s, _current_page_dir s, cr3 s, cr0_pg s).

(** Installing a fresh zeroed table in an unused entry. *)
Lemma install_fresh s s2 ptd d e pt :
  pd_ok s ptd → 0 ≤ d < PDT_ENTRIES → arr_load (pdirs s) ptd d = Some e →
  Z.land e I86_PDE_FRAME = 0 → Z.testbit e 0 = false →
  memory_start (play s) ≤ pt → (PAGE_SIZE | pt) → pt + PAGE_SIZE ≤ memory_end (play s) →
  play s2 = Layout (segment_start (play s)) (pt + PAGE_SIZE) (memory_end (play s)) →
  (∀ q j, arr_load (ptabs s2) q j =
    if decide (q = pt) then (if decide (0 ≤ j < PT_ENTRIES) then Some 0 else None)
    else arr_load (ptabs s) q j) →
  (∀ q j, arr_load (pdirs s2) q j =
    if decide (q = ptd ∧ j = d) then Some (Z.lor (pt - KERNEL_VMA) 7) else arr_load (pdirs s) q j) →
  pd_ok s2 ptd ∧ (∀ v, 0 ≤ v < W32 → walk s2 ptd v = walk s ptd v).
Proof.
  intros Hok Hd He Hf0 Hb0 Hpt Hal Hend Hlay Htab Hdir.
  pose proof Hok as (Hent & Hinj & Hka & Hk & Hm).
  assert (Hfr : Z.land (Z.lor (pt - KERNEL_VMA) 7) I86_PDE_FRAME = pt - KERNEL_VMA).
  { apply frame_entry; [by apply Z.divide_sub_r|unfold PAGE_SIZE in *; lia|done]. }
  assert (Hb : Z.testbit (Z.lor (pt - KERNEL_VMA) 7) 0 = true).
  { rewrite entry_bit0; [done|by apply Z.divide_sub_r]. }
  assert (Hold : ∀ e', pde_ok s e' → Z.land e' I86_PDE_FRAME ≠ 0 →
    Z.land e' I86_PDE_FRAME + KERNEL_VMA < pt).
  { intros e' [[? _]|(_ & _ & ? & _)] ?; [done|]. unfold PAGE_SIZE in *. lia. }
  split.
  - split; [|split].
    + intros i Hi. rewrite Hdir. destruct (decide (i = d)) as [->|Hne].
      * rewrite decide_True by done. eexists. split; [done|]. right. rewrite Hfr, Hlay. simpl.
        split_and!; [lia|done|lia|].
        intros j Hj. replace (pt - KERNEL_VMA + KERNEL_VMA) with pt by lia.
        rewrite Htab, decide_True, decide_True by done. by eexists.
      * rewrite decide_False by tauto. destruct (Hent i Hi) as (e' & He' & Hpe'). exists e'. split; [done|].
        destruct Hpe' as [?|Hpe']; [by left|right]. pose proof Hpe' as (H1 & H2 & H3 & H4).
        rewrite Hlay. simpl. split_and!; try done; [unfold PAGE_SIZE in *; lia|].
        intros j Hj. rewrite Htab, decide_False; [by apply H4|].
        pose proof (Hold e' (or_intror Hpe') H1). lia.
    + intros i j e1 e2 Hi0 Hj0. rewrite !Hdir.
      destruct (decide (i = d)) as [->|Hi], (decide (j = d)) as [->|Hj];
        rewrite ?(decide_True) by done; rewrite ?(decide_False (P := ptd = ptd ∧ _)) by tauto;
        rewrite ?decide_True by done; try done.
      * intros [= <-] H2 Hne Heq. rewrite Hfr in Heq, Hne. destruct (Hent j Hj0) as (e' & ? & Hpe').
        assert (e' = e2) as -> by congruence. specialize (Hold e2 Hpe'). lia.
      * intros H1 [= <-] Hne Heq. rewrite Hfr in Heq. destruct (Hent i Hi0) as (e' & ? & Hpe').
        assert (e' = e1) as -> by congruence. specialize (Hold e1 Hpe'). lia.
      * by apply Hinj.
    + rewrite Hlay. simpl. unfold PAGE_SIZE in *. split_and!; try done; lia.
  - intros v Hv. unfold walk. rewrite Hdir.
    destruct (decide (v / (PAGE_SIZE * PT_ENTRIES) = d)) as [Hvd|Hvd].
    + rewrite decide_True by done. rewrite Hvd, He. cbn [mbind option_bind]. rewrite Hb, Hb0, Hfr.
      replace (pt - KERNEL_VMA + KERNEL_VMA) with pt by lia. unfold PAGE_SIZE in Hend, Hm.
      rewrite u32_small by lia. rewrite Htab, decide_True by done.
      rewrite decide_True by apply pt_index_range. done.
    + rewrite decide_False by tauto. destruct (Hent _ (pd_index_range v Hv)) as (ev & Hev & Hpv).
      rewrite Hev. cbn [mbind option_bind]. pose proof Hpv as [[? ->]|(H1 & -> & _)]; [done|].
      destruct (pt_for_entry s ptd _ ev Hok Hev Hpv H1) as (_ & -> & _).
      rewrite Htab, decide_False; [done|]. pose proof (Hold ev Hpv H1). lia.
Qed.

(** Directory entry [d] has a table. *)
Definition table_at (s : pstate) (ptd d : Z) : Prop :=
  ∃ e, arr_load (pdirs s) ptd d = Some e ∧ Z.land e I86_PDE_FRAME ≠ 0.

Lemma get_pt_spec s ptd d :
  pd_ok s ptd → 0 ≤ d < PDT_ENTRIES →
  (∀ e, arr_load (pdirs s) ptd d = Some e → Z.land e I86_PDE_FRAME = 0 →
    static_room (play s) (4 * PT_ENTRIES) PAGE_SIZE) →
  ∃ s1 e, get_pt ptd d s = Ret (Z.land e I86_PDE_FRAME + KERNEL_VMA) s1 ∧ pd_ok s1 ptd ∧
    arr_load (pdirs s1) ptd d = Some e ∧ pde_ok s1 e ∧ Z.land e I86_PDE_FRAME ≠ 0 ∧
    (∀ v, 0 ≤ v < W32 → walk s1 ptd v = walk s ptd v) ∧ same_regs s s1 ∧
    lay_grows (2 * PAGE_SIZE) (play s) (play s1) ∧ (table_at s ptd d → play s1 = play s).
Proof.
  intros Hok Hd Hroom. pose proof Hok as (Hent & _ & Hka & Hk & Hm).
  destruct (Hent d Hd) as (e & He & Hpe). unfold get_pt. step (load_pde_ok _ _ _ _ He).
  destruct (decide (Z.land e I86_PDE_FRAME = 0)) as [Hf0|Hf0].
  - unfold paging_pt_for_pd_entry, paging_pd_entry_get_frame. rewrite Hf0. cbn [Z.eqb negb NULL].
    destruct Hpe as [[_ Hb]|(? & _)]; [|done].
    destruct (alloc_pt_spec s ptd Hok (Hroom e He Hf0))
      as (pt & s1 & E1 & Hpt & Hal & Hend & Hd1 & Hl1 & Hr1 & Ht1).
    step E1. rewrite (proj2 (Z.eqb_neq pt NULL)) by (unfold NULL; lia).
    destruct (install_spec s1 ptd d e pt 7) as (s2 & E2 & Ho2 & Hd2);
      [by rewrite Hd1|done|done|unfold PAGE_SIZE in *; lia|lia|].
    change (Z.lor (Z.lor I86_PDE_PRESENT I86_PDE_WRITABLE) I86_PDE_USER) with 7. step E2.
    assert (Hfr : Z.land (Z.lor (pt - KERNEL_VMA) 7) I86_PDE_FRAME = pt - KERNEL_VMA).
    { apply frame_entry; [by apply Z.divide_sub_r|unfold PAGE_SIZE in *; lia|done]. }
    destruct (install_fresh s s2 ptd d e pt) as [Hok2 Hw2]; try done; [lia| | | |].
    { by rewrite Ho2. }
    { intros q j. rewrite Ho2. simpl. apply Ht1. }
    { intros q j. rewrite Hd2, Hd1. done. }
    destruct (proj1 Hok2 d Hd) as (e2 & He2 & Hpe2).
    assert (e2 = Z.lor (pt - KERNEL_VMA) 7) as -> by (rewrite Hd2, decide_True in He2 by done; congruence).
    exists s2, (Z.lor (pt - KERNEL_VMA) 7). rewrite Hfr in *. replace (pt - KERNEL_VMA + KERNEL_VMA) with pt by lia.
    split; [done|]. split; [done|]. split; [done|]. split; [done|]. split; [lia|]. split; [done|].
    split; [by rewrite Ho2|]. split; [|intros (e' & ? & ?); congruence].
    rewrite Ho2. simpl. rewrite Hl1. unfold lay_grows, PAGE_SIZE in *. simpl. lia.
  - destruct (pt_for_entry s ptd d e Hok He Hpe Hf0) as (Ept & _ & Hn0). rewrite Ept.
    rewrite (proj2 (Z.eqb_neq _ NULL) Hn0), present_bit.
    pose proof Hpe as [[? _]|(_ & -> & _)]; [done|]. simpl.
    exists s, e. split; [done|]. split; [done|]. split; [done|]. split; [done|]. split; [done|].
    split; [done|]. split; [done|]. split; [by apply lay_grows_refl|done].
Qed.

(** ** Mapping *)

(** The entry [paging_map] writes for the page of [v]. *)
Definition map_entry (base_addr vaddr flags v : Z) : Z :=
  Z.lor (u32 (base_addr + (v / PAGE_SIZE - vaddr / PAGE_SIZE) * PAGE_SIZE)) flags.

Definition walk_entry (e : Z) : option Z := if Z.testbit e 0 then Some e else None.

(** How many of [pages] pages starting at [vaddr] the table of [vaddr] serves. *)
Definition table_pages (vaddr pages : Z) : Z := Z.min pages (PT_ENTRIES - vaddr / PAGE_SIZE mod PT_ENTRIES).

Lemma same_table vaddr v pages :
  (PAGE_SIZE | vaddr) → 0 ≤ vaddr → 0 ≤ pages ≤ PT_ENTRIES - vaddr / PAGE_SIZE mod PT_ENTRIES →
  vaddr ≤ v < vaddr + pages * PAGE_SIZE →
  v / PAGE_SIZE mod PT_ENTRIES - vaddr / PAGE_SIZE mod PT_ENTRIES = v / PAGE_SIZE - vaddr / PAGE_SIZE.
Proof.
  intros Hd Hv Hp Hr. apply range_index in Hr as [Hq Hr]; [|done|done|lia|lia].
  rewrite <- !Z.div_div in Hq by done.
  pose proof (Z.div_mod (v / PAGE_SIZE) PT_ENTRIES ltac:(done)).
  pose proof (Z.div_mod (vaddr / PAGE_SIZE) PT_ENTRIES ltac:(done)). lia.
Qed.

Lemma pt_map_spec s ptd vaddr base flags pages e :
  pd_ok s ptd → (PAGE_SIZE | vaddr) → 0 ≤ vaddr < W32 → 0 ≤ base < W32 →
  arr_load (pdirs s) ptd (vaddr / (PAGE_SIZE * PT_ENTRIES)) = Some e → pde_ok s e →
  Z.land e I86_PDE_FRAME ≠ 0 → 0 ≤ pages ≤ PT_ENTRIES - vaddr / PAGE_SIZE mod PT_ENTRIES →
  ∃ s', paging_pt_map (Z.land e I86_PDE_FRAME + KERNEL_VMA) vaddr base pages flags s = Ret pages s' ∧
    only_ptabs s s' ∧ pd_ok s' ptd ∧ ∀ v, 0 ≤ v < W32 → walk s' ptd v =
      if decide (vaddr ≤ v < vaddr + pages * PAGE_SIZE)
      then walk_entry (map_entry base vaddr flags v) else walk s ptd v.
Proof.
  intros Hok Hal Hv Hb He Hpe Hf Hp. unfold paging_pt_map. rewrite (bind_ret _ _ _ _ _ (pt_id_eq vaddr s)).
  pose proof (pt_index_range vaddr). set (id := vaddr / PAGE_SIZE mod PT_ENTRIES) in *.
  unfold PT_ENTRIES in Hp. unfold PT_ENTRIES in H.
  rewrite (u32_small (id + pages)) by lia. rewrite (proj2 (Z.ltb_ge _ _)) by (unfold PT_ENTRIES; lia).
  replace (id + pages - id) with pages by lia.
  pose proof Hpe as [[? _]|(_ & _ & _ & Ht)]; [done|].
  destruct (pt_map_loop_spec (Z.to_nat pages) (Z.land e I86_PDE_FRAME + KERNEL_VMA) id base flags s)
    as (s' & E & Ho & Hl); [|done|].
  { intros j Hj. apply Ht. unfold PT_ENTRIES. lia. }
  rewrite Z2Nat.id in Hl by lia. step E. exists s'. split; [done|]. split; [done|].
  destruct (table_write s s' ptd _ e id (id + pages) _ Hok Ho (pd_index_range vaddr Hv) He Hpe Hf Hl) as [Hok' Hw].
  split; [done|]. intros v Hv'. rewrite Hw by done. simpl.
  pose proof (range_index v vaddr pages Hal) as Hri. fold id in Hri.
  specialize (Hri ltac:(lia) ltac:(lia) ltac:(unfold PT_ENTRIES; lia)).
  destruct (decide (vaddr ≤ v < vaddr + pages * PAGE_SIZE)) as [Hin|Hout].
  - rewrite decide_True by tauto. unfold walk_entry, map_entry.
    rewrite <- (same_table vaddr v pages) by (done || (fold id; unfold PT_ENTRIES; lia)). done.
  - rewrite decide_False by tauto. done.
Qed.

(** What a mapping through directory entry [d] may do besides: it allocates at
    most one table, and none if there is one. *)
Definition pg_step (s s' : pstate) (ptd d : Z) : Prop :=
  pd_ok s' ptd ∧ same_regs s s' ∧ lay_grows (2 * PAGE_SIZE) (play s) (play s') ∧
  (table_at s ptd d → play s' = play s).

Lemma map_loop_spec fuel s ptd base vaddr flags pages :
  pd_ok s ptd → (PAGE_SIZE | vaddr) → 0 ≤ vaddr < W32 → 0 ≤ base < W32 →
  0 ≤ pages ≤ Z.of_nat fuel → pages * PAGE_SIZE < W32 →
  (∀ e, arr_load (pdirs s) ptd (vaddr / (PAGE_SIZE * PT_ENTRIES)) = Some e →
    Z.land e I86_PDE_FRAME = 0 → static_room (play s) (4 * PT_ENTRIES) PAGE_SIZE) →
  ∃ s', map_loop fuel ptd base vaddr flags (pages * PAGE_SIZE) pages s = Ret tt s' ∧
    pg_step s s' ptd (vaddr / (PAGE_SIZE * PT_ENTRIES)) ∧ ∀ v, 0 ≤ v < W32 → walk s' ptd v =
      if decide (vaddr ≤ v < vaddr + table_pages vaddr pages * PAGE_SIZE)
      then walk_entry (map_entry base vaddr flags v) else walk s ptd v.
Proof.
  revert s pages. induction fuel as [|fuel IH]; intros s pages Hok Hal Hv Hb Hp Hsz Hroom; simpl;
    pose proof (pt_index_range vaddr) as Hid; unfold table_pages;
    (destruct (Z.eqb_spec (pages * PAGE_SIZE) 0) as [E0|E0];
     [assert (pages = 0) as -> by (unfold PAGE_SIZE in E0; lia); exists s; split; [done|];
      split; [split; [done|split; [done|split; [by apply lay_grows_refl|done]]]|];
      intros v Hv'; by rewrite decide_False by (unfold PAGE_SIZE; lia)|]).
  - unfold PAGE_SIZE in E0. lia.
  - rewrite pd_id_eq.
    destruct (get_pt_spec s ptd _ Hok (pd_index_range vaddr Hv) Hroom)
      as (s1 & e & E1 & Hok1 & He & Hpe & Hf & Hw1 & Hr1 & Hg1 & Hs1).
    step E1. rewrite (bind_ret _ _ _ _ _ (pt_id_eq vaddr s1)).
    fold (table_pages vaddr pages). set (c := table_pages vaddr pages) in *.
    assert (Hc : 1 ≤ c ≤ pages ∧ c ≤ PT_ENTRIES - vaddr / PAGE_SIZE mod PT_ENTRIES)
      by (unfold c, table_pages, PAGE_SIZE in *; lia).
    destruct (pt_map_spec s1 ptd vaddr base flags c e) as (s2 & E2 & Ho2 & Hok2 & Hw2); try done; [lia|].
    step E2.
    replace (u32 (pages * PAGE_SIZE - u32 (c * PAGE_SIZE))) with ((pages - c) * PAGE_SIZE)
      by (unfold PAGE_SIZE in *; rewrite (u32_small (c * _)) by lia; rewrite u32_small; lia).
    destruct (IH s2 (pages - c)) as (s3 & E3 & (Hok3 & Hr3 & _ & Hs3) & Hw3); try done; [lia|unfold PAGE_SIZE in *; lia| |].
    { intros e'. rewrite Ho2. simpl. rewrite He. intros [= <-] ?. done. }
    assert (Hp3 : play s3 = play s1).
    { rewrite Hs3; [by rewrite Ho2|]. exists e. rewrite Ho2. done. }
    exists s3. split; [done|]. split; [split; [done|split; [|by rewrite Hp3]]|].
    + unfold same_regs in *. rewrite Hr3, Ho2. done.
    + intros v Hv'. rewrite Hw3, Hw2, Hw1 by done.
      assert (Hle : table_pages vaddr (pages - c) ≤ c) by (unfold c, table_pages in *; lia).
      destruct (decide (vaddr ≤ v < vaddr + c * PAGE_SIZE)) as [Hin|Hout].
      * by destruct (decide _).
      * rewrite decide_False; [done|]. unfold PAGE_SIZE in *. lia.
Qed.

Lemma align_page_id x : (PAGE_SIZE | x) → 0 ≤ x < W32 → align_address x PAGE_SIZE = x.
Proof.
  intros Hd Hx. destruct (Z.lt_ge_cases (x + PAGE_SIZE - 1) W32).
  - apply align_address_id; [apply pow2_32_page|lia|done|done].
  - exfalso. destruct Hd as [k ->]. unfold PAGE_SIZE in *. lia.
Qed.

Lemma paging_map_spec s ptd base size vaddr flags :
  pd_ok s ptd → (PAGE_SIZE | vaddr) → 0 ≤ vaddr < W32 → (PAGE_SIZE | size) → 0 ≤ size < W32 →
  0 ≤ base < W32 →
  (∀ e, arr_load (pdirs s) ptd (vaddr / (PAGE_SIZE * PT_ENTRIES)) = Some e →
    Z.land e I86_PDE_FRAME = 0 → static_room (play s) (4 * PT_ENTRIES) PAGE_SIZE) →
  ∃ s', paging_map ptd base size vaddr flags s = Ret tt s' ∧
    pg_step s s' ptd (vaddr / (PAGE_SIZE * PT_ENTRIES)) ∧ ∀ v, 0 ≤ v < W32 → walk s' ptd v =
      if decide (vaddr ≤ v < vaddr + table_pages vaddr (size / PAGE_SIZE) * PAGE_SIZE)
      then walk_entry (map_entry base vaddr flags v) else walk s ptd v.
Proof.
  intros Hok Hal Hv Hds Hs Hb Hroom. unfold paging_map.
  rewrite !align_page_id, !Z.eqb_refl by done. destruct Hds as [k ->].
  rewrite Z.div_mul by done. rewrite (bind_ret _ _ _ _ _ (ret_ok tt s)), (bind_ret _ _ _ _ _ (ret_ok tt s)).
  destruct (map_loop_spec (Z.to_nat k) s ptd base vaddr flags k) as (s' & E & Hstep & Hw); try done;
    [unfold PAGE_SIZE in *; lia|lia|].
  exists s'. done.
Qed.

(** ** Unmapping *)

Lemma pt_unmap_spec s ptd vaddr pages e :
  pd_ok s ptd → (PAGE_SIZE | vaddr) → 0 ≤ vaddr < W32 →
  arr_load (pdirs s) ptd (vaddr / (PAGE_SIZE * PT_ENTRIES)) = Some e → pde_ok s e →
  Z.land e I86_PDE_FRAME ≠ 0 → 0 ≤ pages ≤ PT_ENTRIES - vaddr / PAGE_SIZE mod PT_ENTRIES →
  ∃ s', paging_pt_unmap (Z.land e I86_PDE_FRAME + KERNEL_VMA) vaddr pages s = Ret tt s' ∧
    only_ptabs s s' ∧ pd_ok s' ptd ∧ ∀ v, 0 ≤ v < W32 → walk s' ptd v =
      if decide (vaddr ≤ v < vaddr + pages * PAGE_SIZE) then None else walk s ptd v.
Proof.
  intros Hok Hal Hv He Hpe Hf Hp. unfold paging_pt_unmap. rewrite (bind_ret _ _ _ _ _ (pt_id_eq vaddr s)).
  pose proof (pt_index_range vaddr) as Hid. set (id := vaddr / PAGE_SIZE mod PT_ENTRIES) in *.
  unfold PT_ENTRIES in Hp, Hid.
  rewrite (u32_small (id + pages)) by lia. rewrite (proj2 (Z.leb_le _ _)) by (unfold PT_ENTRIES; lia).
  rewrite (bind_ret _ _ _ _ _ (ret_ok tt s)). replace (id + pages - id) with pages by lia.
  pose proof Hpe as [[? _]|(_ & _ & _ & Ht)]; [done|].
  destruct (pt_unmap_loop_spec (Z.to_nat pages) (Z.land e I86_PDE_FRAME + KERNEL_VMA) id s)
    as (s' & E & Ho & Hl).
  { intros j Hj. apply Ht. unfold PT_ENTRIES. lia. }
  rewrite Z2Nat.id in Hl by lia. exists s'. split; [done|]. split; [done|].
  destruct (table_write s s' ptd _ e id (id + pages) (λ _, 0) Hok Ho (pd_index_range vaddr Hv) He Hpe Hf Hl)
    as [Hok' Hw].
  split; [done|]. intros v Hv'. rewrite Hw by done. simpl.
  pose proof (range_index v vaddr pages Hal) as Hri. fold id in Hri.
  specialize (Hri ltac:(lia) ltac:(lia) ltac:(unfold PT_ENTRIES; lia)).
  destruct (decide (vaddr ≤ v < vaddr + pages * PAGE_SIZE)) as [Hin|Hout].
  - by rewrite decide_True by tauto.
  - by rewrite decide_False by tauto.
Qed.

Lemma unmap_loop_spec fuel s ptd vaddr pages :
  pd_ok s ptd → (PAGE_SIZE | vaddr) → 0 ≤ vaddr → 0 ≤ pages ≤ Z.of_nat fuel →
  vaddr + pages * PAGE_SIZE ≤ W32 →
  (∀ v, vaddr ≤ v < vaddr + pages * PAGE_SIZE → table_at s ptd (v / (PAGE_SIZE * PT_ENTRIES))) →
  ∃ s', unmap_loop fuel ptd (u32 vaddr) (u32 (pages * PAGE_SIZE)) pages s = Ret tt s' ∧
    only_ptabs s s' ∧ pd_ok s' ptd ∧ ∀ v, 0 ≤ v < W32 → walk s' ptd v =
      if decide (vaddr ≤ v < vaddr + pages * PAGE_SIZE) then None else walk s ptd v.
Proof.
  revert s vaddr pages. induction fuel as [|fuel IH]; intros s vaddr pages Hok Hal Hv Hp Hsz Htab; simpl;
    (destruct (Z.eqb_spec pages 0) as [->|E0];
     [exists s; split; [done|]; split; [by destruct s|]; split; [done|];
      intros v Hv'; by rewrite decide_False by lia|]); [lia|].
  unfold PAGE_SIZE in Hsz. rewrite (u32_small vaddr) by lia. rewrite pd_id_eq.
  destruct (Htab vaddr) as (e & He & Hf); [unfold PAGE_SIZE; lia|].
  destruct (proj1 Hok _ (pd_index_range vaddr ltac:(lia))) as (e' & He' & Hpe).
  assert (e' = e) as -> by congruence. step (load_pde_ok _ _ _ _ He).
  destruct (pt_for_entry s ptd _ e Hok He Hpe Hf) as (-> & _ & Hn0).
  rewrite (proj2 (Z.eqb_neq _ NULL) Hn0), present_bit.
  pose proof Hpe as [[? _]|(_ & -> & _)]; [done|]. cbn [negb].
  rewrite (bind_ret _ _ _ _ _ (pt_id_eq vaddr s)).
  pose proof (pt_index_range vaddr) as Hid. fold (table_pages vaddr pages). set (c := table_pages vaddr pages) in *.
  assert (Hc : 1 ≤ c ≤ pages ∧ c ≤ PT_ENTRIES - vaddr / PAGE_SIZE mod PT_ENTRIES)
    by (unfold c, table_pages in *; lia).
  destruct (pt_unmap_spec s ptd vaddr c e) as (s1 & E1 & Ho1 & Hok1 & Hw1); try done; [lia|lia|].
  step E1.
  replace (u32 (c * PAGE_SIZE)) with (c * PAGE_SIZE)
    by (unfold PAGE_SIZE, PT_ENTRIES in *; rewrite u32_small; lia).
  replace (u32 (u32 (pages * PAGE_SIZE) - c * PAGE_SIZE)) with (u32 ((pages - c) * PAGE_SIZE))
    by (unfold u32; rewrite Zminus_mod_idemp_l; f_equal; lia).
  destruct (IH s1 (vaddr + c * PAGE_SIZE) (pages - c)) as (s2 & E2 & Ho2 & Hok2 & Hw2); try done.
  - apply Z.divide_add_r; [done|]. by exists c.
  - unfold PAGE_SIZE. lia.
  - lia.
  - unfold PAGE_SIZE. lia.
  - intros v Hv'. destruct (Htab v) as (ev & ? & ?); [unfold PAGE_SIZE in *; lia|].
    exists ev. by rewrite Ho1.
  - exists s2. split; [done|]. split; [by eapply only_ptabs_trans|]. split; [done|].
    intros v Hv'. rewrite Hw2, Hw1 by done. unfold PAGE_SIZE.
    destruct (decide (vaddr ≤ v < vaddr + pages * 4096)) as [Hin|Hout].
    + destruct (decide _); [done|]. by rewrite decide_True by lia.
    + by rewrite !decide_False by lia.
Qed.

Lemma paging_unmap_spec s ptd vaddr size :
  pd_ok s ptd → (PAGE_SIZE | vaddr) → 0 ≤ vaddr < W32 → (PAGE_SIZE | size) → 0 ≤ size < W32 →
  vaddr + size ≤ W32 →
  (∀ v, vaddr ≤ v < vaddr + size → table_at s ptd (v / (PAGE_SIZE * PT_ENTRIES))) →
  ∃ s', paging_unmap ptd vaddr size s = Ret tt s' ∧ only_ptabs s s' ∧ pd_ok s' ptd ∧
    ∀ v, 0 ≤ v < W32 → walk s' ptd v =
      if decide (vaddr ≤ v < vaddr + size) then None else walk s ptd v.
Proof.
  intros Hok Hal Hv Hds Hs Hend Htab. unfold paging_unmap.
  rewrite !align_page_id, !Z.eqb_refl by done. destruct Hds as [k ->].
  rewrite Z.div_mul by done. rewrite (bind_ret _ _ _ _ _ (ret_ok tt s)), (bind_ret _ _ _ _ _ (ret_ok tt s)).
  destruct (unmap_loop_spec (Z.to_nat k) s ptd vaddr k) as (s' & E & Hrest); try done;
    [lia|unfold PAGE_SIZE in *; lia|].
  rewrite !u32_small in E by lia. exists s'. done.
Qed.

(** ** Translations *)

Lemma page_split v vaddr :
  (PAGE_SIZE | vaddr) → (v / PAGE_SIZE - vaddr / PAGE_SIZE) * PAGE_SIZE + v mod PAGE_SIZE = v - vaddr.
Proof.
  intros [k ->]. rewrite Z.div_mul by done. pose proof (Z.div_mod v PAGE_SIZE ltac:(done)). lia.
Qed.

(** The address an entry written by [paging_map] leads to. *)
Lemma map_entry_translate base vaddr size flags v :
  (PAGE_SIZE | base) → (PAGE_SIZE | vaddr) → (PAGE_SIZE | size) → 0 ≤ base → base + size ≤ W32 →
  0 ≤ flags < PAGE_SIZE → Z.testbit flags 0 = true → vaddr ≤ v < vaddr + size →
  (pte ← walk_entry (map_entry base vaddr flags v); Some (Z.land pte I86_PTE_FRAME + v mod PAGE_SIZE))
    = Some (base + (v - vaddr)).
Proof.
  intros Hb Hv Hs Hb0 Hend Hf Hbit Hr. pose proof (page_split v vaddr Hv) as Hsp.
  pose proof (Z.mod_pos_bound v PAGE_SIZE ltac:(done)) as Hmod.
  unfold walk_entry, map_entry. set (k := v / PAGE_SIZE - vaddr / PAGE_SIZE) in *.
  assert (Ha : (PAGE_SIZE | base + k * PAGE_SIZE)) by (apply Z.divide_add_r; [done|by exists k]).
  assert (0 ≤ base + k * PAGE_SIZE < W32).
  { unfold PAGE_SIZE in *. destruct Hb as [b ->], Hs as [n ->]. lia. }
  rewrite u32_small by done. rewrite entry_bit0, Hbit by done. cbn [mbind option_bind].
  change I86_PTE_FRAME with I86_PDE_FRAME. rewrite frame_entry by done. f_equal. lia.
Qed.

(** The pages [vaddr, vaddr + size) are served by one table. *)
Definition one_table (vaddr size : Z) : Prop :=
  vaddr / PAGE_SIZE mod PT_ENTRIES + size / PAGE_SIZE ≤ PT_ENTRIES.

(** C15: mapping a page-aligned range that one page table serves makes every
    address of the range translate to the corresponding physical address and
    leaves the translation of all others as it was, whether or not the table
    had to be allocated. *)
Theorem paging_map_translates s ptd base size vaddr flags :
  pd_ok s ptd → (PAGE_SIZE | vaddr) → (PAGE_SIZE | size) → (PAGE_SIZE | base) →
  0 ≤ vaddr → vaddr + size ≤ W32 → 0 < size < W32 → 0 ≤ base → base + size ≤ W32 →
  0 ≤ flags < PAGE_SIZE → Z.testbit flags 0 = true → one_table vaddr size →
  static_room (play s) (4 * PT_ENTRIES) PAGE_SIZE →
  ∃ s', paging_map ptd base size vaddr flags s = Ret tt s' ∧ pd_ok s' ptd ∧
    ∀ v, 0 ≤ v < W32 → translate s' ptd v =
      if decide (vaddr ≤ v < vaddr + size) then Some (base + (v - vaddr)) else translate s ptd v.
Proof.
  intros Hok Hv Hs Hb Hv0 Hve Hs0 Hb0 Hbe Hf Hbit H1 Hroom.
  destruct (paging_map_spec s ptd base size vaddr flags) as (s' & E & (Hok' & _) & Hw); try done; [lia..|].
  exists s'. split; [done|]. split; [done|]. intros v Hv'. unfold translate. rewrite Hw by done.
  replace (table_pages vaddr (size / PAGE_SIZE) * PAGE_SIZE) with size.
  - destruct (decide _); [|done]. by apply map_entry_translate with size.
  - unfold table_pages, one_table in *. rewrite Z.min_l by lia. destruct Hs as [k ->]. by rewrite Z.div_mul.
Qed.

(** Of a range that runs past the end of its first page table only the
    part served by that table is mapped: [paging_map] never advances [vaddr],
    so the addresses beyond keep the translation they had. *)
Theorem paging_map_first_table_only s ptd base size vaddr flags v :
  pd_ok s ptd → (PAGE_SIZE | vaddr) → (PAGE_SIZE | size) → 0 ≤ vaddr < W32 → 0 ≤ size < W32 →
  0 ≤ base < W32 → static_room (play s) (4 * PT_ENTRIES) PAGE_SIZE →
  0 ≤ v < W32 → vaddr / (PAGE_SIZE * PT_ENTRIES) ≠ v / (PAGE_SIZE * PT_ENTRIES) →
  ∃ s', paging_map ptd base size vaddr flags s = Ret tt s' ∧ translate s' ptd v = translate s ptd v.
Proof.
  intros Hok Hv Hs Hv0 Hs0 Hb Hroom Hv' Hne.
  destruct (paging_map_spec s ptd base size vaddr flags) as (s' & E & _ & Hw); try done.
  exists s'. split; [done|]. unfold translate. rewrite Hw by done. rewrite decide_False; [done|].
  intros Hr. apply range_index in Hr as [? _]; [done|done|lia| |].
  - unfold table_pages. pose proof (pt_index_range vaddr). apply Z.min_glb; [|lia]. apply Z.div_pos; [lia|done].
  - unfold table_pages. lia.
Qed.

(** C16: unmapping a page-aligned range whose tables exist removes the
    translation of every address of the range, across table boundaries, and
    of no other. *)
Theorem paging_unmap_translates s ptd vaddr size :
  pd_ok s ptd → (PAGE_SIZE | vaddr) → 0 ≤ vaddr < W32 → (PAGE_SIZE | size) → 0 ≤ size < W32 →
  vaddr + size ≤ W32 →
  (∀ v, vaddr ≤ v < vaddr + size → table_at s ptd (v / (PAGE_SIZE * PT_ENTRIES))) →
  ∃ s', paging_unmap ptd vaddr size s = Ret tt s' ∧ pd_ok s' ptd ∧
    ∀ v, 0 ≤ v < W32 → translate s' ptd v =
      if decide (vaddr ≤ v < vaddr + size) then None else translate s ptd v.
Proof.
  intros. destruct (paging_unmap_spec s ptd vaddr size) as (s' & E & _ & Hok' & Hw); try done.
  exists s'. split; [done|]. split; [done|]. intros v Hv. unfold translate. rewrite Hw by done.
  by destruct (decide _).
Qed.

(** The layout may grow under the tables' feet. *)
Lemma pd_ok_set_play s ptd l :
  pd_ok s ptd → memory_start (play s) ≤ memory_start l → memory_end l = memory_end (play s) →
  memory_start l ≤ memory_end l → pd_ok (set_play l s) ptd.
Proof.
  intros (Hent & Hinj & Hka & Hk & Hm) H1 H2 H3. split; [|split; [exact Hinj|]].
  - intros i Hi. destruct (Hent i Hi) as (e & He & Hpe). exists e. split; [exact He|].
    destruct Hpe as [?|(? & ? & ? & ?)]; [by left|right]. split_and!; try done. simpl. lia.
  - simpl. split_and!; try done; lia.
Qed.

(** ** Initialisation *)

Lemma pd_init_loop_spec n i s :
  (∀ j, i ≤ j < i + Z.of_nat n → is_Some (arr_load (pdirs s) (_kernel_page_dir s) j)) →
  ∃ s', pd_init_loop n i s = Ret tt s' ∧ s' = set_pdirs (pdirs s') s ∧
    ∀ q j, arr_load (pdirs s') q j =
      if decide (q = _kernel_page_dir s ∧ i ≤ j < i + Z.of_nat n) then Some 0 else arr_load (pdirs s) q j.
Proof.
  revert i s. induction n as [|n IH]; intros i s Hs; simpl.
  - exists s. split; [done|]. split; [by destruct s|]. intros q j. by rewrite decide_False by lia.
  - step (eq_refl : get s = Ret s s). destruct (Hs i ltac:(lia)) as [e He]. step (load_pde_ok _ _ _ _ He).
    destruct (store_pde_ok s (_kernel_page_dir s) i 0) as (s1 & E1 & Ho1 & Hl1); [by eexists|].
    step E1. assert (Hk : _kernel_page_dir s1 = _kernel_page_dir s) by by rewrite Ho1.
    destruct (IH (i + 1) s1) as (s2 & E2 & Ho2 & Hl2).
    + intros j Hj. rewrite Hk, Hl1. destruct (decide _); [done|]. apply Hs. lia.
    + exists s2. split; [done|]. split; [rewrite Ho2, Ho1; done|]. intros q j. rewrite Hl2, Hl1, Hk.
      destruct (decide (q = _kernel_page_dir s)) as [->|]; [|rewrite !decide_False by tauto; done].
      destruct (decide (j = i)) as [->|Hne].
      * rewrite decide_False, decide_True, decide_True by lia. done.
      * destruct (decide (i ≤ j < i + Z.of_nat (S n))) as [Hin|Hout].
        -- by rewrite !decide_True by lia.
        -- by rewrite !decide_False by lia.
Qed.

(** What [layout_init] and the linker script provide: the kernel is linked at
    a 4 MB boundary, ends within the first 4 MB, and there is room for a
    directory and two tables. *)
Definition boot_layout (l : layout) : Prop :=
  segment_start l = KERNEL_VMA ∧ (PAGE_SIZE * PT_ENTRIES | KERNEL_VMA) ∧
  PAGE_SIZE * PT_ENTRIES ≤ KERNEL_VMA < memory_start l ∧
  memory_start l + 6 * PAGE_SIZE ≤ memory_end l ∧ (PAGE_SIZE | memory_end l) ∧
  memory_end l ≤ KERNEL_VMA + PAGE_SIZE * PT_ENTRIES ∧ memory_end l < W32 - PAGE_SIZE.

Lemma vma_page : (PAGE_SIZE * PT_ENTRIES | KERNEL_VMA) → (PAGE_SIZE | KERNEL_VMA).
Proof. intros [k ->]. exists (k * PT_ENTRIES). unfold PAGE_SIZE, PT_ENTRIES. lia. Qed.

Lemma init_kernel_page_dir_spec s garbage :
  boot_layout (play s) → length garbage = Z.to_nat PDT_ENTRIES →
  ∃ s' kpd, paging_init_kernel_page_dir garbage s = Ret tt s' ∧ _kernel_page_dir s' = kpd ∧
    KERNEL_VMA < kpd < W32 ∧ pd_ok s' kpd ∧ (∀ v, 0 ≤ v < W32 → walk s' kpd v = None) ∧
    lay_grows (2 * PAGE_SIZE) (play s) (play s').
Proof.
  intros (Hseg & Hka & Hk & Hroom & Hme & Hone & Hend) Hlen. unfold paging_init_kernel_page_dir.
  destruct (align_address_bounds (memory_start (play s)) PAGE_SIZE) as [Hb Hd];
    [apply pow2_32_page|unfold PAGE_SIZE, PT_ENTRIES in *; lia..|].
  pose proof (kalloc_static_ok (play s) (4 * PDT_ENTRIES) PAGE_SIZE) as Ek.
  set (kpd := align_address _ _) in *. unfold static_room in Ek. fold kpd in Ek.
  change (4 * PDT_ENTRIES) with PAGE_SIZE in *. unfold PAGE_SIZE, PT_ENTRIES in Hk, Hroom, Hend, Hb.
  step (zoom_ret play set_play _ s _ _ (Ek ltac:(done) ltac:(done) ltac:(lia) ltac:(lia) ltac:(unfold PAGE_SIZE; lia))).
  rewrite bind_modify. set (s1 := set_kernel_pd _ _). unfold paging_pd_init.
  assert (Hs1 : ∀ q j, arr_load (pdirs s1) q j =
    if decide (q = kpd) then (if j <? 0 then None else garbage !! Z.to_nat j) else arr_load (pdirs s) q j).
  { intros q j. apply arr_load_insert. }
  destruct (pd_init_loop_spec (Z.to_nat PDT_ENTRIES) 0 s1) as (s2 & E2 & Ho2 & Hl2).
  { intros j Hj. rewrite Hs1, decide_True by done. rewrite (proj2 (Z.ltb_ge j 0)) by lia.
    apply lookup_lt_is_Some. unfold PDT_ENTRIES in *. lia. }
  assert (Hent : ∀ j, 0 ≤ j < PDT_ENTRIES → arr_load (pdirs s2) kpd j = Some 0).
  { intros j Hj. by rewrite Hl2, decide_True by done. }
  assert (Hp2 : play s2 = Layout (segment_start (play s)) (kpd + PAGE_SIZE) (memory_end (play s))) by by rewrite Ho2.
  exists s2, kpd. split; [done|]. split; [by rewrite Ho2|]. split; [lia|]. split; [|split].
  - split; [|split]; [| |split_and!].
    + intros i Hi. exists 0. split; [by apply Hent|]. by left.
    + intros i j e e' Hi Hj. rewrite !Hent by done. by intros [= <-].
    + by apply vma_page.
    + unfold PAGE_SIZE, PT_ENTRIES in *. lia.
    + rewrite Hp2. simpl. unfold PAGE_SIZE, PT_ENTRIES in *. lia.
    + rewrite Hp2. simpl. unfold PAGE_SIZE, PT_ENTRIES in *. lia.
    + rewrite Hp2. simpl. unfold PAGE_SIZE, PT_ENTRIES in *. lia.
  - intros v Hv. unfold walk. by rewrite Hent by by apply pd_index_range.
  - rewrite Hp2. unfold lay_grows. simpl. unfold PAGE_SIZE, PT_ENTRIES in *. lia.
Qed.

(** Room for one more table, wherever the break is within the first few pages. *)
Lemma room_for_table l l' n :
  lay_grows n l l' → memory_start l + n + 2 * PAGE_SIZE ≤ memory_end l → 0 < memory_start l →
  memory_end l < W32 - PAGE_SIZE → 0 ≤ n → static_room l' (4 * PT_ENTRIES) PAGE_SIZE.
Proof.
  intros (_ & Hme & Hms) Hr H0 He Hn. unfold static_room. change (4 * PT_ENTRIES) with PAGE_SIZE.
  destruct (align_address_bounds (memory_start l') PAGE_SIZE) as [Hb _];
    [apply pow2_32_page|lia|unfold PAGE_SIZE in *; lia|]. lia.
Qed.

Lemma map_whole_table s ptd base size vaddr flags :
  pd_ok s ptd → (PAGE_SIZE * PT_ENTRIES | vaddr) → (PAGE_SIZE | size) → (PAGE_SIZE | base) →
  0 ≤ vaddr < W32 → 0 < size ≤ PAGE_SIZE * PT_ENTRIES → 0 ≤ base → base + size ≤ W32 →
  0 ≤ flags < PAGE_SIZE → Z.testbit flags 0 = true →
  static_room (play s) (4 * PT_ENTRIES) PAGE_SIZE →
  ∃ s', paging_map ptd base size vaddr flags s = Ret tt s' ∧ pd_ok s' ptd ∧ same_regs s s' ∧
    lay_grows (2 * PAGE_SIZE) (play s) (play s') ∧
    ∀ v, 0 ≤ v < W32 → translate s' ptd v =
      if decide (vaddr ≤ v < vaddr + size) then Some (base + (v - vaddr)) else translate s ptd v.
Proof.
  intros Hok Hv Hs Hb Hv0 Hs0 Hb0 Hbe Hf Hbit Hroom.
  assert (Hvp : (PAGE_SIZE | vaddr)).
  { destruct Hv as [k ->]. exists (k * PT_ENTRIES). unfold PAGE_SIZE, PT_ENTRIES. lia. }
  assert (Hid : vaddr / PAGE_SIZE mod PT_ENTRIES = 0).
  { destruct Hv as [k ->]. replace (k * (PAGE_SIZE * PT_ENTRIES)) with (k * PT_ENTRIES * PAGE_SIZE) by lia.
    rewrite Z.div_mul by done. by rewrite Z.mod_mul. }
  destruct (paging_map_spec s ptd base size vaddr flags)
    as (s' & E & (Hok' & Hr' & Hg' & _) & Hw); try done; [unfold PAGE_SIZE, PT_ENTRIES in *; lia..|].
  exists s'. split; [done|]. split; [done|]. split; [done|]. split; [done|].
  intros v Hv'. unfold translate. rewrite Hw by done. unfold table_pages. rewrite Hid.
  destruct Hs as [n ->]. rewrite Z.div_mul by done. rewrite Z.min_l by (unfold PAGE_SIZE, PT_ENTRIES in *; lia).
  destruct (decide _); [|done]. apply map_entry_translate with (n * PAGE_SIZE); try done. by exists n.
Qed.

(** C14: after [paging_init] the kernel's directory is loaded and paging is on;
    the first 4 MB translate to themselves, the kernel's segment translates to
    physical memory from address 0, and nothing else translates at all. *)
Theorem paging_init_translates s garbage :
  boot_layout (play s) → length garbage = Z.to_nat PDT_ENTRIES →
  ∃ s' kpd, paging_init garbage s = Ret tt s' ∧ _current_page_dir s' = kpd ∧
    cr3 s' = kpd - KERNEL_VMA ∧ cr0_pg s' = true ∧ pd_ok s' kpd ∧
    ∀ v, 0 ≤ v < W32 → translate s' kpd v =
      if decide (KERNEL_VMA ≤ v < memory_end (play s)) then Some (v - KERNEL_VMA)
      else if decide (0 ≤ v < PAGE_SIZE * PT_ENTRIES) then Some v else None.
Proof.
  intros Hl Hlen. pose proof Hl as (Hseg & Hka & Hk & Hroom & Hme & Hone & Hend).
  destruct (init_kernel_page_dir_spec s garbage Hl Hlen) as (s1 & kpd & E1 & Hkpd & Hkv & Hok1 & Hw1 & Hg1).
  unfold paging_init. step E1. rewrite bind_get, Hkpd. unfold paging_identity_map.
  change (Z.lor (Z.lor I86_PTE_PRESENT I86_PTE_WRITABLE) I86_PTE_USER) with 7.
  destruct (map_whole_table s1 kpd 0 (PT_ENTRIES * PAGE_SIZE) 0 7)
    as (s2 & E2 & Hok2 & Hr2 & Hg2 & Ht2); try done; try (by exists 0).
  { by exists PT_ENTRIES. }
  { apply (room_for_table (play s) _ (2 * PAGE_SIZE)); try done; unfold PAGE_SIZE, PT_ENTRIES in *; lia. }
  step E2. pose proof (lay_grows_trans _ _ _ _ _ Hg1 Hg2) as Hg12. unfold paging_map_kernel. rewrite bind_assoc, bind_get.
  replace (align_address_down (segment_start (play s2)) (PT_ENTRIES * PAGE_SIZE)) with KERNEL_VMA.
  2: { destruct Hg12 as (-> & _ & _). rewrite Hseg. symmetry.
       rewrite align_address_down_eq; [|exists 22; split; [lia|reflexivity]|unfold PAGE_SIZE, PT_ENTRIES in *; lia].
       assert (KERNEL_VMA mod (PT_ENTRIES * PAGE_SIZE) = 0); [|lia]. by apply Z.mod_divide. }
  replace (memory_end (play s2)) with (memory_end (play s)) by (by destruct Hg12 as (_ & -> & _)).
  set (size := memory_end (play s) - KERNEL_VMA) in *.
  assert (Hsz : 0 < size ≤ PAGE_SIZE * PT_ENTRIES) by (unfold size, PAGE_SIZE, PT_ENTRIES in *; lia).
  rewrite (u32_small size) by (unfold PAGE_SIZE, PT_ENTRIES in *; lia).
  destruct (map_whole_table s2 kpd 0 size KERNEL_VMA 7)
    as (s3 & E3 & Hok3 & Hr3 & Hg3 & Ht3); try done.
  { apply Z.divide_sub_r; [done|]. by apply vma_page. }
  { by exists 0. }
  { unfold PAGE_SIZE, PT_ENTRIES in *. lia. }
  { unfold PAGE_SIZE, PT_ENTRIES in *. lia. }
  { eapply (room_for_table (play s)); [exact Hg12|unfold PAGE_SIZE, PT_ENTRIES in *; lia..]. }
  step E3. unfold paging_load_page_dir. rewrite !bind_assoc, !bind_modify.
  eexists _, kpd. split; [reflexivity|]. split; [done|]. split; [|split; [done|split]].
  - simpl. rewrite u32_small; [done|]. unfold PAGE_SIZE, PT_ENTRIES in *. lia.
  - exact Hok3.
  - intros v Hv. transitivity (translate s3 kpd v); [done|]. rewrite Ht3, Ht2 by done.
    replace (KERNEL_VMA + size) with (memory_end (play s)) by (unfold size; lia).
    destruct (decide _); [done|]. replace (0 + PT_ENTRIES * PAGE_SIZE) with (PAGE_SIZE * PT_ENTRIES) by lia.
    destruct (decide _); [f_equal; lia|]. unfold translate. by rewrite Hw1.
Qed.
End Paging.

(** ** A concrete state *)

Definition ex_vma : Z := 3221225472. (* 0xC0000000 *)

(** The state before [paging_init] with a kernel of one megabyte. *)
Definition ex_boot : pstate :=
  PState ∅ ∅ 0 0 0 false (Layout ex_vma (ex_vma + 2097152) (ex_vma + 4194304)).

Lemma ex_boot_layout : boot_layout ex_vma (play ex_boot).
Proof. split_and!; try done; [by exists 768|by exists 787456]. Qed.

Definition ex_garbage : list Z := replicate 1024 3735928559.

Lemma paging_init_translates_witness :
  ∃ s', paging_init ex_vma ex_garbage ex_boot = Ret tt s'.
Proof.
  destruct (paging_init_translates ex_vma ex_boot ex_garbage) as (s' & _ & E & _).
  - apply ex_boot_layout.
  - reflexivity.
  - by exists s'.
Defined.

(** A directory without tables. *)
Definition ex_dir : Z := ex_vma + 1048576.
Definition ex_pstate : pstate :=
  PState {[ ex_dir := replicate 1024 0 ]} ∅ ex_dir ex_dir 1048576 true
    (Layout ex_vma (ex_vma + 2097152) (ex_vma + 4194304)).

Lemma ex_entries i : 0 ≤ i < PDT_ENTRIES → arr_load (pdirs ex_pstate) ex_dir i = Some 0.
Proof.
  intros Hi. unfold arr_load, ex_pstate. cbn [pdirs]. rewrite (proj2 (Z.ltb_ge i 0)) by lia.
  rewrite lookup_singleton_eq. cbn [mbind option_bind]. apply lookup_replicate_2. unfold PDT_ENTRIES in Hi. lia.
Qed.

Lemma ex_pd_ok : pd_ok ex_vma ex_pstate ex_dir.
Proof.
  split_and!; try done.
  - intros i Hi. exists 0. split; [by apply ex_entries|by left].
  - intros i j e e' Hi Hj. rewrite !ex_entries by done. by intros [= <-].
  - by exists 786432.
Qed.

Lemma paging_map_translates_witness :
  ∃ s', paging_map ex_vma ex_dir 1048576 8192 4096 7 ex_pstate = Ret tt s'.
Proof.
  destruct (paging_map_translates ex_vma ex_pstate ex_dir 1048576 8192 4096 7) as (s' & E & _); try done.
  - apply ex_pd_ok.
  - by exists 2.
  - by exists 256.
  - by exists s'.
Defined.

Lemma paging_map_first_table_only_witness :
  ∃ s', paging_map ex_vma ex_dir 0 8388608 0 7 ex_pstate = Ret tt s' ∧
    translate ex_vma s' ex_dir 4194304 = translate ex_vma ex_pstate ex_dir 4194304.
Proof.
  apply (paging_map_first_table_only ex_vma ex_pstate ex_dir 0 8388608 0 7 4194304); try done.
  - apply ex_pd_ok.
  - by exists 0.
  - by exists 2048.
Defined.

(** A directory with one table, for the first 4 MB. *)
Definition ex_mapped : pstate :=
  PState {[ ex_dir := <[0%nat := 2097159]> (replicate 1024 0) ]}
    {[ ex_vma + 2097152 := replicate 1024 3 ]} ex_dir ex_dir 1048576 true
    (Layout ex_vma (ex_vma + 3145728) (ex_vma + 4194304)).

Lemma ex_mapped_entry i e :
  0 ≤ i < PDT_ENTRIES → arr_load (pdirs ex_mapped) ex_dir i = Some e ↔ e = if i =? 0 then 2097159 else 0.
Proof.
  intros Hi. unfold arr_load, ex_mapped. cbn [pdirs]. rewrite (proj2 (Z.ltb_ge i 0)) by lia.
  rewrite lookup_singleton_eq. cbn [mbind option_bind]. destruct (Z.eqb_spec i 0) as [->|Hne].
  - split; [by intros [= <-]|by intros ->].
  - rewrite list_lookup_insert_ne by lia. unfold PDT_ENTRIES in Hi.
    rewrite lookup_replicate_2 by lia. split; [by intros [= <-]|by intros ->].
Qed.

Lemma ex_mapped_ok : pd_ok ex_vma ex_mapped ex_dir.
Proof.
  split_and!; try done.
  - intros i Hi. eexists. split; [by apply ex_mapped_entry|].
    destruct (i =? 0); [right|by left]. split_and!; try done.
    intros j Hj. unfold arr_load, ex_mapped. cbn [ptabs]. rewrite (proj2 (Z.ltb_ge j 0)) by lia.
    change (Z.land 2097159 I86_PDE_FRAME + ex_vma) with (ex_vma + 2097152).
    rewrite lookup_singleton_eq. cbn [mbind option_bind].
    rewrite lookup_replicate_2; [done|]. unfold PT_ENTRIES in Hj. lia.
  - intros i j e e' Hi Hj. rewrite !ex_mapped_entry by done. intros -> ->.
    destruct (Z.eqb_spec i 0), (Z.eqb_spec j 0); subst; done.
  - by exists 786432.
Qed.

Lemma paging_unmap_translates_witness :
  ∃ s', paging_unmap ex_vma ex_dir 4096 8192 ex_mapped = Ret tt s'.
Proof.
  destruct (paging_unmap_translates ex_vma ex_mapped ex_dir 4096 8192) as (s' & E & _); try done.
  - apply ex_mapped_ok.
  - by exists 2.
  - intros v Hv. exists 2097159. split; [|done]. rewrite Z.div_small by (unfold PAGE_SIZE, PT_ENTRIES; lia).
    by apply ex_mapped_entry.
  - by exists s'.
Defined.
