(* ===== verification/Kmem.v ===== *)
(** * kernel/mm/kmem.c, kmem.h and vm_space.c: kernel memory

    The layer that ties the allocators to the page tables: physical frames
    come from [_kern_pm_alloc_map], kernel address space from the
    [vm_alloc_map] of [_kern_vm_space], the areas in use are recorded in its
    [vm_map], and the two are wired together by [paging_map]. *)

From stdpp Require Import base numbers list gmap strings fin_maps.
From S2P Require Import Prelude UtList MemUtil Range RangeSpec RangeRefine Allocator VmMap Paging.

(** ** Data *)

(** [struct kmem_page] *)
Record kmem_page := KmemPage { kp_next : Z; kp_addr : Z }.
Definition sizeof_kmem_page : Z := 8.
Definition kp_set_next p r := KmemPage p (kp_addr r).

#[export, refine] Instance kmem_page_node : LLNode kmem_page :=
  {| ll_next := kp_next; ll_set_next := kp_set_next |}.
Proof. all: intros; done || by destruct n. Defined.

(** The objects the functions act on: the two kinds of region structs, the
    page tables, the page structs with their free list, the directory of
    [_kern_vm_space], and the layout that all static memory comes from. *)
Record kstate := KState {
  k_alloc : astate;
  k_vm : vstate;
  k_pg : pstate;
  k_pages : gmap Z kmem_page;
  _page_struct_free_list : Z;
  k_space_pd : Z;
  k_lay : layout
}.

(** The global objects of kmem.c. *)
Definition _kern_pm_alloc_map : Z := 1.
Definition _kern_vm_alloc_map : Z := 2. (* _kern_vm_space.vm_alloc_map *)
Definition _kern_vm_map : Z := 1. (* _kern_vm_space.vm_map *)

(** Each component sees its own objects and the common layout; the layout
    stored with the component is not used. *)
Definition alloc_view (k : kstate) : astate := set_lay (k_lay k) (k_alloc k).
Definition vm_view (k : kstate) : vstate := set_lay (k_lay k) (k_vm k).
Definition pg_view (k : kstate) : pstate := set_play (k_lay k) (k_pg k).

Definition put_alloc (s : astate) (k : kstate) : kstate :=
  KState (set_lay (lay (k_alloc k)) s) (k_vm k) (k_pg k) (k_pages k) (_page_struct_free_list k)
    (k_space_pd k) (lay s).
Definition put_vm (s : vstate) (k : kstate) : kstate :=
  KState (k_alloc k) (set_lay (lay (k_vm k)) s) (k_pg k) (k_pages k) (_page_struct_free_list k)
    (k_space_pd k) (lay s).
Definition put_pg (s : pstate) (k : kstate) : kstate :=
  KState (k_alloc k) (k_vm k) (set_play (play (k_pg k)) s) (k_pages k) (_page_struct_free_list k)
    (k_space_pd k) (play s).
Definition put_lay (l : layout) (k : kstate) : kstate :=
  KState (k_alloc k) (k_vm k) (k_pg k) (k_pages k) (_page_struct_free_list k) (k_space_pd k) l.
Definition put_pages (h : gmap Z kmem_page) (k : kstate) : kstate :=
  KState (k_alloc k) (k_vm k) (k_pg k) h (_page_struct_free_list k) (k_space_pd k) (k_lay k).
Definition put_page_free (p : Z) (k : kstate) : kstate :=
  KState (k_alloc k) (k_vm k) (k_pg k) (k_pages k) p (k_space_pd k) (k_lay k).
Definition put_space_pd (p : Z) (k : kstate) : kstate :=
  KState (k_alloc k) (k_vm k) (k_pg k) (k_pages k) (_page_struct_free_list k) p (k_lay k).

Definition on_alloc {A} (m : M astate A) : M kstate A := zoom alloc_view put_alloc m.
Definition on_vm {A} (m : M vstate A) : M kstate A := zoom vm_view put_vm m.
Definition on_pg {A} (m : M pstate A) : M kstate A := zoom pg_view put_pg m.
Definition on_pages {A} (m : M (gmap Z kmem_page) A) : M kstate A := zoom k_pages put_pages m.

Definition KMEM_PAGE_SIZE : Z := PAGE_SIZE.
Definition KMEM_PAGE_ALIGN (addr : Z) : Z := page_align addr.
Abbreviation MAX_VA := 4294967295 (only parsing).

(** Attributes of every mapping made here. *)
Abbreviation KMEM_ATTRS := (Z.lor (Z.lor I86_PDE_PRESENT I86_PDE_WRITABLE) I86_PDE_USER) (only parsing).

(** ** Operations *)
Section Kmem.
Set Default Proof Using "Type".
Variable KERNEL_VMA : Z.
(** Contents of static memory before it is written. *)
Variable fresh_ar : Z → allocator_region.
Variable fresh_vr : Z → vm_map_region.
Variable fresh_page : Z → kmem_page.
Variable junk : allocator_region.

Definition vm_space_init (pd : Z) : M kstate unit :=
  on_vm (vm_map_init _kern_vm_map);;
  on_alloc (allocator_map_init _kern_vm_alloc_map);;
  modify (put_space_pd pd).

Definition kmem_init : M kstate unit :=
  pd ← on_pg paging_pd_current;
  vm_space_init pd;;
  on_alloc (allocator_map_init _kern_pm_alloc_map).

Definition kern_pm_alloc_region_add (start size flags : Z) : M kstate unit :=
  on_alloc (allocator_region_add_new fresh_ar _kern_pm_alloc_map start size flags).

Definition kmem_load_layout : M kstate unit :=
  k ← get;
  on_alloc (allocator_region_add_new fresh_ar _kern_vm_alloc_map KMEM_PAGE_SIZE
    (u32 (segment_start (k_lay k) - KMEM_PAGE_SIZE)) ALLOC_VM_USER);;
  k ← get;
  on_alloc (allocator_region_add_new fresh_ar _kern_vm_alloc_map (segment_start (k_lay k))
    (u32 (MAX_VA - segment_start (k_lay k) + 1)) ALLOC_VM_KERNEL);;
  k ← get;
  on_alloc (allocator_range_acquire fresh_ar junk _kern_vm_alloc_map (segment_start (k_lay k))
    (u32 (memory_end (k_lay k) - segment_start (k_lay k)))).

(** Returns 0 on failure. *)
Definition kmem_frames_alloc (num_frames : Z) : M kstate Z :=
  r ← on_alloc (allocator_mem_alloc fresh_ar _kern_pm_alloc_map (u32 (KMEM_PAGE_SIZE * num_frames))
    KMEM_PAGE_SIZE ALLOC_PM_NORMAL);
  match r with Some p_addr => mret p_addr | None => mret 0 end.

Definition kmem_frame_alloc : M kstate Z := kmem_frames_alloc 1.

Definition kmem_frames_free (p_addr num_frames : Z) : M kstate unit :=
  on_alloc (allocator_mem_free fresh_ar _kern_pm_alloc_map p_addr (u32 (KMEM_PAGE_SIZE * num_frames))
    ALLOC_PM_NORMAL).

Definition kmem_frame_free (p_addr : Z) : M kstate unit := kmem_frames_free p_addr 1.

(** Returns 0 on failure. *)
Definition kmem_vm_alloc (size : Z) : M kstate Z :=
  r ← on_alloc (allocator_mem_alloc fresh_ar _kern_vm_alloc_map size 0 ALLOC_VM_KERNEL);
  match r with
  | Some addr => on_vm (vm_map_region_add_new fresh_vr _kern_vm_map addr size);; mret addr
  | None => mret 0
  end.

(** [region->size] is read after [vm_map_region_remove] has freed the struct. *)
Definition kmem_vm_free (addr : Z) : M kstate unit :=
  r ← on_vm (vm_map_region_find_address _kern_vm_map addr);
  match r with
  | Some region =>
      on_vm (vm_map_region_remove _kern_vm_map addr);;
      n ← on_vm (on_heap (load region));
      on_alloc (allocator_mem_free fresh_ar _kern_vm_alloc_map addr (vr_size n) ALLOC_VM_KERNEL)
  | None => panic "double free?"
  end.

Definition kmem_vm_get_size (vm_addr : Z) : M kstate (option Z) :=
  r ← on_vm (vm_map_region_find_address _kern_vm_map vm_addr);
  match r with
  | Some region => n ← on_vm (on_heap (load region)); mret (Some (vr_size n))
  | None => mret None
  end.

Definition kmem_pages_map (p_addr num_pages : Z) (flush : bool) : M kstate (option Z) :=
  let size := u32 (num_pages * KMEM_PAGE_SIZE) in
  vm_addr ← kmem_vm_alloc size;
  if vm_addr =? 0 then mret None
  else
    pd ← on_pg paging_pd_current;
    on_pg (paging_map KERNEL_VMA pd p_addr size vm_addr KMEM_ATTRS);;
    (if flush then on_pg paging_flush else mret tt);;
    mret (Some vm_addr).

Definition kmem_pages_unmap (vm_addr : Z) (flush : bool) : M kstate bool :=
  r ← kmem_vm_get_size vm_addr;
  match r with
  | Some size =>
      pd ← on_pg paging_pd_current;
      on_pg (paging_unmap KERNEL_VMA pd vm_addr size);;
      kmem_vm_free vm_addr;;
      mret true
  | None => mret false
  end.

Definition kmem_page_alloc (flags vm_addr : Z) (flush : bool) : M kstate bool :=
  p_addr ← kmem_frame_alloc;
  (if negb (p_addr =? 0) then
     pd ← on_pg paging_pd_current;
     on_pg (paging_map KERNEL_VMA pd p_addr KMEM_PAGE_SIZE vm_addr KMEM_ATTRS);;
     (if flush then on_pg paging_flush else mret tt)
   else mret tt);;
  mret (negb (p_addr =? 0)).

(** The page is unmapped; the physical frame is not freed. *)
Definition kmem_page_free (vm_addr flags : Z) (flush : bool) : M kstate unit :=
  pd ← on_pg paging_pd_current;
  on_pg (paging_unmap KERNEL_VMA pd vm_addr KMEM_PAGE_SIZE);;
  if flush then on_pg paging_flush else mret tt.

Fixpoint pages_free_loop (n : nat) (flags vm_addr : Z) : M kstate unit :=
  match n with
  | O => mret tt
  | S n => kmem_page_free vm_addr flags false;; pages_free_loop n flags (u32 (vm_addr + KMEM_PAGE_SIZE))
  end.

Definition kmem_pages_free (flags vm_base_addr num_pages : Z) (flush : bool) : M kstate unit :=
  pages_free_loop (Z.to_nat num_pages) flags vm_base_addr;;
  if negb (num_pages =? 0) && flush then on_pg paging_flush else mret tt.

(** The loop of [kmem_pages_alloc]: whether all pages were wired, and [i]. *)
Fixpoint pages_alloc_loop (n : nat) (i flags vm_addr : Z) : M kstate (bool * Z) :=
  match n with
  | O => mret (true, i)
  | S n =>
      ok ← kmem_page_alloc flags vm_addr false;
      if ok : bool then pages_alloc_loop n (i + 1) flags (u32 (vm_addr + KMEM_PAGE_SIZE))
      else mret (false, i)
  end.

Definition kmem_pages_alloc (flags vm_base_addr num_pages : Z) (flush : bool) : M kstate bool :=
  '(ok, i) ← pages_alloc_loop (Z.to_nat num_pages) 0 flags vm_base_addr;
  if ok : bool then
    (if negb (i =? 0) && flush then on_pg paging_flush else mret tt);;
    mret true
  else
    kmem_pages_free flags vm_base_addr i flush;;
    mret false.

Definition kmem_alloc (size : Z) : M kstate Z :=
  let aligned_size := KMEM_PAGE_ALIGN size in
  addr ← kmem_vm_alloc aligned_size;
  let num_pages := aligned_size / KMEM_PAGE_SIZE in
  if negb (addr =? 0) then
    ok ← kmem_pages_alloc 0 addr num_pages true;
    if negb ok then kmem_vm_free addr;; mret 0
    else mret addr
  else mret addr.

(** Not implemented in the code either. *)
Definition kmem_free (addr : Z) : M kstate unit := mret tt.
Definition kmem_wire (vaddr size flags : Z) : M kstate bool := mret false.

Definition kmem_print_info : M kstate ((Z * Z * Z) * (Z * Z * Z)) :=
  pm ← on_alloc (allocator_print_map_info _kern_pm_alloc_map);
  vm ← on_alloc (allocator_print_map_info _kern_vm_alloc_map);
  mret (pm, vm).

Definition kmem_page_struct_alloc : M kstate Z :=
  k ← get;
  if negb (_page_struct_free_list k =? NULL) then
    let page := _page_struct_free_list k in
    head ← on_pages (LL_DELETE page page);
    modify (put_page_free head);;
    mret page
  else
    p ← zoom k_lay put_lay (kalloc_static sizeof_kmem_page sizeof_kmem_page);
    modify (λ k, put_pages (<[p := fresh_page p]> (k_pages k)) k);;
    mret p.

Definition kmem_page_struct_free (page : Z) : M kstate unit :=
  k ← get;
  head ← on_pages (LL_PREPEND (_page_struct_free_list k) page);
  modify (put_page_free head).

(** The list head is [page_list->pages]; the result is its final value. *)
Fixpoint pages_list_free_loop (fuel : nat) (flags pages page : Z) : M kstate Z :=
  match fuel with
  | O => nofuel
  | S fuel =>
      if page =? NULL then mret pages
      else
        n ← on_pages (load page);
        let tmp := kp_next n in
        kmem_page_free (kp_addr n) flags false;;
        pages ← on_pages (LL_DELETE pages page);
        kmem_page_struct_free page;;
        pages_list_free_loop fuel flags pages tmp
  end.

Definition kmem_pages_list_free (flags pages : Z) : M kstate Z :=
  k ← get;
  pages ← pages_list_free_loop (S (size (k_pages k))) flags pages pages;
  on_pg paging_flush;;
  mret pages.

(** ** The invariant *)

Notation page_edge := (λ a : Z, (PAGE_SIZE | a)).

(** The kernel memory maps: [pm] is the free physical memory, [vm] the free
    address space, [ar] the areas in use. *)
Record kinv (k : kstate) (ms : gmap Z (list allocator_region))
    (pm vm : list allocator_region) (ar : list vm_map_region) : Prop := {
  ki_maps : maps_inv (alloc_view k) ms;
  ki_pm : ms !! _kern_pm_alloc_map = Some pm;
  ki_vm : ms !! _kern_vm_alloc_map = Some vm;
  ki_areas : maps_inv (vm_view k) {[ _kern_vm_map := ar ]};
  ki_pd : pd_ok KERNEL_VMA (pg_view k) (_current_page_dir (k_pg k));
  ki_pm_wf : wf_list pm;
  ki_pm_edges : edges page_edge (λ _, True) pm;
  ki_vm_wf : wf_list vm;
  ki_vm_edges : edges page_edge page_edge vm;
  ki_nodup : NoDup (starts ar);
  (* an area is page-aligned and none of it is free *)
  ki_area : ∀ a sz, areas ar !! a = Some sz →
    0 < a ∧ 0 < sz ∧ a + sz ≤ W32 ∧ (PAGE_SIZE | a) ∧ (PAGE_SIZE | sz) ∧
    ∀ x f, a ≤ x < a + sz → ¬ covers vm x f;
  (* areas do not overlap *)
  ki_disjoint : ∀ a sz b sz' x, areas ar !! a = Some sz → areas ar !! b = Some sz' → a ≠ b →
    a ≤ x < a + sz → ¬ b ≤ x < b + sz';
  (* free kernel address space is not mapped *)
  ki_unmapped : ∀ x, covers vm x ALLOC_VM_KERNEL →
    walk KERNEL_VMA (pg_view k) (_current_page_dir (k_pg k)) x = None
}.

Definition current_walk (k : kstate) (v : Z) : option Z :=
  walk KERNEL_VMA (pg_view k) (_current_page_dir (k_pg k)) v.
Definition current_translate (k : kstate) (v : Z) : option Z :=
  translate KERNEL_VMA (pg_view k) (_current_page_dir (k_pg k)) v.

(** [n] bytes of static memory are left. *)
Definition room (n : Z) (k : kstate) : Prop := memory_start (k_lay k) + n ≤ memory_end (k_lay k).

Lemma room_grows n m k k' : lay_grows n (k_lay k) (k_lay k') → room (n + m) k → room m k'.
Proof. unfold room, lay_grows. lia. Qed.

Lemma room_mono n m k : n ≤ m → room m k → room n k.
Proof. unfold room. lia. Qed.

Lemma on_alloc_ok {A} (m : M astate A) k a s' :
  m (alloc_view k) = Ret a s' → on_alloc m k = Ret a (put_alloc s' k).
Proof. apply zoom_ret. Qed.
Lemma on_vm_ok {A} (m : M vstate A) k a s' :
  m (vm_view k) = Ret a s' → on_vm m k = Ret a (put_vm s' k).
Proof. apply zoom_ret. Qed.
Lemma on_pg_ok {A} (m : M pstate A) k a s' :
  m (pg_view k) = Ret a s' → on_pg m k = Ret a (put_pg s' k).
Proof. apply zoom_ret. Qed.

(** Writing back what was read changes nothing. *)
Lemma put_vm_view k : put_vm (vm_view k) k = k.
Proof. by destruct k as [? [] ? ? ? ? ?]. Qed.
Lemma put_pg_view k : put_pg (pg_view k) k = k.
Proof. by destruct k as [? ? [] ? ? ? ?]. Qed.

(** *** Changing one part of the state *)

Lemma maps_lay_bounds {T} `{Region T} (s : rstate T) ms :
  maps_inv s ms → memory_start (lay s) ≤ memory_end (lay s) ∧ memory_end (lay s) < W32 - 4.
Proof. intros (pss & fl & ((_ & _ & ? & ?) & _)). lia. Qed.

Lemma vm_view_grows k l ms n :
  maps_inv (vm_view k) ms → lay_grows n (k_lay k) l → memory_start l ≤ memory_end l →
  maps_inv (set_lay l (k_vm k)) ms.
Proof.
  intros Hm (_ & He & Hs) Hle. pose proof (maps_lay_bounds _ _ Hm) as [_ Hb]. simpl in Hb.
  apply (maps_inv_set_lay (vm_view k) ms l) in Hm; [done|simpl; lia..].
Qed.

Lemma alloc_view_grows k l ms n :
  maps_inv (alloc_view k) ms → lay_grows n (k_lay k) l → memory_start l ≤ memory_end l →
  maps_inv (set_lay l (k_alloc k)) ms.
Proof.
  intros Hm (_ & He & Hs) Hle. pose proof (maps_lay_bounds _ _ Hm) as [_ Hb]. simpl in Hb.
  apply (maps_inv_set_lay (alloc_view k) ms l) in Hm; [done|simpl; lia..].
Qed.

Lemma pg_view_grows k l ptd n :
  pd_ok KERNEL_VMA (pg_view k) ptd → lay_grows n (k_lay k) l → memory_start l ≤ memory_end l →
  pd_ok KERNEL_VMA (set_play l (k_pg k)) ptd.
Proof.
  intros Hok (_ & He & Hs) Hle. apply (pd_ok_set_play KERNEL_VMA (pg_view k) ptd l) in Hok; [done|simpl; lia..].
Qed.

(** The allocator maps changed, nothing else. *)
Lemma kinv_put_alloc k ms pm vm ar s' ms' pm' vm' n :
  kinv k ms pm vm ar → maps_inv s' ms' → lay_grows n (k_lay k) (lay s') →
  ms' !! _kern_pm_alloc_map = Some pm' → ms' !! _kern_vm_alloc_map = Some vm' →
  wf_list pm' → edges page_edge (λ _, True) pm' → wf_list vm' → edges page_edge page_edge vm' →
  (∀ a sz x f, areas ar !! a = Some sz → a ≤ x < a + sz → ¬ covers vm' x f) →
  (∀ x, covers vm' x ALLOC_VM_KERNEL → current_walk k x = None) →
  kinv (put_alloc s' k) ms' pm' vm' ar.
Proof.
  intros [] Hm Hg Hpm Hvm ? ? ? ? Har Hun. pose proof (maps_lay_bounds _ _ Hm) as [Hle _].
  split; try done.
  - exact (vm_view_grows k (lay s') _ n ki_areas0 Hg Hle).
  - exact (pg_view_grows k (lay s') _ n ki_pd0 Hg Hle).
  - intros a sz Ha. destruct (ki_area0 a sz Ha) as (? & ? & ? & ? & ? & _). split_and!; try done. eauto.
Qed.

(** ** Physical frames *)

(** A page frame that was free is handed out. *)
Definition frame_taken (pm pm' : list allocator_region) (p n : Z) : Prop :=
  0 < p ∧ (PAGE_SIZE | p) ∧ p + n ≤ W32 ∧ (∀ x, p ≤ x < p + n → covers pm x ALLOC_PM_NORMAL) ∧
  (∀ x f, covers pm' x f ↔ covers pm x f ∧ ¬ p ≤ x < p + n).

Lemma frames_alloc_spec k ms pm vm ar n :
  kinv k ms pm vm ar → 0 < n → KMEM_PAGE_SIZE * n < W32 → room 46 k →
  ∃ p k' ms' pm', kmem_frames_alloc n k = Ret p k' ∧ kinv k' ms' pm' vm ar ∧
    lay_grows 46 (k_lay k) (k_lay k') ∧ k_pg k' = k_pg k ∧ k_vm k' = k_vm k ∧
    (∀ m, m ≠ _kern_pm_alloc_map → ms' !! m = ms !! m) ∧
    ((p = 0 ∧ pm' = pm) ∨ frame_taken pm pm' p (KMEM_PAGE_SIZE * n)).
Proof.
  intros Hk Hn Hw Hroom. pose proof Hk as []. unfold kmem_frames_alloc.
  assert (Hsz : 0 < KMEM_PAGE_SIZE * n) by (unfold KMEM_PAGE_SIZE, PAGE_SIZE; lia).
  rewrite (u32_small (KMEM_PAGE_SIZE * n)) by lia.
  destruct (mem_alloc_maps fresh_ar (alloc_view k) ms _kern_pm_alloc_map pm (KMEM_PAGE_SIZE * n)
    KMEM_PAGE_SIZE ALLOC_PM_NORMAL) as (r & s' & pm' & E & Hm & Hw' & _ & Hout & Hg & Hedge); try done.
  { apply pow2_32_page. }
  { apply (starts_no_underflow _ _ _ (λ _, True)); [done|done|apply pow2_32_page]. }
  step (on_alloc_ok _ k _ _ E).
  assert (Hkeep : ∀ m, m ≠ _kern_pm_alloc_map → <[_kern_pm_alloc_map := pm']> ms !! m = ms !! m)
    by (intros m Hne; by rewrite lookup_insert_ne).
  exists (match r with Some p => p | None => 0 end), (put_alloc s' k), (<[_kern_pm_alloc_map := pm']> ms), pm'.
  split; [by destruct r|]. change (if KMEM_PAGE_SIZE =? 0 then 4 else KMEM_PAGE_SIZE) with PAGE_SIZE in *.
  assert (Hpm' : edges page_edge (λ _, True) pm').
  { destruct r as [p|]; [|by destruct Hout as [-> _]]. destruct (Hedge p eq_refl) as [_ He].
    destruct Hout as (Hd & _). apply He; try done. apply Z.divide_add_r; [done|]. apply Z.divide_factor_l. }
  split; [|split; [done|split; [done|split; [done|split; [done|]]]]].
  - eapply kinv_put_alloc; try done; [by rewrite lookup_insert_eq| |]; [rewrite lookup_insert_ne; done|].
    intros a sz x f Ha. by apply ki_area0.
  - destruct r as [p|]; [right|left; by destruct Hout as [-> _]].
    destruct Hout as (Hd & Hp & He & (f & [?|Hff] & Hfree) & Hcov); [done|subst f]. by split_and!.
Qed.

Lemma frames_free_spec k ms pm vm ar p n :
  kinv k ms pm vm ar → 0 < n → KMEM_PAGE_SIZE * n < W32 → room 23 k →
  0 < p → (PAGE_SIZE | p) → p + KMEM_PAGE_SIZE * n ≤ W32 →
  (∀ x f, covers pm x f → ¬ p ≤ x < p + KMEM_PAGE_SIZE * n) →
  ∃ k' ms' pm', kmem_frames_free p n k = Ret tt k' ∧ kinv k' ms' pm' vm ar ∧
    lay_grows 23 (k_lay k) (k_lay k') ∧ k_pg k' = k_pg k ∧ k_vm k' = k_vm k ∧
    (∀ m, m ≠ _kern_pm_alloc_map → ms' !! m = ms !! m) ∧
    (∀ x f, covers pm' x f ↔ covers pm x f ∨ (f = ALLOC_PM_NORMAL ∧ p ≤ x < p + KMEM_PAGE_SIZE * n)).
Proof.
  intros Hk Hn Hw Hroom Hp0 Hpa Hpe Hfree. pose proof Hk as []. unfold kmem_frames_free.
  assert (Hsz : 0 < KMEM_PAGE_SIZE * n) by (unfold KMEM_PAGE_SIZE, PAGE_SIZE; lia).
  rewrite (u32_small (KMEM_PAGE_SIZE * n)) by lia.
  destruct (mem_free_maps fresh_ar (alloc_view k) ms _kern_pm_alloc_map pm p (KMEM_PAGE_SIZE * n)
    ALLOC_PM_NORMAL) as (s' & pm' & E & Hm & Hw' & _ & Hcov & Hg & Hedge); try done.
  rewrite (on_alloc_ok _ k _ _ E).
  assert (Hkeep : ∀ m, m ≠ _kern_pm_alloc_map → <[_kern_pm_alloc_map := pm']> ms !! m = ms !! m)
    by (intros m Hne; by rewrite lookup_insert_ne).
  exists (put_alloc s' k), (<[_kern_pm_alloc_map := pm']> ms), pm'. split; [done|].
  split; [|done]. eapply kinv_put_alloc; try done; [by rewrite lookup_insert_eq|rewrite lookup_insert_ne; done| |].
  - by apply Hedge.
  - intros a sz x f Ha. by apply ki_area0.
Qed.

(** ** Kernel address space *)

(** An area is page-aligned, lies in the address space, and none of it is free. *)
Definition area_ok (vm : list allocator_region) (a sz : Z) : Prop :=
  0 < a ∧ 0 < sz ∧ a + sz ≤ W32 ∧ (PAGE_SIZE | a) ∧ (PAGE_SIZE | sz) ∧
  ∀ x f, a ≤ x < a + sz → ¬ covers vm x f.

Lemma kinv_put_vm k ms pm vm ar s' ar' n :
  kinv k ms pm vm ar → maps_inv s' {[ _kern_vm_map := ar' ]} → lay_grows n (k_lay k) (lay s') →
  NoDup (starts ar') → (∀ a sz, areas ar' !! a = Some sz → area_ok vm a sz) →
  (∀ a sz b sz' x, areas ar' !! a = Some sz → areas ar' !! b = Some sz' → a ≠ b →
    a ≤ x < a + sz → ¬ b ≤ x < b + sz') →
  kinv (put_vm s' k) ms pm vm ar'.
Proof.
  intros [] Hm Hg ? ? ?. pose proof (maps_lay_bounds _ _ Hm) as [Hle _]. split; try done.
  - exact (alloc_view_grows k (lay s') _ n ki_maps0 Hg Hle).
  - exact (pg_view_grows k (lay s') _ n ki_pd0 Hg Hle).
Qed.

(** The area [a, a + size) was free kernel address space and is now in use. *)
Definition area_taken (vm vm' : list allocator_region) (ar ar' : list vm_map_region) (a size : Z) : Prop :=
  0 < a ∧ (PAGE_SIZE | a) ∧ a + size ≤ W32 ∧ (∀ x, a ≤ x < a + size → covers vm x ALLOC_VM_KERNEL) ∧
  (∀ x f, covers vm' x f ↔ covers vm x f ∧ ¬ a ≤ x < a + size) ∧
  areas ar !! a = None ∧ areas ar' = <[a := size]> (areas ar).

Lemma kinv_area_not_free k ms pm vm ar a sz x f :
  kinv k ms pm vm ar → areas ar !! a = Some sz → a ≤ x < a + sz → ¬ covers vm x f.
Proof. intros [] Ha. by apply (ki_area0 a sz Ha). Qed.

(** Recording a new area. *)
Lemma record_area_spec k ms pm vm ar a size :
  kinv k ms pm vm ar → area_ok vm a size →
  (∀ b sz x, areas ar !! b = Some sz → b ≤ x < b + sz → ¬ a ≤ x < a + size) → room 19 k →
  ∃ k' ar', on_vm (vm_map_region_add_new fresh_vr _kern_vm_map a size) k = Ret tt k' ∧
    kinv k' ms pm vm ar' ∧ lay_grows 19 (k_lay k) (k_lay k') ∧ k_pg k' = k_pg k ∧
    areas ar !! a = None ∧ areas ar' = <[a := size]> (areas ar).
Proof.
  intros Hk Hok Hdis Hroom. pose proof Hk as [].
  assert (Hnone : areas ar !! a = None).
  { destruct (areas ar !! a) as [sz|] eqn:Har; [|done]. destruct (ki_area0 a sz Har) as (_ & ? & _).
    destruct Hok as (_ & ? & _). destruct (Hdis a sz a); [done|lia..]. }
  destruct (vm_add_maps fresh_vr (vm_view k) {[ _kern_vm_map := ar ]} _kern_vm_map ar a size)
    as (s' & ar' & E & Hm & Hnd & Har & Hg); try done.
  rewrite (on_vm_ok _ k _ _ E). rewrite insert_singleton_eq in Hm. exists (put_vm s' k), ar'.
  split; [done|]. split; [|done]. eapply kinv_put_vm; try done.
  - intros b sz. rewrite Har. destruct (decide (b = a)) as [->|Hne].
    + rewrite lookup_insert_eq. by intros [= <-].
    + rewrite lookup_insert_ne by done. apply ki_area0.
  - intros b sz c sz' x. rewrite Har.
    destruct (decide (b = a)) as [->|Hb], (decide (c = a)) as [->|Hc];
      rewrite ?lookup_insert_eq, ?lookup_insert_ne by done; try done.
    + intros [= <-] Hc' _ Hx Hx'. by apply (Hdis c sz' x).
    + intros Hb' [= <-] _ Hx. by apply (Hdis b sz x).
    + apply ki_disjoint0.
Qed.

(** [allocator_mem_alloc] on the map of free address space. *)
Lemma vm_take_spec k ms pm vm ar size :
  kinv k ms pm vm ar → 0 < size → (PAGE_SIZE | size) → room 46 k →
  ∃ r k' ms' vm', on_alloc (allocator_mem_alloc fresh_ar _kern_vm_alloc_map size 0 ALLOC_VM_KERNEL) k = Ret r k' ∧
    kinv k' ms' pm vm' ar ∧ lay_grows 46 (k_lay k) (k_lay k') ∧ k_pg k' = k_pg k ∧
    (∀ m, m ≠ _kern_vm_alloc_map → ms' !! m = ms !! m) ∧
    match r with
    | Some a => area_ok vm' a size ∧ (∀ x, a ≤ x < a + size → covers vm x ALLOC_VM_KERNEL) ∧
        (∀ x f, covers vm' x f ↔ covers vm x f ∧ ¬ a ≤ x < a + size)
    | None => vm' = vm
    end.
Proof.
  intros Hk Hs Hds Hroom. pose proof Hk as [].
  destruct (mem_alloc_maps fresh_ar (alloc_view k) ms _kern_vm_alloc_map vm size 0 ALLOC_VM_KERNEL)
    as (r & s' & vm' & E & Hm & Hw' & _ & Hout & Hg & Hedge); try done.
  { apply pow2_32_4. }
  { apply (starts_no_underflow _ _ _ page_edge); [done| |apply pow2_32_4].
    intros c Hc. destruct (ki_vm_edges0 c Hc) as [Ha ?]. split; [|done]. etrans; [|exact Ha]. by exists 1024. }
  rewrite (on_alloc_ok _ k _ _ E). change (if 0 =? 0 then 4 else 0) with 4 in *.
  exists r, (put_alloc s' k), (<[_kern_vm_alloc_map := vm']> ms), vm'. split; [done|].
  assert (Hkeep : ∀ m, m ≠ _kern_vm_alloc_map → <[_kern_vm_alloc_map := vm']> ms !! m = ms !! m)
    by (intros m Hne; by rewrite lookup_insert_ne).
  destruct r as [a|]; simpl in Hout.
  - destruct Hout as (_ & Ha0 & Hend & (f & [?|Hf] & Hfree) & Hcov); [done|subst f].
    destruct (Hedge a eq_refl) as [(v & Hv & _ & Hav) He].
    assert (Hpa : (PAGE_SIZE | a)).
    { destruct (ki_vm_edges0 v Hv) as [Hva _]. destruct (wf_list_region _ v ki_vm_wf0 Hv) as (? & ? & ?).
      unfold r_end in *. simpl in *. rewrite Hav, align_edge; [done|apply pow2_32_4| |lia].
      etrans; [|exact Hva]. by exists 1024. }
    split; [|split; [done|split; [done|split; [done|split; [|done]]]]].
    + eapply kinv_put_alloc; try done; [by rewrite lookup_insert_ne|by rewrite lookup_insert_eq| | |].
      * apply He; [done|by apply Z.divide_add_r|done].
      * intros b sz x f Hb Hx [Hc _]%Hcov. by apply (ki_area0 b sz Hb) in Hc.
      * intros x [Hc _]%Hcov. by apply ki_unmapped0.
    + split_and!; try done. by intros x f Hx [_ ?]%Hcov.
  - destruct Hout as [-> _]. split; [|done].
    eapply kinv_put_alloc; try done; [by rewrite lookup_insert_ne|by rewrite lookup_insert_eq|].
    intros b sz x f Hb. by apply ki_area0.
Qed.

Lemma vm_alloc_spec k ms pm vm ar size :
  kinv k ms pm vm ar → 0 < size → (PAGE_SIZE | size) → room 65 k →
  ∃ a k' ms' vm' ar', kmem_vm_alloc size k = Ret a k' ∧ kinv k' ms' pm vm' ar' ∧
    lay_grows 65 (k_lay k) (k_lay k') ∧ k_pg k' = k_pg k ∧
    (∀ m, m ≠ _kern_vm_alloc_map → ms' !! m = ms !! m) ∧
    ((a = 0 ∧ vm' = vm ∧ ar' = ar) ∨ area_taken vm vm' ar ar' a size).
Proof.
  intros Hk Hs Hds Hroom. unfold kmem_vm_alloc.
  destruct (vm_take_spec k ms pm vm ar size) as (r & k1 & ms1 & vm1 & E1 & Hk1 & Hg1 & Hp1 & Hms & Hout);
    try done; [by eapply room_mono; [|exact Hroom]|].
  step E1. destruct r as [a|].
  - destruct Hout as (Hok & Hfree & Hcov).
    destruct (record_area_spec k1 ms1 pm vm1 ar a size) as (k2 & ar2 & E2 & Hk2 & Hg2 & Hp2 & Hnone & Har2); try done.
    + intros b sz x Hb Hx Hax. eapply kinv_area_not_free; [exact Hk|done|done|]. by apply Hfree.
    + eapply room_grows; [exact Hg1|]. by eapply room_mono; [|exact Hroom].
    + step E2. exists a, k2, ms1, vm1, ar2. split; [done|]. split; [done|].
      split; [exact (lay_grows_trans _ _ _ _ _ Hg1 Hg2)|]. split; [congruence|]. split; [done|].
      right. destruct Hok as (? & ? & ? & ? & ? & ?). by split_and!.
  - subst vm1. exists 0, k1, ms1, vm, ar. split; [done|]. split; [done|].
    split; [unfold lay_grows in *; lia|]. split; [done|]. split; [done|by left].
Qed.

(** Forgetting an area; the struct keeps its size. *)
Lemma forget_area_spec k ms pm vm ar a :
  kinv k ms pm vm ar →
  ∃ k' ar', on_vm (vm_map_region_remove _kern_vm_map a) k = Ret tt k' ∧
    kinv k' ms pm vm ar' ∧ k_lay k' = k_lay k ∧ k_pg k' = k_pg k ∧ areas ar' = delete a (areas ar) ∧
    (∀ q n, heap (vm_view k) !! q = Some n →
      ∃ n', heap (vm_view k') !! q = Some n' ∧ vr_size n' = vr_size n).
Proof using Type fresh_vr.
  intros Hk. pose proof Hk as [].
  destruct (vm_remove_maps fresh_vr (vm_view k) {[ _kern_vm_map := ar ]} _kern_vm_map ar a)
    as (s' & ar' & E & Hm & Hnd & Har & Hl & Hdata); try done.
  rewrite (on_vm_ok _ k _ _ E). rewrite insert_singleton_eq in Hm. exists (put_vm s' k), ar'.
  split; [done|]. split; [|split; [done|split; [done|split; [done|]]]].
  - eapply (kinv_put_vm k ms pm vm ar s' ar' 0); try done.
    + rewrite Hl. by apply lay_grows_refl.
    + intros b sz. rewrite Har. intros [_ Hb]%lookup_delete_Some. by apply ki_area0.
    + intros b sz c sz' x. rewrite Har. intros [_ Hb]%lookup_delete_Some [_ Hc]%lookup_delete_Some.
      by apply (ki_disjoint0 b sz c sz' x).
  - intros q n Hq. specialize (Hdata q). simpl in *. rewrite Hq in Hdata. simpl in Hdata.
    destruct (heap s' !! q) as [n'|]; [|done]. exists n'. split; [done|].
    by injection Hdata.
Qed.

Lemma vm_free_spec k ms pm vm ar a sz :
  kinv k ms pm vm ar → areas ar !! a = Some sz → room 23 k →
  (∀ v, a ≤ v < a + sz → current_walk k v = None) →
  ∃ k' ms' vm' ar', kmem_vm_free a k = Ret tt k' ∧ kinv k' ms' pm vm' ar' ∧
    lay_grows 23 (k_lay k) (k_lay k') ∧ k_pg k' = k_pg k ∧
    (∀ m, m ≠ _kern_vm_alloc_map → ms' !! m = ms !! m) ∧
    areas ar' = delete a (areas ar) ∧
    (∀ x f, covers vm' x f ↔ covers vm x f ∨ (f = ALLOC_VM_KERNEL ∧ a ≤ x < a + sz)).
Proof using Type fresh_vr.
  intros Hk Ha Hroom Hun. unfold kmem_vm_free.
  destruct (vm_find_maps (vm_view k) {[ _kern_vm_map := ar ]} _kern_vm_map ar a) as (r & E & Hr);
    [by destruct Hk|done|].
  step (on_vm_ok _ k _ _ E). destruct r as [q|]; [|congruence].
  destruct Hr as (n & Hq & Hn).
  destruct (forget_area_spec k ms pm vm ar a Hk) as (k1 & ar1 & E1 & Hk1 & Hl1 & Hp1 & Har1 & Hdata).
  rewrite put_vm_view. step E1. destruct (Hdata q n Hq) as (n' & Hq' & Hsz).
  step (on_vm_ok (on_heap (load q)) k1 _ _ (on_load_ok _ _ _ Hq')). rewrite put_vm_view.
  assert (vr_size n' = sz) as -> by congruence.
  pose proof Hk1 as []. destruct Hk as []. destruct (ki_area1 a sz Ha) as (Ha0 & Hs0 & He & Hpa & Hps & Hnf).
  destruct (mem_free_maps fresh_ar (alloc_view k1) ms _kern_vm_alloc_map vm a sz ALLOC_VM_KERNEL)
    as (s' & vm' & E2 & Hm & Hw' & _ & Hcov & Hg & Hedge); try done.
  { unfold room in Hroom. simpl. rewrite Hl1. done. }
  { intros x f Hc Hx. by apply (Hnf x f). }
  rewrite (on_alloc_ok _ k1 _ _ E2).
  exists (put_alloc s' k1), (<[_kern_vm_alloc_map := vm']> ms), vm', ar1. split; [done|].
  split; [|split; [by rewrite <- Hl1|split; [done|split; [|done]]]].
  - eapply kinv_put_alloc; try done; [by rewrite lookup_insert_ne|by rewrite lookup_insert_eq| | |].
    + apply Hedge; [done|done|by apply Z.divide_add_r].
    + intros b sz' x f Hb Hx [Hc|[_ Hc]]%Hcov; [by eapply kinv_area_not_free|].
      rewrite Har1 in Hb. apply lookup_delete_Some in Hb as [Hne Hb].
      by apply (ki_disjoint1 a sz b sz' x).
    + intros x [Hc|[_ Hc]]%Hcov.
      * apply ki_unmapped0 in Hc. done.
      * unfold current_walk, pg_view. rewrite Hp1, Hl1. by apply Hun.
  - intros m Hne. by rewrite lookup_insert_ne.
Qed.

(** ** Pages *)

Lemma page_index v : (PAGE_SIZE | v) → 0 ≤ v < W32 → table_pages v 1 = 1.
Proof. intros Hd Hv. unfold table_pages. pose proof (pt_index_range v). lia. Qed.

(** The page tables changed, nothing else. *)
Lemma kinv_put_pg k ms pm vm ar s' n :
  kinv k ms pm vm ar → pd_ok KERNEL_VMA s' (_current_page_dir (k_pg k)) →
  same_regs (pg_view k) s' → lay_grows n (k_lay k) (play s') →
  (∀ x, covers vm x ALLOC_VM_KERNEL → walk KERNEL_VMA s' (_current_page_dir (k_pg k)) x = None) →
  kinv (put_pg s' k) ms pm vm ar.
Proof.
  intros [] Hok Hregs Hg Hun. assert (Hle : memory_start (play s') ≤ memory_end (play s')) by apply Hok.
  assert (Hc : _current_page_dir s' = _current_page_dir (k_pg k)) by (by injection Hregs).
  split; try done; simpl.
  - exact (alloc_view_grows k (play s') _ n ki_maps0 Hg Hle).
  - exact (vm_view_grows k (play s') _ n ki_areas0 Hg Hle).
  - rewrite Hc. destruct s'. exact Hok.
  - rewrite Hc. destruct s'. exact Hun.
Qed.

Lemma covers_bounds (vm : list allocator_region) x f : wf_list vm → covers vm x f → 0 ≤ x < W32.
Proof. intros Hw (r & Hr & _ & Hx). destruct (wf_list_region _ r Hw Hr) as (? & ? & ?). unfold in_region in *. lia. Qed.

Lemma put_pg_walk s' k x :
  _current_page_dir s' = _current_page_dir (k_pg k) →
  current_walk (put_pg s' k) x = walk KERNEL_VMA s' (_current_page_dir (k_pg k)) x.
Proof. intros <-. by destruct s'. Qed.

(** An address that translates has a page table. *)
Lemma walk_table s ptd v e :
  pd_ok KERNEL_VMA s ptd → 0 ≤ v < W32 → walk KERNEL_VMA s ptd v = Some e →
  table_at s ptd (v / (PAGE_SIZE * PT_ENTRIES)).
Proof.
  intros (Hent & _) Hv. destruct (Hent _ (pd_index_range v Hv)) as (d & Hd & Hpe).
  unfold walk. rewrite Hd. cbn [mbind option_bind]. destruct Hpe as [[_ Hb]|(Hf & _)]; [by rewrite Hb|].
  intros _. by exists d.
Qed.

(** What [kmem_page_alloc] does to the tables once it has a frame. *)
Lemma wire_page_spec k ms pm vm ar p v :
  kinv k ms pm vm ar → 0 ≤ p < W32 → (PAGE_SIZE | v) → 0 ≤ v < W32 → room (2 * PAGE_SIZE) k →
  (∀ x, v ≤ x < v + PAGE_SIZE → ¬ covers vm x ALLOC_VM_KERNEL) →
  ∃ k', on_pg (paging_map KERNEL_VMA (_current_page_dir (k_pg k)) p KMEM_PAGE_SIZE v KMEM_ATTRS) k = Ret tt k' ∧
    kinv k' ms pm vm ar ∧ lay_grows (2 * PAGE_SIZE) (k_lay k) (k_lay k') ∧
    ∀ x, 0 ≤ x < W32 → current_walk k' x =
      if decide (v ≤ x < v + PAGE_SIZE) then walk_entry (map_entry p v KMEM_ATTRS x) else current_walk k x.
Proof.
  intros Hk Hp Hd Hv Hroom Hnf. pose proof Hk as [].
  destruct (paging_map_spec KERNEL_VMA (pg_view k) (_current_page_dir (k_pg k)) p KMEM_PAGE_SIZE v KMEM_ATTRS)
    as (s' & E & (Hok & Hregs & Hg & _) & Hw); try done.
  { intros _ _ _. destruct ki_pd0 as (_ & _ & _ & Hm & He). simpl in Hm, He.
    apply (room_for_table (k_lay k) _ 0); [by apply lay_grows_refl|unfold room in Hroom; lia|lia..]. }
  change (KMEM_PAGE_SIZE / PAGE_SIZE) with 1 in Hw. rewrite page_index, Z.mul_1_l in Hw by done.
  exists (put_pg s' k). split; [by apply on_pg_ok|].
  assert (Hw' : ∀ x, 0 ≤ x < W32 → walk KERNEL_VMA s' (_current_page_dir (k_pg k)) x =
    if decide (v ≤ x < v + PAGE_SIZE) then walk_entry (map_entry p v KMEM_ATTRS x) else current_walk k x)
    by exact Hw.
  split; [|split; [done|]].
  - eapply kinv_put_pg; try done. intros x Hc. rewrite Hw' by by eapply covers_bounds.
    rewrite decide_False; [by apply ki_unmapped0|]. intros Hx. by apply (Hnf x).
  - intros x Hx. rewrite <- Hw' by done. apply put_pg_walk. by injection Hregs.
Qed.

Lemma page_alloc_spec k ms pm vm ar flags v :
  kinv k ms pm vm ar → (PAGE_SIZE | v) → 0 ≤ v < W32 → room (46 + 2 * PAGE_SIZE) k →
  (∀ x, v ≤ x < v + PAGE_SIZE → ¬ covers vm x ALLOC_VM_KERNEL) →
  ∃ ok k' ms' pm', kmem_page_alloc flags v false k = Ret ok k' ∧ kinv k' ms' pm' vm ar ∧
    lay_grows (46 + 2 * PAGE_SIZE) (k_lay k) (k_lay k') ∧
    (∀ m, m ≠ _kern_pm_alloc_map → ms' !! m = ms !! m) ∧
    if ok : bool then ∃ p, frame_taken pm pm' p PAGE_SIZE ∧ ∀ x, 0 ≤ x < W32 → current_walk k' x =
      if decide (v ≤ x < v + PAGE_SIZE) then walk_entry (map_entry p v KMEM_ATTRS x) else current_walk k x
    else pm' = pm ∧ ∀ x, current_walk k' x = current_walk k x.
Proof.
  intros Hk Hd Hv Hroom Hnf. unfold kmem_page_alloc, kmem_frame_alloc.
  destruct (frames_alloc_spec k ms pm vm ar 1) as (p & k1 & ms1 & pm1 & E1 & Hk1 & Hg1 & Hp1 & Hv1 & Hms & Hout);
    try done; [eapply room_mono; [|exact Hroom]; done|].
  change (KMEM_PAGE_SIZE * 1) with PAGE_SIZE in Hout.
  assert (Hcur : ∀ x, current_walk k1 x = current_walk k x).
  { intros x. unfold current_walk, walk, pg_view. by rewrite Hp1. }
  step E1. destruct Hout as [[-> ->]|Hp].
  - exists false, k1, ms1, pm. split; [done|]. split; [done|]. split; [|by split].
    unfold lay_grows, PAGE_SIZE in *. lia.
  - assert (0 < p ∧ p + PAGE_SIZE ≤ W32) as [Hp0 Hpe] by (by destruct Hp as (? & _ & ? & _)).
    rewrite (proj2 (Z.eqb_neq p 0)) by lia. cbn [negb].
    step (on_pg_ok paging_pd_current k1 _ _ eq_refl). rewrite put_pg_view.
    destruct (wire_page_spec k1 ms1 pm1 vm ar p v) as (k2 & E2 & Hk2 & Hg2 & Hw2); try done;
      [unfold PAGE_SIZE in *; lia|eapply room_grows; [exact Hg1|exact Hroom]|].
    step E2. exists true, k2, ms1, pm1. split; [done|]. split; [done|].
    split; [exact (lay_grows_trans _ _ _ _ _ Hg1 Hg2)|]. split; [done|].
    exists p. split; [done|]. intros x Hx. by rewrite Hw2, Hcur.
Qed.

Lemma current_unmapped k x : current_translate k x = None ↔ current_walk k x = None.
Proof. unfold current_translate, translate. fold (current_walk k x). by destruct (current_walk k x). Qed.

(** The entry written for a frame leads to that frame. *)
Lemma wired_translate k k' p v :
  (PAGE_SIZE | p) → 0 ≤ p → p + PAGE_SIZE ≤ W32 → (PAGE_SIZE | v) →
  (∀ x, 0 ≤ x < W32 → current_walk k' x =
    if decide (v ≤ x < v + PAGE_SIZE) then walk_entry (map_entry p v KMEM_ATTRS x) else current_walk k x) →
  ∀ x, 0 ≤ x < W32 → current_translate k' x =
    if decide (v ≤ x < v + PAGE_SIZE) then Some (p + (x - v)) else current_translate k x.
Proof.
  intros Hp Hp0 Hpe Hv Hw x Hx. unfold current_translate, translate.
  fold (current_walk k' x) (current_walk k x). rewrite Hw by done. destruct (decide _); [|done].
  by apply map_entry_translate with PAGE_SIZE.
Qed.

(** The page frames [ps], all free before, are handed out. *)
Definition frames_taken (pm pm' : list allocator_region) (ps : list Z) : Prop :=
  NoDup ps ∧
  (∀ p, p ∈ ps → 0 < p ∧ (PAGE_SIZE | p) ∧ p + PAGE_SIZE ≤ W32 ∧
    ∀ x, p ≤ x < p + PAGE_SIZE → covers pm x ALLOC_PM_NORMAL) ∧
  ∀ x f, covers pm' x f ↔ covers pm x f ∧ ¬ ∃ p, p ∈ ps ∧ p ≤ x < p + PAGE_SIZE.

Lemma frames_taken_nil pm : frames_taken pm pm [].
Proof.
  split; [by apply NoDup_nil|]. split; [by intros p ?%elem_of_nil|].
  intros x f. split; [|by intros [? _]]. intros ?. split; [done|]. by intros (p & ?%elem_of_nil & _).
Qed.

Lemma frames_taken_cons pm pm1 pm' p ps :
  frame_taken pm pm1 p PAGE_SIZE → frames_taken pm1 pm' ps → frames_taken pm pm' (p :: ps).
Proof.
  intros (Hp0 & Hpd & Hpe & Hfree & Hcov) (Hnd & Hps & Hcov'). split; [|split].
  - apply NoDup_cons. split; [|done]. intros Hin. destruct (Hps p Hin) as (_ & _ & _ & Hc).
    assert (Hx : p ≤ p < p + PAGE_SIZE) by (unfold PAGE_SIZE; lia).
    pose proof (Hc p Hx) as [_ Hn]%Hcov. by apply Hn.
  - intros q [->|Hq]%elem_of_cons; [done|]. destruct (Hps q Hq) as (? & ? & ? & Hc). split_and!; try done.
    intros x Hx. by apply Hc, Hcov in Hx as [? _].
  - intros x f. rewrite Hcov', Hcov. setoid_rewrite elem_of_cons. split.
    + intros [[? ?] Hn]. split; [done|]. intros (q & [->|Hq] & Hx); [done|]. apply Hn. by exists q.
    + intros [? Hn]. split; [split; [done|]|]; [intros Hx; apply Hn; exists p; auto|].
      intros (q & ? & ?). apply Hn. exists q. auto.
Qed.

(** From [a] on, one page after the other is mapped to the frames [ps]. *)
Definition wired (k k' : kstate) (a : Z) (ps : list Z) : Prop :=
  ∀ x, 0 ≤ x < W32 → current_translate k' x =
    if decide (a ≤ x < a + Z.of_nat (length ps) * PAGE_SIZE)
    then (λ p, p + (x - a) mod PAGE_SIZE) <$> ps !! Z.to_nat ((x - a) / PAGE_SIZE)
    else current_translate k x.

Lemma wired_nil k a : wired k k a [].
Proof. intros x Hx. rewrite decide_False; [done|]. simpl. lia. Qed.

Lemma wired_cons k k1 k' a p ps :
  (∀ x, 0 ≤ x < W32 → current_translate k1 x =
    if decide (a ≤ x < a + PAGE_SIZE) then Some (p + (x - a)) else current_translate k x) →
  wired k1 k' (a + PAGE_SIZE) ps → wired k k' a (p :: ps).
Proof.
  intros H1 Hw x Hx. rewrite Hw, H1 by done. cbn [length]. unfold PAGE_SIZE.
  destruct (decide (a ≤ x < a + 4096)) as [Hin|Hout].
  - rewrite decide_False, decide_True by lia. rewrite Z.div_small, Z.mod_small by lia. done.
  - destruct (decide (a + 4096 ≤ x < _)) as [Hin'|Hout'].
    + rewrite decide_True by lia. replace (x - a) with (x - (a + 4096) + 1 * 4096) by lia.
      rewrite Z.div_add, Z.mod_add by lia. rewrite Z2Nat.inj_add by (lia || apply Z.div_pos; lia).
      by rewrite Nat.add_1_r.
    + by rewrite decide_False by lia.
Qed.

Lemma flush_id k : on_pg paging_flush k = Ret tt k.
Proof. by destruct k as [? ? [] ? ? ? ?]. Qed.

Definition page_cost : Z := 46 + 2 * PAGE_SIZE.

(** The address is only used while there are pages left. *)
Lemma alloc_loop_addr n i flags v :
  0 ≤ v → v + Z.of_nat n * PAGE_SIZE ≤ W32 → pages_alloc_loop n i flags (u32 v) = pages_alloc_loop n i flags v.
Proof. intros. destruct n as [|n]; [done|]. rewrite u32_small; [done|]. unfold PAGE_SIZE in *. lia. Qed.
Lemma free_loop_addr n flags v :
  0 ≤ v → v + Z.of_nat n * PAGE_SIZE ≤ W32 → pages_free_loop n flags (u32 v) = pages_free_loop n flags v.
Proof. intros. destruct n as [|n]; [done|]. rewrite u32_small; [done|]. unfold PAGE_SIZE in *. lia. Qed.

Lemma pages_alloc_loop_spec n i flags v k ms pm vm ar :
  kinv k ms pm vm ar → (PAGE_SIZE | v) → 0 ≤ v → v + Z.of_nat n * PAGE_SIZE ≤ W32 →
  room (Z.of_nat n * page_cost) k →
  (∀ x, v ≤ x < v + Z.of_nat n * PAGE_SIZE → ¬ covers vm x ALLOC_VM_KERNEL) →
  ∃ ok ps k' ms' pm', pages_alloc_loop n i flags v k = Ret (ok, i + Z.of_nat (length ps)) k' ∧
    kinv k' ms' pm' vm ar ∧ lay_grows (Z.of_nat n * page_cost) (k_lay k) (k_lay k') ∧
    (∀ m, m ≠ _kern_pm_alloc_map → ms' !! m = ms !! m) ∧
    frames_taken pm pm' ps ∧ wired k k' v ps ∧ (length ps ≤ n)%nat ∧ (ok = true → length ps = n).
Proof.
  revert i v k ms pm. induction n as [|n IH]; intros i v k ms pm Hk Hd Hv He Hroom Hnf.
  { exists true, [], k, ms, pm. simpl. split; [by rewrite Z.add_0_r|]. split; [done|].
    split; [by apply lay_grows_refl|]. split; [done|]. split; [apply frames_taken_nil|]. by split; [apply wired_nil|]. }
  cbn [pages_alloc_loop].
  assert (Hcost : Z.of_nat (S n) * page_cost = page_cost + Z.of_nat n * page_cost) by lia.
  assert (0 ≤ Z.of_nat n * page_cost) by (unfold page_cost, PAGE_SIZE; lia).
  assert (Hsz : Z.of_nat (S n) * PAGE_SIZE = PAGE_SIZE + Z.of_nat n * PAGE_SIZE) by lia.
  assert (0 < PAGE_SIZE ∧ 0 ≤ Z.of_nat n * PAGE_SIZE) as [??] by (unfold PAGE_SIZE; lia).
  destruct (page_alloc_spec k ms pm vm ar flags v) as (ok & k1 & ms1 & pm1 & E1 & Hk1 & Hg1 & Hms1 & Hout); try done.
  { lia. }
  { eapply room_mono; [|exact Hroom]. fold page_cost. lia. }
  { intros x Hx. apply Hnf. lia. }
  fold page_cost in Hg1. step E1. destruct ok.
  - destruct Hout as (p & Hp & Hw). rewrite alloc_loop_addr by (unfold KMEM_PAGE_SIZE in *; lia).
    unfold KMEM_PAGE_SIZE.
    destruct (IH (i + 1) (v + PAGE_SIZE) k1 ms1 pm1) as
      (ok & ps & k2 & ms2 & pm2 & E2 & Hk2 & Hg2 & Hms2 & Hf & Hwi & Hle & Hall); try done.
    { by apply Z.divide_add_r. }
    { lia. }
    { lia. }
    { eapply room_grows; [exact Hg1|]. by rewrite <- Hcost. }
    { intros x Hx. apply Hnf. lia. }
    exists ok, (p :: ps), k2, ms2, pm2. split; [rewrite E2; f_equal; f_equal; simpl; lia|]. split; [done|].
    split; [rewrite Hcost; exact (lay_grows_trans _ _ _ _ _ Hg1 Hg2)|].
    split; [intros m Hm; by rewrite Hms2, Hms1|]. split; [by eapply frames_taken_cons|]. split.
    + destruct Hp as (? & ? & ? & _). eapply wired_cons; [|exact Hwi].
      apply wired_translate; done || lia.
    + simpl. split; [lia|]. intros Hok. by rewrite Hall.
  - destruct Hout as [-> Hw]. exists false, [], k1, ms1, pm. simpl. split; [by rewrite Z.add_0_r|]. split; [done|].
    split; [unfold lay_grows in *; lia|]. split; [done|]. split; [apply frames_taken_nil|].
    split; [|split; [lia|done]]. intros x Hx. rewrite decide_False by (simpl; lia).
    unfold current_translate, translate. fold (current_walk k1 x) (current_walk k x). by rewrite Hw.
Qed.

(** Unmapping an area that is mapped. *)
Lemma unmap_area_spec k ms pm vm ar v size :
  kinv k ms pm vm ar → (PAGE_SIZE | v) → (PAGE_SIZE | size) → 0 ≤ v → 0 < size < W32 → v + size ≤ W32 →
  (∀ x, v ≤ x < v + size → current_translate k x ≠ None) →
  ∃ k', on_pg (paging_unmap KERNEL_VMA (_current_page_dir (k_pg k)) v size) k = Ret tt k' ∧
    kinv k' ms pm vm ar ∧ k_lay k' = k_lay k ∧
    ∀ x, 0 ≤ x < W32 → current_translate k' x =
      if decide (v ≤ x < v + size) then None else current_translate k x.
Proof.
  intros Hk Hd Hds Hv Hs He Hmap. pose proof Hk as [].
  destruct (paging_unmap_spec KERNEL_VMA (pg_view k) (_current_page_dir (k_pg k)) v size)
    as (s' & E & Ho & Hok & Hw); try done; [lia|lia| |].
  { intros x Hx. specialize (Hmap x Hx). rewrite current_unmapped in Hmap.
    destruct (current_walk k x) as [e|] eqn:Hwx; [|done]. eapply walk_table; [done| |exact Hwx]. lia. }
  exists (put_pg s' k). split; [by apply on_pg_ok|]. unfold only_ptabs in Ho. split; [|split].
  - eapply (kinv_put_pg k ms pm vm ar s' 0); try done.
    + by rewrite Ho.
    + rewrite Ho. by apply lay_grows_refl.
    + intros x Hc. rewrite Hw by by eapply covers_bounds. destruct (decide _); [done|]. by apply ki_unmapped0.
  - rewrite Ho. done.
  - intros x Hx. unfold current_translate, translate.
    fold (current_walk (put_pg s' k) x) (current_walk k x). rewrite put_pg_walk by (by rewrite Ho).
    rewrite Hw by done. by destruct (decide _).
Qed.

Lemma pages_free_loop_spec n flags v k ms pm vm ar :
  kinv k ms pm vm ar → (PAGE_SIZE | v) → 0 ≤ v → v + Z.of_nat n * PAGE_SIZE ≤ W32 →
  (∀ x, v ≤ x < v + Z.of_nat n * PAGE_SIZE → current_translate k x ≠ None) →
  ∃ k', pages_free_loop n flags v k = Ret tt k' ∧ kinv k' ms pm vm ar ∧ k_lay k' = k_lay k ∧
    ∀ x, 0 ≤ x < W32 → current_translate k' x =
      if decide (v ≤ x < v + Z.of_nat n * PAGE_SIZE) then None else current_translate k x.
Proof.
  revert v k. induction n as [|n IH]; intros v k Hk Hd Hv He Hmap.
  { exists k. split; [done|]. split; [done|]. split; [done|]. intros x Hx. by rewrite decide_False by (simpl; lia). }
  cbn [pages_free_loop].
  assert (Hsz : Z.of_nat (S n) * PAGE_SIZE = PAGE_SIZE + Z.of_nat n * PAGE_SIZE) by lia.
  assert (0 < PAGE_SIZE < W32 ∧ 0 ≤ Z.of_nat n * PAGE_SIZE) as [??] by (unfold PAGE_SIZE; lia).
  unfold kmem_page_free. step (on_pg_ok paging_pd_current k _ _ eq_refl). rewrite put_pg_view.
  destruct (unmap_area_spec k ms pm vm ar v KMEM_PAGE_SIZE) as (k1 & E1 & Hk1 & Hl1 & Hw1); try done.
  { unfold KMEM_PAGE_SIZE. lia. }
  { unfold KMEM_PAGE_SIZE. intros x Hx. apply Hmap. lia. }
  step E1. rewrite (bind_ret _ _ _ _ _ (ret_ok tt k1)).
  rewrite free_loop_addr by (unfold KMEM_PAGE_SIZE in *; lia). unfold KMEM_PAGE_SIZE in *.
  destruct (IH (v + PAGE_SIZE) k1) as (k2 & E2 & Hk2 & Hl2 & Hw2); try done.
  { by apply Z.divide_add_r. }
  { lia. }
  { lia. }
  { intros x Hx. rewrite Hw1, decide_False by lia. apply Hmap. lia. }
  exists k2. split; [done|]. split; [done|]. split; [congruence|].
  intros x Hx. rewrite Hw2, Hw1 by done. rewrite Hsz.
  destruct (decide (v ≤ x < v + PAGE_SIZE)), (decide (v + PAGE_SIZE ≤ x < _)), (decide (v ≤ x < _)); done || lia.
Qed.

(** The pages wired before a failure are unmapped again. *)
Lemma wired_mapped k k' a ps x :
  wired k k' a ps → 0 ≤ a → a + Z.of_nat (length ps) * PAGE_SIZE ≤ W32 →
  a ≤ x < a + Z.of_nat (length ps) * PAGE_SIZE → current_translate k' x ≠ None.
Proof.
  intros Hw Ha He Hx. rewrite Hw by lia. rewrite decide_True by done.
  destruct (lookup_lt_is_Some_2 ps (Z.to_nat ((x - a) / PAGE_SIZE))) as [p ->]; [|done].
  apply Nat2Z.inj_lt. rewrite Z2Nat.id by (apply Z.div_pos; [lia|done]).
  apply Z.div_lt_upper_bound; [done|]. lia.
Qed.

Lemma pages_alloc_spec flags v n k ms pm vm ar :
  kinv k ms pm vm ar → (PAGE_SIZE | v) → 0 ≤ v → 0 ≤ n → v + n * PAGE_SIZE ≤ W32 → room (n * page_cost) k →
  (∀ x, v ≤ x < v + n * PAGE_SIZE → ¬ covers vm x ALLOC_VM_KERNEL) →
  ∃ (ok : bool) ps k' ms' pm', kmem_pages_alloc flags v n true k = Ret ok k' ∧ kinv k' ms' pm' vm ar ∧
    lay_grows (n * page_cost) (k_lay k) (k_lay k') ∧ (∀ m, m ≠ _kern_pm_alloc_map → ms' !! m = ms !! m) ∧ frames_taken pm pm' ps ∧ Z.of_nat (length ps) ≤ n ∧
    if ok then Z.of_nat (length ps) = n ∧ wired k k' v ps
    else ∀ x, 0 ≤ x < W32 → current_translate k' x =
      if decide (v ≤ x < v + Z.of_nat (length ps) * PAGE_SIZE) then None else current_translate k x.
Proof.
  intros Hk Hd Hv Hn He Hroom Hnf. unfold kmem_pages_alloc. rewrite <- (Z2Nat.id n Hn) in He, Hroom, Hnf.
  destruct (pages_alloc_loop_spec (Z.to_nat n) 0 flags v k ms pm vm ar)
    as (ok & ps & k1 & ms1 & pm1 & E1 & Hk1 & Hg1 & Hms & Hf & Hw & Hle & Hall); try done.
  step E1. rewrite Z2Nat.id in * by done. rewrite Z.add_0_l. destruct ok.
  - exists true, ps, k1, ms1, pm1. split; [by destruct (negb _); [step (flush_id k1)|]|].
    split; [done|]. split; [done|]. split; [done|]. split; [done|]. rewrite Hall by done. rewrite Z2Nat.id by done. done.
  - unfold kmem_pages_free. rewrite Nat2Z.id. set (m := length ps) in *.
    assert (Hm : v + Z.of_nat m * PAGE_SIZE ≤ W32) by (unfold PAGE_SIZE in *; lia).
    destruct (pages_free_loop_spec m flags v k1 ms1 pm1 vm ar) as (k2 & E2 & Hk2 & Hl2 & Hw2); try done.
    { intros x Hx. by eapply wired_mapped. }
    step E2. exists false, ps, k2, ms1, pm1. split; [by destruct (negb _); [step (flush_id k2)|]|].
    split; [done|]. split; [by rewrite Hl2|]. split; [done|]. split; [done|]. split; [lia|]. intros x Hx.
    rewrite Hw2 by done. destruct (decide _) as [|Hout]; [done|]. rewrite Hw by done. by rewrite decide_False.
Qed.

Lemma page_align_pages sz :
  0 < sz → sz ≤ W32 - PAGE_SIZE →
  KMEM_PAGE_ALIGN sz = (sz + PAGE_SIZE - 1) / PAGE_SIZE * PAGE_SIZE ∧ 0 < (sz + PAGE_SIZE - 1) / PAGE_SIZE ∧
  KMEM_PAGE_ALIGN sz < W32.
Proof.
  intros H0 He. unfold KMEM_PAGE_ALIGN, page_align.
  destruct (align_address_bounds sz PAGE_SIZE) as [Hb [q Hq]]; [apply pow2_32_page|lia|unfold PAGE_SIZE in *; lia|].
  rewrite Hq in *. unfold PAGE_SIZE in *. assert ((sz + 4096 - 1) / 4096 = q) as ->.
  { symmetry. apply (Z.div_unique _ _ _ (sz + 4096 - 1 - q * 4096)); lia. }
  lia.
Qed.

Lemma same_translate k k' x : k_pg k' = k_pg k → current_translate k' x = current_translate k x.
Proof. unfold current_translate, translate, walk, pg_view. by intros ->. Qed.

(** A failed [kmem_pages_alloc] leaves the new area unmapped, as it was. *)
Lemma unwound_translate k k' a n m x :
  (∀ x, a ≤ x < a + n → current_translate k x = None) → m ≤ n →
  current_translate k' x = (if decide (a ≤ x < a + m) then None else current_translate k x) →
  current_translate k' x = current_translate k x.
Proof. intros Hun Hm ->. destruct (decide _); [|done]. rewrite Hun; [done|lia]. Qed.

(** Undoing [area_taken]. *)
Lemma area_restored (vm vm' vm'' : list allocator_region) (ar ar' ar'' : list vm_map_region) a size :
  wf_list vm → area_taken vm vm' ar ar' a size → areas ar'' = delete a (areas ar') →
  (∀ x f, covers vm'' x f ↔ covers vm' x f ∨ (f = ALLOC_VM_KERNEL ∧ a ≤ x < a + size)) →
  (∀ x f, covers vm'' x f ↔ covers vm x f) ∧ areas ar'' = areas ar.
Proof.
  intros Hwf (_ & _ & _ & Hfree & Hcov & Hnone & Har) Har'' Hcov''. split.
  - intros x f. rewrite Hcov'', Hcov. split; [intros [[? _]|[-> Hx]]; [done|by apply Hfree]|].
    intros Hc. destruct (decide (a ≤ x < a + size)) as [Hx|]; [right|by left].
    split; [|done]. apply (covers_flags 1 vm x); [done|done|by apply Hfree].
  - rewrite Har'', Har. by rewrite delete_insert_id.
Qed.

(** Giving back a new area that is not mapped. *)
Lemma vm_unalloc_spec k ms pm vm vm' ar ar' a size :
  wf_list vm → area_taken vm vm' ar ar' a size → kinv k ms pm vm' ar' → room 23 k →
  (∀ x, a ≤ x < a + size → current_translate k x = None) →
  ∃ k' ms' vm'' ar'', kmem_vm_free a k = Ret tt k' ∧ kinv k' ms' pm vm'' ar'' ∧
    lay_grows 23 (k_lay k) (k_lay k') ∧ k_pg k' = k_pg k ∧ (∀ m, m ≠ _kern_vm_alloc_map → ms' !! m = ms !! m) ∧
    (∀ x f, covers vm'' x f ↔ covers vm x f) ∧ areas ar'' = areas ar.
Proof using Type fresh_vr.
  intros Hwf Ht Hk Hroom Hun. pose proof Ht as (_ & _ & _ & _ & _ & _ & Har).
  destruct (vm_free_spec k ms pm vm' ar' a size)
    as (k' & ms' & vm'' & ar'' & E & Hk' & Hg & Hp & Hms & Har'' & Hcov''); [done| |done| |].
  { by rewrite Har, lookup_insert_eq. }
  { intros v Hv. apply current_unmapped. auto. }
  exists k', ms', vm'', ar''. split; [done|]. split; [done|]. split; [done|]. split; [done|]. split; [done|].
  by eapply area_restored.
Qed.

(** The allocator's maps that kmem.c does not own. *)
Definition others (ms ms' : gmap Z (list allocator_region)) : Prop :=
  ∀ m, m ≠ _kern_pm_alloc_map → m ≠ _kern_vm_alloc_map → ms' !! m = ms !! m.

Lemma kmem_alloc_spec k ms pm vm ar sz (n := (sz + PAGE_SIZE - 1) / PAGE_SIZE) :
  kinv k ms pm vm ar → 0 < sz → sz ≤ W32 - PAGE_SIZE → room (88 + n * page_cost) k →
  ∃ a k' ms' pm' vm' ar' ps, kmem_alloc sz k = Ret a k' ∧ kinv k' ms' pm' vm' ar' ∧
    lay_grows (88 + n * page_cost) (k_lay k) (k_lay k') ∧ others ms ms' ∧ frames_taken pm pm' ps ∧
    ((area_taken vm vm' ar ar' a (n * PAGE_SIZE) ∧ Z.of_nat (length ps) = n ∧ wired k k' a ps) ∨
     (a = 0 ∧ (∀ x f, covers vm' x f ↔ covers vm x f) ∧ areas ar' = areas ar ∧
      ∀ x, 0 ≤ x < W32 → current_translate k' x = current_translate k x)).
Proof.
  intros Hk H0 Hmax Hroom. destruct (page_align_pages sz H0 Hmax) as (Hal & Hn & Hlt). fold n in Hal, Hn.
  unfold kmem_alloc. cbv zeta. rewrite Hal in Hlt |- *. unfold KMEM_PAGE_SIZE.
  rewrite Z.div_mul by done.
  assert (0 ≤ n * page_cost ∧ 0 < n * PAGE_SIZE) as [Hc0 Hs0] by (unfold page_cost, PAGE_SIZE in *; lia).
  destruct (vm_alloc_spec k ms pm vm ar (n * PAGE_SIZE)) as (a & k1 & ms1 & vm1 & ar1 & E1 & Hk1 & Hg1 & Hp1 & Hms1 & Hout);
    [done|lia|apply Z.divide_factor_r|by eapply room_mono; [|exact Hroom]; lia|].
  step E1. destruct Hout as [(-> & -> & ->)|Ht].
  { exists 0, k1, ms1, pm, vm, ar, []. split; [done|]. split; [done|]. split; [unfold lay_grows in *; lia|].
    split; [intros m _ Hm; auto|]. split; [apply frames_taken_nil|].
    right. split; [done|]. split; [done|]. split; [done|]. intros x _. by apply same_translate. }
  pose proof Ht as (Ha0 & Had & Hae & Hfree & Hcov & _ & Har).
  rewrite (proj2 (Z.eqb_neq a 0)) by lia. cbn [negb].
  destruct (pages_alloc_spec 0 a n k1 ms1 pm vm1 ar1)
    as (ok & ps & k2 & ms2 & pm2 & E2 & Hk2 & Hg2 & Hms2 & Hf & Hle & Hok); [done|done|lia..| | |].
  { eapply room_grows; [exact Hg1|]. eapply room_mono; [|exact Hroom]. lia. }
  { by intros x Hx [_ []]%Hcov. }
  step E2. destruct ok.
  { exists a, k2, ms2, pm2, vm1, ar1, ps. split; [done|]. split; [done|]. split; [unfold lay_grows in *; lia|].
    split; [intros m H1 H2; by rewrite Hms2, Hms1|]. split; [done|]. left.
    destruct Hok as [Hl Hw]. split; [done|]. split; [done|]. intros x Hx. rewrite Hw by done.
    by rewrite (same_translate k k1). }
  assert (Hsame : ∀ x, 0 ≤ x < W32 → current_translate k2 x = current_translate k x).
  { intros x Hx. rewrite <- (same_translate k k1 x Hp1).
    apply (unwound_translate k1 k2 a (n * PAGE_SIZE) (Z.of_nat (length ps) * PAGE_SIZE)); [|unfold PAGE_SIZE; lia|auto].
    intros y Hy. rewrite (same_translate k k1 y Hp1). apply current_unmapped, Hk. by apply Hfree. }
  destruct (vm_unalloc_spec k2 ms2 pm2 vm vm1 ar ar1 a (n * PAGE_SIZE))
    as (k3 & ms3 & vm3 & ar3 & E3 & Hk3 & Hg3 & Hp3 & Hms3 & Hvm & Hars); [apply Hk|done|done| | |].
  { eapply room_grows; [exact (lay_grows_trans _ _ _ _ _ Hg1 Hg2)|]. eapply room_mono; [|exact Hroom]. lia. }
  { intros v Hv. rewrite Hsame by lia. apply current_unmapped, Hk. by apply Hfree. }
  cbn [negb]. step E3.
  exists 0, k3, ms3, pm2, vm3, ar3, ps. split; [done|]. split; [done|]. split; [unfold lay_grows in *; lia|].
  split; [intros m H1 H2; by rewrite Hms3, Hms2, Hms1|]. split; [done|]. right.
  split; [done|]. split; [done|]. split; [done|]. intros x Hx. by rewrite (same_translate k2 k3), Hsame.
Qed.

(** C17: [kmem_alloc] either returns a page-aligned area of formerly free kernel
    address space, now recorded as in use, each page of which is mapped to a
    distinct page frame that was free and no longer is, no other translation
    changing; or it returns 0 and address space, recorded areas and all
    translations are as before.  The frames [ps] wired before a failure are
    not given back. *)
Theorem kmem_alloc_correct k ms pm vm ar sz (n := (sz + PAGE_SIZE - 1) / PAGE_SIZE) :
  kinv k ms pm vm ar → 0 < sz → sz ≤ W32 - PAGE_SIZE → room (88 + n * page_cost) k →
  ∃ a k' ms' pm' vm' ar' ps, kmem_alloc sz k = Ret a k' ∧ kinv k' ms' pm' vm' ar' ∧ frames_taken pm pm' ps ∧
    ((area_taken vm vm' ar ar' a (n * PAGE_SIZE) ∧ Z.of_nat (length ps) = n ∧ wired k k' a ps) ∨
     (a = 0 ∧ (∀ x f, covers vm' x f ↔ covers vm x f) ∧ areas ar' = areas ar ∧
      ∀ x, 0 ≤ x < W32 → current_translate k' x = current_translate k x)).
Proof.
  intros Hk H0 Hmax Hroom.
  destruct (kmem_alloc_spec k ms pm vm ar sz Hk H0 Hmax Hroom) as (a & k' & ms' & pm' & vm' & ar' & ps & E & Hk' & _ & _ & Hf & Hout).
  by exists a, k', ms', pm', vm', ar', ps.
Qed.

(** ** Mapping given frames *)


Lemma pages_map_spec k ms pm vm ar p n flush :
  kinv k ms pm vm ar → 0 < n → n * PAGE_SIZE < W32 → room (65 + 2 * PAGE_SIZE) k →
  (PAGE_SIZE | p) → 0 ≤ p → p + n * PAGE_SIZE ≤ W32 →
  ∃ r k' ms' vm' ar', kmem_pages_map p n flush k = Ret r k' ∧ kinv k' ms' pm vm' ar' ∧
    lay_grows (65 + 2 * PAGE_SIZE) (k_lay k) (k_lay k') ∧
    match r with
    | Some a => area_taken vm vm' ar ar' a (n * PAGE_SIZE) ∧ ∀ x, 0 ≤ x < W32 →
        current_translate k' x = if decide (a ≤ x < a + table_pages a n * PAGE_SIZE)
          then Some (p + (x - a)) else current_translate k x
    | None => vm' = vm ∧ ar' = ar ∧ k_pg k' = k_pg k
    end.
Proof.
  intros Hk Hn Hlt Hroom Hp Hp0 Hpe. unfold kmem_pages_map. unfold KMEM_PAGE_SIZE.
  assert (Hs0 : 0 < n * PAGE_SIZE) by (unfold PAGE_SIZE; lia). rewrite u32_small by lia.
  destruct (vm_alloc_spec k ms pm vm ar (n * PAGE_SIZE)) as (a & k1 & ms1 & vm1 & ar1 & E1 & Hk1 & Hg1 & Hp1 & _ & Hout);
    [done|lia|apply Z.divide_factor_r|by eapply room_mono; [|exact Hroom]; unfold PAGE_SIZE; lia|].
  step E1. destruct Hout as [(-> & -> & ->)|Ht].
  { exists None, k1, ms1, vm, ar. split; [done|]. split; [done|]. split; [unfold lay_grows, PAGE_SIZE in *; lia|done]. }
  pose proof Ht as (Ha0 & Had & Hae & _ & Hcov & _). pose proof Hk1 as [].
  rewrite (proj2 (Z.eqb_neq a 0)) by lia. step (on_pg_ok paging_pd_current k1 _ _ eq_refl). rewrite put_pg_view.
  destruct (paging_map_spec KERNEL_VMA (pg_view k1) (_current_page_dir (k_pg k1)) p (n * PAGE_SIZE) a KMEM_ATTRS)
    as (s' & E2 & (Hok & Hregs & Hg2 & _) & Hw); [done|done|lia|apply Z.divide_factor_r|lia|lia| |].
  { intros _ _ _. destruct ki_pd0 as (_ & _ & _ & Hm & He). simpl in Hm, He.
    apply (room_for_table (k_lay k1) _ 0); [by apply lay_grows_refl| |lia..].
    apply (room_grows _ (2 * PAGE_SIZE) k k1 Hg1) in Hroom. unfold room in Hroom. lia. }
  step (on_pg_ok _ k1 _ _ E2). rewrite Z.div_mul in Hw by done.
  assert (Hin : ∀ x, a ≤ x < a + table_pages a n * PAGE_SIZE → a ≤ x < a + n * PAGE_SIZE)
    by (unfold table_pages, PAGE_SIZE; lia).
  exists (Some a), (put_pg s' k1), ms1, vm1, ar1.
  split; [by destruct flush; [step (flush_id (put_pg s' k1))|]|]. split.
  { eapply kinv_put_pg; try done. intros x Hc. rewrite Hw by by eapply covers_bounds.
    rewrite decide_False; [by apply ki_unmapped0|]. intros Hx%Hin. by apply Hcov in Hc as [_ ?]. }
  split; [exact (lay_grows_trans _ _ _ _ _ Hg1 Hg2)|]. split; [done|]. intros x Hx.
  rewrite <- (same_translate k k1 x Hp1). unfold current_translate at 1, translate.
  fold (current_walk (put_pg s' k1) x). rewrite put_pg_walk by (by injection Hregs). rewrite Hw by done.
  destruct (decide _) as [Hx'|]; [|done].
  apply map_entry_translate with (n * PAGE_SIZE); try done; [apply Z.divide_factor_r|auto].
Qed.

Lemma get_size_spec k ms pm vm ar a :
  kinv k ms pm vm ar → kmem_vm_get_size a k = Ret (areas ar !! a) k.
Proof.
  intros []. unfold kmem_vm_get_size.
  destruct (vm_find_maps (vm_view k) {[ _kern_vm_map := ar ]} _kern_vm_map ar a) as (r & E & Hr); [done..|].
  step (on_vm_ok _ k _ _ E). rewrite put_vm_view. destruct r as [q|]; [|by rewrite Hr].
  destruct Hr as (n & Hq & ->).
  step (on_vm_ok (on_heap (load q)) k _ _ (on_load_ok _ _ _ Hq)). by rewrite put_vm_view.
Qed.

Lemma pages_map_unmap_spec k ms pm vm ar p n flush a k1 :
  kinv k ms pm vm ar → 0 < n → n * PAGE_SIZE < W32 → room (88 + 2 * PAGE_SIZE) k →
  (PAGE_SIZE | p) → 0 ≤ p → p + n * PAGE_SIZE ≤ W32 →
  kmem_pages_map p n flush k = Ret (Some a) k1 → one_table a (n * PAGE_SIZE) →
  (∀ x, a ≤ x < a + n * PAGE_SIZE → current_translate k1 x = Some (p + (x - a))) ∧
  ∃ k2 ms2 vm2 ar2, kmem_pages_unmap a flush k1 = Ret true k2 ∧ kinv k2 ms2 pm vm2 ar2 ∧
    lay_grows (88 + 2 * PAGE_SIZE) (k_lay k) (k_lay k2) ∧
    (∀ x f, covers vm2 x f ↔ covers vm x f) ∧ areas ar2 = areas ar ∧
    ∀ x, 0 ≤ x < W32 → current_translate k2 x = current_translate k x.
Proof.
  intros Hk Hn Hlt Hroom Hp Hp0 Hpe E1 Hone.
  destruct (pages_map_spec k ms pm vm ar p n flush) as (r & k1' & ms1 & vm1 & ar1 & E1' & Hk1 & Hg1 & Hout); try done.
  { by eapply room_mono; [|exact Hroom]; lia. }
  rewrite E1 in E1'. injection E1' as <- <-. destruct Hout as [Ht Hw].
  pose proof Ht as (Ha0 & Had & Hae & Hfree & Hcov & _ & Har).
  assert (Htp : table_pages a n = n).
  { unfold table_pages, one_table in *. rewrite Z.div_mul in Hone by done. lia. }
  rewrite Htp in Hw. assert (Hs0 : 0 < n * PAGE_SIZE) by (unfold PAGE_SIZE; lia).
  assert (Hin : ∀ x, a ≤ x < a + n * PAGE_SIZE → current_translate k1 x = Some (p + (x - a)))
    by (intros x Hx; rewrite Hw by lia; by rewrite decide_True).
  split; [done|]. unfold kmem_pages_unmap. step (get_size_spec k1 ms1 pm vm1 ar1 a Hk1).
  rewrite Har, lookup_insert_eq. step (on_pg_ok paging_pd_current k1 _ _ eq_refl). rewrite put_pg_view.
  destruct (unmap_area_spec k1 ms1 pm vm1 ar1 a (n * PAGE_SIZE)) as (k2 & E2 & Hk2 & Hl2 & Hw2);
    [done|done|apply Z.divide_factor_r|lia..| |].
  { intros x Hx. by rewrite Hin. }
  step E2. destruct (vm_unalloc_spec k2 ms1 pm vm vm1 ar ar1 a (n * PAGE_SIZE))
    as (k3 & ms3 & vm3 & ar3 & E3 & Hk3 & Hg3 & Hp3 & _ & Hvm & Hars); [apply Hk|done|done| | |].
  { unfold room. rewrite Hl2. apply (room_grows _ 23 k k1 Hg1). eapply room_mono; [|exact Hroom]. lia. }
  { intros x Hx. rewrite Hw2 by lia. by rewrite decide_True. }
  step E3. exists k3, ms3, vm3, ar3. split; [done|]. split; [done|].
  split; [rewrite Hl2 in Hg3; exact (lay_grows_trans _ _ _ _ _ Hg1 Hg3)|]. split; [done|]. split; [done|].
  intros x Hx. rewrite (same_translate k2 k3 x Hp3), Hw2 by done. destruct (decide _) as [Hx'|Hx'].
  - symmetry. apply current_unmapped, Hk. by apply Hfree.
  - rewrite Hw by done. by rewrite decide_False.
Qed.

(** Mapping physical memory with [kmem_pages_map] and unmapping it with
    [kmem_pages_unmap]: when the area handed out is served by one page table
    every address of it translates to the corresponding address of the given
    memory in between, and afterwards free address space, recorded areas and
    translations are what they were. *)
Theorem kmem_pages_map_unmap k ms pm vm ar p n flush a k1 :
  kinv k ms pm vm ar → 0 < n → n * PAGE_SIZE < W32 → room (88 + 2 * PAGE_SIZE) k →
  (PAGE_SIZE | p) → 0 ≤ p → p + n * PAGE_SIZE ≤ W32 →
  kmem_pages_map p n flush k = Ret (Some a) k1 → one_table a (n * PAGE_SIZE) →
  (∀ x, a ≤ x < a + n * PAGE_SIZE → current_translate k1 x = Some (p + (x - a))) ∧
  ∃ k2 ms2 vm2 ar2, kmem_pages_unmap a flush k1 = Ret true k2 ∧ kinv k2 ms2 pm vm2 ar2 ∧
    (∀ x f, covers vm2 x f ↔ covers vm x f) ∧ areas ar2 = areas ar ∧
    ∀ x, 0 ≤ x < W32 → current_translate k2 x = current_translate k x.
Proof.
  intros Hk Hn Hlt Hroom Hp Hp0 Hpe E1 Hone.
  destruct (pages_map_unmap_spec k ms pm vm ar p n flush a k1 Hk Hn Hlt Hroom Hp Hp0 Hpe E1 Hone)
    as (Hin & k2 & ms2 & vm2 & ar2 & E2 & Hk2 & _ & Hrest). split; [done|]. by exists k2, ms2, vm2, ar2.
Qed.

(** [kmem_vm_free] of an address where no area in use starts, a second
    free of the same area for example, panics. *)
Theorem kmem_vm_free_unknown_panics k ms pm vm ar a :
  kinv k ms pm vm ar → areas ar !! a = None → kmem_vm_free a k = Panic "double free?".
Proof.
  intros [] Ha. unfold kmem_vm_free.
  destruct (vm_find_maps (vm_view k) {[ _kern_vm_map := ar ]} _kern_vm_map ar a) as (r & E & Hr); [done..|].
  step (on_vm_ok _ k _ _ E). destruct r as [q|]; [|done]. destruct Hr as (n & _ & Hn). congruence.
Qed.

(** ** The kernel's address space at boot *)

(** The layout [layout_init] computes for a kernel linked at a page above the first. *)
Definition space_layout (l : layout) : Prop :=
  (PAGE_SIZE | segment_start l) ∧ PAGE_SIZE < segment_start l ∧ segment_start l ≤ memory_end l ∧
  (PAGE_SIZE | memory_end l) ∧ memory_end l ≤ MAX_VA ∧ memory_start l + 69 ≤ memory_end l.

(** [allocator_region_add_new] on the map of free address space. *)
Lemma add_space_spec s ms vm a sz f :
  maps_inv s ms → ms !! _kern_vm_alloc_map = Some vm → wf_list vm → edges page_edge page_edge vm →
  memory_start (lay s) + 23 ≤ memory_end (lay s) → 0 < a → 0 < sz → a + sz ≤ W32 →
  (PAGE_SIZE | a) → (PAGE_SIZE | a + sz) → (∀ x g, covers vm x g → ¬ a ≤ x < a + sz) →
  ∃ s' vm', allocator_region_add_new fresh_ar _kern_vm_alloc_map a sz f s = Ret tt s' ∧
    maps_inv s' (<[_kern_vm_alloc_map := vm']> ms) ∧ wf_list vm' ∧ edges page_edge page_edge vm' ∧
    lay_grows 23 (lay s) (lay s') ∧
    ∀ x g, covers vm' x g ↔ covers vm x g ∨ (g = f ∧ a ≤ x < a + sz).
Proof.
  intros Hm Hvm Hw He Hroom ? ? ? ? ? Hfree. rewrite (add_new_maps fresh_ar s ms _ vm) by done.
  destruct (mem_free_maps fresh_ar s ms _kern_vm_alloc_map vm a sz f)
    as (s' & vm' & E & Hm' & Hw' & _ & Hcov & Hg & Hedge); try done.
  exists s', vm'. split; [done|]. split; [done|]. split; [done|]. split; [by apply Hedge|done].
Qed.

(** [allocator_range_acquire] on the map of free address space. *)
Lemma acquire_space_spec s ms vm a sz :
  maps_inv s ms → ms !! _kern_vm_alloc_map = Some vm → wf_list vm → edges page_edge page_edge vm →
  memory_start (lay s) + 23 ≤ memory_end (lay s) → 0 < a → 0 ≤ sz → a + sz < W32 →
  (PAGE_SIZE | a) → (PAGE_SIZE | a + sz) →
  ∃ s' vm', allocator_range_acquire fresh_ar junk _kern_vm_alloc_map a sz s = Ret tt s' ∧
    maps_inv s' (<[_kern_vm_alloc_map := vm']> ms) ∧ wf_list vm' ∧ edges page_edge page_edge vm' ∧
    lay_grows 23 (lay s) (lay s') ∧ ∀ x g, covers vm' x g ↔ covers vm x g ∧ ¬ a ≤ x < a + sz.
Proof.
  intros Hm Hvm Hw He Hroom Ha Hs Hend Hpa Hpe.
  destruct (range_acquire_maps fresh_ar s ms _kern_vm_alloc_map vm junk a sz)
    as (s' & vm' & E & Hm' & Hw' & Hcov & Hg & Hvm'); try done; [lia|].
  exists s', vm'. split; [done|]. split; [done|]. split; [done|]. split; [|done].
  rewrite Hvm'. apply (subtract_l_edges _ _ _ _ 1); try done. split; simpl; [lia|]. unfold r_end; simpl; lia.
Qed.

(** The three steps of [kmem_load_layout] on the allocator's state. *)
Lemma load_layout_steps s ms (l := lay s) :
  maps_inv s ms → ms !! _kern_vm_alloc_map = Some [] → space_layout l →
  ∃ s1 s2 s3 vm',
    allocator_region_add_new fresh_ar _kern_vm_alloc_map PAGE_SIZE (segment_start l - PAGE_SIZE)
      ALLOC_VM_USER s = Ret tt s1 ∧ lay_grows 23 l (lay s1) ∧
    allocator_region_add_new fresh_ar _kern_vm_alloc_map (segment_start l) (W32 - segment_start l)
      ALLOC_VM_KERNEL s1 = Ret tt s2 ∧ lay_grows 46 l (lay s2) ∧
    allocator_range_acquire fresh_ar junk _kern_vm_alloc_map (segment_start l)
      (memory_end l - segment_start l) s2 = Ret tt s3 ∧ lay_grows 69 l (lay s3) ∧
    maps_inv s3 (<[_kern_vm_alloc_map := vm']> ms) ∧ wf_list vm' ∧ edges page_edge page_edge vm' ∧
    ∀ x f, covers vm' x f ↔ (f = ALLOC_VM_USER ∧ PAGE_SIZE ≤ x < segment_start l) ∨
      (f = ALLOC_VM_KERNEL ∧ memory_end l ≤ x < W32).
Proof.
  intros Hm Hvm (Hps & Hs & Hse & Hpe & He & Hroom).
  assert (HP : 0 < PAGE_SIZE) by done.
  assert (HW : (PAGE_SIZE | segment_start l + (W32 - segment_start l)))
    by (replace (segment_start l + (W32 - segment_start l)) with W32 by lia; by exists 1048576).
  destruct (add_space_spec s ms [] PAGE_SIZE (segment_start l - PAGE_SIZE) ALLOC_VM_USER)
    as (s1 & vm1 & E1 & Hm1 & Hw1 & He1 & Hg1 & Hc1); try done; try (fold l; lia).
  { by intros c ?%elem_of_nil. }
  { by replace (PAGE_SIZE + (segment_start l - PAGE_SIZE)) with (segment_start l) by lia. }
  { by intros x g []%covers_nil. }
  replace (PAGE_SIZE + (segment_start l - PAGE_SIZE)) with (segment_start l) in Hc1 by lia.
  destruct (add_space_spec s1 _ vm1 (segment_start l) (W32 - segment_start l) ALLOC_VM_KERNEL Hm1)
    as (s2 & vm2 & E2 & Hm2 & Hw2 & He2 & Hg2 & Hc2); try done; try (unfold lay_grows in *; fold l in Hg1; lia).
  { by rewrite lookup_insert_eq. }
  { intros x g [[]%covers_nil|[_ Hx]]%Hc1. lia. }
  pose proof (lay_grows_trans _ _ _ _ _ Hg1 Hg2) as Hg12. rewrite insert_insert_eq in Hm2. fold l in Hg1, Hg12.
  destruct (acquire_space_spec s2 _ vm2 (segment_start l) (memory_end l - segment_start l) Hm2)
    as (s3 & vm3 & E3 & Hm3 & Hw3 & He3 & Hg3 & Hc3); try done; try (unfold lay_grows in *; lia).
  { by rewrite lookup_insert_eq. }
  { by replace (segment_start l + (memory_end l - segment_start l)) with (memory_end l) by lia. }
  rewrite insert_insert_eq in Hm3. exists s1, s2, s3, vm3.
  split; [done|]. split; [done|]. split; [done|]. split; [done|]. split; [done|].
  split; [exact (lay_grows_trans _ _ _ _ _ Hg12 Hg3)|]. split; [done|]. split; [done|]. split; [done|].
  intros x f. rewrite Hc3, Hc2, Hc1. split.
  - intros [[[[]%covers_nil|[-> ?]]|[-> ?]] ?]; [by left|right; split; [done|lia]].
  - intros [[-> ?]|[-> ?]]; (split; [|lia]); [by left; right|right; split; [done|lia]].
Qed.

(** [kmem_load_layout], given that nothing above the bootstrap area is mapped. *)
Lemma load_layout_spec k ms pm (l := k_lay k) :
  kinv k ms pm [] [] → space_layout l →
  (∀ x, memory_end l ≤ x < W32 → current_translate k x = None) →
  ∃ k' ms' vm', kmem_load_layout k = Ret tt k' ∧ kinv k' ms' pm vm' [] ∧
    lay_grows 69 l (k_lay k') ∧ k_pg k' = k_pg k ∧
    ∀ x f, covers vm' x f ↔ (f = ALLOC_VM_USER ∧ PAGE_SIZE ≤ x < segment_start l) ∨
      (f = ALLOC_VM_KERNEL ∧ memory_end l ≤ x < W32).
Proof.
  intros Hk Hl Hun. pose proof Hk as []. pose proof Hl as (_ & Hs & Hse & _ & He & _).
  destruct (load_layout_steps (alloc_view k) ms) as
    (s1 & s2 & s3 & vm' & E1 & G1 & E2 & G2 & E3 & G3 & Hm & Hw & Hed & Hcov); try done.
  change (lay (alloc_view k)) with l in *. assert (HP : 0 < PAGE_SIZE) by done.
  assert (Hl1 : segment_start (lay s1) = segment_start l) by apply G1.
  assert (Hl2 : segment_start (lay s2) = segment_start l ∧ memory_end (lay s2) = memory_end l) by (split; apply G2).
  unfold kmem_load_layout. rewrite bind_get. fold l. rewrite (u32_small (segment_start l - _)) by (unfold KMEM_PAGE_SIZE; lia).
  step (on_alloc_ok _ k _ _ E1). rewrite bind_get. cbn [k_lay put_alloc]. rewrite Hl1.
  replace (u32 (MAX_VA - segment_start l + 1)) with (W32 - segment_start l) by (rewrite u32_small; lia).
  assert (V1 : alloc_view (put_alloc s1 k) = s1) by (by destruct s1). rewrite <- V1 in E2.
  step (on_alloc_ok _ (put_alloc s1 k) _ _ E2). rewrite bind_get. cbn [k_lay put_alloc].
  destruct Hl2 as [-> ->]. rewrite (u32_small (memory_end l - _)) by lia.
  assert (V2 : alloc_view (put_alloc s2 (put_alloc s1 k)) = s2) by (by destruct s2). rewrite <- V2 in E3.
  rewrite (on_alloc_ok _ (put_alloc s2 (put_alloc s1 k)) _ _ E3).
  exists (put_alloc s3 k), (<[_kern_vm_alloc_map := vm']> ms), vm'. split; [done|]. split; [|done].
  eapply kinv_put_alloc; try done; [by rewrite lookup_insert_ne|by rewrite lookup_insert_eq|].
  intros x Hx. apply current_unmapped, Hun. apply Hcov in Hx as [[? _]|[_ ?]]; [done|lia].
Qed.

(** Maps without regions, before any struct is allocated. *)
Lemma empty_maps_inv {T} `{Region T} (s : rstate T) (ms : gmap Z (list T)) :
  heap s = ∅ → free_regions s = NULL → 0 < memory_start (lay s) ≤ memory_end (lay s) →
  memory_end (lay s) < W32 - 4 → (∀ m vs, ms !! m = Some vs → vs = [] ∧ maps s !! m = Some NULL) →
  maps_inv s ms.
Proof.
  intros Hh Hf Hl He Hms. assert (Hp : pool_inv s []).
  { split; [|split; [|done]]; [by rewrite Hf|]. intros q. rewrite Hh, lookup_empty. by intros []. }
  exists ((λ _, []) <$> ms), []. split; [done|]. split; [|split].
  - intros m vs Hm. destruct (Hms m vs Hm) as [-> Hmap]. exists []. split; [by rewrite lookup_fmap, Hm|].
    split; [|split; [done|set_solver]]. exists NULL. split; [done|]. split; [done|constructor].
  - intros m m' ps ps' x _. rewrite lookup_fmap. destruct (ms !! m); [|done]. intros [= <-] _. set_solver.
  - intros m. rewrite lookup_fmap. by rewrite fmap_is_Some.
Qed.

(** The state in which [kmem_init] runs: no region struct was allocated yet,
    and the current page directory is well-formed. *)
Definition before_kmem_init (k : kstate) : Prop :=
  heap (k_alloc k) = ∅ ∧ free_regions (k_alloc k) = NULL ∧
  heap (k_vm k) = ∅ ∧ free_regions (k_vm k) = NULL ∧ pd_ok KERNEL_VMA (pg_view k) (_current_page_dir (k_pg k)).

Definition no_free_memory : gmap Z (list allocator_region) :=
  {[ _kern_pm_alloc_map := []; _kern_vm_alloc_map := [] ]}.

Lemma kmem_init_spec k :
  before_kmem_init k →
  ∃ k', kmem_init k = Ret tt k' ∧ kinv k' no_free_memory [] [] [] ∧ k_lay k' = k_lay k ∧ k_pg k' = k_pg k ∧
    k_space_pd k' = _current_page_dir (k_pg k).
Proof.
  intros (Hh & Hf & Hvh & Hvf & Hpd). pose proof Hpd as (_ & _ & _ & Hms & Hle & Hme). simpl in *.
  assert (Hend : memory_end (k_lay k) < W32 - 4) by (unfold PAGE_SIZE in Hme; lia).
  unfold kmem_init. step (on_pg_ok paging_pd_current k _ _ eq_refl). rewrite put_pg_view.
  unfold vm_space_init. eexists. split; [reflexivity|]. split; [|done].
  assert (Hnone : ∀ x f, ¬ covers ([] : list allocator_region) x f) by (intros x f; apply covers_nil).
  split; try done.
  - apply empty_maps_inv; try done; [simpl; lia|]. intros m vs Hm. unfold no_free_memory in Hm.
    apply lookup_insert_Some in Hm as [[<- <-]|[? Hm]]; [split; [done|]; apply lookup_insert_eq|].
    apply lookup_singleton_Some in Hm as [<- <-]. split; [done|]. simpl.
    by rewrite lookup_insert_ne, lookup_insert_eq.
  - apply empty_maps_inv; try done; [simpl; lia|]. intros m vs [<- <-]%lookup_singleton_Some.
    split; [done|]. simpl. by rewrite lookup_insert_eq.
  - by intros c ?%elem_of_nil.
  - by intros c ?%elem_of_nil.
  - apply NoDup_nil. done.
  - intros x Hx. by apply Hnone in Hx.
Qed.

(** A region of physical memory is made available. *)
Lemma pm_add_spec k ms pm vm ar a sz :
  kinv k ms pm vm ar → room 23 k → 0 < a → 0 < sz → a + sz ≤ W32 → (PAGE_SIZE | a) →
  (∀ x f, covers pm x f → ¬ a ≤ x < a + sz) →
  ∃ k' ms' pm', kern_pm_alloc_region_add a sz ALLOC_PM_NORMAL k = Ret tt k' ∧ kinv k' ms' pm' vm ar ∧
    lay_grows 23 (k_lay k) (k_lay k') ∧ k_pg k' = k_pg k ∧
    ∀ x f, covers pm' x f ↔ covers pm x f ∨ (f = ALLOC_PM_NORMAL ∧ a ≤ x < a + sz).
Proof.
  intros Hk Hroom Ha Hs He Hpa Hfree. pose proof Hk as []. unfold kern_pm_alloc_region_add.
  destruct (mem_free_maps fresh_ar (alloc_view k) ms _kern_pm_alloc_map pm a sz ALLOC_PM_NORMAL)
    as (s' & pm' & E & Hm & Hw' & _ & Hcov & Hg & Hedge); try done.
  rewrite <- (add_new_maps fresh_ar (alloc_view k) ms _ pm) in E by done.
  rewrite (on_alloc_ok _ k _ _ E). exists (put_alloc s' k), (<[_kern_pm_alloc_map := pm']> ms), pm'.
  split; [done|]. split; [|done].
  eapply kinv_put_alloc; try done; [by rewrite lookup_insert_eq|by rewrite lookup_insert_ne|by apply Hedge|].
  intros b sz' x f Hb. by apply ki_area0.
Qed.
End Kmem.

(** ** A concrete state *)

Definition ex_layout : layout := play ex_pstate.
Definition ex_before : kstate :=
  KState (RState ∅ NULL ∅ ex_layout) (RState ∅ NULL ∅ ex_layout) ex_pstate ∅ NULL 0 ex_layout.

(** One megabyte of physical memory is made available, and the address space is set up. *)
Definition ex_boot_memory : M kstate unit :=
  kmem_init;;
  kern_pm_alloc_region_add ex_fresh 1048576 1048576 ALLOC_PM_NORMAL;;
  kmem_load_layout ex_fresh ex_region.
Definition ex_kernel : kstate := match ex_boot_memory ex_before with Ret _ k => k | _ => ex_before end.

Lemma ex_unmapped x : 0 ≤ x < W32 → current_walk ex_vma ex_before x = None.
Proof.
  intros Hx. unfold current_walk, walk. change (pdirs (pg_view ex_before)) with (pdirs ex_pstate).
  change (_current_page_dir (k_pg ex_before)) with ex_dir. by rewrite ex_entries by by apply pd_index_range.
Qed.

Lemma ex_kernel_inv :
  ∃ ms pm vm, kinv ex_vma ex_kernel ms pm vm [] ∧ lay_grows 92 ex_layout (k_lay ex_kernel) ∧
    ∀ x, 0 ≤ x < W32 → current_translate ex_vma ex_kernel x = None.
Proof.
  assert (HP : ∀ k, k_pg k = k_pg ex_before → ∀ x, 0 ≤ x < W32 → current_translate ex_vma k x = None).
  { intros k Hk x Hx. rewrite (same_translate ex_vma ex_before k x Hk). by apply current_unmapped, ex_unmapped. }
  destruct (kmem_init_spec ex_vma ex_before) as (k1 & E1 & Hk1 & Hl1 & Hp1 & _).
  { split_and!; try done. apply ex_pd_ok. }
  destruct (pm_add_spec ex_vma ex_fresh k1 no_free_memory [] [] [] 1048576 1048576)
    as (k2 & ms2 & pm2 & E2 & Hk2 & Hg2 & Hp2 & _); try done.
  { unfold room. rewrite Hl1. vm_compute. discriminate. }
  { by exists 256. }
  { by intros x f []%covers_nil. }
  rewrite Hl1 in Hg2.
  destruct (load_layout_spec ex_vma ex_fresh ex_region k2 ms2 pm2)
    as (k3 & ms3 & vm3 & E3 & Hk3 & Hg3 & Hp3 & _); [done| | |].
  { destruct Hg2 as (Hl & He & Hs). unfold space_layout. rewrite Hl, He. split_and!; try done; [by exists 786432|by exists 787456|].
    simpl in *. unfold ex_vma in *. lia. }
  { intros x Hx. apply HP; [congruence|]. destruct Hg2 as (_ & He & _). rewrite He in Hx. simpl in Hx.
    unfold ex_vma in Hx. lia. }
  assert (ex_kernel = k3) as ->.
  { unfold ex_kernel, ex_boot_memory. step E1. step E2. by rewrite E3. }
  exists ms3, pm2, vm3. split; [done|]. split; [exact (lay_grows_trans 23 69 _ _ _ Hg2 Hg3)|].
  apply HP. congruence.
Qed.

Lemma ex_kernel_room n : n ≤ 2000000 → room n ex_kernel.
Proof.
  intros Hn. destruct ex_kernel_inv as (_ & _ & _ & _ & (_ & He & Hs) & _). unfold room. rewrite He.
  simpl in *. unfold ex_vma in *. lia.
Qed.

#[local] Opaque ex_kernel.

Lemma kmem_alloc_correct_witness :
  ∃ a k', kmem_alloc ex_vma ex_fresh ex_vfresh 5000 ex_kernel = Ret a k'.
Proof.
  destruct ex_kernel_inv as (ms & pm & vm & Hk & _).
  destruct (kmem_alloc_correct ex_vma ex_fresh ex_vfresh ex_kernel ms pm vm [] 5000)
    as (a & k' & _ & _ & _ & _ & _ & E & _); [exact Hk|lia|unfold PAGE_SIZE; lia| |by exists a, k'].
  apply ex_kernel_room. vm_compute. discriminate.
Defined.

(** Two pages at one megabyte mapped in the kernel's address space. *)
Definition ex_map : result kstate (option Z) := kmem_pages_map ex_vma ex_fresh ex_vfresh 1048576 2 true ex_kernel.
Definition ex_map_addr : Z := 3225419776. (* 0xC0400000 *)
Definition ex_map_kernel : kstate := match ex_map with Ret _ k => k | _ => ex_kernel end.

Lemma ex_map_eq :
  kmem_pages_map ex_vma ex_fresh ex_vfresh 1048576 2 true ex_kernel = Ret (Some ex_map_addr) ex_map_kernel.
Proof.
  unfold ex_map_kernel. fold ex_map.
  assert (H : match ex_map with Ret (Some a) _ => a =? ex_map_addr | _ => false end = true) by (vm_compute; reflexivity).
  destruct ex_map as [[a|] k| | |]; [|done..]. apply Z.eqb_eq in H as ->. done.
Qed.

#[local] Opaque ex_map_kernel.

Lemma kmem_pages_map_unmap_witness :
  ∃ k2, kmem_pages_unmap ex_vma ex_fresh ex_map_addr true ex_map_kernel = Ret true k2.
Proof.
  destruct ex_kernel_inv as (ms & pm & vm & Hk & _).
  destruct (kmem_pages_map_unmap ex_vma ex_fresh ex_vfresh ex_kernel ms pm vm [] 1048576 2 true
    ex_map_addr ex_map_kernel) as (_ & k2 & _ & _ & _ & E & _);
    [exact Hk|lia|unfold PAGE_SIZE; lia| | |lia|unfold PAGE_SIZE; lia|exact ex_map_eq| |by exists k2].
  - apply ex_kernel_room. vm_compute. discriminate.
  - by exists 256.
  - vm_compute. discriminate.
Defined.

Lemma kmem_vm_free_unknown_panics_witness :
  kmem_vm_free ex_fresh ex_map_addr ex_kernel = Panic "double free?".
Proof.
  destruct ex_kernel_inv as (ms & pm & vm & Hk & _).
  apply (kmem_vm_free_unknown_panics ex_vma ex_fresh ex_kernel ms pm vm [] ex_map_addr); [exact Hk|reflexivity].
Defined.
