(* ===== verification/Ordered.v ===== *)
(** * Ordered sets of structs, for the search trees of kernel/sys/tree.h

    A search tree orders structs by a function [cmp] that the user of the macros
    gives.  This file says what is relied on of it, what the operations of
    tree.h mean on a sorted list of addresses, and how nodes that are known one
    by one are found in a heap. *)

From Stdlib Require Import Sorting.Sorted.
From stdpp Require Import base numbers list gmap fin_maps.
From S2P Require Import Prelude UtList.

(** ** Comparison functions *)

(** [cmp] is a total preorder, as the comparison of integers is. *)
Class TotalCmp {D : Type} (cmp : D → D → Z) : Prop := {
  cmp_opp : ∀ a b, Z.sgn (cmp b a) = - Z.sgn (cmp a b);
  cmp_trans : ∀ a b c, cmp a b ≤ 0 → cmp b c ≤ 0 → cmp a c ≤ 0
}.

Section Cmp.
Context {D : Type} (cmp : D → D → Z) `{!TotalCmp cmp}.

Lemma cmp_refl a : cmp a a = 0.
Proof. pose proof (cmp_opp a a). lia. Qed.

Lemma cmp_lt_gt a b : cmp a b < 0 ↔ 0 < cmp b a.
Proof. pose proof (cmp_opp a b). lia. Qed.

Lemma cmp_eq_sym a b : cmp a b = 0 ↔ cmp b a = 0.
Proof. pose proof (cmp_opp a b). lia. Qed.

Lemma cmp_le_ge a b : cmp a b ≤ 0 ↔ 0 ≤ cmp b a.
Proof. pose proof (cmp_opp a b). lia. Qed.

Lemma cmp_lt_le_trans a b c : cmp a b < 0 → cmp b c ≤ 0 → cmp a c < 0.
Proof.
  intros Hab Hbc. pose proof (cmp_trans (cmp:=cmp) a b c (Z.lt_le_incl _ _ Hab) Hbc) as Hac.
  destruct (decide (cmp a c = 0)) as [E|]; [|lia]. apply cmp_eq_sym in E.
  pose proof (cmp_trans (cmp:=cmp) b c a Hbc (Z.eq_le_incl _ _ E)). apply cmp_lt_gt in Hab. lia.
Qed.

Lemma cmp_le_lt_trans a b c : cmp a b ≤ 0 → cmp b c < 0 → cmp a c < 0.
Proof.
  intros Hab Hbc. pose proof (cmp_trans (cmp:=cmp) a b c Hab (Z.lt_le_incl _ _ Hbc)) as Hac.
  destruct (decide (cmp a c = 0)) as [E|]; [|lia]. apply cmp_eq_sym in E.
  pose proof (cmp_trans (cmp:=cmp) c a b (Z.eq_le_incl _ _ E) Hab). apply cmp_lt_gt in Hbc. lia.
Qed.
End Cmp.

(** ** Sorted lists of addresses *)

Lemma filter_all {A} (P : A → Prop) `{!∀ x, Decision (P x)} (l : list A) : Forall P l → filter P l = l.
Proof. induction 1 as [|x l Hx _ IH]; [done|]. rewrite filter_cons_True by done. by rewrite IH. Qed.

Lemma filter_none {A} (P : A → Prop) `{!∀ x, Decision (P x)} (l : list A) : Forall (λ x, ¬ P x) l → filter P l = [].
Proof. induction 1 as [|x l Hx _ IH]; [done|]. by rewrite filter_cons_False. Qed.

Section Sorted.
Context {D : Type} (cmp : D → D → Z) `{!TotalCmp cmp}.
(** What the struct at an address is compared by. *)
Variable key : Z → D.
Implicit Types (e x : Z) (xs l r : list Z).

Abbreviation before x y := (cmp (key x) (key y) < 0) (only parsing).

Definition sorted xs : Prop := StronglySorted (λ x y, before x y) xs.

(** The operations, on the list of the addresses in order. *)
Definition same_key e xs : option Z := head (filter (λ x, cmp (key e) (key x) = 0) xs).
Definition inserted e xs : list Z :=
  match same_key e xs with
  | Some _ => xs
  | None => filter (λ x, before x e) xs ++ e :: filter (λ x, before e x) xs
  end.
Definition removed e xs : list Z := filter (λ x, cmp (key e) (key x) ≠ 0) xs.
Definition next_after e xs : option Z := head (filter (λ x, before e x) xs).
Definition prev_before e xs : option Z := last (filter (λ x, before x e) xs).
Definition not_before e xs : option Z := head (filter (λ x, cmp (key e) (key x) ≤ 0) xs).

Definition ptr (o : option Z) : Z := default NULL o.

Definition all_before l e : Prop := Forall (λ x, before x e) l.
Definition all_after e r : Prop := Forall (λ x, before e x) r.

Lemma sorted_app l r : sorted (l ++ r) ↔ sorted l ∧ sorted r ∧ ∀ x y, x ∈ l → y ∈ r → before x y.
Proof.
  unfold sorted. induction l as [|a l IH]; simpl.
  - split; [|tauto]. intros H. split; [constructor|]. split; [done|]. by intros x y ?%elem_of_nil.
  - split.
    + intros [Hs Hf]%StronglySorted_inv. apply IH in Hs as (Hl & Hr & Hlr). apply Forall_app in Hf as [Hfl Hfr].
      split; [by constructor|]. split; [done|]. intros x y [->|Hx]%elem_of_cons Hy; [|by apply Hlr].
      by apply (proj1 (Forall_forall _ _) Hfr).
    + intros ([Hl Hf]%StronglySorted_inv & Hr & Hlr). constructor.
      * apply IH. split; [done|]. split; [done|]. intros x y Hx Hy. apply Hlr; [by right|done].
      * apply Forall_app. split; [done|]. apply Forall_forall. intros y Hy. apply Hlr; [by left|done].
Qed.

Lemma sorted_mid l x r : sorted (l ++ x :: r) ↔ sorted l ∧ sorted r ∧ all_before l x ∧ all_after x r ∧
  ∀ y z, y ∈ l → z ∈ r → before y z.
Proof.
  rewrite sorted_app. unfold all_before, all_after. rewrite !Forall_forall. split.
  - intros (Hl & [Hr Hf]%StronglySorted_inv & H). rewrite Forall_forall in Hf. split_and!; try done.
    + intros y Hy. apply H; [done|by left].
    + intros y z Hy Hz. apply H; [done|by right].
  - intros (Hl & Hr & Hb & Ha & H). split; [done|]. split; [constructor; [done|]; by apply Forall_forall|].
    intros y z Hy [->|Hz]%elem_of_cons; [by apply Hb|by apply H].
Qed.

Lemma sorted_nodup xs : sorted xs → NoDup xs.
Proof.
  induction 1 as [|x xs Hs IH Hf]; constructor; [|done]. intros Hx. rewrite Forall_forall in Hf.
  specialize (Hf x Hx). cbv beta in Hf. rewrite (cmp_refl cmp) in Hf. lia.
Qed.

(** *** A list split at an element *)

Lemma before_after_facts e y : before y e → 0 < cmp (key e) (key y).
Proof. by rewrite (cmp_lt_gt cmp). Qed.

(** The filters of the operations on the elements before and after [e]. *)
Lemma filters_before l e : all_before l e →
  filter (λ x, before x e) l = l ∧ filter (λ x, before e x) l = [] ∧ filter (λ x, cmp (key e) (key x) = 0) l = [] ∧
  filter (λ x, cmp (key e) (key x) ≠ 0) l = l ∧ filter (λ x, cmp (key e) (key x) ≤ 0) l = [].
Proof.
  unfold all_before. intros H.
  split_and!; (apply filter_all || apply filter_none); eapply Forall_impl; try exact H; intros y Hy; cbv beta in *; try done;
    apply before_after_facts in Hy; lia.
Qed.

Lemma filters_after e r : all_after e r →
  filter (λ x, before x e) r = [] ∧ filter (λ x, before e x) r = r ∧ filter (λ x, cmp (key e) (key x) = 0) r = [] ∧
  filter (λ x, cmp (key e) (key x) ≠ 0) r = r ∧ filter (λ x, cmp (key e) (key x) ≤ 0) r = r.
Proof.
  unfold all_after. intros H.
  split_and!; (apply filter_all || apply filter_none); eapply Forall_impl; try exact H; intros y Hy; cbv beta in *; try lia;
    apply before_after_facts in Hy; lia.
Qed.

Lemma same_key_none l e r : all_before l e → all_after e r → same_key e (l ++ r) = None.
Proof.
  intros (_ & _ & H1 & _)%filters_before (_ & _ & H2 & _)%filters_after. unfold same_key. by rewrite filter_app, H1, H2.
Qed.

Lemma same_key_some l e x r : all_before l e → cmp (key e) (key x) = 0 → same_key e (l ++ x :: r) = Some x.
Proof. intros (_ & _ & H1 & _)%filters_before Hx. unfold same_key. by rewrite filter_app, H1, filter_cons_True. Qed.

Lemma inserted_new l e r : all_before l e → all_after e r → inserted e (l ++ r) = l ++ e :: r.
Proof.
  intros Hl Hr. unfold inserted. rewrite same_key_none by done.
  apply filters_before in Hl as (H1 & H2 & _). apply filters_after in Hr as (H3 & H4 & _).
  rewrite !filter_app, H1, H2, H3, H4. by rewrite app_nil_r.
Qed.

Lemma inserted_old e xs x : same_key e xs = Some x → inserted e xs = xs.
Proof. intros H. unfold inserted. by rewrite H. Qed.

Lemma removed_mid l e x r : all_before l e → cmp (key e) (key x) = 0 → all_after e r → removed e (l ++ x :: r) = l ++ r.
Proof.
  intros (_ & _ & _ & H1 & _)%filters_before Hx (_ & _ & _ & H2 & _)%filters_after.
  unfold removed. rewrite filter_app, filter_cons_False, H1, H2; [done|]. tauto.
Qed.

Lemma removed_none l e r : all_before l e → all_after e r → removed e (l ++ r) = l ++ r.
Proof.
  intros (_ & _ & _ & H1 & _)%filters_before (_ & _ & _ & H2 & _)%filters_after. unfold removed. by rewrite filter_app, H1, H2.
Qed.

Lemma next_after_mid l e x r : all_before l e → cmp (key e) (key x) = 0 → all_after e r → next_after e (l ++ x :: r) = head r.
Proof.
  intros (_ & H1 & _)%filters_before Hx (_ & H2 & _)%filters_after. unfold next_after.
  rewrite filter_app, filter_cons_False, H1, H2; [done|lia].
Qed.

Lemma prev_before_mid l e x r : all_before l e → cmp (key e) (key x) = 0 → all_after e r → prev_before e (l ++ x :: r) = last l.
Proof.
  intros (H1 & _)%filters_before Hx (H2 & _)%filters_after. unfold prev_before.
  rewrite filter_app, filter_cons_False, H1, H2, app_nil_r; [done|]. apply (cmp_eq_sym cmp) in Hx. lia.
Qed.

Lemma not_before_split l e r : all_before l e → Forall (λ x, cmp (key e) (key x) ≤ 0) r → not_before e (l ++ r) = head r.
Proof. intros (_ & _ & _ & _ & H1)%filters_before H2. unfold not_before. by rewrite filter_app, H1, filter_all. Qed.

Lemma sorted_insert l e r : sorted (l ++ r) → all_before l e → all_after e r → sorted (l ++ e :: r).
Proof. intros (? & ? & ?)%sorted_app ? ?. apply sorted_mid. by split_and!. Qed.

Lemma sorted_delete l x r : sorted (l ++ x :: r) → sorted (l ++ r).
Proof. intros (? & ? & _ & _ & ?)%sorted_mid. by apply sorted_app. Qed.

(** Elements of a sorted list with the same key are the same. *)
Lemma sorted_same xs x y : sorted xs → x ∈ xs → y ∈ xs → cmp (key x) (key y) = 0 → x = y.
Proof.
  intros Hs (l & r & ->)%list_elem_of_split Hy Hc. apply sorted_mid in Hs as (_ & _ & Hb & Ha & _).
  unfold all_before, all_after in *. rewrite Forall_forall in Hb, Ha.
  apply elem_of_app in Hy as [Hy|[->|Hy]%elem_of_cons]; [|done|].
  - specialize (Hb y Hy). apply before_after_facts in Hb. lia.
  - specialize (Ha y Hy). cbv beta in Ha. lia.
Qed.
End Sorted.
(** ** Nodes of a heap, one by one

    [valid h0 h E]: the heap [h] has the nodes [E], at addresses that differ
    and are not null, and everywhere else it is [h0].  The order of [E] does not
    matter, so a node is brought to the front to be read or written. *)
Section Valid.
Context {T : Type}.
Implicit Types (h : gmap Z T) (E : list (Z * T)) (p q : Z) (n : T).

Record valid h0 h E : Prop := {
  v_nodes : Forall (λ e, h !! e.1 = Some e.2) E;
  v_nodup : NoDup E.*1;
  v_null : NULL ∉ E.*1;
  v_rest : ∀ q, q ∉ E.*1 → h !! q = h0 !! q
}.

#[export] Instance valid_proper h0 h : Proper ((≡ₚ) ==> iff) (valid h0 h).
Proof.
  assert (∀ E1 E2, E1 ≡ₚ E2 → valid h0 h E1 → valid h0 h E2) as Hp.
  { intros E1 E2 HE [H1 H2 H3 H4]. pose proof (fmap_Permutation fst _ _ HE) as Hf. split.
    - by rewrite <- HE.
    - by rewrite <- Hf.
    - by rewrite <- Hf.
    - intros q. rewrite <- Hf. apply H4. }
  intros E1 E2 HE. split; apply Hp; [done|by symmetry].
Qed.

Lemma valid_perm h0 h E1 E2 : valid h0 h E1 → E1 ≡ₚ E2 → valid h0 h E2.
Proof. by intros H <-. Qed.

Lemma valid_lookup h0 h E p n : valid h0 h E → (p, n) ∈ E → h !! p = Some n.
Proof. intros [H _ _ _] Hin. rewrite Forall_forall in H. by specialize (H _ Hin). Qed.

Lemma valid_nonnull h0 h E p : valid h0 h E → p ∈ E.*1 → p ≠ NULL.
Proof. intros H Hp ->. by apply (v_null _ _ _ H). Qed.

Lemma valid_same h E : Forall (λ e, h !! e.1 = Some e.2) E → NoDup E.*1 → NULL ∉ E.*1 → valid h h E.
Proof. by split. Qed.

Lemma valid_rebase h0 h E : valid h0 h E → valid h h E.
Proof. intros []. by split. Qed.

Lemma valid_update h0 h p n n' E : valid h0 h ((p, n) :: E) → valid h0 (<[p := n']> h) ((p, n') :: E).
Proof.
  intros [[H1 H2]%Forall_cons [Hp Hnd]%NoDup_cons H4 H5]. cbn in *. split; cbn.
  - constructor; [by rewrite lookup_insert_eq|]. rewrite Forall_forall in H2 |- *. intros [q m] Hq. cbn.
    rewrite lookup_insert_ne; [by apply (H2 (q, m))|]. intros <-. apply Hp. by apply (list_elem_of_fmap_2 fst E (p, m)).
  - by constructor.
  - done.
  - intros q Hq. rewrite lookup_insert_ne by set_solver. by apply H5.
Qed.

(** One more node, which the rest of the heap has. *)
Lemma valid_own h0 h p n E : valid h0 h E → h !! p = Some n → p ≠ NULL → p ∉ E.*1 → valid h0 h ((p, n) :: E).
Proof.
  intros [H1 H2 H3 H4] Hp Hn Hni. split; cbn; [by constructor|by constructor|set_solver|].
  intros q Hq. apply H4. set_solver.
Qed.

(** Fewer nodes, with the heap as it is for the rest. *)
Lemma valid_drop h0 h E1 E2 : valid h0 h (E1 ++ E2) → valid h h E2.
Proof.
  intros [H1 H2 H3 H4]. rewrite fmap_app in H2, H3. apply Forall_app in H1 as [_ H1].
  apply NoDup_app in H2 as (_ & _ & H2). apply valid_same; [done|done|set_solver].
Qed.

(** A struct on the stack: it is there, and then it is gone. *)
Lemma valid_push h p n E : valid h h E → h !! p = None → p ≠ NULL → valid (<[p := n]> h) (<[p := n]> h) ((p, n) :: E).
Proof.
  intros [H1 H2 H3 H4] Hp Hn.
  assert (p ∉ E.*1) as Hni.
  { intros ([q m] & -> & Hq)%list_elem_of_fmap. rewrite Forall_forall in H1. specialize (H1 _ Hq). cbn in *. congruence. }
  apply valid_same; cbn; [|by constructor|set_solver]. constructor; [by rewrite lookup_insert_eq|].
  rewrite Forall_forall in H1 |- *. intros [q m] Hq. cbn. rewrite lookup_insert_ne; [by apply (H1 (q, m))|].
  intros ->. apply Hni. by apply (list_elem_of_fmap_2 fst E (q, m)).
Qed.

Lemma valid_pop h h' p n n' E : valid (<[p := n]> h) h' ((p, n') :: E) → h !! p = None → valid h (delete p h') E.
Proof.
  intros [[H1 H2]%Forall_cons [Hp Hnd]%NoDup_cons H4 H5] Hn. cbn in *. split; [|done|set_solver|].
  - rewrite Forall_forall in H2 |- *. intros [q m] Hq. cbn. rewrite lookup_delete_ne; [by apply (H2 (q, m))|].
    intros ->. apply Hp. by apply (list_elem_of_fmap_2 fst E (q, m)).
  - intros q Hq. destruct (decide (q = p)) as [->|Hne]; [by rewrite lookup_delete_eq|].
    rewrite lookup_delete_ne by done. rewrite H5 by set_solver. by rewrite lookup_insert_ne.
Qed.

Lemma valid_size h0 h E : valid h0 h E → (length E ≤ size h)%nat.
Proof.
  intros H. rewrite <- (length_fmap fst). apply heap_size_ge; [apply H|].
  intros q ([p n] & -> & Hin)%list_elem_of_fmap. exists n. exact (valid_lookup _ _ _ _ _ H Hin).
Qed.

(** Some of the nodes change, the others stay. *)
Lemma valid_frame h h' E E' F : valid h h (E ++ F) → valid h h' E' → E'.*1 ≡ₚ E.*1 → valid h h' (E' ++ F).
Proof.
  intros [H1 H2 H3 H4] [G1 G2 G3 G4] HE. apply Forall_app in H1 as [_ H1]. rewrite fmap_app in H2, H3.
  apply NoDup_app in H2 as (_ & Hd & H2). split.
  - apply Forall_app. split; [done|]. rewrite Forall_forall in H1 |- *. intros [q n] Hq. cbn. rewrite G4; [by apply (H1 (q, n))|].
    rewrite HE. intros Hin. apply (Hd q Hin). by apply (list_elem_of_fmap_2 fst F (q, n)).
  - rewrite fmap_app. apply NoDup_app. split; [done|]. split; [|done]. intros q. rewrite HE. apply Hd.
  - rewrite fmap_app, HE. done.
  - intros q. rewrite fmap_app, HE. intros Hq. apply G4. rewrite HE. set_solver.
Qed.
End Valid.
