(* ===== verification/Splay.v ===== *)
(** * kernel/sys/tree.h: splay trees

    The macros are translated for one struct type, with the data [D] beside the
    two links, one comparison function and one head.  A splay goes down from the
    root and takes the tree apart into the nodes before the path, the rest, and
    the nodes after it, which hang from a struct on the stack, [__node].  The
    theorem says that the operations implement those of a sorted list. *)

From Stdlib Require Import Sorting.Sorted.
From stdpp Require Import base numbers list gmap fin_maps.
From S2P Require Import Prelude UtList Ordered.

(** [SPLAY_ENTRY] and the rest of the struct, and [SPLAY_HEAD] with the heap. *)
Record snode (D : Type) := SNode { spe_left : Z; spe_right : Z; sp_data : D }.
Arguments SNode {D}.
Arguments spe_left {D}.
Arguments spe_right {D}.
Arguments sp_data {D}.

Record splay_head (D : Type) := SplayHead { sp_heap : gmap Z (snode D); sph_root : Z }.
Arguments SplayHead {D}.
Arguments sp_heap {D}.
Arguments sph_root {D}.

Section Splay.
Context {D : Type} (cmp : D → D → Z).
Abbreviation S := (splay_head D).

(** The address of the struct on the stack, and what is in it besides the links. *)
Variable __node : Z.
Variable junk : D.

Definition on_sp {A} (m : M (gmap Z (snode D)) A) : M S A := zoom sp_heap (λ h s, SplayHead h (sph_root s)) m.

Definition SPLAY_INIT : M S unit := modify (λ s, SplayHead (sp_heap s) NULL).
Definition SPLAY_ROOT : M S Z := s ← get; mret (sph_root s).
Definition set_root (p : Z) : M S unit := modify (λ s, SplayHead (sp_heap s) p).
Definition SPLAY_LEFT (elm : Z) : M S Z := n ← on_sp (load elm); mret (spe_left n).
Definition SPLAY_RIGHT (elm : Z) : M S Z := n ← on_sp (load elm); mret (spe_right n).
Definition set_left (elm p : Z) : M S unit := on_sp (update elm (λ n, SNode p (spe_right n) (sp_data n))).
Definition set_right (elm p : Z) : M S unit := on_sp (update elm (λ n, SNode (spe_left n) p (sp_data n))).
Definition SPLAY_EMPTY : M S bool := root ← SPLAY_ROOT; mret (root =? NULL).

(** [(cmp)(a, b)] *)
Definition compare (a b : Z) : M S Z :=
  n ← on_sp (load a);
  m ← on_sp (load b);
  mret (cmp (sp_data n) (sp_data m)).

Definition SPLAY_ROTATE_RIGHT (tmp : Z) : M S unit :=
  root ← SPLAY_ROOT;
  r ← SPLAY_RIGHT tmp;
  set_left root r;;
  set_right tmp root;;
  set_root tmp.

Definition SPLAY_ROTATE_LEFT (tmp : Z) : M S unit :=
  root ← SPLAY_ROOT;
  l ← SPLAY_LEFT tmp;
  set_right root l;;
  set_left tmp root;;
  set_root tmp.

(** The new value of [tmp] is the result. *)
Definition SPLAY_LINKLEFT (tmp : Z) : M S Z :=
  root ← SPLAY_ROOT;
  set_left tmp root;;
  l ← SPLAY_LEFT root;
  set_root l;;
  mret root.

Definition SPLAY_LINKRIGHT (tmp : Z) : M S Z :=
  root ← SPLAY_ROOT;
  set_right tmp root;;
  r ← SPLAY_RIGHT root;
  set_root r;;
  mret root.

Definition SPLAY_ASSEMBLE (node left right : Z) : M S unit :=
  root ← SPLAY_ROOT;
  l ← SPLAY_LEFT root;
  set_right left l;;
  r ← SPLAY_RIGHT root;
  set_left right r;;
  r ← SPLAY_RIGHT node;
  set_left root r;;
  l ← SPLAY_LEFT node;
  set_right root l.

(** The loop of [name##_SPLAY]: [comp root] and [comp' tmp] are the results of
    the two comparisons; the two pointers are the result. *)
Fixpoint splay_loop (comp : Z → M S Z) (fuel : nat) (__left __right : Z) : M S (Z * Z) :=
  match fuel with
  | O => nofuel
  | Datatypes.S fuel =>
      root ← SPLAY_ROOT;
      c ← comp root;
      if c =? 0 then mret (__left, __right)
      else if c <? 0 then
        tmp ← SPLAY_LEFT root;
        if tmp =? NULL then mret (__left, __right)
        else
          c ← comp tmp;
          stop ← (if c <? 0 then
                    SPLAY_ROTATE_RIGHT tmp;;
                    root ← SPLAY_ROOT;
                    l ← SPLAY_LEFT root;
                    mret (l =? NULL)
                  else mret false);
          if (stop : bool) then mret (__left, __right)
          else
            __right ← SPLAY_LINKLEFT __right;
            splay_loop comp fuel __left __right
      else
        tmp ← SPLAY_RIGHT root;
        if tmp =? NULL then mret (__left, __right)
        else
          c ← comp tmp;
          stop ← (if 0 <? c then
                    SPLAY_ROTATE_LEFT tmp;;
                    root ← SPLAY_ROOT;
                    r ← SPLAY_RIGHT root;
                    mret (r =? NULL)
                  else mret false);
          if (stop : bool) then mret (__left, __right)
          else
            __left ← SPLAY_LINKRIGHT __left;
            splay_loop comp fuel __left __right
  end.

(** The struct on the stack is there for as long as the function runs. *)
Definition splay_with (comp : Z → M S Z) : M S unit :=
  on_sp (modify (insert __node (SNode NULL NULL junk)));;
  fuel ← on_sp fuel_of_heap;
  '(__left, __right) ← splay_loop comp fuel __node __node;
  SPLAY_ASSEMBLE __node __left __right;;
  on_sp (modify (delete __node)).

Definition SPLAY (elm : Z) : M S unit := splay_with (compare elm).

Definition SPLAY_FIND (elm : Z) : M S Z :=
  empty ← SPLAY_EMPTY;
  if (empty : bool) then mret NULL
  else
    SPLAY elm;;
    root ← SPLAY_ROOT;
    c ← compare elm root;
    if c =? 0 then mret root else mret NULL.

(** [while (SPLAY_LEFT(elm, field) != NULL)] *)
Fixpoint leftmost_loop (fuel : nat) (elm : Z) : M S Z :=
  match fuel with
  | O => nofuel
  | Datatypes.S fuel =>
      l ← SPLAY_LEFT elm;
      if l =? NULL then mret elm else leftmost_loop fuel l
  end.

Definition SPLAY_NEXT (elm : Z) : M S Z :=
  SPLAY elm;;
  r ← SPLAY_RIGHT elm;
  if negb (r =? NULL) then
    fuel ← on_sp fuel_of_heap;
    leftmost_loop fuel r
  else mret NULL.

(** The loop of [name##_SPLAY_MINMAX]. *)
Fixpoint minmax_loop (__comp : Z) (fuel : nat) (__left __right : Z) : M S (Z * Z) :=
  match fuel with
  | O => nofuel
  | Datatypes.S fuel =>
      root ← SPLAY_ROOT;
      if __comp <? 0 then
        tmp ← SPLAY_LEFT root;
        if tmp =? NULL then mret (__left, __right)
        else
          stop ← (if __comp <? 0 then
                    SPLAY_ROTATE_RIGHT tmp;;
                    root ← SPLAY_ROOT;
                    l ← SPLAY_LEFT root;
                    mret (l =? NULL)
                  else mret false);
          if (stop : bool) then mret (__left, __right)
          else
            __right ← SPLAY_LINKLEFT __right;
            minmax_loop __comp fuel __left __right
      else if 0 <? __comp then
        tmp ← SPLAY_RIGHT root;
        if tmp =? NULL then mret (__left, __right)
        else
          stop ← (if 0 <? __comp then
                    SPLAY_ROTATE_LEFT tmp;;
                    root ← SPLAY_ROOT;
                    r ← SPLAY_RIGHT root;
                    mret (r =? NULL)
                  else mret false);
          if (stop : bool) then mret (__left, __right)
          else
            __left ← SPLAY_LINKRIGHT __left;
            minmax_loop __comp fuel __left __right
      else minmax_loop __comp fuel __left __right
  end.

Definition SPLAY_MINMAX (__comp : Z) : M S unit :=
  on_sp (modify (insert __node (SNode NULL NULL junk)));;
  fuel ← on_sp fuel_of_heap;
  '(__left, __right) ← minmax_loop __comp fuel __node __node;
  SPLAY_ASSEMBLE __node __left __right;;
  on_sp (modify (delete __node)).

Definition SPLAY_MIN_MAX (val : Z) : M S Z :=
  SPLAY_MINMAX val;;
  SPLAY_ROOT.

Abbreviation SPLAY_NEGINF := (-1) (only parsing).
Abbreviation SPLAY_INF := 1 (only parsing).

Definition SPLAY_MIN : M S Z :=
  empty ← SPLAY_EMPTY;
  if (empty : bool) then mret NULL else SPLAY_MIN_MAX SPLAY_NEGINF.

Definition SPLAY_MAX : M S Z :=
  empty ← SPLAY_EMPTY;
  if (empty : bool) then mret NULL else SPLAY_MIN_MAX SPLAY_INF.

(** What a [SPLAY_FOREACH] visits. *)
Fixpoint foreach_loop (fuel : nat) (x : Z) : M S (list Z) :=
  match fuel with
  | O => nofuel
  | Datatypes.S fuel =>
      if x =? NULL then mret []
      else
        next ← SPLAY_NEXT x;
        xs ← foreach_loop fuel next;
        mret (x :: xs)
  end.

Definition SPLAY_FOREACH : M S (list Z) :=
  x ← SPLAY_MIN;
  fuel ← on_sp fuel_of_heap;
  foreach_loop fuel x.

Definition SPLAY_INSERT (elm : Z) : M S Z :=
  empty ← SPLAY_EMPTY;
  if (empty : bool) then
    set_right elm NULL;;
    set_left elm NULL;;
    set_root elm;;
    mret NULL
  else
    SPLAY elm;;
    root ← SPLAY_ROOT;
    __comp ← compare elm root;
    if __comp <? 0 then
      l ← SPLAY_LEFT root;
      set_left elm l;;
      set_right elm root;;
      set_left root NULL;;
      set_root elm;;
      mret NULL
    else if 0 <? __comp then
      r ← SPLAY_RIGHT root;
      set_right elm r;;
      set_left elm root;;
      set_right root NULL;;
      set_root elm;;
      mret NULL
    else mret root.

Definition SPLAY_REMOVE (elm : Z) : M S Z :=
  empty ← SPLAY_EMPTY;
  if (empty : bool) then mret NULL
  else
    SPLAY elm;;
    root ← SPLAY_ROOT;
    c ← compare elm root;
    if c =? 0 then
      l ← SPLAY_LEFT root;
      (if l =? NULL then
         r ← SPLAY_RIGHT root;
         set_root r
       else
         __tmp ← SPLAY_RIGHT root;
         set_root l;;
         SPLAY elm;;
         root ← SPLAY_ROOT;
         set_right root __tmp);;
      mret elm
    else mret NULL.

(** ** Trees and what hangs from the stack *)

Variable key : Z → D.

Inductive tree := Leaf | Node (l : tree) (x : Z) (r : tree).
#[local] Instance tree_eq_dec : EqDecision tree.
Proof. solve_decision. Defined.

Definition root (t : tree) : Z := match t with Leaf => NULL | Node _ x _ => x end.

Fixpoint inorder (t : tree) : list Z :=
  match t with Leaf => [] | Node l x r => inorder l ++ x :: inorder r end.

Fixpoint nodes (t : tree) : list (Z * snode D) :=
  match t with Leaf => [] | Node l x r => (x, SNode (root l) (root r) (key x)) :: nodes l ++ nodes r end.

(** The nodes before the path, from the outermost: each has its left subtree
    and, as its right one, the next; the right link of the last is [v]. *)
Definition lfirst (L : list (tree * Z)) (v : Z) : Z := match L with [] => v | (_, x) :: _ => x end.
Fixpoint lnodes (L : list (tree * Z)) (v : Z) : list (Z * snode D) :=
  match L with [] => [] | (l, x) :: L => (x, SNode (root l) (lfirst L v) (key x)) :: nodes l ++ lnodes L v end.
Definition llast (L : list (tree * Z)) : Z := match last L with None => __node | Some (_, x) => x end.
Fixpoint lflat (L : list (tree * Z)) : list Z :=
  match L with [] => [] | (l, x) :: L => inorder l ++ x :: lflat L end.
Definition lplug (L : list (tree * Z)) (t : tree) : tree := foldr (λ '(l, x) t, Node l x t) t L.

(** The nodes after the path, likewise. *)
Definition rfirst (R : list (Z * tree)) (w : Z) : Z := match R with [] => w | (x, _) :: _ => x end.
Fixpoint rnodes (R : list (Z * tree)) (w : Z) : list (Z * snode D) :=
  match R with [] => [] | (x, r) :: R => (x, SNode (rfirst R w) (root r) (key x)) :: nodes r ++ rnodes R w end.
Definition rlast (R : list (Z * tree)) : Z := match last R with None => __node | Some (x, _) => x end.
Fixpoint rflat (R : list (Z * tree)) : list Z :=
  match R with [] => [] | (x, r) :: R => rflat R ++ x :: inorder r end.
Definition rplug (R : list (Z * tree)) (t : tree) : tree := foldr (λ '(x, r) t, Node t x r) t R.

Definition parts L v R w : list (Z * snode D) :=
  (__node, SNode (rfirst R w) (lfirst L v) junk) :: lnodes L v ++ rnodes R w.

Lemma nodes_inorder t : (nodes t).*1 ≡ₚ inorder t.
Proof. induction t as [|l IHl x r IHr]; [done|]. cbn. rewrite fmap_app, IHl, IHr. solve_Permutation. Qed.

Lemma lnodes_flat L v : (lnodes L v).*1 ≡ₚ lflat L.
Proof. induction L as [|[l x] L IH]; [done|]. cbn. rewrite fmap_app, nodes_inorder, IH. solve_Permutation. Qed.

Lemma rnodes_flat R w : (rnodes R w).*1 ≡ₚ rflat R.
Proof. induction R as [|[x r] R IH]; [done|]. cbn. rewrite fmap_app, nodes_inorder, IH. solve_Permutation. Qed.

Lemma lfirst_snoc L l x v : lfirst (L ++ [(l, x)]) v = lfirst L x.
Proof. by destruct L as [|[? ?] ?]. Qed.

Lemma rfirst_snoc R x r w : rfirst (R ++ [(x, r)]) w = rfirst R x.
Proof. by destruct R as [|[? ?] ?]. Qed.

Lemma lnodes_snoc L l x v : lnodes (L ++ [(l, x)]) v = lnodes L x ++ (x, SNode (root l) v (key x)) :: nodes l.
Proof.
  induction L as [|[l' x'] L IH]; cbn; [by rewrite app_nil_r|]. rewrite IH, lfirst_snoc. by rewrite <- app_assoc.
Qed.

Lemma rnodes_snoc R x r w : rnodes (R ++ [(x, r)]) w = rnodes R x ++ (x, SNode w (root r) (key x)) :: nodes r.
Proof.
  induction R as [|[x' r'] R IH]; cbn; [by rewrite app_nil_r|]. rewrite IH, rfirst_snoc. by rewrite <- app_assoc.
Qed.

Lemma llast_snoc L l x : llast (L ++ [(l, x)]) = x.
Proof. unfold llast. by rewrite last_snoc. Qed.

Lemma rlast_snoc R x r : rlast (R ++ [(x, r)]) = x.
Proof. unfold rlast. by rewrite last_snoc. Qed.

Lemma lflat_snoc L l x : lflat (L ++ [(l, x)]) = lflat L ++ inorder l ++ [x].
Proof. induction L as [|[l' x'] L IH]; cbn; [done|]. rewrite IH. by rewrite <- app_assoc. Qed.

Lemma rflat_snoc R x r : rflat (R ++ [(x, r)]) = x :: inorder r ++ rflat R.
Proof. induction R as [|[x' r'] R IH]; cbn; [by rewrite app_nil_r|]. rewrite IH. cbn. by rewrite <- app_assoc. Qed.

Lemma inorder_lplug L t : inorder (lplug L t) = lflat L ++ inorder t.
Proof. induction L as [|[l x] L IH]; cbn; [done|]. fold (lplug L t). rewrite IH. by rewrite <- app_assoc. Qed.

Lemma inorder_rplug R t : inorder (rplug R t) = inorder t ++ rflat R.
Proof. induction R as [|[x r] R IH]; cbn; [by rewrite app_nil_r|]. fold (rplug R t). rewrite IH. by rewrite <- app_assoc. Qed.

Lemma root_lplug L t : root (lplug L t) = lfirst L (root t).
Proof. by destruct L as [|[? ?] ?]. Qed.

Lemma root_rplug R t : root (rplug R t) = rfirst R (root t).
Proof. by destruct R as [|[? ?] ?]. Qed.

Lemma nodes_lplug L t : nodes (lplug L t) ≡ₚ lnodes L (root t) ++ nodes t.
Proof. induction L as [|[l x] L IH]; cbn; [done|]. fold (lplug L t). rewrite IH, root_lplug. solve_Permutation. Qed.

Lemma nodes_rplug R t : nodes (rplug R t) ≡ₚ rnodes R (root t) ++ nodes t.
Proof. induction R as [|[x r] R IH]; cbn; [done|]. fold (rplug R t). rewrite IH, root_rplug. solve_Permutation. Qed.

(** ** Reading and writing links *)

Lemma root_ok h rt : SPLAY_ROOT (SplayHead h rt) = Ret rt (SplayHead h rt).
Proof. done. Qed.

Lemma left_ok h0 h rt E p n : valid h0 h E → (p, n) ∈ E → SPLAY_LEFT p (SplayHead h rt) = Ret (spe_left n) (SplayHead h rt).
Proof. intros Hv Hin. unfold SPLAY_LEFT, on_sp, zoom, mbind, M_bind. cbn. by rewrite (load_ok _ _ _ (valid_lookup _ _ _ _ _ Hv Hin)). Qed.

Lemma right_ok h0 h rt E p n : valid h0 h E → (p, n) ∈ E → SPLAY_RIGHT p (SplayHead h rt) = Ret (spe_right n) (SplayHead h rt).
Proof. intros Hv Hin. unfold SPLAY_RIGHT, on_sp, zoom, mbind, M_bind. cbn. by rewrite (load_ok _ _ _ (valid_lookup _ _ _ _ _ Hv Hin)). Qed.

Lemma set_left_ok h0 h rt E p n E' q : valid h0 h E → E ≡ₚ (p, n) :: E' →
  ∃ h', set_left p q (SplayHead h rt) = Ret tt (SplayHead h' rt) ∧
    valid h0 h' ((p, SNode q (spe_right n) (sp_data n)) :: E').
Proof.
  intros Hv HE. rewrite HE in Hv. eexists. split; [|by eapply valid_update].
  unfold set_left, on_sp, zoom. cbn. by rewrite (update_ok _ _ _ _ (valid_lookup _ _ _ p n Hv ltac:(by left))).
Qed.

Lemma set_right_ok h0 h rt E p n E' q : valid h0 h E → E ≡ₚ (p, n) :: E' →
  ∃ h', set_right p q (SplayHead h rt) = Ret tt (SplayHead h' rt) ∧
    valid h0 h' ((p, SNode (spe_left n) q (sp_data n)) :: E').
Proof.
  intros Hv HE. rewrite HE in Hv. eexists. split; [|by eapply valid_update].
  unfold set_right, on_sp, zoom. cbn. by rewrite (update_ok _ _ _ _ (valid_lookup _ _ _ p n Hv ltac:(by left))).
Qed.

(** ** Rotations and links *)

Lemma rotate_right_ok h0 h C a y b x c :
  valid h0 h (C ++ nodes (Node (Node a y b) x c)) →
  ∃ h', SPLAY_ROTATE_RIGHT y (SplayHead h x) = Ret tt (SplayHead h' y) ∧ valid h0 h' (C ++ nodes (Node a y (Node b x c))).
Proof.
  intros Hv. unfold SPLAY_ROTATE_RIGHT. step (root_ok h x).
  step (right_ok h0 h x _ y (SNode (root a) (root b) (key y)) Hv ltac:(cbn; set_solver)). cbn [spe_right].
  destruct (set_left_ok h0 h x _ x (SNode y (root c) (key x))
    (C ++ (y, SNode (root a) (root b) (key y)) :: nodes a ++ nodes b ++ nodes c) (root b) Hv) as (h1 & E1 & Hv1); [cbn; solve_Permutation|].
  step E1. destruct (set_right_ok h0 h1 x _ y (SNode (root a) (root b) (key y))
    ((x, SNode (root b) (root c) (key x)) :: C ++ nodes a ++ nodes b ++ nodes c) x Hv1) as (h2 & E2 & Hv2); [cbn; solve_Permutation|].
  step E2. exists h2. split; [done|]. eapply valid_perm; [exact Hv2|]. cbn. solve_Permutation.
Qed.

Lemma rotate_left_ok h0 h C a x b y c :
  valid h0 h (C ++ nodes (Node a x (Node b y c))) →
  ∃ h', SPLAY_ROTATE_LEFT y (SplayHead h x) = Ret tt (SplayHead h' y) ∧ valid h0 h' (C ++ nodes (Node (Node a x b) y c)).
Proof.
  intros Hv. unfold SPLAY_ROTATE_LEFT. step (root_ok h x).
  step (left_ok h0 h x _ y (SNode (root b) (root c) (key y)) Hv ltac:(cbn; set_solver)). cbn [spe_left].
  destruct (set_right_ok h0 h x _ x (SNode (root a) y (key x))
    (C ++ (y, SNode (root b) (root c) (key y)) :: nodes a ++ nodes b ++ nodes c) (root b) Hv) as (h1 & E1 & Hv1); [cbn; solve_Permutation|].
  step E1. destruct (set_left_ok h0 h1 x _ y (SNode (root b) (root c) (key y))
    ((x, SNode (root a) (root b) (key x)) :: C ++ nodes a ++ nodes b ++ nodes c) x Hv1) as (h2 & E2 & Hv2); [cbn; solve_Permutation|].
  step E2. exists h2. split; [done|]. eapply valid_perm; [exact Hv2|]. cbn. solve_Permutation.
Qed.

(** Writing the open link at the end of the nodes after, or before, the path. *)
Lemma parts_rlast L v R w : ∃ n E, parts L v R w ≡ₚ (rlast R, n) :: E ∧
  ∀ q, parts L v R q ≡ₚ (rlast R, SNode q (spe_right n) (sp_data n)) :: E.
Proof.
  unfold parts. destruct R as [|[x r] R _] using rev_ind.
  - by eexists _, _.
  - rewrite rlast_snoc. exists (SNode w (root r) (key x)), ((__node, SNode (rfirst R x) (lfirst L v) junk) :: lnodes L v ++ rnodes R x ++ nodes r).
    rewrite rfirst_snoc, rnodes_snoc. split; [solve_Permutation|].
    intros q. rewrite rfirst_snoc, rnodes_snoc. cbn. solve_Permutation.
Qed.

Lemma parts_llast L v R w : ∃ n E, parts L v R w ≡ₚ (llast L, n) :: E ∧
  ∀ q, parts L q R w ≡ₚ (llast L, SNode (spe_left n) q (sp_data n)) :: E.
Proof.
  unfold parts. destruct L as [|[l x] L _] using rev_ind.
  - by eexists _, _.
  - rewrite llast_snoc. exists (SNode (root l) v (key x)), ((__node, SNode (rfirst R w) (lfirst L x) junk) :: lnodes L x ++ nodes l ++ rnodes R w).
    rewrite lfirst_snoc, lnodes_snoc. split; [solve_Permutation|].
    intros q. rewrite lfirst_snoc, lnodes_snoc. cbn. solve_Permutation.
Qed.

Lemma set_rlast h0 h rt L v R w E q : valid h0 h (parts L v R w ++ E) →
  ∃ h', set_left (rlast R) q (SplayHead h rt) = Ret tt (SplayHead h' rt) ∧ valid h0 h' (parts L v R q ++ E).
Proof.
  intros Hv. destruct (parts_rlast L v R w) as (n & E1 & H1 & H2). rewrite H1 in Hv.
  destruct (set_left_ok h0 h rt _ (rlast R) n (E1 ++ E) q Hv) as (h' & E' & Hv'); [done|].
  exists h'. split; [done|]. eapply valid_perm; [exact Hv'|]. by rewrite H2.
Qed.

Lemma set_llast h0 h rt L v R w E q : valid h0 h (parts L v R w ++ E) →
  ∃ h', set_right (llast L) q (SplayHead h rt) = Ret tt (SplayHead h' rt) ∧ valid h0 h' (parts L q R w ++ E).
Proof.
  intros Hv. destruct (parts_llast L v R w) as (n & E1 & H1 & H2). rewrite H1 in Hv.
  destruct (set_right_ok h0 h rt _ (llast L) n (E1 ++ E) q Hv) as (h' & E' & Hv'); [done|].
  exists h'. split; [done|]. eapply valid_perm; [exact Hv'|]. by rewrite H2.
Qed.

Lemma link_left_ok h0 h L v R w l x r : valid h0 h (parts L v R w ++ nodes (Node l x r)) →
  ∃ h', SPLAY_LINKLEFT (rlast R) (SplayHead h x) = Ret x (SplayHead h' (root l)) ∧
    valid h0 h' (parts L v (R ++ [(x, r)]) (root l) ++ nodes l).
Proof.
  intros Hv. unfold SPLAY_LINKLEFT. step (root_ok h x).
  destruct (set_rlast _ _ x _ _ _ _ _ x Hv) as (h1 & E1 & Hv1). step E1.
  step (left_ok h0 h1 x _ x (SNode (root l) (root r) (key x)) Hv1 ltac:(cbn; set_solver)).
  exists h1. split; [done|]. eapply valid_perm; [exact Hv1|]. unfold parts. rewrite rfirst_snoc, rnodes_snoc. cbn. solve_Permutation.
Qed.

Lemma link_right_ok h0 h L v R w l x r : valid h0 h (parts L v R w ++ nodes (Node l x r)) →
  ∃ h', SPLAY_LINKRIGHT (llast L) (SplayHead h x) = Ret x (SplayHead h' (root r)) ∧
    valid h0 h' (parts (L ++ [(l, x)]) (root r) R w ++ nodes r).
Proof.
  intros Hv. unfold SPLAY_LINKRIGHT. step (root_ok h x).
  destruct (set_llast _ _ x _ _ _ _ _ x Hv) as (h1 & E1 & Hv1). step E1.
  step (right_ok h0 h1 x _ x (SNode (root l) (root r) (key x)) Hv1 ltac:(cbn; set_solver)).
  exists h1. split; [done|]. eapply valid_perm; [exact Hv1|]. unfold parts. rewrite lfirst_snoc, lnodes_snoc. cbn. solve_Permutation.
Qed.

(** The parts become the subtrees of the root. *)
Lemma assemble_ok h0 h L v R w l x r : valid h0 h (parts L v R w ++ nodes (Node l x r)) →
  ∃ h' n, SPLAY_ASSEMBLE __node (llast L) (rlast R) (SplayHead h x) = Ret tt (SplayHead h' x) ∧
    valid h0 h' ((__node, n) :: nodes (Node (lplug L l) x (rplug R r))).
Proof.
  intros Hv. unfold SPLAY_ASSEMBLE. step (root_ok h x).
  step (left_ok h0 h x _ x (SNode (root l) (root r) (key x)) Hv ltac:(cbn; set_solver)). cbn [spe_left].
  destruct (set_llast _ _ x _ _ _ _ _ (root l) Hv) as (h1 & E1 & Hv1). step E1.
  step (right_ok h0 h1 x _ x (SNode (root l) (root r) (key x)) Hv1 ltac:(cbn; set_solver)). cbn [spe_right].
  destruct (set_rlast _ _ x _ _ _ _ _ (root r) Hv1) as (h2 & E2 & Hv2). step E2.
  set (n := SNode (rfirst R (root r)) (lfirst L (root l)) junk).
  step (right_ok h0 h2 x _ __node n Hv2 ltac:(unfold parts; set_solver)). cbn [spe_right n].
  destruct (set_left_ok h0 h2 x _ x (SNode (root l) (root r) (key x)) (parts L (root l) R (root r) ++ nodes l ++ nodes r)
    (lfirst L (root l)) Hv2) as (h3 & E3 & Hv3); [cbn; solve_Permutation|]. step E3.
  step (left_ok h0 h3 x _ __node n Hv3 ltac:(unfold parts; set_solver)). cbn [spe_left n].
  destruct (set_right_ok h0 h3 x _ x _ _ (rfirst R (root r)) Hv3 (Permutation_refl _)) as (h4 & E4 & Hv4).
  exists h4, n. split; [done|]. eapply valid_perm; [exact Hv4|]. cbn.
  rewrite nodes_lplug, nodes_rplug, root_lplug, root_rplug. fold n. solve_Permutation.
Qed.

(** ** The loop *)

(** The comparisons with the elements of a list go from positive to negative. *)
Definition splits (c : Z → Z) (xs : list Z) : Prop :=
  ∀ a x b, xs = a ++ x :: b → (c x ≤ 0 → Forall (λ y, c y < 0) b) ∧ (0 ≤ c x → Forall (λ y, 0 < c y) a).

Lemma splits_mid c a xs b : splits c (a ++ xs ++ b) → splits c xs.
Proof.
  intros H a' x b' ->. destruct (H (a ++ a') x (b' ++ b)) as [H1 H2]; [by rewrite <- !app_assoc|].
  split; intros Hx; [specialize (H1 Hx); apply Forall_app in H1 as [? _]; done|].
  specialize (H2 Hx). apply Forall_app in H2 as [_ ?]. done.
Qed.

Lemma splits_node c l x r : splits c (inorder (Node l x r)) →
  splits c (inorder l) ∧ splits c (inorder r) ∧
  (c x ≤ 0 → Forall (λ y, c y < 0) (inorder r)) ∧ (0 ≤ c x → Forall (λ y, 0 < c y) (inorder l)).
Proof.
  intros H. split; [by apply (splits_mid c [] (inorder l) (x :: inorder r))|].
  split; [apply (splits_mid c (inorder l ++ [x]) (inorder r) []); rewrite app_nil_r, <- app_assoc; exact H|].
  by destruct (H (inorder l) x (inorder r) eq_refl).
Qed.

(** All nodes but the one on the stack have their keys. *)
Definition keyed (E : list (Z * snode D)) : Prop := Forall (λ e, e.1 = __node ∨ sp_data e.2 = key e.1) E.

Lemma keyed_nodes t : keyed (nodes t).
Proof. induction t as [|l IHl x r IHr]; constructor; [by right|]. by apply Forall_app. Qed.

Lemma keyed_parts L v R w t : keyed (parts L v R w ++ nodes t).
Proof.
  apply Forall_app. split; [|apply keyed_nodes]. constructor; [by left|]. apply Forall_app. split.
  - induction L as [|[l x] L IH]; constructor; [by right|]. apply Forall_app. split; [apply keyed_nodes|done].
  - induction R as [|[x r] R IH]; constructor; [by right|]. apply Forall_app. split; [apply keyed_nodes|done].
Qed.

(** [comp] computes [c] on the nodes, whatever their links are. *)
Definition compares (h0 : gmap Z (snode D)) (comp : Z → M S Z) (c : Z → Z) : Prop :=
  ∀ h rt E x, valid h0 h E → keyed E → x ∈ E.*1 → x ≠ __node → comp x (SplayHead h rt) = Ret (c x) (SplayHead h rt).

Lemma compares_at h0 comp c h rt L v R w t x : compares h0 comp c → valid h0 h (parts L v R w ++ nodes t) → x ∈ inorder t →
  comp x (SplayHead h rt) = Ret (c x) (SplayHead h rt).
Proof.
  intros Hc Hv Hx. eapply Hc; [exact Hv|apply keyed_parts| |].
  - rewrite fmap_app, nodes_inorder. set_solver.
  - intros ->. pose proof (v_nodup _ _ _ Hv) as Hnd. rewrite fmap_app, nodes_inorder in Hnd. cbn in Hnd.
    apply NoDup_cons in Hnd as [Hnd _]. set_solver.
Qed.

(** Where the loop stops. *)
Definition stops (c : Z → Z) (l : tree) (x : Z) (r : tree) : Prop := c x = 0 ∨ (c x < 0 ∧ l = Leaf) ∨ (0 < c x ∧ r = Leaf).

Lemma root_null h0 h E t : valid h0 h (E ++ nodes t) → (root t =? NULL) = match t with Leaf => true | _ => false end.
Proof.
  intros Hv. destruct t as [|l x r]; [done|]. apply Z.eqb_neq. apply (valid_nonnull _ _ _ _ Hv). rewrite fmap_app. cbn. set_solver.
Qed.

Definition loop_result (h0 : gmap Z (snode D)) (c : Z → Z) L R (t : tree) (res : result S (Z * Z)) : Prop :=
  ∃ h' L' v' R' w' l x r, res = Ret (llast L', rlast R') (SplayHead h' x) ∧
    valid h0 h' (parts L' v' R' w' ++ nodes (Node l x r)) ∧ stops c l x r ∧
    lflat L' ++ inorder (Node l x r) ++ rflat R' = lflat L ++ inorder t ++ rflat R ∧
    (Forall (λ y, 0 < c y) (lflat L) → Forall (λ y, 0 < c y) (lflat L')) ∧
    (Forall (λ y, c y < 0) (rflat R) → Forall (λ y, c y < 0) (rflat R')).

Lemma loop_stops h0 c h L v R w l x r t :
  valid h0 h (parts L v R w ++ nodes (Node l x r)) → stops c l x r → inorder (Node l x r) = inorder t →
  loop_result h0 c L R t (Ret (llast L, rlast R) (SplayHead h x)).
Proof. intros Hv Hs E. exists h, L, v, R, w, l, x, r. rewrite E. by split_and!. Qed.

(** Nodes that go to one of the parts. *)
Lemma loop_linked_left h0 c L R x r l t res : loop_result h0 c L (R ++ [(x, r)]) l res →
  inorder t = inorder (Node l x r) → c x < 0 → Forall (λ y, c y < 0) (inorder r) → loop_result h0 c L R t res.
Proof.
  intros (h' & L' & v' & R' & w' & l' & x' & r' & E & Hv & Hs & Hi & HL & HR) Et Hx Hr.
  exists h', L', v', R', w', l', x', r'. split; [done|]. split; [done|]. split; [done|]. split; [|split; [done|]].
  - rewrite Hi, Et, rflat_snoc. cbn. by rewrite <- !app_assoc.
  - intros H. apply HR. rewrite rflat_snoc. constructor; [done|]. by apply Forall_app.
Qed.

Lemma loop_linked_right h0 c L R l x r t res : loop_result h0 c (L ++ [(l, x)]) R r res →
  inorder t = inorder (Node l x r) → 0 < c x → Forall (λ y, 0 < c y) (inorder l) → loop_result h0 c L R t res.
Proof.
  intros (h' & L' & v' & R' & w' & l' & x' & r' & E & Hv & Hs & Hi & HL & HR) Et Hx Hl.
  exists h', L', v', R', w', l', x', r'. split; [done|]. split; [done|]. split; [done|]. split; [|split; [|done]].
  - rewrite Hi, Et, lflat_snoc. cbn. by rewrite <- !app_assoc.
  - intros H. apply HL. rewrite lflat_snoc. apply Forall_app. split; [done|]. apply Forall_app. split; [done|]. by constructor.
Qed.
(** [fuel] iterations are enough for trees of at most that size. *)
Definition loop_ok h0 comp c (fuel : nat) : Prop := ∀ h L v R w t,
  splits c (inorder t) → t ≠ Leaf → (length (inorder t) ≤ fuel)%nat → valid h0 h (parts L v R w ++ nodes t) →
  loop_result h0 c L R t (splay_loop comp fuel (llast L) (rlast R) (SplayHead h (root t))).

Lemma null_left h0 h C l x r : valid h0 h (C ++ nodes (Node l x r)) →
  (root l =? NULL) = match l with Leaf => true | _ => false end.
Proof.
  intros Hv. eapply (root_null h0 h (C ++ (x, SNode (root l) (root r) (key x)) :: nodes r)).
  eapply valid_perm; [exact Hv|]. cbn. solve_Permutation.
Qed.

Lemma null_right h0 h C l x r : valid h0 h (C ++ nodes (Node l x r)) →
  (root r =? NULL) = match r with Leaf => true | _ => false end.
Proof.
  intros Hv. eapply (root_null h0 h (C ++ (x, SNode (root l) (root r) (key x)) :: nodes l)).
  eapply valid_perm; [exact Hv|]. cbn. solve_Permutation.
Qed.

Lemma loop_left h0 comp c fuel h L v R w l x r :
  compares h0 comp c → loop_ok h0 comp c fuel → c x < 0 → splits c (inorder (Node l x r)) →
  (length (inorder l) ≤ fuel)%nat → valid h0 h (parts L v R w ++ nodes (Node l x r)) →
  loop_result h0 c L R (Node l x r) (splay_loop comp (Datatypes.S fuel) (llast L) (rlast R) (SplayHead h x)).
Proof.
  intros Hc IH Hx Hs Hf Hv. destruct (splits_node c l x r Hs) as (Hsl & _ & Hr & _). specialize (Hr ltac:(lia)).
  cbn [splay_loop]. step (root_ok h x). step (compares_at h0 comp c h x _ _ _ _ _ x Hc Hv ltac:(cbn; set_solver)).
  rewrite (proj2 (Z.eqb_neq (c x) 0)), (proj2 (Z.ltb_lt (c x) 0)) by lia.
  step (left_ok h0 h x _ x (SNode (root l) (root r) (key x)) Hv ltac:(cbn; set_solver)). cbn [spe_left].
  rewrite (null_left _ _ _ _ _ _ Hv). destruct l as [|a y b]; [by eapply loop_stops; [exact Hv|right; left|]|].
  cbn [root]. step (compares_at h0 comp c h x _ _ _ _ _ y Hc Hv ltac:(cbn; set_solver)).
  destruct (Z.ltb_spec (c y) 0) as [Ey|Ey].
  - destruct (rotate_right_ok _ _ _ _ _ _ _ _ Hv) as (h1 & E1 & Hv1). step E1. step (root_ok h1 y).
    step (left_ok h0 h1 y _ y (SNode (root a) x (key y)) Hv1 ltac:(cbn; set_solver)). cbn [spe_left].
    rewrite (null_left _ _ _ _ _ _ Hv1). step (ret_ok (match a with Leaf => true | _ => false end) (SplayHead h1 y)).
    assert (inorder (Node a y (Node b x r)) = inorder (Node (Node a y b) x r)) as Ei by (cbn; by rewrite <- app_assoc).
    destruct (decide (a = Leaf)) as [->|Ha]; [by eapply loop_stops; [exact Hv1|right; left|]|].
    replace (match a with Leaf => true | _ => false end) with false by (by destruct a).
    destruct (link_left_ok _ _ _ _ _ _ _ _ _ Hv1) as (h2 & E2 & Hv2). step E2.
    destruct (splits_node c a y b Hsl) as (Hsa & _ & Hb & _).
    eapply (loop_linked_left h0 c L R y (Node b x r) a); [|done|done|].
    + pose proof (IH h2 L v (R ++ [(y, Node b x r)]) (root a) a Hsa Ha) as Hi. rewrite rlast_snoc in Hi. apply Hi; [|done].
      cbn [inorder] in Hf. rewrite length_app in Hf. lia.
    + cbn. apply Forall_app. split; [apply Hb; lia|]. by constructor.
  - step (ret_ok false (SplayHead h x)). destruct (link_left_ok _ _ _ _ _ _ _ _ _ Hv) as (h2 & E2 & Hv2). step E2.
    eapply (loop_linked_left h0 c L R x r (Node a y b)); [|done|done|done].
    pose proof (IH h2 L v (R ++ [(x, r)]) y (Node a y b) Hsl) as Hi. rewrite rlast_snoc in Hi. by apply Hi.
Qed.

Lemma loop_right h0 comp c fuel h L v R w l x r :
  compares h0 comp c → loop_ok h0 comp c fuel → 0 < c x → splits c (inorder (Node l x r)) →
  (length (inorder r) ≤ fuel)%nat → valid h0 h (parts L v R w ++ nodes (Node l x r)) →
  loop_result h0 c L R (Node l x r) (splay_loop comp (Datatypes.S fuel) (llast L) (rlast R) (SplayHead h x)).
Proof.
  intros Hc IH Hx Hs Hf Hv. destruct (splits_node c l x r Hs) as (_ & Hsr & _ & Hl). specialize (Hl ltac:(lia)).
  cbn [splay_loop]. step (root_ok h x). step (compares_at h0 comp c h x _ _ _ _ _ x Hc Hv ltac:(cbn; set_solver)).
  rewrite (proj2 (Z.eqb_neq (c x) 0)), (proj2 (Z.ltb_ge (c x) 0)) by lia.
  step (right_ok h0 h x _ x (SNode (root l) (root r) (key x)) Hv ltac:(cbn; set_solver)). cbn [spe_right].
  rewrite (null_right _ _ _ _ _ _ Hv). destruct r as [|a y b]; [by eapply loop_stops; [exact Hv|right; right|]|].
  cbn [root]. step (compares_at h0 comp c h x _ _ _ _ _ y Hc Hv ltac:(cbn; set_solver)).
  destruct (Z.ltb_spec 0 (c y)) as [Ey|Ey].
  - destruct (rotate_left_ok _ _ _ _ _ _ _ _ Hv) as (h1 & E1 & Hv1). step E1. step (root_ok h1 y).
    step (right_ok h0 h1 y _ y (SNode x (root b) (key y)) Hv1 ltac:(cbn; set_solver)). cbn [spe_right].
    rewrite (null_right _ _ _ _ _ _ Hv1). step (ret_ok (match b with Leaf => true | _ => false end) (SplayHead h1 y)).
    assert (inorder (Node (Node l x a) y b) = inorder (Node l x (Node a y b))) as Ei by (cbn; by rewrite <- app_assoc).
    destruct (decide (b = Leaf)) as [->|Hb]; [by eapply loop_stops; [exact Hv1|right; right|]|].
    replace (match b with Leaf => true | _ => false end) with false by (by destruct b).
    destruct (link_right_ok _ _ _ _ _ _ _ _ _ Hv1) as (h2 & E2 & Hv2). step E2.
    destruct (splits_node c a y b Hsr) as (_ & Hsb & _ & Ha).
    eapply (loop_linked_right h0 c L R (Node l x a) y b); [|done|done|].
    + pose proof (IH h2 (L ++ [(Node l x a, y)]) (root b) R w b Hsb Hb) as Hi. rewrite llast_snoc in Hi. apply Hi; [|done].
      cbn [inorder] in Hf. rewrite length_app in Hf. cbn in Hf. lia.
    + cbn. apply Forall_app. split; [done|]. constructor; [done|]. apply Ha. lia.
  - step (ret_ok false (SplayHead h x)). destruct (link_right_ok _ _ _ _ _ _ _ _ _ Hv) as (h2 & E2 & Hv2). step E2.
    eapply (loop_linked_right h0 c L R l x (Node a y b)); [|done|done|done].
    pose proof (IH h2 (L ++ [(l, x)]) y R w (Node a y b) Hsr) as Hi. rewrite llast_snoc in Hi. by apply Hi.
Qed.

Lemma splay_loop_spec h0 comp c fuel : compares h0 comp c → loop_ok h0 comp c fuel.
Proof.
  intros Hc. induction fuel as [|fuel IH]; intros h L v R w t Hs Ht Hf Hv; destruct t as [|l x r]; try done;
    cbn [inorder] in Hf; rewrite length_app in Hf; cbn [length] in Hf; [lia|].
  destruct (Z.lt_trichotomy (c x) 0) as [Hx|[Hx|Hx]].
  - apply (loop_left h0 comp c fuel h L v R w); [done..|lia|done].
  - cbn [splay_loop root]. step (root_ok h x). step (compares_at h0 comp c h x _ _ _ _ _ x Hc Hv ltac:(cbn; set_solver)).
    rewrite Hx. by eapply loop_stops; [exact Hv|left|].
  - apply (loop_right h0 comp c fuel h L v R w); [done..|lia|done].
Qed.

(** ** A splay *)

Lemma stops_split c L R l x r : splits c (lflat L ++ inorder (Node l x r) ++ rflat R) → stops c l x r →
  Forall (λ y, 0 < c y) (lflat L) → Forall (λ y, c y < 0) (rflat R) →
  Forall (λ y, 0 < c y) (inorder (lplug L l)) ∧ Forall (λ y, c y < 0) (inorder (rplug R r)).
Proof.
  intros Hs Hstop HL HR. rewrite inorder_lplug, inorder_rplug, !Forall_app.
  destruct (splits_node c l x r (splits_mid c _ _ _ Hs)) as (_ & _ & Hr & Hl).
  destruct Hstop as [Hx|[[Hx ->]|[Hx ->]]]; split_and!; try done; try (constructor; done); (apply Hl || apply Hr); lia.
Qed.

Definition stack_free (h : gmap Z (snode D)) : Prop := h !! __node = None ∧ __node ≠ NULL.

Lemma splay_with_spec h comp c t :
  stack_free h → valid h h (nodes t) → t ≠ Leaf → splits c (inorder t) →
  compares (<[__node := SNode NULL NULL junk]> h) comp c →
  ∃ h' l x r, splay_with comp (SplayHead h (root t)) = Ret tt (SplayHead h' x) ∧ valid h h' (nodes (Node l x r)) ∧
    inorder (Node l x r) = inorder t ∧ Forall (λ y, 0 < c y) (inorder l) ∧ Forall (λ y, c y < 0) (inorder r).
Proof.
  intros [Hn Hn0] Hv Ht Hs Hc. unfold splay_with.
  pose proof (valid_push h __node (SNode NULL NULL junk) _ Hv Hn Hn0) as Hv1. set (h1 := <[__node := _]> h) in *.
  step (eq_refl : on_sp (modify (insert __node (SNode NULL NULL junk))) (SplayHead h (root t)) = Ret tt (SplayHead h1 (root t))).
  step (eq_refl : on_sp fuel_of_heap (SplayHead h1 (root t)) = Ret (Datatypes.S (size h1)) (SplayHead h1 (root t))).
  pose proof (valid_size _ _ _ Hv1) as Hsz. cbn in Hsz. rewrite <- (length_fmap fst), nodes_inorder in Hsz.
  destruct (splay_loop_spec h1 comp c (Datatypes.S (size h1)) Hc h1 [] NULL [] NULL t Hs Ht ltac:(lia) Hv1)
    as (h2 & L & v & R & w & l & x & r & E & Hv2 & Hst & Hi & HL & HR). cbn [lflat rflat] in Hi. rewrite app_nil_r in Hi. cbn in Hi.
  change (llast []) with __node in E. change (rlast []) with __node in E. step E. cbn beta iota.
  destruct (assemble_ok _ _ _ _ _ _ _ _ _ Hv2) as (h3 & n & E3 & Hv3). step E3.
  exists (delete __node h3), (lplug L l), x, (rplug R r). split; [done|].
  split; [by eapply valid_pop|]. split.
  - cbn. rewrite inorder_lplug, inorder_rplug. rewrite <- Hi, <- !app_assoc. done.
  - apply stops_split with x; [by rewrite <- Hi in Hs|done|by apply HL|by apply HR].
Qed.

(** The functions for the ends of the tree make the same moves, with every
    comparison giving the same result. *)
Lemma bind_ext {A B} (m : M S A) (k k' : A → M S B) s : (∀ a s, k a s = k' a s) → (m ≫= k) s = (m ≫= k') s.
Proof. intros H. unfold mbind, M_bind. destruct (m s); [apply H|done..]. Qed.

Lemma minmax_loop_eq v fuel a b s : v ≠ 0 → minmax_loop v fuel a b s = splay_loop (λ _, mret v) fuel a b s.
Proof.
  intros Hv. revert a b s. induction fuel as [|fuel IH]; intros a b s; [done|]. cbn [minmax_loop splay_loop].
  apply bind_ext. clear s. intros p s. rewrite (bind_ret (mret v) _ _ _ _ (ret_ok v s)). rewrite (proj2 (Z.eqb_neq v 0) Hv).
  destruct (Z.ltb_spec v 0) as [Hn|Hp].
  - apply bind_ext. clear s. intros q s. destruct (q =? NULL); [done|]. rewrite (bind_ret (mret v) _ _ _ _ (ret_ok v s)).
    rewrite (proj2 (Z.ltb_lt v 0) Hn). apply bind_ext. clear s. intros [] s; [done|]. apply bind_ext. intros; apply IH.
  - rewrite (proj2 (Z.ltb_lt 0 v)) by lia. apply bind_ext. clear s. intros q s. destruct (q =? NULL); [done|]. rewrite (bind_ret (mret v) _ _ _ _ (ret_ok v s)).
    rewrite (proj2 (Z.ltb_lt 0 v)) by lia. apply bind_ext. clear s. intros [] s; [done|]. apply bind_ext. intros; apply IH.
Qed.

Lemma SPLAY_MINMAX_eq v s : v ≠ 0 → SPLAY_MINMAX v s = splay_with (λ _, mret v) s.
Proof.
  intros Hv. unfold SPLAY_MINMAX, splay_with. apply bind_ext. intros _ s1. apply bind_ext. intros fuel s2.
  unfold mbind at 1 3, M_bind. by rewrite minmax_loop_eq.
Qed.

(** ** The operations *)

Context `{!TotalCmp cmp}.

(** The structs of the heap: none at null or at the place on the stack, and
    each with its key. *)
Record env (h : gmap Z (snode D)) : Prop := {
  env_stack : stack_free h;
  env_null : h !! NULL = None;
  env_key : ∀ q n, h !! q = Some n → sp_data n = key q
}.

Definition same_structs (h h' : gmap Z (snode D)) : Prop := ∀ q, is_Some (h' !! q) ↔ is_Some (h !! q).

Lemma env_keep h h' E : env h → valid h h' E → Forall (λ e, sp_data e.2 = key e.1 ∧ is_Some (h !! e.1)) E →
  env h' ∧ same_structs h h'.
Proof.
  intros [[Hs Hs0] Hn Hk] Hv HE. rewrite Forall_forall in HE.
  assert (same_structs h h') as Hss.
  { intros q. destruct (decide (q ∈ E.*1)) as [Hq|Hq]; [|by rewrite (v_rest _ _ _ Hv q Hq)].
    apply list_elem_of_fmap in Hq as ([p n] & -> & Hin). cbn. rewrite (valid_lookup _ _ _ _ _ Hv Hin).
    specialize (HE _ Hin). cbn in HE. naive_solver. }
  split; [split|done].
  - split; [|done]. apply eq_None_not_Some. rewrite (Hss __node), Hs. by intros [].
  - apply eq_None_not_Some. rewrite (Hss NULL), Hn. by intros [].
  - intros q n Hq. destruct (decide (q ∈ E.*1)) as [Hin|Hin]; [|rewrite (v_rest _ _ _ Hv q Hin) in Hq; by apply Hk].
    apply list_elem_of_fmap in Hin as ([p m] & -> & Hin). cbn in *. rewrite (valid_lookup _ _ _ _ _ Hv Hin) in Hq.
    simplify_eq. by specialize (HE _ Hin) as [? _].
Qed.

(** The trees of before and after have the same addresses. *)
Lemma env_tree h h' E t : env h → valid h h E → valid h h' (nodes t) → inorder t ⊆ E.*1 → env h' ∧ same_structs h h'.
Proof.
  intros He Hv Hv' Hsub. eapply env_keep; [done|exact Hv'|]. apply Forall_forall. intros [p n] Hin. cbn. split.
  - pose proof (keyed_nodes t) as Hk. unfold keyed in Hk. rewrite Forall_forall in Hk. destruct (Hk _ Hin) as [Hp|Hp]; [|done].
    cbn in Hp. subst p. exfalso. destruct He as [[Hs _] _ _].
    assert (__node ∈ E.*1) as Hp. { apply Hsub. rewrite <- nodes_inorder. by apply (list_elem_of_fmap_2 fst _ (__node, n)). }
    apply list_elem_of_fmap in Hp as ([q m] & E1 & Hq). cbn in E1. subst q. rewrite (valid_lookup _ _ _ _ _ Hv Hq) in Hs. done.
  - assert (p ∈ E.*1) as Hp. { apply Hsub. rewrite <- nodes_inorder. by apply (list_elem_of_fmap_2 fst _ (p, n)). }
    apply list_elem_of_fmap in Hp as ([q m] & -> & Hq). cbn. rewrite (valid_lookup _ _ _ _ _ Hv Hq). by eexists.
Qed.

Lemma compare_ok h rt a b : env h → is_Some (h !! a) → is_Some (h !! b) →
  compare a b (SplayHead h rt) = Ret (cmp (key a) (key b)) (SplayHead h rt).
Proof.
  intros He [n Ha] [m Hb]. unfold compare, on_sp, zoom, mbind, M_bind. cbn. rewrite (load_ok _ _ _ Ha). cbn.
  rewrite (load_ok _ _ _ Hb). cbn. by rewrite (env_key _ He _ _ Ha), (env_key _ He _ _ Hb).
Qed.

Lemma compares_elm h e : env h → is_Some (h !! e) →
  compares (<[__node := SNode NULL NULL junk]> h) (compare e) (λ x, cmp (key e) (key x)).
Proof.
  intros He [n Hn] h1 rt E x Hv Hk Hx Hxn. destruct (env_stack _ He) as [Hs _].
  assert (∀ q, q ∈ E.*1 → q ≠ __node → ∃ m, h1 !! q = Some m ∧ sp_data m = key q) as Hq.
  { intros q ([p m] & -> & Hin)%list_elem_of_fmap Hne. exists m. split; [exact (valid_lookup _ _ _ _ _ Hv Hin)|].
    unfold keyed in Hk. rewrite Forall_forall in Hk. by destruct (Hk _ Hin). }
  destruct (Hq x Hx Hxn) as (m & Hm & Em).
  assert (∃ m, h1 !! e = Some m ∧ sp_data m = key e) as (k & Hke & Ek).
  { assert (e ≠ __node) by congruence. destruct (decide (e ∈ E.*1)) as [Hin|Hin]; [by apply Hq|].
    exists n. rewrite (v_rest _ _ _ Hv e Hin), lookup_insert_ne by done. split; [done|]. by apply (env_key _ He). }
  unfold compare, on_sp, zoom, mbind, M_bind. cbn. rewrite (load_ok _ _ _ Hke). cbn. rewrite (load_ok _ _ _ Hm). cbn. by rewrite Ek, Em.
Qed.

Lemma sorted_splits e xs : sorted cmp key xs → splits (λ x, cmp (key e) (key x)) xs.
Proof.
  intros Hs a x b ->. apply sorted_mid in Hs as (_ & _ & Hb & Ha & _). unfold all_before, all_after in *. split; intros Hx.
  - eapply Forall_impl; [exact Ha|]. intros y Hy. by apply (cmp_le_lt_trans cmp _ (key x)).
  - eapply Forall_impl; [exact Hb|]. intros y Hy. cbv beta in *. apply (cmp_lt_gt cmp). apply (cmp_lt_le_trans cmp _ (key x)); [done|].
    by apply (cmp_le_ge cmp).
Qed.

(** A splay brings the place of [e] to the root. *)
Lemma splay_elm h e t : env h → is_Some (h !! e) → valid h h (nodes t) → t ≠ Leaf → sorted cmp key (inorder t) →
  ∃ h' l x r, SPLAY e (SplayHead h (root t)) = Ret tt (SplayHead h' x) ∧ valid h h' (nodes (Node l x r)) ∧
    inorder (Node l x r) = inorder t ∧ all_before cmp key (inorder l) e ∧ all_after cmp key e (inorder r) ∧
    env h' ∧ same_structs h h'.
Proof.
  intros He Hh Hv Ht Hs.
  destruct (splay_with_spec h (compare e) _ t (env_stack _ He) Hv Ht (sorted_splits e _ Hs) (compares_elm h e He Hh))
    as (h' & l & x & r & E & Hv' & Hi & Hl & Hr).
  exists h', l, x, r. split; [done|]. split; [done|]. split; [done|]. split; [|split; [done|]].
  - eapply Forall_impl; [exact Hl|]. intros y Hy. by apply (cmp_lt_gt cmp).
  - eapply (env_tree h h' (nodes t)); [done|done|exact Hv'|]. rewrite Hi, nodes_inorder. done.
Qed.

(** [s] holds the set [xs], in order. *)
Definition splay_rep (s : S) (xs : list Z) : Prop :=
  env (sp_heap s) ∧ sorted cmp key xs ∧ ∃ t, valid (sp_heap s) (sp_heap s) (nodes t) ∧ inorder t = xs ∧ sph_root s = root t.

Definition outcome (s : S) (xs' : list Z) (a : list Z) (res : result S (list Z)) : Prop :=
  ∃ s', res = Ret a s' ∧ splay_rep s' xs' ∧ same_structs (sp_heap s) (sp_heap s').

Definition one (m : M S Z) : M S (list Z) := a ← m; mret [a].

Lemma tree_struct h t x : valid h h (nodes t) → x ∈ inorder t → is_Some (h !! x).
Proof.
  intros Hv Hx. rewrite <- nodes_inorder in Hx. apply list_elem_of_fmap in Hx as ([p n] & -> & Hin).
  exists n. exact (valid_lookup _ _ _ _ _ Hv Hin).
Qed.

Lemma empty_ok h t : valid h h (nodes t) → SPLAY_EMPTY (SplayHead h (root t)) = Ret (match t with Leaf => true | _ => false end) (SplayHead h (root t)).
Proof. intros Hv. unfold SPLAY_EMPTY. step (root_ok h (root t)). by rewrite (root_null h h [] t Hv). Qed.

Lemma same_structs_refl h : same_structs h h.
Proof. done. Qed.

Lemma same_structs_trans h1 h2 h3 : same_structs h1 h2 → same_structs h2 h3 → same_structs h1 h3.
Proof. intros H1 H2 q. by rewrite (H2 q). Qed.

Lemma rep_intro h t : env h → valid h h (nodes t) → sorted cmp key (inorder t) → splay_rep (SplayHead h (root t)) (inorder t).
Proof. intros He Hv Hs. split; [done|]. split; [done|]. by exists t. Qed.

Lemma all_before_not l e : all_before cmp key l e → e ∉ l.
Proof. intros H Hin. apply (proj1 (Forall_forall _ _)) with (x := e) in H; [|done]. rewrite (cmp_refl cmp) in H. lia. Qed.

Lemma all_after_not e r : all_after cmp key e r → e ∉ r.
Proof. intros H Hin. apply (proj1 (Forall_forall _ _)) with (x := e) in H; [|done]. rewrite (cmp_refl cmp) in H. lia. Qed.

Lemma find_spec s xs e : splay_rep s xs → is_Some (sp_heap s !! e) → outcome s xs [ptr (same_key cmp key e xs)] (one (SPLAY_FIND e) s).
Proof.
  destruct s as [h rt]. cbn. intros (He & Hs & t & Hv & <- & Hr) Hh. cbn in He, Hv, Hr, Hh. subst rt.
  unfold one, SPLAY_FIND. step (empty_ok h t Hv). destruct (decide (t = Leaf)) as [->|Ht].
  { exists (SplayHead h NULL). split; [done|]. split; [by apply (rep_intro h Leaf)|apply same_structs_refl]. }
  replace (match t with Leaf => true | _ => false end) with false by (by destruct t).
  destruct (splay_elm h e t He Hh Hv Ht Hs) as (h' & l & x & r & E & Hv' & Hi & Hl & Hr & He' & Hss). step E. step (root_ok h' x).
  pose proof (valid_rebase _ _ _ Hv') as Hv1.
  step (compare_ok h' x e x He' (proj2 (Hss e) Hh) (tree_struct h' _ x Hv1 ltac:(cbn; set_solver))).
  exists (SplayHead h' x). rewrite <- Hi in Hs |- *. split; [|split; [by apply (rep_intro h' (Node l x r))|done]]. cbn [inorder].
  destruct (Z.eqb_spec (cmp (key e) (key x)) 0) as [Hc|Hc]; [by rewrite same_key_some|].
  unfold same_key. apply (filters_before cmp key) in Hl as (_ & _ & Hl & _). apply (filters_after cmp key) in Hr as (_ & _ & Hr & _).
  rewrite filter_app, filter_cons_False, Hl, Hr by done. done.
Qed.

(** The struct of a new element is not part of the tree. *)
Lemma own_elm h l x r e n : env h → valid h h (nodes (Node l x r)) → h !! e = Some n → cmp (key e) (key x) ≠ 0 →
  all_before cmp key (inorder l) e → all_after cmp key e (inorder r) → valid h h ((e, n) :: nodes (Node l x r)).
Proof.
  intros He Hv Hn Hc Hl Hr. apply valid_own; [done|done| |].
  - intros ->. rewrite (env_null _ He) in Hn. done.
  - rewrite nodes_inorder. cbn. pose proof (all_before_not _ _ Hl). pose proof (all_after_not _ _ Hr).
    intros [?|[->|?]%elem_of_cons]%elem_of_app; [done| |done]. by rewrite (cmp_refl cmp) in Hc.
Qed.

Lemma insert_before h l x r e : env h → is_Some (h !! e) → valid h h (nodes (Node l x r)) → cmp (key e) (key x) < 0 →
  all_before cmp key (inorder l) e → all_after cmp key e (inorder r) →
  ∃ h', (l ← SPLAY_LEFT x; set_left e l;; set_right e x;; set_left x NULL;; set_root e;; mret NULL) (SplayHead h x) =
      Ret NULL (SplayHead h' e) ∧ valid h h' (nodes (Node l e (Node Leaf x r))).
Proof.
  intros He [n Hn] Hv Hc Hl Hr. step (left_ok h h x _ x (SNode (root l) (root r) (key x)) Hv ltac:(cbn; set_solver)). cbn [spe_left].
  pose proof (own_elm h l x r e n He Hv Hn ltac:(lia) Hl Hr) as Hv0.
  destruct (set_left_ok _ _ x _ e n _ (root l) Hv0 (Permutation_refl _)) as (h1 & E1 & Hv1). step E1.
  destruct (set_right_ok _ _ x _ e _ _ x Hv1 (Permutation_refl _)) as (h2 & E2 & Hv2). step E2. cbn [spe_left spe_right sp_data] in Hv2.
  rewrite (env_key _ He _ _ Hn) in Hv2.
  destruct (set_left_ok _ _ x _ x (SNode (root l) (root r) (key x)) ((e, SNode (root l) x (key e)) :: nodes l ++ nodes r) NULL Hv2)
    as (h3 & E3 & Hv3); [cbn; solve_Permutation|]. step E3.
  exists h3. split; [done|]. eapply valid_perm; [exact Hv3|]. cbn. solve_Permutation.
Qed.

Lemma insert_after h l x r e : env h → is_Some (h !! e) → valid h h (nodes (Node l x r)) → 0 < cmp (key e) (key x) →
  all_before cmp key (inorder l) e → all_after cmp key e (inorder r) →
  ∃ h', (r ← SPLAY_RIGHT x; set_right e r;; set_left e x;; set_right x NULL;; set_root e;; mret NULL) (SplayHead h x) =
      Ret NULL (SplayHead h' e) ∧ valid h h' (nodes (Node (Node l x Leaf) e r)).
Proof.
  intros He [n Hn] Hv Hc Hl Hr. step (right_ok h h x _ x (SNode (root l) (root r) (key x)) Hv ltac:(cbn; set_solver)). cbn [spe_right].
  pose proof (own_elm h l x r e n He Hv Hn ltac:(lia) Hl Hr) as Hv0.
  destruct (set_right_ok _ _ x _ e n _ (root r) Hv0 (Permutation_refl _)) as (h1 & E1 & Hv1). step E1.
  destruct (set_left_ok _ _ x _ e _ _ x Hv1 (Permutation_refl _)) as (h2 & E2 & Hv2). step E2. cbn [spe_left spe_right sp_data] in Hv2.
  rewrite (env_key _ He _ _ Hn) in Hv2.
  destruct (set_right_ok _ _ x _ x (SNode (root l) (root r) (key x)) ((e, SNode x (root r) (key e)) :: nodes l ++ nodes r) NULL Hv2)
    as (h3 & E3 & Hv3); [cbn; solve_Permutation|]. step E3.
  exists h3. split; [done|]. eapply valid_perm; [exact Hv3|]. cbn. solve_Permutation.
Qed.

(** The end of an operation that leaves the tree [t'], of nodes that were there. *)
Lemma outcome_tree s h1 h' t' E a : env h1 → same_structs (sp_heap s) h1 → valid h1 h1 E → valid h1 h' (nodes t') →
  inorder t' ⊆ E.*1 → sorted cmp key (inorder t') → outcome s (inorder t') a (Ret a (SplayHead h' (root t'))).
Proof.
  intros He Hss Hv Hv' Hsub Hs. destruct (env_tree h1 h' E t' He Hv Hv' Hsub) as [He' Hss'].
  eexists. split; [done|]. split; [apply rep_intro; [done|by eapply valid_rebase|done]|by eapply same_structs_trans].
Qed.

Lemma insert_empty h e : env h → is_Some (h !! e) → ∃ h',
  (set_right e NULL;; set_left e NULL;; set_root e;; mret NULL) (SplayHead h NULL) = Ret NULL (SplayHead h' e) ∧
    valid h h' (nodes (Node Leaf e Leaf)) ∧ valid h h [(e, default (SNode 0 0 junk) (h !! e))].
Proof.
  intros He [n Hn]. assert (valid h h [(e, n)]) as Hv.
  { apply valid_own; [by apply valid_same; [constructor|constructor|apply not_elem_of_nil]|done| |apply not_elem_of_nil].
    intros ->. by rewrite (env_null _ He) in Hn. }
  destruct (set_right_ok _ _ NULL _ e n [] NULL Hv (Permutation_refl _)) as (h1 & E1 & Hv1). step E1.
  destruct (set_left_ok _ _ NULL _ e _ [] NULL Hv1 (Permutation_refl _)) as (h2 & E2 & Hv2). step E2.
  exists h2. split; [done|]. cbn in Hv2. rewrite (env_key _ He _ _ Hn) in Hv2. split; [exact Hv2|by rewrite Hn].
Qed.

Lemma insert_spec s xs e : splay_rep s xs → is_Some (sp_heap s !! e) →
  outcome s (inserted cmp key e xs) [ptr (same_key cmp key e xs)] (one (SPLAY_INSERT e) s).
Proof.
  destruct s as [h rt]. cbn. intros (He & Hs & t & Hv & <- & Hr) Hh. cbn in He, Hv, Hr, Hh. subst rt.
  unfold one, SPLAY_INSERT. step (empty_ok h t Hv). destruct (decide (t = Leaf)) as [->|Ht].
  { destruct (insert_empty h e He Hh) as (h' & E & Hv' & Hv0). cbn [root]. rewrite (bind_ret _ _ _ _ _ E).
    apply (outcome_tree (SplayHead h NULL) h h' (Node Leaf e Leaf) _ [NULL] He (same_structs_refl h) Hv0 Hv'); [done|].
    constructor; constructor. }
  replace (match t with Leaf => true | _ => false end) with false by (by destruct t).
  destruct (splay_elm h e t He Hh Hv Ht Hs) as (h1 & l & x & r & E & Hv' & Hi & Hl & Hr & He1 & Hss). step E. step (root_ok h1 x).
  pose proof (valid_rebase _ _ _ Hv') as Hv1. pose proof (proj2 (Hss e) Hh) as Hh1.
  step (compare_ok h1 x e x He1 Hh1 (tree_struct h1 _ x Hv1 ltac:(cbn; set_solver))).
  rewrite <- Hi in Hs |- *. destruct Hh1 as [n Hn].
  destruct (Z.ltb_spec (cmp (key e) (key x)) 0) as [Hc|Hc]; [|destruct (Z.ltb_spec 0 (cmp (key e) (key x))) as [Hc'|Hc']].
  - destruct (insert_before h1 l x r e He1 ltac:(by eexists) Hv1 Hc Hl Hr) as (h2 & E2 & Hv2). rewrite (bind_ret _ _ _ _ _ E2).
    assert (all_after cmp key e (x :: inorder r)) as Hr' by (by constructor).
    cbn [inorder]. rewrite same_key_none, inserted_new by done.
    apply (outcome_tree (SplayHead h (root t)) h1 h2 (Node l e (Node Leaf x r)) _ [NULL] He1 Hss (own_elm h1 l x r e n He1 Hv1 Hn ltac:(lia) Hl Hr) Hv2).
    + cbn. rewrite fmap_app, !nodes_inorder. set_solver.
    + by apply sorted_insert.
  - destruct (insert_after h1 l x r e He1 ltac:(by eexists) Hv1 Hc' Hl Hr) as (h2 & E2 & Hv2). rewrite (bind_ret _ _ _ _ _ E2).
    assert (all_before cmp key (inorder l ++ [x]) e) as Hl'.
    { apply Forall_app. split; [done|]. constructor; [|constructor]. by apply (cmp_lt_gt cmp). }
    cbn [inorder] in Hs |- *. replace (inorder l ++ x :: inorder r) with ((inorder l ++ [x]) ++ inorder r) in Hs |- * by (by rewrite <- app_assoc).
    rewrite same_key_none, inserted_new by done.
    pose proof (outcome_tree (SplayHead h (root t)) h1 h2 (Node (Node l x Leaf) e r) _ [NULL] He1 Hss (own_elm h1 l x r e n He1 Hv1 Hn ltac:(lia) Hl Hr) Hv2) as Ho.
    cbn [inorder root] in Ho. apply Ho; [|by apply sorted_insert]. cbn. rewrite fmap_app, !nodes_inorder. set_solver.
  - cbn [inorder] in Hs |- *. assert (cmp (key e) (key x) = 0) as H0 by lia.
    pose proof (same_key_some cmp key (inorder l) e x (inorder r) Hl H0) as Hk. rewrite Hk.
    rewrite (inserted_old cmp key _ _ x) by exact Hk.
    exists (SplayHead h1 x). split; [done|]. split; [by apply (rep_intro h1 (Node l x r))|done].
Qed.

(** The two subtrees of the removed root are joined at the last node of the left one. *)
Lemma remove_join h l x r e : env h → is_Some (h !! e) → valid h h (nodes (Node l x r)) → l ≠ Leaf →
  sorted cmp key (inorder l) → all_before cmp key (inorder l) e →
  ∃ h' t', (__tmp ← SPLAY_RIGHT x; set_root (root l);; SPLAY e;; root ← SPLAY_ROOT; set_right root __tmp) (SplayHead h x) =
      Ret tt (SplayHead h' (root t')) ∧ valid h h' ((x, SNode (root l) (root r) (key x)) :: nodes t') ∧
      inorder t' = inorder l ++ inorder r.
Proof.
  intros He Hh Hv Hl Hs Hb. step (right_ok h h x _ x (SNode (root l) (root r) (key x)) Hv ltac:(cbn; set_solver)). cbn [spe_right].
  step (eq_refl : set_root (root l) (SplayHead h x) = Ret tt (SplayHead h (root l))).
  assert (valid h h (((x, SNode (root l) (root r) (key x)) :: nodes r) ++ nodes l)) as Hv0.
  { eapply valid_perm; [exact Hv|]. cbn. solve_Permutation. }
  destruct (splay_elm h e l He Hh (valid_drop _ _ _ _ Hv0) Hl Hs) as (h1 & a & y & b & E & Hv1 & Hi & _ & Ha & _ & _). step E.
  assert (b = Leaf) as ->.
  { destruct b as [|b1 z b2]; [done|]. exfalso. unfold all_before, all_after in Hb, Ha. rewrite <- Hi, Forall_forall in Hb.
    rewrite Forall_forall in Ha. specialize (Hb z ltac:(cbn; set_solver)). specialize (Ha z ltac:(cbn; set_solver)). cbv beta in *.
    apply (cmp_lt_gt cmp) in Hb. lia. }
  assert (valid h h1 (nodes (Node a y Leaf) ++ (x, SNode (root l) (root r) (key x)) :: nodes r)) as Hv2.
  { eapply (valid_frame h h1 (nodes l)); [|exact Hv1|by rewrite !nodes_inorder, Hi]. eapply valid_perm; [exact Hv0|]. cbn. solve_Permutation. }
  step (root_ok h1 y).
  destruct (set_right_ok _ _ y _ y (SNode (root a) NULL (key y)) (nodes a ++ (x, SNode (root l) (root r) (key x)) :: nodes r) (root r) Hv2)
    as (h3 & E3 & Hv3); [cbn; solve_Permutation|].
  exists h3, (Node a y r). split; [exact E3|]. split; [eapply valid_perm; [exact Hv3|]; cbn; solve_Permutation|].
  rewrite <- Hi. cbn. by rewrite <- app_assoc.
Qed.

Lemma remove_found s h1 l x r e : env h1 → same_structs (sp_heap s) h1 → is_Some (h1 !! e) → valid h1 h1 (nodes (Node l x r)) →
  sorted cmp key (inorder (Node l x r)) → all_before cmp key (inorder l) e →
  outcome s (inorder l ++ inorder r) [e] (((l ← SPLAY_LEFT x;
    (if l =? NULL then r ← SPLAY_RIGHT x; set_root r
     else __tmp ← SPLAY_RIGHT x; set_root l;; SPLAY e;; root ← SPLAY_ROOT; set_right root __tmp);; mret e) ≫= λ a, mret [a]) (SplayHead h1 x)).
Proof.
  intros He Hss Hh Hv Hs Hb. step (left_ok h1 h1 x _ x (SNode (root l) (root r) (key x)) Hv ltac:(cbn; set_solver)). cbn [spe_left].
  rewrite (null_left h1 h1 [] l x r Hv). destruct (sorted_mid cmp key (inorder l) x (inorder r)) as [Hm _]. destruct (Hm Hs) as (Hsl & Hsr & _).
  destruct (decide (l = Leaf)) as [->|Hl].
  - step (right_ok h1 h1 x _ x (SNode NULL (root r) (key x)) Hv ltac:(cbn; set_solver)). cbn [spe_right].
    step (eq_refl : set_root (root r) (SplayHead h1 x) = Ret tt (SplayHead h1 (root r))).
    assert (valid h1 h1 (nodes r)) as Hr by (by apply (valid_drop h1 h1 [(x, SNode NULL (root r) (key x))])).
    apply (outcome_tree s h1 h1 r (nodes r) [e]); try done. by rewrite nodes_inorder.
  - replace (match l with Leaf => true | _ => false end) with false by (by destruct l).
    destruct (remove_join h1 l x r e He Hh Hv Hl Hsl Hb) as (h2 & t' & E & Hv2 & Hi). rewrite bind_assoc, (bind_ret _ _ _ _ _ E).
    rewrite <- Hi. assert (env h2 ∧ same_structs h1 h2) as [He2 Hss2].
    { eapply env_keep; [exact He|exact Hv2|]. constructor.
      - split; [done|]. by apply (tree_struct h1 (Node l x r)); [|cbn; set_solver].
      - apply Forall_forall. intros [p n] Hin. cbn. assert (p ∈ inorder t') as Hp.
        { rewrite <- nodes_inorder. by apply (list_elem_of_fmap_2 fst _ (p, n)). }
        assert (is_Some (h1 !! p)) as Hps by (apply (tree_struct h1 (Node l x r) p Hv); rewrite Hi in Hp; cbn; set_solver).
        split; [|done]. pose proof (keyed_nodes t') as Hk. unfold keyed in Hk. rewrite Forall_forall in Hk.
        destruct (Hk _ Hin) as [Hpn|Hk']; [|done]. cbn in Hpn. subst p. rewrite (proj1 (env_stack _ He)) in Hps. by destruct Hps. }
    eexists. split; [done|]. split; [|by eapply same_structs_trans]. apply rep_intro; [done| |].
    + by apply (valid_drop h1 h2 [(x, SNode (root l) (root r) (key x))]).
    + rewrite Hi. by apply sorted_delete with x.
Qed.

(** The struct given is what is returned, also when another one has its key. *)
Lemma remove_spec s xs e : splay_rep s xs → is_Some (sp_heap s !! e) →
  outcome s (removed cmp key e xs) [match same_key cmp key e xs with Some _ => e | None => NULL end] (one (SPLAY_REMOVE e) s).
Proof.
  destruct s as [h rt]. cbn. intros (He & Hs & t & Hv & <- & Hr) Hh. cbn in He, Hv, Hr, Hh. subst rt.
  unfold one, SPLAY_REMOVE. step (empty_ok h t Hv). destruct (decide (t = Leaf)) as [->|Ht].
  { exists (SplayHead h NULL). split; [done|]. split; [by apply (rep_intro h Leaf)|apply same_structs_refl]. }
  replace (match t with Leaf => true | _ => false end) with false by (by destruct t).
  destruct (splay_elm h e t He Hh Hv Ht Hs) as (h1 & l & x & r & E & Hv' & Hi & Hl & Hr & He1 & Hss). step E. step (root_ok h1 x).
  pose proof (valid_rebase _ _ _ Hv') as Hv1. pose proof (proj2 (Hss e) Hh) as Hh1.
  step (compare_ok h1 x e x He1 Hh1 (tree_struct h1 _ x Hv1 ltac:(cbn; set_solver))).
  rewrite <- Hi in Hs |- *. destruct (Z.eqb_spec (cmp (key e) (key x)) 0) as [Hc|Hc].
  - cbn [inorder]. rewrite same_key_some, removed_mid by done. by apply remove_found.
  - cbn [inorder] in Hs |- *. exists (SplayHead h1 x). pose proof (filters_before cmp key _ _ Hl) as (_ & _ & F1 & F2 & _).
    pose proof (filters_after cmp key _ _ Hr) as (_ & _ & F3 & F4 & _). unfold same_key, removed.
    rewrite !filter_app, filter_cons_False, filter_cons_True, F1, F2, F3, F4 by done.
    split; [done|]. split; [by apply (rep_intro h1 (Node l x r))|done].
Qed.

Lemma leftmost_spec h0 h rt E t fuel : valid h0 h (E ++ nodes t) → t ≠ Leaf → (length (inorder t) ≤ fuel)%nat →
  ∃ x, leftmost_loop fuel (root t) (SplayHead h rt) = Ret x (SplayHead h rt) ∧ head (inorder t) = Some x.
Proof.
  revert E t. induction fuel as [|fuel IH]; intros E t Hv Ht Hf; destruct t as [|l x r]; try done;
    cbn [inorder] in Hf |- *; rewrite length_app in Hf; cbn [length] in Hf; [lia|].
  cbn [leftmost_loop root]. step (left_ok h0 h rt _ x (SNode (root l) (root r) (key x)) Hv ltac:(cbn; set_solver)). cbn [spe_left].
  rewrite (null_left h0 h E l x r Hv). destruct l as [|a y b]; [by exists x|].
  destruct (IH (E ++ (x, SNode y (root r) (key x)) :: nodes r) (Node a y b)) as (z & Ez & Hz); [|done|lia|].
  - eapply valid_perm; [exact Hv|]. cbn. solve_Permutation.
  - exists z. split; [exact Ez|]. by rewrite head_app, Hz.
Qed.

Lemma next_spec s xs e : splay_rep s xs → e ∈ xs → outcome s xs [ptr (next_after cmp key e xs)] (one (SPLAY_NEXT e) s).
Proof.
  destruct s as [h rt]. cbn. intros (He & Hs & t & Hv & <- & Hr) Hin. cbn in He, Hv, Hr. subst rt.
  assert (t ≠ Leaf) as Ht by (intros ->; by apply elem_of_nil in Hin).
  unfold one, SPLAY_NEXT.
  destruct (splay_elm h e t He (tree_struct h t e Hv Hin) Hv Ht Hs) as (h1 & l & x & r & E & Hv' & Hi & Hl & Hr & He1 & Hss). step E.
  pose proof (valid_rebase _ _ _ Hv') as Hv1. rewrite <- Hi in Hin, Hs |- *.
  assert (x = e) as ->.
  { cbn in Hin. apply elem_of_app in Hin as [Hin|[->|Hin]%elem_of_cons]; [by apply all_before_not in Hl|done|by apply all_after_not in Hr]. }
  step (right_ok h1 h1 e _ e (SNode (root l) (root r) (key e)) Hv1 ltac:(cbn; set_solver)). cbn [spe_right].
  rewrite (null_right h1 h1 [] l e r Hv1). cbn [inorder]. rewrite next_after_mid by (done || apply (cmp_refl cmp)).
  assert (splay_rep (SplayHead h1 e) (inorder l ++ e :: inorder r)) as Hrep by (by apply (rep_intro h1 (Node l e r))).
  destruct (decide (r = Leaf)) as [->|Hrl]; [by exists (SplayHead h1 e)|].
  replace (match r with Leaf => true | _ => false end) with false by (by destruct r). cbn [negb].
  step (eq_refl : on_sp fuel_of_heap (SplayHead h1 e) = Ret (Datatypes.S (size h1)) (SplayHead h1 e)).
  assert (valid h1 h1 (((e, SNode (root l) (root r) (key e)) :: nodes l) ++ nodes r)) as Hv2 by (by eapply valid_perm; [exact Hv1|]).
  pose proof (valid_size _ _ _ (valid_drop _ _ _ _ Hv2)) as Hsz. rewrite <- (length_fmap fst), nodes_inorder in Hsz.
  destruct (leftmost_spec h1 h1 e _ r (Datatypes.S (size h1)) Hv2 Hrl ltac:(lia)) as (z & Ez & Hz). step Ez.
  exists (SplayHead h1 e). by rewrite Hz.
Qed.

Lemma compares_const h0 v : compares h0 (λ _, mret v) (λ _, v).
Proof. by intros h rt E x _ _ _ _. Qed.

(** A splay to one end: [v] is negative for the first element, positive for the last. *)
Lemma minmax_spec s xs v : splay_rep s xs → xs ≠ [] → v ≠ 0 →
  outcome s xs [ptr (if v <? 0 then head xs else last xs)] (one (SPLAY_MIN_MAX v) s).
Proof.
  destruct s as [h rt]. cbn. intros (He & Hs & t & Hv & <- & Hr) Hne Hv0. cbn in He, Hv, Hr. subst rt.
  assert (t ≠ Leaf) as Ht by (by intros ->). unfold one, SPLAY_MIN_MAX.
  assert (splits (λ _, v) (inorder t)) as Hsp.
  { intros a x b _. split; intros Hx; apply Forall_forall; intros y _; lia. }
  destruct (splay_with_spec h (λ _, mret v) (λ _, v) t (env_stack _ He) Hv Ht Hsp (compares_const _ v))
    as (h1 & l & x & r & E & Hv' & Hi & Hl & Hr). rewrite <- SPLAY_MINMAX_eq in E by done. step E. step (root_ok h1 x).
  destruct (env_tree h h1 (nodes t) (Node l x r) He Hv Hv') as [He1 Hss]; [by rewrite Hi, nodes_inorder|].
  exists (SplayHead h1 x). split; [|split; [|done]].
  - rewrite <- Hi. cbn [inorder]. destruct (Z.ltb_spec v 0).
    + destruct (inorder l) as [|y l'] eqn:El; [done|]. apply Forall_cons in Hl as [Hy _]. lia.
    + destruct (inorder r) as [|y r'] eqn:Er; [by rewrite last_snoc|]. apply Forall_cons in Hr as [Hy _]. lia.
  - rewrite <- Hi. apply (rep_intro h1 (Node l x r)); [done|by eapply valid_rebase|]. by rewrite Hi.
Qed.

Lemma end_spec s xs v : splay_rep s xs → v ≠ 0 →
  outcome s xs [ptr (if v <? 0 then head xs else last xs)]
    (one (empty ← SPLAY_EMPTY; if (empty : bool) then mret NULL else SPLAY_MIN_MAX v) s).
Proof.
  intros Hrep Hv0. destruct (decide (xs = [])) as [->|Hne].
  - pose proof Hrep as (He & Hs & t & Hv & Hi & Hr). destruct s as [h rt]. cbn in *. subst rt. unfold one. step (empty_ok h t Hv).
    destruct t as [|l x r]; [|by destruct (app_cons_not_nil (inorder l) (inorder r) x)].
    exists (SplayHead h NULL). by destruct (v <? 0).
  - destruct (minmax_spec s xs v Hrep Hne Hv0) as (s' & E & Ho). exists s'. split; [|done].
    destruct Hrep as (He & Hs & t & Hv & <- & Hr). destruct s as [h rt]. cbn in He, Hv, Hr. subst rt. unfold one in *.
    step (empty_ok h t Hv). by destruct t.
Qed.

Lemma sorted_next pre x suf : sorted cmp key (pre ++ x :: suf) → next_after cmp key x (pre ++ x :: suf) = head suf.
Proof. intros (_ & _ & Hb & Ha & _)%sorted_mid. apply next_after_mid; try done. apply (cmp_refl cmp). Qed.

Lemma foreach_loop_spec fuel s pre suf : splay_rep s (pre ++ suf) → NULL ∉ suf → (length suf < fuel)%nat →
  outcome s (pre ++ suf) suf (foreach_loop fuel (ptr (head suf)) s).
Proof.
  revert s pre suf. induction fuel as [|fuel IH]; intros s pre suf Hrep Hnn Hf; [lia|]. destruct suf as [|x suf]; [by exists s|].
  apply not_elem_of_cons in Hnn as [Hx Hnn]. change (ptr (head (x :: suf))) with x. cbn [foreach_loop].
  rewrite (proj2 (Z.eqb_neq x NULL)) by congruence.
  destruct (next_spec s _ x Hrep ltac:(set_solver)) as (s1 & E1 & Hrep1 & Hss1).
  rewrite sorted_next in E1 by apply Hrep. unfold one in E1. apply bind_ret_inv in E1 as (y & s2 & E2 & [= -> ->]). step E2.
  replace (pre ++ x :: suf) with ((pre ++ [x]) ++ suf) in Hrep1 |- * by (by rewrite <- app_assoc).
  destruct (IH s1 (pre ++ [x]) suf Hrep1 Hnn ltac:(cbn in Hf; lia)) as (s3 & E3 & Hrep3 & Hss3).
  step E3. exists s3. split; [done|]. split; [done|by eapply same_structs_trans].
Qed.

Lemma splay_foreach_spec s xs : splay_rep s xs → outcome s xs xs (SPLAY_FOREACH s).
Proof.
  intros Hrep. destruct (end_spec s xs SPLAY_NEGINF Hrep ltac:(done)) as (s1 & E1 & Hrep1 & Hss1).
  unfold SPLAY_FOREACH. unfold one in E1. apply bind_ret_inv in E1 as (y & s2 & E2 & [= -> ->]). fold SPLAY_MIN in E2. step E2.
  step (eq_refl : on_sp fuel_of_heap s1 = Ret (Datatypes.S (size (sp_heap s1))) (SplayHead (sp_heap s1) (sph_root s1))).
  destruct s1 as [h1 rt]. cbn [sp_heap sph_root]. pose proof Hrep1 as (_ & _ & t & Hv & Hi & _). cbn in Hv.
  destruct (foreach_loop_spec (Datatypes.S (size h1)) (SplayHead h1 rt) [] xs Hrep1) as (s3 & E3 & Hrep3 & Hss3).
  - rewrite <- Hi. pose proof (v_null _ _ _ Hv) as Hn. by rewrite nodes_inorder in Hn.
  - pose proof (valid_size _ _ _ Hv) as Hsz. rewrite <- (length_fmap fst), nodes_inorder, Hi in Hsz. lia.
  - exists s3. split; [exact E3|]. split; [done|by eapply same_structs_trans].
Qed.

Lemma init_spec s xs : splay_rep s xs → outcome s [] [] ((SPLAY_INIT;; mret []) s).
Proof.
  intros (He & _). exists (SplayHead (sp_heap s) NULL). split; [done|]. split; [|done]. split; [done|]. split; [constructor|].
  exists Leaf. split; [|done]. apply valid_same; [constructor|constructor|apply not_elem_of_nil].
Qed.

(** ** Sequences of operations *)

Inductive splay_op := OpInsert (e : Z) | OpRemove (e : Z) | OpFind (e : Z) | OpNext (e : Z) | OpMin | OpMax | OpForeach | OpInit.

Definition run_splay_op (o : splay_op) : M S (list Z) :=
  match o with
  | OpInsert e => one (SPLAY_INSERT e)
  | OpRemove e => one (SPLAY_REMOVE e)
  | OpFind e => one (SPLAY_FIND e)
  | OpNext e => one (SPLAY_NEXT e)
  | OpMin => one SPLAY_MIN
  | OpMax => one SPLAY_MAX
  | OpForeach => SPLAY_FOREACH
  | OpInit => SPLAY_INIT;; mret []
  end.

Fixpoint run_splay_ops (os : list splay_op) : M S (list (list Z)) :=
  match os with
  | [] => mret []
  | o :: os => a ← run_splay_op o; r ← run_splay_ops os; mret (a :: r)
  end.

(** The same on a sorted list: what is returned, and the list afterwards. *)
Definition op_returns (o : splay_op) (xs : list Z) : list Z :=
  match o with
  | OpInsert e | OpFind e => [ptr (same_key cmp key e xs)]
  | OpRemove e => [match same_key cmp key e xs with Some _ => e | None => NULL end]
  | OpNext e => [ptr (next_after cmp key e xs)]
  | OpMin => [ptr (head xs)]
  | OpMax => [ptr (last xs)]
  | OpForeach => xs
  | OpInit => []
  end.

Definition op_set (o : splay_op) (xs : list Z) : list Z :=
  match o with OpInsert e => inserted cmp key e xs | OpRemove e => removed cmp key e xs | OpInit => [] | _ => xs end.

(** The arguments are structs; what follows an element is asked of elements only. *)
Definition op_ok (h : gmap Z (snode D)) (o : splay_op) (xs : list Z) : Prop :=
  match o with
  | OpInsert e | OpRemove e | OpFind e => is_Some (h !! e)
  | OpNext e => e ∈ xs
  | _ => True
  end.

Fixpoint ops_ok (h : gmap Z (snode D)) (os : list splay_op) (xs : list Z) : Prop :=
  match os with [] => True | o :: os => op_ok h o xs ∧ ops_ok h os (op_set o xs) end.
Fixpoint ops_return (os : list splay_op) (xs : list Z) : list (list Z) :=
  match os with [] => [] | o :: os => op_returns o xs :: ops_return os (op_set o xs) end.
Definition ops_set (os : list splay_op) (xs : list Z) : list Z := foldl (λ xs o, op_set o xs) xs os.

Lemma splay_op_spec s xs o : splay_rep s xs → op_ok (sp_heap s) o xs → outcome s (op_set o xs) (op_returns o xs) (run_splay_op o s).
Proof.
  intros Hrep Hok. destruct o; cbn in Hok |- *.
  - by apply insert_spec.
  - by apply remove_spec.
  - by apply find_spec.
  - by apply next_spec.
  - by apply (end_spec s xs SPLAY_NEGINF).
  - by apply (end_spec s xs SPLAY_INF).
  - by apply splay_foreach_spec.
  - by eapply init_spec.
Qed.

Lemma ops_ok_structs h h' os xs : same_structs h h' → ops_ok h os xs → ops_ok h' os xs.
Proof.
  intros Hss. revert xs. induction os as [|o os IH]; intros xs; [done|]. cbn. intros [Ho Hos]. split; [|by apply IH].
  destruct o; cbn in *; try done; by apply Hss.
Qed.

(** C12: splay trees implement ordered sets.  Whatever operations are made on a
    tree that holds a set, in whatever order, they end, each returns what it
    means on the list of the elements in order, and the tree holds the set that
    insertions and removals leave.  [SPLAY_FOREACH] visits all elements in
    order, although every step of it rearranges the tree. *)
Theorem splay_refines s xs os :
  splay_rep s xs → ops_ok (sp_heap s) os xs →
  ∃ s', run_splay_ops os s = Ret (ops_return os xs) s' ∧ splay_rep s' (ops_set os xs) ∧ same_structs (sp_heap s) (sp_heap s').
Proof.
  revert s xs. induction os as [|o os IH]; intros s xs Hrep Hok; [by exists s|]. destruct Hok as [Ho Hos].
  destruct (splay_op_spec s xs o Hrep Ho) as (s1 & E1 & Hrep1 & Hss1).
  destruct (IH s1 (op_set o xs) Hrep1 (ops_ok_structs _ _ _ _ Hss1 Hos)) as (s2 & E2 & Hrep2 & Hss2).
  exists s2. cbn [run_splay_ops]. step E1. step E2. split; [done|]. split; [exact Hrep2|by eapply same_structs_trans].
Qed.
End Splay.

(** ** Integers as keys *)

#[export] Instance sub_total : TotalCmp Z.sub.
Proof. split; intros; lia. Qed.

(** Five structs, compared by the last digits of their addresses, so that 103
    and 203 have the same key; the head is empty. *)
Definition sx_key (q : Z) : Z := q mod 100.
Definition sx_empty : splay_head Z :=
  SplayHead (list_to_map ((λ q, (q, SNode 0 0 (sx_key q))) <$> [101; 102; 103; 105; 203])) NULL.
Definition sx_ops : list splay_op :=
  [OpInsert 103; OpInsert 101; OpInsert 105; OpInsert 203; OpFind 203; OpFind 102; OpForeach; OpNext 101; OpMin; OpRemove 203; OpForeach; OpMax; OpInsert 102; OpForeach].

Lemma splay_refines_witness :
  ∃ s', run_splay_ops Z.sub 8 0 sx_ops sx_empty =
      Ret [[0]; [0]; [0]; [103]; [103]; [0]; [101; 103; 105]; [103]; [101]; [203]; [101; 105]; [105]; [0]; [101; 102; 105]] s' ∧
    splay_rep Z.sub 8 sx_key s' [101; 102; 105].
Proof.
  destruct (splay_refines Z.sub 8 0 sx_key sx_empty [] sx_ops) as (s' & E & Hrep & _).
  - split; [split|split; [constructor|]].
    + split; [reflexivity|discriminate].
    + reflexivity.
    + apply (bool_decide_unpack (map_Forall (λ q n, sp_data n = sx_key q) (sp_heap sx_empty))). vm_compute. exact I.
    + exists Leaf. split; [|done]. apply valid_same; [constructor|constructor|apply not_elem_of_nil].
  - unfold sx_ops. cbn [ops_ok op_ok]. split_and!; try exact I; refine (bool_decide_unpack _ _); vm_compute; exact I.
  - exists s'. split; [exact E|exact Hrep].
Defined.
