(* ===== verification/RbTree.v ===== *)
(** * kernel/sys/tree.h: red-black trees

    The macros are translated for one struct type, with the data [D] beside the
    links and the colour, one comparison function and one head.  [RB_AUGMENT] is
    empty, as it is by default.  RbRep.v relates the pointers to trees with a
    place in them, RbInsert.v and RbRemove.v show what the functions that change
    the tree do, and RbSpec.v that the operations are those of a sorted list. *)

From stdpp Require Import base numbers list gmap fin_maps.
From S2P Require Import Prelude UtList Ordered.

Abbreviation RB_BLACK := 0 (only parsing).
Abbreviation RB_RED := 1 (only parsing).

(** [RB_ENTRY] and the rest of the struct, and [RB_HEAD] with the heap. *)
Record rnode (D : Type) := RNode { rbe_left : Z; rbe_right : Z; rbe_parent : Z; rbe_color : Z; rb_data : D }.
Arguments RNode {D}.
Arguments rbe_left {D}.
Arguments rbe_right {D}.
Arguments rbe_parent {D}.
Arguments rbe_color {D}.
Arguments rb_data {D}.

Record rb_head (D : Type) := RbHead { rb_heap : gmap Z (rnode D); rbh_root : Z }.
Arguments RbHead {D}.
Arguments rb_heap {D}.
Arguments rbh_root {D}.

Section RbTree.
Context {D : Type} (cmp : D → D → Z).
Abbreviation S := (rb_head D).

Definition on_rb {A} (m : M (gmap Z (rnode D)) A) : M S A := zoom rb_heap (λ h s, RbHead h (rbh_root s)) m.

Definition RB_INIT : M S unit := modify (λ s, RbHead (rb_heap s) NULL).
Definition RB_ROOT : M S Z := s ← get; mret (rbh_root s).
Definition RB_EMPTY : M S bool := root ← RB_ROOT; mret (root =? NULL).
Definition rb_set_root (p : Z) : M S unit := modify (λ s, RbHead (rb_heap s) p).
Definition RB_LEFT (elm : Z) : M S Z := n ← on_rb (load elm); mret (rbe_left n).
Definition RB_RIGHT (elm : Z) : M S Z := n ← on_rb (load elm); mret (rbe_right n).
Definition RB_PARENT (elm : Z) : M S Z := n ← on_rb (load elm); mret (rbe_parent n).
Definition RB_COLOR (elm : Z) : M S Z := n ← on_rb (load elm); mret (rbe_color n).
Definition rb_set_left (elm p : Z) : M S unit :=
  on_rb (update elm (λ n, RNode p (rbe_right n) (rbe_parent n) (rbe_color n) (rb_data n))).
Definition rb_set_right (elm p : Z) : M S unit :=
  on_rb (update elm (λ n, RNode (rbe_left n) p (rbe_parent n) (rbe_color n) (rb_data n))).
Definition rb_set_parent (elm p : Z) : M S unit :=
  on_rb (update elm (λ n, RNode (rbe_left n) (rbe_right n) p (rbe_color n) (rb_data n))).
Definition rb_set_color (elm c : Z) : M S unit :=
  on_rb (update elm (λ n, RNode (rbe_left n) (rbe_right n) (rbe_parent n) c (rb_data n))).

(** [(cmp)(a, b)] *)
Definition rb_compare (a b : Z) : M S Z :=
  n ← on_rb (load a);
  m ← on_rb (load b);
  mret (cmp (rb_data n) (rb_data m)).

Definition RB_SET (elm parent : Z) : M S unit :=
  rb_set_parent elm parent;;
  rb_set_right elm NULL;;
  rb_set_left elm NULL;;
  rb_set_color elm RB_RED.

Definition RB_SET_BLACKRED (black red : Z) : M S unit :=
  rb_set_color black RB_BLACK;;
  rb_set_color red RB_RED.

(** The child [elm] of [parent] is replaced by [p]; without a parent it is the root. *)
Definition replace_child (parent elm p : Z) : M S unit :=
  if negb (parent =? NULL) then
    l ← RB_LEFT parent;
    if elm =? l then rb_set_left parent p else rb_set_right parent p
  else rb_set_root p.

(** The value of [tmp] after the macro is the result. *)
Definition RB_ROTATE_LEFT (elm : Z) : M S Z :=
  tmp ← RB_RIGHT elm;
  l ← RB_LEFT tmp;
  rb_set_right elm l;;
  (if negb (l =? NULL) then rb_set_parent l elm else mret tt);;
  parent ← RB_PARENT elm;
  rb_set_parent tmp parent;;
  replace_child parent elm tmp;;
  rb_set_left tmp elm;;
  rb_set_parent elm tmp;;
  mret tmp.

Definition RB_ROTATE_RIGHT (elm : Z) : M S Z :=
  tmp ← RB_LEFT elm;
  r ← RB_RIGHT tmp;
  rb_set_left elm r;;
  (if negb (r =? NULL) then rb_set_parent r elm else mret tt);;
  parent ← RB_PARENT elm;
  rb_set_parent tmp parent;;
  replace_child parent elm tmp;;
  rb_set_right tmp elm;;
  rb_set_parent elm tmp;;
  mret tmp.

(** [tmp && RB_COLOR(tmp) == RB_RED], and [tmp == NULL || RB_COLOR(tmp) == RB_BLACK] *)
Definition is_red (tmp : Z) : M S bool :=
  if tmp =? NULL then mret false else c ← RB_COLOR tmp; mret (c =? RB_RED).
Definition is_black (tmp : Z) : M S bool :=
  if tmp =? NULL then mret true else c ← RB_COLOR tmp; mret (c =? RB_BLACK).

Fixpoint insert_color_loop (fuel : nat) (elm : Z) : M S unit :=
  match fuel with
  | O => nofuel
  | Datatypes.S fuel =>
      parent ← RB_PARENT elm;
      red ← is_red parent;
      if negb red then mret tt
      else
        gparent ← RB_PARENT parent;
        l ← RB_LEFT gparent;
        if parent =? l then
          tmp ← RB_RIGHT gparent;
          red ← is_red tmp;
          if (red : bool) then
            rb_set_color tmp RB_BLACK;;
            RB_SET_BLACKRED parent gparent;;
            insert_color_loop fuel gparent
          else
            r ← RB_RIGHT parent;
            '(parent, elm) ← (if r =? elm then
                                RB_ROTATE_LEFT parent;;
                                mret (elm, parent)
                              else mret (parent, elm));
            RB_SET_BLACKRED parent gparent;;
            RB_ROTATE_RIGHT gparent;;
            insert_color_loop fuel elm
        else
          tmp ← RB_LEFT gparent;
          red ← is_red tmp;
          if (red : bool) then
            rb_set_color tmp RB_BLACK;;
            RB_SET_BLACKRED parent gparent;;
            insert_color_loop fuel gparent
          else
            l ← RB_LEFT parent;
            '(parent, elm) ← (if l =? elm then
                                RB_ROTATE_RIGHT parent;;
                                mret (elm, parent)
                              else mret (parent, elm));
            RB_SET_BLACKRED parent gparent;;
            RB_ROTATE_LEFT gparent;;
            insert_color_loop fuel elm
  end.

Definition RB_INSERT_COLOR (elm : Z) : M S unit :=
  fuel ← on_rb fuel_of_heap;
  insert_color_loop fuel elm;;
  root ← RB_ROOT;
  rb_set_color root RB_BLACK.

(** The loop of [name##_RB_INSERT]: the node with the same key, or the last
    node of the path and the last comparison. *)
Fixpoint insert_loop (fuel : nat) (elm tmp parent comp : Z) : M S (Z + Z * Z) :=
  match fuel with
  | O => nofuel
  | Datatypes.S fuel =>
      if tmp =? NULL then mret (inr (parent, comp))
      else
        comp ← rb_compare elm tmp;
        if comp <? 0 then l ← RB_LEFT tmp; insert_loop fuel elm l tmp comp
        else if 0 <? comp then r ← RB_RIGHT tmp; insert_loop fuel elm r tmp comp
        else mret (inl tmp)
  end.

Definition RB_INSERT (elm : Z) : M S Z :=
  fuel ← on_rb fuel_of_heap;
  root ← RB_ROOT;
  res ← insert_loop fuel elm root NULL 0;
  match res with
  | inl tmp => mret tmp
  | inr (parent, comp) =>
      RB_SET elm parent;;
      (if negb (parent =? NULL) then
         if comp <? 0 then rb_set_left parent elm else rb_set_right parent elm
       else rb_set_root elm);;
      RB_INSERT_COLOR elm;;
      mret NULL
  end.

(** The last case of the loop below, in which it ends: [tmp] is the sibling of
    [elm] on the right, or on the left, and one of its children is red. *)
Definition remove_color_last_right (parent tmp : Z) : M S unit :=
  r ← RB_RIGHT tmp;
  black ← is_black r;
  tmp ← (if (black : bool) then
           oleft ← RB_LEFT tmp;
           (if negb (oleft =? NULL) then rb_set_color oleft RB_BLACK else mret tt);;
           rb_set_color tmp RB_RED;;
           RB_ROTATE_RIGHT tmp;;
           RB_RIGHT parent
         else mret tmp);
  c ← RB_COLOR parent;
  rb_set_color tmp c;;
  rb_set_color parent RB_BLACK;;
  r ← RB_RIGHT tmp;
  (if negb (r =? NULL) then rb_set_color r RB_BLACK else mret tt);;
  RB_ROTATE_LEFT parent;;
  mret tt.

Definition remove_color_last_left (parent tmp : Z) : M S unit :=
  l ← RB_LEFT tmp;
  black ← is_black l;
  tmp ← (if (black : bool) then
           oright ← RB_RIGHT tmp;
           (if negb (oright =? NULL) then rb_set_color oright RB_BLACK else mret tt);;
           rb_set_color tmp RB_RED;;
           RB_ROTATE_LEFT tmp;;
           RB_LEFT parent
         else mret tmp);
  c ← RB_COLOR parent;
  rb_set_color tmp c;;
  rb_set_color parent RB_BLACK;;
  l ← RB_LEFT tmp;
  (if negb (l =? NULL) then rb_set_color l RB_BLACK else mret tt);;
  RB_ROTATE_RIGHT parent;;
  mret tt.

(** [elm] after the loop is the result. *)
Fixpoint remove_color_loop (fuel : nat) (parent elm : Z) : M S Z :=
  match fuel with
  | O => nofuel
  | Datatypes.S fuel =>
      black ← is_black elm;
      root ← RB_ROOT;
      if negb (black && negb (elm =? root)) then mret elm
      else
        l ← RB_LEFT parent;
        if l =? elm then
          tmp ← RB_RIGHT parent;
          c ← RB_COLOR tmp;
          tmp ← (if c =? RB_RED then
                   RB_SET_BLACKRED tmp parent;;
                   RB_ROTATE_LEFT parent;;
                   RB_RIGHT parent
                 else mret tmp);
          l ← RB_LEFT tmp;
          lblack ← is_black l;
          both ← (if (lblack : bool) then r ← RB_RIGHT tmp; is_black r else mret false);
          if (both : bool) then
            rb_set_color tmp RB_RED;;
            gparent ← RB_PARENT parent;
            remove_color_loop fuel gparent parent
          else
            remove_color_last_right parent tmp;;
            RB_ROOT
        else
          tmp ← RB_LEFT parent;
          c ← RB_COLOR tmp;
          tmp ← (if c =? RB_RED then
                   RB_SET_BLACKRED tmp parent;;
                   RB_ROTATE_RIGHT parent;;
                   RB_LEFT parent
                 else mret tmp);
          l ← RB_LEFT tmp;
          lblack ← is_black l;
          both ← (if (lblack : bool) then r ← RB_RIGHT tmp; is_black r else mret false);
          if (both : bool) then
            rb_set_color tmp RB_RED;;
            gparent ← RB_PARENT parent;
            remove_color_loop fuel gparent parent
          else
            remove_color_last_left parent tmp;;
            RB_ROOT
  end.

Definition RB_REMOVE_COLOR (parent elm : Z) : M S unit :=
  fuel ← on_rb fuel_of_heap;
  elm ← remove_color_loop fuel parent elm;
  if negb (elm =? NULL) then rb_set_color elm RB_BLACK else mret tt.

(** [while ((left = RB_LEFT(elm, field)) != NULL) elm = left;] *)
Fixpoint rb_leftmost_loop (fuel : nat) (elm : Z) : M S Z :=
  match fuel with
  | O => nofuel
  | Datatypes.S fuel => l ← RB_LEFT elm; if l =? NULL then mret elm else rb_leftmost_loop fuel l
  end.
Fixpoint rb_rightmost_loop (fuel : nat) (elm : Z) : M S Z :=
  match fuel with
  | O => nofuel
  | Datatypes.S fuel => r ← RB_RIGHT elm; if r =? NULL then mret elm else rb_rightmost_loop fuel r
  end.

(** [do { RB_AUGMENT(left); } while ((left = RB_PARENT(left, field)) != NULL)] *)
Fixpoint augment_loop (fuel : nat) (left : Z) : M S unit :=
  match fuel with
  | O => nofuel
  | Datatypes.S fuel => p ← RB_PARENT left; if p =? NULL then mret tt else augment_loop fuel p
  end.

(** [elm] has at most one child: the child takes its place.  The results are
    the child, the parent and the colour. *)
Definition splice_out (elm child : Z) : M S (Z * Z * Z) :=
  parent ← RB_PARENT elm;
  color ← RB_COLOR elm;
  (if negb (child =? NULL) then rb_set_parent child parent else mret tt);;
  replace_child parent elm child;;
  mret (child, parent, color).

(** [elm], taken out of the tree, gets the place of [old]. *)
Definition take_place (elm old : Z) : M S unit :=
  o ← on_rb (load old);
  on_rb (update elm (λ n, RNode (rbe_left o) (rbe_right o) (rbe_parent o) (rbe_color o) (rb_data n)));;
  p ← RB_PARENT old;
  replace_child p old elm;;
  l ← RB_LEFT old;
  rb_set_parent l elm;;
  r ← RB_RIGHT old;
  if negb (r =? NULL) then rb_set_parent r elm else mret tt.

Definition RB_REMOVE (elm : Z) : M S Z :=
  let old := elm in
  l ← RB_LEFT elm;
  r ← RB_RIGHT elm;
  '(child, parent, color) ←
    (if l =? NULL then splice_out elm r
     else if r =? NULL then splice_out elm l
     else
       fuel ← on_rb fuel_of_heap;
       elm ← rb_leftmost_loop fuel r;
       child ← RB_RIGHT elm;
       '(child, parent, color) ← splice_out elm child;
       p ← RB_PARENT elm;
       let parent := if p =? old then elm else parent in
       take_place elm old;;
       (if negb (parent =? NULL) then augment_loop fuel parent else mret tt);;
       mret (child, parent, color));
  (if color =? RB_BLACK then RB_REMOVE_COLOR parent child else mret tt);;
  mret old.

Fixpoint find_loop (fuel : nat) (elm tmp : Z) : M S Z :=
  match fuel with
  | O => nofuel
  | Datatypes.S fuel =>
      if tmp =? NULL then mret NULL
      else
        comp ← rb_compare elm tmp;
        if comp <? 0 then l ← RB_LEFT tmp; find_loop fuel elm l
        else if 0 <? comp then r ← RB_RIGHT tmp; find_loop fuel elm r
        else mret tmp
  end.

Definition RB_FIND (elm : Z) : M S Z :=
  fuel ← on_rb fuel_of_heap;
  root ← RB_ROOT;
  find_loop fuel elm root.

Fixpoint nfind_loop (fuel : nat) (elm tmp res : Z) : M S Z :=
  match fuel with
  | O => nofuel
  | Datatypes.S fuel =>
      if tmp =? NULL then mret res
      else
        comp ← rb_compare elm tmp;
        if comp <? 0 then l ← RB_LEFT tmp; nfind_loop fuel elm l tmp
        else if 0 <? comp then r ← RB_RIGHT tmp; nfind_loop fuel elm r res
        else mret tmp
  end.

Definition RB_NFIND (elm : Z) : M S Z :=
  fuel ← on_rb fuel_of_heap;
  root ← RB_ROOT;
  nfind_loop fuel elm root NULL.

(** [while (RB_PARENT(elm) && elm == RB_RIGHT(RB_PARENT(elm))) elm = RB_PARENT(elm)],
    or with [RB_LEFT], and then the parent. *)
Fixpoint climb_loop (child : Z → M S Z) (fuel : nat) (elm : Z) : M S Z :=
  match fuel with
  | O => nofuel
  | Datatypes.S fuel =>
      p ← RB_PARENT elm;
      if p =? NULL then mret p
      else
        c ← child p;
        if elm =? c then climb_loop child fuel p else mret p
  end.

Definition RB_NEXT (elm : Z) : M S Z :=
  r ← RB_RIGHT elm;
  fuel ← on_rb fuel_of_heap;
  if negb (r =? NULL) then rb_leftmost_loop fuel r
  else
    p ← RB_PARENT elm;
    left ← (if p =? NULL then mret false else l ← RB_LEFT p; mret (elm =? l));
    if (left : bool) then mret p else climb_loop RB_RIGHT fuel elm.

Definition RB_PREV (elm : Z) : M S Z :=
  l ← RB_LEFT elm;
  fuel ← on_rb fuel_of_heap;
  if negb (l =? NULL) then rb_rightmost_loop fuel l
  else
    p ← RB_PARENT elm;
    right ← (if p =? NULL then mret false else r ← RB_RIGHT p; mret (elm =? r));
    if (right : bool) then mret p else climb_loop RB_LEFT fuel elm.

Fixpoint rb_minmax_loop (val : Z) (fuel : nat) (tmp parent : Z) : M S Z :=
  match fuel with
  | O => nofuel
  | Datatypes.S fuel =>
      if tmp =? NULL then mret parent
      else
        next ← (if val <? 0 then RB_LEFT tmp else RB_RIGHT tmp);
        rb_minmax_loop val fuel next tmp
  end.

Definition RB_MINMAX (val : Z) : M S Z :=
  fuel ← on_rb fuel_of_heap;
  root ← RB_ROOT;
  rb_minmax_loop val fuel root NULL.

Definition RB_MIN : M S Z := RB_MINMAX (-1).
Definition RB_MAX : M S Z := RB_MINMAX 1.

(** What [RB_FOREACH] and [RB_FOREACH_REVERSE] visit. *)
Fixpoint rb_visit (step : Z → M S Z) (fuel : nat) (x : Z) : M S (list Z) :=
  match fuel with
  | O => nofuel
  | Datatypes.S fuel =>
      if x =? NULL then mret []
      else
        next ← step x;
        xs ← rb_visit step fuel next;
        mret (x :: xs)
  end.
Definition RB_FOREACH : M S (list Z) :=
  x ← RB_MIN;
  fuel ← on_rb fuel_of_heap;
  rb_visit RB_NEXT fuel x.
Definition RB_FOREACH_REVERSE : M S (list Z) :=
  x ← RB_MAX;
  fuel ← on_rb fuel_of_heap;
  rb_visit RB_PREV fuel x.

(** The iterations that find what is next before they run the body, so that the
    body may take the element out of the tree. *)
Fixpoint rb_visit_safe (step : Z → M S Z) (body : Z → M S unit) (fuel : nat) (x : Z) : M S (list Z) :=
  match fuel with
  | O => nofuel
  | Datatypes.S fuel =>
      if x =? NULL then mret []
      else
        y ← step x;
        body x;;
        xs ← rb_visit_safe step body fuel y;
        mret (x :: xs)
  end.
Definition RB_FOREACH_FROM (body : Z → M S unit) (y : Z) : M S (list Z) :=
  fuel ← on_rb fuel_of_heap;
  rb_visit_safe RB_NEXT body fuel y.
Definition RB_FOREACH_SAFE (body : Z → M S unit) : M S (list Z) :=
  x ← RB_MIN;
  fuel ← on_rb fuel_of_heap;
  rb_visit_safe RB_NEXT body fuel x.
Definition RB_FOREACH_REVERSE_FROM (body : Z → M S unit) (y : Z) : M S (list Z) :=
  fuel ← on_rb fuel_of_heap;
  rb_visit_safe RB_PREV body fuel y.
Definition RB_FOREACH_REVERSE_SAFE (body : Z → M S unit) : M S (list Z) :=
  x ← RB_MAX;
  fuel ← on_rb fuel_of_heap;
  rb_visit_safe RB_PREV body fuel x.
End RbTree.
