(* ===== verification/RbRep.v ===== *)
(** * Red-black trees and their pointers

    A tree with a place in it is a subtree and the frames around it, from the
    inside out.  [at_place] says that a heap and a head hold such a tree, with
    the links to the parents and the colours.  The lemmas say what reading a
    member gives, and what writing colours, replacing a subtree and rotating do
    to the tree, so that the proofs about the functions need no pointers. *)

From stdpp Require Import base numbers list gmap fin_maps.
From S2P Require Import Prelude UtList Ordered RbTree.

Inductive color := Black | Red.
Definition color_int (c : color) : Z := match c with Black => RB_BLACK | Red => RB_RED end.
#[export] Instance color_eq_dec : EqDecision color.
Proof. solve_decision. Defined.

Inductive rbt := E | T (c : color) (l : rbt) (x : Z) (r : rbt).
#[export] Instance rbt_eq_dec : EqDecision rbt.
Proof. solve_decision. Defined.

(** The place is the left, or the right, child of [x]. *)
Inductive frame := FL (c : color) (x : Z) (r : rbt) | FR (c : color) (l : rbt) (x : Z).

Definition rroot (t : rbt) : Z := match t with E => NULL | T _ _ x _ => x end.
Fixpoint rinorder (t : rbt) : list Z := match t with E => [] | T _ l x r => rinorder l ++ x :: rinorder r end.

Definition fill (t : rbt) (f : frame) : rbt := match f with FL c x r => T c t x r | FR c l x => T c l x t end.
Definition plug (K : list frame) (t : rbt) : rbt := foldl fill t K.
Arguments plug : simpl never.
Definition fnode (f : frame) : Z := match f with FL _ x _ | FR _ _ x => x end.
Definition fcolor (f : frame) : color := match f with FL c _ _ | FR c _ _ => c end.
Definition par (K : list frame) : Z := match K with [] => NULL | f :: _ => fnode f end.
Fixpoint kroot (K : list frame) (v : Z) : Z := match K with [] => v | f :: K => kroot K (fnode f) end.

(** What is before and after the place. *)
Fixpoint kleft (K : list frame) : list Z :=
  match K with [] => [] | FL _ _ _ :: K => kleft K | FR _ l x :: K => kleft K ++ rinorder l ++ [x] end.
Fixpoint kright (K : list frame) : list Z :=
  match K with [] => [] | FL _ x r :: K => x :: rinorder r ++ kright K | FR _ _ _ :: K => kright K end.

Lemma plug_cons f K t : plug (f :: K) t = plug K (fill t f).
Proof. done. Qed.

Lemma plug_inorder K t : rinorder (plug K t) = kleft K ++ rinorder t ++ kright K.
Proof.
  revert t. induction K as [|[c x r|c l x] K IH]; intros t; [cbn; by rewrite app_nil_r|..]; rewrite plug_cons, IH; cbn;
    by rewrite <- ?app_assoc.
Qed.

Lemma plug_app K1 K2 t : plug (K1 ++ K2) t = plug K2 (plug K1 t).
Proof. apply foldl_app. Qed.

Lemma rroot_plug K t : rroot (plug K t) = kroot K (rroot t).
Proof. revert t. induction K as [|[c x r|c l x] K IH]; intros t; [done|..]; rewrite plug_cons; apply IH. Qed.

(** Every element has a place. *)
Lemma place_of t x : x ∈ rinorder t → ∃ K c l r, t = plug K (T c l x r).
Proof.
  induction t as [|c l IHl y r IHr]; cbn; [by intros ?%elem_of_nil|].
  intros [Hx|[->|Hx]%elem_of_cons]%elem_of_app.
  - destruct (IHl Hx) as (K & c' & l' & r' & ->). exists (K ++ [FL c y r]), c', l', r'. by rewrite plug_app.
  - by exists [], c, l, r.
  - destruct (IHr Hx) as (K & c' & l' & r' & ->). exists (K ++ [FR c l y]), c', l', r'. by rewrite plug_app.
Qed.

Section Rep.
Context {D : Type} (key : Z → D).
Implicit Types (h : gmap Z (rnode D)) (s : rb_head D) (F : list (Z * rnode D)).

Fixpoint rnodes (p : Z) (t : rbt) : list (Z * rnode D) :=
  match t with
  | E => []
  | T c l x r => (x, RNode (rroot l) (rroot r) p (color_int c) (key x)) :: rnodes x l ++ rnodes x r
  end.

(** The nodes around a place whose subtree has its root at [v]. *)
Fixpoint knodes (K : list frame) (v : Z) : list (Z * rnode D) :=
  match K with
  | [] => []
  | FL c x r :: K => (x, RNode v (rroot r) (par K) (color_int c) (key x)) :: rnodes x r ++ knodes K x
  | FR c l x :: K => (x, RNode (rroot l) v (par K) (color_int c) (key x)) :: rnodes x l ++ knodes K x
  end.

Lemma rnodes_plug K t : rnodes NULL (plug K t) ≡ₚ rnodes (par K) t ++ knodes K (rroot t).
Proof.
  revert t. induction K as [|[c x r|c l x] K IH]; intros t; [cbn; by rewrite app_nil_r|..];
    rewrite plug_cons, IH; cbn; solve_Permutation.
Qed.

Lemma rnodes_inorder p t : (rnodes p t).*1 ≡ₚ rinorder t.
Proof. revert p. induction t as [|c l IHl x r IHr]; intros p; [done|]. cbn. rewrite fmap_app, IHl, IHr. solve_Permutation. Qed.

Lemma knodes_addrs K v w : (knodes K v).*1 = (knodes K w).*1.
Proof. destruct K as [|[c x r|c l x] K]; done. Qed.

(** The heap holds the tree [plug K t] and the nodes [F] besides, and is [h0] elsewhere. *)
Record at_place (h0 : gmap Z (rnode D)) F K t s : Prop := {
  ap_valid : valid h0 (rb_heap s) (F ++ rnodes (par K) t ++ knodes K (rroot t));
  ap_root : rbh_root s = kroot K (rroot t)
}.

Lemma at_up_l h0 F K c x t r s : at_place h0 F (FL c x r :: K) t s ↔ at_place h0 F K (T c t x r) s.
Proof.
  split; intros [Hv Hr]; (split; [|exact Hr]); (eapply valid_perm; [exact Hv|]); cbn; solve_Permutation.
Qed.

Lemma at_up_r h0 F K c x t l s : at_place h0 F (FR c l x :: K) t s ↔ at_place h0 F K (T c l x t) s.
Proof.
  split; intros [Hv Hr]; (split; [|exact Hr]); (eapply valid_perm; [exact Hv|]); cbn; solve_Permutation.
Qed.

Lemma at_plug h0 F K K' t s : at_place h0 F (K' ++ K) t s ↔ at_place h0 F K (plug K' t) s.
Proof.
  revert t. induction K' as [|[c x r|c l x] K' IH]; intros t; [done|..]; rewrite plug_cons, <- IH; cbn [app fill];
    [apply at_up_l|apply at_up_r].
Qed.

Lemma at_top h0 F K t s : at_place h0 F K t s ↔ at_place h0 F [] (plug K t) s.
Proof. rewrite <- at_plug. by rewrite app_nil_r. Qed.

(** ** Reading *)

Lemma at_node h0 F K c l x r s : at_place h0 F K (T c l x r) s →
  rb_heap s !! x = Some (RNode (rroot l) (rroot r) (par K) (color_int c) (key x)).
Proof. intros [Hv _]. eapply valid_lookup; [exact Hv|]. cbn. set_solver. Qed.

Lemma on_rb_load s x n : rb_heap s !! x = Some n → on_rb (load x) s = Ret n s.
Proof. intros Hn. unfold on_rb, zoom. rewrite (load_ok _ _ _ Hn). by destruct s. Qed.

Lemma at_left h0 F K c l x r s : at_place h0 F K (T c l x r) s → RB_LEFT x s = Ret (rroot l) s.
Proof. intros H. unfold RB_LEFT. by step (on_rb_load _ _ _ (at_node _ _ _ _ _ _ _ _ H)). Qed.
Lemma at_right h0 F K c l x r s : at_place h0 F K (T c l x r) s → RB_RIGHT x s = Ret (rroot r) s.
Proof. intros H. unfold RB_RIGHT. by step (on_rb_load _ _ _ (at_node _ _ _ _ _ _ _ _ H)). Qed.
Lemma at_parent h0 F K c l x r s : at_place h0 F K (T c l x r) s → RB_PARENT x s = Ret (par K) s.
Proof. intros H. unfold RB_PARENT. by step (on_rb_load _ _ _ (at_node _ _ _ _ _ _ _ _ H)). Qed.
Lemma at_color h0 F K c l x r s : at_place h0 F K (T c l x r) s → RB_COLOR x s = Ret (color_int c) s.
Proof. intros H. unfold RB_COLOR. by step (on_rb_load _ _ _ (at_node _ _ _ _ _ _ _ _ H)). Qed.

Lemma at_nonnull h0 F K c l x r s : at_place h0 F K (T c l x r) s → (x =? NULL) = false.
Proof. intros [Hv _]. apply Z.eqb_neq. apply (valid_nonnull _ _ _ _ Hv). rewrite !fmap_app. cbn. set_solver. Qed.

Lemma at_null h0 F K t s : at_place h0 F K t s → (rroot t =? NULL) = match t with E => true | _ => false end.
Proof. intros H. destruct t as [|c l x r]; [done|]. by eapply at_nonnull. Qed.

(** The parent of the place, as a frame. *)
Lemma par_null h0 F K t s : at_place h0 F K t s → (par K =? NULL) = match K with [] => true | _ => false end.
Proof.
  intros H. destruct K as [|[c x r|c l x] K]; [done|..]; cbn [par fnode].
  - apply at_up_l in H. by eapply at_nonnull.
  - apply at_up_r in H. by eapply at_nonnull.
Qed.

(** ** Writing *)

Lemma rb_update h0 s L p n L' f : valid h0 (rb_heap s) L → L ≡ₚ (p, n) :: L' →
  ∃ s', on_rb (update p f) s = Ret tt s' ∧ valid h0 (rb_heap s') ((p, f n) :: L') ∧ rbh_root s' = rbh_root s.
Proof.
  intros Hv HE. rewrite HE in Hv. exists (RbHead (<[p := f n]> (rb_heap s)) (rbh_root s)).
  split; [|split; [by eapply valid_update|done]]. unfold on_rb, zoom. by rewrite (update_ok _ _ _ _ (valid_lookup _ _ _ p n Hv ltac:(by left))).
Qed.

Lemma rb_read h0 s L p n : valid h0 (rb_heap s) L → (p, n) ∈ L →
  RB_LEFT p s = Ret (rbe_left n) s ∧ RB_RIGHT p s = Ret (rbe_right n) s ∧ RB_PARENT p s = Ret (rbe_parent n) s ∧
  RB_COLOR p s = Ret (rbe_color n) s.
Proof.
  intros Hv Hin. pose proof (on_rb_load s p n (valid_lookup _ _ _ _ _ Hv Hin)) as Hl.
  unfold RB_LEFT, RB_RIGHT, RB_PARENT, RB_COLOR. split_and!; by step Hl.
Qed.

Lemma at_set_color h0 F K c c' l x r s : at_place h0 F K (T c l x r) s →
  ∃ s', rb_set_color x (color_int c') s = Ret tt s' ∧ at_place h0 F K (T c' l x r) s'.
Proof.
  intros [Hv Hr]. destruct (rb_update h0 s _ x (RNode (rroot l) (rroot r) (par K) (color_int c) (key x))
    (F ++ (rnodes x l ++ rnodes x r) ++ knodes K x) (λ n, RNode (rbe_left n) (rbe_right n) (rbe_parent n) (color_int c') (rb_data n)) Hv)
    as (s' & E1 & Hv' & Hr'); [cbn; solve_Permutation|].
  exists s'. split; [done|]. split; [|by rewrite Hr']. eapply valid_perm; [exact Hv'|]. cbn. solve_Permutation.
Qed.

(** The root of a subtree, if it has one, gets another parent. *)
Lemma set_parent_opt h0 s p q t G : valid h0 (rb_heap s) (rnodes p t ++ G) →
  ∃ s', (if negb (rroot t =? NULL) then rb_set_parent (rroot t) q else mret tt) s = Ret tt s' ∧
    valid h0 (rb_heap s') (rnodes q t ++ G) ∧ rbh_root s' = rbh_root s.
Proof.
  intros Hv. destruct t as [|c l x r]; [by exists s|].
  assert (x ≠ NULL) as Hx by (apply (valid_nonnull _ _ _ _ Hv); cbn; set_solver).
  cbn [rroot]. rewrite (proj2 (Z.eqb_neq _ _) Hx). cbn [negb].
  destruct (rb_update h0 s _ x (RNode (rroot l) (rroot r) p (color_int c) (key x)) ((rnodes x l ++ rnodes x r) ++ G)
    (λ n, RNode (rbe_left n) (rbe_right n) q (rbe_color n) (rb_data n)) Hv) as (s' & E1 & Hv' & Hr'); [done|].
  by exists s'.
Qed.

(** The place gets another subtree: the link that pointed to [v] points to [w]. *)
Lemma replace_child_ok h0 s G K v w : valid h0 (rb_heap s) (G ++ knodes K v) → v ∈ G.*1 → rbh_root s = kroot K v →
  ∃ s', replace_child (par K) v w s = Ret tt s' ∧ valid h0 (rb_heap s') (G ++ knodes K w) ∧ rbh_root s' = kroot K w.
Proof.
  intros Hv Hin Hr. unfold replace_child. destruct K as [|f K]; [by exists (RbHead (rb_heap s) w)|].
  assert (fnode f ∈ (G ++ knodes (f :: K) v).*1) as Hf by (rewrite fmap_app; destruct f; cbn; set_solver).
  pose proof (valid_nonnull _ _ _ _ Hv Hf) as Hf0. cbn [par]. rewrite (proj2 (Z.eqb_neq _ _) Hf0). cbn [negb].
  destruct f as [c x r|c l x]; cbn [fnode kroot] in *.
  - destruct (rb_read h0 s _ x (RNode v (rroot r) (par K) (color_int c) (key x)) Hv ltac:(cbn; set_solver)) as (El & _).
    step El. cbn [rbe_left]. rewrite Z.eqb_refl.
    destruct (rb_update h0 s _ x (RNode v (rroot r) (par K) (color_int c) (key x)) (G ++ rnodes x r ++ knodes K x)
      (λ n, RNode w (rbe_right n) (rbe_parent n) (rbe_color n) (rb_data n)) Hv) as (s' & E1 & Hv' & Hr'); [cbn; solve_Permutation|].
    exists s'. split; [done|]. split; [|by rewrite Hr']. eapply valid_perm; [exact Hv'|]. cbn. solve_Permutation.
  - destruct (rb_read h0 s _ x (RNode (rroot l) v (par K) (color_int c) (key x)) Hv ltac:(cbn; set_solver)) as (El & _).
    step El. cbn [rbe_left]. assert (v ≠ rroot l) as Hne.
    { intros ->. destruct l as [|c' l1 y l2]; [by apply (valid_nonnull _ _ _ NULL Hv); [rewrite fmap_app; set_solver|]|].
      pose proof (v_nodup _ _ _ Hv) as Hnd. rewrite fmap_app in Hnd. apply NoDup_app in Hnd as (_ & Hd & _).
      apply (Hd y Hin). cbn. set_solver. }
    rewrite (proj2 (Z.eqb_neq _ _) Hne).
    destruct (rb_update h0 s _ x (RNode (rroot l) v (par K) (color_int c) (key x)) (G ++ rnodes x l ++ knodes K x)
      (λ n, RNode (rbe_left n) w (rbe_parent n) (rbe_color n) (rb_data n)) Hv) as (s' & E1 & Hv' & Hr'); [cbn; solve_Permutation|].
    exists s'. split; [done|]. split; [|by rewrite Hr']. eapply valid_perm; [exact Hv'|]. cbn. solve_Permutation.
Qed.

(** ** Rotations *)

Lemma at_rotate_left h0 F K c a x c' b y d s : at_place h0 F K (T c a x (T c' b y d)) s →
  ∃ s', RB_ROTATE_LEFT x s = Ret y s' ∧ at_place h0 F K (T c' (T c a x b) y d) s'.
Proof.
  intros Hat. unfold RB_ROTATE_LEFT. step (at_right _ _ _ _ _ _ _ _ Hat). cbn [rroot].
  step (at_left _ _ _ _ _ _ _ _ (proj2 (at_up_r _ _ _ _ _ _ _ _) Hat)). destruct Hat as [Hv Hr].
  set (G := F ++ rnodes x a ++ rnodes y d).
  destruct (rb_update h0 s _ x (RNode (rroot a) y (par K) (color_int c) (key x))
    ((y, RNode (rroot b) (rroot d) x (color_int c') (key y)) :: rnodes y b ++ G ++ knodes K x)
    (λ n, RNode (rbe_left n) (rroot b) (rbe_parent n) (rbe_color n) (rb_data n)) Hv) as (s1 & E1 & Hv1 & R1);
    [cbn; unfold G; solve_Permutation|]. step E1. clear E1. cbn in Hv1.
  destruct (set_parent_opt h0 s1 y x b ((x, RNode (rroot a) (rroot b) (par K) (color_int c) (key x)) ::
    (y, RNode (rroot b) (rroot d) x (color_int c') (key y)) :: G ++ knodes K x)) as (s2 & E2 & Hv2 & R2);
    [eapply valid_perm; [exact Hv1|]; solve_Permutation|]. step E2. clear E2.
  destruct (rb_read h0 s2 _ x (RNode (rroot a) (rroot b) (par K) (color_int c) (key x)) Hv2 ltac:(set_solver)) as (_ & _ & E3 & _). step E3. cbn [rbe_parent].
  destruct (rb_update h0 s2 _ y (RNode (rroot b) (rroot d) x (color_int c') (key y))
    (((x, RNode (rroot a) (rroot b) (par K) (color_int c) (key x)) :: rnodes x b ++ G) ++ knodes K x)
    (λ n, RNode (rbe_left n) (rbe_right n) (par K) (rbe_color n) (rb_data n)) Hv2) as (s4 & E4 & Hv4 & R4); [cbn; solve_Permutation|]. step E4. clear E4.
  cbn in Hv4. destruct (replace_child_ok h0 s4 ((y, RNode (rroot b) (rroot d) (par K) (color_int c') (key y)) ::
    (x, RNode (rroot a) (rroot b) (par K) (color_int c) (key x)) :: rnodes x b ++ G) K x y) as (s5 & E5 & Hv5 & R5);
    [exact Hv4|cbn; set_solver|by rewrite R4, R2, R1|]. step E5. clear E5.
  destruct (rb_update h0 s5 _ y (RNode (rroot b) (rroot d) (par K) (color_int c') (key y))
    ((x, RNode (rroot a) (rroot b) (par K) (color_int c) (key x)) :: (rnodes x b ++ G) ++ knodes K y)
    (λ n, RNode x (rbe_right n) (rbe_parent n) (rbe_color n) (rb_data n)) Hv5) as (s6 & E6 & Hv6 & R6); [cbn; solve_Permutation|]. step E6. clear E6.
  destruct (rb_update h0 s6 _ x (RNode (rroot a) (rroot b) (par K) (color_int c) (key x))
    ((y, RNode x (rroot d) (par K) (color_int c') (key y)) :: (rnodes x b ++ G) ++ knodes K y)
    (λ n, RNode (rbe_left n) (rbe_right n) y (rbe_color n) (rb_data n)) Hv6) as (s7 & E7 & Hv7 & R7); [cbn; solve_Permutation|]. step E7.
  exists s7. split; [done|]. split; [|by rewrite R7, R6, R5]. eapply valid_perm; [exact Hv7|]. unfold G. cbn. solve_Permutation.
Qed.

Lemma at_rotate_right h0 F K c c' a y b x d s : at_place h0 F K (T c (T c' a y b) x d) s →
  ∃ s', RB_ROTATE_RIGHT x s = Ret y s' ∧ at_place h0 F K (T c' a y (T c b x d)) s'.
Proof.
  intros Hat. unfold RB_ROTATE_RIGHT. step (at_left _ _ _ _ _ _ _ _ Hat). cbn [rroot].
  step (at_right _ _ _ _ _ _ _ _ (proj2 (at_up_l _ _ _ _ _ _ _ _) Hat)). destruct Hat as [Hv Hr].
  set (G := F ++ rnodes y a ++ rnodes x d).
  destruct (rb_update h0 s _ x (RNode y (rroot d) (par K) (color_int c) (key x))
    ((y, RNode (rroot a) (rroot b) x (color_int c') (key y)) :: rnodes y b ++ G ++ knodes K x)
    (λ n, RNode (rroot b) (rbe_right n) (rbe_parent n) (rbe_color n) (rb_data n)) Hv) as (s1 & E1 & Hv1 & R1);
    [cbn; unfold G; solve_Permutation|]. step E1. clear E1. cbn in Hv1.
  destruct (set_parent_opt h0 s1 y x b ((x, RNode (rroot b) (rroot d) (par K) (color_int c) (key x)) ::
    (y, RNode (rroot a) (rroot b) x (color_int c') (key y)) :: G ++ knodes K x)) as (s2 & E2 & Hv2 & R2);
    [eapply valid_perm; [exact Hv1|]; solve_Permutation|]. step E2. clear E2.
  destruct (rb_read h0 s2 _ x (RNode (rroot b) (rroot d) (par K) (color_int c) (key x)) Hv2 ltac:(set_solver)) as (_ & _ & E3 & _). step E3. cbn [rbe_parent].
  destruct (rb_update h0 s2 _ y (RNode (rroot a) (rroot b) x (color_int c') (key y))
    (((x, RNode (rroot b) (rroot d) (par K) (color_int c) (key x)) :: rnodes x b ++ G) ++ knodes K x)
    (λ n, RNode (rbe_left n) (rbe_right n) (par K) (rbe_color n) (rb_data n)) Hv2) as (s4 & E4 & Hv4 & R4); [cbn; solve_Permutation|]. step E4. clear E4.
  cbn in Hv4. destruct (replace_child_ok h0 s4 ((y, RNode (rroot a) (rroot b) (par K) (color_int c') (key y)) ::
    (x, RNode (rroot b) (rroot d) (par K) (color_int c) (key x)) :: rnodes x b ++ G) K x y) as (s5 & E5 & Hv5 & R5);
    [exact Hv4|cbn; set_solver|by rewrite R4, R2, R1|]. step E5. clear E5.
  destruct (rb_update h0 s5 _ y (RNode (rroot a) (rroot b) (par K) (color_int c') (key y))
    ((x, RNode (rroot b) (rroot d) (par K) (color_int c) (key x)) :: (rnodes x b ++ G) ++ knodes K y)
    (λ n, RNode (rbe_left n) x (rbe_parent n) (rbe_color n) (rb_data n)) Hv5) as (s6 & E6 & Hv6 & R6); [cbn; solve_Permutation|]. step E6. clear E6.
  destruct (rb_update h0 s6 _ x (RNode (rroot b) (rroot d) (par K) (color_int c) (key x))
    ((y, RNode (rroot a) x (par K) (color_int c') (key y)) :: (rnodes x b ++ G) ++ knodes K y)
    (λ n, RNode (rbe_left n) (rbe_right n) y (rbe_color n) (rb_data n)) Hv6) as (s7 & E7 & Hv7 & R7); [cbn; solve_Permutation|]. step E7.
  exists s7. split; [done|]. split; [|by rewrite R7, R6, R5]. eapply valid_perm; [exact Hv7|]. unfold G. cbn. solve_Permutation.
Qed.

(** ** Colours of nodes that may be missing *)

Definition tcolor (t : rbt) : color := match t with E => Black | T c _ _ _ => c end.

Lemma at_is_red h0 F K t s : at_place h0 F K t s → is_red (rroot t) s = Ret (bool_decide (tcolor t = Red)) s.
Proof.
  intros H. unfold is_red. rewrite (at_null _ _ _ _ _ H). destruct t as [|c l x r]; [done|]. cbn [rroot].
  step (at_color _ _ _ _ _ _ _ _ H). by destruct c.
Qed.

Lemma at_is_black h0 F K t s : at_place h0 F K t s → is_black (rroot t) s = Ret (bool_decide (tcolor t = Black)) s.
Proof.
  intros H. unfold is_black. rewrite (at_null _ _ _ _ _ H). destruct t as [|c l x r]; [done|]. cbn [rroot].
  step (at_color _ _ _ _ _ _ _ _ H). by destruct c.
Qed.

Lemma at_down_l h0 F K c l x r s : at_place h0 F K (T c l x r) s → at_place h0 F (FL c x r :: K) l s.
Proof. by rewrite at_up_l. Qed.
Lemma at_down_r h0 F K c l x r s : at_place h0 F K (T c l x r) s → at_place h0 F (FR c l x :: K) r s.
Proof. by rewrite at_up_r. Qed.

Lemma at_back_l h0 F K c t x r s : at_place h0 F (FL c x r :: K) t s → at_place h0 F K (T c t x r) s.
Proof. by rewrite at_up_l. Qed.
Lemma at_back_r h0 F K c t x l s : at_place h0 F (FR c l x :: K) t s → at_place h0 F K (T c l x t) s.
Proof. by rewrite at_up_r. Qed.

Lemma at_fuel h0 F K t s : at_place h0 F K t s → on_rb fuel_of_heap s = Ret (Datatypes.S (size (rb_heap s))) s ∧
  (length (rinorder (plug K t)) ≤ size (rb_heap s))%nat.
Proof.
  intros [Hv _]%at_top. split; [by destruct s|]. cbn in Hv. rewrite app_nil_r in Hv. apply valid_size in Hv.
  rewrite length_app in Hv. rewrite <- (rnodes_inorder NULL), length_fmap. lia.
Qed.

(** Colouring the black and the red node of a pair, one above the other. *)
Lemma at_blackred_l h0 F K c1 c2 a x b y d s : at_place h0 F K (T c2 (T c1 a x b) y d) s →
  ∃ s', RB_SET_BLACKRED x y s = Ret tt s' ∧ at_place h0 F K (T Red (T Black a x b) y d) s'.
Proof.
  intros H%at_down_l. unfold RB_SET_BLACKRED. destruct (at_set_color _ _ _ _ Black _ _ _ _ H) as (s1 & E1 & H1%at_back_l). step E1.
  exact (at_set_color _ _ _ _ Red _ _ _ _ H1).
Qed.

Lemma at_blackred_r h0 F K c1 c2 a x b y d s : at_place h0 F K (T c2 d y (T c1 a x b)) s →
  ∃ s', RB_SET_BLACKRED x y s = Ret tt s' ∧ at_place h0 F K (T Red d y (T Black a x b)) s'.
Proof.
  intros H%at_down_r. unfold RB_SET_BLACKRED. destruct (at_set_color _ _ _ _ Black _ _ _ _ H) as (s1 & E1 & H1%at_back_r). step E1.
  exact (at_set_color _ _ _ _ Red _ _ _ _ H1).
Qed.

(** Two nodes of a tree are not the same. *)
Lemma at_distinct h0 F K t s x y l1 l2 l3 : at_place h0 F K t s → rinorder (plug K t) = l1 ++ x :: l2 ++ y :: l3 → x ≠ y.
Proof.
  intros [Hv _]%at_top Hi ->. cbn in Hv. rewrite app_nil_r in Hv. pose proof (v_nodup _ _ _ Hv) as Hnd.
  rewrite fmap_app, rnodes_inorder in Hnd. apply NoDup_app in Hnd as (_ & _ & Hnd). rewrite Hi in Hnd.
  apply NoDup_app in Hnd as (_ & _ & Hnd). apply NoDup_cons in Hnd as [Hnd _]. set_solver.
Qed.

(** The two children of a node are not the same, unless both are missing. *)
Lemma at_children h0 F K c l x r s : at_place h0 F K (T c l x r) s → (r ≠ E ∨ l ≠ E) → rroot l ≠ rroot r.
Proof.
  intros H Hne Heq. pose proof (at_null _ _ _ _ _ (at_down_l _ _ _ _ _ _ _ _ H)) as H1.
  pose proof (at_null _ _ _ _ _ (at_down_r _ _ _ _ _ _ _ _ H)) as H2. rewrite Heq in H1.
  destruct l as [|cl ll y lr], r as [|cr rl z rr]; cbn in *; try congruence; [by destruct Hne|]. subst z.
  eapply (at_distinct _ _ _ _ _ y y (kleft K ++ rinorder ll) (rinorder lr ++ x :: rinorder rl) (rinorder rr ++ kright K) H); [|done].
  rewrite plug_inorder. cbn. by rewrite <- !app_assoc; cbn; rewrite <- !app_assoc.
Qed.
End Rep.
