(* ===== verification/RbInsert.v ===== *)
(** * Inserting into a red-black tree

    The invariant of red-black trees, for trees and for the frames around a
    place, and [RB_INSERT_COLOR]: it restores the invariant after a red node
    was put at the bottom, and does not change the order of the nodes. *)

From stdpp Require Import base numbers list gmap fin_maps.
From S2P Require Import Prelude UtList Ordered RbTree RbRep.

(** ** The invariant *)

(** [rb c n t]: the root of [t] is of colour [c], every path in it has [n]
    black nodes, and red nodes have black children. *)
Inductive rb : color → nat → rbt → Prop :=
  | rb_leaf : rb Black 0 E
  | rb_red n l x r : rb Black n l → rb Black n r → rb Red n (T Red l x r)
  | rb_black c1 c2 n l x r : rb c1 n l → rb c2 n r → rb Black (S n) (T Black l x r).

#[export] Hint Constructors rb : rbdb.

Definition fsib (f : frame) : rbt := match f with FL _ _ r => r | FR _ l _ => l end.
Definition kblack (K : list frame) : Prop := match K with [] => False | f :: _ => fcolor f = Black end.

(** A subtree with [n] black nodes on its paths fits into the frames; it may
    be red if the innermost frame is black. *)
Fixpoint kok (K : list frame) (n : nat) : Prop :=
  match K with
  | [] => True
  | f :: K =>
      match fcolor f with
      | Black => (∃ c, rb c n (fsib f)) ∧ kok K (S n)
      | Red => rb Black n (fsib f) ∧ kblack K ∧ kok K n
      end
  end.

Lemma rb_tcolor c n t : rb c n t → tcolor t = c.
Proof. by destruct 1. Qed.

Lemma plug_rb K c n t : rb c n t → kok K n → (c = Black ∨ kblack K) → ∃ m, rb Black m (plug K t).
Proof.
  revert c n t. induction K as [|f K IH]; intros c n t Ht Hk Hc.
  - destruct Hc as [->|[]]. by exists n.
  - rewrite plug_cons. destruct f as [[] x r|[] l x]; cbn in *.
    + destruct Hk as [[c' Hr] Hk]. eapply IH; [by eapply rb_black|done|by left].
    + destruct Hk as (Hr & Hb & Hk). destruct Hc as [->|]; [|done]. eapply IH; [by eapply rb_red|done|by right].
    + destruct Hk as [[c' Hr] Hk]. eapply IH; [by eapply rb_black|done|by left].
    + destruct Hk as (Hr & Hb & Hk). destruct Hc as [->|]; [|done]. eapply IH; [by eapply rb_red|done|by right].
Qed.

Lemma plug_rb_inv K t m : rb Black m (plug K t) → ∃ c n, rb c n t ∧ kok K n ∧ (c = Black ∨ kblack K).
Proof.
  revert t. induction K as [|f K IH]; intros t H; [exists Black, m; split; [exact H|cbn; auto]|]. rewrite plug_cons in H.
  destruct (IH _ H) as (c & n & Hf & Hk & Hc). destruct f as [c' x r|c' l x]; cbn in Hf.
  - inversion Hf as [|? ? ? ? Hl Hr|c1 c2 n' ? ? ? Hl Hr]; subst.
    + exists Black, n. cbn. destruct Hc; [done|]. auto.
    + exists c1, n'. cbn. split; [done|]. split; [by eauto|by right].
  - inversion Hf as [|? ? ? ? Hl Hr|c1 c2 n' ? ? ? Hl Hr]; subst.
    + exists Black, n. cbn. destruct Hc; [done|]. auto.
    + exists c2, n'. cbn. split; [done|]. split; [by eauto|by right].
Qed.

Definition blacken (t : rbt) : rbt := match t with E => E | T _ l x r => T Black l x r end.

Lemma blacken_black n t : rb Black n t → blacken t = t.
Proof. by inversion 1. Qed.

Lemma inorder_blacken t : rinorder (blacken t) = rinorder t.
Proof. by destruct t. Qed.

(** Two in-order lists that only differ in how they were put together. *)
Ltac flat_inorder := rewrite ?plug_cons; cbn [fill]; rewrite ?plug_inorder; repeat progress (cbn; rewrite <- ?app_assoc); done.

Section Insert.
Context {D : Type} (key : Z → D).
Abbreviation at_place := (at_place key).

(** ** [RB_INSERT_COLOR] *)

Lemma at_par_red h0 F K t s : at_place h0 F K t s →
  is_red (par K) s = Ret (match K with [] => false | f :: _ => bool_decide (fcolor f = Red) end) s.
Proof.
  intros H. destruct K as [|[c x r|c l x] K]; [done|..]; cbn [par fnode fcolor].
  - exact (at_is_red key _ _ _ _ _ (at_back_l key _ _ _ _ _ _ _ _ H)).
  - exact (at_is_red key _ _ _ _ _ (at_back_r key _ _ _ _ _ _ _ _ H)).
Qed.

(** The tree after the loop: in order, and red-black once its root is black. *)
Definition colored (h0 : gmap Z (rnode D)) F K t (res : result (rb_head D) unit) : Prop :=
  ∃ s' t', res = Ret tt s' ∧ at_place h0 F [] t' s' ∧ rinorder t' = rinorder (plug K t) ∧ t' ≠ E ∧ ∃ m, rb Black m (blacken t').

Lemma plug_nonempty K c l x r : plug K (T c l x r) ≠ E.
Proof.
  intros H. apply (f_equal rinorder) in H. rewrite plug_inorder in H. cbn in H.
  apply (f_equal length) in H. rewrite !length_app in H. cbn in H. lia.
Qed.

(** The loop ends at a node without a red parent. *)
Lemma color_ends h0 F K c l x r n s fuel K0 t0 : at_place h0 F K (T c l x r) s → rb c n (T c l x r) → kok K n → K = [] ∨ kblack K →
  rinorder (plug K (T c l x r)) = rinorder (plug K0 t0) →
  colored h0 F K0 t0 (insert_color_loop (Datatypes.S fuel) x s).
Proof.
  intros H Ht Hk Hb Hi. exists s, (plug K (T c l x r)). cbn [insert_color_loop].
  step (at_parent key _ _ _ _ _ _ _ _ H). step (at_par_red _ _ _ _ _ H).
  split; [destruct K as [|f K]; [done|]; destruct Hb as [?|Hb]; [done|]; cbn in Hb; by rewrite Hb|].
  split; [exact (proj1 (at_top key _ _ _ _ _) H)|]. split; [done|]. split; [apply plug_nonempty|]. destruct Hb as [->|Hb].
  - unfold plug. cbn. inversion Ht; subst; eauto with rbdb.
  - destruct (plug_rb K c n _ Ht Hk) as [m Hm]; [by right|]. exists m. by rewrite (blacken_black m).
Qed.

(** One round at a node whose parent [p] is red and a left child, and so its
    grandparent [y] black.  The uncle is red, or not. *)
Definition loop_ok h0 F (fuel : nat) : Prop := ∀ K l x r n s, at_place h0 F K (T Red l x r) s → rb Red n (T Red l x r) → kok K n →
  (length K < fuel)%nat → colored h0 F K (T Red l x r) (insert_color_loop fuel x s).

Lemma at_set_red_black h0 F K a p b y u1 u u2 c s :
  at_place h0 F K (T c (T Red a p b) y (T Red u1 u u2)) s →
  ∃ s', (rb_set_color u RB_BLACK;; RB_SET_BLACKRED p y) s = Ret tt s' ∧
    at_place h0 F K (T Red (T Black a p b) y (T Black u1 u u2)) s'.
Proof.
  intros H%at_down_r. destruct (at_set_color key _ _ _ _ Black _ _ _ _ H) as (s1 & E1 & H1%at_back_r). cbn in E1. step E1.
  exact (at_blackred_l key _ _ _ _ _ _ _ _ _ _ _ H1).
Qed.

Lemma at_set_red_black_r h0 F K a p b y u1 u u2 c s :
  at_place h0 F K (T c (T Red u1 u u2) y (T Red a p b)) s →
  ∃ s', (rb_set_color u RB_BLACK;; RB_SET_BLACKRED p y) s = Ret tt s' ∧
    at_place h0 F K (T Red (T Black u1 u u2) y (T Black a p b)) s'.
Proof.
  intros H%at_down_l. destruct (at_set_color key _ _ _ _ Black _ _ _ _ H) as (s1 & E1 & H1%at_back_l). cbn in E1. step E1.
  exact (at_blackred_r key _ _ _ _ _ _ _ _ _ _ _ H1).
Qed.

(** The parent and the grandparent, as a subtree. *)
Lemma round_left_start h0 F K f y u l x r s : at_place h0 F (f :: FL Black y u :: K) (T Red l x r) s → fcolor f = Red →
  ∃ a b, fill (T Red l x r) f = T Red a (fnode f) b ∧ at_place h0 F K (T Black (T Red a (fnode f) b) y u) s.
Proof.
  intros H Hf. destruct f as [c p b|c a p]; cbn in Hf |- *; subst c; eexists _, _; (split; [done|]).
  - by apply at_back_l, at_back_l in H.
  - by apply at_back_r, at_back_l in H.
Qed.

Lemma round_right_start h0 F K f y u l x r s : at_place h0 F (f :: FR Black u y :: K) (T Red l x r) s → fcolor f = Red →
  ∃ a b, fill (T Red l x r) f = T Red a (fnode f) b ∧ at_place h0 F K (T Black u y (T Red a (fnode f) b)) s.
Proof.
  intros H Hf. destruct f as [c p b|c a p]; cbn in Hf |- *; subst c; eexists _, _; (split; [done|]).
  - by apply at_back_l, at_back_r in H.
  - by apply at_back_r, at_back_r in H.
Qed.

Lemma fill_black n f l x r a p b : rb Red n (T Red l x r) → rb Black n (fsib f) → fill (T Red l x r) f = T Red a p b →
  rb Black (S n) (T Black a p b).
Proof. intros Ht Hs Hf. destruct f; cbn in *; injection Hf as -> <- <- <-; eauto with rbdb. Qed.

(** A rotation to the right, after which [p] is black and [y] red. *)
Lemma outer_left h0 F K c X p b y u s : at_place h0 F K (T c (T Red X p b) y u) s →
  ∃ s', (RB_SET_BLACKRED p y;; RB_ROTATE_RIGHT y) s = Ret p s' ∧ at_place h0 F K (T Black X p (T Red b y u)) s'.
Proof.
  intros H. destruct (at_blackred_l key _ _ _ _ _ _ _ _ _ _ _ H) as (s1 & E1 & H1). step E1.
  exact (at_rotate_right key _ _ _ _ _ _ _ _ _ _ _ H1).
Qed.

Lemma outer_right h0 F K c X p b y u s : at_place h0 F K (T c u y (T Red b p X)) s →
  ∃ s', (RB_SET_BLACKRED p y;; RB_ROTATE_LEFT y) s = Ret p s' ∧ at_place h0 F K (T Black (T Red u y b) p X) s'.
Proof.
  intros H. destruct (at_blackred_r key _ _ _ _ _ _ _ _ _ _ _ H) as (s1 & E1 & H1). step E1.
  exact (at_rotate_left key _ _ _ _ _ _ _ _ _ _ _ H1).
Qed.

(** The uncle is red: the three change colours and the grandparent is next. *)
Lemma left_red h0 F fuel K f y u1 z u2 l x r a b s n : loop_ok h0 F fuel →
  at_place h0 F K (T Black (T Red a (fnode f) b) y (T Red u1 z u2)) s → fill (T Red l x r) f = T Red a (fnode f) b →
  rb Red n (T Red l x r) → rb Black n (fsib f) → rb Red n (T Red u1 z u2) → kok K (S n) → (S (length K) < fuel)%nat →
  colored h0 F (f :: FL Black y (T Red u1 z u2) :: K) (T Red l x r)
    ((rb_set_color z RB_BLACK;; RB_SET_BLACKRED (fnode f) y;; insert_color_loop fuel y) s).
Proof.
  intros IH Hg Hfill Ht Hs Hu Hk Hfu. pose proof (fill_black _ _ _ _ _ _ _ _ Ht Hs Hfill). inversion Hu as [|? ? ? ? Hu1 Hu2|]; subst.
  destruct (at_set_red_black _ _ _ _ _ _ _ _ _ _ _ _ Hg) as (s1 & E1 & H1). rewrite <- bind_assoc, (bind_ret _ _ _ _ _ E1).
  destruct (IH K (T Black a (fnode f) b) y (T Black u1 z u2) (S n) s1 H1) as (s2 & t' & E2 & H2 & Hi & Hne & Hrb); [eauto with rbdb|done|lia|].
  exists s2, t'. split; [exact E2|]. split; [done|]. split; [|done]. rewrite Hi, !plug_cons, Hfill. cbn. by rewrite !plug_inorder.
Qed.

(** The uncle is black, the node on the outside: one rotation. *)
Lemma left_outer h0 F fuel K p b y u cu l x r s n : at_place h0 F K (T Black (T Red (T Red l x r) p b) y u) s →
  rb Red n (T Red l x r) → rb Black n b → rb cu n u → cu = Black → kok K (S n) → (0 < fuel)%nat →
  colored h0 F (FL Red p b :: FL Black y u :: K) (T Red l x r) ((RB_SET_BLACKRED p y;; RB_ROTATE_RIGHT y;; insert_color_loop fuel x) s).
Proof.
  intros Hg Ht Hb Hu -> Hk Hfu. destruct (outer_left _ _ _ _ _ _ _ _ _ _ Hg) as (s1 & E1 & H1). rewrite <- bind_assoc, (bind_ret _ _ _ _ _ E1).
  destruct fuel as [|fuel]; [lia|].
  eapply (color_ends h0 F (FL Black p (T Red b y u) :: K) Red l x r n); [by apply at_down_l|done| |by right|].
  - cbn. split; [eauto with rbdb|done].
  - flat_inorder.
Qed.

(** The node is on the inside: two rotations. *)
Lemma left_inner h0 F fuel K p a y u cu l x r s n : at_place h0 F K (T Black (T Red a p (T Red l x r)) y u) s →
  rb Red n (T Red l x r) → rb Black n a → rb cu n u → cu = Black → kok K (S n) → (0 < fuel)%nat →
  colored h0 F (FR Red a p :: FL Black y u :: K) (T Red l x r)
    (('(parent, elm) ← (RB_ROTATE_LEFT p;; mret (x, p)); RB_SET_BLACKRED parent y;; RB_ROTATE_RIGHT y;; insert_color_loop fuel elm) s).
Proof.
  intros Hg Ht Ha Hu -> Hk Hfu. apply at_down_l in Hg.
  destruct (at_rotate_left key _ _ _ _ _ _ _ _ _ _ _ Hg) as (s1 & E1 & H1). step E1. step (ret_ok (x, p) s1). apply at_back_l in H1.
  destruct (outer_left _ _ _ _ _ _ _ _ _ _ H1) as (s2 & E2 & H2). rewrite <- bind_assoc, (bind_ret _ _ _ _ _ E2).
  destruct fuel as [|fuel]; [lia|]. inversion Ht; subst.
  eapply (color_ends h0 F (FL Black x (T Red r y u) :: K) Red a p l n); [by apply at_down_l|eauto with rbdb| |by right|].
  - cbn. split; [eauto with rbdb|done].
  - flat_inorder.
Qed.

Lemma round_left h0 F fuel K f y u l x r s n : loop_ok h0 F fuel → at_place h0 F (f :: FL Black y u :: K) (T Red l x r) s →
  rb Red n (T Red l x r) → fcolor f = Red → rb Black n (fsib f) → (∃ c, rb c n u) → kok K (S n) → (S (length K) < fuel)%nat →
  colored h0 F (f :: FL Black y u :: K) (T Red l x r) (insert_color_loop (Datatypes.S fuel) x s).
Proof.
  intros IH H Ht Hf Hs [cu Hu] Hk Hfu. cbn [insert_color_loop].
  step (at_parent key _ _ _ _ _ _ _ _ H). step (at_par_red _ _ _ _ _ H). rewrite Hf.
  destruct (round_left_start _ _ _ _ _ _ _ _ _ _ H Hf) as (a & b & Hfill & Hg). pose proof (at_down_l key _ _ _ _ _ _ _ _ Hg) as Hp.
  change (negb (bool_decide (Red = Red))) with false. cbn [par].
  step (at_parent key _ _ _ _ _ _ _ _ Hp). cbn [par fnode]. step (at_left key _ _ _ _ _ _ _ _ Hg). cbn [rroot].
  rewrite Z.eqb_refl. step (at_right key _ _ _ _ _ _ _ _ Hg). step (at_is_red key _ _ _ _ _ (at_down_r key _ _ _ _ _ _ _ _ Hg)).
  rewrite (rb_tcolor _ _ _ Hu). destruct cu; [rewrite (bool_decide_false (Black = Red)) by done|rewrite (bool_decide_true (Red = Red)) by done]; cbv iota.
  - step (at_right key _ _ _ _ _ _ _ _ Hp). destruct f as [c p q|c q p]; cbn in Hf, Hfill, Hs; subst c; injection Hfill as <- <-; cbn [fnode rroot] in *.
    + assert (rroot q ≠ x) as Hqx.
      { intros <-; apply (at_children key _ _ _ _ _ _ _ _ Hp); [by right|done]. }
      rewrite (proj2 (Z.eqb_neq _ _) Hqx). step (ret_ok (p, x) s). cbv beta iota. eapply left_outer; try done. lia.
    + rewrite Z.eqb_refl. eapply left_inner; try done. lia.
  - inversion Hu; subst. by eapply left_red.
Qed.

(** The uncle is red: the three change colours and the grandparent is next. *)
Lemma right_red h0 F fuel K f y u1 z u2 l x r a b s n : loop_ok h0 F fuel →
  at_place h0 F K (T Black (T Red u1 z u2) y (T Red a (fnode f) b)) s → fill (T Red l x r) f = T Red a (fnode f) b →
  rb Red n (T Red l x r) → rb Black n (fsib f) → rb Red n (T Red u1 z u2) → kok K (S n) → (S (length K) < fuel)%nat →
  colored h0 F (f :: FR Black (T Red u1 z u2) y :: K) (T Red l x r)
    ((rb_set_color z RB_BLACK;; RB_SET_BLACKRED (fnode f) y;; insert_color_loop fuel y) s).
Proof.
  intros IH Hg Hfill Ht Hs Hu Hk Hfu. pose proof (fill_black _ _ _ _ _ _ _ _ Ht Hs Hfill). inversion Hu as [|? ? ? ? Hu1 Hu2|]; subst.
  destruct (at_set_red_black_r _ _ _ _ _ _ _ _ _ _ _ _ Hg) as (s1 & E1 & H1). rewrite <- bind_assoc, (bind_ret _ _ _ _ _ E1).
  destruct (IH K (T Black u1 z u2) y (T Black a (fnode f) b) (S n) s1 H1) as (s2 & t' & E2 & H2 & Hi & Hne & Hrb); [eauto with rbdb|done|lia|].
  exists s2, t'. split; [exact E2|]. split; [done|]. split; [|done]. rewrite Hi, !plug_cons, Hfill. cbn. by rewrite !plug_inorder.
Qed.

(** The uncle is black, the node on the outside: one rotation. *)
Lemma right_outer h0 F fuel K p b y u cu l x r s n : at_place h0 F K (T Black u y (T Red b p (T Red l x r))) s →
  rb Red n (T Red l x r) → rb Black n b → rb cu n u → cu = Black → kok K (S n) → (0 < fuel)%nat →
  colored h0 F (FR Red b p :: FR Black u y :: K) (T Red l x r) ((RB_SET_BLACKRED p y;; RB_ROTATE_LEFT y;; insert_color_loop fuel x) s).
Proof.
  intros Hg Ht Hb Hu -> Hk Hfu. destruct (outer_right _ _ _ _ _ _ _ _ _ _ Hg) as (s1 & E1 & H1). rewrite <- bind_assoc, (bind_ret _ _ _ _ _ E1).
  destruct fuel as [|fuel]; [lia|].
  eapply (color_ends h0 F (FR Black (T Red u y b) p :: K) Red l x r n); [by apply at_down_r|done| |by right|].
  - cbn. split; [eauto with rbdb|done].
  - flat_inorder.
Qed.

(** The node is on the inside: two rotations. *)
Lemma right_inner h0 F fuel K p a y u cu l x r s n : at_place h0 F K (T Black u y (T Red (T Red l x r) p a)) s →
  rb Red n (T Red l x r) → rb Black n a → rb cu n u → cu = Black → kok K (S n) → (0 < fuel)%nat →
  colored h0 F (FL Red p a :: FR Black u y :: K) (T Red l x r)
    (('(parent, elm) ← (RB_ROTATE_RIGHT p;; mret (x, p)); RB_SET_BLACKRED parent y;; RB_ROTATE_LEFT y;; insert_color_loop fuel elm) s).
Proof.
  intros Hg Ht Ha Hu -> Hk Hfu. apply at_down_r in Hg.
  destruct (at_rotate_right key _ _ _ _ _ _ _ _ _ _ _ Hg) as (s1 & E1 & H1). step E1. step (ret_ok (x, p) s1). apply at_back_r in H1.
  destruct (outer_right _ _ _ _ _ _ _ _ _ _ H1) as (s2 & E2 & H2). rewrite <- bind_assoc, (bind_ret _ _ _ _ _ E2).
  destruct fuel as [|fuel]; [lia|]. inversion Ht; subst.
  eapply (color_ends h0 F (FR Black (T Red u y l) x :: K) Red r p a n); [by apply at_down_r|eauto with rbdb| |by right|].
  - cbn. split; [eauto with rbdb|done].
  - flat_inorder.
Qed.

Lemma round_right h0 F fuel K f y u l x r s n : loop_ok h0 F fuel → at_place h0 F (f :: FR Black u y :: K) (T Red l x r) s →
  rb Red n (T Red l x r) → fcolor f = Red → rb Black n (fsib f) → (∃ c, rb c n u) → kok K (S n) → (S (length K) < fuel)%nat →
  colored h0 F (f :: FR Black u y :: K) (T Red l x r) (insert_color_loop (Datatypes.S fuel) x s).
Proof.
  intros IH H Ht Hf Hs [cu Hu] Hk Hfu. cbn [insert_color_loop].
  step (at_parent key _ _ _ _ _ _ _ _ H). step (at_par_red _ _ _ _ _ H). rewrite Hf.
  destruct (round_right_start _ _ _ _ _ _ _ _ _ _ H Hf) as (a & b & Hfill & Hg). pose proof (at_down_r key _ _ _ _ _ _ _ _ Hg) as Hp.
  change (negb (bool_decide (Red = Red))) with false. cbn [par].
  step (at_parent key _ _ _ _ _ _ _ _ Hp). cbn [par fnode]. step (at_left key _ _ _ _ _ _ _ _ Hg). cbn [rroot].
  assert (fnode f ≠ rroot u) as Hne by (intros Hn; symmetry in Hn; revert Hn; apply (at_children key _ _ _ _ _ _ _ _ Hg); by left).
  rewrite (proj2 (Z.eqb_neq _ _) Hne). step (at_left key _ _ _ _ _ _ _ _ Hg). step (at_is_red key _ _ _ _ _ (at_down_l key _ _ _ _ _ _ _ _ Hg)).
  rewrite (rb_tcolor _ _ _ Hu). destruct cu; [rewrite (bool_decide_false (Black = Red)) by done|rewrite (bool_decide_true (Red = Red)) by done]; cbv iota.
  - step (at_left key _ _ _ _ _ _ _ _ Hp). destruct f as [c p q|c q p]; cbn in Hf, Hfill, Hs; subst c; injection Hfill as <- <-; cbn [fnode rroot] in *.
    + rewrite Z.eqb_refl. eapply right_inner; try done. lia.
    + assert (rroot q ≠ x) as Hqx.
      { intros <-; apply (at_children key _ _ _ _ _ _ _ _ Hp); [by left|done]. }
      rewrite (proj2 (Z.eqb_neq _ _) Hqx). step (ret_ok (p, x) s). cbv beta iota. eapply right_outer; try done. lia.
  - inversion Hu; subst. by eapply right_red.
Qed.

Lemma insert_color_loop_ok h0 F fuel : loop_ok h0 F fuel.
Proof.
  induction fuel as [|fuel IH]; intros K l x r n s H Ht Hk Hfu; [lia|].
  destruct K as [|f K]; [by eapply color_ends; eauto|]. destruct (fcolor f) eqn:Hf.
  - eapply color_ends; eauto.
  - cbn in Hk. rewrite Hf in Hk. destruct Hk as (Hs & Hb & Hk). destruct K as [|g K]; [done|].
    cbn in Hb, Hfu. destruct g as [c y u|c u y]; cbn in Hb, Hk; subst c; destruct Hk as [Hu Hk].
    + eapply round_left; eauto. lia.
    + eapply round_right; eauto. lia.
Qed.

Lemma plug_length K t : (length K + length (rinorder t) ≤ length (rinorder (plug K t)))%nat.
Proof.
  revert t. induction K as [|f K IH]; intros t; [done|]. rewrite plug_cons. specialize (IH (fill t f)).
  destruct f; cbn in *; rewrite length_app in IH; cbn in IH; lia.
Qed.

Lemma at_depth h0 F K t s : at_place h0 F K t s → (length K + length (rinorder t) ≤ size (rb_heap s))%nat.
Proof. intros H. pose proof (plug_length K t). apply at_fuel in H as [_ H]. lia. Qed.

Lemma at_root h0 F t s : at_place h0 F [] t s → RB_ROOT s = Ret (rroot t) s.
Proof. intros H. unfold RB_ROOT. rewrite bind_get. by rewrite (ap_root _ _ _ _ _ _ H). Qed.

Lemma RB_INSERT_COLOR_ok h0 F K l x r n s : at_place h0 F K (T Red l x r) s → rb Red n (T Red l x r) → kok K n →
  ∃ s' t' m, RB_INSERT_COLOR x s = Ret tt s' ∧ at_place h0 F [] t' s' ∧ rinorder t' = rinorder (plug K (T Red l x r)) ∧ rb Black m t'.
Proof.
  intros H Ht Hk. unfold RB_INSERT_COLOR. step (proj1 (at_fuel key _ _ _ _ _ H)). pose proof (at_depth _ _ _ _ _ H).
  destruct (insert_color_loop_ok h0 F (Datatypes.S (size (rb_heap s))) K l x r n s H Ht Hk) as (s1 & t1 & E1 & H1 & Hi & Hne & m & Hm); [lia|].
  step E1. destruct t1 as [|c l1 y r1]; [done|]. step (at_root _ _ _ _ H1).
  destruct (at_set_color key _ _ _ _ Black _ _ _ _ H1) as (s2 & E2 & H2). exists s2, (T Black l1 y r1), m. by split_and!.
Qed.
End Insert.

(** ** Going down the tree *)

Section Descent.
Context {D : Type} (cmp : D → D → Z) `{!TotalCmp cmp} (key : Z → D).
Abbreviation at_place := (at_place key).
Abbreviation sorted := (sorted cmp key).
Abbreviation all_before := (all_before cmp key).
Abbreviation all_after := (all_after cmp key).

(** Structs are compared by their data, which stays as it is. *)
Record rb_env (h : gmap Z (rnode D)) : Prop := {
  renv_null : h !! NULL = None;
  renv_key : ∀ q n, h !! q = Some n → rb_data n = key q
}.

Lemma rb_compare_ok s a b : rb_env (rb_heap s) → is_Some (rb_heap s !! a) → is_Some (rb_heap s !! b) →
  rb_compare cmp a b s = Ret (cmp (key a) (key b)) s.
Proof.
  intros He [n Ha] [m Hb]. unfold rb_compare. step (on_rb_load _ _ _ Ha). step (on_rb_load _ _ _ Hb).
  by rewrite (renv_key _ He _ _ Ha), (renv_key _ He _ _ Hb).
Qed.

Lemma at_compare h0 F K c l x r s e : at_place h0 F K (T c l x r) s → rb_env (rb_heap s) → is_Some (rb_heap s !! e) →
  rb_compare cmp e x s = Ret (cmp (key e) (key x)) s.
Proof. intros H He Hh. apply rb_compare_ok; [done|done|]. by rewrite (at_node key _ _ _ _ _ _ _ _ H). Qed.

(** What is outside the place is before [e], or after it. *)
Definition brackets (K : list frame) (e : Z) : Prop := all_before (kleft K) e ∧ all_after e (kright K).

Lemma place_sorted K c l x r : sorted (rinorder (plug K (T c l x r))) →
  all_before (kleft K ++ rinorder l) x ∧ all_after x (rinorder r ++ kright K).
Proof. rewrite plug_inorder. cbn. rewrite <- app_assoc, app_assoc. cbn. intros (_ & _ & ? & ? & _)%sorted_mid. done. Qed.

Lemma before_trans l x e : all_before l x → cmp (key x) (key e) ≤ 0 → all_before l e.
Proof. intros H Hxe. eapply Forall_impl; [exact H|]. intros y Hy. cbv beta in *. by eapply cmp_lt_le_trans. Qed.

Lemma after_trans r x e : all_after x r → cmp (key e) (key x) ≤ 0 → all_after e r.
Proof. intros H Hxe. eapply Forall_impl; [exact H|]. intros y Hy. cbv beta in *. by eapply cmp_le_lt_trans. Qed.

Lemma brackets_left K c l x r e : sorted (rinorder (plug K (T c l x r))) → brackets K e → cmp (key e) (key x) < 0 →
  brackets (FL c x r :: K) e.
Proof.
  intros [_ Ha]%place_sorted [Hl Hr] Hc. split; [done|]. cbn. constructor; [done|]. eapply after_trans; [exact Ha|lia].
Qed.

Lemma brackets_right K c l x r e : sorted (rinorder (plug K (T c l x r))) → brackets K e → 0 < cmp (key e) (key x) →
  brackets (FR c l x :: K) e.
Proof.
  intros [Hb _]%place_sorted [Hl Hr] Hc. split; [|done]. cbn. apply (cmp_lt_gt cmp) in Hc. rewrite app_assoc. apply Forall_app.
  split; [|by repeat constructor]. eapply before_trans; [exact Hb|lia].
Qed.

Lemma brackets_found K c l x r e : sorted (rinorder (plug K (T c l x r))) → cmp (key e) (key x) = 0 →
  all_before (kleft K ++ rinorder l) e ∧ all_after e (rinorder r ++ kright K).
Proof.
  intros [Hb Ha]%place_sorted Hc. split; [eapply before_trans|eapply after_trans]; try done; [|lia].
  apply (cmp_eq_sym cmp) in Hc. lia.
Qed.

Fixpoint rheight (t : rbt) : nat := match t with E => 0 | T _ l _ r => S (Nat.max (rheight l) (rheight r)) end.

Lemma rheight_size t : (rheight t ≤ length (rinorder t))%nat.
Proof. induction t as [|c l IHl x r IHr]; cbn; [done|]. rewrite length_app. cbn. lia. Qed.

(** ** [RB_INSERT] *)

Definition went (K : list frame) (comp : Z) : Prop :=
  match K with [] => True | FL _ _ _ :: _ => comp < 0 | FR _ _ _ :: _ => 0 < comp end.

Lemma insert_loop_ok h0 F fuel K t s e comp : at_place h0 F K t s → rb_env (rb_heap s) → is_Some (rb_heap s !! e) →
  sorted (rinorder (plug K t)) → brackets K e → went K comp → (rheight t < fuel)%nat →
  (∃ K' c l x r, plug K t = plug K' (T c l x r) ∧ cmp (key e) (key x) = 0 ∧
     insert_loop cmp fuel e (rroot t) (par K) comp s = Ret (inl x) s) ∨
  (∃ K' comp', plug K t = plug K' E ∧ brackets K' e ∧ went K' comp' ∧
     insert_loop cmp fuel e (rroot t) (par K) comp s = Ret (inr (par K', comp')) s).
Proof.
  intros H He Hh. revert K t comp H. induction fuel as [|fuel IH]; intros K t comp H Hs Hb Hw Hfu; [lia|].
  cbn [insert_loop]. rewrite (at_null key _ _ _ _ _ H). destruct t as [|c l x r]; [right; by exists K, comp|].
  cbn [rroot]. rewrite (bind_ret _ _ _ _ _ (at_compare _ _ _ _ _ _ _ _ _ H He Hh)). cbn in Hfu.
  destruct (Z.ltb_spec (cmp (key e) (key x)) 0) as [Hc|Hc].
  - rewrite (bind_ret _ _ _ _ _ (at_left key _ _ _ _ _ _ _ _ H)). apply (IH (FL c x r :: K)); try done; [by apply at_down_l|by eapply brackets_left|lia].
  - destruct (Z.ltb_spec 0 (cmp (key e) (key x))) as [Hc'|Hc'].
    + rewrite (bind_ret _ _ _ _ _ (at_right key _ _ _ _ _ _ _ _ H)). apply (IH (FR c l x :: K)); try done; [by apply at_down_r|by eapply brackets_right|lia].
    + left. exists K, c, l, x, r. split; [done|]. split; [lia|done].
Qed.

Lemma RB_SET_ok h0 (s : rb_head D) e n p G : valid h0 (rb_heap s) ((e, n) :: G) →
  ∃ s', RB_SET e p s = Ret tt s' ∧ valid h0 (rb_heap s') ((e, RNode NULL NULL p RB_RED (rb_data n)) :: G) ∧ rbh_root s' = rbh_root s.
Proof.
  intros Hv. unfold RB_SET.
  destruct (rb_update h0 s _ e n G (λ n, RNode (rbe_left n) (rbe_right n) p (rbe_color n) (rb_data n)) Hv ltac:(done)) as (s1 & E1 & H1 & R1).
  step E1. destruct (rb_update h0 s1 _ e _ G (λ n, RNode (rbe_left n) NULL (rbe_parent n) (rbe_color n) (rb_data n)) H1 ltac:(done)) as (s2 & E2 & H2 & R2).
  step E2. destruct (rb_update h0 s2 _ e _ G (λ n, RNode NULL (rbe_right n) (rbe_parent n) (rbe_color n) (rb_data n)) H2 ltac:(done)) as (s3 & E3 & H3 & R3).
  step E3. destruct (rb_update h0 s3 _ e _ G (λ n, RNode (rbe_left n) (rbe_right n) (rbe_parent n) RB_RED (rb_data n)) H3 ltac:(done)) as (s4 & E4 & H4 & R4).
  exists s4. split; [exact E4|]. split; [exact H4|congruence].
Qed.

(** The parent, if any, gets the new child. *)
Lemma set_child_ok h0 (s : rb_head D) G K comp e : valid h0 (rb_heap s) (G ++ knodes key K NULL) → went K comp → rbh_root s = kroot K NULL →
  ∃ s', (if negb (par K =? NULL) then if comp <? 0 then rb_set_left (par K) e else rb_set_right (par K) e else rb_set_root e) s = Ret tt s' ∧
    valid h0 (rb_heap s') (G ++ knodes key K e) ∧ rbh_root s' = kroot K e.
Proof.
  intros Hv Hw Hr. destruct K as [|f K]; [by exists (RbHead (rb_heap s) e)|].
  assert ((par (f :: K) =? NULL) = false) as ->.
  { apply Z.eqb_neq. apply (valid_nonnull _ _ _ _ Hv). rewrite fmap_app. destruct f; cbn; set_solver. }
  cbn [negb]. destruct f as [c x r|c l x]; cbn in Hw, Hv |- *.
  - rewrite (proj2 (Z.ltb_lt _ _) Hw).
    destruct (rb_update h0 s _ x (RNode NULL (rroot r) (par K) (color_int c) (key x)) (G ++ rnodes key x r ++ knodes key K x)
      (λ n, RNode e (rbe_right n) (rbe_parent n) (rbe_color n) (rb_data n)) Hv ltac:(solve_Permutation)) as (s1 & E1 & H1 & R1).
    exists s1. split; [exact E1|]. split; [|by rewrite R1]. eapply valid_perm; [exact H1|]. cbn. solve_Permutation.
  - rewrite (proj2 (Z.ltb_ge _ _)) by lia.
    destruct (rb_update h0 s _ x (RNode (rroot l) NULL (par K) (color_int c) (key x)) (G ++ rnodes key x l ++ knodes key K x)
      (λ n, RNode (rbe_left n) e (rbe_parent n) (rbe_color n) (rb_data n)) Hv ltac:(solve_Permutation)) as (s1 & E1 & H1 & R1).
    exists s1. split; [exact E1|]. split; [|by rewrite R1]. eapply valid_perm; [exact H1|]. cbn. solve_Permutation.
Qed.

Lemma at_own h0 K s e : at_place h0 [] K E s → rb_env (rb_heap s) → is_Some (rb_heap s !! e) → brackets K e →
  ∃ n, rb_data n = key e ∧ valid h0 (rb_heap s) ((e, n) :: knodes key K NULL).
Proof.
  intros [Hv _] He [n Hn] [Hl Hr]. exists n. split; [by eapply renv_key|]. apply valid_own; [exact Hv|done| |].
  - intros ->. by rewrite (renv_null _ He) in Hn.
  - assert (rinorder (plug K E) ≡ₚ (knodes key K NULL).*1) as Hp by (by rewrite <- (rnodes_inorder key NULL), rnodes_plug).
    rewrite <- Hp, plug_inorder. cbn. unfold Ordered.all_before, Ordered.all_after in *. rewrite Forall_forall in Hl, Hr.
    intros [Hin|Hin]%elem_of_app; [specialize (Hl _ Hin)|specialize (Hr _ Hin)]; cbv beta in *; rewrite (cmp_refl cmp) in *; lia.
Qed.

(** The set after [RB_INSERT], and what it returns. *)
Lemma RB_INSERT_ok t m s e : at_place (rb_heap s) [] [] t s → rb Black m t → rb_env (rb_heap s) → is_Some (rb_heap s !! e) →
  sorted (rinorder t) →
  ∃ s' t' m', RB_INSERT cmp e s = Ret (ptr (same_key cmp key e (rinorder t))) s' ∧ at_place (rb_heap s) [] [] t' s' ∧ rb Black m' t' ∧
    rinorder t' = inserted cmp key e (rinorder t) ∧ sorted (rinorder t').
Proof.
  intros H Ht He Hh Hs. unfold RB_INSERT. destruct (at_fuel key _ _ _ _ _ H) as [Ef Hf]. step Ef. step (at_root key _ _ _ _ H).
  pose proof (rheight_size t).
  destruct (insert_loop_ok (rb_heap s) [] (Datatypes.S (size (rb_heap s))) [] t s e 0 H He Hh Hs) as [(K & c & l & x & r & Hp & Hx & E1)|(K & comp & Hp & Hb & Hw & E1)];
    [by split; constructor|done|unfold plug in Hf; cbn in Hf; lia|..]; unfold plug in Hp at 1; cbn in Hp; cbn [par] in E1; step E1.
  - subst t. destruct (brackets_found _ _ _ _ _ _ Hs Hx) as [Hl Hr].
    assert (same_key cmp key e (rinorder (plug K (T c l x r))) = Some x) as Hk.
    { rewrite plug_inorder. cbn. rewrite <- app_assoc, app_assoc. by apply same_key_some. }
    exists s, (plug K (T c l x r)), m. rewrite Hk. split_and!; try done. by rewrite (inserted_old _ _ _ _ _ Hk).
  - subst t. apply at_top in H. destruct Hb as [Hl Hr]. rewrite plug_inorder. cbn [rinorder app].
    rewrite same_key_none, inserted_new by done. destruct (at_own _ _ _ _ H He Hh) as (n & Hn & Hv); [done|].
    destruct (RB_SET_ok _ _ _ _ (par K) _ Hv) as (s1 & E2 & Hv1 & R1). step E2.
    destruct (set_child_ok _ _ [_] _ _ e Hv1 Hw) as (s2 & E3 & Hv2 & R2); [by rewrite R1, (ap_root _ _ _ _ _ _ H)|]. step E3.
    destruct (plug_rb_inv _ _ _ Ht) as (c & n' & Hc & Hk & _). inversion Hc; subst.
    destruct (RB_INSERT_COLOR_ok key (rb_heap s) [] K E e E 0 s2) as (s3 & t' & m' & E4 & H4 & Hi & Hm); [|eauto with rbdb|done|].
    { split; [|by rewrite R2]. cbn. by rewrite <- Hn. }
    step E4. exists s3, t', m'. split_and!; try done; rewrite Hi, plug_inorder; [done|]. rewrite plug_inorder in Hs. by apply sorted_insert.
Qed.
End Descent.
