(* ===== verification/RbRemove.v ===== *)
(** * Removing from a red-black tree

    [RB_REMOVE_COLOR] repairs a tree in which the paths through one place have a
    black node less than the others, and [RB_REMOVE] takes out a node, or puts
    the next one in its place first. *)

From stdpp Require Import base numbers list gmap fin_maps.
From S2P Require Import Prelude UtList Ordered RbTree RbRep RbInsert.

Section Remove.
Context {D : Type} (key : Z → D).
Abbreviation at_place := (at_place key).
Abbreviation S' := (rb_head D).

(** ** [RB_REMOVE_COLOR] *)

(** The subtree at the place is one black node short of what is around it,
    unless its root is red and can be made black. *)
Definition short (n : nat) (t : rbt) : Prop := rb Black n t ∨ (tcolor t = Red ∧ rb Black (S n) (blacken t)).

(** The loop ends at a node after which, made black, the tree is red-black. *)
Definition repaired (h0 : gmap Z (rnode D)) F K t (res : result S' Z) : Prop :=
  ∃ s' K' t' m, res = Ret (rroot t') s' ∧ at_place h0 F K' t' s' ∧ rinorder (plug K' t') = rinorder (plug K t) ∧
    rb Black m (plug K' (blacken t')).

Lemma root_read (s : S') : RB_ROOT s = Ret (rbh_root s) s.
Proof. done. Qed.

Lemma remove_ends_red h0 F K t n s fuel : at_place h0 F K t s → tcolor t = Red → rb Black (S n) (blacken t) → kok K (S n) →
  repaired h0 F K t (remove_color_loop (Datatypes.S fuel) (par K) (rroot t) s).
Proof.
  intros H Hc Ht Hk. cbn [remove_color_loop]. step (at_is_black key _ _ _ _ _ H). step (root_read s).
  rewrite Hc, (bool_decide_false (Red = Black)) by done. cbn.
  destruct (plug_rb K Black (S n) (blacken t) Ht Hk) as [m Hm]; [by left|]. exists s, K, t, m. by split_and!.
Qed.

Lemma remove_ends_root h0 F t n s fuel : at_place h0 F [] t s → rb Black n t →
  repaired h0 F [] t (remove_color_loop (Datatypes.S fuel) NULL (rroot t) s).
Proof.
  intros H Ht. cbn [remove_color_loop]. step (at_is_black key _ _ _ _ _ H). step (at_root key _ _ _ _ H).
  rewrite Z.eqb_refl, andb_false_r. cbn. exists s, [], t, n. split_and!; try done. by rewrite (blacken_black n).
Qed.

(** Above the root, nothing is the root. *)
Lemma kroot_in K v : K ≠ [] → kroot K v ∈ kleft K ++ kright K.
Proof.
  intros HK. assert (∀ K v, kroot K v = v ∨ kroot K v ∈ kleft K ++ kright K) as H.
  { clear. induction K as [|f K IH]; intros v; [by left|]. right. cbn [kroot]. destruct (IH (fnode f)) as [->|H]; destruct f; cbn; set_solver. }
  destruct K as [|f K]; [done|]. cbn [kroot]. destruct (H K (fnode f)) as [->|Hin]; destruct f; cbn; set_solver.
Qed.

Lemma place_not_root h0 F f K t s : at_place h0 F (f :: K) t s → rroot t ≠ rbh_root s.
Proof.
  intros H. rewrite (ap_root _ _ _ _ _ _ H). pose proof (kroot_in (f :: K) (rroot t) ltac:(done)) as Hin.
  apply at_top in H as [Hv _]. cbn in Hv. rewrite app_nil_r in Hv.
  pose proof (v_nodup _ _ _ Hv) as Hnd. pose proof (v_null _ _ _ Hv) as Hnull. rewrite fmap_app, rnodes_inorder, plug_inorder in Hnd, Hnull.
  intros Hr. rewrite <- Hr in Hin. destruct t as [|c l x r]; cbn [rroot] in Hin; [set_solver|].
  apply NoDup_app in Hnd as (_ & _ & Hnd). cbn in Hnd. rewrite NoDup_app in Hnd. destruct Hnd as (_ & H1 & Hnd).
  rewrite <- app_assoc in Hnd. cbn in Hnd. apply NoDup_app in Hnd as (_ & _ & [Hx _]%NoDup_cons). set_solver.
Qed.

(** What one side of the loop does once the sibling [tmp] is black. *)
Definition black_sibling (last : Z → Z → M S' unit) (fuel : nat) (parent tmp : Z) : M S' Z :=
  l ← RB_LEFT tmp;
  lblack ← is_black l;
  both ← (if (lblack : bool) then r ← RB_RIGHT tmp; is_black r else mret false);
  if (both : bool) then
    rb_set_color tmp RB_RED;;
    gparent ← RB_PARENT parent;
    remove_color_loop fuel gparent parent
  else
    last parent tmp;;
    RB_ROOT.

Lemma both_ok {A} h0 F K c a w b s (k : bool → M S' A) : at_place h0 F K (T c a w b) s →
  (l ← RB_LEFT w; lblack ← is_black l; both ← (if (lblack : bool) then r ← RB_RIGHT w; is_black r else mret false); k both) s =
  k (bool_decide (tcolor a = Black) && bool_decide (tcolor b = Black)) s.
Proof.
  intros H. step (at_left key _ _ _ _ _ _ _ _ H). step (at_is_black key _ _ _ _ _ (at_down_l key _ _ _ _ _ _ _ _ H)).
  destruct (bool_decide (tcolor a = Black)); [|done].
  step (at_right key _ _ _ _ _ _ _ _ H). by step (at_is_black key _ _ _ _ _ (at_down_r key _ _ _ _ _ _ _ _ H)).
Qed.

(** The black nodes on the paths of a tree of colour [c], that takes the place of a short one. *)
Definition full (c : color) (n : nat) : nat := match c with Black => S (S n) | Red => S n end.

(** The sibling takes the colour and the place of the parent. *)
Lemma last_right_end h0 F K c t p cw a w b1 v b2 s : at_place h0 F K (T c t p (T cw a w (T Red b1 v b2))) s →
  ∃ s', (c ← RB_COLOR p; rb_set_color w c;; rb_set_color p RB_BLACK;; r ← RB_RIGHT w;
         (if negb (r =? NULL) then rb_set_color r RB_BLACK else mret tt);; RB_ROTATE_LEFT p;; mret tt) s = Ret tt s' ∧
    at_place h0 F K (T c (T Black t p a) w (T Black b1 v b2)) s'.
Proof.
  intros H. step (at_color key _ _ _ _ _ _ _ _ H). apply at_down_r in H.
  destruct (at_set_color key _ _ _ _ c _ _ _ _ H) as (s1 & E1 & H1). step E1. apply at_back_r in H1.
  destruct (at_set_color key _ _ _ _ Black _ _ _ _ H1) as (s2 & E2 & H2). cbn in E2. step E2. apply at_down_r in H2.
  step (at_right key _ _ _ _ _ _ _ _ H2). apply at_down_r in H2. cbn [rroot]. rewrite (at_nonnull key _ _ _ _ _ _ _ _ H2). cbn [negb].
  destruct (at_set_color key _ _ _ _ Black _ _ _ _ H2) as (s3 & E3 & H3). cbn in E3. step E3. apply at_back_r, at_back_r in H3.
  destruct (at_rotate_left key _ _ _ _ _ _ _ _ _ _ _ H3) as (s4 & E4 & H4). step E4. by exists s4.
Qed.

(** The red child of the sibling is on the inside: it takes the place of the sibling first. *)
Lemma last_right_inner h0 F K c t p a1 u a2 w b s : at_place h0 F K (T c t p (T Black (T Red a1 u a2) w b)) s → tcolor b = Black →
  ∃ s', remove_color_last_right p w s = Ret tt s' ∧ at_place h0 F K (T c (T Black t p a1) u (T Black a2 w b)) s'.
Proof.
  intros H Hb. unfold remove_color_last_right. apply at_down_r in H. step (at_right key _ _ _ _ _ _ _ _ H).
  step (at_is_black key _ _ _ _ _ (at_down_r key _ _ _ _ _ _ _ _ H)). rewrite Hb, (bool_decide_true (Black = Black)) by done. cbv iota.
  step (at_left key _ _ _ _ _ _ _ _ H). apply at_down_l in H. cbn [rroot]. rewrite (at_nonnull key _ _ _ _ _ _ _ _ H). cbn [negb].
  destruct (at_set_color key _ _ _ _ Black _ _ _ _ H) as (s1 & E1 & H1). cbn in E1. step E1. apply at_back_l in H1.
  destruct (at_set_color key _ _ _ _ Red _ _ _ _ H1) as (s2 & E2 & H2). cbn in E2. step E2.
  destruct (at_rotate_right key _ _ _ _ _ _ _ _ _ _ _ H2) as (s3 & E3 & H3). step E3. apply at_back_r in H3.
  step (at_right key _ _ _ _ _ _ _ _ H3). cbn [rroot]. by apply last_right_end with Black.
Qed.

Lemma last_right_outer h0 F K c t p a w b1 v b2 s : at_place h0 F K (T c t p (T Black a w (T Red b1 v b2))) s →
  ∃ s', remove_color_last_right p w s = Ret tt s' ∧ at_place h0 F K (T c (T Black t p a) w (T Black b1 v b2)) s'.
Proof.
  intros H0. unfold remove_color_last_right. pose proof (at_down_r key _ _ _ _ _ _ _ _ H0) as H. step (at_right key _ _ _ _ _ _ _ _ H).
  step (at_is_black key _ _ _ _ _ (at_down_r key _ _ _ _ _ _ _ _ H)). cbn [tcolor]. rewrite (bool_decide_false (Red = Black)) by done. cbv iota.
  step (ret_ok w s). by apply last_right_end with Black.
Qed.

Lemma last_right_ok h0 F K c t p a w b s n ca cb : at_place h0 F K (T c t p (T Black a w b)) s → rb Black n t → rb ca n a → rb cb n b →
  bool_decide (ca = Black) && bool_decide (cb = Black) = false →
  ∃ s' t', remove_color_last_right p w s = Ret tt s' ∧ at_place h0 F K t' s' ∧
    rinorder t' = rinorder (T c t p (T Black a w b)) ∧ rb c (full c n) t'.
Proof.
  intros H Ht Ha Hb Hab. destruct cb.
  - destruct ca; [done|]. inversion Ha as [|? a1 u a2 Ha1 Ha2|]; subst.
    destruct (last_right_inner h0 F K c t p a1 u a2 w b s H) as (s' & Hr & H'); [exact (rb_tcolor _ _ _ Hb)|].
    eexists s', _. split; [exact Hr|]. split; [exact H'|]. split; [flat_inorder|]. destruct c; cbn; eauto with rbdb.
  - inversion Hb as [|? b1 v b2 Hb1 Hb2|]; subst.
    destruct (last_right_outer h0 F K c t p a w b1 v b2 s H) as (s' & Hr & H').
    eexists s', _. split; [exact Hr|]. split; [exact H'|]. split; [flat_inorder|]. destruct c; cbn; eauto with rbdb.
Qed.

(** The sibling takes the colour and the place of the parent. *)
Lemma last_left_end h0 F K c t p cw a w b1 v b2 s : at_place h0 F K (T c (T cw (T Red b2 v b1) w a) p t) s →
  ∃ s', (c ← RB_COLOR p; rb_set_color w c;; rb_set_color p RB_BLACK;; l ← RB_LEFT w;
         (if negb (l =? NULL) then rb_set_color l RB_BLACK else mret tt);; RB_ROTATE_RIGHT p;; mret tt) s = Ret tt s' ∧
    at_place h0 F K (T c (T Black b2 v b1) w (T Black a p t)) s'.
Proof.
  intros H. step (at_color key _ _ _ _ _ _ _ _ H). apply at_down_l in H.
  destruct (at_set_color key _ _ _ _ c _ _ _ _ H) as (s1 & E1 & H1). step E1. apply at_back_l in H1.
  destruct (at_set_color key _ _ _ _ Black _ _ _ _ H1) as (s2 & E2 & H2). cbn in E2. step E2. apply at_down_l in H2.
  step (at_left key _ _ _ _ _ _ _ _ H2). apply at_down_l in H2. cbn [rroot]. rewrite (at_nonnull key _ _ _ _ _ _ _ _ H2). cbn [negb].
  destruct (at_set_color key _ _ _ _ Black _ _ _ _ H2) as (s3 & E3 & H3). cbn in E3. step E3. apply at_back_l, at_back_l in H3.
  destruct (at_rotate_right key _ _ _ _ _ _ _ _ _ _ _ H3) as (s4 & E4 & H4). step E4. by exists s4.
Qed.

(** The red child of the sibling is on the inside: it takes the place of the sibling first. *)
Lemma last_left_inner h0 F K c t p a1 u a2 w b s : at_place h0 F K (T c (T Black b w (T Red a2 u a1)) p t) s → tcolor b = Black →
  ∃ s', remove_color_last_left p w s = Ret tt s' ∧ at_place h0 F K (T c (T Black b w a2) u (T Black a1 p t)) s'.
Proof.
  intros H Hb. unfold remove_color_last_left. apply at_down_l in H. step (at_left key _ _ _ _ _ _ _ _ H).
  step (at_is_black key _ _ _ _ _ (at_down_l key _ _ _ _ _ _ _ _ H)). rewrite Hb, (bool_decide_true (Black = Black)) by done. cbv iota.
  step (at_right key _ _ _ _ _ _ _ _ H). apply at_down_r in H. cbn [rroot]. rewrite (at_nonnull key _ _ _ _ _ _ _ _ H). cbn [negb].
  destruct (at_set_color key _ _ _ _ Black _ _ _ _ H) as (s1 & E1 & H1). cbn in E1. step E1. apply at_back_r in H1.
  destruct (at_set_color key _ _ _ _ Red _ _ _ _ H1) as (s2 & E2 & H2). cbn in E2. step E2.
  destruct (at_rotate_left key _ _ _ _ _ _ _ _ _ _ _ H2) as (s3 & E3 & H3). step E3. apply at_back_l in H3.
  step (at_left key _ _ _ _ _ _ _ _ H3). cbn [rroot]. by apply last_left_end with Black.
Qed.

Lemma last_left_outer h0 F K c t p a w b1 v b2 s : at_place h0 F K (T c (T Black (T Red b2 v b1) w a) p t) s →
  ∃ s', remove_color_last_left p w s = Ret tt s' ∧ at_place h0 F K (T c (T Black b2 v b1) w (T Black a p t)) s'.
Proof.
  intros H0. unfold remove_color_last_left. pose proof (at_down_l key _ _ _ _ _ _ _ _ H0) as H. step (at_left key _ _ _ _ _ _ _ _ H).
  step (at_is_black key _ _ _ _ _ (at_down_l key _ _ _ _ _ _ _ _ H)). cbn [tcolor]. rewrite (bool_decide_false (Red = Black)) by done. cbv iota.
  step (ret_ok w s). by apply last_left_end with Black.
Qed.

Lemma last_left_ok h0 F K c t p a w b s n ca cb : at_place h0 F K (T c (T Black b w a) p t) s → rb Black n t → rb ca n a → rb cb n b →
  bool_decide (ca = Black) && bool_decide (cb = Black) = false →
  ∃ s' t', remove_color_last_left p w s = Ret tt s' ∧ at_place h0 F K t' s' ∧
    rinorder t' = rinorder (T c (T Black b w a) p t) ∧ rb c (full c n) t'.
Proof.
  intros H Ht Ha Hb Hab. destruct cb.
  - destruct ca; [done|]. inversion Ha as [|? a1 u a2 Ha1 Ha2|]; subst.
    destruct (last_left_inner h0 F K c t p a2 u a1 w b s H) as (s' & Hr & H'); [exact (rb_tcolor _ _ _ Hb)|].
    eexists s', _. split; [exact Hr|]. split; [exact H'|]. split; [flat_inorder|]. destruct c; cbn; eauto with rbdb.
  - inversion Hb as [|? b1 v b2 Hb1 Hb2|]; subst.
    destruct (last_left_outer h0 F K c t p a w b2 v b1 s H) as (s' & Hr & H').
    eexists s', _. split; [exact Hr|]. split; [exact H'|]. split; [flat_inorder|]. destruct c; cbn; eauto with rbdb.
Qed.

Lemma kok_full f K n : kok (f :: K) (S n) →
  (∃ c, rb c (S n) (fsib f)) ∧ kok K (full (fcolor f) n) ∧ (fcolor f = Black ∨ kblack K).
Proof. cbn. destruct (fcolor f); naive_solver. Qed.

Lemma repaired_same h0 F K t K0 t0 res : repaired h0 F K t res → rinorder (plug K t) = rinorder (plug K0 t0) → repaired h0 F K0 t0 res.
Proof. intros (s' & K' & t' & m & Hres & H & Hi & Hm) He. exists s', K', t', m. split_and!; try done. by rewrite Hi. Qed.

Lemma short_up c n t' : rb Black (S n) (blacken t') → tcolor t' = c → ∃ n', short n' t' ∧ full c n = S n'.
Proof.
  intros H Hc. destruct c; [exists (S n)|exists n]; (split; [|done]); [left|by right]. by destruct t' as [|[] ? ? ?].
Qed.

Lemma black_sibling_right h0 F fuel K c p a w b t s n :
  at_place h0 F (FL c p (T Black a w b) :: K) t s → rb Black n t → kok (FL c p (T Black a w b) :: K) (S n) →
  (∀ s' n', at_place h0 F K (T c t p (T Red a w b)) s' → short n' (T c t p (T Red a w b)) → kok K (S n') →
     repaired h0 F K (T c t p (T Red a w b)) (remove_color_loop fuel (par K) p s')) →
  repaired h0 F (FL c p (T Black a w b) :: K) t (black_sibling remove_color_last_right fuel p w s).
Proof.
  intros H Ht Hk IH. apply at_back_l in H. apply kok_full in Hk as ([cw Hw] & Hk & Hb). cbn [fsib fcolor] in *.
  inversion Hw as [| |ca cb ? ? ? ? Ha Hb']; subst. pose proof (at_down_r key _ _ _ _ _ _ _ _ H) as H1.
  unfold black_sibling. rewrite (both_ok _ _ _ _ _ _ _ _ _ H1), (rb_tcolor _ _ _ Ha), (rb_tcolor _ _ _ Hb').
  destruct (bool_decide (ca = Black) && bool_decide (cb = Black)) eqn:Hab.
  - apply andb_true_iff in Hab as [->%bool_decide_eq_true ->%bool_decide_eq_true].
    destruct (at_set_color key _ _ _ _ Red _ _ _ _ H1) as (s2 & E2 & H2). cbn in E2. step E2. apply at_back_r in H2.
    step (at_parent key _ _ _ _ _ _ _ _ H2).
    destruct (short_up c n (T c t p (T Red a w b))) as (n' & Hn & Hf); [cbn; eauto with rbdb|done|].
    eapply repaired_same; [apply (IH s2 n' H2 Hn); by rewrite <- Hf|flat_inorder].
  - destruct (last_right_ok _ _ _ _ _ _ _ _ _ _ _ _ _ H Ht Ha Hb') as (s2 & t' & E2 & H2 & Hi & Hrb); [by rewrite Hab|]. step E2.
    apply at_top in H2. rewrite (at_root key _ _ _ _ H2). destruct (plug_rb _ _ _ _ Hrb Hk Hb) as [m Hm].
    exists s2, [], (plug K t'), m. split; [done|]. split; [done|]. split; [unfold plug at 1; cbn [foldl]; rewrite plug_cons; cbn [fill]; by rewrite !plug_inorder, Hi|].
    rewrite (blacken_black m) by done. done.
Qed.

Lemma red_sibling_right h0 F K c p a w b t s n :
  at_place h0 F (FL c p (T Red a w b) :: K) t s → kok (FL c p (T Red a w b) :: K) (S n) →
  ∃ s', (RB_SET_BLACKRED w p;; RB_ROTATE_LEFT p;; RB_RIGHT p) s = Ret (rroot a) s' ∧
    at_place h0 F (FL Red p a :: FL Black w b :: K) t s' ∧ kok (FL Red p a :: FL Black w b :: K) (S n).
Proof.
  intros H Hk. apply at_back_l in H. destruct c; [|cbn in Hk; destruct Hk as [Hk _]; by inversion Hk].
  cbn in Hk. destruct Hk as [[cw Hw] Hk]. inversion Hw as [|? ? ? ? Ha Hb|]; subst.
  destruct (at_blackred_r key _ _ _ _ _ _ _ _ _ _ _ H) as (s1 & E1 & H1). step E1.
  destruct (at_rotate_left key _ _ _ _ _ _ _ _ _ _ _ H1) as (s2 & E2 & H2). step E2. apply at_down_l in H2.
  rewrite (at_right key _ _ _ _ _ _ _ _ H2). apply at_down_l in H2. exists s2. split; [done|]. split; [done|]. cbn. eauto.
Qed.

Lemma black_sibling_left h0 F fuel K c p a w b t s n :
  at_place h0 F (FR c (T Black a w b) p :: K) t s → rb Black n t → kok (FR c (T Black a w b) p :: K) (S n) →
  (∀ s' n', at_place h0 F K (T c (T Red a w b) p t) s' → short n' (T c (T Red a w b) p t) → kok K (S n') →
     repaired h0 F K (T c (T Red a w b) p t) (remove_color_loop fuel (par K) p s')) →
  repaired h0 F (FR c (T Black a w b) p :: K) t (black_sibling remove_color_last_left fuel p w s).
Proof.
  intros H Ht Hk IH. apply at_back_r in H. apply kok_full in Hk as ([cw Hw] & Hk & Hb). cbn [fsib fcolor] in *.
  inversion Hw as [| |ca cb ? ? ? ? Ha Hb']; subst. pose proof (at_down_l key _ _ _ _ _ _ _ _ H) as H1.
  unfold black_sibling. rewrite (both_ok _ _ _ _ _ _ _ _ _ H1), (rb_tcolor _ _ _ Ha), (rb_tcolor _ _ _ Hb').
  destruct (bool_decide (ca = Black) && bool_decide (cb = Black)) eqn:Hab.
  - apply andb_true_iff in Hab as [->%bool_decide_eq_true ->%bool_decide_eq_true].
    destruct (at_set_color key _ _ _ _ Red _ _ _ _ H1) as (s2 & E2 & H2). cbn in E2. step E2. apply at_back_l in H2.
    step (at_parent key _ _ _ _ _ _ _ _ H2).
    destruct (short_up c n (T c (T Red a w b) p t)) as (n' & Hn & Hf); [cbn; eauto with rbdb|done|].
    eapply repaired_same; [apply (IH s2 n' H2 Hn); by rewrite <- Hf|flat_inorder].
  - destruct (last_left_ok _ _ _ _ _ _ _ _ _ _ _ _ _ H Ht Hb' Ha) as (s2 & t' & E2 & H2 & Hi & Hrb); [by rewrite andb_comm|]. step E2.
    apply at_top in H2. rewrite (at_root key _ _ _ _ H2). destruct (plug_rb _ _ _ _ Hrb Hk Hb) as [m Hm].
    exists s2, [], (plug K t'), m. split; [done|]. split; [done|]. split; [unfold plug at 1; cbn [foldl]; rewrite plug_cons; cbn [fill]; by rewrite !plug_inorder, Hi|].
    rewrite (blacken_black m) by done. done.
Qed.

Lemma red_sibling_left h0 F K c p a w b t s n :
  at_place h0 F (FR c (T Red a w b) p :: K) t s → kok (FR c (T Red a w b) p :: K) (S n) →
  ∃ s', (RB_SET_BLACKRED w p;; RB_ROTATE_RIGHT p;; RB_LEFT p) s = Ret (rroot b) s' ∧
    at_place h0 F (FR Red b p :: FR Black a w :: K) t s' ∧ kok (FR Red b p :: FR Black a w :: K) (S n).
Proof.
  intros H Hk. apply at_back_r in H. destruct c; [|cbn in Hk; destruct Hk as [Hk _]; by inversion Hk].
  cbn in Hk. destruct Hk as [[cw Hw] Hk]. inversion Hw as [|? ? ? ? Ha Hb|]; subst.
  destruct (at_blackred_l key _ _ _ _ _ _ _ _ _ _ _ H) as (s1 & E1 & H1). step E1.
  destruct (at_rotate_right key _ _ _ _ _ _ _ _ _ _ _ H1) as (s2 & E2 & H2). step E2. apply at_down_r in H2.
  rewrite (at_left key _ _ _ _ _ _ _ _ H2). apply at_down_r in H2. exists s2. split; [done|]. split; [done|]. cbn. eauto.
Qed.

(** The loop, at a place that is short. *)
Definition remove_loop_ok h0 F (fuel : nat) : Prop := ∀ K t n s, at_place h0 F K t s → short n t → kok K (S n) → (length K < fuel)%nat →
  repaired h0 F K t (remove_color_loop fuel (par K) (rroot t) s).

Lemma remove_round_left h0 F fuel K c p u t s n : remove_loop_ok h0 F fuel → at_place h0 F (FL c p u :: K) t s → rb Black n t →
  kok (FL c p u :: K) (S n) → (length K < fuel)%nat →
  repaired h0 F (FL c p u :: K) t (remove_color_loop (Datatypes.S fuel) p (rroot t) s).
Proof.
  intros IH H Ht Hk Hfu. cbn [remove_color_loop]. step (at_is_black key _ _ _ _ _ H). step (root_read s).
  rewrite (rb_tcolor _ _ _ Ht), (bool_decide_true (Black = Black)) by done.
  rewrite (proj2 (Z.eqb_neq _ _) (place_not_root _ _ _ _ _ _ H)). cbn [andb negb]. pose proof (at_back_l key _ _ _ _ _ _ _ _ H) as H0.
  step (at_left key _ _ _ _ _ _ _ _ H0). pose proof (kok_full _ _ _ Hk) as ([cu Hu] & _). cbn [fsib] in Hu.
  rewrite Z.eqb_refl. step (at_right key _ _ _ _ _ _ _ _ H0).
  destruct u as [|cw a w b]; [by inversion Hu|]. cbn [rroot]. step (at_color key _ _ _ _ _ _ _ _ (at_down_r key _ _ _ _ _ _ _ _ H0)).
  destruct cw; cbn [color_int Z.eqb].
  - step (ret_ok w s). apply (black_sibling_right _ _ _ _ _ _ _ _ _ _ _ n); try done. intros s' n' H' Hn' Hk'. exact (IH K _ n' s' H' Hn' Hk' Hfu).
  - destruct (red_sibling_right _ _ _ _ _ _ _ _ _ _ _ H Hk) as (s1 & E1 & H1 & Hk1). rewrite (bind_ret _ _ _ _ _ E1).
    destruct (kok_full _ _ _ Hk1) as ([ca Ha] & _). cbn in Ha, Hk1. destruct Hk1 as (Ha' & Hk1). inversion Ha' as [| |? ? ? x1 w1 x2 Hx1 Hx2]; subst.
    eapply repaired_same; [eapply (black_sibling_right _ _ _ _ _ _ _ _ _ _ _ n); [exact H1|done|by cbn|]|flat_inorder].
    intros s' n' H' Hn' Hk'. destruct Hn' as [Hn'|[Hc Hn']]; [by inversion Hn'|]. destruct fuel as [|fuel]; [lia|]. exact (remove_ends_red _ _ _ _ n' s' fuel H' Hc Hn' Hk').
Qed.

Lemma remove_round_right h0 F fuel K c p u t s n : remove_loop_ok h0 F fuel → at_place h0 F (FR c u p :: K) t s → rb Black n t →
  kok (FR c u p :: K) (S n) → (length K < fuel)%nat →
  repaired h0 F (FR c u p :: K) t (remove_color_loop (Datatypes.S fuel) p (rroot t) s).
Proof.
  intros IH H Ht Hk Hfu. cbn [remove_color_loop]. step (at_is_black key _ _ _ _ _ H). step (root_read s).
  rewrite (rb_tcolor _ _ _ Ht), (bool_decide_true (Black = Black)) by done.
  rewrite (proj2 (Z.eqb_neq _ _) (place_not_root _ _ _ _ _ _ H)). cbn [andb negb]. pose proof (at_back_r key _ _ _ _ _ _ _ _ H) as H0.
  step (at_left key _ _ _ _ _ _ _ _ H0). pose proof (kok_full _ _ _ Hk) as ([cu Hu] & _). cbn [fsib] in Hu.
  assert (rroot u ≠ rroot t) as Hne by (apply (at_children key _ _ _ _ _ _ _ _ H0); right; by inversion Hu).
  rewrite (proj2 (Z.eqb_neq _ _) Hne). step (at_left key _ _ _ _ _ _ _ _ H0).
  destruct u as [|cw a w b]; [by inversion Hu|]. cbn [rroot]. step (at_color key _ _ _ _ _ _ _ _ (at_down_l key _ _ _ _ _ _ _ _ H0)).
  destruct cw; cbn [color_int Z.eqb].
  - step (ret_ok w s). apply (black_sibling_left _ _ _ _ _ _ _ _ _ _ _ n); try done. intros s' n' H' Hn' Hk'. exact (IH K _ n' s' H' Hn' Hk' Hfu).
  - destruct (red_sibling_left _ _ _ _ _ _ _ _ _ _ _ H Hk) as (s1 & E1 & H1 & Hk1). rewrite (bind_ret _ _ _ _ _ E1).
    destruct (kok_full _ _ _ Hk1) as ([ca Ha] & _). cbn in Ha, Hk1. destruct Hk1 as (Ha' & Hk1). inversion Ha' as [| |? ? ? x1 w1 x2 Hx1 Hx2]; subst.
    eapply repaired_same; [eapply (black_sibling_left _ _ _ _ _ _ _ _ _ _ _ n); [exact H1|done|by cbn|]|flat_inorder].
    intros s' n' H' Hn' Hk'. destruct Hn' as [Hn'|[Hc Hn']]; [by inversion Hn'|]. destruct fuel as [|fuel]; [lia|]. exact (remove_ends_red _ _ _ _ n' s' fuel H' Hc Hn' Hk').
Qed.

Lemma remove_color_loop_ok h0 F fuel : remove_loop_ok h0 F fuel.
Proof.
  induction fuel as [|fuel IH]; intros K t n s H Ht Hk Hfu; [lia|].
  destruct Ht as [Ht|[Hc Ht]]; [|by eapply remove_ends_red].
  destruct K as [|[c p u|c u p] K]; [by eapply remove_ends_root|..]; cbn in Hfu;
    [eapply remove_round_left|eapply remove_round_right]; try done; lia.
Qed.

Lemma RB_REMOVE_COLOR_ok h0 F K t n s : at_place h0 F K t s → short n t → kok K (S n) →
  ∃ s' t' m, RB_REMOVE_COLOR (par K) (rroot t) s = Ret tt s' ∧ at_place h0 F [] t' s' ∧ rinorder t' = rinorder (plug K t) ∧ rb Black m t'.
Proof.
  intros H Ht Hk. unfold RB_REMOVE_COLOR. step (proj1 (at_fuel key _ _ _ _ _ H)). pose proof (at_depth key _ _ _ _ _ H).
  destruct (remove_color_loop_ok h0 F (Datatypes.S (size (rb_heap s))) K t n s H Ht Hk) as (s1 & K' & t' & m & E1 & H1 & Hi & Hm); [lia|].
  step E1. rewrite (at_null key _ _ _ _ _ H1). destruct t' as [|c l x r]; cbn [negb blacken] in *.
  - exists s1, (plug K' E), m. apply at_top in H1. by split_and!.
  - destruct (at_set_color key _ _ _ _ Black _ _ _ _ H1) as (s2 & E2 & H2). cbn in E2. apply at_top in H2.
    exists s2, (plug K' (T Black l x r)), m. split_and!; try done. rewrite <- Hi. flat_inorder.
Qed.

(** ** [RB_REMOVE] *)

Definition links (K : list frame) (c : color) (l : rbt) (x : Z) (r : rbt) : rnode D :=
  RNode (rroot l) (rroot r) (par K) (color_int c) (key x).

(** The child takes the place of [x], whose links stay as they were. *)
Lemma splice_out_ok h0 F K c l x r t s : at_place h0 F K (T c l x r) s → (l = E ∧ t = r) ∨ (r = E ∧ t = l) →
  ∃ s', splice_out x (rroot t) s = Ret (rroot t, par K, color_int c) s' ∧ at_place h0 ((x, links K c l x r) :: F) K t s'.
Proof.
  intros H Ht. unfold splice_out. step (at_parent key _ _ _ _ _ _ _ _ H). step (at_color key _ _ _ _ _ _ _ _ H). destruct H as [Hv Hr].
  destruct (set_parent_opt key h0 s x (par K) t ((x, links K c l x r) :: F ++ knodes key K x)) as (s1 & E1 & H1 & R1).
  { eapply valid_perm; [exact Hv|]. cbn. destruct Ht as [[-> ->]|[-> ->]]; cbn; solve_Permutation. }
  step E1. destruct (replace_child_ok key h0 s1 ((x, links K c l x r) :: F ++ rnodes key (par K) t) K x (rroot t)) as (s2 & E2 & H2 & R2).
  - eapply valid_perm; [exact H1|]. solve_Permutation.
  - cbn. by left.
  - by rewrite R1.
  - step E2. exists s2. split; [done|]. split; [|done]. eapply valid_perm; [exact H2|]. cbn. solve_Permutation.
Qed.

(** [y] gets the place of [x]. *)
Lemma take_place_ok h0 F K c l x r y ny s : at_place h0 ((y, ny) :: F) K (T c l x r) s → rb_data ny = key y → l ≠ E →
  ∃ s', take_place y x s = Ret tt s' ∧ at_place h0 ((x, links K c l x r) :: F) K (T c l y r) s'.
Proof.
  intros H Hy Hl. unfold take_place. rewrite (bind_ret _ _ _ _ _ (on_rb_load _ _ _ (at_node key _ _ _ _ _ _ _ _ H))).
  pose proof (at_null key _ _ _ _ _ (at_down_l key _ _ _ _ _ _ _ _ H)) as Hn. destruct l as [|cl ll lx lr] eqn:El; [done|]. rewrite <- El in *. clear El Hl.
  destruct H as [Hv Hr]. cbn [rroot] in Hv, Hr. pose (G := F ++ (x, links K c l x r) :: rnodes key x l ++ rnodes key x r).
  destruct (rb_update h0 s _ y ny (G ++ knodes key K x)
    (λ n, RNode (rroot l) (rroot r) (par K) (color_int c) (rb_data n)) Hv) as (s1 & E1 & H1 & R1).
  { unfold G. cbn. solve_Permutation. }
  rewrite (bind_ret _ _ _ _ _ E1). cbv beta in H1. rewrite Hy in H1. change (RNode _ _ _ _ (key y)) with (links K c l y r) in H1.
  assert ((x, links K c l x r) ∈ G) as HxG by (unfold G; set_solver).
  destruct (rb_read h0 s1 _ x (links K c l x r) H1) as (_ & _ & Ep & _); [set_solver|]. step Ep. cbn [links rbe_parent].
  destruct (replace_child_ok key h0 s1 ((y, links K c l y r) :: G) K x y) as (s2 & E2 & H2 & R2).
  { exact H1. } { unfold G. cbn. rewrite fmap_app. set_solver. } { by rewrite R1. }
  step E2. destruct (rb_read h0 s2 _ x (links K c l x r) H2) as (El & _ & _ & _); [set_solver|]. step El. cbn [links rbe_left].
  destruct (set_parent_opt key h0 s2 x y l ((y, links K c l y r) :: F ++ (x, links K c l x r) :: rnodes key x r ++ knodes key K y)) as (s3 & E3 & H3 & R3).
  { eapply valid_perm; [exact H2|]. unfold G. solve_Permutation. }
  rewrite Hn in E3. cbn [negb] in E3. step E3.
  destruct (rb_read h0 s3 _ x (links K c l x r) H3) as (_ & Er & _ & _); [set_solver|]. step Er. cbn [links rbe_right].
  destruct (set_parent_opt key h0 s3 x y r ((y, links K c l y r) :: F ++ (x, links K c l x r) :: rnodes key y l ++ knodes key K y)) as (s4 & E4 & H4 & R4).
  { eapply valid_perm; [exact H3|]. solve_Permutation. }
  exists s4. split; [exact E4|]. split; [|by rewrite R4, R3, R2]. eapply valid_perm; [exact H4|]. cbn. unfold links. solve_Permutation.
Qed.

(** The tree once the colour that was taken out is made up for. *)
Lemma recolor_ok h0 F K c n l x r t s : at_place h0 F K t s → rb c n (T c l x r) → kok K n →
  (l = E ∧ t = r) ∨ (r = E ∧ t = l) →
  ∃ s' t' m, (if color_int c =? RB_BLACK then RB_REMOVE_COLOR (par K) (rroot t) else mret tt) s = Ret tt s' ∧ at_place h0 F [] t' s' ∧
    rinorder t' = rinorder (plug K t) ∧ rb Black m t'.
Proof.
  intros H Hx Hk Ht. inversion Hx as [|? ? ? ? Hl Hr|c1 c2 n' ? ? ? Hl Hr]; subst; cbn [color_int Z.eqb].
  - assert (rb Black n t) as Hn by (by destruct Ht as [[_ ->]|[_ ->]]). destruct (plug_rb K Black n t Hn Hk) as [m Hm]; [by left|].
    exists s, (plug K t), m. apply at_top in H. by split_and!.
  - apply (RB_REMOVE_COLOR_ok _ _ _ _ n'); try done.
    assert (∃ c', rb c' n' t) as [c' Hc] by (destruct Ht as [[_ ->]|[_ ->]]; eauto).
    destruct c'; [by left|right]. inversion Hc; subst. cbn. eauto with rbdb.
Qed.

Lemma kleft_app J K : kleft (J ++ K) = kleft K ++ kleft J.
Proof. induction J as [|[c x r|c l x] J IH]; cbn; [by rewrite app_nil_r|done|]. by rewrite IH, <- app_assoc. Qed.

Lemma kright_app J K : kright (J ++ K) = kright J ++ kright K.
Proof. induction J as [|[c x r|c l x] J IH]; cbn; [done| |done]. by rewrite IH, <- app_assoc. Qed.

Lemma leftmost_ok h0 F fuel K c l x r s : at_place h0 F K (T c l x r) s → (rheight l < fuel)%nat →
  ∃ J c' y r', T c l x r = plug J (T c' E y r') ∧ kleft J = [] ∧ rb_leftmost_loop fuel x s = Ret y s.
Proof.
  revert K c l x r. induction fuel as [|fuel IH]; intros K c l x r H Hfu; [lia|].
  cbn [rb_leftmost_loop]. rewrite (bind_ret _ _ _ _ _ (at_left key _ _ _ _ _ _ _ _ H)). apply at_down_l in H. rewrite (at_null key _ _ _ _ _ H).
  destruct l as [|c1 l1 x1 r1]; [by exists [], c, x, r|]. cbn in Hfu.
  destruct (IH _ _ _ _ _ H) as (J & c' & y & r' & Hp & HJ & Hr); [lia|]. exists (J ++ [FL c x r]), c', y, r'.
  by rewrite plug_app, <- Hp, kleft_app, HJ.
Qed.

(** The loop that goes up for [RB_AUGMENT] ends. *)
Lemma augment_loop_ok h0 F fuel f K t s : at_place h0 F (f :: K) t s → (length K < fuel)%nat → augment_loop fuel (fnode f) s = Ret tt s.
Proof.
  revert f K t. induction fuel as [|fuel IH]; intros f K t H Hfu; [lia|]. cbn [augment_loop].
  assert (∃ c l r, at_place h0 F K (T c l (fnode f) r) s) as (c & l & r & H').
  { destruct f as [c x r|c l x]; [apply at_back_l in H|apply at_back_r in H]; eauto. }
  step (at_parent key _ _ _ _ _ _ _ _ H'). rewrite (par_null key _ _ _ _ _ H'). destruct K as [|g K]; [done|].
  cbn in Hfu. eapply (IH g K); [exact H'|lia].
Qed.

(** The colours around a place do not depend on the addresses. *)
Lemma kok_rename J c l x y K n : kok (J ++ FR c l x :: K) n → kok (J ++ FR c l y :: K) n.
Proof.
  revert n. induction J as [|f J IH]; intros n; [done|]. cbn. destruct (fcolor f).
  - intros [? ?]. auto.
  - intros (? & Hb & ?). split; [done|]. split; [by destruct J|auto].
Qed.

Lemma next_parent h0 F J K c l x t s y : at_place h0 F (J ++ FR c l x :: K) t s → kleft J = [] →
  (if par (J ++ FR c l x :: K) =? x then y else par (J ++ FR c l x :: K)) = par (J ++ FR c l y :: K).
Proof.
  intros H HJ. destruct J as [|[cf z rz|cf lz z] J]; cbn [app par fnode].
  - by rewrite Z.eqb_refl.
  - rewrite (proj2 (Z.eqb_neq _ _)); [done|]. cbn in HJ. intros <-.
    eapply (at_distinct key _ _ _ _ _ z z (kleft K ++ rinorder l) (rinorder t)); [exact H| |done].
    rewrite plug_inorder. cbn. rewrite kleft_app, HJ, app_nil_r. cbn. by rewrite <- !app_assoc.
  - cbn in HJ. apply (f_equal length) in HJ. rewrite !length_app in HJ. cbn in HJ. lia.
Qed.

(** With two children, the next node is taken out and gets the place of [x]. *)
Lemma take_next_ok h0 F K c l x r s : at_place h0 F K (T c l x r) s → l ≠ E → r ≠ E →
  ∃ s' J c' y r' nx, r = plug J (T c' E y r') ∧ kleft J = [] ∧ rb_data nx = key x ∧
    (fuel ← on_rb fuel_of_heap; elm ← rb_leftmost_loop fuel (rroot r); child ← RB_RIGHT elm;
     '(child, parent, color) ← splice_out elm child; p ← RB_PARENT elm;
     let parent := if p =? x then elm else parent in
     take_place elm x;; (if negb (parent =? NULL) then augment_loop fuel parent else mret tt);; mret (child, parent, color)) s
    = Ret (rroot r', par (J ++ FR c l y :: K), color_int c') s' ∧
    at_place h0 ((x, nx) :: F) (J ++ FR c l y :: K) r' s'.
Proof.
  intros H Hl Hr. step (proj1 (at_fuel key _ _ _ _ _ H)). apply at_down_r in H. destruct r as [|cr rl rx rr]; [done|]. cbn [rroot].
  pose proof (at_depth key _ _ _ _ _ H) as Hd. pose proof (rheight_size rl). cbn in Hd. rewrite length_app in Hd.
  destruct (leftmost_ok _ _ (Datatypes.S (size (rb_heap s))) _ _ _ _ _ _ H) as (J & c' & y & r' & Hp & HJ & E1); [lia|]. step E1.
  rewrite Hp in H |- *. apply at_plug in H. step (at_right key _ _ _ _ _ _ _ _ H). pose proof (at_depth key _ _ _ _ _ H) as Hd'.
  destruct (splice_out_ok _ _ _ _ _ _ _ r' _ H) as (s1 & E2 & H1); [by left|]. step E2.
  destruct (rb_read h0 s1 _ y (links (J ++ FR c l x :: K) c' E y r') (ap_valid _ _ _ _ _ _ H1)) as (_ & _ & E3 & _); [set_solver|].
  step E3. cbn [links rbe_parent]. cbv zeta. rewrite (next_parent _ _ _ _ _ _ _ _ _ y H1 HJ).
  apply at_plug, at_back_r in H1. destruct (take_place_ok _ _ _ _ _ _ _ _ _ _ H1) as (s2 & E4 & H2); [done|done|]. step E4.
  apply at_down_r, at_plug in H2. rewrite (par_null key _ _ _ _ _ H2). rewrite length_app in Hd'. cbn in Hd'.
  assert (∃ f K2, J ++ FR c l y :: K = f :: K2) as (f & K2 & HK) by (destruct J; cbn; eauto).
  assert (length K2 < Datatypes.S (size (rb_heap s)))%nat as Hfu.
  { apply (f_equal length) in HK. rewrite length_app in HK. cbn in HK. lia. }
  rewrite HK in H2 |- *. cbn [negb par]. step (augment_loop_ok _ _ (Datatypes.S (size (rb_heap s))) _ _ _ _ H2 Hfu).
  exists s2, J, c', y, r', (links K c l x (plug J r')). rewrite HK. by split_and!.
Qed.

Lemma RB_REMOVE_ok h0 F K c l x r s m : at_place h0 F K (T c l x r) s → rb Black m (plug K (T c l x r)) →
  ∃ s' t' m' nx, RB_REMOVE x s = Ret x s' ∧ at_place h0 ((x, nx) :: F) [] t' s' ∧ rb_data nx = key x ∧ rb Black m' t' ∧
    rinorder t' = (kleft K ++ rinorder l) ++ rinorder r ++ kright K.
Proof.
  intros H Hm. unfold RB_REMOVE. rewrite (bind_ret _ _ _ _ _ (at_left key _ _ _ _ _ _ _ _ H)), (bind_ret _ _ _ _ _ (at_right key _ _ _ _ _ _ _ _ H)).
  rewrite (at_null key _ _ _ _ _ (at_down_l key _ _ _ _ _ _ _ _ H)), (at_null key _ _ _ _ _ (at_down_r key _ _ _ _ _ _ _ _ H)).
  destruct (decide (l = E ∨ r = E)) as [Hlr|Hlr].
  - pose (t := match l with E => r | _ => l end).
    destruct (splice_out_ok _ _ _ _ _ _ _ t _ H) as (s1 & E1 & H1); [unfold t; destruct l; naive_solver|].
    destruct (plug_rb_inv _ _ _ Hm) as (c' & n & Hx & Hk & Hc). assert (c' = c) as -> by (by inversion Hx).
    destruct (recolor_ok _ _ _ _ _ _ _ _ t _ H1 Hx Hk) as (s2 & t2 & m2 & E2 & H2 & Hi & Hm2); [unfold t; destruct l; naive_solver|].
    exists s2, t2, m2, (links K c l x r). split; [|split_and!; try done].
    + destruct l; [|destruct r; [|naive_solver]]; cbn [t rroot] in E1, E2; rewrite (bind_ret _ _ _ _ _ E1); by step E2.
    + rewrite Hi, plug_inorder. unfold t. destruct l; [cbn; by rewrite app_nil_r|]. destruct r; [|naive_solver]. cbn. by rewrite <- !app_assoc.
  - destruct (take_next_ok _ _ _ _ _ _ _ _ H) as (s1 & J & c' & y & r' & nx & Hr & HJ & Hnx & E1 & H1); [tauto|tauto|].
    destruct l as [|cl ll lx lr] eqn:El; [tauto|]. rewrite <- El in *. destruct r as [|cr rl rx rr] eqn:Er; [tauto|]. rewrite <- Er in *.
    rewrite (bind_ret _ _ _ _ _ E1). rewrite Hr in Hm. change (T c l x (plug J (T c' E y r'))) with (fill (plug J (T c' E y r')) (FR c l x)) in Hm.
    rewrite <- plug_cons, <- plug_app in Hm. destruct (plug_rb_inv _ _ _ Hm) as (c2 & n & Hx & Hk & Hc). assert (c2 = c') as -> by (by inversion Hx).
    destruct (recolor_ok _ _ _ _ _ _ _ _ r' _ H1 Hx (kok_rename _ _ _ _ y _ _ Hk)) as (s2 & t2 & m2 & E2 & H2 & Hi & Hm2); [by left|].
    exists s2, t2, m2, nx. split; [by step E2|]. split_and!; try done. rewrite Hi, plug_inorder, kleft_app, kright_app, Hr, plug_inorder, HJ.
    cbn. rewrite app_nil_r. by rewrite <- !app_assoc.
Qed.
End Remove.
