(* ===== verification/RbSpec.v ===== *)
(** * Red-black trees are ordered sets

    The functions of kernel/sys/tree.h that read a red-black tree, and the
    refinement: operations on the tree are those of Ordered.v on the list of its
    elements in order.  Searching takes a logarithmic number of steps. *)

From stdpp Require Import base numbers list gmap fin_maps.
From S2P Require Import Prelude UtList Ordered Splay RbTree RbRep RbInsert RbRemove.

Section Spec.
Context {D : Type} (cmp : D → D → Z) `{!TotalCmp cmp} (key : Z → D).
Abbreviation at_place := (at_place key).
Abbreviation sorted := (sorted cmp key).
Abbreviation S' := (rb_head D).

(** ** Searching *)

Lemma place_inorder K c l x r : rinorder (plug K (T c l x r)) = (kleft K ++ rinorder l) ++ x :: rinorder r ++ kright K.
Proof. flat_inorder. Qed.

Lemma find_loop_ok h0 F fuel K t s e : at_place h0 F K t s → rb_env key (rb_heap s) → is_Some (rb_heap s !! e) →
  sorted (rinorder (plug K t)) → brackets cmp key K e → (rheight t < fuel)%nat →
  find_loop cmp fuel e (rroot t) s = Ret (ptr (same_key cmp key e (rinorder (plug K t)))) s.
Proof.
  intros H He Hh. revert K t H. induction fuel as [|fuel IH]; intros K t H Hs Hb Hfu; [lia|].
  cbn [find_loop]. rewrite (at_null key _ _ _ _ _ H). destruct t as [|c l x r].
  { destruct Hb. by rewrite plug_inorder, same_key_none. }
  cbn [rroot]. step (at_compare cmp key _ _ _ _ _ _ _ _ _ H He Hh). cbn in Hfu.
  destruct (Z.ltb_spec (cmp (key e) (key x)) 0) as [Hc|Hc].
  - step (at_left key _ _ _ _ _ _ _ _ H). apply (IH (FL c x r :: K)); try done; [by apply at_down_l|by eapply brackets_left|lia].
  - destruct (Z.ltb_spec 0 (cmp (key e) (key x))) as [Hc'|Hc'].
    + step (at_right key _ _ _ _ _ _ _ _ H). apply (IH (FR c l x :: K)); try done; [by apply at_down_r|by eapply brackets_right|lia].
    + destruct (brackets_found cmp key _ _ _ _ _ e Hs ltac:(lia)) as [Hl _].
      rewrite place_inorder, same_key_some by (done || lia). done.
Qed.

Lemma nfind_loop_ok h0 F fuel K t s e : at_place h0 F K t s → rb_env key (rb_heap s) → is_Some (rb_heap s !! e) →
  sorted (rinorder (plug K t)) → brackets cmp key K e → (rheight t < fuel)%nat →
  nfind_loop cmp fuel e (rroot t) (ptr (head (kright K))) s = Ret (ptr (not_before cmp key e (rinorder (plug K t)))) s.
Proof.
  intros H He Hh. revert K t H. induction fuel as [|fuel IH]; intros K t H Hs Hb Hfu; [lia|].
  cbn [nfind_loop]. rewrite (at_null key _ _ _ _ _ H). destruct t as [|c l x r].
  { destruct Hb as [Hl Hr]. rewrite plug_inorder. cbn. rewrite not_before_split; [done|done|done|].
    eapply Forall_impl; [exact Hr|]. intros y Hy. cbv beta in *. lia. }
  cbn [rroot]. step (at_compare cmp key _ _ _ _ _ _ _ _ _ H He Hh). cbn in Hfu.
  destruct (Z.ltb_spec (cmp (key e) (key x)) 0) as [Hc|Hc].
  - step (at_left key _ _ _ _ _ _ _ _ H). apply (IH (FL c x r :: K)); try done; [by apply at_down_l|by eapply brackets_left|lia].
  - destruct (Z.ltb_spec 0 (cmp (key e) (key x))) as [Hc'|Hc'].
    + step (at_right key _ _ _ _ _ _ _ _ H). apply (IH (FR c l x :: K)); try done; [by apply at_down_r|by eapply brackets_right|lia].
    + destruct (brackets_found cmp key _ _ _ _ _ e Hs ltac:(lia)) as [Hl Hr].
      rewrite place_inorder, not_before_split; [done|done|done|]. constructor; [lia|].
      eapply Forall_impl; [exact Hr|]. intros y Hy. cbv beta in *. lia.
Qed.

(** ** The elements before and after *)

Lemma climb_next_ok h0 F fuel K c l x r s : at_place h0 F K (T c l x r) s → (length K < fuel)%nat →
  climb_loop RB_RIGHT fuel x s = Ret (ptr (head (kright K))) s.
Proof.
  revert K c l x r. induction fuel as [|fuel IH]; intros K c l x r H Hfu; [lia|]. cbn [climb_loop].
  step (at_parent key _ _ _ _ _ _ _ _ H). rewrite (par_null key _ _ _ _ _ H).
  destruct K as [|[c' p u|c' u p] K]; [done|..]; cbn [par fnode]; cbn in Hfu.
  - apply at_back_l in H. step (at_right key _ _ _ _ _ _ _ _ H). rewrite (proj2 (Z.eqb_neq _ _)); [done|].
    apply (at_children key _ _ _ _ _ _ _ _ H). by right.
  - apply at_back_r in H. step (at_right key _ _ _ _ _ _ _ _ H). cbn [rroot]. rewrite Z.eqb_refl. apply (IH K _ _ _ _ H). lia.
Qed.

Lemma climb_prev_ok h0 F fuel K c l x r s : at_place h0 F K (T c l x r) s → (length K < fuel)%nat →
  climb_loop RB_LEFT fuel x s = Ret (ptr (last (kleft K))) s.
Proof.
  revert K c l x r. induction fuel as [|fuel IH]; intros K c l x r H Hfu; [lia|]. cbn [climb_loop].
  step (at_parent key _ _ _ _ _ _ _ _ H). rewrite (par_null key _ _ _ _ _ H).
  destruct K as [|[c' p u|c' u p] K]; [done|..]; cbn [par fnode]; cbn in Hfu.
  - apply at_back_l in H. step (at_left key _ _ _ _ _ _ _ _ H). cbn [rroot]. rewrite Z.eqb_refl. apply (IH K _ _ _ _ H). lia.
  - apply at_back_r in H. step (at_left key _ _ _ _ _ _ _ _ H). rewrite (proj2 (Z.eqb_neq _ _)).
    + cbn [kleft]. by rewrite app_assoc, last_snoc.
    + apply not_eq_sym, (at_children key _ _ _ _ _ _ _ _ H). by left.
Qed.

Lemma rightmost_ok h0 F fuel K c l x r s : at_place h0 F K (T c l x r) s → (rheight r < fuel)%nat →
  rb_rightmost_loop fuel x s = Ret (ptr (last (rinorder (T c l x r)))) s.
Proof.
  revert K c l x r. induction fuel as [|fuel IH]; intros K c l x r H Hfu; [lia|].
  cbn [rb_rightmost_loop]. step (at_right key _ _ _ _ _ _ _ _ H). apply at_down_r in H. rewrite (at_null key _ _ _ _ _ H).
  destruct r as [|c1 l1 x1 r1]; [cbn; by rewrite last_snoc|]. cbn in Hfu. cbn [rroot]. rewrite (IH _ _ _ _ _ H) by lia.
  cbn [rinorder]. by rewrite !last_app_cons, app_comm_cons, last_app_cons.
Qed.

Lemma RB_NEXT_ok h0 F K c l x r s : at_place h0 F K (T c l x r) s → RB_NEXT x s = Ret (ptr (head (rinorder r ++ kright K))) s.
Proof.
  intros H. unfold RB_NEXT. step (at_right key _ _ _ _ _ _ _ _ H). step (proj1 (at_fuel key _ _ _ _ _ H)).
  pose proof (at_depth key _ _ _ _ _ H) as Hd. cbn in Hd. rewrite length_app in Hd. cbn in Hd.
  rewrite (at_null key _ _ _ _ _ (at_down_r key _ _ _ _ _ _ _ _ H)). destruct r as [|cr rl rx rr]; cbn [negb].
  - step (at_parent key _ _ _ _ _ _ _ _ H). rewrite (par_null key _ _ _ _ _ H).
    pose proof (climb_next_ok _ _ (Datatypes.S (size (rb_heap s))) _ _ _ _ _ _ H ltac:(lia)) as Hc.
    destruct K as [|[c' p u|c' u p] K]; [by step (ret_ok false s)|..]; cbn [par fnode].
    + apply at_back_l in H. step (at_left key _ _ _ _ _ _ _ _ H). cbn [rroot]. by rewrite Z.eqb_refl.
    + apply at_back_r in H. step (at_left key _ _ _ _ _ _ _ _ H). rewrite (proj2 (Z.eqb_neq _ _)); [exact Hc|].
      apply not_eq_sym, (at_children key _ _ _ _ _ _ _ _ H). by left.
  - pose proof (rheight_size rl). cbn in Hd. rewrite length_app in Hd. apply at_down_r in H. cbn [rroot].
    destruct (leftmost_ok key _ _ (Datatypes.S (size (rb_heap s))) _ _ _ _ _ _ H) as (J & c' & y & r' & Hp & HJ & ->); [lia|].
    by rewrite Hp, plug_inorder, HJ.
Qed.

Lemma RB_PREV_ok h0 F K c l x r s : at_place h0 F K (T c l x r) s → RB_PREV x s = Ret (ptr (last (kleft K ++ rinorder l))) s.
Proof.
  intros H. unfold RB_PREV. step (at_left key _ _ _ _ _ _ _ _ H). step (proj1 (at_fuel key _ _ _ _ _ H)).
  pose proof (at_depth key _ _ _ _ _ H) as Hd. cbn in Hd. rewrite length_app in Hd. cbn in Hd.
  rewrite (at_null key _ _ _ _ _ (at_down_l key _ _ _ _ _ _ _ _ H)). destruct l as [|cl ll lx lr]; cbn [negb].
  - step (at_parent key _ _ _ _ _ _ _ _ H). rewrite (par_null key _ _ _ _ _ H). cbn [rinorder]. rewrite app_nil_r.
    pose proof (climb_prev_ok _ _ (Datatypes.S (size (rb_heap s))) _ _ _ _ _ _ H ltac:(lia)) as Hc.
    destruct K as [|[c' p u|c' u p] K]; [by step (ret_ok false s)|..]; cbn [par fnode].
    + apply at_back_l in H. step (at_right key _ _ _ _ _ _ _ _ H). rewrite (proj2 (Z.eqb_neq _ _)); [exact Hc|].
      apply (at_children key _ _ _ _ _ _ _ _ H). by right.
    + apply at_back_r in H. step (at_right key _ _ _ _ _ _ _ _ H). cbn [rroot]. rewrite Z.eqb_refl. cbn [kleft]. by rewrite app_assoc, last_snoc.
  - pose proof (rheight_size lr). cbn in Hd. rewrite length_app in Hd. cbn in Hd. apply at_down_l in H. cbn [rroot].
    rewrite (rightmost_ok _ _ _ _ _ _ _ _ _ H) by lia. rewrite last_app. cbn [rinorder].
    destruct (last (rinorder ll ++ lx :: rinorder lr)) eqn:El; [done|]. by apply last_None, app_nil in El as [_ ?].
Qed.

(** ** The ends *)

Lemma minmax_min_ok h0 F fuel K t s v : at_place h0 F K t s → kleft K = [] → v < 0 → (rheight t < fuel)%nat →
  rb_minmax_loop v fuel (rroot t) (par K) s = Ret (ptr (head (rinorder (plug K t)))) s.
Proof.
  intros H HK Hv. revert K t H HK. induction fuel as [|fuel IH]; intros K t H HK Hfu; [lia|]. cbn [rb_minmax_loop].
  rewrite (at_null key _ _ _ _ _ H). destruct t as [|c l x r].
  - rewrite plug_inorder, HK. destruct K as [|[c p u|c u p] K]; [done|done|]. cbn in HK. by apply app_nil in HK as [_ [_ ?]%app_nil].
  - cbn [rroot]. rewrite (proj2 (Z.ltb_lt _ _) Hv). step (at_left key _ _ _ _ _ _ _ _ H). cbn in Hfu.
    apply (IH (FL c x r :: K)); [by apply at_down_l|done|lia].
Qed.

Lemma minmax_max_ok h0 F fuel K t s v : at_place h0 F K t s → kright K = [] → 0 ≤ v → (rheight t < fuel)%nat →
  rb_minmax_loop v fuel (rroot t) (par K) s = Ret (ptr (last (rinorder (plug K t)))) s.
Proof.
  intros H HK Hv. revert K t H HK. induction fuel as [|fuel IH]; intros K t H HK Hfu; [lia|]. cbn [rb_minmax_loop].
  rewrite (at_null key _ _ _ _ _ H). destruct t as [|c l x r].
  - rewrite plug_inorder, HK. cbn. rewrite app_nil_r. destruct K as [|[c p u|c u p] K]; [done|done|]. cbn. by rewrite app_assoc, last_snoc.
  - cbn [rroot]. rewrite (proj2 (Z.ltb_ge _ _) Hv). step (at_right key _ _ _ _ _ _ _ _ H). cbn in Hfu.
    apply (IH (FR c l x :: K)); [by apply at_down_r|done|lia].
Qed.

(** ** The set that a tree holds *)

Definition rb_rep (s : S') (xs : list Z) : Prop :=
  rb_env key (rb_heap s) ∧ sorted xs ∧ ∃ t m, at_place (rb_heap s) [] [] t s ∧ rb Black m t ∧ rinorder t = xs.

Definition same_nodes (h h' : gmap Z (rnode D)) : Prop := ∀ q, is_Some (h' !! q) ↔ is_Some (h !! q).

Definition rb_outcome (s : S') (xs' : list Z) (a : list Z) (res : result S' (list Z)) : Prop :=
  ∃ s', res = Ret a s' ∧ rb_rep s' xs' ∧ same_nodes (rb_heap s) (rb_heap s').

Definition rb_one (m : M S' Z) : M S' (list Z) := a ← m; mret [a].

Lemma rnodes_keyed p t q n : (q, n) ∈ rnodes key p t → rb_data n = key q.
Proof.
  revert p. induction t as [|c l IHl x r IHr]; intros p; cbn; [by intros ?%elem_of_nil|].
  intros [[= -> ->]|[H|H]%elem_of_app]%elem_of_cons; [done|by eapply IHl|by eapply IHr].
Qed.

(** The structs after an operation are those of before, with their data. *)
Lemma rep_after s s' F t m : rb_env key (rb_heap s) → at_place (rb_heap s) F [] t s' → rb Black m t → sorted (rinorder t) →
  Forall (λ e, rb_data e.2 = key e.1) F → Forall (λ q, is_Some (rb_heap s !! q)) (F.*1 ++ rinorder t) →
  rb_rep s' (rinorder t) ∧ same_nodes (rb_heap s) (rb_heap s').
Proof.
  intros He [Hv Hr] Hm Hs HF Hin. cbn in Hv, Hr. rewrite app_nil_r in Hv. rewrite Forall_forall in HF. rewrite Forall_forall in Hin.
  assert (∀ q n, (q, n) ∈ F ++ rnodes key NULL t → rb_data n = key q ∧ is_Some (rb_heap s !! q)) as HE.
  { intros q n Hq. split.
    - apply elem_of_app in Hq as [Hq|Hq]; [exact (HF _ Hq)|exact (rnodes_keyed _ _ _ _ Hq)].
    - apply Hin. apply (list_elem_of_fmap_2 fst) in Hq. by rewrite fmap_app, rnodes_inorder in Hq. }
  assert (same_nodes (rb_heap s) (rb_heap s')) as Hss.
  { intros q. destruct (decide (q ∈ (F ++ rnodes key NULL t).*1)) as [Hq|Hq]; [|by rewrite (v_rest _ _ _ Hv q Hq)].
    apply list_elem_of_fmap in Hq as ([p n] & -> & Hq). cbn. rewrite (valid_lookup _ _ _ _ _ Hv Hq). destruct (HE _ _ Hq). naive_solver. }
  split; [|done]. split; [split|split; [done|]].
  - apply eq_None_not_Some. rewrite (Hss NULL), (renv_null _ _ He). by intros [].
  - intros q n Hq. destruct (decide (q ∈ (F ++ rnodes key NULL t).*1)) as [Hq'|Hq'].
    + apply list_elem_of_fmap in Hq' as ([p n'] & -> & Hq'). cbn in *. rewrite (valid_lookup _ _ _ _ _ Hv Hq') in Hq. simplify_eq. by apply HE.
    + rewrite (v_rest _ _ _ Hv q Hq') in Hq. by eapply renv_key.
  - exists t, m. split; [|done]. split; [|done]. cbn. rewrite app_nil_r. by eapply valid_drop.
Qed.

Lemma tree_nodes s t : at_place (rb_heap s) [] [] t s → Forall (λ q, is_Some (rb_heap s !! q)) (rinorder t).
Proof.
  intros [Hv _]. cbn in Hv. rewrite app_nil_r in Hv. apply Forall_forall. intros q Hq. rewrite <- (rnodes_inorder key NULL) in Hq.
  apply list_elem_of_fmap in Hq as ([p n] & -> & Hq). exists n. exact (valid_lookup _ _ _ _ _ Hv Hq).
Qed.

Lemma rep_reads s xs (m : M S' Z) a : rb_rep s xs → m s = Ret a s → rb_outcome s xs [a] (rb_one m s).
Proof. intros Hrep E. exists s. split; [unfold rb_one; by step E|done]. Qed.

Lemma rep_fuel s t : at_place (rb_heap s) [] [] t s → (rheight t < Datatypes.S (size (rb_heap s)))%nat.
Proof. intros H. pose proof (at_depth key _ _ _ _ _ H). pose proof (rheight_size t). cbn in *. lia. Qed.

Lemma brackets_top e : brackets cmp key [] e.
Proof. by split; constructor. Qed.

Lemma rb_find_spec s xs e : rb_rep s xs → is_Some (rb_heap s !! e) → rb_outcome s xs [ptr (same_key cmp key e xs)] (rb_one (RB_FIND cmp e) s).
Proof.
  intros Hrep Hh. apply rep_reads; [done|]. destruct Hrep as (He & Hs & t & m & H & Hm & <-). unfold RB_FIND.
  step (proj1 (at_fuel key _ _ _ _ _ H)). step (at_root key _ _ _ _ H).
  exact (find_loop_ok _ _ _ [] t s e H He Hh Hs (brackets_top e) (rep_fuel _ _ H)).
Qed.

Lemma rb_nfind_spec s xs e : rb_rep s xs → is_Some (rb_heap s !! e) → rb_outcome s xs [ptr (not_before cmp key e xs)] (rb_one (RB_NFIND cmp e) s).
Proof.
  intros Hrep Hh. apply rep_reads; [done|]. destruct Hrep as (He & Hs & t & m & H & Hm & <-). unfold RB_NFIND.
  step (proj1 (at_fuel key _ _ _ _ _ H)). step (at_root key _ _ _ _ H).
  exact (nfind_loop_ok _ _ _ [] t s e H He Hh Hs (brackets_top e) (rep_fuel _ _ H)).
Qed.

(** An element with its place in the tree, and the list split there. *)
Lemma rep_place s xs e : rb_rep s xs → e ∈ xs → ∃ K c l r m, at_place (rb_heap s) [] K (T c l e r) s ∧ rb Black m (plug K (T c l e r)) ∧
  xs = (kleft K ++ rinorder l) ++ e :: rinorder r ++ kright K ∧
  all_before cmp key (kleft K ++ rinorder l) e ∧ all_after cmp key e (rinorder r ++ kright K).
Proof.
  intros (He & Hs & t & m & H & Hm & <-) Hin. destruct (place_of _ _ Hin) as (K & c & l & r & ->). exists K, c, l, r, m.
  rewrite place_inorder in Hs |- *. apply sorted_mid in Hs as (_ & _ & ? & ? & _). apply at_top in H. by split_and!.
Qed.

Lemma rb_next_spec s xs e : rb_rep s xs → e ∈ xs → rb_outcome s xs [ptr (next_after cmp key e xs)] (rb_one (RB_NEXT e) s).
Proof.
  intros Hrep Hin. apply rep_reads; [done|]. destruct (rep_place _ _ _ Hrep Hin) as (K & c & l & r & m & H & _ & -> & Hb & Ha).
  rewrite next_after_mid by (done || apply (cmp_refl cmp)). exact (RB_NEXT_ok _ _ _ _ _ _ _ _ H).
Qed.

Lemma rb_prev_spec s xs e : rb_rep s xs → e ∈ xs → rb_outcome s xs [ptr (prev_before cmp key e xs)] (rb_one (RB_PREV e) s).
Proof.
  intros Hrep Hin. apply rep_reads; [done|]. destruct (rep_place _ _ _ Hrep Hin) as (K & c & l & r & m & H & _ & -> & Hb & Ha).
  rewrite prev_before_mid by (done || apply (cmp_refl cmp)). exact (RB_PREV_ok _ _ _ _ _ _ _ _ H).
Qed.

Lemma RB_MIN_ok s xs : rb_rep s xs → RB_MIN s = Ret (ptr (head xs)) s.
Proof.
  intros (He & Hs & t & m & H & Hm & <-). unfold RB_MIN, RB_MINMAX. step (proj1 (at_fuel key _ _ _ _ _ H)). step (at_root key _ _ _ _ H).
  exact (minmax_min_ok _ _ _ [] t s (-1) H eq_refl ltac:(lia) (rep_fuel _ _ H)).
Qed.

Lemma RB_MAX_ok s xs : rb_rep s xs → RB_MAX s = Ret (ptr (last xs)) s.
Proof.
  intros (He & Hs & t & m & H & Hm & <-). unfold RB_MAX, RB_MINMAX. step (proj1 (at_fuel key _ _ _ _ _ H)). step (at_root key _ _ _ _ H).
  exact (minmax_max_ok _ _ _ [] t s 1 H eq_refl ltac:(lia) (rep_fuel _ _ H)).
Qed.

Lemma inserted_sub e xs x : x ∈ inserted cmp key e xs → x = e ∨ x ∈ xs.
Proof.
  unfold inserted. destruct (same_key cmp key e xs); [by right|].
  intros [[_ ?]%list_elem_of_filter|[->|[_ ?]%list_elem_of_filter]%elem_of_cons]%elem_of_app; auto.
Qed.

Lemma rb_insert_spec s xs e : rb_rep s xs → is_Some (rb_heap s !! e) →
  rb_outcome s (inserted cmp key e xs) [ptr (same_key cmp key e xs)] (rb_one (RB_INSERT cmp e) s).
Proof.
  intros (He & Hs & t & m & H & Hm & <-) Hh. destruct (RB_INSERT_ok cmp key t m s e H Hm He Hh Hs) as (s' & t' & m' & E & H' & Hm' & Hi & Hs').
  exists s'. split; [unfold rb_one; by step E|]. rewrite <- Hi. apply (rep_after s s' [] t' m'); try done.
  pose proof (tree_nodes _ _ H) as Ht. rewrite Forall_forall in Ht. apply Forall_forall. cbn. rewrite Hi.
  intros x [->|Hx]%inserted_sub; [done|by apply Ht].
Qed.

Lemma rb_remove_spec s xs e : rb_rep s xs → e ∈ xs → rb_outcome s (removed cmp key e xs) [e] (rb_one (RB_REMOVE e) s).
Proof.
  intros Hrep Hin. destruct (rep_place _ _ _ Hrep Hin) as (K & c & l & r & m & H & Hm & Hx & Hb & Ha). destruct Hrep as (He & Hs & _).
  destruct (RB_REMOVE_ok key _ _ _ _ _ _ _ _ _ H Hm) as (s' & t' & m' & nx & E & H' & Hnx & Hm' & Hi).
  apply at_top in H. pose proof (tree_nodes _ _ H) as Ht. rewrite place_inorder, <- Hx in Ht. rewrite Forall_forall in Ht.
  exists s'. split; [unfold rb_one; by step E|]. rewrite Hx in Hs, Ht |- *. rewrite removed_mid, <- Hi by (done || apply (cmp_refl cmp)).
  apply (rep_after s s' [(e, nx)] t' m'); try done.
  - rewrite Hi. by eapply sorted_delete.
  - by repeat constructor.
  - apply Forall_forall. rewrite Hi. cbn. intros q Hq. apply Ht. set_solver.
Qed.

(** [RB_FOREACH] and [RB_FOREACH_REVERSE] leave the tree as it is. *)
Lemma sorted_next_prev pre x suf : sorted (pre ++ x :: suf) →
  next_after cmp key x (pre ++ x :: suf) = head suf ∧ prev_before cmp key x (pre ++ x :: suf) = last pre.
Proof.
  intros (_ & _ & Hb & Ha & _)%sorted_mid.
  split; [apply next_after_mid|apply prev_before_mid]; try done; apply (cmp_refl cmp).
Qed.

Lemma rep_nonnull s xs : rb_rep s xs → NULL ∉ xs ∧ (length xs ≤ size (rb_heap s))%nat.
Proof.
  intros (He & _ & t & m & H & _ & <-). pose proof (at_depth key _ _ _ _ _ H) as Hd. split; [|cbn in Hd; lia].
  intros Hn. pose proof (tree_nodes _ _ H) as Ht. rewrite Forall_forall in Ht. destruct (Ht _ Hn) as [n Hn']. by rewrite (renv_null _ _ He) in Hn'.
Qed.

(** Reading what is next, inside a larger action. *)
Lemma rb_one_inv (m : M S' Z) s a s' : rb_one m s = Ret [a] s' → m s = Ret a s'.
Proof. unfold rb_one. intros (b & s1 & E & [= -> ->])%bind_ret_inv. done. Qed.

Lemma rep_next {A} s xs x (k : Z → M S' A) : rb_rep s xs → x ∈ xs → (RB_NEXT x ≫= k) s = k (ptr (next_after cmp key x xs)) s.
Proof.
  intros Hrep Hin. destruct (rep_place _ _ _ Hrep Hin) as (K & c & l & r & m & H & _ & -> & Hb & Ha).
  rewrite next_after_mid by (done || apply (cmp_refl cmp)). by step (RB_NEXT_ok _ _ _ _ _ _ _ _ H).
Qed.

Lemma rep_prev {A} s xs x (k : Z → M S' A) : rb_rep s xs → x ∈ xs → (RB_PREV x ≫= k) s = k (ptr (prev_before cmp key x xs)) s.
Proof.
  intros Hrep Hin. destruct (rep_place _ _ _ Hrep Hin) as (K & c & l & r & m & H & _ & -> & Hb & Ha).
  rewrite prev_before_mid by (done || apply (cmp_refl cmp)). by step (RB_PREV_ok _ _ _ _ _ _ _ _ H).
Qed.

Lemma removed_self pre x suf : sorted (pre ++ x :: suf) → removed cmp key x (pre ++ x :: suf) = pre ++ suf.
Proof. intros (_ & _ & Hb & Ha & _)%sorted_mid. apply removed_mid; try done. apply (cmp_refl cmp). Qed.

Lemma visit_next_ok fuel s pre suf : rb_rep s (pre ++ suf) → (length suf < fuel)%nat → rb_visit RB_NEXT fuel (ptr (head suf)) s = Ret suf s.
Proof.
  revert pre suf. induction fuel as [|fuel IH]; intros pre suf Hrep Hf; [lia|]. destruct suf as [|x suf]; [done|].
  change (ptr (head (x :: suf))) with x. cbn [rb_visit]. rewrite (proj2 (Z.eqb_neq x NULL)).
  - destruct (sorted_next_prev pre x suf) as [Hn _]; [apply Hrep|]. rewrite (rep_next _ _ x _ Hrep), Hn by set_solver.
    cbn in Hf. by step (IH (pre ++ [x]) suf ltac:(by rewrite <- app_assoc) ltac:(lia)).
  - intros ->. apply rep_nonnull in Hrep as [Hn _]. set_solver.
Qed.

Lemma visit_prev_ok fuel s pre suf : rb_rep s (pre ++ suf) → (length pre < fuel)%nat → rb_visit RB_PREV fuel (ptr (last pre)) s = Ret (reverse pre) s.
Proof.
  revert pre suf. induction fuel as [|fuel IH]; intros pre suf Hrep Hf; [lia|]. destruct pre as [|x pre _] using rev_ind; [done|].
  rewrite last_snoc, reverse_snoc. rewrite length_app in Hf. cbn in Hf. rewrite <- app_assoc in Hrep. change (ptr (Some x)) with x. cbn [rb_visit app] in *.
  rewrite (proj2 (Z.eqb_neq x NULL)).
  - destruct (sorted_next_prev pre x suf) as [_ Hn]; [apply Hrep|]. rewrite (rep_prev _ _ x _ Hrep), Hn by set_solver.
    by step (IH pre (x :: suf) Hrep ltac:(lia)).
  - intros ->. apply rep_nonnull in Hrep as [Hn _]. set_solver.
Qed.

(** *** Taking the elements out one by one *)

Definition take_out (x : Z) : M S' unit := RB_REMOVE x;; mret tt.

Lemma take_out_ok x s a s' : RB_REMOVE x s = Ret a s' → take_out x s = Ret tt s'.
Proof. intros E. unfold take_out. by step E. Qed.

(** In order from some element to the end, or back from it to the front. *)
Lemma drain_next_ok fuel s pre suf : rb_rep s (pre ++ suf) → (length suf < fuel)%nat →
  rb_outcome s pre suf (rb_visit_safe RB_NEXT take_out fuel (ptr (head suf)) s).
Proof.
  revert s pre suf. induction fuel as [|fuel IH]; intros s pre suf Hrep Hf; [lia|].
  destruct suf as [|x suf]; [rewrite app_nil_r in Hrep; by exists s|].
  change (ptr (head (x :: suf))) with x. cbn [rb_visit_safe]. rewrite (proj2 (Z.eqb_neq x NULL)).
  - pose proof Hrep as (_ & Hs & _). destruct (sorted_next_prev pre x suf Hs) as [Hn _]. rewrite (rep_next _ _ x _ Hrep), Hn by set_solver.
    destruct (rb_remove_spec _ _ x Hrep) as (s1 & E1 & Hrep1 & Hss1); [set_solver|]. apply rb_one_inv in E1. step (take_out_ok _ _ _ _ E1).
    rewrite (removed_self pre x suf Hs) in Hrep1. cbn in Hf. destruct (IH s1 pre suf Hrep1) as (s2 & E2 & Hrep2 & Hss2); [lia|].
    exists s2. step E2. split; [done|]. split; [done|]. intros q. by rewrite (Hss2 q).
  - intros ->. apply rep_nonnull in Hrep as [Hn _]. set_solver.
Qed.

Lemma drain_prev_ok fuel s pre suf : rb_rep s (pre ++ suf) → (length pre < fuel)%nat →
  rb_outcome s suf (reverse pre) (rb_visit_safe RB_PREV take_out fuel (ptr (last pre)) s).
Proof.
  revert s pre suf. induction fuel as [|fuel IH]; intros s pre suf Hrep Hf; [lia|].
  destruct pre as [|x pre _] using rev_ind; [by exists s|].
  rewrite last_snoc, reverse_snoc. rewrite length_app in Hf. cbn in Hf. rewrite <- app_assoc in Hrep. change (ptr (Some x)) with x.
  cbn [rb_visit_safe app] in *. rewrite (proj2 (Z.eqb_neq x NULL)).
  - pose proof Hrep as (_ & Hs & _). destruct (sorted_next_prev pre x suf Hs) as [_ Hn]. rewrite (rep_prev _ _ x _ Hrep), Hn by set_solver.
    destruct (rb_remove_spec _ _ x Hrep) as (s1 & E1 & Hrep1 & Hss1); [set_solver|]. apply rb_one_inv in E1. step (take_out_ok _ _ _ _ E1).
    rewrite (removed_self pre x suf Hs) in Hrep1. destruct (IH s1 pre suf Hrep1) as (s2 & E2 & Hrep2 & Hss2); [lia|].
    exists s2. step E2. split; [done|]. split; [done|]. intros q. by rewrite (Hss2 q).
  - intros ->. apply rep_nonnull in Hrep as [Hn _]. set_solver.
Qed.

(** ** Sequences of operations *)

Inductive rb_op :=
  | RbInsertOp (e : Z) | RbRemoveOp (e : Z) | RbFindOp (e : Z) | RbNfindOp (e : Z) | RbNextOp (e : Z) | RbPrevOp (e : Z)
  | RbMinOp | RbMaxOp | RbForeachOp | RbForeachReverseOp
  | RbInitOp | RbEmptyOp | RbDrainOp | RbDrainFromOp (e : Z) | RbDrainReverseOp | RbDrainReverseFromOp (e : Z).

Definition run_rb_op (o : rb_op) : M S' (list Z) :=
  match o with
  | RbInsertOp e => rb_one (RB_INSERT cmp e)
  | RbRemoveOp e => rb_one (RB_REMOVE e)
  | RbFindOp e => rb_one (RB_FIND cmp e)
  | RbNfindOp e => rb_one (RB_NFIND cmp e)
  | RbNextOp e => rb_one (RB_NEXT e)
  | RbPrevOp e => rb_one (RB_PREV e)
  | RbMinOp => rb_one RB_MIN
  | RbMaxOp => rb_one RB_MAX
  | RbForeachOp => RB_FOREACH
  | RbForeachReverseOp => RB_FOREACH_REVERSE
  | RbInitOp => RB_INIT;; mret []
  | RbEmptyOp => rb_one (b ← RB_EMPTY; mret (Z.b2z b))
  | RbDrainOp => RB_FOREACH_SAFE take_out
  | RbDrainFromOp e => RB_FOREACH_FROM take_out e
  | RbDrainReverseOp => RB_FOREACH_REVERSE_SAFE take_out
  | RbDrainReverseFromOp e => RB_FOREACH_REVERSE_FROM take_out e
  end.

Fixpoint run_rb_ops (os : list rb_op) : M S' (list (list Z)) :=
  match os with
  | [] => mret []
  | o :: os => a ← run_rb_op o; r ← run_rb_ops os; mret (a :: r)
  end.

(** The element and those after it, and those before it and the element. *)
Definition from_elem (e : Z) (xs : list Z) : list Z := filter (λ x, cmp (key e) (key x) ≤ 0) xs.
Definition upto_elem (e : Z) (xs : list Z) : list Z := filter (λ x, cmp (key x) (key e) ≤ 0) xs.

Definition rb_op_returns (o : rb_op) (xs : list Z) : list Z :=
  match o with
  | RbInsertOp e | RbFindOp e => [ptr (same_key cmp key e xs)]
  | RbRemoveOp e => [e]
  | RbNfindOp e => [ptr (not_before cmp key e xs)]
  | RbNextOp e => [ptr (next_after cmp key e xs)]
  | RbPrevOp e => [ptr (prev_before cmp key e xs)]
  | RbMinOp => [ptr (head xs)]
  | RbMaxOp => [ptr (last xs)]
  | RbForeachOp | RbDrainOp => xs
  | RbForeachReverseOp | RbDrainReverseOp => reverse xs
  | RbInitOp => []
  | RbEmptyOp => [match xs with [] => 1 | _ => 0 end]
  | RbDrainFromOp e => from_elem e xs
  | RbDrainReverseFromOp e => reverse (upto_elem e xs)
  end.

Definition rb_op_set (o : rb_op) (xs : list Z) : list Z :=
  match o with
  | RbInsertOp e => inserted cmp key e xs
  | RbRemoveOp e => removed cmp key e xs
  | RbInitOp | RbDrainOp | RbDrainReverseOp => []
  | RbDrainFromOp e => filter (λ x, cmp (key x) (key e) < 0) xs
  | RbDrainReverseFromOp e => filter (λ x, cmp (key e) (key x) < 0) xs
  | _ => xs
  end.

(** What is inserted or searched for is a struct; the others are of elements. *)
Definition rb_op_ok (h : gmap Z (rnode D)) (o : rb_op) (xs : list Z) : Prop :=
  match o with
  | RbInsertOp e | RbFindOp e | RbNfindOp e => is_Some (h !! e)
  | RbRemoveOp e | RbNextOp e | RbPrevOp e | RbDrainFromOp e | RbDrainReverseFromOp e => e ∈ xs
  | _ => True
  end.

Fixpoint rb_ops_ok (h : gmap Z (rnode D)) (os : list rb_op) (xs : list Z) : Prop :=
  match os with [] => True | o :: os => rb_op_ok h o xs ∧ rb_ops_ok h os (rb_op_set o xs) end.
Fixpoint rb_ops_return (os : list rb_op) (xs : list Z) : list (list Z) :=
  match os with [] => [] | o :: os => rb_op_returns o xs :: rb_ops_return os (rb_op_set o xs) end.
Definition rb_ops_set (os : list rb_op) (xs : list Z) : list Z := foldl (λ xs o, rb_op_set o xs) xs os.

Lemma rb_fuel_ok (s : S') : on_rb fuel_of_heap s = Ret (Datatypes.S (size (rb_heap s))) s.
Proof. by destruct s. Qed.

Lemma rb_foreach_spec s xs : rb_rep s xs → RB_FOREACH s = Ret xs s ∧ RB_FOREACH_REVERSE s = Ret (reverse xs) s.
Proof.
  intros Hrep. pose proof (rep_nonnull _ _ Hrep) as [_ Hl]. unfold RB_FOREACH, RB_FOREACH_REVERSE. split.
  - step (RB_MIN_ok _ _ Hrep). step (rb_fuel_ok s). apply (visit_next_ok _ s []); [done|lia].
  - step (RB_MAX_ok _ _ Hrep). step (rb_fuel_ok s). apply (visit_prev_ok _ s xs []); [by rewrite app_nil_r|lia].
Qed.

Lemma from_split pre e suf : sorted (pre ++ e :: suf) →
  from_elem e (pre ++ e :: suf) = e :: suf ∧ filter (λ x, cmp (key x) (key e) < 0) (pre ++ e :: suf) = pre ∧
  upto_elem e (pre ++ e :: suf) = pre ++ [e] ∧ filter (λ x, cmp (key e) (key x) < 0) (pre ++ e :: suf) = suf.
Proof.
  intros (_ & _ & Hb & Ha & _)%sorted_mid. pose proof (cmp_refl cmp (key e)) as He.
  destruct (filters_before cmp key _ _ Hb) as (B1 & B2 & _ & _ & B5). destruct (filters_after cmp key _ _ Ha) as (A1 & A2 & _ & _ & A5).
  unfold from_elem, upto_elem. rewrite !filter_app. split_and!.
  - rewrite filter_cons_True by lia. by rewrite B5, A5.
  - rewrite filter_cons_False by lia. by rewrite B1, A1, app_nil_r.
  - rewrite filter_cons_True by lia. f_equal; [apply filter_all|f_equal; apply filter_none].
    + eapply Forall_impl; [exact Hb|]. intros y Hy. cbv beta in *. lia.
    + eapply Forall_impl; [exact Ha|]. intros y Hy. cbv beta in *. apply (cmp_lt_gt cmp) in Hy. lia.
  - rewrite filter_cons_False by lia. by rewrite B2, A2.
Qed.

Lemma rb_drain_spec s xs : rb_rep s xs →
  rb_outcome s [] xs (RB_FOREACH_SAFE take_out s) ∧ rb_outcome s [] (reverse xs) (RB_FOREACH_REVERSE_SAFE take_out s).
Proof.
  intros Hrep. pose proof (rep_nonnull _ _ Hrep) as [_ Hl]. unfold RB_FOREACH_SAFE, RB_FOREACH_REVERSE_SAFE. split.
  - step (RB_MIN_ok _ _ Hrep). step (rb_fuel_ok s). apply (drain_next_ok _ s []); [done|lia].
  - step (RB_MAX_ok _ _ Hrep). step (rb_fuel_ok s). apply (drain_prev_ok _ s xs []); [by rewrite app_nil_r|lia].
Qed.

Lemma rb_drain_from_spec s xs e : rb_rep s xs → e ∈ xs →
  rb_outcome s (filter (λ x, cmp (key x) (key e) < 0) xs) (from_elem e xs) (RB_FOREACH_FROM take_out e s) ∧
  rb_outcome s (filter (λ x, cmp (key e) (key x) < 0) xs) (reverse (upto_elem e xs)) (RB_FOREACH_REVERSE_FROM take_out e s).
Proof.
  intros Hrep (pre & suf & ->)%list_elem_of_split. pose proof (rep_nonnull _ _ Hrep) as [_ Hl]. rewrite length_app in Hl. cbn in Hl.
  pose proof Hrep as (_ & Hs & _). destruct (from_split _ _ _ Hs) as (-> & -> & -> & ->).
  unfold RB_FOREACH_FROM, RB_FOREACH_REVERSE_FROM. rewrite !(bind_ret _ _ _ _ _ (rb_fuel_ok s)). split.
  - apply (drain_next_ok _ s pre (e :: suf)); [done|cbn; lia].
  - replace e with (ptr (last (pre ++ [e]))) at 2 by (by rewrite last_snoc).
    apply (drain_prev_ok _ s (pre ++ [e]) suf); [by rewrite <- app_assoc|rewrite length_app; cbn; lia].
Qed.

Lemma rb_init_spec s xs : rb_rep s xs → rb_outcome s [] [] ((RB_INIT;; mret []) s).
Proof.
  intros (He & _). exists (RbHead (rb_heap s) NULL). split; [done|]. split; [|done]. split; [done|]. split; [constructor|].
  exists E, 0%nat. split; [|by split; [constructor|]]. split; [|done]. apply valid_same; [constructor|constructor|apply not_elem_of_nil].
Qed.

Lemma rb_empty_spec s xs : rb_rep s xs → rb_outcome s xs [match xs with [] => 1 | _ => 0 end] (rb_one (b ← RB_EMPTY; mret (Z.b2z b)) s).
Proof.
  intros Hrep. apply rep_reads; [done|]. destruct Hrep as (_ & _ & t & m & H & _ & <-). unfold RB_EMPTY.
  step (at_root key _ _ _ _ H). rewrite (at_null key _ _ _ _ _ H). destruct t as [|c l x r]; [done|]. cbn. by destruct (rinorder l).
Qed.

Lemma rb_op_spec s xs o : rb_rep s xs → rb_op_ok (rb_heap s) o xs → rb_outcome s (rb_op_set o xs) (rb_op_returns o xs) (run_rb_op o s).
Proof.
  intros Hrep Hok. destruct o; cbn in Hok |- *.
  - by apply rb_insert_spec.
  - by apply rb_remove_spec.
  - by apply rb_find_spec.
  - by apply rb_nfind_spec.
  - by apply rb_next_spec.
  - by apply rb_prev_spec.
  - by apply rep_reads, RB_MIN_ok.
  - by apply rep_reads, RB_MAX_ok.
  - exists s. split; [by apply rb_foreach_spec|done].
  - exists s. split; [by apply rb_foreach_spec|done].
  - by eapply rb_init_spec.
  - by apply rb_empty_spec.
  - by apply rb_drain_spec.
  - by apply rb_drain_from_spec.
  - by apply rb_drain_spec.
  - by apply rb_drain_from_spec.
Qed.

Lemma rb_ops_ok_nodes h h' os xs : same_nodes h h' → rb_ops_ok h os xs → rb_ops_ok h' os xs.
Proof.
  intros Hss. revert xs. induction os as [|o os IH]; intros xs; [done|]. cbn. intros [Ho Hos]. split; [|by apply IH].
  destruct o; cbn in *; try done; by apply Hss.
Qed.

(** C11: red-black trees implement ordered sets.  Whatever operations are made
    on a tree that holds a set, in whatever order, they end, each returns what
    it means on the list of the elements in order, and the tree is again a
    red-black tree (black root, no red child of a red node, as many black nodes
    on every path) that holds the set insertions and removals leave.  Among the
    operations are the safe iterations with a body that takes out each element
    it visits. *)
Theorem rb_refines s xs os : rb_rep s xs → rb_ops_ok (rb_heap s) os xs →
  ∃ s', run_rb_ops os s = Ret (rb_ops_return os xs) s' ∧ rb_rep s' (rb_ops_set os xs) ∧ same_nodes (rb_heap s) (rb_heap s').
Proof.
  revert s xs. induction os as [|o os IH]; intros s xs Hrep Hok; [by exists s|]. destruct Hok as [Ho Hos].
  destruct (rb_op_spec s xs o Hrep Ho) as (s1 & E1 & Hrep1 & Hss1).
  destruct (IH s1 (rb_op_set o xs) Hrep1 (rb_ops_ok_nodes _ _ _ _ Hss1 Hos)) as (s2 & E2 & Hrep2 & Hss2).
  exists s2. cbn [run_rb_ops]. step E1. step E2. split; [done|]. split; [exact Hrep2|]. intros q. by rewrite (Hss2 q).
Qed.

(** ** The height *)

Lemma rb_height c n t : rb c n t → (rheight t ≤ 2 * n + match c with Red => 1 | Black => 0 end)%nat ∧ (2 ^ n ≤ S (length (rinorder t)))%nat.
Proof.
  induction 1 as [|n l x r _ [IHl Sl] _ [IHr Sr]|c1 c2 n l x r _ [IHl Sl] _ [IHr Sr]]; [cbn; lia|..]; cbn [rheight rinorder]; rewrite length_app; cbn [length].
  - lia.
  - rewrite Nat.pow_succ_r'. destruct c1, c2; lia.
Qed.

Lemma rb_height_log n t : rb Black n t → (rheight t ≤ 2 * Nat.log2 (S (length (rinorder t))))%nat.
Proof.
  intros [Hh Hs]%rb_height. apply Nat.log2_le_mono in Hs. rewrite Nat.log2_pow2 in Hs by lia. lia.
Qed.

(** C13: searching among [n] elements makes at most 2 log2 (n+1) comparisons:
    one round of the loops of [RB_FIND] and [RB_NFIND] more than that is enough
    for them to return, and they return what they mean. *)
Theorem rb_search_logarithmic s xs e : rb_rep s xs → is_Some (rb_heap s !! e) →
  find_loop cmp (S (2 * Nat.log2 (S (length xs)))) e (rbh_root s) s = Ret (ptr (same_key cmp key e xs)) s ∧
  nfind_loop cmp (S (2 * Nat.log2 (S (length xs)))) e (rbh_root s) NULL s = Ret (ptr (not_before cmp key e xs)) s.
Proof.
  intros (He & Hs & t & m & H & Hm & <-) Hh. apply rb_height_log in Hm. rewrite (ap_root _ _ _ _ _ _ H). split.
  - apply (find_loop_ok _ _ _ [] t s e H He Hh Hs (brackets_top e)). lia.
  - apply (nfind_loop_ok _ _ _ [] t s e H He Hh Hs (brackets_top e)). lia.
Qed.
End Spec.

(** ** Integers as keys *)

(** Nine structs, compared by the last digits of their addresses, so that 104
    and 204 have the same key; the head is empty. *)
Definition rx_empty : rb_head Z :=
  RbHead (list_to_map ((λ q, (q, RNode 0 0 0 0 (sx_key q))) <$> [101; 102; 103; 104; 105; 106; 107; 108; 204])) NULL.
Definition rx_ops : list rb_op :=
  RbInsertOp <$> [101; 102; 103; 104; 105; 106; 107; 108; 204].
Definition rx_more : list rb_op :=
  [RbForeachOp; RbRemoveOp 104; RbNextOp 103; RbPrevOp 105; RbFindOp 204; RbNfindOp 204; RbMinOp; RbMaxOp;
   RbRemoveOp 101; RbRemoveOp 102; RbRemoveOp 106; RbForeachReverseOp; RbDrainFromOp 107; RbEmptyOp].

Lemma rx_empty_rep : rb_rep Z.sub sx_key rx_empty [].
Proof.
  split; [split|split; [constructor|]].
  - reflexivity.
  - apply (bool_decide_unpack (map_Forall (λ q n, rb_data n = sx_key q) (rb_heap rx_empty))). vm_compute. exact I.
  - exists E, 0%nat. split; [|by split; [constructor|]]. split; [|done]. apply valid_same; [constructor|constructor|apply not_elem_of_nil].
Qed.

Lemma rb_refines_witness :
  ∃ s', run_rb_ops Z.sub (rx_ops ++ rx_more) rx_empty =
      Ret [[0]; [0]; [0]; [0]; [0]; [0]; [0]; [0]; [104];
           [101; 102; 103; 104; 105; 106; 107; 108]; [104]; [105]; [103]; [0]; [105]; [101]; [108];
           [101]; [102]; [106]; [108; 107; 105; 103]; [107; 108]; [0]] s' ∧
    rb_rep Z.sub sx_key s' [103; 105].
Proof.
  destruct (rb_refines Z.sub sx_key rx_empty [] (rx_ops ++ rx_more) rx_empty_rep) as (s' & E & Hrep & _).
  - cbn [rx_ops rx_more app fmap list_fmap rb_ops_ok rb_op_ok]. split_and!; try exact I; refine (bool_decide_unpack _ _); vm_compute; exact I.
  - exists s'. split; [exact E|exact Hrep].
Defined.

(** A tree of two elements, the root and a red child on its right. *)
Definition rx_two : rb_head Z :=
  RbHead {[101 := RNode 0 102 0 0 (sx_key 101); 102 := RNode 0 0 101 1 (sx_key 102); 204 := RNode 0 0 0 0 (sx_key 204)]} 101.

Lemma rx_two_rep : rb_rep Z.sub sx_key rx_two [101; 102].
Proof.
  split; [split|split].
  - reflexivity.
  - apply (bool_decide_unpack (map_Forall (λ q n, rb_data n = sx_key q) (rb_heap rx_two))). vm_compute. exact I.
  - repeat constructor.
  - exists (T Black E 101 (T Red E 102 E)), 1%nat. split; [|by split; [repeat econstructor|]]. split; [|done].
    apply valid_same; [repeat constructor|..]; refine (bool_decide_unpack _ _); vm_compute; exact I.
Qed.

Lemma rb_search_logarithmic_witness :
  find_loop Z.sub 3 102 101 rx_two = Ret 102 rx_two ∧ nfind_loop Z.sub 3 204 101 NULL rx_two = Ret NULL rx_two.
Proof.
  split.
  - apply (rb_search_logarithmic Z.sub sx_key rx_two [101; 102] 102 rx_two_rep). vm_compute. by eexists.
  - apply (rb_search_logarithmic Z.sub sx_key rx_two [101; 102] 204 rx_two_rep). vm_compute. by eexists.
Defined.
