(* ===== verification/Dlist.v ===== *)
(** * utlist.h: doubly linked lists

    The DL_ macros of libs/uthash/src/utlist.h.  The [prev] member of the
    first node points to the last node, the [next] member of the last node is
    null.  A struct can be on several lists through different pairs of
    members, so the pair is a parameter, [dlinks].  [dl_rep h head ps] says
    that the list headed by [head] visits the addresses [ps]; the lemmas show
    that each macro acts on [ps] as the corresponding list function and
    changes nothing but links. *)

From stdpp Require Import base numbers list gmap strings fin_maps.
From S2P Require Import Prelude UtList.

(** A pair of link members of a struct. *)
Record dlinks (T : Type) := DLinks {
  dl_prev : T → Z;
  dl_next : T → Z;
  dl_set_prev : Z → T → T;
  dl_set_next : Z → T → T
}.
Arguments dl_prev {T}.
Arguments dl_next {T}.
Arguments dl_set_prev {T}.
Arguments dl_set_next {T}.

Class DLLaws {T} (L : dlinks T) := {
  prev_set_prev : ∀ p n, dl_prev L (dl_set_prev L p n) = p;
  prev_set_next : ∀ p n, dl_prev L (dl_set_next L p n) = dl_prev L n;
  next_set_next : ∀ p n, dl_next L (dl_set_next L p n) = p;
  next_set_prev : ∀ p n, dl_next L (dl_set_prev L p n) = dl_next L n;
  set_prev_prev : ∀ p q n, dl_set_prev L p (dl_set_prev L q n) = dl_set_prev L p n;
  set_next_next : ∀ p q n, dl_set_next L p (dl_set_next L q n) = dl_set_next L p n;
  set_next_prev : ∀ p q n, dl_set_next L p (dl_set_prev L q n) = dl_set_prev L q (dl_set_next L p n);
  set_next_id : ∀ n, dl_set_next L (dl_next L n) n = n
}.

(** ** The macros *)
Section Macros.
Context {T : Type}.
Variable L : dlinks T.

(** [#define DL_PREPEND2(head,add,prev,next)] *)
Definition DL_PREPEND (head add : Z) : M (gmap Z T) Z :=
  update add (dl_set_next L head);;
  (if negb (head =? NULL) then
     h ← load head;
     update add (dl_set_prev L (dl_prev L h));;
     update head (dl_set_prev L add)
   else update add (dl_set_prev L add));;
  mret add.

(** [#define DL_APPEND2(head,add,prev,next)] *)
Definition DL_APPEND (head add : Z) : M (gmap Z T) Z :=
  if negb (head =? NULL) then
    h ← load head;
    update add (dl_set_prev L (dl_prev L h));;
    h ← load head;
    update (dl_prev L h) (dl_set_next L add);;
    update head (dl_set_prev L add);;
    update add (dl_set_next L NULL);;
    mret head
  else
    update add (dl_set_prev L add);;
    update add (dl_set_next L NULL);;
    mret add.

(** [#define DL_DELETE2(head,del,prev,next)] *)
Definition DL_DELETE (head del : Z) : M (gmap Z T) Z :=
  d ← load del;
  assert (negb (dl_prev L d =? NULL)) "(del)->prev != NULL";;
  if dl_prev L d =? del then mret NULL
  else if del =? head then
    update (dl_next L d) (dl_set_prev L (dl_prev L d));;
    d ← load del;
    mret (dl_next L d)
  else
    update (dl_prev L d) (dl_set_next L (dl_next L d));;
    d ← load del;
    (if negb (dl_next L d =? NULL) then update (dl_next L d) (dl_set_prev L (dl_prev L d))
     else update head (dl_set_prev L (dl_prev L d)));;
    mret head.

(** [for(el=head;el;el=(el)->next)], collecting the nodes visited. *)
Fixpoint dl_foreach (fuel : nat) (el : Z) : M (gmap Z T) (list Z) :=
  match fuel with
  | O => nofuel
  | S fuel =>
      if el =? NULL then mret []
      else n ← load el; els ← dl_foreach fuel (dl_next L n); mret (el :: els)
  end.

Fixpoint dl_count_loop (fuel : nat) (el counter : Z) : M (gmap Z T) Z :=
  match fuel with
  | O => nofuel
  | S fuel =>
      if el =? NULL then mret counter
      else n ← load el; dl_count_loop fuel (dl_next L n) (counter + 1)
  end.

(** [#define DL_COUNT2(head,el,counter,next)] *)
Definition DL_COUNT (head : Z) : M (gmap Z T) Z :=
  fuel ← fuel_of_heap;
  dl_count_loop fuel head 0.
End Macros.

(** ** What the lists denote *)
Section Rep.
Context {T : Type} (L : dlinks T) `{!DLLaws L}.
Implicit Types (h : gmap Z T) (p q head add del : Z) (ps : list Z).

(** First and last address of a list, with a value for the empty one. *)
Definition first_or (d : Z) ps : Z := default d (head ps).
Definition last_or (d : Z) ps : Z := default d (last ps).

(** The nodes [ps] are linked; the first one points back to [a], the last one on to [b]. *)
Fixpoint dl_seg h (a : Z) ps (b : Z) : Prop :=
  match ps with
  | [] => True
  | q :: ps => ∃ n, h !! q = Some n ∧ dl_prev L n = a ∧ dl_next L n = first_or b ps ∧ dl_seg h q ps b
  end.

Definition dl_rep h head ps : Prop :=
  head = first_or NULL ps ∧ dl_seg h (last_or NULL ps) ps NULL ∧ NoDup ps ∧ NULL ∉ ps.

(** The members of a node other than the links. *)
Definition dl_data (n : T) : T := dl_set_prev L NULL (dl_set_next L NULL n).

(** [h'] differs from [h] at most in the links of the nodes [X]. *)
Definition dlinks_only (X : list Z) h h' : Prop :=
  ∀ q, (q ∉ X → h' !! q = h !! q) ∧ dl_data <$> h' !! q = dl_data <$> h !! q.

Lemma first_or_app a ps1 ps2 : first_or a (ps1 ++ ps2) = first_or (first_or a ps2) ps1.
Proof. by destruct ps1. Qed.

Lemma last_or_snoc a ps p : last_or a (ps ++ [p]) = p.
Proof. unfold last_or. by rewrite last_snoc. Qed.

Lemma last_or_app a ps1 ps2 : last_or a (ps1 ++ ps2) = last_or (last_or a ps1) ps2.
Proof. unfold last_or. rewrite last_app. by destruct (last ps2). Qed.

Lemma last_or_cons a p ps : last_or a (p :: ps) = last_or p ps.
Proof. unfold last_or. rewrite last_cons. by destruct (last ps). Qed.

Lemma dl_seg_app h a ps1 ps2 b :
  dl_seg h a (ps1 ++ ps2) b ↔ dl_seg h a ps1 (first_or b ps2) ∧ dl_seg h (last_or a ps1) ps2 b.
Proof.
  revert a. induction ps1 as [|q ps1 IH]; intros a; [simpl; tauto|].
  rewrite last_or_cons. simpl. setoid_rewrite IH. rewrite first_or_app. naive_solver.
Qed.

Lemma dl_seg_frame h h' a ps b :
  (∀ q, q ∈ ps → h' !! q = h !! q) → dl_seg h a ps b → dl_seg h' a ps b.
Proof.
  revert a. induction ps as [|q ps IH]; intros a Hf; [done|]. intros (n & Hn & ? & ? & Hs).
  exists n. rewrite Hf by (by left). split_and!; try done. apply IH; [|done]. intros; apply Hf; by right.
Qed.

Lemma dl_seg_lookup h a ps b q : dl_seg h a ps b → q ∈ ps → is_Some (h !! q).
Proof.
  revert a. induction ps as [|r ps IH]; intros a; [by rewrite elem_of_nil|].
  intros (n & Hn & _ & _ & Hs) [->|Hin]%elem_of_cons; eauto.
Qed.

(** The [next] members alone form a singly linked list. *)
Definition dl_node : LLNode T.
Proof.
  refine {| ll_next := dl_next L; ll_set_next := dl_set_next L |}.
  - apply next_set_next.
  - apply set_next_next.
  - apply set_next_id.
Defined.

Lemma dl_seg_ll h a ps : dl_seg h a ps NULL → NULL ∉ ps → @ll_rep T dl_node h (first_or NULL ps) ps.
Proof.
  revert a. induction ps as [|q ps IH]; intros a; [done|]. intros (n & Hn & _ & Hx & Hs) Hz.
  apply not_elem_of_cons in Hz as [Hq Hz]. split; [done|]. split; [done|]. exists n. split; [done|].
  simpl. rewrite Hx. by eapply IH.
Qed.

Lemma dl_rep_ll h head ps : dl_rep h head ps → @ll_rep T dl_node h head ps.
Proof. intros (-> & Hs & _ & Hz). by eapply dl_seg_ll. Qed.

(** Changing the outer links of a segment. *)
Lemma dl_seg_set_prev h a a' q ps b n :
  dl_seg h a (q :: ps) b → q ∉ ps → h !! q = Some n →
  dl_seg (<[q := dl_set_prev L a' n]> h) a' (q :: ps) b.
Proof.
  intros (m & Hm & _ & Hx & Hs) Hni Hn. simplify_eq. exists (dl_set_prev L a' m).
  rewrite lookup_insert_eq, prev_set_prev, next_set_prev. split_and!; try done.
  eapply dl_seg_frame; [|done]. intros r Hr. rewrite lookup_insert_ne; [done|]. by intros ->.
Qed.

Lemma dl_seg_set_next h a q ps b b' n :
  dl_seg h a (ps ++ [q]) b → q ∉ ps → h !! q = Some n →
  dl_seg (<[q := dl_set_next L b' n]> h) a (ps ++ [q]) b'.
Proof.
  rewrite !dl_seg_app. intros [Hs (m & Hm & Hp & _)] Hni Hn. simplify_eq. split.
  - eapply dl_seg_frame; [|done]. intros r Hr. rewrite lookup_insert_ne; [done|]. by intros ->.
  - eexists. rewrite lookup_insert_eq. split; [done|]. by rewrite prev_set_next, next_set_next.
Qed.

Lemma dl_data_prev p n : dl_data (dl_set_prev L p n) = dl_data n.
Proof. unfold dl_data. by rewrite set_next_prev, set_prev_prev. Qed.

Lemma dl_data_next p n : dl_data (dl_set_next L p n) = dl_data n.
Proof. unfold dl_data. by rewrite set_next_next. Qed.

Lemma dlinks_only_refl X h : dlinks_only X h h.
Proof. by intros q. Qed.

Lemma dlinks_only_trans X h1 h2 h3 : dlinks_only X h1 h2 → dlinks_only X h2 h3 → dlinks_only X h1 h3.
Proof.
  intros H1 H2 q. destruct (H1 q) as [A1 B1], (H2 q) as [A2 B2].
  split; [|congruence]. intros Hq. rewrite A2, A1; auto.
Qed.

Lemma dlinks_only_mono X Y h h' : (∀ q, q ∈ X → q ∈ Y) → dlinks_only X h h' → dlinks_only Y h h'.
Proof. intros HXY H q. destruct (H q) as [A B]. split; [|done]. intros Hq. apply A. auto. Qed.

Lemma dlinks_only_set X h q n m :
  h !! q = Some n → q ∈ X → dl_data m = dl_data n → dlinks_only X h (<[q := m]> h).
Proof.
  intros Hq HX Hd r. destruct (decide (r = q)) as [->|Hne].
  - split; [done|]. rewrite lookup_insert_eq, Hq. simpl. by rewrite Hd.
  - rewrite lookup_insert_ne by done. done.
Qed.

(** *** Adding and removing nodes *)

Lemma update_link X h q n f :
  h !! q = Some n → q ∈ X → dl_data (f n) = dl_data n →
  update q f h = Ret tt (<[q := f n]> h) ∧ dlinks_only X h (<[q := f n]> h).
Proof. intros Hq HX Hd. split; [by apply update_ok|by eapply dlinks_only_set]. Qed.

Lemma DL_PREPEND_spec h head ps add n :
  dl_rep h head ps → add ≠ NULL → add ∉ ps → h !! add = Some n →
  ∃ h', DL_PREPEND L head add h = Ret add h' ∧ dl_rep h' add (add :: ps) ∧ dlinks_only (add :: ps) h h'.
Proof.
  intros (-> & Hs & Hnd & Hz) Ha Hni Hn. unfold DL_PREPEND.
  destruct (update_link (add :: ps) h add n (dl_set_next L (first_or NULL ps))) as [E1 D1];
    [done|by left|apply dl_data_next|]. step E1. set (h1 := <[add := _]> h) in *.
  assert (Hadd1 : h1 !! add = Some (dl_set_next L (first_or NULL ps) n)) by apply lookup_insert_eq.
  assert (Hs1 : dl_seg h1 (last_or NULL ps) ps NULL).
  { eapply dl_seg_frame; [|done]. intros q Hq. unfold h1. rewrite lookup_insert_ne; [done|]. by intros ->. }
  assert (Hnd' : NoDup (add :: ps) ∧ NULL ∉ add :: ps) by (rewrite NoDup_cons, not_elem_of_cons; done).
  destruct ps as [|f ps]; cbn [first_or default head].
  - rewrite Z.eqb_refl. cbn [negb].
    destruct (update_link [add] h1 add _ (dl_set_prev L add) Hadd1) as [E2 D2]; [by left|apply dl_data_prev|].
    step E2. eexists. split; [done|]. split; [|by eapply dlinks_only_trans].
    split; [done|]. split; [|done]. eexists. rewrite lookup_insert_eq. split; [done|].
    by rewrite prev_set_prev, next_set_prev, next_set_next.
  - assert (Hf : f ≠ NULL ∧ f ≠ add) by (split; [intros ->|intros ->]; set_solver).
    cbn. rewrite (proj2 (Z.eqb_neq f NULL)) by apply Hf. cbn [negb].
    pose proof Hs1 as (m & Hm & Hp & _). rewrite !bind_assoc. step (load_ok _ _ _ Hm). rewrite Hp.
    destruct (update_link (add :: f :: ps) h1 add _ (dl_set_prev L (last_or NULL (f :: ps))) Hadd1) as [E2 D2];
      [by left|apply dl_data_prev|]. step E2. set (h2 := <[add := _]> h1) in *.
    assert (Hm2 : h2 !! f = Some m) by (unfold h2; rewrite lookup_insert_ne; [done|intros E; by apply Hf]).
    destruct (update_link (add :: f :: ps) h2 f m (dl_set_prev L add) Hm2) as [E3 D3];
      [set_solver|apply dl_data_prev|]. step E3. eexists. split; [done|].
    split; [|eapply dlinks_only_trans; [exact D1|by eapply dlinks_only_trans]].
    split; [done|]. split; [|done]. eexists. rewrite lookup_insert_ne by apply Hf. unfold h2.
    rewrite lookup_insert_eq. split; [done|]. rewrite prev_set_prev, next_set_prev, next_set_next.
    split; [by rewrite !last_or_cons|]. split; [done|].
    eapply dl_seg_set_prev; [|by apply NoDup_cons in Hnd as [? _]|done].
    eapply dl_seg_frame; [|exact Hs1]. intros q Hq. unfold h2. rewrite lookup_insert_ne; [done|]. by intros ->.
Qed.

Lemma first_or_in d p ps : first_or d (p :: ps) ∈ p :: ps.
Proof. by left. Qed.

Lemma DL_APPEND_spec h head ps add n :
  dl_rep h head ps → add ≠ NULL → add ∉ ps → h !! add = Some n →
  ∃ head' h', DL_APPEND L head add h = Ret head' h' ∧ dl_rep h' head' (ps ++ [add]) ∧
    dlinks_only (add :: ps) h h'.
Proof.
  intros (-> & Hs & Hnd & Hz) Ha Hni Hn. unfold DL_APPEND. set (X := add :: ps).
  assert (Hnd' : NoDup (ps ++ [add]) ∧ NULL ∉ ps ++ [add]).
  { split; [|rewrite not_elem_of_app, list_elem_of_singleton; naive_solver].
    apply NoDup_app. split; [done|]. split; [|apply NoDup_singleton]. by intros x Hx ->%list_elem_of_singleton. }
  destruct ps as [|f ps0].
  { change (first_or NULL []) with NULL. rewrite Z.eqb_refl. cbn [negb].
    destruct (update_link X h add n (dl_set_prev L add)) as [E1 D1]; [done|by left|apply dl_data_prev|]. step E1.
    destruct (update_link X (<[add := dl_set_prev L add n]> h) add (dl_set_prev L add n) (dl_set_next L NULL))
      as [E2 D2]; [apply lookup_insert_eq|by left|apply dl_data_next|]. step E2.
    eexists _, _. split; [done|]. split; [|by eapply dlinks_only_trans]. split; [done|]. split; [|done].
    eexists. rewrite lookup_insert_eq. split; [done|]. by rewrite prev_set_next, prev_set_prev, next_set_next. }
  assert (Hf : f ≠ NULL ∧ add ≠ f) by (split; intros E; subst; set_solver).
  change (first_or NULL (f :: ps0)) with f. rewrite (proj2 (Z.eqb_neq f NULL)) by apply Hf. cbn [negb]. pose proof Hs as (m & Hm & Hp & _).
  destruct (exists_last (l:=f :: ps0) ltac:(done)) as (ps & l & El). rewrite El in Hs, Hnd, Hni, Hnd', Hp |- *.
  rewrite last_or_snoc in Hp, Hs. step (load_ok _ _ _ Hm). rewrite Hp.
  destruct (update_link X h add n (dl_set_prev L l)) as [E1 D1]; [done|by left|apply dl_data_prev|]. step E1.
  set (h1 := <[add := _]> h) in *.
  assert (Hl : l ∈ f :: ps0) by (rewrite El; set_solver). assert (Hal : add ≠ l) by (intros ->; set_solver).
  assert (Hs1 : dl_seg h1 l (ps ++ [l]) NULL).
  { eapply dl_seg_frame; [|done]. intros q Hq. unfold h1. rewrite lookup_insert_ne; [done|]. by intros ->. }
  assert (Hm1 : h1 !! f = Some m) by (unfold h1; by rewrite lookup_insert_ne by apply Hf).
  step (load_ok _ _ _ Hm1). rewrite Hp. destruct (dl_seg_lookup _ _ _ _ l Hs1) as [nl Hl1]; [set_solver|].
  destruct (update_link X h1 l nl (dl_set_next L add)) as [E2 D2]; [done|by right|apply dl_data_next|]. step E2.
  assert (Hlps : l ∉ ps) by (apply NoDup_app in Hnd as (_ & Hnd & _); intros Hx; apply (Hnd l Hx); by left).
  pose proof (dl_seg_set_next h1 l l ps NULL add nl Hs1 Hlps Hl1) as Hs2. set (h2 := <[l := _]> h1) in *.
  rewrite <- El in Hs2. pose proof Hs2 as (m2 & Hm2 & _).
  destruct (update_link X h2 f m2 (dl_set_prev L add)) as [E3 D3]; [done|set_solver|apply dl_data_prev|]. step E3.
  assert (Hfps : f ∉ ps0) by (rewrite <- El in Hnd; by apply NoDup_cons in Hnd as [? _]).
  pose proof (dl_seg_set_prev h2 l add f ps0 add m2 Hs2 Hfps Hm2) as Hs3. set (h3 := <[f := _]> h2) in *.
  assert (Ha3 : h3 !! add = Some (dl_set_prev L l n)).
  { unfold h3, h2, h1. rewrite !lookup_insert_ne by (done || (intros E; by apply Hf)). apply lookup_insert_eq. }
  destruct (update_link X h3 add _ (dl_set_next L NULL) Ha3) as [E4 D4]; [by left|apply dl_data_next|]. step E4.
  eexists _, _. split; [done|]. split; [|do 3 (eapply dlinks_only_trans; [eassumption|]); exact D4].
  split; [rewrite <- El; done|]. split; [|done]. rewrite last_or_snoc, dl_seg_app, <- El. split.
  - eapply dl_seg_frame; [|exact Hs3]. intros q Hq. rewrite lookup_insert_ne; [done|]. rewrite El in Hq. by intros ->.
  - eexists. rewrite lookup_insert_eq. split; [done|]. rewrite prev_set_next, prev_set_prev, next_set_next, El.
    by rewrite last_or_snoc.
Qed.

(** Removing the first node of several. *)
Lemma delete_first h del r ps :
  dl_rep h del (del :: r :: ps) →
  ∃ h', DL_DELETE L del del h = Ret r h' ∧ dl_rep h' r (r :: ps) ∧ dlinks_only (r :: ps) h h'.
Proof.
  intros (_ & (d & Hd & Hp & Hx & Hs) & Hnd & Hz). unfold DL_DELETE.
  apply NoDup_cons in Hnd as [Hni Hnd]. apply not_elem_of_cons in Hz as [_ Hz].
  step (load_ok _ _ _ Hd). rewrite !last_or_cons in Hp.
  assert (Hl : last_or r ps ∈ r :: ps).
  { unfold last_or. destruct (last ps) eqn:E; [right; by apply last_Some_elem_of|by left]. }
  assert (Hln : last_or r ps ≠ NULL ∧ last_or r ps ≠ del) by (split; intros E; rewrite E in Hl; done).
  rewrite Hp, (proj2 (Z.eqb_neq _ _) (proj1 Hln)), (proj2 (Z.eqb_neq _ _) (proj2 Hln)), Z.eqb_refl.
  cbn [negb]. step (ret_ok tt h). rewrite Hx. change (first_or NULL (r :: ps)) with r.
  destruct Hs as (m & Hm & Hmp & Hmx & Hs).
  destruct (update_link (r :: ps) h r m (dl_set_prev L (last_or r ps))) as [E1 D1];
    [done|by left|apply dl_data_prev|]. step E1.
  assert (Hrd : r ≠ del) by set_solver. rewrite (bind_ret _ _ _ _ _ (load_ok _ _ d ltac:(by rewrite lookup_insert_ne))).
  rewrite Hx. eexists. split; [done|]. split; [|done]. split; [done|]. split; [|done].
  rewrite last_or_cons. eapply dl_seg_set_prev; [|by apply NoDup_cons in Hnd as [? _]|done].
  exists m. split; [done|]. by split.
Qed.

(** Removing a node that is not the first. *)
Lemma delete_later h head ps1 p del ps2 :
  dl_rep h head (ps1 ++ p :: del :: ps2) →
  ∃ h', DL_DELETE L head del h = Ret head h' ∧ dl_rep h' head (ps1 ++ p :: ps2) ∧
    dlinks_only (ps1 ++ p :: ps2) h h'.
Proof.
  intros (Hhd & Hs & Hnd & Hz). unfold DL_DELETE. set (X := ps1 ++ p :: ps2). set (a := last_or _ _) in Hs.
  replace (ps1 ++ p :: del :: ps2) with ((ps1 ++ [p]) ++ del :: ps2) in * by (by rewrite <- app_assoc).
  assert (Hnd2 : NoDup X ∧ NULL ∉ X ∧ del ∉ X ∧ p ∉ ps1 ∧ p ∉ ps2 ∧ NoDup ps2 ∧ (∀ x, x ∈ ps2 → x ∉ ps1)).
  { unfold X. rewrite <- app_assoc in Hnd. simpl in Hnd. apply NoDup_app in Hnd as (N1 & N2 & N3).
    apply NoDup_cons in N3 as [N3 N4]. apply NoDup_cons in N4 as [N4 N5].
    rewrite NoDup_app, NoDup_cons. split_and!; try done; set_solver. }
  destruct Hnd2 as (HndX & HzX & HdX & Hp1 & Hp2 & Hnd2 & Hdis).
  rewrite dl_seg_app, last_or_snoc in Hs. destruct Hs as [Hs1 (d & Hd & Hdp & Hdx & Hs2)].
  destruct (dl_seg_lookup _ _ _ _ p Hs1) as [np Hnp]; [set_solver|].
  assert (Hpn : p ≠ NULL ∧ p ≠ del) by (split; intros ->; set_solver).
  assert (Hhd' : head = first_or p ps1) by (subst head; by rewrite <- app_assoc, first_or_app).
  assert (Hh : head ∈ X ∧ head ∉ ps2 ∧ del ≠ head).
  { subst head. unfold X. destruct ps1 as [|f ps1]; cbn; [|split_and!; set_solver]. split_and!; set_solver. }
  step (load_ok _ _ _ Hd). rewrite Hdp, (proj2 (Z.eqb_neq _ _) (proj1 Hpn)), (proj2 (Z.eqb_neq _ _) (proj2 Hpn)).
  cbn [negb]. step (ret_ok tt h). rewrite (proj2 (Z.eqb_neq del head)) by apply Hh. rewrite Hdx.
  destruct (update_link X h p np (dl_set_next L (first_or NULL ps2))) as [E1 D1]; [done|unfold X; set_solver|apply dl_data_next|].
  step E1. pose proof (dl_seg_set_next h a p ps1 _ (first_or NULL ps2) np Hs1 Hp1 Hnp) as Hs1'.
  assert (Hs2' : dl_seg (<[p := dl_set_next L (first_or NULL ps2) np]> h) del ps2 NULL).
  { eapply dl_seg_frame; [|done]. intros q Hq. rewrite lookup_insert_ne; [done|]. by intros ->. }
  set (h1 := <[p := _]> h) in *.
  assert (Hd1 : h1 !! del = Some d) by (unfold h1; rewrite lookup_insert_ne; [done|apply Hpn]).
  step (load_ok _ _ _ Hd1). rewrite Hdx, Hdp.
  destruct ps2 as [|r ps2].
  - change (first_or NULL []) with NULL in *. cbn [negb Z.eqb].
    destruct (dl_seg_lookup _ _ _ _ head Hs1') as [nh Hnh]; [apply Hh|].
    destruct (update_link X h1 head nh (dl_set_prev L p)) as [E2 D2]; [done|apply Hh|apply dl_data_prev|].
    rewrite Z.eqb_refl. cbn [negb]. step E2. eexists. split; [done|]. split; [|by eapply dlinks_only_trans].
    split; [unfold X; rewrite first_or_app; exact Hhd'|]. split; [|done]. unfold X in *. rewrite last_or_snoc.
    rewrite Hhd' in *. destruct ps1 as [|f ps1].
    + exact (dl_seg_set_prev h1 a p p [] NULL nh Hs1' (not_elem_of_nil p) Hnh).
    + apply NoDup_cons in HndX as [HndX _]. exact (dl_seg_set_prev h1 a p f (ps1 ++ [p]) NULL nh Hs1' HndX Hnh).
  - change (first_or NULL (r :: ps2)) with r in *. assert (Hr : r ≠ NULL) by (intros ->; set_solver).
    rewrite (proj2 (Z.eqb_neq _ _) Hr). cbn [negb]. pose proof Hs2' as (m & Hm & _).
    destruct (update_link X h1 r m (dl_set_prev L p)) as [E2 D2]; [done|unfold X; set_solver|apply dl_data_prev|].
    step E2. eexists. split; [done|]. split; [|by eapply dlinks_only_trans].
    split; [unfold X; rewrite first_or_app; exact Hhd'|]. split; [|done].
    unfold X. replace (last_or NULL (ps1 ++ p :: r :: ps2)) with a
      by (unfold a; rewrite !last_or_app, !last_or_cons; done).
    replace (ps1 ++ p :: r :: ps2) with ((ps1 ++ [p]) ++ r :: ps2) by (by rewrite <- app_assoc).
    rewrite dl_seg_app, last_or_snoc. split.
    + eapply dl_seg_frame; [|exact Hs1']. intros q Hq. rewrite lookup_insert_ne; [done|]. intros ->.
      apply elem_of_app in Hq as [Hq| ->%list_elem_of_singleton]; [|set_solver]. apply (Hdis q); [by left|done].
    + eapply dl_seg_set_prev; [done|by apply NoDup_cons in Hnd2 as [? _]|done].
Qed.

Lemma DL_DELETE_spec h head ps1 del ps2 :
  dl_rep h head (ps1 ++ del :: ps2) →
  ∃ head' h', DL_DELETE L head del h = Ret head' h' ∧ dl_rep h' head' (ps1 ++ ps2) ∧
    dlinks_only (ps1 ++ ps2) h h'.
Proof.
  intros Hr. destruct ps1 as [|p ps1 _] using rev_ind.
  - destruct ps2 as [|r ps2].
    + destruct Hr as (-> & (d & Hd & Hp & _) & _ & Hz). unfold DL_DELETE. step (load_ok _ _ _ Hd).
      rewrite Hp. change (last_or NULL _) with del. assert (Hdn : del ≠ NULL) by set_solver.
      rewrite (proj2 (Z.eqb_neq _ _) Hdn), Z.eqb_refl. exists NULL, h. split; [done|].
      split; [|apply dlinks_only_refl]. split; [done|]. split; [done|]. split; [by apply NoDup_nil|set_solver].
    + pose proof Hr as (-> & _). destruct (delete_first h del r ps2 Hr) as (h' & E & ? & ?). by exists r, h'.
  - rewrite <- app_assoc in Hr. destruct (delete_later h head ps1 p del ps2 Hr) as (h' & E & ? & ?).
    exists head, h'. by rewrite <- app_assoc.
Qed.

Lemma dl_rep_frame X h h' head ps :
  dlinks_only X h h' → (∀ q, q ∈ ps → q ∉ X) → dl_rep h head ps → dl_rep h' head ps.
Proof.
  intros Hl Hd (-> & Hs & Hnd & Hz). split; [done|]. split; [|done].
  eapply dl_seg_frame; [|done]. intros q Hq. apply Hl. auto.
Qed.

(** Writing a node without changing its links. *)
Lemma dl_seg_update h a ps b q n n' :
  h !! q = Some n → dl_prev L n' = dl_prev L n → dl_next L n' = dl_next L n →
  dl_seg h a ps b → dl_seg (<[q := n']> h) a ps b.
Proof.
  intros Hq Hp Hx. revert a. induction ps as [|r ps IH]; intros a; [done|]. intros (m & Hm & Hmp & Hmx & Hs).
  destruct (decide (r = q)) as [->|Hne].
  - simplify_eq. exists n'. rewrite lookup_insert_eq. split_and!; try done; [congruence..|auto].
  - exists m. rewrite lookup_insert_ne by done. split_and!; auto.
Qed.

Lemma dl_rep_update h head ps q n n' :
  h !! q = Some n → dl_prev L n' = dl_prev L n → dl_next L n' = dl_next L n →
  dl_rep h head ps → dl_rep (<[q := n']> h) head ps.
Proof. intros Hq Hp Hx (-> & Hs & ?). split; [done|]. split; [by eapply dl_seg_update|done]. Qed.

Lemma dl_rep_lookup h head ps q : dl_rep h head ps → q ∈ ps → q ≠ NULL ∧ is_Some (h !! q).
Proof. intros (_ & Hs & _ & Hz) Hq. split; [by intros ->|by eapply dl_seg_lookup]. Qed.

Lemma dl_rep_fuel h head ps : dl_rep h head ps → (length ps ≤ size h)%nat.
Proof. intros Hr. apply heap_size_ge; [apply Hr|]. intros q Hq. by eapply dl_rep_lookup. Qed.

Lemma dl_foreach_spec fuel h a ps :
  dl_seg h a ps NULL → NULL ∉ ps → (length ps < fuel)%nat → dl_foreach L fuel (first_or NULL ps) h = Ret ps h.
Proof.
  revert a fuel. induction ps as [|q ps IH]; intros a [|fuel] Hs Hz Hf; simpl in Hf; try lia; [done|].
  destruct Hs as (n & Hn & _ & Hx & Hs). apply not_elem_of_cons in Hz as [Hq Hz]. cbn.
  rewrite (proj2 (Z.eqb_neq q NULL)) by done. step (load_ok _ _ _ Hn). rewrite Hx.
  step (IH q fuel Hs Hz ltac:(lia)). done.
Qed.

Lemma dl_count_spec fuel h a ps c :
  dl_seg h a ps NULL → NULL ∉ ps → (length ps < fuel)%nat →
  dl_count_loop L fuel (first_or NULL ps) c h = Ret (c + Z.of_nat (length ps)) h.
Proof.
  revert a fuel c. induction ps as [|q ps IH]; intros a [|fuel] c Hs Hz Hf; simpl in Hf; try lia;
    [cbn; by rewrite Z.add_0_r|].
  destruct Hs as (n & Hn & _ & Hx & Hs). apply not_elem_of_cons in Hz as [Hq Hz]. cbn -[Z.of_nat length].
  rewrite (proj2 (Z.eqb_neq q NULL)) by done. step (load_ok _ _ _ Hn). rewrite Hx.
  rewrite (IH q fuel (c + 1) Hs Hz) by lia. f_equal. cbn [length]. lia.
Qed.

Lemma DL_COUNT_spec h head ps : dl_rep h head ps → DL_COUNT L head h = Ret (Z.of_nat (length ps)) h.
Proof.
  intros Hr. pose proof (dl_rep_fuel _ _ _ Hr). destruct Hr as (-> & Hs & _ & Hz). unfold DL_COUNT.
  step (eq_refl : fuel_of_heap h = Ret (S (size h)) h). rewrite (dl_count_spec _ _ _ _ _ Hs Hz) by lia. done.
Qed.
End Rep.
