(* ===== verification/Listsort.v ===== *)
(** * utlist.h: sorting linked lists

    [LL_SORT2] and [DL_SORT2] of libs/uthash/src/utlist.h, Simon Tatham's
    bottom-up merge sort: each pass merges neighbouring runs of [insize]
    nodes into runs of twice that size by relinking the nodes, until one
    merge is enough.  The two macros differ only in that the second one also
    maintains the [prev] members, so both are instances of one body. *)

From stdpp Require Import base numbers list gmap strings fin_maps sorting.
From S2P Require Import Prelude UtList Dlist.

Section Sort.
Context {T : Type}.
Variable next : T → Z.
Variable set_next : Z → T → T.
(** What [DL_SORT2] does to [prev] members; nothing in [LL_SORT2]. *)
Variable set_prev : Z → T → T.
(** The comparison function, on the structs its arguments point to. *)
Variable cmp : T → T → Z.

(** [for (_ls_i = 0; _ls_i < _ls_insize; _ls_i++)]: find the second run. *)
Fixpoint sort_advance (n : nat) (q psize : Z) : M (gmap Z T) (Z * Z) :=
  match n with
  | O => mret (q, psize)
  | S n =>
      m ← load q;
      let psize := psize + 1 in
      let q := next m in
      if q =? NULL then mret (q, psize) else sort_advance n q psize
  end.

(** The choice of the next node [e]: from the first run or from the second. *)
Definition merge_choose (p psize q qsize : Z) : M (gmap Z T) (Z * Z * Z * Z * Z) :=
  if psize =? 0 then
    n ← load q; mret (q, p, psize, next n, qsize - 1)
  else if (qsize =? 0) || (q =? NULL) then
    n ← load p; mret (p, next n, psize - 1, q, qsize)
  else
    a ← load p; b ← load q;
    if cmp a b <=? 0 then mret (p, next a, psize - 1, q, qsize)
    else mret (q, p, psize, next b, qsize - 1).

(** Append [e] to the new list; the result is [list]. *)
Definition sort_link (list tail e : Z) : M (gmap Z T) Z :=
  list ← (if negb (tail =? NULL) then update tail (set_next e);; mret list else mret e);
  update e (set_prev tail);;
  mret list.

(** [while (_ls_psize > 0 || (_ls_qsize > 0 && _ls_q))]: the result is [q],
    [list] and [tail]. *)
Fixpoint merge_loop (fuel : nat) (p psize q qsize list tail : Z) : M (gmap Z T) (Z * Z * Z) :=
  if (0 <? psize) || ((0 <? qsize) && negb (q =? NULL)) then
    match fuel with
    | O => nofuel
    | S fuel =>
        '(e, p, psize, q, qsize) ← merge_choose p psize q qsize;
        list ← sort_link list tail e;
        merge_loop fuel p psize q qsize list e
    end
  else mret (q, list, tail).

(** [while (_ls_p)]: one pass; the result is [list], [tail] and [nmerges]. *)
Fixpoint pass_loop (fuel : nat) (insize p list tail nmerges : Z) : M (gmap Z T) (Z * Z * Z) :=
  if p =? NULL then mret (list, tail, nmerges)
  else
    match fuel with
    | O => nofuel
    | S fuel =>
        '(q, psize) ← sort_advance (Z.to_nat insize) p 0;
        f ← fuel_of_heap;
        '(q, list, tail) ← merge_loop f p psize q insize list tail;
        pass_loop fuel insize q list tail (nmerges + 1)
    end.

(** [while (_ls_looping)] *)
Fixpoint sort_loop (fuel : nat) (list insize : Z) : M (gmap Z T) Z :=
  match fuel with
  | O => nofuel
  | S fuel =>
      f ← fuel_of_heap;
      '(list, tail, nmerges) ← pass_loop f insize list NULL NULL 0;
      update list (set_prev tail);;
      update tail (set_next NULL);;
      if nmerges <=? 1 then mret list else sort_loop fuel list (s32 (insize * 2))
  end.

Definition sort_body (list : Z) : M (gmap Z T) Z :=
  if list =? NULL then mret list
  else f ← fuel_of_heap; sort_loop f list 1.
End Sort.

(** [#define LL_SORT2(list, cmp, next)] *)
Definition LL_SORT {T} `{LLNode T} (cmp : T → T → Z) (list : Z) : M (gmap Z T) Z :=
  sort_body ll_next ll_set_next (λ _ n, n) cmp list.

(** [#define DL_SORT2(list, cmp, prev, next)] *)
Definition DL_SORT {T} (L : dlinks T) (cmp : T → T → Z) (list : Z) : M (gmap Z T) Z :=
  sort_body (dl_next L) (dl_set_next L) (dl_set_prev L) cmp list.

(** ** The sort as a function on lists *)
Section SortL.
Context (R : relation Z) `{∀ x y, Decision (R x y)}.
Implicit Types (l : list Z) (k : nat).

(** One pass over a list of [n] merges at most. *)
Fixpoint pass_l (n k : nat) l : list Z :=
  match n, l with
  | _, [] => []
  | O, l => l
  | S n, l => list_merge R (take k l) (take k (drop k l)) ++ pass_l n k (drop k (drop k l))
  end.

(** Runs of [k] sorted elements; the last run may be shorter. *)
Inductive runs (k : nat) : list Z → Prop :=
  | runs_last l : (length l ≤ k)%nat → Sorted R l → runs k l
  | runs_app l1 l2 : length l1 = k → Sorted R l1 → runs k l2 → runs k (l1 ++ l2).

(** Number of merges of a pass. *)
Fixpoint merges_l (n k : nat) l : nat :=
  match n, l with
  | S n, _ :: _ => S (merges_l n k (drop k (drop k l)))
  | _, _ => O
  end.

Lemma pass_l_nil n k : pass_l n k [] = [].
Proof. by destruct n. Qed.

Lemma pass_l_cons n k l :
  l ≠ [] → pass_l (S n) k l = list_merge R (take k l) (take k (drop k l)) ++ pass_l n k (drop k (drop k l)).
Proof. by destruct l. Qed.

Lemma pass_l_perm n k l : pass_l n k l ≡ₚ l.
Proof.
  revert l. induction n as [|n IH]; intros l; [by destruct l|]. destruct (decide (l = [])) as [->|Hl]; [done|].
  rewrite pass_l_cons, merge_Permutation, IH by done. by rewrite <- app_assoc, !take_drop.
Qed.

Lemma runs_nil k : runs k [].
Proof. apply runs_last; [simpl; lia|constructor]. Qed.

Lemma runs_one l : runs 1 l.
Proof.
  induction l as [|x l IH]; [apply runs_nil|]. apply (runs_app 1 [x]); [done| |done]. by repeat constructor.
Qed.

Lemma runs_sorted k l : runs k l → (length l ≤ k)%nat → Sorted R l.
Proof.
  intros [|l1 l2 Hl1 Hs Hr] Hl; [done|]. rewrite length_app in Hl. destruct l2; [by rewrite app_nil_r|simpl in Hl; lia].
Qed.

Lemma Sorted_take k l : Sorted R l → Sorted R (take k l).
Proof.
  intros Hs. revert k. induction Hs as [|x l Hs IH Hx]; intros [|k]; simpl; auto.
  apply Sorted_cons; [done|]. destruct Hx; [by destruct k|]. destruct k; simpl; auto.
Qed.

Lemma runs_take_drop k l : runs k l → Sorted R (take k l) ∧ runs k (drop k l).
Proof.
  intros [l' Hl Hs|l1 l2 Hl Hs Hr].
  - split; [by apply Sorted_take|]. rewrite drop_ge by done. apply runs_nil.
  - by rewrite take_app_length', drop_app_length'.
Qed.

(** A pass doubles the length of the runs. *)
Lemma pass_l_runs `{!Total R} n k l :
  (0 < k)%nat → (length l ≤ n)%nat → runs k l → runs (k + k) (pass_l n k l).
Proof.
  intros Hk. revert l. induction n as [|n IH]; intros l Hl Hr.
  { destruct l; [|simpl in Hl; lia]. apply runs_nil. }
  destruct (decide (l = [])) as [->|Hne]; [apply runs_nil|].
  assert (0 < length l)%nat by (destruct l; [done|simpl; lia]).
  rewrite pass_l_cons by done. destruct (runs_take_drop k l Hr) as [H1 Hr1].
  destruct (runs_take_drop k _ Hr1) as [H2 Hr2].
  assert (Hm : Sorted R (list_merge R (take k l) (take k (drop k l)))) by (by apply Sorted_list_merge).
  assert (Hlen : length (list_merge R (take k l) (take k (drop k l))) = Nat.min (k + k) (length l)).
  { rewrite merge_Permutation, length_app, !length_take, length_drop. lia. }
  destruct (Nat.le_gt_cases (k + k) (length l)).
  - apply runs_app; [lia|done|]. apply IH; [|done]. rewrite !length_drop. lia.
  - rewrite (drop_ge (drop k l)), pass_l_nil, app_nil_r by (rewrite length_drop; lia). apply runs_last; [lia|done].
Qed.

Lemma merges_l_one n k l : (merges_l n k l ≤ 1)%nat → (length l ≤ n)%nat → (0 < k)%nat → (length l ≤ k + k)%nat.
Proof.
  intros Hm Hl Hk. destruct n as [|n]; [lia|]. destruct l as [|x l]; [simpl; lia|].
  cbn [merges_l] in Hm. set (l' := x :: l) in *. assert (0 < length l')%nat by (simpl; lia).
  destruct n as [|n]; [lia|].
  destruct (drop k (drop k l')) as [|y r] eqn:E; [|simpl in Hm; lia].
  apply (f_equal length) in E. rewrite !length_drop in E. change (length []) with 0%nat in E. lia.
Qed.

Lemma merges_l_short n k l : (length l ≤ k + k)%nat → (merges_l n k l ≤ 1)%nat.
Proof.
  intros Hl. destruct n as [|n], l as [|x l]; cbn [merges_l]; [lia..|].
  rewrite drop_ge by (rewrite length_drop; lia). destruct n; simpl; lia.
Qed.
End SortL.

(** ** The macros sort *)
Section SortRep.
Context {T : Type}.
Variables (next : T → Z) (set_next set_prev : Z → T → T) (cmp : T → T → Z).
(** What is known of the [prev] member, and the members that are not links. *)
Variables (has_prev : Z → T → Prop) (data : T → T).

Record sort_laws : Prop := {
  sl_next : ∀ p n, next (set_next p n) = p;
  sl_next_prev : ∀ p n, next (set_prev p n) = next n;
  sl_prev : ∀ p n, has_prev p (set_prev p n);
  sl_prev_next : ∀ a p n, has_prev a n → has_prev a (set_next p n);
  sl_data_next : ∀ p n, data (set_next p n) = data n;
  sl_data_prev : ∀ p n, data (set_prev p n) = data n;
  sl_cmp : ∀ a b, cmp a b = cmp (data a) (data b)
}.
Hypothesis Laws : sort_laws.
Implicit Types (h : gmap Z T) (p q : Z) (ps : list Z).

(** Nodes linked in both directions, and nodes linked by [next] only. *)
Fixpoint gseg h (a : Z) ps (b : Z) : Prop :=
  match ps with
  | [] => True
  | q :: ps => ∃ n, h !! q = Some n ∧ has_prev a n ∧ next n = first_or b ps ∧ gseg h q ps b
  end.
Fixpoint nseg h ps (b : Z) : Prop :=
  match ps with
  | [] => True
  | q :: ps => ∃ n, h !! q = Some n ∧ next n = first_or b ps ∧ nseg h ps b
  end.

Definition relinked (X : list Z) h h' : Prop :=
  ∀ q, (q ∉ X → h' !! q = h !! q) ∧ data <$> h' !! q = data <$> h !! q.

Lemma relinked_refl X h : relinked X h h.
Proof. by intros q. Qed.

Lemma relinked_trans X Y W h1 h2 h3 :
  relinked X h1 h2 → relinked Y h2 h3 → (∀ q, q ∈ X → q ∈ W) → (∀ q, q ∈ Y → q ∈ W) → relinked W h1 h3.
Proof.
  intros H1 H2 HX HY q. destruct (H1 q) as [A1 B1], (H2 q) as [A2 B2].
  split; [|congruence]. intros Hq. rewrite A2, A1; auto.
Qed.

Lemma relinked_set X h q n m :
  h !! q = Some n → q ∈ X → data m = data n → relinked X h (<[q := m]> h).
Proof.
  intros Hq HX Hd r. destruct (decide (r = q)) as [->|Hne].
  - split; [done|]. rewrite lookup_insert_eq, Hq. simpl. by rewrite Hd.
  - rewrite lookup_insert_ne by done. done.
Qed.

Lemma nseg_frame X h h' ps b :
  relinked X h h' → (∀ q, q ∈ ps → q ∉ X) → nseg h ps b → nseg h' ps b.
Proof.
  intros Hr. induction ps as [|q ps IH]; intros Hf; [done|]. intros (n & Hn & ? & Hs). exists n.
  rewrite (proj1 (Hr q)) by (apply Hf; by left). split_and!; try done. apply IH; [|done]. intros; apply Hf; by right.
Qed.

Lemma gseg_frame X h h' a ps b :
  relinked X h h' → (∀ q, q ∈ ps → q ∉ X) → gseg h a ps b → gseg h' a ps b.
Proof.
  intros Hr. revert a. induction ps as [|q ps IH]; intros a Hf; [done|]. intros (n & Hn & ? & ? & Hs). exists n.
  rewrite (proj1 (Hr q)) by (apply Hf; by left). split_and!; try done. apply IH; [|done]. intros; apply Hf; by right.
Qed.

Lemma gseg_app h a ps1 ps2 b :
  gseg h a (ps1 ++ ps2) b ↔ gseg h a ps1 (first_or b ps2) ∧ gseg h (last_or a ps1) ps2 b.
Proof.
  revert a. induction ps1 as [|q ps1 IH]; intros a; [simpl; tauto|].
  rewrite last_or_cons. simpl. setoid_rewrite IH. rewrite first_or_app. naive_solver.
Qed.

Lemma nseg_app h ps1 ps2 b : nseg h (ps1 ++ ps2) b ↔ nseg h ps1 (first_or b ps2) ∧ nseg h ps2 b.
Proof.
  induction ps1 as [|q ps1 IH]; [simpl; tauto|]. simpl. setoid_rewrite IH. rewrite first_or_app. naive_solver.
Qed.

Lemma gseg_nseg h a ps b : gseg h a ps b → nseg h ps b.
Proof. revert a. induction ps as [|q ps IH]; intros a; [done|]. intros (n & ? & _ & ? & ?). exists n. eauto. Qed.

(** Appending a node to the new list. *)
Lemma sort_link_spec h O b e n :
  gseg h NULL O b → NoDup O → NULL ∉ O → e ∉ O → h !! e = Some n →
  ∃ h', sort_link set_next set_prev (first_or NULL O) (last_or NULL O) e h = Ret (first_or NULL (O ++ [e])) h' ∧
    gseg h' NULL (O ++ [e]) (next n) ∧ relinked (O ++ [e]) h h'.
Proof.
  intros Hs Hnd Hz He Hn. unfold sort_link. destruct O as [|t O _] using rev_ind.
  - change (last_or NULL []) with NULL. rewrite Z.eqb_refl. cbn [negb].
    rewrite (bind_ret _ _ _ _ _ (ret_ok e h)). step (update_ok _ _ _ (set_prev NULL) Hn). eexists. split; [done|].
    split; [|apply relinked_set with n; [done|by left|apply sl_data_prev, Laws]].
    exists (set_prev NULL n). rewrite lookup_insert_eq, sl_next_prev by done.
    split; [done|]. split; [by apply sl_prev|done].
  - rewrite last_or_snoc. assert (Ht : t ≠ NULL ∧ t ≠ e ∧ t ∉ O).
    { apply NoDup_app in Hnd as (_ & Hnd & _). split_and!; [intros ->; set_solver..|].
      intros Hx. apply (Hnd t Hx). by left. }
    destruct Ht as (Ht & Hte & HtO). rewrite (proj2 (Z.eqb_neq _ _) Ht). cbn [negb].
    apply gseg_app in Hs as [Hs (m & Hm & Hmp & _)].
    step (update_ok _ _ _ (set_next e) Hm). rewrite (bind_ret _ _ _ _ _ (ret_ok _ _)).
    assert (He1 : <[t := set_next e m]> h !! e = Some n) by (by rewrite lookup_insert_ne).
    step (update_ok _ _ _ (set_prev t) He1). eexists. split; [by rewrite !first_or_app|].
    assert (Hr : relinked [t; e] h (<[e:=set_prev t n]> (<[t:=set_next e m]> h))).
    { apply (relinked_trans [t] [e] _ h (<[t:=set_next e m]> h)); [eapply relinked_set; [done|by left|by apply sl_data_next]
        |eapply relinked_set; [done|by left|by apply sl_data_prev]|set_solver..]. }
    split; [|eapply relinked_trans; [exact Hr|apply (relinked_refl [])|set_solver..]].
    rewrite gseg_app, last_or_snoc. split.
    + rewrite gseg_app. split; [eapply gseg_frame; [exact Hr|set_solver|done]|].
      exists (set_next e m). rewrite lookup_insert_ne, lookup_insert_eq, sl_next by done.
      split; [done|]. split; [by apply sl_prev_next|done].
    + exists (set_prev t n). rewrite lookup_insert_eq, sl_next_prev by done.
      split; [done|]. split; [by apply sl_prev|done].
Qed.

(** The order of two nodes by the data they hold in [h0]. *)
Definition node_le (h0 : gmap Z T) (x y : Z) : Prop :=
  match h0 !! x, h0 !! y with Some a, Some b => cmp a b ≤ 0 | _, _ => True end.
#[global] Instance node_le_dec h0 x y : Decision (node_le h0 x y).
Proof. unfold node_le. destruct (h0 !! x), (h0 !! y); apply _. Defined.

Definition same_data h h' : Prop := ∀ q, data <$> h' !! q = data <$> h !! q.

Lemma relinked_same X h h0 h' : same_data h0 h → relinked X h h' → same_data h0 h'.
Proof. intros H1 H2 q. destruct (H2 q) as [_ ->]. apply H1. Qed.

Lemma node_le_data h0 h x y a b :
  same_data h0 h → h !! x = Some a → h !! y = Some b → node_le h0 x y ↔ cmp a b ≤ 0.
Proof.
  intros Hd Hx Hy. unfold node_le. pose proof (Hd x) as Dx. pose proof (Hd y) as Dy. rewrite Hx in Dx. rewrite Hy in Dy.
  destruct (h0 !! x) as [a0|], (h0 !! y) as [b0|]; simpl in *; try done. injection Dx as Dx. injection Dy as Dy.
  by rewrite (sl_cmp Laws a0 b0), (sl_cmp Laws a b), Dx, Dy.
Qed.

(** A node is taken from the first run, or from the second. *)
Lemma choose_p h p q qsize x P y n :
  h !! p = Some n → nseg h (p :: P) x → (qsize = 0 ∨ q = NULL ∨ (h !! q = Some y ∧ cmp n y ≤ 0)) →
  merge_choose next cmp p (Z.of_nat (length (p :: P))) q qsize h =
    Ret (p, first_or x P, Z.of_nat (length P), q, qsize) h.
Proof.
  intros Hn (m & Hm & Hx & _) Hq. simplify_eq. unfold merge_choose.
  replace (Z.of_nat (length P)) with (Z.of_nat (length (p :: P)) - 1) by (cbn [length]; lia).
  rewrite (proj2 (Z.eqb_neq _ 0)) by (cbn [length]; lia).
  destruct (qsize =? 0) eqn:E1, (q =? NULL) eqn:E2; bool_to_prop; cbn [orb];
    try (step (load_ok _ _ _ Hn); by rewrite Hx).
  destruct Hq as [?|[?|[Hy Hc]]]; [done..|]. step (load_ok _ _ _ Hn). step (load_ok _ _ _ Hy).
  rewrite (proj2 (Z.leb_le _ _) Hc). by rewrite Hx.
Qed.

Lemma choose_q h p q qsize x P Q y n :
  0 < qsize → q ≠ NULL → h !! q = Some y → nseg h (q :: Q) x →
  (P = [] ∨ (h !! p = Some n ∧ ¬ cmp n y ≤ 0)) →
  merge_choose next cmp p (Z.of_nat (length (A:=Z) P)) q qsize h =
    Ret (q, p, Z.of_nat (length P), first_or x Q, qsize - 1) h.
Proof.
  intros Hqs Hqn Hy (m & Hm & Hx & _) Hq. simplify_eq. unfold merge_choose.
  destruct (_ =? 0) eqn:E1; bool_to_prop; [step (load_ok _ _ _ Hy); by rewrite Hx|].
  destruct Hq as [->|[Hn Hc]]; [done|].
  rewrite (proj2 (Z.eqb_neq qsize 0)) by lia. rewrite (proj2 (Z.eqb_neq q NULL)) by done. cbn [orb].
  step (load_ok _ _ _ Hn). step (load_ok _ _ _ Hy). rewrite (proj2 (Z.leb_gt _ _)) by lia. by rewrite Hx.
Qed.

(** In the middle of a merge: [O] is the new list, [P] and [Q] are what is
    left of the two runs, [W] is what follows them. *)
Record merge_inv h (O P Q W : list Z) (p q x : Z) : Prop := {
  mi_out : ∃ b, gseg h NULL O b;
  mi_p : nseg h P x;
  mi_p_head : P ≠ [] → p = first_or NULL P;
  mi_q : nseg h (Q ++ W) NULL;
  mi_q_head : q = first_or NULL (Q ++ W);
  mi_nodup : NoDup (O ++ P ++ Q ++ W);
  mi_null : NULL ∉ O ++ P ++ Q ++ W
}.

Lemma link_inv h O e V :
  (∃ b, gseg h NULL O b) → NoDup (O ++ e :: V) → NULL ∉ O ++ e :: V → is_Some (h !! e) →
  ∃ h', sort_link set_next set_prev (first_or NULL O) (last_or NULL O) e h = Ret (first_or NULL (O ++ [e])) h' ∧
    (∃ b, gseg h' NULL (O ++ [e]) b) ∧ relinked (O ++ [e]) h h' ∧ (∀ ps b, (∀ y, y ∈ ps → y ∈ V) → nseg h ps b → nseg h' ps b).
Proof.
  intros [b Hs] Hnd Hz [n Hn]. assert (He : e ∉ O ∧ e ∉ V ∧ NoDup O ∧ ∀ y, y ∈ V → y ∉ O).
  { apply NoDup_app in Hnd as (N1 & N2 & N3). apply NoDup_cons in N3 as [N3 _]. split_and!; set_solver. }
  destruct He as (He & HeV & HndO & Hdis).
  destruct (sort_link_spec h O b e n) as (h' & E & Hs' & Hr); try done; [set_solver|].
  exists h'. split; [done|]. split; [eauto|]. split; [done|].
  intros ps b' Hps. apply (nseg_frame (O ++ [e])); [done|].
  intros y Hy [Hy'| ->%list_elem_of_singleton]%elem_of_app; [by apply (Hdis y); auto|auto].
Qed.

Lemma take_p h O e P Q W q x :
  merge_inv h O (e :: P) Q W e q x →
  ∃ h', sort_link set_next set_prev (first_or NULL O) (last_or NULL O) e h = Ret (first_or NULL (O ++ [e])) h' ∧
    merge_inv h' (O ++ [e]) P Q W (first_or x P) q x ∧ relinked (O ++ [e]) h h'.
Proof.
  intros [Ho Hp _ Hq Hqh Hnd Hz]. pose proof Hp as (n & Hn & _ & Hp'). simpl in Hnd, Hz.
  destruct (link_inv h O e (P ++ Q ++ W)) as (h' & E & Ho' & Hr & Hkeep); try done.
  exists h'. split; [done|]. split; [|done].
  split; rewrite <- ?app_assoc; try done.
  - apply Hkeep; [set_solver|done].
  - by destruct P.
  - apply Hkeep; [set_solver|done].
Qed.

Lemma take_q h O e P Q W p x :
  merge_inv h O P (e :: Q) W p e x →
  ∃ h', sort_link set_next set_prev (first_or NULL O) (last_or NULL O) e h = Ret (first_or NULL (O ++ [e])) h' ∧
    merge_inv h' (O ++ [e]) P Q W p (first_or NULL (Q ++ W)) x ∧ relinked (O ++ [e]) h h'.
Proof.
  intros [Ho Hp Hph (n & Hn & _ & Hq) _ Hnd Hz].
  assert (Hperm : O ++ P ++ (e :: Q) ++ W ≡ₚ O ++ e :: (P ++ Q ++ W)).
  { apply Permutation_app_head. symmetry. apply Permutation_middle. }
  rewrite Hperm in Hnd, Hz.
  destruct (link_inv h O e (P ++ Q ++ W)) as (h' & E & Ho' & Hr & Hkeep); try done.
  exists h'. split; [done|]. split; [|done].
  split; rewrite <- ?app_assoc; try done.
  - apply Hkeep; [set_solver|done].
  - apply Hkeep; [set_solver|done].
Qed.

Abbreviation merge_l h0 := (list_merge (node_le h0)).

(** What a finished merge has done. *)
Definition merged h0 h h' (O P Q W : list Z) : Prop :=
  (∃ b, gseg h' NULL (O ++ merge_l h0 P Q) b) ∧ nseg h' W NULL ∧ relinked (O ++ P ++ Q) h h'.

Lemma merged_step h0 h h1 h' O e P Q P' Q' W :
  relinked (O ++ [e]) h h1 → merged h0 h1 h' (O ++ [e]) P' Q' W →
  merge_l h0 P Q = e :: merge_l h0 P' Q' → (e :: P' ++ Q' ≡ₚ P ++ Q) →
  merged h0 h h' O P Q W.
Proof.
  intros Hr (Ho & Hw & Hr') Hm Hperm. rewrite <- app_assoc in Ho. split; [by rewrite Hm|]. split; [done|].
  assert (HE : ∀ y, y = e ∨ y ∈ P' ∨ y ∈ Q' ↔ y ∈ P ∨ y ∈ Q).
  { intros y. rewrite <- !elem_of_app, <- Hperm, elem_of_cons. done. }
  eapply relinked_trans; [exact Hr|exact Hr'| |]; intros y; rewrite !elem_of_app, list_elem_of_singleton;
    specialize (HE y); tauto.
Qed.

(** The merge loop returns, having merged [P] and [Q]. *)
Definition merge_ok h0 fuel h (O P Q W : list Z) (p q qsize : Z) : Prop :=
  ∃ h', merge_loop next set_next set_prev cmp fuel p (Z.of_nat (length P)) q qsize (first_or NULL O) (last_or NULL O) h =
      Ret (first_or NULL W, first_or NULL (O ++ merge_l h0 P Q), last_or NULL (O ++ merge_l h0 P Q)) h' ∧
    merged h0 h h' O P Q W.

Lemma merge_loop_done h0 fuel h O W p q x qsize :
  merge_inv h O [] [] W p q x → 0 ≤ qsize → (W ≠ [] → 0 = qsize) → merge_ok h0 fuel h O [] [] W p q qsize.
Proof.
  intros [Ho _ _ Hq -> _ _] H0 Hw. exists h. rewrite list_merge_nil_l, app_nil_r. split.
  - destruct W as [|w W]; [|rewrite <- Hw by done]; destruct fuel; cbn; rewrite ?andb_false_r; done.
  - split; [by rewrite app_nil_r|]. split; [done|apply relinked_refl].
Qed.

Lemma merge_loop_step h0 fuel h h1 O P Q W p q qsize e P' Q' p' q' qsize' :
  (0 <? Z.of_nat (length P)) || ((0 <? qsize) && negb (q =? NULL)) = true →
  merge_choose next cmp p (Z.of_nat (length P)) q qsize h = Ret (e, p', Z.of_nat (length P'), q', qsize') h →
  sort_link set_next set_prev (first_or NULL O) (last_or NULL O) e h = Ret (first_or NULL (O ++ [e])) h1 →
  relinked (O ++ [e]) h h1 → merge_l h0 P Q = e :: merge_l h0 P' Q' → (e :: P' ++ Q' ≡ₚ P ++ Q) →
  merge_ok h0 fuel h1 (O ++ [e]) P' Q' W p' q' qsize' → merge_ok h0 (S fuel) h O P Q W p q qsize.
Proof.
  intros Hcond E1 E2 Hr1 Hm Hperm (h' & E3 & Hm'). exists h'. split; [|by eapply merged_step].
  cbn [merge_loop]. rewrite Hcond. step E1. step E2. rewrite last_or_snoc, <- app_assoc in E3. by rewrite Hm.
Qed.

Lemma merge_loop_spec h0 fuel h O P Q W p q x qsize :
  merge_inv h O P Q W p q x → same_data h0 h → Z.of_nat (length Q) ≤ qsize →
  (W ≠ [] → Z.of_nat (length Q) = qsize) → (length P + length Q ≤ fuel)%nat →
  merge_ok h0 fuel h O P Q W p q qsize.
Proof.
  revert h O P Q p q qsize. induction fuel as [|fuel IH]; intros h O P Q p q qsize Hi Hd Hle Hw Hf.
  { destruct P, Q; simpl in Hf; try lia. by eapply merge_loop_done. }
  pose proof Hi as [_ Hp Hph Hq Hqh _ Hz].
  destruct P as [|e P]; [|rewrite Hph in Hi |- * by done; change (first_or NULL (e :: P)) with e in *];
    (destruct Q as [|f Q]; [|rewrite Hqh in Hi |- *; change (first_or NULL ((f :: Q) ++ W)) with f in *;
      assert (Hfn : f ≠ NULL) by set_solver; pose proof Hq as (nf & Hnf & _)]).
  - by eapply merge_loop_done.
  - destruct (take_q _ _ _ _ _ _ _ _ Hi) as (h1 & E2 & Hi1 & Hr1). simpl in Hle, Hf.
    apply (merge_loop_step h0 fuel h h1 O [] (f :: Q) W p f qsize f [] Q p (first_or NULL (Q ++ W)) (qsize - 1)); try done.
    + rewrite (proj2 (Z.eqb_neq f NULL)) by done. simpl. rewrite andb_true_r. apply Z.ltb_lt. lia.
    + apply (choose_q h p f qsize NULL [] (Q ++ W) nf nf); [lia|done|done|done|by left].
    + by rewrite !list_merge_nil_l.
    + apply IH; [done|by eapply relinked_same|lia|intros ?%Hw; simpl in *; lia|simpl; lia].
  - destruct (take_p _ _ _ _ _ _ _ _ Hi) as (h1 & E2 & Hi1 & Hr1). pose proof Hp as (ne & Hne & _). simpl in Hf.
    apply (merge_loop_step h0 fuel h h1 O (e :: P) [] W e q qsize e P [] (first_or x P) q qsize); try done.
    + apply (choose_p h e q qsize x P ne ne); [done..|]. rewrite Hqh. destruct W as [|w W]; [by right; left|left; by rewrite <- Hw].
    + by rewrite !list_merge_nil_r.
    + apply IH; [done|by eapply relinked_same|done|done|simpl; lia].
  - pose proof Hp as (ne & Hne & _). simpl in Hf, Hle. pose proof (node_le_data h0 h e f ne nf Hd Hne Hnf) as Hcmp.
    destruct (decide (node_le h0 e f)) as [Hc|Hc].
    + destruct (take_p _ _ _ _ _ _ _ _ Hi) as (h1 & E2 & Hi1 & Hr1).
      apply (merge_loop_step h0 fuel h h1 O (e :: P) (f :: Q) W e f qsize e P (f :: Q) (first_or x P) f qsize); try done.
      * eapply choose_p; [done..|]. right; right. by rewrite <- Hcmp.
      * rewrite list_merge_cons. by destruct (decide _).
      * apply IH; [done|by eapply relinked_same|done|done|simpl; lia].
    + destruct (take_q _ _ _ _ _ _ _ _ Hi) as (h1 & E2 & Hi1 & Hr1).
      apply (merge_loop_step h0 fuel h h1 O (e :: P) (f :: Q) W e f qsize f (e :: P) Q e (first_or NULL (Q ++ W)) (qsize - 1)); try done.
      * eapply choose_q; [lia|done|done|done|right]. by rewrite <- Hcmp.
      * rewrite list_merge_cons. by destruct (decide _).
      * simpl. by rewrite Permutation_swap, <- Permutation_middle.
      * apply IH; [done|by eapply relinked_same|lia|intros ?%Hw; simpl in *; lia|simpl; lia].
Qed.

Lemma sort_advance_spec n h l c :
  l ≠ [] → nseg h l NULL → NULL ∉ l →
  sort_advance next n (first_or NULL l) c h =
    Ret (first_or NULL (drop n l), c + Z.of_nat (length (take n l))) h.
Proof.
  revert l c. induction n as [|n IH]; intros [|q l] c Hl Hs Hz; try done.
  { simpl. by rewrite Z.add_0_r. }
  destruct Hs as (m & Hm & Hx & Hs). apply not_elem_of_cons in Hz as [Hq Hz]. cbn [sort_advance].
  change (first_or NULL (q :: l)) with q. step (load_ok _ _ _ Hm). rewrite Hx. destruct l as [|r l].
  - cbn. by rewrite drop_nil, take_nil.
  - rewrite (proj2 (Z.eqb_neq (first_or NULL (r :: l)) NULL)) by (cbn; set_solver).
    rewrite (IH (r :: l) (c + 1)) by done. cbn [drop take]. f_equal. f_equal. cbn [length]. lia.
Qed.

(** The chain of nodes still to be sorted splits into the two runs and the rest. *)
Lemma split_runs h O l k b :
  gseg h NULL O b → nseg h l NULL → NoDup (O ++ l) → NULL ∉ O ++ l →
  merge_inv h O (take k l) (take k (drop k l)) (drop k (drop k l)) (first_or NULL l) (first_or NULL (drop k l))
    (first_or NULL (drop k l)).
Proof.
  intros Ho Hs Hnd Hz.
  assert (Hl : take k l ++ take k (drop k l) ++ drop k (drop k l) = l) by (by rewrite !take_drop).
  rewrite <- (take_drop k l), nseg_app in Hs. destruct Hs as [Hp Hq].
  split; rewrite ?Hl, ?take_drop; try done.
  - by exists b.
  - intros Hne. rewrite <- (take_drop k l) at 1. rewrite first_or_app. by destruct (take k l).
Qed.

Lemma elem_take k (l : list Z) x : x ∈ take k l → x ∈ l.
Proof. intros Hx. rewrite <- (take_drop k l), elem_of_app. by left. Qed.
Lemma elem_drop k (l : list Z) x : x ∈ drop k l → x ∈ l.
Proof. intros Hx. rewrite <- (take_drop k l), elem_of_app. by right. Qed.

Lemma nseg_lookup h l b x : nseg h l b → x ∈ l → is_Some (h !! x).
Proof.
  induction l as [|q l IH]; [by rewrite elem_of_nil|].
  intros (n & Hn & _ & Hs) [->|Hx]%elem_of_cons; [by eexists|auto].
Qed.

(** One merge of a pass: the next two runs are merged onto the new list. *)
Lemma merge_runs h0 k h O b l :
  (0 < k)%nat → l ≠ [] → gseg h NULL O b → nseg h l NULL → NoDup (O ++ l) → NULL ∉ O ++ l → same_data h0 h →
  let P := take k l in let Q := take k (drop k l) in let W := drop k (drop k l) in
  sort_advance next k (first_or NULL l) 0 h = Ret (first_or NULL (drop k l), Z.of_nat (length P)) h ∧
  merge_ok h0 (S (size h)) h O P Q W (first_or NULL l) (first_or NULL (drop k l)) (Z.of_nat k).
Proof.
  intros Hk Hl Ho Hs Hnd Hz Hd P Q W. assert (HzL : NULL ∉ l) by set_solver.
  split; [by rewrite (sort_advance_spec k h l 0 Hl Hs HzL)|].
  assert (Hlen : (length l ≤ size h)%nat).
  { apply heap_size_ge; [by apply NoDup_app in Hnd as (_ & _ & ?)|]. intros x Hx. by eapply nseg_lookup. }
  eapply merge_loop_spec; [by eapply split_runs|done|unfold Q; rewrite length_take; lia| |].
  - unfold Q, W. intros Hw. rewrite length_take. enough (k < length (drop k l))%nat by lia.
    destruct (Nat.le_gt_cases (length (drop k l)) k) as [Hge|]; [by rewrite drop_ge in Hw|done].
  - unfold P, Q. rewrite !length_take, length_drop. lia.
Qed.

Lemma pass_loop_spec h0 fuel k h O b l nm :
  (0 < k)%nat → gseg h NULL O b → nseg h l NULL → NoDup (O ++ l) → NULL ∉ O ++ l → same_data h0 h →
  (length l ≤ fuel)%nat → let r := O ++ pass_l (node_le h0) fuel k l in
  ∃ h', pass_loop next set_next set_prev cmp fuel (Z.of_nat k) (first_or NULL l) (first_or NULL O) (last_or NULL O) nm h =
      Ret (first_or NULL r, last_or NULL r, nm + Z.of_nat (merges_l fuel k l)) h' ∧
    (∃ b', gseg h' NULL r b') ∧ relinked (O ++ l) h h'.
Proof.
  intros Hk. revert h O b l nm. induction fuel as [|fuel IH]; intros h O b l nm Ho Hs Hnd Hz Hd Hf r;
    (destruct (decide (l = [])) as [->|Hne];
     [exists h; unfold r; cbn; rewrite app_nil_r, Z.add_0_r; split; [done|]; split; [by exists b|apply relinked_refl]|]).
  { destruct l; [done|simpl in Hf; lia]. }
  assert (He : first_or NULL l ≠ NULL) by (destruct l; [done|cbn; set_solver]).
  destruct (merge_runs h0 k h O b l) as (E0 & h1 & E1 & [b1 Ho1] & Hw1 & Hr1); try done.
  cbn [pass_loop]. rewrite (proj2 (Z.eqb_neq _ _) He), Nat2Z.id. step E0.
  step (eq_refl : fuel_of_heap h = Ret (S (size h)) h). step E1. unfold r. rewrite pass_l_cons by done.
  set (m := merge_l h0 (take k l) (take k (drop k l))) in *. set (W := drop k (drop k l)) in *.
  assert (Hml : m ++ W ≡ₚ l).
  { unfold m, W. rewrite merge_Permutation, <- app_assoc. by rewrite !take_drop. }
  assert (Hlk : (length W < length l)%nat).
  { unfold W. rewrite !length_drop. destruct l; [done|cbn [length]; lia]. }
  destruct (IH h1 (O ++ m) b1 W (nm + 1)) as (h2 & E2 & Ho2 & Hr2); try done.
  { by rewrite <- app_assoc, Hml. }
  { by rewrite <- app_assoc, Hml. }
  { by eapply relinked_same. }
  { lia. }
  rewrite <- app_assoc in E2, Ho2. exists h2. split; [|split; [done|]].
  - rewrite E2. f_equal. f_equal. destruct l; [done|]. cbn [merges_l]. fold W. lia.
  - eapply relinked_trans; [exact Hr1|exact Hr2|intros x..].
    + rewrite !elem_of_app. intros [?|[?%elem_take|?%elem_take%elem_drop]]; auto.
    + rewrite <- app_assoc, Hml. done.
Qed.

(** Closing the new list: [list->prev = tail] and [tail->next = NULL]. *)
Lemma sort_close h l b :
  l ≠ [] → gseg h NULL l b → NoDup l →
  ∃ h1 h2, update (first_or NULL l) (set_prev (last_or NULL l)) h = Ret tt h1 ∧
    update (last_or NULL l) (set_next NULL) h1 = Ret tt h2 ∧
    gseg h2 (last_or NULL l) l NULL ∧ relinked l h h2.
Proof.
  intros Hl Hs Hnd. destruct l as [|f l0]; [done|]. change (first_or NULL (f :: l0)) with f.
  pose proof Hs as (n & Hn & Hnp & Hnx & Hs0). set (t := last_or NULL (f :: l0)).
  set (h1 := <[f := set_prev t n]> h). exists h1.
  assert (Hr1 : relinked [f] h h1) by (eapply relinked_set; [done|by left|by apply sl_data_prev]).
  apply NoDup_cons in Hnd as [Hf Hnd].
  assert (Hs1 : gseg h1 t (f :: l0) b).
  { exists (set_prev t n). unfold h1 at 1. rewrite lookup_insert_eq, sl_next_prev by done.
    split; [done|]. split; [by apply sl_prev|]. split; [done|]. eapply gseg_frame; [exact Hr1|set_solver|done]. }
  destruct (exists_last (l:=f :: l0) ltac:(done)) as (l & q & El).
  assert (Et : t = q) by (unfold t; rewrite El; apply last_or_snoc).
  assert (Hq : q ∉ l).
  { assert (Hnd' : NoDup (f :: l0)) by (by apply NoDup_cons). rewrite El in Hnd'.
    apply NoDup_app in Hnd' as (_ & Hnd' & _). intros Hx. apply (Hnd' q Hx). by left. }
  rewrite El, gseg_app in Hs1. destruct Hs1 as [Hsl (m & Hm & Hmp & _)].
  exists (<[t := set_next NULL m]> h1). split; [by apply update_ok|]. rewrite Et.
  split; [by apply update_ok|]. assert (Hr2 : relinked [q] h1 (<[q := set_next NULL m]> h1))
    by (eapply relinked_set; [done|by left|by apply sl_data_next]). split.
  - rewrite <- Et at 2. rewrite El, gseg_app. split; [eapply gseg_frame; [exact Hr2|set_solver|done]|].
    exists (set_next NULL m). rewrite lookup_insert_eq, sl_next by done. split; [done|]. split; [by apply sl_prev_next|done].
  - eapply relinked_trans; [exact Hr1|exact Hr2|set_solver|]. intros x ->%list_elem_of_singleton.
    rewrite El. set_solver.
Qed.

(** The whole sort. *)
Definition sorted_as h0 h head' h' l : Prop :=
  ∃ l', head' = first_or NULL l' ∧ l' ≡ₚ l ∧ Sorted (node_le h0) l' ∧ gseg h' (last_or NULL l') l' NULL ∧ relinked l h h'.

Lemma sort_loop_spec `{!∀ h0, Total (node_le h0)} h0 fuel k h l :
  (0 < k)%nat → l ≠ [] → nseg h l NULL → NoDup l → NULL ∉ l → same_data h0 h → runs (node_le h0) k l →
  (length l ≤ k * 2 ^ fuel)%nat → (0 < fuel)%nat → Z.of_nat (length l) ≤ 2 ^ 30 →
  ∃ head' h', sort_loop next set_next set_prev cmp fuel (first_or NULL l) (Z.of_nat k) h = Ret head' h' ∧
    sorted_as h0 h head' h' l.
Proof.
  revert k h l. induction fuel as [|fuel IH]; intros k h l Hk Hl Hs Hnd Hz Hd Hruns Hf Hf0 Hmax; [lia|].
  cbn [sort_loop]. step (eq_refl : fuel_of_heap h = Ret (S (size h)) h).
  assert (Hlen : (length l ≤ size h)%nat) by (apply heap_size_ge; [done|]; intros x Hx; by eapply nseg_lookup).
  destruct (pass_loop_spec h0 (S (size h)) k h [] NULL l 0) as (h1 & E1 & [b Ho] & Hr1); try done; [lia|].
  cbn [app] in E1, Ho, Hr1. step E1. set (l' := pass_l (node_le h0) (S (size h)) k l) in *.
  assert (Hp : l' ≡ₚ l) by apply pass_l_perm.
  assert (Hl' : l' ≠ []) by (intros E; rewrite E in Hp; apply Permutation_nil_l in Hp; congruence).
  assert (Hnd' : NoDup l') by (by rewrite Hp).
  destruct (sort_close h1 l' b Hl' Ho Hnd') as (h2 & h3 & E2 & E3 & Hs3 & Hr3). step E2. step E3.
  assert (Hr : relinked l h h3) by (eapply relinked_trans; [exact Hr1|exact Hr3|done|by intros x; rewrite Hp]).
  pose proof (pass_l_runs (node_le h0) (S (size h)) k l Hk ltac:(lia) Hruns) as Hruns'. fold l' in Hruns'.
  assert (Hlen' : length l' = length l) by (by rewrite Hp).
  rewrite Z.add_0_l. destruct (_ <=? 1) eqn:Em; bool_to_prop.
  - exists (first_or NULL l'), h3. split; [done|]. exists l'. split_and!; try done.
    apply (runs_sorted _ (k + k)); [done|]. rewrite Hlen'.
    apply (merges_l_one (S (size h))); [lia..|done].
  - assert (Hgt : (k + k < length l)%nat).
    { destruct (Nat.le_gt_cases (length l) (k + k)) as [Hle|]; [|done].
      pose proof (merges_l_short (S (size h)) k l Hle). lia. }
    destruct fuel as [|fuel]; [simpl in Hf; lia|].
    replace (s32 (Z.of_nat k * 2)) with (Z.of_nat (k + k)) by (rewrite s32_small; lia).
    destruct (IH (k + k)%nat h3 l') as (head' & h4 & E4 & l'' & Hh & Hp'' & Hso & Hs4 & Hr4); try done.
    { lia. }
    { by eapply gseg_nseg. }
    { by rewrite Hp. }
    { by eapply relinked_same. }
    { rewrite Hlen'. cbn [Nat.pow] in Hf |- *. lia. }
    { lia. }
    { by rewrite Hlen'. }
    exists head', h4. split; [done|]. exists l''. split_and!; try done; [by rewrite Hp''|].
    eapply relinked_trans; [exact Hr|exact Hr4|done|by intros x; rewrite Hp].
Qed.
End SortRep.

Lemma nat_le_pow2 n : (n ≤ 2 ^ n)%nat.
Proof. apply Nat.lt_le_incl, Nat.pow_gt_lin_r. lia. Qed.

(** The comparison function orders any two structs. *)
Definition cmp_total {T} (cmp : T → T → Z) : Prop := ∀ a b, cmp a b ≤ 0 ∨ cmp b a ≤ 0.

Lemma node_le_total {T} (cmp : T → T → Z) h0 : cmp_total cmp → Total (node_le cmp h0).
Proof. intros Hc x y. unfold node_le. destruct (h0 !! x), (h0 !! y); auto. Qed.

Lemma sort_body_spec {T} next set_next set_prev (cmp : T → T → Z) has_prev data h l :
  sort_laws next set_next set_prev cmp has_prev data → cmp_total cmp →
  nseg next h l NULL → NoDup l → NULL ∉ l → Z.of_nat (length l) ≤ 2 ^ 30 →
  ∃ head' h', sort_body next set_next set_prev cmp (first_or NULL l) h = Ret head' h' ∧
    sorted_as next cmp has_prev data h h head' h' l.
Proof.
  intros Laws Hc Hs Hnd Hz Hmax. unfold sort_body. destruct (decide (l = [])) as [->|Hne].
  - exists NULL, h. split; [done|]. exists [].
    split; [done|]. split; [done|]. split; [constructor|]. split; [done|apply relinked_refl].
  - rewrite (proj2 (Z.eqb_neq _ NULL)) by (destruct l; [done|cbn; set_solver]).
    step (eq_refl : fuel_of_heap h = Ret (S (size h)) h).
    assert (Hlen : (length l ≤ size h)%nat) by (apply heap_size_ge; [done|]; intros x Hx; by eapply nseg_lookup).
    assert (∀ h0, Total (node_le cmp h0)) by (intros h0; by apply node_le_total).
    apply (sort_loop_spec next set_next set_prev cmp has_prev data Laws h (S (size h)) 1); try done; try lia.
    + apply runs_one.
    + pose proof (nat_le_pow2 (S (size h))). lia.
Qed.

Section DL.
Context {T : Type} (L : dlinks T) `{!DLLaws L} (cmp : T → T → Z).

Lemma gseg_dl h a ps b : gseg (dl_next L) (λ a n, dl_prev L n = a) h a ps b ↔ dl_seg L h a ps b.
Proof. revert a. induction ps as [|q ps IH]; intros a; simpl; [done|]. by setoid_rewrite IH. Qed.

Lemma dl_sort_laws :
  (∀ a b, cmp a b = cmp (dl_data L a) (dl_data L b)) →
  sort_laws (dl_next L) (dl_set_next L) (dl_set_prev L) cmp (λ a n, dl_prev L n = a) (dl_data L).
Proof.
  intros Hc. split; intros.
  - apply next_set_next.
  - apply next_set_prev.
  - apply prev_set_prev.
  - by rewrite prev_set_next.
  - apply dl_data_next; done.
  - apply dl_data_prev; done.
  - apply Hc.
Qed.

Lemma DL_SORT_spec h head ps :
  dl_rep L h head ps → cmp_total cmp → (∀ a b, cmp a b = cmp (dl_data L a) (dl_data L b)) →
  Z.of_nat (length ps) ≤ 2 ^ 30 →
  ∃ head' h' ps', DL_SORT L cmp head h = Ret head' h' ∧ dl_rep L h' head' ps' ∧ ps' ≡ₚ ps ∧
    Sorted (node_le cmp h) ps' ∧ dlinks_only L ps h h'.
Proof.
  intros (-> & Hs & Hnd & Hz) Hc Hd Hmax. unfold DL_SORT.
  destruct (sort_body_spec (dl_next L) (dl_set_next L) (dl_set_prev L) cmp _ _ h ps (dl_sort_laws Hd))
    as (head' & h' & E & ps' & -> & Hp & Hso & Hs' & Hr); try done.
  { eapply gseg_nseg, gseg_dl. done. }
  exists (first_or NULL ps'), h', ps'. split; [done|]. split; [|done].
  split; [done|]. split; [by apply gseg_dl|]. by rewrite Hp.
Qed.
End DL.

Section LL.
Context {T : Type} `{LLNode T} (cmp : T → T → Z).

Lemma ll_rep_nseg h p ps : ll_rep h p ps ↔ p = first_or NULL ps ∧ nseg ll_next h ps NULL ∧ NULL ∉ ps.
Proof.
  revert p. induction ps as [|q ps IH]; intros p; simpl; [set_solver|]. setoid_rewrite IH.
  rewrite not_elem_of_cons. split.
  - intros (-> & Hq & n & Hn & Hx & Hs & Hz). split; [done|]. split; [by exists n|done].
  - intros (-> & (n & Hn & Hx & Hs) & Hq & Hz). split; [done|]. split; [done|]. by exists n.
Qed.

Lemma LL_SORT_spec h head ps :
  ll_rep h head ps → cmp_total cmp → (∀ a b, cmp a b = cmp (ll_data a) (ll_data b)) →
  Z.of_nat (length ps) ≤ 2 ^ 30 →
  ∃ head' h' ps', LL_SORT cmp head h = Ret head' h' ∧ ll_rep h' head' ps' ∧ ps' ≡ₚ ps ∧
    Sorted (node_le cmp h) ps' ∧ links_only ps h h'.
Proof.
  intros Hr Hc Hd Hmax. pose proof (ll_rep_nodup _ _ _ Hr) as Hnd. apply ll_rep_nseg in Hr as (-> & Hs & Hz).
  assert (Laws : sort_laws ll_next ll_set_next (λ _ n, n) cmp (λ _ _, True) ll_data).
  { split; try done; [apply ll_next_set|apply ll_data_set]. }
  unfold LL_SORT. destruct (sort_body_spec _ _ _ cmp _ _ h ps Laws) as (head' & h' & E & ps' & -> & Hp & Hso & Hs' & Hr);
    try done.
  exists (first_or NULL ps'), h', ps'. split; [done|]. split; [|done].
  apply ll_rep_nseg. split; [done|]. split; [by eapply gseg_nseg|by rewrite Hp].
Qed.

(** C36: [LL_SORT] terminates on every list, relinks exactly the nodes of the
    list without changing what they hold, and leaves them in the order of the
    comparison function. *)
Theorem LL_SORT_sorts h head ps :
  ll_rep h head ps → cmp_total cmp → (∀ a b, cmp a b = cmp (ll_data a) (ll_data b)) →
  Z.of_nat (length ps) ≤ 2 ^ 30 →
  ∃ head' h' ps', LL_SORT cmp head h = Ret head' h' ∧ ll_rep h' head' ps' ∧ ps' ≡ₚ ps ∧
    Sorted (node_le cmp h) ps' ∧ links_only ps h h'.
Proof. apply LL_SORT_spec. Qed.
End LL.

(** ** A concrete list *)

Record ex_item := ExItem { ei_next : Z; ei_key : Z }.
#[refine] Instance ex_item_node : LLNode ex_item :=
  {| ll_next := ei_next; ll_set_next := λ p n, ExItem p (ei_key n) |}.
Proof. all: intros; done || by destruct n. Defined.

Definition ex_items : gmap Z ex_item :=
  {[ 8 := ExItem 16 3; 16 := ExItem 24 1; 24 := ExItem 0 2 ]}.

Lemma LL_SORT_sorts_witness :
  ∃ h', LL_SORT (λ a b, ei_key a - ei_key b) 8 ex_items = Ret 16 h'.
Proof.
  destruct (LL_SORT_sorts (λ a b, ei_key a - ei_key b) ex_items 8 [8; 16; 24]) as (head' & h' & ps' & E & _).
  - split_and!; [done..|]. eexists. split; [done|]. split_and!; [done..|]. eexists. split; [done|].
    split_and!; [done..|]. eexists. done.
  - intros a b. lia.
  - done.
  - simpl. lia.
  - exists h'. rewrite E. vm_compute in E. by injection E as <- _.
Defined.
