(* ===== verification/Registers.v ===== *)
(** * sys/param.h bit macros and ia32/registers.c

    [setbit], [clrbit] and [isset] address a bit of an object through the
    byte that holds it; x86 stores words least significant byte first.
    Register values are 32-bit words. *)

From stdpp Require Import base numbers list.
From S2P Require Import Prelude.

(** ** Bytes of a word *)

Definition get_byte (w k : Z) : Z := Z.land (Z.shiftr w (8 * k)) 255.
Definition put_byte (w k b : Z) : Z :=
  Z.lor (Z.land w (u32 (Z.lnot (Z.shiftl 255 (8 * k))))) (Z.shiftl (u8 b) (8 * k)).

Abbreviation NBBY := 8 (only parsing).
Definition setbit (w i : Z) : Z := put_byte w (i / NBBY) (Z.lor (get_byte w (i / NBBY)) (Z.shiftl 1 (i mod NBBY))).
Definition clrbit (w i : Z) : Z := put_byte w (i / NBBY) (Z.land (get_byte w (i / NBBY)) (Z.lnot (Z.shiftl 1 (i mod NBBY)))).
(** The value of the masked byte, not 0 or 1. *)
Definition isset (w i : Z) : Z := Z.land (get_byte w (i / NBBY)) (Z.shiftl 1 (i mod NBBY)).
Abbreviation isclr w i := (isset w i =? 0) (only parsing).

(** ** registers.c *)

Definition flags_if_bit : Z := 9.

Definition flags_register_value_clear_bit (value bit_sel : Z) : Z := clrbit value bit_sel.
Definition flags_register_value_set_bit (value bit_sel : Z) : Z := setbit value bit_sel.
Definition flags_register_value_is_set (value bit_sel : Z) : bool := negb (isset value bit_sel =? 0).

Definition cr0_register_value_clear_bit (value bit_sel : Z) : Z := clrbit value bit_sel.
Definition cr0_register_value_set_bit (value bit_sel : Z) : Z := setbit value bit_sel.
Definition cr0_register_value_is_set (value bit_sel : Z) : bool := 1 =? isset value bit_sel.

Definition cr4_register_value_clear_bit (value bit_sel : Z) : Z := clrbit value bit_sel.
Definition cr4_register_value_set_bit (value bit_sel : Z) : Z := setbit value bit_sel.
Definition cr4_register_value_is_set (value bit_sel : Z) : bool := 1 =? isset value bit_sel.

(** ** Lemmas *)

Lemma testbit_255 n : 0 ≤ n → Z.testbit 255 n = (n <? 8).
Proof. intros Hn. change 255 with (Z.ones 8). rewrite Z.testbit_ones by lia. by rewrite (proj2 (Z.leb_le 0 n)). Qed.

Lemma testbit_get_byte w k n : 0 ≤ k → 0 ≤ n → Z.testbit (get_byte w k) n = (n <? 8) && Z.testbit w (n + 8 * k).
Proof. intros Hk Hn. unfold get_byte. rewrite Z.land_spec, Z.shiftr_spec, testbit_255 by lia. by rewrite andb_comm. Qed.

Lemma word_high w n : 0 ≤ w < W32 → 32 ≤ n → Z.testbit w n = false.
Proof. intros Hw Hn. rewrite <- (u32_small w Hw). unfold u32. change W32 with (2 ^ 32). by apply Z.mod_pow2_bits_high. Qed.

Lemma word_bound w : (∀ n, 32 ≤ n → Z.testbit w n = false) → 0 ≤ w < W32.
Proof.
  intros Hw. replace w with (u32 w); [apply u32_range|]. apply Z.bits_inj'. intros n Hn. unfold u32.
  change W32 with (2 ^ 32). rewrite Z.testbit_mod_pow2 by lia. destruct (Z.ltb_spec n 32); [done|].
  by rewrite Hw.
Qed.

Lemma testbit_put_byte w k b n :
  0 ≤ w < W32 → 0 ≤ k < 4 → 0 ≤ n →
  Z.testbit (put_byte w k b) n =
    if (8 * k <=? n) && (n <? 8 * k + 8) then Z.testbit b (n - 8 * k) else Z.testbit w n.
Proof.
  intros Hw Hk Hn. unfold put_byte. rewrite Z.lor_spec, Z.land_spec. unfold u32, u8.
  change W32 with (2 ^ 32). change W8 with (2 ^ 8).
  rewrite Z.testbit_mod_pow2, Z.lnot_spec, !Z.shiftl_spec, Z.testbit_mod_pow2 by lia.
  destruct (Z.leb_spec (8 * k) n), (Z.ltb_spec n (8 * k + 8)); cbn [andb].
  - rewrite testbit_255 by lia. rewrite (proj2 (Z.ltb_lt (n - 8 * k) 8)) by lia. cbn [negb andb]. by rewrite !andb_false_r.
  - rewrite testbit_255 by lia. rewrite (proj2 (Z.ltb_ge (n - 8 * k) 8)) by lia. cbn [negb andb]. rewrite andb_true_r, orb_false_r.
    destruct (Z.ltb_spec n 32); [by rewrite andb_true_r|]. by rewrite (word_high w n).
  - rewrite (Z.testbit_neg_r 255), (Z.testbit_neg_r b), andb_false_r, orb_false_r by lia. cbn [negb]. rewrite andb_true_r.
    rewrite (proj2 (Z.ltb_lt n 32)) by lia. by rewrite andb_true_r.
  - lia.
Qed.

Lemma bit_byte i : 0 ≤ i < 32 → 0 ≤ i / NBBY < 4 ∧ i = i mod NBBY + 8 * (i / NBBY) ∧ 0 ≤ i mod NBBY < 8.
Proof. intros Hi. Z.to_euclidean_division_equations. lia. Qed.

Lemma testbit_one i n : 0 ≤ i → 0 ≤ n → Z.testbit (Z.shiftl 1 i) n = (n =? i).
Proof.
  intros Hi Hn. rewrite Z.shiftl_spec by lia. destruct (Z.eqb_spec n i) as [->|Hne]; [by rewrite Z.sub_diag|].
  destruct (Z.lt_ge_cases n i); [by rewrite Z.testbit_neg_r by lia|].
  rewrite Z.bits_above_log2; [done|lia|]. simpl. lia.
Qed.

Lemma testbit_high x k n : 0 ≤ x < 2 ^ k → 0 ≤ k ≤ n → Z.testbit x n = false.
Proof. intros Hx Hk. rewrite <- (Z.mod_small x (2 ^ k) Hx). by apply Z.mod_pow2_bits_high. Qed.

(** Putting two fields side by side. *)
Lemma lor_concat x y k : 0 ≤ k → 0 ≤ x < 2 ^ k → Z.lor x (Z.shiftl y k) = x + y * 2 ^ k.
Proof.
  intros Hk Hx. rewrite <- Z.shiftl_mul_pow2 by lia. symmetry. apply Z.add_nocarry_lor.
  apply Z.bits_inj'. intros n Hn. rewrite Z.bits_0, Z.land_spec. destruct (Z.lt_ge_cases n k).
  - by rewrite Z.shiftl_spec_low, andb_false_r.
  - by rewrite (testbit_high x k n).
Qed.

(** Taking a field out. *)
Lemma land_field x k m : 0 ≤ k → 0 ≤ m → Z.land x (Z.shiftl (Z.ones m) k) = Z.shiftl ((x / 2 ^ k) mod 2 ^ m) k.
Proof.
  intros Hk Hm. rewrite <- Z.shiftr_div_pow2, <- Z.land_ones by lia. apply Z.bits_inj'. intros n Hn.
  rewrite Z.land_spec, !Z.shiftl_spec, Z.land_spec by lia. destruct (Z.lt_ge_cases n k).
  - by rewrite !(Z.testbit_neg_r _ (n - k)), !andb_false_r by lia.
  - rewrite Z.shiftr_spec by lia. by replace (n - k + k) with n by lia.
Qed.

(** Through the bytes, the macros do what their names say to the word. *)
Lemma setbit_eq w i : 0 ≤ w < W32 → 0 ≤ i < 32 → setbit w i = Z.setbit w i.
Proof.
  intros Hw Hi. apply Z.bits_inj'. intros n Hn. destruct (bit_byte i Hi) as (Hk & Hik & Hr).
  unfold setbit. rewrite testbit_put_byte, Z.setbit_eqb by lia. set (k := i / NBBY) in *. set (r := i mod NBBY) in *.
  destruct (_ && _) eqn:E; bool_to_prop.
  - rewrite Z.lor_spec, testbit_get_byte, testbit_one by lia. rewrite (proj2 (Z.ltb_lt _ _)) by lia. cbn [andb].
    replace (n - 8 * k + 8 * k) with n by lia. rewrite orb_comm. f_equal. lia.
  - rewrite (proj2 (Z.eqb_neq i n)) by lia. done.
Qed.

Lemma clrbit_eq w i : 0 ≤ w < W32 → 0 ≤ i < 32 → clrbit w i = Z.clearbit w i.
Proof.
  intros Hw Hi. apply Z.bits_inj'. intros n Hn. destruct (bit_byte i Hi) as (Hk & Hik & Hr).
  unfold clrbit. rewrite testbit_put_byte, Z.clearbit_eqb by lia. set (k := i / NBBY) in *. set (r := i mod NBBY) in *.
  destruct (_ && _) eqn:E; bool_to_prop.
  - rewrite Z.land_spec, testbit_get_byte, Z.lnot_spec, testbit_one by lia. rewrite (proj2 (Z.ltb_lt _ _)) by lia.
    cbn [andb]. replace (n - 8 * k + 8 * k) with n by lia. do 2 f_equal. lia.
  - rewrite (proj2 (Z.eqb_neq i n)) by lia. by rewrite andb_true_r.
Qed.

Lemma isset_eq w i : 0 ≤ w < W32 → 0 ≤ i < 32 → isset w i = if Z.testbit w i then 2 ^ (i mod NBBY) else 0.
Proof.
  intros Hw Hi. destruct (bit_byte i Hi) as (Hk & Hik & Hr). unfold isset.
  set (k := i / NBBY) in *. set (r := i mod NBBY) in *. apply Z.bits_inj'. intros n Hn.
  rewrite Z.land_spec, testbit_get_byte, testbit_one by lia.
  rewrite <- (Z.shiftl_1_l r). destruct (Z.eqb_spec n r) as [->|Hne].
  - rewrite (proj2 (Z.ltb_lt _ _)), <- Hik by lia. cbn [andb]. rewrite andb_true_r.
    destruct (Z.testbit w i); [|by rewrite Z.bits_0]. rewrite testbit_one by lia. by rewrite Z.eqb_refl.
  - rewrite andb_false_r. destruct (Z.testbit w i); [|by rewrite Z.bits_0]. rewrite testbit_one by lia.
    by rewrite (proj2 (Z.eqb_neq n r)).
Qed.

Lemma flags_is_set_eq w i : 0 ≤ w < W32 → 0 ≤ i < 32 → flags_register_value_is_set w i = Z.testbit w i.
Proof.
  intros Hw Hi. unfold flags_register_value_is_set. rewrite isset_eq by done. destruct (Z.testbit w i); [|done].
  destruct (bit_byte i Hi) as (_ & _ & Hr). rewrite (proj2 (Z.eqb_neq _ 0)); [done|].
  pose proof (Z.pow_pos_nonneg 2 (i mod NBBY)). lia.
Qed.

(** The bits of EFLAGS are read and written correctly by the functions of
    registers.c: setting or clearing one bit makes it read as set or clear and
    leaves the other 31 alone.  The functions for CR0 and CR4 however report a
    bit as set only when it is the lowest bit of its byte. *)
Theorem register_bits w i j :
  0 ≤ w < W32 → 0 ≤ i < 32 → 0 ≤ j < 32 →
  flags_register_value_is_set (flags_register_value_set_bit w i) j = (i =? j) || flags_register_value_is_set w j ∧
  flags_register_value_is_set (flags_register_value_clear_bit w i) j = negb (i =? j) && flags_register_value_is_set w j ∧
  cr0_register_value_is_set w j = (j mod 8 =? 0) && flags_register_value_is_set w j ∧
  cr4_register_value_is_set w j = (j mod 8 =? 0) && flags_register_value_is_set w j.
Proof.
  intros Hw Hi Hj. unfold flags_register_value_set_bit, flags_register_value_clear_bit.
  rewrite setbit_eq, clrbit_eq by done.
  assert (Hset : 0 ≤ Z.setbit w i < W32).
  { apply word_bound. intros n Hn. rewrite Z.setbit_eqb, word_high by lia. lia. }
  assert (Hclr : 0 ≤ Z.clearbit w i < W32).
  { apply word_bound. intros n Hn. by rewrite Z.clearbit_eqb, word_high. }
  rewrite !flags_is_set_eq, Z.setbit_eqb, Z.clearbit_eqb by (done || lia).
  unfold cr0_register_value_is_set, cr4_register_value_is_set. rewrite !isset_eq by done.
  split; [done|]. split; [by rewrite andb_comm|]. destruct (bit_byte j Hj) as (_ & _ & Hr). 
  assert (E : (1 =? (if Z.testbit w j then 2 ^ (j mod 8) else 0)) = (j mod 8 =? 0) && Z.testbit w j); [|by rewrite E].
  destruct (Z.testbit w j); [|by rewrite andb_false_r]. rewrite andb_true_r.
  destruct (Z.eqb_spec (j mod 8) 0) as [->|Hne]; [done|]. apply Z.eqb_neq.
  pose proof (Z.pow_gt_1 2 (j mod 8)). lia.
Qed.

Lemma register_bits_witness :
  flags_register_value_is_set (flags_register_value_set_bit 70 9) 9 = true ∧
  cr0_register_value_is_set 2147483665 31 = false.
Proof.
  destruct (register_bits 70 9 9) as (-> & _); [lia..|]. split; [reflexivity|].
  destruct (register_bits 2147483665 0 31) as (_ & _ & -> & _); [lia..|]. reflexivity.
Defined.
