(* ===== verification/Descriptors.v ===== *)
(** * ia32/gdt.c, ia32/idt.c and the gates installed by ia32/interrupts.c

    The tables the processor reads: segment descriptors and interrupt gates.
    The entries are records with the fields of the C structs; [seg_base],
    [seg_limit], [gate_offset] and so on are the processor's reading of an
    entry. *)

From stdpp Require Import base numbers list sets.
From S2P Require Import Prelude Registers.

(** ** Segment descriptors *)

Record gdt_entry := GdtEntry {
  limit_low : Z; base_low : Z; base_middle : Z; access : Z; granularity : Z; base_high : Z
}.
Definition gdt_zero : gdt_entry := GdtEntry 0 0 0 0 0 0.

Definition gdt_set_limit_low v e := GdtEntry v (base_low e) (base_middle e) (access e) (granularity e) (base_high e).
Definition gdt_set_base_low v e := GdtEntry (limit_low e) v (base_middle e) (access e) (granularity e) (base_high e).
Definition gdt_set_base_middle v e := GdtEntry (limit_low e) (base_low e) v (access e) (granularity e) (base_high e).
Definition gdt_set_access v e := GdtEntry (limit_low e) (base_low e) (base_middle e) v (granularity e) (base_high e).
Definition gdt_set_granularity v e := GdtEntry (limit_low e) (base_low e) (base_middle e) (access e) v (base_high e).
Definition gdt_set_base_high v e := GdtEntry (limit_low e) (base_low e) (base_middle e) (access e) (granularity e) v.

(** The assignments of [gdt_set_gate] to one entry. *)
Definition gdt_fill (base limit access gran : Z) (e : gdt_entry) : gdt_entry :=
  let e := gdt_set_base_low (u16 (Z.land base 65535)) e in
  let e := gdt_set_base_middle (u8 (Z.land (Z.shiftr base 16) 255)) e in
  let e := gdt_set_base_high (u8 (Z.land (Z.shiftr base 24) 255)) e in
  let e := gdt_set_limit_low (u16 (Z.land limit 65535)) e in
  let e := gdt_set_granularity (u8 (Z.land (Z.shiftr limit 16) 15)) e in
  let e := gdt_set_granularity (u8 (Z.lor (granularity e) (Z.land gran 240))) e in
  gdt_set_access access e.

(** An index outside the array has no meaning in C. *)
Definition gdt_set_gate (num : nat) (base limit access gran : Z) (gdt : list gdt_entry) : option (list gdt_entry) :=
  e ← gdt !! num; Some (<[num := gdt_fill base limit access gran e]> gdt).

Abbreviation gdt_access_rw_bit := 1 (only parsing).
Abbreviation gdt_access_code_bit := 3 (only parsing).
Abbreviation gdt_access_unused_always_1_bit := 4 (only parsing).
Abbreviation gdt_access_dpl_1_bit := 5 (only parsing).
Abbreviation gdt_access_dpl_2_bit := 6 (only parsing).
Abbreviation gdt_access_present_bit := 7 (only parsing).
Abbreviation gdt_gran_32_bit := 6 (only parsing).
Abbreviation gdt_gran_granularity_bit := 7 (only parsing).

Definition gdt_access (rw code : bool) (ring : Z) (present : bool) : Z :=
  let access := 0 in
  let access := if rw then setbit access gdt_access_rw_bit else access in
  let access := if code then setbit access gdt_access_code_bit else access in
  let access := setbit access gdt_access_unused_always_1_bit in
  let access := if negb (isset ring 0 =? 0) then setbit access gdt_access_dpl_1_bit else access in
  let access := if negb (isset ring 1 =? 0) then setbit access gdt_access_dpl_2_bit else access in
  let access := if present then setbit access gdt_access_present_bit else access in
  u8 access.

Definition gdt_kernel_code_access : Z := gdt_access true true 0 true.
Definition gdt_kernel_data_access : Z := gdt_access true false 0 true.
Definition gdt_user_code_access : Z := gdt_access true true 3 true.
Definition gdt_user_data_access : Z := gdt_access true false 3 true.

Definition gdt_32bit_granularity (segment_4k_granularity : bool) : Z :=
  let gran := setbit 0 gdt_gran_32_bit in
  let gran := if segment_4k_granularity then setbit gran gdt_gran_granularity_bit else gran in
  u8 gran.

Abbreviation GDT_SET_TSS_TYPE access := (put_byte access 0 (Z.lor (get_byte access 0) 9)) (only parsing).

Definition gdt_set_tss (num : nat) (base limit : Z) (busy : bool) (gdt : list gdt_entry) : option (list gdt_entry) :=
  let access := GDT_SET_TSS_TYPE 0 in
  let access := if busy then setbit access gdt_access_rw_bit else access in
  let access := setbit access gdt_access_dpl_1_bit in
  let access := setbit access gdt_access_dpl_2_bit in
  let access := setbit access gdt_access_present_bit in
  gdt_set_gate num base limit (u8 access) 0 gdt.

Abbreviation GDT_ENTRY_COUNT := 6%nat (only parsing).
Definition sizeof_tss_entry : Z := 104.

Record tss_entry := TssEntry {
  tss_prev_task_link : Z; tss_esp0 : Z; tss_ss0 : Z; tss_esp1 : Z; tss_ss1 : Z; tss_esp2 : Z;
  tss_ss2 : Z; tss_cr3 : Z; tss_eip : Z; tss_eflags : Z; tss_eax : Z; tss_ecx : Z; tss_edx : Z;
  tss_ebx : Z; tss_esp : Z; tss_ebp : Z; tss_esi : Z; tss_edi : Z; tss_es : Z; tss_cs : Z; tss_ss :
  Z; tss_ds : Z; tss_fs : Z; tss_gs : Z; tss_ldt : Z; tss_trap : Z; tss_iomap_base : Z
}.

(** The assignments of [gdt_install] to the segment. *)
Definition tss_install (t : tss_entry) : tss_entry :=
  let seg := Z.lor 16 3 in
  TssEntry (tss_prev_task_link t) 0 16 (tss_esp1 t) (tss_ss1 t) (tss_esp2 t) (tss_ss2 t) (tss_cr3 t)
    (tss_eip t) (tss_eflags t) (tss_eax t) (tss_ecx t) (tss_edx t) (tss_ebx t) (tss_esp t) (tss_ebp t)
    (tss_esi t) (tss_edi t) seg (Z.lor 8 3) seg seg seg seg (tss_ldt t) (tss_trap t) (tss_iomap_base t).

Definition tss_set_esp0 (v : Z) (t : tss_entry) : tss_entry :=
  TssEntry (tss_prev_task_link t) v (tss_ss0 t) (tss_esp1 t) (tss_ss1 t) (tss_esp2 t) (tss_ss2 t)
    (tss_cr3 t) (tss_eip t) (tss_eflags t) (tss_eax t) (tss_ecx t) (tss_edx t) (tss_ebx t) (tss_esp t)
    (tss_ebp t) (tss_esi t) (tss_edi t) (tss_es t) (tss_cs t) (tss_ss t) (tss_ds t) (tss_fs t) (tss_gs
    t) (tss_ldt t) (tss_trap t) (tss_iomap_base t).

Record gdt_state := GdtState { gdt : list gdt_entry; gp_limit : Z; gp_base : Z; tss : tss_entry }.

Definition gdt_install (gdt_addr tss_addr : Z) (s : gdt_state) : option gdt_state :=
  let gran := gdt_32bit_granularity true in
  let limit := u16 (8 * Z.of_nat GDT_ENTRY_COUNT - 1) in
  g ← gdt_set_gate 0 0 0 0 0 (gdt s);
  g ← gdt_set_gate 1 0 4294967295 gdt_kernel_code_access gran g;
  g ← gdt_set_gate 2 0 4294967295 gdt_kernel_data_access gran g;
  g ← gdt_set_gate 3 0 4294967295 gdt_user_code_access gran g;
  g ← gdt_set_gate 4 0 4294967295 gdt_user_data_access gran g;
  g ← gdt_set_tss 5 tss_addr sizeof_tss_entry false g;
  Some (GdtState g limit gdt_addr (tss_install (tss s))).

Definition tss_set_stack (esp : Z) (s : gdt_state) : gdt_state :=
  GdtState (gdt s) (gp_limit s) (gp_base s) (tss_set_esp0 esp (tss s)).

(** *** The processor's reading *)

Definition seg_base (e : gdt_entry) : Z := base_low e + Z.shiftl (base_middle e) 16 + Z.shiftl (base_high e) 24.
Definition seg_limit (e : gdt_entry) : Z :=
  let raw := limit_low e + Z.shiftl (Z.land (granularity e) 15) 16 in
  if Z.testbit (granularity e) 7 then raw * 4096 + 4095 else raw.
Definition seg_present (e : gdt_entry) : bool := Z.testbit (access e) 7.
Definition seg_dpl (e : gdt_entry) : Z := Z.land (Z.shiftr (access e) 5) 3.
Definition seg_system (e : gdt_entry) : bool := negb (Z.testbit (access e) 4).
Definition seg_code (e : gdt_entry) : bool := Z.testbit (access e) 3.
Definition seg_rw (e : gdt_entry) : bool := Z.testbit (access e) 1.
Definition seg_32bit (e : gdt_entry) : bool := Z.testbit (granularity e) 6.
Definition seg_type (e : gdt_entry) : Z := Z.land (access e) 15.

(** ** Interrupt gates *)

Record idt_entry := IdtEntry { offset_low : Z; selector : Z; idt_unused : Z; idt_flags : Z; offset_high : Z }.
Definition IDT_ENTRIES : nat := 256.

Definition idt_zero_entry (e : idt_entry) : idt_entry := IdtEntry 0 0 0 0 0.

Record idt_state := IdtState { idt_entries : list idt_entry; idt_limit : Z; idt_base : Z; idtr : option (Z * Z) }.

Definition idt_init (table_addr : Z) (s : idt_state) : idt_state :=
  IdtState (idt_zero_entry <$> idt_entries s) (u16 (8 * Z.of_nat IDT_ENTRIES)) table_addr (idtr s).

Definition idt_set_gate (i offset selector flags : Z) (s : idt_state) : idt_state :=
  IdtState (<[Z.to_nat (u8 i) :=
      IdtEntry (Z.land offset 65535) (u16 selector) 0 (u8 flags) (u16 (Z.shiftr offset 16))]> (idt_entries s))
    (idt_limit s) (idt_base s) (idtr s).

(** [lidt] loads the limit and base. *)
Definition idt_flush (s : idt_state) : idt_state :=
  IdtState (idt_entries s) (idt_limit s) (idt_base s) (Some (idt_base s, idt_limit s)).

Definition gate_offset (e : idt_entry) : Z := offset_low e + Z.shiftl (offset_high e) 16.
Definition gate_present (e : idt_entry) : bool := Z.testbit (idt_flags e) 7.
Definition gate_dpl (e : idt_entry) : Z := Z.land (Z.shiftr (idt_flags e) 5) 3.
Definition gate_type (e : idt_entry) : Z := Z.land (idt_flags e) 15.

(** The stubs of isrs.S. *)
Inductive stub := isr (n : Z) | irq (n : Z) | ioapic_irq_sivr | ioapic_irq (n : Z) | isr0x80.

Abbreviation gdt_kernel_code_32_segment := 8 (only parsing).

Section Install.
(** Where the linker places each stub. *)
Variable stub_address : stub → Z.

Definition set_gates (gates : list (Z * stub)) (cs flags : Z) (s : idt_state) : idt_state :=
  foldl (λ s '(i, h), idt_set_gate i (stub_address h) cs flags s) s gates.

(** The calls are written out one by one in the code. *)
Definition handler_gates : list (Z * stub) :=
  ((λ n, (n, isr n)) <$> seqZ 0 32) ++ ((λ n, (32 + n, irq n)) <$> seqZ 0 16) ++
  [(55, ioapic_irq_sivr)] ++ ((λ n, (56 + n, ioapic_irq n)) <$> seqZ 0 24).

Definition interrupts_install_handlers (s : idt_state) : idt_state :=
  let cs := gdt_kernel_code_32_segment in
  let flags := 142 in (* 0x8E *)
  let s := set_gates handler_gates cs flags s in
  let s := idt_set_gate 128 (stub_address isr0x80) cs (Z.lor flags 96) s in
  idt_flush s.

Definition interrupts_init (table_addr : Z) (s : idt_state) : idt_state :=
  interrupts_install_handlers (idt_init table_addr s).
End Install.

(** ** Segments *)

Lemma land_mod x k : 0 ≤ k → Z.land x (Z.ones k) = x mod 2 ^ k.
Proof. apply Z.land_ones. Qed.

Lemma seg_base_fill base limit acc gran e : 0 ≤ base < W32 → seg_base (gdt_fill base limit acc gran e) = base.
Proof.
  intros Hb. unfold seg_base, gdt_fill. simpl. change 65535 with (Z.ones 16). change 255 with (Z.ones 8).
  rewrite !land_mod, !Z.shiftr_div_pow2, !Z.shiftl_mul_pow2 by lia. wrap.
Qed.

(** The low nibble of the granularity byte is limit, the high one flags. *)
Lemma granularity_fill base limit acc gran e :
  granularity (gdt_fill base limit acc gran e) = (limit / 65536) mod 16 + Z.land gran 240.
Proof.
  unfold gdt_fill. simpl. change 15 with (Z.ones 4). rewrite land_mod, Z.shiftr_div_pow2 by lia.
  change 240 with (Z.shiftl (Z.ones 4) 4). rewrite land_field by lia.
  set (x := (limit / 2 ^ 16) mod 2 ^ 4). set (y := (gran / 2 ^ 4) mod 2 ^ 4).
  assert (Hx : 0 ≤ x < 2 ^ 4) by (apply Z.mod_pos_bound; lia).
  assert (Hy : 0 ≤ y < 2 ^ 4) by (apply Z.mod_pos_bound; lia).
  replace (u8 x) with x by wrap. rewrite lor_concat, Z.shiftl_mul_pow2 by lia. unfold u8. rewrite Z.mod_small by lia. done.
Qed.

Lemma seg_limit_fill base limit acc gran e :
  0 ≤ limit → seg_limit (gdt_fill base limit acc gran e) =
    if Z.testbit gran 7 then limit mod 2 ^ 20 * 4096 + 4095 else limit mod 2 ^ 20.
Proof.
  intros Hl. unfold seg_limit. rewrite granularity_fill.
  assert (Hg : Z.land gran 240 = (gran / 16) mod 16 * 16).
  { change 240 with (Z.shiftl (Z.ones 4) 4). by rewrite land_field, Z.shiftl_mul_pow2 by lia. }
  assert (Hb : Z.testbit ((limit / 65536) mod 16 + Z.land gran 240) 7 = Z.testbit gran 7).
  { rewrite Hg, !Z.testbit_eqb by lia. change (2 ^ 7) with 128.
    replace (((limit / 65536) mod 16 + (gran / 16) mod 16 * 16) / 128 mod 2) with ((gran / 128) mod 2); [done|].
    clear. set (l := (limit / 65536) mod 16). assert (0 ≤ l < 16) by (apply Z.mod_pos_bound; lia). wrap. }
  assert (Hn : Z.land ((limit / 65536) mod 16 + Z.land gran 240) 15 = (limit / 65536) mod 16).
  { change 15 with (Z.ones 4). rewrite Z.land_ones, Hg by lia. change (2 ^ 4) with 16. wrap. }
  rewrite Hb, Hn, Z.shiftl_mul_pow2 by lia. unfold gdt_fill. simpl. change 65535 with (Z.ones 16).
  rewrite Z.land_ones by lia. change (2 ^ 16) with 65536. change (2 ^ 20) with 1048576.
  assert (E : u16 (limit mod 65536) + (limit / 65536) mod 16 * 65536 = limit mod 1048576) by (clear - Hl; wrap).
  rewrite E. by destruct (Z.testbit gran 7).
Qed.

(** A flat 4 GB segment. *)
Definition flat (e : gdt_entry) (code : bool) (ring : Z) : Prop :=
  seg_base e = 0 ∧ seg_limit e = W32 - 1 ∧ seg_present e = true ∧ seg_system e = false ∧
  seg_code e = code ∧ seg_rw e = true ∧ seg_dpl e = ring ∧ seg_32bit e = true.

(** [gdt_install] leaves the null descriptor, flat 32-bit code and data
    segments for ring 0 at selectors 0x08 and 0x10 and for ring 3 at 0x18 and
    0x20, and at 0x28 an available 32-bit task state segment at [tss_addr];
    its limit is one more than that of the struct. *)
Theorem gdt_install_segments gdt_addr tss_addr s :
  length (gdt s) = GDT_ENTRY_COUNT → 0 ≤ tss_addr < W32 →
  ∃ s' kc kd uc ud t, gdt_install gdt_addr tss_addr s = Some s' ∧
    gdt s' = [gdt_zero; kc; kd; uc; ud; t] ∧ gp_base s' = gdt_addr ∧ gp_limit s' = 8 * 6 - 1 ∧
    flat kc true 0 ∧ flat kd false 0 ∧ flat uc true 3 ∧ flat ud false 3 ∧
    seg_base t = tss_addr ∧ seg_limit t = sizeof_tss_entry ∧ seg_present t = true ∧ seg_system t = true ∧ seg_type t = 9.
Proof.
  intros Hlen Ht. destruct (gdt s) as [|e0 [|e1 [|e2 [|e3 [|e4 [|e5 [|]]]]]]] eqn:E; try done.
  unfold gdt_install. rewrite E. do 6 eexists. split; [reflexivity|]. split; [reflexivity|].
  split; [reflexivity|]. split; [reflexivity|].
  split; [by vm_compute|]. split; [by vm_compute|]. split; [by vm_compute|]. split; [by vm_compute|].
  split; [by apply seg_base_fill|]. by split; [apply seg_limit_fill; vm_compute|].
Qed.

Definition ex_gdt : gdt_state := GdtState (replicate 6 gdt_zero) 0 0 (TssEntry 0 0 0 0 0 0 0 0 0 0 0 0 0 0 0 0 0 0 0 0 0 0 0 0 0 0 0).

Lemma gdt_install_segments_witness : is_Some (gdt_install 3222274048 3222278144 ex_gdt).
Proof.
  destruct (gdt_install_segments 3222274048 3222278144 ex_gdt) as (s' & _ & _ & _ & _ & _ & E & _);
    [reflexivity|lia|]. by exists s'.
Defined.

(** ** Gates *)

#[global] Instance stub_eq_dec : EqDecision stub.
Proof. solve_decision. Defined.

(** Which stub a vector is meant to reach, and the ring that may invoke it. *)
Definition vector_stub (v : Z) : option (stub * Z) :=
  if v <? 32 then Some (isr v, 0)
  else if v <? 48 then Some (irq (v - 32), 0)
  else if v <? 55 then None
  else if v =? 55 then Some (ioapic_irq_sivr, 0)
  else if v <? 80 then Some (ioapic_irq (v - 56), 0)
  else if v =? 128 then Some (isr0x80, 3)
  else None.

Section Gates.
Variable stub_address : stub → Z.

Definition gate (h : stub) (flags : Z) : idt_entry :=
  IdtEntry (Z.land (stub_address h) 65535) (u16 gdt_kernel_code_32_segment) 0 (u8 flags)
    (u16 (Z.shiftr (stub_address h) 16)).

Lemma gate_offset_gate h flags : 0 ≤ stub_address h < W32 → gate_offset (gate h flags) = stub_address h.
Proof.
  intros H. unfold gate_offset, gate. simpl. change 65535 with (Z.ones 16).
  rewrite Z.land_ones, Z.shiftr_div_pow2, Z.shiftl_mul_pow2 by lia. wrap.
Qed.

Lemma set_gates_length gates cs flags s :
  length (idt_entries (set_gates stub_address gates cs flags s)) = length (idt_entries s).
Proof.
  induction gates as [|[i h] gates IH] using rev_ind; [done|].
  unfold set_gates in *. rewrite foldl_snoc. simpl. by rewrite length_insert.
Qed.

Lemma set_gates_regs gates cs flags s :
  idt_base (set_gates stub_address gates cs flags s) = idt_base s ∧
  idt_limit (set_gates stub_address gates cs flags s) = idt_limit s.
Proof.
  induction gates as [|[i h] gates IH] using rev_ind; [done|].
  unfold set_gates in *. by rewrite foldl_snoc.
Qed.

(** The last gate written at a vector is the one found there. *)
Lemma set_gates_lookup gates flags s v :
  (∀ g, g ∈ gates → 0 ≤ g.1 < 256) → length (idt_entries s) = IDT_ENTRIES → 0 ≤ v < 256 →
  idt_entries (set_gates stub_address gates gdt_kernel_code_32_segment flags s) !! Z.to_nat v =
  match last (filter (λ g, g.1 = v) gates) with
  | Some g => Some (gate g.2 flags)
  | None => idt_entries s !! Z.to_nat v
  end.
Proof.
  intros Hg Hl Hv. induction gates as [|[i h] gates IH] using rev_ind; [done|].
  assert (Hi : 0 ≤ i < 256) by (apply (Hg (i, h)); set_solver).
  rewrite filter_app. unfold set_gates in *. rewrite foldl_snoc. simpl.
  replace (u8 i) with i by wrap. destruct (decide (i = v)) as [->|Hne].
  - rewrite filter_cons_True, filter_nil, last_snoc by done. apply list_lookup_insert_eq.
    pose proof (set_gates_length gates gdt_kernel_code_32_segment flags s) as E. unfold set_gates in E.
    rewrite E, Hl. unfold IDT_ENTRIES. lia.
  - rewrite filter_cons_False, filter_nil, app_nil_r by done.
    rewrite list_lookup_insert_ne by lia. apply IH. set_solver.
Qed.

Lemma handler_gates_range g : g ∈ handler_gates → 0 ≤ g.1 < 256.
Proof.
  revert g. apply Forall_forall. apply (bool_decide_unpack _). by vm_compute.
Qed.

Lemma handler_gates_vectors v : 0 ≤ v < 256 → v ≠ 128 →
  last (filter (λ g, g.1 = v) handler_gates) = (λ p, (v, p.1)) <$> vector_stub v.
Proof.
  intros Hv Hne. assert (H : Forall (λ v, v = 128 ∨
    last (filter (λ g, g.1 = v) handler_gates) = (λ p, (v, p.1)) <$> vector_stub v) (seqZ 0 256)).
  { apply (bool_decide_unpack _). by vm_compute. }
  rewrite Forall_forall in H. destruct (H v) as [->|E]; [apply elem_of_seqZ; lia|done|done].
Qed.

Lemma vector_stub_dpl v h d : vector_stub v = Some (h, d) → v ≠ 128 → d = 0.
Proof. unfold vector_stub. intros. repeat case_match; bool_to_prop; simplify_eq; lia. Qed.

(** After [interrupts_init] the processor's table is the one just built,
    and each of its 256 vectors either leads, present and as a 32-bit
    interrupt gate of the kernel's code segment, to the stub meant for it
    (0-31 the exceptions, 32-47 the legacy lines, 55 the spurious vector,
    56-79 the I/O APIC lines, 128 the system call, the only one user code may
    invoke), or is not present. *)
Theorem interrupts_init_gates table_addr s v :
  length (idt_entries s) = IDT_ENTRIES → (∀ h, 0 ≤ stub_address h < W32) → 0 ≤ v < 256 →
  let s' := interrupts_init stub_address table_addr s in
  idtr s' = Some (table_addr, 2048) ∧
  ∃ e, idt_entries s' !! Z.to_nat v = Some e ∧
  match vector_stub v with
  | Some (h, ring) => gate_present e = true ∧ gate_offset e = stub_address h ∧ selector e = 8 ∧
      gate_type e = 14 ∧ gate_dpl e = ring
  | None => gate_present e = false
  end.
Proof.
  intros Hl Ha Hv s'. set (s0 := idt_init table_addr s).
  assert (Hl0 : length (idt_entries s0) = IDT_ENTRIES) by (unfold s0; simpl; by rewrite length_fmap).
  set (s1 := set_gates stub_address handler_gates gdt_kernel_code_32_segment 142 s0).
  split. { change (Some (idt_base s1, idt_limit s1) = Some (table_addr, 2048)).
    unfold s1. destruct (set_gates_regs handler_gates gdt_kernel_code_32_segment 142 s0) as [-> ->]. done. }
  change (idt_entries s') with (<[128%nat := gate isr0x80 238]> (idt_entries s1)).
  destruct (decide (v = 128)) as [->|Hne].
  - exists (gate isr0x80 238). split; [|by split; [|split; [apply gate_offset_gate|]]].
    apply list_lookup_insert_eq. unfold s1. rewrite set_gates_length, Hl0. unfold IDT_ENTRIES. lia.
  - rewrite list_lookup_insert_ne by lia. unfold s1.
    rewrite set_gates_lookup, handler_gates_vectors by eauto using handler_gates_range.
    destruct (vector_stub v) as [[h d]|] eqn:E; simpl.
    + apply vector_stub_dpl in E as ->; [|done]. eexists. split; [done|].
      by split; [|split; [apply gate_offset_gate|]].
    + destruct (lookup_lt_is_Some_2 (idt_entries s) (Z.to_nat v)) as [e He]; [unfold IDT_ENTRIES in *; lia|].
      exists (idt_zero_entry e). unfold s0, idt_init. simpl. by rewrite list_lookup_fmap, He.
Qed.
End Gates.

Definition ex_stub_address (h : stub) : Z :=
  match h with
  | isr n => 3222274048 + 16 * u8 n
  | irq n => 3222280000 + 16 * u8 n
  | ioapic_irq n => 3222290000 + 16 * u8 n
  | ioapic_irq_sivr => 3222300000
  | isr0x80 => 3222300016
  end.
Definition ex_idt : idt_state := IdtState (replicate IDT_ENTRIES (IdtEntry 1 1 1 255 1)) 0 0 None.

Lemma interrupts_init_gates_witness :
  gate_offset <$> idt_entries (interrupts_init ex_stub_address 3222200000 ex_idt) !! 14%nat =
  Some (ex_stub_address (isr 14)).
Proof.
  destruct (interrupts_init_gates ex_stub_address 3222200000 ex_idt 14) as (_ & e & E & _ & Ho & _).
  - by vm_compute.
  - intros [n|n| |n|]; simpl; try (pose proof (Z.mod_pos_bound n 256); unfold u8); lia.
  - lia.
  - change (Z.to_nat 14) with 14%nat in E. rewrite E. simpl. by rewrite Ho.
Defined.
