(* ===== verification/Sync.v ===== *)
(** * kern/spinlock.c and the interrupt flag

    A spinlock is a word that holds the thread that owns it and a nesting
    count; it is taken with the processor's interrupts disabled.  The
    operations are written against [Cpu], what they need of the state they run
    in: the flags register and the current thread's id.  [lock_in] says where
    in that state the lock is.

    The second half is the lock under true concurrency: any number of
    processors run the instructions of [spinlock_acquire] and
    [spinlock_release] interleaved. *)

From stdpp Require Import base numbers list gmap strings fin_maps functions relations.
From S2P Require Import Prelude UtList Registers.

(** ** The interrupt flag *)

Class Cpu (S : Type) := {
  eflags : S → Z;
  set_eflags : Z → S → S;
  current_tid : S → Z
}.

Class CpuLaws (S : Type) `{Cpu S} := {
  eflags_set : ∀ f (s : S), eflags (set_eflags f s) = f;
  set_eflags_set : ∀ f g (s : S), set_eflags f (set_eflags g s) = set_eflags f s;
  set_eflags_id : ∀ s : S, set_eflags (eflags s) s = s;
  tid_set_eflags : ∀ f (s : S), current_tid (set_eflags f s) = current_tid s
}.

Section Flags.
Context {S : Type} `{Cpu S}.

(** [__asm__("cli")], [__asm__("sti")]. *)
Definition interrupts_disable : M S unit := modify (λ s, set_eflags (Z.clearbit (eflags s) flags_if_bit) s).
Definition interrupts_enable : M S unit := modify (λ s, set_eflags (Z.setbit (eflags s) flags_if_bit) s).

Definition interrupts_enter_cli : M S Z :=
  s ← get;
  let flags := eflags s in
  interrupts_disable;;
  mret flags.

Definition interrupts_leave_cli (flags : Z) : M S unit := modify (set_eflags flags).

Definition flags_register_is_set (bit_sel : Z) : M S bool :=
  s ← get; mret (flags_register_value_is_set (eflags s) bit_sel).
End Flags.

(** ** The lock *)

Record spinlock := Spinlock { owner : Z; nested : Z }.

(** A place in the state that holds a spinlock; none when the pointer to it is wild. *)
Record lock_in (S : Type) := LockIn {
  get_lock : S → option spinlock;
  set_lock : spinlock → S → S
}.
Arguments get_lock {S}.
Arguments set_lock {S}.

Section Spinlock.
Context {S : Type} `{Cpu S}.
Variable at_ : lock_in S.

Definition load_lock : M S spinlock :=
  s ← get; match get_lock at_ s with Some l => mret l | None => fault end.
Definition store_lock (l : spinlock) : M S unit := load_lock;; modify (set_lock at_ l).

Definition spinlock_init : M S unit := store_lock (Spinlock 0 0).

(** [__sync_val_compare_and_swap(&lock->owner, old, new)] *)
Definition cas_owner (old new : Z) : M S Z :=
  l ← load_lock;
  (if owner l =? old then store_lock (Spinlock new (nested l)) else mret tt);;
  mret (owner l).

(** [while(compare_and_swap(&lock->owner, 0, me) != me)] *)
Fixpoint spin (fuel : nat) (me : Z) : M S unit :=
  match fuel with
  | O => nofuel
  | Datatypes.S fuel =>
      seen ← cas_owner 0 me;
      if seen =? me then mret tt else spin fuel me
  end.

(** The loop ends at the second attempt or never, see [spin_other]. *)
Definition spin_fuel : nat := 2.

Definition spinlock_acquire : M S Z :=
  flags ← interrupts_enter_cli;
  s ← get;
  let me := current_tid s in
  assert (negb (me =? 0)) "me";;
  spin spin_fuel me;;
  l ← load_lock;
  store_lock (Spinlock (owner l) (u32 (nested l + 1)));;
  mret flags.

Definition spinlock_release (flags : Z) : M S unit :=
  i ← flags_register_is_set flags_if_bit;
  assert (Bool.eqb false i) "false == flags_register_is_set(flags_if_bit)";;
  l ← load_lock;
  store_lock (Spinlock (owner l) (u32 (nested l - 1)));;
  l ← load_lock;
  (if nested l =? 0 then store_lock (Spinlock 0 (nested l)) else mret tt);;
  interrupts_leave_cli flags.
End Spinlock.

(** What the lemmas need of the place of a lock. *)
Class LockLaws {S} `{Cpu S} (at_ : lock_in S) := {
  get_set_lock : ∀ l s, is_Some (get_lock at_ s) → get_lock at_ (set_lock at_ l s) = Some l;
  set_set_lock : ∀ l l' s, set_lock at_ l (set_lock at_ l' s) = set_lock at_ l s;
  set_lock_id : ∀ l s, get_lock at_ s = Some l → set_lock at_ l s = s;
  get_lock_eflags : ∀ f s, get_lock at_ (set_eflags f s) = get_lock at_ s;
  set_lock_eflags : ∀ f l s, set_lock at_ l (set_eflags f s) = set_eflags f (set_lock at_ l s);
  eflags_set_lock : ∀ l s, eflags (set_lock at_ l s) = eflags s;
  tid_set_lock : ∀ l s, current_tid (set_lock at_ l s) = current_tid s
}.

(** Interrupts are off. *)
Definition masked {S} `{Cpu S} (s : S) : Prop := Z.testbit (eflags s) flags_if_bit = false.
Definition flags_word {S} `{Cpu S} (s : S) : Prop := 0 ≤ eflags s < W32.

(** The state in which a critical section that began in [s] runs. *)
Definition entered {S} `{Cpu S} (at_ : lock_in S) (l : spinlock) (s : S) : S :=
  set_lock at_ l (set_eflags (Z.clearbit (eflags s) flags_if_bit) s).

Lemma clearbit_word f i : 0 ≤ f < W32 → 0 ≤ Z.clearbit f i < W32.
Proof. intros Hf. apply word_bound. intros j Hj. by rewrite Z.clearbit_eqb, word_high. Qed.

Section Critical.
Context {S : Type} `{CpuLaws S} (at_ : lock_in S) `{!LockLaws at_}.
Implicit Types (s : S) (l : spinlock).

Lemma load_lock_ok s l : get_lock at_ s = Some l → load_lock at_ s = Ret l s.
Proof. intros E. unfold load_lock. rewrite bind_get, E. done. Qed.

Lemma store_lock_ok s l l' : get_lock at_ s = Some l → store_lock at_ l' s = Ret tt (set_lock at_ l' s).
Proof. intros E. unfold store_lock. by step (load_lock_ok _ _ E). Qed.

Lemma get_lock_set s l l' : get_lock at_ s = Some l → get_lock at_ (set_lock at_ l' s) = Some l'.
Proof. intros E. apply get_set_lock. by rewrite E. Qed.

Lemma cas_ok s l old new :
  get_lock at_ s = Some l →
  cas_owner at_ old new s =
    Ret (owner l) (if owner l =? old then set_lock at_ (Spinlock new (nested l)) s else s).
Proof.
  intros E. unfold cas_owner. step (load_lock_ok _ _ E). destruct (owner l =? old); [|done].
  by step (store_lock_ok s l (Spinlock new (nested l)) E).
Qed.

(** A free lock is taken by the first attempt and seen taken by the second. *)
Lemma spin_ok s l me :
  get_lock at_ s = Some l → me ≠ 0 → owner l = 0 ∨ owner l = me →
  spin at_ spin_fuel me s = Ret tt (set_lock at_ (Spinlock me (nested l)) s).
Proof.
  intros E Hme Ho. unfold spin_fuel. cbn [spin]. step (cas_ok s l 0 me E). destruct Ho as [Ho|Ho]; rewrite Ho.
  - rewrite (proj2 (Z.eqb_neq 0 me)), Z.eqb_refl by done.
    step (cas_ok _ _ 0 me (get_lock_set s l (Spinlock me (nested l)) E)). cbn [owner nested].
    by rewrite Z.eqb_refl, (proj2 (Z.eqb_neq me 0)) by done.
  - rewrite Z.eqb_refl, (proj2 (Z.eqb_neq me 0)) by done. f_equal. symmetry. apply set_lock_id.
    rewrite E. destruct l; simpl in *; congruence.
Qed.

(** A lock that another thread owns is never obtained. *)
Lemma spin_other fuel s l me :
  get_lock at_ s = Some l → owner l ≠ 0 → owner l ≠ me → spin at_ fuel me s = NoFuel.
Proof.
  intros E Hz Hme. induction fuel as [|fuel IH]; [done|]. cbn [spin]. step (cas_ok s l 0 me E).
  by rewrite (proj2 (Z.eqb_neq (owner l) me)), (proj2 (Z.eqb_neq (owner l) 0)) by done.
Qed.

Lemma enter_cli_ok s : interrupts_enter_cli s = Ret (eflags s) (set_eflags (Z.clearbit (eflags s) flags_if_bit) s).
Proof. done. Qed.

Lemma acquire_ok s l :
  get_lock at_ s = Some l → current_tid s ≠ 0 → owner l = 0 ∨ owner l = current_tid s →
  spinlock_acquire at_ s = Ret (eflags s) (entered at_ (Spinlock (current_tid s) (u32 (nested l + 1))) s).
Proof.
  intros E Ht Ho. unfold spinlock_acquire. step (enter_cli_ok s). set (s1 := set_eflags _ s).
  rewrite bind_get. cbn zeta. replace (current_tid s1) with (current_tid s) by (symmetry; apply tid_set_eflags).
  assert (E1 : get_lock at_ s1 = Some l) by (unfold s1; by rewrite get_lock_eflags).
  step (assert_ok (negb (current_tid s =? 0)) "me" s1 ltac:(by rewrite (proj2 (Z.eqb_neq (current_tid s) 0)))).
  step (spin_ok s1 l (current_tid s) E1 Ht Ho).
  pose proof (get_lock_set s1 l (Spinlock (current_tid s) (nested l)) E1) as E2.
  step (load_lock_ok _ _ E2). cbn [owner nested].
  step (store_lock_ok _ _ (Spinlock (current_tid s) (u32 (nested l + 1))) E2). rewrite set_set_lock. done.
Qed.

Lemma masked_ok s : flags_word s → masked s → flags_register_is_set flags_if_bit s = Ret false s.
Proof.
  unfold masked. intros Hw Hm. unfold flags_register_is_set. rewrite bind_get.
  by rewrite flags_is_set_eq, Hm by (done || unfold flags_if_bit; lia).
Qed.

(** What [spinlock_release] leaves in the lock. *)
Definition released l : spinlock :=
  let n := u32 (nested l - 1) in Spinlock (if n =? 0 then 0 else owner l) n.

Lemma release_ok s l flags :
  get_lock at_ s = Some l → flags_word s → masked s →
  spinlock_release at_ flags s = Ret tt (set_eflags flags (set_lock at_ (released l) s)).
Proof.
  intros E Hw Hm. unfold spinlock_release. step (masked_ok s Hw Hm). step (assert_ok (Bool.eqb false false)
    "false == flags_register_is_set(flags_if_bit)" s eq_refl). step (load_lock_ok _ _ E). set (n := u32 (nested l - 1)). step (store_lock_ok _ _ (Spinlock (owner l) n) E).
  pose proof (get_lock_set s l (Spinlock (owner l) n) E) as E1. step (load_lock_ok _ _ E1). cbn [nested].
  unfold released. fold n. destruct (n =? 0); [|done].
  step (store_lock_ok _ _ (Spinlock 0 n) E1). by rewrite set_set_lock.
Qed.

Lemma entered_masked l s : flags_word s → masked (entered at_ l s) ∧ flags_word (entered at_ l s).
Proof.
  unfold masked, flags_word, entered. intros Hw. rewrite eflags_set_lock, eflags_set.
  split; [|by apply clearbit_word]. rewrite Z.clearbit_eqb, Z.eqb_refl by (unfold flags_if_bit; lia). apply andb_false_r.
Qed.

Lemma entered_lock l l' s : get_lock at_ s = Some l' → get_lock at_ (entered at_ l s) = Some l.
Proof. intros E. unfold entered. eapply get_lock_set. by rewrite get_lock_eflags. Qed.

Lemma entered_tid l s : current_tid (entered at_ l s) = current_tid s.
Proof. unfold entered. by rewrite tid_set_lock, tid_set_eflags. Qed.

Lemma released_acquired me n o :
  0 ≤ n < W32 - 1 → (n = 0 ∧ o = 0 ∨ 0 < n ∧ o = me) →
  released (Spinlock me (u32 (n + 1))) = Spinlock o n.
Proof.
  intros Hn Ho. unfold released. cbn [owner nested]. rewrite (u32_small (n + 1)) by lia.
  replace (n + 1 - 1) with n by lia. rewrite (u32_small n) by lia.
  destruct (Z.eqb_spec n 0); f_equal; lia.
Qed.

(** A critical section that leaves the lock and the flags alone, entered with
    the lock free or held by the running thread. *)
Lemma critical_nested_ok {A} s l (body : M S A) a s1 (l1 := Spinlock (current_tid s) (u32 (nested l + 1))) :
  get_lock at_ s = Some l → 0 ≤ nested l < W32 - 1 → (nested l = 0 ∧ owner l = 0 ∨ 0 < nested l ∧ owner l = current_tid s) →
  flags_word s → current_tid s ≠ 0 →
  body (entered at_ l1 s) = Ret a s1 → get_lock at_ s1 = Some l1 →
  eflags s1 = Z.clearbit (eflags s) flags_if_bit →
  (flags ← spinlock_acquire at_; a ← body; spinlock_release at_ flags;; mret a) s =
    Ret a (set_eflags (eflags s) (set_lock at_ l s1)).
Proof.
  intros E Hn Hl Hw Ht Eb El Ef. step (acquire_ok s l E Ht ltac:(destruct Hl as [[_ ?]|[_ ?]]; [by left|by right])). step Eb.
  destruct (entered_masked l1 s Hw) as [Hm Hw1].
  assert (Hf : eflags s1 = eflags (entered at_ l1 s)) by (unfold entered; by rewrite eflags_set_lock, eflags_set).
  step (release_ok s1 l1 (eflags s) El ltac:(unfold flags_word; by rewrite Hf) ltac:(unfold masked; by rewrite Hf)).
  unfold l1. rewrite released_acquired with (o := owner l) by (done || tauto). by destruct l.
Qed.

Lemma critical_ok {A} s (body : M S A) a s1 (l := Spinlock (current_tid s) 1) :
  get_lock at_ s = Some (Spinlock 0 0) → flags_word s → current_tid s ≠ 0 →
  body (entered at_ l s) = Ret a s1 → get_lock at_ s1 = Some l →
  eflags s1 = Z.clearbit (eflags s) flags_if_bit →
  (flags ← spinlock_acquire at_; a ← body; spinlock_release at_ flags;; mret a) s =
    Ret a (set_eflags (eflags s) (set_lock at_ (Spinlock 0 0) s1)).
Proof. intros E Hw Ht. apply (critical_nested_ok s (Spinlock 0 0)); [done|cbn; lia|by left|done|done]. Qed.

Lemma critical_unit_ok s (body : M S unit) s1 (l := Spinlock (current_tid s) 1) :
  get_lock at_ s = Some (Spinlock 0 0) → flags_word s → current_tid s ≠ 0 →
  body (entered at_ l s) = Ret tt s1 → get_lock at_ s1 = Some l →
  eflags s1 = Z.clearbit (eflags s) flags_if_bit →
  (flags ← spinlock_acquire at_; body;; spinlock_release at_ flags) s =
    Ret tt (set_eflags (eflags s) (set_lock at_ (Spinlock 0 0) s1)).
Proof.
  intros E Hw Ht Eb El Ef. pose proof (critical_ok s body tt s1 E Hw Ht Eb El Ef) as Hc. revert Hc. unfold mbind, M_bind.
  destruct (spinlock_acquire at_ s) as [flags s'| | |]; try done. destruct (body s') as [[] s2| | |]; try done.
  destruct (spinlock_release at_ flags s2) as [[] s3| | |]; done.
Qed.

(** On one processor, [spinlock_acquire] of a lock that is free or that
    the thread already holds gives it to the thread, one level deeper and with
    interrupts off, and the matching [spinlock_release] puts back both the
    lock and the flags register as they were; a lock that another thread holds
    is never acquired, however long the loop spins. *)
Theorem spinlock_acquire_release s l fuel :
  get_lock at_ s = Some l → flags_word s → current_tid s ≠ 0 →
  0 ≤ nested l < W32 - 1 → (nested l = 0 ↔ owner l = 0) →
  (owner l = 0 ∨ owner l = current_tid s →
   ∃ s1, spinlock_acquire at_ s = Ret (eflags s) s1 ∧ masked s1 ∧
     get_lock at_ s1 = Some (Spinlock (current_tid s) (nested l + 1)) ∧
     spinlock_release at_ (eflags s) s1 = Ret tt s) ∧
  (owner l ≠ 0 → owner l ≠ current_tid s → spin at_ fuel (current_tid s) s = NoFuel).
Proof.
  intros E Hw Ht Hn Hz. split; [|intros; by eapply spin_other]. intros Ho.
  eexists. split; [by apply acquire_ok|]. rewrite (u32_small (nested l + 1)) by lia.
  destruct (entered_masked (Spinlock (current_tid s) (nested l + 1)) s Hw) as [Hm1 Hw1].
  split; [done|]. split; [by eapply entered_lock|].
  erewrite release_ok by (done || by eapply entered_lock).
  rewrite <- (u32_small (nested l + 1)), (released_acquired _ _ (owner l)) by lia.
  unfold entered. rewrite set_set_lock, set_lock_eflags, set_eflags_set, (set_lock_id _ s); [|by rewrite E; destruct l].
  by rewrite set_eflags_id.
Qed.
End Critical.

(** A state with one lock, for examples. *)
Record one_lock := OneLock { ol_eflags : Z; ol_tid : Z; ol_lock : spinlock }.

#[global] Instance one_lock_cpu : Cpu one_lock := {
  eflags := ol_eflags;
  set_eflags f s := OneLock f (ol_tid s) (ol_lock s);
  current_tid := ol_tid
}.
#[global] Instance one_lock_cpu_laws : CpuLaws one_lock.
Proof. split; try done. by intros []. Qed.

Definition the_lock : lock_in one_lock :=
  LockIn one_lock (Some ∘ ol_lock) (λ l s, OneLock (ol_eflags s) (ol_tid s) l).

#[global] Instance the_lock_laws : LockLaws the_lock.
Proof. split; try done. intros l []. unfold the_lock. simpl. congruence. Qed.

Lemma spinlock_acquire_release_witness :
  let s := OneLock 514 7 (Spinlock 0 0) in
  (∃ s1, spinlock_acquire the_lock s = Ret 514 s1 ∧ spinlock_release the_lock 514 s1 = Ret tt s) ∧
  spin the_lock 100 7 (OneLock 514 7 (Spinlock 8 1)) = NoFuel.
Proof.
  intros s. split.
  - destruct (spinlock_acquire_release the_lock s (Spinlock 0 0) 0) as [(s1 & E & _ & _ & E') _];
      [reflexivity|unfold flags_word; simpl; lia|simpl; lia|simpl; lia|simpl; lia|by left|]. by exists s1.
  - destruct (spinlock_acquire_release the_lock (OneLock 514 7 (Spinlock 8 1)) (Spinlock 8 1) 100) as [_ E];
      [reflexivity|unfold flags_word; simpl; lia|simpl; lia..|]. apply E; simpl; lia.
Defined.

(** ** Threads and processors that use one lock

    A step is one access to the lock's memory: [nested++] is a load and a
    store.  [depth] counts the acquisitions a thread has returned from and not
    begun to undo.  [spinlock_acquire] reads the identifier it stores in the
    lock from [_current_thread], of which there is one in the kernel; a step of
    [thread_context_switch] changes it. *)
Module Spin.
Inductive pc :=
  | Idle                (* outside, or in the critical section when [depth] > 0 *)
  | Loop (me : Z)       (* before compare_and_swap in the loop *)
  | Inc                 (* before loading [nested] for nested++ *)
  | IncStore (v : Z)
  | Dec                 (* before loading [nested] for nested-- *)
  | DecStore (v : Z)
  | Test                (* before [lock->nested == 0] *)
  | Clear.              (* before __sync_lock_release *)

(** [current] is the identifier of [_current_thread]; each strand of execution
    has a program counter and a depth. *)
Record state := State { lock : spinlock; current : Z; pcs : Z → pc * Z }.

Definition set_pc (x : Z) (p : pc * Z) (s : state) : state := State (lock s) (current s) (<[x := p]> (pcs s)).
Definition set_lock_pc (l : spinlock) (x : Z) (p : pc * Z) (s : state) : state := State l (current s) (<[x := p]> (pcs s)).

(** [runs s x] says that a processor executes the strand [x]. *)
Inductive spin_step (runs : state → Z → Prop) (s : state) : state → Prop :=
  | step_switch t : spin_step runs s (State (lock s) t (pcs s))
  | step_acquire x d : runs s x → pcs s x = (Idle, d) → current s ≠ 0 → d < W32 - 1 →
      spin_step runs s (set_pc x (Loop (current s), d) s)
  | step_cas x me d : runs s x → pcs s x = (Loop me, d) →
      spin_step runs s (set_lock_pc (Spinlock (if owner (lock s) =? 0 then me else owner (lock s)) (nested (lock s))) x
        (if owner (lock s) =? me then Inc else Loop me, d) s)
  | step_inc x d : runs s x → pcs s x = (Inc, d) → spin_step runs s (set_pc x (IncStore (nested (lock s)), d) s)
  | step_inc_store x v d : runs s x → pcs s x = (IncStore v, d) →
      spin_step runs s (set_lock_pc (Spinlock (owner (lock s)) (u32 (v + 1))) x (Idle, d + 1) s)
  | step_release x d : runs s x → pcs s x = (Idle, d) → 0 < d → spin_step runs s (set_pc x (Dec, d - 1) s)
  | step_dec x d : runs s x → pcs s x = (Dec, d) → spin_step runs s (set_pc x (DecStore (nested (lock s)), d) s)
  | step_dec_store x v d : runs s x → pcs s x = (DecStore v, d) →
      spin_step runs s (set_lock_pc (Spinlock (owner (lock s)) (u32 (v - 1))) x (Test, d) s)
  | step_test x d : runs s x → pcs s x = (Test, d) →
      spin_step runs s (set_pc x (if nested (lock s) =? 0 then Clear else Idle, d) s)
  | step_clear x d : runs s x → pcs s x = (Clear, d) →
      spin_step runs s (set_lock_pc (Spinlock 0 (nested (lock s))) x (Idle, d) s).

Definition init (t : Z) : state := State (Spinlock 0 0) t (λ _, (Idle, 0)).

(** One processor executes the current thread; strands are threads. *)
Definition one_cpu (s : state) (x : Z) : Prop := x = current s.
(** Several processors, each executing a thread of its own, while there is one
    [_current_thread] for all of them. *)
Definition many_cpus (s : state) (x : Z) : Prop := True.

(** What the program counter of the owner [t] says about [nested]. *)
Definition owner_ok (t n : Z) (p : pc * Z) : Prop :=
  let (c, d) := p in
  0 ≤ d < W32 ∧
  match c with
  | Idle => n = d ∧ 0 < d
  | Loop me => me = t ∧ n = d ∧ d < W32 - 1
  | Inc => n = d ∧ d < W32 - 1
  | IncStore v => n = d ∧ v = d ∧ d < W32 - 1
  | Dec => n = d + 1 ∧ d < W32 - 1
  | DecStore v => n = d + 1 ∧ v = d + 1 ∧ d < W32 - 1
  | Test => n = d
  | Clear => n = 0 ∧ d = 0
  end.

Definition other_ok (t : Z) (p : pc * Z) : Prop := p = (Idle, 0) ∨ p = (Loop t, 0).

Definition inv (s : state) : Prop :=
  (∀ t, t ≠ 0 → if decide (owner (lock s) = t) then owner_ok t (nested (lock s)) (pcs s t) else other_ok t (pcs s t)) ∧
  pcs s 0 = (Idle, 0) ∧ (owner (lock s) = 0 → nested (lock s) = 0).

Lemma inv_init t : inv (init t).
Proof. split; [|done]. intros u Hu. simpl. rewrite decide_False by done. by left. Qed.

(** A step of [t] that leaves the lock's owner alone. *)
Lemma inv_local s t n p :
  inv s → t ≠ 0 → owner (lock s) = t → owner_ok t n p → inv (set_lock_pc (Spinlock (owner (lock s)) n) t p s).
Proof.
  intros (Hi & H0 & Hz) Ht Ho Hp. split; [|split].
  - intros u Hu. specialize (Hi u Hu). simpl. rewrite Ho in *. destruct (decide (t = u)) as [->|Hne].
    + by rewrite fn_lookup_insert.
    + by rewrite fn_lookup_insert_ne.
  - simpl. by rewrite fn_lookup_insert_ne.
  - simpl. lia.
Qed.

(** A thread that is past the loop owns the lock. *)
Lemma inv_owner s t c d :
  inv s → pcs s t = (c, d) → ¬ other_ok t (c, d) →
  t ≠ 0 ∧ owner (lock s) = t ∧ owner_ok t (nested (lock s)) (c, d).
Proof.
  intros (Hi & H0 & Hz) E Hno. assert (Ht : t ≠ 0) by (intros ->; rewrite H0 in E; apply Hno; left; congruence).
  specialize (Hi t Ht). rewrite E in Hi. by destruct (decide _).
Qed.

Lemma lock_eta l : Spinlock (owner l) (nested l) = l.
Proof. by destruct l. Qed.

Lemma set_pc_eta s x p : set_pc x p s = set_lock_pc (Spinlock (owner (lock s)) (nested (lock s))) x p s.
Proof. unfold set_pc, set_lock_pc. by rewrite lock_eta. Qed.

(** A thread that does not own the lock moves in or out of the loop. *)
Lemma inv_waiter s t p : inv s → t ≠ 0 → owner (lock s) ≠ t → other_ok t p → inv (set_pc t p s).
Proof.
  intros (Hi & H0 & Hz) Ht Ho Hp. split; [|split; [simpl; by rewrite fn_lookup_insert_ne|done]].
  intros u Hu. specialize (Hi u Hu). simpl. destruct (decide (t = u)) as [->|Hne].
  - by rewrite fn_lookup_insert, decide_False.
  - by rewrite fn_lookup_insert_ne.
Qed.

Lemma inv_cas s t me d : inv s → pcs s t = (Loop me, d) →
  inv (set_lock_pc (Spinlock (if owner (lock s) =? 0 then me else owner (lock s)) (nested (lock s))) t
    (if owner (lock s) =? me then Inc else Loop me, d) s).
Proof.
  intros Hinv E. pose proof Hinv as (Hi & H0 & Hz).
  assert (Ht : t ≠ 0) by (intros ->; congruence). specialize (Hi t Ht) as Hit. rewrite E in Hit.
  assert (me = t) as -> by (destruct (decide _); [by destruct Hit as (_ & ? & _)|by destruct Hit; simplify_eq]).
  destruct (Z.eqb_spec (owner (lock s)) 0) as [Eo|Eo].
  - rewrite Eo, (proj2 (Z.eqb_neq 0 t)) by done. rewrite Eo, decide_False in Hit by done.
    split; [|split; [simpl; by rewrite fn_lookup_insert_ne|simpl; lia]].
    intros u Hu. simpl. specialize (Hi u Hu). rewrite Eo, decide_False in Hi by done.
    destruct (decide (t = u)) as [->|Hne].
    + rewrite fn_lookup_insert, Hz by done. destruct Hit; simplify_eq. simpl. lia.
    + by rewrite fn_lookup_insert_ne.
  - destruct (Z.eqb_spec (owner (lock s)) t) as [Et|Et].
    + apply inv_local; [done..|]. rewrite decide_True in Hit by done. simpl in *. lia.
    + rewrite <- set_pc_eta. apply inv_waiter; [done..|]. by rewrite decide_False in Hit.
Qed.

(** The last step of a release frees the lock. *)
Lemma inv_clear s t d : inv s → pcs s t = (Clear, d) → inv (set_lock_pc (Spinlock 0 (nested (lock s))) t (Idle, d) s).
Proof.
  intros Hinv E. destruct (inv_owner s t Clear d) as (Ht & Ho & _ & Hn & ->); [done|done|by intros [|]|].
  destruct Hinv as (Hi & H0 & Hz). split; [|split; [simpl; by rewrite fn_lookup_insert_ne|done]].
  intros u Hu. specialize (Hi u Hu). simpl. rewrite decide_False by done. destruct (decide (t = u)) as [->|Hne].
  - rewrite fn_lookup_insert. by left.
  - rewrite fn_lookup_insert_ne by done. by rewrite Ho, decide_False in Hi.
Qed.

Lemma inv_acquire s d : inv s → pcs s (current s) = (Idle, d) → current s ≠ 0 → d < W32 - 1 → inv (set_pc (current s) (Loop (current s), d) s).
Proof.
  intros Hinv E Ht Hd. pose proof Hinv as (Hi & _). specialize (Hi _ Ht). rewrite E in Hi.
  destruct (decide (owner (lock s) = current s)) as [Ho|Ho].
  - rewrite set_pc_eta. apply inv_local; [done..|]. simpl in *. lia.
  - apply inv_waiter; [done..|]. destruct Hi; simplify_eq. by right.
Qed.

Lemma inv_step s s' : inv s → spin_step one_cpu s s' → inv s'.
Proof.
  intros Hinv Hst. destruct Hst as [t|t d -> E Ht Hd|t me d _ E|t d _ E|t v d _ E|t d _ E Hd|t d _ E|t v d _ E|t d _ E|t d _ E].
  - exact Hinv.
  - by apply inv_acquire.
  - by apply inv_cas.
  - destruct (inv_owner s t Inc d) as (Ht & Ho & Hok); [done|done|by intros [|]|].
    rewrite set_pc_eta. apply inv_local; [done..|]. simpl in *. lia.
  - destruct (inv_owner s t (IncStore v) d) as (Ht & Ho & Hok); [done|done|by intros [|]|].
    apply inv_local; [done..|]. simpl in *. rewrite u32_small by lia. lia.
  - destruct (inv_owner s t Idle d) as (Ht & Ho & Hok); [done|done|intros [|]; simplify_eq; lia|].
    rewrite set_pc_eta. apply inv_local; [done..|]. simpl in *. lia.
  - destruct (inv_owner s t Dec d) as (Ht & Ho & Hok); [done|done|by intros [|]|].
    rewrite set_pc_eta. apply inv_local; [done..|]. simpl in *. lia.
  - destruct (inv_owner s t (DecStore v) d) as (Ht & Ho & Hok); [done|done|by intros [|]|].
    apply inv_local; [done..|]. simpl in *. rewrite u32_small by lia. lia.
  - destruct (inv_owner s t Test d) as (Ht & Ho & Hok); [done|done|by intros [|]|].
    rewrite set_pc_eta. apply inv_local; [done..|].
    destruct (Z.eqb_spec (nested (lock s)) 0); simpl in *; lia.
  - by apply inv_clear.
Qed.

Lemma inv_reachable t s : rtc (spin_step one_cpu) (init t) s → inv s.
Proof.
  intros Hr. cut (∀ s0, inv s0 → rtc (spin_step one_cpu) s0 s → inv s); [intros H; by eapply H; [apply inv_init|]|].
  intros s0 Hi Hs. induction Hs; eauto using inv_step.
Qed.

(** C2: on one processor, with the thread that runs as [_current_thread], and
    whatever the kernel switches to after any instruction, also inside
    [spinlock_acquire] and [spinlock_release]: at most one thread is between
    the return of its outermost [spinlock_acquire] and the call of the matching
    [spinlock_release]; it is the one named in [owner] and [nested] is its depth
    unless it is just changing it.  When every thread is outside, the lock is
    free.  (Several processors would share the one [_current_thread], and the
    lock would not keep them apart: see [processors_not_excluded].) *)
Theorem spinlock_mutual_exclusion t0 s :
  rtc (spin_step one_cpu) (init t0) s →
  (∀ t u c d e, pcs s t = (c, d) → pcs s u = (Idle, e) → 0 < d → 0 < e →
     t = u ∧ owner (lock s) = u ∧ nested (lock s) = e) ∧
  ((∀ t, pcs s t = (Idle, 0)) → lock s = Spinlock 0 0).
Proof.
  intros Hr. apply inv_reachable in Hr. split.
  - intros t u c d e Et Eu Hd He.
    destruct (inv_owner s t c d) as (_ & Ho & _); [done|done|intros [|]; simplify_eq; lia|].
    destruct (inv_owner s u Idle e) as (_ & Ho' & Hok); [done|done|intros [|]; simplify_eq; lia|].
    simpl in Hok. split; [congruence|]. split; [done|lia].
  - intros Hall. destruct Hr as (Hi & _ & Hz). rewrite <- (lock_eta (lock s)).
    destruct (decide (owner (lock s) = 0)) as [E|E]; [by rewrite E, Hz|].
    specialize (Hi _ E). rewrite decide_True, Hall in Hi by done. simpl in Hi. lia.
Qed.

(** Thread 3 takes the lock while thread 5 spins. *)
Lemma spinlock_mutual_exclusion_witness :
  ∃ s, rtc (spin_step one_cpu) (init 3) s ∧ owner (lock s) = 3 ∧ nested (lock s) = 1.
Proof.
  assert (Hr : ∃ s, rtc (spin_step one_cpu) (init 3) s ∧ pcs s 3 = (Idle, 1)).
  { eexists. split. eapply rtc_l; [apply (step_acquire _ _ 3 0); (reflexivity || discriminate || lia)|].
    eapply rtc_l; [apply (step_cas _ _ 3 3 0); reflexivity|].
    eapply rtc_l; [apply (step_switch _ _ 5)|].
    eapply rtc_l; [apply (step_acquire _ _ 5 0); (reflexivity || discriminate || lia)|].
    eapply rtc_l; [apply (step_cas _ _ 5 5 0); reflexivity|].
    eapply rtc_l; [apply (step_switch _ _ 3)|].
    eapply rtc_l; [apply (step_cas _ _ 3 3 0); reflexivity|].
    eapply rtc_l; [apply (step_inc _ _ 3 0); reflexivity|].
    eapply rtc_l; [apply (step_inc_store _ _ 3 0 0); reflexivity|]. apply rtc_refl. reflexivity. }
  destruct Hr as (s & Hr & Hp). exists s. split; [exact Hr|].
  destruct (spinlock_mutual_exclusion 3 s Hr) as [H _].
  destruct (H 3 3 Idle 1 1) as (_ & E & E'); [exact Hp|exact Hp|lia|lia|]. by split.
Defined.

(** A processor gets inside if the lock is free or has been taken under the
    identifier that [_current_thread] has. *)
Lemma processor_enters s x : current s ≠ 0 → pcs s x = (Idle, 0) → owner (lock s) = 0 ∨ owner (lock s) = current s →
  ∃ s', rtc (spin_step many_cpus) s s' ∧ pcs s' x = (Idle, 1) ∧ current s' = current s ∧ owner (lock s') = current s ∧
    ∀ u, u ≠ x → pcs s' u = pcs s u.
Proof.
  intros Ht Hx Ho. set (t := current s) in *.
  assert (Hin : ∃ s1, rtc (spin_step many_cpus) s s1 ∧ pcs s1 x = (Loop t, 0) ∧ current s1 = t ∧ owner (lock s1) = t ∧ ∀ u, u ≠ x → pcs s1 u = pcs s u).
  { set (s0 := set_pc x (Loop t, 0) s). assert (Hs0 : spin_step many_cpus s s0) by (by apply (step_acquire _ _ x 0)).
    assert (Hp0 : pcs s0 x = (Loop t, 0)) by apply fn_lookup_insert. destruct Ho as [Ho|Ho].
    - pose proof (step_cas many_cpus s0 x t 0 I Hp0) as Hc. cbn [lock s0 set_pc] in Hc. rewrite Ho, (proj2 (Z.eqb_neq 0 t)) in Hc by done.
      cbn [Z.eqb] in Hc. eexists. split; [eapply rtc_l; [exact Hs0|by apply rtc_once]|]. cbn. rewrite fn_lookup_insert. do 3 (split; [done|]).
      intros u Hu. by rewrite !fn_lookup_insert_ne.
    - exists s0. split; [by apply rtc_once|]. split; [done|]. split; [done|]. split; [done|]. intros u Hu. by apply fn_lookup_insert_ne. }
  destruct Hin as (s1 & R1 & Hp1 & Hc1 & Ho1 & Hu1). set (s2 := set_pc x (Inc, 0) s1).
  assert (H2 : spin_step many_cpus s1 s2).
  { pose proof (step_cas many_cpus s1 x t 0 I Hp1) as Hc. rewrite Ho1, Z.eqb_refl, (proj2 (Z.eqb_neq t 0)) in Hc by done. by rewrite <- Ho1, <- set_pc_eta in Hc. }
  set (s3 := set_pc x (IncStore (nested (lock s2)), 0) s2). assert (H3 : spin_step many_cpus s2 s3) by (by apply step_inc; [|apply fn_lookup_insert]).
  eexists. split; [|split; [|split; [|split]]].
  - etransitivity; [exact R1|]. eapply rtc_l; [exact H2|]. eapply rtc_l; [exact H3|]. eapply rtc_once, (step_inc_store _ s3 x); [done|apply fn_lookup_insert].
  - cbn. apply fn_lookup_insert.
  - exact Hc1.
  - exact Ho1.
  - intros u Hu. cbn. by rewrite !fn_lookup_insert_ne, Hu1.
Qed.

(** Any two processors get inside together: both read the same identifier. *)
Lemma processors_not_excluded x y t :
  x ≠ y → t ≠ 0 → ∃ s, rtc (spin_step many_cpus) (init t) s ∧ pcs s x = (Idle, 1) ∧ pcs s y = (Idle, 1).
Proof.
  intros Hxy Ht. destruct (processor_enters (init t) x) as (s1 & R1 & Hx & Hc & Ho & Hu); [done|done|by left|]. cbn in Hc, Ho.
  destruct (processor_enters s1 y) as (s2 & R2 & Hy & _ & _ & Hu2); [by rewrite Hc|by rewrite Hu by done|right; congruence|].
  exists s2. split; [by etransitivity|]. split; [by rewrite Hu2|done].
Qed.
End Spin.
