(* ===== verification/Malloc.v ===== *)
(** * kernel/mm/malloc.c: the kernel heap

    [kmalloc] takes blocks from a pool of address ranges kept by the range
    allocator, and asks [kmem_alloc] for pages when the pool has no block that
    is large enough.  A block starts with two words, its size and the size
    asked for.  The state is the kernel memory of Kmem.v, the lock, the
    processor, and the contents of memory by virtual address; an access to an
    address that the page tables do not map faults. *)

From stdpp Require Import base numbers list gmap strings fin_maps functions.
From S2P Require Import Prelude UtList MemUtil Bytes Range RangeSpec RangeRefine Allocator VmMap Paging Kmem Registers Sync.

Record mstate := MState {
  m_kern : kstate;
  _malloc_lock : spinlock;
  m_mem : Z → Z;
  m_eflags : Z;
  m_tid : Z
}.

Definition set_kern (k : kstate) (s : mstate) : mstate := MState k (_malloc_lock s) (m_mem s) (m_eflags s) (m_tid s).
Definition set_mlock (l : spinlock) (s : mstate) : mstate := MState (m_kern s) l (m_mem s) (m_eflags s) (m_tid s).
Definition set_mem (m : Z → Z) (s : mstate) : mstate := MState (m_kern s) (_malloc_lock s) m (m_eflags s) (m_tid s).

#[global] Instance mstate_cpu : Cpu mstate := {
  eflags := m_eflags;
  set_eflags f s := MState (m_kern s) (_malloc_lock s) (m_mem s) f (m_tid s);
  current_tid := m_tid
}.
#[global] Instance mstate_cpu_laws : CpuLaws mstate.
Proof. split; try done. by intros []. Qed.

Definition malloc_lock_in : lock_in mstate := LockIn mstate (Some ∘ _malloc_lock) set_mlock.
#[global] Instance malloc_lock_laws : LockLaws malloc_lock_in.
Proof. split; try done. intros l [] E. by injection E as <-. Qed.

(** The pool: a map of the range allocator besides the two of kmem.c. *)
Abbreviation _malloc_avail_mem := 3 (only parsing).

Definition on_kern {A} (m : M kstate A) : M mstate A := zoom m_kern set_kern m.
Definition on_pool {A} (m : M astate A) : M mstate A := on_kern (on_alloc m).

Lemma on_kern_ok {A} (m : M kstate A) k s a k' : m k = Ret a k' → on_kern m (set_kern k s) = Ret a (set_kern k' s).
Proof. intros E. unfold on_kern, zoom. cbn [m_kern set_kern]. by rewrite E. Qed.

Lemma set_kern_id s : set_kern (m_kern s) s = s.
Proof. by destruct s. Qed.

(** The header of a block. *)
Definition sizeof_kmalloc_block : Z := 8.

Section Malloc.
Set Default Proof Using "Type".
Variable KERNEL_VMA : Z.
Variable fresh_ar : Z → allocator_region.
Variable fresh_vr : Z → vm_map_region.

(** *** Memory accesses *)
Definition vload8 (p : Z) : M mstate Z := λ s,
  match current_translate KERNEL_VMA (m_kern s) p with Some _ => Ret (m_mem s p) s | None => Fault end.
Definition vstore8 (p b : Z) : M mstate unit := λ s,
  match current_translate KERNEL_VMA (m_kern s) p with Some _ => Ret tt (set_mem (<[p := b]> (m_mem s)) s) | None => Fault end.

Definition vload32 (p : Z) : M mstate Z :=
  b0 ← vload8 p;
  b1 ← vload8 (u32 (p + 1));
  b2 ← vload8 (u32 (p + 2));
  b3 ← vload8 (u32 (p + 3));
  mret (b0 + Z.shiftl b1 8 + Z.shiftl b2 16 + Z.shiftl b3 24).
Definition vstore32 (p w : Z) : M mstate unit :=
  vstore8 p (u8 w);;
  vstore8 (u32 (p + 1)) (u8 (Z.shiftr w 8));;
  vstore8 (u32 (p + 2)) (u8 (Z.shiftr w 16));;
  vstore8 (u32 (p + 3)) (u8 (Z.shiftr w 24)).

(** *** Operations *)
Definition malloc_lock : M mstate Z := spinlock_acquire malloc_lock_in.
Definition malloc_unlock (flags : Z) : M mstate unit := spinlock_release malloc_lock_in flags.

Definition kmalloc_init : M mstate unit :=
  spinlock_init malloc_lock_in;;
  on_pool (allocator_map_init _malloc_avail_mem).

Definition kmalloc_print_info : M mstate (Z * Z * Z) := on_pool (allocator_print_map_info _malloc_avail_mem).

(** A block from the pool, with pages added to the pool if need be. *)
Definition find_block (block_size : Z) : M mstate (option Z) :=
  r ← on_pool (allocator_mem_alloc fresh_ar _malloc_avail_mem block_size 0 0);
  match r with
  | Some block => mret (Some block)
  | None =>
      let page_aligned_size := KMEM_PAGE_ALIGN block_size in
      page_ptr ← on_kern (kmem_alloc KERNEL_VMA fresh_ar fresh_vr page_aligned_size);
      if negb (page_ptr =? 0) then
        on_pool (allocator_mem_free fresh_ar _malloc_avail_mem page_ptr page_aligned_size 0);;
        on_pool (allocator_mem_alloc fresh_ar _malloc_avail_mem block_size 0 0)
      else mret None
  end.

Definition kmalloc_body (size : Z) : M mstate Z :=
  let block_size := u32 (sizeof_kmalloc_block + size) in
  r ← find_block block_size;
  match r with
  | Some block =>
      vstore32 block block_size;;
      vstore32 (u32 (block + 4)) size;;
      mret (u32 (block + sizeof_kmalloc_block))
  | None => mret 0
  end.

Definition kmalloc (size : Z) : M mstate Z :=
  flags ← malloc_lock;
  result ← kmalloc_body size;
  malloc_unlock flags;;
  mret result.

Definition malloc_aligned (bytes alignment flags : Z) : M mstate Z := mret 0.

Definition kfree_body (mem : Z) : M mstate unit :=
  if negb (mem =? NULL) then
    let block := u32 (mem - sizeof_kmalloc_block) in
    block_size ← vload32 block;
    on_pool (allocator_mem_free fresh_ar _malloc_avail_mem block block_size 0)
  else mret tt.

Definition kfree (mem : Z) : M mstate unit :=
  flags ← malloc_lock;
  kfree_body mem;;
  malloc_unlock flags.

(** [memcpy] on memory accessed through the page tables. *)
Fixpoint vcopy_fwd (n : nat) (dest src : Z) : M mstate unit :=
  match n with
  | O => mret tt
  | S n => b ← vload8 src; vstore8 dest b;; vcopy_fwd n (u32 (dest + 1)) (u32 (src + 1))
  end.
Fixpoint vcopy_rev (n : nat) (dest src : Z) : M mstate unit :=
  match n with
  | O => mret tt
  | S n => b ← vload8 (u32 (src + Z.of_nat n)); vstore8 (u32 (dest + Z.of_nat n)) b;; vcopy_rev n dest src
  end.
Definition vmemcpy (dest src len : Z) : M mstate unit :=
  if dest <? src then vcopy_fwd (Z.to_nat len) dest src else vcopy_rev (Z.to_nat len) dest src.

Definition krealloc (ptr size : Z) : M mstate Z :=
  new_ptr ← kmalloc size;
  (if negb (new_ptr =? 0) && negb (ptr =? 0) then
     vmemcpy new_ptr ptr size;;
     kfree ptr
   else mret tt);;
  mret new_ptr.

(** ** The invariant of the heap *)

(** The word at [p], little end first. *)
Definition word_at (mem : Z → Z) (p : Z) : Z :=
  mem p + Z.shiftl (mem (p + 1)) 8 + Z.shiftl (mem (p + 2)) 16 + Z.shiftl (mem (p + 3)) 24.

(** The bytes after the range [a, a + n) in its last word. *)
Definition tail_free (mal : list allocator_region) (a n : Z) : Prop :=
  ∀ x, a + n ≤ x → x / 4 = (a + n - 1) / 4 → covers mal x 0.

(** [mal] is the pool, [L] maps each block in use to its size. *)
Record heap_at (k : kstate) (mem : Z → Z) ms pm vm ar (mal : list allocator_region) (L : gmap Z Z) : Prop := {
  ha_kern : kinv KERNEL_VMA k ms pm vm ar;
  ha_pool : ms !! _malloc_avail_mem = Some mal;
  ha_wf : wf_list mal;
  ha_coalesced : coalesced mal;
  ha_flags : ∀ x f, covers mal x f → f = 0;
  (* memory in the pool is mapped *)
  ha_mapped : ∀ x, covers mal x 0 → is_Some (current_translate KERNEL_VMA k x);
  (* free bytes reach to the end of their word *)
  ha_words : ∀ x, covers mal x 0 → (x + 1) mod 4 ≠ 0 → covers mal (x + 1) 0;
  ha_block : ∀ a n, L !! a = Some n →
    (0 < a ∧ (4 | a) ∧ sizeof_kmalloc_block ≤ n ∧ a + n ≤ W32) ∧
    (∀ x, a ≤ x < a + n → is_Some (current_translate KERNEL_VMA k x) ∧ ¬ covers mal x 0) ∧
    tail_free mal a n ∧ word_at mem a = n;
  ha_disjoint : ∀ a n b n' x, L !! a = Some n → L !! b = Some n' → a ≠ b → a ≤ x < a + n → ¬ b ≤ x < b + n'
}.

Lemma coalesced_end lo (l : list allocator_region) v :
  wf_from lo l → coalesced l → v ∈ l → ¬ covers l (r_end v) (ar_flags v).
Proof.
  revert lo. induction l as [|c l IH]; intros lo Hw Hc Hv; [by apply not_elem_of_nil in Hv|].
  destruct Hw as (Hlo & Hwc & Hw). destruct Hc as [Hc Hcl]. rewrite covers_cons. apply elem_of_cons in Hv as [->|Hv].
  - intros [[_ Hx]|Hx]; [unfold in_region in Hx; lia|]. destruct l as [|d l]; [by apply covers_nil in Hx|].
    destruct Hw as (Hd & Hwd & Hw). apply covers_cons in Hx as [[Hf Hx]|Hx].
    + apply Hc. unfold in_region in Hx. split; [|simpl in *; lia]. simpl. unfold allocator_region_pre_merge.
      apply Z.eqb_eq. by rewrite <- Hf.
    + pose proof (covers_lower _ _ _ _ Hw Hx). destruct Hwd as (_ & Hs & _). unfold r_end in *. lia.
  - intros [[_ Hx]|Hx]; [|by eapply IH]. destruct (wf_from_lower _ _ _ Hw Hv) as [(_ & Hs & _) Hlow].
    unfold in_region, r_end in *. simpl in *. lia.
Qed.

Lemma padding_4 (v : allocator_region) : wf_region v → padding 4 v = (- ar_address v) mod 4.
Proof.
  intros (Ha & Hs & He). unfold r_end in He. simpl in Ha, Hs, He. unfold padding. set (x := ar_address v) in *.
  destruct (decide (x + 4 - 1 < W32)) as [Hlt|Hge].
  - rewrite align_address_eq; [|by apply pow2_4|lia..]. pose proof (Z.mod_pos_bound (- x) 4 ltac:(lia)).
    replace (x + (- x) mod 4 - x) with ((- x) mod 4) by lia. apply u32_small. lia.
  - assert (x = 4294967293 ∨ x = 4294967294 ∨ x = 4294967295) as [-> | [-> | ->]] by lia; reflexivity.
Qed.

Lemma pool_no_underflow k mem ms pm vm ar mal L : heap_at k mem ms pm vm ar mal L → no_underflow 4 0 mal.
Proof.
  clear fresh_ar fresh_vr. intros H v Hv _. pose proof (wf_list_region _ _ (ha_wf _ _ _ _ _ _ _ _ H) Hv) as Hw. rewrite (padding_4 v Hw).
  destruct Hw as (Ha & Hs & He). unfold r_end in He. simpl in Ha, Hs, He.
  assert (Hf : ar_flags v = 0).
  { apply (ha_flags _ _ _ _ _ _ _ _ H (ar_address v)). exists v. split; [done|]. split; [done|]. unfold in_region, r_end. simpl. lia. }
  destruct (Z.le_gt_cases ((- ar_address v) mod 4) (ar_size v)) as [|Hgt]; [done|]. exfalso.
  apply (coalesced_end 1 mal v (ha_wf _ _ _ _ _ _ _ _ H) (ha_coalesced _ _ _ _ _ _ _ _ H) Hv). rewrite Hf.
  replace (r_end v) with (ar_address v + ar_size v - 1 + 1) by (unfold r_end; simpl; lia).
  apply (ha_words _ _ _ _ _ _ _ _ H).
  - exists v. split; [done|]. split; [done|]. unfold in_region, r_end. simpl. lia.
  - Z.to_euclidean_division_equations. lia.
Qed.

(** The pool of another allocator state with the same pages. *)
Lemma heap_kern k mem ms pm vm ar mal L s' n mal' :
  heap_at k mem ms pm vm ar mal L → maps_inv s' (<[_malloc_avail_mem := mal']> ms) → lay_grows n (k_lay k) (lay s') →
  kinv KERNEL_VMA (put_alloc s' k) (<[_malloc_avail_mem := mal']> ms) pm vm ar.
Proof.
  intros [Hk _ _ _ _ _ _ _ _] Hm Hg. eapply kinv_put_alloc; [exact Hk|exact Hm|exact Hg|..]; try apply Hk.
  - rewrite lookup_insert_ne by done. apply Hk.
  - rewrite lookup_insert_ne by done. apply Hk.
  - intros a sz x f Ha Hx. by eapply kinv_area_not_free.
Qed.

(** A byte of the last word of a block in use is not part of a block that starts at a multiple of four. *)
Lemma tail_not_taken (mal : list allocator_region) a n b sz x :
  tail_free mal a n → (∀ y, a ≤ y < a + n → ¬ covers mal y 0) → 0 < n →
  (4 | b) → (∀ y, b ≤ y < b + sz → covers mal y 0) → a + n ≤ x → x / 4 = (a + n - 1) / 4 → ¬ b ≤ x < b + sz.
Proof.
  clear fresh_ar fresh_vr. intros Ht Hl Hn [q ->] Hb Hx Hw Hin. apply (Hl (a + n - 1)); [lia|]. apply Hb.
  Z.to_euclidean_division_equations. lia.
Qed.

Definition taken (mal mal' : list allocator_region) (a sz : Z) : Prop :=
  (4 | a) ∧ 0 < a ∧ a + sz ≤ W32 ∧ (∀ x, a ≤ x < a + sz → covers mal x 0) ∧
  ∀ x f, covers mal' x f ↔ covers mal x f ∧ ¬ a ≤ x < a + sz.

Lemma pool_take k mem ms pm vm ar mal L sz :
  heap_at k mem ms pm vm ar mal L → 0 < sz → room 46 k →
  ∃ r k' ms' mal', on_alloc (allocator_mem_alloc fresh_ar _malloc_avail_mem sz 0 0) k = Ret r k' ∧
    heap_at k' mem ms' pm vm ar mal' L ∧ lay_grows 46 (k_lay k) (k_lay k') ∧ k_pg k' = k_pg k ∧
    match r with Some a => taken mal mal' a sz | None => mal' = mal end.
Proof.
  clear fresh_vr. intros H Hsz Hroom. pose proof H as [Hk Hp Hw Hc Hf Hm Hwd Hb Hd].
  destruct (mem_alloc_maps fresh_ar (alloc_view k) ms _malloc_avail_mem mal sz 0 0)
    as (r & s' & mal' & E & Hmi & Hw' & Hc' & Ho & Hg & _); [apply Hk|done|done|exact pow2_4|done|by eapply pool_no_underflow|exact Hroom|].
  exists r, (put_alloc s' k), (<[_malloc_avail_mem := mal']> ms), mal'. split; [by apply on_alloc_ok|].
  assert (Hk' : kinv KERNEL_VMA (put_alloc s' k) (<[_malloc_avail_mem := mal']> ms) pm vm ar)
    by (eapply heap_kern; [exact H|exact Hmi|exact Hg]).
  assert (Ht : match r with Some a => taken mal mal' a sz | None => mal' = mal end).
  { destruct r as [a|]; [|by destruct Ho]. destruct Ho as (H4 & Ha & He & (f & _ & Hcov) & Hcov').
    split; [done|]. split; [done|]. split; [done|]. split; [|done]. intros x Hx. specialize (Hcov x Hx). by rewrite <- (Hf x f Hcov). }
  split; [|split; [exact Hg|split; [done|exact Ht]]].
  assert (Htr : ∀ x, current_translate KERNEL_VMA (put_alloc s' k) x = current_translate KERNEL_VMA k x) by (intros x; by apply same_translate).
  destruct r as [a|].
  - destruct Ht as ([q Hq] & Ha & He & Hcov & Hcov'). split; try done.
    + by rewrite lookup_insert_eq.
    + auto.
    + intros x f [Hx _]%Hcov'. eauto.
    + intros x [Hx _]%Hcov'. rewrite Htr. auto.
    + intros x [Hx Hn]%Hcov' Hm4. apply Hcov'. split; [auto|]. intros Hin. apply Hn.
      assert (x + 1 ≠ a) by (intros Hxa; apply Hm4; rewrite Hxa, Hq; by apply Z.mod_mul). lia.
    + intros b n Lb. destruct (Hb b n Lb) as (H1 & H2 & H3 & H4). split; [done|]. split; [|split; [|done]].
      * intros x Hx. rewrite Htr. destruct (H2 x Hx) as [? Hn]. split; [done|]. intros [Hx' _]%Hcov'. done.
      * intros x Hx Hx4. apply Hcov'. split; [auto|]. unfold sizeof_kmalloc_block in H1.
        apply (tail_not_taken mal b n); [done|intros y Hy; by apply H2|lia|by exists q|done|done|done].
  - subst mal'. split; try done. by rewrite lookup_insert_eq.
Qed.

(** A range goes back to the pool. *)
Lemma pool_give k mem ms pm vm ar mal L a sz :
  heap_at k mem ms pm vm ar mal L → 0 < a → 0 < sz → a + sz ≤ W32 → room 23 k →
  (∀ x, a ≤ x < a + sz → is_Some (current_translate KERNEL_VMA k x) ∧ ¬ covers mal x 0) →
  tail_free mal a sz → (∀ b n x, L !! b = Some n → b ≤ x < b + n → ¬ a ≤ x < a + sz) →
  ∃ k' ms' mal', on_alloc (allocator_mem_free fresh_ar _malloc_avail_mem a sz 0) k = Ret tt k' ∧
    heap_at k' mem ms' pm vm ar mal' L ∧ lay_grows 23 (k_lay k) (k_lay k') ∧ k_pg k' = k_pg k ∧
    ∀ x f, covers mal' x f ↔ covers mal x f ∨ (f = 0 ∧ a ≤ x < a + sz).
Proof.
  clear fresh_vr. intros H Ha Hs He Hroom Hin Ht HL. pose proof H as [Hk Hp Hw Hc Hf Hm Hwd Hb Hd].
  destruct (mem_free_maps fresh_ar (alloc_view k) ms _malloc_avail_mem mal a sz 0)
    as (s' & mal' & E & Hmi & Hw' & Hc' & Hcov & Hg & _); [apply Hk|done|done|exact Hroom|done|done|done| |].
  { intros x f Hx Hxin. pose proof (Hf x f Hx) as ->. by destruct (Hin x Hxin). }
  exists (put_alloc s' k), (<[_malloc_avail_mem := mal']> ms), mal'. split; [by apply on_alloc_ok|].
  split; [|split; [exact Hg|split; [done|exact Hcov]]].
  assert (Htr : ∀ x, current_translate KERNEL_VMA (put_alloc s' k) x = current_translate KERNEL_VMA k x) by (intros x; by apply same_translate).
  split; try done.
  - eapply heap_kern; [exact H|exact Hmi|exact Hg].
  - by rewrite lookup_insert_eq.
  - auto.
  - intros x f [Hx|[-> _]]%Hcov; [eauto|done].
  - intros x [Hx|[_ Hx]]%Hcov; rewrite Htr; [auto|by apply Hin].
  - intros x [Hx|[_ Hx]]%Hcov Hm4; apply Hcov; [by left; auto|].
    destruct (decide (x + 1 < a + sz)); [right; split; [done|lia]|left]. apply Ht; [lia|].
    assert (x + 1 = a + sz) as <- by lia. Z.to_euclidean_division_equations. lia.
  - intros b n Lb. destruct (Hb b n Lb) as (H1 & H2 & H3 & H4). split; [done|]. split; [|split; [|done]].
    + intros x Hx. rewrite Htr. destruct (H2 x Hx) as [? Hn]. split; [done|]. intros [?|[_ ?]]%Hcov; [done|]. by eapply HL.
    + intros x Hx Hx4. apply Hcov. left. auto.
Qed.

Definition pages (sz : Z) : Z := (sz + PAGE_SIZE - 1) / PAGE_SIZE.

(** [kmem_alloc] of whole pages, or failure; the pool and the blocks stay. *)
Lemma pool_grow k mem ms pm vm ar mal L bs (n := pages bs) :
  heap_at k mem ms pm vm ar mal L → 0 < bs ≤ W32 - PAGE_SIZE → room (88 + n * page_cost) k →
  ∃ a k' ms' pm' vm' ar', kmem_alloc KERNEL_VMA fresh_ar fresh_vr (KMEM_PAGE_ALIGN bs) k = Ret a k' ∧
    heap_at k' mem ms' pm' vm' ar' mal L ∧ lay_grows (88 + n * page_cost) (k_lay k) (k_lay k') ∧
    KMEM_PAGE_ALIGN bs = n * PAGE_SIZE ∧ 0 < n ∧
    (a = 0 ∨ (0 < a ∧ (PAGE_SIZE | a) ∧ a + n * PAGE_SIZE ≤ W32 ∧
      ∀ x, a ≤ x < a + n * PAGE_SIZE → is_Some (current_translate KERNEL_VMA k' x) ∧ current_translate KERNEL_VMA k x = None)).
Proof.
  intros H Hbs Hroom. pose proof H as [Hk Hp Hw Hc Hf Hm Hwd Hb Hd].
  destruct (page_align_pages bs) as (Hal & Hn & Hlt); [lia..|]. fold (pages bs) in Hal, Hn. fold n in Hal, Hn. rewrite Hal in Hlt |- *.
  assert (Hnn : (n * PAGE_SIZE + PAGE_SIZE - 1) / PAGE_SIZE = n).
  { clear -Hn. unfold PAGE_SIZE. Z.to_euclidean_division_equations. lia. }
  destruct (kmem_alloc_spec KERNEL_VMA fresh_ar fresh_vr k ms pm vm ar (n * PAGE_SIZE)) as
    (a & k' & ms' & pm' & vm' & ar' & ps & E & Hk' & Hg & Hot & _ & Hout); [done|unfold PAGE_SIZE; lia| |by rewrite Hnn|].
  { clear -Hlt. unfold PAGE_SIZE in *. lia. }
  rewrite Hnn in *. exists a, k', ms', pm', vm', ar'. split; [done|].
  assert (Hkeep : ∀ x, 0 ≤ x < W32 → is_Some (current_translate KERNEL_VMA k x) → is_Some (current_translate KERNEL_VMA k' x)).
  { intros x Hx Hs. destruct Hout as [(Ht & Hl & Hwi)|(_ & _ & _ & Hsame)]; [|by rewrite Hsame]. rewrite Hwi by done.
    rewrite Hl. destruct (decide _) as [Hin|]; [|done]. apply fmap_is_Some, lookup_lt_is_Some.
    clear -Hin Hl. unfold PAGE_SIZE in *. Z.to_euclidean_division_equations. lia. }
  split; [|split; [done|split; [done|split; [done|]]]].
  - split; try done.
    + rewrite Hot by done. done.
    + intros x Hx. apply Hkeep; [by eapply covers_bounds|auto].
    + intros b m Lb. destruct (Hb b m Lb) as (H1 & H2 & H3 & H4). split; [done|]. split; [|done].
      intros x Hx. destruct (H2 x Hx) as [? ?]. split; [|done]. apply Hkeep; [lia|done].
  - destruct Hout as [((Ha & Had & Hae & Hfree & _) & Hl & Hwi)|(-> & _)]; [right|by left].
    split; [done|]. split; [done|]. split; [done|]. intros x Hx. split.
    + rewrite Hwi by lia. rewrite Hl, decide_True by done. apply fmap_is_Some, lookup_lt_is_Some.
      clear -Hx Hl. unfold PAGE_SIZE in *. Z.to_euclidean_division_equations. lia.
    + apply current_unmapped. apply Hk. by apply Hfree.
Qed.

Lemma words_tail k mem ms pm vm ar mal L x y :
  heap_at k mem ms pm vm ar mal L → covers mal y 0 → y ≤ x → x / 4 = y / 4 → covers mal x 0.
Proof.
  clear fresh_ar fresh_vr. intros H Hy Hle Hw.
  assert (Hs : ∀ z, covers mal z 0 → (z + 1) / 4 = z / 4 → covers mal (z + 1) 0).
  { intros z Hz Hz4. apply (ha_words _ _ _ _ _ _ _ _ H); [done|]. Z.to_euclidean_division_equations. lia. }
  assert (x = y ∨ x = y + 1 ∨ x = y + 1 + 1 ∨ x = y + 1 + 1 + 1) as Hx by (Z.to_euclidean_division_equations; lia).
  destruct Hx as [-> | [-> | [-> | ->]]]; repeat (apply Hs; [|Z.to_euclidean_division_equations; lia]); done.
Qed.

(** A block that is neither in the pool nor in use yet. *)
Record fresh_block k (mal : list allocator_region) (L : gmap Z Z) (a n : Z) : Prop := {
  fb_aligned : (4 | a);
  fb_low : 0 < a;
  fb_high : a + n ≤ W32;
  fb_bytes : ∀ x, a ≤ x < a + n → is_Some (current_translate KERNEL_VMA k x) ∧ ¬ covers mal x 0;
  fb_tail : tail_free mal a n;
  fb_apart : ∀ b m x, L !! b = Some m → b ≤ x < b + m → ¬ a ≤ x < a + n
}.

Lemma taken_fresh k mem ms pm vm ar mal mal' L a n k' :
  heap_at k mem ms pm vm ar mal L → taken mal mal' a n → 0 < n → k_pg k' = k_pg k → fresh_block k' mal' L a n.
Proof.
  clear fresh_ar fresh_vr. intros H (H4 & Ha & He & Hcov & Hcov') Hn Hpg. split; [done..| | |].
  - intros x Hx. rewrite (same_translate KERNEL_VMA k k' x Hpg). split; [apply H; auto|]. intros [_ []]%Hcov'. done.
  - intros x Hx Hw. apply Hcov'. split; [|lia]. apply (words_tail k mem ms pm vm ar mal L x (a + n - 1) H); [apply Hcov; lia|lia|exact Hw].
  - intros b m x Lb Hx Hin. destruct (ha_block _ _ _ _ _ _ _ _ H b m Lb) as (_ & Hbx & _). destruct (Hbx x Hx) as [_ []]. auto.
Qed.

Definition malloc_cost (bs : Z) : Z := 203 + pages bs * page_cost.

Lemma find_block_spec s ms pm vm ar mal L bs :
  heap_at (m_kern s) (m_mem s) ms pm vm ar mal L → 0 < bs ≤ W32 - PAGE_SIZE → room (malloc_cost bs) (m_kern s) →
  ∃ r k' ms' pm' vm' ar' mal', find_block bs s = Ret r (set_kern k' s) ∧
    heap_at k' (m_mem s) ms' pm' vm' ar' mal' L ∧ lay_grows (malloc_cost bs) (k_lay (m_kern s)) (k_lay k') ∧
    match r with Some a => fresh_block k' mal' L a bs | None => True end.
Proof.
  intros H Hbs Hroom. assert (0 < pages bs * page_cost).
  { unfold pages, page_cost, PAGE_SIZE. clear -Hbs. Z.to_euclidean_division_equations. lia. }
  unfold find_block. destruct (pool_take (m_kern s) (m_mem s) ms pm vm ar mal L bs H) as (r & k1 & ms1 & mal1 & E1 & H1 & Hg1 & Hp1 & Ht1);
    [lia|eapply room_mono; [|exact Hroom]; unfold malloc_cost; lia|].
  assert (Z1 : on_pool (allocator_mem_alloc fresh_ar _malloc_avail_mem bs 0 0) s = Ret r (set_kern k1 s))
    by (rewrite <- (set_kern_id s) at 1; by apply on_kern_ok).
  step Z1. destruct r as [a|].
  { exists (Some a), k1, ms1, pm, vm, ar, mal1. split; [done|]. split; [done|]. split; [unfold lay_grows, malloc_cost in *; lia|].
    eapply taken_fresh; [exact H|done|lia|done]. }
  subst mal1. cbv zeta.
  assert (Hr1 : room (88 + pages bs * page_cost + 69) k1).
  { eapply room_grows; [exact Hg1|]. eapply room_mono; [|exact Hroom]. unfold malloc_cost. lia. }
  destruct (pool_grow k1 (m_mem s) ms1 pm vm ar mal L bs H1 Hbs) as
    (a & k2 & ms2 & pm2 & vm2 & ar2 & E2 & H2 & Hg2 & Hal & Hn & Hout); [by eapply room_mono; [|exact Hr1]; lia|].
  assert (Z2 : on_kern (kmem_alloc KERNEL_VMA fresh_ar fresh_vr (KMEM_PAGE_ALIGN bs)) (set_kern k1 s) = Ret a (set_kern k2 s))
    by (by apply on_kern_ok).
  step Z2. rewrite Hal. destruct Hout as [->|(Ha & Had & Hae & Hin)].
  { exists None, k2, ms2, pm2, vm2, ar2, mal. split; [done|]. split; [done|]. split; [unfold lay_grows, malloc_cost in *; lia|done]. }
  rewrite (proj2 (Z.eqb_neq a 0)) by lia. cbn [negb].
  assert (Hr2 : room 69 k2) by (eapply room_grows; [exact Hg2|exact Hr1]).
  assert (Hps : 0 < pages bs * PAGE_SIZE) by (unfold PAGE_SIZE; lia).
  destruct (pool_give k2 (m_mem s) ms2 pm2 vm2 ar2 mal L a (pages bs * PAGE_SIZE) H2) as (k3 & ms3 & mal3 & E3 & H3 & Hg3 & Hp3 & Hcov3);
    [done|done|done|by eapply room_mono; [|exact Hr2]; lia| | | |].
  { intros x Hx. destruct (Hin x Hx) as [? Hnone]. split; [done|]. intros Hc. apply (ha_mapped _ _ _ _ _ _ _ _ H1) in Hc. by rewrite Hnone in Hc; destruct Hc. }
  { intros x Hx Hw. exfalso. destruct Had as [q ->]. clear -Hx Hw. unfold PAGE_SIZE in *. Z.to_euclidean_division_equations. lia. }
  { intros b m x Lb Hx Hax. destruct (ha_block _ _ _ _ _ _ _ _ H1 b m Lb) as (_ & Hbx & _). destruct (Hbx x Hx) as [[? Hs] _].
    destruct (Hin x Hax) as [_ Hnone]. congruence. }
  assert (Z3 : on_pool (allocator_mem_free fresh_ar _malloc_avail_mem a (pages bs * PAGE_SIZE) 0) (set_kern k2 s) = Ret tt (set_kern k3 s))
    by (by apply on_kern_ok).
  step Z3. assert (Hr3 : room 46 k3) by (eapply (room_grows 23); [exact Hg3|exact Hr2]).
  destruct (pool_take k3 (m_mem s) ms3 pm2 vm2 ar2 mal3 L bs H3) as (r & k4 & ms4 & mal4 & E4 & H4 & Hg4 & Hp4 & Ht4); [lia|done|].
  assert (Z4 : on_pool (allocator_mem_alloc fresh_ar _malloc_avail_mem bs 0 0) (set_kern k3 s) = Ret r (set_kern k4 s))
    by (by apply on_kern_ok).
  exists r, k4, ms4, pm2, vm2, ar2, mal4. split; [exact Z4|]. split; [done|]. split; [unfold lay_grows, malloc_cost in *; lia|].
  destruct r as [b|]; [|done]. eapply taken_fresh; [exact H3|done|lia|done].
Qed.

(** ** Headers *)

Definition put_word (p w : Z) (mem : Z → Z) : Z → Z :=
  <[p + 3 := u8 (Z.shiftr w 24)]> (<[p + 2 := u8 (Z.shiftr w 16)]> (<[p + 1 := u8 (Z.shiftr w 8)]> (<[p := u8 w]> mem))).

Lemma put_word_other p w mem x : ¬ p ≤ x < p + 4 → put_word p w mem x = mem x.
Proof. clear. intros Hx. unfold put_word. rewrite !fn_lookup_insert_ne by lia. done. Qed.

Lemma word_at_put_u32 p w mem : word_at (put_word p w mem) p = u32 w.
Proof.
  clear. unfold word_at, put_word.
  rewrite (fn_lookup_insert_ne _ (p + 3) p), (fn_lookup_insert_ne _ (p + 2) p), (fn_lookup_insert_ne _ (p + 1) p), fn_lookup_insert by lia.
  rewrite (fn_lookup_insert_ne _ (p + 3) (p + 1)), (fn_lookup_insert_ne _ (p + 2) (p + 1)), fn_lookup_insert by lia.
  rewrite (fn_lookup_insert_ne _ (p + 3) (p + 2)), fn_lookup_insert, fn_lookup_insert by lia.
  unfold u8, u32. rewrite !Z.shiftr_div_pow2, !Z.shiftl_mul_pow2 by lia. Z.to_euclidean_division_equations. lia.
Qed.

Lemma word_at_put p w mem : 0 ≤ w < W32 → word_at (put_word p w mem) p = w.
Proof. clear. intros Hw. by rewrite word_at_put_u32, u32_small. Qed.

Lemma word_at_ext mem mem' p : (∀ x, p ≤ x < p + 4 → mem' x = mem x) → word_at mem' p = word_at mem p.
Proof. clear. intros H. unfold word_at. by rewrite !H by lia. Qed.

Lemma vstore8_ok p b s : is_Some (current_translate KERNEL_VMA (m_kern s) p) → vstore8 p b s = Ret tt (set_mem (<[p := b]> (m_mem s)) s).
Proof. intros [q E]. unfold vstore8. by rewrite E. Qed.

Lemma vstore32_ok p w s :
  0 ≤ p → p + 4 ≤ W32 → (∀ x, p ≤ x < p + 4 → is_Some (current_translate KERNEL_VMA (m_kern s) x)) →
  vstore32 p w s = Ret tt (set_mem (put_word p w (m_mem s)) s).
Proof.
  clear fresh_ar fresh_vr. intros Hp He Hm. unfold vstore32. rewrite !u32_small by lia.
  step (vstore8_ok p (u8 w) s ltac:(apply Hm; lia)). set (s1 := set_mem _ s).
  step (vstore8_ok (p + 1) (u8 (Z.shiftr w 8)) s1 ltac:(apply Hm; lia)). set (s2 := set_mem _ s1).
  step (vstore8_ok (p + 2) (u8 (Z.shiftr w 16)) s2 ltac:(apply Hm; lia)). set (s3 := set_mem _ s2).
  rewrite (vstore8_ok (p + 3) (u8 (Z.shiftr w 24)) s3 ltac:(apply Hm; lia)). done.
Qed.

Lemma vload8_ok p s : is_Some (current_translate KERNEL_VMA (m_kern s) p) → vload8 p s = Ret (m_mem s p) s.
Proof. intros [q E]. unfold vload8. by rewrite E. Qed.

Lemma vload32_ok p s :
  0 ≤ p → p + 4 ≤ W32 → (∀ x, p ≤ x < p + 4 → is_Some (current_translate KERNEL_VMA (m_kern s) x)) →
  vload32 p s = Ret (word_at (m_mem s) p) s.
Proof.
  clear fresh_ar fresh_vr. intros Hp He Hm. unfold vload32. rewrite !u32_small by lia.
  step (vload8_ok p s ltac:(apply Hm; lia)). step (vload8_ok (p + 1) s ltac:(apply Hm; lia)).
  step (vload8_ok (p + 2) s ltac:(apply Hm; lia)). by step (vload8_ok (p + 3) s ltac:(apply Hm; lia)).
Qed.

(** The block is in use once its header is written. *)
Lemma heap_insert k mem mem' ms pm vm ar mal L a n :
  heap_at k mem ms pm vm ar mal L → fresh_block k mal L a n → sizeof_kmalloc_block ≤ n → word_at mem' a = n →
  (∀ x, ¬ a ≤ x < a + n → mem' x = mem x) → heap_at k mem' ms pm vm ar mal (<[a := n]> L).
Proof.
  clear fresh_ar fresh_vr. intros [Hk Hp Hw Hc Hf Hm Hwd Hb Hd] [F4 F0 Fh Fb Ft Fa] Hn Ha Hmem.
  unfold sizeof_kmalloc_block in *. split; try done.
  - intros b m [[<- <-]|[Hne Lb]]%lookup_insert_Some; [done|]. destruct (Hb b m Lb) as (H1 & H2 & H3 & H4).
    split; [done|]. split; [done|]. split; [done|]. rewrite <- H4. apply word_at_ext. intros x Hx. apply Hmem.
    intros Hax. apply (Fa b m x Lb); [lia|done].
  - intros b m c m' x [[<- <-]|[Hb' Lb]]%lookup_insert_Some [[<- <-]|[Hc' Lc]]%lookup_insert_Some Hne Hx; [done| | |exact (Hd b m c m' x Lb Lc Hne Hx)].
    + intros Hcx. by apply (Fa c m' x Lc).
    + by apply (Fa b m x Lb).
Qed.

Lemma heap_delete k mem ms pm vm ar mal L a : heap_at k mem ms pm vm ar mal L → heap_at k mem ms pm vm ar mal (delete a L).
Proof.
  intros [Hk Hp Hw Hc Hf Hm Hwd Hb Hd]. split; try done.
  - intros b n [_ Lb]%lookup_delete_Some. auto.
  - intros b n c n' x [_ Lb]%lookup_delete_Some [_ Lc]%lookup_delete_Some. by apply Hd.
Qed.

(** ** The heap as its users see it *)

Definition heap_inv (s : mstate) (L : gmap Z Z) : Prop :=
  (∃ ms pm vm ar mal, heap_at (m_kern s) (m_mem s) ms pm vm ar mal L) ∧
  _malloc_lock s = Spinlock 0 0 ∧ flags_word s ∧ m_tid s ≠ 0.

(** Only the kernel memory and the contents of memory differ. *)
Definition same_cpu (s s' : mstate) : Prop :=
  _malloc_lock s' = _malloc_lock s ∧ m_eflags s' = m_eflags s ∧ m_tid s' = m_tid s.

(** The new block [p - 8] of [size] bytes of data. *)
Record new_block (s s' : mstate) (L : gmap Z Z) (p size : Z) : Prop := {
  nb_aligned : (4 | p);
  nb_low : sizeof_kmalloc_block < p;
  nb_high : p + size ≤ W32;
  nb_fresh : ∀ b n x, L !! b = Some n → b ≤ x < b + n → ¬ p - sizeof_kmalloc_block ≤ x < p + size;
  nb_mapped : ∀ x, p ≤ x < p + size → is_Some (current_translate KERNEL_VMA (m_kern s') x);
  nb_memory : ∀ x, ¬ p - sizeof_kmalloc_block ≤ x < p → m_mem s' x = m_mem s x
}.

Lemma kmalloc_body_spec s ms pm vm ar mal L size :
  heap_at (m_kern s) (m_mem s) ms pm vm ar mal L → 0 < size → size + sizeof_kmalloc_block ≤ W32 - PAGE_SIZE →
  room (malloc_cost (size + sizeof_kmalloc_block)) (m_kern s) →
  ∃ p s' ms' pm' vm' ar' mal' L', kmalloc_body size s = Ret p s' ∧ same_cpu s s' ∧
    heap_at (m_kern s') (m_mem s') ms' pm' vm' ar' mal' L' ∧
    lay_grows (malloc_cost (size + sizeof_kmalloc_block)) (k_lay (m_kern s)) (k_lay (m_kern s')) ∧
    ((p = 0 ∧ L' = L ∧ m_mem s' = m_mem s) ∨
     (L' = <[p - sizeof_kmalloc_block := size + sizeof_kmalloc_block]> L ∧ new_block s s' L p size)).
Proof.
  intros H Hs He Hroom. unfold kmalloc_body, sizeof_kmalloc_block in *. rewrite (u32_small (8 + size)), (Z.add_comm 8 size) by (unfold PAGE_SIZE in *; lia).
  set (bs := size + 8) in *. assert (Hbs : 8 ≤ bs ≤ W32 - PAGE_SIZE) by lia. assert (Hbw : bs < W32) by (unfold PAGE_SIZE in *; lia).
  destruct (find_block_spec s ms pm vm ar mal L bs H) as (r & k' & ms' & pm' & vm' & ar' & mal' & E & H' & Hg & Hr); [lia|done|].
  step E. destruct r as [a|].
  2: { exists 0, (set_kern k' s), ms', pm', vm', ar', mal', L. split; [done|]. split; [done|]. split; [exact H'|]. split; [exact Hg|by left]. }
  pose proof Hr as [F4 F0 Fh Fb Ft Fa]. set (s1 := set_kern k' s) in *.
  assert (Hw1 : vstore32 a bs s1 = Ret tt (set_mem (put_word a bs (m_mem s1)) s1)).
  { apply vstore32_ok; [lia|lia|]. intros x Hx. apply Fb. lia. }
  step Hw1. set (s2 := set_mem _ s1). rewrite (u32_small (a + 4)) by lia.
  assert (Hw2 : vstore32 (a + 4) size s2 = Ret tt (set_mem (put_word (a + 4) size (m_mem s2)) s2)).
  { apply vstore32_ok; [lia|lia|]. intros x Hx. apply Fb. lia. }
  step Hw2. set (s3 := set_mem _ s2). rewrite (u32_small (a + 8)) by lia.
  exists (a + 8), s3, ms', pm', vm', ar', mal', (<[a := bs]> L). split; [done|]. split; [done|].
  assert (Hmem : ∀ x, ¬ a ≤ x < a + 8 → m_mem s3 x = m_mem s x).
  { intros x Hx. unfold s3, s2. cbn [m_mem set_mem]. rewrite put_word_other, put_word_other by lia. done. }
  split.
  { apply (heap_insert k' (m_mem s)); [done|done|unfold sizeof_kmalloc_block; lia| |].
    - unfold s3, s2. cbn [m_mem set_mem]. rewrite (word_at_ext (put_word a bs (m_mem s1))); [by apply word_at_put; lia|].
      intros x Hx. apply put_word_other. lia.
    - intros x Hx. apply Hmem. lia. }
  split; [exact Hg|]. right. replace (a + 8 - 8) with a by lia. split; [done|]. split; unfold sizeof_kmalloc_block.
  - apply Z.divide_add_r; [done|by exists 2].
  - lia.
  - lia.
  - intros b n x Lb Hx. replace (a + 8 - 8) with a by lia. replace (a + 8 + size) with (a + bs) by lia. by eapply Fa.
  - intros x Hx. apply Fb. lia.
  - intros x Hx. apply Hmem. lia.
Qed.

Lemma kfree_body_spec s ms pm vm ar mal L p n :
  heap_at (m_kern s) (m_mem s) ms pm vm ar mal L → p < W32 → L !! (p - sizeof_kmalloc_block) = Some n → room 23 (m_kern s) →
  ∃ k' ms' mal', kfree_body p s = Ret tt (set_kern k' s) ∧
    heap_at k' (m_mem s) ms' pm vm ar mal' (delete (p - sizeof_kmalloc_block) L) ∧ lay_grows 23 (k_lay (m_kern s)) (k_lay k').
Proof.
  intros H Hp HL Hroom. destruct (ha_block _ _ _ _ _ _ _ _ H _ _ HL) as ((Ha & Ha4 & Hn & He) & Hx & Ht & Hw).
  unfold kfree_body, sizeof_kmalloc_block, NULL in *. rewrite (proj2 (Z.eqb_neq p 0)) by lia. cbn [negb].
  rewrite (u32_small (p - 8)) by lia. set (b := p - 8) in *.
  assert (E1 : vload32 b s = Ret n s) by (rewrite <- Hw; apply vload32_ok; [lia..|]; intros x Hb; apply Hx; lia).
  step E1. destruct (pool_give (m_kern s) (m_mem s) ms pm vm ar mal (delete b L) b n) as (k' & ms' & mal' & E & H' & Hg & _ & _).
  - by apply heap_delete.
  - lia.
  - lia.
  - done.
  - done.
  - done.
  - done.
  - intros c m x [Hne Lc]%lookup_delete_Some Hc. by apply (ha_disjoint _ _ _ _ _ _ _ _ H c m b n).
  - exists k', ms', mal'. split; [|by split]. rewrite <- (set_kern_id s) at 1. by apply on_kern_ok.
Qed.

(** The state between taking the malloc lock and giving it back. *)
Lemma malloc_entered s l : malloc_lock_in.(get_lock) s = Some (Spinlock 0 0) →
  m_kern (entered malloc_lock_in l s) = m_kern s ∧ m_mem (entered malloc_lock_in l s) = m_mem s ∧ m_tid (entered malloc_lock_in l s) = m_tid s ∧
  _malloc_lock (entered malloc_lock_in l s) = l ∧ m_eflags (entered malloc_lock_in l s) = Z.clearbit (m_eflags s) flags_if_bit.
Proof. by destruct s. Qed.

Lemma map_init_maps {T} `{Region T} (s : rstate T) ms m :
  maps_inv s ms → maps_inv (set_maps (<[m := NULL]> (maps s)) s) (<[m := []]> ms).
Proof.
  clear. intros (pss & fl & Hp & Hms & Hd & Hdom). exists (<[m := []]> pss), fl. split; [done|]. split; [|split].
  - intros m' vs [[<- <-]|[Hne Hm]]%lookup_insert_Some.
    + exists []. split; [by rewrite lookup_insert_eq|]. split; [|split; [done|set_solver]].
      exists NULL. split; [apply lookup_insert_eq|]. split; [done|constructor].
    + destruct (Hms m' vs Hm) as (ps & Hps & (hd & Hhd & Hl) & Hi). exists ps. split; [by rewrite lookup_insert_ne|].
      split; [|done]. exists hd. split; [|done]. simpl. by rewrite lookup_insert_ne.
  - intros m1 m2 ps ps' x Hne [[<- <-]|[_ H1]]%lookup_insert_Some [[E2 <-]|[_ H2]]%lookup_insert_Some; [set_solver..|].
    by eapply Hd.
  - intros m'. rewrite !lookup_insert_is_Some. intros [->|[Hne Hm]]; [by left|right]. split; [done|]. by apply Hdom.
Qed.

(** [kmalloc_init] makes an empty heap. *)
Lemma kmalloc_init_spec s ms pm vm ar :
  kinv KERNEL_VMA (m_kern s) ms pm vm ar →
  ∃ s', kmalloc_init s = Ret tt s' ∧ heap_at (m_kern s') (m_mem s') (<[_malloc_avail_mem := []]> ms) pm vm ar [] ∅ ∧
    _malloc_lock s' = Spinlock 0 0 ∧ m_eflags s' = m_eflags s ∧ m_tid s' = m_tid s ∧ k_lay (m_kern s') = k_lay (m_kern s).
Proof.
  intros Hk. eexists. split; [reflexivity|]. split; [|done].
  assert (Hnone : ∀ x f, ¬ covers ([] : list allocator_region) x f) by (intros x f; apply covers_nil).
  split; try done.
  - cbn [m_kern set_mlock set_kern]. eapply (kinv_put_alloc _ _ ms pm vm); [exact Hk|apply map_init_maps; apply Hk|by apply (lay_grows_refl 0)|..]; try apply Hk.
    + rewrite lookup_insert_ne by done. apply Hk.
    + rewrite lookup_insert_ne by done. apply Hk.
    + intros a sz x f Ha Hx. by eapply kinv_area_not_free.
  - apply lookup_insert_eq.
  - intros x f Hx. by apply Hnone in Hx.
  - intros x Hx. by apply Hnone in Hx.
  - intros x Hx. by apply Hnone in Hx.
Qed.

(** The heap grew by a block [p] of [size] bytes, or is as it was and [p] is 0. *)
Definition allocated (s s' : mstate) (L : gmap Z Z) (p size : Z) : Prop :=
  (p = 0 ∧ heap_inv s' L ∧ m_mem s' = m_mem s) ∨
  (heap_inv s' (<[p - sizeof_kmalloc_block := size + sizeof_kmalloc_block]> L) ∧ new_block s s' L p size).

Lemma kmalloc_spec s L size :
  heap_inv s L → 0 < size → size + sizeof_kmalloc_block ≤ W32 - PAGE_SIZE →
  room (malloc_cost (size + sizeof_kmalloc_block)) (m_kern s) →
  ∃ p s', kmalloc size s = Ret p s' ∧ same_cpu s s' ∧ allocated s s' L p size ∧
    lay_grows (malloc_cost (size + sizeof_kmalloc_block)) (k_lay (m_kern s)) (k_lay (m_kern s')).
Proof.
  intros [(ms & pm & vm & ar & mal & H) (Hl & Hf & Ht)] Hs He Hroom.
  set (l := Spinlock (m_tid s) 1). set (s0 := entered malloc_lock_in l s).
  destruct (kmalloc_body_spec s0 ms pm vm ar mal L size H Hs He Hroom) as (p & s1 & ms' & pm' & vm' & ar' & mal' & L' & E & (Cl & Cf & Ct) & H' & Hg & Hout).
  exists p, (set_eflags (m_eflags s) (set_mlock (Spinlock 0 0) s1)). split; [|split; [by destruct s; simpl in *; subst|]].
  { refine (critical_ok malloc_lock_in s (kmalloc_body size) p s1 _ Hf Ht E _ Cf); [exact (f_equal Some Hl)|exact (f_equal Some Cl)]. }
  split; [|exact Hg]. assert (Hinv : heap_inv (set_eflags (m_eflags s) (set_mlock (Spinlock 0 0) s1)) L').
  { split; [by exists ms', pm', vm', ar', mal'|]. split; [done|]. split; [done|]. exact (eq_ind_r (λ t, t ≠ 0) Ht Ct). }
  destruct Hout as [(-> & -> & Hm)|[-> [? ? ? ? ? ?]]]; [by left|right]. by split.
Qed.

Lemma kfree_spec s L p n :
  heap_inv s L → p < W32 → L !! (p - sizeof_kmalloc_block) = Some n → room 23 (m_kern s) →
  ∃ s', kfree p s = Ret tt s' ∧ same_cpu s s' ∧ heap_inv s' (delete (p - sizeof_kmalloc_block) L) ∧ m_mem s' = m_mem s ∧
    lay_grows 23 (k_lay (m_kern s)) (k_lay (m_kern s')).
Proof.
  intros [(ms & pm & vm & ar & mal & H) (Hl & Hf & Ht)] Hp HL Hroom.
  set (l := Spinlock (m_tid s) 1). set (s0 := entered malloc_lock_in l s).
  destruct (kfree_body_spec s0 ms pm vm ar mal L p n H Hp HL Hroom) as (k' & ms' & mal' & E & H' & Hg).
  exists (set_eflags (m_eflags s) (set_mlock (Spinlock 0 0) (set_kern k' s0))). split; [|split; [by destruct s; simpl in *; subst|]].
  { refine (critical_unit_ok malloc_lock_in s (kfree_body p) (set_kern k' s0) _ Hf Ht E _ _); [exact (f_equal Some Hl)|done|done]. }
  split; [|done]. split; [by exists ms', pm, vm, ar, mal'|done].
Qed.

(** C19: for a size above 0 that with the 8 bytes of the header is at
    most 2^32 - 4096, and with room in the static memory for the structs that
    describe the memory: [kmalloc] returns 0 and leaves the heap as it was, or a
    block of the size asked for: aligned to four bytes, mapped by the page
    tables, disjoint from every block in use and from the free memory, its
    header holding its size.  No byte of memory but the header changes.  The
    lock is released and the interrupt flag restored either way.  (For a size
    from 2^32 - 8 on the sum wraps around, and the block is too small: see
    [kmalloc_wraps].) *)
Theorem kmalloc_correct s L size :
  heap_inv s L → 0 < size → size + sizeof_kmalloc_block ≤ W32 - PAGE_SIZE →
  room (malloc_cost (size + sizeof_kmalloc_block)) (m_kern s) →
  ∃ p s', kmalloc size s = Ret p s' ∧ same_cpu s s' ∧ allocated s s' L p size.
Proof. intros H Hs He Hr. destruct (kmalloc_spec s L size H Hs He Hr) as (p & s' & E & Hc & Ha & _). by exists p, s'. Qed.

(** C20: for a size above 0 that with its header is at most 2^32 - 4096, and
    with room in the static memory for the structs of both calls, a block that [kmalloc] returned can be given to [kfree], which
    takes it out of the blocks in use and changes no byte of memory; the blocks
    in use are then those from before the [kmalloc], with the same contents, and
    of all memory only the header of the block has changed. *)
Theorem kmalloc_kfree s L size p s1 :
  heap_inv s L → 0 < size → size + sizeof_kmalloc_block ≤ W32 - PAGE_SIZE →
  room (malloc_cost (size + sizeof_kmalloc_block) + 23) (m_kern s) → kmalloc size s = Ret p s1 → p ≠ 0 →
  ∃ s', kfree p s1 = Ret tt s' ∧ same_cpu s s' ∧ heap_inv s' L ∧ m_mem s' = m_mem s1 ∧
    (∀ x, ¬ p - sizeof_kmalloc_block ≤ x < p → m_mem s' x = m_mem s x) ∧
    ∀ b n x, L !! b = Some n → b ≤ x < b + n → m_mem s' x = m_mem s x.
Proof.
  intros H Hs He Hr E Hp. assert (Hr1 : room (malloc_cost (size + sizeof_kmalloc_block)) (m_kern s)) by (eapply room_mono; [|exact Hr]; lia).
  destruct (kmalloc_spec s L size H Hs He Hr1) as (p' & s1' & E' & Hc & Ha & Hg). rewrite E in E'. injection E' as <- <-.
  destruct Ha as [[? _]|[Hi N]]; [done|]. pose proof (nb_low _ _ _ _ _ N). pose proof (nb_high _ _ _ _ _ N).
  destruct (kfree_spec s1 _ p (size + sizeof_kmalloc_block) Hi) as (s' & E2 & Hc2 & Hi2 & Hm2 & _).
  - lia.
  - by rewrite lookup_insert_eq.
  - eapply room_grows; [exact Hg|exact Hr].
  - exists s'. split; [done|]. split; [destruct Hc as (?&?&?), Hc2 as (?&?&?); split_and!; congruence|].
    assert (Hno : L !! (p - sizeof_kmalloc_block) = None).
    { destruct (L !! _) as [n|] eqn:EL; [|done]. exfalso. destruct H as [(ms & pm & vm & ar & mal & Ha) _].
      destruct (ha_block _ _ _ _ _ _ _ _ Ha _ _ EL) as ((_ & _ & Hn & _) & _).
      unfold sizeof_kmalloc_block in *. apply (nb_fresh _ _ _ _ _ N _ _ (p - 8) EL); unfold sizeof_kmalloc_block; lia. }
    split; [by rewrite delete_insert_id in Hi2|]. split; [done|]. split; [intros x Hx; rewrite Hm2; by apply (nb_memory _ _ _ _ _ N)|].
    intros b n x Lb Hx. rewrite Hm2. apply (nb_memory _ _ _ _ _ N). intros Hbx. apply (nb_fresh _ _ _ _ _ N b n x Lb Hx). lia.
Qed.
End Malloc.

(** ** A concrete heap *)

#[local] Opaque ex_kernel.

Definition ex_cpu : mstate := MState ex_kernel (Spinlock 7 7) (λ _, 0) 514 1.
Definition ex_heap : mstate := match kmalloc_init ex_cpu with Ret _ s => s | _ => ex_cpu end.

Lemma ex_heap_inv : heap_inv ex_vma ex_heap ∅ ∧ k_lay (m_kern ex_heap) = k_lay ex_kernel.
Proof.
  destruct ex_kernel_inv as (ms & pm & vm & Hk & _).
  destruct (kmalloc_init_spec ex_vma ex_cpu ms pm vm [] Hk) as (s' & E & H & Hl & Hf & Ht & Hlay).
  assert (ex_heap = s') as -> by (unfold ex_heap; by rewrite E). split; [|done].
  split; [by exists (<[_malloc_avail_mem := []]> ms), pm, vm, [], []|]. split; [exact Hl|]. split.
  - unfold flags_word. simpl. rewrite Hf. change (m_eflags ex_cpu) with 514. lia.
  - rewrite Ht. change (m_tid ex_cpu) with 1. lia.
Qed.

Lemma ex_heap_room n : n ≤ 2000000 → room n (m_kern ex_heap).
Proof. intros Hn. unfold room. rewrite (proj2 ex_heap_inv). by apply ex_kernel_room. Qed.

#[local] Opaque ex_heap.

Lemma kmalloc_correct_witness :
  ∃ p s', kmalloc ex_vma ex_fresh ex_vfresh 100 ex_heap = Ret p s' ∧ same_cpu ex_heap s' ∧ allocated ex_vma ex_heap s' ∅ p 100.
Proof.
  apply (kmalloc_correct ex_vma ex_fresh ex_vfresh ex_heap ∅ 100); [apply ex_heap_inv|done|done|]. apply ex_heap_room. vm_compute. discriminate.
Defined.

(** Asked for 4 GB less four bytes, it hands out a block of four bytes, header
    included. *)
Example kmalloc_wraps :
  match kmalloc ex_vma ex_fresh ex_vfresh 4294967292 ex_heap with
  | Ret p s => (p =? 3225419784) && (word_at (m_mem s) (p - sizeof_kmalloc_block) =? 4)
  | _ => false
  end = true.
Proof. vm_compute. reflexivity. Qed.

Definition ex_alloc : result mstate Z := kmalloc ex_vma ex_fresh ex_vfresh 100 ex_heap.
Definition ex_heap1 : mstate := match ex_alloc with Ret _ s => s | _ => ex_heap end.
Lemma ex_alloc_eq : kmalloc ex_vma ex_fresh ex_vfresh 100 ex_heap = Ret 3225419784 ex_heap1.
Proof.
  assert (H : match ex_alloc with Ret a _ => a =? 3225419784 | _ => false end = true) by (vm_compute; reflexivity).
  unfold ex_heap1. fold ex_alloc. destruct ex_alloc as [a s| | |]; [|done..]. by apply Z.eqb_eq in H as ->.
Qed.

#[local] Opaque ex_heap1.

Lemma kmalloc_kfree_witness :
  ∃ s', kfree ex_vma ex_fresh 3225419784 ex_heap1 = Ret tt s' ∧ same_cpu ex_heap s' ∧ heap_inv ex_vma s' ∅.
Proof.
  destruct (kmalloc_kfree ex_vma ex_fresh ex_vfresh ex_heap ∅ 100 3225419784 ex_heap1) as (s' & E & Hc & Hi & _);
    [apply ex_heap_inv|done|done| |exact ex_alloc_eq|done|].
  - apply ex_heap_room. vm_compute. discriminate.
  - exists s'. exact (conj E (conj Hc Hi)).
Defined.
