(* ===== verification/Kheap.v ===== *)
(** * The kernel heap as its clients see it

    Code that allocates structs calls [kmalloc] and [kfree] and relies on
    little of what they do: a block is null or is disjoint from the blocks in
    use, and the interrupt flag and the running thread do not change.  Code that
    writes to memory outside of its blocks does no harm to the heap as long as
    what it writes to is free memory of the heap.  The class [Kheap] states
    that interface, and malloc.c implements it. *)

From stdpp Require Import base numbers list gmap strings fin_maps.
From S2P Require Import Prelude UtList MemUtil Range RangeSpec RangeRefine Allocator VmMap Paging Kmem Registers Sync Malloc.

(** [k_live n h L]: the blocks in use are [L], by address and size, and [n]
    more calls stay within the memory for bookkeeping.  [k_store32] stores a
    word, [k_word] is the word at an address, and [k_spare h x] says that the
    byte at [x] is free memory of the heap. *)
Class Kheap (H : Type) := {
  k_alloc : Z → M H Z;
  k_free : Z → M H unit;
  k_store32 : Z → Z → M H unit;
  k_live : nat → H → gmap Z Z → Prop;
  k_word : H → Z → Z;
  k_spare : H → Z → Prop
}.

(** The largest block the clients allocate, a stack. *)
Definition max_block : Z := 4096.

Class KheapLaws (H : Type) `{Cpu H, Kheap H} := {
  k_alloc_ok : ∀ n (h : H) L sz, k_live (S n) h L → 0 < sz ≤ max_block →
    ∃ p h', k_alloc sz h = Ret p h' ∧ eflags h' = eflags h ∧ current_tid h' = current_tid h ∧
      ((p = NULL ∧ k_live n h' L) ∨ (p ≠ NULL ∧ L !! p = None ∧ k_live n h' (<[p := sz]> L)));
  k_free_ok : ∀ n (h : H) L p sz, k_live (S n) h L → L !! p = Some sz →
    ∃ h', k_free p h = Ret tt h' ∧ eflags h' = eflags h ∧ current_tid h' = current_tid h ∧ k_live n h' (delete p L);
  k_store_ok : ∀ n (h : H) L a w, k_live n h L → (∀ x, a ≤ x < a + 4 → k_spare h x) →
    ∃ h', k_store32 a w h = Ret tt h' ∧ eflags h' = eflags h ∧ current_tid h' = current_tid h ∧ k_live n h' L ∧
      (∀ x, k_spare h' x ↔ k_spare h x) ∧ k_word h' a = u32 w ∧ ∀ b, b + 4 ≤ a ∨ a + 4 ≤ b → k_word h' b = k_word h b;
  k_live_flags : ∀ n (h : H) L f, k_live n h L → 0 ≤ f < W32 → k_live n (set_eflags f h) L;
  k_live_cpu : ∀ n (h : H) L, k_live n h L → flags_word h ∧ current_tid h ≠ 0;
  k_live_mono : ∀ n m (h : H) L, k_live n h L → (m ≤ n)%nat → k_live m h L
}.

Section Implementation.
Variable KERNEL_VMA : Z.
Variable fresh_ar : Z → allocator_region.
Variable fresh_vr : Z → vm_map_region.

(** What one call may take of the memory for bookkeeping. *)
Definition call_cost : Z := malloc_cost (max_block + sizeof_kmalloc_block).

(** The blocks as malloc.c keeps them start at their headers. *)
Definition malloc_live (n : nat) (h : mstate) (L : gmap Z Z) : Prop :=
  (∃ L', heap_inv KERNEL_VMA h L' ∧
    ∀ p sz, L !! p = Some sz → p < W32 ∧ L' !! (p - sizeof_kmalloc_block) = Some (sz + sizeof_kmalloc_block)) ∧
  room (Z.of_nat n * call_cost) (m_kern h).

(** Whether one of the regions of the list from [p] on has the byte [x]. *)
Fixpoint list_has (fuel : nat) (h : gmap Z allocator_region) (p x : Z) : bool :=
  match fuel, h !! p with
  | S fuel, Some r =>
      negb (p =? NULL) && ((ar_address r <=? x) && (x <? ar_address r + ar_size r) || list_has fuel h (ar_next r) x)
  | _, _ => false
  end.
Definition pool_has (h : mstate) (x : Z) : bool :=
  let s := alloc_view (m_kern h) in
  match maps s !! _malloc_avail_mem with Some p => list_has (size (heap s)) (heap s) p x | None => false end.

#[local] Instance malloc_kheap : Kheap mstate := {
  k_alloc := kmalloc KERNEL_VMA fresh_ar fresh_vr;
  k_free := kfree KERNEL_VMA fresh_ar;
  k_store32 := vstore32 KERNEL_VMA;
  k_live := malloc_live;
  k_word h := word_at (m_mem h);
  k_spare h x := pool_has h x = true
}.

Lemma list_has_covers fuel h x : ∀ p ps vs, ll_rep h p ps → data_at h ps vs → list_has fuel h p x = true → ∃ f, covers vs x f.
Proof.
  induction fuel as [|fuel IH]; intros p ps vs Hr Hd; cbn [list_has]; [done|]. destruct (h !! p) as [r|] eqn:Er; [|done].
  intros [Hp%negb_true_iff%Z.eqb_neq Hx]%andb_true_iff. destruct (ll_rep_inv_cons _ _ _ Hp Hr) as (n & ps' & -> & Hn & Hr').
  rewrite Er in Hn. injection Hn as <-. apply Forall2_cons_inv_l in Hd as (v & vs' & Hv & Hd & ->). rewrite Er in Hv. injection Hv as <-.
  apply orb_true_iff in Hx as [[H1%Z.leb_le H2%Z.ltb_lt]%andb_true_iff|Hx].
  - exists (ar_flags r). exists (ll_data r). split; [by left|]. split; [done|]. unfold in_region, r_end. simpl. lia.
  - destruct (IH _ _ _ Hr' Hd Hx) as (f & r' & Hin & Hf & Hx'). exists f, r'. split; [by right|done].
Qed.

Lemma pool_has_covers h ms pm vm ar mal L x :
  heap_at KERNEL_VMA (m_kern h) (m_mem h) ms pm vm ar mal L → pool_has h x = true → covers mal x 0.
Proof.
  intros Hat. unfold pool_has. destruct (maps_inv_lookup _ _ _ _ (ki_maps _ _ _ _ _ _ (ha_kern _ _ _ _ _ _ _ _ _ Hat)) (ha_pool _ _ _ _ _ _ _ _ _ Hat))
    as (pss & ps & fl & _ & _ & (p & -> & Hr & Hd) & _).
  intros Hx. destruct (list_has_covers _ _ _ _ _ _ Hr Hd Hx) as [f Hf]. by rewrite <- (ha_flags _ _ _ _ _ _ _ _ _ Hat x f Hf).
Qed.

(** A word of free memory is stored. *)
Lemma malloc_store_ok n h L a w : malloc_live n h L → (∀ x, a ≤ x < a + 4 → pool_has h x = true) →
  ∃ h', vstore32 KERNEL_VMA a w h = Ret tt h' ∧ eflags h' = eflags h ∧ current_tid h' = current_tid h ∧ malloc_live n h' L ∧
    (∀ x, pool_has h' x = true ↔ pool_has h x = true) ∧ word_at (m_mem h') a = u32 w ∧
    ∀ b, b + 4 ≤ a ∨ a + 4 ≤ b → word_at (m_mem h') b = word_at (m_mem h) b.
Proof.
  intros ((L' & ((ms & pm & vm & ar & mal & Hat) & Hl & Hf & Ht) & HL) & Hroom) Hsp.
  assert (Hcov : ∀ x, a ≤ x < a + 4 → covers mal x 0) by (intros x Hx; by eapply pool_has_covers, Hsp).
  pose proof (ha_wf _ _ _ _ _ _ _ _ _ Hat) as Hwf. pose proof (covers_bounds _ _ _ Hwf (Hcov a ltac:(lia))). pose proof (covers_bounds _ _ _ Hwf (Hcov (a + 3) ltac:(lia))).
  exists (set_mem (put_word a w (m_mem h)) h). split; [|split; [done|]; split; [done|]; split; [|split; [done|]; split]].
  - apply vstore32_ok; [lia|lia|]. intros x Hx. apply (ha_mapped _ _ _ _ _ _ _ _ _ Hat), Hcov. lia.
  - split; [|done]. exists L'. split; [|done]. split; [|by split]. exists ms, pm, vm, ar, mal. destruct Hat. split; try done.
    intros b m Lb. destruct (ha_block b m Lb) as (B1 & B2 & B3 & B4). split; [done|]. split; [done|]. split; [done|].
    cbn [m_mem set_mem]. rewrite <- B4. apply word_at_ext. intros x Hx. apply put_word_other. intros Hin.
    unfold sizeof_kmalloc_block in B1. apply (proj2 (B2 x ltac:(lia))), Hcov. lia.
  - apply word_at_put_u32.
  - intros b Hb. apply word_at_ext. intros x Hx. apply put_word_other. lia.
Qed.

Lemma cost_mono sz : 0 < sz ≤ max_block → malloc_cost (sz + sizeof_kmalloc_block) ≤ call_cost.
Proof.
  intros H. unfold call_cost, malloc_cost. apply Z.add_le_mono_l, Z.mul_le_mono_nonneg_r; [done|].
  unfold pages, PAGE_SIZE, max_block, sizeof_kmalloc_block in *. Z.to_euclidean_division_equations. lia.
Qed.

Lemma cost_23 : 23 ≤ call_cost.
Proof. vm_compute. discriminate. Qed.

Lemma malloc_alloc_ok n h L sz : malloc_live (S n) h L → 0 < sz ≤ max_block →
  ∃ p h', kmalloc KERNEL_VMA fresh_ar fresh_vr sz h = Ret p h' ∧ eflags h' = eflags h ∧ current_tid h' = current_tid h ∧
    ((p = NULL ∧ malloc_live n h' L) ∨ (p ≠ NULL ∧ L !! p = None ∧ malloc_live n h' (<[p := sz]> L))).
Proof.
  intros ((L' & Hi & HL) & Hroom) Hsz. pose proof (cost_mono sz Hsz) as Hcost. pose proof cost_23.
  destruct (kmalloc_spec KERNEL_VMA fresh_ar fresh_vr h L' sz Hi) as (p & h' & E & (_ & Hf & Ht) & Ha & Hg).
  - lia.
  - unfold max_block, sizeof_kmalloc_block, PAGE_SIZE in *. lia.
  - eapply room_mono; [|exact Hroom]. lia.
  - exists p, h'. split; [done|]. split; [done|]. split; [done|].
    assert (Hroom' : room (Z.of_nat n * call_cost) (m_kern h')).
    { eapply room_grows; [exact Hg|]. eapply room_mono; [|exact Hroom]. lia. }
    destruct Ha as [(-> & Hi' & _)|[Hi' N]]; [left|right].
    + split; [done|]. split; [by exists L'|done].
    + pose proof (nb_low _ _ _ _ _ _ N) as Hlow. pose proof (nb_high _ _ _ _ _ _ N) as Hhigh.
      assert (Hnone : L !! p = None).
      { destruct (L !! p) as [m|] eqn:Em; [|done]. exfalso. destruct (HL p m Em) as [_ Hm].
        destruct Hi as [(ms & pm & vm & ar & mal & Hat) _]. destruct (ha_block _ _ _ _ _ _ _ _ _ Hat _ _ Hm) as ((_ & _ & Hn & _) & _).
        unfold sizeof_kmalloc_block in *. apply (nb_fresh _ _ _ _ _ _ N _ _ (p - 8) Hm); unfold sizeof_kmalloc_block; lia. }
      split; [unfold NULL, sizeof_kmalloc_block in *; lia|]. split; [done|]. split; [|done]. eexists. split; [exact Hi'|].
      intros q m [[<- <-]|[Hne Hq]]%lookup_insert_Some; [split; [lia|apply lookup_insert_eq]|].
      destruct (HL q m Hq). split; [done|]. rewrite lookup_insert_ne by lia. done.
Qed.

Lemma malloc_free_ok n h L p sz : malloc_live (S n) h L → L !! p = Some sz →
  ∃ h', kfree KERNEL_VMA fresh_ar p h = Ret tt h' ∧ eflags h' = eflags h ∧ current_tid h' = current_tid h ∧ malloc_live n h' (delete p L).
Proof.
  intros ((L' & Hi & HL) & Hroom) Hp. pose proof cost_23. destruct (HL p sz Hp) as [Hlt HL'].
  destruct (kfree_spec KERNEL_VMA fresh_ar h L' p _ Hi Hlt HL') as (h' & E & (_ & Hf & Ht) & Hi' & _ & Hg).
  - eapply room_mono; [|exact Hroom]. lia.
  - exists h'. split; [done|]. split; [done|]. split; [done|]. split.
    + eexists. split; [exact Hi'|]. intros q m [Hne Hq]%lookup_delete_Some. destruct (HL q m Hq). split; [done|]. rewrite lookup_delete_ne by lia. done.
    + eapply room_grows; [exact Hg|]. eapply room_mono; [|exact Hroom]. lia.
Qed.

Lemma malloc_kheap_laws : KheapLaws mstate.
Proof.
  split.
  - apply malloc_alloc_ok.
  - apply malloc_free_ok.
  - apply malloc_store_ok.
  - intros n h L f ((L' & (Hat & Hl & Hw & Ht) & HL) & Hroom) Hf. split; [|done]. exists L'. split; [|done]. by split.
  - intros n h L ((L' & (Hat & Hl & Hw & Ht) & HL) & Hroom). by split.
  - intros n m h L [Hi Hroom] Hle. split; [done|]. eapply room_mono; [|exact Hroom]. pose proof cost_23. nia.
Qed.
End Implementation.
