(* ===== verification/Timer.v ===== *)
(** * kernel/kern/time.c and kernel/kern/timer.c: the clock and the timers

    Near timers count microseconds down and are kept in the order of what is
    left; far timers have a time of day, and become near timers ten seconds
    before it.  Both are doubly linked lists of structs from the kernel heap,
    guarded by one recursive lock.  A callback is a pointer; calling it is an
    argument of the model. *)

From stdpp Require Import base numbers list gmap strings fin_maps sorting.
From Stdlib Require Import Sorted.
From S2P Require Import Prelude UtList MemUtil Range Allocator VmMap Paging Kmem Malloc Dlist Listsort Registers Sync Kheap.

(** ** time.c *)

Record timeval := Timeval { tv_sec : Z; tv_usec : Z }.

(** [long] division truncates; the quotient and the remainder are converted
    to [time_t], an unsigned 64-bit type, and the remainder back to [long]. *)
Definition time_normalise (tv : timeval) : timeval :=
  let usecs_per_sec := 1000000 in
  let s := u64 (Z.quot (tv_usec tv) usecs_per_sec) in
  let us := u64 (Z.rem (tv_usec tv) usecs_per_sec) in
  let sec := u64 (tv_sec tv + s) in
  let usec := s32 us in
  if usec <? 0 then Timeval (u64 (sec - 1)) (s32 (usec + usecs_per_sec)) else Timeval sec usec.

(** The normalised copy of [diff] is not used. *)
Definition time_add (dest diff : timeval) : timeval :=
  let dest := time_normalise dest in
  Timeval (u64 (tv_sec dest + tv_sec diff)) (s32 (tv_usec dest + tv_usec diff)).

(** The normalised copies of [a] and [b] are not used. *)
Definition time_cmp (a b : timeval) : Z :=
  if tv_sec a <? tv_sec b then -1
  else if tv_sec b <? tv_sec a then 1
  else s32 (tv_usec a - tv_usec b).

(** ** timer.c *)

Abbreviation NEAR_THRESHOLD_SECS := 10 (only parsing).

Record timer_at_time := TimerAtTime {
  ft_id : Z;
  ft_time : timeval;
  ft_next : Z;
  ft_prev : Z;
  ft_callback : Z;
  ft_data : Z
}.
Record timer_at_offset := TimerAtOffset {
  nt_id : Z;
  delay : Z;
  nt_next : Z;
  nt_prev : Z;
  nt_callback : Z;
  nt_data : Z
}.
Abbreviation sizeof_timer_at_time := 32 (only parsing).
Abbreviation sizeof_timer_at_offset := 24 (only parsing).

Definition set_delay (d : Z) (t : timer_at_offset) : timer_at_offset :=
  TimerAtOffset (nt_id t) d (nt_next t) (nt_prev t) (nt_callback t) (nt_data t).

Definition near_links : dlinks timer_at_offset := {|
  dl_prev := nt_prev; dl_next := nt_next;
  dl_set_prev p t := TimerAtOffset (nt_id t) (delay t) (nt_next t) p (nt_callback t) (nt_data t);
  dl_set_next p t := TimerAtOffset (nt_id t) (delay t) p (nt_prev t) (nt_callback t) (nt_data t)
|}.
Definition far_links : dlinks timer_at_time := {|
  dl_prev := ft_prev; dl_next := ft_next;
  dl_set_prev p t := TimerAtTime (ft_id t) (ft_time t) (ft_next t) p (ft_callback t) (ft_data t);
  dl_set_next p t := TimerAtTime (ft_id t) (ft_time t) p (ft_prev t) (ft_callback t) (ft_data t)
|}.
#[export] Instance near_laws : DLLaws near_links.
Proof. split; try done. by intros []. Qed.
#[export] Instance far_laws : DLLaws far_links.
Proof. split; try done. by intros []. Qed.

(** The nodes of a list are not null, so the assertions of the two functions hold. *)
Definition timer_far_timers_cmp (a b : timer_at_time) : Z := time_cmp (ft_time a) (ft_time b).
Definition timer_near_timers_cmp (a b : timer_at_offset) : Z :=
  if delay a <? delay b then -1 else if delay b <? delay a then 1 else 0.

Record tmstate (H : Type) := TmState {
  _time_now_utc : timeval;
  _time_lock : spinlock;
  _next_timer_id : Z;
  _far_timers : Z;
  _near_timers : Z;
  _timer_lock : spinlock;
  far_heap : gmap Z timer_at_time;
  near_heap : gmap Z timer_at_offset;
  tm_heap : H
}.
Arguments TmState {H}.
Arguments _time_now_utc {H}.
Arguments _time_lock {H}.
Arguments _next_timer_id {H}.
Arguments _far_timers {H}.
Arguments _near_timers {H}.
Arguments _timer_lock {H}.
Arguments far_heap {H}.
Arguments near_heap {H}.
Arguments tm_heap {H}.

Section Timer.
Context {H : Type} `{Cpu H, Kheap H}.
Abbreviation S := (tmstate H).

Definition set_now v (s : S) : S := TmState v (_time_lock s) (_next_timer_id s) (_far_timers s) (_near_timers s) (_timer_lock s) (far_heap s) (near_heap s) (tm_heap s).
Definition set_time_lock v (s : S) : S := TmState (_time_now_utc s) v (_next_timer_id s) (_far_timers s) (_near_timers s) (_timer_lock s) (far_heap s) (near_heap s) (tm_heap s).
Definition set_next_id v (s : S) : S := TmState (_time_now_utc s) (_time_lock s) v (_far_timers s) (_near_timers s) (_timer_lock s) (far_heap s) (near_heap s) (tm_heap s).
Definition set_far v (s : S) : S := TmState (_time_now_utc s) (_time_lock s) (_next_timer_id s) v (_near_timers s) (_timer_lock s) (far_heap s) (near_heap s) (tm_heap s).
Definition set_near v (s : S) : S := TmState (_time_now_utc s) (_time_lock s) (_next_timer_id s) (_far_timers s) v (_timer_lock s) (far_heap s) (near_heap s) (tm_heap s).
Definition set_timer_lock v (s : S) : S := TmState (_time_now_utc s) (_time_lock s) (_next_timer_id s) (_far_timers s) (_near_timers s) v (far_heap s) (near_heap s) (tm_heap s).
Definition set_far_heap v (s : S) : S := TmState (_time_now_utc s) (_time_lock s) (_next_timer_id s) (_far_timers s) (_near_timers s) (_timer_lock s) v (near_heap s) (tm_heap s).
Definition set_near_heap v (s : S) : S := TmState (_time_now_utc s) (_time_lock s) (_next_timer_id s) (_far_timers s) (_near_timers s) (_timer_lock s) (far_heap s) v (tm_heap s).
Definition set_tm_heap v (s : S) : S := TmState (_time_now_utc s) (_time_lock s) (_next_timer_id s) (_far_timers s) (_near_timers s) (_timer_lock s) (far_heap s) (near_heap s) v.

#[export] Instance tmstate_cpu : Cpu S := {
  eflags s := eflags (tm_heap s);
  set_eflags f s := set_tm_heap (set_eflags f (tm_heap s)) s;
  current_tid s := current_tid (tm_heap s)
}.

Definition timer_lock_in : lock_in S := LockIn S (Some ∘ _timer_lock) set_timer_lock.
Definition time_lock_in : lock_in S := LockIn S (Some ∘ _time_lock) set_time_lock.

Definition on_near {A} : M (gmap Z timer_at_offset) A → M S A := zoom near_heap set_near_heap.
Definition on_far {A} : M (gmap Z timer_at_time) A → M S A := zoom far_heap set_far_heap.
Definition on_kheap {A} : M H A → M S A := zoom tm_heap set_tm_heap.

(** What a block from [kmalloc] holds before it is filled in. *)
Variable junk_near : Z → timer_at_offset.
Variable junk_far : Z → timer_at_time.
(** [callback(id, data)]. *)
Variable call : Z → Z → Z → M S unit.

Definition time_init : M S unit := spinlock_init time_lock_in.
Definition time_lock : M S Z := spinlock_acquire time_lock_in.
Definition time_unlock (flags : Z) : M S unit := spinlock_release time_lock_in flags.

Definition get_time_utc : M S timeval :=
  flags ← time_lock;
  tv ← (s ← get; mret (_time_now_utc s));
  time_unlock flags;;
  mret tv.

Definition set_time_utc (tv : timeval) : M S unit :=
  flags ← time_lock;
  modify (set_now tv);;
  time_unlock flags.

Definition timers_lock : M S Z := spinlock_acquire timer_lock_in.
Definition timers_unlock (flags : Z) : M S unit := spinlock_release timer_lock_in flags.

Definition timer_next_id : M S Z :=
  modify (λ s, set_next_id (s32 (_next_timer_id s + 1)) s);;
  s ← get;
  (if _next_timer_id s <? 0 then modify (set_next_id 1) else mret tt);;
  s ← get;
  mret (_next_timer_id s).

Definition timer_at_time_alloc : M S Z :=
  p ← on_kheap (k_alloc sizeof_timer_at_time);
  (if p =? NULL then mret tt else on_far (modify (insert p (junk_far p))));;
  mret p.
Definition timer_at_offset_alloc : M S Z :=
  p ← on_kheap (k_alloc sizeof_timer_at_offset);
  (if p =? NULL then mret tt else on_near (modify (insert p (junk_near p))));;
  mret p.
Definition timer_at_time_free (t : Z) : M S unit := on_kheap (k_free t).
Definition timer_at_offset_free (t : Z) : M S unit := on_kheap (k_free t).

(** The function returns from the first branch without [timers_unlock]. *)
Definition timer_schedule_at (time : timeval) (callback data : Z) : M S Z :=
  flags ← timers_lock;
  timer ← timer_at_time_alloc;
  if negb (timer =? NULL) then
    id ← timer_next_id;
    on_far (update timer (λ t, TimerAtTime id time (ft_next t) (ft_prev t) callback data));;
    s ← get;
    head ← on_far (DL_PREPEND far_links (_far_timers s) timer);
    modify (set_far head);;
    head ← on_far (DL_SORT far_links timer_far_timers_cmp head);
    modify (set_far head);;
    mret id
  else
    timers_unlock flags;;
    mret (-1).

Definition timer_schedule_delay_with_id (id usecs callback data : Z) : M S Z :=
  timer ← timer_at_offset_alloc;
  if negb (timer =? NULL) then
    on_near (update timer (λ t, TimerAtOffset id usecs (nt_next t) (nt_prev t) callback data));;
    s ← get;
    head ← on_near (DL_PREPEND near_links (_near_timers s) timer);
    modify (set_near head);;
    head ← on_near (DL_SORT near_links timer_near_timers_cmp head);
    modify (set_near head);;
    mret timer
  else mret NULL.

Definition schedule_delay_body (useconds callback data : Z) : M S Z :=
  id ← timer_next_id;
  timer ← timer_schedule_delay_with_id id useconds callback data;
  mret (if timer =? NULL then -1 else id).
Definition timer_schedule_delay (useconds callback data : Z) : M S Z :=
  flags ← timers_lock;
  id ← schedule_delay_body useconds callback data;
  timers_unlock flags;;
  mret id.

(** The first timer with the identifier, or null. *)
Fixpoint find_near (fuel : nat) (nt id : Z) : M (gmap Z timer_at_offset) Z :=
  match fuel with
  | O => nofuel
  | Datatypes.S fuel =>
      if nt =? NULL then mret NULL
      else t ← load nt; if nt_id t =? id then mret nt else find_near fuel (nt_next t) id
  end.
Fixpoint find_far (fuel : nat) (ft id : Z) : M (gmap Z timer_at_time) Z :=
  match fuel with
  | O => nofuel
  | Datatypes.S fuel =>
      if ft =? NULL then mret NULL
      else t ← load ft; if ft_id t =? id then mret ft else find_far fuel (ft_next t) id
  end.

Definition cancel_body (id : Z) : M S bool :=
  s ← get;
  nt ← on_near (fuel ← fuel_of_heap; find_near fuel (_near_timers s) id);
  if negb (nt =? NULL) then
    head ← on_near (DL_DELETE near_links (_near_timers s) nt);
    modify (set_near head);;
    mret true
  else
    ft ← on_far (fuel ← fuel_of_heap; find_far fuel (_far_timers s) id);
    if negb (ft =? NULL) then
      head ← on_far (DL_DELETE far_links (_far_timers s) ft);
      modify (set_far head);;
      mret true
    else mret false.
Definition timer_cancel (id : Z) : M S bool :=
  flags ← timers_lock;
  result ← cancel_body id;
  timers_unlock flags;;
  mret result.

Definition next_delay_body : M S Z :=
  s ← get;
  if negb (_near_timers s =? NULL) then
    t ← on_near (load (_near_timers s));
    mret (if delay t <? 0 then 0 else delay t)
  else mret (-1).
Definition timers_next_delay : M S Z :=
  flags ← timers_lock;
  result ← next_delay_body;
  timers_unlock flags;;
  mret result.

Definition handle_body : M S bool :=
  s ← get;
  let timer := _near_timers s in
  due ← (if negb (timer =? NULL) then t ← on_near (load timer); mret (delay t <=? 0) else mret false);
  if (due : bool) then
    t ← on_near (load timer);
    (if negb (nt_callback t =? NULL) then call (nt_callback t) (nt_id t) (nt_data t) else mret tt);;
    t ← on_near (load timer);
    timer_cancel (nt_id t);;
    mret true
  else mret false.
Definition timers_handle_near_timers : M S bool :=
  flags ← timers_lock;
  result ← handle_body;
  timers_unlock flags;;
  mret result.

Definition timers_convert_far_to_near (ft : Z) : M S unit :=
  now ← get_time_utc;
  t ← on_far (load ft);
  let usecs := s32 (u64 (u64 (tv_sec (ft_time t) - tv_sec now) * 1000000)) in
  let usecs := s32 (usecs + s32 (tv_usec (ft_time t) - tv_usec now)) in
  s ← get;
  head ← on_far (DL_DELETE far_links (_far_timers s) ft);
  modify (set_far head);;
  t ← on_far (load ft);
  timer_schedule_delay_with_id (ft_id t) usecs (ft_callback t) (ft_data t);;
  mret tt.

(** [DL_FOREACH_SAFE], until a timer that is not near. *)
Fixpoint far_loop (fuel : nat) (near_threshold : timeval) (ft : Z) : M S unit :=
  match fuel with
  | O => nofuel
  | Datatypes.S fuel =>
      if ft =? NULL then mret tt
      else
        t ← on_far (load ft);
        let tmp := ft_next t in
        if time_cmp (ft_time t) near_threshold <=? 0 then
          timers_convert_far_to_near ft;;
          far_loop fuel near_threshold tmp
        else mret tt
  end.
Definition timers_update_far_timers : M S unit :=
  now ← get_time_utc;
  let near_threshold := time_add now (Timeval NEAR_THRESHOLD_SECS 0) in
  s ← get;
  fuel ← on_far fuel_of_heap;
  far_loop fuel near_threshold (_far_timers s).

Fixpoint advance_loop (fuel : nat) (nt usecs : Z) : M (gmap Z timer_at_offset) unit :=
  match fuel with
  | O => nofuel
  | Datatypes.S fuel =>
      if nt =? NULL then mret tt
      else
        t ← load nt;
        update nt (set_delay (s32 (u32 (delay t - usecs))));;
        t ← load nt;
        advance_loop fuel (nt_next t) usecs
  end.
Definition advance_body (usecs : Z) : M S unit :=
  s ← get;
  on_near (fuel ← fuel_of_heap; advance_loop fuel (_near_timers s) usecs);;
  timers_update_far_timers.
Definition timers_advance_clock (usecs : Z) : M S unit :=
  flags ← timers_lock;
  advance_body usecs;;
  timers_unlock flags.

(** ** The timers as lists *)

(** What a timer says: identifier, delay or time, callback, data. *)
Record near_timer := Near { n_id : Z; n_delay : Z; n_callback : Z; n_data : Z }.
Record far_timer := Far { f_id : Z; f_time : timeval; f_callback : Z; f_data : Z }.
Definition near_of (t : timer_at_offset) : near_timer := Near (nt_id t) (delay t) (nt_callback t) (nt_data t).
Definition far_of (t : timer_at_time) : far_timer := Far (ft_id t) (ft_time t) (ft_callback t) (ft_data t).

Definition near_le (a b : near_timer) : Prop := n_delay a ≤ n_delay b.
Definition far_le (a b : far_timer) : Prop := time_cmp (f_time a) (f_time b) ≤ 0.

(** Microseconds whose differences fit in an [int], as those of a normalised time do. *)
Definition usecs_ok (t : far_timer) : Prop := - 2 ^ 30 ≤ tv_usec (f_time t) < 2 ^ 30.

(** The nodes [ps] of a heap hold [l]. *)
Definition view {T V} (vw : T → V) (h : gmap Z T) (ps : list Z) (l : list V) : Prop :=
  Forall2 (λ p v, vw <$> h !! p = Some v) ps l.

Lemma view_ext {T V} (vw : T → V) h h' ps l :
  (∀ p, p ∈ ps → vw <$> h' !! p = vw <$> h !! p) → view vw h ps l → view vw h' ps l.
Proof.
  intros He Hv. induction Hv as [|p v ps l Hp _ IH]; constructor; [|apply IH; set_solver]. rewrite He; [done|set_solver].
Qed.

Lemma view_perm {T V} (vw : T → V) h ps ps' l : view vw h ps l → ps' ≡ₚ ps → ∃ l', view vw h ps' l' ∧ l' ≡ₚ l.
Proof.
  intros Hv Hp. revert l Hv. symmetry in Hp. induction Hp as [|p ps ps' _ IH|p q ps|ps1 ps2 ps3 _ IH1 _ IH2]; intros l Hv.
  - inversion Hv. subst. by exists [].
  - inversion Hv as [|? v ? l0 Hpv Hv0]; subst. destruct (IH l0 Hv0) as (l' & Hv' & Hl). exists (v :: l'). split; [by constructor|by rewrite Hl].
  - inversion Hv as [|? v ? l0 Hpv Hv0]; subst. inversion Hv0 as [|? w ? l1 Hqw Hv1]; subst. exists (w :: v :: l1).
    split; [by repeat constructor|]. apply perm_swap.
  - destruct (IH1 l Hv) as (l1 & Hv1 & Hl1). destruct (IH2 l1 Hv1) as (l2 & Hv2 & Hl2). exists l2. split; [done|]. by rewrite Hl2.
Qed.

Lemma view_sorted {T V} (vw : T → V) (cmp : T → T → Z) (le : V → V → Prop) h ps l :
  (∀ a b, cmp a b ≤ 0 → le (vw a) (vw b)) → view vw h ps l → Sorted (node_le cmp h) ps → Sorted le l.
Proof.
  intros Hle Hv Hs. revert l Hv. induction Hs as [|p ps Hs IH Hhd]; intros l Hv; inversion Hv as [|? v ? l0 Hpv Hv0]; subst; [constructor|].
  constructor; [by apply IH|]. destruct Hhd as [|q ps Hpq]; inversion Hv0 as [|? w ? l1 Hqw Hv1]; subst; constructor.
  unfold node_le in Hpq. destruct (h !! p) as [a|], (h !! q) as [b|]; try done. injection Hpv as <-. injection Hqw as <-. by apply Hle.
Qed.

Lemma view_lookup {T V} (vw : T → V) h ps l i p : view vw h ps l → ps !! i = Some p → ∃ t, h !! p = Some t ∧ l !! i = Some (vw t).
Proof.
  intros Hv Hi. destruct (Forall2_lookup_l _ _ _ _ _ Hv Hi) as (v & Hl & Hp). destruct (h !! p) as [t|]; [|done]. injection Hp as <-. by exists t.
Qed.

(** What a node says does not depend on its links. *)
Lemma dlinks_view {T V} (lk : dlinks T) (vw : T → V) : (∀ a, vw (dl_data lk a) = vw a) →
  ∀ X ha hb, dlinks_only lk X ha hb → ∀ q, vw <$> hb !! q = vw <$> ha !! q.
Proof.
  intros Hvw X ha hb Hd q. destruct (Hd q) as [_ E]. apply (f_equal (fmap vw)) in E. rewrite <- !option_fmap_compose in E.
  rewrite (option_fmap_ext _ vw) in E by (intros; apply Hvw). rewrite (option_fmap_ext (vw ∘ _) vw) in E by (intros; apply Hvw). done.
Qed.

(** A node added at the front and sorted in. *)
Lemma list_insert_spec {T V} (lk : dlinks T) `{!DLLaws lk} (vw : T → V) (cmp : T → T → Z) (le : V → V → Prop) h head ps l p t :
  (∀ a, vw (dl_data lk a) = vw a) → (∀ a b, cmp a b = cmp (dl_data lk a) (dl_data lk b)) → cmp_total cmp →
  (∀ a b, cmp a b ≤ 0 → le (vw a) (vw b)) →
  dl_rep lk h head ps → view vw h ps l → h !! p = Some t → p ∉ ps → p ≠ NULL → Z.of_nat (length ps) < 2 ^ 30 →
  ∃ head1 h1 head2 h2 ps' l', DL_PREPEND lk head p h = Ret head1 h1 ∧ DL_SORT lk cmp head1 h1 = Ret head2 h2 ∧
    dl_rep lk h2 head2 ps' ∧ ps' ≡ₚ p :: ps ∧ view vw h2 ps' l' ∧ l' ≡ₚ vw t :: l ∧ Sorted le l'.
Proof.
  intros Hof Hcmp Htot Hle Hr Hv Ht Hp Hp0 Hlen.
  destruct (DL_PREPEND_spec lk h head ps p t Hr Hp0 Hp Ht) as (h1 & E1 & Hr1 & Hl1).
  destruct (DL_SORT_spec lk cmp h1 p (p :: ps) Hr1 Htot Hcmp) as (head2 & h2 & ps' & E2 & Hr2 & Hperm & Hso & Hl2); [simpl; lia|].
  pose proof (dlinks_view lk vw Hof) as Hsame.
  assert (Hv1 : view vw h1 (p :: ps) (vw t :: l)).
  { constructor; [by rewrite (Hsame _ _ _ Hl1), Ht|]. eapply view_ext; [|exact Hv]. intros q _. by apply (Hsame _ _ _ Hl1). }
  destruct (view_perm vw h1 _ ps' _ Hv1 Hperm) as (l' & Hv' & Hl').
  exists p, h1, head2, h2, ps', l'. split; [done|]. split; [done|]. split; [done|]. split; [done|]. split.
  - eapply view_ext; [|exact Hv']. intros q _. by apply (Hsame _ _ _ Hl2).
  - split; [done|]. by apply (view_sorted vw cmp le h1 ps').
Qed.

(** ** The state of the timers *)

Context `{!CpuLaws H, !KheapLaws H}.

#[export] Instance tmstate_cpu_laws : CpuLaws S.
Proof.
  split.
  - intros f s. exact (@eflags_set H _ _ f (tm_heap s)).
  - intros f g s. exact (f_equal (λ h, set_tm_heap h s) (@set_eflags_set H _ _ f g (tm_heap s))).
  - intros []. exact (f_equal _ (@set_eflags_id H _ _ _)).
  - intros f s. exact (@tid_set_eflags H _ _ f (tm_heap s)).
Qed.

#[export] Instance timer_lock_laws : LockLaws timer_lock_in.
Proof. split; try done. intros l [] E. by injection E as <-. Qed.
#[export] Instance time_lock_laws : LockLaws time_lock_in.
Proof. split; try done. intros l [] E. by injection E as <-. Qed.

(** [near] and [far] are the timers, in the order of their lists; [n] more
    structs can be asked for.  Nothing is said about the lock of the timers. *)
Record timers_at (n : nat) (s : S) (near : list near_timer) (far : list far_timer) (nps fps : list Z) (L : gmap Z Z) : Prop := {
  ta_near : dl_rep near_links (near_heap s) (_near_timers s) nps;
  ta_near_view : view near_of (near_heap s) nps near;
  ta_near_sorted : Sorted near_le near;
  ta_far : dl_rep far_links (far_heap s) (_far_timers s) fps;
  ta_far_view : view far_of (far_heap s) fps far;
  ta_far_sorted : Sorted far_le far;
  ta_far_usecs : Forall usecs_ok far;
  ta_live : k_live n (tm_heap s) L;
  ta_blocks : ∀ p, p ∈ nps ∨ p ∈ fps → is_Some (L !! p);
  ta_few : Z.of_nat (n + length nps + length fps) ≤ 2 ^ 30;
  ta_next : 0 ≤ _next_timer_id s < 2 ^ 31;
  ta_time_lock : _time_lock s = Spinlock 0 0
}.

(** What the bodies of the critical sections keep. *)
Definition keeps (s s' : S) : Prop :=
  _timer_lock s' = _timer_lock s ∧ eflags (tm_heap s') = eflags (tm_heap s) ∧ current_tid (tm_heap s') = current_tid (tm_heap s).

Lemma keeps_trans s1 s2 s3 : keeps s1 s2 → keeps s2 s3 → keeps s1 s3.
Proof. intros (?&?&?) (?&?&?). split_and!; congruence. Qed.

(** The identifier after [x]. *)
Definition id_after (x : Z) : Z := if s32 (x + 1) <? 0 then 1 else s32 (x + 1).

Lemma id_after_range x : 0 ≤ x < 2 ^ 31 → 0 < id_after x < 2 ^ 31.
Proof.
  intros Hx. unfold id_after. destruct (decide (x = 2147483647)) as [->|Hne]; [done|]. rewrite s32_small by lia.
  destruct (Z.ltb_spec (x + 1) 0); lia.
Qed.

Lemma next_id_ok s : timer_next_id s = Ret (id_after (_next_timer_id s)) (set_next_id (id_after (_next_timer_id s)) s).
Proof.
  unfold timer_next_id, id_after. rewrite bind_modify, bind_get. cbn [_next_timer_id set_next_id].
  destruct (s32 (_next_timer_id s + 1) <? 0); [by rewrite bind_modify|by step (ret_ok tt (set_next_id (s32 (_next_timer_id s + 1)) s))].
Qed.

Lemma on_near_ok {A} (m : M (gmap Z timer_at_offset) A) s a h : m (near_heap s) = Ret a h → on_near m s = Ret a (set_near_heap h s).
Proof. apply zoom_ret. Qed.
Lemma on_far_ok {A} (m : M (gmap Z timer_at_time) A) s a h : m (far_heap s) = Ret a h → on_far m s = Ret a (set_far_heap h s).
Proof. apply zoom_ret. Qed.

Lemma near_cmp_total : cmp_total timer_near_timers_cmp.
Proof. intros a b. unfold timer_near_timers_cmp. destruct (Z.ltb_spec (delay a) (delay b)), (Z.ltb_spec (delay b) (delay a)); lia. Qed.
Lemma near_cmp_le a b : timer_near_timers_cmp a b ≤ 0 → near_le (near_of a) (near_of b).
Proof. unfold timer_near_timers_cmp, near_le. simpl. destruct (Z.ltb_spec (delay a) (delay b)), (Z.ltb_spec (delay b) (delay a)); lia. Qed.
Lemma far_cmp_total : cmp_total timer_far_timers_cmp.
Proof.
  intros a b. unfold timer_far_timers_cmp, time_cmp. set (u := tv_usec (ft_time a)). set (v := tv_usec (ft_time b)).
  destruct (Z.ltb_spec (tv_sec (ft_time a)) (tv_sec (ft_time b))), (Z.ltb_spec (tv_sec (ft_time b)) (tv_sec (ft_time a))); try lia.
  unfold s32. Z.to_euclidean_division_equations. lia.
Qed.

(** The struct of a new near timer. *)
Lemma alloc_near_spec n s near far nps fps L :
  timers_at (Datatypes.S n) s near far nps fps L →
  ∃ p s', timer_at_offset_alloc s = Ret p s' ∧ keeps s s' ∧
    ((p = NULL ∧ timers_at n s' near far nps fps L) ∨
     (p ≠ NULL ∧ p ∉ nps ∧ is_Some (near_heap s' !! p) ∧ timers_at n s' near far nps fps (<[p := sizeof_timer_at_offset]> L) ∧
      Z.of_nat (Datatypes.S n + length nps + length fps) ≤ 2 ^ 30)) ∧
    _next_timer_id s' = _next_timer_id s ∧ _time_now_utc s' = _time_now_utc s ∧ k_alloc sizeof_timer_at_offset (tm_heap s) = Ret p (tm_heap s').
Proof.
  intros []. destruct (k_alloc_ok n (tm_heap s) L sizeof_timer_at_offset ta_live0) as (p & h' & E & Hf & Ht & Hout); [done|].
  unfold timer_at_offset_alloc. step (zoom_ret tm_heap set_tm_heap _ s p h' E). set (s1 := set_tm_heap h' s).
  destruct Hout as [[-> Hl]|(Hp & HL & Hl)].
  - rewrite Z.eqb_refl. exists NULL, s1. split; [done|]. split; [done|]. split; [|done]. left. split; [done|].
    split; try done. lia.
  - rewrite (proj2 (Z.eqb_neq _ _)) by done. assert (Hnp : p ∉ nps) by (intros Hin; destruct (ta_blocks0 p (or_introl Hin)); congruence).
    set (h2 := <[p := junk_near p]> (near_heap s)).
    assert (E2 : on_near (modify (insert p (junk_near p))) s1 = Ret tt (set_near_heap h2 s1)) by done. step E2.
    exists p, (set_near_heap h2 s1). split; [done|]. split; [done|]. split; [|done]. right. split; [done|]. split; [done|].
    split; [apply lookup_insert_is_Some; by left|]. split; [|done]. split; try done; cbn [near_heap set_near_heap _near_timers].
    + destruct ta_near0 as (? & Hs & ?). split; [done|]. split; [|done]. eapply dl_seg_frame; [|exact Hs]. intros q Hq.
      apply lookup_insert_ne. by intros ->.
    + eapply view_ext; [|exact ta_near_view0]. intros q Hq. unfold h2. rewrite lookup_insert_ne; [done|]. by intros ->.
    + intros q Hq. apply lookup_insert_is_Some. destruct (decide (p = q)); [by left|right; eauto].
    + lia.
Qed.

(** The timers' lists after the struct [p] is filled in with [v] and sorted in. *)
Lemma with_id_spec n s near far nps fps L id us cb d :
  timers_at (Datatypes.S n) s near far nps fps L →
  ∃ r s' near' nps' L', timer_schedule_delay_with_id id us cb d s = Ret r s' ∧ keeps s s' ∧
    timers_at n s' near' far nps' fps L' ∧
    ((r = NULL ∧ near' = near) ∨ (r ≠ NULL ∧ near' ≡ₚ Near id us cb d :: near)) ∧
    _time_now_utc s' = _time_now_utc s ∧ k_alloc sizeof_timer_at_offset (tm_heap s) = Ret r (tm_heap s').
Proof.
  intros Hta. unfold timer_schedule_delay_with_id.
  destruct (alloc_near_spec n s near far nps fps L Hta) as (p & s1 & E & Hk & Hout & Hni & Hnow & Hal). step E.
  destruct Hout as [[-> Hta1]|(Hp & Hnp & [t0 Ht0] & Hta1 & Hfew)].
  - rewrite Z.eqb_refl. exists NULL, s1, near, nps, L. split; [done|]. split; [done|]. split; [done|]. split; [by left|done].
  - rewrite (proj2 (Z.eqb_neq _ _)) by done. cbn [negb]. set (t := TimerAtOffset id us (nt_next t0) (nt_prev t0) cb d).
    set (h1 := <[p := t]> (near_heap s1)). step (on_near_ok (update p (λ t, TimerAtOffset id us (nt_next t) (nt_prev t) cb d)) s1 tt h1 (update_ok _ _ _ _ Ht0)). rewrite bind_get.
    cbn [_near_timers set_near_heap]. destruct Hta1 as [Hn Hv Hs Hf Hfv Hfs Hfu Hl Hb Hfw Hnx Htl].
    assert (Hh1 : ∀ q, q ∈ nps → h1 !! q = near_heap s1 !! q) by (intros q Hq; apply lookup_insert_ne; by intros ->).
    destruct (list_insert_spec near_links near_of timer_near_timers_cmp near_le h1 (_near_timers s1) nps near p t)
      as (hd1 & h2 & hd2 & h3 & nps' & near' & E1 & E2 & Hr2 & Hp2 & Hv2 & Hl2 & Hs2); try done.
    + apply near_cmp_total.
    + apply near_cmp_le.
    + destruct Hn as (? & Hn & ?). split; [done|]. split; [|done]. eapply dl_seg_frame; [|exact Hn]. done.
    + eapply view_ext; [|exact Hv]. intros q Hq. by rewrite Hh1.
    + apply lookup_insert_eq.
    + lia.
    + step (on_near_ok (DL_PREPEND near_links (_near_timers s1) p) (set_near_heap h1 s1) hd1 h2 E1). rewrite bind_modify. set (s2 := set_near hd1 _).
      step (on_near_ok (DL_SORT near_links timer_near_timers_cmp hd1) s2 hd2 h3 E2). rewrite bind_modify. set (s3 := set_near hd2 _).
      exists p, s3, near', nps', (<[p := sizeof_timer_at_offset]> L). split; [done|]. split; [done|]. split; [|split; [by right|done]].
      split; try done.
      * intros q [Hq|Hq]; [|by apply Hb; right]. rewrite Hp2, elem_of_cons in Hq. destruct Hq as [->|Hq]; [apply lookup_insert_is_Some; by left|by apply Hb; left].
      * rewrite Hp2. simpl. lia.
Qed.

Lemma schedule_body_spec n s near far nps fps L us cb d :
  timers_at (Datatypes.S n) s near far nps fps L →
  ∃ r s' near' nps' L', schedule_delay_body us cb d s = Ret r s' ∧ keeps s s' ∧ timers_at n s' near' far nps' fps L' ∧
    ∃ p, k_alloc sizeof_timer_at_offset (tm_heap s) = Ret p (tm_heap s') ∧
      (p = NULL ∧ r = -1 ∧ near' = near ∨ p ≠ NULL ∧ r = id_after (_next_timer_id s) ∧ near' ≡ₚ Near r us cb d :: near).
Proof.
  intros Hta. unfold schedule_delay_body. step (next_id_ok s). set (id := id_after _). pose proof (id_after_range _ (ta_next _ _ _ _ _ _ _ Hta)) as Hid.
  assert (Hta1 : timers_at (Datatypes.S n) (set_next_id id s) near far nps fps L).
  { destruct Hta. split; try done. cbn. unfold id. lia. }
  destruct (with_id_spec n _ near far nps fps L id us cb d Hta1) as (r & s' & near' & nps' & L' & E & Hk & Hta' & Hout & _ & Hal). step E.
  destruct Hout as [[-> ->]|[Hr Hp]].
  - exists (-1), s', near, nps', L'. rewrite Z.eqb_refl. split; [done|]. split; [done|]. split; [done|]. exists NULL. split; [done|by left].
  - exists id, s', near', nps', L'. rewrite (proj2 (Z.eqb_neq _ _)) by done. split; [done|]. split; [done|]. split; [done|]. exists r. split; [done|by right].
Qed.

(** ** Cancelling *)

Lemma near_le_trans a b c : near_le a b → near_le b c → near_le a c.
Proof. unfold near_le. lia. Qed.
Lemma far_le_trans a b c : usecs_ok a → usecs_ok b → usecs_ok c → far_le a b → far_le b c → far_le a c.
Proof.
  unfold usecs_ok, far_le, time_cmp. intros Ha Hb Hc. rewrite !s32_small by lia.
  destruct (Z.ltb_spec (tv_sec (f_time a)) (tv_sec (f_time b))), (Z.ltb_spec (tv_sec (f_time b)) (tv_sec (f_time a))),
    (Z.ltb_spec (tv_sec (f_time b)) (tv_sec (f_time c))), (Z.ltb_spec (tv_sec (f_time c)) (tv_sec (f_time b))),
    (Z.ltb_spec (tv_sec (f_time a)) (tv_sec (f_time c))), (Z.ltb_spec (tv_sec (f_time c)) (tv_sec (f_time a))); lia.
Qed.

Lemma sorted_remove {V} (R : V → V → Prop) (P : V → Prop) l1 t l2 :
  (∀ a b c, P a → P b → P c → R a b → R b c → R a c) → Forall P (l1 ++ t :: l2) → Sorted R (l1 ++ t :: l2) → Sorted R (l1 ++ l2).
Proof.
  intros Htr. induction l1 as [|a l1 IH]; intros HP Hs; simpl in *; [by inversion Hs|].
  apply Forall_cons in HP as [Ha HP]. apply Sorted_inv in Hs as [Hs Hh]. constructor; [by apply IH|].
  destruct l1 as [|b l1]; simpl in *; [|inversion Hh; by constructor]. inversion Hh as [|? ? Hat]; subst.
  apply Sorted_inv in Hs as [_ Ht]. destruct l2 as [|b l2]; constructor. inversion Ht; subst.
  apply Forall_cons in HP as [Hpt HP]. apply Forall_cons in HP as [Hpb _]. by eapply Htr; [..|exact Hat|].
Qed.

(** The first node whose value satisfies a test. *)
Definition first_match {V} (test : V → bool) (ps : list Z) (l : list V) (r : Z) : Prop :=
  (r = NULL ∧ Forall (λ v, test v = false) l) ∨
  (∃ ps1 ps2 l1 v l2, ps = ps1 ++ r :: ps2 ∧ l = l1 ++ v :: l2 ∧ length ps1 = length l1 ∧ test v = true ∧ Forall (λ v, test v = false) l1 ∧ r ≠ NULL).

Lemma first_match_cons {V} (test : V → bool) p v ps l r :
  test v = false → first_match test ps l r → first_match test (p :: ps) (v :: l) r.
Proof.
  intros Hv [[-> Hf]|(ps1 & ps2 & l1 & w & l2 & -> & -> & Hlen & Hw & Hf & Hr)]; [left|right]; [split; [done|by constructor]|].
  exists (p :: ps1), ps2, (v :: l1), w, l2. split_and!; try done; [by simpl; rewrite Hlen|by constructor].
Qed.

Lemma find_near_spec id h ps l : ∀ a fuel, dl_seg near_links h a ps NULL → NULL ∉ ps → view near_of h ps l → (length ps < fuel)%nat →
  ∃ r, find_near fuel (first_or NULL ps) id h = Ret r h ∧ first_match (λ v, n_id v =? id) ps l r.
Proof.
  revert l. induction ps as [|p ps IH]; intros l a [|fuel] Hs Hz Hv Hf; simpl in Hf; try lia.
  - inversion Hv; subst. exists NULL. split; [done|left]. split; [done|constructor].
  - destruct Hs as (t & Ht & _ & Hnx & Hs). apply not_elem_of_cons in Hz as [Hp Hz]. inversion Hv as [|? v ? l0 Hpv Hv0]; subst.
    rewrite Ht in Hpv. injection Hpv as <-. cbn [find_near]. change (first_or NULL (p :: ps)) with p.
    rewrite (proj2 (Z.eqb_neq p NULL)) by done. step (load_ok _ _ _ Ht). destruct (nt_id t =? id) eqn:E.
    + exists p. split; [done|right]. exists [], ps, [], (near_of t), l0. by split_and!.
    + destruct (IH l0 p fuel Hs Hz Hv0 ltac:(lia)) as (r & Er & Hm). exists r. change (nt_next t) with (dl_next near_links t). rewrite Hnx. split; [done|by apply first_match_cons].
Qed.

Lemma find_far_spec id h ps l : ∀ a fuel, dl_seg far_links h a ps NULL → NULL ∉ ps → view far_of h ps l → (length ps < fuel)%nat →
  ∃ r, find_far fuel (first_or NULL ps) id h = Ret r h ∧ first_match (λ v, f_id v =? id) ps l r.
Proof.
  revert l. induction ps as [|p ps IH]; intros l a [|fuel] Hs Hz Hv Hf; simpl in Hf; try lia.
  - inversion Hv; subst. exists NULL. split; [done|left]. split; [done|constructor].
  - destruct Hs as (t & Ht & _ & Hnx & Hs). apply not_elem_of_cons in Hz as [Hp Hz]. inversion Hv as [|? v ? l0 Hpv Hv0]; subst.
    rewrite Ht in Hpv. injection Hpv as <-. cbn [find_far]. change (first_or NULL (p :: ps)) with p.
    rewrite (proj2 (Z.eqb_neq p NULL)) by done. step (load_ok _ _ _ Ht). destruct (ft_id t =? id) eqn:E.
    + exists p. split; [done|right]. exists [], ps, [], (far_of t), l0. by split_and!.
    + destruct (IH l0 p fuel Hs Hz Hv0 ltac:(lia)) as (r & Er & Hm). exists r. change (ft_next t) with (dl_next far_links t). rewrite Hnx. split; [done|by apply first_match_cons].
Qed.

(** A node taken out of its list. *)
Lemma list_delete_spec {T V} (lk : dlinks T) `{!DLLaws lk} (vw : T → V) h head ps1 p ps2 l1 v l2 :
  (∀ a, vw (dl_data lk a) = vw a) → dl_rep lk h head (ps1 ++ p :: ps2) → view vw h (ps1 ++ p :: ps2) (l1 ++ v :: l2) → length ps1 = length l1 →
  ∃ head' h', DL_DELETE lk head p h = Ret head' h' ∧ dl_rep lk h' head' (ps1 ++ ps2) ∧ view vw h' (ps1 ++ ps2) (l1 ++ l2) ∧ h' !! p = h !! p.
Proof.
  intros Hvw Hr Hv Hlen. destruct (DL_DELETE_spec lk h head ps1 p ps2 Hr) as (head' & h' & E & Hr' & Hl). exists head', h'.
  split; [done|]. split; [done|]. split.
  - apply (view_ext vw h); [|].
    + intros q _. by apply (dlinks_view lk vw Hvw _ _ _ Hl).
    + apply Forall2_app_inv in Hv as [Hv1 Hv2]; [|done]. apply Forall2_cons in Hv2 as [_ Hv2]. by apply Forall2_app.
  - apply Hl. destruct Hr as (_ & _ & Hnd & _). apply NoDup_split in Hnd as (H1' & H2' & _). set_solver.
Qed.

(** The first timer with the identifier is gone, from the near timers or else from the far timers. *)
Definition cancelled (id : Z) near far (r : bool) near' far' : Prop :=
  (∃ l1 t l2, near = l1 ++ t :: l2 ∧ n_id t = id ∧ Forall (λ t, n_id t ≠ id) l1 ∧ near' = l1 ++ l2 ∧ far' = far ∧ r = true) ∨
  (Forall (λ t, n_id t ≠ id) near ∧ near' = near ∧
    ((∃ l1 t l2, far = l1 ++ t :: l2 ∧ f_id t = id ∧ Forall (λ t, f_id t ≠ id) l1 ∧ far' = l1 ++ l2 ∧ r = true) ∨
     (Forall (λ t, f_id t ≠ id) far ∧ far' = far ∧ r = false))).

Lemma find_near_ok id n s near far nps fps L : timers_at n s near far nps fps L →
  ∃ r, on_near (fuel ← fuel_of_heap; find_near fuel (_near_timers s) id) s = Ret r s ∧ first_match (λ v, n_id v =? id) nps near r.
Proof.
  intros []. pose proof (dl_rep_fuel _ _ _ _ ta_near0) as Hfu. destruct ta_near0 as (Hhd & Hs & _ & Hz).
  destruct (find_near_spec id (near_heap s) nps near _ (Datatypes.S (size (near_heap s))) Hs Hz ta_near_view0 ltac:(lia)) as (r & E & Hm).
  exists r. split; [|done]. rewrite (on_near_ok _ s r (near_heap s)); [by destruct s|]. by rewrite Hhd.
Qed.
Lemma find_far_ok id n s near far nps fps L : timers_at n s near far nps fps L →
  ∃ r, on_far (fuel ← fuel_of_heap; find_far fuel (_far_timers s) id) s = Ret r s ∧ first_match (λ v, f_id v =? id) fps far r.
Proof.
  intros []. pose proof (dl_rep_fuel _ _ _ _ ta_far0) as Hfu. destruct ta_far0 as (Hhd & Hs & _ & Hz).
  destruct (find_far_spec id (far_heap s) fps far _ (Datatypes.S (size (far_heap s))) Hs Hz ta_far_view0 ltac:(lia)) as (r & E & Hm).
  exists r. split; [|done]. rewrite (on_far_ok _ s r (far_heap s)); [by destruct s|]. by rewrite Hhd.
Qed.

Lemma eqb_forall_neq {V} (f : V → Z) id l : Forall (λ v, (f v =? id) = false) l → Forall (λ v, f v ≠ id) l.
Proof. intros Hf. eapply Forall_impl; [exact Hf|]. intros v Hv. by apply Z.eqb_neq. Qed.

(** Taking a timer out of either list keeps the rest of the state. *)
Lemma delete_near_spec n s far nps1 p nps2 l1 t l2 fps L :
  timers_at n s (l1 ++ t :: l2) far (nps1 ++ p :: nps2) fps L → length nps1 = length l1 →
  ∃ s' head', on_near (DL_DELETE near_links (_near_timers s) p) s = Ret head' s' ∧ timers_at n (set_near head' s') (l1 ++ l2) far (nps1 ++ nps2) fps L ∧
    keeps s s' ∧ _time_now_utc s' = _time_now_utc s ∧ tm_heap s' = tm_heap s.
Proof.
  intros [Hn Hv Hs Hf Hfv Hfs Hfu Hl Hb Hfw Hnx Htl] Hlen.
  destruct (list_delete_spec near_links near_of (near_heap s) (_near_timers s) nps1 p nps2 l1 t l2) as (head' & h' & E & Hr & Hv' & _); try done.
  exists (set_near_heap h' s), head'. split; [by apply on_near_ok|]. split; [|done]. split; try done.
  - eapply (sorted_remove near_le (λ _, True)); [|by apply Forall_true|exact Hs]. intros a b c _ _ _. apply near_le_trans.
  - intros q Hq. apply Hb. set_solver.
  - rewrite !length_app in *. simpl in *. lia.
Qed.

Lemma delete_far_spec n s near nps fps1 p fps2 l1 t l2 L :
  timers_at n s near (l1 ++ t :: l2) nps (fps1 ++ p :: fps2) L → length fps1 = length l1 →
  ∃ s' head', on_far (DL_DELETE far_links (_far_timers s) p) s = Ret head' s' ∧ timers_at n (set_far head' s') near (l1 ++ l2) nps (fps1 ++ fps2) L ∧
    keeps s s' ∧ _time_now_utc s' = _time_now_utc s ∧ tm_heap s' = tm_heap s ∧ far_heap s' !! p = far_heap s !! p.
Proof.
  intros [Hn Hv Hs Hf Hfv Hfs Hfu Hl Hb Hfw Hnx Htl] Hlen.
  destruct (list_delete_spec far_links far_of (far_heap s) (_far_timers s) fps1 p fps2 l1 t l2) as (head' & h' & E & Hr & Hv' & Hp); try done.
  exists (set_far_heap h' s), head'. split; [by apply on_far_ok|]. split; [|done]. split; try done.
  - eapply (sorted_remove far_le usecs_ok); [|exact Hfu|exact Hfs]. apply far_le_trans.
  - apply Forall_app in Hfu as [H1' H2']. apply Forall_cons in H2' as [_ H2']. by apply Forall_app.
  - intros q Hq. apply Hb. set_solver.
  - rewrite !length_app in *. simpl in *. lia.
Qed.

Lemma cancel_body_spec n s near far nps fps L id :
  timers_at n s near far nps fps L →
  ∃ r s' near' far' nps' fps', cancel_body id s = Ret r s' ∧ keeps s s' ∧ timers_at n s' near' far' nps' fps' L ∧ cancelled id near far r near' far' ∧
    _time_now_utc s' = _time_now_utc s ∧ tm_heap s' = tm_heap s.
Proof.
  intros Hta. unfold cancel_body. rewrite bind_get. destruct (find_near_ok id _ _ _ _ _ _ _ Hta) as (r & E & Hm). step E.
  destruct Hm as [[-> Hnone]|(ps1 & ps2 & l1 & v & l2 & -> & -> & Hlen & Hv & Hf & Hr)].
  - rewrite Z.eqb_refl. cbn [negb]. apply eqb_forall_neq in Hnone. destruct (find_far_ok id _ _ _ _ _ _ _ Hta) as (r & E2 & Hm). step E2.
    destruct Hm as [[-> Hnone2]|(ps1 & ps2 & l1 & v & l2 & -> & -> & Hlen & Hv & Hf & Hr)].
    + rewrite Z.eqb_refl. apply eqb_forall_neq in Hnone2. exists false, s, near, far, nps, fps. split; [done|]. split; [done|]. split; [done|]. split; [|done].
      right. split; [done|]. split; [done|]. by right.
    + rewrite (proj2 (Z.eqb_neq _ _)) by done. cbn [negb]. destruct (delete_far_spec n s near nps ps1 r ps2 l1 v l2 L Hta Hlen) as (s1 & hd & E3 & Hta1 & Hk & Hnow & Hh & _).
      step E3. rewrite bind_modify. exists true, (set_far hd s1), near, (l1 ++ l2), nps, (ps1 ++ ps2). split; [done|]. split; [done|]. split; [done|]. split; [|done].
      right. split; [done|]. split; [done|]. left. exists l1, v, l2. split; [done|]. split; [by apply Z.eqb_eq|]. split; [by apply eqb_forall_neq|done].
  - rewrite (proj2 (Z.eqb_neq _ _)) by done. cbn [negb]. destruct (delete_near_spec n s far ps1 r ps2 l1 v l2 fps L Hta Hlen) as (s1 & hd & E3 & Hta1 & Hk & Hnow & Hh).
    step E3. rewrite bind_modify. exists true, (set_near hd s1), (l1 ++ l2), far, (ps1 ++ ps2), fps. split; [done|]. split; [done|]. split; [done|]. split; [|done].
    left. exists l1, v, l2. split; [done|]. split; [by apply Z.eqb_eq|]. split; [by apply eqb_forall_neq|done].
Qed.

(** ** The clock *)

Lemma timers_cpu n s near far nps fps L : timers_at n s near far nps fps L → flags_word s ∧ current_tid s ≠ 0.
Proof. intros []. exact (k_live_cpu _ _ _ ta_live0). Qed.

Lemma get_time_ok n s near far nps fps L : timers_at n s near far nps fps L → get_time_utc s = Ret (_time_now_utc s) s.
Proof.
  intros Hta. destruct (timers_cpu _ _ _ _ _ _ _ Hta) as [Hw Ht]. pose proof (ta_time_lock _ _ _ _ _ _ _ Hta) as Hl.
  set (s0 := entered time_lock_in (Spinlock (current_tid s) 1) s).
  assert (E0 : get_lock time_lock_in s = Some (Spinlock 0 0)) by exact (f_equal Some Hl).
  etransitivity; [refine (critical_ok time_lock_in s (s ← get; mret (_time_now_utc s)) (_time_now_utc s) s0 E0 Hw Ht eq_refl eq_refl _)|].
  - unfold s0, entered. by rewrite eflags_set_lock, eflags_set.
  - f_equal. unfold s0, entered. rewrite set_set_lock, set_lock_eflags, set_eflags_set, (set_lock_id _ s E0). apply set_eflags_id.
Qed.

(** The microseconds from [now] to [time], as a 32-bit number. *)
Definition usecs_until (now time : timeval) : Z :=
  s32 (1000000 * (tv_sec time - tv_sec now) + (tv_usec time - tv_usec now)).

Lemma s32_cong a b : (a - b) mod W32 = 0 → s32 a = s32 b.
Proof. unfold s32. change W32 with 4294967296. intros E. Z.to_euclidean_division_equations. lia. Qed.

(** The code computes them step by step, with 64 and with 32 bits. *)
Lemma usecs_until_eq now time :
  s32 (s32 (u64 (u64 (tv_sec time - tv_sec now) * 1000000)) + s32 (tv_usec time - tv_usec now)) = usecs_until now time.
Proof.
  unfold usecs_until. generalize (tv_sec time - tv_sec now) (tv_usec time - tv_usec now). intros a b. apply s32_cong.
  unfold s32, u64. change W64 with (4294967296 * 4294967296). change W32 with 4294967296.
  pose proof (Z.div_mod a (4294967296 * 4294967296) ltac:(lia)) as Ha. set (q := a / _) in *. set (r := a mod _) in *.
  pose proof (Z.div_mod (r * 1000000) (4294967296 * 4294967296) ltac:(lia)) as Hc. set (q' := (r * 1000000) / _) in *. set (c := (r * 1000000) mod _) in *.
  replace (1000000 * a) with (c + 4294967296 * (4294967296 * q' + 1000000 * 4294967296 * q)) by lia.
  clearbody q r q' c. clear Ha Hc. Z.to_euclidean_division_equations. lia.
Qed.

(** A time of day whose microseconds are less than a second. *)
Definition time_normal (tv : timeval) : Prop := 0 ≤ tv_usec tv < 1000000 ∧ 0 ≤ tv_sec tv < W64 - NEAR_THRESHOLD_SECS.

(** A far timer is near when its time is at most ten seconds after [now]. *)
Definition due (now : timeval) (t : far_timer) : Prop :=
  tv_sec (f_time t) < tv_sec now + 10 ∨ tv_sec (f_time t) = tv_sec now + 10 ∧ tv_usec (f_time t) ≤ tv_usec now.

Lemma due_iff now t : time_normal now → usecs_ok t →
  time_cmp (f_time t) (time_add now (Timeval NEAR_THRESHOLD_SECS 0)) ≤ 0 ↔ due now t.
Proof.
  intros [Hu Hs] Ht. unfold usecs_ok in Ht. assert (time_add now (Timeval 10 0) = Timeval (tv_sec now + 10) (tv_usec now)) as ->.
  { unfold time_add, time_normalise, u64. rewrite Z.quot_small, Z.rem_small by lia. rewrite Z.mod_0_l, Z.add_0_r by done.
    rewrite (Z.mod_small (tv_usec now)), (Z.mod_small (tv_sec now)) by lia. rewrite (s32_small (tv_usec now)) by lia.
    rewrite (proj2 (Z.ltb_ge (tv_usec now) 0)) by lia. cbn [tv_sec tv_usec].
    by rewrite Z.add_0_r, s32_small, (Z.mod_small (tv_sec now + 10)) by lia. }
  unfold time_cmp, due. cbn [tv_sec tv_usec]. rewrite s32_small by lia.
  destruct (Z.ltb_spec (tv_sec (f_time t)) (tv_sec now + 10)), (Z.ltb_spec (tv_sec now + 10) (tv_sec (f_time t))); lia.
Qed.

Lemma convert_spec n s near t far nps p fps L :
  timers_at (Datatypes.S n) s near (t :: far) nps (p :: fps) L →
  ∃ s' near' nps' L', timers_convert_far_to_near p s = Ret tt s' ∧ keeps s s' ∧ timers_at n s' near' far nps' fps L' ∧
    _time_now_utc s' = _time_now_utc s ∧
    ∃ r, k_alloc sizeof_timer_at_offset (tm_heap s) = Ret r (tm_heap s') ∧
      (r = NULL ∧ near' = near ∨
       r ≠ NULL ∧ near' ≡ₚ Near (f_id t) (usecs_until (_time_now_utc s) (f_time t)) (f_callback t) (f_data t) :: near).
Proof.
  intros Hta. unfold timers_convert_far_to_near. step (get_time_ok _ _ _ _ _ _ _ Hta).
  destruct (view_lookup _ _ _ _ 0 p (ta_far_view _ _ _ _ _ _ _ Hta) eq_refl) as (x & Hx & [= ->]).
  assert (E1 : on_far (load p) s = Ret x s) by (rewrite (on_far_ok _ s x (far_heap s)); [by destruct s|by apply load_ok]). step E1. rewrite bind_get.
  destruct (delete_far_spec (Datatypes.S n) s near nps [] p fps [] (far_of x) far L Hta eq_refl) as (s1 & hd & E2 & Hta1 & Hk1 & Hnow1 & Hh1 & Hp1).
  step E2. rewrite bind_modify. set (s2 := set_far hd s1) in *. rewrite Hx in Hp1.
  assert (E3 : on_far (load p) s2 = Ret x s2) by (rewrite (on_far_ok _ s2 x (far_heap s2)); [by destruct s2|by apply load_ok]). step E3.
  rewrite usecs_until_eq.
  destruct (with_id_spec n s2 near far nps fps L (ft_id x) (usecs_until (_time_now_utc s) (ft_time x)) (ft_callback x) (ft_data x) Hta1)
    as (r & s' & near' & nps' & L' & E4 & Hk & Hta' & Hout & Hnow & Hal).
  step E4. exists s', near', nps', L'. split; [done|]. split; [by eapply keeps_trans|]. split; [done|]. split; [exact (eq_trans Hnow Hnow1)|].
  exists r. split; [|done]. change (tm_heap s2) with (tm_heap s1) in Hal. by rewrite Hh1 in Hal.
Qed.

(** The far timers that are due become near timers, one after the other; [h] is
    the heap before and [h'] after it.  A timer is lost if the heap has no
    struct for it. *)
Inductive far_moved (now : timeval) : list far_timer → list near_timer → H → list far_timer → list near_timer → H → Prop :=
  | fm_none near h : far_moved now [] near h [] near h
  | fm_later t far near h : ¬ due now t → far_moved now (t :: far) near h (t :: far) near h
  | fm_move t far near h p h1 near1 far' near' h' : due now t →
      k_alloc sizeof_timer_at_offset h = Ret p h1 → p ≠ NULL →
      near1 ≡ₚ Near (f_id t) (usecs_until now (f_time t)) (f_callback t) (f_data t) :: near →
      far_moved now far near1 h1 far' near' h' → far_moved now (t :: far) near h far' near' h'
  | fm_lost t far near h h1 far' near' h' : due now t →
      k_alloc sizeof_timer_at_offset h = Ret NULL h1 →
      far_moved now far near h1 far' near' h' → far_moved now (t :: far) near h far' near' h'.

Lemma far_loop_spec n now fps (thr := time_add now (Timeval NEAR_THRESHOLD_SECS 0)) : time_normal now → ∀ fuel s near far nps L,
  timers_at (length fps + n) s near far nps fps L → _time_now_utc s = now → (length fps < fuel)%nat →
  ∃ s' near' far' nps' fps' L', far_loop fuel thr (first_or NULL fps) s = Ret tt s' ∧ keeps s s' ∧
    timers_at n s' near' far' nps' fps' L' ∧ far_moved now far near (tm_heap s) far' near' (tm_heap s').
Proof.
  intros Hnorm. induction fps as [|p fps IH]; intros [|fuel] s near far nps L Hta Hnw Hf; simpl in Hf; try lia; cbn [far_loop].
  - assert (far = []) as -> by (pose proof (ta_far_view _ _ _ _ _ _ _ Hta) as Hv; by inversion Hv).
    exists s, near, [], nps, [], L. split; [done|]. split; [done|]. split; [done|]. constructor.
  - pose proof (ta_far_view _ _ _ _ _ _ _ Hta) as Hv. destruct far as [|t far0]; [by inversion Hv|]. apply Forall2_cons in Hv as [Hpt Hv0].
    destruct (ta_far _ _ _ _ _ _ _ Hta) as (_ & (x & Hx & _ & Hnx & _) & _ & Hz). rewrite Hx in Hpt. injection Hpt as <-.
    change (first_or NULL (p :: fps)) with p. rewrite (proj2 (Z.eqb_neq p NULL)) by set_solver.
    assert (E1 : on_far (load p) s = Ret x s) by (rewrite (on_far_ok _ s x (far_heap s)); [by destruct s|by apply load_ok]). step E1.
    change (ft_next x) with (dl_next far_links x). rewrite Hnx.
    pose proof (due_iff now (far_of x) Hnorm (proj1 (proj1 (Forall_cons _ _ _) (ta_far_usecs _ _ _ _ _ _ _ Hta)))) as Hdue.
    fold thr in Hdue. cbn [far_of f_time] in Hdue. destruct (Z.leb_spec (time_cmp (ft_time x) thr) 0) as [Hle|Hgt].
    + destruct (convert_spec (length fps + n) s near (far_of x) far0 nps p fps L Hta)
        as (s1 & near1 & nps1 & L1 & E2 & Hk1 & Hta1 & Hnow1 & r & Hal & Hout). step E2. rewrite Hnw in Hout, Hnow1.
      destruct (IH fuel s1 near1 far0 nps1 L1 Hta1 Hnow1 ltac:(lia)) as (s' & near' & far' & nps' & fps' & L' & E & Hk & Hta' & Hfm).
      exists s', near', far', nps', fps', L'. split; [done|]. split; [by eapply keeps_trans|]. split; [done|]. apply Hdue in Hle.
      destruct Hout as [[-> ->]|[Hr Hp]]; [by eapply fm_lost|by eapply fm_move].
    + exists s, near, (far_of x :: far0), nps, (p :: fps), L. split; [done|]. split; [done|]. split; [|apply fm_later; intros Hd%Hdue; lia].
      destruct Hta as [? ? ? ? ? ? ? Hlive ? Hfw ? ?]. split; try done; [by eapply k_live_mono; [exact Hlive|lia]|simpl in *; lia].
Qed.

Lemma update_far_spec n s near far nps fps L :
  timers_at (length fps + n) s near far nps fps L → time_normal (_time_now_utc s) →
  ∃ s' near' far' nps' fps' L', timers_update_far_timers s = Ret tt s' ∧ keeps s s' ∧
    timers_at n s' near' far' nps' fps' L' ∧ far_moved (_time_now_utc s) far near (tm_heap s) far' near' (tm_heap s').
Proof.
  intros Hta Hnorm. unfold timers_update_far_timers. step (get_time_ok _ _ _ _ _ _ _ Hta). rewrite bind_get.
  pose proof (dl_rep_fuel _ _ _ _ (ta_far _ _ _ _ _ _ _ Hta)) as Hfu. destruct (ta_far _ _ _ _ _ _ _ Hta) as (Hhd & _).
  assert (E : on_far fuel_of_heap s = Ret (Datatypes.S (size (far_heap s))) s) by (rewrite (on_far_ok fuel_of_heap s _ (far_heap s) eq_refl); by destruct s). step E.
  rewrite Hhd. eapply far_loop_spec; [done|exact Hta|done|lia].
Qed.

(** ** Near timers count down *)
Definition count_down (us : Z) (t : near_timer) : near_timer := Near (n_id t) (s32 (n_delay t - us)) (n_callback t) (n_data t).

Lemma s32_u32 z : s32 (u32 z) = s32 z.
Proof. unfold s32, u32. Z.to_euclidean_division_equations. lia. Qed.

Lemma advance_loop_spec us ps : ∀ fuel h a l, dl_seg near_links h a ps NULL → NULL ∉ ps → NoDup ps → view near_of h ps l → (length ps < fuel)%nat →
  ∃ h', advance_loop fuel (first_or NULL ps) us h = Ret tt h' ∧ view near_of h' ps (count_down us <$> l) ∧
    (∀ q, q ∉ ps → h' !! q = h !! q) ∧ dl_seg near_links h' a ps NULL.
Proof.
  induction ps as [|p ps IH]; intros [|fuel] h a l Hs Hz Hnd Hv Hf; simpl in Hf; try lia; cbn [advance_loop].
  - inversion Hv; subst. exists h. split; [done|]. split; [constructor|done].
  - destruct Hs as (t & Ht & Hpr & Hnx & Hs). apply not_elem_of_cons in Hz as [Hp Hz]. apply NoDup_cons in Hnd as [Hni Hnd].
    inversion Hv as [|? v ? l0 Hpv Hv0]; subst. rewrite Ht in Hpv. injection Hpv as <-.
    change (first_or NULL (p :: ps)) with p. rewrite (proj2 (Z.eqb_neq p NULL)) by done. step (load_ok _ _ _ Ht).
    set (t1 := set_delay (s32 (u32 (delay t - us))) t). step (update_ok _ _ _ (set_delay (s32 (u32 (delay t - us)))) Ht). fold t1.
    set (h1 := <[p := t1]> h). assert (Hh1 : ∀ q, q ∈ ps → h1 !! q = h !! q) by (intros q Hq; apply lookup_insert_ne; by intros ->).
    step (load_ok h1 p t1 (lookup_insert_eq _ _ _)). change (nt_next t1) with (dl_next near_links t). rewrite Hnx.
    destruct (IH fuel h1 p l0) as (h' & E & Hv' & Hout & Hs'); try done.
    + eapply dl_seg_frame; [|exact Hs]. done.
    + eapply view_ext; [|exact Hv0]. intros q Hq. by rewrite Hh1.
    + lia.
    + assert (Hp' : h' !! p = Some t1) by (rewrite Hout by done; apply lookup_insert_eq). exists h'. split; [done|]. split; [|split].
      * constructor; [|done]. rewrite Hp'. simpl. unfold near_of, count_down, t1. simpl. by rewrite s32_u32.
      * intros q Hq. apply not_elem_of_cons in Hq as [Hq1 Hq2]. rewrite Hout by done. by apply lookup_insert_ne.
      * exists t1. by split_and!.
Qed.

Lemma count_down_sorted us near :
  Forall (λ t, - 2 ^ 31 ≤ n_delay t - us < 2 ^ 31) near → Sorted near_le near → Sorted near_le (count_down us <$> near).
Proof.
  intros Hf Hs. induction Hs as [|t near Hs IH Hh]; [constructor|]. apply Forall_cons in Hf as [Ht Hf]. cbn. constructor; [by apply IH|].
  destruct Hh as [|u near Hu]; constructor. apply Forall_cons in Hf as [Hu' _]. unfold near_le, count_down in *. simpl. rewrite !s32_small by lia. lia.
Qed.

Lemma advance_body_spec n us s near far nps fps L :
  timers_at (length fps + n) s near far nps fps L → time_normal (_time_now_utc s) → Forall (λ t, - 2 ^ 31 ≤ n_delay t - us < 2 ^ 31) near →
  ∃ s' near' far' nps' fps' L', advance_body us s = Ret tt s' ∧ keeps s s' ∧
    timers_at n s' near' far' nps' fps' L' ∧ far_moved (_time_now_utc s) far (count_down us <$> near) (tm_heap s) far' near' (tm_heap s').
Proof.
  intros Hta Hnorm Hw. unfold advance_body. rewrite bind_get. pose proof (dl_rep_fuel _ _ _ _ (ta_near _ _ _ _ _ _ _ Hta)) as Hfu.
  destruct (ta_near _ _ _ _ _ _ _ Hta) as (Hhd & Hs & Hnd & Hz).
  destruct (advance_loop_spec us nps (Datatypes.S (size (near_heap s))) (near_heap s) _ near Hs Hz Hnd (ta_near_view _ _ _ _ _ _ _ Hta) ltac:(lia))
    as (h' & E & Hv & _ & Hs').
  assert (E2 : on_near (fuel ← fuel_of_heap; advance_loop fuel (_near_timers s) us) s = Ret tt (set_near_heap h' s)).
  { apply on_near_ok. by rewrite Hhd. }
  step E2. destruct (update_far_spec n (set_near_heap h' s) (count_down us <$> near) far nps fps L) as (s' & near' & far' & nps' & fps' & L' & E3 & Hk & Hta' & Hfm).
  - destruct Hta. split; try done. by apply count_down_sorted.
  - done.
  - exists s', near', far', nps', fps', L'. by split_and!.
Qed.

Lemma next_delay_spec n s near far nps fps L : timers_at n s near far nps fps L →
  next_delay_body s = Ret (match near with [] => -1 | t :: _ => Z.max 0 (n_delay t) end) s.
Proof.
  intros Hta. unfold next_delay_body. rewrite bind_get. pose proof (ta_near_view _ _ _ _ _ _ _ Hta) as Hv.
  destruct (ta_near _ _ _ _ _ _ _ Hta) as (Hhd & Hs & _ & Hz). inversion Hv as [|p v ps l Hpv Hv0]; subst; rewrite Hhd; [done|].
  destruct Hs as (t & Ht & _). rewrite Ht in Hpv. injection Hpv as <-. change (first_or NULL (p :: ps)) with p.
  rewrite (proj2 (Z.eqb_neq p NULL)) by set_solver. cbn [negb].
  assert (E1 : on_near (load p) s = Ret t s) by (rewrite (on_near_ok _ s t (near_heap s)); [by destruct s|by apply load_ok]). step E1.
  simpl. destruct (Z.ltb_spec (delay t) 0); unfold mret, M_ret; f_equal; lia.
Qed.

(** ** The critical sections *)

(** The lock is free, or held by the running thread. *)
Definition may_lock (s : S) : Prop :=
  let l := _timer_lock s in
  0 ≤ nested l < W32 - 1 ∧ (nested l = 0 ∧ owner l = 0 ∨ 0 < nested l ∧ owner l = current_tid s).

Lemma timers_relock n s near far nps fps L l f :
  timers_at n s near far nps fps L → 0 ≤ f < W32 → timers_at n (set_eflags f (set_timer_lock l s)) near far nps fps L.
Proof. intros [] Hf. split; try done. by apply k_live_flags. Qed.

(** Inside the section the timers are the same; after it the lock and the flags are as before. *)
Lemma critical_timers {A} (body : M S A) n s near far nps fps L a s1 n' near' far' nps' fps' L'
    (s0 := entered timer_lock_in (Spinlock (current_tid s) (u32 (nested (_timer_lock s) + 1))) s) :
  timers_at n s near far nps fps L → may_lock s → body s0 = Ret a s1 → keeps s0 s1 → timers_at n' s1 near' far' nps' fps' L' →
  (flags ← timers_lock; a ← body; timers_unlock flags;; mret a) s = Ret a (set_eflags (eflags s) (set_timer_lock (_timer_lock s) s1)) ∧
  timers_at n' (set_eflags (eflags s) (set_timer_lock (_timer_lock s) s1)) near' far' nps' fps' L' ∧
  current_tid (set_eflags (eflags s) (set_timer_lock (_timer_lock s) s1)) = current_tid s.
Proof.
  intros Hta [Hn Hl] E (Kl & Kf & Kt) Hta1. destruct (timers_cpu _ _ _ _ _ _ _ Hta) as [Hw Ht].
  assert (Ef : eflags s0 = Z.clearbit (eflags s) flags_if_bit) by (unfold s0, entered; by rewrite eflags_set_lock, eflags_set).
  split; [|split].
  - refine (critical_nested_ok timer_lock_in s (_timer_lock s) body a s1 eq_refl Hn Hl Hw Ht E _ _).
    + exact (f_equal Some Kl).
    + exact (eq_trans Kf Ef).
  - by apply timers_relock.
  - rewrite tid_set_eflags. change (current_tid (set_timer_lock (_timer_lock s) s1)) with (current_tid (tm_heap s1)). rewrite Kt. exact (entered_tid timer_lock_in _ s).
Qed.

Lemma timers_entered n s near far nps fps L l :
  timers_at n s near far nps fps L → timers_at n (entered timer_lock_in l s) near far nps fps L.
Proof.
  intros Hta. destruct (timers_cpu _ _ _ _ _ _ _ Hta) as [Hw _]. apply (timers_relock n s near far nps fps L l _ Hta), clearbit_word, Hw.
Qed.

(** ** What the operations promise *)

(** No thread holds the lock, and the timers are [near] and [far]; the near
    timers are in the order of their delays. *)
Definition timers_ok (n : nat) (s : S) (near : list near_timer) (far : list far_timer) : Prop :=
  (∃ nps fps L, timers_at n s near far nps fps L) ∧ _timer_lock s = Spinlock 0 0.

Inductive timer_op :=
  | Schedule (useconds callback data : Z)
  | Cancel (id : Z)
  | NextDelay
  | Advance (usecs : Z).

Definition run_timer_op (op : timer_op) : M S Z :=
  match op with
  | Schedule us cb d => timer_schedule_delay us cb d
  | Cancel id => r ← timer_cancel id; mret (Z.b2z r)
  | NextDelay => timers_next_delay
  | Advance us => timers_advance_clock us;; mret 0
  end.

(** The structs an operation may ask for, and the delays that do not overflow. *)
Definition op_cost (op : timer_op) (far : list far_timer) : nat :=
  match op with Schedule _ _ _ => 1%nat | Advance _ => length far | _ => 0%nat end.
Definition op_ok (op : timer_op) (now : timeval) (near : list near_timer) : Prop :=
  match op with Advance us => time_normal now ∧ Forall (λ t, - 2 ^ 31 ≤ n_delay t - us < 2 ^ 31) near | _ => True end.

(** From the heap [h] to the heap [h']. *)
Definition timer_spec (op : timer_op) (now : timeval) (h : H) near far (r : Z) (h' : H) near' far' : Prop :=
  match op with
  | Schedule us cb d => far' = far ∧ ∃ p, k_alloc sizeof_timer_at_offset h = Ret p h' ∧
      (p = NULL ∧ r = -1 ∧ near' = near ∨ p ≠ NULL ∧ 0 < r ∧ near' ≡ₚ Near r us cb d :: near)
  | Cancel id => h' = h ∧ ∃ b, r = Z.b2z b ∧ cancelled id near far b near' far'
  | NextDelay => h' = h ∧ near' = near ∧ far' = far ∧ r = match near with [] => -1 | t :: _ => Z.max 0 (n_delay t) end
  | Advance us => far_moved now far (count_down us <$> near) h far' near' h'
  end.

(** The heap with interrupts off, as the operations find it. *)
Definition locked_heap (s : S) : H := set_eflags (Z.clearbit (eflags s) flags_if_bit) (tm_heap s).

Lemma timers_at_mono n m s near far nps fps L : timers_at n s near far nps fps L → (m ≤ n)%nat → timers_at m s near far nps fps L.
Proof. intros [] Hle. split; try done; [by eapply k_live_mono|lia]. Qed.

Lemma free_may_lock s : _timer_lock s = Spinlock 0 0 → may_lock s.
Proof. intros E. unfold may_lock. rewrite E. simpl. split; [lia|by left]. Qed.

Lemma schedule_delay_spec n s near far us cb d : timers_ok (1 + n) s near far →
  ∃ r s' near' h' p, timer_schedule_delay us cb d s = Ret r s' ∧ timers_ok n s' near' far ∧ tm_heap s' = set_eflags (eflags s) h' ∧
    k_alloc sizeof_timer_at_offset (locked_heap s) = Ret p h' ∧
    (p = NULL ∧ r = -1 ∧ near' = near ∨ p ≠ NULL ∧ 0 < r ∧ near' ≡ₚ Near r us cb d :: near) ∧ eflags s' = eflags s ∧ current_tid s' = current_tid s.
Proof.
  intros [(nps & fps & L & Hta) Hl]. pose proof (free_may_lock s Hl) as Hm. set (l1 := Spinlock (current_tid s) (u32 (nested (_timer_lock s) + 1))).
  set (s0 := entered timer_lock_in l1 s). pose proof (timers_entered _ _ _ _ _ _ _ l1 Hta : timers_at _ s0 near far nps fps L) as Hta0.
  destruct (schedule_body_spec n s0 near far nps fps L us cb d Hta0) as (r & s1 & near' & nps' & L' & E & Hk & Hta1 & p & Hal & Hout).
  destruct (critical_timers (schedule_delay_body us cb d) _ s near far nps fps L r s1 n near' far nps' fps L' Hta Hm E Hk Hta1) as (E' & Hta' & Ht').
  exists r, (set_eflags (eflags s) (set_timer_lock (_timer_lock s) s1)), near', (tm_heap s1), p. split; [exact E'|]. split; [split; [by exists nps', fps, L'|exact Hl]|].
  split; [done|]. split; [exact Hal|]. split; [|split; [apply eflags_set|exact Ht']].
  destruct Hout as [(-> & -> & ->)|(Hp & -> & Hperm)]; [by left|right]. split; [done|]. split; [|done]. exact (proj1 (id_after_range _ (ta_next _ _ _ _ _ _ _ Hta0))).
Qed.

Lemma section_unit {F} (l : M S F) (body : M S unit) (u : F → M S unit) s :
  (flags ← l; body;; u flags) s = (flags ← l; a ← body; u flags;; mret a) s.
Proof.
  unfold mbind, M_bind. destruct (l s) as [flags s'| | |]; try done. destruct (body s') as [[] s2| | |]; try done.
  by destruct (u flags s2) as [[] s3| | |].
Qed.

(** C21: with enough of the heap's bookkeeping memory left for the structs
    it may ask for, each of scheduling, cancelling, asking for the next delay and
    advancing the clock returns, with the lock released, the interrupt flag and
    the running thread as they were, and the lists of timers well-formed: the near
    timers in the order of their delays, the far timers in the order of their
    times.  Scheduling asks the heap for one struct; if it gets one, it adds
    exactly the new timer, under a positive identifier, and otherwise it returns
    -1 and changes no timer.  Cancelling takes away the first timer with the
    identifier, near or else far.  Advancing the clock, if the clock holds a
    normalised time and no delay leaves the range of 32 bits, counts every near
    timer down and moves the far timers that are due within ten seconds to the
    near ones, each with the microseconds up to its time as its delay; a far
    timer is lost only if the heap has no struct for it. *)
Theorem timers_refine op n s near far :
  timers_ok (op_cost op far + n) s near far → op_ok op (_time_now_utc s) near →
  ∃ r s' near' far' h', run_timer_op op s = Ret r s' ∧ timers_ok n s' near' far' ∧ tm_heap s' = set_eflags (eflags s) h' ∧
    timer_spec op (_time_now_utc s) (locked_heap s) near far r h' near' far' ∧
    eflags s' = eflags s ∧ current_tid s' = current_tid s.
Proof.
  intros [(nps & fps & L & Hta) Hl] Hok. pose proof (free_may_lock s Hl) as Hm.
  set (s0 := entered timer_lock_in (Spinlock (current_tid s) (u32 (nested (_timer_lock s) + 1))) s).
  pose proof (timers_entered _ _ _ _ _ _ _ (Spinlock (current_tid s) (u32 (nested (_timer_lock s) + 1))) Hta : timers_at _ s0 near far nps fps L) as Hta0.
  assert (Hlen : length fps = length far) by exact (Forall2_length _ _ _ (ta_far_view _ _ _ _ _ _ _ Hta)).
  destruct op as [us cb d|id| |us]; cbn [op_cost op_ok run_timer_op timer_spec] in *.
  - destruct (schedule_delay_spec n s near far us cb d) as (r & s' & near' & h' & p & E & Hok' & Hh & Hal & Hout & Hf & Ht);
      [split; [by exists nps, fps, L|done]|].
    exists r, s', near', far, h'. do 3 (split; [done|]). split; [|done]. split; [done|]. by exists p.
  - destruct (cancel_body_spec n s0 near far nps fps L id Hta0) as (r & s1 & near' & far' & nps' & fps' & E & Hk & Hta1 & Hout & _ & Hh).
    destruct (critical_timers (cancel_body id) _ s near far nps fps L r s1 n near' far' nps' fps' L Hta Hm E Hk Hta1) as (E' & Hta' & Ht').
    exists (Z.b2z r), (set_eflags (eflags s) (set_timer_lock (_timer_lock s) s1)), near', far', (tm_heap s1).
    split; [unfold timer_cancel; by rewrite (bind_ret _ _ _ _ _ E')|].
    split; [split; [by exists nps', fps', L|exact Hl]|]. split; [done|]. split; [split; [exact Hh|by exists r]|]. split; [apply eflags_set|exact Ht'].
  - pose proof (next_delay_spec n s0 near far nps fps L Hta0) as E.
    destruct (critical_timers next_delay_body _ s near far nps fps L _ s0 n near far nps fps L Hta Hm E ltac:(done) Hta0) as (E' & Hta' & Ht').
    eexists _, _, near, far, (tm_heap s0). split; [exact E'|]. split; [split; [by exists nps, fps, L|exact Hl]|]. split; [done|]. split; [done|].
    split; [apply eflags_set|exact Ht'].
  - rewrite <- Hlen in Hta, Hta0. destruct Hok as [Hnorm Hok].
    destruct (advance_body_spec n us s0 near far nps fps L Hta0 Hnorm Hok) as (s1 & near' & far' & nps' & fps' & L' & E & Hk & Hta1 & Hfm).
    destruct (critical_timers (advance_body us) _ s near far nps fps L tt s1 n near' far' nps' fps' L' Hta Hm E Hk Hta1) as (E' & Hta' & Ht').
    exists 0, (set_eflags (eflags s) (set_timer_lock (_timer_lock s) s1)), near', far', (tm_heap s1).
    split; [rewrite <- section_unit in E'; unfold timers_advance_clock; by rewrite (bind_ret _ _ _ _ _ E')|].
    split; [split; [by exists nps', fps', L'|exact Hl]|]. split; [done|]. split; [exact Hfm|]. split; [apply eflags_set|exact Ht'].
Qed.

(** ** Timers that are due *)

(** A callback that does not touch the timers; [log] is what it does to the rest of the kernel. *)
Definition callback_ok (log : Z → Z → Z → H → H) : Prop :=
  (∀ cb id d s, call cb id d s = Ret tt (set_tm_heap (log cb id d (tm_heap s)) s)) ∧
  ∀ cb id d h, (∀ n L, k_live n h L → k_live n (log cb id d h) L) ∧ eflags (log cb id d h) = eflags h ∧ current_tid (log cb id d h) = current_tid h.

Lemma cancelled_head t near far r near' far' : cancelled (n_id t) (t :: near) far r near' far' → near' = near ∧ far' = far ∧ r = true.
Proof.
  intros [(l1 & u & l2 & E & Hid & Hf & -> & -> & ->)|[Hf _]].
  - destruct l1 as [|v l1]; simpl in E; injection E as <- ->; [done|]. by apply Forall_cons in Hf as [[] _].
  - by apply Forall_cons in Hf as [[] _].
Qed.

(** [timer_cancel] of the first near timer, also with the lock held. *)
Lemma cancel_head_spec n s t near far nps fps L :
  timers_at n s (t :: near) far nps fps L → may_lock s →
  ∃ s' nps' fps', timer_cancel (n_id t) s = Ret true s' ∧ timers_at n s' near far nps' fps' L ∧ keeps s s' ∧ tm_heap s' = tm_heap s.
Proof.
  intros Hta Hm. set (l1 := Spinlock (current_tid s) (u32 (nested (_timer_lock s) + 1))). set (s0 := entered timer_lock_in l1 s).
  pose proof (timers_entered _ _ _ _ _ _ _ l1 Hta : timers_at _ s0 (t :: near) far nps fps L) as Hta0.
  destruct (cancel_body_spec n s0 _ far nps fps L (n_id t) Hta0) as (r & s1 & near' & far' & nps' & fps' & E & Hk & Hta1 & Hout & _ & Hh).
  apply cancelled_head in Hout as (-> & -> & ->).
  destruct (critical_timers (cancel_body (n_id t)) _ s _ far nps fps L true s1 n near far nps' fps' L Hta Hm E Hk Hta1) as (E' & Hta' & Ht').
  eexists _, nps', fps'. split; [exact E'|]. split; [exact Hta'|].
  assert (Heq : tm_heap (set_eflags (eflags s) (set_timer_lock (_timer_lock s) s1)) = tm_heap s).
  { change (set_eflags (eflags (tm_heap s)) (tm_heap s1) = tm_heap s). rewrite Hh.
    change (set_eflags (eflags (tm_heap s)) (set_eflags (Z.clearbit (eflags (tm_heap s)) flags_if_bit) (tm_heap s)) = tm_heap s).
    by rewrite set_eflags_set, set_eflags_id. }
  split; [|exact Heq]. split; [done|]. by rewrite Heq.
Qed.

Lemma handle_body_spec log n s near far nps fps L :
  callback_ok log → timers_at n s near far nps fps L → may_lock s →
  ∃ r s' near' nps' fps', handle_body s = Ret r s' ∧ keeps s s' ∧ timers_at n s' near' far nps' fps' L ∧
    match near with
    | t :: rest => if n_delay t <=? 0 then r = true ∧ near' = rest ∧
                     tm_heap s' = (if n_callback t =? NULL then tm_heap s else log (n_callback t) (n_id t) (n_data t) (tm_heap s))
                   else r = false ∧ near' = near ∧ s' = s
    | [] => r = false ∧ near' = near ∧ s' = s
    end.
Proof.
  intros [Hcall Hlog] Hta Hm. unfold handle_body. rewrite bind_get. pose proof (ta_near_view _ _ _ _ _ _ _ Hta) as Hv.
  destruct (ta_near _ _ _ _ _ _ _ Hta) as (Hhd & Hs & _ & Hz). inversion Hv as [|p v ps l Hpv Hv0]; subst; rewrite Hhd.
  - step (ret_ok false s). exists false, s, [], [], fps. by split_and!.
  - destruct Hs as (t & Ht & _). rewrite Ht in Hpv. injection Hpv as <-. change (first_or NULL (p :: ps)) with p.
    rewrite (proj2 (Z.eqb_neq p NULL)) by set_solver. cbn [negb].
    assert (Hload : ∀ s1, near_heap s1 = near_heap s → on_near (load p) s1 = Ret t s1).
    { intros s1 Eh. rewrite (on_near_ok _ s1 t (near_heap s1)); [by destruct s1|]. rewrite Eh. by apply load_ok. }
    step (Hload s eq_refl). step (ret_ok (delay t <=? 0) s). simpl n_delay. destruct (delay t <=? 0).
    2: { exists false, s, (near_of t :: l), (p :: ps), fps. by split_and!. }
    step (Hload s eq_refl). set (h1 := if nt_callback t =? NULL then tm_heap s else log (nt_callback t) (nt_id t) (nt_data t) (tm_heap s)).
    assert (Ec : (if negb (nt_callback t =? NULL) then call (nt_callback t) (nt_id t) (nt_data t) else mret tt) s = Ret tt (set_tm_heap h1 s)).
    { unfold h1. destruct (nt_callback t =? NULL); cbn [negb]; [by destruct s|apply Hcall]. }
    step Ec. set (s1 := set_tm_heap h1 s). step (Hload s1 eq_refl).
    assert (Hh1 : (∀ n L, k_live n (tm_heap s) L → k_live n h1 L) ∧ eflags h1 = eflags (tm_heap s) ∧ current_tid h1 = current_tid (tm_heap s)).
    { unfold h1. destruct (nt_callback t =? NULL); [done|apply Hlog]. }
    destruct Hh1 as (Hlive & Hf1 & Ht1). assert (Hta1 : timers_at n s1 (near_of t :: l) far (p :: ps) fps L) by (destruct Hta; split; try done; by apply Hlive).
    destruct (cancel_head_spec n s1 (near_of t) l far (p :: ps) fps L Hta1) as (s2 & nps' & fps' & E2 & Hta2 & Hk2 & Hh2).
    { destruct Hm as [? [?|[? Ho]]]; split; try done; [by left|right]. split; [done|]. exact (eq_trans Ho (eq_sym Ht1)). }
    change (nt_id t) with (n_id (near_of t)). step E2. exists true, s2, l, nps', fps'. split; [done|]. split; [|by split].
    eapply (keeps_trans _ s1); [|exact Hk2]. by split.
Qed.

(** [timers_handle_near_timers] fires the timer with the least delay, if
    that delay has run out: it calls the timer's callback with its identifier
    and data, takes the timer off the list and returns true.  If no timer is
    due it returns false and nothing changes.  The lock is free afterwards, the
    interrupt flag and the running thread are as before. *)
Theorem timers_handle_earliest log n s near far :
  callback_ok log → timers_ok n s near far →
  ∃ r s' near', timers_handle_near_timers s = Ret r s' ∧ timers_ok n s' near' far ∧ eflags s' = eflags s ∧ current_tid s' = current_tid s ∧
    match near with
    | t :: rest => Forall (near_le t) rest ∧
        if n_delay t <=? 0 then r = true ∧ near' = rest ∧
          (n_callback t ≠ NULL → tm_heap s' = set_eflags (eflags s)
             (log (n_callback t) (n_id t) (n_data t) (set_eflags (Z.clearbit (eflags s) flags_if_bit) (tm_heap s))))
        else r = false ∧ near' = near ∧ s' = s
    | [] => r = false ∧ near' = near ∧ s' = s
    end.
Proof.
  intros Hcb [(nps & fps & L & Hta) Hl]. pose proof (free_may_lock s Hl) as Hm. set (l1 := Spinlock (current_tid s) (u32 (nested (_timer_lock s) + 1))).
  set (s0 := entered timer_lock_in l1 s). pose proof (timers_entered _ _ _ _ _ _ _ l1 Hta : timers_at _ s0 near far nps fps L) as Hta0.
  assert (Hm0 : may_lock s0).
  { unfold may_lock. change (_timer_lock s0) with l1. assert (Hn1 : nested l1 = 1) by (unfold l1; rewrite Hl; reflexivity). rewrite Hn1.
    split; [lia|right]. split; [lia|]. symmetry. exact (entered_tid timer_lock_in _ s). }
  destruct (handle_body_spec log n s0 near far nps fps L Hcb Hta0 Hm0) as (r & s1 & near' & nps' & fps' & E & Hk & Hta1 & Hout).
  destruct (critical_timers handle_body _ s near far nps fps L r s1 n near' far nps' fps' L Hta Hm E Hk Hta1) as (E' & Hta' & Ht').
  set (s' := set_eflags (eflags s) (set_timer_lock (_timer_lock s) s1)) in *.
  assert (Hsame : s1 = s0 → s' = s).
  { intros ->. unfold s', s0, entered. change (set_timer_lock (_timer_lock s)) with (set_lock timer_lock_in (_timer_lock s)).
    rewrite set_set_lock, set_lock_eflags, set_eflags_set, (set_lock_id (_timer_lock s) s) by done. apply set_eflags_id. }
  exists r, s', near'. split; [exact E'|]. split; [split; [by exists nps', fps', L|exact Hl]|]. split; [apply eflags_set|]. split; [exact Ht'|].
  destruct near as [|t rest]; [destruct Hout as (? & ? & ?); auto|]. split.
  - pose proof (ta_near_sorted _ _ _ _ _ _ _ Hta) as Hs. apply Sorted_StronglySorted in Hs; [|intros a b c; apply near_le_trans].
    apply StronglySorted_inv in Hs as [_ Hs]. exact Hs.
  - destruct (n_delay t <=? 0); destruct Hout as (-> & -> & Hh); [|auto]. split; [done|]. split; [done|]. intros Hc.
    rewrite (proj2 (Z.eqb_neq _ _)) in Hh by done. change (tm_heap s') with (set_eflags (eflags s) (tm_heap s1)). by rewrite Hh.
Qed.
End Timer.

(** ** Timers of a concrete kernel *)

#[local] Instance ex_kheap : Kheap mstate := malloc_kheap ex_vma ex_fresh ex_vfresh.
#[local] Instance ex_kheap_laws : KheapLaws mstate := malloc_kheap_laws ex_vma ex_fresh ex_vfresh.
#[local] Opaque ex_heap.

Definition ex_junk_near (_ : Z) : timer_at_offset := TimerAtOffset 0 0 0 0 0 0.
Definition ex_junk_far (_ : Z) : timer_at_time := TimerAtTime 0 (Timeval 0 0) 0 0 0 0.
(** A callback that does nothing. *)
Definition ex_call (_ _ _ : Z) : M (tmstate mstate) unit := mret tt.
Definition ex_timers : tmstate mstate := TmState (Timeval 1000 0) (Spinlock 0 0) 0 NULL NULL (Spinlock 0 0) ∅ ∅ ex_heap.

Lemma ex_timers_ok n : (n ≤ 20)%nat → timers_ok n ex_timers [] [].
Proof.
  intros Hn. assert (Hrep : ∀ {T} (lk : dlinks T), dl_rep lk ∅ NULL []) by (intros; split_and!; [done|done|constructor|apply not_elem_of_nil]).
  split; [|reflexivity]. exists [], [], ∅. split.
  - apply Hrep.
  - constructor.
  - constructor.
  - apply Hrep.
  - constructor.
  - constructor.
  - constructor.
  - split; [exists ∅; split; [apply ex_heap_inv|]|].
    + intros p sz. by rewrite lookup_empty.
    + apply ex_heap_room. assert (call_cost = 16679) as -> by reflexivity. lia.
  - intros p [Hp|Hp]; by apply elem_of_nil in Hp.
  - simpl. lia.
  - simpl. lia.
  - reflexivity.
Qed.

(** A timer that is due. *)
Definition ex_due : tmstate mstate := match timer_schedule_delay ex_junk_near 0 4096 7 ex_timers with Ret _ s => s | _ => ex_timers end.

Lemma ex_due_ok n : (n ≤ 19)%nat → timers_ok n ex_due [Near 1 0 4096 7] [].
Proof.
  intros Hn. destruct (schedule_delay_spec ex_junk_near ex_junk_far ex_call n ex_timers [] [] 0 4096 7 (ex_timers_ok (1 + n) ltac:(lia)))
    as (r & s' & near' & h' & p & E & Hok & _ & _ & Hout & _).
  assert (Hr : match timer_schedule_delay ex_junk_near 0 4096 7 ex_timers with Ret r _ => r =? 1 | _ => false end = true) by (vm_compute; reflexivity).
  unfold ex_due. rewrite E in Hr |- *. apply Z.eqb_eq in Hr as ->. destruct Hout as [(_ & Hr & _)|(_ & _ & Hp)]; [discriminate Hr|].
  apply Permutation_singleton_r in Hp as ->. exact Hok.
Qed.

(** The first far timer, in the block [p]. *)
Definition add_far (p : Z) (time : timeval) (h : mstate) (s : tmstate mstate) : tmstate mstate :=
  set_far p (set_far_heap {[p := TimerAtTime 9 time NULL p 8192 5]} (set_tm_heap h s)).

Lemma add_far_ok n s near p time h : timers_ok (S n) s near [] → usecs_ok (Far 9 time 8192 5) →
  k_alloc sizeof_timer_at_time (tm_heap s) = Ret p h → p ≠ NULL → timers_ok n (add_far p time h s) near [Far 9 time 8192 5].
Proof.
  intros [(nps & fps & L & []) Hl] Hus Hal Hp. assert (fps = []) as -> by by inversion ta_far_view0.
  destruct (k_alloc_ok n (tm_heap s) L sizeof_timer_at_time ta_live0 ltac:(done)) as (p' & h' & E & _ & _ & Hout). rewrite Hal in E. injection E as <- <-.
  destruct Hout as [[? _]|(_ & HL & Hlive)]; [done|]. split; [|done]. exists nps, [p], (<[p := sizeof_timer_at_time]> L).
  split; cbn [add_far set_far set_far_heap set_tm_heap near_heap _near_timers far_heap _far_timers tm_heap _next_timer_id _time_lock]; try done.
  - split; [done|]. split; [|split; [apply NoDup_singleton|by rewrite list_elem_of_singleton]]. eexists. split; [apply lookup_singleton_eq|]. by split_and!.
  - constructor; [|constructor]. by rewrite lookup_singleton_eq.
  - by repeat constructor.
  - constructor; [exact Hus|constructor].
  - intros q [Hq|Hq%list_elem_of_singleton]; apply lookup_insert_is_Some; [|by left].
    destruct (decide (p = q)); [by left|right; eauto].
  - simpl in *. lia.
Qed.

(** It goes off five seconds from now. *)
Definition ex_both : tmstate mstate :=
  match kmalloc ex_vma ex_fresh ex_vfresh sizeof_timer_at_time (tm_heap ex_due) with
  | Ret p h => add_far p (Timeval 1005 0) h ex_due
  | _ => ex_due
  end.

Lemma ex_both_ok n : (n ≤ 18)%nat → timers_ok n ex_both [Near 1 0 4096 7] [Far 9 (Timeval 1005 0) 8192 5].
Proof.
  intros Hn. pose proof (ex_due_ok (S n) ltac:(lia)) as Hok.
  assert (Hp : match kmalloc ex_vma ex_fresh ex_vfresh sizeof_timer_at_time (tm_heap ex_due) with Ret p _ => negb (p =? NULL) | _ => false end = true)
    by (vm_compute; reflexivity).
  unfold ex_both. destruct (kmalloc _ _ _ _ _) as [p h| | |] eqn:E; try discriminate Hp.
  apply (add_far_ok n ex_due _ p _ h Hok); [by split|exact E|]. intros ->. discriminate Hp.
Qed.

Lemma ex_both_now : _time_now_utc ex_both = Timeval 1000 0.
Proof. vm_compute. reflexivity. Qed.
#[local] Opaque ex_both.

(** The clock advances by 100 microseconds: the near timer is overdue, and the
    far timer is now near. *)
Lemma timers_refine_witness : ∃ s' near' h',
  run_timer_op ex_junk_near (Advance 100) ex_both = Ret 0 s' ∧ timers_ok 3 s' near' [] ∧
  far_moved (Timeval 1000 0) [Far 9 (Timeval 1005 0) 8192 5] [Near 1 (-100) 4096 7] (locked_heap ex_both) [] near' h'.
Proof.
  destruct (timers_refine ex_junk_near ex_junk_far ex_call (Advance 100) 3 ex_both [Near 1 0 4096 7] [Far 9 (Timeval 1005 0) 8192 5])
    as (r & s' & near' & far' & h' & E & Hok & _ & Hm & _).
  - exact (ex_both_ok 4 ltac:(lia)).
  - rewrite ex_both_now. split; [by split|]. constructor; [simpl; lia|constructor].
  - rewrite ex_both_now in Hm. assert (far' = []) as ->.
    { simpl in Hm. inversion Hm as [|? ? ? ? Hnd|? ? ? ? ? ? ? ? ? ? _ _ _ _ Hrest|? ? ? ? ? ? ? ? _ _ Hrest]; subst;
        [destruct Hnd; left; simpl; lia|by inversion Hrest|by inversion Hrest]. }
    exists s', near', h'. split; [|exact (conj Hok Hm)]. rewrite E. f_equal. simpl in E. by apply bind_ret_inv in E as (? & ? & _ & [= <- _]).
Defined.

#[local] Opaque ex_due.

Lemma timers_handle_earliest_witness :
  ∃ s', timers_handle_near_timers ex_call ex_due = Ret true s' ∧ timers_ok 3 s' [] [].
Proof.
  destruct (timers_handle_earliest ex_junk_near ex_junk_far ex_call (λ _ _ _ h, h) 3 ex_due [Near 1 0 4096 7] []) as (r & s' & near' & E & Hok & _ & _ & Hout).
  - split; [by intros cb id d []|]. intros cb id d h. split; [intros n L Hl; exact Hl|split; reflexivity].
  - exact (ex_due_ok 3 ltac:(lia)).
  - destruct Hout as (_ & -> & -> & _). exists s'. exact (conj E Hok).
Defined.

(** [timer_schedule_at] returns with the lock held and interrupts off. *)
Lemma schedule_at_keeps_lock :
  match timer_schedule_at ex_junk_far (Timeval 2000 0) 4096 7 ex_timers with
  | Ret r s => (r =? 1) && (owner (_timer_lock s) =? current_tid ex_timers) && (nested (_timer_lock s) =? 1) &&
               negb (Z.testbit (eflags s) flags_if_bit) && Z.testbit (eflags ex_timers) flags_if_bit
  | _ => false
  end = true.
Proof. vm_compute. reflexivity. Qed.

(** [time_add] leaves a sum of microseconds that is not normalised. *)
Lemma time_add_unnormalised : time_add (Timeval 5 600000) (Timeval 0 600000) = Timeval 5 1200000.
Proof. reflexivity. Qed.
