(* ===== verification/Sort.v ===== *)
(** * kernel/utils/sort.c: sorting arrays of pointers

    The array is the state, a list of 32-bit words; an access outside of it
    faults.  The comparison function is an argument, as in the code. *)

From stdpp Require Import base numbers list sets sorting.
From Stdlib Require Import Sorted.
From S2P Require Import Prelude.

Definition items_load (i : Z) : M (list Z) Z := λ l,
  if i <? 0 then Fault else match l !! Z.to_nat i with Some x => Ret x l | None => Fault end.
Definition items_store (i x : Z) : M (list Z) unit := λ l,
  if (0 <=? i) && (i <? Z.of_nat (length l)) then Ret tt (<[Z.to_nat i := x]> l) else Fault.

Definition comp_int (a b : Z) : Z :=
  let ai := s32 a in
  let bi := s32 b in
  if ai <? bi then -1 else if bi <? ai then 1 else 0.
Definition comp_uint (a b : Z) : Z :=
  let ai := u32 a in
  let bi := u32 b in
  if ai <? bi then -1 else if bi <? ai then 1 else 0.
Definition comp_ulong (a b : Z) : Z :=
  let ai := u32 a in
  let bi := u32 b in
  if ai <? bi then -1 else if bi <? ai then 1 else 0.

Definition swap (n1 n2 : Z) : M (list Z) unit :=
  temp ← items_load n1;
  x ← items_load n2;
  items_store n1 x;;
  items_store n2 temp.

Section Sort.
Variable comp : Z → Z → Z.

(** [for(int i = 1; i < n; i++)]: [i] is converted to [size_t]. *)
Fixpoint bubble_pass (fuel : nat) (n i newn : Z) : M (list Z) Z :=
  match fuel with
  | O => nofuel
  | S fuel =>
      if u32 i <? n then
        a ← items_load (i - 1);
        b ← items_load i;
        newn ← (if 0 <? comp a b then swap (i - 1) i;; mret i else mret newn);
        bubble_pass fuel n (s32 (i + 1)) newn
      else mret newn
  end.

Fixpoint bubble_loop (fuel : nat) (n : Z) : M (list Z) unit :=
  match fuel with
  | O => nofuel
  | S fuel =>
      n ← bubble_pass (S (Z.to_nat n)) n 1 0;
      if negb (n =? 0) then bubble_loop fuel n else mret tt
  end.

Definition bubble_sort (length : Z) : M (list Z) unit := bubble_loop (S (Z.to_nat length)) length.

(** [comp_n] is computed once, before the loop. *)
Fixpoint insert_back (fuel : nat) (j x comp_n : Z) : M (list Z) unit :=
  match fuel with
  | O => nofuel
  | S fuel =>
      if negb (j =? 0) && (0 <? comp_n) then
        y ← items_load (j - 1);
        items_store j y;;
        items_store (j - 1) x;;
        insert_back fuel (j - 1) x comp_n
      else mret tt
  end.

Fixpoint insertion_loop (fuel : nat) (i length : Z) : M (list Z) unit :=
  match fuel with
  | O => nofuel
  | S fuel =>
      if i <? length then
        x ← items_load i;
        y ← items_load (i - 1);
        insert_back (S (Z.to_nat i)) i x (comp y x);;
        insertion_loop fuel (i + 1) length
      else mret tt
  end.

Definition insertion_sort (length : Z) : M (list Z) unit := insertion_loop (S (Z.to_nat length)) 1 length.

(** ** bubble_sort *)

Definition comp_le (a b : Z) : Prop := comp a b ≤ 0.

(** A comparison function of a total preorder. *)
Definition comp_total : Prop :=
  (∀ a b, 0 < comp a b → comp_le b a) ∧ (∀ a b c, comp_le a b → comp_le b c → comp_le a c).

(** Every element of [l1] may come before every element of [l2]. *)
Definition all_le (l1 l2 : list Z) : Prop := ∀ a b, a ∈ l1 → b ∈ l2 → comp_le a b.

Lemma items_load_middle l1 x l2 i : i = Z.of_nat (length l1) → items_load i (l1 ++ x :: l2) = Ret x (l1 ++ x :: l2).
Proof. intros ->. unfold items_load. rewrite (proj2 (Z.ltb_ge _ _)) by lia. rewrite Nat2Z.id, list_lookup_middle by done. done. Qed.

Lemma items_store_middle l1 x y l2 i : i = Z.of_nat (length l1) → items_store i y (l1 ++ x :: l2) = Ret tt (l1 ++ y :: l2).
Proof.
  intros ->. unfold items_store. rewrite length_app. cbn [length].
  rewrite (proj2 (Z.leb_le _ _)), (proj2 (Z.ltb_lt _ _)) by lia. cbn [andb]. rewrite Nat2Z.id.
  f_equal. replace (length l1) with (length l1 + 0)%nat at 1 by lia. by rewrite insert_app_r.
Qed.

Lemma swap_middle l1 x y l2 i :
  i = Z.of_nat (length l1) + 1 → swap (i - 1) i (l1 ++ x :: y :: l2) = Ret tt (l1 ++ y :: x :: l2).
Proof.
  intros ->. set (n := Z.of_nat (length l1) + 1).
  assert (Hl : ∀ z, n = Z.of_nat (length (l1 ++ [z]))) by (intros; rewrite length_app; simpl; lia).
  unfold swap. step (items_load_middle l1 x (y :: l2) (n - 1) ltac:(lia)).
  pose proof (items_load_middle (l1 ++ [x]) y l2 n (Hl x)) as E. rewrite <- app_assoc in E. step E.
  step (items_store_middle l1 x y (y :: l2) (n - 1) ltac:(lia)).
  pose proof (items_store_middle (l1 ++ [y]) y x l2 n (Hl y)) as E2. rewrite <- !app_assoc in E2. exact E2.
Qed.

Lemma sorted_snoc l x : StronglySorted comp_le l → all_le l [x] → StronglySorted comp_le (l ++ [x]).
Proof.
  induction l as [|y l IH]; intros Hs Ha; [by repeat constructor|]. apply StronglySorted_inv in Hs as [Hs Hy]. simpl. constructor.
  - apply IH; [done|]. intros a b ??. apply Ha; [by right|done].
  - apply Forall_app. split; [done|]. constructor; [|constructor]. apply Ha; by left.
Qed.

Lemma all_le_app_l l1 l2 m : all_le (l1 ++ l2) m ↔ all_le l1 m ∧ all_le l2 m.
Proof. unfold all_le. set_solver. Qed.
Lemma all_le_app_r m l1 l2 : all_le m (l1 ++ l2) ↔ all_le m l1 ∧ all_le m l2.
Proof. unfold all_le. set_solver. Qed.
Lemma all_le_single a b : comp_le a b → all_le [a] [b].
Proof. intros H x y ->%list_elem_of_singleton ->%list_elem_of_singleton. done. Qed.
Lemma all_le_trans l x y : comp_total → all_le l [x] → comp_le x y → all_le l [y].
Proof. intros [_ Htr] H Hxy a b Ha ->%list_elem_of_singleton. eapply Htr; [|done]. apply H; [done|]. by apply list_elem_of_singleton. Qed.

(** What is known in a pass: [P1 ++ P2] is behind [x], which is at [i - 1]; [L] is ahead. *)
Definition pass_inv (P1 P2 : list Z) (x : Z) (L : list Z) (n i newn : Z) : Prop :=
  n = i + Z.of_nat (length L) ∧ i = Z.of_nat (length (P1 ++ P2)) + 1 ∧ newn = Z.of_nat (length P1) ∧
  StronglySorted comp_le (P2 ++ [x]) ∧ all_le P1 (P2 ++ [x]) ∧ all_le P2 [x].

Lemma pass_swap P1 P2 x y L n i newn :
  comp_total → pass_inv P1 P2 x (y :: L) n i newn → 0 < comp x y → pass_inv (P1 ++ P2 ++ [y]) [] x L n (i + 1) i.
Proof.
  intros Ht (Hn & Hi & Hnew & Hs & H1 & H2) Hgt. apply all_le_app_r in H1 as [_ H1]. unfold pass_inv.
  rewrite app_nil_r, !all_le_app_l, !length_app in *. simpl in *. split_and!; try lia; try done.
  - by repeat constructor.
  - apply all_le_single, (proj1 Ht), Hgt.
  - by intros a b ?%elem_of_nil.
Qed.

Lemma pass_keep P1 P2 x y L n i newn :
  comp_total → pass_inv P1 P2 x (y :: L) n i newn → comp_le x y → pass_inv P1 (P2 ++ [x]) y L n (i + 1) newn.
Proof.
  intros Ht (Hn & Hi & Hnew & Hs & H1 & H2) Hle. unfold pass_inv. rewrite !length_app in *. simpl in *.
  assert (Hy : all_le (P2 ++ [x]) [y]) by (apply all_le_app_l; split; [by eapply all_le_trans|by apply all_le_single]).
  split_and!; try lia; try done; [by apply sorted_snoc|].
  apply all_le_app_r. split; [done|]. apply all_le_app_r in H1 as [_ H1]. by eapply all_le_trans.
Qed.

(** At the end of a pass the last [n - newn] items are in order and none before them is greater. *)
Lemma bubble_pass_spec L : comp_total → ∀ fuel P1 P2 x B n i newn,
  pass_inv P1 P2 x L n i newn → n < 2 ^ 31 → (length L < fuel)%nat →
  ∃ P1' P2', bubble_pass fuel n i newn (P1 ++ P2 ++ x :: L ++ B) = Ret (Z.of_nat (length P1')) (P1' ++ P2' ++ B) ∧
    P1' ++ P2' ≡ₚ P1 ++ P2 ++ x :: L ∧ StronglySorted comp_le P2' ∧ all_le P1' P2' ∧ Z.of_nat (length P1') < n.
Proof.
  intros Ht. induction L as [|y L IH]; intros fuel P1 P2 x B n i newn Hinv Hmax Hf; pose proof Hinv as (Hn & Hi & Hnew & Hs & H1 & H2);
    (destruct fuel as [|fuel]; [simpl in *; lia|]); cbn [bubble_pass length] in *; rewrite length_app in Hi; rewrite (u32_small i) by lia.
  - rewrite (proj2 (Z.ltb_ge i n)) by lia. exists P1, (P2 ++ [x]). rewrite Hnew. split; [by rewrite <- app_assoc|].
    split; [done|]. split; [done|]. split; [done|]. lia.
  - rewrite (proj2 (Z.ltb_lt i n)) by lia.
    pose proof (items_load_middle (P1 ++ P2) x (y :: L ++ B) (i - 1) ltac:(rewrite length_app; lia)) as E1.
    pose proof (items_load_middle (P1 ++ P2 ++ [x]) y (L ++ B) i ltac:(rewrite !length_app; simpl; lia)) as E2.
    rewrite <- app_assoc in E1. rewrite <- !app_assoc in E2. cbn [app] in E1, E2 |- *. step E1. step E2. rewrite (s32_small (i + 1)) by lia.
    destruct (Z.ltb_spec 0 (comp x y)) as [Hgt|Hle].
    + pose proof (swap_middle (P1 ++ P2) x y (L ++ B) i ltac:(rewrite length_app; lia)) as E3. rewrite <- !app_assoc in E3. step E3.
      step (ret_ok i (P1 ++ P2 ++ y :: x :: L ++ B)).
      destruct (IH fuel (P1 ++ P2 ++ [y]) [] x B n (i + 1) i) as (P1' & P2' & E & Hp & Hrest); [by apply (pass_swap _ _ _ _ _ _ _ newn)|done|lia|].
      exists P1', P2'. rewrite <- !app_assoc in E, Hp. split; [exact E|]. split; [|done]. rewrite Hp. do 2 apply Permutation_app_head. apply perm_swap.
    + step (ret_ok newn (P1 ++ P2 ++ x :: y :: L ++ B)).
      destruct (IH fuel P1 (P2 ++ [x]) y B n (i + 1) newn) as (P1' & P2' & E & Hp & Hrest); [by apply pass_keep|done|lia|].
      exists P1', P2'. rewrite <- !app_assoc in E, Hp. by split.
Qed.

Lemma bubble_loop_spec : comp_total → ∀ fuel A B, (length A < fuel)%nat → Z.of_nat (length A) < 2 ^ 31 →
  StronglySorted comp_le B → all_le A B →
  ∃ l, bubble_loop fuel (Z.of_nat (length A)) (A ++ B) = Ret tt l ∧ l ≡ₚ A ++ B ∧ StronglySorted comp_le l.
Proof.
  intros Ht. induction fuel as [|fuel IH]; intros A B Hf Hmax HB HAB; [lia|]. cbn [bubble_loop].
  destruct A as [|x L]; [by exists B|]. set (n := Z.of_nat (length (x :: L))) in *.
  destruct (bubble_pass_spec L Ht (S (Z.to_nat n)) [] [] x B n 1 0) as (P1 & P2 & E & Hp & Hs & Hle & Hlt).
  - unfold pass_inv, n. simpl. split_and!; try lia; try done; [by repeat constructor|by intros a b ?%elem_of_nil..].
  - done.
  - unfold n. simpl. lia.
  - cbn [app] in E |- *. step E. assert (Hs2 : StronglySorted comp_le (P2 ++ B) ∧ all_le P1 (P2 ++ B)).
    { assert (HPB : all_le (P1 ++ P2) B) by (intros a b Ha Hb; apply HAB; [by rewrite <- Hp|done]).
      apply all_le_app_l in HPB as [HPB1 HPB2]. split; [|by apply all_le_app_r].
      clear -Hs HB HPB2. induction P2 as [|z P2 IH]; [done|]. apply StronglySorted_inv in Hs as [Hs Hz]. simpl. constructor.
      - apply IH; [done|]. intros a b Ha. apply HPB2. by right.
      - apply Forall_app. split; [done|]. apply Forall_forall. intros b Hb. apply HPB2; [by left|done]. }
    assert (HpB : P1 ++ P2 ++ B ≡ₚ x :: L ++ B) by (rewrite app_assoc, Hp; done).
    destruct Hs2 as [HsB HleB]. destruct (Z.eqb_spec (Z.of_nat (length P1)) 0) as [Hz|Hz]; cbn [negb].
    + destruct P1; [|simpl in Hz; lia]. exists (P2 ++ B). by split.
    + destruct (IH P1 (P2 ++ B)) as (l & El & Hl & Hsl); [lia|lia|done|done|]. exists l. split; [done|]. split; [|done]. by rewrite Hl.
Qed.

(** [bubble_sort] of an array of fewer than 2^31 items terminates, and
    leaves the same items in the order of the comparison function. *)
Theorem bubble_sort_sorts l :
  comp_total → Z.of_nat (length l) < 2 ^ 31 →
  ∃ l', bubble_sort (Z.of_nat (length l)) l = Ret tt l' ∧ l' ≡ₚ l ∧ StronglySorted comp_le l'.
Proof.
  intros Ht Hl. destruct (bubble_loop_spec Ht (S (Z.to_nat (Z.of_nat (length l)))) l []) as (l' & E & Hp & Hs).
  - lia.
  - done.
  - constructor.
  - by intros a b _ ?%elem_of_nil.
  - exists l'. rewrite app_nil_r in E, Hp. by split.
Qed.
End Sort.

Lemma comp_int_total : comp_total comp_int.
Proof.
  unfold comp_total, comp_le, comp_int. split; intros *.
  - destruct (Z.ltb_spec (s32 a) (s32 b)), (Z.ltb_spec (s32 b) (s32 a)); lia.
  - destruct (Z.ltb_spec (s32 a) (s32 b)), (Z.ltb_spec (s32 b) (s32 a)), (Z.ltb_spec (s32 b) (s32 c)), (Z.ltb_spec (s32 c) (s32 b)),
      (Z.ltb_spec (s32 a) (s32 c)), (Z.ltb_spec (s32 c) (s32 a)); lia.
Qed.

Lemma bubble_sort_sorts_witness :
  ∃ l', bubble_sort comp_int 4 [3; 4294967295; 2; 7] = Ret tt l' ∧ l' = [4294967295; 2; 3; 7].
Proof.
  destruct (bubble_sort_sorts comp_int [3; 4294967295; 2; 7] comp_int_total) as (l' & E & _); [done|].
  exists l'. split; [exact E|]. vm_compute in E. by injection E.
Defined.

(** [insertion_sort] does not sort: an item that belongs in the middle goes to the front. *)
Lemma insertion_sort_unsorted : insertion_sort comp_int 3 [1; 3; 2] = Ret tt [2; 1; 3].
Proof. reflexivity. Qed.
