(* ===== verification/Ports.v ===== *)
(** * Bit fields and device ports

    The bit-field macros of kernel/sys/param.h, and the port accesses of
    kernel/ia32/io.c.  What the devices do is not part of the kernel: the value
    a port gives is a function [dev] of the accesses made so far, and the state
    of a driver keeps the accesses, the last one first. *)

From stdpp Require Import base numbers list.
From S2P Require Import Prelude.

(** ** Bit fields *)

Definition bitmask (a b : Z) : Z := Z.land (Z.shiftr (W32 - 1) (31 - b)) (u32 (Z.lnot (Z.shiftl 1 a - 1))).
Definition getbits (a i j : Z) : Z := Z.shiftr (Z.land (u32 a) (bitmask i j)) i.
Definition getbit (a i : Z) : Z := getbits a i i.
Definition withbits (a i j value : Z) : Z :=
  Z.lor (Z.land (u32 a) (u32 (Z.lnot (bitmask i j)))) (Z.land (u32 (Z.shiftl value i)) (bitmask i j)).
Definition withbit (a i value : Z) : Z := withbits a i i value.

Abbreviation LOW_BYTE word := (Z.land word 255) (only parsing).
Abbreviation HIGH_BYTE word := (LOW_BYTE (Z.shiftr word 8)) (only parsing).

Lemma u32_testbit z k : 0 ≤ k → Z.testbit (u32 z) k = (k <? 32) && Z.testbit z k.
Proof.
  intros Hk. unfold u32. change W32 with (2 ^ 32). destruct (Z.ltb_spec k 32).
  - by rewrite Z.mod_pow2_bits_low by lia.
  - rewrite Z.mod_pow2_bits_high by lia. done.
Qed.

Lemma bitmask_testbit i j k : 0 ≤ i → j ≤ 31 → 0 ≤ k → Z.testbit (bitmask i j) k = (i <=? k) && (k <=? j).
Proof.
  intros Hi Hj Hk. unfold bitmask. rewrite Z.land_spec, u32_testbit, Z.lnot_spec, Z.shiftr_spec by lia.
  change (W32 - 1) with (Z.ones 32). replace (Z.shiftl 1 i - 1) with (Z.ones i) by (rewrite Z.ones_equiv, Z.shiftl_1_l; lia).
  rewrite !Z.testbit_ones by lia.
  destruct (Z.leb_spec i k), (Z.leb_spec k j), (Z.ltb_spec k 32), (Z.ltb_spec k i), (Z.leb_spec 0 k), (Z.leb_spec 0 (k + (31 - j))),
    (Z.ltb_spec (k + (31 - j)) 32); simpl; lia.
Qed.

Lemma withbits_testbit a i j v k : 0 ≤ i → j ≤ 31 → 0 ≤ k →
  Z.testbit (withbits a i j v) k = if (i <=? k) && (k <=? j) then Z.testbit v (k - i) else Z.testbit (u32 a) k.
Proof.
  intros Hi Hj Hk. unfold withbits. rewrite Z.lor_spec, !Z.land_spec, !(u32_testbit _ k), Z.lnot_spec, bitmask_testbit by lia.
  destruct (Z.leb_spec i k), (Z.leb_spec k j), (Z.ltb_spec k 32); simpl; rewrite ?andb_false_r, ?orb_false_r, ?andb_true_r; try lia; try done.
  by rewrite Z.shiftl_spec by lia.
Qed.

Lemma getbits_testbit a i j k : 0 ≤ i → j ≤ 31 → 0 ≤ k →
  Z.testbit (getbits a i j) k = (k + i <=? j) && Z.testbit (u32 a) (k + i).
Proof.
  intros Hi Hj Hk. unfold getbits. rewrite Z.shiftr_spec, Z.land_spec, bitmask_testbit by lia.
  rewrite (proj2 (Z.leb_le i (k + i))) by lia. apply andb_comm.
Qed.

Lemma withbits_range a i j v : 0 ≤ i → j ≤ 31 → 0 ≤ withbits a i j v < W32.
Proof.
  intros Hi Hj. assert (E : u32 (withbits a i j v) = withbits a i j v).
  { apply Z.bits_inj'. intros k Hk. rewrite u32_testbit by done. destruct (Z.ltb_spec k 32); [done|].
    rewrite withbits_testbit, u32_testbit by done. destruct (Z.leb_spec i k), (Z.leb_spec k j), (Z.ltb_spec k 32); simpl; try done; lia. }
  rewrite <- E. by apply Z.mod_pos_bound.
Qed.

Lemma withbits_bits a i j v :
  0 ≤ i ≤ j → j ≤ 31 →
  getbits (withbits a i j v) i j = v mod 2 ^ (j - i + 1) ∧
  ∀ i' j', 0 ≤ i' ≤ j' → j' ≤ 31 → j' < i ∨ j < i' → getbits (withbits a i j v) i' j' = getbits a i' j'.
Proof.
  intros Hi Hj. pose proof (withbits_range a i j v ltac:(lia) Hj) as Hr. split.
  - apply Z.bits_inj'. intros k Hk. rewrite getbits_testbit, (u32_small (withbits _ _ _ _)), withbits_testbit by lia.
    destruct (Z.leb_spec (k + i) j); simpl.
    + rewrite (proj2 (Z.leb_le i (k + i))) by lia. rewrite Z.mod_pow2_bits_low by lia. simpl. f_equal. lia.
    + by rewrite Z.mod_pow2_bits_high by lia.
  - intros i' j' Hi' Hj' Hd. apply Z.bits_inj'. intros k Hk. rewrite !getbits_testbit, (u32_small (withbits _ _ _ _)), withbits_testbit by lia.
    destruct (Z.leb_spec (k + i') j'); [|done]. simpl. destruct (Z.leb_spec i (k + i')), (Z.leb_spec (k + i') j); simpl; [lia|done..].
Qed.

Lemma getbit_withbit a k v : 0 ≤ k ≤ 31 → getbit (withbit a k v) k = v mod 2.
Proof. intros Hk. destruct (withbits_bits a k k v ltac:(lia) ltac:(lia)) as [H _]. unfold getbit, withbit. by rewrite H, Z.sub_diag. Qed.

(** Writing a bit field and reading it back gives the value, cut to the
    width of the field, and no bit outside the field changes. *)
Theorem withbits_getbits a i j v :
  0 ≤ i ≤ j → j ≤ 31 →
  getbits (withbits a i j v) i j = v mod 2 ^ (j - i + 1) ∧
  ∀ i' j', 0 ≤ i' ≤ j' → j' ≤ 31 → j' < i ∨ j < i' → getbits (withbits a i j v) i' j' = getbits a i' j'.
Proof. apply withbits_bits. Qed.

Lemma withbits_getbits_witness :
  getbits (withbits 255 3 5 2) 3 5 = 2 ∧ getbits (withbits 255 3 5 2) 6 7 = 3.
Proof.
  destruct (withbits_getbits 255 3 5 2) as [H1 H2]; [lia..|]. split; [exact H1|]. apply (H2 6 7); lia.
Defined.

(** ** Ports *)

Inductive io_event :=
  | In (port value : Z)
  | Out (port value : Z).

(** A state with the accesses made to the ports. *)
Class Ports (S : Type) := {
  io_trace : S → list io_event;
  set_io_trace : list io_event → S → S
}.

Section Ports.
Context {S} `{Ports S}.
Variable dev : list io_event → Z → Z.

Definition inb (port : Z) : M S Z := λ s,
  let v := u8 (dev (io_trace s) (u16 port)) in
  Ret v (set_io_trace (In (u16 port) v :: io_trace s) s).

Definition outb (port value : Z) : M S unit :=
  modify (λ s, set_io_trace (Out (u16 port) (u8 value) :: io_trace s) s).

Definition io_wait : M S unit := outb 128 0.
End Ports.

Class PortsLaws (S : Type) `{Ports S} := {
  io_trace_set : ∀ t (s : S), io_trace (set_io_trace t s) = t;
  set_io_trace_set : ∀ t t' (s : S), set_io_trace t (set_io_trace t' s) = set_io_trace t s
}.

(** Only [Out] events matter to what a device has received. *)
Definition is_in (e : io_event) : Prop := match e with In _ _ => True | Out _ _ => False end.

(** The bytes written to a port, the last one first. *)
Fixpoint sent (port : Z) (tr : list io_event) : list Z :=
  match tr with
  | [] => []
  | Out p v :: tr => if p =? port then v :: sent port tr else sent port tr
  | In _ _ :: tr => sent port tr
  end.

Lemma sent_ins port ins tr : Forall is_in ins → sent port (ins ++ tr) = sent port tr.
Proof. induction 1 as [|[] ins He _ IH]; [done|exact IH|done]. Qed.
