(* ===== verification/Pic.v ===== *)
(** * kernel/ia32/pic.c: the two 8259 interrupt controllers

    The functions are sequences of port accesses.  What they mean is fixed by
    the data sheet of the 8259: [pic_chip] is what one controller holds,
    [pic_after] what a trace of accesses makes of it.  A controller's mask is
    read back from its data port; [pic_device] states that for the device. *)

From stdpp Require Import base numbers list strings.
From S2P Require Import Prelude Ports.

Abbreviation PIC1 := 32 (only parsing). (* 0x20 *)
Abbreviation PIC2 := 160 (only parsing). (* 0xa0 *)
Abbreviation PIC1_DATA := (PIC1 + 1) (only parsing).
Abbreviation PIC2_DATA := (PIC2 + 1) (only parsing).
Abbreviation PIC_EOI := 32 (only parsing).
Abbreviation PIC_MAX_IRQS := 8 (only parsing).
Abbreviation PIC_IRQ1_BASE := 32 (only parsing). (* 0x20 *)
Abbreviation PIC_IRQ2_BASE := 40 (only parsing). (* 0x28 *)
Abbreviation ICW1_ICW4_NEEDED := 1 (only parsing).
Abbreviation ICW1_ICW1 := 16 (only parsing).
Abbreviation ICW4_8086_MODE := 1 (only parsing).

Inductive pic := pic1 | pic2.

Definition pic_irq_for_interrupt (int_no : Z) : Z :=
  let result := u8 (int_no - PIC_IRQ1_BASE) in
  if PIC_MAX_IRQS <=? result then u8 (int_no - PIC_IRQ2_BASE + PIC_MAX_IRQS) else result.

Definition pic_interrupt_for_irq (irq : Z) : Z :=
  if irq <? PIC_MAX_IRQS then u8 (irq + PIC_IRQ1_BASE) else u8 (irq - PIC_MAX_IRQS + PIC_IRQ2_BASE).

Section Pic.
Context {S} `{Ports S}.
Variable dev : list io_event → Z → Z.

Definition pic_map_irqs (irq_base_1 irq_base_2 : Z) : M S unit :=
  mask_1 ← inb dev PIC1_DATA;
  mask_2 ← inb dev PIC2_DATA;
  outb PIC1 (Z.lor ICW1_ICW1 ICW1_ICW4_NEEDED);;
  io_wait;;
  outb PIC2 (Z.lor ICW1_ICW1 ICW1_ICW4_NEEDED);;
  io_wait;;
  outb PIC1_DATA irq_base_1;;
  io_wait;;
  outb PIC2_DATA irq_base_2;;
  io_wait;;
  outb PIC1_DATA 4;;
  io_wait;;
  outb PIC2_DATA 2;;
  io_wait;;
  outb PIC1_DATA ICW4_8086_MODE;;
  io_wait;;
  outb PIC2_DATA ICW4_8086_MODE;;
  io_wait;;
  outb PIC1_DATA mask_1;;
  io_wait;;
  outb PIC2_DATA mask_2;;
  io_wait.

Definition pic_mask_all : M S unit :=
  outb PIC1_DATA 255;;
  outb PIC2_DATA 255.

Definition pic_unmask_all : M S unit :=
  outb PIC1_DATA 0;;
  outb PIC2_DATA 0.

Definition pic_init : M S unit :=
  pic_map_irqs PIC_IRQ1_BASE PIC_IRQ2_BASE;;
  pic_unmask_all.

Definition pic_eoi (irq : Z) : M S unit :=
  (if PIC_MAX_IRQS <=? irq then outb PIC2 PIC_EOI else mret tt);;
  outb PIC1 PIC_EOI.

Definition pic_data_port (_pic : pic) : Z :=
  match _pic with pic1 => PIC1_DATA | pic2 => PIC2_DATA end.

(** The port, and what is left in [*irq]. *)
Definition pic_data_port_and_irq (irq : Z) : Z * Z :=
  if irq <? PIC_MAX_IRQS then (PIC1_DATA, irq) else (PIC2_DATA, u8 (irq - PIC_MAX_IRQS)).

Definition pic_get_mask (_pic : pic) : M S Z := inb dev (pic_data_port _pic).

Definition pic_set_mask (_pic : pic) (value : Z) : M S unit :=
  outb (pic_data_port _pic) value;;
  io_wait.

Definition pic_mask (irq : Z) : M S unit :=
  let '(port, pic_local_irq) := pic_data_port_and_irq irq in
  value ← inb dev port;
  outb port (u8 (Z.lor value (Z.shiftl 1 pic_local_irq)));;
  io_wait.

Definition pic_unmask (irq : Z) : M S unit :=
  let '(port, irq) := pic_data_port_and_irq irq in
  value ← inb dev port;
  outb port (u8 (Z.land value (Z.lnot (Z.shiftl 1 irq))));;
  io_wait.

(** ** The controllers *)

(** What a controller expects next on its data port. *)
Inductive pic_expects := ExpectICW2 | ExpectICW3 | ExpectICW4 | Ready.

Record pic_chip := PicChip {
  chip_expects : pic_expects;
  chip_base : Z;       (* the vector of its first line *)
  chip_cascade : Z;    (* where the other controller is connected *)
  chip_mode : Z;
  chip_imr : Z;        (* the mask *)
  chip_eois : nat      (* ends of interrupts it has been told *)
}.

(** One access, for the controller with command port [cmd]; ICW1 with bit 0
    set asks for ICW2, ICW3 and ICW4, and clears the mask. *)
Definition pic_access (cmd : Z) (e : io_event) (c : pic_chip) : pic_chip :=
  match e with
  | In _ _ => c
  | Out p v =>
      if p =? cmd then
        if Z.testbit v 4 then PicChip ExpectICW2 (chip_base c) (chip_cascade c) (chip_mode c) 0 (chip_eois c)
        else if v =? PIC_EOI then PicChip (chip_expects c) (chip_base c) (chip_cascade c) (chip_mode c) (chip_imr c) (Datatypes.S (chip_eois c))
        else c
      else if p =? cmd + 1 then
        match chip_expects c with
        | ExpectICW2 => PicChip ExpectICW3 (Z.land v 248) (chip_cascade c) (chip_mode c) (chip_imr c) (chip_eois c)
        | ExpectICW3 => PicChip ExpectICW4 (chip_base c) v (chip_mode c) (chip_imr c) (chip_eois c)
        | ExpectICW4 => PicChip Ready (chip_base c) (chip_cascade c) v (chip_imr c) (chip_eois c)
        | Ready => PicChip Ready (chip_base c) (chip_cascade c) (chip_mode c) v (chip_eois c)
        end
      else c
  end.

(** The last access is the head of the trace. *)
Definition pic_after (cmd : Z) (c0 : pic_chip) (tr : list io_event) : pic_chip := foldr (pic_access cmd) c0 tr.

(** The two controllers, from what they hold at power-on. *)
Variables c1 c2 : pic_chip.
Definition chip1 (s : S) : pic_chip := pic_after PIC1 c1 (io_trace s).
Definition chip2 (s : S) : pic_chip := pic_after PIC2 c2 (io_trace s).

(** A controller that is not being initialised gives its mask. *)
Definition pic_device : Prop :=
  ∀ tr, (chip_expects (pic_after PIC1 c1 tr) = Ready → dev tr PIC1_DATA = chip_imr (pic_after PIC1 c1 tr)) ∧
        (chip_expects (pic_after PIC2 c2 tr) = Ready → dev tr PIC2_DATA = chip_imr (pic_after PIC2 c2 tr)).

Inductive pic_op := PicMask (irq : Z) | PicUnmask (irq : Z) | PicMaskAll | PicUnmaskAll | PicEoi (irq : Z).

Definition run_pic_op (o : pic_op) : M S unit :=
  match o with
  | PicMask irq => pic_mask irq
  | PicUnmask irq => pic_unmask irq
  | PicMaskAll => pic_mask_all
  | PicUnmaskAll => pic_unmask_all
  | PicEoi irq => pic_eoi irq
  end.

(** The 16 mask bits, as one number, and the effect of an operation on them. *)
Definition masks (s : S) : Z := chip_imr (chip1 s) + 256 * chip_imr (chip2 s).
Definition pic_op_masks (o : pic_op) (m : Z) : Z :=
  match o with
  | PicMask irq => Z.setbit m irq
  | PicUnmask irq => Z.clearbit m irq
  | PicMaskAll => 65535
  | PicUnmaskAll => 0
  | PicEoi _ => m
  end.
Definition pic_op_ok (o : pic_op) : Prop :=
  match o with PicMask irq | PicUnmask irq | PicEoi irq => 0 ≤ irq < 16 | _ => True end.

(** Both controllers are programmed: vectors 32 to 47, connected on line 2. *)
Definition programmed (s : S) : Prop :=
  chip_expects (chip1 s) = Ready ∧ chip_base (chip1 s) = PIC_IRQ1_BASE ∧ chip_cascade (chip1 s) = 4 ∧ chip_mode (chip1 s) = ICW4_8086_MODE ∧
  chip_expects (chip2 s) = Ready ∧ chip_base (chip2 s) = PIC_IRQ2_BASE ∧ chip_cascade (chip2 s) = 2 ∧ chip_mode (chip2 s) = ICW4_8086_MODE ∧
  0 ≤ chip_imr (chip1 s) < 256 ∧ 0 ≤ chip_imr (chip2 s) < 256.

Lemma byte_bits a : 0 ≤ a < 256 ↔ (0 ≤ a ∧ ∀ k, 8 ≤ k → Z.testbit a k = false).
Proof.
  split.
  - intros Ha. split; [lia|]. intros k Hk. rewrite <- (Z.mod_small a (2 ^ 8)) by lia. by apply Z.mod_pow2_bits_high.
  - intros [Ha Hb]. split; [done|]. replace a with (a mod 2 ^ 8); [by apply Z.mod_pos_bound|]. apply Z.bits_inj'. intros k Hk.
    destruct (decide (k < 8)); [by apply Z.mod_pow2_bits_low|]. rewrite Z.mod_pow2_bits_high by lia. symmetry. apply Hb. lia.
Qed.

Lemma masks_join a b : 0 ≤ a < 256 → a + 256 * b = Z.lor a (Z.shiftl b 8).
Proof. intros Ha. rewrite Z.shiftl_mul_pow2, lor_disjoint by lia. lia. Qed.

Lemma set_byte_bit a i : 0 ≤ a < 256 → 0 ≤ i < 8 →
  u8 (Z.lor a (Z.shiftl 1 i)) = Z.setbit a i ∧ 0 ≤ Z.setbit a i < 256.
Proof.
  intros Ha Hi. assert (Hr : 0 ≤ Z.setbit a i < 256).
  { apply byte_bits. apply byte_bits in Ha as [Ha Hb]. split; [rewrite Z.setbit_spec'; apply Z.lor_nonneg; split; [done|by apply Z.pow_nonneg]|]. intros k Hk.
    rewrite Z.setbit_eqb, Hb by lia. rewrite (proj2 (Z.eqb_neq _ _)) by lia. done. }
  split; [|done]. rewrite Z.shiftl_1_l, <- Z.setbit_spec'. by apply Z.mod_small.
Qed.

Lemma clear_byte_bit a i : 0 ≤ a < 256 → 0 ≤ i < 8 →
  u8 (Z.land a (Z.lnot (Z.shiftl 1 i))) = Z.clearbit a i ∧ 0 ≤ Z.clearbit a i < 256.
Proof.
  intros Ha Hi. assert (E : Z.land a (Z.lnot (Z.shiftl 1 i)) = Z.clearbit a i).
  { rewrite <- Z.ldiff_land, Z.shiftl_1_l. symmetry. apply Z.clearbit_spec'. }
  assert (Hr : 0 ≤ Z.clearbit a i < 256).
  { apply byte_bits. apply byte_bits in Ha as [Ha Hb]. split; [rewrite Z.clearbit_spec'; apply Z.ldiff_nonneg; by left|]. intros k Hk.
    rewrite Z.clearbit_eqb, Hb by lia. done. }
  split; [|done]. rewrite E. by apply Z.mod_small.
Qed.

(** Setting or clearing a bit of one half of the 16 mask bits. *)
Lemma join_bits a b i : 0 ≤ a < 256 → 0 ≤ b < 256 → 0 ≤ i < 8 →
  Z.setbit a i + 256 * b = Z.setbit (a + 256 * b) i ∧ a + 256 * Z.setbit b i = Z.setbit (a + 256 * b) (i + 8) ∧
  Z.clearbit a i + 256 * b = Z.clearbit (a + 256 * b) i ∧ a + 256 * Z.clearbit b i = Z.clearbit (a + 256 * b) (i + 8).
Proof.
  intros Ha Hb Hi. destruct (set_byte_bit a i Ha Hi) as [_ Hs], (clear_byte_bit a i Ha Hi) as [_ Hc].
  rewrite !masks_join by done. apply byte_bits in Ha as [Ha0 Ha]. apply byte_bits in Hs as [_ Hs]. apply byte_bits in Hc as [_ Hc].
  split_and!; apply Z.bits_inj'; intros k Hk; rewrite ?Z.lor_spec, ?Z.setbit_eqb, ?Z.clearbit_eqb, ?Z.lor_spec by lia;
    destruct (decide (k < 8)) as [Hlt|Hge]; rewrite ?Z.shiftl_spec, ?(Z.testbit_neg_r _ (k - 8)) by lia;
    rewrite ?Z.setbit_eqb, ?Z.clearbit_eqb by lia; rewrite ?(Ha k) by lia;
    destruct (Z.eqb_spec i k), (Z.eqb_spec (i + 8) k), (Z.eqb_spec i (k - 8)); subst; try lia;
    rewrite ?orb_false_r, ?andb_true_r, ?orb_true_r, ?orb_true_l, ?andb_false_r; done.
Qed.

Context `{!PortsLaws S}.
#[local] Set Default Proof Using "Type*".

(** The ports and constants, as numbers. *)
Ltac port_numbers :=
  change (u16 (32 + 1)) with 33; change (u16 (160 + 1)) with 161; change (u16 32) with 32; change (u16 160) with 160;
  change (u16 128) with 128; change (u8 (Z.lor 16 1)) with 17; change (u8 0) with 0; change (u8 1) with 1; change (u8 2) with 2;
  change (u8 4) with 4; change (u8 32) with 32; change (u8 40) with 40; change (u8 255) with 255.

Ltac chip_eval := unfold chip1, chip2, pic_after in *; cbn; change (32 + 1) with 33; change (160 + 1) with 161; cbn.

(** ** Operations *)

Lemma outb_ok p v s : outb p v s = Ret tt (set_io_trace (Out (u16 p) (u8 v) :: io_trace s) s).
Proof. done. Qed.

Definition ended (o : pic_op) : nat * nat :=
  match o with PicEoi irq => (1%nat, if PIC_MAX_IRQS <=? irq then 1%nat else 0%nat) | _ => (0%nat, 0%nat) end.

Definition op_done (o : pic_op) (s s' : S) : Prop :=
  programmed s' ∧ masks s' = pic_op_masks o (masks s) ∧
  chip_eois (chip1 s') = ((ended o).1 + chip_eois (chip1 s))%nat ∧ chip_eois (chip2 s') = ((ended o).2 + chip_eois (chip2 s))%nat.

(** A trace that leaves everything but the masks as [s] has it. *)
Lemma op_done_trace o s tr m1 m2 :
  programmed s →
  pic_after PIC1 c1 tr = PicChip Ready (chip_base (chip1 s)) (chip_cascade (chip1 s)) (chip_mode (chip1 s)) m1 ((ended o).1 + chip_eois (chip1 s))%nat →
  pic_after PIC2 c2 tr = PicChip Ready (chip_base (chip2 s)) (chip_cascade (chip2 s)) (chip_mode (chip2 s)) m2 ((ended o).2 + chip_eois (chip2 s))%nat →
  0 ≤ m1 < 256 → 0 ≤ m2 < 256 → m1 + 256 * m2 = pic_op_masks o (masks s) → op_done o s (set_io_trace tr s).
Proof.
  intros (A1 & A2 & A3 & A4 & B1 & B2 & B3 & B4 & _) E1 E2 H1 H2 Hm. unfold op_done, programmed, masks, chip1, chip2 in *.
  rewrite !io_trace_set, E1, E2. cbn [chip_expects chip_base chip_cascade chip_mode chip_imr chip_eois]. split_and!; try done; lia.
Qed.

Lemma chip_eta c : chip_expects c = Ready → c = PicChip Ready (chip_base c) (chip_cascade c) (chip_mode c) (chip_imr c) (chip_eois c).
Proof. by destruct c as [? ? ? ? ? ?]; simpl; intros ->. Qed.

(** Reading, writing and waiting, for the controller that is written to and the other one. *)
Lemma write_data1 x v tr : chip_expects (pic_after PIC1 c1 tr) = Ready → chip_expects (pic_after PIC2 c2 tr) = Ready →
  let c := pic_after PIC1 c1 tr in let d := pic_after PIC2 c2 tr in
  pic_after PIC1 c1 (Out 128 0 :: Out 33 v :: In 33 x :: tr) = PicChip Ready (chip_base c) (chip_cascade c) (chip_mode c) v (chip_eois c) ∧
  pic_after PIC2 c2 (Out 128 0 :: Out 33 v :: In 33 x :: tr) = PicChip Ready (chip_base d) (chip_cascade d) (chip_mode d) (chip_imr d) (chip_eois d).
Proof. intros E1 E2 c d. subst c d. unfold pic_after in *. cbn. rewrite E1. split; [done|by apply chip_eta]. Qed.

Lemma write_data2 x v tr : chip_expects (pic_after PIC1 c1 tr) = Ready → chip_expects (pic_after PIC2 c2 tr) = Ready →
  let c := pic_after PIC1 c1 tr in let d := pic_after PIC2 c2 tr in
  pic_after PIC1 c1 (Out 128 0 :: Out 161 v :: In 161 x :: tr) = PicChip Ready (chip_base c) (chip_cascade c) (chip_mode c) (chip_imr c) (chip_eois c) ∧
  pic_after PIC2 c2 (Out 128 0 :: Out 161 v :: In 161 x :: tr) = PicChip Ready (chip_base d) (chip_cascade d) (chip_mode d) v (chip_eois d).
Proof. intros E1 E2 c d. subst c d. unfold pic_after in *. cbn. rewrite E2. split; [by apply chip_eta|done]. Qed.

(** Reading the mask of the controller that serves a line, changing it with [f] and writing it back. *)
Lemma modify_mask o f i s : pic_device → programmed s → 0 ≤ i < 8 →
  (∀ a, 0 ≤ a < 256 → 0 ≤ u8 (f a) < 256) →
  (u8 (f (chip_imr (chip1 s))) + 256 * chip_imr (chip2 s) = pic_op_masks o (masks s) ∧ ended o = (0%nat, 0%nat) →
   ∃ s', (value ← inb dev PIC1_DATA; outb PIC1_DATA (u8 (f value));; io_wait) s = Ret tt s' ∧ op_done o s s') ∧
  (chip_imr (chip1 s) + 256 * u8 (f (chip_imr (chip2 s))) = pic_op_masks o (masks s) ∧ ended o = (0%nat, 0%nat) →
   ∃ s', (value ← inb dev PIC2_DATA; outb PIC2_DATA (u8 (f value));; io_wait) s = Ret tt s' ∧ op_done o s s').
Proof.
  intros Hd Hp Hi Hf. pose proof Hp as (A1 & _ & _ & _ & B1 & _ & _ & _ & R1 & R2). destruct (Hd (io_trace s)) as [D1 D2].
  change (32 + 1) with 33 in D1. change (160 + 1) with 161 in D2.
  split; intros [Hm Ho]; eexists; (split; [reflexivity|]).
  - change (u16 PIC1_DATA) with 33. change (u16 128) with 128. change (u8 0) with 0. rewrite (D1 A1). fold (chip1 s).
    assert (E8 : ∀ z, u8 (u8 z) = u8 z) by (intros z; apply Z.mod_mod; lia).
    assert (Ei : u8 (chip_imr (chip1 s)) = chip_imr (chip1 s)) by (apply Z.mod_small; lia). rewrite Ei, E8, !io_trace_set, !set_io_trace_set.
    destruct (write_data1 (chip_imr (chip1 s)) (u8 (f (chip_imr (chip1 s)))) (io_trace s) A1 B1) as [W1 W2].
    eapply (op_done_trace o s _ (u8 (f (chip_imr (chip1 s)))) (chip_imr (chip2 s))); rewrite ?Ho; auto.
  - change (u16 PIC2_DATA) with 161. change (u16 128) with 128. change (u8 0) with 0. rewrite (D2 B1). fold (chip2 s).
    assert (E8 : ∀ z, u8 (u8 z) = u8 z) by (intros z; apply Z.mod_mod; lia).
    assert (Ei : u8 (chip_imr (chip2 s)) = chip_imr (chip2 s)) by (apply Z.mod_small; lia). rewrite Ei, E8, !io_trace_set, !set_io_trace_set.
    destruct (write_data2 (chip_imr (chip2 s)) (u8 (f (chip_imr (chip2 s)))) (io_trace s) A1 B1) as [W1 W2].
    eapply (op_done_trace o s _ (chip_imr (chip1 s)) (u8 (f (chip_imr (chip2 s))))); rewrite ?Ho; auto.
Qed.

Lemma run_pic_op_ok o s : pic_device → programmed s → pic_op_ok o → ∃ s', run_pic_op o s = Ret tt s' ∧ op_done o s s'.
Proof.
  intros Hd Hp Ho. pose proof Hp as (A1 & _ & _ & _ & B1 & _ & _ & _ & R1 & R2).
  pose proof A1 as C1. pose proof B1 as C2. unfold chip1 in C1. unfold chip2 in C2.
  assert (Hsplit : ∀ irq, 0 ≤ irq < 16 → pic_data_port_and_irq irq = if irq <? 8 then (PIC1_DATA, irq) else (PIC2_DATA, irq - 8)).
  { intros irq Hi. unfold pic_data_port_and_irq. destruct (Z.ltb_spec irq 8); [done|]. f_equal. apply Z.mod_small. lia. }
  destruct o as [irq|irq| | |irq]; cbn [run_pic_op pic_op_ok] in *.
  - unfold pic_mask. rewrite Hsplit by done. destruct (Z.ltb_spec irq 8).
    + refine (proj1 (modify_mask (PicMask irq) (λ v, Z.lor v (Z.shiftl 1 irq)) irq s Hd Hp _ _) _); [lia|intros; by apply Z.mod_pos_bound|].
      destruct (set_byte_bit (chip_imr (chip1 s)) irq R1 ltac:(lia)) as [-> _]. split; [|done]. apply join_bits; lia.
    + refine (proj2 (modify_mask (PicMask irq) (λ v, Z.lor v (Z.shiftl 1 (irq - 8))) (irq - 8) s Hd Hp _ _) _); [lia|intros; by apply Z.mod_pos_bound|].
      destruct (set_byte_bit (chip_imr (chip2 s)) (irq - 8) R2 ltac:(lia)) as [-> _]. split; [|done].
      destruct (join_bits (chip_imr (chip1 s)) (chip_imr (chip2 s)) (irq - 8)) as (_ & -> & _); [lia..|]. by replace (irq - 8 + 8) with irq by lia.
  - unfold pic_unmask. rewrite Hsplit by done. destruct (Z.ltb_spec irq 8).
    + refine (proj1 (modify_mask (PicUnmask irq) (λ v, Z.land v (Z.lnot (Z.shiftl 1 irq))) irq s Hd Hp _ _) _); [lia|intros; by apply Z.mod_pos_bound|].
      destruct (clear_byte_bit (chip_imr (chip1 s)) irq R1 ltac:(lia)) as [-> _]. split; [|done]. apply join_bits; lia.
    + refine (proj2 (modify_mask (PicUnmask irq) (λ v, Z.land v (Z.lnot (Z.shiftl 1 (irq - 8)))) (irq - 8) s Hd Hp _ _) _); [lia|intros; by apply Z.mod_pos_bound|].
      destruct (clear_byte_bit (chip_imr (chip2 s)) (irq - 8) R2 ltac:(lia)) as [-> _]. split; [|done].
      destruct (join_bits (chip_imr (chip1 s)) (chip_imr (chip2 s)) (irq - 8)) as (_ & _ & _ & ->); [lia..|]. by replace (irq - 8 + 8) with irq by lia.
  - eexists. split; [reflexivity|]. cbn beta. port_numbers. rewrite !io_trace_set, !set_io_trace_set.
    eapply (op_done_trace PicMaskAll s _ 255 255); [done| | |lia..|done]; chip_eval; [by rewrite C1|by rewrite C2].
  - eexists. split; [reflexivity|]. cbn beta. port_numbers. rewrite !io_trace_set, !set_io_trace_set.
    eapply (op_done_trace PicUnmaskAll s _ 0 0); [done| | |lia..|done]; chip_eval; [by rewrite C1|by rewrite C2].
  - unfold pic_eoi. destruct (Z.leb_spec 8 irq) as [H8|H8].
    + eexists. split; [reflexivity|]. cbn beta. port_numbers. rewrite !io_trace_set, !set_io_trace_set.
      eapply (op_done_trace (PicEoi irq) s _ (chip_imr (chip1 s)) (chip_imr (chip2 s))); [done| | |lia..|done];
        unfold ended; rewrite (proj2 (Z.leb_le 8 irq)) by done; chip_eval; by rewrite ?C1, ?C2.
    + eexists. split; [reflexivity|]. cbn beta. port_numbers. eapply (op_done_trace (PicEoi irq) s _ (chip_imr (chip1 s)) (chip_imr (chip2 s))); [done| | |lia..|done];
        unfold ended; rewrite (proj2 (Z.leb_gt 8 irq)) by done; chip_eval; [by rewrite C1|by apply chip_eta].
Qed.

Fixpoint run_pic_ops (os : list pic_op) : M S unit :=
  match os with
  | [] => mret tt
  | o :: os => run_pic_op o;; run_pic_ops os
  end.

Lemma run_pic_ops_ok os s : pic_device → programmed s → Forall pic_op_ok os →
  ∃ s', run_pic_ops os s = Ret tt s' ∧ programmed s' ∧ masks s' = foldl (λ m o, pic_op_masks o m) (masks s) os ∧
    chip_eois (chip1 s') = (sum_list (map (λ o, (ended o).1) os) + chip_eois (chip1 s))%nat ∧
    chip_eois (chip2 s') = (sum_list (map (λ o, (ended o).2) os) + chip_eois (chip2 s))%nat.
Proof.
  intros Hd. revert s. induction os as [|o os IH]; intros s Hp Ho; cbn [run_pic_ops].
  - exists s. by split_and!.
  - apply Forall_cons_1 in Ho as [Ho Hos]. destruct (run_pic_op_ok o s Hd Hp Ho) as (s1 & E & Hp1 & Hm & Ha & Hb).
    destruct (IH s1 Hp1 Hos) as (s' & E' & Hp' & Hm' & Ha' & Hb'). exists s'. step E. split; [done|]. split; [done|]. cbn. rewrite <- Hm.
    split; [done|]. rewrite Ha', Hb', Ha, Hb. lia.
Qed.

(** Accesses, from a state written as the trace so far. *)
Lemma outb_at p v tr s : outb p v (set_io_trace tr s) = Ret tt (set_io_trace (Out (u16 p) (u8 v) :: tr) s).
Proof. rewrite outb_ok. by rewrite io_trace_set, set_io_trace_set. Qed.
Lemma io_wait_at tr s : io_wait (set_io_trace tr s) = Ret tt (set_io_trace (Out 128 0 :: tr) s).
Proof. apply outb_at. Qed.

Definition icw_trace (m1 m2 : Z) (tr : list io_event) : list io_event :=
  [Out 161 0; Out 33 0; Out 128 0; Out 161 m2; Out 128 0; Out 33 m1; Out 128 0; Out 161 1; Out 128 0; Out 33 1; Out 128 0; Out 161 2; Out 128 0;
   Out 33 4; Out 128 0; Out 161 40; Out 128 0; Out 33 32; Out 128 0; Out 160 17; Out 128 0; Out 32 17; In 161 m2; In 33 m1] ++ tr.

Lemma pic_init_trace s : ∃ m1 m2, pic_init s = Ret tt (set_io_trace (icw_trace m1 m2 (io_trace s)) s).
Proof.
  set (m1 := u8 (dev (io_trace s) 33)). set (m2 := u8 (dev (In 33 m1 :: io_trace s) 161)). exists m1, m2.
  assert (E1 : inb dev PIC1_DATA s = Ret m1 (set_io_trace (In 33 m1 :: io_trace s) s)) by done.
  assert (E2 : inb dev PIC2_DATA (set_io_trace (In 33 m1 :: io_trace s) s) = Ret m2 (set_io_trace (In 161 m2 :: In 33 m1 :: io_trace s) s)).
  { unfold inb. rewrite io_trace_set, set_io_trace_set. done. }
  assert (E8 : ∀ z, u8 (u8 z) = u8 z) by (intros z; apply Z.mod_mod; lia).
  unfold pic_init, pic_map_irqs, pic_unmask_all. step E1. step E2. rewrite ?bind_assoc.
  repeat (rewrite (bind_ret _ _ _ _ _ (outb_at _ _ _ _)), ?bind_assoc, (bind_ret _ _ _ _ _ (io_wait_at _ _)), ?bind_assoc).
  rewrite (bind_ret _ _ _ _ _ (outb_at _ _ _ _)), outb_at. unfold m1, m2. rewrite !E8. port_numbers. done.
Qed.

Lemma icw_chip1 m1 m2 tr : pic_after PIC1 c1 (icw_trace m1 m2 tr) = PicChip Ready 32 4 1 0 (chip_eois (pic_after PIC1 c1 tr)).
Proof. unfold pic_after, icw_trace. rewrite foldr_app. generalize (foldr (pic_access PIC1) c1 tr). intros []. by vm_compute. Qed.
Lemma icw_chip2 m1 m2 tr : pic_after PIC2 c2 (icw_trace m1 m2 tr) = PicChip Ready 40 2 1 0 (chip_eois (pic_after PIC2 c2 tr)).
Proof. unfold pic_after, icw_trace. rewrite foldr_app. generalize (foldr (pic_access PIC2) c2 tr). intros []. by vm_compute. Qed.

Lemma pic_init_ok s : ∃ s', pic_init s = Ret tt s' ∧ programmed s' ∧ masks s' = 0 ∧
  chip_eois (chip1 s') = chip_eois (chip1 s) ∧ chip_eois (chip2 s') = chip_eois (chip2 s).
Proof.
  destruct (pic_init_trace s) as (m1 & m2 & E). eexists. split; [exact E|]. unfold programmed, masks, chip1, chip2. rewrite !io_trace_set.
  rewrite icw_chip1, icw_chip2. by split_and!.
Qed.

(** C28: [pic_init] programs both controllers, whatever state they were in: the
    first serves vectors 32 to 39 and the second, connected to line 2, vectors
    40 to 47, all unmasked.  After it the functions that mask and unmask act on
    the 16 mask bits as setting and clearing the bit of the line, and
    [pic_eoi] ends an interrupt at the first controller and, for its lines,
    also at the second.  The vectors of the lines are told apart again. *)
Theorem pic_refines s os irq :
  pic_device → Forall pic_op_ok os → 0 ≤ irq < 16 →
  (∃ s', (pic_init;; run_pic_ops os) s = Ret tt s' ∧ programmed s' ∧ masks s' = foldl (λ m o, pic_op_masks o m) 0 os ∧
    chip_eois (chip1 s') = (sum_list (map (λ o, (ended o).1) os) + chip_eois (chip1 s))%nat ∧
    chip_eois (chip2 s') = (sum_list (map (λ o, (ended o).2) os) + chip_eois (chip2 s))%nat) ∧
  pic_irq_for_interrupt (pic_interrupt_for_irq irq) = irq ∧ 32 ≤ pic_interrupt_for_irq irq < 48.
Proof.
  intros Hd Ho Hi. split.
  - destruct (pic_init_ok s) as (s1 & E1 & Hp & Hm & Ha & Hb). step E1.
    destruct (run_pic_ops_ok os s1 Hd Hp Ho) as (s' & E & Hp' & Hm' & Ha' & Hb'). exists s'. rewrite <- Hm. split_and!; congruence || done.
  - unfold pic_irq_for_interrupt, pic_interrupt_for_irq.
    assert (E : (if irq <? 8 then u8 (irq + 32) else u8 (irq - 8 + 40)) = irq + 32).
    { unfold u8. destruct (irq <? 8); [by rewrite Z.mod_small by lia|]. rewrite Z.mod_small; lia. }
    rewrite E. split; [|lia]. replace (irq + 32 - 32) with irq by lia. replace (irq + 32 - 40 + 8) with irq by lia.
    unfold u8. rewrite Z.mod_small by lia. by destruct (8 <=? irq).
Qed.
End Pic.

(** ** Controllers that behave as the data sheet says *)

Record pic_ports := PicPorts { pic_trace : list io_event }.
#[export] Instance pic_ports_ports : Ports pic_ports := { io_trace := pic_trace; set_io_trace t _ := PicPorts t }.
#[export] Instance pic_ports_laws : PortsLaws pic_ports.
Proof. by split. Qed.

Definition ex_chip : pic_chip := PicChip Ready 8 0 0 184 0.
Definition ex_pics (tr : list io_event) (port : Z) : Z :=
  if port =? PIC1_DATA then chip_imr (pic_after PIC1 ex_chip tr) else chip_imr (pic_after PIC2 ex_chip tr).

Lemma ex_pics_device : pic_device ex_pics ex_chip ex_chip.
Proof. intros tr. by split. Qed.

Lemma pic_refines_witness :
  ∃ s', (pic_init ex_pics;; run_pic_ops ex_pics [PicMask 3; PicMask 10; PicUnmask 3; PicEoi 10]) (PicPorts []) = Ret tt s' ∧
    masks ex_chip ex_chip s' = 1024 ∧ chip_eois (chip2 ex_chip s') = 1%nat ∧ pic_irq_for_interrupt (pic_interrupt_for_irq 10) = 10.
Proof.
  destruct (pic_refines ex_pics ex_chip ex_chip (PicPorts []) [PicMask 3; PicMask 10; PicUnmask 3; PicEoi 10] 10 ex_pics_device)
    as [(s' & E & _ & Hm & _ & Hb) [Hr _]].
  - repeat (constructor; [cbn; lia|]). constructor.
  - lia.
  - exists s'. exact (conj E (conj Hm (conj Hb Hr))).
Defined.
