(* ===== verification/Cmdline.v ===== *)
(** * kernel/kern/cmdline.c: the kernel's command line

    [cmdline_parse] is a machine of four states that runs over the characters
    and adds an option to a table at the end of each word.  The table is a hash
    table of uthash.h; the code only goes through it in the order of insertion,
    so it is the list of its options here.  Strings are lists of characters and
    an array of utarray.h the list of its strings, which the array copies;
    allocating them is taken to succeed.

    The theorem says which command lines are understood: those rendered from
    options, but an option without a value is lost at the end of the line. *)

From stdpp Require Import base numbers list strings.
From S2P Require Import Prelude.

Record cmdline_option := COption { co_name : list Z; value_count : Z; co_values : list (list Z) }.

Inductive parser_state := search_option_start | search_option_end | search_value_start | search_value_end.

Abbreviation space := 32 (only parsing).
Abbreviation equals := 61 (only parsing).
Abbreviation comma := 44 (only parsing).
(** [(size_t)-1] *)
Abbreviation none := 4294967295 (only parsing).

(** The variables of [cmdline_parse]; the state is [cmdline_options_table]. *)
Record parser := Parser {
  pstate_ : parser_state;
  option_start : Z;
  value_start : Z;
  pname : option (list Z);
  pvalues : list (list Z)
}.

(** [strndup(cmdline + start, n)], on a string that goes on for at least [n] characters. *)
Definition substring (cmdline : list Z) (start n : Z) : list Z := take (Z.to_nat n) (drop (Z.to_nat start) cmdline).

Definition cmdline_option_add (name : option (list Z)) (values : list (list Z)) : M (list cmdline_option) unit :=
  match name with
  | Some name => modify (λ table, table ++ [COption name (Z.of_nat (length values)) values])
  | None => panic "name != 0"
  end.

(** One round of the loop: character [c] at index [i]. *)
Definition parse_char (cmdline : list Z) (i c : Z) (p : parser) : M (list cmdline_option) parser :=
  let 'Parser state option_start value_start name values := p in
  match state with
  | search_option_start =>
      if negb (c =? space) then mret (Parser search_option_end i value_start name values) else mret p
  | search_option_end =>
      if c =? space then
        let name := Some (substring cmdline option_start (u32 (i - option_start))) in
        cmdline_option_add name values;;
        mret (Parser search_option_start option_start value_start None values)
      else if c =? equals then
        mret (Parser search_value_start option_start value_start (Some (substring cmdline option_start (u32 (i - option_start)))) values)
      else mret p
  | search_value_start =>
      if c =? space then mret (Parser search_option_start option_start value_start name values)
      else mret (Parser search_value_end option_start i name values)
  | search_value_end =>
      if c =? space then
        let value := substring cmdline value_start (u32 (i - value_start)) in
        cmdline_option_add name (values ++ [value]);;
        mret (Parser search_option_start option_start none None [])
      else if c =? comma then
        let value := substring cmdline value_start (u32 (i - value_start)) in
        mret (Parser search_value_start option_start none name (values ++ [value]))
      else mret p
  end.

Fixpoint parse_loop (cmdline rest : list Z) (i : Z) (p : parser) : M (list cmdline_option) (Z * parser) :=
  match rest with
  | [] => mret (i, p)
  | c :: rest => p ← parse_char cmdline i c p; parse_loop cmdline rest (u32 (i + 1)) p
  end.

(** The function ends without a [return]. *)
Definition cmdline_parse (cmdline : list Z) : M (list cmdline_option) unit :=
  '(i, p) ← parse_loop cmdline cmdline 0 (Parser search_option_start none none None []);
  let 'Parser _ _ value_start name values := p in
  match name with
  | Some _ =>
      cmdline_option_add name
        (if negb (value_start =? none) then values ++ [substring cmdline value_start (u32 (i - value_start))] else values)
  | None => mret tt
  end.

Definition chars (s : string) : list Z := (λ a, Z.of_nat (Ascii.nat_of_ascii a)) <$> String.list_ascii_of_string s.

(** What [cmdline_print_info] prints. *)
Definition print_values (values : list (list Z)) : list Z :=
  match values with
  | [] => []
  | v :: vs => equals :: v ++ concat (map (cons comma) vs)
  end.
Definition cmdline_print_info (table : list cmdline_option) : list Z :=
  chars "command line options:" ++ [10] ++ concat (map (λ o, co_name o ++ print_values (co_values o) ++ [10]) table).

(** ** Rendered command lines *)

Definition render_option (o : cmdline_option) : list Z := co_name o ++ print_values (co_values o).

(** A command line: spaces, options each followed by one or more spaces, and
    perhaps an option that the line ends with. *)
Definition render (k : nat) (os : list (cmdline_option * nat)) (o : option cmdline_option) : list Z :=
  replicate k space ++ concat (map (λ x, render_option x.1 ++ space :: replicate x.2 space) os) ++ from_option render_option [] o.

Definition name_ok (n : list Z) : Prop := n ≠ [] ∧ Forall (λ c, c ≠ space ∧ c ≠ equals) n.
Definition value_ok (v : list Z) : Prop := v ≠ [] ∧ Forall (λ c, c ≠ space ∧ c ≠ comma) v.
Definition option_ok (o : cmdline_option) : Prop :=
  name_ok (co_name o) ∧ Forall value_ok (co_values o) ∧ value_count o = Z.of_nat (length (co_values o)).

Definition is_flag (o : cmdline_option) : bool := match co_values o with [] => true | _ => false end.

(** What becomes of the option at the end of the line. *)
Definition kept (o : option cmdline_option) : list cmdline_option :=
  match o with
  | Some o => if is_flag o then [] else [o]
  | None => []
  end.

(** ** The parser on words *)

Abbreviation pos l := (Z.of_nat (length l)).

Lemma pos_app (l1 l2 : list Z) : pos (l1 ++ l2) = pos l1 + pos l2.
Proof. rewrite length_app. lia. Qed.

Section Parse.
Variable cmdline : list Z.
Hypothesis short : Z.of_nat (length cmdline) < none.
#[local] Set Default Proof Using "Type*".

(** The part of the line from [pre] on is [w], then [post]. *)
Lemma substring_word pre w post : cmdline = pre ++ w ++ post →
  substring cmdline (Z.of_nat (length pre)) (u32 (Z.of_nat (length (pre ++ w)) - Z.of_nat (length pre))) = w.
Proof.
  intros E. assert (Hl : (length pre + length w ≤ length cmdline)%nat) by (rewrite E, !length_app; lia).
  unfold substring. rewrite length_app, u32_small by lia. replace (Z.of_nat (length pre + length w) - Z.of_nat (length pre)) with (Z.of_nat (length w)) by lia.
  rewrite !Nat2Z.id, E, drop_app_length. apply take_app_length.
Qed.

Lemma parse_loop_app w rest i p t p' t' j : parse_loop cmdline w i p t = Ret (j, p') t' →
  parse_loop cmdline (w ++ rest) i p t = parse_loop cmdline rest j p' t'.
Proof.
  revert i p t. induction w as [|c w IH]; intros i p t E; cbn [parse_loop app] in *; [by injection E as -> -> ->|].
  apply bind_ret_inv in E as (p1 & t1 & E1 & E). step E1. by apply IH.
Qed.

(** Characters that leave the machine where it is. *)
Lemma parse_stay w i p t : (∀ c j, c ∈ w → parse_char cmdline j c p t = Ret p t) → 0 ≤ i → i + Z.of_nat (length w) < none →
  parse_loop cmdline w i p t = Ret (i + Z.of_nat (length w), p) t.
Proof.
  revert i. induction w as [|c w IH]; intros i Hc Hi Hl; cbn [parse_loop length] in *; [by rewrite Z.add_0_r|].
  step (Hc c i ltac:(by left)). rewrite u32_small, IH by (lia || (intros; apply Hc; by right)). do 2 f_equal. lia.
Qed.

Lemma pos_in pre w post : cmdline = pre ++ w ++ post → pos (pre ++ w) < none.
Proof. intros E. rewrite E, !length_app in short. rewrite length_app. lia. Qed.

Lemma parse_name pre n post o t : cmdline = pre ++ n ++ post → name_ok n →
  parse_loop cmdline n (pos pre) (Parser search_option_start o none None []) t =
    Ret (pos (pre ++ n), Parser search_option_end (pos pre) none None []) t.
Proof.
  intros E [Hn Hc]. destruct n as [|c n]; [done|]. apply Forall_cons_1 in Hc as [[Hc1 Hc2] Hc]. pose proof (pos_in _ _ _ E) as Hp.
  rewrite pos_app in Hp |- *. cbn [length] in *. cbn [parse_loop parse_char]. rewrite (proj2 (Z.eqb_neq c space)) by done. cbn [negb].
  rewrite (bind_ret _ _ _ _ _ (ret_ok _ t)). rewrite u32_small by lia. rewrite parse_stay; [| |lia|lia].
  - do 2 f_equal. lia.
  - intros d j Hd. rewrite Forall_forall in Hc. destruct (Hc d Hd) as [H1 H2]. cbn. by rewrite (proj2 (Z.eqb_neq d space)), (proj2 (Z.eqb_neq d equals)).
Qed.

Lemma parse_value pre v post o n acc t : cmdline = pre ++ v ++ post → value_ok v →
  parse_loop cmdline v (pos pre) (Parser search_value_start o none (Some n) acc) t =
    Ret (pos (pre ++ v), Parser search_value_end o (pos pre) (Some n) acc) t.
Proof.
  intros E [Hn Hc]. destruct v as [|c v]; [done|]. apply Forall_cons_1 in Hc as [[Hc1 Hc2] Hc]. pose proof (pos_in _ _ _ E) as Hp.
  rewrite pos_app in Hp |- *. cbn [length] in *. cbn [parse_loop parse_char]. rewrite (proj2 (Z.eqb_neq c space)) by done.
  rewrite (bind_ret _ _ _ _ _ (ret_ok _ t)). rewrite u32_small by lia. rewrite parse_stay; [| |lia|lia].
  - do 2 f_equal. lia.
  - intros d j Hd. rewrite Forall_forall in Hc. destruct (Hc d Hd) as [H1 H2]. cbn. by rewrite (proj2 (Z.eqb_neq d space)), (proj2 (Z.eqb_neq d comma)).
Qed.

(** The values of an option, up to the end of the last one, which is not yet in the array. *)
Lemma parse_values pre v vs post o n acc t : cmdline = pre ++ (v ++ concat (map (cons comma) vs)) ++ post → Forall value_ok (v :: vs) →
  ∃ pre' init vl, v :: vs = init ++ [vl] ∧ pre ++ v ++ concat (map (cons comma) vs) = pre' ++ vl ∧
    parse_loop cmdline (v ++ concat (map (cons comma) vs)) (pos pre) (Parser search_value_start o none (Some n) acc) t =
      Ret (pos (pre' ++ vl), Parser search_value_end o (pos pre') (Some n) (acc ++ init)) t.
Proof.
  revert pre v acc. induction vs as [|w vs IH]; intros pre v acc E Hok; apply Forall_cons_1 in Hok as [Hv Hok]; cbn [map concat] in *.
  - exists pre, [], v. rewrite !app_nil_r in *. split; [done|]. split; [done|]. by eapply parse_value.
  - rewrite <- app_assoc in E. pose proof (parse_value pre v _ o n acc t E Hv) as E1.
    assert (E2 : parse_loop cmdline (v ++ [comma]) (pos pre) (Parser search_value_start o none (Some n) acc) t =
      Ret (pos (pre ++ v ++ [comma]), Parser search_value_start o none (Some n) (acc ++ [v])) t).
    { rewrite (parse_loop_app _ _ _ _ _ _ _ _ E1). cbn [parse_loop parse_char]. cbn [Z.eqb Pos.eqb]. rewrite (bind_ret _ _ _ _ _ (ret_ok _ t)).
      rewrite (substring_word pre v _ E). assert (Hs : pos (pre ++ v) + 1 < none).
      { rewrite E in short. cbn in short. rewrite !length_app in short. cbn in short. rewrite !length_app in short |- *. lia. }
      rewrite u32_small by (rewrite length_app in *; lia). do 2 f_equal. rewrite !length_app. cbn. lia. }
    destruct (IH (pre ++ v ++ [comma]) w (acc ++ [v])) as (pre' & init & vl & Hvl & Hpre & E3); [|done|].
    { rewrite E. cbn. by rewrite <- !app_assoc. }
    exists pre', (v :: init), vl. split; [by rewrite Hvl|]. split; [rewrite <- Hpre; by rewrite <- !app_assoc|].
    replace (v ++ (comma :: w) ++ concat (map (cons comma) vs)) with ((v ++ [comma]) ++ w ++ concat (map (cons comma) vs)) by by rewrite <- !app_assoc.
    rewrite (parse_loop_app _ _ _ _ _ _ _ _ E2), E3. by rewrite <- app_assoc.
Qed.

Lemma parse_spaces k i o t : 0 ≤ i → i + Z.of_nat k < none →
  parse_loop cmdline (replicate k space) i (Parser search_option_start o none None []) t =
    Ret (i + Z.of_nat k, Parser search_option_start o none None []) t.
Proof.
  intros Hi Hk. rewrite parse_stay; [by rewrite length_replicate| |done|by rewrite length_replicate].
  intros c j Hc. by apply elem_of_replicate in Hc as [-> _].
Qed.

(** The machine at the end of an option that the line still has to end. *)
Definition at_end (o : cmdline_option) (pre : list Z) (p : parser) : Prop :=
  match co_values o with
  | [] => p = Parser search_option_end (pos pre) none None []
  | _ => ∃ pre' init vl, co_values o = init ++ [vl] ∧ pre ++ render_option o = pre' ++ vl ∧
      p = Parser search_value_end (pos pre) (pos pre') (Some (co_name o)) init
  end.

Lemma parse_option pre o post os t : cmdline = pre ++ render_option o ++ post → option_ok o →
  ∃ p, parse_loop cmdline (render_option o) (pos pre) (Parser search_option_start os none None []) t = Ret (pos (pre ++ render_option o), p) t ∧
    at_end o pre p.
Proof.
  intros E (Hn & Hv & _). unfold at_end, render_option in *. destruct (co_values o) as [|v vs] eqn:Ev; cbn [print_values] in *.
  - rewrite app_nil_r in *. eexists. split; [by eapply parse_name|done].
  - rewrite <- app_assoc in E. pose proof (parse_name pre (co_name o) _ os t E Hn) as E1.
    set (vals := v ++ concat (map (cons comma) vs)) in *. set (pre1 := pre ++ co_name o ++ [equals]).
    assert (Epre : cmdline = pre1 ++ vals ++ post) by (unfold pre1; rewrite E; cbn; by rewrite <- !app_assoc).
    assert (E2 : parse_loop cmdline (co_name o ++ [equals]) (pos pre) (Parser search_option_start os none None []) t =
      Ret (pos pre1, Parser search_value_start (pos pre) none (Some (co_name o)) []) t).
    { rewrite (parse_loop_app _ _ _ _ _ _ _ _ E1). cbn [parse_loop parse_char]. cbn [Z.eqb Pos.eqb]. rewrite (bind_ret _ _ _ _ _ (ret_ok _ t)).
      rewrite (substring_word pre (co_name o) _ E). pose proof (pos_in _ _ _ Epre) as Hs. unfold pre1 in *. rewrite !length_app in Hs |- *. cbn in Hs |- *.
      rewrite u32_small by lia. do 2 f_equal. lia. }
    destruct (parse_values pre1 v vs post (pos pre) (co_name o) [] t Epre Hv) as (pre' & init & vl & Hvl & Hpre & E3).
    fold vals in E3, Hpre. exists (Parser search_value_end (pos pre) (pos pre') (Some (co_name o)) init).
    assert (Hw : pre ++ co_name o ++ equals :: vals = pre' ++ vl) by (rewrite <- Hpre; unfold pre1; by rewrite <- !app_assoc).
    split; [|by exists pre', init, vl]. replace (co_name o ++ equals :: vals) with ((co_name o ++ [equals]) ++ vals) by by rewrite <- app_assoc.
    rewrite (parse_loop_app _ _ _ _ _ _ _ _ E2), E3. rewrite <- app_assoc. cbn. by rewrite Hw.
Qed.

Lemma parse_option_space pre o post os t : cmdline = pre ++ (render_option o ++ [space]) ++ post → option_ok o →
  ∃ os', parse_loop cmdline (render_option o ++ [space]) (pos pre) (Parser search_option_start os none None []) t =
    Ret (pos (pre ++ render_option o ++ [space]), Parser search_option_start os' none None []) (t ++ [o]).
Proof.
  intros E Ho. pose proof (pos_in _ _ _ E) as Hs. rewrite <- app_assoc in E.
  destruct (parse_option pre o _ os t E Ho) as (p & E1 & Hp). exists (pos pre).
  assert (Hi : 0 ≤ pos (pre ++ render_option o) + 1 < W32 ∧ pos (pre ++ render_option o) + 1 = pos (pre ++ render_option o ++ [space])).
  { rewrite !length_app in Hs |- *. rewrite length_app. cbn [length] in Hs |- *. lia. }
  rewrite (parse_loop_app _ _ _ _ _ _ _ _ E1). cbn [parse_loop]. rewrite u32_small by apply Hi. rewrite (proj2 Hi).
  destruct Ho as (_ & _ & Hc). unfold at_end in Hp. destruct o as [n cnt vs]; cbn [co_values co_name value_count] in *.
  destruct vs as [|v vs].
  - subst p. cbn [parse_char]. cbn [Z.eqb Pos.eqb]. unfold render_option in *. cbn [co_values co_name print_values] in *. rewrite app_nil_r in *.
    rewrite (substring_word pre n _ E). subst cnt. done.
  - destruct Hp as (pre' & init & vl & Hvl & Hpre & ->). cbn [parse_char]. cbn [Z.eqb Pos.eqb]. rewrite app_assoc, Hpre, <- app_assoc in E. rewrite Hpre.
    rewrite (substring_word pre' vl _ E), <- Hvl. subst cnt. done.
Qed.

Definition words (os : list (cmdline_option * nat)) : list Z := concat (map (λ x, render_option x.1 ++ space :: replicate x.2 space) os).

Lemma parse_words os pre post st t : cmdline = pre ++ words os ++ post → Forall (λ x, option_ok x.1) os →
  ∃ st', parse_loop cmdline (words os) (pos pre) (Parser search_option_start st none None []) t =
    Ret (pos (pre ++ words os), Parser search_option_start st' none None []) (t ++ os.*1).
Proof.
  revert pre st t. induction os as [|[o k] os IH]; intros pre st t E Hok.
  - exists st. cbn. by rewrite !app_nil_r.
  - apply Forall_cons_1 in Hok as [Ho Hos]. cbn [fst] in Ho.
    change (words ((o, k) :: os)) with ((render_option o ++ space :: replicate k space) ++ words os) in *. cbn [fmap list_fmap fst].
    set (w1 := render_option o ++ [space]). set (w2 := replicate k space).
    assert (Ew : (render_option o ++ space :: w2) ++ words os = w1 ++ w2 ++ words os) by (unfold w1; by rewrite <- !app_assoc).
    fold w2 in E |- *. rewrite Ew in E |- *. rewrite <- !app_assoc in E. destruct (parse_option_space pre o _ st t E Ho) as (st1 & E1). fold w1 in E1.
    assert (E' : cmdline = (pre ++ w1 ++ w2) ++ words os ++ post) by (rewrite E; by rewrite <- !app_assoc).
    assert (Hs : pos (pre ++ w1) + Z.of_nat k < none).
    { rewrite E', !length_app in short. unfold w2 in short. rewrite length_replicate in short. rewrite length_app. lia. }
    pose proof (parse_spaces k (pos (pre ++ w1)) st1 (t ++ [o]) ltac:(lia) Hs) as E2. fold w2 in E2.
    destruct (IH (pre ++ w1 ++ w2) st1 (t ++ [o]) E' Hos) as (st' & E3). exists st'.
    rewrite (parse_loop_app _ _ _ _ _ _ _ _ E1), (parse_loop_app _ _ _ _ _ _ _ _ E2).
    replace (pos (pre ++ w1) + Z.of_nat k) with (pos (pre ++ w1 ++ w2)) by (unfold w2; rewrite !length_app, length_replicate; lia).
    rewrite E3, <- !app_assoc. done.
Qed.
End Parse.

(** C29: [cmdline_parse] understands what it is meant to: from a line of options
    separated by spaces, each a name or a name with values separated by commas,
    it adds exactly these options to the table, in order, with their values.
    The one exception is an option without a value at the very end of the line,
    which it forgets: the name is only taken when a space or a sign follows. *)
Theorem cmdline_parse_render k os o table :
  Forall (λ x, option_ok x.1) os → from_option option_ok True o → Z.of_nat (length (render k os o)) < none →
  cmdline_parse (render k os o) table = Ret tt (table ++ os.*1 ++ kept o).
Proof.
  intros Hos Ho Hlen. set (cmd := render k os o) in *. assert (E : cmd = replicate k space ++ words os ++ from_option render_option [] o) by done.
  unfold cmdline_parse. assert (Hk : 0 + Z.of_nat k < none) by (rewrite E, length_app, length_replicate in Hlen; lia).
  pose proof (parse_spaces cmd Hlen k 0 none table ltac:(lia) Hk) as E1.
  destruct (parse_words cmd Hlen os (replicate k space) _ none table E Hos) as (st & E2). rewrite length_replicate in E2.
  rewrite E at 2. rewrite (bind_run _ (parse_loop cmd (from_option render_option [] o) (pos (replicate k space ++ words os))
    (Parser search_option_start st none None [])) _ _ (table ++ os.*1)).
  2: { rewrite (parse_loop_app cmd Hlen _ _ _ _ _ _ _ _ E1). rewrite Z.add_0_l. by rewrite (parse_loop_app cmd Hlen _ _ _ _ _ _ _ _ E2). }
  destruct o as [o|]; cbn [from_option kept] in *.
  - rewrite app_assoc in E. rewrite <- (app_nil_r (render_option o)) in E.
    destruct (parse_option cmd Hlen (replicate k space ++ words os) o [] st (table ++ os.*1) E Ho) as (p & E3 & Hp). rewrite (bind_ret _ _ _ _ _ E3).
    destruct Ho as (_ & _ & Hc). unfold at_end, is_flag in *. destruct o as [n cnt vs]; cbn [co_values co_name value_count] in *. destruct vs as [|v vs].
    + subst p. cbn. by rewrite app_nil_r.
    + destruct Hp as (pre' & init & vl & Hvl & Hpre & ->). cbv beta iota. rewrite app_assoc, Hpre, <- app_assoc in E. rewrite Hpre.
      pose proof (pos_in cmd Hlen _ _ _ E) as Hs. rewrite length_app in Hs. rewrite (proj2 (Z.eqb_neq (pos pre') none)) by lia. cbn [negb].
      rewrite (substring_word cmd Hlen pre' vl _ E), <- Hvl. subst cnt. unfold cmdline_option_add, modify. by rewrite (app_assoc table).
  - cbn. by rewrite app_nil_r.
Qed.

(** The line "root=sda,sdb quiet": the second option is lost. *)
Lemma cmdline_parse_render_witness :
  cmdline_parse (chars "root=sda,sdb quiet") [] = Ret tt [COption (chars "root") 2 [chars "sda"; chars "sdb"]].
Proof.
  apply (cmdline_parse_render 0 [(COption (chars "root") 2 [chars "sda"; chars "sdb"], 0%nat)] (Some (COption (chars "quiet") 0 []))).
  - constructor; [|constructor]. split; [split; [discriminate|repeat (constructor; [split; discriminate|]); constructor]|]. split; [|reflexivity].
    repeat (constructor; [split; [discriminate|repeat (constructor; [split; discriminate|]); constructor]|]). constructor.
  - split; [split; [discriminate|repeat (constructor; [split; discriminate|]); constructor]|]. split; [constructor|reflexivity].
  - reflexivity.
Defined.

(** A value that ends in a comma: the option is not added where it stands, and
    its values go to the next one. *)
Lemma cmdline_parse_trailing_comma :
  cmdline_parse (chars "a=x, b=y ") [] = Ret tt [COption (chars "b") 2 [chars "x"; chars "y"]].
Proof. vm_compute. reflexivity. Qed.
