(* ===== verification/Uart.v ===== *)
(** * kernel/ia32/uart.c: the serial ports

    The registers of a 16550 are bytes with bit fields; kernel/ia32/arch/uart.h
    names the fields; those the driver uses are here.  The loops that wait for the device end when the device
    is ready; [spin_limit] bounds the number of times they look. *)

From stdpp Require Import base numbers list gmap strings.
From S2P Require Import Prelude MemUtil Ports.

(** ** Registers and their fields *)

Abbreviation UART_UART_BAUD := 115200 (only parsing).

Inductive uart_model := uart_unknown | uart_8250 | uart_16450 | uart_16550 | uart_16550A | uart_16750 | uart_unsupported.
Definition uart_models : list string := ["unknown"; "8250"; "16450"; "16550"; "16550A"; "16750"; "unsupported"]%string.
Definition uart_model_value (m : uart_model) : nat :=
  match m with
  | uart_unknown => 0 | uart_8250 => 1 | uart_16450 => 2 | uart_16550 => 3 | uart_16550A => 4 | uart_16750 => 5 | uart_unsupported => 6
  end.

Record uart_caps := UartCaps {
  model : uart_model;
  has_fifo : bool;
  scratch_reg : bool;
  receive_fifo_size : Z;
  transmit_fifo_size : Z
}.

Abbreviation UART_DIVISOR_LATCH_LSB := 0 (only parsing).
Abbreviation UART_INTERRUPT_ENABLE_REG := 1 (only parsing).
Abbreviation UART_DIVISOR_LATCH_MSB := 1 (only parsing).
Abbreviation UART_INTERRUPT_IDENT_REG := 2 (only parsing).
Abbreviation UART_FIFO_CTRL_REG := 2 (only parsing).
Abbreviation UART_LINE_CTRL_REG := 3 (only parsing).
Abbreviation UART_MODEM_CTRL_REG := 4 (only parsing).
Abbreviation UART_LINE_STATUS_REG := 5 (only parsing).
Abbreviation UART_SCRATCH_REG := 7 (only parsing).

Abbreviation UART_COM1 := 1016 (only parsing). (* 0x3f8 *)
Abbreviation uart_lcr_dlab_on := 1 (only parsing).
Abbreviation uart_lcr_dlab_off := 0 (only parsing).
Abbreviation uart_lcr_no_parity := 0 (only parsing).
Abbreviation uart_lcr_one_stop_bit := 0 (only parsing).
Abbreviation uart_iir_fifo_reserved_condition := 1 (only parsing).
Abbreviation uart_iir_fifo_enabled := 3 (only parsing).
Abbreviation uart_fcr_fourteen_bytes := 3 (only parsing).

Abbreviation UART_LCR_SET_STOP_BITS uart value := (withbit uart 2 value) (only parsing).
Abbreviation UART_LCR_SET_PARITY uart value := (withbits uart 3 5 value) (only parsing).
Abbreviation UART_LCR_SET_DLAB uart value := (withbit uart 7 value) (only parsing).

Abbreviation UART_IIR_GET_64_BYTE_BUFFER_ENABLED uart := (getbit uart 5) (only parsing).
Abbreviation UART_IIR_GET_FIFO_STATUS uart := (getbits uart 6 7) (only parsing).

Abbreviation UART_FCR_SET_ENABLED uart value := (withbit uart 0 value) (only parsing).
Abbreviation UART_FCR_SET_CLEAR_RX_FIFO uart value := (withbit uart 1 value) (only parsing).
Abbreviation UART_FCR_SET_CLEAR_TX_FIFO uart value := (withbit uart 2 value) (only parsing).
Abbreviation UART_FCR_SET_INT_TRIGGER_LEVEL uart value := (withbits uart 6 7 value) (only parsing).

Abbreviation UART_MCR_SET_DATA_TERMINAL_READY uart value := (withbit uart 0 value) (only parsing).
Abbreviation UART_MCR_SET_REQUEST_TO_SEND uart value := (withbit uart 1 value) (only parsing).
Abbreviation UART_MCR_SET_INT_ENABLE_OR_AUX_OUT_2 uart value := (withbit uart 3 value) (only parsing).

Abbreviation UART_LSR_GET_DATA_AVAILABLE uart := (getbit uart 0) (only parsing).
Abbreviation UART_LSR_GET_THR_EMPTY uart := (getbit uart 5) (only parsing).

(** ** Operations *)

(** A state with byte memory. *)
Class HasBytes (S : Type) := {
  the_bytes : S → bytes;
  set_bytes : bytes → S → S
}.
Definition on_bytes {S A} `{HasBytes S} (m : M bytes A) : M S A := zoom the_bytes set_bytes m.

Section Uart.
Context {S} `{Ports S}.
Variable dev : list io_event → Z → Z.
Variable spin_limit : nat.

Definition uart_write_reg (port reg value : Z) : M S unit := outb (port + reg) value.
Definition uart_read_reg (port reg : Z) : M S Z := inb dev (port + reg).

(** A division by zero traps.  No quotient is 0, so the message about a
    spurious rate is never printed. *)
Definition uart_calc_uart_divisor (desired_baud : Z) : M S Z :=
  if desired_baud =? 0 then fault else mret (u16 (UART_UART_BAUD / desired_baud)).

Definition uart_write_baud (port baud : Z) : M S unit :=
  divisor ← uart_calc_uart_divisor baud;
  let d_hi := u8 (Z.shiftr divisor 8) in
  let d_lo := u8 divisor in
  uart_write_reg port UART_DIVISOR_LATCH_LSB d_lo;;
  uart_write_reg port UART_DIVISOR_LATCH_MSB d_hi.

Definition uart_init : M S unit := mret tt.

Definition uart_enable (port : Z) : M S unit :=
  uart_write_reg port UART_INTERRUPT_ENABLE_REG 0;;
  let lcr := u8 (UART_LCR_SET_DLAB 0 uart_lcr_dlab_on) in
  uart_write_reg port UART_LINE_CTRL_REG lcr;;
  uart_write_baud port 38400;;
  let lcr := u8 (UART_LCR_SET_DLAB lcr uart_lcr_dlab_off) in
  let lcr := u8 (UART_LCR_SET_PARITY lcr uart_lcr_no_parity) in
  let lcr := u8 (UART_LCR_SET_STOP_BITS lcr uart_lcr_one_stop_bit) in
  uart_write_reg port UART_LINE_CTRL_REG lcr;;
  let fcr := u8 (UART_FCR_SET_ENABLED 0 1) in
  let fcr := u8 (UART_FCR_SET_CLEAR_RX_FIFO fcr 1) in
  let fcr := u8 (UART_FCR_SET_CLEAR_TX_FIFO fcr 1) in
  let fcr := u8 (UART_FCR_SET_INT_TRIGGER_LEVEL fcr uart_fcr_fourteen_bytes) in
  uart_write_reg port UART_FIFO_CTRL_REG fcr;;
  let mcr := u8 (UART_MCR_SET_DATA_TERMINAL_READY 0 1) in
  let mcr := u8 (UART_MCR_SET_REQUEST_TO_SEND mcr 1) in
  let mcr := u8 (UART_MCR_SET_INT_ENABLE_OR_AUX_OUT_2 mcr 1) in
  uart_write_reg port UART_MODEM_CTRL_REG mcr.

Definition uart_is_transmit_fifo_empty (port : Z) : M S bool :=
  lsr ← uart_read_reg port UART_LINE_STATUS_REG;
  mret (UART_LSR_GET_THR_EMPTY lsr =? 1).
Definition uart_is_receive_fifo_empty (port : Z) : M S bool :=
  lsr ← uart_read_reg port UART_LINE_STATUS_REG;
  mret (UART_LSR_GET_DATA_AVAILABLE lsr =? 0).

Fixpoint transmit_wait (fuel : nat) (port : Z) : M S unit :=
  match fuel with
  | O => nofuel
  | Datatypes.S fuel => e ← uart_is_transmit_fifo_empty port; if negb e then transmit_wait fuel port else mret tt
  end.
Definition uart_transmit_fifo_spinwait : Z → M S unit := transmit_wait spin_limit.

Fixpoint receive_wait (fuel : nat) (port : Z) : M S unit :=
  match fuel with
  | O => nofuel
  | Datatypes.S fuel => e ← uart_is_receive_fifo_empty port; if (e : bool) then receive_wait fuel port else mret tt
  end.
Definition uart_receive_fifo_spinwait : Z → M S unit := receive_wait spin_limit.

(** The values given to [kprintf]. *)
Definition uart_print_info (caps : uart_caps) : option string * bool * bool * Z * Z :=
  (uart_models !! Nat.min (uart_model_value uart_unsupported) (uart_model_value (model caps)),
   has_fifo caps, scratch_reg caps, receive_fifo_size caps, transmit_fifo_size caps).

Definition uart_fingerprint_uart (port : Z) (result : uart_caps) : M S uart_caps :=
  let fcr := u8 (UART_FCR_SET_ENABLED 0 1) in
  let fcr := u8 (UART_FCR_SET_CLEAR_RX_FIFO fcr 1) in
  let fcr := u8 (UART_FCR_SET_CLEAR_TX_FIFO fcr 1) in
  uart_write_reg port UART_FIFO_CTRL_REG fcr;;
  let scratch := 42 in
  uart_write_reg port UART_SCRATCH_REG scratch;;
  r ← uart_read_reg port UART_SCRATCH_REG;
  let scratch_ok := scratch =? r in
  iir ← uart_read_reg port UART_INTERRUPT_IDENT_REG;
  if UART_IIR_GET_FIFO_STATUS iir =? uart_iir_fifo_enabled then
    if negb (UART_IIR_GET_64_BYTE_BUFFER_ENABLED fcr =? 0) then mret (UartCaps uart_16750 true scratch_ok 64 64)
    else mret (UartCaps uart_16550A true scratch_ok 16 16)
  else if UART_IIR_GET_FIFO_STATUS fcr =? uart_iir_fifo_reserved_condition then mret (UartCaps uart_16550 true scratch_ok 1 1)
  else mret (UartCaps (if scratch_ok then uart_16450 else uart_8250) false scratch_ok (receive_fifo_size result) (transmit_fifo_size result)).

Definition uart_putc_sync (port c : Z) : M S unit :=
  uart_transmit_fifo_spinwait port;;
  outb port c.

Fixpoint puts_loop `{HasBytes S} (fuel : nat) (port s c : Z) : M S unit :=
  match fuel with
  | O => nofuel
  | Datatypes.S fuel =>
      if negb (c =? 0) then
        uart_putc_sync port c;;
        c ← on_bytes (load8 (u32 (s + 1)));
        puts_loop fuel port (u32 (s + 1)) c
      else mret tt
  end.
Definition uart_puts_sync `{HasBytes S} (port s : Z) : M S unit :=
  c ← on_bytes (load8 s);
  st ← get;
  puts_loop (Datatypes.S (base.size (the_bytes st))) port s c.

Definition uart_getc_sync (port : Z) : M S Z :=
  uart_receive_fifo_spinwait port;;
  c ← inb dev port;
  mret (s8 c).

(** ** Sending a character *)

(** The accesses after [k] looks at the line status. *)
Fixpoint polled (k : nat) (port : Z) (tr : list io_event) : list io_event :=
  match k with
  | O => tr
  | Datatypes.S k => polled k port (In (u16 (port + 5)) (u8 (dev tr (u16 (port + 5)))) :: tr)
  end.

(** Whatever was done before, the transmitter is empty at one of the next [spin_limit] looks. *)
Definition serial_ready (port : Z) : Prop :=
  ∀ tr, ∃ k, (k < spin_limit)%nat ∧ UART_LSR_GET_THR_EMPTY (u8 (dev (polled k port tr) (u16 (port + 5)))) = 1.

Context `{!PortsLaws S}.

Lemma transmit_wait_spec port k : ∀ fuel (s : S),
  (k < fuel)%nat → UART_LSR_GET_THR_EMPTY (u8 (dev (polled k port (io_trace s)) (u16 (port + 5)))) = 1 →
  ∃ ins, Forall is_in ins ∧ transmit_wait fuel port s = Ret tt (set_io_trace (ins ++ io_trace s) s).
Proof.
  induction k as [|k IH]; intros [|fuel] s Hf Hr; try lia; cbn [transmit_wait];
    set (v := u8 (dev (io_trace s) (u16 (port + 5)))); set (s1 := set_io_trace (In (u16 (port + 5)) v :: io_trace s) s);
    (assert (E : uart_is_transmit_fifo_empty port s = Ret (UART_LSR_GET_THR_EMPTY v =? 1) s1) by done); step E.
  - cbn [polled] in Hr. fold v in Hr. rewrite Hr. exists [In (u16 (port + 5)) v]. split; [by repeat constructor|done].
  - destruct (UART_LSR_GET_THR_EMPTY v =? 1); cbn [negb].
    + exists [In (u16 (port + 5)) v]. split; [by repeat constructor|done].
    + cbn [polled] in Hr. fold v in Hr. assert (Et : io_trace s1 = In (u16 (port + 5)) v :: io_trace s) by apply io_trace_set.
      rewrite <- Et in Hr. destruct (IH fuel s1 ltac:(lia) Hr) as (ins & Hi & E2). exists (ins ++ [In (u16 (port + 5)) v]).
      split; [apply Forall_app; split; [done|by repeat constructor]|]. rewrite E2, Et. unfold s1. by rewrite set_io_trace_set, <- app_assoc.
Qed.

Lemma putc_sync_spec port c (s : S) : serial_ready port →
  ∃ ins, Forall is_in ins ∧ uart_putc_sync port c s = Ret tt (set_io_trace (Out (u16 port) (u8 c) :: ins ++ io_trace s) s).
Proof.
  intros Hr. destruct (Hr (io_trace s)) as (k & Hk & Ht).
  destruct (transmit_wait_spec port k spin_limit s Hk Ht) as (ins & Hi & E). exists ins. split; [done|].
  unfold uart_putc_sync, uart_transmit_fifo_spinwait. step E. unfold outb, modify. by rewrite io_trace_set, set_io_trace_set.
Qed.
End Uart.
