(* ===== verification/Terminal.v ===== *)
(** * kernel/drivers/vga.c and kernel/terminal/terminal.c: the text screen

    The state has the variables of the terminal, the cells of the screen, the
    accesses made to ports, and the memory that strings are read from.  A cell
    outside the 80 by 25 screen cannot be accessed.  The screen is then related
    to what a user sees: rows of cells, with a cursor that moves on at the end
    of a row and rows that scroll at the end of the screen. *)

From stdpp Require Import base numbers list gmap strings.
From S2P Require Import Prelude MemUtil Bytes Cstring Ports Uart.

(** ** vga.c *)

Definition VGA_WIDTH : Z := 80.
Definition VGA_HEIGHT : Z := 25.
Abbreviation COLOR_BLACK := 0 (only parsing).
Abbreviation COLOR_LIGHT_GREY := 7 (only parsing).
Abbreviation VGA_PORT_3C2 := 962 (only parsing). (* 0x3c2 *)
Abbreviation VGA_PORT_3CC := 972 (only parsing). (* 0x3cc *)
Abbreviation VGA_PORT_3D4 := 980 (only parsing). (* 0x3d4 *)
Abbreviation VGA_DATA_3D5 := 981 (only parsing). (* 0x3d5 *)

Record tstate := TState {
  terminal_row : Z;
  terminal_column : Z;
  terminal_color : Z;
  serial_console_port : Z;
  vga_cells : list Z;
  t_trace : list io_event;
  t_bytes : bytes
}.

Definition set_row v s := TState v (terminal_column s) (terminal_color s) (serial_console_port s) (vga_cells s) (t_trace s) (t_bytes s).
Definition set_column v s := TState (terminal_row s) v (terminal_color s) (serial_console_port s) (vga_cells s) (t_trace s) (t_bytes s).
Definition set_color v s := TState (terminal_row s) (terminal_column s) v (serial_console_port s) (vga_cells s) (t_trace s) (t_bytes s).
Definition set_port v s := TState (terminal_row s) (terminal_column s) (terminal_color s) v (vga_cells s) (t_trace s) (t_bytes s).
Definition set_cells v s := TState (terminal_row s) (terminal_column s) (terminal_color s) (serial_console_port s) v (t_trace s) (t_bytes s).

#[export] Instance tstate_ports : Ports tstate := {
  io_trace := t_trace;
  set_io_trace t s := TState (terminal_row s) (terminal_column s) (terminal_color s) (serial_console_port s) (vga_cells s) t (t_bytes s)
}.
#[export] Instance tstate_ports_laws : PortsLaws tstate.
Proof. by split. Qed.
#[export] Instance tstate_bytes : HasBytes tstate := {
  the_bytes := t_bytes;
  set_bytes b s := TState (terminal_row s) (terminal_column s) (terminal_color s) (serial_console_port s) (vga_cells s) (t_trace s) b
}.

Definition load_cell (i : Z) : M tstate Z := λ s,
  if (0 <=? i) && (i <? Z.of_nat (length (vga_cells s))) then
    match vga_cells s !! Z.to_nat i with Some x => Ret x s | None => Fault end
  else Fault.
Definition store_cell (i x : Z) : M tstate unit := λ s,
  if (0 <=? i) && (i <? Z.of_nat (length (vga_cells s))) then Ret tt (set_cells (<[Z.to_nat i := x]> (vga_cells s)) s) else Fault.

(** [char] is signed: the conversion to 16 bits extends the sign. *)
Definition vga_make_vgaentry (c color : Z) : Z := u16 (Z.lor (u16 (s8 c)) (Z.shiftl color 8)).
Definition vga_make_color (fg bg : Z) : Z := u8 (Z.lor fg (Z.shiftl bg 4)).
Definition vga_width : Z := VGA_WIDTH.
Definition vga_height : Z := VGA_HEIGHT.

(** A cell of the screen: the character in the low byte, its colours in the
    high byte.  The sign of a character from 128 on fills the high byte. *)
Definition glyph (c color : Z) : Z := c mod 256 + 256 * (if s8 c <? 0 then 255 else color mod 256).

Lemma vgaentry_glyph c color : vga_make_vgaentry c color = glyph c color.
Proof.
  unfold vga_make_vgaentry, glyph. pose proof (Z.mod_pos_bound c 256 ltac:(lia)) as Hm.
  assert (Hadd : ∀ x, Z.lor (c mod 256) (Z.shiftl x 8) = c mod 256 + 256 * x).
  { intros x. rewrite Z.shiftl_mul_pow2, lor_disjoint by lia. lia. }
  assert (H16 : ∀ x, u16 (c mod 256 + 256 * x) = c mod 256 + 256 * (x mod 256)).
  { intros x. unfold u16. change W16 with 65536. Z.to_euclidean_division_equations. lia. }
  destruct (Z.ltb_spec (s8 c) 0) as [Hn|Hn].
  - replace (u16 (s8 c)) with (Z.lor (c mod 256) (Z.shiftl 255 8))
      by (rewrite Hadd; unfold u16, s8 in *; change W16 with 65536; change W8 with 256 in *; Z.to_euclidean_division_equations; lia).
    rewrite <- Z.lor_assoc, <- Z.shiftl_lor, Hadd, H16. do 2 f_equal. change 256 with (2 ^ 8). change 255 with (Z.ones 8).
    rewrite <- Z.land_ones, Z.land_lor_distr_l, Z.land_diag by lia. apply Z.bits_inj'. intros k Hk. rewrite Z.lor_spec, Z.land_spec.
    by destruct (Z.testbit (Z.ones 8) k), (Z.testbit color k).
  - replace (u16 (s8 c)) with (c mod 256)
      by (unfold u16, s8 in *; change W16 with 65536; change W8 with 256 in *; Z.to_euclidean_division_equations; lia).
    by rewrite Hadd, H16.
Qed.

Section Terminal.
Variable dev : list io_event → Z → Z.
Variable spin_limit : nat.

Definition vga_read_misc_output_reg : M tstate Z := inb dev VGA_PORT_3CC.
Definition vga_write_misc_output_reg (value : Z) : M tstate unit := outb VGA_PORT_3C2 value.

Definition vga_move_cursor (row col : Z) : M tstate unit :=
  let position := s32 (row * 80 + col) in
  outb VGA_PORT_3D4 15;;
  outb VGA_DATA_3D5 (u8 (Z.land position 255));;
  outb VGA_PORT_3D4 14;;
  outb VGA_DATA_3D5 (u8 (Z.land (Z.shiftr position 8) 255)).

(** The address of the buffer is fixed; the cells are those it points to. *)
Definition vga_init : M tstate unit :=
  misc_out ← vga_read_misc_output_reg;
  vga_write_misc_output_reg (u8 (Z.lor misc_out 1));;
  vga_move_cursor 0 0.

Fixpoint scroll_row (fuel : nat) (y x : Z) : M tstate unit :=
  match fuel with
  | O => nofuel
  | S fuel =>
      if x <? VGA_WIDTH then
        let index := u32 (y * VGA_WIDTH + x) in
        entry ← load_cell index;
        store_cell (u32 (index - VGA_WIDTH)) entry;;
        scroll_row fuel y (x + 1)
      else mret tt
  end.
Fixpoint scroll_rows (fuel : nat) (y : Z) : M tstate unit :=
  match fuel with
  | O => nofuel
  | S fuel =>
      if y <? VGA_HEIGHT then
        scroll_row (S (Z.to_nat VGA_WIDTH)) y 0;;
        scroll_rows fuel (y + 1)
      else mret tt
  end.
Definition vga_scroll_row : M tstate unit := scroll_rows (S (Z.to_nat VGA_HEIGHT)) 1.

Definition vga_put_char (c colour row col : Z) : M tstate unit :=
  let index := u32 (col * VGA_WIDTH + row) in
  store_cell index (vga_make_vgaentry c colour).

(** ** terminal.c *)

Definition terminal_enable_serial_console (port : Z) : M tstate unit := modify (set_port port).
Definition terminal_disable_serial_console : M tstate unit := modify (set_port 0).
Definition terminal_setcolor (color : Z) : M tstate unit := modify (set_color color).

Definition terminal_putentryat (c color x y : Z) : M tstate unit := vga_put_char c color (s32 x) (s32 y).

Fixpoint clear_row (fuel : nat) (x y : Z) : M tstate unit :=
  match fuel with
  | O => nofuel
  | S fuel =>
      if x <? vga_width then
        s ← get;
        terminal_putentryat 32 (terminal_color s) x y;;
        clear_row fuel (u32 (x + 1)) y
      else mret tt
  end.
Fixpoint clear_rows (fuel : nat) (y : Z) : M tstate unit :=
  match fuel with
  | O => nofuel
  | S fuel =>
      if y <? vga_height then
        clear_row (S (Z.to_nat vga_width)) 0 y;;
        clear_rows fuel (u32 (y + 1))
      else mret tt
  end.
Definition terminal_clear : M tstate unit := clear_rows (S (Z.to_nat vga_height)) 0.

Definition terminal_initialize : M tstate unit :=
  modify (set_row 0);;
  modify (set_column 0);;
  modify (set_color (vga_make_color COLOR_LIGHT_GREY COLOR_BLACK));;
  terminal_clear.

Definition terminal_clear_line_end (x y : Z) : M tstate unit := clear_row (S (Z.to_nat vga_width)) x y.

(** The character itself. *)
Definition put_one (c : Z) : M tstate unit :=
  s ← get;
  if c =? 10 then
    terminal_clear_line_end (terminal_column s) (terminal_row s);;
    modify (set_column vga_width)
  else if c =? 8 then
    if 0 <? terminal_column s then
      modify (set_column (terminal_column s - 1));;
      terminal_putentryat 32 (terminal_color s) (terminal_column s - 1) (terminal_row s)
    else mret tt
  else
    terminal_putentryat c (terminal_color s) (terminal_column s) (terminal_row s);;
    modify (set_column (u32 (terminal_column s + 1))).

(** The end of a row. *)
Definition end_of_row : M tstate unit :=
  s ← get;
  if terminal_column s =? vga_width then
    modify (set_column 0);;
    modify (set_row (u32 (terminal_row s + 1)));;
    (if u32 (terminal_row s + 1) =? vga_height then
       vga_scroll_row;;
       modify (λ s, set_row (u32 (terminal_row s - 1)) s)
     else mret tt);;
    s ← get;
    terminal_clear_line_end 0 (terminal_row s)
  else mret tt.

Definition terminal_putchar (c : Z) : M tstate unit :=
  put_one c;;
  end_of_row;;
  s ← get;
  vga_move_cursor (s32 (terminal_row s)) (s32 (terminal_column s));;
  if negb (serial_console_port s =? 0) then uart_putc_sync dev spin_limit (serial_console_port s) c else mret tt.

Fixpoint write_loop (fuel : nat) (data datalen i : Z) : M tstate unit :=
  match fuel with
  | O => nofuel
  | S fuel =>
      if i <? datalen then
        c ← on_bytes (load_char (u32 (data + i)));
        terminal_putchar c;;
        write_loop fuel data datalen (u32 (i + 1))
      else mret tt
  end.
Definition terminal_writestring (data : Z) : M tstate unit :=
  datalen ← on_bytes (strlen data);
  write_loop (S (Z.to_nat datalen)) data datalen 0.

(** ** The screen as rows of cells *)

Definition grid (rows : list (list Z)) : Prop := length rows = 25%nat ∧ Forall (λ r, length r = 80%nat) rows.
Definition set_cell (r c : nat) (v : Z) (rows : list (list Z)) : list (list Z) := alter (insert c v) r rows.

Lemma concat_length rows : Forall (λ r : list Z, length r = 80%nat) rows → length (concat rows) = (length rows * 80)%nat.
Proof. induction 1 as [|r rows Hr _ IH]; [done|]. cbn [concat length]. rewrite length_app. lia. Qed.

Lemma concat_lookup rows r row c :
  Forall (λ r : list Z, length r = 80%nat) rows → rows !! r = Some row → (c < 80)%nat → concat rows !! (r * 80 + c)%nat = row !! c.
Proof.
  intros Hf. revert r. induction Hf as [|row' rows Hr Hf IH]; intros r Hl Hc; [done|]. change (concat (row' :: rows)) with (row' ++ concat rows). destruct r as [|r].
  - injection Hl as ->. change (0 * 80 + c)%nat with c. apply lookup_app_l. lia.
  - rewrite lookup_app_r by lia. rewrite Hr. replace (S r * 80 + c - 80)%nat with (r * 80 + c)%nat by lia. by apply IH.
Qed.

Lemma concat_insert rows r c v :
  Forall (λ r : list Z, length r = 80%nat) rows → (r < length rows)%nat → (c < 80)%nat →
  <[(r * 80 + c)%nat := v]> (concat rows) = concat (set_cell r c v rows).
Proof.
  unfold set_cell. intros Hf. revert r. induction Hf as [|row rows Hr Hf IH]; intros r Hl Hc; cbn [length] in Hl; [lia|].
  change (concat (row :: rows)) with (row ++ concat rows). destruct r as [|r].
  - change (0 * 80 + c)%nat with c. by rewrite insert_app_l by lia.
  - replace (S r * 80 + c)%nat with (length row + (r * 80 + c))%nat by lia.
    rewrite insert_app_r, IH by lia. done.
Qed.

Lemma grid_alter rows f r : grid rows → (∀ l, length l = 80%nat → length (f l) = 80%nat) → grid (alter f r rows).
Proof.
  intros [Hl Hf] H. split; [by rewrite length_alter|]. apply Forall_lookup. intros i x Hx.
  rewrite Forall_lookup in Hf. destruct (decide (r = i)) as [->|Hne].
  - rewrite list_lookup_alter_eq in Hx. apply fmap_Some in Hx as (y & Hy & ->). by apply H, (Hf i).
  - rewrite list_lookup_alter_ne in Hx by done. by apply (Hf i).
Qed.

Lemma grid_set_cell rows r c v : grid rows → grid (set_cell r c v rows).
Proof. intros H. apply grid_alter; [done|]. intros l Hl. by rewrite length_insert. Qed.

Lemma set_cells_cells l s : vga_cells (set_cells l s) = l.
Proof. done. Qed.

Lemma set_cells_set l l' s : set_cells l (set_cells l' s) = set_cells l s.
Proof. done. Qed.
Lemma set_cells_id l s : vga_cells s = l → set_cells l s = s.
Proof. intros <-. by destruct s. Qed.

Lemma store_cell_ok rows s r c i v :
  grid rows → vga_cells s = concat rows → (r < 25)%nat → (c < 80)%nat → i = Z.of_nat (r * 80 + c) →
  store_cell i v s = Ret tt (set_cells (concat (set_cell r c v rows)) s).
Proof.
  intros [Hl Hf] Hc Hr Hcc ->. unfold store_cell. rewrite Hc, concat_length, Hl by done.
  rewrite (proj2 (Z.leb_le _ _)), (proj2 (Z.ltb_lt _ _)) by lia. cbn [andb]. rewrite Nat2Z.id, concat_insert by (done || lia). done.
Qed.

Lemma load_cell_ok rows s r row c i v :
  grid rows → vga_cells s = concat rows → rows !! r = Some row → row !! c = Some v → i = Z.of_nat (r * 80 + c) →
  load_cell i s = Ret v s.
Proof.
  intros [Hl Hf] Hc Hr Hv ->. assert (Hr2 : (r < 25)%nat) by (rewrite <- Hl; by eapply lookup_lt_Some).
  assert (Hc2 : (c < 80)%nat) by (rewrite <- (proj1 (Forall_lookup _ _) Hf r row Hr); by eapply lookup_lt_Some).
  unfold load_cell. rewrite Hc, concat_length, Hl by done.
  rewrite (proj2 (Z.leb_le _ _)), (proj2 (Z.ltb_lt _ _)) by lia. cbn [andb]. by rewrite Nat2Z.id, (concat_lookup rows r row), Hv.
Qed.

Lemma putentry_ok rows s ch color (r c : nat) :
  grid rows → vga_cells s = concat rows → (r < 25)%nat → (c < 80)%nat →
  terminal_putentryat ch color (Z.of_nat c) (Z.of_nat r) s =
    Ret tt (set_cells (concat (set_cell r c (glyph ch color) rows)) s).
Proof.
  intros Hg Hc Hr Hcc. unfold terminal_putentryat, vga_put_char, VGA_WIDTH. rewrite !s32_small, u32_small by lia.
  rewrite vgaentry_glyph. apply (store_cell_ok rows); (done || lia).
Qed.

(** *** Clearing *)
Definition blank (color : Z) (n : nat) : list Z := replicate n (glyph 32 color).
Definition clear_end (color : Z) (c : nat) (row : list Z) : list Z := take c row ++ blank color (80 - c).

Lemma clear_end_length color c row : (c ≤ 80)%nat → length row = 80%nat → length (clear_end color c row) = 80%nat.
Proof. intros Hc Hr. unfold clear_end, blank. rewrite length_app, length_take, length_replicate. lia. Qed.

Lemma clear_end_step color c row : (c < 80)%nat → length row = 80%nat →
  clear_end color (S c) (<[c := glyph 32 color]> row) = clear_end color c row.
Proof.
  intros Hc Hr. unfold clear_end, blank. replace (80 - c)%nat with (S (80 - S c)) by lia. simpl replicate.
  rewrite (take_S_r _ _ (glyph 32 color)) by (apply list_lookup_insert_eq; lia).
  rewrite take_insert_ge by lia. by rewrite <- app_assoc.
Qed.

Lemma alter_ext_in {A} (f g : A → A) r (l : list A) (P : A → Prop) : Forall P l → (∀ x, P x → f x = g x) → alter f r l = alter g r l.
Proof. intros Hf H. revert r. induction Hf as [|x l Hx _ IH]; intros [|r]; cbn; try done; [by rewrite H|f_equal; apply IH]. Qed.

Lemma clear_row_spec (r : nat) : (r < 25)%nat → ∀ fuel (c : nat) rows s,
  grid rows → vga_cells s = concat rows → (c ≤ 80)%nat → (80 - c < fuel)%nat →
  clear_row fuel (Z.of_nat c) (Z.of_nat r) s =
    Ret tt (set_cells (concat (alter (clear_end (terminal_color s) c) r rows)) s).
Proof.
  intros Hr. induction fuel as [|fuel IH]; intros c rows s Hg Hc Hle Hf; [lia|]. cbn [clear_row]. unfold vga_width, VGA_WIDTH.
  destruct (decide (c = 80%nat)) as [->|Hne].
  - rewrite (proj2 (Z.ltb_ge _ _)) by lia. unfold mret, M_ret.
    rewrite (alter_ext_in _ id r rows _ (proj2 Hg)); [by rewrite list_alter_id, set_cells_id|]. intros x Hx. unfold clear_end, blank. simpl.
    by rewrite app_nil_r, take_ge by lia.
  - rewrite (proj2 (Z.ltb_lt _ _)) by lia. rewrite bind_get. step (putentry_ok rows s 32 (terminal_color s) r c Hg Hc Hr ltac:(lia)).
    rewrite u32_small by lia. replace (Z.of_nat c + 1) with (Z.of_nat (S c)) by lia.
    rewrite (IH (S c) (set_cell r c (glyph 32 (terminal_color s)) rows)); [|by apply grid_set_cell|done|lia|lia].
    rewrite set_cells_set. do 2 f_equal. unfold set_cell. rewrite list_alter_alter_eq. f_equal. apply (alter_ext_in _ _ _ _ _ (proj2 Hg)). intros x Hx. cbn.
    apply clear_end_step; [lia|done].
Qed.

(** *** Scrolling *)
Lemma grid_insert rows r row : grid rows → length row = 80%nat → grid (<[r := row]> rows).
Proof. intros [Hl Hf] Hr. split; [by rewrite length_insert|]. by apply Forall_insert. Qed.

Lemma take_drop_step {A} (src dst : list A) c x :
  (c < length dst)%nat → src !! c = Some x → (c ≤ length src)%nat →
  <[c := x]> (take c src ++ drop c dst) = take (S c) src ++ drop (S c) dst.
Proof.
  intros Hc Hx Hs. rewrite (take_S_r _ _ x) by done. destruct (lookup_lt_is_Some_2 dst c Hc) as [y Hy].
  rewrite (drop_S _ _ _ Hy), <- app_assoc. replace c with (length (take c src) + 0)%nat at 1 by (rewrite length_take; lia).
  by rewrite insert_app_r.
Qed.

Lemma scroll_row_spec (r : nat) rows src dst : (S r < 25)%nat → grid rows → rows !! S r = Some src → length dst = 80%nat →
  ∀ fuel (c : nat) s, vga_cells s = concat (<[r := take c src ++ drop c dst]> rows) → (c ≤ 80)%nat → (80 - c < fuel)%nat →
  scroll_row fuel (Z.of_nat (S r)) (Z.of_nat c) s = Ret tt (set_cells (concat (<[r := src]> rows)) s).
Proof.
  intros Hr Hg Hsrc Hdst. assert (Hls : length src = 80%nat) by exact (proj1 (Forall_lookup _ _) (proj2 Hg) _ _ Hsrc).
  induction fuel as [|fuel IH]; intros c s Hc Hle Hf; [lia|]. cbn [scroll_row]. unfold VGA_WIDTH.
  set (row := take c src ++ drop c dst) in *. assert (Hrow : length row = 80%nat) by (unfold row; rewrite length_app, length_take, length_drop; lia).
  assert (Hg2 : grid (<[r := row]> rows)) by by apply grid_insert. destruct (decide (c = 80%nat)) as [->|Hne].
  - rewrite (proj2 (Z.ltb_ge _ _)) by lia. unfold mret, M_ret. f_equal. rewrite set_cells_id; [done|]. rewrite Hc. unfold row.
    by rewrite (take_ge src), (drop_ge dst), app_nil_r by lia.
  - rewrite (proj2 (Z.ltb_lt _ _)) by lia. destruct (lookup_lt_is_Some_2 src c ltac:(lia)) as [x Hx].
    rewrite (u32_small (Z.of_nat (S r) * 80 + Z.of_nat c)) by lia.
    assert (E : load_cell (Z.of_nat (S r) * 80 + Z.of_nat c) s = Ret x s).
    { apply (load_cell_ok (<[r := row]> rows) s (S r) src c); [done|done| |done|lia]. by rewrite list_lookup_insert_ne by lia. }
    step E. rewrite u32_small by lia.
    assert (E2 : store_cell (Z.of_nat (S r) * 80 + Z.of_nat c - 80) x s = Ret tt (set_cells (concat (set_cell r c x (<[r := row]> rows))) s)).
    { apply (store_cell_ok (<[r := row]> rows)); [done|done|lia|lia|lia]. }
    step E2. replace (Z.of_nat c + 1) with (Z.of_nat (S c)) by lia. rewrite IH; [by rewrite set_cells_set| |lia|lia].
    rewrite set_cells_cells. f_equal. unfold set_cell. rewrite !list_insert_alter, list_alter_alter_eq.
    apply list_alter_ext; [|done]. intros z _. cbn. apply take_drop_step; [lia|done|lia].
Qed.

(** The rows when those before [y] have been moved up. *)
Definition scrolled (rows : list (list Z)) (y : nat) : list (list Z) := take (y - 1) (tail rows) ++ drop (y - 1) rows.

Lemma scrolled_step rows y src : (0 < y < length rows)%nat → rows !! y = Some src → <[(y - 1)%nat := src]> (scrolled rows y) = scrolled rows (S y).
Proof.
  intros Hy Hs. unfold scrolled. destruct rows as [|r0 rows]; [simpl in *; lia|]. destruct y as [|y]; [lia|].
  replace (S y - 1)%nat with y by lia. replace (S (S y) - 1)%nat with (S y) by lia. simpl tail. apply take_drop_step; [simpl in *; lia|done|].
  simpl in *. lia.
Qed.

Lemma scrolled_grid rows y : grid rows → (0 < y ≤ 25)%nat → grid (scrolled rows y).
Proof.
  intros [Hl Hf] Hy. unfold scrolled. destruct rows as [|r0 rows]; [simpl in *; lia|]. split.
  - rewrite length_app, length_take, length_drop. simpl in *. lia.
  - apply Forall_app. split; [|by apply Forall_drop]. apply Forall_take. by inversion Hf.
Qed.

Lemma scroll_rows_spec rows : grid rows → ∀ fuel (y : nat) s,
  vga_cells s = concat (scrolled rows y) → (0 < y ≤ 25)%nat → (25 - y < fuel)%nat →
  scroll_rows fuel (Z.of_nat y) s = Ret tt (set_cells (concat (scrolled rows 25)) s).
Proof.
  intros Hg.
  induction fuel as [|fuel IH]; intros y s Hc Hy Hf; [lia|]. cbn [scroll_rows]. unfold VGA_HEIGHT.
  destruct (decide (y = 25%nat)) as [->|Hne].
  - rewrite (proj2 (Z.ltb_ge _ _)) by lia. by rewrite set_cells_id.
  - rewrite (proj2 (Z.ltb_lt _ _)) by lia. destruct (lookup_lt_is_Some_2 rows y ltac:(rewrite (proj1 Hg); lia)) as [src Hsrc].
    pose proof (scrolled_grid rows y Hg Hy) as Hgy. destruct y as [|y]; [lia|].
    destruct (lookup_lt_is_Some_2 (scrolled rows (S y)) y ltac:(rewrite (proj1 Hgy); lia)) as [dst Hdst].
    assert (Hsrc2 : scrolled rows (S y) !! S y = Some src).
    { unfold scrolled. replace (S y - 1)%nat with y by lia. destruct rows as [|r0 rows]; [done|]. destruct Hg as [Hl _]. simpl in Hl.
      rewrite lookup_app_r; simpl; rewrite length_take; [|lia]. rewrite lookup_drop. replace (y + (S y - y `min` length rows))%nat with (S y) by lia. exact Hsrc. }
    assert (E : scroll_row (S (Z.to_nat VGA_WIDTH)) (Z.of_nat (S y)) 0 s = Ret tt (set_cells (concat (scrolled rows (S (S y)))) s)).
    { rewrite <- (scrolled_step rows (S y) src) by (done || (rewrite (proj1 Hg); lia)). replace (S y - 1)%nat with y by lia.
      apply (scroll_row_spec y (scrolled rows (S y)) src dst ltac:(lia) Hgy Hsrc2 ltac:(exact (proj1 (Forall_lookup _ _) (proj2 Hgy) _ _ Hdst)) _ 0).
      - simpl. rewrite list_insert_id; done.
      - lia.
      - unfold VGA_WIDTH. lia. }
    step E. replace (Z.of_nat (S y) + 1) with (Z.of_nat (S (S y))) by lia. rewrite IH; [by rewrite set_cells_set|done|lia|lia].
Qed.

(** ** The screen a user sees *)

Record screen := Screen { rows : list (list Z); cur_row : nat; cur_col : nat; pen : Z }.

(** The cursor goes to the start of the next row, which is cleared; from the last row all rows move up. *)
Definition next_row (sc : screen) : screen :=
  if decide (S (cur_row sc) = 25%nat) then Screen (tail (rows sc) ++ [blank (pen sc) 80]) (cur_row sc) 0 (pen sc)
  else Screen (<[S (cur_row sc) := blank (pen sc) 80]> (rows sc)) (S (cur_row sc)) 0 (pen sc).

(** What a character does to the screen. *)
Definition emit (c : Z) (sc : screen) : screen :=
  let set v col col' := Screen (set_cell (cur_row sc) col v (rows sc)) (cur_row sc) col' (pen sc) in
  if c =? 10 then next_row (Screen (alter (clear_end (pen sc) (cur_col sc)) (cur_row sc) (rows sc)) (cur_row sc) (cur_col sc) (pen sc))
  else if c =? 8 then match cur_col sc with O => sc | S col => set (glyph 32 (pen sc)) col col end
  else
    let sc' := set (glyph c (pen sc)) (cur_col sc) (S (cur_col sc)) in
    if decide (S (cur_col sc) = 80%nat) then next_row sc' else sc'.

Definition screen_ok (sc : screen) : Prop := grid (rows sc) ∧ (cur_row sc < 25)%nat ∧ (cur_col sc < 80)%nat.

(** The terminal holds [rows], with the cursor at a row and a column. *)
Definition holds (s : tstate) (rs : list (list Z)) (r c : nat) : Prop :=
  vga_cells s = concat rs ∧ terminal_row s = Z.of_nat r ∧ terminal_column s = Z.of_nat c.
Definition shows (s : tstate) (sc : screen) : Prop :=
  screen_ok sc ∧ holds s (rows sc) (cur_row sc) (cur_col sc) ∧ terminal_color s = pen sc.

(** Nothing but the screen and the cursor differs. *)
Definition only_screen (s s' : tstate) : Prop :=
  terminal_color s' = terminal_color s ∧ serial_console_port s' = serial_console_port s ∧ t_trace s' = t_trace s ∧ t_bytes s' = t_bytes s.

Lemma next_row_ok sc : grid (rows sc) → (cur_row sc < 25)%nat → screen_ok (next_row sc).
Proof.
  intros Hg Hr. assert (Hb : length (blank (pen sc) 80) = 80%nat) by apply length_replicate.
  unfold next_row, screen_ok. case_decide; cbn [rows cur_row cur_col]; (split; [|lia]).
  - destruct sc as [[|r0 rs] r c p]; cbn [rows tail] in *; destruct Hg as [Hl Hf]; [done|]. split; [rewrite length_app; simpl in *; lia|].
    apply Forall_app. split; [by inversion Hf|by repeat constructor].
  - by apply grid_insert.
Qed.

Lemma clear_whole color r rs : (r < length rs)%nat → alter (clear_end color 0) r rs = <[r := blank color 80]> rs.
Proof. intros _. rewrite list_insert_alter. apply list_alter_ext; [|done]. by intros x _. Qed.

Lemma scrolled_last color rs : grid rs → alter (clear_end color 0) 24%nat (scrolled rs 25) = tail rs ++ [blank color 80].
Proof.
  intros [Hl _]. rewrite list_alter_ext with (g := λ _, blank color 80) (k := scrolled rs 25) by done. rewrite <- list_insert_alter.
  unfold scrolled. destruct rs as [|r0 rs]; [done|]. injection Hl as Hl. change (25 - 1)%nat with 24%nat. change (tail (r0 :: rs)) with rs.
  rewrite take_ge by lia. replace 24%nat with (length rs + 0)%nat at 1 by lia. rewrite insert_app_r. f_equal.
  assert (Hd : length (drop 24 (r0 :: rs)) = 1%nat) by (rewrite length_drop; simpl; lia). by destruct (drop 24 (r0 :: rs)) as [|z [|]].
Qed.

Lemma end_of_row_spec s rs (r : nat) :
  grid rs → (r < 25)%nat → holds s rs r 80 →
  ∃ s', end_of_row s = Ret tt s' ∧ shows s' (next_row (Screen rs r 80 (terminal_color s))) ∧ only_screen s s'.
Proof.
  intros Hg Hr (Hc & Hrow & Hcol). pose proof (next_row_ok (Screen rs r 80 (terminal_color s)) Hg Hr) as Hok. revert Hok.
  unfold end_of_row, next_row, vga_width, VGA_WIDTH, vga_height, VGA_HEIGHT. rewrite bind_get, Hcol. cbn [rows cur_row pen].
  change (Z.of_nat 80 =? 80) with true. cbn [andb]. rewrite !bind_modify, Hrow, u32_small by lia. case_decide as Hd.
  - intros Hok. assert (r = 24%nat) as -> by lia. change (Z.of_nat 24 + 1 =? 25) with true. cbn iota. set (s1 := set_row _ _).
    assert (E : vga_scroll_row s1 = Ret tt (set_cells (concat (scrolled rs 25)) s1)).
    { apply (scroll_rows_spec rs Hg _ 1); [exact Hc|lia|]. unfold VGA_HEIGHT. lia. }
    step E. rewrite bind_modify, bind_get. set (s2 := set_row _ _). change (terminal_row s2) with (Z.of_nat 24).
    pose proof (scrolled_grid rs 25 Hg ltac:(lia)) as Hg2.
    exists (set_cells (concat (alter (clear_end (terminal_color s2) 0) 24%nat (scrolled rs 25))) s2). split.
    { apply (clear_row_spec 24 ltac:(lia) _ 0 (scrolled rs 25)); [done|done|lia|]. unfold vga_width, VGA_WIDTH. lia. }
    split; [|done]. split; [done|]. split; [|done]. split; [|done]. cbn [set_cells vga_cells rows]. f_equal.
    by apply scrolled_last.
  - intros Hok. rewrite (proj2 (Z.eqb_neq _ _)) by lia. cbn iota. step (ret_ok tt (set_row (Z.of_nat r + 1) (set_column 0 s))). rewrite bind_get.
    set (s2 := set_row _ _). assert (Er : terminal_row s2 = Z.of_nat (S r)) by (cbn; lia). rewrite Er.
    exists (set_cells (concat (alter (clear_end (terminal_color s2) 0) (S r) rs)) s2). split.
    { apply (clear_row_spec (S r) ltac:(lia) _ 0 rs); [done|done|lia|]. unfold vga_width, VGA_WIDTH. lia. }
    split; [|done]. split; [done|]. split; [|done]. split; [|by split]. cbn [set_cells vga_cells rows]. f_equal.
    apply clear_whole. rewrite (proj1 Hg). lia.
Qed.

Lemma no_end_of_row s rs (r c : nat) : holds s rs r c → (c < 80)%nat → end_of_row s = Ret tt s.
Proof.
  intros (_ & _ & Hcol) Hc. unfold end_of_row, vga_width, VGA_WIDTH. rewrite bind_get, Hcol, (proj2 (Z.eqb_neq _ _)) by lia. done.
Qed.

Lemma put_one_spec s sc c :
  shows s sc → ∃ s', (put_one c;; end_of_row) s = Ret tt s' ∧ shows s' (emit c sc) ∧ only_screen s s'.
Proof.
  destruct sc as [rs r col p]. intros ((Hg & Hr & Hcol) & (Hc & Er & Ec) & Hp). cbn [rows cur_row cur_col pen] in *.
  unfold put_one, emit, terminal_clear_line_end, vga_width, VGA_WIDTH. cbn [rows cur_row cur_col pen]. rewrite bind_assoc, bind_get, Ec, Er, Hp.
  destruct (Z.eqb_spec c 10); [|destruct (Z.eqb_spec c 8)].
  - assert (E : clear_row (S (Z.to_nat 80)) (Z.of_nat col) (Z.of_nat r) s = Ret tt (set_cells (concat (alter (clear_end p col) r rs)) s)).
    { rewrite <- Hp. apply clear_row_spec; [done|done|done|lia|lia]. }
    step E. rewrite bind_modify. set (s1 := set_column _ _). assert (Hg1 : grid (alter (clear_end p col) r rs)).
    { apply grid_alter; [done|]. intros l Hl. apply clear_end_length; [lia|done]. }
    destruct (end_of_row_spec s1 _ r Hg1 Hr) as (s' & E' & Hs & Ho); [by split|]. exists s'. split; [done|]. split; [|done].
    change (terminal_color s1) with (terminal_color s) in Hs. rewrite Hp in Hs. exact Hs.
  - destruct col as [|col].
    + change (0 <? Z.of_nat 0) with false. cbn iota. step (ret_ok tt s).
      exists s. split; [apply (no_end_of_row s rs r 0); [done|lia]|]. split; [|done]. split; [done|]. by split.
    + rewrite (proj2 (Z.ltb_lt _ _)) by lia. rewrite bind_assoc, bind_modify. replace (Z.of_nat (S col) - 1) with (Z.of_nat col) by lia.
      step (putentry_ok rs (set_column (Z.of_nat col) s) 32 p r col Hg Hc Hr ltac:(lia)). set (s1 := set_cells _ _).
      exists s1. split; [apply (no_end_of_row s1 (set_cell r col (glyph 32 p) rs) r col); [done|lia]|]. split; [|done].
      split; [|by split]. split; [by apply grid_set_cell|]. cbn [cur_row cur_col]. lia.
  - step (putentry_ok rs s c p r col Hg Hc Hr Hcol). rewrite bind_modify, u32_small by lia. set (s1 := set_column _ _).
    assert (Hh : holds s1 (set_cell r col (glyph c p) rs) r (S col)) by (split; [done|]; split; [done|]; cbn; lia).
    assert (Hg1 : grid (set_cell r col (glyph c p) rs)) by by apply grid_set_cell. case_decide as Hd.
    + rewrite Hd in Hh |- *. destruct (end_of_row_spec s1 _ r Hg1 Hr Hh) as (s' & E & Hs & Ho). exists s'. split; [done|]. split; [|done].
      change (terminal_color s1) with (terminal_color s) in Hs. by rewrite Hp in Hs.
    + exists s1. split; [apply (no_end_of_row s1 _ r (S col) Hh); lia|]. split; [|done]. split; [|by split]. split; [done|]. cbn [cur_row cur_col]. lia.
Qed.

(** ** The cursor of the display controller *)

(** The register of the controller that is selected, and the value of a register. *)
Fixpoint crtc_index (tr : list io_event) : Z :=
  match tr with
  | [] => 0
  | Out p v :: tr => if p =? VGA_PORT_3D4 then v else crtc_index tr
  | In _ _ :: tr => crtc_index tr
  end.
Fixpoint crtc_register (r : Z) (tr : list io_event) : Z :=
  match tr with
  | [] => 0
  | Out p v :: tr => if (p =? VGA_DATA_3D5) && (crtc_index tr =? r) then v else crtc_register r tr
  | In _ _ :: tr => crtc_register r tr
  end.
Definition crtc_cursor (tr : list io_event) : Z := crtc_register 14 tr * 256 + crtc_register 15 tr.

Lemma crtc_ins r ins tr : Forall is_in ins → crtc_register r (ins ++ tr) = crtc_register r tr.
Proof. induction 1 as [|[] ins He _ IH]; [done|exact IH|done]. Qed.

Definition with_trace (t : list io_event) (s : tstate) : tstate := set_io_trace t s.

Lemma move_cursor_spec s row col :
  0 ≤ row < 25 → 0 ≤ col < 80 →
  ∃ t, vga_move_cursor row col s = Ret tt (with_trace t s) ∧ crtc_cursor t = row * 80 + col ∧
    ∀ port, port ≠ VGA_PORT_3D4 → port ≠ VGA_DATA_3D5 → sent port t = sent port (t_trace s).
Proof.
  intros Hr Hc. unfold vga_move_cursor. rewrite s32_small by lia. set (pos := row * 80 + col). eexists. split; [reflexivity|]. split.
  - unfold crtc_cursor. cbn [crtc_register crtc_index andb]. change (u16 VGA_PORT_3D4) with 980. change (u16 VGA_DATA_3D5) with 981.
    change (Z.land pos 255) with (Z.land pos (Z.ones 8)). change (Z.land (Z.shiftr pos 8) 255) with (Z.land (Z.shiftr pos 8) (Z.ones 8)).
    rewrite !Z.land_ones, Z.shiftr_div_pow2 by lia. cbn. unfold u8. change W8 with 256. change (2 ^ 8) with 256. change (Z.pow_pos 2 8) with 256.
    rewrite !Z.mod_mod by lia. assert (0 ≤ pos < 2000) by lia. change (14 `mod` 256) with 14. change (15 `mod` 256) with 15. cbn. Z.to_euclidean_division_equations. lia.
  - intros port H1 H2. cbn. change (u16 980) with 980. change (u16 981) with 981.
    by rewrite !(proj2 (Z.eqb_neq 980 port)), !(proj2 (Z.eqb_neq 981 port)) by congruence.
Qed.

(** ** What [terminal_putchar] and [terminal_writestring] do *)

(** The screen shows [sc], the display's cursor is where the terminal's is, and
    the serial console, if there is one, has been sent [cs], the last first. *)
Definition console (s : tstate) (sc : screen) (cs : list Z) : Prop :=
  shows s sc ∧ crtc_cursor (t_trace s) = Z.of_nat (cur_row sc) * 80 + Z.of_nat (cur_col sc) ∧
  (serial_console_port s ≠ 0 → sent (serial_console_port s) (t_trace s) = cs).

(** The serial port is a port that the display does not use and that gets ready. *)
Definition serial_ok (port : Z) : Prop :=
  port = 0 ∨ (0 < port < W16 ∧ port ≠ VGA_PORT_3D4 ∧ port ≠ VGA_DATA_3D5 ∧ serial_ready dev spin_limit port).

Lemma putchar_spec s sc cs c :
  shows s sc → serial_ok (serial_console_port s) → (serial_console_port s ≠ 0 → sent (serial_console_port s) (t_trace s) = cs) →
  ∃ s', terminal_putchar c s = Ret tt s' ∧ console s' (emit c sc) (u8 c :: cs) ∧
    serial_console_port s' = serial_console_port s ∧ t_bytes s' = t_bytes s.
Proof.
  intros Hs Hser Hsent. unfold terminal_putchar. destruct (put_one_spec s sc c Hs) as (s1 & E & Hsh & (_ & Hp & Ht & Hb)).
  rewrite <- bind_assoc, (bind_ret _ _ _ _ _ E). rewrite bind_get. destruct Hsh as [(Hg & Hr & Hc) [(Hcells & Er & Ec) Hcol]]. rewrite Er, Ec, !s32_small by lia.
  destruct (move_cursor_spec s1 (Z.of_nat (cur_row (emit c sc))) (Z.of_nat (cur_col (emit c sc)))) as (t & Em & Hcur & Hsp); [lia..|].
  step Em. rewrite Hp. destruct Hser as [H0|(Hp0 & Hn1 & Hn2 & Hready)].
  - rewrite H0. exists (with_trace t s1). split; [done|]. split; [|split; [by rewrite <- H0|done]]. split; [by split|]. split; [done|].
    intros []. cbn. congruence.
  - rewrite (proj2 (Z.eqb_neq _ _)) by lia. cbn [negb]. set (port := serial_console_port s) in *.
    destruct (putc_sync_spec dev spin_limit port c (with_trace t s1) Hready) as (ins & Hi & Eu). rewrite Eu. eexists. split; [reflexivity|].
    assert (Hu : u16 port = port) by (apply Z.mod_small; lia). rewrite Hu.
    split; [|done]. split; [by split|]. cbn [set_io_trace tstate_ports t_trace with_trace io_trace serial_console_port]. split.
    + unfold crtc_cursor. cbn [crtc_register]. rewrite (proj2 (Z.eqb_neq port VGA_DATA_3D5)) by done. cbn [andb]. rewrite !crtc_ins by done. exact Hcur.
    + intros _. rewrite Hp. fold port. cbn [sent]. rewrite Z.eqb_refl, sent_ins by done. cbn [t_trace]. rewrite (Hsp port Hn1 Hn2), Ht. f_equal. apply Hsent. lia.
Qed.

Lemma write_loop_spec data bs : ∀ n fuel s sc cs,
  cstr (t_bytes s) data bs → console s sc cs → serial_ok (serial_console_port s) →
  (n ≤ length bs)%nat → (length bs - n < fuel)%nat →
  ∃ s', write_loop fuel data (Z.of_nat (length bs)) (Z.of_nat n) s = Ret tt s' ∧
    console s' (foldl (λ sc b, emit (s8 b) sc) sc (drop n bs)) (rev (drop n bs) ++ cs).
Proof.
  intros n fuel. revert n. induction fuel as [|fuel IH]; intros n s sc cs Hstr Hcon Hser Hn Hf; [lia|]. cbn [write_loop].
  destruct (decide (n = length bs)) as [->|Hne].
  - rewrite (proj2 (Z.ltb_ge _ _)) by lia. exists s. split; [done|]. by rewrite drop_all.
  - rewrite (proj2 (Z.ltb_lt _ _)) by lia. destruct (lookup_lt_is_Some_2 bs n ltac:(lia)) as [b Hb]. pose proof (cstr_high _ _ _ Hstr). pose proof (cstr_low _ _ _ Hstr).
    rewrite (u32_small (data + Z.of_nat n)) by lia.
    assert (E : on_bytes (load_char (data + Z.of_nat n)) s = Ret (s8 b) s).
    { pose proof (cstr_drop _ _ _ n Hstr ltac:(lia)) as Hd. rewrite (drop_S _ _ _ Hb) in Hd. apply cstr_cons in Hd as (Hl & _).
      unfold on_bytes, zoom. cbn [the_bytes tstate_bytes]. rewrite (load_char_ok _ _ _ Hl). by destruct s. }
    step E. destruct Hcon as (Hsh & Hcur & Hsent). destruct (putchar_spec s sc cs (s8 b) Hsh Hser Hsent) as (s1 & E1 & Hcon1 & Hp1 & Hb1).
    step E1. rewrite (u32_small (Z.of_nat n + 1)) by lia. replace (Z.of_nat n + 1) with (Z.of_nat (S n)) by lia.
    assert (Hbb : u8 (s8 b) = b).
    { pose proof (cstr_drop _ _ _ n Hstr ltac:(lia)) as Hd. rewrite (drop_S _ _ _ Hb) in Hd. apply cstr_cons in Hd as (_ & Hbr & _).
      unfold u8, s8. change W8 with 256 in *. Z.to_euclidean_division_equations. lia. }
    rewrite Hbb in Hcon1. destruct (IH (S n) s1 (emit (s8 b) sc) (b :: cs)) as (s2 & E2 & Hcon2); [by rewrite Hb1|done|by rewrite Hp1|lia|lia|].
    exists s2. split; [exact E2|]. rewrite (drop_S _ _ _ Hb). simpl. by rewrite <- app_assoc.
Qed.

(** C22: [terminal_writestring] shows the string on the screen: each
    character goes to the cell under the cursor, in the current colour if it is
    below 128 and with all bits of the attribute set, whatever the colour, if
    it is not; a newline clears the rest of its row, a backspace erases, the end
    of a row continues on the next one, and at the end of the screen the rows
    move up.  The cursor of the display follows, and every character is sent to
    the serial console when one is enabled, if its port is none of the display's
    and its transmitter gets ready within the bound of the waiting loop.  No cell outside the screen is
    touched. *)
Theorem terminal_writestring_shows s sc cs data bs :
  console s sc cs → serial_ok (serial_console_port s) → cstr (t_bytes s) data bs →
  ∃ s', terminal_writestring data s = Ret tt s' ∧
    console s' (foldl (λ sc b, emit (s8 b) sc) sc bs) (rev bs ++ cs).
Proof.
  intros Hcon Hser Hstr. unfold terminal_writestring.
  assert (E : on_bytes (strlen data) s = Ret (Z.of_nat (length bs)) s).
  { unfold on_bytes, zoom. cbn [the_bytes tstate_bytes]. rewrite (strlen_spec _ _ _ Hstr). by destruct s. }
  step E. apply (write_loop_spec data bs 0); [done|done|done|lia|lia].
Qed.

(** *** [terminal_initialize] *)
Lemma clear_rows_spec color n : ∀ fuel s (y : nat) rs,
  grid rs → vga_cells s = concat rs → terminal_color s = color → (y + n = 25)%nat → (n < fuel)%nat →
  clear_rows fuel (Z.of_nat y) s = Ret tt (set_cells (concat (take y rs ++ replicate n (blank color 80))) s).
Proof.
  induction n as [|n IH]; intros [|fuel] s y rs Hg Hc Hcol Hy Hf; try lia; cbn [clear_rows]; unfold vga_height, VGA_HEIGHT.
  - rewrite (proj2 (Z.ltb_ge _ _)) by lia. cbn [replicate]. rewrite app_nil_r, take_ge, set_cells_id by (done || rewrite (proj1 Hg); lia). done.
  - rewrite (proj2 (Z.ltb_lt _ _)) by lia.
    assert (E : clear_row (S (Z.to_nat vga_width)) 0 (Z.of_nat y) s = Ret tt (set_cells (concat (<[y := blank color 80]> rs)) s)).
    { rewrite <- clear_whole, <- Hcol by (rewrite (proj1 Hg); lia). apply (clear_row_spec y ltac:(lia) _ 0 rs); [done|done|lia|]. unfold vga_width, VGA_WIDTH. lia. }
    step E. rewrite u32_small by lia. replace (Z.of_nat y + 1) with (Z.of_nat (S y)) by lia.
    rewrite (IH fuel _ (S y) (<[y := blank color 80]> rs)); [| |done|done|lia|lia].
    + rewrite set_cells_set. do 3 f_equal. rewrite (take_S_r _ _ (blank color 80)) by (apply list_lookup_insert_eq; rewrite (proj1 Hg); lia).
      rewrite take_insert_ge by lia. by rewrite <- app_assoc.
    + apply grid_insert; [done|]. apply length_replicate.
Qed.

(** The screen after [terminal_initialize]: blank, light grey on black. *)
Definition blank_screen : screen := Screen (replicate 25 (blank 7 80)) 0 0 7.

Lemma initialize_spec s rs : grid rs → vga_cells s = concat rs →
  terminal_initialize s = Ret tt (TState 0 0 7 (serial_console_port s) (concat (rows blank_screen)) (t_trace s) (t_bytes s)).
Proof.
  intros Hg Hc. unfold terminal_initialize. rewrite !bind_modify. set (s1 := set_color _ _).
  refine (clear_rows_spec 7 25 _ s1 0 rs Hg Hc eq_refl eq_refl _). unfold vga_height, VGA_HEIGHT. lia.
Qed.
End Terminal.

(** ** A concrete terminal *)

Definition ex_dev (_ : list io_event) (_ : Z) : Z := 96. (* 0x60: the transmitter is empty *)
Definition ex_memory : bytes := {[ 4096 := 72; 4097 := 105; 4098 := 10; 4099 := 0 ]}.
Definition ex_off : tstate := TState 0 0 0 UART_COM1 (replicate 2000 0) [] ex_memory.
Definition ex_terminal : tstate := match terminal_initialize ex_off with Ret _ s => s | _ => ex_off end.

Lemma ex_string : cstr ex_memory 4096 [72; 105; 10].
Proof.
  apply cstr_of_array; [|by repeat constructor|done|done].
  intros i b Hi. destruct i as [|[|[|[|]]]]; simpl in Hi; simplify_eq; done.
Qed.

Lemma terminal_writestring_shows_witness :
  ∃ s', terminal_writestring ex_dev 1 4096 ex_terminal = Ret tt s' ∧ crtc_cursor (t_trace s') = 80 ∧ sent UART_COM1 (t_trace s') = [10; 105; 72].
Proof.
  assert (E : ex_terminal = TState 0 0 7 UART_COM1 (concat (rows blank_screen)) [] ex_memory).
  { unfold ex_terminal. rewrite (initialize_spec ex_off (replicate 25 (replicate 80 0))); [done| |done].
    split; [done|]. apply Forall_replicate. done. }
  destruct (terminal_writestring_shows ex_dev 1 ex_terminal blank_screen [] 4096 [72; 105; 10]) as (s' & E' & Hsh & Hcur & Hsent).
  - rewrite E. split; [|split; [reflexivity|intros _; reflexivity]]. split; [|split; [|reflexivity]].
    + split; [|cbn [blank_screen cur_row cur_col]; lia]. split; [reflexivity|]. apply Forall_replicate. reflexivity.
    + split; [reflexivity|]. split; reflexivity.
  - rewrite E. right. change (serial_console_port _) with 1016. split; [lia|]. split; [discriminate|]. split; [discriminate|].
    intros tr. exists 0%nat. split; [lia|reflexivity].
  - rewrite E. exact ex_string.
  - exists s'. split; [exact E'|]. split; [rewrite Hcur; vm_compute; reflexivity|].
    assert (Hp : serial_console_port s' = UART_COM1). { rewrite E in E'. clear -E'. vm_compute in E'. by injection E' as <-. }
    rewrite Hp in Hsent. by apply Hsent.
Defined.
