(* ===== verification/Thread.v ===== *)
(** * Threads: sys/thread.h, kern/thread.c, ia32/stack.c, kern/process.c

    The state shared by threads, the scheduler and mutexes, and the switch
    from one thread to another.

    A thread that does not run has its registers and the return addresses of
    its calls on its own stack, where [stack_switch] left them.  The model
    keeps the return addresses only, as a list of [frame]s, one constructor
    per place in the code where a function waits for a call that can switch
    threads.  [stack_switch] exchanges the processor's frames and flags with
    those of the other thread, and the code that then runs is the one of the
    topmost frame.  [KERNEL_VMA] of boot/layout.h is declared [unsigned char],
    so comparing an address with it reads the byte stored there:
    [kernel_vma_byte]. *)

From stdpp Require Import base numbers list gmap strings fin_maps.
From S2P Require Import Prelude UtList Registers Sync Dlist.

(** ** Data *)

Inductive thread_state := thread_created | thread_running | thread_runnable | thread_blocked | thread_dead.

#[global] Instance thread_state_eq_dec : EqDecision thread_state.
Proof. solve_decision. Defined.

(** What a thread's own function does that concerns this component. *)
Inductive op :=
  | OAcquire (m : Z)      (* mutex_acquire *)
  | ORelease (m : Z)      (* mutex_release *)
  | OYield                (* scheduler_yield *)
  | OBlock                (* scheduler_block *)
  | OSleep.               (* current_thread_sleep *)

(** A function does [ops] once and then, unless it is empty, [loop] for ever. *)
Inductive frame :=
  | FEntry (t : Z) (ops loop : list op)  (* thread_entry_point(t), not begun *)
  | FBody (ops loop : list op)           (* the thread's function *)
  | FExit                           (* thread_exit after scheduler_yield *)
  | FCallYield                      (* before scheduler_yield, last in current_thread_sleep and in the interrupt handler *)
  | FYield (flags1 : Z)             (* scheduler_yield after process_context_switch *)
  | FBlock (flags1 : Z)             (* scheduler_block after scheduler_yield *)
  | FObserve (m : Z)                (* mutex_acquire before mutex_add_observer *)
  | FWait (m : Z)                   (* mutex_acquire before scheduler_wait_object_acquire *)
  | FWaiting (m value flags1 : Z)   (* scheduler_wait_object_acquire after process_context_switch *)
  | FUnobserve (m : Z)              (* mutex_acquire before mutex_remove_observer *)
  | FNest (m : Z)                   (* mutex_acquire before m->nested++ *)
  | FTest (m : Z)                   (* mutex_release before m->nested == 0 *)
  | FWake (m : Z)                   (* mutex_release before mutex_release_and_wake_next_thread *)
  | FIsr (eflags : Z).              (* the interrupt stub before iret *)

(** [struct context]: what [stack_switch] pops. *)
Record context := Context { ctx_eip : Z; ctx_eflags : Z; ctx_frames : list frame }.

Record thread := Thread {
  proc : Z;
  scheduler_thread_next : Z;
  scheduler_thread_prev : Z;
  wait_queue_next : Z;
  wait_queue_prev : Z;
  name : string;
  tid : Z;
  stack_context : context;
  stack : Z;
  kernel_stack : Z;
  stack_size : Z;
  kernel_stack_size : Z;
  timed_sleep_timer_id : Z;
  state : thread_state;
  exit_code : Z;
  time_slice : Z
}.

Record mutex := Mutex { m_owner : Z; m_nested : Z; waiting_threads : Z; waiting_threads_lock : spinlock }.

(** Everything but the links, as a record of its own, would hide the struct;
    the setters below change one member each. *)
Definition set_sched_links (n p : Z) (t : thread) : thread :=
  Thread (proc t) n p (wait_queue_next t) (wait_queue_prev t) (name t) (tid t) (stack_context t) (stack t)
    (kernel_stack t) (stack_size t) (kernel_stack_size t) (timed_sleep_timer_id t) (state t) (exit_code t) (time_slice t).
Definition set_wait_links (n p : Z) (t : thread) : thread :=
  Thread (proc t) (scheduler_thread_next t) (scheduler_thread_prev t) n p (name t) (tid t) (stack_context t) (stack t)
    (kernel_stack t) (stack_size t) (kernel_stack_size t) (timed_sleep_timer_id t) (state t) (exit_code t) (time_slice t).
Definition set_context (c : context) (t : thread) : thread :=
  Thread (proc t) (scheduler_thread_next t) (scheduler_thread_prev t) (wait_queue_next t) (wait_queue_prev t) (name t)
    (tid t) c (stack t) (kernel_stack t) (stack_size t) (kernel_stack_size t) (timed_sleep_timer_id t) (state t)
    (exit_code t) (time_slice t).
Definition set_timer_id (i : Z) (t : thread) : thread :=
  Thread (proc t) (scheduler_thread_next t) (scheduler_thread_prev t) (wait_queue_next t) (wait_queue_prev t) (name t)
    (tid t) (stack_context t) (stack t) (kernel_stack t) (stack_size t) (kernel_stack_size t) i (state t)
    (exit_code t) (time_slice t).
Definition set_state (x : thread_state) (t : thread) : thread :=
  Thread (proc t) (scheduler_thread_next t) (scheduler_thread_prev t) (wait_queue_next t) (wait_queue_prev t) (name t)
    (tid t) (stack_context t) (stack t) (kernel_stack t) (stack_size t) (kernel_stack_size t) (timed_sleep_timer_id t) x
    (exit_code t) (time_slice t).
Definition set_exit_code (c : Z) (t : thread) : thread :=
  Thread (proc t) (scheduler_thread_next t) (scheduler_thread_prev t) (wait_queue_next t) (wait_queue_prev t) (name t)
    (tid t) (stack_context t) (stack t) (kernel_stack t) (stack_size t) (kernel_stack_size t) (timed_sleep_timer_id t)
    (state t) c (time_slice t).
Definition set_time_slice (n : Z) (t : thread) : thread :=
  Thread (proc t) (scheduler_thread_next t) (scheduler_thread_prev t) (wait_queue_next t) (wait_queue_prev t) (name t)
    (tid t) (stack_context t) (stack t) (kernel_stack t) (stack_size t) (kernel_stack_size t) (timed_sleep_timer_id t)
    (state t) (exit_code t) n.

Definition sched_links : dlinks thread :=
  DLinks _ scheduler_thread_prev scheduler_thread_next
    (λ p t, set_sched_links (scheduler_thread_next t) p t) (λ n t, set_sched_links n (scheduler_thread_prev t) t).
Definition wait_links : dlinks thread :=
  DLinks _ wait_queue_prev wait_queue_next
    (λ p t, set_wait_links (wait_queue_next t) p t) (λ n t, set_wait_links n (wait_queue_prev t) t).

#[global] Instance sched_links_laws : DLLaws sched_links.
Proof. split; try done. by intros []. Qed.
#[global] Instance wait_links_laws : DLLaws wait_links.
Proof. split; try done. by intros []. Qed.

(** ** The state *)

Record sys := Sys {
  threads : gmap Z thread;
  mutexes : gmap Z mutex;
  runnable_threads : Z;
  blocked_threads : Z;
  sched_lock : spinlock;
  last_scheduled_time_ticks : Z;
  ticks_since_boot : Z;
  current : Z;
  current_proc : Z;
  tss_esp0 : Z;
  cpu_eflags : Z;
  cpu_frames : list frame
}.

Definition set_threads (h : gmap Z thread) (s : sys) : sys :=
  Sys h (mutexes s) (runnable_threads s) (blocked_threads s) (sched_lock s) (last_scheduled_time_ticks s)
    (ticks_since_boot s) (current s) (current_proc s) (tss_esp0 s) (cpu_eflags s) (cpu_frames s).
Definition set_mutexes (h : gmap Z mutex) (s : sys) : sys :=
  Sys (threads s) h (runnable_threads s) (blocked_threads s) (sched_lock s) (last_scheduled_time_ticks s)
    (ticks_since_boot s) (current s) (current_proc s) (tss_esp0 s) (cpu_eflags s) (cpu_frames s).
Definition set_runnable (p : Z) (s : sys) : sys :=
  Sys (threads s) (mutexes s) p (blocked_threads s) (sched_lock s) (last_scheduled_time_ticks s)
    (ticks_since_boot s) (current s) (current_proc s) (tss_esp0 s) (cpu_eflags s) (cpu_frames s).
Definition set_blocked (p : Z) (s : sys) : sys :=
  Sys (threads s) (mutexes s) (runnable_threads s) p (sched_lock s) (last_scheduled_time_ticks s)
    (ticks_since_boot s) (current s) (current_proc s) (tss_esp0 s) (cpu_eflags s) (cpu_frames s).
Definition set_sched_lock (l : spinlock) (s : sys) : sys :=
  Sys (threads s) (mutexes s) (runnable_threads s) (blocked_threads s) l (last_scheduled_time_ticks s)
    (ticks_since_boot s) (current s) (current_proc s) (tss_esp0 s) (cpu_eflags s) (cpu_frames s).
Definition set_last_ticks (n : Z) (s : sys) : sys :=
  Sys (threads s) (mutexes s) (runnable_threads s) (blocked_threads s) (sched_lock s) n
    (ticks_since_boot s) (current s) (current_proc s) (tss_esp0 s) (cpu_eflags s) (cpu_frames s).
Definition set_ticks (n : Z) (s : sys) : sys :=
  Sys (threads s) (mutexes s) (runnable_threads s) (blocked_threads s) (sched_lock s) (last_scheduled_time_ticks s)
    n (current s) (current_proc s) (tss_esp0 s) (cpu_eflags s) (cpu_frames s).
Definition set_current (p : Z) (s : sys) : sys :=
  Sys (threads s) (mutexes s) (runnable_threads s) (blocked_threads s) (sched_lock s) (last_scheduled_time_ticks s)
    (ticks_since_boot s) p (current_proc s) (tss_esp0 s) (cpu_eflags s) (cpu_frames s).
Definition set_current_proc (p : Z) (s : sys) : sys :=
  Sys (threads s) (mutexes s) (runnable_threads s) (blocked_threads s) (sched_lock s) (last_scheduled_time_ticks s)
    (ticks_since_boot s) (current s) p (tss_esp0 s) (cpu_eflags s) (cpu_frames s).
Definition set_esp0 (p : Z) (s : sys) : sys :=
  Sys (threads s) (mutexes s) (runnable_threads s) (blocked_threads s) (sched_lock s) (last_scheduled_time_ticks s)
    (ticks_since_boot s) (current s) (current_proc s) p (cpu_eflags s) (cpu_frames s).
Definition set_cpu (f : Z) (fs : list frame) (s : sys) : sys :=
  Sys (threads s) (mutexes s) (runnable_threads s) (blocked_threads s) (sched_lock s) (last_scheduled_time_ticks s)
    (ticks_since_boot s) (current s) (current_proc s) (tss_esp0 s) f fs.

(** [current_thread_id]: 0 without a current thread. *)
Definition tid_of (h : gmap Z thread) (p : Z) : Z := if p =? NULL then 0 else default 0 (tid <$> h !! p).

#[global] Instance sys_cpu : Cpu sys := {
  eflags := cpu_eflags;
  set_eflags f s := set_cpu f (cpu_frames s) s;
  current_tid s := tid_of (threads s) (current s)
}.
#[global] Instance sys_cpu_laws : CpuLaws sys.
Proof. split; try done. by intros []. Qed.

(** ** Access to a thread *)

Definition on_threads {A} (m : M (gmap Z thread) A) : M sys A := zoom threads set_threads m.
Definition load_thread (t : Z) : M sys thread := on_threads (load t).
Definition update_thread (t : Z) (f : thread → thread) : M sys unit := on_threads (update t f).
Definition push (f : frame) : M sys unit := modify (λ s, set_cpu (cpu_eflags s) (f :: cpu_frames s) s).

Lemma load_thread_ok s t th : threads s !! t = Some th → load_thread t s = Ret th s.
Proof.
  intros E. unfold load_thread, on_threads. rewrite (zoom_ret _ _ _ _ _ _ (load_ok _ _ _ E)). by destruct s.
Qed.

Lemma update_thread_ok s t th f :
  threads s !! t = Some th → update_thread t f s = Ret tt (set_threads (<[t := f th]> (threads s)) s).
Proof. intros E. apply zoom_ret. by apply update_ok. Qed.

(** ** Stacks: ia32/stack.c *)
Module Stack.
Definition sizeof_context : Z := 28.
Definition sizeof_ep_frame : Z := 8.

(** The words [stack_init] writes, address first, and the pointer it returns.
    The addition is on a [struct context *], in units of the struct's size. *)
Definition stack_init (stack size func data cs flags : Z) : Z * list (Z * Z) :=
  let ctx := u32 (stack + sizeof_context * (size - sizeof_context - sizeof_ep_frame)) in
  let args := u32 (ctx + sizeof_context) in
  (ctx, [(args, 0); (u32 (args + 4), data); (u32 (ctx + 12), 0); (u32 (ctx + 16), func); (u32 (ctx + 20), cs);
         (u32 (ctx + 24), flags_register_value_clear_bit flags flags_if_bit)]).

(** [stack_init] places the initial frame of a new thread beyond the end
    of the stack it is given: for every stack of more than 37 bytes that does
    not lie at the very top of memory, each word it writes is outside the
    stack, since the offset is multiplied by the size of [struct context]. *)
Theorem stack_init_outside stack size func data cs flags :
  0 ≤ stack → 37 < size → stack + 28 * size < W32 →
  Forall (λ w, stack + size ≤ w.1) (stack_init stack size func data cs flags).2.
Proof.
  intros H1 H2 H3. unfold stack_init, sizeof_context, sizeof_ep_frame. cbn [snd].
  rewrite !(u32_small (stack + _)) by lia. rewrite !(u32_small (stack + _ + _)) by lia.
  rewrite u32_small by lia. rewrite !Forall_cons. cbn [fst]. split_and!; [lia..|]. by apply Forall_nil.
Qed.

Lemma stack_init_outside_witness :
  Forall (λ w, 3223322624 + 4096 ≤ w.1) (stack_init 3223322624 4096 3222274048 3223318528 8 514).2.
Proof. apply stack_init_outside; lia. Defined.
End Stack.

(** ** Switching *)
Section Switch.
(** The byte at the address KERNEL_VMA, and where [stack_switch] returns to in [thread_context_switch]. *)
Variables kernel_vma_byte switch_return : Z.

Definition stack_switch (old new : Z) : M sys unit :=
  s ← get;
  (if old =? NULL then mret tt
   else update_thread old (set_context (Context switch_return (cpu_eflags s) (cpu_frames s))));;
  th ← load_thread new;
  modify (set_cpu (ctx_eflags (stack_context th)) (ctx_frames (stack_context th))).

Definition thread_context_switch (t : Z) : M sys unit :=
  s ← get;
  if current s =? t then mret tt
  else
    let old_thread := current s in
    modify (set_current t);;
    th ← load_thread t;
    if ctx_eip (stack_context th) <? kernel_vma_byte then panic "about to stack switch to weird return address"
    else
      modify (set_esp0 (u32 (kernel_stack th + kernel_stack_size th)));;
      stack_switch old_thread t.

Definition process_context_switch (t : Z) : M sys unit :=
  th ← load_thread t;
  s ← get;
  (if negb (proc th =? NULL) && negb (current_proc s =? proc th) then modify (set_current_proc (proc th)) else mret tt);;
  thread_context_switch t.

(** What a switch from thread [o] to another thread [t] does to the state. *)
Definition switched (o t : Z) (ot th : thread) (s : sys) : sys :=
  Sys (<[o := set_context (Context switch_return (cpu_eflags s) (cpu_frames s)) ot]> (threads s))
    (mutexes s) (runnable_threads s) (blocked_threads s) (sched_lock s) (last_scheduled_time_ticks s)
    (ticks_since_boot s) t
    (if negb (proc th =? NULL) then proc th else current_proc s)
    (u32 (kernel_stack th + kernel_stack_size th))
    (ctx_eflags (stack_context th)) (ctx_frames (stack_context th)).

Lemma switch_ok s o t ot th :
  current s = o → o ≠ NULL → o ≠ t → threads s !! o = Some ot → threads s !! t = Some th →
  kernel_vma_byte ≤ ctx_eip (stack_context th) →
  process_context_switch t s = Ret tt (switched o t ot th s).
Proof.
  intros Ec Ho Hne Eo Et Hv. unfold process_context_switch. step (load_thread_ok s t th Et). rewrite bind_get.
  set (cp := if negb (proc th =? NULL) then proc th else current_proc s).
  assert (E : (if negb (proc th =? NULL) && negb (current_proc s =? proc th)
     then modify (set_current_proc (proc th)) else mret tt) s = Ret tt (set_current_proc cp s)).
  { unfold cp. destruct (proc th =? NULL); simpl; [by destruct s|].
    destruct (Z.eqb_spec (current_proc s) (proc th)) as [E|E]; simpl; [rewrite <- E; by destruct s|done]. }
  step E. unfold thread_context_switch. rewrite bind_get. set (s1 := set_current_proc cp s).
  change (current s1) with (current s). rewrite Ec, (proj2 (Z.eqb_neq o t)) by done. cbn zeta. rewrite bind_modify.
  set (s2 := set_current t s1). step (load_thread_ok s2 t th Et).
  rewrite (proj2 (Z.ltb_ge (ctx_eip (stack_context th)) kernel_vma_byte)) by done. rewrite bind_modify.
  set (s3 := set_esp0 _ s2). unfold stack_switch. rewrite bind_get, (proj2 (Z.eqb_neq o NULL)) by done.
  step (update_thread_ok s3 o ot (set_context (Context switch_return (cpu_eflags s3) (cpu_frames s3))) Eo).
  set (s4 := set_threads _ s3).
  assert (E4 : threads s4 !! t = Some th) by (simpl; by rewrite lookup_insert_ne).
  step (load_thread_ok s4 t th E4). done.
Qed.
End Switch.
