(* ===== verification/Scheduler.v ===== *)
(** * kern/scheduler.c: the round-robin scheduler

    Threads that can run, the running one included, are on one list, blocked
    ones on another, both through the scheduler's link members.  [sched_inv]
    ties the two lists to the lists of addresses the theorems speak of.  The
    functions that switch threads push the frame that waits for the switch
    and return when the processor's frames are those of the chosen thread. *)

From stdpp Require Import base numbers list gmap strings fin_maps.
From S2P Require Import Prelude UtList Registers Sync Dlist Thread.

Abbreviation TIME_SLICE := 1 (only parsing).

(** ** Operations *)

Definition sched_lock_in : lock_in sys := LockIn sys (Some ∘ sched_lock) set_sched_lock.

#[global] Instance sched_lock_laws : LockLaws sched_lock_in.
Proof. split; try done. intros l s [= E]. by destruct s; simpl in *; subst. Qed.

Definition scheduler_init : M sys unit := spinlock_init sched_lock_in.
Definition scheduler_lock : M sys Z := spinlock_acquire sched_lock_in.
Definition scheduler_unlock (flags : Z) : M sys unit := spinlock_release sched_lock_in flags.

Definition scheduler_add_runnable_thread (t : Z) : M sys unit :=
  s ← get;
  assert (negb (t =? runnable_threads s)) "t != _runnable_threads";;
  update_thread t (set_time_slice TIME_SLICE);;
  s ← get;
  head ← on_threads (DL_APPEND sched_links (runnable_threads s) t);
  modify (set_runnable head).

Definition scheduler_add_blocked_thread (t : Z) : M sys unit :=
  s ← get;
  assert (negb (t =? blocked_threads s)) "t != _blocked_threads";;
  head ← on_threads (DL_APPEND sched_links (blocked_threads s) t);
  modify (set_blocked head).

Definition scheduler_remove_runnable_thread (t : Z) : M sys unit :=
  s ← get;
  head ← on_threads (DL_DELETE sched_links (runnable_threads s) t);
  modify (set_runnable head);;
  update_thread t (set_sched_links 0 0).

Definition scheduler_remove_blocked_thread (t : Z) : M sys unit :=
  s ← get;
  head ← on_threads (DL_DELETE sched_links (blocked_threads s) t);
  modify (set_blocked head);;
  update_thread t (set_sched_links 0 0).

Definition scheduler_remove_thread (t : Z) : M sys unit :=
  th ← load_thread t;
  if bool_decide (state th = thread_running) || bool_decide (state th = thread_runnable)
  then scheduler_remove_runnable_thread t
  else scheduler_remove_blocked_thread t.

(** The names printed are left out; the walk over the lists is not. *)
Definition scheduler_print_threads : M sys unit :=
  flags ← scheduler_lock;
  s ← get;
  on_threads (fuel ← fuel_of_heap; dl_foreach sched_links fuel (runnable_threads s));;
  on_threads (fuel ← fuel_of_heap; dl_foreach sched_links fuel (blocked_threads s));;
  scheduler_unlock flags.

Definition scheduler_next_thread : M sys Z :=
  s ← get;
  let old_thread := current s in
  let previous_ticks := last_scheduled_time_ticks s in
  let current_ticks := u32 (ticks_since_boot s) in
  modify (set_last_ticks current_ticks);;
  let elapsed_ticks := u32 (current_ticks - previous_ticks) in
  keep ←
    (if old_thread =? NULL then mret false
     else
       update_thread old_thread (λ t, set_time_slice (u32 (time_slice t - elapsed_ticks)) t);;
       t ← load_thread old_thread;
       if bool_decide (state t = thread_running) then
         if 0 <? time_slice t then mret true
         else update_thread old_thread (set_state thread_runnable);; mret false
       else mret false);
  if (keep : bool) then mret old_thread
  else
    s ← get;
    let next_thread := runnable_threads s in
    if next_thread =? NULL then scheduler_print_threads;; panic "no next thread available"
    else
      scheduler_remove_runnable_thread next_thread;;
      scheduler_add_runnable_thread next_thread;;
      update_thread next_thread (set_state thread_running);;
      mret next_thread.

Definition scheduler_make_runnable (t : Z) : M sys unit :=
  flags ← scheduler_lock;
  th ← load_thread t;
  (if negb (bool_decide (state th = thread_runnable)) then
     scheduler_remove_thread t;;
     update_thread t (set_state thread_runnable);;
     scheduler_add_runnable_thread t
   else mret tt);;
  scheduler_unlock flags.

Definition scheduler_make_blocked (t : Z) : M sys unit :=
  flags ← scheduler_lock;
  th ← load_thread t;
  (if negb (bool_decide (state th = thread_blocked)) then
     scheduler_remove_thread t;;
     update_thread t (set_state thread_blocked);;
     s ← get;
     assert (negb (t =? blocked_threads s)) "t != _blocked_threads";;
     scheduler_add_blocked_thread t
   else mret tt);;
  scheduler_unlock flags.

Definition scheduler_add_thread (t : Z) : M sys unit :=
  flags ← scheduler_lock;
  th ← load_thread t;
  assert (negb (bool_decide (state th = thread_running))) "t->state != thread_running";;
  (if bool_decide (state th = thread_created) then update_thread t (set_state thread_runnable) else mret tt);;
  th ← load_thread t;
  s ← get;
  (if bool_decide (state th = thread_runnable) then
     assert (negb (t =? runnable_threads s)) "t != _runnable_threads";;
     scheduler_add_runnable_thread t
   else
     assert (negb (t =? blocked_threads s)) "t != _blocked_threads";;
     scheduler_add_blocked_thread t);;
  scheduler_unlock flags.

Definition scheduler_count_runnable_threads : M sys Z :=
  flags ← scheduler_lock;
  s ← get;
  count ← on_threads (DL_COUNT sched_links (runnable_threads s));
  scheduler_unlock flags;;
  mret (s32 count).

Definition scheduler_count_blocked_threads : M sys Z :=
  flags ← scheduler_lock;
  s ← get;
  count ← on_threads (DL_COUNT sched_links (blocked_threads s));
  scheduler_unlock flags;;
  mret (s32 count).

Section Yield.
Variables kernel_vma_byte switch_return : Z.
Notation process_context_switch := (process_context_switch kernel_vma_byte switch_return).

(** Up to the point where the chosen thread runs; the rest is the frame [FYield]. *)
Definition scheduler_yield : M sys unit :=
  flags1 ← interrupts_enter_cli;
  flags2 ← scheduler_lock;
  new_thread ← scheduler_next_thread;
  scheduler_unlock flags2;;
  push (FYield flags1);;
  s ← get;
  if new_thread =? NULL then panic "no thread to switch to"
  else if negb (new_thread =? current s) then process_context_switch new_thread
  else mret tt.

Definition scheduler_block : M sys unit :=
  flags1 ← interrupts_enter_cli;
  flags2 ← scheduler_lock;
  s ← get;
  scheduler_make_blocked (current s);;
  scheduler_unlock flags2;;
  push (FBlock flags1);;
  scheduler_yield.

(** *** kern/thread.c *)

Definition thread_start (t : Z) : M sys unit := scheduler_add_thread t.

Definition thread_exit (t code : Z) : M sys unit :=
  update_thread t (set_exit_code (s32 code));;
  update_thread t (set_state thread_dead);;
  push FExit;;
  scheduler_yield.

(** The yield is the frame [FCallYield]: interrupts can come before it. *)
Definition current_thread_sleep : M sys unit :=
  s ← get;
  assert (negb (current s =? NULL)) "t";;
  scheduler_make_blocked (current s);;
  push FCallYield.

Definition thread_wake (t : Z) : M sys unit := scheduler_make_runnable t.

Definition thread_wake_timer_callback (t : Z) : M sys unit :=
  update_thread t (set_timer_id 0);;
  scheduler_print_threads;;
  thread_wake t;;
  scheduler_print_threads.
End Yield.

(** ** The lists the scheduler keeps *)

(** A thread without its scheduler links. *)
Definition core (t : thread) : thread := set_sched_links 0 0 t.
Definition cores (h : gmap Z thread) : gmap Z thread := core <$> h.

(** The state is described by the threads without their scheduler links, the
    runnable and the blocked ones, in list order, and the rest. *)
Record rep (s : sys) (rs bs : list Z) (C : gmap Z thread) : Prop := {
  rep_run : dl_rep sched_links (threads s) (runnable_threads s) rs;
  rep_blk : dl_rep sched_links (threads s) (blocked_threads s) bs;
  rep_disj : ∀ t, t ∈ rs → t ∉ bs;
  rep_cores : cores (threads s) = C
}.

Definition rest (s : sys) : sys := set_threads ∅ (set_runnable 0 (set_blocked 0 s)).

(** [update_thread] with a function that does not touch the links. *)
Definition data_fn (f : thread → thread) : Prop :=
  ∀ t, core (f t) = f (core t) ∧ scheduler_thread_next (f t) = scheduler_thread_next t ∧
    scheduler_thread_prev (f t) = scheduler_thread_prev t.

Lemma core_core t : core (core t) = core t.
Proof. done. Qed.

Lemma cores_lookup h q : cores h !! q = core <$> h !! q.
Proof. apply lookup_fmap. Qed.

Lemma dlinks_only_cores X h h' : dlinks_only sched_links X h h' → cores h' = cores h.
Proof. intros H. apply map_eq. intros q. rewrite !cores_lookup. apply (proj2 (H q)). Qed.

Lemma rep_thread s rs bs C t c : rep s rs bs C → C !! t = Some c → ∃ th, threads s !! t = Some th ∧ core th = c.
Proof.
  intros H E. rewrite <- (rep_cores _ _ _ _ H), cores_lookup in E. destruct (threads s !! t) as [th|] eqn:Eh; [|done].
  simplify_eq/=. eauto.
Qed.

Lemma rep_in s rs bs C t : rep s rs bs C → t ∈ rs ∨ t ∈ bs → t ≠ NULL ∧ is_Some (C !! t).
Proof.
  intros H Ht. rewrite <- (rep_cores _ _ _ _ H), cores_lookup, fmap_is_Some.
  destruct Ht as [Ht|Ht]; [apply (dl_rep_lookup _ _ _ _ _ (rep_run _ _ _ _ H) Ht)|
    apply (dl_rep_lookup _ _ _ _ _ (rep_blk _ _ _ _ H) Ht)].
Qed.

Lemma rep_NoDup s rs bs C : rep s rs bs C → NoDup rs ∧ NoDup bs.
Proof. intros H. split; [apply (rep_run _ _ _ _ H)|apply (rep_blk _ _ _ _ H)]. Qed.

Lemma cores_insert_data h t th f : data_fn f → h !! t = Some th → cores (<[t := f th]> h) = alter f t (cores h).
Proof.
  intros Hf E. unfold cores. rewrite fmap_insert, (proj1 (Hf th)). apply map_eq. intros q.
  destruct (decide (q = t)) as [->|Hne].
  - by rewrite lookup_insert_eq, lookup_alter_eq, lookup_fmap, E.
  - by rewrite lookup_insert_ne, lookup_alter_ne.
Qed.

Lemma update_thread_spec s rs bs C t c f :
  rep s rs bs C → C !! t = Some c → data_fn f →
  ∃ s', update_thread t f s = Ret tt s' ∧ rep s' rs bs (alter f t C) ∧ rest s' = rest s.
Proof.
  intros H E Hf. destruct (rep_thread _ _ _ _ _ _ H E) as (th & Eh & _).
  eexists. split; [by apply update_thread_ok|]. split; [|done]. destruct (Hf th) as (_ & Hn & Hp).
  destruct H as [Hr Hb Hd <-]. split; simpl; [by eapply dl_rep_update..|done|by apply cores_insert_data].
Qed.

(** Reading a thread: everything but the links is in [C]. *)
Lemma load_thread_spec s rs bs C t c :
  rep s rs bs C → C !! t = Some c → ∃ th, load_thread t s = Ret th s ∧ core th = c.
Proof.
  intros H E. destruct (rep_thread _ _ _ _ _ _ H E) as (th & Eh & Ec). exists th. split; [by apply load_thread_ok|done].
Qed.

Lemma dl_head_ne {h} {head t : Z} {ps} : dl_rep sched_links h head ps → t ≠ NULL → t ∉ ps → negb (t =? head) = true.
Proof.
  intros (-> & _) Ht Hni. apply negb_true_iff, Z.eqb_neq. intros ->. destruct ps; [done|]. apply Hni. by left.
Qed.

Lemma on_threads_ok {A} (m : M (gmap Z thread) A) s a h :
  m (threads s) = Ret a h → on_threads m s = Ret a (set_threads h s).
Proof. apply zoom_ret. Qed.

Lemma add_runnable_spec s rs bs C t c :
  rep s rs bs C → t ≠ NULL → t ∉ rs → t ∉ bs → C !! t = Some c →
  ∃ s', scheduler_add_runnable_thread t s = Ret tt s' ∧
    rep s' (rs ++ [t]) bs (alter (set_time_slice TIME_SLICE) t C) ∧ rest s' = rest s.
Proof.
  intros H Ht Hr Hb E. unfold scheduler_add_runnable_thread. rewrite bind_get.
  step (assert_ok _ "t != _runnable_threads" s (dl_head_ne (rep_run _ _ _ _ H) Ht Hr)).
  destruct (update_thread_spec _ _ _ _ _ _ (set_time_slice TIME_SLICE) H E) as (s1 & E1 & H1 & R1); [done|]. step E1.
  rewrite bind_get. destruct (rep_thread s1 _ _ _ t (set_time_slice TIME_SLICE c) H1) as (th & Eh & _);
    [by rewrite lookup_alter_eq, E|].
  destruct (DL_APPEND_spec sched_links _ _ _ t th (rep_run _ _ _ _ H1)) as (hd & h' & E2 & R2 & D2); [done..|].
  step (on_threads_ok _ s1 _ _ E2). eexists. split; [done|]. split; [|done]. destruct H1 as [H1 H2 H3 H4].
  split; simpl; [done| | |].
  - eapply dl_rep_frame; [done| |done]. intros q Hq [->|Hq']%elem_of_cons; [done|]. by apply (H3 q).
  - intros q [Hq| ->%list_elem_of_singleton]%elem_of_app; [by apply H3|done].
  - by rewrite (dlinks_only_cores _ _ _ D2).
Qed.

Lemma add_blocked_spec s rs bs C t c :
  rep s rs bs C → t ≠ NULL → t ∉ rs → t ∉ bs → C !! t = Some c →
  ∃ s', scheduler_add_blocked_thread t s = Ret tt s' ∧ rep s' rs (bs ++ [t]) C ∧ rest s' = rest s.
Proof.
  intros H Ht Hr Hb E. unfold scheduler_add_blocked_thread. rewrite bind_get.
  step (assert_ok _ "t != _blocked_threads" s (dl_head_ne (rep_blk _ _ _ _ H) Ht Hb)).
  destruct (rep_thread _ _ _ _ _ _ H E) as (th & Eh & _).
  destruct (DL_APPEND_spec sched_links _ _ _ t th (rep_blk _ _ _ _ H)) as (hd & h' & E2 & R2 & D2); [done..|].
  step (on_threads_ok _ s _ _ E2). eexists. split; [done|]. split; [|done]. destruct H as [H1 H2 H3 H4].
  split; simpl; [|done| |].
  - eapply dl_rep_frame; [done| |done]. intros q Hq [->|Hq']%elem_of_cons; [done|]. by apply (H3 q).
  - intros q Hq [Hq'| ->%list_elem_of_singleton]%elem_of_app; [by apply (H3 q)|done].
  - by rewrite (dlinks_only_cores _ _ _ D2).
Qed.

(** Clearing the links of a thread that is on neither list. *)
Lemma clear_links_spec s rs bs C t c :
  rep s rs bs C → t ∉ rs → t ∉ bs → C !! t = Some c →
  ∃ s', update_thread t (set_sched_links 0 0) s = Ret tt s' ∧ rep s' rs bs C ∧ rest s' = rest s.
Proof.
  intros H Hr Hb E. destruct (rep_thread _ _ _ _ _ _ H E) as (th & Eh & Ec).
  eexists. split; [by apply update_thread_ok|]. split; [|done]. destruct H as [H1 H2 H3 <-].
  assert (D : dlinks_only sched_links [t] (threads s) (<[t := set_sched_links 0 0 th]> (threads s))).
  { eapply dlinks_only_set; [done|by left|done]. }
  split; simpl; [eapply dl_rep_frame; [exact D| |done]..|done|by eapply dlinks_only_cores].
  - by intros q Hq ->%list_elem_of_singleton.
  - by intros q Hq ->%list_elem_of_singleton.
Qed.

Lemma remove_runnable_spec s rs1 rs2 bs C t :
  rep s (rs1 ++ t :: rs2) bs C →
  ∃ s', scheduler_remove_runnable_thread t s = Ret tt s' ∧ rep s' (rs1 ++ rs2) bs C ∧ rest s' = rest s.
Proof.
  intros H. destruct (rep_in _ _ _ _ t H ltac:(left; mem)) as (_ & c & Ec).
  destruct (DL_DELETE_spec sched_links _ _ _ _ _ (rep_run _ _ _ _ H)) as (hd & h' & E1 & R1 & D1).
  pose proof (NoDup_split _ _ _ (proj1 (rep_NoDup _ _ _ _ H))) as (N1 & N2 & _).
  unfold scheduler_remove_runnable_thread. rewrite bind_get. step (on_threads_ok _ s _ _ E1). rewrite bind_modify.
  set (s1 := set_runnable hd (set_threads h' s)).
  assert (H1 : rep s1 (rs1 ++ rs2) bs C).
  { destruct H as [A1 A2 A3 A4]. split; simpl; [done| | |].
    - eapply dl_rep_frame; [exact D1| |done]. intros q Hq Hin. apply (A3 q); [mem|done].
    - intros q Hq. apply A3. mem.
    - by rewrite (dlinks_only_cores _ _ _ D1). }
  apply (clear_links_spec s1 _ _ _ _ c H1); [mem| |done].
  intros Hb. apply (rep_disj _ _ _ _ H t); [mem|done].
Qed.

Lemma remove_blocked_spec s rs bs1 bs2 C t :
  rep s rs (bs1 ++ t :: bs2) C →
  ∃ s', scheduler_remove_blocked_thread t s = Ret tt s' ∧ rep s' rs (bs1 ++ bs2) C ∧ rest s' = rest s.
Proof.
  intros H. destruct (rep_in _ _ _ _ t H ltac:(right; mem)) as (_ & c & Ec).
  destruct (DL_DELETE_spec sched_links _ _ _ _ _ (rep_blk _ _ _ _ H)) as (hd & h' & E1 & R1 & D1).
  pose proof (NoDup_split _ _ _ (proj2 (rep_NoDup _ _ _ _ H))) as (N1 & N2 & _).
  unfold scheduler_remove_blocked_thread. rewrite bind_get. step (on_threads_ok _ s _ _ E1). rewrite bind_modify.
  set (s1 := set_blocked hd (set_threads h' s)).
  assert (H1 : rep s1 rs (bs1 ++ bs2) C).
  { destruct H as [A1 A2 A3 A4]. split; simpl; [|done| |].
    - eapply dl_rep_frame; [exact D1| |done]. intros q Hq Hin. apply (A3 q); [done|mem].
    - intros q Hq Hin. apply (A3 q Hq). mem.
    - by rewrite (dlinks_only_cores _ _ _ D1). }
  apply (clear_links_spec s1 _ _ _ _ c H1); [|mem|done].
  intros Hb. apply (rep_disj _ _ _ _ H t); [done|mem].
Qed.

(** *** Under the lock *)

(** The lock is free or the current thread's, and can be nested [k] times more. *)
Definition lock_ok (k : Z) (s : sys) : Prop :=
  let l := sched_lock s in
  0 ≤ nested l < W32 - k ∧ (nested l = 0 ∧ owner l = 0 ∨ 0 < nested l ∧ owner l = current_tid s).

(** What the operations need to be callable: a current thread, and the lock. *)
Record ready (k : Z) (s : sys) : Prop := {
  ready_tid : current_tid s ≠ 0;
  ready_lock : lock_ok k s;
  ready_flags : flags_word s
}.

Definition locked (s : sys) : sys :=
  entered sched_lock_in (Spinlock (current_tid s) (nested (sched_lock s) + 1)) s.

Lemma rep_tid s rs bs C : rep s rs bs C → current_tid s = tid_of C (current s).
Proof.
  intros H. rewrite <- (rep_cores _ _ _ _ H). simpl. unfold tid_of. rewrite cores_lookup.
  by destruct (threads s !! current s).
Qed.

(** Updates keep the threads' ids. *)
Definition same_tids (C C' : gmap Z thread) : Prop := ∀ q, tid <$> C' !! q = tid <$> C !! q.

Lemma same_tids_alter C f t : (∀ x, tid (f x) = tid x) → same_tids C (alter f t C).
Proof.
  intros Hf q. destruct (decide (q = t)) as [->|Hne]; [|by rewrite lookup_alter_ne].
  rewrite lookup_alter_eq. destruct (C !! t); simpl; [by rewrite Hf|done].
Qed.

Lemma same_tids_refl C : same_tids C C.
Proof. by intros q. Qed.

Lemma same_tids_trans C1 C2 C3 : same_tids C1 C2 → same_tids C2 C3 → same_tids C1 C3.
Proof. intros H1 H2 q. by rewrite H2, H1. Qed.

Lemma tid_of_same C C' p : same_tids C C' → tid_of C' p = tid_of C p.
Proof. intros H. unfold tid_of. by rewrite H. Qed.

Lemma rest_current s s' : rest s' = rest s → current s' = current s.
Proof. intros E. by apply (f_equal current) in E. Qed.
Lemma rest_lock s s' : rest s' = rest s → sched_lock s' = sched_lock s.
Proof. intros E. by apply (f_equal sched_lock) in E. Qed.
Lemma rest_eflags s s' : rest s' = rest s → cpu_eflags s' = cpu_eflags s.
Proof. intros E. by apply (f_equal cpu_eflags) in E. Qed.

Lemma rest_last s s' : rest s' = rest s → last_scheduled_time_ticks s' = last_scheduled_time_ticks s.
Proof. intros E. by apply (f_equal last_scheduled_time_ticks) in E. Qed.
Lemma rest_ticks s s' : rest s' = rest s → ticks_since_boot s' = ticks_since_boot s.
Proof. intros E. by apply (f_equal ticks_since_boot) in E. Qed.

Lemma ready_rest k s s' rs bs C rs' bs' C' :
  rep s rs bs C → rep s' rs' bs' C' → same_tids C C' → rest s' = rest s → ready k s → ready k s'.
Proof.
  intros H H' Ht Hr [Ht1 Hl Hf]. unfold lock_ok, flags_word in *. cbn [eflags sys_cpu] in *.
  assert (E : current_tid s' = current_tid s).
  { rewrite (rep_tid _ _ _ _ H), (rep_tid _ _ _ _ H'), (rest_current _ _ Hr). by apply tid_of_same. }
  split; unfold lock_ok, flags_word; rewrite ?E, ?(rest_lock _ _ Hr); [done..|]. simpl. by rewrite (rest_eflags _ _ Hr).
Qed.

Lemma lock_spec k s rs bs C :
  rep s rs bs C → ready k s → 1 < k →
  scheduler_lock s = Ret (cpu_eflags s) (locked s) ∧ rep (locked s) rs bs C ∧ ready (k - 1) (locked s).
Proof.
  intros H [Ht [Hn Hl] Hf] Hk. split; [|split].
  - unfold scheduler_lock. rewrite (acquire_ok sched_lock_in s (sched_lock s)); [|done|done|].
    + rewrite u32_small by lia. done.
    + destruct Hl as [[_ ->]|[_ ->]]; auto.
  - by destruct H.
  - split; [done|split; simpl|].
    + lia.
    + right. split; [lia|done].
    + by apply (entered_masked sched_lock_in).
Qed.

(** Leaving the critical section begun in [s] from a state that differs in threads and lists. *)
Lemma unlock_spec k s s2 rs bs C :
  ready k s → 1 < k → rep s2 rs bs C → rest s2 = rest (locked s) →
  ∃ s3, scheduler_unlock (cpu_eflags s) s2 = Ret tt s3 ∧ rep s3 rs bs C ∧ rest s3 = rest s.
Proof.
  intros [Ht [Hn Hl] Hf] Hk H2 Hr. set (l := Spinlock (current_tid s) (nested (sched_lock s) + 1)).
  destruct (entered_masked sched_lock_in l s Hf) as [Hm Hw].
  assert (Ee : cpu_eflags s2 = cpu_eflags (locked s)) by by apply rest_eflags.
  eexists. split; [|split].
  - unfold scheduler_unlock. apply (release_ok sched_lock_in s2 l).
    + simpl. by rewrite (rest_lock _ _ Hr).
    + unfold flags_word. simpl. by rewrite Ee.
    + unfold masked. simpl. by rewrite Ee.
  - by destruct H2.
  - assert (E : released l = sched_lock s).
    { rewrite <- (Spin.lock_eta (sched_lock s)). unfold l. rewrite <- (u32_small (nested (sched_lock s) + 1)) by lia.
      apply released_acquired; [lia|]. done. }
    rewrite E. transitivity (set_eflags (cpu_eflags s) (set_sched_lock (sched_lock s) (rest s2))); [done|].
    rewrite Hr. by destruct s.
Qed.

(** *** The operations on the lists *)

(** Removing [t] from the list its state names. *)
Definition removed (t : Z) (c : thread) (rs bs rs' bs' : list Z) : Prop :=
  (state c = thread_running ∨ state c = thread_runnable) ∧ (∃ rs1 rs2, rs = rs1 ++ t :: rs2 ∧ rs' = rs1 ++ rs2) ∧ bs' = bs ∨
  state c = thread_blocked ∧ rs' = rs ∧ (∃ bs1 bs2, bs = bs1 ++ t :: bs2 ∧ bs' = bs1 ++ bs2).

Lemma remove_thread_spec s rs bs C t c rs' bs' :
  rep s rs bs C → C !! t = Some c → removed t c rs bs rs' bs' →
  ∃ s', scheduler_remove_thread t s = Ret tt s' ∧ rep s' rs' bs' C ∧ rest s' = rest s ∧ t ∉ rs' ∧ t ∉ bs' ∧ t ≠ NULL.
Proof.
  intros H E Hc. destruct (load_thread_spec _ _ _ _ _ _ H E) as (th & E1 & Ec).
  unfold scheduler_remove_thread. step E1.
  assert (Es : state th = state c) by (by subst c). rewrite Es.
  destruct (rep_NoDup _ _ _ _ H) as [Nr Nb].
  destruct Hc as [(Hst & (rs1 & rs2 & -> & ->) & ->)|(Hst & -> & (bs1 & bs2 & -> & ->))].
  - assert (Eb : bool_decide (state c = thread_running) || bool_decide (state c = thread_runnable) = true)
      by (destruct Hst as [-> | ->]; done).
    rewrite Eb. destruct (remove_runnable_spec _ _ _ _ _ _ H) as (s' & E2 & H2 & R2).
    destruct (NoDup_split _ _ _ Nr) as (N1 & N2 & _). exists s'. split; [done|]. split; [done|]. split; [done|].
    split; [rewrite elem_of_app; tauto|]. split; [apply (rep_disj _ _ _ _ H); mem|].
    apply (rep_in _ _ _ _ t H). left. mem.
  - rewrite Hst. simpl. destruct (remove_blocked_spec _ _ _ _ _ _ H) as (s' & E2 & H2 & R2).
    destruct (NoDup_split _ _ _ Nb) as (N1 & N2 & _). exists s'. split; [done|]. split; [done|]. split; [done|].
    split; [intros Hr; apply (rep_disj _ _ _ _ H t Hr); mem|]. split; [rewrite elem_of_app; tauto|].
    apply (rep_in _ _ _ _ t H). right. mem.
Qed.

Lemma make_runnable_spec k s rs bs C t c rs' bs' :
  rep s rs bs C → ready k s → 1 < k → C !! t = Some c → state c ≠ thread_runnable → removed t c rs bs rs' bs' →
  ∃ s', scheduler_make_runnable t s = Ret tt s' ∧
    rep s' (rs' ++ [t]) bs' (alter (set_time_slice TIME_SLICE) t (alter (set_state thread_runnable) t C)) ∧
    rest s' = rest s.
Proof.
  intros H Hrd Hk E Hst Hrm. destruct (lock_spec k s rs bs C H Hrd Hk) as (E1 & H1 & _).
  unfold scheduler_make_runnable. step E1.
  destruct (load_thread_spec _ _ _ _ _ _ H1 E) as (th & E2 & Ec). step E2.
  assert (Es : bool_decide (state th = thread_runnable) = false) by (apply bool_decide_eq_false; by subst c).
  rewrite Es. cbn [negb]. destruct (remove_thread_spec _ _ _ _ _ _ _ _ H1 E Hrm) as (s2 & E3 & H2 & R2 & Nr & Nb & Nz).
  step E3. destruct (update_thread_spec _ _ _ _ _ _ (set_state thread_runnable) H2 E) as (s3 & E4 & H3 & R3); [done|].
  step E4. assert (E' : alter (set_state thread_runnable) t C !! t = Some (set_state thread_runnable c))
    by (by rewrite lookup_alter_eq, E).
  destruct (add_runnable_spec _ _ _ _ _ _ H3 Nz Nr Nb E') as (s4 & E5 & H4 & R4). step E5.
  apply (unlock_spec k s s4 _ _ _ Hrd Hk H4). congruence.
Qed.

Lemma make_runnable_already k s rs bs C t c :
  rep s rs bs C → ready k s → 1 < k → C !! t = Some c → state c = thread_runnable →
  ∃ s', scheduler_make_runnable t s = Ret tt s' ∧ rep s' rs bs C ∧ rest s' = rest s.
Proof.
  intros H Hrd Hk E Hst. destruct (lock_spec k s rs bs C H Hrd Hk) as (E1 & H1 & _).
  unfold scheduler_make_runnable. step E1.
  destruct (load_thread_spec _ _ _ _ _ _ H1 E) as (th & E2 & Ec). step E2.
  assert (Es : bool_decide (state th = thread_runnable) = true) by (apply bool_decide_eq_true; by subst c).
  rewrite Es. cbn [negb]. rewrite (bind_ret _ _ _ _ _ (ret_ok tt (locked s))). by apply (unlock_spec k s _ _ _ _ Hrd Hk H1).
Qed.

Lemma make_blocked_spec k s rs bs C t c rs' :
  rep s rs bs C → ready k s → 1 < k → C !! t = Some c → state c ≠ thread_blocked → removed t c rs bs rs' bs →
  ∃ s', scheduler_make_blocked t s = Ret tt s' ∧
    rep s' rs' (bs ++ [t]) (alter (set_state thread_blocked) t C) ∧ rest s' = rest s.
Proof.
  intros H Hrd Hk E Hst Hrm. destruct (lock_spec k s rs bs C H Hrd Hk) as (E1 & H1 & _).
  unfold scheduler_make_blocked. step E1.
  destruct (load_thread_spec _ _ _ _ _ _ H1 E) as (th & E2 & Ec). step E2.
  assert (Es : bool_decide (state th = thread_blocked) = false) by (apply bool_decide_eq_false; by subst c).
  rewrite Es. cbn [negb]. destruct (remove_thread_spec _ _ _ _ _ _ _ _ H1 E Hrm) as (s2 & E3 & H2 & R2 & Nr & Nb & Nz).
  step E3. destruct (update_thread_spec _ _ _ _ _ _ (set_state thread_blocked) H2 E) as (s3 & E4 & H3 & R3); [done|].
  step E4. rewrite bind_assoc, bind_get.
  step (assert_ok _ "t != _blocked_threads" s3 (dl_head_ne (rep_blk _ _ _ _ H3) Nz Nb)).
  assert (E' : alter (set_state thread_blocked) t C !! t = Some (set_state thread_blocked c))
    by (by rewrite lookup_alter_eq, E).
  destruct (add_blocked_spec _ _ _ _ _ _ H3 Nz Nr Nb E') as (s4 & E5 & H4 & R4). step E5.
  apply (unlock_spec k s s4 _ _ _ Hrd Hk H4). congruence.
Qed.

Lemma add_thread_spec k s rs bs C t c :
  rep s rs bs C → ready k s → 1 < k → C !! t = Some c → state c = thread_created → t ≠ NULL → t ∉ rs → t ∉ bs →
  ∃ s', scheduler_add_thread t s = Ret tt s' ∧
    rep s' (rs ++ [t]) bs (alter (set_time_slice TIME_SLICE) t (alter (set_state thread_runnable) t C)) ∧
    rest s' = rest s.
Proof.
  intros H Hrd Hk E Hst Nz Nr Nb. destruct (lock_spec k s rs bs C H Hrd Hk) as (E1 & H1 & _).
  unfold scheduler_add_thread. step E1.
  destruct (load_thread_spec _ _ _ _ _ _ H1 E) as (th & E2 & Ec). step E2.
  assert (Es : state th = thread_created) by (by subst c). rewrite Es.
  step (assert_ok (negb (bool_decide (thread_created = thread_running))) "t->state != thread_running" (locked s) eq_refl).
  rewrite (bool_decide_eq_true_2 (thread_created = thread_created)) by done.
  destruct (update_thread_spec _ _ _ _ _ _ (set_state thread_runnable) H1 E) as (s3 & E3 & H3 & R3); [done|]. step E3.
  assert (E' : alter (set_state thread_runnable) t C !! t = Some (set_state thread_runnable c))
    by (by rewrite lookup_alter_eq, E).
  destruct (load_thread_spec _ _ _ _ _ _ H3 E') as (th' & E4 & Ec'). step E4. rewrite bind_get.
  assert (Es' : bool_decide (state th' = thread_runnable) = true).
  { apply bool_decide_eq_true. by apply (f_equal state) in Ec'. }
  rewrite Es'. step (assert_ok _ "t != _runnable_threads" s3 (dl_head_ne (rep_run _ _ _ _ H3) Nz Nr)).
  destruct (add_runnable_spec _ _ _ _ _ _ H3 Nz Nr Nb E') as (s4 & E5 & H4 & R4). step E5.
  apply (unlock_spec k s s4 _ _ _ Hrd Hk H4). congruence.
Qed.

Lemma foreach_spec s rs bs C head ps :
  rep s rs bs C → dl_rep sched_links (threads s) head ps →
  on_threads (fuel ← fuel_of_heap; dl_foreach sched_links fuel head) s = Ret ps s.
Proof.
  intros H Hr. destruct Hr as (-> & Hs & Hz). rewrite (on_threads_ok _ s ps (threads s)); [by destruct s|].
  step (eq_refl : fuel_of_heap (threads s) = Ret (S (size (threads s))) (threads s)). apply (dl_foreach_spec _ _ _ _ _ Hs); [tauto|].
  pose proof (dl_rep_fuel sched_links (threads s) (first_or NULL ps) ps ltac:(by split)). lia.
Qed.

(** Printing walks both lists to their ends and changes nothing. *)
Lemma print_threads_spec k s rs bs C :
  rep s rs bs C → ready k s → 1 < k →
  ∃ s', scheduler_print_threads s = Ret tt s' ∧ rep s' rs bs C ∧ rest s' = rest s.
Proof.
  intros H Hrd Hk. destruct (lock_spec k s rs bs C H Hrd Hk) as (E1 & H1 & _).
  unfold scheduler_print_threads. step E1. rewrite bind_get.
  step (foreach_spec _ _ _ _ _ _ H1 (rep_run _ _ _ _ H1)). step (foreach_spec _ _ _ _ _ _ H1 (rep_blk _ _ _ _ H1)).
  by apply (unlock_spec k s _ _ _ _ Hrd Hk H1).
Qed.

(** *** Choosing the next thread *)

Definition elapsed (s : sys) : Z := u32 (u32 (ticks_since_boot s) - last_scheduled_time_ticks s).
Definition spend (n : Z) (t : thread) : thread := set_time_slice (u32 (time_slice t - n)) t.

(** The threads after the current one, [o], has been charged. *)
Definition charged (o : Z) (n : Z) (c : thread) (C : gmap Z thread) : gmap Z thread :=
  if bool_decide (state c = thread_running) then alter (set_state thread_runnable) o (alter (spend n) o C)
  else alter (spend n) o C.

Definition picked (t : Z) (C : gmap Z thread) : gmap Z thread :=
  alter (set_state thread_running) t (alter (set_time_slice TIME_SLICE) t C).

(** The current thread is charged; [keep] is what the code decides with the early return. *)
Lemma charge_spec s rs bs C c :
  rep s rs bs C → current s ≠ NULL → C !! current s = Some c →
  let n := elapsed s in
  let keep := bool_decide (state c = thread_running) && (0 <? u32 (time_slice c - n)) in
  ∃ s', rep s' rs bs (if keep then alter (spend n) (current s) C else charged (current s) n c C) ∧
    rest s' = rest (set_last_ticks (u32 (ticks_since_boot s)) s) ∧
    scheduler_next_thread s =
      (if keep then Ret (current s) s'
       else (s ← get;
             let next_thread := runnable_threads s in
             if next_thread =? NULL then scheduler_print_threads;; panic "no next thread available"
             else
               scheduler_remove_runnable_thread next_thread;;
               scheduler_add_runnable_thread next_thread;;
               update_thread next_thread (set_state thread_running);;
               mret next_thread) s').
Proof.
  intros H Hc E n keep. unfold scheduler_next_thread. rewrite bind_get. cbn zeta. rewrite bind_modify.
  set (s0 := set_last_ticks (u32 (ticks_since_boot s)) s).
  rewrite (proj2 (Z.eqb_neq (current s) NULL)) by done.
  assert (H0 : rep s0 rs bs C) by (by destruct H).
  destruct (update_thread_spec s0 _ _ _ (current s) c (spend n) H0 E) as (s1 & E1 & H1 & R1); [done|]. step E1.
  assert (E' : alter (spend n) (current s) C !! current s = Some (spend n c)) by (by rewrite lookup_alter_eq, E).
  destruct (load_thread_spec _ _ _ _ _ _ H1 E') as (th & E2 & Ec). step E2.
  assert (Es : state th = state c) by (by apply (f_equal state) in Ec).
  assert (Et : time_slice th = u32 (time_slice c - n)) by (by apply (f_equal time_slice) in Ec).
  rewrite Es, Et. unfold keep, charged. destruct (bool_decide (state c = thread_running)); cbn [andb].
  - destruct (0 <? u32 (time_slice c - n)).
    + exists s1. split; [done|]. split; [done|]. done.
    + destruct (update_thread_spec _ _ _ _ _ _ (set_state thread_runnable) H1 E') as (s2 & E3 & H2 & R2); [done|].
      step E3. exists s2. split; [done|]. split; [congruence|]. done.
  - exists s1. split; [done|]. split; [done|]. done.
Qed.

Lemma next_thread_keep s rs bs C c :
  rep s rs bs C → current s ≠ NULL → C !! current s = Some c →
  state c = thread_running → 0 < u32 (time_slice c - elapsed s) →
  ∃ s', scheduler_next_thread s = Ret (current s) s' ∧ rep s' rs bs (alter (spend (elapsed s)) (current s) C) ∧
    rest s' = rest (set_last_ticks (u32 (ticks_since_boot s)) s).
Proof.
  intros H Hc E Hst Hsl. destruct (charge_spec s rs bs C c H Hc E) as (s' & H' & R' & E').
  rewrite (bool_decide_eq_true_2 _ Hst), (proj2 (Z.ltb_lt _ _) Hsl) in H', E'. by exists s'.
Qed.

Lemma picked_lookup (t : Z) (C : gmap Z thread) c : C !! t = Some c → is_Some (alter (set_time_slice TIME_SLICE) t C !! t).
Proof. intros E. rewrite lookup_alter_eq, E. eauto. Qed.

Lemma next_thread_pick s t rs bs C c :
  rep s (t :: rs) bs C → current s ≠ NULL → C !! current s = Some c →
  (state c = thread_running → u32 (time_slice c - elapsed s) = 0) →
  ∃ s', scheduler_next_thread s = Ret t s' ∧ rep s' (rs ++ [t]) bs (picked t (charged (current s) (elapsed s) c C)) ∧
    rest s' = rest (set_last_ticks (u32 (ticks_since_boot s)) s).
Proof.
  intros H Hc E Hsl. destruct (charge_spec s _ bs C c H Hc E) as (s1 & H1 & R1 & E1).
  replace (bool_decide (state c = thread_running) && (0 <? u32 (time_slice c - elapsed s))) with false in H1, E1.
  2:{ destruct (bool_decide_reflect (state c = thread_running)); [|done]. by rewrite Hsl. }
  rewrite E1, bind_get. cbn zeta.
  assert (Eh : runnable_threads s1 = t) by apply (rep_run _ _ _ _ H1). rewrite Eh.
  destruct (rep_in _ _ _ _ t H1 ltac:(left; by left)) as (Hz & c1 & Ec1).
  rewrite (proj2 (Z.eqb_neq t NULL)) by done.
  destruct (remove_runnable_spec s1 [] rs bs _ t H1) as (s2 & E2 & H2 & R2). step E2.
  pose proof (proj1 (rep_NoDup _ _ _ _ H1)) as [Hni _]%NoDup_cons.
  destruct (add_runnable_spec _ _ _ _ _ _ H2 Hz Hni ltac:(apply (rep_disj _ _ _ _ H1); by left) Ec1) as (s3 & E3 & H3 & R3).
  step E3. destruct (picked_lookup _ _ _ Ec1) as [c3 Ec3].
  destruct (update_thread_spec _ _ _ _ _ _ (set_state thread_running) H3 Ec3) as (s4 & E4 & H4 & R4); [done|]. step E4.
  exists s4. split; [done|]. split; [done|]. congruence.
Qed.

(** With nothing to run the machine panics. *)
Lemma next_thread_none k s bs C c :
  rep s [] bs C → ready k s → 1 < k → current s ≠ NULL → C !! current s = Some c →
  (state c = thread_running → u32 (time_slice c - elapsed s) = 0) →
  scheduler_next_thread s = Panic "no next thread available".
Proof.
  intros H Hrd Hk Hc E Hsl. destruct (charge_spec s _ bs C c H Hc E) as (s1 & H1 & R1 & E1).
  replace (bool_decide (state c = thread_running) && (0 <? u32 (time_slice c - elapsed s))) with false in H1, E1.
  2:{ destruct (bool_decide_reflect (state c = thread_running)); [|done]. by rewrite Hsl. }
  rewrite E1, bind_get. cbn zeta.
  assert (Eh : runnable_threads s1 = NULL) by apply (rep_run _ _ _ _ H1). rewrite Eh, Z.eqb_refl.
  destruct (print_threads_spec k s1 [] bs _ H1) as (s2 & E2 & _); [|done|by step E2].
  eapply (ready_rest k (set_last_ticks (u32 (ticks_since_boot s)) s)); [|exact H1| |exact R1|].
  - destruct H as [A1 A2 A3 A4]. by split.
  - unfold charged. case_bool_decide; [eapply same_tids_trans|]; by apply same_tids_alter.
  - destruct Hrd as [B1 B2 B3]. by split.
Qed.

(** *** Yielding *)
Section YieldSpec.
Variables kernel_vma_byte switch_return : Z.
Notation scheduler_yield := (scheduler_yield kernel_vma_byte switch_return).

(** The flags with interrupts off. *)
Definition cli (f : Z) : Z := Z.clearbit f flags_if_bit.

(** The state in which the choice has been made and [scheduler_yield] waits for the switch. *)
Definition chosen (s : sys) : sys :=
  set_cpu (cli (cpu_eflags s)) (FYield (cpu_eflags s) :: cpu_frames s) (set_last_ticks (u32 (ticks_since_boot s)) s).

Lemma yield_choose k s rs bs C c t rs' C' :
  rep s rs bs C → ready k s → 1 < k → current s ≠ NULL → C !! current s = Some c → same_tids C C' → t ≠ NULL →
  (∀ s0, rep s0 rs bs C → current s0 = current s → elapsed s0 = elapsed s →
     ∃ s1, scheduler_next_thread s0 = Ret t s1 ∧ rep s1 rs' bs C' ∧
       rest s1 = rest (set_last_ticks (u32 (ticks_since_boot s0)) s0)) →
  ∃ s1, rep s1 rs' bs C' ∧ rest s1 = rest (chosen s) ∧
    scheduler_yield s = (if negb (t =? current s) then process_context_switch kernel_vma_byte switch_return t else mret tt) s1.
Proof.
  intros H Hrd Hk Hc E Hti Hz Hnext. unfold scheduler_yield, Scheduler.scheduler_yield. step (enter_cli_ok s).
  set (s1 := set_eflags _ s).
  assert (H1 : rep s1 rs bs C) by (by destruct H).
  assert (Hrd1 : ready k s1).
  { destruct Hrd as [B1 B2 B3]. split; [done|done|]. by apply clearbit_word. }
  destruct (lock_spec k s1 rs bs C H1 Hrd1 Hk) as (E2 & H2 & _). step E2.
  destruct (Hnext (locked s1) H2) as (s3 & E3 & H3 & R3); [done|done|]. step E3.
  set (s1' := set_last_ticks (u32 (ticks_since_boot s)) s1).
  assert (Hrd1' : ready k s1') by (by destruct Hrd1).
  destruct (unlock_spec k s1' s3 _ _ _ Hrd1' Hk H3) as (s4 & E4 & H4 & R4); [exact R3|].
  change (cpu_eflags s1) with (cpu_eflags s1'). step E4. unfold push at 1. rewrite bind_modify, bind_get.
  rewrite (proj2 (Z.eqb_neq t NULL)) by done.
  exists (set_cpu (cpu_eflags s4) (FYield (cpu_eflags s) :: cpu_frames s4) s4).
  assert (Ef : cpu_eflags s4 = cpu_eflags s1') by by apply rest_eflags.
  assert (Er : cpu_frames s4 = cpu_frames s1') by (by apply (f_equal cpu_frames) in R4).
  split; [by destruct H4|]. split.
  - rewrite Ef, Er. change (rest (set_cpu ?f ?fs s4)) with (set_cpu f fs (rest s4)). by rewrite R4.
  - change (current (set_cpu _ _ s4)) with (current s4). by rewrite (rest_current _ _ R4).
Qed.

(** The current thread keeps the processor. *)
Lemma yield_keep k s rs bs C c :
  rep s rs bs C → ready k s → 1 < k → current s ≠ NULL → C !! current s = Some c →
  state c = thread_running → 0 < u32 (time_slice c - elapsed s) →
  ∃ s', scheduler_yield s = Ret tt s' ∧ rep s' rs bs (alter (spend (elapsed s)) (current s) C) ∧ rest s' = rest (chosen s).
Proof.
  intros H Hrd Hk Hc E Hst Hsl.
  destruct (yield_choose k s rs bs C c (current s) rs (alter (spend (elapsed s)) (current s) C)) as (s1 & H1 & R1 & E1);
    [done..|by apply same_tids_alter|done| |].
  - intros s0 H0 Ec Ee. rewrite <- Ec, <- Ee. apply (next_thread_keep s0 _ _ _ c H0); rewrite ?Ec, ?Ee; done.
  - rewrite E1, Z.eqb_refl. by exists s1.
Qed.

Lemma same_tids_picked o n c t C : same_tids C (picked t (charged o n c C)).
Proof.
  unfold picked, charged. eapply same_tids_trans; [|by apply same_tids_alter].
  eapply same_tids_trans; [|by apply same_tids_alter].
  case_bool_decide; [eapply same_tids_trans|]; by apply same_tids_alter.
Qed.

(** The first runnable thread is the current one again. *)
Lemma yield_pick_self k s rs bs C c :
  rep s (current s :: rs) bs C → ready k s → 1 < k → C !! current s = Some c →
  (state c = thread_running → u32 (time_slice c - elapsed s) = 0) →
  ∃ s', scheduler_yield s = Ret tt s' ∧
    rep s' (rs ++ [current s]) bs (picked (current s) (charged (current s) (elapsed s) c C)) ∧ rest s' = rest (chosen s).
Proof.
  intros H Hrd Hk E Hsl. destruct (rep_in _ _ _ _ (current s) H) as [Hz _]; [left; by left|].
  destruct (yield_choose k s (current s :: rs) bs C c (current s) (rs ++ [current s])
    (picked (current s) (charged (current s) (elapsed s) c C))) as (s1 & H1 & R1 & E1); [done..|apply same_tids_picked|done| |].
  - intros s0 H0 Ec Ee. rewrite <- Ec, <- Ee. rewrite <- Ec in H0. apply (next_thread_pick s0 _ _ _ _ c H0); rewrite ?Ec, ?Ee; done.
  - rewrite E1, Z.eqb_refl. by exists s1.
Qed.

(** What [stack_switch] saves of the thread that yields. *)
Definition saved (s : sys) : context :=
  Context switch_return (cli (cpu_eflags s)) (FYield (cpu_eflags s) :: cpu_frames s).

(** The state, lists and threads apart, in which [t] goes on. *)
Definition resumed (t : Z) (ct : thread) (s : sys) : sys :=
  set_current t (set_current_proc (if negb (proc ct =? NULL) then proc ct else current_proc s)
    (set_esp0 (u32 (kernel_stack ct + kernel_stack_size ct))
      (set_last_ticks (u32 (ticks_since_boot s))
        (set_cpu (ctx_eflags (stack_context ct)) (ctx_frames (stack_context ct)) s)))).

Lemma data_set_context x : data_fn (set_context x).
Proof. done. Qed.

Lemma picked_core t o n c C ct :
  C !! t = Some ct → t ≠ o →
  picked t (charged o n c C) !! t = Some (set_state thread_running (set_time_slice TIME_SLICE ct)).
Proof.
  intros E Hne. unfold picked, charged. rewrite !lookup_alter_eq.
  case_bool_decide; rewrite !lookup_alter_ne by done; by rewrite E.
Qed.

(** Another thread gets the processor. *)
Lemma yield_pick k s t rs bs C c ct :
  rep s (t :: rs) bs C → ready k s → 1 < k → current s ≠ NULL → C !! current s = Some c →
  (state c = thread_running → u32 (time_slice c - elapsed s) = 0) →
  t ≠ current s → C !! t = Some ct → kernel_vma_byte ≤ ctx_eip (stack_context ct) →
  ∃ s', scheduler_yield s = Ret tt s' ∧
    rep s' (rs ++ [t]) bs (alter (set_context (saved s)) (current s) (picked t (charged (current s) (elapsed s) c C))) ∧
    rest s' = rest (resumed t ct s).
Proof.
  intros H Hrd Hk Hc E Hsl Hne Et Hv. destruct (rep_in _ _ _ _ t H) as [Hz _]; [left; by left|].
  set (C1 := picked t (charged (current s) (elapsed s) c C)).
  destruct (yield_choose k s (t :: rs) bs C c t (rs ++ [t]) C1) as (s1 & H1 & R1 & E1); [done..|apply same_tids_picked|done| |].
  { intros s0 H0 Ec Ee. unfold C1. rewrite <- Ec, <- Ee. apply (next_thread_pick s0 _ _ _ _ c H0); rewrite ?Ec, ?Ee; done. }
  rewrite E1, (proj2 (Z.eqb_neq t (current s))) by done. cbn [negb].
  assert (Hco : is_Some (C1 !! current s)).
  { pose proof (same_tids_picked (current s) (elapsed s) c t C (current s)) as Hs. rewrite E in Hs.
    unfold C1. by destruct (picked _ _ !! current s). }
  destruct Hco as [co Eco]. destruct (rep_thread _ _ _ _ _ _ H1 Eco) as (ot & Eot & <-).
  destruct (rep_thread _ _ _ _ t _ H1 (picked_core t _ _ c C ct Et Hne)) as (th & Eth & Ecth).
  assert (Es : stack_context th = stack_context ct) by (by apply (f_equal stack_context) in Ecth).
  assert (Ecur : current s1 = current s) by (by apply rest_current in R1).
  rewrite (switch_ok _ _ s1 (current s) t ot th); [|done..|by rewrite Es].
  eexists. split; [done|]. split.
  - destruct H1 as [A1 A2 A3 A4]. unfold switched. split; simpl; [by eapply dl_rep_update..|done|].
    assert (Ec1 : cpu_eflags s1 = cli (cpu_eflags s)) by (by apply rest_eflags in R1).
    assert (Ec2 : cpu_frames s1 = FYield (cpu_eflags s) :: cpu_frames s) by (by apply (f_equal cpu_frames) in R1).
    unfold saved. rewrite Ec1, Ec2, <- A4. by apply cores_insert_data.
  - transitivity (resumed t th (rest s1)).
    + assert (El : last_scheduled_time_ticks s1 = u32 (ticks_since_boot s1)).
      { apply (f_equal last_scheduled_time_ticks) in R1 as E2. apply (f_equal ticks_since_boot) in R1 as E3.
        simpl in E2, E3. by rewrite E2, E3. }
      unfold switched, resumed, rest. simpl. by rewrite El.
    + rewrite R1. apply (f_equal (λ x, (proc x, kernel_stack x, kernel_stack_size x))) in Ecth as Ep.
      simpl in Ep. injection Ep as E3 E4 E5. unfold resumed. rewrite E3, E4, E5, Es. done.
Qed.

(** *** Round robin *)

(** A timer tick while a thread runs: the handler counts it and the interrupt's exit path yields. *)
Definition tick : M sys unit :=
  modify (λ s, set_ticks (ticks_since_boot s + 1) s);;
  scheduler_yield.

(** The threads that [n] ticks give the processor to. *)
Fixpoint ticks (n : nat) : M sys (list Z) :=
  match n with
  | O => mret []
  | S n => tick;; s ← get; ts ← ticks n; mret (current s :: ts)
  end.

Definition can_run (C : gmap Z thread) (t : Z) : Prop :=
  ∃ c, C !! t = Some c ∧ tid c ≠ 0 ∧ kernel_vma_byte ≤ ctx_eip (stack_context c) ∧ 0 ≤ ctx_eflags (stack_context c) < W32.

(** The current thread is running, last in the list, and has just been given its slice. *)
Record turn (s : sys) (rs bs : list Z) (C : gmap Z thread) : Prop := {
  turn_rep : rep s rs bs C;
  turn_last : last rs = Some (current s);
  turn_running : ∃ c, C !! current s = Some c ∧ state c = thread_running ∧ time_slice c = TIME_SLICE;
  turn_ticks : last_scheduled_time_ticks s = u32 (ticks_since_boot s);
  turn_lock : sched_lock s = Spinlock 0 0;
  turn_flags : flags_word s;
  turn_can : ∀ t, t ∈ rs → can_run C t
}.

Lemma turn_ready s rs bs C : turn s rs bs C → ready 2 s.
Proof.
  intros [H Hl _ _ Hlk Hf Hcan]. apply last_Some_elem_of in Hl. destruct (Hcan _ Hl) as (c & E & Ht & _).
  split; [|unfold lock_ok; rewrite Hlk; simpl; lia|done].
  rewrite (rep_tid _ _ _ _ H). unfold tid_of. destruct (rep_in _ _ _ _ (current s) H) as [Hz _]; [by left|].
  by rewrite (proj2 (Z.eqb_neq _ _) Hz), E.
Qed.

(** What can run still can after updates of the scheduler. *)
Lemma can_run_alter C f t q :
  (∀ x, tid (f x) = tid x ∧ stack_context (f x) = stack_context x) → can_run C q → can_run (alter f t C) q.
Proof.
  intros Hf (c & E & Hc). destruct (decide (q = t)) as [->|Hne].
  - exists (f c). rewrite lookup_alter_eq, E. destruct (Hf c) as [-> ->]. done.
  - exists c. by rewrite lookup_alter_ne.
Qed.

Lemma can_run_saved C o t s :
  kernel_vma_byte ≤ switch_return → flags_word s → can_run C t → can_run (alter (set_context (saved s)) o C) t.
Proof.
  intros Hv Hf (c & E & Ht & He). destruct (decide (t = o)) as [->|Hne].
  - exists (set_context (saved s) c). rewrite lookup_alter_eq, E. split; [done|]. split; [done|]. split; [done|].
    by apply clearbit_word.
  - exists c. by rewrite lookup_alter_ne.
Qed.

Lemma can_run_picked o n c t C q : can_run C q → can_run (picked t (charged o n c C)) q.
Proof.
  intros H. unfold picked, charged. do 2 (apply can_run_alter; [done|]).
  case_bool_decide; repeat (apply can_run_alter; [done|]); done.
Qed.

Lemma elapsed_tick s : last_scheduled_time_ticks s = u32 (ticks_since_boot s) →
  elapsed (set_ticks (ticks_since_boot s + 1) s) = 1.
Proof. intros E. unfold elapsed. simpl. rewrite E. wrap. Qed.

Lemma picked_running t C : is_Some (C !! t) →
  ∃ c, picked t C !! t = Some c ∧ state c = thread_running ∧ time_slice c = TIME_SLICE.
Proof. intros [c E]. eexists. unfold picked. by rewrite !lookup_alter_eq, E. Qed.

Lemma charged_lookup o n c C t : is_Some (C !! t) → is_Some (charged o n c C !! t).
Proof. intros H. unfold charged. case_bool_decide; by rewrite ?lookup_alter_is_Some. Qed.

(** One tick moves on to the next thread of the list. *)
Lemma tick_turn s t rs bs C :
  kernel_vma_byte ≤ switch_return → turn s (t :: rs) bs C →
  ∃ s' C', tick s = Ret tt s' ∧ turn s' (rs ++ [t]) bs C' ∧ current s' = t.
Proof.
  intros Hv H. pose proof (turn_ready _ _ _ _ H) as Hrd. destruct H as [H Hl (c & Ec & Hst & Hsl) Htk Hlk Hf Hcan].
  set (s0 := set_ticks (ticks_since_boot s + 1) s). pose proof (elapsed_tick s Htk) as He. fold s0 in He.
  assert (H0 : rep s0 (t :: rs) bs C) by (by destruct H).
  assert (Hrd0 : ready 2 s0) by (by destruct Hrd).
  assert (Hex : state c = thread_running → u32 (time_slice c - elapsed s0) = 0) by (intros _; by rewrite He, Hsl).
  destruct (rep_in _ _ _ _ (current s) H) as [Hz _]; [left; by apply last_Some_elem_of in Hl|].
  destruct (Hcan t) as (ct & Et & _ & Hve & Hwe); [by left|].
  unfold tick. rewrite bind_modify. fold s0.
  assert (Hp : ∀ q, q ∈ rs ++ [t] → can_run (picked t (charged (current s0) (elapsed s0) c C)) q).
  { intros q Hq. apply can_run_picked, Hcan. mem. }
  assert (Hrun := picked_running t (charged (current s0) (elapsed s0) c C) (charged_lookup _ _ _ _ t (ex_intro _ ct Et))).
  destruct (decide (t = current s)) as [->|Hne].
  - destruct (yield_pick_self 2 s0 rs bs C c) as (s' & E' & H' & R'); [done..|].
    assert (Ecur : current s' = current s) by (by apply rest_current in R').
    exists s', (picked (current s) (charged (current s0) (elapsed s0) c C)). split; [done|]. split; [|done].
    split; [done|by rewrite last_snoc, Ecur|by rewrite Ecur| | | |done].
    + by rewrite (rest_last _ _ R'), (rest_ticks _ _ R').
    + by rewrite (rest_lock _ _ R').
    + unfold flags_word. simpl. rewrite (rest_eflags _ _ R'). by apply clearbit_word.
  - destruct (yield_pick 2 s0 t rs bs C c ct) as (s' & E' & H' & R'); [done..|].
    assert (Ecur : current s' = t) by (by apply rest_current in R').
    eexists s', _. split; [done|]. split; [|done].
    split; [done|by rewrite last_snoc, Ecur| | | | |].
    + rewrite Ecur, lookup_alter_ne by done. done.
    + by rewrite (rest_last _ _ R'), (rest_ticks _ _ R').
    + by rewrite (rest_lock _ _ R').
    + unfold flags_word. simpl. by rewrite (rest_eflags _ _ R').
    + intros q Hq. apply can_run_saved; [done..|auto].
Qed.

Lemma ticks_turn rs1 s rs2 bs C :
  kernel_vma_byte ≤ switch_return → turn s (rs1 ++ rs2) bs C →
  ∃ s' C', ticks (length rs1) s = Ret rs1 s' ∧ turn s' (rs2 ++ rs1) bs C'.
Proof.
  intros Hv. revert s rs2 C. induction rs1 as [|t rs1 IH]; intros s rs2 C H.
  - exists s, C. by rewrite app_nil_r.
  - destruct (tick_turn s t (rs1 ++ rs2) bs C Hv H) as (s1 & C1 & E1 & H1 & Ec).
    rewrite <- app_assoc in H1. destruct (IH s1 (rs2 ++ [t]) C1 H1) as (s2 & C2 & E2 & H2).
    exists s2, C2. cbn [length ticks]. step E1. rewrite bind_get. step E2. rewrite Ec. split; [done|].
    by rewrite <- app_assoc in H2.
Qed.

(** C7: the scheduler is fair.  From a state in which the running thread
    has just been given its slice and the others wait in the list, as many
    timer ticks as there are runnable threads give the processor to each of
    them once, in the order of the list, and lead to the same situation
    again; no thread that can run waits longer than one such round. *)
Theorem scheduler_round_robin s rs bs C :
  kernel_vma_byte ≤ switch_return → turn s rs bs C →
  ∃ s' C', ticks (length rs) s = Ret rs s' ∧ turn s' rs bs C'.
Proof.
  intros Hv H. destruct (ticks_turn rs s [] bs C Hv) as (s' & C' & E & H'); [by rewrite app_nil_r|]. by exists s', C'.
Qed.
End YieldSpec.

(** Two threads that share the processor: [T1] runs, [T2] waits. *)
Module TwoThreads.
Definition T1 : Z := 4096.
Definition T2 : Z := 8192.

Definition mk (n p i : Z) (x : thread_state) : thread :=
  Thread 0 n p 0 0 "worker" i (Context 3222281500 514 [FBody [] []]) 0 (16384 * i) 4096 4096 0 x 0 TIME_SLICE.

Definition heap : gmap Z thread := <[T1 := mk 0 T2 1 thread_running]> {[T2 := mk T1 T1 2 thread_runnable]}.

Definition start : sys := Sys heap ∅ T2 0 (Spinlock 0 0) 7 7 T1 0 0 514 [FBody [] []].

Lemma two_rep : rep start [T2; T1] [] (cores heap).
Proof.
  split; [| |by intros t _ ?%elem_of_nil|done].
  - split; [done|]. split; [|split].
    + repeat (eexists; split; [reflexivity|]; split; [reflexivity|]; split; [reflexivity|]). done.
    + apply (bool_decide_unpack _). by vm_compute.
    + apply (bool_decide_unpack _). by vm_compute.
  - split; [done|]. split; [done|]. split; [apply NoDup_nil_2|apply not_elem_of_nil].
Qed.

Lemma two_turn : turn 83 start [T2; T1] [] (cores heap).
Proof.
  split; [exact two_rep|done| |done|done|done|].
  - eexists. split; [reflexivity|]. by split.
  - intros t Ht. repeat (apply elem_of_cons in Ht as [->|Ht]; [eexists; split; [reflexivity|]; done|]).
    by apply elem_of_nil in Ht.
Qed.

Lemma scheduler_round_robin_witness :
  ∃ s' C', ticks 83 3222281000 2 start = Ret [T2; T1] s' ∧ turn 83 s' [T2; T1] [] C'.
Proof. exact (scheduler_round_robin 83 3222281000 start _ _ _ ltac:(lia) two_turn). Defined.
End TwoThreads.
