(* ===== verification/Mutex.v ===== *)
(** * kern/mutex.c, and the machine that runs threads

    The operations of a mutex and [scheduler_wait_object_acquire], cut where
    interrupts can come in between: each piece is the action of one [frame],
    so that a thread inside [mutex_acquire] can be preempted wherever the code
    can.  [step] runs the topmost frame of the processor; [interrupt] is what
    the interrupt path does when it finds interrupts enabled. *)

From stdpp Require Import base numbers list gmap strings fin_maps.
From S2P Require Import Prelude UtList Registers Sync Dlist Thread Scheduler.

(** ** Operations *)

Definition on_mutexes {A} (x : M (gmap Z mutex) A) : M sys A := zoom mutexes set_mutexes x.
Definition load_mutex (m : Z) : M sys mutex := on_mutexes (load m).
Definition update_mutex (m : Z) (f : mutex → mutex) : M sys unit := on_mutexes (update m f).

Definition set_m_owner (o : Z) (x : mutex) : mutex := Mutex o (m_nested x) (waiting_threads x) (waiting_threads_lock x).
Definition set_m_nested (n : Z) (x : mutex) : mutex := Mutex (m_owner x) n (waiting_threads x) (waiting_threads_lock x).
Definition set_waiting (w : Z) (x : mutex) : mutex := Mutex (m_owner x) (m_nested x) w (waiting_threads_lock x).
Definition set_waiting_lock (l : spinlock) (x : mutex) : mutex := Mutex (m_owner x) (m_nested x) (waiting_threads x) l.

Definition waiting_lock_in (m : Z) : lock_in sys :=
  LockIn sys (λ s, waiting_threads_lock <$> mutexes s !! m)
    (λ l s, set_mutexes (alter (set_waiting_lock l) m (mutexes s)) s).

Definition mutex_init (m : Z) : M sys unit := update_mutex m (λ _, Mutex 0 0 0 (Spinlock 0 0)).

Definition mutex_destroy (m : Z) : M sys unit := mret tt.

(** [__sync_val_compare_and_swap(&m->owner, 0, me)] *)
Definition cas_mutex (m me : Z) : M sys Z :=
  x ← load_mutex m;
  (if m_owner x =? 0 then update_mutex m (set_m_owner me) else mret tt);;
  mret (m_owner x).

Definition mutex_trylock (m : Z) : M sys bool :=
  s ← get;
  assert (negb (current s =? NULL)) "me";;
  me ← load_thread (current s);
  seen ← cas_mutex m (tid me);
  if seen =? tid me then update_mutex m (λ x, set_m_nested (u32 (m_nested x + 1)) x);; mret true
  else mret false.

(** Up to the first point where the thread can be preempted; the rest is frames. *)
Definition mutex_acquire (m : Z) : M sys unit :=
  s ← get;
  assert (negb (current s =? NULL)) "me";;
  me ← load_thread (current s);
  seen ← cas_mutex m (tid me);
  push (FNest m);;
  if negb (seen =? tid me) then push (FUnobserve m);; push (FWait m);; push (FObserve m) else mret tt.

Definition mutex_release (m : Z) : M sys unit :=
  update_mutex m (λ x, set_m_nested (u32 (m_nested x - 1)) x);;
  push (FTest m).

Definition mutex_release_and_wake_next_thread (m : Z) : M sys unit :=
  flags ← spinlock_acquire (waiting_lock_in m);
  x ← load_mutex m;
  let next_thread := waiting_threads x in
  (if negb (next_thread =? NULL) then
     n ← load_thread next_thread;
     update_mutex m (set_m_owner (tid n));;
     scheduler_make_runnable next_thread
   else update_mutex m (set_m_owner 0));;
  spinlock_release (waiting_lock_in m) flags.

Definition mutex_add_observer (m t : Z) : M sys unit :=
  th ← load_thread t;
  assert (wait_queue_next th =? 0) "t->wait_queue_next == 0";;
  flags ← spinlock_acquire (waiting_lock_in m);
  x ← load_mutex m;
  head ← on_threads (DL_APPEND wait_links (waiting_threads x) t);
  update_mutex m (set_waiting head);;
  spinlock_release (waiting_lock_in m) flags.

Definition mutex_remove_observer (m t : Z) : M sys unit :=
  flags ← spinlock_acquire (waiting_lock_in m);
  x ← load_mutex m;
  head ← on_threads (DL_DELETE wait_links (waiting_threads x) t);
  update_mutex m (set_waiting head);;
  update_thread t (set_wait_links 0 0);;
  spinlock_release (waiting_lock_in m) flags.

(** The lines printed are left out. *)
Definition mutex_print_info (m : Z) : M sys nat :=
  flags ← spinlock_acquire (waiting_lock_in m);
  x ← load_mutex m;
  elts ← on_threads (fuel ← fuel_of_heap; dl_foreach wait_links fuel (waiting_threads x));
  spinlock_release (waiting_lock_in m) flags;;
  mret (length elts).

Section Machine.
Variables kernel_vma_byte switch_return : Z.
Notation process_context_switch := (process_context_switch kernel_vma_byte switch_return).
Notation scheduler_yield := (scheduler_yield kernel_vma_byte switch_return).

(** One round of the loop in [scheduler_wait_object_acquire], the scheduler's lock held. *)
Definition wait_round (m value flags1 flags2 : Z) : M sys unit :=
  seen ← cas_mutex m value;
  if negb (seen =? value) then
    s ← get;
    scheduler_make_blocked (current s);;
    next_thread ← scheduler_next_thread;
    assert (negb (next_thread =? NULL)) "next_thread";;
    scheduler_unlock flags2;;
    push (FWaiting m value flags1);;
    process_context_switch next_thread
  else
    scheduler_unlock flags2;;
    interrupts_leave_cli flags1.

Definition scheduler_wait_object_acquire (m value : Z) : M sys unit :=
  flags1 ← interrupts_enter_cli;
  flags2 ← scheduler_lock;
  wait_round m value flags1 flags2.

Definition thread_entry_point (t : Z) (ops loop : list op) : M sys unit :=
  s ← get;
  if negb (current s =? t) then panic "thread is not current thread"
  else
    i ← flags_register_is_set flags_if_bit;
    assert (Bool.eqb false i) "false == flags_register_is_set(flags_if_bit)";;
    interrupts_enable;;
    push (FBody ops loop).

Definition run_op (o : op) : M sys unit :=
  match o with
  | OAcquire m => mutex_acquire m
  | ORelease m => mutex_release m
  | OYield => scheduler_yield
  | OBlock => scheduler_block kernel_vma_byte switch_return
  | OSleep => current_thread_sleep
  end.

(** What the topmost frame does when control returns to it. *)
Definition resume (f : frame) : M sys unit :=
  match f with
  | FEntry t ops loop => thread_entry_point t ops loop
  | FBody (o :: ops) loop => push (FBody ops loop);; run_op o
  | FBody [] [] => s ← get; thread_exit kernel_vma_byte switch_return (current s) 0
  | FBody [] loop => push (FBody loop loop)
  | FExit => panic "scheduler_yield returned control to dead thread"
  | FCallYield => scheduler_yield
  | FYield flags1 => interrupts_leave_cli flags1
  | FBlock flags1 => interrupts_leave_cli flags1
  | FObserve m => s ← get; mutex_add_observer m (current s)
  | FWait m => s ← get; me ← load_thread (current s); scheduler_wait_object_acquire m (tid me)
  | FWaiting m value flags1 => flags2 ← scheduler_lock; wait_round m value flags1 flags2
  | FUnobserve m => s ← get; mutex_remove_observer m (current s)
  | FNest m => update_mutex m (λ x, set_m_nested (u32 (m_nested x + 1)) x)
  | FTest m => x ← load_mutex m; if m_nested x =? 0 then push (FWake m) else mret tt
  | FWake m => mutex_release_and_wake_next_thread m
  | FIsr flags => modify (set_eflags flags)
  end.

Definition step : M sys unit :=
  s ← get;
  match cpu_frames s with
  | [] => fault
  | f :: fs => modify (set_cpu (cpu_eflags s) fs);; resume f
  end.

(** An interrupt that comes when none is being served, and [n] ticks by the
    time its handlers are done: the gate clears the interrupt flag, the
    handler sets it again before it yields. *)
Definition interrupt (n : nat) : M sys unit :=
  s ← get;
  if Z.testbit (cpu_eflags s) flags_if_bit then
    push (FIsr (cpu_eflags s));;
    modify (set_ticks (ticks_since_boot s + Z.of_nat n));;
    push FCallYield
  else fault.
End Machine.
