(* ===== verification/MutexSafe.v ===== *)
(** * Mutual exclusion of kern/mutex.c

    Every run of the machine of Mutex.v, whatever the interrupts and wake-ups,
    keeps each mutex with one thread at a time.  The invariant has two parts.
    [sinv] is about the scheduler: the lists, the states of the threads, the
    locks, the saved contexts.  [minv] is about mutexes: each thread is at one
    [phase] of the code for mutexes, read off its frames, which tells whether
    it must own, may own or cannot own each mutex. *)

From stdpp Require Import base numbers list gmap strings fin_maps functions.
From S2P Require Import Prelude UtList Registers Sync Dlist Thread Scheduler Mutex.

(** ** The scheduler's part *)

(** Flags saved in frames are 32-bit words. *)
Definition frame_ok (f : frame) : Prop :=
  match f with
  | FYield g | FBlock g | FWaiting _ _ g | FIsr g => 0 ≤ g < W32
  | _ => True
  end.

Section Safe.
Variables kernel_vma_byte switch_return : Z.
Hypothesis return_ok : kernel_vma_byte ≤ switch_return.
#[local] Set Default Proof Using "Type".
Implicit Types (s : sys) (C : gmap Z thread) (t q o : Z) (rs bs : list Z).

Definition ctx_ok (x : context) : Prop :=
  kernel_vma_byte ≤ ctx_eip x ∧ 0 ≤ ctx_eflags x < W32 ∧ Forall frame_ok (ctx_frames x).

Record sinv (s : sys) (rs bs : list Z) (C : gmap Z thread) : Prop := {
  si_rep : rep s rs bs C;
  si_cover : ∀ t, is_Some (C !! t) → t ∈ rs ∨ t ∈ bs;
  si_run : ∀ t c, t ∈ rs → C !! t = Some c → state c ≠ thread_blocked ∧ state c ≠ thread_created;
  si_blk : ∀ t c, t ∈ bs → C !! t = Some c → state c = thread_blocked;
  si_cur : is_Some (C !! current s);
  si_tids : ∀ t c, C !! t = Some c → tid c ≠ 0;
  si_uniq : ∀ t u ct cu, C !! t = Some ct → C !! u = Some cu → tid ct = tid cu → t = u;
  si_lock : sched_lock s = Spinlock 0 0;
  si_flags : 0 ≤ cpu_eflags s < W32;
  si_frames : Forall frame_ok (cpu_frames s);
  si_ctx : ∀ t c, C !! t = Some c → t ≠ current s → ctx_ok (stack_context c)
}.

(** The frames of a thread, wherever they are. *)
Definition frames_of (s : sys) (C : gmap Z thread) (t : Z) : list frame :=
  if decide (t = current s) then cpu_frames s
  else match C !! t with Some c => ctx_frames (stack_context c) | None => [] end.

Definition flags_of (s : sys) (C : gmap Z thread) (t : Z) : Z :=
  if decide (t = current s) then cpu_eflags s
  else match C !! t with Some c => ctx_eflags (stack_context c) | None => 0 end.

(** Frames that do not concern mutexes. *)
Definition neutral (f : frame) : bool :=
  match f with FCallYield | FYield _ | FBlock _ | FIsr _ => true | _ => false end.
Definition strip (fs : list frame) : list frame := filter (λ f, neutral f = false) fs.

Definition wait_part (c : thread) : Z * Z * Z := (tid c, wait_queue_next c, wait_queue_prev c).

(** No thread dies. *)
Definition undead C C' : Prop :=
  ∀ t c', C' !! t = Some c' → state c' = thread_dead → ∃ c, C !! t = Some c ∧ state c = thread_dead.

Lemma undead_refl C : undead C C.
Proof. intros t c E. eauto. Qed.
Lemma undead_trans C1 C2 C3 : undead C1 C2 → undead C2 C3 → undead C1 C3.
Proof. intros A B t c E Hd. destruct (B t c E Hd) as (c2 & E2 & Hd2). eauto. Qed.
Lemma undead_alter f t C : (∀ x, state (f x) = thread_dead → state x = thread_dead) → undead C (alter f t C).
Proof.
  intros Hf q c. destruct (decide (q = t)) as [->|Hne]; [|rewrite lookup_alter_ne by done; eauto].
  rewrite lookup_alter_eq. destruct (C !! t) as [d|]; [|done]. intros [= <-]. eauto.
Qed.
Lemma undead_picked o n c t C : undead C (picked t (charged o n c C)).
Proof.
  unfold picked, charged. eapply undead_trans; [|by apply undead_alter]. eapply undead_trans; [|by apply undead_alter].
  case_bool_decide; [apply (undead_trans _ (alter (spend n) o C))|]; by apply undead_alter.
Qed.

(** What scheduling leaves alone. *)
Record quiet (s : sys) (C : gmap Z thread) (s' : sys) (C' : gmap Z thread) : Prop := {
  q_mutexes : mutexes s' = mutexes s;
  q_wait : ∀ t, wait_part <$> C' !! t = wait_part <$> C !! t;
  q_frames : ∀ t, strip (frames_of s' C' t) = strip (frames_of s C t);
  q_flags : ∀ t, t ≠ current s → flags_of s' C' t = flags_of s C t ∧ frames_of s' C' t = frames_of s C t;
  q_dead : undead C C'
}.

Lemma quiet_refl s C : quiet s C s C.
Proof. split; try done. apply undead_refl. Qed.

Lemma quiet_trans s1 C1 s2 C2 s3 C3 :
  current s2 = current s1 → quiet s1 C1 s2 C2 → quiet s2 C2 s3 C3 → quiet s1 C1 s3 C3.
Proof.
  intros Hc [A1 A2 A3 A4 A5] [B1 B2 B3 B4 B5].
  split; [congruence|intros t; by rewrite B2, A2|intros t; by rewrite B3, A3| |by eapply undead_trans].
  intros t Ht. destruct (A4 t Ht) as [<- <-]. apply B4. congruence.
Qed.

Lemma si_current s rs bs C : sinv s rs bs C → current s ≠ NULL.
Proof.
  intros H. destruct (si_cover _ _ _ _ H (current s) (si_cur _ _ _ _ H)) as [Hr|Hr];
    eapply (rep_in _ _ _ _ (current s) (si_rep _ _ _ _ H)); auto.
Qed.

Lemma si_ready s rs bs C : sinv s rs bs C → ready 16 s.
Proof.
  intros H. destruct (si_cur _ _ _ _ H) as [c E]. split.
  - rewrite (rep_tid _ _ _ _ (si_rep _ _ _ _ H)). unfold tid_of.
    rewrite (proj2 (Z.eqb_neq _ _) (si_current _ _ _ _ H)), E. by eapply si_tids.
  - unfold lock_ok. rewrite (si_lock _ _ _ _ H). simpl. lia.
  - apply (si_flags _ _ _ _ H).
Qed.

(** Updates of [C] that change neither ids nor links nor contexts. *)
Definition mild (f : thread → thread) : Prop :=
  ∀ x, wait_part (f x) = wait_part x ∧ stack_context (f x) = stack_context x.

Lemma mild_wait f t C q : mild f → wait_part <$> alter f t C !! q = wait_part <$> C !! q.
Proof.
  intros Hf. destruct (decide (q = t)) as [->|Hne]; [|by rewrite lookup_alter_ne].
  rewrite lookup_alter_eq. destruct (C !! t) as [c|]; simpl; [|done]. by rewrite (proj1 (Hf c)).
Qed.

Lemma mild_ctx f t (C : gmap Z thread) q : mild f → stack_context <$> alter f t C !! q = stack_context <$> C !! q.
Proof.
  intros Hf. destruct (decide (q = t)) as [->|Hne]; [|by rewrite lookup_alter_ne].
  rewrite lookup_alter_eq. destruct (C !! t) as [c|]; simpl; [|done]. by rewrite (proj2 (Hf c)).
Qed.

(** [C'] is [C] up to states and time slices. *)
Definition alike (C C' : gmap Z thread) : Prop :=
  ∀ q, wait_part <$> C' !! q = wait_part <$> C !! q ∧ stack_context <$> C' !! q = stack_context <$> C !! q.

Lemma alike_refl C : alike C C.
Proof. by intros q. Qed.
Lemma alike_trans C1 C2 C3 : alike C1 C2 → alike C2 C3 → alike C1 C3.
Proof. intros A B q. destruct (A q) as [A1 A2], (B q) as [B1 B2]. split; congruence. Qed.
Lemma alike_alter f t C : mild f → alike C (alter f t C).
Proof. intros Hf q. split; [by apply mild_wait|by apply mild_ctx]. Qed.

Lemma alike_picked o n c t C : alike C (picked t (charged o n c C)).
Proof.
  unfold picked, charged. eapply alike_trans; [|by apply alike_alter]. eapply alike_trans; [|by apply alike_alter].
  case_bool_decide; [eapply alike_trans|]; by apply alike_alter.
Qed.

Lemma alike_lookup C C' q c : alike C C' → C !! q = Some c →
  ∃ c', C' !! q = Some c' ∧ wait_part c' = wait_part c ∧ stack_context c' = stack_context c.
Proof.
  intros H E. destruct (H q) as [A B]. rewrite E in A, B. destruct (C' !! q) as [c'|]; [|done].
  exists c'. split; [done|]. simpl in A, B. split; congruence.
Qed.

Lemma alike_sym C C' : alike C C' → alike C' C.
Proof. intros H q. by destruct (H q). Qed.

Lemma si_states s rs bs C t c :
  sinv s rs bs C → C !! t = Some c → state c ≠ thread_blocked → t ∈ rs.
Proof.
  intros H E Hs. destruct (si_cover _ _ _ _ H t) as [?|Hb]; [eauto|done|].
  by rewrite (si_blk _ _ _ _ H _ _ Hb E) in Hs.
Qed.

Definition run_states rs C : Prop :=
  ∀ t c, t ∈ rs → C !! t = Some c → state c ≠ thread_blocked ∧ state c ≠ thread_created.
Definition blk_states bs C : Prop := ∀ t c, t ∈ bs → C !! t = Some c → state c = thread_blocked.

(** The scheduler's part of the invariant after an operation that keeps the current thread. *)
Lemma sinv_move s rs bs C s' rs' bs' C' :
  sinv s rs bs C → rep s' rs' bs' C' → alike C C' → current s' = current s → sched_lock s' = Spinlock 0 0 →
  0 ≤ cpu_eflags s' < W32 → Forall frame_ok (cpu_frames s') →
  (∀ t, t ∈ rs ∨ t ∈ bs → t ∈ rs' ∨ t ∈ bs') → run_states rs' C' → blk_states bs' C' →
  sinv s' rs' bs' C'.
Proof.
  intros H Hr Ha Hc Hl Hf Hfs Hcov Hrun Hblk.
  assert (Hb : ∀ t c', C' !! t = Some c' → ∃ c, C !! t = Some c ∧ tid c' = tid c ∧ stack_context c' = stack_context c).
  { intros t c' E. destruct (alike_lookup _ _ _ _ (alike_sym _ _ Ha) E) as (c & Ec & Hw & Hx). exists c.
    unfold wait_part in Hw. by simplify_eq/=. }
  split; try done.
  - intros t [c' E]. apply Hcov. destruct (Hb _ _ E) as (c & Ec & _). eapply si_cover; eauto.
  - rewrite Hc. destruct (si_cur _ _ _ _ H) as [c E]. destruct (alike_lookup _ _ _ _ Ha E) as (c' & -> & _). eauto.
  - intros t c' E. destruct (Hb _ _ E) as (c & Ec & -> & _). by eapply si_tids.
  - intros t u ct cu E1 E2 He. destruct (Hb _ _ E1) as (c1 & Ec1 & Ht1 & _), (Hb _ _ E2) as (c2 & Ec2 & Ht2 & _).
    eapply si_uniq; [exact H|exact Ec1|exact Ec2|congruence].
  - intros t c' E Hne. destruct (Hb _ _ E) as (c & Ec & _ & ->). eapply si_ctx; [exact H|done|congruence].
Qed.

(** States after a choice. *)
Lemma state_charged o n c C q d :
  C !! o = Some c → charged o n c C !! q = Some d →
  ∃ d0, C !! q = Some d0 ∧ state d = (if decide (q = o ∧ state c = thread_running) then thread_runnable else state d0).
Proof.
  intros Eo. unfold charged. destruct (decide (q = o)) as [->|Hne].
  - case_bool_decide as Hs; rewrite !lookup_alter_eq, Eo; intros [= <-]; exists c; (split; [done|]);
      [rewrite decide_True by done|rewrite decide_False by tauto]; done.
  - case_bool_decide; rewrite !lookup_alter_ne by done; intros E; exists d; (split; [done|]);
      by rewrite decide_False by tauto.
Qed.

Lemma state_picked o n c C t q d :
  C !! o = Some c → picked t (charged o n c C) !! q = Some d →
  ∃ d0, C !! q = Some d0 ∧
    state d = (if decide (q = t) then thread_running
               else if decide (q = o ∧ state c = thread_running) then thread_runnable else state d0).
Proof.
  intros Eo. unfold picked. destruct (decide (q = t)) as [->|Hne].
  - rewrite !lookup_alter_eq. destruct (charged o n c C !! t) as [d1|] eqn:E1; [|done].
    destruct (state_charged _ _ _ _ _ _ Eo E1) as (d0 & E0 & _). intros [= <-]. eauto.
  - rewrite !lookup_alter_ne by done. by apply state_charged.
Qed.

Lemma picked_states o n c C t rs bs :
  C !! o = Some c → run_states (t :: rs) C → blk_states bs C → (∀ q, q ∈ t :: rs → q ∉ bs) →
  run_states (rs ++ [t]) (picked t (charged o n c C)) ∧ blk_states bs (picked t (charged o n c C)).
Proof.
  intros Eo Hr Hb Hd. split.
  - intros q d Hq E. destruct (state_picked _ _ _ _ _ _ _ Eo E) as (d0 & E0 & ->).
    destruct (decide (q = t)); [done|]. destruct (decide (q = o ∧ _)); [done|].
    apply (Hr q); [mem|done].
  - intros q d Hq E. destruct (state_picked _ _ _ _ _ _ _ Eo E) as (d0 & E0 & ->).
    rewrite decide_False by (intros ->; by apply (Hd t); [left|]).
    rewrite decide_False; [by eapply Hb|]. intros [-> Hs]. simplify_eq. rewrite (Hb _ _ Hq Eo) in Hs. done.
Qed.

(** The current thread, [current s], stops with context [x] and [t] goes on. *)
Lemma sinv_switch s rs bs C s' rs' bs' C1 x t ct :
  sinv s rs bs C → alike C C1 → rep s' rs' bs' (alter (set_context x) (current s) C1) →
  t ≠ current s → C !! t = Some ct → current s' = t → sched_lock s' = Spinlock 0 0 →
  cpu_eflags s' = ctx_eflags (stack_context ct) → cpu_frames s' = ctx_frames (stack_context ct) → ctx_ok x →
  (∀ t, t ∈ rs ∨ t ∈ bs → t ∈ rs' ∨ t ∈ bs') → run_states rs' C1 → blk_states bs' C1 →
  sinv s' rs' bs' (alter (set_context x) (current s) C1).
Proof.
  intros H Ha Hr Hne Et Hc Hl Hf Hfs Hx Hcov Hrun Hblk.
  set (C' := alter (set_context x) (current s) C1) in *.
  assert (Hb : ∀ q c', C' !! q = Some c' → ∃ c c1, C !! q = Some c ∧ C1 !! q = Some c1 ∧ tid c' = tid c ∧
    state c' = state c1 ∧ stack_context c' = if decide (q = current s) then x else stack_context c).
  { intros q c' E. unfold C' in E. destruct (C1 !! q) as [c1|] eqn:E1.
    2:{ destruct (decide (q = current s)) as [->|Hq]; [by rewrite lookup_alter_eq, E1 in E|].
        by rewrite lookup_alter_ne, E1 in E. }
    destruct (alike_lookup _ _ _ _ (alike_sym _ _ Ha) E1) as (c & Ec & Hw & Hs). exists c, c1.
    assert (tid c1 = tid c) by (unfold wait_part in Hw; congruence).
    destruct (decide (q = current s)) as [->|Hq].
    - rewrite lookup_alter_eq, E1 in E. by simplify_eq/=.
    - rewrite lookup_alter_ne, E1 in E by done. by simplify_eq/=. }
  destruct (si_ctx _ _ _ _ H t ct Et Hne) as (Hv & Hw & Hfo).
  split; rewrite ?Hf, ?Hfs; try done.
  - intros q [c' E]. apply Hcov. destruct (Hb _ _ E) as (c & _ & Ec & _). eapply si_cover; eauto.
  - intros q c' Hq E. destruct (Hb _ _ E) as (c & c1 & _ & E1 & _ & -> & _). eauto.
  - intros q c' Hq E. destruct (Hb _ _ E) as (c & c1 & _ & E1 & _ & -> & _). eauto.
  - rewrite Hc. unfold C'. rewrite lookup_alter_ne by done. destruct (alike_lookup _ _ _ _ Ha Et) as (? & -> & _). eauto.
  - intros q c' E. destruct (Hb _ _ E) as (c & c1 & Ec & _ & -> & _). by eapply si_tids.
  - intros q u cq cu E1 E2 He. destruct (Hb _ _ E1) as (a & _ & Ea & _ & Ta & _), (Hb _ _ E2) as (b & _ & Eb & _ & Tb & _).
    eapply si_uniq; [exact H|exact Ea|exact Eb|congruence].
  - intros q c' E Hq. destruct (Hb _ _ E) as (c & c1 & Ec & _ & _ & _ & ->).
    destruct (decide (q = current s)); [done|]. by eapply si_ctx.
Qed.

Lemma quiet_switch s C s' C1 x t ct :
  alike C C1 → undead C C1 → is_Some (C !! current s) → t ≠ current s → C !! t = Some ct → current s' = t → mutexes s' = mutexes s →
  cpu_frames s' = ctx_frames (stack_context ct) → cpu_eflags s' = ctx_eflags (stack_context ct) →
  strip (ctx_frames x) = strip (cpu_frames s) →
  quiet s C s' (alter (set_context x) (current s) C1).
Proof.
  intros Ha Hu [c Hcur] Hne Et Hc Hm Hfs Hfl Hx. split; [done| | | |].
  - intros q. rewrite <- (proj1 (Ha q)). destruct (decide (q = current s)) as [->|Hq].
    + rewrite lookup_alter_eq. by destruct (C1 !! current s).
    + by rewrite lookup_alter_ne.
  - intros q. unfold frames_of. rewrite Hc. destruct (decide (q = t)) as [->|Hq].
    + rewrite decide_False by done. by rewrite Et, Hfs.
    + destruct (decide (q = current s)) as [->|Hq'].
      * rewrite lookup_alter_eq. destruct (alike_lookup _ _ _ _ Ha Hcur) as (c1 & -> & _). done.
      * rewrite lookup_alter_ne by done. destruct (Ha q) as [_ E]. destruct (C !! q), (C1 !! q); simplify_eq/=; congruence.
  - intros q Hq. unfold flags_of, frames_of. rewrite Hc, !(decide_False (P := q = current s)) by done.
    destruct (decide (q = t)) as [->|Hqt]; [by rewrite Et, Hfl, Hfs|]. rewrite lookup_alter_ne by done.
    destruct (Ha q) as [_ E]. destruct (C !! q), (C1 !! q); simplify_eq/=; split; congruence.
  - eapply undead_trans; [exact Hu|by apply undead_alter].
Qed.

(** The current thread goes on. *)
Lemma quiet_stay s C s' C' :
  alike C C' → undead C C' → current s' = current s → mutexes s' = mutexes s →
  strip (cpu_frames s') = strip (cpu_frames s) → quiet s C s' C'.
Proof.
  intros Ha Hu Hc Hm Hfs. split; [done|intros q; apply Ha| | |done].
  - intros q. unfold frames_of. rewrite Hc.
    destruct (decide _); [done|]. destruct (Ha q) as [_ E]. destruct (C !! q), (C' !! q); simplify_eq/=; congruence.
  - intros q Hq. unfold flags_of, frames_of. rewrite Hc, !decide_False by done.
    destruct (Ha q) as [_ E]. destruct (C !! q), (C' !! q); simplify_eq/=; split; congruence.
Qed.

Notation scheduler_yield := (scheduler_yield kernel_vma_byte switch_return).

Lemma yield_none s bs C c :
  sinv s [] bs C → C !! current s = Some c → (state c = thread_running → u32 (time_slice c - elapsed s) = 0) →
  scheduler_yield s = Panic "no next thread available".
Proof.
  intros H E Hx. unfold Scheduler.scheduler_yield. step (enter_cli_ok s). set (s1 := set_eflags _ s).
  pose proof (si_ready _ _ _ _ H) as Hrd. pose proof (si_rep _ _ _ _ H) as Hr.
  assert (H1 : rep s1 [] bs C) by (by destruct Hr).
  assert (Hrd1 : ready 16 s1). { destruct Hrd as [B1 B2 B3]. split; [done|done|]. by apply clearbit_word. }
  destruct (lock_spec 16 s1 [] bs C H1 Hrd1 ltac:(lia)) as (E2 & H2 & Hrd2). step E2.
  unfold mbind, M_bind. rewrite (next_thread_none (16 - 1) (locked s1) bs C c);
    [done|exact H2|exact Hrd2|lia|exact (si_current _ _ _ _ H)|exact E|exact Hx].
Qed.

Lemma chosen_frames s : Forall frame_ok (cpu_frames s) → 0 ≤ cpu_eflags s < W32 →
  Forall frame_ok (cpu_frames (chosen s)) ∧ 0 ≤ cpu_eflags (chosen s) < W32.
Proof. intros Hf Hw. split; [by constructor|by apply clearbit_word]. Qed.

Lemma rest_frames s s' : rest s' = rest s → cpu_frames s' = cpu_frames s.
Proof. intros E. by apply (f_equal cpu_frames) in E. Qed.
Lemma rest_mutexes s s' : rest s' = rest s → mutexes s' = mutexes s.
Proof. intros E. by apply (f_equal mutexes) in E. Qed.

(** After a yield that leaves the current thread where it is. *)
Lemma yield_stay s rs bs C s' rs' C' :
  sinv s rs bs C → rep s' rs' bs C' → alike C C' → undead C C' → rest s' = rest (chosen s) →
  (∀ t, t ∈ rs → t ∈ rs') → run_states rs' C' → blk_states bs C' →
  sinv s' rs' bs C' ∧ quiet s C s' C'.
Proof.
  intros H Hr Ha Hu R Hin Hrun Hblk.
  destruct (chosen_frames s (si_frames _ _ _ _ H) (si_flags _ _ _ _ H)) as [Hf Hw]. split.
  - eapply sinv_move; [exact H|done|done| | | | | |done|done].
    + by rewrite (rest_current _ _ R).
    + rewrite (rest_lock _ _ R). exact (si_lock _ _ _ _ H).
    + by rewrite (rest_eflags _ _ R).
    + by rewrite (rest_frames _ _ R).
    + intros t [?|?]; auto.
  - apply quiet_stay; [done|done|by rewrite (rest_current _ _ R)|by rewrite (rest_mutexes _ _ R)|by rewrite (rest_frames _ _ R)].
Qed.

Definition now_running s C : Prop := ∃ c, C !! current s = Some c ∧ state c = thread_running.

Lemma alike_spend n t C : alike C (alter (spend n) t C).
Proof. by apply alike_alter. Qed.

Lemma saved_ok s rs bs C : kernel_vma_byte ≤ switch_return → sinv s rs bs C → ctx_ok (saved switch_return s).
Proof.
  intros Hv H. split; [done|]. destruct (chosen_frames s (si_frames _ _ _ _ H) (si_flags _ _ _ _ H)) as [Hf Hw]. done.
Qed.

Lemma states_alter f t C rs bs :
  (∀ x, state (f x) = state x) → run_states rs C → blk_states bs C →
  run_states rs (alter f t C) ∧ blk_states bs (alter f t C).
Proof.
  intros Hf Hr Hb.
  assert (E : ∀ q d, alter f t C !! q = Some d → ∃ d0, C !! q = Some d0 ∧ state d = state d0).
  { intros q d. destruct (decide (q = t)) as [->|Hne]; [|rewrite lookup_alter_ne by done; eauto].
    rewrite lookup_alter_eq. destruct (C !! t) as [d0|]; [|done]. intros [= <-]. eauto. }
  split; intros q d Hq Ed; destruct (E _ _ Ed) as (d0 & E0 & ->); eauto.
Qed.

Lemma yield_sinv s rs bs C :
  sinv s rs bs C →
  scheduler_yield s = Panic "no next thread available" ∨
  ∃ s' rs' C', scheduler_yield s = Ret tt s' ∧ sinv s' rs' bs C' ∧ quiet s C s' C' ∧ now_running s' C'.
Proof using return_ok.
  intros H. destruct (si_cur _ _ _ _ H) as [c E]. pose proof (si_rep _ _ _ _ H) as Hr.
  pose proof (si_ready _ _ _ _ H) as Hrd. pose proof (si_current _ _ _ _ H) as Hz.
  assert (Hd : (state c = thread_running ∧ 0 < u32 (time_slice c - elapsed s)) ∨
    (state c = thread_running → u32 (time_slice c - elapsed s) = 0)).
  { pose proof (u32_range (time_slice c - elapsed s)). destruct (decide (state c = thread_running)); [|tauto].
    destruct (decide (u32 (time_slice c - elapsed s) = 0)); [tauto|left; split; [done|lia]]. }
  destruct Hd as [[Hs Hsl]|Hsl].
  { right. destruct (yield_keep kernel_vma_byte switch_return 16 s rs bs C c) as (s' & E' & H' & R'); [done..|].
    destruct (states_alter (spend (elapsed s)) (current s) C rs bs) as [Hrun Hblk];
      [done|exact (si_run _ _ _ _ H)|exact (si_blk _ _ _ _ H)|].
    destruct (yield_stay s rs bs C s' rs _ H H' (alike_spend _ _ _) ltac:(by apply undead_alter) R') as [H1 Q1]; [done..|].
    eexists s', rs, _. split; [done|]. split; [done|]. split; [done|].
    exists (spend (elapsed s) c). rewrite (rest_current _ _ R'). simpl. by rewrite lookup_alter_eq, E. }
  destruct rs as [|t rs]; [left; by eapply yield_none|right].
  destruct (picked_states (current s) (elapsed s) c C t rs bs) as [Hrun Hblk];
    [done|exact (si_run _ _ _ _ H)|exact (si_blk _ _ _ _ H)|exact (rep_disj _ _ _ _ Hr)|].
  destruct (rep_in _ _ _ _ t Hr) as (_ & ct & Et); [left; by left|].
  pose proof (picked_running t (charged (current s) (elapsed s) c C)
    (charged_lookup _ _ _ _ t (ex_intro _ ct Et))) as (cr & Ecr & Hcr & _).
  destruct (decide (t = current s)) as [->|Hne].
  - destruct (yield_pick_self kernel_vma_byte switch_return 16 s rs bs C c) as (s' & E' & H' & R'); [done..|].
    destruct (yield_stay s _ bs C s' _ _ H H' (alike_picked _ _ _ _ _) (undead_picked _ _ _ _ _) R') as [H1 Q1]; [mem|done..|].
    eexists s', _, _. split; [done|]. split; [done|]. split; [done|].
    exists cr. by rewrite (rest_current _ _ R').
  - destruct (si_ctx _ _ _ _ H t ct Et Hne) as (Hv & _).
    destruct (yield_pick kernel_vma_byte switch_return 16 s t rs bs C c ct) as (s' & E' & H' & R'); [done..|].
    pose proof (alike_picked (current s) (elapsed s) c t C) as Ha.
    assert (Hc : current s' = t) by by rewrite (rest_current _ _ R').
    assert (Hf : cpu_frames s' = ctx_frames (stack_context ct)) by by rewrite (rest_frames _ _ R').
    eexists s', _, _. split; [done|]. split; [|split].
    + eapply sinv_switch; [exact H|exact Ha|exact H'|exact Hne|exact Et|done| | |done| | |done|done].
      * rewrite (rest_lock _ _ R'). exact (si_lock _ _ _ _ H).
      * by rewrite (rest_eflags _ _ R').
      * by eapply saved_ok.
      * mem.
    + eapply quiet_switch; [exact Ha|apply undead_picked|done|exact Hne|exact Et|done| |done| |done].
      * by rewrite (rest_mutexes _ _ R').
      * by rewrite (rest_eflags _ _ R').
    + exists cr. rewrite Hc, lookup_alter_ne by done. done.
Qed.

(** *** Blocking and waking *)

Lemma si_removed s rs bs C t c :
  sinv s rs bs C → C !! t = Some c → state c ≠ thread_dead →
  ∃ rs' bs', removed t c rs bs rs' bs' ∧ (∀ q, q ∈ rs ∨ q ∈ bs → q = t ∨ q ∈ rs' ∨ q ∈ bs') ∧
    (∀ q, q ∈ rs' → q ∈ rs ∧ q ≠ t) ∧ (∀ q, q ∈ bs' → q ∈ bs ∧ q ≠ t) ∧ (state c ≠ thread_blocked → bs' = bs).
Proof.
  intros H E Hd. destruct (rep_NoDup _ _ _ _ (si_rep _ _ _ _ H)) as [Nr Nb].
  pose proof (rep_disj _ _ _ _ (si_rep _ _ _ _ H)) as Hdisj.
  destruct (si_cover _ _ _ _ H t) as [Hr|Hb]; [eauto| |].
  - destruct (si_run _ _ _ _ H t c Hr E) as [H1 H2]. destruct (list_elem_of_split _ _ Hr) as (r1 & r2 & ->).
    destruct (NoDup_split _ _ _ Nr) as (N1 & N2 & _).
    exists (r1 ++ r2), bs. split; [left; split; [destruct (state c); tauto|]; split; eauto|]. split; [mem|].
    split; [|split; [|done]].
    + intros q Hq. split; [mem|]. intros ->. apply elem_of_app in Hq. tauto.
    + intros q Hq. split; [done|]. intros ->. by apply (Hdisj t).
  - pose proof (si_blk _ _ _ _ H t c Hb E) as Hs. destruct (list_elem_of_split _ _ Hb) as (b1 & b2 & ->).
    destruct (NoDup_split _ _ _ Nb) as (N1 & N2 & _).
    exists rs, (b1 ++ b2). split; [right; split; [done|]; split; eauto|]. split; [mem|].
    split; [|split; [|done]].
    + intros q Hq. split; [done|]. intros ->. by apply (Hdisj t).
    + intros q Hq. split; [mem|]. intros ->. apply elem_of_app in Hq. tauto.
Qed.

(** Setting the state of a thread that moves to another list. *)
Lemma state_alter_set x t C q d :
  alter (set_state x) t C !! q = Some d → (q = t ∧ state d = x) ∨ (q ≠ t ∧ C !! q = Some d).
Proof.
  destruct (decide (q = t)) as [->|Hne]; [|rewrite lookup_alter_ne by done; auto].
  rewrite lookup_alter_eq. destruct (C !! t); [|done]. intros [= <-]. auto.
Qed.

Lemma make_blocked_sinv s rs bs C c :
  sinv s rs bs C → C !! current s = Some c → state c ≠ thread_blocked → state c ≠ thread_dead →
  ∃ rs', removed (current s) c rs bs rs' bs ∧ (∀ q, q ∈ rs ∨ q ∈ bs → q ∈ rs' ∨ q ∈ bs ++ [current s]) ∧
    run_states rs' (alter (set_state thread_blocked) (current s) C) ∧
    blk_states (bs ++ [current s]) (alter (set_state thread_blocked) (current s) C).
Proof.
  intros H E Hb Hd. destruct (si_removed _ _ _ _ _ _ H E Hd) as (rs' & bs' & Hrm & Hcov & Hr & Hbl & Hbs).
  rewrite (Hbs Hb) in *. exists rs'. split; [done|]. split.
  { intros q Hq. rewrite elem_of_app, list_elem_of_singleton. destruct (Hcov q Hq) as [->|[?|?]]; auto. }
  split.
  - intros q d Hq Ed. destruct (Hr q Hq) as [Hq1 Hq2].
    destruct (state_alter_set _ _ _ _ _ Ed) as [[? _]|[_ Ed']]; [done|]. by eapply si_run.
  - intros q d Hq Ed. destruct (state_alter_set _ _ _ _ _ Ed) as [[_ ?]|[Hne Ed']]; [done|].
    apply elem_of_app in Hq as [Hq| ->%list_elem_of_singleton]; [by eapply si_blk|done].
Qed.

Lemma quiet_rest s C s' C' : alike C C' → undead C C' → rest s' = rest s → quiet s C s' C'.
Proof.
  intros Ha Hu R. apply quiet_stay; [done|done|by apply rest_current|by apply rest_mutexes|by rewrite (rest_frames _ _ R)].
Qed.

Lemma sinv_rest s rs bs C s' rs' bs' C' :
  sinv s rs bs C → rep s' rs' bs' C' → alike C C' → rest s' = rest s →
  (∀ t, t ∈ rs ∨ t ∈ bs → t ∈ rs' ∨ t ∈ bs') → run_states rs' C' → blk_states bs' C' → sinv s' rs' bs' C'.
Proof.
  intros H Hr Ha R Hcov Hrun Hblk. eapply sinv_move; [exact H|done|done|by apply rest_current| | | |done..].
  - rewrite (rest_lock _ _ R). exact (si_lock _ _ _ _ H).
  - rewrite (rest_eflags _ _ R). exact (si_flags _ _ _ _ H).
  - rewrite (rest_frames _ _ R). exact (si_frames _ _ _ _ H).
Qed.

Lemma block_current s rs bs C c :
  sinv s rs bs C → C !! current s = Some c → state c ≠ thread_blocked → state c ≠ thread_dead →
  ∃ s' rs' C', scheduler_make_blocked (current s) s = Ret tt s' ∧ sinv s' rs' (bs ++ [current s]) C' ∧
    quiet s C s' C' ∧ rest s' = rest s.
Proof.
  intros H E Hb Hd. destruct (make_blocked_sinv _ _ _ _ _ H E Hb Hd) as (rs' & Hrm & Hcov & Hrun & Hblk).
  destruct (make_blocked_spec 16 s rs bs C (current s) c rs') as (s' & E' & H' & R');
    [exact (si_rep _ _ _ _ H)|exact (si_ready _ _ _ _ H)|lia|done..|].
  assert (Ha : alike C (alter (set_state thread_blocked) (current s) C)) by by apply alike_alter.
  exists s', rs', (alter (set_state thread_blocked) (current s) C). split; [done|].
  split; [|split; [by apply quiet_rest; [|apply undead_alter|]|done]]. by eapply sinv_rest.
Qed.

Lemma wake_sinv s rs bs C t c :
  sinv s rs bs C → C !! t = Some c → state c ≠ thread_dead →
  ∃ s' rs' bs' C', scheduler_make_runnable t s = Ret tt s' ∧ sinv s' rs' bs' C' ∧ rest s' = rest s ∧
    alike C C' ∧ undead C C' ∧ (∀ q, q ≠ t → C' !! q = C !! q) ∧ (∀ c', C' !! t = Some c' → state c' = thread_runnable).
Proof.
  intros H E Hd. destruct (decide (state c = thread_runnable)) as [Hs|Hs].
  { destruct (make_runnable_already 16 s rs bs C t c) as (s' & E' & H' & R');
      [exact (si_rep _ _ _ _ H)|exact (si_ready _ _ _ _ H)|lia|done..|].
    exists s', rs, bs, C. split; [done|]. split; [|split; [done|split; [done|split; [apply undead_refl|split; [done|by intros; simplify_eq]]]]].
    eapply sinv_rest; [exact H|done|done|done|done|exact (si_run _ _ _ _ H)|exact (si_blk _ _ _ _ H)]. }
  destruct (si_removed _ _ _ _ _ _ H E Hd) as (rs' & bs' & Hrm & Hcov & Hr & Hbl & _).
  destruct (make_runnable_spec 16 s rs bs C t c rs' bs') as (s' & E' & H' & R');
    [exact (si_rep _ _ _ _ H)|exact (si_ready _ _ _ _ H)|lia|done..|].
  set (C' := alter (set_time_slice TIME_SLICE) t (alter (set_state thread_runnable) t C)) in *.
  assert (Ha : alike C C') by (eapply alike_trans; by apply alike_alter).
  assert (Hst : run_states (rs' ++ [t]) C' ∧ blk_states bs' C').
  { apply states_alter; [done| |].
    - intros q d Hq Ed. destruct (state_alter_set _ _ _ _ _ Ed) as [[_ ->]|[Hne Ed']]; [done|].
      apply elem_of_app in Hq as [Hq| ->%list_elem_of_singleton]; [|done]. eapply si_run; [exact H|apply (Hr q Hq)|done].
    - intros q d Hq Ed. destruct (Hbl q Hq) as [Hq1 Hq2].
      destruct (state_alter_set _ _ _ _ _ Ed) as [[? _]|[_ Ed']]; [done|]. by eapply si_blk. }
  assert (Hu : undead C C').
  { apply (undead_trans _ (alter (set_state thread_runnable) t C)); by apply undead_alter. }
  exists s', (rs' ++ [t]), bs', C'. split; [done|]. split; [|split; [done|split; [done|split; [done|split]]]].
  2:{ intros q Hq. unfold C'. by rewrite !lookup_alter_ne. }
  2:{ intros c'. unfold C'. rewrite !lookup_alter_eq, E. by intros [= <-]. }
  eapply sinv_rest; [exact H|done|done|done| |apply Hst..].
  intros q Hq. rewrite elem_of_app, list_elem_of_singleton. destruct (Hcov q Hq) as [->|[?|?]]; auto.
Qed.

(** The part of the loop of [scheduler_wait_object_acquire] that blocks. *)
Definition block_and_switch (m value flags1 flags2 : Z) : M sys unit :=
  s ← get;
  scheduler_make_blocked (current s);;
  next_thread ← scheduler_next_thread;
  assert (negb (next_thread =? NULL)) "next_thread";;
  scheduler_unlock flags2;;
  push (FWaiting m value flags1);;
  process_context_switch kernel_vma_byte switch_return next_thread.

(** The threads when the current one has blocked and [t] is chosen. *)
Definition blocked_for t s C c : gmap Z thread :=
  picked t (charged (current s) (elapsed s) (set_state thread_blocked c) (alter (set_state thread_blocked) (current s) C)).

Lemma alike_blocked_for t s C c : alike C (blocked_for t s C c).
Proof.
  apply (alike_trans _ (alter (set_state thread_blocked) (current s) C)); [by apply alike_alter|apply alike_picked].
Qed.

(** Up to the switch. *)
Lemma block_choose s rs bs C c m v flags1 :
  sinv s rs bs C → C !! current s = Some c → state c ≠ thread_blocked → state c ≠ thread_dead →
  block_and_switch m v flags1 (cpu_eflags s) (locked s) = Panic "no next thread available" ∨
  ∃ s4 t rs', t ≠ current s ∧ t ≠ NULL ∧
    rep s4 (rs' ++ [t]) (bs ++ [current s]) (blocked_for t s C c) ∧
    rest s4 = rest (set_cpu (cpu_eflags s) (FWaiting m v flags1 :: cpu_frames s) (set_last_ticks (u32 (ticks_since_boot s)) s)) ∧
    (∀ q, q ∈ rs ∨ q ∈ bs → q ∈ rs' ++ [t] ∨ q ∈ bs ++ [current s]) ∧
    run_states (rs' ++ [t]) (blocked_for t s C c) ∧ blk_states (bs ++ [current s]) (blocked_for t s C c) ∧
    block_and_switch m v flags1 (cpu_eflags s) (locked s) = process_context_switch kernel_vma_byte switch_return t s4.
Proof.
  intros H E Hb Hd. destruct (make_blocked_sinv _ _ _ _ _ H E Hb Hd) as (rs' & Hrm & Hcov & Hrun & Hblk).
  destruct (lock_spec 16 s rs bs C (si_rep _ _ _ _ H) (si_ready _ _ _ _ H) ltac:(lia)) as (_ & H1 & Hrd1).
  unfold block_and_switch. rewrite bind_get. change (current (locked s)) with (current s).
  destruct (make_blocked_spec (16 - 1) (locked s) rs bs C (current s) c rs') as (s2 & E2 & H2 & R2); [done|done|lia|done..|].
  step E2. set (C2 := alter (set_state thread_blocked) (current s) C) in *.
  assert (Ec : C2 !! current s = Some (set_state thread_blocked c)) by (unfold C2; by rewrite lookup_alter_eq, E).
  assert (Hc2 : current s2 = current s) by (by rewrite (rest_current _ _ R2)).
  assert (He2 : elapsed s2 = elapsed s).
  { unfold elapsed. by rewrite (rest_ticks _ _ R2), (rest_last _ _ R2). }
  assert (Hx : state (set_state thread_blocked c) = thread_running →
    u32 (time_slice (set_state thread_blocked c) - elapsed s2) = 0) by done.
  pose proof (si_current _ _ _ _ H) as Hz.
  destruct rs' as [|t rs'].
  { left. unfold mbind, M_bind. rewrite (next_thread_none (16 - 1) s2 (bs ++ [current s]) C2 (set_state thread_blocked c));
      [done|done| |lia|by rewrite Hc2|by rewrite Hc2|exact Hx].
    eapply ready_rest; [exact H1|exact H2|by apply same_tids_alter|exact R2|exact Hrd1]. }
  right. rewrite <- Hc2 in Ec.
  destruct (next_thread_pick s2 t rs' (bs ++ [current s]) C2 _ H2 ltac:(by rewrite Hc2) Ec Hx) as (s3 & E3 & H3 & R3).
  step E3. destruct (rep_in _ _ _ _ t H2) as [Htz _]; [left; by left|].
  step (assert_ok (negb (t =? NULL)) "next_thread" s3 ltac:(by rewrite (proj2 (Z.eqb_neq t NULL)))).
  set (sL := set_last_ticks (u32 (ticks_since_boot s)) s).
  assert (HrdL : ready 16 sL) by (by destruct (si_ready _ _ _ _ H)).
  rewrite Hc2, He2 in H3. change (picked t _) with (blocked_for t s C c) in H3.
  destruct (unlock_spec 16 sL s3 _ _ _ HrdL ltac:(lia) H3) as (s4 & E4 & H4 & R4).
  { rewrite R3, (rest_ticks _ _ R2). transitivity (set_last_ticks (u32 (ticks_since_boot s)) (rest s2)); [done|]. by rewrite R2. }
  change (cpu_eflags s) with (cpu_eflags sL) at 1. step E4. unfold push. rewrite bind_modify.
  assert (Hne : t ≠ current s).
  { intros ->. apply (rep_disj _ _ _ _ H2 (current s)); [by left|mem]. }
  exists (set_cpu (cpu_eflags s4) (FWaiting m v flags1 :: cpu_frames s4) s4), t, rs'. split; [exact Hne|]. split; [exact Htz|]. split; [by destruct H4|]. split.
  { rewrite (rest_frames _ _ R4), (rest_eflags _ _ R4).
    transitivity (set_cpu (cpu_eflags s) (FWaiting m v flags1 :: cpu_frames s) (rest s4)); [done|]. by rewrite R4. }
  assert (Hst := picked_states (current s) (elapsed s) (set_state thread_blocked c) C2 t rs' (bs ++ [current s])
    ltac:(by rewrite <- Hc2) Hrun Hblk (rep_disj _ _ _ _ H2)).
  split; [intros q Hq; destruct (Hcov q Hq); [left; mem|by right]|]. split; [apply Hst|]. split; [apply Hst|]. done.
Qed.

(** The current thread blocks in [scheduler_wait_object_acquire] and another one goes on. *)
Lemma block_sinv s rs bs C c m v flags1 :
  sinv s rs bs C → C !! current s = Some c → state c ≠ thread_blocked → state c ≠ thread_dead → 0 ≤ flags1 < W32 →
  block_and_switch m v flags1 (cpu_eflags s) (locked s) = Panic "no next thread available" ∨
  ∃ s' rs' bs' C', block_and_switch m v flags1 (cpu_eflags s) (locked s) = Ret tt s' ∧ sinv s' rs' bs' C' ∧
    quiet (set_cpu (cpu_eflags s) (FWaiting m v flags1 :: cpu_frames s) s) C s' C' ∧ now_running s' C'.
Proof using return_ok.
  intros H E Hb Hd Hf.
  destruct (block_choose s rs bs C c m v flags1 H E Hb Hd) as [?|(s4 & t & rs' & Hne & Hz & H4 & R4 & Hcov & Hrun & Hblk & ->)];
    [by left|right].
  pose proof (alike_blocked_for t s C c) as Ha. set (C4 := blocked_for t s C c) in *.
  destruct (rep_in _ _ _ _ t H4) as (_ & ct4 & Et4); [left; mem|].
  destruct (alike_lookup _ _ _ _ (alike_sym _ _ Ha) Et4) as (ct & Et & _ & Hxt).
  destruct (alike_lookup _ _ _ _ Ha E) as (c4 & Ec4 & _).
  destruct (rep_thread _ _ _ _ _ _ H4 Ec4) as (oth & Eo & _).
  destruct (rep_thread _ _ _ _ _ _ H4 Et4) as (tth & Ett & Hct).
  assert (Hx : stack_context tth = stack_context ct) by (rewrite Hxt, <- Hct; done).
  destruct (si_ctx _ _ _ _ H t ct Et Hne) as (Hv & _).
  assert (Hc4 : current s4 = current s) by (by rewrite (rest_current _ _ R4)).
  rewrite (switch_ok _ _ s4 (current s) t oth tth); [|done|exact (si_current _ _ _ _ H)|done|done|done|by rewrite Hx].
  set (x := Context switch_return (cpu_eflags s) (FWaiting m v flags1 :: cpu_frames s)).
  assert (Hrep : rep (switched switch_return (current s) t oth tth s4) (rs' ++ [t]) (bs ++ [current s])
    (alter (set_context x) (current s) C4)).
  { destruct H4 as [A1 A2 A3 A4]. unfold switched. split; simpl; [by eapply dl_rep_update..|done|].
    rewrite (rest_frames _ _ R4), (rest_eflags _ _ R4). rewrite <- A4. by apply cores_insert_data. }
  eexists _, _, _, _. split; [done|]. split; [|split].
  - eapply sinv_switch; [exact H|exact Ha|exact Hrep|exact Hne|exact Et|done| | | | |exact Hcov|exact Hrun|exact Hblk].
    + simpl. rewrite (rest_lock _ _ R4). exact (si_lock _ _ _ _ H).
    + simpl. by rewrite Hx.
    + simpl. by rewrite Hx.
    + split; [done|]. split; [exact (si_flags _ _ _ _ H)|]. constructor; [done|exact (si_frames _ _ _ _ H)].
  - apply (quiet_switch (set_cpu (cpu_eflags s) (FWaiting m v flags1 :: cpu_frames s) s) C _ C4 x t ct);
      [exact Ha| |eauto|done|done|done| | | |done].
    + apply (undead_trans _ (alter (set_state thread_blocked) (current s) C)); [by apply undead_alter|apply undead_picked].
    + simpl. by rewrite (rest_mutexes _ _ R4).
    + simpl. by rewrite Hx.
    + simpl. by rewrite Hx.
  - unfold now_running. simpl. rewrite lookup_alter_ne by done.
    destruct (picked_running t (charged (current s) (elapsed s) (set_state thread_blocked c)
      (alter (set_state thread_blocked) (current s) C))) as (cr & Ecr & Hcr & _); [|by exists cr].
    apply charged_lookup. rewrite lookup_alter_is_Some. eauto.
Qed.

(** ** The mutexes' part *)

(** Acquisitions a function still has to undo. *)
Fixpoint depth (m : Z) (ops : list op) : Z :=
  match ops with
  | [] => 0
  | OAcquire k :: ops => depth m ops - (if k =? m then 1 else 0)
  | ORelease k :: ops => depth m ops + (if k =? m then 1 else 0)
  | _ :: ops => depth m ops
  end.

(** Every acquisition is released later. *)
Fixpoint wf_ops (ops : list op) : Prop :=
  match ops with
  | [] => True
  | OAcquire m :: ops => 0 < depth m ops ∧ wf_ops ops
  | _ :: ops => wf_ops ops
  end.

Definition known (X : gmap Z mutex) (o : op) : Prop :=
  match o with OAcquire m | ORelease m => is_Some (X !! m) | _ => True end.

Lemma depth_bounds m ops : wf_ops ops → 0 ≤ depth m ops ≤ Z.of_nat (length ops).
Proof.
  induction ops as [|o ops IH]; simpl; [lia|]. destruct o as [k|k| | |]; simpl; intros Hw.
  - destruct Hw as [Hk Hw]. specialize (IH Hw). destruct (Z.eqb_spec k m); subst; lia.
  - specialize (IH Hw). destruct (k =? m); lia.
  - specialize (IH Hw). lia.
  - specialize (IH Hw). lia.
  - specialize (IH Hw). lia.
Qed.

Inductive phase :=
  | PEntry | PBody | PExit
  | PObserve (m : Z) | PWait (m : Z) | PWaiting (m flags1 : Z) | PUnobserve (m : Z) | PNest (m : Z)
  | PTest (m : Z) | PWake (m : Z).

Record ghost := Ghost { g_phase : phase; g_ops : list op; g_loop : list op }.

(** The frames, neutral ones apart, of thread [t] with id [i]. *)
Definition stack_of (t i : Z) (g : ghost) : list frame :=
  let body := FBody (g_ops g) (g_loop g) in
  match g_phase g with
  | PEntry => [FEntry t (g_ops g) (g_loop g)]
  | PBody => [body]
  | PExit => [FExit]
  | PObserve m => [FObserve m; FWait m; FUnobserve m; FNest m; body]
  | PWait m => [FWait m; FUnobserve m; FNest m; body]
  | PWaiting m f => [FWaiting m i f; FUnobserve m; FNest m; body]
  | PUnobserve m => [FUnobserve m; FNest m; body]
  | PNest m => [FNest m; body]
  | PTest m => [FTest m; body]
  | PWake m => [FWake m; body]
  end.

Definition program_ok (X : gmap Z mutex) (ops : list op) : Prop :=
  wf_ops ops ∧ Forall (known X) ops ∧ Z.of_nat (length ops) < W32.

Definition ghost_ok (X : gmap Z mutex) (g : ghost) : Prop :=
  program_ok X (g_ops g) ∧ program_ok X (g_loop g) ∧ (∀ m, depth m (g_loop g) = 0) ∧
  match g_phase g with
  | PObserve m | PWait m | PWaiting m _ | PUnobserve m => depth m (g_ops g) = 1 ∧ is_Some (X !! m)
  | PNest m => 0 < depth m (g_ops g) ∧ is_Some (X !! m)
  | PTest m => is_Some (X !! m)
  | PWake m => depth m (g_ops g) = 0 ∧ is_Some (X !! m)
  | _ => True
  end.

Lemma ghost_ok_dom X X' g : (∀ k, is_Some (X' !! k) ↔ is_Some (X !! k)) → ghost_ok X g → ghost_ok X' g.
Proof.
  intros Hdom ((A1 & A2 & A3) & (B1 & B2 & B3) & Hd & Hp).
  assert (Hk : ∀ ops, Forall (known X) ops → Forall (known X') ops).
  { intros ops. apply Forall_impl. intros [k|k| | |]; simpl; rewrite ?Hdom; auto. }
  split; [split; auto|]. split; [split; auto|]. split; [done|]. destruct (g_phase g); rewrite ?Hdom; auto.
Qed.

(** What a thread has to do with a mutex. *)
Inductive stake := Own (n : Z) | May | Not.

Definition body_stake (m : Z) (ops : list op) : stake := if 0 <? depth m ops then Own (depth m ops) else Not.

Definition stake_of (m : Z) (g : ghost) : stake :=
  let at_ k st := if k =? m then st else body_stake m (g_ops g) in
  match g_phase g with
  | PEntry | PBody => body_stake m (g_ops g)
  | PExit => Not
  | PObserve k | PWait k | PWaiting k _ => at_ k May
  | PUnobserve k => at_ k (Own 0)
  | PNest k => at_ k (Own (depth m (g_ops g) - 1))
  | PTest k => at_ k (Own (depth m (g_ops g)))
  | PWake k => at_ k (Own 0)
  end.

Definition stake_holds (x : mutex) (i : Z) (st : stake) : Prop :=
  match st with
  | Own n => m_owner x = i ∧ m_nested x = n
  | May => m_owner x = i → m_nested x = 0
  | Not => m_owner x ≠ i
  end.

(** On the waiting list of [m]. *)
Definition waits (m : Z) (g : ghost) : bool :=
  match g_phase g with PWait k | PWaiting k _ | PUnobserve k => k =? m | _ => false end.

Record minv (s : sys) (C : gmap Z thread) (G : Z → ghost) (W : Z → list Z) : Prop := {
  mi_stack : ∀ t c, C !! t = Some c → strip (frames_of s C t) = stack_of t (tid c) (G t);
  mi_ghost : ∀ t, is_Some (C !! t) → ghost_ok (mutexes s) (G t);
  mi_stake : ∀ m x t c, mutexes s !! m = Some x → C !! t = Some c → stake_holds x (tid c) (stake_of m (G t));
  mi_zero : ∀ m x, mutexes s !! m = Some x → m_owner x = 0 → m_nested x = 0;
  mi_lock : ∀ m x, mutexes s !! m = Some x → waiting_threads_lock x = Spinlock 0 0;
  mi_wait : ∀ m x, mutexes s !! m = Some x → dl_rep wait_links C (waiting_threads x) (W m);
  mi_waits : ∀ m x t, mutexes s !! m = Some x → (t ∈ W m ↔ is_Some (C !! t) ∧ waits m (G t) = true);
  mi_links : ∀ t c, C !! t = Some c → (∀ m, waits m (G t) = false) → wait_queue_next c = 0;
  mi_entry : ∀ t, is_Some (C !! t) → g_phase (G t) = PEntry →
    Z.testbit (flags_of s C t) flags_if_bit = false ∧ Forall (λ f, neutral f = false) (frames_of s C t);
  mi_dead : ∀ t c, C !! t = Some c → state c = thread_dead → g_phase (G t) = PExit
}.

(** Waiting lists depend on the waiting links of their members only. *)
Lemma dl_rep_wait C C' hd ps :
  (∀ q, q ∈ ps → wait_part <$> C' !! q = wait_part <$> C !! q) → dl_rep wait_links C hd ps → dl_rep wait_links C' hd ps.
Proof.
  intros Hw (-> & Hs & Hz). split; [done|]. split; [|done]. revert Hs. generalize (last_or NULL ps) as a. clear Hz.
  induction ps as [|q ps IH]; intros a; [done|]. intros (n & En & Hp & Hn & Hs).
  pose proof (Hw q ltac:(by left)) as Hq. rewrite En in Hq. destruct (C' !! q) as [n'|] eqn:E; [|done].
  unfold wait_part in Hq. simplify_eq/=. exists n'. split; [done|]. split; [simpl; congruence|]. split; [simpl; congruence|].
  apply IH; [|done]. intros r Hr. apply Hw. by right.
Qed.

Lemma minv_move s C s' C' G W :
  minv s C G W → mutexes s' = mutexes s → (∀ t, wait_part <$> C' !! t = wait_part <$> C !! t) →
  (∀ t, strip (frames_of s' C' t) = strip (frames_of s C t)) →
  (∀ t, t ≠ current s → flags_of s' C' t = flags_of s C t ∧ frames_of s' C' t = frames_of s C t) →
  (∀ t c', C' !! t = Some c' → state c' = thread_dead → g_phase (G t) = PExit) →
  g_phase (G (current s)) ≠ PEntry ∨ flags_of s' C' (current s) = cpu_eflags s ∧ frames_of s' C' (current s) = cpu_frames s →
  minv s' C' G W.
Proof.
  intros H Qm Qw Qf Qg Qd He.
  assert (Hb : ∀ t c', C' !! t = Some c' → ∃ c, C !! t = Some c ∧ tid c' = tid c ∧ wait_queue_next c' = wait_queue_next c).
  { intros t c' E. specialize (Qw t). rewrite E in Qw. destruct (C !! t) as [c|]; [|done].
    unfold wait_part in Qw. simplify_eq/=. eauto. }
  assert (Hs : ∀ t, is_Some (C' !! t) ↔ is_Some (C !! t)).
  { intros t. specialize (Qw t). destruct (C' !! t), (C !! t); simplify_eq/=; split; eauto. }
  split; rewrite ?Qm.
  - intros t c' E. destruct (Hb _ _ E) as (c & Ec & -> & _). rewrite Qf. by apply (mi_stack _ _ _ _ H).
  - intros t. rewrite Hs. apply (mi_ghost _ _ _ _ H).
  - intros m x t c' Ex E. destruct (Hb _ _ E) as (c & Ec & -> & _). by apply (mi_stake _ _ _ _ H).
  - apply (mi_zero _ _ _ _ H).
  - apply (mi_lock _ _ _ _ H).
  - intros m x Ex. apply (dl_rep_wait C); [by intros|by apply (mi_wait _ _ _ _ H)].
  - intros m x t Ex. rewrite Hs. by apply (mi_waits _ _ _ _ H) with x.
  - intros t c' E Hw. destruct (Hb _ _ E) as (c & Ec & _ & ->). by eapply (mi_links _ _ _ _ H).
  - intros t. rewrite Hs. intros Ht Hp. pose proof (mi_entry _ _ _ _ H t Ht Hp) as Hf.
    destruct (decide (t = current s)) as [->|Hne]; [|by destruct (Qg t Hne) as [-> ->]].
    destruct He as [?|[-> ->]]; [done|]. unfold flags_of, frames_of in Hf. by rewrite !decide_True in Hf.
  - exact Qd.
Qed.

Lemma minv_quiet s C s' C' G W :
  minv s C G W → quiet s C s' C' →
  g_phase (G (current s)) ≠ PEntry ∨ flags_of s' C' (current s) = cpu_eflags s ∧ frames_of s' C' (current s) = cpu_frames s →
  minv s' C' G W.
Proof.
  intros H [Qm Qw Qf Qg Qd] He. eapply minv_move; [done..| |done].
  intros t c' E Hd. destruct (Qd t c' E Hd) as (c & Ec & Hc). by eapply (mi_dead _ _ _ _ H).
Qed.

(** A step of the current thread that leaves waiting lists alone. *)
Lemma minv_general s C G W s' g c :
  minv s C G W → C !! current s = Some c → state c ≠ thread_dead → current s' = current s →
  (∀ k, is_Some (mutexes s' !! k) ↔ is_Some (mutexes s !! k)) →
  strip (cpu_frames s') = stack_of (current s) (tid c) g → ghost_ok (mutexes s) g → g_phase g ≠ PEntry →
  (∀ k, waits k g = waits k (G (current s))) →
  (∀ k y, mutexes s' !! k = Some y → ∃ y0, mutexes s !! k = Some y0 ∧
    waiting_threads y = waiting_threads y0 ∧ waiting_threads_lock y = waiting_threads_lock y0 ∧
    (m_owner y = 0 → m_nested y = 0) ∧ stake_holds y (tid c) (stake_of k g) ∧
    (∀ t ct, t ≠ current s → C !! t = Some ct → stake_holds y (tid ct) (stake_of k (G t)))) →
  minv s' C (<[current s := g]> G) W.
Proof.
  intros H Ec Hnd Hc Hdom Hfs Hg Hpe Hwt Hlk.
  assert (HG : ∀ t, t ≠ current s → <[current s := g]> G t = G t) by (intros; by rewrite fn_lookup_insert_ne).
  assert (Hwg : ∀ k t, waits k (<[current s := g]> G t) = waits k (G t)).
  { intros k t. destruct (decide (t = current s)) as [->|Ht]; [by rewrite fn_lookup_insert|by rewrite HG]. }
  split.
  - intros t ct E. unfold frames_of. rewrite Hc. destruct (decide (t = current s)) as [->|Ht].
    + rewrite fn_lookup_insert. by simplify_eq.
    + rewrite HG by done. rewrite <- (mi_stack _ _ _ _ H t ct E). unfold frames_of. by rewrite decide_False.
  - intros t Ht. apply (ghost_ok_dom _ _ _ Hdom). destruct (decide (t = current s)) as [->|Hne]; [by rewrite fn_lookup_insert|].
    rewrite HG by done. by apply (mi_ghost _ _ _ _ H).
  - intros k y t ct Ey E. destruct (Hlk _ _ Ey) as (y0 & Ey0 & _ & _ & _ & H1 & H2).
    destruct (decide (t = current s)) as [->|Hne]; [rewrite fn_lookup_insert; by simplify_eq|]. rewrite HG by done. eauto.
  - intros k y Ey. destruct (Hlk _ _ Ey) as (y0 & Ey0 & _ & _ & H0 & _). done.
  - intros k y Ey. destruct (Hlk _ _ Ey) as (y0 & Ey0 & _ & -> & _). by eapply (mi_lock _ _ _ _ H).
  - intros k y Ey. destruct (Hlk _ _ Ey) as (y0 & Ey0 & -> & _). by apply (mi_wait _ _ _ _ H).
  - intros k y t Ey. destruct (Hlk _ _ Ey) as (y0 & Ey0 & _). rewrite Hwg. by eapply (mi_waits _ _ _ _ H).
  - intros t ct E Hall. eapply (mi_links _ _ _ _ H); [done|]. intros k. by rewrite <- Hwg.
  - intros t Ht. destruct (decide (t = current s)) as [->|Hne]; [by rewrite fn_lookup_insert|].
    rewrite HG by done. intros Hp. pose proof (mi_entry _ _ _ _ H t Ht Hp) as Hf.
    unfold flags_of, frames_of in *. rewrite Hc. by rewrite !decide_False in * by done.
  - intros t ct E Hd. destruct (decide (t = current s)) as [->|Hne]; [by simplify_eq|].
    rewrite HG by done. by eapply (mi_dead _ _ _ _ H).
Qed.

(** The thread moves on without touching mutexes. *)
Lemma minv_ghost s C G W s' g c :
  minv s C G W → C !! current s = Some c → state c ≠ thread_dead → current s' = current s → mutexes s' = mutexes s →
  strip (cpu_frames s') = stack_of (current s) (tid c) g → ghost_ok (mutexes s) g → g_phase g ≠ PEntry →
  (∀ k, waits k g = waits k (G (current s))) → (∀ k, stake_of k g = stake_of k (G (current s))) →
  minv s' C (<[current s := g]> G) W.
Proof.
  intros H Ec Hnd Hc Hm Hfs Hg Hpe Hw Hst. eapply minv_general; [done|done|done|done|by rewrite Hm|done..|].
  rewrite Hm. intros k y Ey. exists y. split; [done|]. split; [done|]. split; [done|].
  split; [by apply (mi_zero _ _ _ _ H k)|]. rewrite Hst. split; [by apply (mi_stake _ _ _ _ H)|].
  intros. by apply (mi_stake _ _ _ _ H).
Qed.

(** It changes the mutex [m]. *)
Lemma minv_update s C G W s' m x x' g c :
  minv s C G W → C !! current s = Some c → state c ≠ thread_dead → mutexes s !! m = Some x →
  mutexes s' = <[m := x']> (mutexes s) → current s' = current s →
  strip (cpu_frames s') = stack_of (current s) (tid c) g → ghost_ok (mutexes s) g → g_phase g ≠ PEntry →
  waiting_threads x' = waiting_threads x → waiting_threads_lock x' = waiting_threads_lock x →
  (m_owner x' = 0 → m_nested x' = 0) →
  (∀ k, k ≠ m → stake_of k g = stake_of k (G (current s))) → (∀ k, waits k g = waits k (G (current s))) →
  stake_holds x' (tid c) (stake_of m g) →
  (∀ t ct, t ≠ current s → C !! t = Some ct → stake_holds x' (tid ct) (stake_of m (G t))) →
  minv s' C (<[current s := g]> G) W.
Proof.
  intros H Ec Hnd Ex Em Hc Hfs Hg Hpe Hw1 Hw2 Hz Hst Hwt Hcur Hoth. eapply minv_general; [done..| |done|done|done|done|].
  { intros k. rewrite Em, lookup_insert_is_Some'. split; [intros [<-|?]; eauto|auto]. }
  intros k y. rewrite Em. destruct (decide (k = m)) as [->|Hk].
  - rewrite lookup_insert_eq. intros [= <-]. exists x. auto 10.
  - rewrite lookup_insert_ne by done. intros Ey. exists y. split; [done|]. split; [done|]. split; [done|].
    split; [by apply (mi_zero _ _ _ _ H k)|]. rewrite Hst by done. split; [by apply (mi_stake _ _ _ _ H)|].
    intros. by apply (mi_stake _ _ _ _ H).
Qed.

(** The other threads, when the current one owns the mutex afterwards and it was its own or free. *)
Lemma others_owned s rs bs C G W m x x' c :
  sinv s rs bs C → minv s C G W → C !! current s = Some c → mutexes s !! m = Some x →
  m_owner x' = tid c → m_owner x = 0 ∨ m_owner x = tid c →
  ∀ t ct, t ≠ current s → C !! t = Some ct → stake_holds x' (tid ct) (stake_of m (G t)).
Proof.
  intros Hs H Ec Ex Ho' Ho t ct Hne Et. pose proof (mi_stake _ _ _ _ H m x t ct Ex Et) as Hh.
  assert (Hn : tid c ≠ tid ct) by (intros Ht; apply Hne; symmetry; by eapply (si_uniq _ _ _ _ Hs (current s) t)).
  pose proof (si_tids _ _ _ _ Hs t ct Et) as Hz.
  destruct (stake_of m (G t)); simpl in *; [destruct Ho; lia|congruence|congruence].
Qed.

Lemma insert_id_lookup (X : gmap Z mutex) m x : X !! m = Some x → <[m := x]> X = X.
Proof. apply insert_id. Qed.

Lemma load_mutex_ok s m x : mutexes s !! m = Some x → load_mutex m s = Ret x s.
Proof.
  intros E. unfold load_mutex, on_mutexes. rewrite (zoom_ret _ _ _ _ _ _ (load_ok _ _ _ E)). by destruct s.
Qed.

Lemma update_mutex_ok s m x f :
  mutexes s !! m = Some x → update_mutex m f s = Ret tt (set_mutexes (<[m := f x]> (mutexes s)) s).
Proof. intros E. apply zoom_ret. by apply update_ok. Qed.

(** What compare-and-swap leaves in the mutex. *)
Definition cas_result (i : Z) (x : mutex) : mutex := if m_owner x =? 0 then set_m_owner i x else x.

Lemma cas_mutex_ok s m x i :
  mutexes s !! m = Some x →
  cas_mutex m i s = Ret (m_owner x) (set_mutexes (<[m := cas_result i x]> (mutexes s)) s).
Proof.
  intros E. unfold cas_mutex, cas_result. step (load_mutex_ok _ _ _ E). destruct (m_owner x =? 0).
  - by step (update_mutex_ok s m x (set_m_owner i) E).
  - rewrite insert_id_lookup by done. by destruct s.
Qed.

(** Changes of the processor and of mutexes only. *)
Lemma sinv_cpu s rs bs C X f fs :
  sinv s rs bs C → 0 ≤ f < W32 → Forall frame_ok fs → sinv (set_cpu f fs (set_mutexes X s)) rs bs C.
Proof.
  intros H Hf Hfs. split; [by destruct (si_rep _ _ _ _ H)|exact (si_cover _ _ _ _ H)|exact (si_run _ _ _ _ H)|
    exact (si_blk _ _ _ _ H)|exact (si_cur _ _ _ _ H)|exact (si_tids _ _ _ _ H)|exact (si_uniq _ _ _ _ H)|
    exact (si_lock _ _ _ _ H)|exact Hf|exact Hfs|exact (si_ctx _ _ _ _ H)].
Qed.

(** *** Changing a waiting list *)

Definition base_part (c : thread) : Z * thread_state * context := (tid c, state c, stack_context c).

Lemma sinv_relink s rs bs C s' C' :
  sinv s rs bs C → rep s' rs bs C' → (∀ q, base_part <$> C' !! q = base_part <$> C !! q) →
  current s' = current s → sched_lock s' = sched_lock s → 0 ≤ cpu_eflags s' < W32 → Forall frame_ok (cpu_frames s') →
  sinv s' rs bs C'.
Proof.
  intros H Hr Hb Hc Hl Hf Hfs.
  assert (Hx : ∀ t c', C' !! t = Some c' → ∃ c, C !! t = Some c ∧ tid c' = tid c ∧ state c' = state c ∧ stack_context c' = stack_context c).
  { intros t c' E. specialize (Hb t). rewrite E in Hb. destruct (C !! t) as [c|]; [|done].
    unfold base_part in Hb. simplify_eq/=. eauto 10. }
  split; try done.
  - intros t [c' E]. destruct (Hx _ _ E) as (c & Ec & _). eapply si_cover; eauto.
  - intros t c' Ht E. destruct (Hx _ _ E) as (c & Ec & _ & -> & _). by eapply si_run.
  - intros t c' Ht E. destruct (Hx _ _ E) as (c & Ec & _ & -> & _). by eapply si_blk.
  - rewrite Hc. destruct (si_cur _ _ _ _ H) as [c E]. specialize (Hb (current s)). rewrite E in Hb.
    by destruct (C' !! current s).
  - intros t c' E. destruct (Hx _ _ E) as (c & Ec & -> & _). by eapply si_tids.
  - intros t u ct cu E1 E2 He. destruct (Hx _ _ E1) as (c1 & Ec1 & T1 & _), (Hx _ _ E2) as (c2 & Ec2 & T2 & _).
    eapply si_uniq; [exact H|exact Ec1|exact Ec2|congruence].
  - rewrite Hl. exact (si_lock _ _ _ _ H).
  - intros t c' E Hne. destruct (Hx _ _ E) as (c & Ec & _ & _ & ->). eapply si_ctx; [exact H|done|congruence].
Qed.

Lemma minv_relink s C G W s' C' m x hd ws g c :
  minv s C G W → C !! current s = Some c → state c ≠ thread_dead → mutexes s !! m = Some x →
  mutexes s' = <[m := set_waiting hd x]> (mutexes s) → current s' = current s →
  strip (cpu_frames s') = stack_of (current s) (tid c) g → ghost_ok (mutexes s) g → g_phase g ≠ PEntry →
  (∀ k, stake_of k g = stake_of k (G (current s))) →
  (∀ q, base_part <$> C' !! q = base_part <$> C !! q) →
  (∀ q, q ∉ current s :: W m → wait_part <$> C' !! q = wait_part <$> C !! q) →
  dl_rep wait_links C' hd ws → (∀ t, t ≠ current s → t ∈ ws ↔ t ∈ W m) → (current s ∈ ws ↔ waits m g = true) →
  (∀ k, k ≠ m → waits k g = false ∧ waits k (G (current s)) = false) →
  (∀ c', C' !! current s = Some c' → waits m g = false → wait_queue_next c' = 0) →
  minv s' C' (<[current s := g]> G) (<[m := ws]> W).
Proof.
  intros H Ec Hnd Ex Em Hc Hfs Hg Hpe Hst Hb Hw Hrep Hws Hcur Hk Hlink.
  assert (Hdom : ∀ k, is_Some (mutexes s' !! k) ↔ is_Some (mutexes s !! k)).
  { intros k. rewrite Em, lookup_insert_is_Some'. split; [intros [<-|?]; eauto|auto]. }
  assert (HG : ∀ t, t ≠ current s → <[current s := g]> G t = G t) by (intros; by rewrite fn_lookup_insert_ne).
  assert (Hx : ∀ t c', C' !! t = Some c' → ∃ c, C !! t = Some c ∧ tid c' = tid c ∧ state c' = state c ∧ stack_context c' = stack_context c).
  { intros t c' E. specialize (Hb t). rewrite E in Hb. destruct (C !! t) as [d|]; [|done].
    unfold base_part in Hb. simplify_eq/=. eauto 10. }
  assert (Hsome : ∀ t, is_Some (C' !! t) ↔ is_Some (C !! t)).
  { intros t. specialize (Hb t). destruct (C' !! t), (C !! t); simplify_eq/=; split; eauto. }
  assert (Hfr : ∀ t, t ≠ current s → frames_of s' C' t = frames_of s C t ∧ flags_of s' C' t = flags_of s C t).
  { intros t Ht. unfold frames_of, flags_of. rewrite Hc, !decide_False by done. specialize (Hb t).
    unfold base_part in Hb. destruct (C' !! t), (C !! t); simplify_eq/=; split; congruence. }
  assert (Hlk : ∀ k y, mutexes s' !! k = Some y → ∃ y0, mutexes s !! k = Some y0 ∧ m_owner y = m_owner y0 ∧
    m_nested y = m_nested y0 ∧ waiting_threads_lock y = waiting_threads_lock y0 ∧
    (k = m ∧ waiting_threads y = hd ∨ k ≠ m ∧ y = y0)).
  { intros k y. rewrite Em. destruct (decide (k = m)) as [->|Hne].
    - rewrite lookup_insert_eq. intros [= <-]. eauto 10.
    - rewrite lookup_insert_ne by done. eauto 10. }
  assert (Hno : ∀ k y q, k ≠ m → mutexes s !! k = Some y → q ∈ W k → q ∉ current s :: W m).
  { intros k y q Hne Ey Hq Hin. apply (mi_waits _ _ _ _ H k y q Ey) in Hq as [_ Hq].
    apply elem_of_cons in Hin as [->|Hin]; [by rewrite (proj2 (Hk k Hne)) in Hq|].
    apply (mi_waits _ _ _ _ H m x q Ex) in Hin as [_ Hin]. unfold waits in *.
    destruct (g_phase (G q)); try done; apply Z.eqb_eq in Hq, Hin; congruence. }
  split.
  - intros t ct E. destruct (decide (t = current s)) as [->|Ht].
    + destruct (Hx _ _ E) as (d & Ed & -> & _). simplify_eq. unfold frames_of. by rewrite Hc, decide_True, fn_lookup_insert.
    + destruct (Hx _ _ E) as (d & Ed & -> & _). rewrite HG, (proj1 (Hfr t Ht)) by done. by apply (mi_stack _ _ _ _ H).
  - intros t Ht%Hsome. apply (ghost_ok_dom _ _ _ Hdom). destruct (decide (t = current s)) as [->|Hne]; [by rewrite fn_lookup_insert|].
    rewrite HG by done. by apply (mi_ghost _ _ _ _ H).
  - intros k y t ct Ey E. destruct (Hlk _ _ Ey) as (y0 & Ey0 & Ho & Hn & _), (Hx _ _ E) as (d & Ed & -> & _).
    assert (Hh : stake_holds y0 (tid d) (stake_of k (<[current s := g]> G t))).
    { destruct (decide (t = current s)) as [->|Hne]; [rewrite fn_lookup_insert, Hst|rewrite HG by done];
        by apply (mi_stake _ _ _ _ H). }
    destruct (stake_of k _); simpl in *; by rewrite ?Ho, ?Hn.
  - intros k y Ey. destruct (Hlk _ _ Ey) as (y0 & Ey0 & -> & -> & _). by apply (mi_zero _ _ _ _ H k).
  - intros k y Ey. destruct (Hlk _ _ Ey) as (y0 & Ey0 & _ & _ & -> & _). by apply (mi_lock _ _ _ _ H k).
  - intros k y Ey. destruct (Hlk _ _ Ey) as (y0 & Ey0 & _ & _ & _ & [[-> ->]|[Hne ->]]); [by rewrite fn_lookup_insert|].
    rewrite fn_lookup_insert_ne by done. apply (dl_rep_wait C); [|by apply (mi_wait _ _ _ _ H)].
    intros q Hq. apply Hw. by eapply Hno.
  - intros k y t Ey. destruct (Hlk _ _ Ey) as (y0 & Ey0 & _). rewrite Hsome.
    pose proof (mi_waits _ _ _ _ H k y0 t Ey0) as Hwt.
    destruct (decide (k = m)) as [->|Hne]; [rewrite fn_lookup_insert|rewrite (fn_lookup_insert_ne W) by done];
      (destruct (decide (t = current s)) as [->|Ht]; [rewrite fn_lookup_insert|rewrite HG by done]).
    + rewrite Hcur. split; [intros; split; [eauto|done]|tauto].
    + rewrite Hws by done. done.
    + rewrite Hwt. destruct (Hk k Hne) as [-> ->]. tauto.
    + done.
  - intros t ct E Hall. destruct (decide (t = current s)) as [->|Ht].
    + apply Hlink; [done|]. specialize (Hall m). by rewrite fn_lookup_insert in Hall.
    + rewrite HG in Hall by done.
      assert (Hq : t ∉ current s :: W m).
      { intros [->|Hin]%elem_of_cons; [done|]. apply (mi_waits _ _ _ _ H m x t Ex) in Hin as [_ Hin]. by rewrite Hall in Hin. }
      specialize (Hw t Hq). rewrite E in Hw. destruct (C !! t) as [d|] eqn:Ed; [|done].
      pose proof (mi_links _ _ _ _ H t d Ed Hall) as Hl. unfold wait_part in Hw. simplify_eq/=. congruence.
  - intros t Ht%Hsome. destruct (decide (t = current s)) as [->|Hne]; [by rewrite fn_lookup_insert|].
    rewrite HG by done. intros Hp. destruct (Hfr t Hne) as [-> ->]. by apply (mi_entry _ _ _ _ H).
  - intros t ct E Hd. destruct (Hx _ _ E) as (d & Ed & _ & Hsd & _). destruct (decide (t = current s)) as [->|Hne].
    + simplify_eq. congruence.
    + rewrite HG by done. apply (mi_dead _ _ _ _ H t d Ed). congruence.
Qed.
End Safe.
