(* ===== verification/MutexStep.v ===== *)
(** * Every step of the machine keeps the invariant of MutexSafe.v

    [good] is the invariant of a state between two steps.  [fine] says of the
    outcome of a step that it is such a state, or one of the two panics the
    kernel runs into by itself: nothing left to run, or a thread that returned
    from its function and is scheduled again. *)

From stdpp Require Import base numbers list gmap strings fin_maps functions.
From S2P Require Import Prelude UtList Registers Sync Dlist Thread Scheduler Mutex MutexSafe.

Section Step.
Variables kernel_vma_byte switch_return : Z.
Hypothesis return_ok : kernel_vma_byte ≤ switch_return.
#[local] Set Default Proof Using "Type".
Implicit Types (s : sys) (C : gmap Z thread) (t q m k : Z) (rs bs : list Z) (G : Z → ghost) (W : Z → list Z).
Notation sinv := (sinv kernel_vma_byte).

(** A current thread that has just been marked blocked is about to yield. *)
Definition awake s C : Prop :=
  ∃ c, C !! current s = Some c ∧ state c ≠ thread_dead ∧
    (state c = thread_blocked → head (cpu_frames s) = Some FCallYield).

Definition good s : Prop := ∃ rs bs C G W, sinv s rs bs C ∧ minv s C G W ∧ awake s C.

Definition no_next : string := "no next thread available".
Definition dead_again : string := "scheduler_yield returned control to dead thread".

Definition fine (r : result sys unit) : Prop :=
  match r with
  | Ret _ s => good s
  | Panic msg => msg = no_next ∨ msg = dead_again
  | _ => False
  end.

(** [s] with other frames on the processor. *)
Definition with_frames (fs : list frame) s : sys := set_cpu (cpu_eflags s) fs s.

Lemma sinv_frames s rs bs C f fs : sinv s rs bs C → 0 ≤ f < W32 → Forall frame_ok fs → sinv (set_cpu f fs s) rs bs C.
Proof.
  intros H Hf Hfs. replace s with (set_mutexes (mutexes s) s) by (by destruct s). by apply sinv_cpu.
Qed.

Lemma strip_cons_neutral f fs : neutral f = true → strip (f :: fs) = strip fs.
Proof. intros Hf. unfold strip. by rewrite filter_cons_False by congruence. Qed.

Lemma strip_cons f fs : neutral f = false → strip (f :: fs) = f :: strip fs.
Proof. intros Hf. unfold strip. by rewrite filter_cons_True. Qed.

Lemma setbit_word f i : 0 ≤ f < W32 → 0 ≤ i < 32 → 0 ≤ Z.setbit f i < W32.
Proof.
  intros Hf Hi. apply word_bound. intros n Hn. rewrite Z.setbit_eqb, word_high by lia.
  rewrite orb_false_r. apply Z.eqb_neq. lia.
Qed.

(** The current thread's frames, its phase and what is left below the top. *)
Lemma top_stack s C G W c f fs :
  minv s C G W → C !! current s = Some c → cpu_frames s = f :: fs → neutral f = false →
  f :: strip fs = stack_of (current s) (tid c) (G (current s)).
Proof.
  intros H E Ef Hn. rewrite <- (mi_stack _ _ _ _ H _ _ E). unfold frames_of. rewrite decide_True by done.
  by rewrite Ef, strip_cons.
Qed.

Lemma awake_top s C f fs : awake s C → cpu_frames s = f :: fs → f ≠ FCallYield →
  ∃ c, C !! current s = Some c ∧ state c ≠ thread_dead ∧ state c ≠ thread_blocked.
Proof.
  intros (c & E & Hd & Hb) Ef Hf. exists c. split; [done|]. split; [done|]. intros Hs. specialize (Hb Hs).
  rewrite Ef in Hb. simpl in Hb. congruence.
Qed.

(** Yielding from a state that is good but for the current thread being awake. *)
Lemma yield_fine s rs bs C G W :
  sinv s rs bs C → minv s C G W → g_phase (G (current s)) ≠ PEntry →
  fine (scheduler_yield kernel_vma_byte switch_return s).
Proof using return_ok.
  intros Hs Hm Hp. destruct (yield_sinv kernel_vma_byte switch_return return_ok s rs bs C Hs) as
    [->|(s' & rs' & C' & -> & Hs' & Q & (c & Ec & Hc))]; [by left|].
  exists rs', bs, C', G, W. split; [done|]. split; [by eapply minv_quiet; eauto|].
  exists c. split; [done|]. by rewrite Hc.
Qed.

(** A change of the flags and of neutral frames. *)
Lemma minv_neutral s C G W f fs :
  minv s C G W → strip fs = strip (cpu_frames s) → g_phase (G (current s)) ≠ PEntry → minv (set_cpu f fs s) C G W.
Proof. intros H Hf Hp. eapply minv_quiet; [done|by apply quiet_stay; [|apply undead_refl|..]|by left]. Qed.

Lemma not_entry s C G W f fs c :
  minv s C G W → C !! current s = Some c → cpu_frames s = f :: fs → neutral f = true → g_phase (G (current s)) ≠ PEntry.
Proof.
  intros H E Ef Hn Hp. destruct (mi_entry _ _ _ _ H (current s)) as [_ Hf]; [eauto|done|].
  unfold frames_of in Hf. rewrite decide_True, Ef in Hf by done. apply Forall_cons_1 in Hf as [Hf _]. congruence.
Qed.

(** *** Frames that do not concern mutexes *)

Lemma step_leave s rs bs C G W f fs g :
  sinv s rs bs C → minv s C G W → awake s C → cpu_frames s = f :: fs →
  neutral f = true → f ≠ FCallYield → 0 ≤ g < W32 → good (set_cpu g fs s).
Proof.
  intros Hs Hm Ha Ef Hn Hf Hg. destruct (awake_top s C f fs Ha Ef Hf) as (c & Ec & Hd & Hb).
  pose proof (si_frames _ _ _ _ _ Hs) as Hfr. rewrite Ef in Hfr. apply Forall_cons_1 in Hfr as [_ Hfr].
  exists rs, bs, C, G, W. split; [by apply sinv_frames|]. split; [|by exists c].
  apply minv_neutral; [done|by rewrite Ef, strip_cons_neutral|by eapply not_entry].
Qed.

Lemma step_call_yield s rs bs C G W fs :
  sinv s rs bs C → minv s C G W → awake s C → cpu_frames s = FCallYield :: fs →
  fine (scheduler_yield kernel_vma_byte switch_return (with_frames fs s)).
Proof using return_ok.
  intros Hs Hm (c & Ec & Ha) Ef. pose proof (si_frames _ _ _ _ _ Hs) as Hfr. rewrite Ef in Hfr. apply Forall_cons_1 in Hfr as [_ Hfr].
  assert (Hp : g_phase (G (current s)) ≠ PEntry) by (by eapply not_entry).
  eapply yield_fine; [apply sinv_frames; [exact Hs|exact (si_flags _ _ _ _ _ Hs)|done]| |exact Hp].
  apply minv_neutral; [exact Hm|by rewrite Ef, strip_cons_neutral|done].
Qed.

(** *** The thread's own function *)

Lemma body_phase t i g ops loop l : FBody ops loop :: l = stack_of t i g → g = Ghost PBody ops loop ∧ l = [].
Proof. unfold stack_of; destruct g as [[] o l']; cbn; intros; by simplify_eq. Qed.

Lemma entry_phase t i g u ops loop l : FEntry u ops loop :: l = stack_of t i g → g = Ghost PEntry ops loop ∧ u = t ∧ l = [].
Proof. unfold stack_of; destruct g as [[] o l']; cbn; intros; by simplify_eq. Qed.

Lemma frames_tail s rs bs C f fs : sinv s rs bs C → cpu_frames s = f :: fs → Forall frame_ok fs.
Proof. intros H E. pose proof (si_frames _ _ _ _ _ H) as Hf. rewrite E in Hf. by apply Forall_cons_1 in Hf as [_ ?]. Qed.

Lemma step_entry s rs bs C G W t ops loop fs :
  sinv s rs bs C → minv s C G W → awake s C → cpu_frames s = FEntry t ops loop :: fs →
  fine (thread_entry_point t ops loop (with_frames fs s)).
Proof.
  intros Hs Hm Ha Ef. destruct (awake_top s C _ fs Ha Ef ltac:(done)) as (c & Ec & Hd & Hb).
  destruct (entry_phase _ _ _ _ _ _ _ (top_stack s C G W c _ fs Hm Ec Ef eq_refl)) as (Eg & -> & Hfs).
  destruct (mi_entry _ _ _ _ Hm (current s)) as [Hif _]; [eauto|by rewrite Eg|].
  unfold flags_of in Hif. rewrite decide_True in Hif by done.
  unfold thread_entry_point. rewrite bind_get. change (current (with_frames fs s)) with (current s).
  rewrite Z.eqb_refl. cbn [negb].
  step (masked_ok (with_frames fs s) (si_flags _ _ _ _ _ Hs) Hif).
  step (assert_ok (Bool.eqb false false) "false == flags_register_is_set(flags_if_bit)" (with_frames fs s) eq_refl).
  unfold interrupts_enable, push. rewrite bind_modify. simpl.
  assert (Hg : ghost_ok (mutexes s) (G (current s))) by (apply (mi_ghost _ _ _ _ Hm); eauto).
  exists rs, bs, C, (<[current s := Ghost PBody ops loop]> G), W. split; [|split; [|by exists c]].
  - apply sinv_frames; [apply sinv_frames|..].
    + apply sinv_frames; [exact Hs|exact (si_flags _ _ _ _ _ Hs)|by eapply frames_tail].
    + apply setbit_word; [exact (si_flags _ _ _ _ _ Hs)|unfold flags_if_bit; lia].
    + by eapply frames_tail.
    + apply setbit_word; [exact (si_flags _ _ _ _ _ Hs)|unfold flags_if_bit; lia].
    + constructor; [done|by eapply frames_tail].
  - eapply minv_ghost; [exact Hm|exact Ec|done|done|done| | |done| |].
    + simpl. rewrite strip_cons, Hfs by done. done.
    + rewrite Eg in Hg. done.
    + intros k. by rewrite Eg.
    + intros k. by rewrite Eg.
Qed.

(** The part every step of the function begins with: [o] is taken off. *)
Lemma body_next s rs bs C G W o ops loop fs :
  sinv s rs bs C → minv s C G W → awake s C → cpu_frames s = FBody (o :: ops) loop :: fs →
  ∃ c, C !! current s = Some c ∧ state c ≠ thread_dead ∧ state c ≠ thread_blocked ∧
    G (current s) = Ghost PBody (o :: ops) loop ∧ strip fs = [] ∧ Forall frame_ok fs ∧
    ghost_ok (mutexes s) (Ghost PBody ops loop) ∧ known (mutexes s) o ∧ wf_ops (o :: ops) ∧
    sinv (with_frames (FBody ops loop :: fs) s) rs bs C.
Proof.
  intros Hs Hm Ha Ef. destruct (awake_top s C _ fs Ha Ef ltac:(done)) as (c & Ec & Hd & Hb).
  destruct (body_phase _ _ _ _ _ _ (top_stack s C G W c _ fs Hm Ec Ef eq_refl)) as (Eg & Hfs).
  pose proof (mi_ghost _ _ _ _ Hm (current s) ltac:(eauto)) as ((A1 & A2 & A3) & B & D & _). rewrite Eg in *. cbn [g_ops g_loop] in *.
  apply Forall_cons_1 in A2 as [A2 A2']. cbn [length] in A3.
  exists c. do 6 (split; [first [done|by eapply frames_tail]|]). split; [|split; [done|split; [done|]]].
  - split; [|done]. split; [by destruct o; simpl in A1; tauto|]. split; [done|cbn; lia].
  - apply sinv_frames; [exact Hs|exact (si_flags _ _ _ _ _ Hs)|]. constructor; [done|by eapply frames_tail].
Qed.

(** After an operation that is nothing to mutexes. *)
Lemma body_skip s C G W c o ops loop fs :
  minv s C G W → C !! current s = Some c → state c ≠ thread_dead → G (current s) = Ghost PBody (o :: ops) loop →
  strip fs = [] →
  ghost_ok (mutexes s) (Ghost PBody ops loop) → (∀ k, depth k (o :: ops) = depth k ops) →
  minv (with_frames (FBody ops loop :: fs) s) C (<[current s := Ghost PBody ops loop]> G) W.
Proof.
  intros Hm Ec Hnd Eg Hfs Hg Hd. eapply minv_ghost; [exact Hm|exact Ec|done|done|done| |exact Hg|done| |].
  - simpl. rewrite strip_cons, Hfs by done. done.
  - intros k. by rewrite Eg.
  - intros k. rewrite Eg. unfold stake_of, body_stake. cbn [g_phase g_ops]. by rewrite Hd.
Qed.

Lemma step_yield s rs bs C G W ops loop fs :
  sinv s rs bs C → minv s C G W → awake s C → cpu_frames s = FBody (OYield :: ops) loop :: fs →
  fine (scheduler_yield kernel_vma_byte switch_return (with_frames (FBody ops loop :: fs) s)).
Proof using return_ok.
  intros Hs Hm Ha Ef. destruct (body_next _ _ _ _ _ _ _ _ _ _ Hs Hm Ha Ef) as (c & Ec & Hd & _ & Eg & Hfs & _ & Hg & _ & _ & Hs').
  eapply yield_fine; [exact Hs'|by eapply body_skip|]. simpl. by rewrite fn_lookup_insert.
Qed.

Lemma step_sleep s rs bs C G W ops loop fs :
  sinv s rs bs C → minv s C G W → awake s C → cpu_frames s = FBody (OSleep :: ops) loop :: fs →
  fine (current_thread_sleep (with_frames (FBody ops loop :: fs) s)).
Proof.
  intros Hs Hm Ha Ef. destruct (body_next _ _ _ _ _ _ _ _ _ _ Hs Hm Ha Ef) as (c & Ec & Hd & Hb & Eg & Hfs & Hfr & Hg & _ & _ & Hs').
  set (s1 := with_frames (FBody ops loop :: fs) s) in *.
  assert (Hm1 : minv s1 C (<[current s := Ghost PBody ops loop]> G) W) by (by eapply body_skip).
  unfold current_thread_sleep. rewrite bind_get.
  pose proof (si_current _ _ _ _ _ Hs') as Hz.
  step (assert_ok (negb (current s1 =? NULL)) "t" s1 ltac:(by rewrite (proj2 (Z.eqb_neq _ _) Hz))).
  destruct (block_current kernel_vma_byte s1 rs bs C c) as (s2 & rs' & C' & E2 & Hs2 & Q2 & R2); [done..|]. step E2. unfold push, modify.
  set (G' := <[current s := Ghost PBody ops loop]> G) in *.
  assert (Hp : g_phase (G' (current s1)) ≠ PEntry) by (unfold G'; simpl; by rewrite fn_lookup_insert).
  pose proof (minv_quiet _ _ _ _ _ _ Hm1 Q2 ltac:(by left)) as Hm2.
  assert (Hc2 : current s2 = current s1) by by apply rest_current.
  exists rs', (bs ++ [current s1]), C', G', W. split; [|split].
  - apply sinv_frames; [done|exact (si_flags _ _ _ _ _ Hs2)|]. constructor; [done|exact (si_frames _ _ _ _ _ Hs2)].
  - apply minv_neutral; [done|by rewrite strip_cons_neutral|by rewrite Hc2].
  - destruct (si_cur _ _ _ _ _ Hs2) as [c2 Ec2]. exists c2. split; [done|]. split; [|done].
    rewrite (si_blk _ _ _ _ _ Hs2 (current s2) c2); [done| |done]. rewrite Hc2. mem.
Qed.

Lemma step_block s rs bs C G W ops loop fs :
  sinv s rs bs C → minv s C G W → awake s C → cpu_frames s = FBody (OBlock :: ops) loop :: fs →
  fine (scheduler_block kernel_vma_byte switch_return (with_frames (FBody ops loop :: fs) s)).
Proof using return_ok.
  intros Hs Hm Ha Ef. destruct (body_next _ _ _ _ _ _ _ _ _ _ Hs Hm Ha Ef) as (c & Ec & Hd & Hb & Eg & Hfs & Hfr & Hg & _ & _ & Hs').
  set (s1 := with_frames (FBody ops loop :: fs) s) in *. set (G' := <[current s := Ghost PBody ops loop]> G).
  assert (Hm1 : minv s1 C G' W) by (by eapply body_skip).
  assert (Hp : g_phase (G' (current s)) ≠ PEntry) by (unfold G'; by rewrite fn_lookup_insert).
  unfold scheduler_block. step (enter_cli_ok s1). set (s2 := set_eflags _ s1).
  assert (Hs2 : sinv s2 rs bs C).
  { apply sinv_frames; [done|apply clearbit_word; exact (si_flags _ _ _ _ _ Hs')|exact (si_frames _ _ _ _ _ Hs')]. }
  destruct (lock_spec 16 s2 rs bs C (si_rep _ _ _ _ _ Hs2) (si_ready _ _ _ _ _ Hs2) ltac:(lia)) as (E3 & H3 & Hrd3).
  step E3. rewrite bind_get. change (current (locked s2)) with (current s).
  destruct (make_blocked_sinv kernel_vma_byte s2 rs bs C c Hs2 Ec Hb Hd) as (rs' & Hrm & Hcov & Hrun & Hblk).
  destruct (make_blocked_spec (16 - 1) (locked s2) rs bs C (current s) c rs') as (s4 & E4 & H4 & R4); [done|done|lia|done..|].
  step E4. destruct (unlock_spec 16 s2 s4 _ _ _ (si_ready _ _ _ _ _ Hs2) ltac:(lia) H4 R4) as (s5 & E5 & H5 & R5).
  step E5. unfold push. rewrite bind_modify.
  assert (Hal : alike C (alter (set_state thread_blocked) (current s) C)) by by apply alike_alter.
  assert (Hs5 : sinv s5 rs' (bs ++ [current s]) (alter (set_state thread_blocked) (current s) C)) by (by eapply sinv_rest).
  assert (Hc5 : current s5 = current s) by by rewrite (rest_current _ _ R5).
  eapply (yield_fine _ rs' (bs ++ [current s]) _ G' W); [| |simpl; by rewrite Hc5].
  - apply sinv_frames; [done|exact (si_flags _ _ _ _ _ Hs5)|]. constructor; [exact (si_flags _ _ _ _ _ Hs')|exact (si_frames _ _ _ _ _ Hs5)].
  - apply minv_neutral; [|by rewrite strip_cons_neutral|by rewrite Hc5].
    apply (minv_quiet s2 C); [by apply minv_neutral|apply quiet_rest; [done|by apply undead_alter|done]|by left].
Qed.

Lemma step_loop s rs bs C G W o loop fs :
  sinv s rs bs C → minv s C G W → awake s C → cpu_frames s = FBody [] (o :: loop) :: fs →
  good (with_frames (FBody (o :: loop) (o :: loop) :: fs) s).
Proof.
  intros Hs Hm Ha Ef. destruct (awake_top s C _ fs Ha Ef ltac:(done)) as (c & Ec & Hd & Hb).
  destruct (body_phase _ _ _ _ _ _ (top_stack s C G W c _ fs Hm Ec Ef eq_refl)) as (Eg & Hfs).
  pose proof (mi_ghost _ _ _ _ Hm (current s) ltac:(eauto)) as (A & B & D & _). rewrite Eg in *. cbn [g_ops g_loop] in *.
  exists rs, bs, C, (<[current s := Ghost PBody (o :: loop) (o :: loop)]> G), W. split; [|split; [|by exists c]].
  - apply sinv_frames; [exact Hs|exact (si_flags _ _ _ _ _ Hs)|]. constructor; [done|by eapply frames_tail].
  - eapply minv_ghost; [exact Hm|exact Ec|done|done|done| |done|done| |].
    + simpl. rewrite strip_cons, Hfs by done. done.
    + intros k. by rewrite Eg.
    + intros k. rewrite Eg. unfold stake_of, body_stake. cbn [g_phase g_ops]. by rewrite D.
Qed.

(** A thread that returns from its function is marked dead and stays in the list. *)
Lemma step_exit s rs bs C G W fs :
  sinv s rs bs C → minv s C G W → awake s C → cpu_frames s = FBody [] [] :: fs →
  fine (thread_exit kernel_vma_byte switch_return (current s) 0 (with_frames fs s)).
Proof using return_ok.
  intros Hs Hm Ha Ef. destruct (awake_top s C _ fs Ha Ef ltac:(done)) as (c & Ec & Hd & Hb).
  destruct (body_phase _ _ _ _ _ _ (top_stack s C G W c _ fs Hm Ec Ef eq_refl)) as (Eg & Hfs).
  assert (Hs0 : sinv (with_frames fs s) rs bs C).
  { apply sinv_frames; [exact Hs|exact (si_flags _ _ _ _ _ Hs)|by eapply frames_tail]. }
  unfold thread_exit.
  destruct (update_thread_spec _ _ _ _ _ _ (set_exit_code (s32 0)) (si_rep _ _ _ _ _ Hs0) Ec) as (s1 & E1 & H1 & R1); [done|].
  step E1. set (C1 := alter (set_exit_code (s32 0)) (current s) C) in *.
  assert (Ec1 : C1 !! current s = Some (set_exit_code (s32 0) c)) by (unfold C1; by rewrite lookup_alter_eq, Ec).
  destruct (update_thread_spec _ _ _ _ _ _ (set_state thread_dead) H1 Ec1) as (s2 & E2 & H2 & R2); [done|]. step E2.
  set (C2 := alter (set_state thread_dead) (current s) C1) in *.
  assert (Hal : alike C C2).
  { apply (alike_trans _ C1); by apply alike_alter. }
  assert (Hst : run_states rs C2 ∧ blk_states bs C2).
  { destruct (states_alter (set_exit_code (s32 0)) (current s) C rs bs) as [A1 A2];
      [done|exact (si_run _ _ _ _ _ Hs)|exact (si_blk _ _ _ _ _ Hs)|].
    split; intros q d Hq Ed; destruct (state_alter_set _ _ _ _ _ Ed) as [[-> ->]|[Hne Ed']]; [done|by eapply A1| |by eapply A2].
    by rewrite (si_blk _ _ _ _ _ Hs _ _ Hq Ec) in Hb. }
  assert (R : rest s2 = rest (with_frames fs s)) by congruence.
  assert (Hs2 : sinv s2 rs bs C2) by (eapply sinv_rest; [exact Hs0|done|done|done|done|apply Hst..]).
  assert (Hc2 : current s2 = current s) by by rewrite (rest_current _ _ R).
  unfold push. rewrite bind_modify.
  eapply (yield_fine _ rs bs C2 (<[current s := Ghost PExit [] []]> G) W); [| |simpl; by rewrite Hc2, fn_lookup_insert].
  - apply sinv_frames; [done|exact (si_flags _ _ _ _ _ Hs2)|]. constructor; [done|exact (si_frames _ _ _ _ _ Hs2)].
  - set (s' := with_frames (FExit :: fs) s).
    assert (Hm' : minv s' C (<[current s := Ghost PExit [] []]> G) W).
    { pose proof (mi_ghost _ _ _ _ Hm (current s) ltac:(eauto)) as Hg.
      eapply minv_ghost; [exact Hm|exact Ec|done|done|done| |by rewrite Eg in Hg|done| |].
      + simpl. rewrite strip_cons, Hfs by done. done.
      + intros k. by rewrite Eg.
      + intros k. by rewrite Eg. }
    eapply (minv_move s' C); [exact Hm'|exact (rest_mutexes _ _ R)|intros q; apply Hal|..|left; simpl; by rewrite fn_lookup_insert].
    + intros q. unfold frames_of. simpl. rewrite Hc2, (rest_frames _ _ R). destruct (decide _); [done|].
      destruct (Hal q) as [_ Eq]. destruct (C !! q), (C2 !! q); simplify_eq/=; congruence.
    + intros q Hq. unfold flags_of, frames_of. simpl in *. rewrite Hc2, !decide_False by done.
      destruct (Hal q) as [_ Eq]. destruct (C !! q), (C2 !! q); simplify_eq/=; split; congruence.
    + intros q d Ed Hdd. destruct (decide (q = current s)) as [->|Hq]; [by rewrite fn_lookup_insert|].
      rewrite fn_lookup_insert_ne by done. apply (mi_dead _ _ _ _ Hm q d); [|done].
      unfold C2, C1 in Ed. by rewrite !lookup_alter_ne in Ed.
Qed.

(** *** The steps of mutex_acquire and mutex_release *)

Lemma depth_acquire k m ops : depth k (OAcquire m :: ops) = depth k ops - (if m =? k then 1 else 0).
Proof. done. Qed.
Lemma depth_release k m ops : depth k (ORelease m :: ops) = depth k ops + (if m =? k then 1 else 0).
Proof. done. Qed.

Lemma body_stake_at x i k ops n :
  stake_holds x i (body_stake k ops) → depth k ops = n → 0 < n → m_owner x = i ∧ m_nested x = n.
Proof. unfold body_stake. intros H <- Hn. by rewrite (proj2 (Z.ltb_lt 0 (depth k ops)) Hn) in H. Qed.

Lemma body_stake_none x i k ops : stake_holds x i (body_stake k ops) → depth k ops ≤ 0 → m_owner x ≠ i.
Proof. unfold body_stake. intros H Hn. by rewrite (proj2 (Z.ltb_ge 0 (depth k ops)) Hn) in H. Qed.

(** The state after an atomic change of mutex [m] and of the frames. *)
Definition after (X : gmap Z mutex) (fs : list frame) s : sys := set_cpu (cpu_eflags s) fs (set_mutexes X s).

Lemma good_after s rs bs C G' W X fs c :
  sinv s rs bs C → C !! current s = Some c → state c ≠ thread_dead → state c ≠ thread_blocked → Forall frame_ok fs →
  minv (after X fs s) C G' W → good (after X fs s).
Proof.
  intros Hs Ec Hd Hb Hfs Hm. exists rs, bs, C, G', W. split; [|split; [done|by exists c]].
  apply sinv_cpu; [done|exact (si_flags _ _ _ _ _ Hs)|done].
Qed.

Lemma load_current s rs bs C c :
  sinv s rs bs C → C !! current s = Some c → ∃ th, load_thread (current s) s = Ret th s ∧ tid th = tid c.
Proof.
  intros Hs Ec. destruct (load_thread_spec _ _ _ _ _ _ (si_rep _ _ _ _ _ Hs) Ec) as (th & E & <-). by exists th.
Qed.

Lemma cas_waiting i x : waiting_threads (cas_result i x) = waiting_threads x ∧
  waiting_threads_lock (cas_result i x) = waiting_threads_lock x ∧ m_nested (cas_result i x) = m_nested x.
Proof. unfold cas_result. by destruct (m_owner x =? 0). Qed.

Lemma cas_owner_eq i x : m_owner (cas_result i x) = if m_owner x =? 0 then i else m_owner x.
Proof. unfold cas_result. by destruct (m_owner x =? 0). Qed.

(** The other threads after a compare-and-swap by the current one. *)
Lemma cas_others s rs bs C G W m x c :
  sinv s rs bs C → minv s C G W → C !! current s = Some c → mutexes s !! m = Some x →
  ∀ t ct, t ≠ current s → C !! t = Some ct → stake_holds (cas_result (tid c) x) (tid ct) (stake_of m (G t)).
Proof.
  intros Hs Hm Ec Ex t ct Hne Et. destruct (decide (m_owner x = 0)) as [E0|E0].
  - eapply others_owned; [exact Hs|exact Hm|done|exact Ex| |by left|done|done].
    by rewrite cas_owner_eq, E0.
  - unfold cas_result. rewrite (proj2 (Z.eqb_neq _ _) E0). by apply (mi_stake _ _ _ _ Hm).
Qed.

Lemma step_acquire s rs bs C G W m ops loop fs :
  sinv s rs bs C → minv s C G W → awake s C → cpu_frames s = FBody (OAcquire m :: ops) loop :: fs →
  fine (mutex_acquire m (with_frames (FBody ops loop :: fs) s)).
Proof.
  intros Hs Hm Ha Ef.
  destruct (body_next _ _ _ _ _ _ _ _ _ _ Hs Hm Ha Ef) as (c & Ec & Hd & Hb & Eg & Hfs & Hfr & Hg & [x Ex] & Hwf & Hs').
  set (s1 := with_frames (FBody ops loop :: fs) s) in *. destruct Hwf as [Hd1 Hwf].
  pose proof (si_tids _ _ _ _ _ Hs _ _ Ec) as Hti. pose proof (si_current _ _ _ _ _ Hs) as Hz.
  pose proof (mi_stake _ _ _ _ Hm m x _ _ Ex Ec) as Hst. rewrite Eg in Hst. cbn in Hst.
  destruct (load_current s1 _ _ _ _ Hs' Ec) as (th & El & Eth).
  unfold mutex_acquire. rewrite bind_get. change (current s1) with (current s) in *.
  step (assert_ok (negb (current s =? NULL)) "me" s1 ltac:(by rewrite (proj2 (Z.eqb_neq _ _) Hz))). step El. rewrite Eth.
  step (cas_mutex_ok s1 m x (tid c) Ex). unfold push. rewrite bind_modify.
  set (X := <[m := cas_result (tid c) x]> (mutexes s)).
  assert (Hfr' : Forall frame_ok (FBody ops loop :: fs)) by (by constructor).
  assert (Hdm : depth m (OAcquire m :: ops) = depth m ops - 1) by (rewrite depth_acquire, Z.eqb_refl; lia).
  destruct (cas_waiting (tid c) x) as (Hw1 & Hw2 & Hw3).
  assert (Hzero : m_owner (cas_result (tid c) x) = 0 → m_nested (cas_result (tid c) x) = 0).
  { rewrite Hw3, cas_owner_eq. destruct (Z.eqb_spec (m_owner x) 0); [done|]. by apply (mi_zero _ _ _ _ Hm m). }
  assert (Hoth := cas_others s rs bs C G W m x c Hs Hm Ec Ex).
  assert (Hst' : ∀ ph k, k ≠ m → stake_of k (Ghost (ph m) ops loop) = body_stake k ops →
    stake_of k (Ghost (ph m) ops loop) = stake_of k (G (current s))).
  { intros ph k Hk ->. rewrite Eg. unfold stake_of, body_stake. cbn [g_phase g_ops].
    rewrite depth_acquire, (proj2 (Z.eqb_neq m k)) by done. by rewrite Z.sub_0_r. }
  destruct (Z.eqb_spec (m_owner x) (tid c)) as [Eo|Eo]; cbn [negb].
  - assert (Hdp : 0 < depth m ops - 1).
    { destruct (decide (0 < depth m ops - 1)); [done|]. exfalso. apply (body_stake_none _ _ _ _ Hst); [lia|done]. }
    destruct (body_stake_at _ _ _ _ _ Hst Hdm Hdp) as [_ Hn].
    change (good (after X (FNest m :: FBody ops loop :: fs) s)).
    eapply good_after; [exact Hs|exact Ec|done|done|by constructor|].
    eapply (minv_update s C G W _ m x (cas_result (tid c) x) (Ghost (PNest m) ops loop)); try done.
    + simpl. rewrite !strip_cons, Hfs by done. done.
    + destruct Hg as (? & ? & ? & _). split; [done|]. split; [done|]. split; [done|]. simpl. split; [lia|eauto].
    + intros k Hk. apply Hst'; [done|]. cbn. by rewrite (proj2 (Z.eqb_neq m k)).
    + intros k. by rewrite Eg.
    + cbn. rewrite Z.eqb_refl. simpl. rewrite Hw3, cas_owner_eq. split; [|lia]. by destruct (m_owner x =? 0).
  - assert (Hdp : depth m ops = 1).
    { destruct (decide (0 < depth m ops - 1)) as [Hp|]; [|lia]. exfalso. by destruct (body_stake_at _ _ _ _ _ Hst Hdm Hp). }
    change (good (after X (FObserve m :: FWait m :: FUnobserve m :: FNest m :: FBody ops loop :: fs) s)).
    eapply good_after; [exact Hs|exact Ec|done|done|by repeat constructor|].
    eapply (minv_update s C G W _ m x (cas_result (tid c) x) (Ghost (PObserve m) ops loop)); try done.
    + simpl. rewrite !strip_cons, Hfs by done. done.
    + destruct Hg as (? & ? & ? & _). split; [done|]. split; [done|]. split; [done|]. simpl. split; [lia|eauto].
    + intros k Hk. apply Hst'; [done|]. cbn. by rewrite (proj2 (Z.eqb_neq m k)).
    + intros k. by rewrite Eg.
    + cbn. rewrite Z.eqb_refl. simpl. rewrite Hw3, cas_owner_eq. destruct (Z.eqb_spec (m_owner x) 0); [|done].
      intros _. by apply (mi_zero _ _ _ _ Hm m).
Qed.

(** When the current thread owns the mutex before and after, the others have no part in it. *)
Lemma owner_others s rs bs C G W m x x' c :
  sinv s rs bs C → minv s C G W → C !! current s = Some c → mutexes s !! m = Some x →
  m_owner x = tid c → m_owner x' = tid c →
  ∀ t ct, t ≠ current s → C !! t = Some ct → stake_holds x' (tid ct) (stake_of m (G t)).
Proof. intros Hs Hm Ec Ex Ho Ho'. eapply others_owned; eauto. Qed.

Lemma step_release s rs bs C G W m ops loop fs :
  sinv s rs bs C → minv s C G W → awake s C → cpu_frames s = FBody (ORelease m :: ops) loop :: fs →
  fine (mutex_release m (with_frames (FBody ops loop :: fs) s)).
Proof.
  intros Hs Hm Ha Ef.
  destruct (body_next _ _ _ _ _ _ _ _ _ _ Hs Hm Ha Ef) as (c & Ec & Hd & Hb & Eg & Hfs & Hfr & Hg & [x Ex] & Hwf & Hs').
  set (s1 := with_frames (FBody ops loop :: fs) s) in *.
  pose proof (mi_stake _ _ _ _ Hm m x _ _ Ex Ec) as Hst. rewrite Eg in Hst. cbn in Hst.
  pose proof (depth_bounds m ops Hwf) as Hbd. destruct Hg as ((G1 & G2 & G3) & G4 & G5 & _). cbn [g_ops g_loop] in *.
  assert (Hdm : depth m (ORelease m :: ops) = depth m ops + 1) by (rewrite depth_release, Z.eqb_refl; lia).
  destruct (body_stake_at _ _ _ _ _ Hst Hdm ltac:(lia)) as [Ho Hn].
  unfold mutex_release. set (f := λ x, set_m_nested (u32 (m_nested x - 1)) x). step (update_mutex_ok s1 m x f Ex).
  change (good (after (<[m := f x]> (mutexes s)) (FTest m :: FBody ops loop :: fs) s)).
  assert (Hnx : m_nested (f x) = depth m ops).
  { unfold f. simpl. rewrite Hn, u32_small by lia. lia. }
  pose proof (si_tids _ _ _ _ _ Hs _ _ Ec) as Hti.
  eapply good_after; [exact Hs|exact Ec|done|done|by repeat constructor|].
  eapply (minv_update s C G W _ m x (f x) (Ghost (PTest m) ops loop)); try done.
  - simpl. rewrite !strip_cons, Hfs by done. done.
  - split; [by split|]. split; [done|]. split; [done|]. simpl. eauto.
  - simpl. congruence.
  - intros k Hk. rewrite Eg. cbn. rewrite (proj2 (Z.eqb_neq m k)) by done. unfold body_stake.
    by rewrite depth_release, (proj2 (Z.eqb_neq m k)), Z.add_0_r by done.
  - intros k. by rewrite Eg.
  - cbn. rewrite Z.eqb_refl. done.
  - by eapply owner_others.
Qed.

Lemma nest_phase t i g m l : FNest m :: l = stack_of t i g →
  ∃ ops loop, g = Ghost (PNest m) ops loop ∧ l = [FBody ops loop].
Proof. unfold stack_of; destruct g as [[] o l']; cbn; intros; simplify_eq; eauto. Qed.
Lemma test_phase t i g m l : FTest m :: l = stack_of t i g →
  ∃ ops loop, g = Ghost (PTest m) ops loop ∧ l = [FBody ops loop].
Proof. unfold stack_of; destruct g as [[] o l']; cbn; intros; simplify_eq; eauto. Qed.

Lemma step_nest s rs bs C G W m fs :
  sinv s rs bs C → minv s C G W → awake s C → cpu_frames s = FNest m :: fs →
  fine (update_mutex m (λ x, set_m_nested (u32 (m_nested x + 1)) x) (with_frames fs s)).
Proof.
  intros Hs Hm Ha Ef. destruct (awake_top s C _ fs Ha Ef ltac:(done)) as (c & Ec & Hd & Hb).
  destruct (nest_phase _ _ _ _ _ (top_stack s C G W c _ fs Hm Ec Ef eq_refl)) as (ops & loop & Eg & Hfs).
  pose proof (mi_ghost _ _ _ _ Hm (current s) ltac:(eauto)) as Hg.
  rewrite Eg in Hg. destruct Hg as ((G1 & G2 & G3) & G4 & G5 & G6 & [x Ex]). cbn [g_ops g_loop g_phase] in *.
  pose proof (mi_stake _ _ _ _ Hm m x _ _ Ex Ec) as Hst. rewrite Eg in Hst. cbn in Hst. rewrite Z.eqb_refl in Hst.
  destruct Hst as [Ho Hn]. pose proof (depth_bounds m ops G1) as Hbd.
  set (f := λ x, set_m_nested (u32 (m_nested x + 1)) x). rewrite (update_mutex_ok (with_frames fs s) m x f Ex).
  change (good (after (<[m := f x]> (mutexes s)) fs s)).
  assert (Hnx : m_nested (f x) = depth m ops).
  { unfold f. simpl. rewrite Hn, u32_small by lia. lia. }
  pose proof (si_tids _ _ _ _ _ Hs _ _ Ec) as Hti.
  eapply good_after; [exact Hs|exact Ec|done|done|by eapply frames_tail|].
  eapply (minv_update s C G W _ m x (f x) (Ghost PBody ops loop)); try done.
  - simpl. congruence.
  - intros k Hk. rewrite Eg. cbn. by rewrite (proj2 (Z.eqb_neq m k)).
  - intros k. by rewrite Eg.
  - cbn. unfold body_stake. by rewrite (proj2 (Z.ltb_lt 0 (depth m ops))).
  - by eapply owner_others.
Qed.

Lemma step_test s rs bs C G W m fs :
  sinv s rs bs C → minv s C G W → awake s C → cpu_frames s = FTest m :: fs →
  fine ((x ← load_mutex m; if m_nested x =? 0 then push (FWake m) else mret tt) (with_frames fs s)).
Proof.
  intros Hs Hm Ha Ef. destruct (awake_top s C _ fs Ha Ef ltac:(done)) as (c & Ec & Hd & Hb).
  destruct (test_phase _ _ _ _ _ (top_stack s C G W c _ fs Hm Ec Ef eq_refl)) as (ops & loop & Eg & Hfs).
  pose proof (mi_ghost _ _ _ _ Hm (current s) ltac:(eauto)) as Hg.
  rewrite Eg in Hg. destruct Hg as ((G1 & G2 & G3) & G4 & G5 & [x Ex]). cbn [g_ops g_loop g_phase] in *.
  pose proof (mi_stake _ _ _ _ Hm m x _ _ Ex Ec) as Hst. rewrite Eg in Hst. cbn in Hst. rewrite Z.eqb_refl in Hst.
  destruct Hst as [Ho Hn]. pose proof (depth_bounds m ops G1) as Hbd.
  step (load_mutex_ok (with_frames fs s) m x Ex). pose proof (si_tids _ _ _ _ _ Hs _ _ Ec) as Hti.
  pose proof (frames_tail _ _ _ _ _ _ Hs Ef) as Hfr.
  destruct (Z.eqb_spec (m_nested x) 0) as [E0|E0].
  - change (good (with_frames (FWake m :: fs) s)).
    exists rs, bs, C, (<[current s := Ghost (PWake m) ops loop]> G), W. split; [|split; [|by exists c]].
    { apply sinv_frames; [exact Hs|exact (si_flags _ _ _ _ _ Hs)|by constructor]. }
    eapply minv_ghost; try done.
    + simpl. rewrite strip_cons, Hfs by done. done.
    + split; [by split|]. split; [done|]. split; [done|]. simpl. split; [lia|eauto].
    + intros k. by rewrite Eg.
    + intros k. rewrite Eg. cbn. destruct (Z.eqb_spec m k) as [->|]; [|done]. f_equal. lia.
  - change (good (with_frames fs s)).
    exists rs, bs, C, (<[current s := Ghost PBody ops loop]> G), W. split; [|split; [|by exists c]].
    { apply sinv_frames; [exact Hs|exact (si_flags _ _ _ _ _ Hs)|done]. }
    eapply minv_ghost; try done.
    + intros k. by rewrite Eg.
    + intros k. rewrite Eg. cbn. destruct (Z.eqb_spec m k) as [->|]; [|done].
      unfold body_stake. by rewrite (proj2 (Z.ltb_lt 0 (depth k ops))) by lia.
Qed.

Lemma wait_phase t i g m l : FWait m :: l = stack_of t i g →
  ∃ ops loop, g = Ghost (PWait m) ops loop ∧ l = [FUnobserve m; FNest m; FBody ops loop].
Proof. unfold stack_of; destruct g as [[] o l']; cbn; intros; simplify_eq; eauto. Qed.
Lemma waiting_phase t i g m v f l : FWaiting m v f :: l = stack_of t i g →
  ∃ ops loop, v = i ∧ g = Ghost (PWaiting m f) ops loop ∧ l = [FUnobserve m; FNest m; FBody ops loop].
Proof. unfold stack_of; destruct g as [[] o l']; cbn; intros; simplify_eq; eauto 10. Qed.

(** Between [mutex_add_observer] and the end of [scheduler_wait_object_acquire]. *)
Definition waiting_for (m : Z) (ops loop : list op) (g : ghost) : Prop :=
  g = Ghost (PWait m) ops loop ∨ ∃ f, g = Ghost (PWaiting m f) ops loop.

Lemma waiting_for_facts m ops loop g X :
  waiting_for m ops loop g → ghost_ok X g →
  (∀ k, waits k g = (m =? k)) ∧ (∀ k, stake_of k g = if m =? k then May else body_stake k ops) ∧
  depth m ops = 1 ∧ is_Some (X !! m) ∧ program_ok X ops ∧ program_ok X loop ∧ (∀ k, depth k loop = 0).
Proof. intros [->|[f ->]] (H1 & H2 & H3 & H4 & H5); split; try done. Qed.

Lemma wait_round_fine s rs bs C G W m c ops loop fs e flags1 :
  sinv s rs bs C → minv s C G W → C !! current s = Some c → state c ≠ thread_dead → state c ≠ thread_blocked →
  waiting_for m ops loop (G (current s)) → strip fs = [FUnobserve m; FNest m; FBody ops loop] → Forall frame_ok fs →
  0 ≤ e < W32 → 0 ≤ flags1 < W32 →
  fine (wait_round kernel_vma_byte switch_return m (tid c) flags1 e (locked (set_cpu e fs s))).
Proof using return_ok.
  intros Hs Hm Ec Hd Hb Hwf Hfs Hfr He Hf1.
  destruct (waiting_for_facts _ _ _ _ _ Hwf (mi_ghost _ _ _ _ Hm (current s) ltac:(eauto))) as (Hw & Hst & Hdm & [x Ex] & P1 & P2 & P3).
  pose proof (mi_stake _ _ _ _ Hm m x _ _ Ex Ec) as Hx. rewrite Hst, Z.eqb_refl in Hx. simpl in Hx.
  unfold wait_round. step (cas_mutex_ok (locked (set_cpu e fs s)) m x (tid c) Ex).
  set (X := <[m := cas_result (tid c) x]> (mutexes s)). set (s2 := set_cpu e fs (set_mutexes X s)).
  change (set_mutexes _ (locked (set_cpu e fs s))) with (locked s2).
  assert (Hs2 : sinv s2 rs bs C) by (by apply sinv_cpu).
  destruct (cas_waiting (tid c) x) as (Hw1 & Hw2 & Hw3).
  assert (Hother : ∀ ph k, k ≠ m → stake_of k (Ghost ph ops loop) = body_stake k ops →
    stake_of k (Ghost ph ops loop) = stake_of k (G (current s))).
  { intros ph k Hk ->. rewrite Hst. by rewrite (proj2 (Z.eqb_neq m k)). }
  assert (Hoth := cas_others s rs bs C G W m x c Hs Hm Ec Ex).
  assert (Hzero : m_owner (cas_result (tid c) x) = 0 → m_nested (cas_result (tid c) x) = 0).
  { rewrite Hw3, cas_owner_eq. destruct (Z.eqb_spec (m_owner x) 0); [|by apply (mi_zero _ _ _ _ Hm m)].
    intros _. by apply (mi_zero _ _ _ _ Hm m). }
  destruct (Z.eqb_spec (m_owner x) (tid c)) as [Eo|Eo]; cbn [negb].
  - destruct (lock_spec 16 s2 rs bs C (si_rep _ _ _ _ _ Hs2) (si_ready _ _ _ _ _ Hs2) ltac:(lia)) as (_ & H3 & _).
    destruct (unlock_spec 16 s2 (locked s2) _ _ _ (si_ready _ _ _ _ _ Hs2) ltac:(lia) H3 eq_refl) as (s4 & E4 & H4 & R4).
    change e with (cpu_eflags s2). step E4. unfold interrupts_leave_cli, modify.
    assert (Hs4 : sinv s4 rs bs C).
    { eapply sinv_rest; [exact Hs2|done|apply alike_refl|done|done|exact (si_run _ _ _ _ _ Hs)|exact (si_blk _ _ _ _ _ Hs)]. }
    exists rs, bs, C, (<[current s := Ghost (PUnobserve m) ops loop]> G), W. split; [|split].
    + apply sinv_frames; [done|done|exact (si_frames _ _ _ _ _ Hs4)].
    + eapply (minv_update s C G W _ m x (cas_result (tid c) x) (Ghost (PUnobserve m) ops loop)); try done.
      * simpl. by rewrite (rest_mutexes _ _ R4).
      * simpl. by rewrite (rest_current _ _ R4).
      * simpl. by rewrite (rest_frames _ _ R4).
      * intros k Hk. apply Hother; [done|]. cbn. by rewrite (proj2 (Z.eqb_neq m k)).
      * cbn. rewrite Z.eqb_refl. simpl. rewrite Hw3, cas_owner_eq. split; [by destruct (m_owner x =? 0)|by apply Hx].
    + exists c. simpl. rewrite (rest_current _ _ R4). done.
  - change (fine (block_and_switch kernel_vma_byte switch_return m (tid c) flags1 (cpu_eflags s2) (locked s2))).
    destruct (block_sinv kernel_vma_byte switch_return return_ok s2 rs bs C c m (tid c) flags1) as
      [->|(s' & rs' & bs' & C' & -> & Hs' & Q & (c' & Ec' & Hc'))]; [done..|by left|].
    exists rs', bs', C', (<[current s := Ghost (PWaiting m flags1) ops loop]> G), W. split; [done|]. split.
    2:{ exists c'. split; [done|]. by rewrite Hc'. }
    eapply minv_quiet; [|exact Q|left; simpl; by rewrite fn_lookup_insert].
    eapply (minv_update s C G W _ m x (cas_result (tid c) x) (Ghost (PWaiting m flags1) ops loop)); try done.
    + simpl. rewrite strip_cons, Hfs by done. done.
    + cbn. rewrite Z.eqb_refl. simpl. rewrite Hw3, cas_owner_eq. destruct (Z.eqb_spec (m_owner x) 0); [|done].
      intros _. by apply (mi_zero _ _ _ _ Hm m).
Qed.

Lemma step_wait s rs bs C G W m fs :
  sinv s rs bs C → minv s C G W → awake s C → cpu_frames s = FWait m :: fs →
  fine ((s ← get; me ← load_thread (current s);
    scheduler_wait_object_acquire kernel_vma_byte switch_return m (tid me)) (with_frames fs s)).
Proof using return_ok.
  intros Hs Hm Ha Ef. destruct (awake_top s C _ fs Ha Ef ltac:(done)) as (c & Ec & Hd & Hb).
  destruct (wait_phase _ _ _ _ _ (top_stack s C G W c _ fs Hm Ec Ef eq_refl)) as (ops & loop & Eg & Hfs).
  pose proof (frames_tail _ _ _ _ _ _ Hs Ef) as Hfr. pose proof (si_flags _ _ _ _ _ Hs) as Hfl.
  assert (Hs0 : sinv (with_frames fs s) rs bs C) by (by apply sinv_frames).
  rewrite bind_get. destruct (load_current _ _ _ _ _ Hs0 Ec) as (th & El & Eth). step El. rewrite Eth.
  unfold scheduler_wait_object_acquire. step (enter_cli_ok (with_frames fs s)).
  set (e := Z.clearbit (cpu_eflags s) flags_if_bit). set (s2 := set_cpu e fs s). change (set_eflags _ _) with s2.
  assert (He : 0 ≤ e < W32) by by apply clearbit_word.
  assert (Hs2 : sinv s2 rs bs C) by (by apply sinv_frames).
  destruct (lock_spec 16 s2 rs bs C (si_rep _ _ _ _ _ Hs2) (si_ready _ _ _ _ _ Hs2) ltac:(lia)) as (E3 & _). step E3.
  eapply wait_round_fine; [exact Hs|exact Hm|exact Ec|done|done|by left|done..].
Qed.

Lemma step_waiting s rs bs C G W m v flags1 fs :
  sinv s rs bs C → minv s C G W → awake s C → cpu_frames s = FWaiting m v flags1 :: fs →
  fine ((flags2 ← scheduler_lock; wait_round kernel_vma_byte switch_return m v flags1 flags2) (with_frames fs s)).
Proof using return_ok.
  intros Hs Hm Ha Ef. destruct (awake_top s C _ fs Ha Ef ltac:(done)) as (c & Ec & Hd & Hb).
  destruct (waiting_phase _ _ _ _ _ _ _ (top_stack s C G W c _ fs Hm Ec Ef eq_refl)) as (ops & loop & -> & Eg & Hfs).
  pose proof (si_frames _ _ _ _ _ Hs) as Hfr. rewrite Ef in Hfr. apply Forall_cons_1 in Hfr as [Hf1 Hfr].
  pose proof (si_flags _ _ _ _ _ Hs) as Hfl.
  assert (Hs0 : sinv (with_frames fs s) rs bs C) by (by apply sinv_frames).
  destruct (lock_spec 16 _ rs bs C (si_rep _ _ _ _ _ Hs0) (si_ready _ _ _ _ _ Hs0) ltac:(lia)) as (E3 & _). step E3.
  eapply wait_round_fine; [exact Hs|exact Hm|exact Ec|done|done|right; eauto|done..].
Qed.

(** *** The waiting lists *)

#[local] Instance waiting_lock_laws m : LockLaws (waiting_lock_in m).
Proof.
  split; try done.
  - intros l s [l' E]. simpl in *. rewrite lookup_alter_eq. by destruct (mutexes s !! m).
  - intros l l' s. simpl. unfold set_mutexes. simpl. f_equal. apply map_eq. intros q. destruct (decide (q = m)) as [->|Hq].
    + rewrite !lookup_alter_eq. by destruct (mutexes s !! m).
    + by rewrite !lookup_alter_ne.
  - intros l s E. simpl in *. unfold set_mutexes. destruct s; simpl in *. f_equal. apply map_eq. intros q.
    destruct (decide (q = m)) as [->|Hq]; [|by rewrite lookup_alter_ne]. rewrite lookup_alter_eq.
    destruct (mutexes !! m) as [[]|]; simplify_eq/=; done.
Qed.

(** The critical section of a waiting list, entered and left. *)
Definition hold_waiting (m : Z) s : sys := entered (waiting_lock_in m) (Spinlock (current_tid s) 1) s.

Lemma hold_ok s rs bs C m x :
  sinv s rs bs C → mutexes s !! m = Some x → waiting_threads_lock x = Spinlock 0 0 →
  spinlock_acquire (waiting_lock_in m) s = Ret (cpu_eflags s) (hold_waiting m s) ∧
  mutexes (hold_waiting m s) !! m = Some (set_waiting_lock (Spinlock (current_tid s) 1) x).
Proof.
  intros Hs Ex Hl. split.
  - rewrite (acquire_ok (waiting_lock_in m) s (Spinlock 0 0)); [done| |exact (ready_tid _ _ (si_ready _ _ _ _ _ Hs))|by left].
    simpl. by rewrite Ex, <- Hl.
  - simpl. by rewrite lookup_alter_eq, Ex.
Qed.

Lemma drop_ok s s2 m y :
  flags_word s → mutexes s2 !! m = Some y → waiting_threads_lock y = Spinlock (current_tid s) 1 →
  cpu_eflags s2 = Z.clearbit (cpu_eflags s) flags_if_bit →
  spinlock_release (waiting_lock_in m) (cpu_eflags s) s2 =
    Ret tt (set_cpu (cpu_eflags s) (cpu_frames s2)
      (set_mutexes (<[m := set_waiting_lock (Spinlock 0 0) y]> (mutexes s2)) s2)).
Proof.
  intros Hw Ey Hl He. rewrite (release_ok (waiting_lock_in m) s2 (Spinlock (current_tid s) 1)).
  - unfold released. cbn [nested owner]. change (u32 (1 - 1)) with 0. simpl. f_equal. f_equal. f_equal.
    apply map_eq. intros q. destruct (decide (q = m)) as [->|Hq].
    + by rewrite lookup_alter_eq, Ey, lookup_insert_eq.
    + by rewrite lookup_alter_ne, lookup_insert_ne.
  - cbn [waiting_lock_in get_lock]. rewrite Ey. cbn. by rewrite Hl.
  - unfold flags_word. simpl. rewrite He. by apply clearbit_word.
  - unfold masked. change (eflags s2) with (cpu_eflags s2). rewrite He, Z.clearbit_eqb, Z.eqb_refl by (unfold flags_if_bit; lia). apply andb_false_r.
Qed.

(** Waiting links may change without the scheduler noticing. *)
Definition sched_part (c : thread) : Z * Z := (scheduler_thread_next c, scheduler_thread_prev c).

Lemma dl_rep_sched h h' hd ps :
  (∀ q, sched_part <$> h' !! q = sched_part <$> h !! q) → dl_rep sched_links h hd ps → dl_rep sched_links h' hd ps.
Proof.
  intros Hw (-> & Hs & Hz). split; [done|]. split; [|done]. revert Hs. generalize (last_or NULL ps) as a. clear Hz.
  induction ps as [|q ps IH]; intros a; [done|]. intros (n & En & Hp & Hn & Hs).
  pose proof (Hw q) as Hq. rewrite En in Hq. destruct (h' !! q) as [n'|] eqn:E; [|done].
  unfold sched_part in Hq. simplify_eq/=. exists n'. split; [done|]. split; [simpl; congruence|]. split; [simpl; congruence|].
  by apply IH.
Qed.

Lemma relink_rep s rs bs C X h' :
  rep s rs bs C → dlinks_only wait_links X (threads s) h' →
  rep (set_threads h' s) rs bs (cores h') ∧ (∀ q, base_part <$> cores h' !! q = base_part <$> C !! q) ∧
  (∀ q, q ∉ X → wait_part <$> cores h' !! q = wait_part <$> C !! q).
Proof.
  intros [A1 A2 A3 <-] D.
  assert (Hd : ∀ {A} (f : thread → A), (∀ x, f (dl_data wait_links x) = f x) → ∀ q, f <$> h' !! q = f <$> threads s !! q).
  { intros A f Hf q. destruct (D q) as [_ Dq]. apply (f_equal (fmap f)) in Dq. rewrite <- !option_fmap_compose in Dq.
    destruct (h' !! q), (threads s !! q); cbn in *; [|done..]. by rewrite !Hf in Dq. }
  split; [|split].
  - split; simpl; [by apply (dl_rep_sched (threads s)); [apply Hd|]..|done|done].
  - intros q. rewrite !cores_lookup, <- !option_fmap_compose. by apply Hd.
  - intros q Hq. rewrite !cores_lookup. by rewrite (proj1 (D q) Hq).
Qed.

Lemma wait_heap s rs bs C hd ps : rep s rs bs C → dl_rep wait_links C hd ps → dl_rep wait_links (threads s) hd ps.
Proof.
  intros H. apply dl_rep_wait. intros q _. rewrite <- (rep_cores _ _ _ _ H), cores_lookup. by destruct (threads s !! q).
Qed.

Lemma heap_wait h hd ps : dl_rep wait_links h hd ps → dl_rep wait_links (cores h) hd ps.
Proof. apply dl_rep_wait. intros q _. rewrite cores_lookup. by destruct (h !! q). Qed.

Lemma observe_phase t i g m l : FObserve m :: l = stack_of t i g →
  ∃ ops loop, g = Ghost (PObserve m) ops loop ∧ l = [FWait m; FUnobserve m; FNest m; FBody ops loop].
Proof. unfold stack_of; destruct g as [[] o l']; cbn; intros; simplify_eq; eauto. Qed.
Lemma unobserve_phase t i g m l : FUnobserve m :: l = stack_of t i g →
  ∃ ops loop, g = Ghost (PUnobserve m) ops loop ∧ l = [FNest m; FBody ops loop].
Proof. unfold stack_of; destruct g as [[] o l']; cbn; intros; simplify_eq; eauto. Qed.
Lemma wake_phase t i g m l : FWake m :: l = stack_of t i g →
  ∃ ops loop, g = Ghost (PWake m) ops loop ∧ l = [FBody ops loop].
Proof. unfold stack_of; destruct g as [[] o l']; cbn; intros; simplify_eq; eauto. Qed.

(** The state in which [m]'s waiting list has been changed. *)
Definition relinked m x hd h' fs s : sys :=
  set_cpu (cpu_eflags s) fs (set_mutexes (<[m := set_waiting hd x]> (mutexes s)) (set_threads h' s)).

Lemma relinked_good s rs bs C G W m x hd h' ws g c fs :
  sinv s rs bs C → minv s C G W → C !! current s = Some c → state c ≠ thread_dead → state c ≠ thread_blocked →
  mutexes s !! m = Some x → Forall frame_ok fs → strip fs = stack_of (current s) (tid c) g →
  ghost_ok (mutexes s) g → g_phase g ≠ PEntry → (∀ k, stake_of k g = stake_of k (G (current s))) →
  dlinks_only wait_links (current s :: W m) (threads s) h' → dl_rep wait_links h' hd ws →
  (∀ t, t ≠ current s → t ∈ ws ↔ t ∈ W m) → (current s ∈ ws ↔ waits m g = true) →
  (∀ k, k ≠ m → waits k g = false ∧ waits k (G (current s)) = false) →
  (∀ th, h' !! current s = Some th → waits m g = false → wait_queue_next th = 0) →
  good (relinked m x hd h' fs s).
Proof.
  intros Hs Hm Ec Hd Hb Ex Hfr Hfs Hg Hpe Hst D Hrep Hws Hcur Hk Hlink.
  destruct (relink_rep s rs bs C _ h' (si_rep _ _ _ _ _ Hs) D) as (Hr & Hbp & Hwp).
  exists rs, bs, (cores h'), (<[current s := g]> G), (<[m := ws]> W). split; [|split].
  - eapply sinv_relink; [exact Hs| |exact Hbp|done|done|exact (si_flags _ _ _ _ _ Hs)|done]. by destruct Hr.
  - eapply (minv_relink s C G W _ _ m x hd ws g c); try done.
    + by apply heap_wait.
    + intros c' Ec' Hw. rewrite cores_lookup in Ec'. destruct (h' !! current s) as [th|] eqn:E; [|done].
      injection Ec' as <-. by apply (Hlink th).
  - pose proof (Hbp (current s)) as Hbc. rewrite Ec in Hbc. unfold awake. change (current (relinked m x hd h' fs s)) with (current s).
    destruct (cores h' !! current s) as [c'|]; [|done]. cbn in Hbc. unfold base_part in Hbc. injection Hbc as _ Est _.
    exists c'. split; [done|]. by rewrite Est.
Qed.

Lemma step_observe s rs bs C G W m fs :
  sinv s rs bs C → minv s C G W → awake s C → cpu_frames s = FObserve m :: fs →
  fine ((s ← get; mutex_add_observer m (current s)) (with_frames fs s)).
Proof.
  intros Hs Hm Ha Ef. destruct (awake_top s C _ fs Ha Ef ltac:(done)) as (c & Ec & Hd & Hb).
  destruct (observe_phase _ _ _ _ _ (top_stack s C G W c _ fs Hm Ec Ef eq_refl)) as (ops & loop & Eg & Hfs).
  pose proof (mi_ghost _ _ _ _ Hm (current s) ltac:(eauto)) as Hg. rewrite Eg in Hg.
  destruct Hg as (G1 & G2 & G3 & G4 & [x Ex]). pose proof (frames_tail _ _ _ _ _ _ Hs Ef) as Hfr.
  set (s0 := with_frames fs s).
  assert (Hs0 : sinv s0 rs bs C) by (apply sinv_frames; [exact Hs|exact (si_flags _ _ _ _ _ Hs)|done]).
  rewrite bind_get. unfold mutex_add_observer. change (current s0) with (current s).
  destruct (rep_thread s0 _ _ _ _ _ (si_rep _ _ _ _ _ Hs0) Ec) as (th & Eth & Hth).
  step (load_thread_ok s0 _ th Eth).
  assert (Hl0 : wait_queue_next th = 0).
  { transitivity (wait_queue_next c); [by rewrite <- Hth|]. apply (mi_links _ _ _ _ Hm _ _ Ec). intros k. by rewrite Eg. }
  rewrite Hl0. step (assert_ok (0 =? 0) "t->wait_queue_next == 0" s0 eq_refl).
  destruct (hold_ok s0 rs bs C m x Hs0 Ex (mi_lock _ _ _ _ Hm _ _ Ex)) as [E1 Ex1]. step E1.
  step (load_mutex_ok _ _ _ Ex1). cbn [waiting_threads set_waiting_lock].
  assert (Hni : current s ∉ W m).
  { intros Hin. apply (mi_waits _ _ _ _ Hm m x _ Ex) in Hin as [_ Hin]. by rewrite Eg in Hin. }
  destruct (DL_APPEND_spec wait_links (threads (hold_waiting m s0)) (waiting_threads x) (W m) (current s) th)
    as (hd & h' & E2 & R2 & D2);
    [apply (wait_heap s0 rs bs C); [exact (si_rep _ _ _ _ _ Hs0)|by apply (mi_wait _ _ _ _ Hm)]|exact (si_current _ _ _ _ _ Hs)|done|done|].
  step (on_threads_ok _ (hold_waiting m s0) _ _ E2).
  set (s2 := set_threads h' (hold_waiting m s0)).
  step (update_mutex_ok s2 m _ (set_waiting hd) Ex1).
  rewrite (drop_ok s0 _ m (set_waiting hd (set_waiting_lock (Spinlock (current_tid s0) 1) x)));
    [|exact (si_flags _ _ _ _ _ Hs)|simpl; apply lookup_insert_eq|done|done].
  assert (Elk : waiting_threads_lock x = Spinlock 0 0) by (by eapply (mi_lock _ _ _ _ Hm)).
  match goal with |- fine (Ret tt ?S) => assert (Efin : S = relinked m x hd h' fs s) end.
  { unfold relinked, s2, hold_waiting. simpl. unfold set_mutexes, set_cpu. simpl. f_equal.
    rewrite insert_insert_eq. unfold set_waiting_lock, set_waiting. simpl. rewrite <- Elk.
    apply map_eq. intros q. destruct (decide (q = m)) as [->|Hq]; [by rewrite !lookup_insert_eq|].
    by rewrite !lookup_insert_ne, lookup_alter_ne by done. }
  rewrite Efin.
  eapply (relinked_good s rs bs C G W m x hd h' (W m ++ [current s]) (Ghost (PWait m) ops loop) c fs); try done.
  - intros k. by rewrite Eg.
  - intros t Ht. rewrite elem_of_app, list_elem_of_singleton. tauto.
  - cbn. rewrite Z.eqb_refl. split; [done|mem].
  - intros k Hk. rewrite Eg. cbn. split; [by apply Z.eqb_neq|done].
  - intros th' _. cbn. by rewrite Z.eqb_refl.
Qed.

(** Unlinking the current thread from a waiting list. *)
Lemma unlink_ok h hd ws1 ws2 t :
  dl_rep wait_links h hd (ws1 ++ t :: ws2) →
  ∃ hd' h1 th, DL_DELETE wait_links hd t h = Ret hd' h1 ∧ h1 !! t = Some th ∧
    dl_rep wait_links (<[t := set_wait_links 0 0 th]> h1) hd' (ws1 ++ ws2) ∧
    dlinks_only wait_links (t :: ws1 ++ t :: ws2) h (<[t := set_wait_links 0 0 th]> h1).
Proof.
  intros H. destruct (DL_DELETE_spec wait_links _ _ _ _ _ H) as (hd' & h1 & E & R & D).
  destruct (dl_rep_lookup _ _ _ _ t H ltac:(mem)) as [_ [th0 Eh]].
  assert (Eh1 : is_Some (h1 !! t)). { destruct (D t) as [_ Dt]. rewrite Eh in Dt. by destruct (h1 !! t). }
  destruct Eh1 as [th Eh1]. destruct H as (_ & _ & Hnd & _). destruct (NoDup_split _ _ _ Hnd) as (N1 & N2 & _).
  assert (D2 : dlinks_only wait_links [t] h1 (<[t := set_wait_links 0 0 th]> h1)).
  { eapply dlinks_only_set; [done|by left|done]. }
  exists hd', h1, th. split; [done|]. split; [done|]. split.
  - eapply dl_rep_frame; [exact D2| |done]. intros q Hq ->%list_elem_of_singleton. apply elem_of_app in Hq. tauto.
  - eapply dlinks_only_trans; (eapply dlinks_only_mono; [|eassumption]); mem.
Qed.

Lemma step_unobserve s rs bs C G W m fs :
  sinv s rs bs C → minv s C G W → awake s C → cpu_frames s = FUnobserve m :: fs →
  fine ((s ← get; mutex_remove_observer m (current s)) (with_frames fs s)).
Proof.
  intros Hs Hm Ha Ef. destruct (awake_top s C _ fs Ha Ef ltac:(done)) as (c & Ec & Hd & Hb).
  destruct (unobserve_phase _ _ _ _ _ (top_stack s C G W c _ fs Hm Ec Ef eq_refl)) as (ops & loop & Eg & Hfs).
  pose proof (mi_ghost _ _ _ _ Hm (current s) ltac:(eauto)) as Hg. rewrite Eg in Hg.
  destruct Hg as (G1 & G2 & G3 & G4 & [x Ex]). pose proof (frames_tail _ _ _ _ _ _ Hs Ef) as Hfr. cbn [g_ops g_loop] in *.
  set (s0 := with_frames fs s).
  assert (Hs0 : sinv s0 rs bs C) by (apply sinv_frames; [exact Hs|exact (si_flags _ _ _ _ _ Hs)|done]).
  rewrite bind_get. unfold mutex_remove_observer. change (current s0) with (current s).
  destruct (hold_ok s0 rs bs C m x Hs0 Ex (mi_lock _ _ _ _ Hm _ _ Ex)) as [E1 Ex1]. step E1.
  step (load_mutex_ok _ _ _ Ex1). cbn [waiting_threads set_waiting_lock].
  assert (Hin : current s ∈ W m).
  { apply (mi_waits _ _ _ _ Hm m x _ Ex). split; [eauto|]. rewrite Eg. cbn. apply Z.eqb_refl. }
  pose proof (mi_wait _ _ _ _ Hm m x Ex) as Hwr. pose proof Hwr as (_ & _ & Hnd & _).
  destruct (list_elem_of_split _ _ Hin) as (w1 & w2 & Ew). rewrite Ew in Hwr, Hnd.
  destruct (NoDup_split _ _ _ Hnd) as (N1 & N2 & _).
  destruct (unlink_ok (threads (hold_waiting m s0)) (waiting_threads x) w1 w2 (current s)) as (hd & h1 & th & E2 & Eth & R2 & D2);
    [by apply (wait_heap s0 rs bs C); [exact (si_rep _ _ _ _ _ Hs0)|]|].
  step (on_threads_ok _ (hold_waiting m s0) _ _ E2). set (s2 := set_threads h1 (hold_waiting m s0)).
  step (update_mutex_ok s2 m _ (set_waiting hd) Ex1). set (s3 := set_mutexes _ s2).
  step (update_thread_ok s3 (current s) th (set_wait_links 0 0) Eth).
  rewrite (drop_ok s0 _ m (set_waiting hd (set_waiting_lock (Spinlock (current_tid s0) 1) x)));
    [|exact (si_flags _ _ _ _ _ Hs)|simpl; apply lookup_insert_eq|done|done].
  assert (Elk : waiting_threads_lock x = Spinlock 0 0) by (by eapply (mi_lock _ _ _ _ Hm)).
  match goal with |- fine (Ret tt ?S) => assert (Efin : S = relinked m x hd (<[current s := set_wait_links 0 0 th]> h1) fs s) end.
  { unfold relinked, s3, s2, hold_waiting. simpl. unfold set_mutexes, set_cpu. simpl. f_equal.
    rewrite insert_insert_eq. unfold set_waiting_lock, set_waiting. simpl. rewrite <- Elk.
    apply map_eq. intros q. destruct (decide (q = m)) as [->|Hq]; [by rewrite !lookup_insert_eq|].
    by rewrite !lookup_insert_ne, lookup_alter_ne by done. }
  rewrite Efin.
  eapply (relinked_good s rs bs C G W m x hd _ (w1 ++ w2) (Ghost (PNest m) ops loop) c fs); try done.
  - split; [done|]. split; [done|]. split; [done|]. cbn. split; [lia|eauto].
  - intros k. rewrite Eg. cbn. destruct (Z.eqb_spec m k) as [->|]; [|done]. f_equal. lia.
  - by rewrite Ew.
  - intros t Ht. rewrite Ew, !elem_of_app, elem_of_cons. tauto.
  - rewrite elem_of_app. cbn. split; [tauto|done].
  - intros k Hk. rewrite Eg. cbn. split; [done|by apply Z.eqb_neq].
  - intros th'. rewrite lookup_insert_eq. by intros [= <-].
Qed.

(** What the current thread leaves when it hands the mutex to thread id [i], or to nobody. *)
Lemma handover s rs bs C G W m x c ops loop fs i :
  sinv s rs bs C → minv s C G W → C !! current s = Some c → state c ≠ thread_dead → mutexes s !! m = Some x →
  G (current s) = Ghost (PWake m) ops loop → strip fs = [FBody ops loop] →
  i ≠ tid c → (i = 0 ∨ ∃ t ct, C !! t = Some ct ∧ tid ct = i ∧ t ∈ W m) →
  minv (after (<[m := set_m_owner i x]> (mutexes s)) fs s) C (<[current s := Ghost PBody ops loop]> G) W.
Proof.
  intros Hs Hm Ec Hd Ex Eg Hfs Hi Hto.
  pose proof (mi_ghost _ _ _ _ Hm (current s) ltac:(eauto)) as Hg. rewrite Eg in Hg.
  destruct Hg as (G1 & G2 & G3 & G4 & _). cbn [g_ops g_loop] in *.
  pose proof (mi_stake _ _ _ _ Hm m x _ _ Ex Ec) as Hst. rewrite Eg in Hst. cbn in Hst. rewrite Z.eqb_refl in Hst.
  destruct Hst as [Ho Hn].
  eapply (minv_update s C G W _ m x (set_m_owner i x) (Ghost PBody ops loop) c); try done.
  - intros k Hk. rewrite Eg. cbn. by rewrite (proj2 (Z.eqb_neq m k)).
  - intros k. by rewrite Eg.
  - cbn. unfold body_stake. rewrite G4. simpl. congruence.
  - intros u cu Hu Ecu. pose proof (mi_stake _ _ _ _ Hm m x u cu Ex Ecu) as Hu'.
    assert (Hne : tid c ≠ tid cu) by (intros Ht; apply Hu; symmetry; by eapply (si_uniq _ _ _ _ _ Hs (current s) u)).
    pose proof (si_tids _ _ _ _ _ Hs u cu Ecu) as Hz.
    destruct (stake_of m (G u)) eqn:Es; simpl in *; [destruct Hu'; congruence|done|].
    destruct Hto as [->|(t & ct & Et & <- & Hin)]; [congruence|]. intros Ht.
    assert (t = u) as -> by (by eapply (si_uniq _ _ _ _ _ Hs t u)).
    apply (mi_waits _ _ _ _ Hm m x u Ex) in Hin as [_ Hin]. unfold waits, stake_of in *.
    destruct (g_phase (G u)); try done; by rewrite Hin in Es.
Qed.

Lemma step_wake s rs bs C G W m fs :
  sinv s rs bs C → minv s C G W → awake s C → cpu_frames s = FWake m :: fs →
  fine (mutex_release_and_wake_next_thread m (with_frames fs s)).
Proof.
  intros Hs Hm Ha Ef. destruct (awake_top s C _ fs Ha Ef ltac:(done)) as (c & Ec & Hd & Hb).
  destruct (wake_phase _ _ _ _ _ (top_stack s C G W c _ fs Hm Ec Ef eq_refl)) as (ops & loop & Eg & Hfs).
  pose proof (mi_ghost _ _ _ _ Hm (current s) ltac:(eauto)) as Hg. rewrite Eg in Hg.
  destruct Hg as (_ & _ & _ & _ & [x Ex]). pose proof (frames_tail _ _ _ _ _ _ Hs Ef) as Hfr.
  pose proof (si_flags _ _ _ _ _ Hs) as Hfl. pose proof (mi_lock _ _ _ _ Hm _ _ Ex) as Elk.
  set (s0 := with_frames fs s).
  assert (Hs0 : sinv s0 rs bs C) by (by apply sinv_frames).
  unfold mutex_release_and_wake_next_thread.
  destruct (hold_ok s0 rs bs C m x Hs0 Ex Elk) as [E1 Ex1]. step E1.
  step (load_mutex_ok _ _ _ Ex1). cbn [waiting_threads set_waiting_lock]. cbn zeta.
  pose proof (mi_wait _ _ _ _ Hm m x Ex) as (Hwh & Hseg & _ & HzW).
  assert (Hfin : ∀ i h y, y = set_m_owner i (set_waiting_lock (Spinlock (current_tid s0) 1) x) →
    <[m := set_waiting_lock (Spinlock 0 0) y]> (<[m := h]> (mutexes (hold_waiting m s0))) = <[m := set_m_owner i x]> (mutexes s)).
  { intros i h y ->. rewrite insert_insert_eq. unfold set_waiting_lock, set_m_owner. simpl. rewrite <- Elk.
    apply map_eq. intros q. destruct (decide (q = m)) as [->|Hq]; [by rewrite !lookup_insert_eq|].
    by rewrite !lookup_insert_ne, lookup_alter_ne by done. }
  pose proof (si_tids _ _ _ _ _ Hs _ _ Ec) as Hti.
  destruct (W m) as [|t ws] eqn:EW.
  - rewrite Hwh. cbn [first_or head]. change (negb (default NULL None =? NULL)) with false. cbn iota.
    step (update_mutex_ok _ m _ (set_m_owner 0) Ex1).
    rewrite (drop_ok s0 _ m (set_m_owner 0 (set_waiting_lock (Spinlock (current_tid s0) 1) x)));
      [|exact Hfl|simpl; apply lookup_insert_eq|done|done].
    match goal with |- fine (Ret tt ?S) => assert (Efin : S = after (<[m := set_m_owner 0 x]> (mutexes s)) fs s) end.
    { unfold after. simpl. unfold set_mutexes, set_cpu. simpl. f_equal. by apply Hfin. }
    rewrite Efin. eapply good_after; [exact Hs|exact Ec|done|done|done|].
    eapply handover; [exact Hs|exact Hm|done..|by left].
  - assert (Htw : t ∈ W m) by (rewrite EW; by left).
    apply (mi_waits _ _ _ _ Hm m x t Ex) in Htw as Hw. destruct Hw as [[ct Et] Hw].
    assert (Htz : t ≠ NULL) by (intros ->; apply HzW; by left).
    rewrite Hwh. change (first_or NULL (t :: ws)) with t. rewrite (proj2 (Z.eqb_neq t NULL)) by done. cbn [negb].
    set (s1 := hold_waiting m s0) in *.
    assert (Hs1 : sinv s1 rs bs C) by (apply sinv_cpu; [exact Hs|by apply clearbit_word|done]).
    destruct (load_thread_spec _ _ _ _ _ _ (si_rep _ _ _ _ _ Hs1) Et) as (th & El & Eth). step El.
    assert (Eti : tid th = tid ct) by (by rewrite <- Eth). rewrite Eti.
    step (update_mutex_ok s1 m _ (set_m_owner (tid ct)) Ex1). set (s2 := set_mutexes _ s1).
    assert (Hs2 : sinv s2 rs bs C)
      by exact (sinv_cpu _ s rs bs C (mutexes s2) (cpu_eflags s2) (cpu_frames s2) Hs (clearbit_word _ _ Hfl) Hfr).
    assert (Hnd : state ct ≠ thread_dead).
    { intros Hdd. pose proof (mi_dead _ _ _ _ Hm t ct Et Hdd) as Hp. unfold waits in Hw. by rewrite Hp in Hw. }
    destruct (wake_sinv kernel_vma_byte s2 rs bs C t ct Hs2 Et Hnd) as (s3 & rs' & bs' & C' & E3 & Hs3 & R3 & Hal & Hun & Hsame & _).
    step E3.
    assert (Hne : t ≠ current s).
    { intros ->. rewrite Eg in Hw. done. }
    rewrite (drop_ok s0 s3 m (set_m_owner (tid ct) (set_waiting_lock (Spinlock (current_tid s0) 1) x)));
      [|exact Hfl|rewrite (rest_mutexes _ _ R3); simpl; apply lookup_insert_eq|done|by rewrite (rest_eflags _ _ R3)].
    rewrite (rest_mutexes _ _ R3), (rest_frames _ _ R3).
    change (mutexes s2) with (<[m := set_m_owner (tid ct) (set_waiting_lock (Spinlock (current_tid s0) 1) x)]> (mutexes s1)).
    rewrite (Hfin (tid ct)) by done.
    set (X := <[m := set_m_owner (tid ct) x]> (mutexes s)).
    change (cpu_frames s2) with fs.
    assert (Hcur : current s3 = current s) by (by rewrite (rest_current _ _ R3)).
    exists rs', bs', C', (<[current s := Ghost PBody ops loop]> G), W. split; [|split].
    + apply sinv_cpu; [done|done|done].
    + apply (minv_quiet (after X fs s) C); [|apply quiet_stay; [done|done|simpl; done|done|done]|left; simpl; by rewrite fn_lookup_insert].
      eapply handover; [exact Hs|exact Hm|done..| |].
      * intros He. apply Hne. by eapply (si_uniq _ _ _ _ _ Hs t (current s)).
      * right. by exists t, ct.
    + exists c. simpl. rewrite Hcur, Hsame by done. done.
Qed.

(** *** Every step *)

Lemma stack_not_nil t i g : stack_of t i g ≠ [].
Proof. unfold stack_of. by destruct g as [[] ? ?]. Qed.

Lemma step_fine s : good s → fine (step kernel_vma_byte switch_return s).
Proof using return_ok.
  intros (rs & bs & C & G & W & Hs & Hm & Ha). unfold step. rewrite bind_get.
  pose proof Ha as (c & Ec & _). pose proof (mi_stack _ _ _ _ Hm _ _ Ec) as Hst.
  unfold frames_of in Hst. rewrite decide_True in Hst by done.
  destruct (cpu_frames s) as [|f fs] eqn:Ef; [by destruct (stack_not_nil _ _ _ (eq_sym Hst))|].
  rewrite bind_modify. change (set_cpu (cpu_eflags s) fs s) with (with_frames fs s).
  pose proof (si_frames _ _ _ _ _ Hs) as Hfr. rewrite Ef in Hfr. apply Forall_cons_1 in Hfr as [Hf Hfr].
  destruct f as [t ops loop|[|[m|m| | |] ops] loop| | |f|f|m|m|m v f|m|m|m|m|f]; cbn [resume].
  - by eapply step_entry.
  - destruct loop as [|o loop]; [rewrite bind_get; by apply (step_exit s rs bs C G W fs)|].
    by apply (step_loop s rs bs C G W o loop fs).
  - by apply (step_acquire s rs bs C G W m ops loop fs).
  - by apply (step_release s rs bs C G W m ops loop fs).
  - by apply (step_yield s rs bs C G W ops loop fs).
  - by apply (step_block s rs bs C G W ops loop fs).
  - by apply (step_sleep s rs bs C G W ops loop fs).
  - by right.
  - by eapply step_call_yield.
  - by apply (step_leave s rs bs C G W _ fs f Hs Hm Ha Ef).
  - by apply (step_leave s rs bs C G W _ fs f Hs Hm Ha Ef).
  - by eapply step_observe.
  - by eapply step_wait.
  - by eapply step_waiting.
  - by eapply step_unobserve.
  - by eapply step_nest.
  - by eapply step_test.
  - by eapply step_wake.
  - by apply (step_leave s rs bs C G W _ fs f Hs Hm Ha Ef).
Qed.

Lemma interrupt_good s n s' : good s → interrupt n s = Ret tt s' → good s'.
Proof.
  intros (rs & bs & C & G & W & Hs & Hm & (c & Ec & Hd & Hb)). unfold interrupt. rewrite bind_get.
  destruct (Z.testbit (cpu_eflags s) flags_if_bit) eqn:Eif; [|done]. unfold push. rewrite !bind_modify. intros [= <-].
  assert (Hp : g_phase (G (current s)) ≠ PEntry).
  { intros Hp. destruct (mi_entry _ _ _ _ Hm (current s)) as [Hf _]; [eauto|done|].
    unfold flags_of in Hf. rewrite decide_True in Hf by done. congruence. }
  set (s1 := set_ticks (ticks_since_boot s + Z.of_nat n) s).
  assert (Hs1 : sinv s1 rs bs C).
  { eapply sinv_relink; [exact Hs|by destruct (si_rep _ _ _ _ _ Hs)|done|done|done|exact (si_flags _ _ _ _ _ Hs)|exact (si_frames _ _ _ _ _ Hs)]. }
  assert (Hm1 : minv s1 C G W).
  { eapply minv_quiet; [exact Hm|by apply quiet_stay; [|apply undead_refl|..]|by left]. }
  set (fs := FCallYield :: FIsr (cpu_eflags s) :: cpu_frames s).
  exists rs, bs, C, G, W. split; [|split].
  - change (sinv (set_cpu (cpu_eflags s) fs s1) rs bs C). apply sinv_frames; [done|exact (si_flags _ _ _ _ _ Hs)|].
    constructor; [done|]. constructor; [exact (si_flags _ _ _ _ _ Hs)|exact (si_frames _ _ _ _ _ Hs)].
  - change (minv (set_cpu (cpu_eflags s) fs s1) C G W). apply minv_neutral; [done|done|done].
  - by exists c.
Qed.

Lemma wake_good s t th s' :
  good s → threads s !! t = Some th → state th ≠ thread_dead → thread_wake t s = Ret tt s' → good s'.
Proof.
  intros (rs & bs & C & G & W & Hs & Hm & (c & Ec & Hd & Hb)) Et Hnd E.
  assert (Et' : C !! t = Some (core th)) by (rewrite <- (rep_cores _ _ _ _ (si_rep _ _ _ _ _ Hs)), cores_lookup, Et; done).
  destruct (wake_sinv kernel_vma_byte s rs bs C t (core th) Hs Et' Hnd) as (s1 & rs' & bs' & C' & E1 & Hs1 & R1 & Hal & Hun & Hsame & Hrun).
  unfold thread_wake in E. rewrite E1 in E. injection E as <-.
  exists rs', bs', C', G, W. split; [done|]. split.
  - eapply minv_quiet; [exact Hm|by apply quiet_rest|right].
    unfold flags_of, frames_of. rewrite (rest_current _ _ R1), !decide_True by done.
    by rewrite (rest_eflags _ _ R1), (rest_frames _ _ R1).
  - unfold awake. rewrite (rest_current _ _ R1), (rest_frames _ _ R1).
    destruct (decide (current s = t)) as [<-|Hne].
    + destruct (alike_lookup _ _ _ _ Hal Ec) as (c' & Ec' & _). exists c'. rewrite (Hrun c' Ec'). done.
    + exists c. by rewrite Hsame.
Qed.

(** A step of the machine, an interrupt, or a wake-up by a timer or another thread. *)
Inductive mstep s : sys → Prop :=
  | mstep_run s' : step kernel_vma_byte switch_return s = Ret tt s' → mstep s s'
  | mstep_interrupt n s' : interrupt n s = Ret tt s' → mstep s s'
  | mstep_wake t th s' : threads s !! t = Some th → state th ≠ thread_dead → thread_wake t s = Ret tt s' → mstep s s'.

Lemma mstep_good s s' : good s → mstep s s' → good s'.
Proof using return_ok.
  intros Hg [s1 E|n s1 E|t th s1 Et Hd E]; [|by eapply interrupt_good|by eapply wake_good].
  pose proof (step_fine s Hg) as Hf. by rewrite E in Hf.
Qed.

Lemma msteps_good s s' : good s → rtc mstep s s' → good s'.
Proof using return_ok. intros Hg Hr. induction Hr; eauto using mstep_good. Qed.

(** ** What follows for runs from a fresh start *)

(** Threads at the beginning of their programs, mutexes as [mutex_init] leaves them. *)
Definition fresh_thread s C (t : Z) (c : thread) : Prop :=
  wait_queue_next c = 0 ∧ state c ≠ thread_dead ∧
  ∃ ops loop, program_ok (mutexes s) ops ∧ program_ok (mutexes s) loop ∧
    (∀ m, depth m ops = 0) ∧ (∀ m, depth m loop = 0) ∧
    (frames_of s C t = [FBody ops loop] ∨
     frames_of s C t = [FEntry t ops loop] ∧ Z.testbit (flags_of s C t) flags_if_bit = false).

Record started s rs C : Prop := {
  st_sched : sinv s rs [] C;
  st_threads : ∀ t c, C !! t = Some c → fresh_thread s C t c;
  st_mutexes : ∀ m x, mutexes s !! m = Some x → x = Mutex 0 0 0 (Spinlock 0 0)
}.

Definition ghost_at (fs : list frame) : ghost :=
  match fs with
  | [FBody ops loop] => Ghost PBody ops loop
  | [FEntry _ ops loop] => Ghost PEntry ops loop
  | _ => Ghost PBody [] []
  end.

Lemma fresh_ghost s C t c : fresh_thread s C t c →
  let g := ghost_at (frames_of s C t) in
  strip (frames_of s C t) = stack_of t (tid c) g ∧ ghost_ok (mutexes s) g ∧ (∀ m, stake_of m g = Not) ∧
  (∀ m, waits m g = false) ∧
  (g_phase g = PEntry → Z.testbit (flags_of s C t) flags_if_bit = false ∧ Forall (λ f, neutral f = false) (frames_of s C t)).
Proof.
  intros (_ & _ & ops & loop & P1 & P2 & D1 & D2 & Hf).
  assert (Hb : ∀ m, body_stake m ops = Not) by (intros m; unfold body_stake; by rewrite D1).
  destruct Hf as [->|[-> Hi]]; cbn.
  - split; [done|]. split; [done|]. by split.
  - split; [done|]. split; [done|]. split; [done|]. split; [done|]. intros _. split; [done|]. by repeat constructor.
Qed.

Lemma started_good s rs C : started s rs C → good s.
Proof.
  intros [Hs Ht Hx]. destruct (si_cur _ _ _ _ _ Hs) as [c Ec].
  exists rs, [], C, (λ t, ghost_at (frames_of s C t)), (λ _, []). split; [done|]. split.
  - split.
    + intros t ct E. by apply (fresh_ghost s C t ct (Ht t ct E)).
    + intros t [ct E]. by apply (fresh_ghost s C t ct (Ht t ct E)).
    + intros m x t ct Ex E. rewrite (Hx m x Ex). destruct (fresh_ghost s C t ct (Ht t ct E)) as (_ & _ & -> & _).
      simpl. apply not_eq_sym. by eapply si_tids.
    + intros m x Ex. by rewrite (Hx m x Ex).
    + intros m x Ex. by rewrite (Hx m x Ex).
    + intros m x Ex. rewrite (Hx m x Ex). split; [done|]. split; [done|]. split; [apply NoDup_nil_2|apply not_elem_of_nil].
    + intros m x t Ex. rewrite elem_of_nil. split; [done|]. intros [[ct E] Hw].
      destruct (fresh_ghost s C t ct (Ht t ct E)) as (_ & _ & _ & Hn & _). by rewrite Hn in Hw.
    + intros t ct E _. apply (Ht t ct E).
    + intros t [ct E]. by apply (fresh_ghost s C t ct (Ht t ct E)).
    + intros t ct E Hd. by destruct (Ht t ct E) as (_ & ? & _).
  - exists c. split; [done|]. destruct (Ht _ _ Ec) as (_ & Hd & _). split; [done|].
    intros Hb. exfalso. destruct (si_cover _ _ _ _ _ Hs (current s)) as [Hr|Hr]; [eauto| |by apply elem_of_nil in Hr].
    by destruct (si_run _ _ _ _ _ Hs _ _ Hr Ec).
Qed.

(** Thread [t] runs its own code between an acquisition of [m] and the matching release. *)
Definition inside s (m t : Z) : Prop :=
  ∃ ops loop, is_Some (threads s !! t) ∧ strip (frames_of s (threads s) t) = [FBody ops loop] ∧ 0 < depth m ops.

Lemma frames_of_cores s rs bs C t : rep s rs bs C → frames_of s (threads s) t = frames_of s C t.
Proof.
  intros H. unfold frames_of. destruct (decide _); [done|]. rewrite <- (rep_cores _ _ _ _ H), cores_lookup.
  by destruct (threads s !! t).
Qed.

Lemma inside_owner s m t : good s → inside s m t →
  ∃ x th, mutexes s !! m = Some x ∧ threads s !! t = Some th ∧ m_owner x = tid th ∧ 0 < m_nested x.
Proof.
  intros (rs & bs & C & G & W & Hs & Hm & _) (ops & loop & [th Et] & Hf & Hd).
  pose proof (si_rep _ _ _ _ _ Hs) as Hr. rewrite (frames_of_cores _ _ _ _ _ Hr) in Hf.
  assert (Ec : C !! t = Some (core th)) by (rewrite <- (rep_cores _ _ _ _ Hr), cores_lookup, Et; done).
  rewrite (mi_stack _ _ _ _ Hm _ _ Ec) in Hf. destruct (body_phase _ _ _ _ _ _ (eq_sym Hf)) as [Eg _].
  pose proof (mi_ghost _ _ _ _ Hm t ltac:(eauto)) as (Hp & _). rewrite Eg in Hp. cbn in Hp.
  assert (Hx : is_Some (mutexes s !! m)).
  { destruct Hp as (_ & Hk & _). clear -Hd Hk. induction ops as [|o ops IH]; simpl in Hd; [lia|].
    apply Forall_cons_1 in Hk as [Ho Hk]. destruct o as [k|k| | |]; try by apply IH.
    - destruct (Z.eqb_spec k m) as [->|]; [done|]. apply IH; [lia|done].
    - destruct (Z.eqb_spec k m) as [->|]; [done|]. apply IH; [lia|done]. }
  destruct Hx as [x Ex]. exists x, th. split; [done|]. split; [done|].
  pose proof (mi_stake _ _ _ _ Hm m x t _ Ex Ec) as Hst. rewrite Eg in Hst. cbn in Hst.
  destruct (body_stake_at _ _ _ _ _ Hst eq_refl Hd) as [Ho Hn]. split; [done|]. by rewrite Hn.
Qed.

Lemma good_tids s t u th uh : good s → threads s !! t = Some th → threads s !! u = Some uh → tid th = tid uh → t = u.
Proof.
  intros (rs & bs & C & G & W & Hs & _) Et Eu He. pose proof (rep_cores _ _ _ _ (si_rep _ _ _ _ _ Hs)) as HC.
  eapply (si_uniq _ _ _ _ _ Hs t u (core th) (core uh)); [by rewrite <- HC, cores_lookup, Et|by rewrite <- HC, cores_lookup, Eu|done].
Qed.

(** C1: however threads that use mutexes properly are preempted, blocked and
    woken, at most one of them is between [mutex_acquire] and the matching
    [mutex_release] of a given mutex; the mutex then names it as owner. *)
Theorem mutex_mutual_exclusion s0 rs C s m t u :
  started s0 rs C → rtc mstep s0 s → inside s m t → inside s m u →
  t = u ∧ ∃ x th, mutexes s !! m = Some x ∧ threads s !! t = Some th ∧ m_owner x = tid th ∧ 0 < m_nested x.
Proof using return_ok.
  intros H0 Hr Ht Hu. assert (Hg : good s) by (eapply msteps_good; [by eapply started_good|done]).
  destruct (inside_owner s m t Hg Ht) as (x & th & Ex & Et & Ho & Hn).
  destruct (inside_owner s m u Hg Hu) as (x' & uh & Ex' & Eu & Ho' & _). simplify_eq.
  split; [eapply good_tids; eauto; congruence|eauto 10].
Qed.

(** C3: in such a run the kernel never dereferences a wild pointer, never
    fails an assertion and never spins on a spinlock for ever: a step
    completes, or finds no thread left to run, or resumes a thread that had
    returned from its function. *)
Theorem machine_steps_safely s0 rs C s :
  started s0 rs C → rtc mstep s0 s →
  match step kernel_vma_byte switch_return s with
  | Ret _ _ => True
  | Panic msg => msg = "no next thread available"%string ∨ msg = "scheduler_yield returned control to dead thread"%string
  | Fault | NoFuel => False
  end.
Proof using return_ok.
  intros H0 Hr. assert (Hg : good s) by (eapply msteps_good; [by eapply started_good|done]).
  pose proof (step_fine s Hg) as Hf. by destruct (step _ _ s).
Qed.
End Step.

(** ** A run *)
Module Example.
Definition vma : Z := 83.           (* some byte of the boot code *)
Definition ret_addr : Z := 3222281000.
Definition m : Z := 256.
Definition A : Z := 4096.
Definition B : Z := 8192.
Definition I : Z := 12288.

Definition mk (n p i : Z) (x : thread_state) (fs : list frame) : thread :=
  Thread 0 n p 0 0 "user" i (Context 3222281500 2 fs) 0 (16384 * i) 4096 4096 0 x 0 1.

(** [A] uses the mutex twice, [B] once, [I] idles.  [A] runs; the list is [B], [I], [A]. *)
Definition ops_A : list op := [OAcquire m; ORelease m; OAcquire m; ORelease m].
Definition ops_B : list op := [OAcquire m; ORelease m].

Definition heap : gmap Z thread :=
  <[A := mk 0 I 1 thread_running []]>
    (<[B := mk I A 2 thread_runnable [FEntry B ops_B [OYield]]]>
      {[I := mk A B 3 thread_runnable [FEntry I [] [OYield]]]}).

Definition start : sys :=
  Sys heap {[m := Mutex 0 0 0 (Spinlock 0 0)]} B 0 (Spinlock 0 0) 0 0 A 0 0 514 [FBody ops_A [OYield]].

Inductive event := Run | Irq.

Fixpoint exec (es : list event) (s : sys) : result sys unit :=
  match es with
  | [] => Ret tt s
  | e :: es =>
      match (match e with Run => step vma ret_addr s | Irq => interrupt 1 s end) with
      | Ret _ s' => exec es s'
      | r => r
      end
  end.

Lemma exec_rtc es s s' : exec es s = Ret tt s' → rtc (mstep vma ret_addr) s s'.
Proof.
  revert s. induction es as [|e es IH]; intros s; simpl; [intros [= ->]; apply rtc_refl|].
  destruct e; [destruct (step vma ret_addr s) as [[] s1| | |] eqn:E|destruct (interrupt 1 s) as [[] s1| | |] eqn:E];
    try done; intros H; (eapply rtc_l; [|by apply IH]); [by apply mstep_run|by eapply mstep_interrupt].
Qed.

Definition runs (n : nat) : list event := replicate n Run.

(** [A] takes the mutex; [B] finds it taken and is preempted before it is on
    the waiting list; [A] releases it; [B] goes on; [A] comes back. *)
Definition trace : list event :=
  runs 5 ++ [Irq] ++ runs 3 ++ [Irq] ++ runs 3 ++ [Irq] ++ runs 6 ++ [Irq] ++ runs 7 ++ [Irq] ++ runs 6.

Definition stuck (s : sys) (t : Z) : bool :=
  match threads s !! t with
  | Some th => bool_decide (state th = thread_blocked) &&
      match ctx_frames (stack_context th) with FWaiting m' _ _ :: _ => m' =? m | _ => false end
  | None => false
  end.

Definition deadlocked (s : sys) : bool :=
  stuck s A && stuck s B && (current s =? I) &&
  match mutexes s !! m with Some x => (m_owner x =? 2) && (m_nested x =? 0) | None => false end.

Lemma trace_deadlocks : match exec trace start with Ret _ s => deadlocked s | _ => false end = true.
Proof. by vm_compute. Qed.

(** *** The start is a fresh one *)

Ltac enum H :=
  apply lookup_insert_Some in H as [[<- <-]|[_ H]];
    [|apply lookup_insert_Some in H as [[<- <-]|[_ H]]; [|apply lookup_singleton_Some in H as [<- <-]]].

Lemma cores_heap : cores heap =
  <[A := core (mk 0 I 1 thread_running [])]>
    (<[B := core (mk I A 2 thread_runnable [FEntry B ops_B [OYield]])]>
      {[I := core (mk A B 3 thread_runnable [FEntry I [] [OYield]])]}).
Proof. unfold cores, heap. by rewrite !fmap_insert, map_fmap_singleton. Qed.

Lemma start_rep : rep start [B; I; A] [] (cores heap).
Proof.
  split; [| |by intros t _ ?%elem_of_nil|done].
  - split; [done|]. split; [|split].
    + repeat (eexists; split; [reflexivity|]; split; [reflexivity|]; split; [reflexivity|]). done.
    + apply (bool_decide_unpack _). by vm_compute.
    + apply (bool_decide_unpack _). by vm_compute.
  - split; [done|]. split; [done|]. split; [apply NoDup_nil_2|apply not_elem_of_nil].
Qed.

Lemma start_sinv : sinv vma start [B; I; A] [] (cores heap).
Proof.
  split.
  - exact start_rep.
  - intros t [c E]. rewrite cores_heap in E. left. enum E; set_solver.
  - intros t c _ E. rewrite cores_heap in E. enum E; done.
  - by intros t c ?%elem_of_nil.
  - by eexists.
  - intros t c E. rewrite cores_heap in E. enum E; done.
  - intros t u ct cu E1 E2. rewrite cores_heap in E1, E2. enum E1; enum E2; done.
  - done.
  - done.
  - by repeat constructor.
  - intros t c E Ht. rewrite cores_heap in E. enum E; [done|..]; (split; [done|]; split; [done|by repeat constructor]).
Qed.

Lemma programs_ok ops : ops ∈ [ops_A; ops_B; [OYield]; []] →
  program_ok (mutexes start) ops ∧ ∀ k, depth k ops = 0.
Proof.
  assert (Hm : is_Some (mutexes start !! m)) by by eexists.
  intros H. repeat (apply elem_of_cons in H as [->|H]; [|]); [..|by apply elem_of_nil in H];
    (split; [split; [|split]; [by vm_compute|by repeat constructor|done]|intros k; simpl; lia]).
Qed.

Lemma start_started : started vma start [B; I; A] (cores heap).
Proof.
  split; [exact start_sinv| |].
  - assert (Hf : ∀ t c ops, ops ∈ [ops_A; ops_B; [OYield]; []] → wait_queue_next c = 0 → state c ≠ thread_dead →
      (frames_of start (cores heap) t = [FBody ops [OYield]] ∨
       frames_of start (cores heap) t = [FEntry t ops [OYield]] ∧ Z.testbit (flags_of start (cores heap) t) flags_if_bit = false) →
      fresh_thread start (cores heap) t c).
    { intros t c ops Ho Hw Hd Hs. destruct (programs_ok ops Ho) as [P D].
      destruct (programs_ok [OYield] ltac:(set_solver)) as [P' D']. split; [done|]. split; [done|]. by exists ops, [OYield]. }
    intros t c E. pose proof E as E'. rewrite cores_heap in E'.
    enum E'; [apply (Hf _ _ ops_A)|apply (Hf _ _ ops_B)|apply (Hf _ _ [])]; try done; try set_solver.
  - intros k x E. unfold start in E. cbn [mutexes] in E. apply lookup_singleton_Some in E as [_ <-]. done.
Qed.

(** mutex_acquire can lose a wake-up.  A thread that finds the mutex
    taken and is preempted before it has put itself on the waiting list, while
    the owner releases the mutex, takes the mutex when it comes back and then
    blocks all the same, because the compare-and-swap in
    [scheduler_wait_object_acquire] returns the old owner, 0.  Nobody is left
    to wake it: the run of the example ends with the owner blocked on its own
    mutex, the other user blocked behind it, and only the idle thread to run. *)
Example lost_wakeup :
  ∃ s, started vma start [B; I; A] (cores heap) ∧ rtc (mstep vma ret_addr) start s ∧ deadlocked s = true.
Proof.
  pose proof trace_deadlocks as H. destruct (exec trace start) as [[] s| | |] eqn:E; [|discriminate H..].
  exists s. split; [exact start_started|]. split; [exact (exec_rtc _ _ _ E)|exact H].
Qed.

Definition first_inside (s : sys) : Prop :=
  current s = A ∧ strip (cpu_frames s) = [FBody [ORelease m; OAcquire m; ORelease m] [OYield]] ∧ is_Some (threads s !! A).

Lemma first_run : match exec (runs 5) start with Ret _ s => first_inside s | _ => False end.
Proof. vm_compute. split; [done|]. split; [done|]. eauto. Qed.

Lemma mutex_mutual_exclusion_witness :
  ∃ s, rtc (mstep vma ret_addr) start s ∧ inside s m A ∧
    ∃ x th, mutexes s !! m = Some x ∧ threads s !! A = Some th ∧ m_owner x = tid th ∧ 0 < m_nested x.
Proof.
  pose proof first_run as H. destruct (exec (runs 5) start) as [[] s| | |] eqn:E; [|destruct H..].
  destruct H as (Hc & Hf & Ht). exists s. apply exec_rtc in E. split; [exact E|].
  assert (Hi : inside s m A).
  { eexists _, _. split; [exact Ht|]. split; [|].
    - unfold frames_of. rewrite Hc, decide_True by reflexivity. exact Hf.
    - simpl. lia. }
  split; [exact Hi|].
  destruct (mutex_mutual_exclusion vma ret_addr ltac:(unfold vma, ret_addr; lia) start _ _ s m A A start_started E Hi Hi)
    as [_ H]. exact H.
Defined.

Lemma machine_steps_safely_witness :
  match step vma ret_addr start with Ret _ _ => True | Panic _ => True | _ => False end.
Proof.
  pose proof (machine_steps_safely vma ret_addr ltac:(unfold vma, ret_addr; lia) start _ _ start start_started (rtc_refl _ _)) as H.
  revert H. destruct (step vma ret_addr start); intros H; exact Logic.I || exact H.
Defined.
End Example.
