(* ===== verification/Spawn.v ===== *)
(** * Creating threads: kernel/kern/thread.c

    A thread is a struct and two stacks from the kernel heap; it starts at
    [thread_entry_point] and is put on the scheduler's list.  Its first frame is
    written by [stack_init], which puts it far behind the end of the stack, into
    memory that belongs to somebody else or to nobody.  The state joins the
    heap, through its interface [Kheap], with the machine of Scheduler.v and
    MutexStep.v, in which the context of a thread is part of its struct.  The
    theorem says that, if the frame falls into free memory of the heap, creation
    gives everything back or adds one thread, and that the new thread fits the
    machine: the invariant of MutexStep.v, on which mutual exclusion and safety
    rest, still holds. *)

From stdpp Require Import base numbers list gmap strings fin_maps functions.
From S2P Require Import Prelude UtList MemUtil Range Allocator VmMap Paging Kmem Registers Sync Malloc Kheap Dlist Thread Scheduler Mutex MutexSafe MutexStep.

Record kstate (H : Type) := KState {
  k_sys : sys;
  k_heap : H;
  _next_tid : Z
}.
Arguments KState {H}.
Arguments k_sys {H}.
Arguments k_heap {H}.
Arguments _next_tid {H}.

Abbreviation STACK_SIZE := 4096 (only parsing).
Abbreviation KERNEL_STACK_SIZE := 4096 (only parsing).
Abbreviation sizeof_thread := 144 (only parsing).

(** What [memset] with 0 leaves; the name is then the null pointer, which is
    shown as the empty string. *)
Definition zero_thread : thread := Thread 0 0 0 0 0 EmptyString 0 (Context 0 0 []) 0 0 0 0 0 thread_created 0 0.

Definition set_tid (i : Z) (t : thread) : thread :=
  Thread (proc t) (scheduler_thread_next t) (scheduler_thread_prev t) (wait_queue_next t) (wait_queue_prev t) (name t) i
    (stack_context t) (stack t) (kernel_stack t) (stack_size t) (kernel_stack_size t) (timed_sleep_timer_id t) (state t)
    (exit_code t) (time_slice t).
Definition set_name (n : string) (t : thread) : thread :=
  Thread (proc t) (scheduler_thread_next t) (scheduler_thread_prev t) (wait_queue_next t) (wait_queue_prev t) n (tid t)
    (stack_context t) (stack t) (kernel_stack t) (stack_size t) (kernel_stack_size t) (timed_sleep_timer_id t) (state t)
    (exit_code t) (time_slice t).
Definition set_stack (p : Z) (t : thread) : thread :=
  Thread (proc t) (scheduler_thread_next t) (scheduler_thread_prev t) (wait_queue_next t) (wait_queue_prev t) (name t) (tid t)
    (stack_context t) p (kernel_stack t) (stack_size t) (kernel_stack_size t) (timed_sleep_timer_id t) (state t)
    (exit_code t) (time_slice t).
Definition set_kernel_stack (p : Z) (t : thread) : thread :=
  Thread (proc t) (scheduler_thread_next t) (scheduler_thread_prev t) (wait_queue_next t) (wait_queue_prev t) (name t) (tid t)
    (stack_context t) (stack t) p (stack_size t) (kernel_stack_size t) (timed_sleep_timer_id t) (state t)
    (exit_code t) (time_slice t).
Definition set_stack_sizes (n m : Z) (t : thread) : thread :=
  Thread (proc t) (scheduler_thread_next t) (scheduler_thread_prev t) (wait_queue_next t) (wait_queue_prev t) (name t) (tid t)
    (stack_context t) (stack t) (kernel_stack t) n m (timed_sleep_timer_id t) (state t) (exit_code t) (time_slice t).

Section Spawn.
Context {H : Type} `{Cpu H, Kheap H}.
Abbreviation S := (kstate H).

(** The address of [thread_entry_point], and what the function at an address
    does when it is called with some data. *)
Variable entry_point : Z.
Variable code : Z → Z → list op * list op.
(** What [get_cs_register] returns. *)
Variable cs : Z.

Definition on_sys {A} (m : M sys A) : M S A := zoom k_sys (λ x s, KState x (k_heap s) (_next_tid s)) m.

(** The heap is used by the processor the threads run on: it sees the flags of that processor. *)
Definition on_heap {A} (m : M H A) : M S A :=
  zoom (λ s, set_eflags (cpu_eflags (k_sys s)) (k_heap s))
    (λ h s, KState (set_cpu (eflags h) (cpu_frames (k_sys s)) (k_sys s)) h (_next_tid s)) m.

Definition thread_next_id : M S Z :=
  modify (λ s, KState (k_sys s) (k_heap s) (u32 (_next_tid s + 1)));;
  s ← get;
  (if _next_tid s =? 0 then modify (λ s, KState (k_sys s) (k_heap s) 1) else mret tt);;
  s ← get;
  mret (_next_tid s).

Definition thread_alloc : M S Z :=
  t ← on_heap (k_alloc sizeof_thread);
  (if negb (t =? NULL) then on_sys (on_threads (modify (insert t zero_thread))) else mret tt);;
  mret t.

(** The block is given back, so no struct is there any more. *)
Definition thread_free (t : Z) : M S unit :=
  on_heap (k_free t);;
  on_sys (on_threads (modify (delete t))).

(** The stores of [stack_init]. *)
Fixpoint store_words (ws : list (Z * Z)) : M S unit :=
  match ws with
  | [] => mret tt
  | (a, w) :: ws => on_heap (k_store32 a w);; store_words ws
  end.
Definition stack_init (stack size func data : Z) : M S unit :=
  s ← get;
  store_words (Stack.stack_init stack size func data cs (cpu_eflags (k_sys s))).2.

Definition thread_init (t f data : Z) : M S Z :=
  id ← thread_next_id;
  on_sys (update_thread t (set_tid id));;
  on_sys (update_thread t (set_state thread_created));;
  stack ← on_heap (k_alloc STACK_SIZE);
  on_sys (update_thread t (set_stack stack));;
  if stack =? NULL then mret (-1)
  else
    kernel_stack ← on_heap (k_alloc KERNEL_STACK_SIZE);
    on_sys (update_thread t (set_kernel_stack kernel_stack));;
    if kernel_stack =? NULL then
      on_heap (k_free stack);;
      mret (-1)
    else
      on_sys (update_thread t (set_name EmptyString));;
      on_sys (update_thread t (set_stack_sizes STACK_SIZE KERNEL_STACK_SIZE));;
      stack_init stack STACK_SIZE entry_point t;;
      s ← get;
      let '(ops, loop) := code f data in
      on_sys (update_thread t (set_context
        (Context entry_point (flags_register_value_clear_bit (cpu_eflags (k_sys s)) flags_if_bit) [FEntry t ops loop])));;
      mret 0.

Definition thread_spawn_kthread (f : Z) (name : string) (data : Z) : M S Z :=
  t ← thread_alloc;
  if negb (t =? NULL) then
    r ← thread_init t f data;
    if negb (0 =? r) then
      thread_free t;;
      mret NULL
    else
      on_sys (update_thread t (set_name name));;
      on_sys (thread_start t);;
      mret t
  else mret NULL.

(** ** A thread that is on no list *)

Lemma cores_insert h p th : cores (<[p := th]> h) = <[p := core th]> (cores h).
Proof. apply fmap_insert. Qed.

Lemma rep_fresh_not_in s rs bs C p : rep s rs bs C → C !! p = None → p ∉ rs ∧ p ∉ bs.
Proof.
  intros Hr Hp. split; intros Hin.
  - destruct (rep_in _ _ _ _ p Hr (or_introl Hin)) as [_ [c Ec]]. by rewrite Hp in Ec.
  - destruct (rep_in _ _ _ _ p Hr (or_intror Hin)) as [_ [c Ec]]. by rewrite Hp in Ec.
Qed.

Lemma rep_other s rs bs C h p : rep s rs bs C → C !! p = None → (∀ q, q ≠ p → h !! q = threads s !! q) →
  dl_rep sched_links h (runnable_threads s) rs ∧ dl_rep sched_links h (blocked_threads s) bs.
Proof.
  intros Hr Hp Hh. destruct (rep_fresh_not_in _ _ _ _ _ Hr Hp) as [N1 N2]. destruct Hr as [(A1 & A2 & A3) (B1 & B2 & B3) _ _].
  split; (split; [done|]); (split; [|done]); (eapply dl_seg_frame; [|eassumption]); intros q Hq; apply Hh; congruence.
Qed.

Lemma rep_insert s rs bs C p th : rep s rs bs C → C !! p = None →
  rep (set_threads (<[p := th]> (threads s)) s) rs bs (<[p := core th]> C).
Proof.
  intros Hr Hp. destruct (rep_other s rs bs C (<[p := th]> (threads s)) p Hr Hp) as [A B].
  { intros q Hq. by rewrite lookup_insert_ne. }
  split; [exact A|exact B|exact (rep_disj _ _ _ _ Hr)|]. simpl. by rewrite cores_insert, (rep_cores _ _ _ _ Hr).
Qed.

Lemma rep_delete s rs bs C p c : rep s rs bs (<[p := c]> C) → C !! p = None → p ∉ rs → p ∉ bs →
  rep (set_threads (delete p (threads s)) s) rs bs C.
Proof.
  intros [(A1 & A2 & A3) (B1 & B2 & B3) Hd HC] Hp N1 N2.
  assert (Hh : ∀ q, q ≠ p → delete p (threads s) !! q = threads s !! q) by (intros; by rewrite lookup_delete_ne).
  split; [split; [done|]; split; [|done]|split; [done|]; split; [|done]|done|].
  - eapply dl_seg_frame; [|exact A2]. intros q Hq. apply Hh. congruence.
  - eapply dl_seg_frame; [|exact B2]. intros q Hq. apply Hh. congruence.
  - simpl. unfold cores in *. rewrite fmap_delete, HC. by apply delete_insert_id.
Qed.

(** The running thread is another one. *)
Lemma ready_new k s s' rs bs C rs' bs' p c :
  rep s rs bs C → ready k s → C !! p = None → rep s' rs' bs' (<[p := c]> C) → rest s' = rest s → ready k s'.
Proof.
  intros Hr [Ht Hl Hf] Hp Hr' Hrest.
  assert (E : current_tid s' = current_tid s).
  { rewrite (rep_tid _ _ _ _ Hr') , (rep_tid _ _ _ _ Hr), (rest_current _ _ Hrest). unfold tid_of. rewrite lookup_insert_ne; [done|].
    intros ->. apply Ht. rewrite (rep_tid _ _ _ _ Hr). unfold tid_of. rewrite Hp. by destruct (_ =? _). }
  split; unfold lock_ok, flags_word in *; rewrite ?E, ?(rest_lock _ _ Hrest); [done..|]. simpl in *. by rewrite (rest_eflags _ _ Hrest).
Qed.

(** ** The state between two actions

    The threads are those of [C] on the lists [rs] and [bs], the blocks of the
    heap are [L], [n] more calls of the heap fit, the last identifier given is
    [j]; the rest of the machine is that of [x0]. *)
Context `{!CpuLaws H, !KheapLaws H}.
Variables (x0 : sys) (i0 : Z).
Hypothesis flags0 : flags_word x0.
#[local] Set Default Proof Using "Type*".

Record kat (n : nat) (j : Z) (s : S) (L : gmap Z Z) (rs bs : list Z) (C : gmap Z thread) : Prop := {
  ka_rep : rep (k_sys s) rs bs C;
  ka_rest : rest (k_sys s) = rest x0;
  ka_live : k_live n (k_heap s) L;
  ka_tid : current_tid (k_heap s) = i0;
  ka_next : _next_tid s = j
}.

Lemma kat_mono n m j s L rs bs C : kat n j s L rs bs C → (m ≤ n)%nat → kat m j s L rs bs C.
Proof. intros [] Hle. split; try done. by eapply k_live_mono. Qed.

Lemma heap_call_ok {A} (m : M H A) s a h :
  m (set_eflags (cpu_eflags (k_sys s)) (k_heap s)) = Ret a h → eflags h = cpu_eflags (k_sys s) →
  on_heap m s = Ret a (KState (k_sys s) h (_next_tid s)).
Proof. intros E Ef. unfold on_heap, zoom. rewrite E, Ef. by destruct s as [[]]. Qed.

Lemma on_sys_ok {A} (m : M sys A) s a x : m (k_sys s) = Ret a x → on_sys m s = Ret a (KState x (k_heap s) (_next_tid s)).
Proof. intros E. unfold on_sys, zoom. by rewrite E. Qed.

Lemma kat_flags n j s L rs bs C : kat n j s L rs bs C →
  k_live n (set_eflags (cpu_eflags (k_sys s)) (k_heap s)) L.
Proof. intros []. apply k_live_flags; [done|]. rewrite (rest_eflags _ _ ka_rest0). apply flags0. Qed.

(** The heap as the processor sees it. *)
Definition heap_of (s : S) : H := set_eflags (cpu_eflags (k_sys s)) (k_heap s).

Lemma heap_of_id s : eflags (k_heap s) = cpu_eflags (k_sys s) → heap_of s = k_heap s.
Proof. intros E. unfold heap_of. rewrite <- E. apply set_eflags_id. Qed.

Lemma kat_alloc n j s L rs bs C sz : kat (Datatypes.S n) j s L rs bs C → 0 < sz ≤ max_block →
  ∃ p s', on_heap (k_alloc sz) s = Ret p s' ∧ k_alloc sz (heap_of s) = Ret p (heap_of s') ∧
    ((p = NULL ∧ kat n j s' L rs bs C) ∨ (p ≠ NULL ∧ L !! p = None ∧ kat n j s' (<[p := sz]> L) rs bs C)).
Proof.
  intros Hk Hsz. destruct (k_alloc_ok n _ L sz (kat_flags _ _ _ _ _ _ _ Hk) Hsz) as (p & h' & E & Ef & Et & Hp).
  rewrite eflags_set in Ef. rewrite tid_set_eflags in Et. exists p, (KState (k_sys s) h' (_next_tid s)).
  split; [by apply heap_call_ok|]. split; [rewrite (heap_of_id (KState (k_sys s) h' (_next_tid s)) Ef); exact E|]. destruct Hk as [A B D Ei F].
  destruct Hp as [[-> Hl]|(Hp & HL & Hl)]; [left; split; [done|]|right; split; [done|]; split; [done|]];
    split; try done; simpl; congruence.
Qed.

Lemma kat_free n j s L rs bs C p sz : kat (Datatypes.S n) j s L rs bs C → L !! p = Some sz →
  ∃ s', on_heap (k_free p) s = Ret tt s' ∧ kat n j s' (delete p L) rs bs C.
Proof.
  intros Hk HL. destruct (k_free_ok n _ L p sz (kat_flags _ _ _ _ _ _ _ Hk) HL) as (h' & E & Ef & Et & Hl).
  rewrite eflags_set in Ef. rewrite tid_set_eflags in Et. exists (KState (k_sys s) h' (_next_tid s)).
  split; [by apply heap_call_ok|]. destruct Hk as [A B D Ei F]. split; try done. simpl. congruence.
Qed.

(** A word of free memory. *)
Lemma kat_store n j s L rs bs C a w : kat n j s L rs bs C → (∀ x, a ≤ x < a + 4 → k_spare (heap_of s) x) →
  ∃ s', on_heap (k_store32 a w) s = Ret tt s' ∧ kat n j s' L rs bs C ∧ (∀ x, k_spare (heap_of s') x ↔ k_spare (heap_of s) x) ∧
    k_word (heap_of s') a = u32 w ∧ ∀ b, b + 4 ≤ a ∨ a + 4 ≤ b → k_word (heap_of s') b = k_word (heap_of s) b.
Proof.
  intros Hk Hsp. destruct (k_store_ok n _ L a w (kat_flags _ _ _ _ _ _ _ Hk) Hsp) as (h' & E & Ef & Et & Hl & Hs & Hw & Ho).
  rewrite eflags_set in Ef. rewrite tid_set_eflags in Et. exists (KState (k_sys s) h' (_next_tid s)).
  split; [by apply heap_call_ok|]. rewrite (heap_of_id (KState (k_sys s) h' (_next_tid s)) Ef). split; [|done]. destruct Hk as [A B D Ei F]. split; try done. simpl. congruence.
Qed.

Definition apart (v w : Z * Z) : Prop := v.1 + 4 ≤ w.1 ∨ w.1 + 4 ≤ v.1.

Lemma kat_stores n j L rs bs C ws : ForallOrdPairs apart ws → ∀ s, kat n j s L rs bs C →
  (∀ v, v ∈ ws → ∀ x, v.1 ≤ x < v.1 + 4 → k_spare (heap_of s) x) →
  ∃ s', store_words ws s = Ret tt s' ∧ kat n j s' L rs bs C ∧ (∀ v, v ∈ ws → k_word (heap_of s') v.1 = u32 v.2) ∧
    ∀ b, (∀ v, v ∈ ws → b + 4 ≤ v.1 ∨ v.1 + 4 ≤ b) → k_word (heap_of s') b = k_word (heap_of s) b.
Proof.
  induction 1 as [|[a w] ws Ha _ IH]; intros s Hk Hsp.
  - exists s. split; [done|]. split; [done|]. split; [by intros v ?%elem_of_nil|done].
  - destruct (kat_store _ _ _ _ _ _ _ a w Hk (Hsp (a, w) ltac:(by left))) as (s1 & E1 & K1 & S1 & W1 & O1).
    destruct (IH s1 K1) as (s2 & E2 & K2 & W2 & O2); [intros v Hv x Hx; apply S1; eapply Hsp; [by right|done]|].
    exists s2. split; [cbn [store_words]; by step E1|]. split; [done|]. rewrite Forall_forall in Ha. split.
    + intros v [->|Hv]%elem_of_cons; [|by apply W2]. cbn [fst snd]. rewrite <- W1. apply O2. intros v Hv. exact (Ha v (proj1 (list_elem_of_In _ _) Hv)).
    + intros b Hb. rewrite O2 by (intros v Hv; apply Hb; by right). apply O1. exact (Hb (a, w) ltac:(by left)).
Qed.

Lemma kat_update n j s L rs bs C p c f : kat n j s L rs bs (<[p := c]> C) → data_fn f →
  ∃ s', on_sys (update_thread p f) s = Ret tt s' ∧ kat n j s' L rs bs (<[p := f c]> C) ∧ heap_of s' = heap_of s.
Proof.
  intros [A B D Ei F] Hf.
  destruct (update_thread_spec (k_sys s) rs bs (<[p := c]> C) p c f A) as (x & E & Hr & Hx); [by rewrite lookup_insert_eq|done|].
  eexists. split; [by apply on_sys_ok|]. rewrite alter_insert_eq in Hr. split; [split; try done; simpl; congruence|].
  unfold heap_of. simpl. by rewrite (rest_eflags _ _ Hx).
Qed.

Lemma kat_next n j s L rs bs C : kat n j s L rs bs C → 0 ≤ j < W32 - 1 →
  ∃ s', thread_next_id s = Ret (j + 1) s' ∧ kat n (j + 1) s' L rs bs C ∧ heap_of s' = heap_of s.
Proof.
  intros [A B D Ei F] Hj. unfold thread_next_id. rewrite bind_modify, bind_get. cbn [_next_tid]. rewrite F, u32_small by lia.
  rewrite (proj2 (Z.eqb_neq (j + 1) 0)) by lia. step (ret_ok tt (KState (k_sys s) (k_heap s) (j + 1))). rewrite bind_get.
  eexists. split; [done|]. split; [by split|done].
Qed.

Lemma kat_thread_alloc n j s L rs bs C : kat (Datatypes.S n) j s L rs bs C → (∀ q, is_Some (C !! q) → is_Some (L !! q)) →
  ∃ p s', thread_alloc s = Ret p s' ∧ k_alloc sizeof_thread (heap_of s) = Ret p (heap_of s') ∧
    ((p = NULL ∧ kat n j s' L rs bs C) ∨
     (p ≠ NULL ∧ L !! p = None ∧ C !! p = None ∧ kat n j s' (<[p := sizeof_thread]> L) rs bs (<[p := zero_thread]> C))).
Proof.
  intros Hk Hth. unfold thread_alloc. destruct (kat_alloc n j s L rs bs C sizeof_thread Hk ltac:(done)) as (p & s1 & E & Eh & Hp).
  step E. destruct Hp as [[-> Hk1]|(Hp & HL & Hk1)].
  { exists NULL, s1. split; [done|]. split; [done|]. by left. }
  rewrite (proj2 (Z.eqb_neq p NULL)) by done. cbn [negb].
  assert (HC : C !! p = None).
  { destruct (C !! p) eqn:Ec; [|done]. destruct (Hth p ltac:(eauto)) as [sz Hsz]. by rewrite HL in Hsz. }
  exists p. eexists. split; [done|]. split; [exact Eh|]. right. split; [done|]. split; [done|]. split; [done|].
  destruct Hk1 as [A B D Ei F]. split; try done. simpl. by apply (rep_insert (k_sys s1) rs bs C p zero_thread).
Qed.

Lemma kat_thread_free n j s L rs bs C p c :
  kat (Datatypes.S n) j s (<[p := sizeof_thread]> L) rs bs (<[p := c]> C) → L !! p = None → C !! p = None → p ∉ rs → p ∉ bs →
  ∃ s', thread_free p s = Ret tt s' ∧ kat n j s' L rs bs C.
Proof.
  intros Hk HL HC N1 N2. unfold thread_free.
  destruct (kat_free n j s _ rs bs _ p sizeof_thread Hk ltac:(by rewrite lookup_insert_eq)) as (s1 & E & Hk1). step E.
  rewrite delete_insert_id in Hk1 by done. eexists. split; [done|]. destruct Hk1 as [A B D Ei F]. split; try done.
  simpl. by eapply rep_delete.
Qed.

(** The struct of a thread that is ready to be started, and of one that has been. *)
Definition start_context (p f data : Z) : context :=
  Context entry_point (flags_register_value_clear_bit (cpu_eflags x0) flags_if_bit)
    [FEntry p (code f data).1 (code f data).2].
Definition init_thread (p id f data st kst : Z) : thread :=
  Thread 0 0 0 0 0 EmptyString id (start_context p f data) st kst STACK_SIZE KERNEL_STACK_SIZE 0 thread_created 0 0.
Definition new_thread (p id f : Z) (nm : string) (data st kst : Z) : thread :=
  Thread 0 0 0 0 0 nm id (start_context p f data) st kst STACK_SIZE KERNEL_STACK_SIZE 0 thread_runnable 0 TIME_SLICE.

Definition stacks (st kst : Z) (L : gmap Z Z) : gmap Z Z := <[kst := KERNEL_STACK_SIZE]> (<[st := STACK_SIZE]> L).
Definition stacks_fresh (st kst : Z) (L : gmap Z Z) : Prop :=
  st ≠ NULL ∧ kst ≠ NULL ∧ st ≠ kst ∧ L !! st = None ∧ L !! kst = None.

(** The words [stack_init] writes for the thread [p] with the stack [st], and
    that they are in memory. *)
Definition frame_words (p st : Z) : list (Z * Z) := (Stack.stack_init st STACK_SIZE entry_point p cs (cpu_eflags x0)).2.
Definition frame_in (h : H) (p st : Z) : Prop := ∀ v, v ∈ frame_words p st → k_word h v.1 = u32 v.2.

(** They are the 24 bytes from 113692 bytes above the start of the stack on. *)
Lemma frame_words_eq p st : 0 ≤ st → st + 113716 ≤ W32 →
  frame_words p st = [(st + 113708, 0); (st + 113712, p); (st + 113692, 0); (st + 113696, entry_point); (st + 113700, cs);
    (st + 113704, flags_register_value_clear_bit (cpu_eflags x0) flags_if_bit)].
Proof.
  intros Hlo Hhi. unfold frame_words, Stack.stack_init, Stack.sizeof_context, Stack.sizeof_ep_frame. cbn [snd].
  rewrite (u32_small (st + 28 * (4096 - 28 - 8))) by lia. rewrite !u32_small by lia.
  change (28 * (4096 - 28 - 8)) with 113680. by rewrite <- !Z.add_assoc.
Qed.

(** The frame falls into free memory of the heap [h]. *)
Definition frame_free (h : H) (st : Z) : Prop :=
  0 ≤ st ∧ st + 113716 ≤ W32 ∧ ∀ x, st + 113692 ≤ x < st + 113716 → k_spare h x.
(** So it does after the stacks of a new thread have been allocated from [h]. *)
Definition stacks_free (h : H) : Prop := ∀ st h1 kst h2,
  k_alloc STACK_SIZE h = Ret st h1 → st ≠ NULL → k_alloc KERNEL_STACK_SIZE h1 = Ret kst h2 → kst ≠ NULL → frame_free h2 st.

Lemma kat_stack_init n j s L rs bs C p st : kat n j s L rs bs C → frame_free (heap_of s) st →
  ∃ s', stack_init st STACK_SIZE entry_point p s = Ret tt s' ∧ kat n j s' L rs bs C ∧ frame_in (heap_of s') p st.
Proof.
  intros Hk (Hlo & Hhi & Hsp). unfold stack_init. rewrite bind_get, (rest_eflags _ _ (ka_rest _ _ _ _ _ _ _ Hk)). fold (frame_words p st).
  assert (Hap : ForallOrdPairs apart (frame_words p st)).
  { rewrite frame_words_eq by done. repeat first [apply FOP_nil | apply FOP_cons | apply Forall_nil_2 | apply Forall_cons_2]; unfold apart; cbn [fst]; lia. }
  destruct (kat_stores n j L rs bs C (frame_words p st) Hap s Hk) as (s' & E & K & W & _).
  { intros v Hv x Hx. apply Hsp. rewrite frame_words_eq in Hv by done. clear -Hv Hx.
    repeat (apply elem_of_cons in Hv as [->|Hv]; [cbn [fst] in Hx; lia|]). by apply elem_of_nil in Hv. }
  by exists s'.
Qed.

Lemma kat_init n j s L rs bs C p f data :
  kat (3 + n) j s L rs bs (<[p := zero_thread]> C) → 0 ≤ j < W32 - 1 → stacks_free (heap_of s) →
  ∃ r s', thread_init p f data s = Ret r s' ∧
    ((r = -1 ∧ ∃ c, kat n (j + 1) s' L rs bs (<[p := c]> C)) ∨
     (r = 0 ∧ ∃ st kst, stacks_fresh st kst L ∧ frame_in (heap_of s') p st ∧
       kat n (j + 1) s' (stacks st kst L) rs bs (<[p := init_thread p (j + 1) f data st kst]> C))).
Proof.
  intros Hk Hj Hfree. unfold thread_init. destruct (kat_next _ _ _ _ _ _ _ Hk Hj) as (s1 & E1 & K1 & H1'). step E1. rewrite <- H1' in Hfree. clear Hk E1 H1' s.
  destruct (kat_update _ _ _ _ _ _ _ _ _ (set_tid (j + 1)) K1) as (s2 & E2 & K2 & H2'); [done|]. step E2. rewrite <- H2' in Hfree. clear K1 E2 H2' s1.
  destruct (kat_update _ _ _ _ _ _ _ _ _ (set_state thread_created) K2) as (s3 & E3 & K3 & H3'); [done|]. step E3. rewrite <- H3' in Hfree. clear K2 E3 H3' s2.
  destruct (kat_alloc _ _ _ _ _ _ _ STACK_SIZE K3 ltac:(done)) as (st & s4 & E4 & A4 & Hst). step E4. clear K3 E4.
  destruct Hst as [[-> K4]|(Hst & HL & K4)].
  { destruct (kat_update _ _ _ _ _ _ _ _ _ (set_stack NULL) K4) as (s5 & E5 & K5 & _); [done|]. step E5.
    exists (-1), s5. split; [done|]. left. split; [done|]. eexists. eapply kat_mono; [exact K5|lia]. }
  destruct (kat_update _ _ _ _ _ _ _ _ _ (set_stack st) K4) as (s5 & E5 & K5 & H5); [done|]. step E5. clear K4 E5.
  rewrite (proj2 (Z.eqb_neq st NULL)) by done. rewrite <- H5 in A4. clear H5 s4.
  destruct (kat_alloc _ _ _ _ _ _ _ KERNEL_STACK_SIZE K5 ltac:(done)) as (kst & s6 & E6 & A6 & Hkst). step E6. clear K5 E6.
  destruct Hkst as [[-> K6]|(Hkst & HL2 & K6)].
  { destruct (kat_update _ _ _ _ _ _ _ _ _ (set_kernel_stack NULL) K6) as (s7 & E7 & K7 & _); [done|]. step E7. rewrite Z.eqb_refl.
    destruct (kat_free _ _ _ _ _ _ _ st STACK_SIZE K7 ltac:(by rewrite lookup_insert_eq)) as (s8 & E8 & K8). step E8.
    exists (-1), s8. split; [done|]. left. split; [done|]. rewrite delete_insert_id in K8 by done. eexists. exact K8. }
  pose proof (Hfree _ _ _ _ A4 Hst A6 Hkst) as Hfr. clear A4 A6 Hfree s5 s3.
  destruct (kat_update _ _ _ _ _ _ _ _ _ (set_kernel_stack kst) K6) as (s7 & E7 & K7 & H7); [done|]. step E7. rewrite <- H7 in Hfr. clear K6 E7 H7 s6.
  rewrite (proj2 (Z.eqb_neq kst NULL)) by done. apply lookup_insert_None in HL2 as [HL2 Hne].
  destruct (kat_update _ _ _ _ _ _ _ _ _ (set_name EmptyString) K7) as (s8 & E8 & K8 & H8); [done|]. step E8. rewrite <- H8 in Hfr. clear K7 E8 H8 s7.
  destruct (kat_update _ _ _ _ _ _ _ _ _ (set_stack_sizes STACK_SIZE KERNEL_STACK_SIZE) K8) as (s9 & E9 & K9 & H9); [done|]. step E9.
  rewrite <- H9 in Hfr. clear K8 E9 H9 s8.
  destruct (kat_stack_init _ _ _ _ _ _ _ p st K9 Hfr) as (s10 & E10 & K10 & Hin). step E10. clear K9 E10 Hfr s9.
  rewrite bind_get. rewrite (surjective_pairing (code f data)). rewrite (rest_eflags _ _ (ka_rest _ _ _ _ _ _ _ K10)).
  destruct (kat_update _ _ _ _ _ _ _ _ _ (set_context (start_context p f data)) K10) as (s11 & E11 & K11 & H11); [done|].
  unfold start_context in E11. step E11. exists 0, s11. split; [done|]. right. split; [done|]. exists st, kst.
  split; [by split_and!|]. split; [by rewrite H11|]. eapply kat_mono; [exact K11|lia].
Qed.

Definition spawned (n : nat) (j : Z) (L : gmap Z Z) (rs bs : list Z) (C : gmap Z thread) (f : Z) (nm : string) (data p : Z) (s' : S) : Prop :=
  (p = NULL ∧ ∃ j', j ≤ j' ≤ j + 1 ∧ kat n j' s' L rs bs C) ∨
  (p ≠ NULL ∧ L !! p = None ∧ C !! p = None ∧ ∃ st kst, stacks_fresh st kst (<[p := sizeof_thread]> L) ∧ frame_in (heap_of s') p st ∧
    kat n (j + 1) s' (stacks st kst (<[p := sizeof_thread]> L)) (rs ++ [p]) bs (<[p := new_thread p (j + 1) f nm data st kst]> C)).

Lemma kat_spawn n j s L rs bs C f nm data :
  kat (5 + n) j s L rs bs C → ready 16 (k_sys s) → 0 ≤ j < W32 - 1 → (∀ q, is_Some (C !! q) → is_Some (L !! q)) →
  (∀ t h, k_alloc sizeof_thread (heap_of s) = Ret t h → t ≠ NULL → stacks_free h) →
  ∃ p s', thread_spawn_kthread f nm data s = Ret p s' ∧ spawned n j L rs bs C f nm data p s'.
Proof.
  intros Hk Hrd Hj Hth Hfree. unfold thread_spawn_kthread.
  destruct (kat_thread_alloc (4 + n) j s L rs bs C Hk Hth) as (p & s1 & E1 & A1 & Hp). step E1.
  destruct Hp as [[-> K1]|(Hp & HL & HC & K1)].
  { exists NULL, s1. split; [done|]. left. split; [done|]. exists j. split; [lia|]. eapply kat_mono; [exact K1|lia]. }
  destruct (rep_fresh_not_in _ _ _ _ p (ka_rep _ _ _ _ _ _ _ Hk) HC) as [N1 N2].
  rewrite (proj2 (Z.eqb_neq p NULL)) by done. cbn [negb].
  destruct (kat_init (1 + n) j s1 _ rs bs C p f data K1 Hj (Hfree _ _ A1 Hp)) as (r & s2 & E2 & Hr). step E2.
  destruct Hr as [(-> & c & K2)|(-> & st & kst & Hfr & Hin & K2)]; cbn [Z.eqb negb].
  - destruct (kat_thread_free n (j + 1) s2 L rs bs C p c K2 HL HC N1 N2) as (s3 & E3 & K3). step E3.
    exists NULL, s3. split; [done|]. left. split; [done|]. exists (j + 1). split; [lia|done].
  - destruct (kat_update _ _ _ _ _ _ _ _ _ (set_name nm) K2) as (s3 & E3 & K3 & H3); [done|]. step E3.
    assert (R3 : rest (k_sys s3) = rest (k_sys s)) by (rewrite (ka_rest _ _ _ _ _ _ _ K3); by rewrite (ka_rest _ _ _ _ _ _ _ Hk)).
    pose proof (ready_new 16 _ _ _ _ _ _ _ _ _ (ka_rep _ _ _ _ _ _ _ Hk) Hrd HC (ka_rep _ _ _ _ _ _ _ K3) R3) as Hrd3.
    destruct (add_thread_spec 16 (k_sys s3) rs bs _ p _ (ka_rep _ _ _ _ _ _ _ K3) Hrd3 ltac:(lia) (lookup_insert_eq C p _) eq_refl Hp N1 N2)
      as (x4 & E4 & H4 & R4).
    unfold thread_start. step (on_sys_ok _ s3 _ _ E4). eexists p, _. split; [done|]. right. split; [done|]. split; [done|]. split; [done|].
    exists st, kst. split; [done|]. split.
    { unfold heap_of in *. cbn [k_sys k_heap]. by rewrite (rest_eflags _ _ R4), H3. }
    rewrite !alter_insert_eq in H4. apply (kat_mono (1 + n)); [|lia].
    destruct K3 as [A B D Ei F]. split; try done. simpl. by rewrite R4.
Qed.
End Spawn.

(** ** The new thread fits the machine *)
Section Fits.
Variables kernel_vma_byte : Z.
Variables (x x' : sys) (rs bs : list Z) (C : gmap Z thread) (p : Z) (c : thread) (ops loop : list op).
Hypothesis new_p : C !! p = None.
Hypothesis new_rep : rep x' (rs ++ [p]) bs (<[p := c]> C).
Hypothesis new_rest : rest x' = rest x.
Hypothesis new_state : state c = thread_runnable.
Hypothesis new_links : wait_queue_next c = 0.
Hypothesis new_frames : ctx_frames (stack_context c) = [FEntry p ops loop].
Hypothesis new_flags : 0 ≤ ctx_eflags (stack_context c) < W32 ∧ Z.testbit (ctx_eflags (stack_context c)) flags_if_bit = false.
Hypothesis new_eip : kernel_vma_byte ≤ ctx_eip (stack_context c).
Hypothesis new_tid : tid c ≠ 0 ∧ ∀ t d, C !! t = Some d → tid d ≠ tid c.
Hypothesis new_owner : ∀ m y, mutexes x !! m = Some y → m_owner y ≠ tid c.
Hypothesis new_ops : program_ok (mutexes x) ops ∧ program_ok (mutexes x) loop ∧ (∀ m, depth m ops = 0) ∧ (∀ m, depth m loop = 0).
#[local] Set Default Proof Using "Type*".

Lemma new_sinv : sinv kernel_vma_byte x rs bs C → sinv kernel_vma_byte x' (rs ++ [p]) bs (<[p := c]> C).
Proof.
  intros Hs. assert (Hpc : p ≠ current x) by (intros ->; destruct (si_cur _ _ _ _ _ Hs); congruence).
  split.
  - done.
  - intros t [d [[<- _]|[Hne E]]%lookup_insert_Some]; [left; mem|]. destruct (si_cover _ _ _ _ _ Hs t ltac:(eauto)); [left; mem|by right].
  - intros t d Ht [[<- <-]|[Hne E]]%lookup_insert_Some; [by rewrite new_state|].
    apply (si_run _ _ _ _ _ Hs t d); [|done]. by apply elem_of_app in Ht as [Ht| ->%list_elem_of_singleton].
  - intros t d Ht [[<- <-]|[Hne E]]%lookup_insert_Some; [|by apply (si_blk _ _ _ _ _ Hs t d)].
    exfalso. eapply (rep_disj _ _ _ _ new_rep p); [mem|done].
  - rewrite (rest_current _ _ new_rest), lookup_insert_ne by done. apply (si_cur _ _ _ _ _ Hs).
  - intros t d [[<- <-]|[Hne E]]%lookup_insert_Some; [apply new_tid|]. by eapply si_tids.
  - intros t u ct cu [[<- <-]|[Hn1 E1]]%lookup_insert_Some [[<- <-]|[Hn2 E2]]%lookup_insert_Some He; [done| | |].
    + exfalso. by apply (proj2 new_tid u cu E2).
    + exfalso. by apply (proj2 new_tid t ct E1).
    + by apply (si_uniq _ _ _ _ _ Hs t u ct cu).
  - rewrite (rest_lock _ _ new_rest). apply (si_lock _ _ _ _ _ Hs).
  - rewrite (rest_eflags _ _ new_rest). apply (si_flags _ _ _ _ _ Hs).
  - rewrite (rest_frames _ _ new_rest). apply (si_frames _ _ _ _ _ Hs).
  - rewrite (rest_current _ _ new_rest). intros t d [[<- <-]|[Hn E]]%lookup_insert_Some Ht; [|by eapply si_ctx].
    split; [done|]. split; [apply new_flags|]. rewrite new_frames. by repeat constructor.
Qed.

Lemma new_frames_of t : sinv kernel_vma_byte x rs bs C →
  frames_of x' (<[p := c]> C) t = (if decide (t = p) then [FEntry p ops loop] else frames_of x C t) ∧
  flags_of x' (<[p := c]> C) t = (if decide (t = p) then ctx_eflags (stack_context c) else flags_of x C t).
Proof.
  intros Hs. assert (Hpc : p ≠ current x) by (intros ->; destruct (si_cur _ _ _ _ _ Hs); congruence).
  unfold frames_of, flags_of. rewrite (rest_current _ _ new_rest), (rest_eflags _ _ new_rest), (rest_frames _ _ new_rest).
  destruct (decide (t = p)) as [->|Hne].
  - by rewrite !decide_False, lookup_insert_eq, new_frames by done.
  - by rewrite lookup_insert_ne.
Qed.

Lemma new_minv G W : sinv kernel_vma_byte x rs bs C → minv x C G W →
  minv x' (<[p := c]> C) (<[p := Ghost PEntry ops loop]> G) W.
Proof.
  intros Hs Hm. pose proof new_ops as (P1 & P2 & D1 & D2). assert (HG : ∀ t, t ≠ p → <[p := Ghost PEntry ops loop]> G t = G t) by (intros; by rewrite fn_lookup_insert_ne).
  assert (HW : ∀ m y, mutexes x !! m = Some y → p ∉ W m).
  { intros m y Ey Hin. apply (mi_waits _ _ _ _ Hm m y p Ey) in Hin as [[d Ed] _]. congruence. }
  split; rewrite ?(rest_mutexes _ _ new_rest).
  - intros t d [[<- <-]|[Hne E]]%lookup_insert_Some; rewrite (proj1 (new_frames_of _ Hs)).
    + by rewrite decide_True, fn_lookup_insert by done.
    + rewrite decide_False, HG by done. by apply (mi_stack _ _ _ _ Hm).
  - intros t [d [[<- <-]|[Hne E]]%lookup_insert_Some]; [by rewrite fn_lookup_insert|]. rewrite HG by done. apply (mi_ghost _ _ _ _ Hm). eauto.
  - intros m y t d Ey [[<- <-]|[Hne E]]%lookup_insert_Some; [|rewrite HG by done; by apply (mi_stake _ _ _ _ Hm)].
    rewrite fn_lookup_insert. unfold stake_of, body_stake. cbn. rewrite D1. by apply (new_owner m y).
  - exact (mi_zero _ _ _ _ Hm).
  - exact (mi_lock _ _ _ _ Hm).
  - intros m y Ey. eapply dl_rep_wait; [|by apply (mi_wait _ _ _ _ Hm)]. intros q Hq. rewrite lookup_insert_ne; [done|].
    intros ->. by apply (HW m y Ey).
  - intros m y t Ey. destruct (decide (t = p)) as [->|Hne].
    + rewrite fn_lookup_insert. split; [intros Hin; by destruct (HW m y Ey)|]. by intros [_ Hw].
    + rewrite HG, lookup_insert_ne by done. by apply (mi_waits _ _ _ _ Hm m y t).
  - intros t d [[<- <-]|[Hne E]]%lookup_insert_Some Hw; [done|]. rewrite HG in Hw by done. by apply (mi_links _ _ _ _ Hm t).
  - intros t [d [[<- <-]|[Hne E]]%lookup_insert_Some] Hp; rewrite (proj1 (new_frames_of _ Hs)), (proj2 (new_frames_of _ Hs)).
    + rewrite !decide_True by done. split; [apply new_flags|by repeat constructor].
    + rewrite HG in Hp by done. rewrite !decide_False by done. apply (mi_entry _ _ _ _ Hm); eauto.
  - intros t d [[<- <-]|[Hne E]]%lookup_insert_Some Hd; [congruence|]. rewrite HG by done. by apply (mi_dead _ _ _ _ Hm t d).
Qed.

Lemma new_good G W : sinv kernel_vma_byte x rs bs C → minv x C G W → awake x C → good kernel_vma_byte x'.
Proof.
  intros Hs Hm (d & Ed & Ha). eexists _, _, _, _, _. split; [by apply new_sinv|]. split; [by eapply new_minv|].
  exists d. rewrite (rest_current _ _ new_rest), (rest_frames _ _ new_rest). split; [|done]. rewrite lookup_insert_ne; [done|]. congruence.
Qed.
End Fits.

Lemma good_same kernel_vma_byte x x' rs bs C G W :
  sinv kernel_vma_byte x rs bs C → minv x C G W → awake x C → rep x' rs bs C → rest x' = rest x → good kernel_vma_byte x'.
Proof.
  intros Hs Hm Ha Hr R. exists rs, bs, C, G, W. split; [|split].
  - eapply sinv_relink; [exact Hs|exact Hr|done|by apply rest_current|by apply rest_lock| |].
    + rewrite (rest_eflags _ _ R). apply (si_flags _ _ _ _ _ Hs).
    + rewrite (rest_frames _ _ R). apply (si_frames _ _ _ _ _ Hs).
  - eapply minv_quiet; [exact Hm|apply quiet_rest; [by intros q|apply undead_refl|done]|right]. unfold flags_of, frames_of.
    rewrite (rest_current _ _ R), !decide_True by done. by rewrite (rest_eflags _ _ R), (rest_frames _ _ R).
  - unfold awake. by rewrite (rest_current _ _ R), (rest_frames _ _ R).
Qed.

Lemma cleared_flags f : 0 ≤ f < W32 →
  0 ≤ flags_register_value_clear_bit f flags_if_bit < W32 ∧
  Z.testbit (flags_register_value_clear_bit f flags_if_bit) flags_if_bit = false.
Proof.
  intros Hf. unfold flags_register_value_clear_bit. rewrite clrbit_eq by done.
  split; [|by rewrite Z.clearbit_eqb, Z.eqb_refl, andb_false_r].
  apply word_bound. intros n Hn. rewrite Z.clearbit_eqb, word_high by lia. done.
Qed.

(** ** Creating a thread *)
Section Correct.
Context {H : Type} `{Cpu H, Kheap H, !CpuLaws H, !KheapLaws H}.
Variables kernel_vma_byte entry_point : Z.
Variable code : Z → Z → list op * list op.
Variable cs : Z.

(** Identifiers are given out in order; those in use have been given out. *)
Definition ids_below (j : Z) (x : sys) : Prop :=
  (∀ t th, threads x !! t = Some th → tid th ≤ j) ∧ (∀ m y, mutexes x !! m = Some y → m_owner y ≤ j).

(** A function that uses existing mutexes properly and gives all of them back. *)
Definition program_fits (x : sys) (ops loop : list op) : Prop :=
  program_ok (mutexes x) ops ∧ program_ok (mutexes x) loop ∧ (∀ m, depth m ops = 0) ∧ (∀ m, depth m loop = 0).

(** If [thread_spawn_kthread] gets its three blocks, the first frame of the new
    thread falls into free memory of the heap. *)
Definition frame_fits (s : kstate H) : Prop :=
  ∀ t h, k_alloc sizeof_thread (heap_of s) = Ret t h → t ≠ NULL → stacks_free h.

(** What [thread_spawn_kthread] makes of a state. *)
Definition spawn_outcome (n : nat) (L : gmap Z Z) (f : Z) (nm : string) (data : Z) (s : kstate H) (p : Z) (s' : kstate H) : Prop :=
  (p = NULL ∧ cores (threads (k_sys s')) = cores (threads (k_sys s)) ∧ k_live n (k_heap s') L) ∨
  (p ≠ NULL ∧ L !! p = None ∧ ∃ st kst, stacks_fresh st kst (<[p := sizeof_thread]> L) ∧
    k_live n (k_heap s') (stacks st kst (<[p := sizeof_thread]> L)) ∧
    frame_in entry_point cs (k_sys s) (heap_of s') p st ∧
    cores (threads (k_sys s')) =
      <[p := new_thread entry_point code (k_sys s) p (_next_tid s + 1) f nm data st kst]> (cores (threads (k_sys s)))).

Lemma thread_spawn_spec n (s : kstate H) L f nm data :
  good kernel_vma_byte (k_sys s) → k_live (5 + n) (k_heap s) L →
  (∀ q, is_Some (threads (k_sys s) !! q) → is_Some (L !! q)) →
  0 ≤ _next_tid s < W32 - 1 → ids_below (_next_tid s) (k_sys s) →
  kernel_vma_byte ≤ entry_point → program_fits (k_sys s) (code f data).1 (code f data).2 → frame_fits s →
  ∃ p s', thread_spawn_kthread entry_point code cs f nm data s = Ret p s' ∧
    good kernel_vma_byte (k_sys s') ∧ rest (k_sys s') = rest (k_sys s) ∧ ids_below (_next_tid s') (k_sys s') ∧
    spawn_outcome n L f nm data s p s'.
Proof.
  intros (rs & bs & C & G & W & Hs & Hm & Ha) Hl Hth Hj [Hid Hown] He Hops Hfits.
  pose proof (si_rep _ _ _ _ _ Hs) as Hr. pose proof (rep_cores _ _ _ _ Hr) as HC.
  assert (HidC : ∀ t d, C !! t = Some d → tid d ≤ _next_tid s).
  { intros t d Ed. destruct (rep_thread _ _ _ _ _ _ Hr Ed) as (th & Eth & <-). exact (Hid t th Eth). }
  assert (Hk : kat (k_sys s) (current_tid (k_heap s)) (5 + n) (_next_tid s) s L rs bs C) by by split.
  destruct (kat_spawn entry_point code cs (k_sys s) (current_tid (k_heap s)) (si_flags _ _ _ _ _ Hs) n _ s L rs bs C f nm data Hk) as (p & s' & E & Hsp).
  { by eapply si_ready. }
  { done. }
  { intros q [d Eq]. destruct (rep_thread _ _ _ _ _ _ Hr Eq) as (th & Eth & _). apply Hth. eauto. }
  { exact Hfits. }
  exists p, s'. split; [done|].
  assert (Hcase : ∀ j' C', _next_tid s ≤ j' → cores (threads (k_sys s')) = C' → rest (k_sys s') = rest (k_sys s) →
    (∀ t d, C' !! t = Some d → tid d ≤ j') → ids_below j' (k_sys s')).
  { intros j' C' Hj' <- HR Ht. split.
    - intros t th Et. apply (Ht t (core th)). by rewrite cores_lookup, Et.
    - intros m y. rewrite (rest_mutexes _ _ HR). intros Ey. pose proof (Hown m y Ey). lia. }
  destruct Hsp as [(-> & j' & Hj' & K)|(Hp & HL & HCp & st & kst & Hfr & Hin & K)]; destruct K as [A B D _ F].
  - split; [by eapply good_same|]. split; [done|]. rewrite F. split; [|left; split; [done|]; split; [|done]].
    + eapply (Hcase j' C); [lia|apply (rep_cores _ _ _ _ A)|done|]. intros t d Ed. pose proof (HidC t d Ed). lia.
    + rewrite HC. apply (rep_cores _ _ _ _ A).
  - split; [|split; [done|]; rewrite F; split].
    + eapply (new_good kernel_vma_byte (k_sys s) (k_sys s') rs bs C p _ (code f data).1 (code f data).2 HCp A B); try done.
      * apply cleared_flags, (si_flags _ _ _ _ _ Hs).
      * split; [simpl; lia|]. intros t d Ed. pose proof (HidC t d Ed). simpl. lia.
      * intros m y Ey. pose proof (Hown m y Ey). simpl. lia.
    + eapply (Hcase (_next_tid s + 1)); [lia|apply (rep_cores _ _ _ _ A)|done|].
      intros t d [[<- <-]|[Hne Ed]]%lookup_insert_Some; [done|]. pose proof (HidC t d Ed). lia.
    + right. split; [done|]. split; [done|]. exists st, kst. do 3 (split; [done|]). rewrite HC. apply (rep_cores _ _ _ _ A).
Qed.

End Correct.

(** ** A concrete kernel with one thread, which creates another *)

#[local] Instance sp_kheap : Kheap mstate := malloc_kheap ex_vma ex_fresh ex_vfresh.
#[local] Instance sp_kheap_laws : KheapLaws mstate := malloc_kheap_laws ex_vma ex_fresh ex_vfresh.
#[local] Opaque ex_heap.

(** The heap after [kmalloc] and [kfree] of 400 KB, as in [kmain]. *)
Definition sp_pool : mstate :=
  match kmalloc ex_vma ex_fresh ex_vfresh 409600 ex_heap with
  | Ret p h => match kfree ex_vma ex_fresh p h with Ret _ h' => h' | _ => h end
  | _ => ex_heap
  end.

Lemma sp_pool_live n : (n ≤ 20)%nat → k_live n sp_pool ∅.
Proof.
  intros Hn. assert (Hroom : room (malloc_cost (409600 + sizeof_kmalloc_block) + (23 + 20 * call_cost)) (m_kern ex_heap))
    by (apply ex_heap_room; vm_compute; discriminate).
  destruct (kmalloc_spec ex_vma ex_fresh ex_vfresh ex_heap ∅ 409600) as (p & h & E & _ & Ha & Hg);
    [apply ex_heap_inv|done|done|eapply room_mono; [|exact Hroom]; vm_compute; discriminate|].
  assert (Hp : match kmalloc ex_vma ex_fresh ex_vfresh 409600 ex_heap with Ret p _ => negb (p =? 0) | _ => false end = true) by (vm_compute; reflexivity).
  unfold sp_pool. rewrite E in Hp |- *. destruct Ha as [(-> & _)|[Hi N]]; [discriminate Hp|].
  pose proof (room_grows _ _ _ _ Hg Hroom) as Hroom1.
  destruct (kfree_spec ex_vma ex_fresh h _ p (409600 + sizeof_kmalloc_block) Hi) as (h' & E' & _ & Hi' & _ & Hg');
    [pose proof (nb_high _ _ _ _ _ _ N); lia|by rewrite lookup_insert_eq|eapply room_mono; [|exact Hroom1]; vm_compute; discriminate|].
  rewrite E'. split; [|eapply room_mono; [|exact (room_grows _ _ _ _ Hg' Hroom1)]; pose proof cost_23; nia].
  exists ∅. split; [by rewrite delete_insert_id in Hi' by apply lookup_empty|]. intros q m. by rewrite lookup_empty.
Qed.

Definition sp_main : Z := 3225419784.
Definition sp_heap : mstate := match k_alloc sizeof_thread sp_pool with Ret _ h => h | _ => sp_pool end.
Definition sp_code (_ _ : Z) : list op * list op := ([], [OYield]).

Lemma sp_alloc : match k_alloc sizeof_thread sp_pool with Ret p _ => p =? sp_main | _ => false end = true.
Proof. vm_compute. reflexivity. Qed.

#[local] Opaque sp_pool.

Lemma sp_heap_live n : (n < 20)%nat → k_live n sp_heap {[sp_main := sizeof_thread]}.
Proof.
  intros Hn. assert (Hl0 : k_live (S n) sp_pool ∅) by (apply sp_pool_live; lia).
  destruct (k_alloc_ok n sp_pool ∅ sizeof_thread Hl0) as (p & h & E & _ & _ & Hl); [done|].
  pose proof sp_alloc as Hp. unfold sp_heap. rewrite E in Hp |- *. apply Z.eqb_eq in Hp as ->.
  destruct Hl as [[Hz _]|(_ & _ & Hl)]; [discriminate Hz|exact Hl].
Qed.

#[local] Opaque sp_heap.

Definition sp_thread (prev : Z) : thread := Thread 0 0 prev 0 0 "kmain" 1 (Context 0 0 []) 0 0 0 0 0 thread_running 0 1.
Definition sp_sys : sys :=
  Sys {[sp_main := sp_thread sp_main]} ∅ sp_main 0 (Spinlock 0 0) 0 0 sp_main 0 0 514 [FBody [] [OYield]].

Lemma sp_cores : cores (threads sp_sys) = {[sp_main := sp_thread 0]}.
Proof. exact (map_fmap_singleton core sp_main (sp_thread sp_main)). Qed.

Lemma sp_sinv : sinv 83 sp_sys [sp_main] [] (cores (threads sp_sys)).
Proof.
  assert (Hone : ∀ t c, cores (threads sp_sys) !! t = Some c → t = sp_main ∧ c = sp_thread 0).
  { intros t c E. rewrite sp_cores in E. by apply lookup_singleton_Some in E as [<- <-]. }
  split.
  - split; [| |by intros t _ ?%elem_of_nil|done].
    + split; [done|]. split; [by exists (sp_thread sp_main)|]. split; [apply NoDup_singleton|]. by intros ?%list_elem_of_singleton.
    + split; [done|]. split; [done|]. split; [apply NoDup_nil_2|apply not_elem_of_nil].
  - intros t [c E]. destruct (Hone t c E) as [-> _]. left. by left.
  - intros t c _ E. by destruct (Hone t c E) as [_ ->].
  - by intros t c ?%elem_of_nil.
  - rewrite sp_cores. by eexists.
  - intros t c E. by destruct (Hone t c E) as [_ ->].
  - intros t u ct cu E1 E2 _. destruct (Hone _ _ E1) as [-> _], (Hone _ _ E2) as [-> _]. done.
  - done.
  - done.
  - by repeat constructor.
  - intros t c E Ht. by destruct (Hone t c E) as [-> _].
Qed.

Lemma sp_fits ops : ops = [] ∨ ops = [OYield] → program_ok (mutexes sp_sys) ops ∧ ∀ m, depth m ops = 0.
Proof. intros [-> | ->]; (split; [split; [done|]; split; [by repeat constructor|done]|done]). Qed.

Lemma sp_good : good 83 sp_sys.
Proof.
  apply (started_good 83 sp_sys [sp_main] (cores (threads sp_sys))). split; [exact sp_sinv| |].
  - intros t c E. rewrite sp_cores in E. apply lookup_singleton_Some in E as [<- <-]. split; [done|]. split; [done|].
    destruct (sp_fits [] (or_introl eq_refl)) as [P1 D1], (sp_fits [OYield] (or_intror eq_refl)) as [P2 D2].
    exists [], [OYield]. split; [done|]. split; [done|]. split; [done|]. split; [done|]. by left.
  - intros m y E. cbn in E. by rewrite lookup_empty in E.
Qed.

(** The frame of a new thread falls into the 400 KB. *)
Definition sp_state : kstate mstate := KState sp_sys sp_heap 1.
Definition frame_check (h : mstate) : bool :=
  match k_alloc STACK_SIZE h with
  | Ret st h1 =>
      match k_alloc KERNEL_STACK_SIZE h1 with
      | Ret _ h2 => (0 <=? st) && (st + 113716 <=? W32) && forallb (λ i, pool_has h2 (st + 113692 + Z.of_nat i)) (seq 0 24)
      | _ => false
      end
  | _ => false
  end.

Lemma frame_check_ok (h : mstate) : frame_check h = true → stacks_free h.
Proof.
  intros Hc st h1 kst h2 E1 _ E2 _. unfold frame_check in Hc. rewrite E1, E2 in Hc.
  apply andb_true_iff in Hc as [[Hlo%Z.leb_le Hhi%Z.leb_le]%andb_true_iff Hx]. split; [done|]. split; [done|]. intros x Hin.
  rewrite forallb_forall in Hx. specialize (Hx (Z.to_nat (x - st - 113692))). rewrite Z2Nat.id in Hx by lia.
  replace x with (st + 113692 + (x - st - 113692)) by lia. apply Hx, in_seq. lia.
Qed.

Lemma sp_frame_fits : frame_fits sp_state.
Proof.
  assert (Hc : match k_alloc sizeof_thread (heap_of sp_state) with Ret _ h => frame_check h | _ => false end = true) by (vm_compute; reflexivity).
  intros t h E _. rewrite E in Hc. by apply frame_check_ok.
Qed.

Lemma sp_spawns :
  match thread_spawn_kthread 3222281500 sp_code 8 3222290000 "ps2_kbd" 0 sp_state with Ret p _ => negb (p =? NULL) | _ => false end = true.
Proof. vm_compute. reflexivity. Qed.

