(* ===== verification/Process.v ===== *)
(** * Processes: kernel/kern/process.c

    Process structs are on two kinds of lists at once: the list of all
    processes, through [next], and the list of the children of their parent,
    through [sibling].  The two are the two instances of the list macros below.
    The address space inside the struct is left out: nothing here reads it.
    Of the threads only the members that process.c uses are here, [next] and
    [proc]; the switch to a thread's process is in Thread.v. *)

From stdpp Require Import base numbers list gmap strings fin_maps.
From S2P Require Import Prelude UtList Registers Sync Kheap.

Inductive process_state := process_created | process_alive | process_dead.

Record process := Process {
  p_next : Z;
  p_threads : Z;
  p_parent : Z;
  p_children : Z;
  p_sibling : Z;
  p_pid : Z;
  p_state : process_state;
  p_exit_code : Z
}.

Definition set_children (v : Z) (p : process) : process := Process (p_next p) (p_threads p) (p_parent p) v (p_sibling p) (p_pid p) (p_state p) (p_exit_code p).
Definition set_parent (v : Z) (p : process) : process := Process (p_next p) (p_threads p) v (p_children p) (p_sibling p) (p_pid p) (p_state p) (p_exit_code p).
Definition set_p_threads (v : Z) (p : process) : process := Process (p_next p) v (p_parent p) (p_children p) (p_sibling p) (p_pid p) (p_state p) (p_exit_code p).
Definition set_pid (v : Z) (p : process) : process := Process (p_next p) (p_threads p) (p_parent p) (p_children p) (p_sibling p) v (p_state p) (p_exit_code p).

(** The link of the list of all processes, and the one of the list of children. *)
#[export, refine] Instance next_link : LLNode process :=
  {| ll_next := p_next;
     ll_set_next v p := Process v (p_threads p) (p_parent p) (p_children p) (p_sibling p) (p_pid p) (p_state p) (p_exit_code p) |}.
Proof. all: intros; by destruct n || done. Defined.

Definition sibling_link : LLNode process.
Proof.
  refine {| ll_next := p_sibling;
            ll_set_next v p := Process (p_next p) (p_threads p) (p_parent p) (p_children p) v (p_pid p) (p_state p) (p_exit_code p) |};
    intros; by destruct n || done.
Defined.

(** The members [next] and [proc] of struct thread. *)
Record pthread := PThread { t_next : Z; t_proc : Z }.
Definition set_t_proc (v : Z) (t : pthread) : pthread := PThread (t_next t) v.

#[export, refine] Instance thread_link : LLNode pthread :=
  {| ll_next := t_next; ll_set_next v t := PThread v (t_proc t) |}.
Proof. all: intros; by destruct n || done. Defined.

(** Six words, the four words of struct vm_space, the state and the exit code. *)
Abbreviation sizeof_process := 48 (only parsing).

Record prstate (H : Type) := PrState {
  procs : gmap Z process;
  pthreads : gmap Z pthread;
  _processes : Z;
  _next_pid : Z;
  pr_heap : H
}.
Arguments PrState {H}.
Arguments procs {H}.
Arguments pthreads {H}.
Arguments _processes {H}.
Arguments _next_pid {H}.
Arguments pr_heap {H}.

Section Process.
Context {H : Type} `{Cpu H, Kheap H}.
Abbreviation S := (prstate H).

Definition set_procs v (s : S) : S := PrState v (pthreads s) (_processes s) (_next_pid s) (pr_heap s).
Definition set_pthreads v (s : S) : S := PrState (procs s) v (_processes s) (_next_pid s) (pr_heap s).
Definition set_processes v (s : S) : S := PrState (procs s) (pthreads s) v (_next_pid s) (pr_heap s).
Definition set_next_pid v (s : S) : S := PrState (procs s) (pthreads s) (_processes s) v (pr_heap s).
Definition set_pr_heap v (s : S) : S := PrState (procs s) (pthreads s) (_processes s) (_next_pid s) v.
Definition on_procs {A} (m : M (gmap Z process) A) : M S A := zoom procs set_procs m.
Definition on_pthreads {A} (m : M (gmap Z pthread) A) : M S A := zoom pthreads set_pthreads m.
Definition on_pr_heap {A} (m : M H A) : M S A := zoom pr_heap set_pr_heap m.

(** What is in the register for the result when a function ends without a [return]. *)
Variable no_return : Z.

Definition process_alloc : M S Z :=
  p ← on_pr_heap (k_alloc sizeof_process);
  (if negb (p =? NULL) then on_procs (modify (insert p (Process 0 0 0 0 0 0 process_created 0))) else mret tt);;
  mret p.

Definition process_free (p : Z) : M S unit :=
  on_pr_heap (k_free p);;
  on_procs (modify (delete p)).

Definition process_add_process (p : Z) : M S unit :=
  s ← get;
  head ← on_procs (LL_PREPEND (_processes s) p);
  modify (set_processes head).

Definition process_remove_process (p : Z) : M S unit :=
  s ← get;
  head ← on_procs (LL_DELETE (_processes s) p);
  modify (set_processes head).

Definition process_add_child (parent child : Z) : M S unit :=
  on_procs (update child (set_parent parent));;
  n ← on_procs (load parent);
  head ← on_procs (@LL_PREPEND process sibling_link (p_children n) child);
  on_procs (update parent (set_children head)).

Fixpoint pid_loop (fuel : nat) (pid p : Z) : M S bool :=
  match fuel with
  | O => nofuel
  | Datatypes.S fuel =>
      if p =? NULL then mret true
      else
        n ← on_procs (load p);
        if p_pid n =? pid then mret false else pid_loop fuel pid (p_next n)
  end.

Definition process_pid_available (pid : Z) : M S bool :=
  s ← get;
  fuel ← on_procs fuel_of_heap;
  pid_loop fuel pid (_processes s).

(** [do { result = _next_pid++; } while (process_pid_available(result) == false)] *)
Fixpoint next_pid_loop (fuel : nat) : M S unit :=
  match fuel with
  | O => nofuel
  | Datatypes.S fuel =>
      s ← get;
      let result := _next_pid s in
      modify (set_next_pid (u32 (result + 1)));;
      available ← process_pid_available result;
      if (available : bool) then mret tt else next_pid_loop fuel
  end.

(** The function ends without a [return]. *)
Definition process_next_pid : M S Z :=
  fuel ← on_procs fuel_of_heap;
  next_pid_loop fuel;;
  mret no_return.

Definition process_fork (p : Z) : M S Z :=
  child ← process_alloc;
  pid ← process_next_pid;
  on_procs (update child (set_pid pid));;
  on_procs (update child (set_children 0));;
  process_add_child p child;;
  process_add_process child;;
  mret child.

(** [LL_FOREACH_SAFE2(p->children, child, tmp, sibling)]; the child is deleted
    from the list through [next], not through [sibling]. *)
Fixpoint exit_loop (fuel : nat) (p child : Z) : M S unit :=
  match fuel with
  | O => nofuel
  | Datatypes.S fuel =>
      if child =? NULL then mret tt
      else
        c ← on_procs (load child);
        let tmp := p_sibling c in
        n ← on_procs (load p);
        head ← on_procs (LL_DELETE (p_children n) child);
        on_procs (update p (set_children head));;
        n ← on_procs (load p);
        process_add_child (p_parent n) child;;
        exit_loop fuel p tmp
  end.

Definition process_exit (p : Z) : M S unit :=
  n ← on_procs (load p);
  assert (negb (p_pid n =? 0)) "p->pid";;
  assert (negb (p_parent n =? NULL)) "p->parent";;
  fuel ← on_procs fuel_of_heap;
  exit_loop fuel p (p_children n).

Definition process_add_thread (p t : Z) : M S unit :=
  on_pthreads (update t (set_t_proc p));;
  n ← on_procs (load p);
  head ← on_pthreads (LL_PREPEND (p_threads n) t);
  on_procs (update p (set_p_threads head)).

Definition process_remove_thread (p t : Z) : M S unit :=
  n ← on_procs (load p);
  head ← on_pthreads (LL_DELETE (p_threads n) t);
  on_procs (update p (set_p_threads head)).

(** ** Process ids *)

Definition pid_of (s : S) (q : Z) : option Z := p_pid <$> procs s !! q.

(** [pid] is the id of one of the processes [ps]. *)
Definition used (s : S) (ps : list Z) (pid : Z) : Prop := ∃ q, q ∈ ps ∧ pid_of s q = Some pid.

Lemma pid_loop_spec fuel pid p ps (s : S) :
  ll_rep (procs s) p ps → (length ps < fuel)%nat →
  ∃ b, pid_loop fuel pid p s = Ret b s ∧ if (b : bool) then ¬ used s ps pid else used s ps pid.
Proof.
  revert p ps. induction fuel as [|fuel IH]; intros p ps Hr Hf; [lia|]. simpl.
  destruct ps as [|q ps].
  - simpl in Hr. subst p. exists true. split; [done|]. intros (q & Hq & _). set_solver.
  - destruct Hr as (-> & Hq & n & Hn & Hr). apply Z.eqb_neq in Hq as ->.
    assert (on_procs (load q) s = Ret n s) as E.
    { unfold on_procs, zoom. rewrite (load_ok _ _ _ Hn). by destruct s. }
    step E. destruct (Z.eqb_spec (p_pid n) pid) as [Hp|Hp].
    + exists false. split; [done|]. exists q.
      split; [by left|]. unfold pid_of. by rewrite Hn, <- Hp.
    + destruct (IH (p_next n) ps Hr ltac:(simpl in Hf; lia)) as (b & Eb & Hb). exists b. split; [done|].
      destruct b.
      * intros (x & Hx & Ex). apply Hb. apply elem_of_cons in Hx as [->|Hx]; [|by exists x].
        unfold pid_of in Ex. rewrite Hn in Ex. by simplify_eq/=.
      * destruct Hb as (x & Hx & Ex). exists x. split; [by right|done].
Qed.

Lemma process_pid_available_spec pid ps (s : S) :
  ll_rep (procs s) (_processes s) ps →
  ∃ b, process_pid_available pid s = Ret b s ∧ if (b : bool) then ¬ used s ps pid else used s ps pid.
Proof.
  intros Hr. unfold process_pid_available. rewrite bind_get.
  assert (on_procs fuel_of_heap s = Ret (Datatypes.S (size (procs s))) s) as E by (by destruct s).
  step E. apply pid_loop_spec; [done|]. pose proof (ll_rep_fuel _ _ _ Hr). lia.
Qed.

(** The pids from [a] on, with the wrap-around of the counter. *)
Definition pids_from (a : Z) (k : nat) : list Z := (λ i, u32 (a + Z.of_nat i)) <$> seq 0 k.

Lemma pids_from_S a k : 0 ≤ a < W32 → pids_from a (Datatypes.S k) = a :: pids_from (u32 (a + 1)) k.
Proof.
  intros Ha. unfold pids_from. cbn [seq fmap list_fmap]. f_equal; [rewrite Z.add_0_r; by apply u32_small|].
  rewrite <- fmap_S_seq, <- list_fmap_compose. apply list_fmap_ext. intros _ i _. simpl.
  unfold u32. rewrite Zplus_mod_idemp_l. f_equal. lia.
Qed.

Lemma pids_from_nodup a k : Z.of_nat k ≤ W32 → NoDup (pids_from a k).
Proof.
  intros Hk. apply NoDup_fmap_2_strong; [|apply NoDup_seq].
  intros i j Hi%elem_of_seq Hj%elem_of_seq E. unfold u32 in E.
  assert (((a + Z.of_nat i) - (a + Z.of_nat j)) mod W32 = 0) as D by (rewrite Zminus_mod, E, Z.sub_diag; done).
  apply Z.mod_divide in D as [c Hc]; [|done]. nia.
Qed.

(** The counter moves past pids in use to the first one that is not. *)
Lemma next_pid_loop_spec ps (s : S) k fuel :
  ll_rep (procs s) (_processes s) ps → 0 ≤ _next_pid s < W32 → (k < fuel)%nat →
  (∃ pid, pid ∈ pids_from (_next_pid s) (Datatypes.S k) ∧ ¬ used s ps pid) →
  ∃ j, (j ≤ k)%nat ∧ Forall (used s ps) (pids_from (_next_pid s) j) ∧
    ¬ used s ps (u32 (_next_pid s + Z.of_nat j)) ∧
    next_pid_loop fuel s = Ret tt (set_next_pid (u32 (_next_pid s + Z.of_nat j + 1)) s).
Proof.
  revert s k. induction fuel as [|fuel IH]; intros s k Hr Ha Hk Hex; [lia|]. simpl.
  rewrite bind_get, bind_modify.
  set (s1 := set_next_pid (u32 (_next_pid s + 1)) s).
  destruct (process_pid_available_spec (_next_pid s) ps s1 Hr) as (b & E & Hb). step E.
  destruct b.
  - exists 0%nat. split; [lia|]. split; [constructor|]. rewrite Z.add_0_r, u32_small by done.
    split; done.
  - destruct Hex as (pid & Hin & Hu). rewrite pids_from_S in Hin by done.
    apply elem_of_cons in Hin as [->|Hin]; [done|].
    destruct k as [|k]; [by apply elem_of_nil in Hin|].
    destruct (IH s1 k Hr (u32_range _) ltac:(lia)) as (j & Hj & Hall & Hnu & Ej); [by exists pid|].
    assert (∀ i, u32 (u32 (_next_pid s + 1) + i) = u32 (_next_pid s + 1 + i)) as Eu.
    { intros i. unfold u32. by rewrite Zplus_mod_idemp_l. }
    exists (Datatypes.S j). split; [lia|]. rewrite pids_from_S by done.
    split; [by constructor|]. rewrite Nat2Z.inj_succ, <- Z.add_1_l, !Z.add_assoc.
    simpl in Hnu, Ej. rewrite Eu in Hnu. rewrite <- Z.add_assoc, Eu, Z.add_assoc in Ej. split; [done|]. exact Ej.
Qed.

(** Fewer processes than pids: one of the next [length ps + 1] pids is not in use. *)
Lemma unused_pid ps (s : S) a :
  Z.of_nat (length ps) < W32 → ∃ pid, pid ∈ pids_from a (Datatypes.S (length ps)) ∧ ¬ used s ps pid.
Proof.
  intros Hl. set (us := omap (pid_of s) ps).
  assert (∀ pid, used s ps pid ↔ pid ∈ us) as Hu by (intros pid; unfold us; by rewrite list_elem_of_omap).
  destruct (decide (Exists (λ pid, pid ∉ us) (pids_from a (Datatypes.S (length ps))))) as [He|He].
  - apply Exists_exists in He as (pid & ? & ?). exists pid. by rewrite Hu.
  - exfalso. apply not_Exists_Forall in He; [|apply _].
    assert (pids_from a (Datatypes.S (length ps)) ⊆+ us) as Hs.
    { apply NoDup_submseteq; [apply pids_from_nodup; lia|]. intros x Hx.
      rewrite Forall_forall in He. apply dec_stable. exact (He x Hx). }
    apply submseteq_length in Hs. unfold pids_from in Hs. rewrite length_fmap, length_seq in Hs.
    assert (length us ≤ length ps)%nat; [|lia]. unfold us. clear.
    induction ps as [|q ps IH]; csimpl; [done|]. destruct (pid_of s q); csimpl; lia.
Qed.

(** The search always ends.  It moves the counter past the first pid not in
    use, but the pid itself is not returned. *)
Lemma process_next_pid_spec ps (s : S) :
  ll_rep (procs s) (_processes s) ps → 0 ≤ _next_pid s < W32 → Z.of_nat (length ps) < W32 →
  ∃ j, Forall (used s ps) (pids_from (_next_pid s) j) ∧ ¬ used s ps (u32 (_next_pid s + Z.of_nat j)) ∧
    process_next_pid s = Ret no_return (set_next_pid (u32 (_next_pid s + Z.of_nat j + 1)) s).
Proof.
  intros Hr Ha Hl. pose proof (ll_rep_fuel _ _ _ Hr) as Hf.
  destruct (next_pid_loop_spec ps s (length ps) (Datatypes.S (size (procs s))) Hr Ha ltac:(lia) (unused_pid ps s _ Hl))
    as (j & _ & Hall & Hn & E).
  exists j. split; [done|]. split; [done|]. unfold process_next_pid.
  assert (on_procs fuel_of_heap s = Ret (Datatypes.S (size (procs s))) s) as E0 by (by destruct s).
  step E0. by step E.
Qed.

(** ** Fork *)

Lemma on_procs_load (s : S) q n : procs s !! q = Some n → on_procs (load q) s = Ret n s.
Proof. intros Hn. unfold on_procs, zoom. rewrite (load_ok _ _ _ Hn). by destruct s. Qed.

Lemma on_procs_update (s : S) q n f :
  procs s !! q = Some n → on_procs (update q f) s = Ret tt (set_procs (<[q := f n]> (procs s)) s).
Proof. intros Hn. apply zoom_ret. by apply update_ok. Qed.

Lemma on_procs_prepend (LN : LLNode process) (s : S) head q n :
  procs s !! q = Some n →
  on_procs (@LL_PREPEND process LN head q) s = Ret q (set_procs (<[q := @ll_set_next process LN head n]> (procs s)) s).
Proof. intros Hn. apply zoom_ret. unfold LL_PREPEND. by step (update_ok _ _ _ (ll_set_next head) Hn). Qed.

Lemma process_add_child_spec (s : S) p c np nc :
  procs s !! p = Some np → procs s !! c = Some nc → p ≠ c →
  process_add_child p c s =
    Ret tt (set_procs (<[p := set_children c np]>
      (<[c := @ll_set_next _ sibling_link (p_children np) (set_parent p nc)]> (procs s))) s).
Proof.
  intros Hp Hc Hne. unfold process_add_child. step (on_procs_update s c nc (set_parent p) Hc).
  erewrite bind_ret; [|apply (on_procs_load _ p np); simpl; by rewrite lookup_insert_ne].
  erewrite bind_ret; [|apply (on_procs_prepend _ _ _ c (set_parent p nc)); simpl; apply lookup_insert_eq].
  erewrite on_procs_update; [|simpl; rewrite !lookup_insert_ne by done; exact Hp].
  destruct s; simpl. by rewrite insert_insert_eq.
Qed.

(** The child as [process_fork] leaves it, given what [_processes] and the
    parent's [children] were. *)
Definition forked (p old_processes old_children : Z) : process :=
  Process old_processes 0 p 0 old_children no_return process_created 0.

Definition fork_procs (p c : Z) (np : process) (s : S) : gmap Z process :=
  <[c := forked p (_processes s) (p_children np)]> (<[p := set_children c np]> (procs s)).

(** The lists after a fork: the child is first on both. *)
Lemma fork_lists p c np ps cs (s : S) :
  procs s !! p = Some np → procs s !! c = None → c ≠ NULL →
  ll_rep (procs s) (_processes s) ps → @ll_rep _ sibling_link (procs s) (p_children np) cs →
  ll_rep (fork_procs p c np s) c (c :: ps) ∧ @ll_rep _ sibling_link (fork_procs p c np s) c (c :: cs).
Proof.
  intros Hp Hc Hc0 Hr Hs.
  assert (∀ (LN : LLNode process) h x l, @ll_rep _ LN h x l → h !! c = None → ∀ n, @ll_rep _ LN (<[c := n]> h) x l) as Hfr.
  { intros LN h x l Hl Hn n. eapply ll_rep_frame; [|exact Hl]. intros q Hq. rewrite lookup_insert_ne; [done|].
    intros <-. destruct (ll_rep_lookup _ _ _ _ Hl Hq) as [_ [? ?]]. congruence. }
  assert (<[p := set_children c np]> (procs s) !! c = None) as Hn.
  { rewrite lookup_insert_ne; [done|]. intros ->. congruence. }
  unfold fork_procs. split; (split_and!; [done..|]; eexists; split; [apply lookup_insert_eq|]; simpl; apply Hfr; [|done]);
    by eapply ll_rep_update.
Qed.

Context `{!KheapLaws H}.

Lemma process_alloc_spec m (s : S) L :
  k_live (Datatypes.S m) (pr_heap s) L →
  ∃ c h, k_alloc sizeof_process (pr_heap s) = Ret c h ∧ k_live m h (if c =? NULL then L else <[c := sizeof_process]> L) ∧ (c ≠ NULL → L !! c = None) ∧
    process_alloc s = Ret c (set_pr_heap h
      (if c =? NULL then s else set_procs (<[c := Process 0 0 0 0 0 0 process_created 0]> (procs s)) s)).
Proof.
  intros Hl. destruct (k_alloc_ok m (pr_heap s) L sizeof_process Hl ltac:(done)) as (c & h & E & _ & _ & Hc).
  exists c, h. unfold process_alloc. step (zoom_ret pr_heap set_pr_heap _ s c h E).
  destruct Hc as [[-> Hk]|(Hc & Hn & Hk)]; [by split_and!|]. rewrite (proj2 (Z.eqb_neq _ _) Hc). by split_and!.
Qed.

(** Without memory the child is written through the null pointer.  Otherwise
    the child is new, first on the list of all processes and on the list of
    its parent's children, and nothing else changes but the pid counter. *)
Lemma process_fork_spec m (s : S) L p np ps cs :
  k_live (Datatypes.S m) (pr_heap s) L → (∀ q, is_Some (procs s !! q) → q ≠ NULL ∧ is_Some (L !! q)) →
  procs s !! p = Some np → ll_rep (procs s) (_processes s) ps → @ll_rep _ sibling_link (procs s) (p_children np) cs →
  0 ≤ _next_pid s < W32 → Z.of_nat (length ps) < W32 →
  (∃ h, k_alloc sizeof_process (pr_heap s) = Ret NULL h ∧ process_fork p s = Fault) ∨
  ∃ c h i, L !! c = None ∧ k_live m h (<[c := sizeof_process]> L) ∧
    process_fork p s = Ret c (PrState (fork_procs p c np s) (pthreads s) c i h) ∧
    ll_rep (fork_procs p c np s) c (c :: ps) ∧ @ll_rep _ sibling_link (fork_procs p c np s) c (c :: cs).
Proof.
  intros Hl Hd Hp Hr Hs Hi Hlen. destruct (process_alloc_spec m s L Hl) as (c & h & Ea & Hk & Hn & E).
  unfold process_fork. step E. destruct (Z.eqb_spec c NULL) as [->|Hc].
  - left. exists h. split; [done|]. destruct (process_next_pid_spec ps (set_pr_heap h s) Hr Hi Hlen) as (j & _ & _ & Ej). step Ej.
    assert (procs s !! NULL = None) as E0.
    { destruct (procs s !! NULL) eqn:E0; [|done]. by destruct (Hd NULL ltac:(by eexists)) as [[] _]. }
    set (s2 := set_next_pid _ _). assert (∀ f, on_procs (update NULL f) s2 = Fault) as Ef.
    { intros f. unfold on_procs, zoom, update, mbind, M_bind, load. simpl. by rewrite E0. }
    unfold mbind at 1, M_bind. by rewrite Ef.
  - specialize (Hn Hc).
    assert (procs s !! c = None) as Hcn.
    { destruct (procs s !! c) eqn:Ec; [|done]. destruct (Hd c ltac:(by eexists)) as [_ [? ?]]. congruence. }
    assert (p ≠ c) as Hne by congruence.
    set (s1 := set_pr_heap h (set_procs (<[c := Process 0 0 0 0 0 0 process_created 0]> (procs s)) s)).
    assert (ll_rep (procs s1) (_processes s1) ps) as Hr1.
    { eapply ll_rep_frame; [|exact Hr]. intros q Hq. simpl. rewrite lookup_insert_ne; [done|].
      intros <-. destruct (ll_rep_lookup _ _ _ _ Hr Hq) as [_ [? ?]]. congruence. }
    destruct (process_next_pid_spec ps s1 Hr1 Hi Hlen) as (j & _ & _ & Ej). step Ej.
    right. eexists c, h, _. split; [done|]. split; [done|].
    split; [|by apply fork_lists].
    erewrite bind_ret; [|eapply on_procs_update; simpl; apply lookup_insert_eq].
    erewrite bind_ret; [|eapply on_procs_update; simpl; apply lookup_insert_eq].
    erewrite bind_ret; [|apply (process_add_child_spec _ p c np); simpl;
      [by rewrite !lookup_insert_ne by done|apply lookup_insert_eq|done]].
    unfold process_add_process. rewrite bind_assoc, bind_get.
    erewrite bind_ret; [|erewrite bind_ret; [|eapply on_procs_prepend; simpl;
      rewrite lookup_insert_ne by done; apply lookup_insert_eq]; reflexivity].
    simpl. unfold set_processes, set_procs, fork_procs; simpl. do 2 f_equal.
    apply map_eq. intros q. destruct (decide (q = c)) as [->|Hqc]; [by rewrite !lookup_insert_eq|].
    destruct (decide (q = p)) as [->|Hqp].
    + by rewrite !(lookup_insert_ne _ c p), !lookup_insert_eq by done.
    + by rewrite !lookup_insert_ne by done.
Qed.

(** ** Threads of a process *)

Lemma process_add_thread_spec (s : S) p np t nt ts :
  procs s !! p = Some np → pthreads s !! t = Some nt → t ≠ NULL → ll_rep (pthreads s) (p_threads np) ts → t ∉ ts →
  ∃ s', process_add_thread p t s = Ret tt s' ∧ procs s' = <[p := set_p_threads t np]> (procs s) ∧
    ll_rep (pthreads s') t (t :: ts) ∧ t_proc <$> pthreads s' !! t = Some p.
Proof.
  intros Hp Ht Ht0 Hr Hn. unfold process_add_thread.
  step (zoom_ret pthreads set_pthreads _ s _ _ (update_ok _ _ _ (set_t_proc p) Ht)).
  erewrite bind_ret; [|by apply on_procs_load].
  destruct (LL_PREPEND_spec (<[t := set_t_proc p nt]> (pthreads s)) (p_threads np) ts t (set_t_proc p nt)) as (h & E & Hr' & Hl);
    [by eapply ll_rep_update|done|done|apply lookup_insert_eq|].
  erewrite bind_ret; [|by apply zoom_ret].
  eexists. split; [by apply on_procs_update|]. split; [done|]. split; [done|]. simpl.
  destruct (Hl t) as [_ Hd]. rewrite lookup_insert_eq in Hd. destruct (h !! t) as [m|]; [|done].
  apply Some_inj in Hd. destruct m, nt; by simplify_eq/=.
Qed.

Lemma process_remove_thread_spec (s : S) p np t ts1 ts2 :
  procs s !! p = Some np → ll_rep (pthreads s) (p_threads np) (ts1 ++ t :: ts2) →
  ∃ s' head, process_remove_thread p t s = Ret tt s' ∧ procs s' = <[p := set_p_threads head np]> (procs s) ∧
    ll_rep (pthreads s') head (ts1 ++ ts2).
Proof.
  intros Hp Hr. unfold process_remove_thread. step (on_procs_load s p np Hp).
  destruct (LL_DELETE_spec _ _ _ _ _ Hr) as (head & h & E & Hr' & _).
  erewrite bind_ret; [|by apply zoom_ret]. eexists _, head. split; [by apply on_procs_update|]. done.
Qed.
End Process.

(** ** Exit

    [process_exit] walks the children through [sibling] but takes each one off
    through [next].  Here process 200 exits; its children are 500 and 300, and
    400, a child of the kernel's process 100, is between them on the list of
    all processes. *)
Definition exit_before : prstate unit :=
  PrState (list_to_map [
    (100, Process 0 0 0 400 0 0 process_alive 0); (200, Process 100 0 100 500 0 1 process_alive 0);
    (300, Process 200 0 200 0 0 2 process_alive 0); (400, Process 300 0 100 0 200 3 process_alive 0);
    (500, Process 400 0 200 0 300 4 process_alive 0)]) ∅ 500 5 tt.

Definition exit_after : prstate unit := match process_exit 200 exit_before with Ret _ s => s | _ => exit_before end.

(** The lists before: all processes, the children of 200 and those of 100. *)
Lemma exit_before_lists :
  ll_rep (procs exit_before) (_processes exit_before) [500; 400; 300; 200; 100] ∧
  @ll_rep _ sibling_link (procs exit_before) 500 [500; 300] ∧ @ll_rep _ sibling_link (procs exit_before) 400 [400; 200].
Proof. split_and!; repeat (split; [done|]; split; [done|]; eexists; split; [vm_compute; reflexivity|]); done. Qed.

(** Process 300 is lost from the list of all processes though it lives on as a
    child of 100, its pid counts as available again, and the process that
    exited has 400, which is not its child, as its first child. *)
Lemma process_exit_loses_process :
  process_exit 200 exit_before = Ret tt exit_after ∧
  ll_rep (procs exit_after) (_processes exit_after) [500; 400; 200; 100] ∧
  @ll_rep _ sibling_link (procs exit_after) 300 [300; 500; 400; 200] ∧
  p_children <$> procs exit_after !! 100 = Some 300 ∧ p_pid <$> procs exit_after !! 300 = Some 2 ∧
  process_pid_available 2 exit_after = Ret true exit_after ∧ p_children <$> procs exit_after !! 200 = Some 400.
Proof.
  split; [vm_compute; reflexivity|]. split_and!; try (vm_compute; reflexivity);
    repeat (split; [done|]; split; [done|]; eexists; split; [vm_compute; reflexivity|]); done.
Qed.
