(* ===== verification/AcpiUtil.v ===== *)
(** * ACPICA: division and conversion of numbers

    libs/acpica/source/components/utilities: utmath.c (division of 64-bit
    numbers on machines that divide 32-bit ones), uthex.c, utuuid.c and the
    conversion of strings to integers of utstring.c.

    ACPICA has two versions of its division functions: one written with
    32-bit divisions, and one with the compiler's 64-bit division, which
    platform/acchrisos.h selects.  The theorems compare the two. *)

From stdpp Require Import base numbers list.
From S2P Require Import Prelude MemUtil Bytes Cstring Strtoul.

(** The status codes of acexcep.h that the modelled functions return. *)
Inductive ACPI_STATUS :=
  | AE_OK
  | AE_NO_MEMORY
  | AE_NOT_FOUND
  | AE_ALREADY_EXISTS
  | AE_NOT_ACQUIRED
  | AE_OWNER_ID_LIMIT
  | AE_BAD_PARAMETER
  | AE_BAD_HEX_CONSTANT
  | AE_BAD_DECIMAL_CONSTANT
  | AE_BAD_SIGNATURE
  | AE_BAD_CHECKSUM
  | AE_AML_DIVIDE_BY_ZERO
  | AE_NOT_EXIST
  | AE_BUFFER_OVERFLOW
  | AE_AML_NO_OPERAND
  | AE_AML_OPERAND_TYPE
  | AE_AML_OPERAND_VALUE
  | AE_AML_REGION_LIMIT
  | AE_AML_BUFFER_LIMIT
  | AE_AML_INTERNAL
  | AE_AML_INVALID_SPACE_ID
  | AE_AML_REGISTER_LIMIT
  | AE_LIMIT
  | AE_AML_ILLEGAL_ADDRESS.

#[export] Instance ACPI_STATUS_eq_dec : EqDecision ACPI_STATUS.
Proof. solve_decision. Defined.

Module Math.

(** A 64-bit number as its two halves.  [Full] and [Part] are the two views of
    the union UINT64_OVERLAY. *)
Record UINT64_STRUCT := { Lo : Z; Hi : Z }.

Definition Full (p : UINT64_STRUCT) : Z := Lo p + W32 * Hi p.
Definition Part (full : Z) : UINT64_STRUCT := {| Lo := full mod W32; Hi := full / W32 |}.

(** The helpers of platform/aclinuxex.h: a division of a 64-bit number by a
    32-bit one, of which the low half of the quotient is kept, and a shift of
    a pair of words by one bit. *)
Definition ACPI_DIV_64_BY_32 (n_hi n_lo d32 : Z) : Z * Z :=
  let n := Z.lor (Z.shiftl n_hi 32) n_lo in
  (u32 (n / d32), n mod d32).

Definition ACPI_SHIFT_RIGHT_64 (p : UINT64_STRUCT) : UINT64_STRUCT :=
  {| Lo := Z.lor (Z.shiftr (Lo p) 1) (u32 (Z.shiftl (Z.land (Hi p) 1) 31));
     Hi := Z.shiftr (Hi p) 1 |}.

(** A result is stored only if the caller passed a place for it; [None] is the
    null pointer, and [Some] the value the place has. *)
Definition store_out (out : option Z) (v : Z) : option Z :=
  match out with Some _ => Some v | None => None end.

Definition AcpiUtShortDivide (Dividend Divisor : Z) (OutQuotient OutRemainder : option Z) :
    ACPI_STATUS * option Z * option Z :=
  if Divisor =? 0 then (AE_AML_DIVIDE_BY_ZERO, OutQuotient, OutRemainder) else
  let DividendOvl := Part Dividend in
  let '(QuotientHi, Remainder32) := ACPI_DIV_64_BY_32 0 (Hi DividendOvl) Divisor in
  let '(QuotientLo, Remainder32) := ACPI_DIV_64_BY_32 Remainder32 (Lo DividendOvl) Divisor in
  (AE_OK, store_out OutQuotient (Full {| Lo := QuotientLo; Hi := QuotientHi |}),
   store_out OutRemainder Remainder32).

(** The loop that shifts both operands until the divisor has 32 bits.  It runs
    at least once; a divisor of 64 bits needs 32 iterations. *)
Fixpoint normalize (fuel : nat) (dividend divisor : UINT64_STRUCT) :
    option (UINT64_STRUCT * UINT64_STRUCT) :=
  match fuel with
  | O => None
  | S fuel =>
      let divisor := ACPI_SHIFT_RIGHT_64 divisor in
      let dividend := ACPI_SHIFT_RIGHT_64 dividend in
      if Hi divisor =? 0 then Some (dividend, divisor) else normalize fuel dividend divisor
  end.

(** The general case: divide the shifted operands, and adjust. *)
Definition divide_long (Dividend Divisor : UINT64_STRUCT) (NDividend NDivisor : UINT64_STRUCT) :
    UINT64_STRUCT * UINT64_STRUCT :=
  let QuotientLo := fst (ACPI_DIV_64_BY_32 (Hi NDividend) (Lo NDividend) (Lo NDivisor)) in
  let Partial1 := u32 (QuotientLo * Hi Divisor) in
  let Partial2 := Part (u64 (QuotientLo * Lo Divisor)) in
  let Partial3 := Part (u64 (Hi Partial2 + Partial1)) in
  let Remainder := {| Hi := Lo Partial3; Lo := Lo Partial2 |} in
  if Hi Partial3 =? 0 then
    let '(QuotientLo, Remainder) :=
      if Hi Dividend <=? Lo Partial3 then
        if Lo Partial3 =? Hi Dividend then
          if Lo Dividend <? Lo Partial2
          then (u32 (QuotientLo - 1), Part (u64 (Full Remainder - Full Divisor)))
          else (QuotientLo, Remainder)
        else (u32 (QuotientLo - 1), Part (u64 (Full Remainder - Full Divisor)))
      else (QuotientLo, Remainder) in
    let Remainder := Part (u64 (Full Remainder - Full Dividend)) in
    let RemainderHi := u32 (- s32 (Hi Remainder)) in
    let RemainderLo := u32 (- s32 (Lo Remainder)) in
    let RemainderHi := if RemainderLo =? 0 then RemainderHi else u32 (RemainderHi - 1) in
    ({| Lo := QuotientLo; Hi := 0 |}, {| Lo := RemainderLo; Hi := RemainderHi |})
  else ({| Lo := QuotientLo; Hi := 0 |}, Remainder).

Definition AcpiUtDivide (InDividend InDivisor : Z) (OutQuotient OutRemainder : option Z) :
    option (ACPI_STATUS * option Z * option Z) :=
  if InDivisor =? 0 then Some (AE_AML_DIVIDE_BY_ZERO, OutQuotient, OutRemainder) else
  let Divisor := Part InDivisor in
  let Dividend := Part InDividend in
  let res :=
    if Hi Divisor =? 0 then
      let '(QuotientHi, Partial1) := ACPI_DIV_64_BY_32 0 (Hi Dividend) (Lo Divisor) in
      let '(QuotientLo, RemainderLo) :=
        ACPI_DIV_64_BY_32 Partial1 (Lo Dividend) (Lo Divisor) in
      Some ({| Lo := QuotientLo; Hi := QuotientHi |}, {| Lo := RemainderLo; Hi := 0 |})
    else
      match normalize 32 Dividend Divisor with
      | Some (NDividend, NDivisor) => Some (divide_long Dividend Divisor NDividend NDivisor)
      | None => None
      end in
  match res with
  | Some (Quotient, Remainder) =>
      Some (AE_OK, store_out OutQuotient (Full Quotient), store_out OutRemainder (Full Remainder))
  | None => None
  end.

(** The versions for compilers that divide 64-bit numbers. *)
Definition AcpiUtShortDivide_native (InDividend Divisor : Z) (OutQuotient OutRemainder : option Z) :
    ACPI_STATUS * option Z * option Z :=
  if Divisor =? 0 then (AE_AML_DIVIDE_BY_ZERO, OutQuotient, OutRemainder) else
  (AE_OK, store_out OutQuotient (InDividend / Divisor),
   store_out OutRemainder (u32 (InDividend mod Divisor))).

Definition AcpiUtDivide_native (InDividend InDivisor : Z) (OutQuotient OutRemainder : option Z) :
    ACPI_STATUS * option Z * option Z :=
  if InDivisor =? 0 then (AE_AML_DIVIDE_BY_ZERO, OutQuotient, OutRemainder) else
  (AE_OK, store_out OutQuotient (InDividend / InDivisor),
   store_out OutRemainder (InDividend mod InDivisor)).

(** ** The two halves *)

Lemma Full_Part n : Full (Part n) = n.
Proof. unfold Full, Part. simpl. pose proof (Z.div_mod n W32). lia. Qed.

Lemma Part_range n : 0 ≤ n < W64 → 0 ≤ Lo (Part n) < W32 ∧ 0 ≤ Hi (Part n) < W32.
Proof.
  intros Hn. unfold Part. simpl. split; [apply Z.mod_pos_bound; lia|].
  split; [apply Z.div_pos; lia|]. apply Z.div_lt_upper_bound; lia.
Qed.

Lemma join_words hi lo : 0 ≤ lo < W32 → Z.lor (Z.shiftl hi 32) lo = lo + W32 * hi.
Proof.
  intros Hlo. rewrite Z.shiftl_mul_pow2 by lia. rewrite Z.lor_comm, lor_disjoint; lia.
Qed.

Lemma div_words hi lo d :
  0 ≤ lo < W32 → 0 ≤ hi < d → d < W32 + 1 →
  ACPI_DIV_64_BY_32 hi lo d = ((lo + W32 * hi) / d, (lo + W32 * hi) mod d).
Proof.
  intros Hlo Hhi Hd. unfold ACPI_DIV_64_BY_32. rewrite join_words by done.
  rewrite u32_small; [done|]. split; [apply Z.div_pos; lia|].
  apply Z.div_lt_upper_bound; [lia|]. nia.
Qed.

(** Dividing two words by one word, a word at a time, divides the number. *)
Lemma divide_by_word n d :
  0 ≤ n < W64 → 0 < d < W32 →
  let '(qh, r1) := ACPI_DIV_64_BY_32 0 (Hi (Part n)) d in
  let '(ql, r2) := ACPI_DIV_64_BY_32 r1 (Lo (Part n)) d in
  ql + W32 * qh = n / d ∧ r2 = n mod d.
Proof.
  intros Hn Hd. destruct (Part_range n Hn) as [Hlo Hhi]. pose proof (Full_Part n) as HF.
  unfold Full in HF. destruct (Part n) as [lo hi]. cbn [Lo Hi] in *.
  rewrite div_words by lia. replace (hi + W32 * 0) with hi by lia.
  pose proof (Z.mod_pos_bound hi d) as Hm.
  rewrite div_words by lia. pose proof (Z.div_mod hi d) as Hdm.
  set (r := hi mod d) in *. set (q := hi / d) in *.
  assert (n = (lo + W32 * r) + q * W32 * d) as -> by nia.
  rewrite Z.div_add, Z.mod_add by lia. lia.
Qed.

(** ** The general case *)

Lemma shift_right_Part n : 0 ≤ n < W64 → ACPI_SHIFT_RIGHT_64 (Part n) = Part (n / 2).
Proof.
  intros Hn. destruct (Part_range n Hn) as [Hlo Hhi]. pose proof (Full_Part n) as HF.
  unfold Full in HF. unfold ACPI_SHIFT_RIGHT_64, Part at 4. destruct (Part n) as [lo hi].
  cbn [Lo Hi] in *. rewrite !Z.shiftr_div_pow2, Z.shiftl_mul_pow2 by lia.
  change (Z.land hi 1) with (Z.land hi (Z.ones 1)). rewrite Z.land_ones by lia.
  change (2 ^ 1) with 2.
  pose proof (Z.mod_pos_bound hi 2) as Hb. rewrite u32_small by lia.
  rewrite lor_disjoint by (Z.to_euclidean_division_equations; lia).
  f_equal; Z.to_euclidean_division_equations; lia.
Qed.

Lemma normalize_spec fuel n d :
  0 ≤ n < W64 → W32 ≤ d < W64 → d < W32 * 2 ^ Z.of_nat fuel →
  ∃ s, 0 < s ∧ normalize fuel (Part n) (Part d) = Some (Part (n / 2 ^ s), Part (d / 2 ^ s)) ∧
       2147483648 ≤ d / 2 ^ s < W32.
Proof.
  revert n d. induction fuel as [|fuel IH]; intros n d Hn Hd Hf; [simpl in Hf; lia|].
  cbn [normalize]. rewrite !shift_right_Part by lia.
  rewrite Nat2Z.inj_succ, Z.pow_succ_r in Hf by lia.
  destruct (Z.eqb_spec (Hi (Part (d / 2))) 0) as [E|E]; unfold Part in E; simpl in E.
  - exists 1. split; [lia|]. split; [done|]. change (2 ^ 1) with 2.
    Z.to_euclidean_division_equations; lia.
  - destruct (IH (n / 2) (d / 2)) as (s & Hs & HE & Hr);
      [Z.to_euclidean_division_equations; lia|Z.to_euclidean_division_equations; lia| |].
    { apply Z.div_lt_upper_bound; lia. }
    exists (s + 1). assert (0 < 2 ^ s) by lia. rewrite !Z.div_div in * by lia.
    replace (2 ^ (s + 1)) with (2 * 2 ^ s) by (rewrite Z.pow_add_r by lia; lia).
    split; [lia|done].
Qed.

(** The quotient of the shifted operands is the quotient or one more. *)
Lemma estimate n d P :
  0 ≤ n < W64 → 2 ≤ P → P = 2 ∨ 4 ≤ P → 2147483648 ≤ d / P → 0 ≤ d →
  n / d ≤ (n / P) / (d / P) ≤ n / d + 1.
Proof.
  intros Hn HP HP4 HD Hd0. pose proof (Z.div_mod d P) as Ed. pose proof (Z.mod_pos_bound d P).
  pose proof (Z.div_mod n P) as En. pose proof (Z.mod_pos_bound n P).
  set (D := d / P) in *. set (N := n / P) in *. set (b := d mod P) in *. set (c := n mod P) in *.
  assert (0 < d) by nia. pose proof (Z.div_mod n d) as Eq. pose proof (Z.mod_pos_bound n d).
  assert (0 ≤ N) by (apply Z.div_pos; lia).
  pose proof (Z.div_mod N D) as EQ. pose proof (Z.mod_pos_bound N D).
  assert (0 ≤ N / D) by (apply Z.div_pos; lia). assert (0 ≤ n / d) by (apply Z.div_pos; lia).
  set (Q := N / D) in *. set (q := n / d) in *. split.
  - apply Z.div_le_lower_bound; [lia|]. apply Z.div_le_lower_bound; [lia|]. nia.
  - assert (Q * P < 8589934592) by nia.
    assert (Q * b ≤ d) by (destruct HP4 as [-> | HP4]; nia).
    enough (Q - 1 ≤ q) by lia. apply Z.div_le_lower_bound; [lia|]. nia.
Qed.

(** The last lines negate the remainder a half at a time. *)
Lemma negate_halves m :
  0 ≤ m < W64 →
  let r := Part (u64 (- m)) in
  let lo := u32 (- s32 (Lo r)) in
  let hi := u32 (- s32 (Hi r)) in
  Full {| Lo := lo; Hi := if lo =? 0 then hi else u32 (hi - 1) |} = m.
Proof.
  intros Hm r lo hi.
  assert (∀ a, 0 ≤ a < W32 → u32 (- s32 a) = if a =? 0 then 0 else W32 - a) as Hneg.
  { intros a Ha. destruct (Z.eqb_spec a 0); wrap. }
  destruct (Part_range (u64 (- m))) as [HL HH]; [unfold u64; apply Z.mod_pos_bound; lia|].
  pose proof (Full_Part (u64 (- m))) as HF. unfold Full in *. fold r in HL, HH, HF.
  assert (u64 (- m) = if m =? 0 then 0 else W64 - m) as Hu.
  { destruct (Z.eqb_spec m 0) as [->|]; [done|]. wrap. }
  subst lo hi. rewrite !Hneg by done. cbn [Lo Hi]. rewrite Hu in HF. clearbody r. clear Hneg Hu.
  destruct (Z.eqb_spec m 0), (Z.eqb_spec (Lo r) 0), (Z.eqb_spec (Hi r) 0); try lia;
    repeat case_match; bool_to_prop; try lia; wrap.
Qed.

(** The product of the quotient and the divisor, from the partial products. *)
Lemma partial_products Q d :
  0 ≤ Q < W32 → 0 ≤ d < W64 → Q * d < W64 →
  let P2 := Part (u64 (Q * Lo (Part d))) in
  let P3 := Part (u64 (Hi P2 + u32 (Q * Hi (Part d)))) in
  Hi P3 = 0 ∧ Lo P3 = Q * d / W32 ∧ Lo P2 = (Q * d) mod W32.
Proof.
  intros HQ Hd Hx. destruct (Part_range d Hd) as [HL HH]. pose proof (Full_Part d) as HF.
  unfold Full in HF. destruct (Part d) as [lo hi]. cbn [Lo Hi] in *.
  assert (Q * d = Q * lo + W32 * (Q * hi)) as E by nia.
  assert (0 ≤ Q * lo < W64) as H1 by nia. assert (0 ≤ Q * hi < W32) as H2 by nia.
  unfold Part. cbn [Lo Hi]. rewrite (u32_small (Q * hi)) by done.
  rewrite E in *. set (a := Q * lo) in *. set (b := Q * hi) in *. clearbody a b.
  unfold u64. rewrite (Z.mod_small a) by done.
  rewrite (Z.mod_small (a / W32 + b)) by (Z.to_euclidean_division_equations; lia).
  repeat split; Z.to_euclidean_division_equations; lia.
Qed.

Lemma Part_lt_Part a b :
  (if Hi (Part b) <=? Hi (Part a) then
     if Hi (Part a) =? Hi (Part b) then Lo (Part b) <? Lo (Part a) else true
   else false) = (b <? a).
Proof.
  pose proof (Full_Part a) as Ha. pose proof (Full_Part b) as Hb. unfold Full in *.
  pose proof (Z.mod_pos_bound a W32 ltac:(lia)). pose proof (Z.mod_pos_bound b W32 ltac:(lia)).
  change (Lo (Part a)) with (a mod W32) in *. change (Lo (Part b)) with (b mod W32) in *.
  destruct (Z.leb_spec (Hi (Part b)) (Hi (Part a))), (Z.eqb_spec (Hi (Part a)) (Hi (Part b)));
    destruct (Z.ltb_spec b a); try lia;
    destruct (Z.ltb_spec (b mod W32) (a mod W32)); lia.
Qed.

Lemma divide_long_spec n d P :
  0 ≤ n < W64 → W32 ≤ d < W64 → P = 2 ∨ 4 ≤ P → 2147483648 ≤ d / P < W32 →
  (n / P) / (d / P) * d < W64 →
  let '(q, r) := divide_long (Part n) (Part d) (Part (n / P)) (Part (d / P)) in
  Full q = n / d ∧ Full r = n mod d.
Proof.
  intros Hn Hd HP HD Hx. pose proof (estimate n d P Hn ltac:(lia) HP ltac:(lia) ltac:(lia)) as Hest.
  assert (0 ≤ n / d) as Hq0 by (apply Z.div_pos; lia).
  assert (n / P < 2 * 4611686018427387904) as HN by (apply Z.div_lt_upper_bound; lia).
  assert (0 ≤ n / P) as HN0 by (apply Z.div_pos; lia).
  unfold divide_long. set (Q := n / P / (d / P)) in *.
  assert (fst (ACPI_DIV_64_BY_32 (Hi (Part (n / P))) (Lo (Part (n / P))) (Lo (Part (d / P)))) = Q) as ->.
  { unfold Part. cbn [Lo Hi]. rewrite (Z.mod_small (d / P)) by lia. rewrite div_words.
    - cbn [fst]. rewrite Z.add_comm, <- Z.div_mod by lia. done.
    - apply Z.mod_pos_bound. lia.
    - split; [apply Z.div_pos; lia|]. apply Z.div_lt_upper_bound; lia.
    - lia. }
  assert (Q < W32) as HQ by (apply Z.div_lt_upper_bound; nia).
  destruct (partial_products Q d) as (E1 & E2 & E3); [lia|lia|lia|].
  rewrite E1, E2, E3. cbn [Z.eqb].
  assert ({| Lo := (Q * d) mod W32; Hi := Q * d / W32 |} = Part (Q * d)) as -> by done.
  pose proof (Part_lt_Part (Q * d) n) as Hlt.
  change (Hi (Part (Q * d))) with (Q * d / W32) in Hlt.
  change (Lo (Part (Q * d))) with ((Q * d) mod W32) in Hlt.
  rewrite !Full_Part.
  pose proof (Z.div_mod n d ltac:(lia)) as En. pose proof (Z.mod_pos_bound n d ltac:(lia)) as Hm.
  assert (∀ (A B : Z * UINT64_STRUCT),
    (if Hi (Part n) <=? Q * d / W32 then
       if Q * d / W32 =? Hi (Part n) then
         if Lo (Part n) <? (Q * d) mod W32 then A else B
       else A
     else B) = if n <? Q * d then A else B) as ->.
  { intros A B. rewrite <- Hlt. by repeat case_match. }
  assert ((if n <? Q * d then (u32 (Q - 1), Part (u64 (Q * d - d))) else (Q, Part (Q * d)))
          = (n / d, Part (n / d * d))) as ->.
  { destruct (Z.ltb_spec n (Q * d)).
    - assert (Q = n / d + 1) as -> by nia. f_equal; [rewrite u32_small; lia|].
      f_equal. unfold u64. rewrite Z.mod_small; nia.
    - assert (Q = n / d) as -> by nia. done. }
  rewrite Full_Part. replace (n / d * d - n) with (- (n mod d)) by lia.
  split; [unfold Full; cbn [Lo Hi]; lia|].
  apply (negate_halves (n mod d)). lia.
Qed.

(** The portable division of a 64-bit number. *)
Lemma AcpiUtDivide_spec n d oq or_ :
  0 ≤ n < W64 → 0 ≤ d < W64 → d < W32 ∨ n + d < W64 →
  AcpiUtDivide n d oq or_ = Some (AcpiUtDivide_native n d oq or_).
Proof.
  intros Hn Hd Hs. unfold AcpiUtDivide, AcpiUtDivide_native.
  destruct (Z.eqb_spec d 0); [done|].
  destruct (Z.eqb_spec (Hi (Part d)) 0) as [E|E]; unfold Part in E at 1; cbn [Hi] in E.
  - assert (0 < d < W32) as Hd' by (Z.to_euclidean_division_equations; lia).
    assert (Lo (Part d) = d) as -> by (apply Z.mod_small; lia).
    pose proof (divide_by_word n d Hn Hd') as H.
    destruct (ACPI_DIV_64_BY_32 0 (Hi (Part n)) d) as [qh r1].
    destruct (ACPI_DIV_64_BY_32 r1 (Lo (Part n)) d) as [ql r2].
    destruct H as [<- <-]. unfold Full. cbn [Lo Hi].
    by replace (r2 + W32 * 0) with r2 by lia.
  - assert (W32 ≤ d) by (Z.to_euclidean_division_equations; lia).
    destruct (normalize_spec 32 n d) as (s & Hs0 & -> & HD); [lia|lia|simpl; lia|].
    assert (2 ^ s = 2 ∨ 4 ≤ 2 ^ s) as HP.
    { destruct (decide (s = 1)) as [-> |]; [by left|right].
      change 4 with (2 ^ 2). apply Z.pow_le_mono_r; lia. }
    pose proof (estimate n d (2 ^ s) Hn ltac:(lia) HP ltac:(lia) ltac:(lia)).
    pose proof (Z.mul_div_le n d ltac:(lia)).
    pose proof (divide_long_spec n d (2 ^ s) Hn ltac:(lia) HP HD ltac:(nia)) as H'.
    destruct (divide_long _ _ _ _) as [q r]. by destruct H' as [-> ->].
Qed.

Lemma AcpiUtShortDivide_spec n d oq or_ :
  0 ≤ n < W64 → 0 ≤ d < W32 →
  AcpiUtShortDivide n d oq or_ = AcpiUtShortDivide_native n d oq or_.
Proof.
  intros Hn Hd. unfold AcpiUtShortDivide, AcpiUtShortDivide_native.
  destruct (Z.eqb_spec d 0); [done|]. pose proof (divide_by_word n d Hn ltac:(lia)) as H.
  destruct (ACPI_DIV_64_BY_32 0 (Hi (Part n)) d) as [qh r1].
  destruct (ACPI_DIV_64_BY_32 r1 (Lo (Part n)) d) as [ql r2].
  destruct H as [<- ->]. pose proof (Z.mod_pos_bound n d). rewrite u32_small by lia. done.
Qed.

(** C35: The division functions that use 32-bit divisions are equivalent to the
    ones that use the compiler's 64-bit division, results, optional outputs
    and the error for a zero divisor included: always when the divisor has 32
    bits, and for a 64-bit divisor whenever the sum of the operands has 64
    bits. *)
Theorem AcpiUtDivide_native_equiv n d oq or_ :
  0 ≤ n < W64 → 0 ≤ d < W64 →
  (d < W32 → AcpiUtShortDivide n d oq or_ = AcpiUtShortDivide_native n d oq or_) ∧
  (d < W32 ∨ n + d < W64 →
     AcpiUtDivide n d oq or_ = Some (AcpiUtDivide_native n d oq or_)).
Proof. intros Hn Hd. split; intros; [apply AcpiUtShortDivide_spec|apply AcpiUtDivide_spec]; lia. Qed.

Lemma AcpiUtDivide_native_equiv_witness :
  AcpiUtDivide 18446744069414584320 4294967295 (Some 0) (Some 0) =
    Some (AE_OK, Some 4294967296, Some 0) ∧
  AcpiUtDivide 9223372036854775807 4294967299 (Some 0) None =
    Some (AE_OK, Some 2147483646, None).
Proof.
  split.
  - exact (proj2 (AcpiUtDivide_native_equiv 18446744069414584320 4294967295 (Some 0) (Some 0)
      ltac:(lia) ltac:(lia)) (or_introl eq_refl)).
  - exact (proj2 (AcpiUtDivide_native_equiv 9223372036854775807 4294967299 (Some 0) None
      ltac:(lia) ltac:(lia)) (or_intror eq_refl)).
Defined.

(** Without a bound on the sum the two differ: for the largest dividend and
    the divisor 2^32 + 3 the product that is compared with the dividend does
    not fit into 64 bits, the estimate of the quotient, one too large, is
    kept, and the remainder is not computed. *)
Example divide_overflow :
  AcpiUtDivide 18446744073709551615 4294967299 (Some 0) (Some 0) =
    Some (AE_OK, Some 4294967294, Some 4294967290) ∧
  AcpiUtDivide_native 18446744073709551615 4294967299 (Some 0) (Some 0) =
    (AE_OK, Some 4294967293, Some 8).
Proof. by split. Qed.

End Math.

Module Convert.

(** ** Hexadecimal digits and UUIDs *)

Definition AcpiGbl_HexToAscii : list Z :=
  [48; 49; 50; 51; 52; 53; 54; 55; 56; 57; 65; 66; 67; 68; 69; 70].

Definition AcpiUtHexToAsciiChar (Integer Position : Z) : Z :=
  nth (Z.to_nat (Z.land (Z.shiftr Integer Position) 15)) AcpiGbl_HexToAscii 0.

Definition AcpiUtAsciiCharToHex (HexChar : Z) : Z :=
  if HexChar <=? 57 then u8 (HexChar - 48)
  else if HexChar <=? 70 then u8 (HexChar - 55)
  else u8 (HexChar - 87).

Definition AcpiGbl_MapToUuidOffset : list nat :=
  [6; 4; 2; 0; 11; 9; 16; 14; 19; 21; 24; 26; 28; 30; 32; 34]%nat.

(** Reading a character outside the string is an error, [None]. *)
Definition AcpiUtConvertStringToUuid (InString : list Z) : option (list Z) :=
  mapM (λ off, hi ← InString !! off; lo ← InString !! S off;
    Some (Z.lor (u8 (Z.shiftl (AcpiUtAsciiCharToHex (s8 hi)) 4)) (AcpiUtAsciiCharToHex (s8 lo))))
    AcpiGbl_MapToUuidOffset.

(** ** Numbers from strings *)

Definition isxdigit (c : Z) : bool :=
  isdigit c || ((65 <=? c) && (c <=? 70)) || ((97 <=? c) && (c <=? 102)).
Definition tolower (c : Z) : Z := c + 32 * Z.b2z ((65 <=? c) && (c <=? 90)).

(** A pointer into a string is the list of the characters from there up to the
    terminator.  White space, and the tests of the first characters. *)
Definition is_blank (c : Z) : bool := isspace c || (c =? 9).

Fixpoint skip_blanks (s : list Z) : list Z :=
  match s with
  | [] => []
  | c :: s' => if is_blank (s8 c) then skip_blanks s' else s
  end.

(** The digit a character stands for; [None] sets Term. *)
Definition this_digit (Base c : Z) : option Z :=
  if isdigit (s8 c) then Some (u32 (u8 c - 48))
  else if Base =? 10 then None
  else
    let ThisDigit := u8 (toupper (s8 c)) in
    if isxdigit (s8 ThisDigit) then Some (u32 (ThisDigit - 65 + 10)) else None.

(** The main loop.  [None] is the jump to ErrorExit. *)
Fixpoint strtoul64_loop (Base : Z) (ToIntegerOp Mode32 SignOf0x : bool) (Dividend : Z)
    (String : list Z) (ReturnValue ValidDigits : Z) : option Z :=
  match String with
  | [] => Some ReturnValue
  | c :: String' =>
      match this_digit Base c with
      | None => if ToIntegerOp then None else Some ReturnValue
      | Some ThisDigit =>
          if (ValidDigits =? 0) && (ThisDigit =? 0) && negb SignOf0x then
            strtoul64_loop Base ToIntegerOp Mode32 SignOf0x Dividend String' ReturnValue ValidDigits
          else
            let ValidDigits := u8 (ValidDigits + 1) in
            if SignOf0x && ((16 <? ValidDigits) || ((8 <? ValidDigits) && Mode32)) then None
            else
              let '(_, Quotient, _) :=
                Math.AcpiUtShortDivide_native (u64 (Dividend - ThisDigit)) Base (Some 0) None in
              if default 0 Quotient <? ReturnValue
              then if ToIntegerOp then None else Some ReturnValue
              else
                strtoul64_loop Base ToIntegerOp Mode32 SignOf0x Dividend String'
                  (u64 (u64 (ReturnValue * Base) + ThisDigit)) ValidDigits
      end
  end.

Abbreviation ACPI_ANY_BASE := 0 (only parsing).

Definition strtoul64_error (Base : Z) : ACPI_STATUS :=
  if Base =? 10 then AE_BAD_DECIMAL_CONSTANT else AE_BAD_HEX_CONSTANT.

(** [String = None] is the null pointer.  The value is stored if there is no
    error.  [AcpiGbl_IntegerByteWidth] is 4 or 8. *)
Definition AcpiUtStrtoul64 (AcpiGbl_IntegerByteWidth : Z) (String : option (list Z)) (Base : Z) :
    ACPI_STATUS * option Z :=
  let ToIntegerOp := Base =? ACPI_ANY_BASE in
  let Mode32 := AcpiGbl_IntegerByteWidth =? 4 in
  if negb ((Base =? ACPI_ANY_BASE) || (Base =? 16)) then (AE_BAD_PARAMETER, None) else
  match String with
  | None => (strtoul64_error Base, None)
  | Some String =>
      let String := skip_blanks String in
      let '(SignOf0x, Base, String) :=
        if ToIntegerOp then
          if (head_byte String =? 48) && (tolower (s8 (head_byte (tail String))) =? 120)
          then (true, 16, tail (tail String)) else (false, 10, String)
        else (false, Base, String) in
      if (match String with [] => true | c :: _ => is_blank (s8 c) end) then
        if ToIntegerOp then (strtoul64_error Base, None) else (AE_OK, Some 0)
      else
        let Dividend := if Mode32 then W32 - 1 else W64 - 1 in
        match strtoul64_loop Base ToIntegerOp Mode32 SignOf0x Dividend String 0 0 with
        | Some ReturnValue => (AE_OK, Some ReturnValue)
        | None => (strtoul64_error Base, None)
        end
  end.

(** ** Strings from numbers *)

(** [for (j = 0; j < i; j++) AcpiUtShortDivide (Digit, 10, &Digit, &Remainder)] *)
Fixpoint divide_times (j : nat) (Digit Remainder : Z) : Z * Z :=
  match j with
  | O => (Digit, Remainder)
  | S j =>
      let '(_, q, r) := Math.AcpiUtShortDivide_native Digit 10 (Some Digit) (Some Remainder) in
      divide_times j (default Digit q) (default Remainder r)
  end.

(** The loop over the decimal digits; the result is the part of the string it
    writes. *)
Fixpoint decimal_loop (i : nat) (Integer Remainder : Z) (SupressZeros : bool) : list Z :=
  match i with
  | O => []
  | S i' =>
      let Remainder := snd (divide_times i Integer Remainder) in
      let SupressZeros := if Remainder =? 0 then SupressZeros else false in
      if SupressZeros then decimal_loop i' Integer Remainder SupressZeros
      else u8 (48 + Remainder) :: decimal_loop i' Integer Remainder SupressZeros
  end.

(** The characters before the terminator; the length that is returned is that
    of the list.  For another base nothing is written and 0 is returned. *)
Definition AcpiExConvertToAscii (Integer Base DataWidth : Z) : option (list Z) :=
  let string :=
    if Base =? 10 then
      let DecimalLength :=
        if DataWidth =? 1 then 3%nat else if DataWidth =? 4 then 10%nat else 20%nat in
      Some (decimal_loop DecimalLength Integer 0 true)
    else if Base =? 16 then
      Some ((λ j, u8 (AcpiUtHexToAsciiChar Integer (4 * Z.of_nat j)))
              <$> reverse (seq 0 (Z.to_nat (2 * DataWidth))))
    else None in
  match string with
  | None => None
  | Some [] => Some [48]
  | Some s => Some s
  end.

(** [while (CurrentValue)]: one iteration for each digit. *)
Fixpoint digits_loop (fuel : nat) (CurrentValue Base NumDigits : Z) : option Z :=
  if CurrentValue =? 0 then Some NumDigits else
  match fuel with
  | O => None
  | S fuel =>
      let '(_, q, _) := Math.AcpiUtShortDivide_native CurrentValue Base (Some CurrentValue) None in
      digits_loop fuel (default CurrentValue q) Base (u32 (NumDigits + 1))
  end.

Definition AcpiExDigitsNeeded (Value Base : Z) : option Z :=
  if Value =? 0 then Some 1 else digits_loop 64 Value Base 0.

(** The string is written from its end; [after] is what is there already. *)
Fixpoint integer_loop (Count : nat) (Value : Z) (after : list Z) : list Z :=
  match Count with
  | O => after
  | S Count =>
      let '(_, q, r) := Math.AcpiUtShortDivide_native Value 10 (Some Value) (Some 0) in
      integer_loop Count (default Value q) (u8 (48 + default 0 r) :: after)
  end.

Definition AcpiExIntegerToString (Value : Z) : option (list Z) :=
  match AcpiExDigitsNeeded Value 10 with
  | Some DigitsNeeded => Some (integer_loop (Z.to_nat DigitsNeeded) Value [])
  | None => None
  end.

(** ** Reading numbers *)

Lemma this_digit_value Base c :
  Base = 10 ∨ Base = 16 → 0 ≤ c < W8 →
  this_digit Base c = if digit_in Base c then Some (digit_of c) else None.
Proof.
  intros HB Hc.
  assert (forallb (λ i, let c := Z.of_nat i in
      bool_decide (this_digit 10 c = if digit_in 10 c then Some (digit_of c) else None) &&
      bool_decide (this_digit 16 c = if digit_in 16 c then Some (digit_of c) else None))
    (seq 0 256) = true) as H by (vm_compute; reflexivity).
  rewrite forallb_forall in H. specialize (H (Z.to_nat c)).
  rewrite Z2Nat.id in H by lia.
  destruct (andb_prop _ _ (H ltac:(apply in_seq; lia))) as [H1 H2].
  apply bool_decide_eq_true in H1, H2. by destruct HB as [-> | ->].
Qed.

(** The quotient test is the test for overflow. *)
Lemma overflow_test Base Div d acc :
  2 ≤ Base → 0 ≤ d < Base → Base ≤ Div < W64 → 0 ≤ acc →
  (let '(_, q, _) := Math.AcpiUtShortDivide_native (u64 (Div - d)) Base (Some 0) None in default 0 q <? acc)
  = (Div <? acc * Base + d).
Proof.
  intros HB Hd HD Ha. unfold Math.AcpiUtShortDivide_native.
  rewrite (proj2 (Z.eqb_neq Base 0)) by lia. cbn [Math.store_out default from_option id].
  unfold u64. rewrite Z.mod_small by lia.
  pose proof (Z.div_mod (Div - d) Base ltac:(lia)). pose proof (Z.mod_pos_bound (Div - d) Base ltac:(lia)).
  set (q := (Div - d) / Base) in *.
  destruct (Z.ltb_spec q acc), (Z.ltb_spec Div (acc * Base + d)); nia.
Qed.

Abbreviation value_from Base := (foldl (λ acc c, acc * Base + digit_of c)).

(** Reading the digits [s] after a number of value [acc] with [V] digits. *)
Lemma strtoul64_loop_spec Base toint m32 Div s acc V :
  Base = 10 ∨ Base = 16 → Base ≤ Div < W64 →
  Forall (λ c, 0 ≤ c < W8 ∧ digit_in Base c = true) s →
  0 ≤ acc ≤ Div → 0 ≤ V → (V = 0 → acc = 0) → (0 < V → 2 ^ (V - 1) ≤ acc) →
  if value_from Base acc s <=? Div
  then strtoul64_loop Base toint m32 false Div s acc V = Some (value_from Base acc s)
  else toint = true → strtoul64_loop Base toint m32 false Div s acc V = None.
Proof.
  intros HB HD Hs. revert acc V. induction Hs as [|c s [Hc Hd] Hs IH]; intros acc V Ha HV HV0 HV1.
  - cbn [foldl]. by rewrite (proj2 (Z.leb_le _ _)) by lia.
  - cbn [strtoul64_loop foldl]. rewrite this_digit_value, Hd by done. apply digit_of_bounds in Hd.
    assert (V < 66) as HV66.
    { destruct (decide (V = 0)); [lia|]. destruct (decide (V - 1 < 65)); [lia|].
      pose proof (Z.pow_le_mono_r 2 65 (V - 1) ltac:(lia) ltac:(lia)). change (2 ^ 65) with (2 * W64) in *. lia. }
    rewrite andb_true_r. destruct ((V =? 0) && (digit_of c =? 0)) eqn:Ez.
    { bool_to_prop. replace (acc * Base + digit_of c) with acc by nia. by apply IH. }
    cbn [andb]. pose proof (overflow_test Base Div (digit_of c) acc ltac:(lia) Hd HD ltac:(lia)) as Ho.
    destruct (Math.AcpiUtShortDivide_native _ _ _ _) as [[st q] r]. rewrite Ho.
    pose proof (numeral_from_ge Base s (acc * Base + digit_of c) ltac:(lia) ltac:(nia)) as Hge.
    destruct (Z.ltb_spec Div (acc * Base + digit_of c)) as [Hlt|Hle].
    + rewrite (proj2 (Z.leb_gt _ _)) by lia. by intros ->.
    + unfold u64. rewrite (Z.mod_small (acc * Base)) by nia. rewrite Z.mod_small by nia.
      unfold u8. rewrite Z.mod_small by lia. apply IH; [nia|lia|lia|]. intros _.
      replace (V + 1 - 1) with V by lia. destruct (decide (V = 0)) as [->|].
      * rewrite (HV0 eq_refl) in *. bool_to_prop. simpl. destruct Ez; bool_to_prop; lia.
      * replace V with (Z.succ (V - 1)) by lia. rewrite Z.pow_succ_r by lia. nia.
Qed.

Definition int_limit (width : Z) : Z := if width =? 4 then W32 - 1 else W64 - 1.

Abbreviation digits_in Base := (Forall (λ c, 0 ≤ c < W8 ∧ digit_in Base c = true)).

Lemma digit_not_blank Base c :
  Base = 10 ∨ Base = 16 → 0 ≤ c < W8 → digit_in Base c = true → is_blank (s8 c) = false ∧ c ≠ 120 ∧ c ≠ 88.
Proof.
  intros HB Hc Hd.
  assert (forallb (λ i, let c := Z.of_nat i in
      negb (digit_in 10 c || digit_in 16 c) || (negb (is_blank (s8 c)) && negb (c =? 120) && negb (c =? 88)))
    (seq 0 256) = true) as H by (vm_compute; reflexivity).
  rewrite forallb_forall in H. specialize (H (Z.to_nat c) ltac:(apply in_seq; lia)).
  rewrite Z2Nat.id in H by lia. cbv zeta in H.
  assert (digit_in 10 c || digit_in 16 c = true) as E
    by (destruct HB as [-> | ->]; rewrite Hd; [done|apply orb_true_r]).
  rewrite E in H. cbn [negb orb] in H. bool_to_prop. done.
Qed.

Lemma skip_blanks_app ws s :
  Forall (λ c, is_blank (s8 c) = true) ws → is_blank (s8 (head_byte s)) = false →
  skip_blanks (ws ++ s) = s.
Proof.
  intros Hw Hs. induction Hw as [|c ws Hc Hw IH]; simpl; [|by rewrite Hc].
  destruct s as [|c s]; [done|]. simpl in *. by rewrite Hs.
Qed.

Lemma tolower_x c : 0 ≤ c < W8 → c ≠ 120 → c ≠ 88 → (tolower (s8 c) =? 120) = false.
Proof.
  intros Hc H1 H2. apply Z.eqb_neq. unfold tolower, s8.
  destruct (Z.leb_spec 65 ((c + 128) mod W8 - 128)), (Z.leb_spec ((c + 128) mod W8 - 128) 90); simpl;
    Z.to_euclidean_division_equations; lia.
Qed.

(** A whole string of digits, after white space: in decimal for the ToInteger
    operation, in hexadecimal otherwise. *)
Lemma AcpiUtStrtoul64_spec width Base ws s (toint := Base =? 0) (b := if toint then 10 else 16) :
  Base = 0 ∨ Base = 16 → Forall (λ c, is_blank (s8 c) = true) ws → s ≠ [] → digits_in b s →
  if numeral b s <=? int_limit width
  then AcpiUtStrtoul64 width (Some (ws ++ s)) Base = (AE_OK, Some (numeral b s))
  else toint = true → AcpiUtStrtoul64 width (Some (ws ++ s)) Base = (AE_BAD_DECIMAL_CONSTANT, None).
Proof.
  intros HB Hw Hne Hs. assert (b = 10 ∨ b = 16) as Hb by (unfold b; destruct toint; auto).
  destruct s as [|c s]; [done|]. pose proof (proj1 (Forall_cons_1 _ _ _ Hs)) as [Hc Hd].
  destruct (digit_not_blank b c Hb Hc Hd) as (Hnb & Hx1 & Hx2).
  pose proof (strtoul64_loop_spec b toint (width =? 4) (int_limit width) (c :: s) 0 0 Hb) as HL.
  unfold AcpiUtStrtoul64. rewrite skip_blanks_app by done. fold toint.
  assert (negb (toint || (Base =? 16)) = false) as -> by (unfold toint; destruct HB as [-> | ->]; done).
  assert ((if toint then if (head_byte (c :: s) =? 48) && (tolower (s8 (head_byte (tail (c :: s)))) =? 120)
             then (true, 16, tail (tail (c :: s))) else (false, 10, c :: s) else (false, Base, c :: s))
          = (false, b, c :: s)) as ->.
  { unfold b. destruct toint eqn:Et; [|destruct HB as [-> | ->]; done].
    assert (tolower (s8 (head_byte s)) =? 120 = false) as Ht.
    { destruct s as [|c' s]; [done|]. apply Forall_cons_1 in Hs as [_ [Hs _]%Forall_cons_1].
      destruct Hs as [Hc' Hd']. destruct (digit_not_blank b c' Hb Hc' Hd') as (_ & ? & ?).
      by apply tolower_x. }
    cbn [tail]. by rewrite Ht, andb_false_r. }
  rewrite Hnb. change (if width =? 4 then W32 - 1 else W64 - 1) with (int_limit width).
  assert (b ≤ int_limit width < W64) as Hl.
  { unfold int_limit. destruct (width =? 4), Hb as [-> | ->]; lia. }
  specialize (HL Hl Hs ltac:(lia) ltac:(lia) ltac:(lia) ltac:(lia)). unfold numeral.
  destruct (_ <=? _); [by rewrite HL|]. intros Ht. rewrite (HL Ht). unfold b. rewrite Ht. done.
Qed.

(** ** Printing numbers *)

Lemma divide_times_S j n r : divide_times (S j) n r = divide_times j (n / 10) (n mod 10).
Proof.
  change (divide_times (S j) n r) with (divide_times j (n / 10) (u32 (n mod 10))).
  pose proof (Z.mod_pos_bound n 10). by rewrite (u32_small (n mod 10)) by lia.
Qed.

Lemma divide_times_spec j n r :
  0 ≤ n → divide_times (S j) n r = (n / 10 ^ Z.of_nat (S j), (n / 10 ^ Z.of_nat j) mod 10).
Proof.
  revert n r. induction j as [|j IH]; intros n r Hn; rewrite divide_times_S.
  - simpl. by rewrite Z.div_1_r.
  - rewrite IH by (apply Z.div_pos; lia).
    rewrite !Nat2Z.inj_succ, !Z.pow_succ_r, !Z.div_div by lia. done.
Qed.

(** The digits of [n] from the one of weight 10^(i-1) down. *)
Fixpoint digits_be (i : nat) (n : Z) : list Z :=
  match i with
  | O => []
  | S i => 48 + (n / 10 ^ Z.of_nat i) mod 10 :: digits_be i n
  end.

Lemma decimal_char d : 0 ≤ d < 10 → u8 (48 + d) = 48 + d ∧ digit_in 10 (48 + d) = true ∧ digit_of (48 + d) = d.
Proof.
  intros Hd. split; [unfold u8; apply Z.mod_small; lia|].
  assert (d ∈ [0; 1; 2; 3; 4; 5; 6; 7; 8; 9]) as Hin by (rewrite !elem_of_cons; lia).
  rewrite !elem_of_cons in Hin. destruct_or!; subst; try done. by apply not_elem_of_nil in Hin.
Qed.

Lemma decimal_loop_all i n r : 0 ≤ n → decimal_loop i n r false = digits_be i n.
Proof.
  intros Hn. revert r. induction i as [|i IH]; intros r; [done|]. cbn [decimal_loop digits_be].
  rewrite divide_times_spec by done. cbn [snd].
  pose proof (Z.mod_pos_bound (n / 10 ^ Z.of_nat i) 10 ltac:(lia)) as Hm.
  destruct (decimal_char _ Hm) as [-> _]. destruct (_ =? 0); by rewrite IH.
Qed.

(** Leading zeros are not written: the digits start at the first that is not
    zero. *)
Lemma decimal_loop_suppress i D n r :
  0 ≤ n < 10 ^ Z.of_nat D → (D ≤ i)%nat → (D = 0%nat ∨ 10 ^ (Z.of_nat D - 1) ≤ n) →
  decimal_loop i n r true = digits_be D n.
Proof.
  intros Hn Hi HD. revert r Hi. induction i as [|i IH]; intros r Hi.
  { replace D with 0%nat by lia. done. }
  cbn [decimal_loop]. rewrite divide_times_spec by lia. cbn [snd].
  destruct (decide (D = S i)) as [-> |].
  - destruct HD as [HD|HD]; [lia|]. replace (Z.of_nat (S i) - 1) with (Z.of_nat i) in HD by lia.
    rewrite Nat2Z.inj_succ, Z.pow_succ_r in Hn by lia.
    assert (1 ≤ n / 10 ^ Z.of_nat i < 10) as Hq.
    { split; [apply Z.div_le_lower_bound; lia|apply Z.div_lt_upper_bound; lia]. }
    cbn [digits_be]. rewrite (Z.mod_small _ 10) by lia. destruct (Z.eqb_spec (n / 10 ^ Z.of_nat i) 0); [lia|].
    destruct (decimal_char (n / 10 ^ Z.of_nat i) ltac:(lia)) as [-> _]. by rewrite decimal_loop_all by lia.
  - assert (n / 10 ^ Z.of_nat i = 0) as Hz.
    { apply Z.div_small. pose proof (Z.pow_le_mono_r 10 (Z.of_nat D) (Z.of_nat i) ltac:(lia) ltac:(lia)). lia. }
    rewrite Hz. change (0 mod 10) with 0. cbn [Z.eqb]. apply IH. lia.
Qed.

Lemma digits_be_value i n acc :
  0 ≤ n → value_from 10 acc (digits_be i n) = acc * 10 ^ Z.of_nat i + n mod 10 ^ Z.of_nat i.
Proof.
  intros Hn. revert acc. induction i as [|i IH]; intros acc; cbn [digits_be foldl].
  { simpl. rewrite Z.mod_1_r. lia. }
  pose proof (Z.mod_pos_bound (n / 10 ^ Z.of_nat i) 10 ltac:(lia)) as Hm.
  destruct (decimal_char _ Hm) as (_ & _ & ->). rewrite IH.
  rewrite Nat2Z.inj_succ, Z.pow_succ_r, (Z.mul_comm 10 (10 ^ _)) by lia.
  rewrite (Z.rem_mul_r n (10 ^ Z.of_nat i) 10) by lia. lia.
Qed.

Lemma digits_be_digits i n : digits_in 10 (digits_be i n).
Proof.
  induction i as [|i IH]; cbn [digits_be]; constructor; [|done].
  pose proof (Z.mod_pos_bound (n / 10 ^ Z.of_nat i) 10 ltac:(lia)) as Hm.
  destruct (decimal_char _ Hm) as (_ & ? & _). split; [lia|done].
Qed.

(** The number of decimal digits of a number. *)
Lemma decimal_size n : 0 < n < W64 → ∃ D, (0 < D ≤ 20)%nat ∧ 10 ^ (Z.of_nat D - 1) ≤ n < 10 ^ Z.of_nat D.
Proof.
  intros Hn. assert (∀ k, n < 10 ^ Z.of_nat k → ∃ D, (0 < D ≤ k)%nat ∧ 10 ^ (Z.of_nat D - 1) ≤ n < 10 ^ Z.of_nat D) as H.
  { induction k as [|k IH]; intros Hk; [simpl in Hk; lia|].
    destruct (decide (n < 10 ^ Z.of_nat k)) as [Hlt|].
    - destruct (IH Hlt) as (D & ? & ?). exists D. split; [lia|done].
    - exists (S k). split; [lia|]. replace (Z.of_nat (S k) - 1) with (Z.of_nat k) by lia. lia. }
  apply H. simpl. lia.
Qed.

Lemma digits_loop_spec fuel D n c :
  (0 < D ≤ fuel)%nat → 10 ^ (Z.of_nat D - 1) ≤ n < 10 ^ Z.of_nat D → 0 ≤ c → c + Z.of_nat D < W32 →
  digits_loop fuel n 10 c = Some (c + Z.of_nat D).
Proof.
  revert D n c. induction fuel as [|fuel IH]; intros D n c HD Hn Hc Hb; [lia|].
  assert (0 < 10 ^ (Z.of_nat D - 1)) by (apply Z.pow_pos_nonneg; lia).
  cbn [digits_loop]. destruct (Z.eqb_spec n 0); [lia|].
  change (Math.AcpiUtShortDivide_native n 10 (Some n) None) with (AE_OK, Some (n / 10), None : option Z).
  cbn [default from_option id]. rewrite (u32_small (c + 1)) by lia.
  destruct (decide (D = 1%nat)) as [-> |].
  - simpl in Hn. rewrite Z.div_small by lia. by destruct fuel.
  - rewrite (IH (D - 1)%nat); [f_equal; lia|lia| |lia|lia].
    replace (Z.of_nat D) with (Z.succ (Z.of_nat (D - 1))) in * by lia.
    rewrite Z.pow_succ_r in Hn by lia.
    replace (Z.succ (Z.of_nat (D - 1)) - 1) with (Z.succ (Z.of_nat (D - 1) - 1)) in Hn by lia.
    rewrite Z.pow_succ_r in Hn by lia.
    split; [apply Z.div_le_lower_bound; lia|apply Z.div_lt_upper_bound; lia].
Qed.

Lemma integer_loop_spec D n after : 0 ≤ n → integer_loop D n after = digits_be D n ++ after.
Proof.
  revert n after. induction D as [|D IH]; intros n after Hn; [done|]. cbn [integer_loop].
  change (Math.AcpiUtShortDivide_native n 10 (Some n) (Some 0)) with
    (AE_OK, Some (n / 10), Some (u32 (n mod 10))). cbn [default from_option id].
  pose proof (Z.mod_pos_bound n 10 ltac:(lia)) as Hm. rewrite (u32_small (n mod 10)) by lia.
  destruct (decimal_char _ Hm) as [-> _]. rewrite IH by (apply Z.div_pos; lia).
  change (48 + n mod 10 :: after) with ([48 + n mod 10] ++ after). rewrite app_assoc. f_equal.
  clear IH Hm after. induction D as [|D IH]; [simpl; by rewrite Z.div_1_r|].
  change (digits_be (S (S D)) n) with (48 + (n / 10 ^ Z.of_nat (S D)) mod 10 :: digits_be (S D) n).
  cbn [digits_be app] in *. rewrite <- IH. f_equal. do 2 f_equal.
  rewrite Z.div_div by lia. f_equal. rewrite Nat2Z.inj_succ, Z.pow_succ_r by lia. done.
Qed.

(** The digits of a number, without leading zeros. *)
Definition decimal_of (s : list Z) (n : Z) : Prop := s ≠ [] ∧ digits_in 10 s ∧ numeral 10 s = n.

Lemma decimal_printed n w :
  0 ≤ n < W64 → (w = 4 → n < W32) → (w = 1 → n < W8) →
  ∃ s, AcpiExConvertToAscii n 10 w = Some s ∧ AcpiExIntegerToString n = Some s ∧ decimal_of s n.
Proof.
  intros Hn H4 H1. unfold AcpiExConvertToAscii, AcpiExIntegerToString, AcpiExDigitsNeeded. cbn [Z.eqb].
  set (len := if w =? 1 then 3%nat else if w =? 4 then 10%nat else 20%nat).
  change (Pos.eqb 10 10) with true. cbv iota.
  destruct (Z.eqb_spec n 0) as [->|Hn0].
  { exists [48]. rewrite (decimal_loop_suppress len 0) by (simpl; lia).
    repeat split; [done|]. repeat constructor; lia. }
  destruct (decimal_size n) as (D & HD & HDn); [lia|].
  assert (D ≤ len)%nat as HDl.
  { assert (∀ k, n < 10 ^ Z.of_nat k → (D ≤ k)%nat) as Hk.
    { intros k Hk. destruct (decide (D ≤ k)%nat); [done|].
      pose proof (Z.pow_le_mono_r 10 (Z.of_nat k) (Z.of_nat D - 1) ltac:(lia) ltac:(lia)). lia. }
    unfold len. destruct (Z.eqb_spec w 1); [apply Hk; simpl; lia|].
    destruct (Z.eqb_spec w 4); [apply Hk; simpl; lia|lia]. }
  rewrite (decimal_loop_suppress len D) by lia. rewrite (digits_loop_spec 64 D) by lia.
  rewrite Z.add_0_l, Nat2Z.id, integer_loop_spec, app_nil_r by lia.
  exists (digits_be D n). destruct D as [|D]; [lia|].
  split; [done|]. split; [done|]. split; [done|]. split; [apply digits_be_digits|].
  unfold numeral. rewrite digits_be_value by lia. rewrite Z.mod_small; lia.
Qed.

Lemma hex_char d : 0 ≤ d < 16 →
  let c := nth (Z.to_nat d) AcpiGbl_HexToAscii 0 in
  u8 c = c ∧ 0 ≤ c < W8 ∧ digit_in 16 c = true ∧ digit_of c = d ∧ AcpiUtAsciiCharToHex c = d.
Proof.
  intros Hd.
  assert (d ∈ [0; 1; 2; 3; 4; 5; 6; 7; 8; 9; 10; 11; 12; 13; 14; 15]) as Hin by (rewrite !elem_of_cons; lia).
  rewrite !elem_of_cons in Hin. destruct_or!; subst; try done. by apply not_elem_of_nil in Hin.
Qed.

Lemma HexToAsciiChar_digit n j :
  AcpiUtHexToAsciiChar n (4 * Z.of_nat j) = nth (Z.to_nat ((n / 16 ^ Z.of_nat j) mod 16)) AcpiGbl_HexToAscii 0.
Proof.
  unfold AcpiUtHexToAsciiChar. rewrite Z.shiftr_div_pow2 by lia. change 15 with (Z.ones 4).
  rewrite Z.land_ones, Z.pow_mul_r by lia. done.
Qed.

Lemma hex_printed n w :
  0 < w ≤ 8 → 0 ≤ n < W8 ^ w →
  ∃ s, AcpiExConvertToAscii n 16 w = Some s ∧ Z.of_nat (length s) = 2 * w ∧ digits_in 16 s ∧ numeral 16 s = n.
Proof.
  intros Hw Hn. set (f := λ j, u8 (AcpiUtHexToAsciiChar n (4 * Z.of_nat j))).
  assert (∀ k acc, digits_in 16 (f <$> reverse (seq 0 k)) ∧
    value_from 16 acc (f <$> reverse (seq 0 k)) = acc * 16 ^ Z.of_nat k + n mod 16 ^ Z.of_nat k) as H.
  { induction k as [|k IH]; intros acc; [simpl; rewrite Z.mod_1_r; split; [done|lia]|].
    rewrite seq_S, reverse_snoc. cbn [fmap list_fmap foldl]. unfold f at 1 3. rewrite Nat.add_0_l, HexToAsciiChar_digit.
    pose proof (Z.mod_pos_bound (n / 16 ^ Z.of_nat k) 16 ltac:(lia)) as Hm.
    destruct (hex_char _ Hm) as (-> & ? & ? & -> & _). destruct (IH (acc * 16 + (n / 16 ^ Z.of_nat k) mod 16)) as [Hd ->].
    split; [by constructor|]. rewrite Nat2Z.inj_succ, Z.pow_succ_r, (Z.mul_comm 16 (16 ^ _)) by lia.
    rewrite (Z.rem_mul_r n (16 ^ Z.of_nat k) 16) by lia. lia. }
  unfold AcpiExConvertToAscii. change (16 =? 10) with false. change (16 =? 16) with true. cbv iota.
  fold f. destruct (H (Z.to_nat (2 * w)) 0) as [Hd Hv]. rewrite Z2Nat.id in Hv by lia.
  pose proof (length_fmap f (reverse (seq 0 (Z.to_nat (2 * w))))) as Hlen. rewrite length_reverse, length_seq in Hlen.
  destruct (f <$> reverse (seq 0 (Z.to_nat (2 * w)))) as [|c s]; [simpl in Hlen; lia|].
  exists (c :: s). split; [done|]. split; [lia|]. split; [done|].
  unfold numeral. rewrite Hv, Z.mod_small; [lia|]. rewrite Z.pow_mul_r by lia. done.
Qed.

(** C39: Printing an integer and reading it back: for every integer of the
    interpreter's width, 4 or 8 bytes, both decimal printers of the executer
    write the same string, and the string reader returns the integer for it;
    the hexadecimal printer writes two digits per byte and the reader, in base
    16, returns the integer too. *)
Theorem ascii_roundtrip n w :
  w = 4 ∨ w = 8 → 0 ≤ n ≤ int_limit w →
  (∃ s, AcpiExConvertToAscii n 10 w = Some s ∧ AcpiExIntegerToString n = Some s ∧
        AcpiUtStrtoul64 w (Some s) ACPI_ANY_BASE = (AE_OK, Some n)) ∧
  (∃ s, AcpiExConvertToAscii n 16 w = Some s ∧ Z.of_nat (length s) = 2 * w ∧
        AcpiUtStrtoul64 w (Some s) 16 = (AE_OK, Some n)).
Proof.
  intros Hw Hn. assert (n < W8 ^ w ∧ n < W64 ∧ (w = 4 → n < W32)) as (Hw8 & H64 & H32).
  { destruct Hw as [-> | ->]; unfold int_limit in Hn; simpl in *; lia. }
  split.
  - destruct (decimal_printed n w) as (s & E1 & E2 & Hne & Hd & Hv); [lia|lia|lia|].
    exists s. split; [done|]. split; [done|].
    pose proof (AcpiUtStrtoul64_spec w 0 [] s (or_introl eq_refl) ltac:(constructor) Hne Hd) as H.
    simpl in H. rewrite Hv, (proj2 (Z.leb_le _ _)) in H by lia. done.
  - destruct (hex_printed n w) as (s & E1 & E2 & Hd & Hv); [lia|lia|].
    exists s. split; [done|]. split; [done|].
    assert (s ≠ []) as Hne by (intros ->; simpl in E2; lia).
    pose proof (AcpiUtStrtoul64_spec w 16 [] s (or_intror eq_refl) ltac:(constructor) Hne Hd) as H.
    simpl in H. rewrite Hv, (proj2 (Z.leb_le _ _)) in H by lia. done.
Qed.

Lemma ascii_roundtrip_witness :
  AcpiExConvertToAscii 4095 10 8 = Some [52; 48; 57; 53] ∧
  AcpiUtStrtoul64 8 (Some [52; 48; 57; 53]) ACPI_ANY_BASE = (AE_OK, Some 4095).
Proof.
  destruct (ascii_roundtrip 4095 8 (or_intror eq_refl) ltac:(unfold int_limit; simpl; lia)) as [(s & E1 & _ & E2) _].
  assert (Some s = Some [52; 48; 57; 53]) as [= ->] by (rewrite <- E1; reflexivity). exact (conj E1 E2).
Defined.

(** The text of a UUID, of the form aabbccdd-eeff-gghh-iijj-kkllmmnnoopp: the
    first three groups are little-endian numbers of the buffer. *)
Definition uuid_text (b : list Z) : list Z :=
  let hex i := let x := nth i b 0 in [AcpiUtHexToAsciiChar x 4; AcpiUtHexToAsciiChar x 0] in
  concat [hex 3; hex 2; hex 1; hex 0; [45%Z]; hex 5; hex 4; [45%Z]; hex 7; hex 6; [45%Z]; hex 8; hex 9; [45%Z];
          hex 10; hex 11; hex 12; hex 13; hex 14; hex 15]%nat.

Lemma hex_pair x : 0 ≤ x < W8 →
  Z.lor (u8 (Z.shiftl (AcpiUtAsciiCharToHex (s8 (AcpiUtHexToAsciiChar x 4))) 4))
    (AcpiUtAsciiCharToHex (s8 (AcpiUtHexToAsciiChar x 0))) = x.
Proof.
  intros Hx.
  assert (forallb (λ i, let x := Z.of_nat i in
    Z.lor (u8 (Z.shiftl (AcpiUtAsciiCharToHex (s8 (AcpiUtHexToAsciiChar x 4))) 4))
      (AcpiUtAsciiCharToHex (s8 (AcpiUtHexToAsciiChar x 0))) =? x) (seq 0 256) = true) as H
    by (vm_compute; reflexivity).
  rewrite forallb_forall in H. specialize (H (Z.to_nat x) ltac:(apply in_seq; lia)).
  rewrite Z2Nat.id in H by lia. by apply Z.eqb_eq.
Qed.

(** A UUID buffer is read back from its text. *)
Lemma AcpiUtConvertStringToUuid_text b :
  length b = 16%nat → Forall (λ x, 0 ≤ x < W8) b → AcpiUtConvertStringToUuid (uuid_text b) = Some b.
Proof.
  intros Hlen Hb. do 16 (destruct b as [|? b]; [done|]). destruct b; [|done].
  repeat match goal with H : Forall _ (_ :: _) |- _ => apply Forall_cons_1 in H as [? H] end.
  unfold AcpiUtConvertStringToUuid, uuid_text, AcpiGbl_MapToUuidOffset.
  cbn [nth concat app mapM lookup list_lookup mbind option_bind].
  rewrite !hex_pair by done. done.
Qed.

End Convert.
