(* ===== verification/AcpiBits.v ===== *)
(** * Runs of bits, and integers as bytes

    What field accesses of ACPICA are stated in: the bits of an integer from a
    position on, an integer with some of its bits replaced, and the integer that
    bytes are, the lowest first. *)

From stdpp Require Import base numbers list.
From S2P Require Import Prelude.

(** ** Runs of bits *)

(** The [n] bits of [x] from [p] on. *)
Definition bits_get (x p n : Z) : Z := Z.land (Z.shiftr x p) (Z.ones n).
(** [x] with the [n] bits from [p] on replaced by those of [v]. *)
Definition bits_set (x p n v : Z) : Z := Z.lor (Z.ldiff x (Z.shiftl (Z.ones n) p)) (Z.shiftl (Z.land v (Z.ones n)) p).

Lemma ones_bit n k : 0 ≤ n → 0 ≤ k → Z.testbit (Z.ones n) k = (k <? n).
Proof. intros Hn Hk. destruct (Z.ltb_spec k n); [apply Z.ones_spec_low|apply Z.ones_spec_high]; lia. Qed.

Lemma bits_get_bit x p n k : 0 ≤ p → 0 ≤ n → 0 ≤ k → Z.testbit (bits_get x p n) k = (k <? n) && Z.testbit x (p + k).
Proof.
  intros Hp Hn Hk. unfold bits_get. rewrite Z.land_spec, Z.shiftr_spec, ones_bit by lia. rewrite andb_comm. f_equal. f_equal. lia.
Qed.

Lemma bits_set_bit x p n v k : 0 ≤ p → 0 ≤ n → 0 ≤ k →
  Z.testbit (bits_set x p n v) k = if (p <=? k) && (k <? p + n) then Z.testbit v (k - p) else Z.testbit x k.
Proof.
  intros Hp Hn Hk. unfold bits_set. rewrite Z.lor_spec, Z.ldiff_spec, !Z.shiftl_spec by lia.
  destruct (Z.leb_spec p k); cbn [andb].
  - rewrite Z.land_spec, ones_bit by lia. replace (k - p <? n) with (k <? p + n) by (destruct (Z.ltb_spec k (p + n)), (Z.ltb_spec (k - p) n); lia || done).
    destruct (k <? p + n); cbn [negb].
    + by rewrite andb_false_r, andb_true_r.
    + by rewrite andb_true_r, andb_false_r, orb_false_r.
  - rewrite (Z.testbit_neg_r (Z.ones n)), (Z.testbit_neg_r (Z.land _ _)) by lia. cbn. by rewrite andb_true_r, orb_false_r.
Qed.

Lemma bits_get_nonneg x p n : 0 ≤ n → 0 ≤ bits_get x p n < 2 ^ n.
Proof. intros Hn. unfold bits_get. rewrite Z.land_ones by done. apply Z.mod_pos_bound. lia. Qed.

Lemma bits_set_nonneg x p n v : 0 ≤ x → 0 ≤ n → 0 ≤ bits_set x p n v.
Proof.
  intros Hx Hn. unfold bits_set. apply Z.lor_nonneg. split; [apply Z.ldiff_nonneg; by left|].
  apply Z.shiftl_nonneg, Z.land_nonneg. right. rewrite Z.ones_equiv. lia.
Qed.

(** Numbers with the same bits are the same. *)
Lemma bits_eq x y : (∀ k, 0 ≤ k → Z.testbit x k = Z.testbit y k) → x = y.
Proof. intros H. apply Z.bits_inj'. done. Qed.

(** A number below a power of two has no bits there. *)
Lemma high_bit_clear x n k : 0 ≤ x < 2 ^ n → n ≤ k → 0 ≤ k → Z.testbit x k = false.
Proof.
  intros Hx Hn Hk. destruct (decide (x = 0)) as [->|]; [apply Z.testbit_0_l|].
  destruct (decide (n < 0)); [rewrite Z.pow_neg_r in Hx by lia; lia|].
  apply Z.bits_above_log2; [lia|]. enough (Z.log2 x < n) by lia. apply Z.log2_lt_pow2; lia.
Qed.

Lemma small_testbit x n : 0 ≤ x → 0 ≤ n → (∀ k, n ≤ k → Z.testbit x k = false) → x < 2 ^ n.
Proof.
  intros Hx Hn H. destruct (decide (x = 0)) as [->|]; [lia|]. apply Z.log2_lt_pow2; [lia|].
  destruct (decide (Z.log2 x < n)) as [|Hge]; [done|]. exfalso. specialize (H (Z.log2 x) ltac:(lia)). rewrite Z.bit_log2 in H; [done|lia].
Qed.

Lemma u64_bit x k : 0 ≤ k → Z.testbit (u64 x) k = (k <? 64) && Z.testbit x k.
Proof.
  intros Hk. unfold u64. change W64 with (2 ^ 64). destruct (Z.ltb_spec k 64).
  - by rewrite Z.mod_pow2_bits_low.
  - rewrite Z.mod_pow2_bits_high; [done|lia].
Qed.

Lemma bits_get_add x p a b : 0 ≤ p → 0 ≤ a → 0 ≤ b → bits_get x p (a + b) = bits_get x p a + 2 ^ a * bits_get x (p + a) b.
Proof.
  intros Hp Ha Hb. unfold bits_get. rewrite !Z.land_ones, !Z.shiftr_div_pow2 by lia.
  rewrite !Z.pow_add_r by lia. rewrite Z.rem_mul_r by lia. f_equal. f_equal. rewrite <- Z.div_div by lia. done.
Qed.

Lemma bits_get_low x n : bits_get x 0 n = Z.land x (Z.ones n).
Proof. unfold bits_get. by rewrite Z.shiftr_0_r. Qed.

(** ** Bytes *)

Fixpoint le (bs : list Z) : Z := match bs with [] => 0 | b :: bs => b + 256 * le bs end.
Fixpoint bytes_of (n : nat) (v : Z) : list Z := match n with O => [] | S n => v mod 256 :: bytes_of n (v / 256) end.

Definition are_bytes (bs : list Z) : Prop := Forall (λ b, 0 ≤ b < 256) bs.

Lemma bytes_of_length n v : length (bytes_of n v) = n.
Proof. revert v. induction n as [|n IH]; intros v; cbn; [done|]. by rewrite IH. Qed.

Lemma bytes_of_bytes n v : are_bytes (bytes_of n v).
Proof. revert v. induction n as [|n IH]; intros v; constructor; [apply Z.mod_pos_bound; lia|apply IH]. Qed.

Lemma pow256 n : 2 ^ (8 * Z.of_nat (S n)) = 256 * 2 ^ (8 * Z.of_nat n).
Proof. replace (8 * Z.of_nat (S n)) with (8 + 8 * Z.of_nat n) by lia. by rewrite Z.pow_add_r by lia. Qed.

Lemma le_bytes_of n v : le (bytes_of n v) = v mod 2 ^ (8 * Z.of_nat n).
Proof.
  revert v. induction n as [|n IH]; intros v; [cbn; by rewrite Z.mod_1_r|]. cbn [le bytes_of]. rewrite IH, pow256.
  by rewrite Z.rem_mul_r by lia.
Qed.

Lemma le_range bs : are_bytes bs → 0 ≤ le bs < 2 ^ (8 * Z.of_nat (length bs)).
Proof. induction 1 as [|b bs Hb _ IH]; [cbn; lia|]. cbn [le length]. rewrite pow256. lia. Qed.

Lemma bytes_of_le bs : are_bytes bs → bytes_of (length bs) (le bs) = bs.
Proof.
  induction 1 as [|b bs Hb _ IH]; [done|]. cbn [length bytes_of le].
  replace ((b + 256 * le bs) mod 256) with b by (rewrite Z.mul_comm, Z.mod_add, Z.mod_small by lia; done).
  replace ((b + 256 * le bs) / 256) with (le bs); [by rewrite IH|]. rewrite Z.mul_comm, Z.div_add, Z.div_small by lia. lia.
Qed.

Lemma le_app a b : le (a ++ b) = le a + 2 ^ (8 * Z.of_nat (length a)) * le b.
Proof. induction a as [|x a IH]; [cbn; lia|]. cbn [app le length]. rewrite IH, pow256. lia. Qed.

Lemma le_drop bs k : are_bytes bs → le (drop k bs) = Z.shiftr (le bs) (8 * Z.of_nat k).
Proof.
  intros H. rewrite Z.shiftr_div_pow2 by lia. rewrite <- (take_drop k bs) at 2. rewrite le_app.
  assert (are_bytes (take k bs)) as Ht by (by apply Forall_take). pose proof (le_range _ Ht) as Hr. rewrite length_take in *.
  destruct (decide (k ≤ length bs)%nat) as [Hk|Hk].
  - rewrite Nat.min_l in * by done. rewrite Z.mul_comm, Z.div_add, Z.div_small by lia. lia.
  - rewrite (drop_ge bs k) by lia. cbn. rewrite Z.mul_0_r, Z.add_0_r. symmetry. apply Z.div_small. split; [lia|].
    eapply Z.lt_le_trans; [apply Hr|]. apply Z.pow_le_mono_r; lia.
Qed.

Lemma le_take bs k : are_bytes bs → le (take k bs) = Z.land (le bs) (Z.ones (8 * Z.of_nat k)).
Proof.
  intros H. rewrite Z.land_ones by lia. rewrite <- (take_drop k bs) at 2. rewrite le_app.
  assert (are_bytes (take k bs)) as Ht by (by apply Forall_take). pose proof (le_range _ Ht) as Hr. rewrite length_take in *.
  destruct (decide (k ≤ length bs)%nat) as [Hk|Hk].
  - rewrite Nat.min_l in * by done. rewrite Z.mul_comm, Z.mod_add, Z.mod_small by lia. done.
  - rewrite (drop_ge bs k) by lia. cbn. rewrite Z.mul_0_r, Z.add_0_r. symmetry. apply Z.mod_small. split; [lia|].
    eapply Z.lt_le_trans; [apply Hr|]. apply Z.pow_le_mono_r; lia.
Qed.

(** Some bytes of a buffer. *)
Definition slice (o n : nat) (bs : list Z) : list Z := take n (drop o bs).
(** [memcpy] into a buffer. *)
Definition splice (o : nat) (src bs : list Z) : list Z := take o bs ++ src ++ drop (o + length src) bs.

Lemma le_slice o n bs : are_bytes bs → le (slice o n bs) = bits_get (le bs) (8 * Z.of_nat o) (8 * Z.of_nat n).
Proof. intros H. unfold slice, bits_get. rewrite le_take, le_drop; [done|done|by apply Forall_drop]. Qed.

Lemma splice_length o src bs : (o + length src ≤ length bs)%nat → length (splice o src bs) = length bs.
Proof. intros H. unfold splice. rewrite !length_app, length_take, length_drop. lia. Qed.

Lemma splice_bytes o src bs : are_bytes bs → are_bytes src → are_bytes (splice o src bs).
Proof. intros H1 H2. unfold splice. apply Forall_app. split; [by apply Forall_take|]. apply Forall_app. split; [done|by apply Forall_drop]. Qed.

Lemma le_splice o src bs : are_bytes bs → are_bytes src → (o + length src ≤ length bs)%nat →
  le (splice o src bs) = bits_set (le bs) (8 * Z.of_nat o) (8 * Z.of_nat (length src)) (le src).
Proof.
  intros Hb Hs Hl. pose proof (le_range _ Hs) as Hrs. unfold splice. rewrite !le_app, le_take, le_drop, length_take, Nat.min_l by (done || lia).
  apply bits_eq. intros k Hk. rewrite bits_set_bit by lia.
  assert (0 ≤ Z.land (le bs) (Z.ones (8 * Z.of_nat o)) < 2 ^ (8 * Z.of_nat o)) as Hlow.
  { rewrite Z.land_ones by lia. apply Z.mod_pos_bound. lia. }
  rewrite (Z.mul_comm (2 ^ (8 * Z.of_nat o))), <- (lor_disjoint _ _ (8 * Z.of_nat o)) by lia.
  rewrite (Z.mul_comm (2 ^ (8 * Z.of_nat (length src)))), <- (lor_disjoint (le src) _ (8 * Z.of_nat (length src))) by lia.
  rewrite Z.lor_spec, <- Z.shiftl_mul_pow2, Z.shiftl_spec, Z.lor_spec, <- Z.shiftl_mul_pow2 by lia.
  destruct (Z.leb_spec (8 * Z.of_nat o) k); cbn [andb].
  - rewrite (high_bit_clear _ _ k Hlow) by lia. cbn [orb]. rewrite Z.shiftl_spec by lia. destruct (Z.ltb_spec k (8 * Z.of_nat o + 8 * Z.of_nat (length src))).
    + rewrite (Z.testbit_neg_r (Z.shiftr _ _)) by lia. by rewrite orb_false_r.
    + rewrite (high_bit_clear _ _ (k - 8 * Z.of_nat o) Hrs) by lia. cbn [orb]. rewrite Z.shiftr_spec by lia. f_equal. lia.
  - rewrite (Z.testbit_neg_r (le src)), (Z.testbit_neg_r (Z.shiftl _ _)) by lia. rewrite !orb_false_r, Z.land_spec, ones_bit by lia.
    destruct (Z.ltb_spec k (8 * Z.of_nat o)); [by rewrite andb_true_r|lia].
Qed.
