(* ===== verification/AcpiField.v ===== *)
(** * ACPICA: fields

    libs/acpica/source/components/executer: exfldio.c, exfield.c and the part of
    exprep.c that lays out a field.  A field is a run of bits in a buffer or in
    an operation region, which is read and written in datums of the width the
    field was declared with.

    Operand objects are in a heap.  The type [W] stands for what is outside, and
    these functions are arguments: AcpiEvAddressSpaceDispatch, which runs the
    handler of an address space; the evaluation of arguments of regions and
    buffer fields by the interpreter; whether there is memory; the mutex of the
    global lock.  A pointer to the value of a datum is the value: what it points
    to as a number, the lowest byte first.  AcpiFieldSpec.v has the theorems. *)

From stdpp Require Import base numbers list gmap fin_maps.
From S2P Require Import Prelude UtList AcpiUtil AcpiBits.

Abbreviation ACPI_READ := 0 (only parsing).
Abbreviation ACPI_WRITE := 1 (only parsing).
Abbreviation ACPI_UINT64_MAX := 18446744073709551615 (only parsing).
Abbreviation ACPI_INTEGER_BIT_SIZE := 64 (only parsing).
Abbreviation ACPI_NUM_PREDEFINED_REGIONS := 11 (only parsing).
Abbreviation ACPI_USER_REGION_BEGIN := 128 (only parsing).
Abbreviation ACPI_ADR_SPACE_DATA_TABLE := 126 (only parsing).
Abbreviation ACPI_ADR_SPACE_FIXED_HARDWARE := 127 (only parsing).
Abbreviation ACPI_ADR_SPACE_SMBUS := 4 (only parsing).
Abbreviation ACPI_ADR_SPACE_IPMI := 7 (only parsing).
Abbreviation ACPI_ADR_SPACE_GPIO := 8 (only parsing).
Abbreviation ACPI_ADR_SPACE_GSBUS := 9 (only parsing).
Abbreviation AML_FIELD_ACCESS_TYPE_MASK := 15 (only parsing).
Abbreviation AML_FIELD_LOCK_RULE_MASK := 16 (only parsing).
Abbreviation AML_FIELD_UPDATE_RULE_MASK := 96 (only parsing).
Abbreviation AML_FIELD_UPDATE_PRESERVE := 0 (only parsing).
Abbreviation AML_FIELD_UPDATE_WRITE_AS_ONES := 32 (only parsing).
Abbreviation AML_FIELD_UPDATE_WRITE_AS_ZEROS := 64 (only parsing).
Abbreviation ACPI_SMBUS_BUFFER_SIZE := 34 (only parsing).
Abbreviation ACPI_GSBUS_BUFFER_SIZE := 34 (only parsing).
Abbreviation ACPI_IPMI_BUFFER_SIZE := 66 (only parsing).

Definition ACPI_MUL_8 (a : Z) : Z := u32 (Z.shiftl a 3).
Definition ACPI_DIV_8 (a : Z) : Z := u32 (Z.shiftr a 3).
Definition ACPI_ROUND_BITS_UP_TO_BYTES (a : Z) : Z := ACPI_DIV_8 (u32 (a + 7)).
Definition ACPI_ROUND_DOWN (value boundary : Z) : Z := Z.land (u32 value) (u32 (Z.lnot (u32 (boundary - 1)))).
Definition ACPI_ROUND_UP (value boundary : Z) : Z :=
  Z.land (u32 (u32 value + u32 (boundary - 1))) (u32 (Z.lnot (u32 (boundary - 1)))).
Definition ACPI_ROUND_UP_TO (value boundary : Z) : Z := u32 (value + (boundary - 1)) / boundary.
Definition ACPI_MASK_BITS_BELOW (position : Z) : Z := u64 (Z.shiftl ACPI_UINT64_MAX position).
Definition ACPI_MASK_BITS_ABOVE (position : Z) : Z := u64 (Z.lnot (u64 (Z.shiftl ACPI_UINT64_MAX position))).

Inductive field_type :=
  | ACPI_TYPE_BUFFER_FIELD | ACPI_TYPE_LOCAL_REGION_FIELD | ACPI_TYPE_LOCAL_BANK_FIELD | ACPI_TYPE_LOCAL_INDEX_FIELD.
#[export] Instance field_type_eq_dec : EqDecision field_type.
Proof. solve_decision. Defined.

(** ACPI_COMMON_FIELD_INFO and the pointers of the four kinds of fields. *)
Record field := Field {
  f_Type : field_type;
  f_DATA_VALID : bool;
  FieldFlags : Z;
  Attribute : Z;
  AccessByteWidth : Z;
  BitLength : Z;
  BaseByteOffset : Z;
  Value : Z;
  StartFieldBitOffset : Z;
  AccessLength : Z;
  RegionObj : Z;
  BankObj : Z;
  IndexObj : Z;
  DataObj : Z;
  BufferObj : Z;
  ResourceBuffer : Z;
  ResourceLength : Z;
  PinNumberIndex : Z
}.
Definition set_AccessByteWidth (w : Z) (f : field) : field :=
  Field (f_Type f) (f_DATA_VALID f) (FieldFlags f) (Attribute f) w (BitLength f) (BaseByteOffset f) (Value f)
    (StartFieldBitOffset f) (AccessLength f) (RegionObj f) (BankObj f) (IndexObj f) (DataObj f) (BufferObj f)
    (ResourceBuffer f) (ResourceLength f) (PinNumberIndex f).
Definition set_common (flags attribute bits w base start : Z) (f : field) : field :=
  Field (f_Type f) (f_DATA_VALID f) flags attribute w bits base (Value f)
    start (AccessLength f) (RegionObj f) (BankObj f) (IndexObj f) (DataObj f) (BufferObj f)
    (ResourceBuffer f) (ResourceLength f) (PinNumberIndex f).

(** A region, with [NextObject] the object that holds its context. *)
Record region := Region {
  r_DATA_VALID : bool;
  r_SETUP_COMPLETE : bool;
  NextObject : Z;
  SpaceId : Z;
  r_Handler : Z;
  r_Address : Z;
  r_Length : Z
}.

(** The functions an address space handler points to. *)
Inductive handler_function :=
  | AcpiExSystemMemorySpace
  | AcpiExSystemIoSpace
  | AcpiExPciConfigSpace
  | AcpiExCmosSpace
  | AcpiExPciBarSpace
  | AcpiExDataTableSpace
  | UserHandler (p : Z).
Inductive setup_function :=
  | AcpiEvSystemMemoryRegion
  | AcpiEvIoSpaceRegion
  | AcpiEvPciConfigRegion
  | AcpiEvCmosRegion
  | AcpiEvPciBarRegion
  | AcpiEvDefaultRegion
  | UserSetup (p : Z).
Record addr_handler := AddrHandler {
  HandlerFlags : Z;
  h_Handler : handler_function;
  h_Context : Z;
  h_Setup : option setup_function
}.

(** The operand objects that field accesses meet. *)
Inductive operand :=
  | OField (f : field)
  | ORegion (r : region)
  | OBuffer (bytes : list Z)
  | OString (bytes : list Z)
  | OInteger (v : Z)
  | OAddressSpace (h : addr_handler)
  | OExtra (RegionContext : Z)
  | OData
  | OOther.

Record acpi_state (W : Type) := IState { objects : gmap Z operand; outside : W }.
Arguments IState {W}.
Arguments objects {W}.
Arguments outside {W}.

Definition AcpiIsValidSpaceId (space : Z) : bool :=
  negb ((ACPI_NUM_PREDEFINED_REGIONS <=? space) && (space <? ACPI_USER_REGION_BEGIN) &&
        negb (space =? ACPI_ADR_SPACE_DATA_TABLE) && negb (space =? ACPI_ADR_SPACE_FIXED_HARDWARE)).

Definition AcpiExRegisterOverflow (f : field) (v : Z) : bool :=
  if ACPI_INTEGER_BIT_SIZE <=? BitLength f then false else u64 (Z.shiftl 1 (BitLength f)) <=? v.

Definition ok (Status : ACPI_STATUS) : bool := bool_decide (Status = AE_OK).

(** [memcpy] of the low [n] bytes of a datum into a buffer, and of bytes of a
    buffer over the low bytes of a datum. *)
Definition put_datum (offset n datum : Z) (Buffer : list Z) : list Z := splice (Z.to_nat offset) (bytes_of (Z.to_nat n) datum) Buffer.
Definition take_datum (offset n : Z) (Buffer : list Z) (datum : Z) : Z :=
  le (splice 0 (slice (Z.to_nat offset) (Z.to_nat n) Buffer) (bytes_of 8 datum)).

Section Fields.
Context {W : Type}.
Abbreviation S := (acpi_state W).
Variable AcpiEvAddressSpaceDispatch : Z → Z → Z → Z → Z → Z → M S (ACPI_STATUS * Z).
Variable AcpiDsGetRegionArguments : Z → M S ACPI_STATUS.
Variable AcpiDsGetBufferFieldArguments : Z → M S ACPI_STATUS.
Variable memory_for : Z → M S bool.
Variable AcpiExAcquireMutexObject AcpiExReleaseMutexObject : M S ACPI_STATUS.
Variable AcpiGbl_EnableInterpreterSlack : bool.
Variable AcpiGbl_IntegerByteWidth : Z.

Definition on_objects {A} (m : M (gmap Z operand) A) : M S A := zoom objects (λ o s, IState o (outside s)) m.
Definition get_field (p : Z) : M S field :=
  o ← on_objects (load p);
  match o with OField f => mret f | _ => fault end.
Definition get_region (p : Z) : M S region :=
  o ← on_objects (load p);
  match o with ORegion r => mret r | _ => fault end.

(** ** Access to a region *)

Definition AcpiExSetupRegion (ObjDesc FieldDatumByteOffset : Z) : M S ACPI_STATUS :=
  f ← get_field ObjDesc;
  o ← on_objects (load (RegionObj f));
  match o with
  | ORegion r =>
      if negb (AcpiIsValidSpaceId (SpaceId r)) then mret AE_AML_INVALID_SPACE_ID
      else
        Status ← (if negb (r_DATA_VALID r) then AcpiDsGetRegionArguments (RegionObj f) else mret AE_OK);
        if negb (ok Status) then mret Status
        else if (SpaceId r =? ACPI_ADR_SPACE_SMBUS) || (SpaceId r =? ACPI_ADR_SPACE_GSBUS) || (SpaceId r =? ACPI_ADR_SPACE_IPMI) then mret AE_OK
        else
          r ← get_region (RegionObj f);
          if r_Length r <? u32 (BaseByteOffset f + FieldDatumByteOffset + AccessByteWidth f) then
            if AcpiGbl_EnableInterpreterSlack &&
               (u32 (BaseByteOffset f + AccessByteWidth f + FieldDatumByteOffset) <=? ACPI_ROUND_UP (r_Length r) (AccessByteWidth f))
            then mret AE_OK
            else mret AE_AML_REGION_LIMIT
          else mret AE_OK
  | _ => mret AE_AML_OPERAND_TYPE
  end.

Definition AcpiExAccessRegion (ObjDesc FieldDatumByteOffset v Function : Z) : M S (ACPI_STATUS * Z) :=
  Status ← AcpiExSetupRegion ObjDesc FieldDatumByteOffset;
  if negb (ok Status) then mret (Status, v)
  else
    f ← get_field ObjDesc;
    let RegionOffset := u32 (BaseByteOffset f + FieldDatumByteOffset) in
    AcpiEvAddressSpaceDispatch (RegionObj f) ObjDesc Function RegionOffset (ACPI_MUL_8 (AccessByteWidth f)) v.

(** ** Whole fields, with the function that accesses a datum *)

Section Datums.
Variable FieldDatumIo : Z → Z → Z → Z → M S (ACPI_STATUS * Z).

Definition AcpiExWriteWithUpdateRule (ObjDesc Mask FieldValue FieldDatumByteOffset : Z) : M S ACPI_STATUS :=
  f ← get_field ObjDesc;
  let rule := Z.land (FieldFlags f) AML_FIELD_UPDATE_RULE_MASK in
  '(Status, MergedValue) ←
    (if negb (Mask =? ACPI_UINT64_MAX) then
       if rule =? AML_FIELD_UPDATE_PRESERVE then
         if negb (u64 (Z.shiftl (u64 (Z.lnot Mask)) (64 - ACPI_MUL_8 (AccessByteWidth f))) =? 0) then
           '(Status, CurrentValue) ← FieldDatumIo ObjDesc FieldDatumByteOffset 0 ACPI_READ;
           if negb (ok Status) then mret (Status, FieldValue)
           else mret (AE_OK, Z.lor FieldValue (Z.land CurrentValue (u64 (Z.lnot Mask))))
         else mret (AE_OK, FieldValue)
       else if rule =? AML_FIELD_UPDATE_WRITE_AS_ONES then mret (AE_OK, Z.lor FieldValue (u64 (Z.lnot Mask)))
       else if rule =? AML_FIELD_UPDATE_WRITE_AS_ZEROS then mret (AE_OK, Z.land FieldValue Mask)
       else mret (AE_AML_OPERAND_VALUE, FieldValue)
     else mret (AE_OK, FieldValue));
  if negb (ok Status) then mret Status
  else
    '(Status, _) ← FieldDatumIo ObjDesc FieldDatumByteOffset MergedValue ACPI_WRITE;
    mret Status.

(** [for (i = 1; i < FieldDatumCount; i++)] with [n] rounds left: a status, and
    the offset in the buffer, the datum that is not yet written and the buffer. *)
Fixpoint extract_loop (n : nat) (ObjDesc : Z) (f : field) (AccessBitWidth DatumCount i FieldOffset BufferOffset MergedDatum : Z)
    (Buffer : list Z) : M S (ACPI_STATUS * (Z * Z * list Z)) :=
  match n with
  | O => mret (AE_OK, (BufferOffset, MergedDatum, Buffer))
  | Datatypes.S n =>
      let FieldOffset := u32 (FieldOffset + AccessByteWidth f) in
      '(Status, RawDatum) ← FieldDatumIo ObjDesc FieldOffset 0 ACPI_READ;
      if negb (ok Status) then mret (Status, (BufferOffset, MergedDatum, Buffer))
      else
        let shift := u32 (AccessBitWidth - StartFieldBitOffset f) in
        let MergedDatum := if shift <? ACPI_INTEGER_BIT_SIZE then Z.lor MergedDatum (u64 (Z.shiftl RawDatum shift)) else MergedDatum in
        if i =? DatumCount then mret (AE_OK, (BufferOffset, MergedDatum, Buffer))
        else
          let BufferLength := Z.of_nat (length Buffer) in
          let Buffer := put_datum BufferOffset (Z.min (AccessByteWidth f) (u32 (BufferLength - BufferOffset))) MergedDatum Buffer in
          extract_loop n ObjDesc f AccessBitWidth DatumCount (i + 1) FieldOffset (u32 (BufferOffset + AccessByteWidth f))
            (Z.shiftr RawDatum (StartFieldBitOffset f)) Buffer
  end.

(** The status, and the buffer afterwards; its length is BufferLength. *)
Definition AcpiExExtractFromField (ObjDesc : Z) (Buffer : list Z) : M S (ACPI_STATUS * list Z) :=
  f ← get_field ObjDesc;
  let BufferLength := Z.of_nat (length Buffer) in
  if BufferLength <? ACPI_ROUND_BITS_UP_TO_BYTES (BitLength f) then mret (AE_BUFFER_OVERFLOW, Buffer)
  else
    let Buffer := replicate (length Buffer) 0 in
    let AccessBitWidth := ACPI_MUL_8 (AccessByteWidth f) in
    if (StartFieldBitOffset f =? 0) && (BitLength f =? AccessBitWidth) then
      '(Status, v) ← FieldDatumIo ObjDesc 0 0 ACPI_READ;
      mret (Status, bytes_of (length Buffer) v)
    else
      (if 8 <? AccessByteWidth f then on_objects (update ObjDesc (λ _, OField (set_AccessByteWidth 8 f))) else mret tt);;
      f ← get_field ObjDesc;
      let AccessBitWidth := ACPI_MUL_8 (AccessByteWidth f) in
      if AccessBitWidth =? 0 then fault
      else
        let DatumCount := ACPI_ROUND_UP_TO (BitLength f) AccessBitWidth in
        let FieldDatumCount := ACPI_ROUND_UP_TO (u32 (BitLength f + StartFieldBitOffset f)) AccessBitWidth in
        '(Status, RawDatum) ← FieldDatumIo ObjDesc 0 0 ACPI_READ;
        if negb (ok Status) then mret (Status, Buffer)
        else
          '(Status, (BufferOffset, MergedDatum, Buffer)) ←
            extract_loop (Z.to_nat (FieldDatumCount - 1)) ObjDesc f AccessBitWidth DatumCount 1 0 0
              (Z.shiftr RawDatum (StartFieldBitOffset f)) Buffer;
          if negb (ok Status) then mret (Status, Buffer)
          else
            let BufferTailBits := BitLength f mod AccessBitWidth in
            let MergedDatum := if negb (BufferTailBits =? 0) then Z.land MergedDatum (ACPI_MASK_BITS_ABOVE BufferTailBits) else MergedDatum in
            mret (AE_OK, put_datum BufferOffset (Z.min (AccessByteWidth f) (u32 (BufferLength - BufferOffset))) MergedDatum Buffer).

(** The loop that writes all datums but the last: a status, and the offset, the
    mask and the value for the last. *)
Fixpoint insert_field_loop (n : nat) (ObjDesc : Z) (f : field) (AccessBitWidth WidthMask DatumCount i FieldOffset BufferOffset Mask RawDatum MergedDatum : Z)
    (Buffer : list Z) : M S (ACPI_STATUS * (Z * Z * Z)) :=
  match n with
  | O => mret (AE_OK, (FieldOffset, Mask, MergedDatum))
  | Datatypes.S n =>
      let MergedDatum := Z.land MergedDatum Mask in
      Status ← AcpiExWriteWithUpdateRule ObjDesc Mask MergedDatum FieldOffset;
      if negb (ok Status) then mret (Status, (FieldOffset, Mask, MergedDatum))
      else
        let FieldOffset := u32 (FieldOffset + AccessByteWidth f) in
        let shift := u32 (AccessBitWidth - StartFieldBitOffset f) in
        let MergedDatum := if shift <? ACPI_INTEGER_BIT_SIZE then Z.shiftr RawDatum shift else 0 in
        let Mask := WidthMask in
        if i =? DatumCount then mret (AE_OK, (FieldOffset, Mask, MergedDatum))
        else
          let BufferLength := Z.of_nat (length Buffer) in
          let BufferOffset := u32 (BufferOffset + AccessByteWidth f) in
          let RawDatum := take_datum BufferOffset (Z.min (AccessByteWidth f) (u32 (BufferLength - BufferOffset))) Buffer RawDatum in
          let MergedDatum := Z.lor MergedDatum (u64 (Z.shiftl RawDatum (StartFieldBitOffset f))) in
          insert_field_loop n ObjDesc f AccessBitWidth WidthMask DatumCount (i + 1) FieldOffset BufferOffset Mask RawDatum MergedDatum Buffer
  end.

(** [AcpiExInsertIntoField] with a buffer that is long enough. *)
Definition insert_buffer (ObjDesc : Z) (f : field) (Buffer : list Z) : M S ACPI_STATUS :=
  (if 8 <? AccessByteWidth f then on_objects (update ObjDesc (λ _, OField (set_AccessByteWidth 8 f))) else mret tt);;
  f ← get_field ObjDesc;
  let BufferLength := Z.of_nat (length Buffer) in
  let AccessBitWidth := ACPI_MUL_8 (AccessByteWidth f) in
  let WidthMask := if AccessBitWidth =? ACPI_INTEGER_BIT_SIZE then ACPI_UINT64_MAX else ACPI_MASK_BITS_ABOVE AccessBitWidth in
  let Mask := Z.land WidthMask (ACPI_MASK_BITS_BELOW (StartFieldBitOffset f)) in
  if AccessBitWidth =? 0 then fault
  else
    let DatumCount := ACPI_ROUND_UP_TO (BitLength f) AccessBitWidth in
    let FieldDatumCount := ACPI_ROUND_UP_TO (u32 (BitLength f + StartFieldBitOffset f)) AccessBitWidth in
    let RawDatum := take_datum 0 (Z.min (AccessByteWidth f) BufferLength) Buffer 0 in
    let MergedDatum := u64 (Z.shiftl RawDatum (StartFieldBitOffset f)) in
    '(Status, (FieldOffset, Mask, MergedDatum)) ←
      insert_field_loop (Z.to_nat (FieldDatumCount - 1)) ObjDesc f AccessBitWidth WidthMask DatumCount 1 0 0 Mask RawDatum MergedDatum Buffer;
    if negb (ok Status) then mret Status
    else
      let BufferTailBits := u32 (BitLength f + StartFieldBitOffset f) mod AccessBitWidth in
      let Mask := if negb (BufferTailBits =? 0) then Z.land Mask (ACPI_MASK_BITS_ABOVE BufferTailBits) else Mask in
      AcpiExWriteWithUpdateRule ObjDesc Mask (Z.land MergedDatum Mask) FieldOffset.

Definition AcpiExInsertIntoField (ObjDesc : Z) (Buffer : list Z) : M S ACPI_STATUS :=
  f ← get_field ObjDesc;
  let RequiredLength := ACPI_ROUND_BITS_UP_TO_BYTES (BitLength f) in
  if Z.of_nat (length Buffer) <? RequiredLength then
    have ← memory_for RequiredLength;
    if (have : bool) then insert_buffer ObjDesc f (splice 0 Buffer (replicate (Z.to_nat RequiredLength) 0))
    else mret AE_NO_MEMORY
  else insert_buffer ObjDesc f Buffer.
End Datums.

(** ** One datum *)

(** The registers of bank and index fields are fields themselves; [fuel] bounds
    how deep. *)
Fixpoint AcpiExFieldDatumIo (fuel : nat) (ObjDesc FieldDatumByteOffset v ReadWrite : Z) : M S (ACPI_STATUS * Z) :=
  match fuel with
  | O => nofuel
  | Datatypes.S fuel =>
      let v := if ReadWrite =? ACPI_READ then 0 else v in
      o ← on_objects (load ObjDesc);
      match o with
      | OField f =>
          match f_Type f with
          | ACPI_TYPE_BUFFER_FIELD =>
              Status ← (if negb (f_DATA_VALID f) then AcpiDsGetBufferFieldArguments ObjDesc else mret AE_OK);
              if negb (ok Status) then mret (Status, v)
              else
                f ← get_field ObjDesc;
                b ← on_objects (load (BufferObj f));
                match b with
                | OBuffer Pointer =>
                    let offset := u32 (BaseByteOffset f + FieldDatumByteOffset) in
                    let width := AccessByteWidth f in
                    if Z.of_nat (length Pointer) <? offset + width then fault
                    else if ReadWrite =? ACPI_READ then mret (AE_OK, le (slice (Z.to_nat offset) (Z.to_nat width) Pointer))
                    else
                      on_objects (update (BufferObj f) (λ _, OBuffer (put_datum offset width v Pointer)));;
                      mret (AE_OK, v)
                | _ => fault
                end
          | ACPI_TYPE_LOCAL_BANK_FIELD =>
              bank ← get_field (BankObj f);
              if AcpiExRegisterOverflow bank (Value f) then mret (AE_AML_REGISTER_LIMIT, v)
              else
                Status ← AcpiExInsertIntoField (AcpiExFieldDatumIo fuel) (BankObj f) (bytes_of 4 (Value f));
                if negb (ok Status) then mret (Status, v)
                else AcpiExAccessRegion ObjDesc FieldDatumByteOffset v ReadWrite
          | ACPI_TYPE_LOCAL_REGION_FIELD => AcpiExAccessRegion ObjDesc FieldDatumByteOffset v ReadWrite
          | ACPI_TYPE_LOCAL_INDEX_FIELD =>
              index ← get_field (IndexObj f);
              if AcpiExRegisterOverflow index (Value f) then mret (AE_AML_REGISTER_LIMIT, v)
              else
                let FieldDatumByteOffset := u32 (FieldDatumByteOffset + Value f) in
                Status ← AcpiExInsertIntoField (AcpiExFieldDatumIo fuel) (IndexObj f) (bytes_of 4 FieldDatumByteOffset);
                if negb (ok Status) then mret (Status, v)
                else if ReadWrite =? ACPI_READ then
                  '(Status, b) ← AcpiExExtractFromField (AcpiExFieldDatumIo fuel) (DataObj f) (bytes_of 8 v);
                  mret (Status, le b)
                else
                  Status ← AcpiExInsertIntoField (AcpiExFieldDatumIo fuel) (DataObj f) (bytes_of 8 v);
                  mret (Status, v)
          end
      | _ => mret (AE_AML_INTERNAL, v)
      end
  end.

(** ** Reading and writing named fields *)

Definition AcpiExAcquireGlobalLock (flags : Z) : M S unit :=
  if Z.land flags AML_FIELD_LOCK_RULE_MASK =? 0 then mret tt else AcpiExAcquireMutexObject;; mret tt.
Definition AcpiExReleaseGlobalLock (flags : Z) : M S unit :=
  if Z.land flags AML_FIELD_LOCK_RULE_MASK =? 0 then mret tt else AcpiExReleaseMutexObject;; mret tt.

Definition AcpiExGetSerialAccessLength (AccessorType AccessLength : Z) : Z :=
  if AccessorType =? 2 (* AML_FIELD_ATTRIB_QUICK *) then 0
  else if (AccessorType =? 4) || (AccessorType =? 6) (* SEND_RCV, BYTE *) then 1
  else if (AccessorType =? 8) || (AccessorType =? 12) (* WORD, WORD_CALL *) then 2
  else if (AccessorType =? 11) || (AccessorType =? 14) || (AccessorType =? 15) (* MULTIBYTE, RAW_BYTES, RAW_PROCESS *) then AccessLength
  else ACPI_GSBUS_BUFFER_SIZE - 2.

(** The address space of a region field: [ObjDesc->Field.RegionObj->Region.SpaceId]. *)
Definition field_space (f : field) : M S (option Z) :=
  if decide (f_Type f = ACPI_TYPE_LOCAL_REGION_FIELD) then r ← get_region (RegionObj f); mret (Some (SpaceId r)) else mret None.
Definition serial_space (space : option Z) : bool :=
  match space with
  | Some space => (space =? ACPI_ADR_SPACE_SMBUS) || (space =? ACPI_ADR_SPACE_GSBUS) || (space =? ACPI_ADR_SPACE_IPMI)
  | None => false
  end.
(** The length of the buffer for SMBus, GSBus and IPMI, and the protocol in the
    upper half of the function. *)
Definition serial_access (f : field) (space : option Z) : Z * Z :=
  match space with
  | Some space =>
      if space =? ACPI_ADR_SPACE_SMBUS then (ACPI_SMBUS_BUFFER_SIZE, Z.shiftl (Attribute f) 16)
      else if space =? ACPI_ADR_SPACE_GSBUS then
        (u32 (AcpiExGetSerialAccessLength (Attribute f) (AccessLength f) + 2), Z.shiftl (Attribute f) 16)
      else (ACPI_IPMI_BUFFER_SIZE, 0)
  | None => (0, 0)
  end.

(** Evaluate the arguments of a buffer field if need be. *)
Definition buffer_field_ready (ObjDesc : Z) (f : field) : M S ACPI_STATUS :=
  if decide (f_Type f = ACPI_TYPE_BUFFER_FIELD) then
    if negb (f_DATA_VALID f) then AcpiDsGetBufferFieldArguments ObjDesc else mret AE_OK
  else mret AE_OK.

(** One access to the region, with the global lock if the field asks for it. *)
Definition locked_access (ObjDesc : Z) (f : field) (v Function : Z) : M S (ACPI_STATUS * Z) :=
  AcpiExAcquireGlobalLock (FieldFlags f);;
  r ← AcpiExAccessRegion ObjDesc 0 v Function;
  AcpiExReleaseGlobalLock (FieldFlags f);;
  mret r.

(** The status, and the object that is returned. *)
Definition AcpiExReadDataFromField (fuel : nat) (ObjDesc : Z) : M S (ACPI_STATUS * option operand) :=
  f ← get_field ObjDesc;
  Status ← buffer_field_ready ObjDesc f;
  if negb (ok Status) then mret (Status, None)
  else
    f ← get_field ObjDesc;
    space ← field_space f;
    if serial_space space then
      let '(Length, protocol) := serial_access f space in
      have ← memory_for Length;
      if negb have then mret (AE_NO_MEMORY, None)
      else
        '(Status, v) ← locked_access ObjDesc f 0 (Z.lor ACPI_READ protocol);
        mret (Status, if ok Status then Some (OBuffer (bytes_of (Z.to_nat Length) v)) else None)
    else
      let Length := ACPI_ROUND_BITS_UP_TO_BYTES (BitLength f) in
      let large := AcpiGbl_IntegerByteWidth <? Length in
      have ← memory_for Length;
      if negb have then mret (AE_NO_MEMORY, None)
      else
        let Length := if large then Length else AcpiGbl_IntegerByteWidth in
        let result := λ bytes, if large then OBuffer bytes else OInteger (le bytes) in
        if bool_decide (space = Some ACPI_ADR_SPACE_GPIO) then
          '(Status, v) ← locked_access ObjDesc f 0 ACPI_READ;
          mret (Status, if ok Status then Some (result (bytes_of (Z.to_nat (if large then Length else 8)) v)) else None)
        else
          AcpiExAcquireGlobalLock (FieldFlags f);;
          '(Status, Buffer) ← AcpiExExtractFromField (AcpiExFieldDatumIo fuel) ObjDesc (replicate (Z.to_nat Length) 0);
          AcpiExReleaseGlobalLock (FieldFlags f);;
          mret (Status, if ok Status then Some (result Buffer) else None).

(** The status, and the buffer that SMBus, GSBus and IPMI return. *)
Definition AcpiExWriteDataToField (fuel : nat) (SourceDesc : operand) (ObjDesc : Z) : M S (ACPI_STATUS * option operand) :=
  f ← get_field ObjDesc;
  Status ← buffer_field_ready ObjDesc f;
  if negb (ok Status) then mret (Status, None)
  else
    f ← get_field ObjDesc;
    space ← field_space f;
    if serial_space space then
      match SourceDesc with
      | OBuffer Pointer =>
          let '(Length, protocol) := serial_access f space in
          if Z.of_nat (length Pointer) <? Length then mret (AE_AML_BUFFER_LIMIT, None)
          else
            have ← memory_for Length;
            if negb have then mret (AE_NO_MEMORY, None)
            else
              '(Status, v) ← locked_access ObjDesc f (le (take (Z.to_nat Length) Pointer)) (Z.lor ACPI_WRITE protocol);
              mret (Status, Some (OBuffer (bytes_of (Z.to_nat Length) v)))
      | _ => mret (AE_AML_OPERAND_TYPE, None)
      end
    else if bool_decide (space = Some ACPI_ADR_SPACE_GPIO) then
      match SourceDesc with
      | OInteger v => '(Status, _) ← locked_access ObjDesc f v ACPI_WRITE; mret (Status, None)
      | _ => mret (AE_AML_OPERAND_TYPE, None)
      end
    else
      match (match SourceDesc with
             | OInteger v => Some (bytes_of 8 v)
             | OBuffer Pointer => Some Pointer
             | OString Pointer => Some Pointer
             | _ => None
             end) with
      | None => mret (AE_AML_OPERAND_TYPE, None)
      | Some Buffer =>
          AcpiExAcquireGlobalLock (FieldFlags f);;
          Status ← AcpiExInsertIntoField (AcpiExFieldDatumIo fuel) ObjDesc Buffer;
          AcpiExReleaseGlobalLock (FieldFlags f);;
          mret (Status, None)
      end.

(** ** The layout of a field *)

(** The width in bits, which is 0 for an access type that is not known, and the
    alignment in bytes. *)
Definition AcpiExDecodeFieldAccess (f : field) (flags : Z) : Z * Z :=
  let Access := Z.land flags AML_FIELD_ACCESS_TYPE_MASK in
  let '(BitLength, ByteAlignment) :=
    if Access =? 0 (* AML_FIELD_ACCESS_ANY *) then (8, 1)
    else if (Access =? 1) || (Access =? 5) (* BYTE, BUFFER *) then (8, 1)
    else if Access =? 2 (* WORD *) then (16, 2)
    else if Access =? 3 (* DWORD *) then (32, 4)
    else if Access =? 4 (* QWORD *) then (64, 8)
    else (0, 0) in
  (BitLength, if decide (f_Type f = ACPI_TYPE_BUFFER_FIELD) then 1 else ByteAlignment).

Definition AcpiExPrepCommonFieldObject (ObjDesc flags attribute FieldBitPosition FieldBitLength : Z) : M S ACPI_STATUS :=
  f ← get_field ObjDesc;
  let '(AccessBitWidth, ByteAlignment) := AcpiExDecodeFieldAccess f flags in
  if AccessBitWidth =? 0 then
    on_objects (update ObjDesc (λ _, OField (set_common flags attribute FieldBitLength (AccessByteWidth f) (BaseByteOffset f) (StartFieldBitOffset f) f)));;
    mret AE_AML_OPERAND_VALUE
  else
    let NearestByteAddress := ACPI_DIV_8 FieldBitPosition in
    let base := ACPI_ROUND_DOWN NearestByteAddress ByteAlignment in
    let start := u8 (FieldBitPosition - ACPI_MUL_8 base) in
    on_objects (update ObjDesc (λ _, OField (set_common flags attribute FieldBitLength (u8 (ACPI_DIV_8 AccessBitWidth)) base start f)));;
    mret AE_OK.
End Fields.
