(* ===== verification/AcpiFieldSpec.v ===== *)
(** * ACPICA: what a field holds

    Theorems on AcpiField.v.  They are proved against an interface: a field is
    [linear] if its datums are the runs of bits of one number, which is what
    buffers and the memory behind an operation region are.  Then extracting a
    field gives its bits, and inserting changes these bits and no others, as
    the update rule of the field says. *)

From stdpp Require Import base numbers list gmap fin_maps.
From S2P Require Import Prelude UtList MemUtil AcpiUtil AcpiBits AcpiField.

(** Both sides of an equation of bits, case by case. *)
Ltac bit_cases :=
  repeat match goal with
  | |- context [Z.leb ?a ?b] => destruct (Z.leb_spec a b)
  | |- context [Z.ltb ?a ?b] => destruct (Z.ltb_spec a b)
  end; cbn [andb orb negb]; rewrite ?andb_true_r, ?andb_false_r, ?orb_false_r; try lia; try reflexivity.

Lemma shiftl_bit x p k : 0 ≤ p → 0 ≤ k → Z.testbit (Z.shiftl x p) k = (p <=? k) && Z.testbit x (k - p).
Proof. intros Hp Hk. rewrite Z.shiftl_spec by done. destruct (Z.leb_spec p k); [done|]. by rewrite Z.testbit_neg_r by lia. Qed.

Lemma lnot_bit x k : 0 ≤ k → Z.testbit (u64 (Z.lnot x)) k = (k <? 64) && negb (Z.testbit x k).
Proof. intros Hk. rewrite u64_bit by done. by rewrite Z.lnot_spec. Qed.

Lemma max_bit k : 0 ≤ k → Z.testbit ACPI_UINT64_MAX k = (k <? 64).
Proof. intros Hk. change ACPI_UINT64_MAX with (Z.ones 64). by rewrite ones_bit by lia. Qed.

Lemma above_bit p k : 0 ≤ p → 0 ≤ k → Z.testbit (ACPI_MASK_BITS_ABOVE p) k = (k <? 64) && (k <? p).
Proof.
  intros Hp Hk. unfold ACPI_MASK_BITS_ABOVE. rewrite lnot_bit, u64_bit, shiftl_bit by done.
  destruct (Z.leb_spec p k); [rewrite max_bit by lia|]; bit_cases.
Qed.

Lemma below_bit p k : 0 ≤ p → 0 ≤ k → Z.testbit (ACPI_MASK_BITS_BELOW p) k = (k <? 64) && (p <=? k).
Proof.
  intros Hp Hk. unfold ACPI_MASK_BITS_BELOW. rewrite u64_bit, shiftl_bit by done.
  destruct (Z.leb_spec p k); [rewrite max_bit by lia|]; bit_cases.
Qed.

Lemma u64_range z : 0 ≤ u64 z < 2 ^ 64.
Proof. apply Z.mod_pos_bound. done. Qed.

Lemma mul8 w : 0 ≤ w < 256 → ACPI_MUL_8 w = 8 * w.
Proof. intros Hw. unfold ACPI_MUL_8. rewrite Z.shiftl_mul_pow2 by lia. change (2 ^ 3) with 8. rewrite u32_small; lia. Qed.

Section Spec.
Context {W : Type}.
Abbreviation S := (acpi_state W).
Variable io : Z → Z → Z → Z → M S (ACPI_STATUS * Z).
Variable obj : Z.
Variable f : field.
Abbreviation w := (AccessByteWidth f).
Abbreviation A := (8 * AccessByteWidth f).
Abbreviation st := (StartFieldBitOffset f).
Abbreviation n := (BitLength f).

(** The datums of the field, counted from its base, are the bits of a number;
    [avail] bytes of it can be accessed. *)
Class LinearField (avail : Z) (holds : Z → S → Prop) : Prop := {
  lf_field : ∀ C s, holds C s → get_field obj s = Ret f s;
  lf_nonneg : ∀ C s, holds C s → 0 ≤ C;
  lf_read : ∀ C s o, holds C s → 0 ≤ o → o + w ≤ avail →
    ∃ s', io obj o 0 ACPI_READ s = Ret (AE_OK, bits_get C (8 * o) A) s' ∧ holds C s';
  lf_write : ∀ C s o v, holds C s → 0 ≤ o → o + w ≤ avail → 0 ≤ v < 2 ^ 64 →
    ∃ s', io obj o v ACPI_WRITE s = Ret (AE_OK, v) s' ∧ holds (bits_set C (8 * o) A v) s'
}.

(** The layout of a field: the numbers of bits fit into the machine's. *)
Record field_ok : Prop := {
  fo_width : 1 ≤ w ≤ 8;
  fo_start : 0 ≤ st < A;
  fo_bits : 0 < n;
  fo_small : n + st + 64 < W32
}.

Context {avail : Z} {holds : Z → S → Prop} `{!LinearField avail holds} (Hf : field_ok).

(** The bits of a datum that are not of the field, by the update rule. *)
Definition rule_bit (old : bool) : bool :=
  if Z.land (FieldFlags f) AML_FIELD_UPDATE_RULE_MASK =? AML_FIELD_UPDATE_PRESERVE then old
  else Z.land (FieldFlags f) AML_FIELD_UPDATE_RULE_MASK =? AML_FIELD_UPDATE_WRITE_AS_ONES.
Definition rule_known : Prop :=
  let rule := Z.land (FieldFlags f) AML_FIELD_UPDATE_RULE_MASK in
  rule = AML_FIELD_UPDATE_PRESERVE ∨ rule = AML_FIELD_UPDATE_WRITE_AS_ONES ∨ rule = AML_FIELD_UPDATE_WRITE_AS_ZEROS.

Lemma lor_range a b : 0 ≤ a < 2 ^ 64 → 0 ≤ b < 2 ^ 64 → 0 ≤ Z.lor a b < 2 ^ 64.
Proof.
  intros Ha Hb. split; [apply Z.lor_nonneg; lia|]. apply small_testbit; [apply Z.lor_nonneg; lia|lia|].
  intros k Hk. rewrite Z.lor_spec. rewrite (high_bit_clear a 64 k), (high_bit_clear b 64 k) by lia. done.
Qed.

Lemma land_range_r a b : 0 ≤ b < 2 ^ 64 → 0 ≤ Z.land a b < 2 ^ 64.
Proof.
  intros Hb. split; [apply Z.land_nonneg; lia|]. apply small_testbit; [apply Z.land_nonneg; lia|lia|].
  intros k Hk. rewrite Z.land_spec. by rewrite (high_bit_clear b 64 k), andb_false_r by lia.
Qed.

Lemma full_mask Mask j : u64 (Z.shiftl (u64 (Z.lnot Mask)) (64 - A)) = 0 → 0 ≤ j < A → Z.testbit Mask j = true.
Proof.
  intros H Hj. destruct Hf as [Hw _ _ _]. apply (f_equal (λ z, Z.testbit z (j + (64 - A)))) in H.
  rewrite u64_bit, shiftl_bit, lnot_bit, Z.testbit_0_l in H by lia. revert H. replace (j + (64 - A) - (64 - A)) with j by lia.
  bit_cases. by destruct (Z.testbit Mask j).
Qed.

(** Writing a datum with the update rule. *)
Lemma write_with_rule C s Mask v o : holds C s → rule_known → 0 ≤ Mask < 2 ^ 64 → 0 ≤ v < 2 ^ 64 → 0 ≤ o → o + w ≤ avail →
  (∀ k, 0 ≤ k → Z.testbit v k = true → Z.testbit Mask k = true) →
  ∃ s' C', AcpiExWriteWithUpdateRule io obj Mask v o s = Ret AE_OK s' ∧ holds C' s' ∧
    ∀ k, 0 ≤ k → Z.testbit C' k =
      if (8 * o <=? k) && (k <? 8 * o + A) then
        if Z.testbit Mask (k - 8 * o) then Z.testbit v (k - 8 * o) else rule_bit (Z.testbit C k)
      else Z.testbit C k.
Proof.
  intros H Hrule HM Hv Ho Hav Hsub. pose proof Hf as [Hw _ _ _]. unfold AcpiExWriteWithUpdateRule. step (lf_field _ _ H).
  assert (∀ s mv, holds C s → 0 ≤ mv < 2 ^ 64 →
    (∀ j, 0 ≤ j < A → Z.testbit mv j = if Z.testbit Mask j then Z.testbit v j else rule_bit (Z.testbit C (8 * o + j))) →
    ∃ s' C', ('(Status, _) ← io obj o mv ACPI_WRITE; mret Status) s = Ret AE_OK s' ∧ holds C' s' ∧
    ∀ k, 0 ≤ k → Z.testbit C' k = if (8 * o <=? k) && (k <? 8 * o + A) then
      if Z.testbit Mask (k - 8 * o) then Z.testbit v (k - 8 * o) else rule_bit (Z.testbit C k) else Z.testbit C k) as Hmv.
  { clear dependent s. intros s mv H Hmv Hbits. destruct (lf_write C s o mv H Ho Hav Hmv) as (s' & E & H'). exists s', (bits_set C (8 * o) A mv). step E.
    split; [done|]. split; [done|]. intros k Hk. rewrite bits_set_bit by lia. bit_cases. rewrite Hbits by lia.
    by replace (8 * o + (k - 8 * o)) with k by lia. }
  destruct (Z.eqb_spec Mask ACPI_UINT64_MAX) as [->|Hne]; cbn [negb].
  { step (ret_ok (AE_OK, v) s). cbv beta iota. apply Hmv; [done|done|]. intros j Hj. rewrite max_bit by lia. bit_cases. }
  rewrite mul8 by lia. destruct Hrule as [Hr|[Hr|Hr]]; unfold rule_bit in Hmv |- *; rewrite Hr in Hmv |- *; cbn [Z.eqb Pos.eqb] in Hmv |- *.
  - destruct (Z.eqb_spec (u64 (Z.shiftl (u64 (Z.lnot Mask)) (64 - A))) 0) as [Hz|Hz]; cbn [negb].
    + step (ret_ok (AE_OK, v) s). cbv beta iota. apply Hmv; [done|done|]. intros j Hj. by rewrite (full_mask Mask j Hz Hj).
    + destruct (lf_read C s o H Ho Hav) as (s1 & Er & H1). step Er. cbv beta iota. change (negb (ok AE_OK)) with false. cbv iota.
      step (ret_ok (AE_OK, Z.lor v (Z.land (bits_get C (8 * o) A) (u64 (Z.lnot Mask)))) s1). cbv beta iota.
      apply Hmv; [done|apply lor_range; [done|]; apply land_range_r, u64_range|]. intros j Hj.
      rewrite Z.lor_spec, Z.land_spec, lnot_bit, bits_get_bit by lia.
      pose proof (Hsub j ltac:(lia)). destruct (Z.testbit Mask j) eqn:Em; bit_cases. destruct (Z.testbit v j); [naive_solver|done].
  - step (ret_ok (AE_OK, Z.lor v (u64 (Z.lnot Mask))) s). cbv beta iota. apply Hmv; [done|apply lor_range; [done|apply u64_range]|].
    intros j Hj. rewrite Z.lor_spec, lnot_bit by lia. destruct (Z.testbit Mask j); bit_cases.
  - step (ret_ok (AE_OK, Z.land v Mask) s). cbv beta iota. apply Hmv; [done|by apply land_range_r|].
    intros j Hj. rewrite Z.land_spec. destruct (Z.testbit Mask j); [by rewrite andb_true_r|by rewrite andb_false_r].
Qed.

(** ** [AcpiExExtractFromField] *)

(** The datums the field's bits are counted in, and those it lies in. *)
Definition datums : Z := (n + A - 1) / A.
Definition field_datums : Z := (n + st + A - 1) / A.

Lemma datums_bounds : 1 ≤ datums ∧ (datums - 1) * A < n ≤ datums * A ∧ datums ≤ field_datums ≤ datums + 1 ∧
  (field_datums - 1) * A < n + st ≤ field_datums * A.
Proof.
  destruct Hf as [Hw Hst Hn _]. unfold datums, field_datums.
  pose proof (Z.div_mod (n + A - 1) A ltac:(lia)). pose proof (Z.mod_pos_bound (n + A - 1) A ltac:(lia)).
  pose proof (Z.div_mod (n + st + A - 1) A ltac:(lia)). pose proof (Z.mod_pos_bound (n + st + A - 1) A ltac:(lia)).
  split_and!; nia.
Qed.

(** A datum joined with the next one. *)
Lemma merged_bit C i j : 0 ≤ i → 0 ≤ j < A →
  Z.testbit (if u32 (A - st) <? ACPI_INTEGER_BIT_SIZE
             then Z.lor (bits_get C (i * A + st) (A - st)) (u64 (Z.shiftl (bits_get C ((i + 1) * A) A) (u32 (A - st))))
             else bits_get C (i * A + st) (A - st)) j = Z.testbit C (i * A + st + j).
Proof.
  intros Hi Hj. destruct Hf as [Hw Hst _ _]. rewrite u32_small by lia. destruct (Z.ltb_spec (A - st) 64).
  - rewrite Z.lor_spec, u64_bit, shiftl_bit, bits_get_bit by lia. destruct (Z.leb_spec (A - st) j).
    + rewrite bits_get_bit by lia. bit_cases. cbn. f_equal. lia.
    + bit_cases.
  - rewrite bits_get_bit by lia. bit_cases.
Qed.

Lemma next_merged C i : 0 ≤ i → Z.shiftr (bits_get C (i * A) A) st = bits_get C (i * A + st) (A - st).
Proof.
  intros Hi. destruct Hf as [Hw Hst _ _]. apply bits_eq. intros k Hk. rewrite Z.shiftr_spec, !bits_get_bit by lia.
  replace (i * A + (k + st)) with (i * A + st + k) by lia. bit_cases.
Qed.

Lemma first_merged C : Z.shiftr (bits_get C (8 * 0) A) st = bits_get C st (A - st).
Proof. exact (next_merged C 0 ltac:(lia)). Qed.

(** [memcpy] of a datum behind the bits that are there. *)
Lemma put_datum_ok off m d Buffer : are_bytes Buffer → 0 ≤ off → 0 ≤ m → off + m ≤ Z.of_nat (length Buffer) →
  length (put_datum off m d Buffer) = length Buffer ∧ are_bytes (put_datum off m d Buffer) ∧
  ∀ k, 0 ≤ k → Z.testbit (le (put_datum off m d Buffer)) k =
    if (8 * off <=? k) && (k <? 8 * off + 8 * m) then Z.testbit d (k - 8 * off) else Z.testbit (le Buffer) k.
Proof.
  intros HB Ho Hm Hl. unfold put_datum. pose proof (bytes_of_length (Z.to_nat m) d) as Hlen. split_and!.
  - apply splice_length. lia.
  - apply splice_bytes; [done|apply bytes_of_bytes].
  - intros k Hk. rewrite le_splice; [|done|apply bytes_of_bytes|lia]. rewrite Hlen, le_bytes_of, bits_set_bit by lia.
    rewrite !Z2Nat.id by lia. bit_cases. by rewrite Z.mod_pow2_bits_low by lia.
Qed.

Lemma extract_loop_ok C k : field_datums * w ≤ avail → ∀ s i Buffer, holds C s → 1 ≤ i ≤ datums → field_datums - i = Z.of_nat k →
  are_bytes Buffer → n ≤ 8 * Z.of_nat (length Buffer) → Z.of_nat (length Buffer) < W32 → le Buffer = bits_get C st ((i - 1) * A) →
  ∃ s' M Buffer', extract_loop io k obj f A datums i ((i - 1) * w) ((i - 1) * w) (bits_get C ((i - 1) * A + st) (A - st)) Buffer s =
      Ret (AE_OK, ((datums - 1) * w, M, Buffer')) s' ∧ holds C s' ∧
    length Buffer' = length Buffer ∧ are_bytes Buffer' ∧ le Buffer' = bits_get C st ((datums - 1) * A) ∧
    ∀ j, 0 ≤ j < n - (datums - 1) * A → Z.testbit M j = Z.testbit C ((datums - 1) * A + st + j).
Proof.
  intros Hav. pose proof Hf as [Hw Hst Hn Hsm]. pose proof datums_bounds as (HD & Hn1 & HFD & Hn2).
  induction k as [|k IH]; intros s i Buffer H Hi Hk HB Hlen Hl32 Hle; cbn [extract_loop].
  all: pose proof (Z.mul_le_mono_nonneg_r 1 i w ltac:(lia) ltac:(lia)) as P1; pose proof (Z.mul_le_mono_nonneg_r i datums w ltac:(lia) ltac:(lia)) as P2.
  - assert (i = datums) as -> by lia. eexists s, _, Buffer. split; [done|]. split_and!; try done.
    intros j Hj. rewrite bits_get_bit by lia. bit_cases.
  - pose proof (Z.mul_le_mono_nonneg_r (i + 1) field_datums w ltac:(lia) ltac:(lia)) as P3. rewrite (u32_small ((i - 1) * w + w)) by lia. assert (0 ≤ (i - 1) * w + w) as Ho by lia. assert ((i - 1) * w + w + w ≤ avail) as Ha by lia. destruct (lf_read C s _ H Ho Ha) as (s1 & Er & H1). step Er.
    change (negb (ok AE_OK)) with false. cbv iota. replace (8 * ((i - 1) * w + w)) with ((i - 1 + 1) * A) by lia. cbv zeta.
    destruct (Z.eqb_spec i datums) as [->|Hne].
    + eexists s1, _, Buffer. split; [done|]. split_and!; try done. intros j Hj. apply merged_bit; lia.
    + pose proof (Z.mul_le_mono_nonneg_r (i + 1) datums w ltac:(lia) ltac:(lia)) as P4. rewrite (u32_small (Z.of_nat (length Buffer) - _)) by lia. rewrite Z.min_l by lia.
      rewrite next_merged by lia. set (M := if _ : bool then _ else _).
      destruct (put_datum_ok ((i - 1) * w) w M Buffer HB ltac:(lia) ltac:(lia) ltac:(lia)) as (Hl' & HB' & Hbits).
      replace ((i - 1) * w + w) with ((i + 1 - 1) * w) by lia. replace (i - 1 + 1) with (i + 1 - 1) by lia.
      destruct (IH s1 (i + 1) (put_datum ((i - 1) * w) w M Buffer)) as (s' & M' & Buffer' & E & Hr); [done|lia|lia|done|lia|lia| |].
      * apply bits_eq. intros q Hq. rewrite Hbits, Hle by done. rewrite !bits_get_bit by lia.
        replace (8 * ((i - 1) * w)) with ((i - 1) * A) by lia. destruct (Z.leb_spec ((i - 1) * A) q); cbn [andb].
        -- destruct (Z.ltb_spec q ((i - 1) * A + A)).
           ++ unfold M. replace (i + 1 - 1) with (i - 1 + 1) by lia. rewrite merged_bit by lia. bit_cases. f_equal. lia.
           ++ bit_cases.
        -- bit_cases.
      * exists s', M', Buffer'. rewrite Hl' in Hr. split; [exact E|exact Hr].
Qed.

Lemma round_bits : ACPI_ROUND_BITS_UP_TO_BYTES n = (n + 7) / 8 ∧ n ≤ 8 * ((n + 7) / 8) < n + 8.
Proof.
  destruct Hf as [Hw Hst Hn Hsm]. unfold ACPI_ROUND_BITS_UP_TO_BYTES, ACPI_DIV_8. rewrite (u32_small (n + 7)) by lia.
  rewrite Z.shiftr_div_pow2 by lia. change (2 ^ 3) with 8. pose proof (Z.div_mod (n + 7) 8 ltac:(lia)). pose proof (Z.mod_pos_bound (n + 7) 8 ltac:(lia)).
  rewrite u32_small by lia. lia.
Qed.

Lemma round_up_counts : ACPI_ROUND_UP_TO n A = datums ∧ ACPI_ROUND_UP_TO (u32 (n + st)) A = field_datums.
Proof.
  destruct Hf as [Hw Hst Hn Hsm]. unfold ACPI_ROUND_UP_TO, datums, field_datums. rewrite (u32_small (n + st)) by lia.
  rewrite !u32_small by lia. split; f_equal; lia.
Qed.

Lemma le_zeros k : le (replicate k 0) = 0.
Proof. induction k as [|k IH]; [done|]. cbn. by rewrite IH. Qed.

Lemma zeros_bytes k : are_bytes (replicate k 0).
Proof. apply Forall_replicate. lia. Qed.

(** The last datum: what is left of the field, and nothing above. *)
Lemma last_datum C M Buffer : are_bytes Buffer → n ≤ 8 * Z.of_nat (length Buffer) → Z.of_nat (length Buffer) < W32 →
  le Buffer = bits_get C st ((datums - 1) * A) →
  (∀ j, 0 ≤ j < n - (datums - 1) * A → Z.testbit M j = Z.testbit C ((datums - 1) * A + st + j)) →
  put_datum ((datums - 1) * w) (Z.min w (u32 (Z.of_nat (length Buffer) - (datums - 1) * w)))
    (if negb (n mod A =? 0) then Z.land M (ACPI_MASK_BITS_ABOVE (n mod A)) else M) Buffer = bytes_of (length Buffer) (bits_get C st n).
Proof.
  intros HB Hlen Hl32 Hle HM. pose proof Hf as [Hw Hst Hn Hsm]. pose proof datums_bounds as (HD & Hn1 & _).
  pose proof (Z.mul_le_mono_nonneg_r 1 datums w ltac:(lia) ltac:(lia)) as P1.
  rewrite u32_small by lia. set (m := Z.min w _). set (d := if _ : bool then _ else _).
  destruct (put_datum_ok ((datums - 1) * w) m d Buffer HB ltac:(lia) ltac:(lia) ltac:(lia)) as (Hl' & HB' & Hbits).
  rewrite <- (bytes_of_le _ HB'), Hl'. f_equal. apply bits_eq. intros q Hq. rewrite Hbits, Hle, !bits_get_bit by lia.
  assert (∀ j, 0 ≤ j < A → Z.testbit d j = (j <? n - (datums - 1) * A) && Z.testbit C ((datums - 1) * A + st + j)) as Hd.
  { intros j Hj. assert (n mod A = if decide (n - (datums - 1) * A = A) then 0 else n - (datums - 1) * A) as Hmod.
    { destruct (decide _) as [He|He].
      - replace n with (datums * A) by lia. apply Z.mod_mul. lia.
      - symmetry. apply (Z.mod_unique_pos n A (datums - 1)); lia. }
    unfold d. rewrite Hmod. destruct (decide _) as [He|He]; cbn [Z.eqb negb].
    - bit_cases. apply HM. lia.
    - rewrite (proj2 (Z.eqb_neq _ 0)) by lia. cbn [negb]. rewrite Z.land_spec, above_bit by lia. bit_cases. apply HM. lia. }
  replace (8 * ((datums - 1) * w)) with ((datums - 1) * A) by lia.
  destruct (Z.leb_spec ((datums - 1) * A) q); cbn [andb]; [|bit_cases]. destruct (Z.ltb_spec q ((datums - 1) * A + 8 * m)); [|bit_cases].
  rewrite Hd by lia. replace ((datums - 1) * A + st + (q - (datums - 1) * A)) with (st + q) by lia. bit_cases.
Qed.

Lemma AcpiExExtractFromField_ok C s Buffer : holds C s → field_datums * w ≤ avail → Z.of_nat (length Buffer) < W32 →
  if decide (n ≤ 8 * Z.of_nat (length Buffer)) then
    ∃ s', AcpiExExtractFromField io obj Buffer s = Ret (AE_OK, bytes_of (length Buffer) (bits_get C st n)) s' ∧ holds C s'
  else AcpiExExtractFromField io obj Buffer s = Ret (AE_BUFFER_OVERFLOW, Buffer) s.
Proof.
  intros H Hav Hl32. pose proof Hf as [Hw Hst Hn Hsm]. pose proof datums_bounds as (HD & Hn1 & HFD & Hn2). pose proof round_bits as [Hrb Hrb'].
  pose proof (Z.mul_le_mono_nonneg_r 1 field_datums w ltac:(lia) ltac:(lia)) as P1.
  assert (0 ≤ 0) as H0 by lia. assert (0 + w ≤ avail) as H1 by lia. destruct (lf_read C s 0 H H0 H1) as (s1 & Er & Hs1).
  unfold AcpiExExtractFromField. step (lf_field C s H). rewrite Hrb. destruct (decide _) as [Hle|Hle];
    [rewrite (proj2 (Z.ltb_ge _ _)) by lia|by rewrite (proj2 (Z.ltb_lt _ _)) by lia].
  rewrite length_replicate, (mul8 w) by lia. destruct (Z.eqb_spec st 0) as [Hs0|Hs0], (Z.eqb_spec n A) as [HnA|HnA]; cbn [andb].
  1: { step Er. exists s1. by rewrite Hs0, HnA, Z.mul_0_r. }
  all: rewrite (proj2 (Z.ltb_ge 8 w)) by lia; step (ret_ok tt s); step (lf_field C s H); rewrite mul8 by lia;
    rewrite (proj2 (Z.eqb_neq A 0)) by lia; destruct round_up_counts as [-> ->]; step Er;
    change (negb (ok AE_OK)) with false; cbv iota;
    destruct (extract_loop_ok C (Z.to_nat (field_datums - 1)) Hav s1 1 (replicate (length Buffer) 0)) as (s2 & M & Buffer' & E & Hs2 & Hl & HB & HR & HM);
    [done|lia|lia|apply zeros_bytes|by rewrite length_replicate|by rewrite length_replicate|rewrite le_zeros; unfold bits_get; cbn; by rewrite Z.land_0_r|];
    rewrite length_replicate in Hl; change (1 - 1) with 0 in E; rewrite !Z.mul_0_l, Z.add_0_l in E;
    rewrite first_merged; step E; change (negb (ok AE_OK)) with false; cbv iota; rewrite <- Hl in Hle, Hl32 |- *;
    exists s2; by rewrite (last_datum C M Buffer').
Qed.

(** ** [AcpiExInsertIntoField] *)

(** A bit of the container after the first [m] bits were written: [B] is what
    is stored into the field. *)
Definition written (C B m k : Z) : bool :=
  if k <? m then if (st <=? k) && (k <? st + n) then Z.testbit B (k - st) else rule_bit (Z.testbit C k) else Z.testbit C k.

(** The mask, and the next datum, for the datum number [i] (from 0). *)
Definition mask_at (i Mask : Z) : Prop := 0 ≤ Mask < 2 ^ 64 ∧ ∀ j, 0 ≤ j → Z.testbit Mask j = (j <? A) && (st <=? i * A + j).
Definition datum_at (B i M : Z) : Prop :=
  0 ≤ M < 2 ^ 64 ∧ ∀ j, 0 ≤ j < A → 0 ≤ i * A + j - st < n → Z.testbit M j = Z.testbit B (i * A + j - st).
Definition raw_at (B i R : Z) : Prop := 0 ≤ R < 2 ^ A ∧ ∀ j, 0 ≤ j < A → i * A + j < n → Z.testbit R j = Z.testbit B (i * A + j).

Lemma take_datum_bit off m Buffer R j : are_bytes Buffer → 0 ≤ off → 0 ≤ m ≤ 8 → off + m ≤ Z.of_nat (length Buffer) → 0 ≤ R < 2 ^ 64 → 0 ≤ j →
  Z.testbit (take_datum off m Buffer R) j = if j <? 8 * m then Z.testbit (le Buffer) (8 * off + j) else Z.testbit R j.
Proof.
  intros HB Ho Hm Hl HR Hj. unfold take_datum. assert (length (slice (Z.to_nat off) (Z.to_nat m) Buffer) = Z.to_nat m) as Hs.
  { unfold slice. rewrite length_take, length_drop. lia. }
  rewrite le_splice; [|apply bytes_of_bytes|by apply Forall_take, Forall_drop|rewrite Hs, bytes_of_length; lia].
  rewrite Hs, bits_set_bit, le_bytes_of, le_slice by (done || lia). rewrite !Z2Nat.id by lia.
  rewrite (Z.mod_small R) by (change (8 * Z.of_nat 8) with 64; lia). change (8 * Z.of_nat 0) with 0. rewrite Z.sub_0_r.
  destruct (Z.ltb_spec j (8 * m)); [rewrite bits_get_bit by lia|]; bit_cases.
Qed.

Lemma take_datum_nonneg off m Buffer R : are_bytes Buffer → 0 ≤ take_datum off m Buffer R.
Proof.
  intros HB. unfold take_datum. apply le_range, splice_bytes; [apply bytes_of_bytes|]. by apply Forall_take, Forall_drop.
Qed.

(** The bytes of the next datum, copied over the one before. *)
Lemma next_raw Buffer i R : are_bytes Buffer → n ≤ 8 * Z.of_nat (length Buffer) → Z.of_nat (length Buffer) < W32 → 0 ≤ i < datums → 0 ≤ R < 2 ^ A →
  raw_at (le Buffer) i (take_datum (i * w) (Z.min w (u32 (Z.of_nat (length Buffer) - i * w))) Buffer R).
Proof.
  intros HB Hlen Hl32 Hi HR. pose proof Hf as [Hw Hst Hn Hsm]. pose proof datums_bounds as (HD & Hn1 & _).
  pose proof (Z.mul_le_mono_nonneg_r 0 i w ltac:(lia) ltac:(lia)) as P1. pose proof (Z.mul_le_mono_nonneg_r (i + 1) datums w ltac:(lia) ltac:(lia)) as P2.
  assert (0 ≤ R < 2 ^ 64) as HR64 by (split; [lia|]; eapply Z.lt_le_trans; [apply HR|]; apply Z.pow_le_mono_r; lia).
  rewrite u32_small by lia. set (m := Z.min w _).
  assert (∀ j, 0 ≤ j → Z.testbit (take_datum (i * w) m Buffer R) j = if j <? 8 * m then Z.testbit (le Buffer) (8 * (i * w) + j) else Z.testbit R j) as Hbit.
  { intros j Hj. apply take_datum_bit; try done; lia. }
  split; [split; [by apply take_datum_nonneg|]|].
  - apply small_testbit; [by apply take_datum_nonneg|lia|]. intros k Hk. rewrite Hbit by lia. bit_cases. apply (high_bit_clear R A); lia.
  - intros j Hj Hjn. rewrite Hbit by lia. bit_cases. f_equal. lia.
Qed.

(** What is left of a datum goes in front of the next one. *)
Lemma next_datum B i R R' : 0 ≤ i → raw_at B i R → raw_at B (i + 1) R' →
  datum_at B (i + 1) (Z.lor (if u32 (A - st) <? ACPI_INTEGER_BIT_SIZE then Z.shiftr R (u32 (A - st)) else 0) (u64 (Z.shiftl R' st))).
Proof.
  intros Hi [HR HRb] [HR' HRb']. pose proof Hf as [Hw Hst Hn Hsm]. rewrite u32_small by lia.
  assert (0 ≤ (if A - st <? 64 then Z.shiftr R (A - st) else 0) < 2 ^ 64) as Hsh.
  { destruct (_ <? _); [|lia]. split; [apply Z.shiftr_nonneg; lia|]. apply small_testbit; [apply Z.shiftr_nonneg; lia|lia|].
    intros k Hk. rewrite Z.shiftr_spec by lia. apply (high_bit_clear R A); lia. }
  split; [apply lor_range; [exact Hsh|apply u64_range]|]. intros j Hj Hq.
  rewrite Z.lor_spec, u64_bit, shiftl_bit by lia. destruct (Z.leb_spec st j).
  - assert (Z.testbit (if A - st <? 64 then Z.shiftr R (A - st) else 0) j = false) as ->.
    { destruct (_ <? _); [|apply Z.testbit_0_l]. rewrite Z.shiftr_spec by lia. apply (high_bit_clear R A); lia. }
    bit_cases. rewrite HRb' by lia. f_equal. lia.
  - bit_cases. rewrite Z.shiftr_spec by lia. rewrite HRb by lia. f_equal. lia.
Qed.

Lemma last_part B i R : i + 1 = datums → raw_at B i R →
  datum_at B (i + 1) (if u32 (A - st) <? ACPI_INTEGER_BIT_SIZE then Z.shiftr R (u32 (A - st)) else 0).
Proof.
  intros Hi HR. pose proof Hf as [Hw Hst Hn Hsm]. pose proof datums_bounds as (HD & Hn1 & _).
  assert (raw_at B (i + 1) 0) as H0.
  { split; [split; [lia|]; apply Z.pow_pos_nonneg; lia|]. intros j Hj Hq. rewrite Hi in Hq. lia. }
  pose proof (next_datum B i R 0 ltac:(lia) HR H0) as H. rewrite Z.shiftl_0_l in H. change (u64 0) with 0 in H. by rewrite Z.lor_0_r in H.
Qed.

(** One datum is written. *)
Lemma write_datum C B Ci s i Mask M : holds Ci s → rule_known → 0 ≤ i → (i + 1) * w ≤ avail →
  (∀ k, 0 ≤ k → Z.testbit Ci k = written C B (i * A) k) → 0 ≤ Mask < 2 ^ 64 → 0 ≤ M →
  (∀ j, 0 ≤ j < A → Z.testbit Mask j = (st <=? i * A + j) && (i * A + j <? st + n)) →
  (∀ j, 0 ≤ j < A → 0 ≤ i * A + j - st < n → Z.testbit M j = Z.testbit B (i * A + j - st)) →
  ∃ s' C', AcpiExWriteWithUpdateRule io obj Mask (Z.land M Mask) (i * w) s = Ret AE_OK s' ∧ holds C' s' ∧
    ∀ k, 0 ≤ k → Z.testbit C' k = written C B ((i + 1) * A) k.
Proof.
  intros H Hrule Hi Hav Hb HMask HM Hm Hd. pose proof Hf as [Hw Hst Hn Hsm].
  pose proof (Z.mul_le_mono_nonneg_r 0 i w ltac:(lia) ltac:(lia)) as P1.
  destruct (write_with_rule Ci s Mask (Z.land M Mask) (i * w) H Hrule HMask) as (s' & C' & E & H' & Hb'); [by apply land_range_r|lia|lia| |].
  { intros k Hk. rewrite Z.land_spec. by destruct (Z.testbit M k). }
  exists s', C'. split; [done|]. split; [done|]. intros k Hk. rewrite Hb', Hb by done. replace (8 * (i * w)) with (i * A) by lia. unfold written.
  destruct (Z.leb_spec (i * A) k); cbn [andb]; [|bit_cases]. destruct (Z.ltb_spec k (i * A + A)); [|bit_cases].
  rewrite Hm by lia. replace (i * A + (k - i * A)) with k by lia. bit_cases.
  rewrite Z.land_spec, Hd, Hm by lia. replace (i * A + (k - i * A)) with k by lia. bit_cases.
Qed.

Lemma insert_field_loop_ok C Buffer WidthMask k : are_bytes Buffer → n ≤ 8 * Z.of_nat (length Buffer) → Z.of_nat (length Buffer) < W32 → rule_known →
  field_datums * w ≤ avail → (∀ i, 1 ≤ i → mask_at i WidthMask) →
  ∀ i s Ci Mask R M, 0 ≤ i < datums → field_datums - 1 - i = Z.of_nat k → holds Ci s → (∀ k, 0 ≤ k → Z.testbit Ci k = written C (le Buffer) (i * A) k) →
  mask_at i Mask → raw_at (le Buffer) i R → datum_at (le Buffer) i M →
  ∃ s' C' Mask' M', insert_field_loop io k obj f A WidthMask datums (i + 1) (i * w) (i * w) Mask R M Buffer s =
      Ret (AE_OK, ((field_datums - 1) * w, Mask', M')) s' ∧ holds C' s' ∧
    (∀ k, 0 ≤ k → Z.testbit C' k = written C (le Buffer) ((field_datums - 1) * A) k) ∧
    mask_at (field_datums - 1) Mask' ∧ datum_at (le Buffer) (field_datums - 1) M'.
Proof.
  intros HB Hlen Hl32 Hrule Hav HWM. pose proof Hf as [Hw Hst Hn Hsm]. pose proof datums_bounds as (HD & Hn1 & HFD & Hn2).
  induction k as [|k IH]; intros i s Ci Mask R M Hi Hk H Hb HMask HR HM; cbn [insert_field_loop].
  { assert (i = field_datums - 1) as -> by lia. by eexists s, Ci, Mask, M. }
  pose proof (Z.mul_le_mono_nonneg_r 0 i w ltac:(lia) ltac:(lia)) as P1. pose proof (Z.mul_le_mono_nonneg_r (i + 2) field_datums w ltac:(lia) ltac:(lia)) as P2.
  destruct (write_datum C (le Buffer) Ci s i Mask M H Hrule) as (s1 & C1 & E1 & H1 & Hb1); [lia|lia|done|apply HMask|apply HM| |apply HM|].
  { intros j Hj. rewrite (proj2 HMask j) by lia. bit_cases. }
  step E1. change (negb (ok AE_OK)) with false. cbv iota zeta. rewrite (u32_small (i * w + w)) by lia. replace (i * w + w) with ((i + 1) * w) by lia.
  destruct (Z.eqb_spec (i + 1) datums) as [He|Hne].
  - assert (field_datums - 1 = i + 1) as HF by lia. rewrite HF. eexists s1, C1, WidthMask, _. split; [done|]. split; [done|]. split; [done|].
    split; [apply HWM; lia|]. by apply last_part.
  - pose proof (next_raw Buffer (i + 1) R HB Hlen Hl32 ltac:(lia) (proj1 HR)) as HR'.
    destruct (IH (i + 1) s1 C1 WidthMask _ _ ltac:(lia) ltac:(lia) H1 Hb1 (HWM (i + 1) ltac:(lia)) HR' (next_datum (le Buffer) i R _ ltac:(lia) HR HR')) as (s2 & C2 & Mask2 & M2 & E2 & Hr).
    exists s2, C2, Mask2, M2. split; [exact E2|exact Hr].
Qed.

Lemma first_mask i : let WidthMask := if A =? ACPI_INTEGER_BIT_SIZE then ACPI_UINT64_MAX else ACPI_MASK_BITS_ABOVE A in
  (1 ≤ i → mask_at i WidthMask) ∧ mask_at 0 (Z.land WidthMask (ACPI_MASK_BITS_BELOW st)).
Proof.
  intros WidthMask. pose proof Hf as [Hw Hst Hn Hsm]. assert (∀ j, 0 ≤ j → Z.testbit WidthMask j = (j <? A)) as HW.
  { intros j Hj. unfold WidthMask. destruct (Z.eqb_spec A 64) as [->|]; [by rewrite max_bit|]. rewrite above_bit by lia. bit_cases. }
  assert (0 ≤ WidthMask < 2 ^ 64) as Hr.
  { unfold WidthMask. destruct (_ =? _); [lia|apply u64_range]. }
  split.
  - intros Hi. pose proof (Z.mul_le_mono_nonneg_r 1 i w ltac:(lia) ltac:(lia)) as P1. split; [done|]. intros j Hj. rewrite HW by done. bit_cases.
  - split; [apply land_range_r, u64_range|]. intros j Hj. rewrite Z.land_spec, HW, below_bit by lia. bit_cases.
Qed.

(** The mask of the last datum. *)
Lemma tail_mask Mask : mask_at (field_datums - 1) Mask →
  let tail := u32 (n + st) mod A in
  let Mask' := if negb (tail =? 0) then Z.land Mask (ACPI_MASK_BITS_ABOVE tail) else Mask in
  0 ≤ Mask' < 2 ^ 64 ∧ ∀ j, 0 ≤ j < A → Z.testbit Mask' j = (st <=? (field_datums - 1) * A + j) && ((field_datums - 1) * A + j <? st + n).
Proof.
  intros [HM Hb] tail Mask'. pose proof Hf as [Hw Hst Hn Hsm]. pose proof datums_bounds as (HD & Hn1 & HFD & Hn2).
  assert (tail = if decide (n + st - (field_datums - 1) * A = A) then 0 else n + st - (field_datums - 1) * A) as Ht.
  { unfold tail. rewrite u32_small by lia. destruct (decide _) as [He|He].
    - replace (n + st) with (field_datums * A) by lia. apply Z.mod_mul. lia.
    - symmetry. apply (Z.mod_unique_pos (n + st) A (field_datums - 1)); lia. }
  unfold Mask'. rewrite Ht. destruct (decide _) as [He|He]; cbn [Z.eqb negb].
  - split; [done|]. intros j Hj. rewrite Hb by lia. bit_cases.
  - rewrite (proj2 (Z.eqb_neq _ 0)) by lia. cbn [negb]. split; [apply land_range_r, u64_range|].
    intros j Hj. rewrite Z.land_spec, Hb, above_bit by lia. bit_cases.
Qed.

(** The datums after a buffer that is long enough was stored. *)
Lemma insert_datums C s Buffer : holds C s → rule_known → field_datums * w ≤ avail → are_bytes Buffer → n ≤ 8 * Z.of_nat (length Buffer) →
  Z.of_nat (length Buffer) < W32 →
  let WidthMask := if A =? ACPI_INTEGER_BIT_SIZE then ACPI_UINT64_MAX else ACPI_MASK_BITS_ABOVE A in
  let RawDatum := take_datum 0 (Z.min w (Z.of_nat (length Buffer))) Buffer 0 in
  ∃ s' C', ('(Status, (FieldOffset, Mask, MergedDatum)) ←
      insert_field_loop io (Z.to_nat (field_datums - 1)) obj f A WidthMask datums 1 0 0 (Z.land WidthMask (ACPI_MASK_BITS_BELOW st)) RawDatum
        (u64 (Z.shiftl RawDatum st)) Buffer;
      if negb (ok Status) then mret Status
      else
        let BufferTailBits := u32 (n + st) mod A in
        let Mask := if negb (BufferTailBits =? 0) then Z.land Mask (ACPI_MASK_BITS_ABOVE BufferTailBits) else Mask in
        AcpiExWriteWithUpdateRule io obj Mask (Z.land MergedDatum Mask) FieldOffset) s = Ret AE_OK s' ∧ holds C' s' ∧
    ∀ k, 0 ≤ k → Z.testbit C' k = written C (le Buffer) (field_datums * A) k.
Proof.
  intros H Hrule Hav HB Hlen Hl32 WidthMask RawDatum. pose proof Hf as [Hw Hst Hn Hsm]. pose proof datums_bounds as (HD & Hn1 & HFD & Hn2).
  assert (0 ≤ 0 < 2 ^ A) as H0 by (split; [lia|]; apply Z.pow_pos_nonneg; lia).
  pose proof (next_raw Buffer 0 0 HB Hlen Hl32 ltac:(lia) H0) as HR. rewrite Z.mul_0_l, Z.sub_0_r, u32_small in HR by lia. fold RawDatum in HR.
  assert (datum_at (le Buffer) 0 (u64 (Z.shiftl RawDatum st))) as HM.
  { split; [apply u64_range|]. intros j Hj Hq. rewrite u64_bit, shiftl_bit by lia. bit_cases. rewrite (proj2 HR) by lia; f_equal; lia. }
  destruct (insert_field_loop_ok C Buffer WidthMask (Z.to_nat (field_datums - 1)) HB Hlen Hl32 Hrule Hav (λ i, proj1 (first_mask i)) 0 s C
    (Z.land WidthMask (ACPI_MASK_BITS_BELOW st)) RawDatum (u64 (Z.shiftl RawDatum st))) as (s1 & C1 & Mask1 & M1 & E1 & H1 & Hb1 & Hm1 & Hd1);
    [lia|lia|done| |apply (first_mask 0)|done|done|].
  { intros k Hk. unfold written. bit_cases. }
  rewrite !Z.mul_0_l in E1. change (0 + 1) with 1 in E1. step E1. change (negb (ok AE_OK)) with false. cbv iota zeta.
  destruct (tail_mask Mask1 Hm1) as [Hr Hbits]. assert ((field_datums - 1 + 1) * w ≤ avail) as Ha by (replace (field_datums - 1 + 1) with field_datums; lia).
  destruct (write_datum C (le Buffer) C1 s1 (field_datums - 1) _ M1 H1 Hrule ltac:(lia) Ha Hb1 Hr (proj1 (proj1 Hd1)) Hbits (proj2 Hd1)) as (s2 & C2 & E2 & H2 & Hb2).
  replace (field_datums - 1 + 1) with field_datums in Hb2 by lia. by exists s2, C2.
Qed.

Variable memory_for : Z → M S bool.

(** A buffer that is too short is filled up with zeros. *)
Lemma extended Buffer k : are_bytes Buffer → (length Buffer ≤ k)%nat →
  are_bytes (splice 0 Buffer (replicate k 0)) ∧ length (splice 0 Buffer (replicate k 0)) = k ∧ le (splice 0 Buffer (replicate k 0)) = le Buffer.
Proof.
  intros HB Hk. split_and!.
  - apply splice_bytes; [apply zeros_bytes|done].
  - rewrite splice_length; rewrite length_replicate; [done|lia].
  - rewrite le_splice; [|apply zeros_bytes|done|rewrite length_replicate; lia]. rewrite le_zeros. pose proof (le_range _ HB) as Hr.
    apply bits_eq. intros q Hq. rewrite bits_set_bit, Z.testbit_0_l by lia. change (8 * Z.of_nat 0) with 0. rewrite Z.sub_0_r, Z.add_0_l.
    bit_cases. symmetry. by apply (high_bit_clear _ (8 * Z.of_nat (length Buffer))).
Qed.

Lemma AcpiExInsertIntoField_ok C s Buffer have : holds C s → rule_known → field_datums * w ≤ avail → are_bytes Buffer → Z.of_nat (length Buffer) < W32 →
  memory_for ((n + 7) / 8) s = Ret have s →
  if decide (have = true ∨ n ≤ 8 * Z.of_nat (length Buffer)) then
    ∃ s' C', AcpiExInsertIntoField memory_for io obj Buffer s = Ret AE_OK s' ∧ holds C' s' ∧
      ∀ k, 0 ≤ k → Z.testbit C' k = written C (le Buffer) (field_datums * A) k
  else AcpiExInsertIntoField memory_for io obj Buffer s = Ret AE_NO_MEMORY s.
Proof.
  intros H Hrule Hav HB Hl32 Hmem. pose proof Hf as [Hw Hst Hn Hsm]. pose proof round_bits as [Hrb Hrb'].
  assert (∀ Buffer', are_bytes Buffer' → n ≤ 8 * Z.of_nat (length Buffer') → Z.of_nat (length Buffer') < W32 → le Buffer' = le Buffer →
    ∃ s' C', insert_buffer io obj f Buffer' s = Ret AE_OK s' ∧ holds C' s' ∧
      ∀ k, 0 ≤ k → Z.testbit C' k = written C (le Buffer) (field_datums * A) k) as Hins.
  { intros Buffer' HB' Hlen' Hl' <-. unfold insert_buffer. rewrite (proj2 (Z.ltb_ge 8 w)) by lia. step (ret_ok tt s).
    rewrite (bind_ret _ _ _ _ _ (lf_field C s H)). rewrite (mul8 w) by lia. cbv zeta. rewrite (proj2 (Z.eqb_neq A 0)) by lia.
    destruct round_up_counts as [-> ->]. exact (insert_datums C s Buffer' H Hrule Hav HB' Hlen' Hl'). }
  unfold AcpiExInsertIntoField. rewrite (bind_ret _ _ _ _ _ (lf_field C s H)). rewrite Hrb. cbv zeta.
  destruct (Z.ltb_spec (Z.of_nat (length Buffer)) ((n + 7) / 8)) as [Hs|Hs].
  - rewrite (bind_ret _ _ _ _ _ Hmem). destruct have.
    + rewrite decide_True by (by left). destruct (extended Buffer (Z.to_nat ((n + 7) / 8)) HB) as (HB' & Hl' & Hle'); [lia|]. apply Hins; [done|lia|lia|done].
    + by rewrite decide_False by (intros [?|?]; [done|lia]).
  - rewrite decide_True by (right; lia). apply Hins; [done|lia|done|done].
Qed.

(** With the rule that preserves, the bits of the field change and no others. *)
Lemma written_preserves C C' B : 0 ≤ C' → Z.land (FieldFlags f) AML_FIELD_UPDATE_RULE_MASK = AML_FIELD_UPDATE_PRESERVE →
  (∀ k, 0 ≤ k → Z.testbit C' k = written C B (field_datums * A) k) → C' = bits_set C st n B.
Proof.
  intros HC' Hr Hb. pose proof Hf as [Hw Hst Hn Hsm]. pose proof datums_bounds as (HD & Hn1 & HFD & Hn2).
  apply bits_eq. intros k Hk. rewrite Hb, bits_set_bit by lia. unfold written, rule_bit. rewrite Hr. cbn [Z.eqb]. bit_cases.
Qed.
End Spec.

(** ** Objects *)

Lemma on_objects_load {W} (s : acpi_state W) p o : objects s !! p = Some o → on_objects (load p) s = Ret o s.
Proof. intros H. unfold on_objects, zoom. rewrite (load_ok _ _ _ H). by destruct s. Qed.

Lemma get_field_ok {W} (s : acpi_state W) p f : objects s !! p = Some (OField f) → get_field p s = Ret f s.
Proof. intros H. unfold get_field. by step (on_objects_load s p _ H). Qed.

Lemma put_object_ok {W} (s : acpi_state W) p o o' : objects s !! p = Some o →
  on_objects (update p (λ _, o')) s = Ret tt (IState (<[p := o']> (objects s)) (outside s)).
Proof. intros H. unfold on_objects, zoom. by rewrite (update_ok _ _ _ _ H). Qed.

(** ** The layout of a field *)

Lemma round_down x k : 0 ≤ x < W32 → 0 ≤ k < 32 → ACPI_ROUND_DOWN x (2 ^ k) = x - x mod 2 ^ k.
Proof.
  intros Hx Hk. assert (1 ≤ 2 ^ k < W32) as Hp.
  { split; [pose proof (Z.pow_pos_nonneg 2 k); lia|]. change W32 with (2 ^ 32). apply Z.pow_lt_mono_r; lia. }
  unfold ACPI_ROUND_DOWN. rewrite (u32_small x), (u32_small (2 ^ k - 1)) by lia. rewrite land_u32_r by done. apply land_mask_high. lia.
Qed.

Definition access_known (flags : Z) : Prop := 0 ≤ Z.land flags AML_FIELD_ACCESS_TYPE_MASK ≤ 5.

(** The width is 1, 2, 4 or 8 bytes, and the alignment is the width or 1. *)
Lemma decode_access f flags : access_known flags →
  ∃ k a, 0 ≤ a ≤ k ∧ k ≤ 3 ∧ AcpiExDecodeFieldAccess f flags = (8 * 2 ^ k, 2 ^ a) ∧ (f_Type f ≠ ACPI_TYPE_BUFFER_FIELD → a = k).
Proof.
  unfold access_known, AcpiExDecodeFieldAccess. intros H. set (Access := Z.land flags _) in *.
  assert (Access = 0 ∨ Access = 1 ∨ Access = 2 ∨ Access = 3 ∨ Access = 4 ∨ Access = 5) as Hc by lia.
  destruct Hc as [Ha|[Ha|[Ha|[Ha|[Ha|Ha]]]]]; rewrite Ha; cbn; destruct (decide _);
    [exists 0, 0|exists 0, 0|exists 0, 0|exists 0, 0|exists 1, 0|exists 1, 1|exists 2, 0|exists 2, 2|exists 3, 0|exists 3, 3|exists 0, 0|exists 0, 0]; (split; [lia|split; [lia|by split; [|intros ?]]]).
Qed.

(** The field starts where it should, in its first datum. *)
Lemma prep_layout {W} (s : acpi_state W) obj f flags attribute p n : objects s !! obj = Some (OField f) → access_known flags →
  0 ≤ p → 0 < n → p + n + 128 < W32 →
  ∃ f', AcpiExPrepCommonFieldObject obj flags attribute p n s = Ret AE_OK (IState (<[obj := OField f']> (objects s)) (outside s)) ∧
    field_ok f' ∧ 8 * BaseByteOffset f' + StartFieldBitOffset f' = p ∧ BitLength f' = n ∧ FieldFlags f' = flags ∧ 0 ≤ BaseByteOffset f' ∧
    f_Type f' = f_Type f ∧ f_DATA_VALID f' = f_DATA_VALID f ∧ RegionObj f' = RegionObj f ∧ BufferObj f' = BufferObj f ∧
    (f_Type f ≠ ACPI_TYPE_BUFFER_FIELD → (AccessByteWidth f' | BaseByteOffset f')) ∧ (AccessByteWidth f' | 8).
Proof.
  intros Hobj Hacc Hp Hn Hsm. destruct (decode_access f flags Hacc) as (k & a & Hak & Hk & Hdec & Hal).
  unfold AcpiExPrepCommonFieldObject. step (get_field_ok s obj f Hobj). rewrite Hdec.
  assert (1 ≤ 2 ^ a ∧ 2 ^ a ≤ 2 ^ k ≤ 8) as [Ha1 Ha2].
  { change 8 with (2 ^ 3). change 1 with (2 ^ 0). split_and!; apply Z.pow_le_mono_r; lia. }
  rewrite (proj2 (Z.eqb_neq (8 * 2 ^ k) 0)) by lia. unfold ACPI_DIV_8.
  replace (Z.shiftr (8 * 2 ^ k) 3) with (2 ^ k) by (rewrite Z.shiftr_div_pow2 by lia; change (2 ^ 3) with 8; rewrite Z.mul_comm, Z.div_mul; lia).
  rewrite (Z.shiftr_div_pow2 p) by lia. change (2 ^ 3) with 8. pose proof (Z.div_mod p 8 ltac:(lia)). pose proof (Z.mod_pos_bound p 8 ltac:(lia)).
  rewrite (u32_small (p / 8)), (u32_small (2 ^ k)) by lia. rewrite round_down by lia.
  pose proof (Z.mod_pos_bound (p / 8) (2 ^ a) ltac:(lia)). pose proof (Z.mod_le (p / 8) (2 ^ a) ltac:(lia) ltac:(lia)).
  set (base := p / 8 - (p / 8) mod 2 ^ a) in *. assert (ACPI_MUL_8 base = 8 * base) as Hm.
  { unfold ACPI_MUL_8. rewrite Z.shiftl_mul_pow2 by lia. change (2 ^ 3) with 8. rewrite u32_small; lia. }
  rewrite Hm. unfold u8. rewrite (Z.mod_small (p - 8 * base)), (Z.mod_small (2 ^ k)) by lia.
  eexists. step (put_object_ok s obj (OField f) (OField (set_common flags attribute n (2 ^ k) base (p - 8 * base) f)) Hobj).
  split; [done|]. cbn. split; [split; cbn; lia|]. split_and!; try done; try lia.
  - intros Hne. rewrite <- (Hal Hne). exists (p / 8 / 2 ^ a). unfold base. pose proof (Z.div_mod (p / 8) (2 ^ a) ltac:(lia)). lia.
  - exists (2 ^ (3 - k)). rewrite <- Z.pow_add_r by lia. by replace (3 - k + k) with 3 by lia.
Qed.

(** ** Containers *)

Section Container.
Context {W : Type}.
Abbreviation S := (acpi_state W).
Variable io : Z → Z → Z → Z → M S (ACPI_STATUS * Z).
Variable obj : Z.
Variable f : field.
Abbreviation w := (AccessByteWidth f).
Abbreviation A := (8 * AccessByteWidth f).
Abbreviation base := (BaseByteOffset f).

(** The whole of what the field lies in is a number, of [size] bytes. *)
Class Container (size : Z) (cont : Z → S → Prop) : Prop := {
  co_field : ∀ P s, cont P s → get_field obj s = Ret f s;
  co_nonneg : ∀ P s, cont P s → 0 ≤ P;
  co_read : ∀ P s o, cont P s → 0 ≤ o → base + o + w ≤ size →
    ∃ s', io obj o 0 ACPI_READ s = Ret (AE_OK, bits_get P (8 * (base + o)) A) s' ∧ cont P s';
  co_write : ∀ P s o v, cont P s → 0 ≤ o → base + o + w ≤ size → 0 ≤ v < 2 ^ 64 →
    ∃ s', io obj o v ACPI_WRITE s = Ret (AE_OK, v) s' ∧ cont (bits_set P (8 * (base + o)) A v) s'
}.

Context {size : Z} {cont : Z → S → Prop} `{!Container size cont} (Hf : field_ok f) (Hbase : 0 ≤ base).

(** From the base of the field on, with what is before it as it was. *)
Definition above (P0 C : Z) (s : S) : Prop :=
  ∃ P, cont P s ∧ C = Z.shiftr P (8 * base) ∧ ∀ k, 0 ≤ k < 8 * base → Z.testbit P k = Z.testbit P0 k.

#[export] Instance above_linear P0 : LinearField io obj f (size - base) (above P0).
Proof.
  destruct Hf as [Hw Hst Hn Hsm]. split.
  - intros C s (P & HP & _). by eapply co_field.
  - intros C s (P & HP & -> & _). apply Z.shiftr_nonneg. by eapply co_nonneg.
  - intros C s o (P & HP & -> & Hlow) Ho Hav. assert (base + o + w ≤ size) as Ha by lia. destruct (co_read P s o HP Ho Ha) as (s' & E & HP').
    exists s'. split; [|by exists P]. rewrite E. do 2 f_equal.
    apply bits_eq. intros k Hk. rewrite !bits_get_bit, Z.shiftr_spec by lia. do 2 f_equal. lia.
  - intros C s o v (P & HP & -> & Hlow) Ho Hav Hv. assert (base + o + w ≤ size) as Ha by lia.
    destruct (co_write P s o v HP Ho Ha Hv) as (s' & E & HP'). exists s'. split; [done|]. exists (bits_set P (8 * (base + o)) A v).
    split; [done|]. split.
    + apply bits_eq. intros k Hk. rewrite bits_set_bit, !Z.shiftr_spec, bits_set_bit by lia. replace (k + 8 * base - 8 * (base + o)) with (k - 8 * o) by lia. bit_cases.
    + intros k Hk. rewrite bits_set_bit by lia. rewrite <- Hlow by lia. bit_cases.
Qed.

Abbreviation position := (8 * BaseByteOffset f + StartFieldBitOffset f).
Abbreviation n := (BitLength f).

(** The field's datums are in the container. *)
Definition fits : Prop := base + field_datums f * w ≤ size.

Lemma container_extract P s Buffer : cont P s → fits → Z.of_nat (length Buffer) < W32 → n ≤ 8 * Z.of_nat (length Buffer) →
  ∃ s', AcpiExExtractFromField io obj Buffer s = Ret (AE_OK, bytes_of (length Buffer) (bits_get P position n)) s' ∧ cont P s'.
Proof.
  intros HP Hfit Hl Hlen. pose proof Hf as [Hw Hst Hn Hsm]. unfold fits in Hfit.
  assert (above P (Z.shiftr P (8 * base)) s) as H by (by exists P). assert (field_datums f * w ≤ size - base) as Hav by lia.
  pose proof (AcpiExExtractFromField_ok io obj f Hf _ s Buffer H Hav Hl) as Hex. rewrite decide_True in Hex by done.
  destruct Hex as (s' & E & P' & HP' & Hsh & Hlow). pose proof (co_nonneg P s HP). pose proof (co_nonneg P' s' HP').
  exists s'. split; [rewrite E; do 3 f_equal; apply bits_eq; intros k Hk; rewrite !bits_get_bit, Z.shiftr_spec by lia; do 2 f_equal; lia|].
  replace P with P'; [done|]. apply bits_eq. intros k Hk. destruct (Z.ltb_spec k (8 * base)); [by apply Hlow|].
  apply (f_equal (λ x, Z.testbit x (k - 8 * base))) in Hsh. rewrite !Z.shiftr_spec in Hsh by lia. by replace (k - 8 * base + 8 * base) with k in Hsh by lia.
Qed.

(** A bit of the container after [B] was stored into the field. *)
Definition stored (P B k : Z) : bool :=
  if (position <=? k) && (k <? position + n) then Z.testbit B (k - position)
  else if (8 * base <=? k) && (k <? 8 * (base + field_datums f * w)) then rule_bit f (Z.testbit P k)
  else Z.testbit P k.

Lemma container_insert (memory_for : Z → M S bool) P s Buffer : cont P s → fits → rule_known f → are_bytes Buffer → Z.of_nat (length Buffer) < W32 →
  memory_for ((n + 7) / 8) s = Ret true s →
  ∃ s' P', AcpiExInsertIntoField memory_for io obj Buffer s = Ret AE_OK s' ∧ cont P' s' ∧ ∀ k, 0 ≤ k → Z.testbit P' k = stored P (le Buffer) k.
Proof.
  intros HP Hfit Hrule HB Hl Hmem. pose proof Hf as [Hw Hst Hn Hsm]. pose proof (datums_bounds f Hf) as (HD & Hn1 & HFD & Hn2). unfold fits in Hfit.
  assert (above P (Z.shiftr P (8 * base)) s) as H by (by exists P).
  assert (field_datums f * w ≤ size - base) as Hav by lia.
  pose proof (AcpiExInsertIntoField_ok io obj f Hf memory_for _ s Buffer true H Hrule Hav HB Hl Hmem) as Hins. rewrite decide_True in Hins by (by left).
  destruct Hins as (s' & C' & E & (P' & HP' & -> & Hlow) & Hb). exists s', P'. split; [done|]. split; [done|].
  intros k Hk. unfold stored. destruct (Z.ltb_spec k (8 * base)).
  - rewrite Hlow by lia. bit_cases.
  - specialize (Hb (k - 8 * base) ltac:(lia)). rewrite Z.shiftr_spec in Hb by lia. replace (k - 8 * base + 8 * base) with k in Hb by lia. rewrite Hb.
    unfold written. rewrite Z.shiftr_spec by lia. replace (k - 8 * base + 8 * base) with k by lia.
    replace (k - 8 * base - StartFieldBitOffset f) with (k - position) by lia. bit_cases.
Qed.

(** What is stored is read again. *)
Lemma stored_read P P' B : (∀ k, 0 ≤ k → Z.testbit P' k = stored P B k) → bits_get P' position n = bits_get B 0 n.
Proof.
  intros Hb. destruct Hf as [Hw Hst Hn Hsm]. apply bits_eq. intros k Hk. rewrite !bits_get_bit by lia. rewrite Hb by lia. unfold stored.
  bit_cases; f_equal; lia.
Qed.

Lemma stored_preserves P P' B : Z.land (FieldFlags f) AML_FIELD_UPDATE_RULE_MASK = AML_FIELD_UPDATE_PRESERVE →
  (∀ k, 0 ≤ k → Z.testbit P' k = stored P B k) → P' = bits_set P position n B.
Proof.
  intros Hr Hb. destruct Hf as [Hw Hst Hn Hsm]. apply bits_eq. intros k Hk. rewrite Hb, bits_set_bit by lia. unfold stored, rule_bit. rewrite Hr. cbn [Z.eqb]. bit_cases.
Qed.
End Container.
