(* ===== verification/AcpiFieldNamed.v ===== *)
(** * ACPICA: named fields in buffers and operation regions

    AcpiField.v's accesses to a datum make a buffer, and an operation region
    whose handler keeps bytes, a container in the sense of AcpiFieldSpec.v.  The
    theorems are about the functions the interpreter calls: a field is laid out,
    written and read. *)

From stdpp Require Import base numbers list gmap fin_maps.
From S2P Require Import Prelude UtList MemUtil AcpiUtil AcpiBits AcpiField AcpiFieldSpec.

Section Named.
Context {W : Type}.
Abbreviation S := (acpi_state W).
Variable AcpiEvAddressSpaceDispatch : Z → Z → Z → Z → Z → Z → M S (ACPI_STATUS * Z).
Variable AcpiDsGetRegionArguments : Z → M S ACPI_STATUS.
Variable AcpiDsGetBufferFieldArguments : Z → M S ACPI_STATUS.
Variable memory_for : Z → M S bool.
Variable AcpiExAcquireMutexObject AcpiExReleaseMutexObject : M S ACPI_STATUS.
Variable AcpiGbl_EnableInterpreterSlack : bool.
Variable AcpiGbl_IntegerByteWidth : Z.

Abbreviation datum_io fuel := (AcpiExFieldDatumIo AcpiEvAddressSpaceDispatch AcpiDsGetRegionArguments AcpiDsGetBufferFieldArguments memory_for
  AcpiGbl_EnableInterpreterSlack (Datatypes.S fuel)).

(** ** Buffers *)

(** The object of the field, and the state with a number in its buffer. *)
Record buffer_field (s0 : S) (obj : Z) (f : field) (size : nat) : Prop := {
  bf_obj : objects s0 !! obj = Some (OField f);
  bf_type : f_Type f = ACPI_TYPE_BUFFER_FIELD;
  bf_valid : f_DATA_VALID f = true;
  bf_ne : obj ≠ BufferObj f;
  bf_size : Z.of_nat size < W32
}.
Definition with_buffer (s0 : S) (f : field) (size : nat) (P : Z) : S :=
  IState (<[BufferObj f := OBuffer (bytes_of size P)]> (objects s0)) (outside s0).
Definition buffer_cont (s0 : S) (f : field) (size : nat) (P : Z) (s : S) : Prop := 0 ≤ P < 2 ^ (8 * Z.of_nat size) ∧ s = with_buffer s0 f size P.

Lemma with_buffer_obj s0 obj f size P : buffer_field s0 obj f size → objects (with_buffer s0 f size P) !! obj = Some (OField f).
Proof. intros [Ho _ _ Hne _]. cbn. by rewrite lookup_insert_ne. Qed.

Lemma bytes_of_put size P off w v : 0 ≤ P < 2 ^ (8 * Z.of_nat size) → 0 ≤ off → 0 ≤ w → off + w ≤ Z.of_nat size →
  put_datum off w v (bytes_of size P) = bytes_of size (bits_set P (8 * off) (8 * w) v) ∧
  0 ≤ bits_set P (8 * off) (8 * w) v < 2 ^ (8 * Z.of_nat size).
Proof.
  intros HP Ho Hw Hs. destruct (put_datum_ok off w v (bytes_of size P) (bytes_of_bytes _ _) Ho Hw) as (Hl & HB & Hb); [by rewrite bytes_of_length|].
  rewrite bytes_of_length in Hl. assert (le (put_datum off w v (bytes_of size P)) = bits_set P (8 * off) (8 * w) v) as He.
  { apply bits_eq. intros k Hk. rewrite Hb, bits_set_bit, le_bytes_of, Z.mod_small by lia. done. }
  pose proof (le_range _ HB) as Hr. rewrite Hl, He in Hr. split; [|done]. rewrite <- He. pose proof (bytes_of_le _ HB) as Hbl. rewrite Hl in Hbl. done.
Qed.

#[export] Instance buffer_container fuel s0 obj f size : field_ok f → 0 ≤ BaseByteOffset f → buffer_field s0 obj f size →
  Container (datum_io fuel) obj f (Z.of_nat size) (buffer_cont s0 f size).
Proof.
  intros [Hw Hst Hn Hsm] Hbase Hbf. pose proof Hbf as [Hobj Htype Hvalid Hne Hsize].
  assert (∀ P, get_field obj (with_buffer s0 f size P) = Ret f (with_buffer s0 f size P)) as Hget.
  { intros P. apply get_field_ok. by eapply with_buffer_obj. }
  assert (∀ P, objects (with_buffer s0 f size P) !! BufferObj f = Some (OBuffer (bytes_of size P))) as Hbuf.
  { intros P. cbn. by rewrite lookup_insert_eq. }
  split.
  - intros P s [HP ->]. apply Hget.
  - intros P s [HP _]. lia.
  - intros P s o [HP ->] Ho Hs. cbn [AcpiExFieldDatumIo]. step (on_objects_load _ _ _ (with_buffer_obj s0 obj f size P Hbf)).
    rewrite Htype, Hvalid. cbn [negb]. step (ret_ok AE_OK (with_buffer s0 f size P)). change (negb (ok AE_OK)) with false. cbv iota. step (Hget P).
    step (on_objects_load _ _ _ (Hbuf P)). rewrite bytes_of_length, u32_small by lia. rewrite (proj2 (Z.ltb_ge _ _)) by lia. cbn [Z.eqb].
    rewrite le_slice, le_bytes_of, Z.mod_small by (apply bytes_of_bytes || lia). rewrite !Z2Nat.id by lia. by exists (with_buffer s0 f size P).
  - intros P s o v [HP ->] Ho Hs Hv. cbn [AcpiExFieldDatumIo]. step (on_objects_load _ _ _ (with_buffer_obj s0 obj f size P Hbf)).
    rewrite Htype, Hvalid. cbn [negb]. step (ret_ok AE_OK (with_buffer s0 f size P)). change (negb (ok AE_OK)) with false. cbv iota. step (Hget P).
    step (on_objects_load _ _ _ (Hbuf P)). rewrite bytes_of_length, u32_small by lia. rewrite (proj2 (Z.ltb_ge _ _)) by lia. cbn [Z.eqb].
    destruct (bytes_of_put size P (BaseByteOffset f + o) (AccessByteWidth f) v HP) as [Hput Hr]; [lia|lia|lia|]. rewrite Hput.
    step (put_object_ok _ _ _ (OBuffer (bytes_of size (bits_set P (8 * (BaseByteOffset f + o)) (8 * AccessByteWidth f) v))) (Hbuf P)).
    eexists. split; [done|]. split; [done|]. unfold with_buffer. cbn. by rewrite insert_insert_eq.
Qed.

(** ** Operation regions *)

(** What is expected of the handler of a region: it keeps the bytes of the
    region and leaves the objects of the interpreter alone. *)
Class LinearRegion (rp : Z) (r : region) (keeps : Z → S → Prop) : Prop := {
  lr_region : ∀ R s, keeps R s → objects s !! rp = Some (ORegion r);
  lr_nonneg : ∀ R s, keeps R s → 0 ≤ R;
  lr_read : ∀ R s obj o w, keeps R s → 0 ≤ o → 1 ≤ w ≤ 8 → (w | 8) → o + w ≤ r_Length r →
    ∃ s', AcpiEvAddressSpaceDispatch rp obj ACPI_READ o (8 * w) 0 s = Ret (AE_OK, bits_get R (8 * o) (8 * w)) s' ∧
      keeps R s' ∧ objects s' = objects s;
  lr_write : ∀ R s obj o w v, keeps R s → 0 ≤ o → 1 ≤ w ≤ 8 → (w | 8) → o + w ≤ r_Length r → 0 ≤ v < 2 ^ 64 →
    ∃ s', AcpiEvAddressSpaceDispatch rp obj ACPI_WRITE o (8 * w) v s = Ret (AE_OK, v) s' ∧
      keeps (bits_set R (8 * o) (8 * w) v) s' ∧ objects s' = objects s
}.

Record region_field (obj : Z) (f : field) (r : region) : Prop := {
  rf_type : f_Type f = ACPI_TYPE_LOCAL_REGION_FIELD;
  rf_space : AcpiIsValidSpaceId (SpaceId r) = true;
  rf_valid : r_DATA_VALID r = true;
  rf_size : 0 ≤ r_Length r < W32
}.
Definition region_cont (keeps : Z → S → Prop) (obj : Z) (f : field) (R : Z) (s : S) : Prop := keeps R s ∧ objects s !! obj = Some (OField f).

Lemma setup_region_ok keeps obj f r R s o : LinearRegion (RegionObj f) r keeps → field_ok f → 0 ≤ BaseByteOffset f → region_field obj f r →
  region_cont keeps obj f R s → 0 ≤ o → BaseByteOffset f + o + AccessByteWidth f ≤ r_Length r →
  AcpiExSetupRegion AcpiDsGetRegionArguments AcpiGbl_EnableInterpreterSlack obj o s = Ret AE_OK s.
Proof.
  intros HL [Hw Hst Hn Hsm] Hbase [Ht Hsp Hv Hsz] [HR Hobj] Ho Hs. unfold AcpiExSetupRegion. step (get_field_ok s obj f Hobj).
  pose proof (lr_region R s HR) as Hreg. step (on_objects_load s _ _ Hreg). rewrite Hsp, Hv. cbn [negb]. step (ret_ok AE_OK s).
  change (negb (ok AE_OK)) with false. cbv iota. destruct (_ || _ || _); [done|].
  assert (get_region (RegionObj f) s = Ret r s) as Hgr by (unfold get_region; by step (on_objects_load s _ _ Hreg)). step Hgr.
  rewrite u32_small by lia. by rewrite (proj2 (Z.ltb_ge _ _)) by lia.
Qed.

#[export] Instance region_container fuel keeps obj f r : LinearRegion (RegionObj f) r keeps → field_ok f → (AccessByteWidth f | 8) → 0 ≤ BaseByteOffset f → region_field obj f r →
  Container (datum_io fuel) obj f (r_Length r) (region_cont keeps obj f).
Proof.
  intros HL Hf Hw8 Hbase Hrf. pose proof Hf as [Hw Hst Hn Hsm]. pose proof Hrf as [Ht Hsp Hv Hsz]. split.
  - intros R s [HR Hobj]. by apply get_field_ok.
  - intros R s [HR _]. by eapply lr_nonneg.
  - intros R s o Hc Ho Hs. pose proof Hc as [HR Hobj]. cbn [AcpiExFieldDatumIo]. step (on_objects_load s _ _ Hobj). rewrite Ht. unfold AcpiExAccessRegion.
    step (setup_region_ok keeps obj f r R s o HL Hf Hbase Hrf Hc Ho Hs). change (negb (ok AE_OK)) with false. cbv iota. step (get_field_ok s obj f Hobj).
    rewrite mul8, u32_small by lia. assert (0 ≤ BaseByteOffset f + o) as H0 by lia. assert (1 ≤ AccessByteWidth f ≤ 8) as H1 by lia.
    destruct (lr_read R s obj (BaseByteOffset f + o) (AccessByteWidth f) HR H0 H1 Hw8 Hs) as (s' & E & HR' & Ho').
    exists s'. split; [done|]. split; [done|]. by rewrite Ho'.
  - intros R s o v Hc Ho Hs Hv64. pose proof Hc as [HR Hobj]. cbn [AcpiExFieldDatumIo]. step (on_objects_load s _ _ Hobj). rewrite Ht. unfold AcpiExAccessRegion.
    step (setup_region_ok keeps obj f r R s o HL Hf Hbase Hrf Hc Ho Hs). change (negb (ok AE_OK)) with false. cbv iota. step (get_field_ok s obj f Hobj).
    rewrite mul8, u32_small by lia. cbn [Z.eqb]. assert (0 ≤ BaseByteOffset f + o) as H0 by lia. assert (1 ≤ AccessByteWidth f ≤ 8) as H1 by lia.
    destruct (lr_write R s obj (BaseByteOffset f + o) (AccessByteWidth f) v HR H0 H1 Hw8 Hs Hv64) as (s' & E & HR' & Ho').
    exists s'. split; [done|]. split; [done|]. by rewrite Ho'.
Qed.

(** ** Named fields *)

Abbreviation read_field fuel := (AcpiExReadDataFromField AcpiEvAddressSpaceDispatch AcpiDsGetRegionArguments AcpiDsGetBufferFieldArguments memory_for
  AcpiExAcquireMutexObject AcpiExReleaseMutexObject AcpiGbl_EnableInterpreterSlack AcpiGbl_IntegerByteWidth (Datatypes.S fuel)).
Abbreviation write_field fuel := (AcpiExWriteDataToField AcpiEvAddressSpaceDispatch AcpiDsGetRegionArguments AcpiDsGetBufferFieldArguments memory_for
  AcpiExAcquireMutexObject AcpiExReleaseMutexObject AcpiGbl_EnableInterpreterSlack (Datatypes.S fuel)).

(** The field needs no evaluation, it is not one of the special address spaces,
    there is memory, and the mutex of the global lock is somewhere else. *)
Record plain (obj : Z) (f : field) (cont : Z → S → Prop) : Prop := {
  pl_ready : ∀ P s, cont P s → buffer_field_ready AcpiDsGetBufferFieldArguments obj f s = Ret AE_OK s;
  pl_space : ∃ sp, (∀ P s, cont P s → field_space f s = Ret sp s) ∧ serial_space sp = false ∧ sp ≠ Some ACPI_ADR_SPACE_GPIO;
  pl_memory : ∀ P s k, cont P s → memory_for k s = Ret true s;
  pl_lock : ∀ P s, cont P s → ∃ st s', AcpiExAcquireMutexObject s = Ret st s' ∧ cont P s';
  pl_unlock : ∀ P s, cont P s → ∃ st s', AcpiExReleaseMutexObject s = Ret st s' ∧ cont P s'
}.

(** The bytes of a source, and the object that a value is returned as. *)
Definition source_bytes (o : operand) : option (list Z) :=
  match o with OInteger v => Some (bytes_of 8 v) | OBuffer bs | OString bs => Some bs | _ => None end.
Definition field_value (n v : Z) : operand :=
  if AcpiGbl_IntegerByteWidth <? (n + 7) / 8 then OBuffer (bytes_of (Z.to_nat ((n + 7) / 8)) v) else OInteger v.

Section Access.
Context {fuel : nat} {obj : Z} {f : field} {size : Z} {cont : Z → S → Prop} `{!Container (datum_io fuel) obj f size cont}.
Hypothesis Hf : field_ok f.
Hypothesis Hbase : 0 ≤ BaseByteOffset f.
Hypothesis Hfits : fits f (size := size).
Hypothesis Hplain : plain obj f cont.

Lemma acquire_global_ok P s : cont P s → ∃ s', AcpiExAcquireGlobalLock AcpiExAcquireMutexObject (FieldFlags f) s = Ret tt s' ∧ cont P s'.
Proof.
  intros HP. unfold AcpiExAcquireGlobalLock. destruct (_ =? 0); [by exists s|].
  destruct (pl_lock _ _ _ Hplain P s HP) as (st & s' & E & HP'). exists s'. by step E.
Qed.

Lemma release_global_ok P s : cont P s → ∃ s', AcpiExReleaseGlobalLock AcpiExReleaseMutexObject (FieldFlags f) s = Ret tt s' ∧ cont P s'.
Proof.
  intros HP. unfold AcpiExReleaseGlobalLock. destruct (_ =? 0); [by exists s|].
  destruct (pl_unlock _ _ _ Hplain P s HP) as (st & s' & E & HP'). exists s'. by step E.
Qed.

Lemma write_field_ok P s src B : cont P s → rule_known f → source_bytes src = Some B → are_bytes B → Z.of_nat (length B) < W32 →
  ∃ s' P', write_field fuel src obj s = Ret (AE_OK, None) s' ∧ cont P' s' ∧ ∀ k, 0 ≤ k → Z.testbit P' k = stored f P (le B) k.
Proof.
  intros HP Hrule Hsrc HB Hl. unfold AcpiExWriteDataToField. step (co_field (datum_io fuel) obj f P s HP). step (pl_ready _ _ _ Hplain P s HP).
  change (negb (ok AE_OK)) with false. cbv iota. step (co_field (datum_io fuel) obj f P s HP). destruct (pl_space _ _ _ Hplain) as (sp & Hsp & Hser & Hgpio).
  step (Hsp P s HP). rewrite Hser, bool_decide_false by done. cbv iota. unfold source_bytes in Hsrc. rewrite Hsrc.
  destruct (acquire_global_ok P s HP) as (s1 & E1 & HP1). step E1.
  destruct (container_insert (datum_io fuel) obj f Hf Hbase memory_for P s1 B HP1 Hfits Hrule HB Hl (pl_memory _ _ _ Hplain P s1 _ HP1)) as (s2 & P' & E2 & HP2 & Hb).
  step E2. destruct (release_global_ok P' s2 HP2) as (s3 & E3 & HP3). step E3. by exists s3, P'.
Qed.

Lemma read_field_ok P s : cont P s → 4 ≤ AcpiGbl_IntegerByteWidth ≤ 8 →
  ∃ s', read_field fuel obj s = Ret (AE_OK, Some (field_value (BitLength f) (bits_get P (8 * BaseByteOffset f + StartFieldBitOffset f) (BitLength f)))) s' ∧ cont P s'.
Proof.
  intros HP Hwidth. pose proof Hf as [Hw Hst Hn Hsm]. pose proof (round_bits f Hf) as [Hrb Hrb'].
  unfold AcpiExReadDataFromField. step (co_field (datum_io fuel) obj f P s HP). step (pl_ready _ _ _ Hplain P s HP).
  change (negb (ok AE_OK)) with false. cbv iota. step (co_field (datum_io fuel) obj f P s HP). destruct (pl_space _ _ _ Hplain) as (sp & Hsp & Hser & Hgpio).
  step (Hsp P s HP). rewrite Hser, bool_decide_false by done. cbv iota. rewrite Hrb. step (pl_memory _ _ _ Hplain P s ((BitLength f + 7) / 8) HP). cbn [negb].
  destruct (acquire_global_ok P s HP) as (s1 & E1 & HP1). step E1. unfold field_value. set (v := bits_get _ _ _).
  assert (0 ≤ v < 2 ^ BitLength f) as Hv by (by apply bits_get_nonneg; lia).
  destruct (Z.ltb_spec AcpiGbl_IntegerByteWidth ((BitLength f + 7) / 8)) as [Hlt|Hge].
  all: match goal with |- context [replicate ?k 0] => destruct (container_extract (datum_io fuel) obj f Hf Hbase P s1 (replicate k 0) HP1 Hfits
      ltac:(rewrite length_replicate; lia) ltac:(rewrite length_replicate; lia)) as (s1' & Ex & HP1') end; rewrite (bind_ret _ _ _ _ _ Ex);
    cbv beta iota; destruct (release_global_ok P s1' HP1') as (s2 & E2 & HP2); step E2; exists s2; (split; [|done]); change (ok AE_OK) with true; cbv iota; fold v; rewrite length_replicate.
  - done.
  - rewrite le_bytes_of. rewrite Z.mod_small; [done|]. split; [lia|]. eapply Z.lt_le_trans; [apply Hv|]. apply Z.pow_le_mono_r; lia.
Qed.
End Access.

(** The mutex of the global lock is not part of a region or of its fields. *)
Definition lock_apart (keeps : Z → S → Prop) : Prop := ∀ R s, keeps R s →
  (∃ st s', AcpiExAcquireMutexObject s = Ret st s' ∧ keeps R s' ∧ objects s' = objects s) ∧
  (∃ st s', AcpiExReleaseMutexObject s = Ret st s' ∧ keeps R s' ∧ objects s' = objects s).

Lemma region_plain keeps obj f r : LinearRegion (RegionObj f) r keeps → region_field obj f r →
  SpaceId r ∉ [ACPI_ADR_SPACE_SMBUS; ACPI_ADR_SPACE_GSBUS; ACPI_ADR_SPACE_IPMI; ACPI_ADR_SPACE_GPIO] →
  (∀ R s k, keeps R s → memory_for k s = Ret true s) → lock_apart keeps → plain obj f (region_cont keeps obj f).
Proof.
  intros HL Hrf Hsp Hmem Hlock. pose proof (rf_type _ _ _ Hrf) as Hty. split.
  - intros P s _. unfold buffer_field_ready. by rewrite decide_False by (by rewrite Hty).
  - exists (Some (SpaceId r)). split_and!.
    + intros P s [HP _]. unfold field_space. rewrite decide_True by done. unfold get_region. by step (on_objects_load s _ _ (lr_region P s HP)).
    + cbn. rewrite !not_elem_of_cons in Hsp. destruct Hsp as (H1 & H2 & H3 & _). apply Z.eqb_neq in H1, H2, H3. by rewrite H1, H2, H3.
    + intros [= Hg]. rewrite Hg in Hsp. set_solver.
  - intros P s k [HP _]. by eapply Hmem.
  - intros P s [HP Ho]. destruct (Hlock P s HP) as [(st & s' & E & HP' & Ho') _]. exists st, s'. split; [done|]. split; [done|]. by rewrite Ho'.
  - intros P s [HP Ho]. destruct (Hlock P s HP) as [_ (st & s' & E & HP' & Ho')]. exists st, s'. split; [done|]. split; [done|]. by rewrite Ho'.
Qed.

(** C32: a field that was written reads as what was stored.  For every
    container of bytes and every field in it, of an access width of 1 to 8
    bytes and at any position, that has at least one bit and whose last datum
    lies inside the container: if the field is not in a serial or GPIO space,
    buffers can be allocated, the global lock leaves the container alone and the
    update rule is one of the three defined ones, AcpiExWriteDataToField of an
    integer, buffer or string shorter than 4 GB succeeds, the bits of the field are then those of the
    source, a short source being filled up with zeros, the other bits of the
    datums are as the update rule of the field says and all others as before,
    and AcpiExReadDataFromField returns the field's bits of the source, as an
    integer if they fit into one.  (A field of no bits behaves differently: see
    [zero_length_field].) *)
Theorem field_write_read fuel obj f size cont P s src B : Container (datum_io fuel) obj f size cont → field_ok f → 0 ≤ BaseByteOffset f →
  fits f (size := size) → plain obj f cont → rule_known f → 4 ≤ AcpiGbl_IntegerByteWidth ≤ 8 →
  cont P s → source_bytes src = Some B → are_bytes B → Z.of_nat (length B) < W32 →
  ∃ s1 P1 s2, write_field fuel src obj s = Ret (AE_OK, None) s1 ∧ cont P1 s1 ∧ (∀ k, 0 ≤ k → Z.testbit P1 k = stored f P (le B) k) ∧
    read_field fuel obj s1 = Ret (AE_OK, Some (field_value (BitLength f) (bits_get (le B) 0 (BitLength f)))) s2 ∧ cont P1 s2.
Proof.
  intros HC Hf Hbase Hfits Hplain Hrule Hwidth HP Hsrc HB Hl.
  destruct (write_field_ok Hf Hbase Hfits Hplain P s src B HP Hrule Hsrc HB Hl) as (s1 & P1 & E1 & HP1 & Hb).
  destruct (read_field_ok Hf Hbase Hfits Hplain P1 s1 HP1 Hwidth) as (s2 & E2 & HP2).
  exists s1, P1, s2. rewrite <- (stored_read f Hf Hbase P P1 (le B) Hb). by split_and!.
Qed.

(** A layout with a width that divides the length of the region. *)
Lemma layout_fits f size p : field_ok f → 0 ≤ BaseByteOffset f → 8 * BaseByteOffset f + StartFieldBitOffset f = p →
  (AccessByteWidth f | BaseByteOffset f) → (AccessByteWidth f | size) → p + BitLength f ≤ 8 * size → fits f (size := size).
Proof.
  intros Hf Hbase Hp [a Ha] [b Hb] Hn. pose proof Hf as [Hw Hst Hn0 Hsm]. pose proof (datums_bounds f Hf) as (_ & _ & _ & Hd). unfold fits.
  set (w := AccessByteWidth f) in *. set (d := field_datums f) in *. rewrite Ha, Hb in *.
  assert ((a + d - 1) * w < b * w) as Hlt by lia. apply Z.mul_lt_mono_pos_r in Hlt; [|lia].
  pose proof (Z.mul_le_mono_nonneg_r (a + d) b w ltac:(lia) ltac:(lia)). lia.
Qed.

(** A field of an operation region is the bits it was declared as.  A field
    that AcpiExPrepCommonFieldObject lays out at bit [p] of a region, [n] bits
    long, with any access type and the update rule Preserve, holds the bits [p]
    to [p + n - 1] of the region: AcpiExReadDataFromField returns them, and
    AcpiExWriteDataToField replaces them by those of the source and changes no
    other bit of the region. *)
Lemma region_field_access fuel obj f r keeps R s flags attribute p n src B :
  LinearRegion (RegionObj f) r keeps → region_field obj f r → keeps R s → objects s !! obj = Some (OField f) →
  (∀ R s o, keeps R s → keeps R (IState (<[obj := OField o]> (objects s)) (outside s))) →
  SpaceId r ∉ [ACPI_ADR_SPACE_SMBUS; ACPI_ADR_SPACE_GSBUS; ACPI_ADR_SPACE_IPMI; ACPI_ADR_SPACE_GPIO] →
  (∀ R s k, keeps R s → memory_for k s = Ret true s) → lock_apart keeps →
  access_known flags → Z.land flags AML_FIELD_UPDATE_RULE_MASK = AML_FIELD_UPDATE_PRESERVE → (8 | r_Length r) →
  0 ≤ p → 0 < n → p + n ≤ 8 * r_Length r → p + n + 128 < W32 →
  4 ≤ AcpiGbl_IntegerByteWidth ≤ 8 → source_bytes src = Some B → are_bytes B → Z.of_nat (length B) < W32 →
  ∃ s1, AcpiExPrepCommonFieldObject obj flags attribute p n s = Ret AE_OK s1 ∧ keeps R s1 ∧
    (∃ s', read_field fuel obj s1 = Ret (AE_OK, Some (field_value n (bits_get R p n))) s' ∧ keeps R s') ∧
    ∃ s2, write_field fuel src obj s1 = Ret (AE_OK, None) s2 ∧ keeps (bits_set R p n (le B)) s2.
Proof.
  intros HL Hrf HR Hobj Hkeep Hsp Hmem Hlock Hacc Hrule Hdiv Hp Hn Hfit Hsm Hwidth Hsrc HB Hl.
  destruct (prep_layout s obj f flags attribute p n Hobj Hacc Hp Hn Hsm)
    as (f' & E & Hf & Hpos & Hlen & Hfl & Hbase & Hty & Hval & Hreg & Hbuf & Hal & Hw8).
  assert (region_field obj f' r) as Hrf' by (destruct Hrf; split; congruence).
  assert (LinearRegion (RegionObj f') r keeps) as HL' by (by rewrite Hreg).
  assert (fits f' (size := r_Length r)) as Hfits.
  { apply (layout_fits f' _ p); try done; [apply Hal; by rewrite (rf_type _ _ _ Hrf)|by etrans|lia]. }
  assert (plain obj f' (region_cont keeps obj f')) as Hplain.
  { by apply (region_plain _ _ _ r). }
  set (s1 := IState (<[obj := OField f']> (objects s)) (outside s)) in *. exists s1. split; [done|].
  assert (region_cont keeps obj f' R s1) as HR1 by (split; [by apply Hkeep|apply lookup_insert_eq]).
  pose proof (region_container fuel keeps obj f' r HL' Hf Hw8 Hbase Hrf') as HC. split; [apply HR1|]. split.
  - destruct (read_field_ok Hf Hbase Hfits Hplain R s1 HR1 Hwidth) as (s' & E' & [HR' _]). rewrite Hlen, Hpos in E'. by exists s'.
  - assert (rule_known f') as Hrule' by (left; by rewrite Hfl).
    destruct (write_field_ok Hf Hbase Hfits Hplain R s1 src B HR1 Hrule' Hsrc HB Hl) as (s2 & P2 & E2 & [HP2 _] & Hb).
    exists s2. split; [done|]. rewrite (stored_preserves f' Hf Hbase R P2 (le B)) in HP2 by (done || by rewrite Hfl). by rewrite Hpos, Hlen in HP2.
Qed.
End Named.

(** ** Examples *)

(** A field of 12 bits at bit 5 of a buffer of 4 bytes, accessed by bytes. *)
Definition ex_field : field := Field ACPI_TYPE_BUFFER_FIELD true 33 0 1 12 0 0 5 0 0 0 0 0 2 0 0 0.
Definition ex_state : acpi_state unit := IState {[1 := OField ex_field; 2 := OBuffer [255; 255; 255; 255]]} tt.
Definition ex_dispatch (rp obj function offset width v : Z) : M (acpi_state unit) (ACPI_STATUS * Z) := mret (AE_NOT_EXIST, 0).
Definition ex_arguments (obj : Z) : M (acpi_state unit) ACPI_STATUS := mret AE_NOT_EXIST.
Definition ex_memory {W} (n : Z) : M (acpi_state W) bool := mret true.
Definition ex_mutex {W} : M (acpi_state W) ACPI_STATUS := mret AE_OK.

Lemma ex_field_ok : field_ok ex_field.
Proof. split; cbn; lia. Qed.
Lemma ex_buffer_field : buffer_field ex_state 1 ex_field 4.
Proof. by split. Qed.
Lemma ex_plain : plain ex_arguments ex_memory ex_mutex ex_mutex 1 ex_field (buffer_cont ex_state ex_field 4).
Proof.
  split; try done; [by exists None|..]; intros P s HP; exists AE_OK, s; by split.
Qed.

Lemma field_write_read_witness : ∃ s1 P1 s2,
  AcpiExWriteDataToField ex_dispatch ex_arguments ex_arguments ex_memory ex_mutex ex_mutex false 1 (OInteger 2748) 1 ex_state = Ret (AE_OK, None) s1 ∧
  buffer_cont ex_state ex_field 4 P1 s1 ∧ (∀ k, 0 ≤ k → Z.testbit P1 k = stored ex_field (2 ^ 32 - 1) 2748 k) ∧
  AcpiExReadDataFromField ex_dispatch ex_arguments ex_arguments ex_memory ex_mutex ex_mutex false 8 1 1 s1 = Ret (AE_OK, Some (OInteger 2748)) s2 ∧
  buffer_cont ex_state ex_field 4 P1 s2.
Proof.
  refine (field_write_read ex_dispatch ex_arguments ex_arguments ex_memory ex_mutex ex_mutex false 8 0 1 ex_field 4 (buffer_cont ex_state ex_field 4)
    (2 ^ 32 - 1) ex_state (OInteger 2748) (bytes_of 8 2748) _ ex_field_ok _ _ ex_plain _ _ _ _ _ _).
  - apply (buffer_container _ _ _ _ _ 0 ex_state 1 ex_field 4 ex_field_ok); [cbn; lia|apply ex_buffer_field].
  - cbn; lia.
  - vm_compute. discriminate.
  - right; left. reflexivity.
  - lia.
  - split; [lia|]. reflexivity.
  - reflexivity.
  - apply bytes_of_bytes.
  - vm_compute. reflexivity.
Defined.

(** A region of 16 bytes of system memory whose handler keeps them in a number. *)
Definition ex_region : region := Region true true 0 0 0 4096 16.
Definition ex_bytes (rp obj function offset width v : Z) : M (acpi_state Z) (ACPI_STATUS * Z) := λ s,
  if function =? ACPI_READ then Ret (AE_OK, bits_get (outside s) (8 * offset) width) s
  else Ret (AE_OK, v) (IState (objects s) (bits_set (outside s) (8 * offset) width v)).
Definition ex_no_arguments (obj : Z) : M (acpi_state Z) ACPI_STATUS := mret AE_NOT_EXIST.
Definition ex_unit : field := Field ACPI_TYPE_LOCAL_REGION_FIELD true 0 0 0 0 0 0 0 0 2 0 0 0 0 0 0 0.
Definition ex_regions : acpi_state Z := IState {[1 := OField ex_unit; 2 := ORegion ex_region]} (2 ^ 128 - 1).
Definition ex_keeps (R : Z) (s : acpi_state Z) : Prop := 0 ≤ R ∧ outside s = R ∧ objects s !! 2 = Some (ORegion ex_region).

#[export] Instance ex_linear : LinearRegion ex_bytes 2 ex_region ex_keeps.
Proof.
  split.
  - by intros R s (_ & _ & H).
  - by intros R s (H & _).
  - intros R s obj o w (HR & <- & Ho) _ _ _ _. by exists s.
  - intros R s obj o w v (HR & <- & Ho) H0 Hw _ _ _. eexists. split; [done|]. split; [|done]. split; [apply bits_set_nonneg; lia|done].
Qed.

Example region_field_example : ∃ s1, AcpiExPrepCommonFieldObject 1 19 0 37 20 ex_regions = Ret AE_OK s1 ∧ ex_keeps (2 ^ 128 - 1) s1 ∧
  (∃ s', AcpiExReadDataFromField ex_bytes ex_no_arguments ex_no_arguments ex_memory ex_mutex ex_mutex false 8 1 1 s1 =
    Ret (AE_OK, Some (OInteger (2 ^ 20 - 1))) s' ∧ ex_keeps (2 ^ 128 - 1) s') ∧
  ∃ s2, AcpiExWriteDataToField ex_bytes ex_no_arguments ex_no_arguments ex_memory ex_mutex ex_mutex false 1 (OInteger 5) 1 s1 = Ret (AE_OK, None) s2 ∧
    ex_keeps (2 ^ 128 - 1 - 2 ^ 57 + 2 ^ 37 + 2 ^ 37 * 5) s2.
Proof.
  refine (region_field_access ex_bytes ex_no_arguments ex_no_arguments ex_memory ex_mutex ex_mutex false 8 0 1 ex_unit ex_region ex_keeps
    (2 ^ 128 - 1) ex_regions 19 0 37 20 (OInteger 5) (bytes_of 8 5) _ _ _ _ _ _ _ _ _ _ _ _ _ _ _ _ _ _ _).
  all: cbn; try lia; try done.
  - intros R s o (HR & Ho & Hr). by split_and!; [..|cbn; rewrite lookup_insert_ne].
  - set_solver.
  - intros R s HR. split; exists AE_OK, s; by split_and!.
  - by exists 2.
  - by apply (bytes_of_bytes 8 5).
Defined.

(** A field of no bits reads as the first byte of its region, and a write to it
    replaces that byte. *)
Example zero_length_field :
  (AcpiExPrepCommonFieldObject 1 1 0 8 0;;
   v ← AcpiExReadDataFromField ex_bytes ex_no_arguments ex_no_arguments ex_memory ex_mutex ex_mutex false 8 1 1;
   AcpiExWriteDataToField ex_bytes ex_no_arguments ex_no_arguments ex_memory ex_mutex ex_mutex false 1 (OInteger 0) 1;;
   s ← get; mret (v, outside s)) ex_regions =
  match AcpiExPrepCommonFieldObject 1 1 0 8 0 ex_regions with
  | Ret _ s1 => Ret ((AE_OK, Some (OInteger 255)), 2 ^ 128 - 1 - 255 * 256) (IState (objects s1) (2 ^ 128 - 1 - 255 * 256))
  | _ => Fault
  end.
Proof. vm_compute. reflexivity. Qed.
