(* ===== verification/AcpiOwner.v ===== *)
(** * ACPICA: owner IDs and the mutexes around them

    libs/acpica/source/components/utilities: the mutex functions of utmutex.c
    on top of the kernel's OS layer (kernel/ia32/acpica_osl.c), and utownerid.c,
    which hands out the IDs of tables and methods from a bit mask of 256 bits.
    The theorems relate the mask, the index and the offset of the search to the
    set of IDs in use. *)

From stdpp Require Import base numbers list gmap sets.
From S2P Require Import Prelude AcpiUtil.

Record ACPI_MUTEX_INFO := { Mutex : Z; UseCount : Z; ThreadId : Z }.

(** The global variables of acglobal.h these functions use. *)
Record globals := {
  AcpiGbl_MutexInfo : list ACPI_MUTEX_INFO;
  AcpiGbl_OwnerIdMask : list Z;
  AcpiGbl_LastOwnerIdIndex : Z;
  AcpiGbl_NextOwnerIdOffset : Z;
}.

Abbreviation ACPI_NUM_OWNERID_MASKS := 8 (only parsing).
Abbreviation ACPI_MAX_MUTEX := 7 (only parsing).
Abbreviation ACPI_MTX_CACHES := 4 (only parsing).
Abbreviation ACPI_MUTEX_NOT_ACQUIRED := 18446744073709551615 (only parsing).

(** The part of AcpiUtInitGlobals that sets these variables. *)
Definition AcpiUtInitGlobals : globals :=
  {| AcpiGbl_MutexInfo :=
       replicate 8 {| Mutex := NULL; ThreadId := ACPI_MUTEX_NOT_ACQUIRED; UseCount := 0 |};
     AcpiGbl_OwnerIdMask := <[7%nat := 2147483648]> (replicate 8 0);
     AcpiGbl_LastOwnerIdIndex := 0;
     AcpiGbl_NextOwnerIdOffset := 0 |}.

Definition set_mutexes (l : list ACPI_MUTEX_INFO) (g : globals) : globals :=
  {| AcpiGbl_MutexInfo := l; AcpiGbl_OwnerIdMask := AcpiGbl_OwnerIdMask g;
     AcpiGbl_LastOwnerIdIndex := AcpiGbl_LastOwnerIdIndex g;
     AcpiGbl_NextOwnerIdOffset := AcpiGbl_NextOwnerIdOffset g |}.

Definition set_masks (l : list Z) (g : globals) : globals :=
  {| AcpiGbl_MutexInfo := AcpiGbl_MutexInfo g; AcpiGbl_OwnerIdMask := l;
     AcpiGbl_LastOwnerIdIndex := AcpiGbl_LastOwnerIdIndex g;
     AcpiGbl_NextOwnerIdOffset := AcpiGbl_NextOwnerIdOffset g |}.

Definition set_next (index offset : Z) (g : globals) : globals :=
  {| AcpiGbl_MutexInfo := AcpiGbl_MutexInfo g; AcpiGbl_OwnerIdMask := AcpiGbl_OwnerIdMask g;
     AcpiGbl_LastOwnerIdIndex := index; AcpiGbl_NextOwnerIdOffset := offset |}.

(** Reading an array at an index that is out of range is a fault. *)
Definition index {S A} (l : list A) (i : Z) : M S A :=
  match l !! Z.to_nat i with
  | Some a => if 0 <=? i then mret a else fault
  | None => fault
  end.

(** ** Mutexes *)

(** The kernel's OS layer does not implement mutexes: acquiring one succeeds. *)
Definition AcpiOsGetThreadId : Z := 1.
Definition AcpiOsAcquireMutex (mutex timeout_millis : Z) : ACPI_STATUS := AE_OK.

Definition AcpiUtAcquireMutex (MutexId : Z) : M globals ACPI_STATUS :=
  if ACPI_MAX_MUTEX <? MutexId then mret AE_BAD_PARAMETER else
  g ← get;
  info ← index (AcpiGbl_MutexInfo g) MutexId;
  let Status := AcpiOsAcquireMutex (Mutex info) 65535 in
  (if decide (Status = AE_OK) then
     put (set_mutexes (<[Z.to_nat MutexId :=
       {| Mutex := Mutex info; UseCount := u32 (UseCount info + 1); ThreadId := AcpiOsGetThreadId |}]>
       (AcpiGbl_MutexInfo g)) g)
   else mret tt);;
  mret Status.

Definition AcpiUtReleaseMutex (MutexId : Z) : M globals ACPI_STATUS :=
  if ACPI_MAX_MUTEX <? MutexId then mret AE_BAD_PARAMETER else
  g ← get;
  info ← index (AcpiGbl_MutexInfo g) MutexId;
  if ThreadId info =? ACPI_MUTEX_NOT_ACQUIRED then mret AE_NOT_ACQUIRED else
  put (set_mutexes (<[Z.to_nat MutexId :=
    {| Mutex := Mutex info; UseCount := UseCount info; ThreadId := ACPI_MUTEX_NOT_ACQUIRED |}]>
    (AcpiGbl_MutexInfo g)) g);;
  mret AE_OK.

(** ** Owner IDs *)

(** [for (k = AcpiGbl_NextOwnerIdOffset; k < 32; k++)] over one mask, with the
    iterations that are left: the first bit that is clear. *)
Fixpoint scan_bits (n : nat) (mask k : Z) : option Z :=
  match n with
  | O => None
  | S n =>
      if mask =? W32 - 1 then None
      else if Z.land mask (u32 (Z.shiftl 1 k)) =? 0 then Some k
      else scan_bits n mask (k + 1)
  end.

(** The loop over the masks, with the iterations that are left. *)
Fixpoint allocate_loop (i : nat) (j : Z) : M globals (option Z) :=
  match i with
  | O => mret None
  | S i =>
      let j := if ACPI_NUM_OWNERID_MASKS <=? j then 0 else j in
      g ← get;
      mask ← index (AcpiGbl_OwnerIdMask g) j;
      match scan_bits (Z.to_nat (32 - AcpiGbl_NextOwnerIdOffset g)) mask (AcpiGbl_NextOwnerIdOffset g) with
      | Some k =>
          modify (set_masks (<[Z.to_nat j := Z.lor mask (u32 (Z.shiftl 1 k))]> (AcpiGbl_OwnerIdMask g)));;
          modify (set_next (u8 j) (u8 (k + 1)));;
          mret (Some (u8 (k + 1 + Z.shiftl j 5)))
      | None =>
          modify (λ g, set_next (AcpiGbl_LastOwnerIdIndex g) 0 g);;
          allocate_loop i (j + 1)
      end
  end.

(** The argument is the value of the ID the caller passes a pointer to, and the
    result its new value. *)
Definition AcpiUtAllocateOwnerId (OwnerId : Z) : M globals (ACPI_STATUS * Z) :=
  if negb (OwnerId =? 0) then mret (AE_ALREADY_EXISTS, OwnerId) else
  Status ← AcpiUtAcquireMutex ACPI_MTX_CACHES;
  if decide (Status ≠ AE_OK) then mret (Status, OwnerId) else
  g ← get;
  found ← allocate_loop 9 (AcpiGbl_LastOwnerIdIndex g);
  let res := match found with Some id => (AE_OK, id) | None => (AE_OWNER_ID_LIMIT, OwnerId) end in
  AcpiUtReleaseMutex ACPI_MTX_CACHES;;
  mret res.

Definition AcpiUtReleaseOwnerId (OwnerIdPtr : Z) : M globals Z :=
  let OwnerId := OwnerIdPtr in
  if OwnerId =? 0 then mret 0 else
  Status ← AcpiUtAcquireMutex ACPI_MTX_CACHES;
  if decide (Status ≠ AE_OK) then mret 0 else
  let OwnerId := u8 (OwnerId - 1) in
  let Index := Z.shiftr OwnerId 5 in
  let Bit := u32 (Z.shiftl 1 (Z.land OwnerId 31)) in
  g ← get;
  mask ← index (AcpiGbl_OwnerIdMask g) Index;
  (if negb (Z.land mask Bit =? 0)
   then put (set_masks (<[Z.to_nat Index := Z.lxor mask Bit]> (AcpiGbl_OwnerIdMask g)) g)
   else mret tt);;
  AcpiUtReleaseMutex ACPI_MTX_CACHES;;
  mret 0.

(** ** IDs in use *)

Implicit Types g : globals.

(** An ID in use: bit [(id - 1) mod 32] of mask [(id - 1) / 32] is set. *)
Definition in_use g (id : Z) : Prop :=
  1 ≤ id ≤ 256 ∧
  ∃ m, AcpiGbl_OwnerIdMask g !! Z.to_nat ((id - 1) / 32) = Some m ∧ Z.testbit m ((id - 1) mod 32) = true.

(** ID 256, which does not fit into a byte, is marked as in use for ever. *)
Definition owner_ok g : Prop :=
  length (AcpiGbl_OwnerIdMask g) = 8%nat ∧ Forall (λ m, 0 ≤ m < W32) (AcpiGbl_OwnerIdMask g) ∧
  0 ≤ AcpiGbl_LastOwnerIdIndex g < 8 ∧ 0 ≤ AcpiGbl_NextOwnerIdOffset g ≤ 32 ∧ in_use g 256.

(** No thread has the mutex of the masks. *)
Definition caches_free g : Prop :=
  length (AcpiGbl_MutexInfo g) = 8%nat ∧
  ∃ info, AcpiGbl_MutexInfo g !! 4%nat = Some info ∧ ThreadId info = ACPI_MUTEX_NOT_ACQUIRED.

Lemma index_ok {S A} (l : list A) i a (s : S) : 0 ≤ i → l !! Z.to_nat i = Some a → index l i s = Ret a s.
Proof. intros Hi E. unfold index. rewrite E, (proj2 (Z.leb_le 0 i)) by done. done. Qed.

Lemma bit_word k : 0 ≤ k < 32 → u32 (Z.shiftl 1 k) = 2 ^ k.
Proof.
  intros Hk. rewrite Z.shiftl_1_l, u32_small; [done|]. split; [lia|]. change W32 with (2 ^ 32).
  apply Z.pow_lt_mono_r; lia.
Qed.

Lemma land_bit m k : 0 ≤ k → (Z.land m (2 ^ k) =? 0) = negb (Z.testbit m k).
Proof.
  intros Hk. destruct (Z.testbit m k) eqn:E; simpl.
  - apply Z.eqb_neq. intros H. apply (f_equal (λ z, Z.testbit z k)) in H.
    rewrite Z.land_spec, E, Z.pow2_bits_true, Z.bits_0 in H by done. done.
  - apply Z.eqb_eq. apply Z.bits_inj'. intros i Hi. rewrite Z.land_spec, Z.bits_0.
    destruct (decide (i = k)) as [-> |]; [by rewrite E|]. rewrite Z.pow2_bits_false by lia. apply andb_false_r.
Qed.

Lemma full_bits m k : m = W32 - 1 → 0 ≤ k < 32 → Z.testbit m k = true.
Proof. intros -> Hk. change (W32 - 1) with (Z.ones 32). apply Z.ones_spec_low. lia. Qed.

Lemma scan_bits_spec n m k :
  0 ≤ k → k + Z.of_nat n = 32 →
  match scan_bits n m k with
  | Some x => k ≤ x < 32 ∧ Z.testbit m x = false
  | None => ∀ x, k ≤ x < 32 → Z.testbit m x = true
  end.
Proof.
  revert k. induction n as [|n IH]; intros k Hk Hn; cbn [scan_bits]; [lia|].
  destruct (Z.eqb_spec m (W32 - 1)) as [Hf|_]; [intros x Hx; apply full_bits; [done|lia]|].
  rewrite bit_word, land_bit by lia. destruct (Z.testbit m k) eqn:E; simpl; [|split; [lia|done]].
  specialize (IH (k + 1) ltac:(lia) ltac:(lia)). destruct (scan_bits n m (k + 1)) as [x|]; [destruct IH; split; [lia|done]|].
  intros x Hx. destruct (decide (x = k)) as [-> |]; [done|]. apply IH. lia.
Qed.

(** The mutex is taken around the search and free again afterwards. *)
Lemma acquire_caches g : caches_free g →
  ∃ ms, AcpiUtAcquireMutex ACPI_MTX_CACHES g = Ret AE_OK (set_mutexes ms g) ∧
        length ms = 8%nat ∧ ∃ info, ms !! 4%nat = Some info ∧ ThreadId info = 1.
Proof.
  intros (Hl & info & E & _). unfold AcpiUtAcquireMutex. change (7 <? 4) with false. cbv iota. rewrite bind_get.
  rewrite (bind_ret _ _ _ _ _ (index_ok _ 4 _ g ltac:(lia) E)). rewrite decide_True by done.
  eexists. split; [reflexivity|]. split; [by rewrite length_insert|].
  eexists. split; [apply list_lookup_insert_eq; lia|]. done.
Qed.

Lemma release_caches g ms :
  length ms = 8%nat → AcpiGbl_MutexInfo g = ms → (∃ info, ms !! 4%nat = Some info ∧ ThreadId info = 1) →
  ∃ ms', AcpiUtReleaseMutex ACPI_MTX_CACHES g = Ret AE_OK (set_mutexes ms' g) ∧ caches_free (set_mutexes ms' g).
Proof.
  intros Hl Hms (info & E & Ht). unfold AcpiUtReleaseMutex. change (7 <? 4) with false. cbv iota. rewrite bind_get. rewrite Hms.
  rewrite (bind_ret _ _ _ _ _ (index_ok _ 4 _ g ltac:(lia) E)). rewrite Ht. cbn [Z.eqb Pos.eqb].
  eexists. split; [reflexivity|]. split; [simpl; by rewrite length_insert|].
  eexists. simpl. split; [apply list_lookup_insert_eq; lia|]. done.
Qed.

(** What the search leaves: the next ID, or that there is none. *)
Definition searched g (res : option Z) g' : Prop :=
  AcpiGbl_MutexInfo g' = AcpiGbl_MutexInfo g ∧ owner_ok g' ∧
  match res with
  | Some id => 1 ≤ id ≤ 255 ∧ ¬ in_use g id ∧ ∀ x, in_use g' x ↔ x = id ∨ in_use g x
  | None => AcpiGbl_OwnerIdMask g' = AcpiGbl_OwnerIdMask g
  end.

Lemma in_use_masks g g' x : AcpiGbl_OwnerIdMask g' = AcpiGbl_OwnerIdMask g → in_use g' x ↔ in_use g x.
Proof. intros E. unfold in_use. by rewrite E. Qed.

(** Setting bit [k] of mask [j] puts one ID into use. *)
Lemma in_use_insert g ms j k m m' x :
  AcpiGbl_OwnerIdMask g !! Z.to_nat j = Some m → 0 ≤ j → 0 ≤ k < 32 → ms = <[Z.to_nat j := m']> (AcpiGbl_OwnerIdMask g) →
  j * 32 + k + 1 ≤ 256 →
  (∀ i, 0 ≤ i → i ≠ k → Z.testbit m' i = Z.testbit m i) →
  in_use (set_masks ms g) x ↔
    if decide (x = j * 32 + k + 1) then Z.testbit m' k = true else in_use g x.
Proof.
  intros Em Hj Hk -> Hb Hm. unfold in_use. simpl.
  assert ((Z.to_nat j < length (AcpiGbl_OwnerIdMask g))%nat) as Hlt by (by apply lookup_lt_Some in Em).
  destruct (decide (x = j * 32 + k + 1)) as [-> |Hx].
  - replace (j * 32 + k + 1 - 1) with (k + j * 32) by lia. rewrite Z.div_add, Z.mod_add, Z.div_small, Z.mod_small by lia.
    rewrite Z.add_0_l, list_lookup_insert_eq by done. split; [intros [_ (? & [= <-] & ?)]; done|].
    intros H. split; [lia|]. eauto.
  - destruct (decide ((x - 1) / 32 = j)) as [<- |Hne].
    + rewrite list_lookup_insert_eq by done. rewrite Em.
      pose proof (Z.div_mod (x - 1) 32 ltac:(lia)). pose proof (Z.mod_pos_bound (x - 1) 32 ltac:(lia)).
      split; intros [Hr (? & [= <-] & Ht)]; (split; [done|]); eexists; (split; [done|]).
      * rewrite <- Hm; [done|lia|lia].
      * rewrite Hm; [done|lia|lia].
    + split; intros [Hr (m0 & E & Ht)]; (split; [done|]); exists m0; (split; [|done]);
        [rewrite list_lookup_insert_ne in E|rewrite list_lookup_insert_ne]; try done;
        pose proof (Z.div_pos (x - 1) 32 ltac:(lia) ltac:(lia)); lia.
Qed.

Lemma searched_next g l o res g' : searched (set_next l o g) res g' → searched g res g'.
Proof. done. Qed.

Lemma owner_ok_next g l o : owner_ok g → 0 ≤ l < 8 → 0 ≤ o ≤ 32 → owner_ok (set_next l o g).
Proof. unfold owner_ok, set_next, in_use. simpl. tauto. Qed.

Lemma masks_range g j m : owner_ok g → AcpiGbl_OwnerIdMask g !! j = Some m → 0 ≤ m < W32.
Proof. intros (_ & H & _) E. exact (Forall_lookup_1 _ _ _ _ H E). Qed.

Lemma mask_at g j : owner_ok g → 0 ≤ j < 8 → ∃ m, AcpiGbl_OwnerIdMask g !! Z.to_nat j = Some m.
Proof. intros (H & _) Hj. apply lookup_lt_is_Some. lia. Qed.

(** Taking the free bit [k] of mask [j]. *)
Lemma searched_found g j k m :
  owner_ok g → 0 ≤ j < 8 → AcpiGbl_OwnerIdMask g !! Z.to_nat j = Some m → 0 ≤ k < 32 → Z.testbit m k = false →
  searched g (Some (u8 (k + 1 + Z.shiftl j 5)))
    (set_next (u8 j) (u8 (k + 1))
       (set_masks (<[Z.to_nat j := Z.lor m (u32 (Z.shiftl 1 k))]> (AcpiGbl_OwnerIdMask g)) g)).
Proof.
  intros Hok Hj Em Hk Hb. pose proof (masks_range _ _ _ Hok Em) as Hm. destruct Hok as (Hl & Hf & Hi & Ho & H256).
  rewrite Z.shiftl_mul_pow2, bit_word by lia. change (2 ^ 5) with 32.
  assert (¬ (j = 7 ∧ k = 31)) as Hlast.
  { intros [-> ->]. destruct H256 as [_ (m' & E & Ht)]. change ((256 - 1) / 32) with 7 in E.
    change ((256 - 1) mod 32) with 31 in Ht. congruence. }
  assert (u8 (k + 1 + j * 32) = j * 32 + k + 1) as -> by (unfold u8; rewrite Z.mod_small; lia).
  assert (∀ x, in_use (set_masks (<[Z.to_nat j := Z.lor m (2 ^ k)]> (AcpiGbl_OwnerIdMask g)) g) x ↔
    if decide (x = j * 32 + k + 1) then Z.testbit (Z.lor m (2 ^ k)) k = true else in_use g x) as Hin.
  { intros x. eapply in_use_insert; [done|lia|lia|done|lia|]. intros i Hi0 Hik.
    rewrite Z.lor_spec, Z.pow2_bits_false, orb_false_r by lia. done. }
  split; [done|]. split.
  - apply owner_ok_next; [|unfold u8; rewrite Z.mod_small; lia|unfold u8; rewrite Z.mod_small; lia].
    split; [simpl; by rewrite length_insert|]. split; [simpl; apply Forall_insert; [done|]|].
    { pose proof (Z.lor_nonneg m (2 ^ k)). split; [lia|].
      change W32 with (2 ^ 32) in *. destruct (decide (Z.lor m (2 ^ k) = 0)) as [->|]; [lia|].
      apply Z.log2_lt_pow2; [lia|]. rewrite Z.log2_lor by lia. rewrite Z.log2_pow2 by lia.
      destruct (decide (m = 0)) as [->|]; [simpl; lia|]. assert (Z.log2 m < 32) by (apply Z.log2_lt_pow2; lia). lia. }
    split; [done|]. split; [done|]. apply Hin. rewrite decide_False by lia. done.
  - split; [lia|]. split.
    + intros [_ (m' & E & Ht)]. replace (j * 32 + k + 1 - 1) with (k + j * 32) in * by lia.
      rewrite Z.div_add, Z.div_small in E by lia. rewrite Z.mod_add, Z.mod_small in Ht by lia.
      rewrite Z.add_0_l in E. congruence.
    + intros x. rewrite (in_use_masks (set_masks (<[Z.to_nat j := Z.lor m (2 ^ k)]> (AcpiGbl_OwnerIdMask g)) g)) by done.
      rewrite Hin. destruct (decide _) as [-> |]; [|naive_solver].
      rewrite Z.lor_spec, Z.pow2_bits_true, orb_true_r by lia. naive_solver.
Qed.

(** All bits of mask [j] from [k] on are set. *)
Definition full_from g (j k : Z) : Prop :=
  ∀ x m, AcpiGbl_OwnerIdMask g !! Z.to_nat j = Some m → k ≤ x < 32 → Z.testbit m x = true.

(** One iteration: the free bit, or the next mask. *)
Lemma allocate_step g i j (j' := if 8 <=? j then 0 else j) :
  owner_ok g → 0 ≤ j →
  (∃ id g', allocate_loop (S i) j g = Ret (Some id) g' ∧ searched g (Some id) g') ∨
  (full_from g j' (AcpiGbl_NextOwnerIdOffset g) ∧
   allocate_loop (S i) j g = allocate_loop i (j' + 1) (set_next (AcpiGbl_LastOwnerIdIndex g) 0 g)).
Proof.
  intros Hok Hj. assert (0 ≤ j' < 8) as Hj'.
  { unfold j'. destruct (Z.leb_spec 8 j); lia. }
  destruct (mask_at g j' Hok Hj') as [m Em]. cbn [allocate_loop]. fold j'. rewrite bind_get.
  rewrite (bind_ret _ _ _ _ _ (index_ok _ j' _ g ltac:(lia) Em)).
  pose proof Hok as (_ & _ & _ & Ho & _).
  pose proof (scan_bits_spec (Z.to_nat (32 - AcpiGbl_NextOwnerIdOffset g)) m (AcpiGbl_NextOwnerIdOffset g)
    ltac:(lia) ltac:(lia)) as Hs.
  destruct (scan_bits _ _ _) as [k|].
  - left. destruct Hs as [Hk Hb]. eexists _, _. split; [reflexivity|]. apply searched_found; try done. lia.
  - right. split; [|done]. intros x m' E Hx. replace m' with m by congruence. by apply Hs.
Qed.

(** From the start of a mask: all masks the loop passes are full. *)
Lemma allocate_rest g i j :
  owner_ok g → AcpiGbl_NextOwnerIdOffset g = 0 → 0 ≤ j ≤ 8 →
  ∃ res g', allocate_loop i j g = Ret res g' ∧ searched g res g' ∧
    (res = None → ∀ t, 0 ≤ t < Z.of_nat i → full_from g ((j + t) mod 8) 0).
Proof.
  revert g j. induction i as [|i IH]; intros g j Hok Hn Hj.
  { exists None, g. split; [done|]. split; [done|]. intros _ t Ht. lia. }
  set (j' := if 8 <=? j then 0 else j).
  assert (0 ≤ j' < 8 ∧ j mod 8 = j') as [Hj' Hjm].
  { unfold j'. destruct (Z.leb_spec 8 j); [|rewrite Z.mod_small; lia]. replace j with 8 by lia. done. }
  destruct (allocate_step g i j Hok ltac:(lia)) as [(id & g' & E & Hs)|[Hfull E]].
  { exists (Some id), g'. done. }
  fold j' in Hfull, E. rewrite E.
  destruct (IH (set_next (AcpiGbl_LastOwnerIdIndex g) 0 g) (j' + 1)) as (res & g' & E' & Hs & Hall);
    [|done|lia|].
  { apply owner_ok_next; [done|by destruct Hok as (_ & _ & ? & _)|lia]. }
  exists res, g'. split; [done|]. split; [done|]. intros Hres t Ht.
  destruct (decide (t = 0)) as [-> |].
  - rewrite Z.add_0_r, Hjm. by rewrite Hn in Hfull.
  - specialize (Hall Hres (t - 1) ltac:(lia)).
    replace ((j + t) mod 8) with ((j' + 1 + (t - 1)) mod 8); [done|].
    rewrite <- Hjm, <- Z.add_assoc, Zplus_mod_idemp_l. f_equal. lia.
Qed.

(** The whole search: it finds an ID unless all are in use. *)
Lemma allocate_loop_spec g :
  owner_ok g →
  ∃ res g', allocate_loop 9 (AcpiGbl_LastOwnerIdIndex g) g = Ret res g' ∧ searched g res g' ∧
    (res = None → ∀ id, 1 ≤ id ≤ 255 → in_use g id).
Proof.
  intros Hok. pose proof Hok as (_ & _ & Hi & Ho & _). set (j := AcpiGbl_LastOwnerIdIndex g) in *.
  destruct (allocate_step g 8 j Hok ltac:(lia)) as [(id & g' & E & Hs)|[Hfull E]].
  { exists (Some id), g'. done. }
  rewrite E. destruct (Z.leb_spec 8 j); [lia|].
  destruct (allocate_rest (set_next (AcpiGbl_LastOwnerIdIndex g) 0 g) 8 (j + 1)) as (res & g' & E' & Hs & Hall);
    [by apply owner_ok_next; [|lia|lia]|done|lia|].
  exists res, g'. split; [done|]. split; [done|]. intros Hres id Hid. specialize (Hall Hres).
  assert (0 ≤ (id - 1) / 32 < 8) as Hd by (split; [apply Z.div_pos; lia|apply Z.div_lt_upper_bound; lia]).
  destruct (mask_at g _ Hok Hd) as [m Em]. split; [lia|]. exists m. split; [done|].
  specialize (Hall (((id - 1) / 32 - (j + 1)) mod 8)).
  pose proof (Z.mod_pos_bound ((id - 1) / 32 - (j + 1)) 8 ltac:(lia)) as Hb.
  specialize (Hall ltac:(lia)). rewrite Zplus_mod_idemp_r in Hall.
  replace (j + 1 + ((id - 1) / 32 - (j + 1))) with ((id - 1) / 32) in Hall by lia.
  rewrite (Z.mod_small ((id - 1) / 32)) in Hall by lia. apply (Hall _ m Em).
  apply Z.mod_pos_bound. lia.
Qed.

Lemma AcpiUtAllocateOwnerId_spec g :
  owner_ok g → caches_free g →
  ∃ r g', AcpiUtAllocateOwnerId 0 g = Ret r g' ∧ owner_ok g' ∧ caches_free g' ∧
    ((∃ id, r = (AE_OK, id) ∧ 1 ≤ id ≤ 255 ∧ ¬ in_use g id ∧ ∀ x, in_use g' x ↔ x = id ∨ in_use g x) ∨
     (r = (AE_OWNER_ID_LIMIT, 0) ∧ (∀ id, 1 ≤ id ≤ 255 → in_use g id) ∧ ∀ x, in_use g' x ↔ in_use g x)).
Proof.
  intros Hok Hfree. unfold AcpiUtAllocateOwnerId. cbn [Z.eqb negb].
  destruct (acquire_caches g Hfree) as (ms & E & Hl & Hms). rewrite (bind_ret _ _ _ _ _ E).
  rewrite decide_False by tauto. rewrite bind_get.
  destruct (allocate_loop_spec (set_mutexes ms g) Hok) as (res & g1 & E1 & (Hm1 & Hok1 & Hres) & Hnone).
  rewrite (bind_ret _ _ _ _ _ E1).
  destruct (release_caches g1 ms Hl Hm1 Hms) as (ms' & E2 & Hfree').
  rewrite (bind_ret _ _ _ _ _ E2). eexists _, _. split; [reflexivity|].
  split; [exact Hok1|]. split; [done|]. destruct res as [id|].
  - left. exists id. destruct Hres as (Hid & Hnu & Hin). split; [done|]. split; [done|]. split; [exact Hnu|].
    intros x. exact (Hin x).
  - right. split; [done|]. split; [intros id Hid; exact (Hnone eq_refl id Hid)|].
    intros x. apply in_use_masks. exact Hres.
Qed.

(** Clearing the bit of an ID. *)
Lemma release_bit g id m :
  owner_ok g → 1 ≤ id ≤ 255 → AcpiGbl_OwnerIdMask g !! Z.to_nat ((id - 1) / 32) = Some m →
  Z.testbit m ((id - 1) mod 32) = true →
  let g' := set_masks (<[Z.to_nat ((id - 1) / 32) := Z.lxor m (2 ^ ((id - 1) mod 32))]> (AcpiGbl_OwnerIdMask g)) g in
  owner_ok g' ∧ ∀ x, in_use g' x ↔ in_use g x ∧ x ≠ id.
Proof.
  intros Hok Hid Em Hb g'. pose proof (masks_range _ _ _ Hok Em) as Hm. destruct Hok as (Hl & Hf & Hi & Ho & H256).
  set (j := (id - 1) / 32) in *. set (k := (id - 1) mod 32) in *.
  assert (0 ≤ k < 32) as Hk by (apply Z.mod_pos_bound; lia). assert (0 ≤ j) as Hj by (apply Z.div_pos; lia).
  assert (j * 32 + k + 1 = id) as Hjk by (pose proof (Z.div_mod (id - 1) 32); lia).
  assert (∀ x, in_use g' x ↔ in_use g x ∧ x ≠ id) as Hin.
  { intros x. unfold g'. rewrite (in_use_insert g _ j k m (Z.lxor m (2 ^ k))); [|done|lia|lia|done|lia|].
    - rewrite Hjk. destruct (decide (x = id)) as [-> |]; [|naive_solver].
      rewrite Z.lxor_spec, Z.pow2_bits_true, Hb by lia. split; [done|naive_solver].
    - intros i Hi0 Hik. rewrite Z.lxor_spec, Z.pow2_bits_false, xorb_false_r by lia. done. }
  split; [|done]. split; [simpl; by rewrite length_insert|]. split; [simpl; apply Forall_insert; [done|]|].
  { assert (Z.lxor m (2 ^ k) = m - 2 ^ k) as ->.
    { rewrite Z.sub_nocarry_ldiff.
      - apply Z.bits_inj'. intros i Hi0. rewrite Z.lxor_spec, Z.ldiff_spec.
        destruct (decide (i = k)) as [-> |]; [by rewrite Z.pow2_bits_true, Hb by lia|].
        rewrite Z.pow2_bits_false by lia. by rewrite xorb_false_r, andb_true_r.
      - apply Z.bits_inj'. intros i Hi0. rewrite Z.ldiff_spec, Z.bits_0.
        destruct (decide (i = k)) as [-> |]; [by rewrite Hb, andb_false_r|]. by rewrite Z.pow2_bits_false by lia. }
    assert (2 ^ k ≤ m); [|lia]. destruct (decide (2 ^ k ≤ m)); [done|].
    rewrite (Z.bits_above_log2 m k) in Hb; [done|lia|]. destruct (decide (m = 0)) as [->|].
    - by rewrite Z.bits_0 in Hb.
    - apply Z.log2_lt_pow2; lia. }
  split; [done|]. split; [done|]. apply Hin. split; [done|lia].
Qed.

Lemma AcpiUtReleaseOwnerId_spec g id :
  owner_ok g → caches_free g → 0 ≤ id ≤ 255 →
  ∃ g', AcpiUtReleaseOwnerId id g = Ret 0 g' ∧ owner_ok g' ∧ caches_free g' ∧
        ∀ x, in_use g' x ↔ in_use g x ∧ x ≠ id.
Proof.
  intros Hok Hfree Hid. unfold AcpiUtReleaseOwnerId. destruct (Z.eqb_spec id 0) as [->|Hid0].
  { exists g. split; [done|]. split; [done|]. split; [done|]. intros x. split; [|tauto].
    intros H. split; [done|]. destruct H. lia. }
  destruct (acquire_caches g Hfree) as (ms & E & Hl & Hms). rewrite (bind_ret _ _ _ _ _ E).
  rewrite decide_False by tauto. rewrite bind_get.
  assert (u8 (id - 1) = id - 1) as -> by (unfold u8; rewrite Z.mod_small; lia).
  rewrite Z.shiftr_div_pow2 by lia. change 31 with (Z.ones 5). rewrite Z.land_ones by lia. change (2 ^ 5) with 32.
  pose proof (Z.mod_pos_bound (id - 1) 32 ltac:(lia)) as Hk. rewrite bit_word by lia.
  assert (0 ≤ (id - 1) / 32 < 8) as Hj by (split; [apply Z.div_pos; lia|apply Z.div_lt_upper_bound; lia]).
  destruct (mask_at g _ Hok Hj) as [m Em].
  rewrite (bind_ret _ _ _ _ _ (index_ok _ ((id - 1) / 32) _ (set_mutexes ms g) ltac:(lia) Em)).
  rewrite land_bit, negb_involutive by lia. destruct (Z.testbit m ((id - 1) mod 32)) eqn:Hb.
  - destruct (release_bit (set_mutexes ms g) id m Hok ltac:(lia) Em Hb) as [Hok' Hin'].
    set (g1 := set_masks _ _) in *. rewrite (bind_ret (put g1) _ _ tt g1 eq_refl).
    destruct (release_caches g1 ms Hl eq_refl Hms) as (ms' & E2 & Hfree'). rewrite (bind_ret _ _ _ _ _ E2).
    exists (set_mutexes ms' g1). split; [done|]. split; [exact Hok'|]. split; [done|]. exact Hin'.
  - rewrite (bind_ret (mret tt) _ _ tt (set_mutexes ms g) eq_refl).
    destruct (release_caches (set_mutexes ms g) ms Hl eq_refl Hms) as (ms' & E2 & Hfree').
    rewrite (bind_ret _ _ _ _ _ E2). eexists. split; [done|]. split; [exact Hok|]. split; [done|].
    intros x. change (in_use g x ↔ in_use g x ∧ x ≠ id). split; [|tauto]. intros H. split; [done|]. intros ->.
    destruct H as [_ (m' & E' & Ht)]. congruence.
Qed.

(** ** What the functions promise

    A user of the functions allocates and releases; each call has a result and
    changes the set of IDs in use. *)
Inductive owner_call := Allocate | Release (id : Z).

Definition call (c : owner_call) : M globals (ACPI_STATUS * Z) :=
  match c with
  | Allocate => AcpiUtAllocateOwnerId 0
  | Release id => id ← AcpiUtReleaseOwnerId id; mret (AE_OK, id)
  end.

Fixpoint calls (cs : list owner_call) : M globals (list (ACPI_STATUS * Z)) :=
  match cs with
  | [] => mret []
  | c :: cs => r ← call c; rs ← calls cs; mret (r :: rs)
  end.

Inductive id_step : gset Z → owner_call → ACPI_STATUS * Z → gset Z → Prop :=
  | allocated S id : 1 ≤ id ≤ 255 → id ∉ S → id_step S Allocate (AE_OK, id) ({[id]} ∪ S)
  | exhausted S : (∀ id, 1 ≤ id ≤ 255 → id ∈ S) → id_step S Allocate (AE_OWNER_ID_LIMIT, 0) S
  | released S id : id_step S (Release id) (AE_OK, 0) (S ∖ {[id]}).

Inductive id_steps : gset Z → list owner_call → list (ACPI_STATUS * Z) → gset Z → Prop :=
  | id_done S : id_steps S [] [] S
  | id_more S c r S' cs rs S'' : id_step S c r S' → id_steps S' cs rs S'' → id_steps S (c :: cs) (r :: rs) S''.

Definition owner_rep g (S : gset Z) : Prop :=
  owner_ok g ∧ caches_free g ∧ ∀ x, x ∈ S ↔ in_use g x ∧ x ≠ 256.

Definition call_ok (c : owner_call) : Prop := match c with Allocate => True | Release id => 0 ≤ id ≤ 255 end.

Lemma call_step g S c :
  owner_rep g S → call_ok c → ∃ r g' S', call c g = Ret r g' ∧ id_step S c r S' ∧ owner_rep g' S'.
Proof.
  intros (Hok & Hfree & HS) Hc. destruct c as [|id].
  - destruct (AcpiUtAllocateOwnerId_spec g Hok Hfree) as (r & g' & E & Hok' & Hfree' & [H|H]).
    + destruct H as (id & -> & Hid & Hnu & Hin). exists (AE_OK, id), g', ({[id]} ∪ S). split; [done|]. split.
      * constructor; [done|]. rewrite HS. tauto.
      * split; [done|]. split; [done|]. intros x. rewrite elem_of_union, elem_of_singleton, HS, Hin.
        split; [|tauto]. intros [-> | H]; [split; [tauto|lia]|tauto].
    + destruct H as (-> & Hall & Hin). exists (AE_OWNER_ID_LIMIT, 0), g', S. split; [done|]. split.
      * constructor. intros id Hid. apply HS. split; [by apply Hall|lia].
      * split; [done|]. split; [done|]. intros x. by rewrite HS, Hin.
  - destruct (AcpiUtReleaseOwnerId_spec g id Hok Hfree Hc) as (g' & E & Hok' & Hfree' & Hin).
    exists (AE_OK, 0), g', (S ∖ {[id]}). split; [cbn [call]; by rewrite (bind_ret _ _ _ _ _ E)|].
    split; [constructor|]. split; [done|]. split; [done|].
    intros x. rewrite elem_of_difference, elem_of_singleton, HS, Hin. tauto.
Qed.

Lemma init_rep : owner_rep AcpiUtInitGlobals ∅.
Proof.
  assert (∀ x, in_use AcpiUtInitGlobals x → x = 256) as H.
  { intros x [Hx (m & E & Ht)].
    assert ((x - 1) / 32 < 7 ∨ (x - 1) / 32 = 7) as [Hd|Hd]
      by (assert ((x - 1) / 32 < 8) by (apply Z.div_lt_upper_bound; lia); lia).
    - change (AcpiGbl_OwnerIdMask AcpiUtInitGlobals) with (<[7%nat := 2147483648]> (replicate 8 0)) in E.
      assert (0 ≤ (x - 1) / 32) by (apply Z.div_pos; lia). rewrite list_lookup_insert_ne in E by lia.
      apply lookup_replicate in E as [-> _]. by rewrite Z.bits_0 in Ht.
    - rewrite Hd in E. injection E as <-. change 2147483648 with (2 ^ 31) in Ht.
      destruct (decide ((x - 1) mod 32 = 31)) as [Hm|Hm]; [pose proof (Z.div_mod (x - 1) 32); lia|].
      pose proof (Z.mod_pos_bound (x - 1) 32 ltac:(lia)). rewrite Z.pow2_bits_false in Ht by lia. done. }
  split; [|split].
  - split; [done|]. split; [repeat constructor; lia|]. split; [simpl; lia|]. split; [simpl; lia|].
    split; [lia|]. exists 2147483648. done.
  - split; [done|]. eexists. split; [reflexivity|]. done.
  - intros x. split; [set_solver|]. intros [Hx Hne]. by apply H in Hx.
Qed.

(** C34: Owner IDs refine a set: after the initialisation every sequence of
    allocations and releases runs to its end, each allocation returns an ID
    from 1 to 255 that is not in use and puts it into use, fails only if all
    255 IDs are in use, and each release frees exactly its ID; the mutex is
    free between the calls. *)
Theorem owner_ids_refine cs :
  Forall call_ok cs →
  ∃ rs g S, calls cs AcpiUtInitGlobals = Ret rs g ∧ id_steps ∅ cs rs S ∧ owner_rep g S.
Proof.
  assert (∀ g S, owner_rep g S → Forall call_ok cs →
    ∃ rs g' S', calls cs g = Ret rs g' ∧ id_steps S cs rs S' ∧ owner_rep g' S') as H.
  { intros g S Hrep Hcs. revert g S Hrep. induction Hcs as [|c cs Hc Hcs IH]; intros g S Hrep.
    - exists [], g, S. split; [done|]. split; [constructor|done].
    - destruct (call_step g S c Hrep Hc) as (r & g1 & S1 & E & Hs & Hrep1).
      destruct (IH g1 S1 Hrep1) as (rs & g' & S' & E' & Hs' & Hrep').
      exists (r :: rs), g', S'. cbn [calls]. rewrite (bind_ret _ _ _ _ _ E), (bind_ret _ _ _ _ _ E').
      split; [done|]. split; [by econstructor|done]. }
  intros Hcs. by apply H; [apply init_rep|].
Qed.

Lemma owner_ids_refine_witness :
  ∃ g S, calls [Allocate; Allocate; Release 1; Allocate] AcpiUtInitGlobals =
           Ret [(AE_OK, 1); (AE_OK, 2); (AE_OK, 0); (AE_OK, 3)] g ∧ owner_rep g S.
Proof.
  destruct (owner_ids_refine [Allocate; Allocate; Release 1; Allocate]) as (rs & g & S & E & _ & Hrep).
  { repeat constructor; simpl; lia. }
  exists g, S. split; [|exact Hrep]. rewrite E.
  assert (rs = [(AE_OK, 1); (AE_OK, 2); (AE_OK, 0); (AE_OK, 3)]) as ->; [|reflexivity].
  vm_compute in E. injection E as <- _. reflexivity.
Defined.
