(* ===== verification/AcpiPorts.v ===== *)
(** * ACPICA: port accesses of the AML interpreter

    libs/acpica/source/components/hardware/hwvalid.c.  AML code may read and
    write I/O ports, except those of a table of protected ports; a request that
    touches a protected port is carried out byte by byte, without the protected
    ones.  The functions of the OS layer are arguments; the kernel's own, in
    acpica_osl.c, are those of AcpiRegionKernel.v, which only assert that they
    are implemented.  The theorem says which ports are asked of them. *)

From stdpp Require Import base numbers list sets strings.
From S2P Require Import Prelude UtList AcpiUtil AcpiBits AcpiField.

Abbreviation ACPI_ALWAYS_ILLEGAL := 0 (only parsing).
Abbreviation ACPI_OSI_WIN_XP := 2 (only parsing).
Abbreviation ACPI_UINT16_MAX := 65535 (only parsing).

Record ACPI_PORT_INFO := PortInfo { Name : string; Start : Z; End_ : Z; OsiDependency : Z }.

Definition AcpiProtectedPorts : list ACPI_PORT_INFO :=
  [PortInfo "DMA" 0 15 ACPI_OSI_WIN_XP; PortInfo "PIC0" 32 33 ACPI_ALWAYS_ILLEGAL; PortInfo "PIT1" 64 67 ACPI_OSI_WIN_XP;
   PortInfo "PIT2" 72 75 ACPI_OSI_WIN_XP; PortInfo "RTC" 112 113 ACPI_OSI_WIN_XP; PortInfo "CMOS" 116 118 ACPI_OSI_WIN_XP;
   PortInfo "DMA1" 129 131 ACPI_OSI_WIN_XP; PortInfo "DMA1L" 135 135 ACPI_OSI_WIN_XP; PortInfo "DMA2" 137 139 ACPI_OSI_WIN_XP;
   PortInfo "DMA2L" 143 143 ACPI_OSI_WIN_XP; PortInfo "ARBC" 144 145 ACPI_OSI_WIN_XP; PortInfo "SETUP" 147 148 ACPI_OSI_WIN_XP;
   PortInfo "POS" 150 151 ACPI_OSI_WIN_XP; PortInfo "PIC1" 160 161 ACPI_ALWAYS_ILLEGAL; PortInfo "IDMA" 192 223 ACPI_OSI_WIN_XP;
   PortInfo "ELCR" 1232 1233 ACPI_ALWAYS_ILLEGAL; PortInfo "PCI" 3320 3327 ACPI_OSI_WIN_XP].

(** [AcpiProtectedPorts[ACPI_PORT_INFO_ENTRIES - 1].End]. *)
Definition last_protected : Z := match last AcpiProtectedPorts with Some p => End_ p | None => 0 end.

Section Ports.
Context {S : Type}.
(** AcpiOsReadPort and AcpiOsWritePort with a width in bits, and two globals. *)
Variable AcpiOsReadPort : Z → Z → M S (ACPI_STATUS * Z).
Variable AcpiOsWritePort : Z → Z → Z → M S ACPI_STATUS.
Variable AcpiGbl_OsiData : Z.
Variable AcpiGbl_TruncateIoAddresses : bool.

(** The loop over the table, from an entry on. *)
Fixpoint check_ports (Address LastAddress : Z) (ports : list ACPI_PORT_INFO) : ACPI_STATUS :=
  match ports with
  | [] => AE_OK
  | p :: ports =>
      if (Address <=? End_ p) && (Start p <=? LastAddress) && (OsiDependency p <=? AcpiGbl_OsiData) then AE_AML_ILLEGAL_ADDRESS
      else if LastAddress <=? End_ p then AE_OK
      else check_ports Address LastAddress ports
  end.

Definition AcpiHwValidateIoRequest (Address BitWidth : Z) : ACPI_STATUS :=
  if negb (BitWidth =? 8) && negb (BitWidth =? 16) && negb (BitWidth =? 32) then AE_BAD_PARAMETER
  else
    let ByteWidth := ACPI_DIV_8 BitWidth in
    let LastAddress := u32 (Address + ByteWidth - 1) in
    if ACPI_UINT16_MAX <? LastAddress then AE_LIMIT
    else if last_protected <? Address then AE_OK
    else check_ports Address LastAddress AcpiProtectedPorts.

(** [for (i = 0, *Value = 0; i < Width; i += 8)], with [n] rounds left. *)
Fixpoint read_port_loop (n : nat) (i Address Value : Z) : M S (ACPI_STATUS * Z) :=
  match n with
  | O => mret (AE_OK, Value)
  | Datatypes.S n =>
      if decide (AcpiHwValidateIoRequest Address 8 = AE_OK) then
        '(Status, OneByte) ← AcpiOsReadPort Address 8;
        if negb (ok Status) then mret (Status, Value)
        else read_port_loop n (i + 8) (u32 (Address + 1)) (Z.lor Value (u32 (Z.shiftl OneByte i)))
      else read_port_loop n (i + 8) (u32 (Address + 1)) Value
  end.

(** The status, and [*Value]. *)
Definition AcpiHwReadPort (Address Value Width : Z) : M S (ACPI_STATUS * Z) :=
  let Address := if AcpiGbl_TruncateIoAddresses then Z.land Address ACPI_UINT16_MAX else Address in
  let Status := AcpiHwValidateIoRequest Address Width in
  if ok Status then AcpiOsReadPort Address Width
  else if decide (Status ≠ AE_AML_ILLEGAL_ADDRESS) then mret (Status, Value)
  else read_port_loop (Z.to_nat (Width / 8)) 0 Address 0.

Fixpoint write_port_loop (n : nat) (i Address Value : Z) : M S ACPI_STATUS :=
  match n with
  | O => mret AE_OK
  | Datatypes.S n =>
      if decide (AcpiHwValidateIoRequest Address 8 = AE_OK) then
        Status ← AcpiOsWritePort Address (Z.land (Z.shiftr Value i) 255) 8;
        if negb (ok Status) then mret Status
        else write_port_loop n (i + 8) (u32 (Address + 1)) Value
      else write_port_loop n (i + 8) (u32 (Address + 1)) Value
  end.

Definition AcpiHwWritePort (Address Value Width : Z) : M S ACPI_STATUS :=
  let Address := if AcpiGbl_TruncateIoAddresses then Z.land Address ACPI_UINT16_MAX else Address in
  let Status := AcpiHwValidateIoRequest Address Width in
  if ok Status then AcpiOsWritePort Address Value Width
  else if decide (Status ≠ AE_AML_ILLEGAL_ADDRESS) then mret Status
  else write_port_loop (Z.to_nat (Width / 8)) 0 Address Value.

(** ** Which requests are legal *)

Definition protects (a : Z) (p : ACPI_PORT_INFO) : bool := (Start p <=? a) && (a <=? End_ p) && (OsiDependency p <=? AcpiGbl_OsiData).
Definition protected (a : Z) : bool := existsb (protects a) AcpiProtectedPorts.
Definition allowed (a : Z) : bool := negb (protected a).

(** The ranges are not empty, and each is before the next. *)
Fixpoint ordered (from : Z) (ports : list ACPI_PORT_INFO) : bool :=
  match ports with
  | [] => true
  | p :: ports => (from <=? Start p) && (Start p <=? End_ p) && ordered (End_ p + 1) ports
  end.

Lemma ports_ordered : ordered 0 AcpiProtectedPorts = true.
Proof. reflexivity. Qed.

Lemma ordered_start from ports p : ordered from ports = true → p ∈ ports → from ≤ Start p ≤ End_ p.
Proof.
  revert from. induction ports as [|q ports IH]; intros from; cbn [ordered]; [by intros _ ?%elem_of_nil|].
  rewrite !andb_true_iff, !Z.leb_le. intros [[H1 H2] H3] [->|Hp]%elem_of_cons; [lia|]. specialize (IH _ H3 Hp). lia.
Qed.

(** The loop finds an overlap although it stops early. *)
Lemma check_ports_spec a b ports from : ordered from ports = true → a ≤ b →
  check_ports a b ports = if existsb (λ p, (a <=? End_ p) && (Start p <=? b) && (OsiDependency p <=? AcpiGbl_OsiData)) ports
    then AE_AML_ILLEGAL_ADDRESS else AE_OK.
Proof.
  intros Ho Hab. revert from Ho. induction ports as [|p ports IH]; intros from Ho; [done|]. cbn [check_ports existsb].
  destruct (_ && _ && _) eqn:E; cbn [orb]; [done|]. pose proof Ho as Ho'. cbn [ordered] in Ho. rewrite !andb_true_iff in Ho. destruct Ho as [_ Ho].
  destruct (Z.leb_spec b (End_ p)); [|by eapply IH]. destruct (existsb _ ports) eqn:Ex; [|done].
  apply existsb_exists in Ex as (q & Hq & Hx). apply list_elem_of_In in Hq. pose proof (ordered_start _ _ q Ho Hq).
  rewrite !andb_true_iff, !Z.leb_le in Hx. lia.
Qed.

Lemma overlap_iff a n p : 0 < n → Start p ≤ End_ p →
  ((a <=? End_ p) && (Start p <=? a + n - 1) = true ↔ ∃ i, 0 ≤ i < n ∧ Start p ≤ a + i ≤ End_ p).
Proof.
  intros Hn Hp. rewrite andb_true_iff, !Z.leb_le. split.
  - intros [H1 H2]. exists (Z.max 0 (Start p - a)). lia.
  - intros (i & Hi & H). lia.
Qed.

Definition legal (a : Z) (n : nat) : bool := forallb (λ i, allowed (a + Z.of_nat i)) (seq 0 n).

Lemma legal_iff a n : legal a n = true ↔ ∀ i, 0 ≤ i < Z.of_nat n → allowed (a + i) = true.
Proof.
  unfold legal. rewrite forallb_forall. split.
  - intros H i Hi. rewrite <- (Z2Nat.id i) by lia. apply H, in_seq. lia.
  - intros H i Hi%in_seq. apply H. lia.
Qed.

Lemma last_is_last : ∀ p, p ∈ AcpiProtectedPorts → End_ p ≤ last_protected.
Proof.
  assert (forallb (λ p, End_ p <=? last_protected) AcpiProtectedPorts = true) as H by reflexivity.
  rewrite forallb_forall in H. intros p Hp. apply Z.leb_le, H. by apply list_elem_of_In.
Qed.

Lemma width_known n : n ∈ [1; 2; 4]%nat →
  negb (8 * Z.of_nat n =? 8) && negb (8 * Z.of_nat n =? 16) && negb (8 * Z.of_nat n =? 32) = false ∧ ACPI_DIV_8 (8 * Z.of_nat n) = Z.of_nat n ∧ 0 < Z.of_nat n.
Proof. rewrite !elem_of_cons, elem_of_nil. by intros [->|[->|[->|[]]]]. Qed.

(** A request below 64 K is legal if none of its ports is protected. *)
Lemma validate_spec a n : 0 ≤ a → n ∈ [1; 2; 4]%nat → a + Z.of_nat n ≤ 65536 →
  AcpiHwValidateIoRequest a (8 * Z.of_nat n) = if legal a n then AE_OK else AE_AML_ILLEGAL_ADDRESS.
Proof.
  intros Ha Hn Hl. unfold AcpiHwValidateIoRequest.
  destruct (width_known n Hn) as (-> & -> & Hpos).
  rewrite u32_small by lia. rewrite (proj2 (Z.ltb_ge _ _)) by lia.
  set (hit := λ p, (a <=? End_ p) && (Start p <=? a + Z.of_nat n - 1) && (OsiDependency p <=? AcpiGbl_OsiData)).
  assert (existsb hit AcpiProtectedPorts = negb (legal a n)) as He.
  { apply eq_true_iff_eq. rewrite negb_true_iff, <- not_true_iff_false, legal_iff, existsb_exists. unfold hit. split.
    - intros (p & Hp & [Hov Hdep]%andb_true_iff) Hall. pose proof (ordered_start 0 _ p ports_ordered (proj2 (list_elem_of_In _ _) Hp)) as Hse.
      apply overlap_iff in Hov as (i & Hi & Hin); [|lia..]. specialize (Hall i Hi). revert Hall. unfold allowed, protected.
      rewrite negb_true_iff. apply not_false_iff_true, existsb_exists. exists p. split; [done|]. unfold protects.
      by rewrite (proj2 (Z.leb_le _ _)), (proj2 (Z.leb_le (a + i) _)) by lia.
    - intros Hnot. destruct (existsb (λ i, protected (a + Z.of_nat i)) (seq 0 n)) eqn:Ex.
      + apply existsb_exists in Ex as (i & Hi%in_seq & (p & Hp & Hpr)%existsb_exists). exists p. split; [done|].
        unfold protects in Hpr. apply andb_true_iff in Hpr as [Hpr ->]. apply andb_true_iff in Hpr as [H1%Z.leb_le H2%Z.leb_le].
        rewrite andb_true_r. apply overlap_iff; [lia|lia|]. exists (Z.of_nat i). lia.
      + destruct Hnot. intros i Hi. unfold allowed. rewrite negb_true_iff. destruct (protected (a + i)) eqn:Ep; [|done].
        rewrite <- Ex. symmetry. apply existsb_exists. exists (Z.to_nat i). rewrite in_seq, Z2Nat.id by lia. split; [lia|done]. }
  destruct (Z.ltb_spec last_protected a).
  - destruct (legal a n); [done|]. cbn [negb] in He. apply existsb_exists in He as (p & Hp & Hh). unfold hit in Hh.
    pose proof (last_is_last p (proj2 (list_elem_of_In _ _) Hp)). rewrite !andb_true_iff, !Z.leb_le in Hh. lia.
  - rewrite (check_ports_spec _ _ _ 0 ports_ordered) by lia. fold hit. rewrite He. by destruct (legal a n).
Qed.

(** ** What a request does *)

(** One byte is checked on its own. *)
Lemma validate_byte a : 0 ≤ a → a + 1 ≤ 65536 → AcpiHwValidateIoRequest a 8 = if allowed a then AE_OK else AE_AML_ILLEGAL_ADDRESS.
Proof.
  intros H0 H1. pose proof (validate_spec a 1 H0 ltac:(set_solver) H1) as E. change (8 * Z.of_nat 1) with 8 in E. rewrite E. unfold legal. cbn [seq forallb]. by rewrite Z.add_0_r, andb_true_r.
Qed.

(** The ports of a request that are not protected, by their distance from [a]. *)
Definition free_ports (a from : Z) (n : nat) : list Z := filter (λ i, allowed (a + i) = true) (seqZ from (Z.of_nat n)).

(** Reading and writing them one by one, until the OS layer reports an error:
    port [a + i] is byte [i] of the value. *)
Fixpoint read_each (a : Z) (js : list Z) (v : Z) : M S (ACPI_STATUS * Z) :=
  match js with
  | [] => mret (AE_OK, v)
  | i :: js =>
      '(Status, b) ← AcpiOsReadPort (a + i) 8;
      if ok Status then read_each a js (Z.lor v (u32 (b * 256 ^ i))) else mret (Status, v)
  end.
Fixpoint write_each (a : Z) (js : list Z) (v : Z) : M S ACPI_STATUS :=
  match js with
  | [] => mret AE_OK
  | i :: js =>
      Status ← AcpiOsWritePort (a + i) ((v / 256 ^ i) mod 256) 8;
      if ok Status then write_each a js v else mret Status
  end.

Lemma free_ports_cons a i n : free_ports a i (Datatypes.S n) =
  if allowed (a + i) then i :: free_ports a (i + 1) n else free_ports a (i + 1) n.
Proof.
  unfold free_ports. rewrite Nat2Z.inj_succ, seqZ_cons by lia. rewrite Z.pred_succ. rewrite filter_cons.
  change (Z.succ i) with (i + 1). destruct (allowed (a + i)) eqn:E; [by rewrite decide_True|by rewrite decide_False].
Qed.

Lemma pow2_bytes i : 0 ≤ i → 2 ^ (8 * i) = 256 ^ i.
Proof. intros Hi. change 256 with (2 ^ 8). by rewrite <- Z.pow_mul_r by lia. Qed.

(** The loops that leave out the protected ports; [i] bytes are done. *)
Lemma read_port_loop_spec n : ∀ i a v s, 0 ≤ a → 0 ≤ i → a + i + Z.of_nat n ≤ 65536 →
  read_port_loop n (8 * i) (a + i) v s = read_each a (free_ports a i n) v s.
Proof.
  induction n as [|n IH]; intros i a v s Ha Hi Hl; cbn [read_port_loop]; [done|].
  rewrite validate_byte, free_ports_cons, u32_small by lia. replace (8 * i + 8) with (8 * (i + 1)) by lia.
  rewrite <- (Z.add_assoc a i 1). destruct (allowed (a + i)); [|rewrite decide_False by done; apply IH; lia].
  rewrite decide_True by done. cbn [read_each]. unfold mbind, M_bind. destruct (AcpiOsReadPort (a + i) 8 s) as [[st b] s'| | |]; [|done..].
  destruct (ok st); cbn [negb]; [|done]. rewrite Z.shiftl_mul_pow2, pow2_bytes by lia. apply IH; lia.
Qed.

Lemma write_port_loop_spec n : ∀ i a v s, 0 ≤ a → 0 ≤ i → a + i + Z.of_nat n ≤ 65536 →
  write_port_loop n (8 * i) (a + i) v s = write_each a (free_ports a i n) v s.
Proof.
  induction n as [|n IH]; intros i a v s Ha Hi Hl; cbn [write_port_loop]; [done|].
  rewrite validate_byte, free_ports_cons, u32_small by lia. replace (8 * i + 8) with (8 * (i + 1)) by lia.
  rewrite <- (Z.add_assoc a i 1). destruct (allowed (a + i)); [|rewrite decide_False by done; apply IH; lia].
  rewrite decide_True by done. cbn [write_each]. change 255 with (Z.ones 8). rewrite Z.land_ones, Z.shiftr_div_pow2, pow2_bytes by lia. change (2 ^ 8) with 256.
  unfold mbind, M_bind. destruct (AcpiOsWritePort (a + i) _ 8 s) as [st s'| | |]; [|done..].
  destruct (ok st); cbn [negb]; [|done]. apply IH; lia.
Qed.

(** The port a request starts at. *)
Definition io_address (a : Z) : Z := if AcpiGbl_TruncateIoAddresses then a mod 65536 else a.

Lemma io_address_land a : 0 ≤ a → (if AcpiGbl_TruncateIoAddresses then Z.land a ACPI_UINT16_MAX else a) = io_address a ∧ 0 ≤ io_address a.
Proof.
  intros Ha. unfold io_address. destruct AcpiGbl_TruncateIoAddresses; [|done]. change ACPI_UINT16_MAX with (Z.ones 16).
  rewrite Z.land_ones by lia. split; [done|]. change (2 ^ 16) with 65536. apply Z.mod_pos_bound. lia.
Qed.

Lemma validate_limit a n : n ∈ [1; 2; 4]%nat → 65536 < a + Z.of_nat n ≤ W32 → AcpiHwValidateIoRequest a (8 * Z.of_nat n) = AE_LIMIT.
Proof.
  intros Hn Hl. unfold AcpiHwValidateIoRequest. destruct (width_known n Hn) as (-> & -> & Hpos).
  rewrite u32_small by lia. by rewrite (proj2 (Z.ltb_lt _ _)) by lia.
Qed.

(** C33: the check of port accesses.  Whatever the functions of the OS
    layer do, take a read or write of 8, 16 or 32 bits at an address that is not
    so high that its last port wraps around 2^32.  If it lies below 64 K and
    none of its ports is protected, it is handed to the OS layer as it is; if
    some are, the OS layer is called with a byte for each of the others, in
    order, until it reports an error, and with none of the protected ones, whose
    bytes read as 0 and are not written, although the check of the table stops
    early.  A request that goes beyond 64 K fails with AE_LIMIT and calls
    nothing.  (A request that wraps around passes the check: see
    [wrapped_request].) *)
Theorem ports_guarded s a n v x : 0 ≤ a → n ∈ [1; 2; 4]%nat → io_address a + Z.of_nat n ≤ W32 →
  AcpiHwReadPort a x (8 * Z.of_nat n) s =
    (if 65536 <? io_address a + Z.of_nat n then mret (AE_LIMIT, x)
     else if legal (io_address a) n then AcpiOsReadPort (io_address a) (8 * Z.of_nat n)
     else read_each (io_address a) (free_ports (io_address a) 0 n) 0) s ∧
  AcpiHwWritePort a v (8 * Z.of_nat n) s =
    (if 65536 <? io_address a + Z.of_nat n then mret AE_LIMIT
     else if legal (io_address a) n then AcpiOsWritePort (io_address a) v (8 * Z.of_nat n)
     else write_each (io_address a) (free_ports (io_address a) 0 n) v) s.
Proof.
  intros Ha Hn Hw. unfold AcpiHwReadPort, AcpiHwWritePort. destruct (io_address_land a Ha) as [-> Hb]. generalize dependent (io_address a). intros b Hw Hb.
  destruct (Z.ltb_spec 65536 (b + Z.of_nat n)) as [Hl|Hl]; [by rewrite (validate_limit b n Hn) by lia|].
  rewrite (validate_spec b n Hb Hn Hl). rewrite (Z.mul_comm 8), Z.div_mul, Nat2Z.id, (Z.mul_comm _ 8) by done.
  destruct (legal b n) eqn:El; cbn [ok]; [done|]. change (ok AE_AML_ILLEGAL_ADDRESS) with false. cbv iota. rewrite !decide_False by naive_solver.
  pose proof (read_port_loop_spec n 0 b 0 s Hb) as E1. pose proof (write_port_loop_spec n 0 b v s Hb) as E2.
  rewrite Z.add_0_r, Z.mul_0_r in E1, E2. split; [apply E1; lia|apply E2; lia].
Qed.
End Ports.

(** ** Examples *)

(** A machine that records the accesses, and whose ports read as their number. *)
Inductive port_event := PortRead (a width : Z) | PortWrite (a v width : Z).
Definition ex_read (a width : Z) : M (list port_event) (ACPI_STATUS * Z) := λ h, Ret (AE_OK, a) (h ++ [PortRead a width]).
Definition ex_write (a v width : Z) : M (list port_event) ACPI_STATUS := λ h, Ret AE_OK (h ++ [PortWrite a v width]).

(** A double word at 0x1E: the upper two ports are those of the interrupt
    controller. *)
Lemma ports_guarded_witness :
  AcpiHwReadPort ex_read 0 false 30 0 32 [] = Ret (AE_OK, 30 + 256 * 31) [PortRead 30 8; PortRead 31 8] ∧
  AcpiHwWritePort ex_write 0 false 30 67305985 32 [] = Ret AE_OK [PortWrite 30 1 8; PortWrite 31 2 8].
Proof.
  assert (4%nat ∈ [1; 2; 4]%nat) as Hn by set_solver.
  exact (ports_guarded ex_read ex_write 0 false [] 30 4 67305985 0 ltac:(lia) Hn ltac:(vm_compute; discriminate)).
Defined.

(** At the end of the address space the last port wraps around, and the request
    passes the check. *)
Example wrapped_request : AcpiHwValidateIoRequest 0 4294967295 16 = AE_OK.
Proof. reflexivity. Qed.
