(* ===== verification/AcpiRegion.v ===== *)
(** * ACPICA: operation regions and the default address space handlers

    libs/acpica/source/components: events/evregion.c (the dispatch of an access),
    events/evrgnini.c (setting up a region), executer/exregion.c (the default
    handlers) and the two functions of executer/exutils.c that enter and leave
    the interpreter.

    The functions of the OS layer, and the accesses of the machine to memory,
    are a record of operations on a state [K] of the host; the kernel's own are
    in AcpiRegionKernel.v.  Handlers that are not ACPICA's own, and the set-up of
    PCI regions, which searches the namespace, are arguments too.
    AcpiRegionSpec.v has the theorems. *)

From stdpp Require Import base numbers list gmap fin_maps.
From S2P Require Import Prelude UtList AcpiUtil AcpiBits AcpiField AcpiOwner AcpiPorts.

Abbreviation ACPI_REGION_ACTIVATE := 0 (only parsing).
Abbreviation ACPI_REGION_DEACTIVATE := 1 (only parsing).
Abbreviation ACPI_DEFAULT_PAGE_SIZE := 4096 (only parsing).
Abbreviation ACPI_ADDR_HANDLER_DEFAULT_INSTALLED := 1 (only parsing).
Abbreviation ACPI_MTX_INTERPRETER := 0 (only parsing).
Abbreviation sizeof_ACPI_MEM_SPACE_CONTEXT := 20 (only parsing).

Record ACPI_MEM_SPACE_CONTEXT := MemSpaceContext {
  m_Length : Z;
  m_Address : Z;
  MappedPhysicalAddress : Z;
  MappedLogicalAddress : Z;
  MappedLength : Z
}.
Definition set_mapping (physical logical len : Z) (m : ACPI_MEM_SPACE_CONTEXT) : ACPI_MEM_SPACE_CONTEXT :=
  MemSpaceContext (m_Length m) (m_Address m) physical logical len.

Record ACPI_CONNECTION_INFO := ConnectionInfo { c_Connection : Z; c_Length : Z; c_AccessLength : Z }.

(** The contexts of regions and handlers, the globals of ACPICA, and the host. *)
Record world (K : Type) := World {
  contexts : gmap Z ACPI_MEM_SPACE_CONTEXT;
  connections : gmap Z ACPI_CONNECTION_INFO;
  acpi_globals : globals;
  host : K
}.
Arguments World {K}.
Arguments contexts {K}.
Arguments connections {K}.
Arguments acpi_globals {K}.
Arguments host {K}.

(** The OS layer of a host, with the accesses of the machine to a number of bytes
    of memory, and two settings of ACPICA. *)
Record os_layer (K : Type) := OsLayer {
  os_MapMemory : Z → Z → M K Z;
  os_UnmapMemory : Z → Z → M K unit;
  os_Allocate : Z → M K Z;
  os_Free : Z → M K unit;
  get_mem : Z → Z → M K Z;
  set_mem : Z → Z → Z → M K unit;
  os_ReadPort : Z → Z → M K (ACPI_STATUS * Z);
  os_WritePort : Z → Z → Z → M K ACPI_STATUS;
  os_ReadPciConfiguration : Z → Z → Z → Z → M K (ACPI_STATUS * Z);
  os_WritePciConfiguration : Z → Z → Z → Z → M K ACPI_STATUS;
  gbl_OsiData : Z;
  gbl_TruncateIoAddresses : bool
}.
Arguments OsLayer {K}.
Arguments os_MapMemory {K}.
Arguments os_UnmapMemory {K}.
Arguments os_Allocate {K}.
Arguments os_Free {K}.
Arguments get_mem {K}.
Arguments set_mem {K}.
Arguments os_ReadPort {K}.
Arguments os_WritePort {K}.
Arguments os_ReadPciConfiguration {K}.
Arguments os_WritePciConfiguration {K}.
Arguments gbl_OsiData {K}.
Arguments gbl_TruncateIoAddresses {K}.

(** Handlers and set-up functions of drivers, and that of PCI regions. *)
Record drivers (K : Type) := Drivers {
  user_handler : Z → Z → Z → Z → Z → Z → Z → M (acpi_state (world K)) (ACPI_STATUS * Z);
  user_setup : Z → Z → Z → Z → Z → M (acpi_state (world K)) (ACPI_STATUS * Z);
  pci_setup : Z → Z → Z → Z → M (acpi_state (world K)) (ACPI_STATUS * Z)
}.
Arguments Drivers {K}.
Arguments user_handler {K}.
Arguments user_setup {K}.
Arguments pci_setup {K}.

Section Regions.
Context {K : Type} (os : os_layer K) (drv : drivers K).
Abbreviation S := (acpi_state (world K)).
(** What a local variable holds before it is assigned. *)
Variable unassigned : Z.

Definition on_host {A} (m : M K A) : M S A :=
  zoom (λ s, host (outside s)) (λ k s, IState (objects s) (World (contexts (outside s)) (connections (outside s)) (acpi_globals (outside s)) k)) m.
Definition on_contexts {A} (m : M (gmap Z ACPI_MEM_SPACE_CONTEXT) A) : M S A :=
  zoom (λ s, contexts (outside s)) (λ c s, IState (objects s) (World c (connections (outside s)) (acpi_globals (outside s)) (host (outside s)))) m.
Definition on_connections {A} (m : M (gmap Z ACPI_CONNECTION_INFO) A) : M S A :=
  zoom (λ s, connections (outside s)) (λ c s, IState (objects s) (World (contexts (outside s)) c (acpi_globals (outside s)) (host (outside s)))) m.
Definition on_globals {A} (m : M globals A) : M S A :=
  zoom (λ s, acpi_globals (outside s)) (λ g s, IState (objects s) (World (contexts (outside s)) (connections (outside s)) g (host (outside s)))) m.

(** A failure of the mutex is only reported. *)
Definition AcpiExEnterInterpreter : M S unit := on_globals (AcpiUtAcquireMutex ACPI_MTX_INTERPRETER);; mret tt.
Definition AcpiExExitInterpreter : M S unit := on_globals (AcpiUtReleaseMutex ACPI_MTX_INTERPRETER);; mret tt.

(** ** The default handlers *)

(** The number of bytes of a width. *)
Definition memory_width (BitWidth : Z) : option Z :=
  if BitWidth =? 8 then Some 1
  else if BitWidth =? 16 then Some 2
  else if BitWidth =? 32 then Some 4
  else if BitWidth =? 64 then Some 8
  else None.

(** From an address to the end of the region, but not beyond the page. *)
Definition map_length (MemInfo : ACPI_MEM_SPACE_CONTEXT) (Address : Z) : Z :=
  let MapLength := u32 (u32 (m_Address MemInfo + m_Length MemInfo) - Address) in
  let PageBoundaryMapLength := u32 (ACPI_ROUND_UP Address ACPI_DEFAULT_PAGE_SIZE - Address) in
  let PageBoundaryMapLength := if PageBoundaryMapLength =? 0 then ACPI_DEFAULT_PAGE_SIZE else PageBoundaryMapLength in
  if PageBoundaryMapLength <? MapLength then PageBoundaryMapLength else MapLength.

(** The cached mapping is replaced if the request does not fit into it. *)
Definition map_request (RegionContext Address Length : Z) : M S ACPI_STATUS :=
  MemInfo ← on_contexts (load RegionContext);
  if (Address <? MappedPhysicalAddress MemInfo) || (MappedPhysicalAddress MemInfo + MappedLength MemInfo <? Address + Length) then
    (if negb (MappedLength MemInfo =? 0) then on_host (os_UnmapMemory os (MappedLogicalAddress MemInfo) (MappedLength MemInfo)) else mret tt);;
    let MapLength := map_length MemInfo Address in
    logical ← on_host (os_MapMemory os Address MapLength);
    if logical =? 0 then
      on_contexts (update RegionContext (λ m, set_mapping (MappedPhysicalAddress m) 0 0 m));;
      mret AE_NO_MEMORY
    else
      on_contexts (update RegionContext (set_mapping Address logical MapLength));;
      mret AE_OK
  else mret AE_OK.

(** A handler returns a status and the value that [*Value] has afterwards. *)
Definition AcpiExSystemMemorySpaceHandler (Function Address BitWidth Value HandlerContext RegionContext : Z) : M S (ACPI_STATUS * Z) :=
  match memory_width BitWidth with
  | None => mret (AE_AML_OPERAND_VALUE, Value)
  | Some Length =>
      Status ← map_request RegionContext Address Length;
      if negb (ok Status) then mret (Status, Value)
      else
        MemInfo ← on_contexts (load RegionContext);
        let LogicalAddrPtr := u32 (MappedLogicalAddress MemInfo + (Address - MappedPhysicalAddress MemInfo)) in
        if Function =? ACPI_READ then v ← on_host (get_mem os LogicalAddrPtr Length); mret (AE_OK, v)
        else if Function =? ACPI_WRITE then on_host (set_mem os LogicalAddrPtr Length Value);; mret (AE_OK, Value)
        else mret (AE_BAD_PARAMETER, Value)
  end.

Definition AcpiExSystemIoSpaceHandler (Function Address BitWidth Value HandlerContext RegionContext : Z) : M S (ACPI_STATUS * Z) :=
  if Function =? ACPI_READ then
    on_host (AcpiHwReadPort (os_ReadPort os) (gbl_OsiData os) (gbl_TruncateIoAddresses os) Address unassigned BitWidth)
  else if Function =? ACPI_WRITE then
    Status ← on_host (AcpiHwWritePort (os_WritePort os) (gbl_OsiData os) (gbl_TruncateIoAddresses os) Address (u32 Value) BitWidth);
    mret (Status, Value)
  else mret (AE_BAD_PARAMETER, Value).

Definition AcpiExPciConfigSpaceHandler (Function Address BitWidth Value HandlerContext RegionContext : Z) : M S (ACPI_STATUS * Z) :=
  let PciId := RegionContext in
  let PciRegister := u16 Address in
  if Function =? ACPI_READ then on_host (os_ReadPciConfiguration os PciId PciRegister 0 BitWidth)
  else if Function =? ACPI_WRITE then
    Status ← on_host (os_WritePciConfiguration os PciId PciRegister Value BitWidth);
    mret (Status, Value)
  else mret (AE_BAD_PARAMETER, Value).

Definition AcpiExCmosSpaceHandler (Function Address BitWidth Value HandlerContext RegionContext : Z) : M S (ACPI_STATUS * Z) :=
  mret (AE_OK, Value).
Definition AcpiExPciBarSpaceHandler (Function Address BitWidth Value HandlerContext RegionContext : Z) : M S (ACPI_STATUS * Z) :=
  mret (AE_OK, Value).

(** [memcpy] between the low bytes of the value and the memory. *)
Definition AcpiExDataTableSpaceHandler (Function Address BitWidth Value HandlerContext RegionContext : Z) : M S (ACPI_STATUS * Z) :=
  let n := ACPI_DIV_8 BitWidth in
  if Function =? ACPI_READ then
    v ← on_host (get_mem os Address n);
    mret (AE_OK, le (splice 0 (bytes_of (Z.to_nat n) v) (bytes_of 8 Value)))
  else if Function =? ACPI_WRITE then on_host (set_mem os Address n Value);; mret (AE_OK, Value)
  else mret (AE_BAD_PARAMETER, Value).

Definition call_space_handler (h : handler_function) : Z → Z → Z → Z → Z → Z → M S (ACPI_STATUS * Z) :=
  match h with
  | AcpiExSystemMemorySpace => AcpiExSystemMemorySpaceHandler
  | AcpiExSystemIoSpace => AcpiExSystemIoSpaceHandler
  | AcpiExPciConfigSpace => AcpiExPciConfigSpaceHandler
  | AcpiExCmosSpace => AcpiExCmosSpaceHandler
  | AcpiExPciBarSpace => AcpiExPciBarSpaceHandler
  | AcpiExDataTableSpace => AcpiExDataTableSpaceHandler
  | UserHandler p => user_handler drv p
  end.

(** ** Setting up a region: the status, and the context of the region *)

Definition AcpiEvSystemMemoryRegionSetup (Handle Function HandlerContext RegionContext : Z) : M S (ACPI_STATUS * Z) :=
  if Function =? ACPI_REGION_DEACTIVATE then
    if negb (RegionContext =? 0) then
      m ← on_contexts (load RegionContext);
      (if negb (MappedLength m =? 0) then on_host (os_UnmapMemory os (MappedLogicalAddress m) (MappedLength m)) else mret tt);;
      on_host (os_Free os RegionContext);;
      on_contexts (λ c, Ret tt (delete RegionContext c));;
      mret (AE_OK, 0)
    else mret (AE_OK, RegionContext)
  else
    LocalRegionContext ← on_host (os_Allocate os sizeof_ACPI_MEM_SPACE_CONTEXT);
    if LocalRegionContext =? 0 then mret (AE_NO_MEMORY, RegionContext)
    else
      r ← get_region Handle;
      on_contexts (λ c, Ret tt (<[LocalRegionContext := MemSpaceContext (r_Length r) (r_Address r) 0 0 0]> c));;
      mret (AE_OK, LocalRegionContext).

Definition AcpiEvIoSpaceRegionSetup (Handle Function HandlerContext RegionContext : Z) : M S (ACPI_STATUS * Z) :=
  mret (AE_OK, if Function =? ACPI_REGION_DEACTIVATE then 0 else HandlerContext).
Definition AcpiEvPciBarRegionSetup (Handle Function HandlerContext RegionContext : Z) : M S (ACPI_STATUS * Z) := mret (AE_OK, RegionContext).
Definition AcpiEvCmosRegionSetup (Handle Function HandlerContext RegionContext : Z) : M S (ACPI_STATUS * Z) := mret (AE_OK, RegionContext).
Definition AcpiEvDefaultRegionSetup (Handle Function HandlerContext RegionContext : Z) : M S (ACPI_STATUS * Z) :=
  mret (AE_OK, if Function =? ACPI_REGION_DEACTIVATE then 0 else HandlerContext).

Definition call_setup (f : setup_function) : Z → Z → Z → Z → M S (ACPI_STATUS * Z) :=
  match f with
  | AcpiEvSystemMemoryRegion => AcpiEvSystemMemoryRegionSetup
  | AcpiEvIoSpaceRegion => AcpiEvIoSpaceRegionSetup
  | AcpiEvPciConfigRegion => pci_setup drv
  | AcpiEvCmosRegion => AcpiEvCmosRegionSetup
  | AcpiEvPciBarRegion => AcpiEvPciBarRegionSetup
  | AcpiEvDefaultRegion => AcpiEvDefaultRegionSetup
  | UserSetup p => user_setup drv p
  end.

(** The part of AcpiEvInstallSpaceHandler that chooses the functions for
    [ACPI_DEFAULT_HANDLER]. *)
Definition default_handler (SpaceId : Z) : option addr_handler :=
  let handler h setup := Some (AddrHandler ACPI_ADDR_HANDLER_DEFAULT_INSTALLED h 0 (Some setup)) in
  if SpaceId =? 0 (* SYSTEM_MEMORY *) then handler AcpiExSystemMemorySpace AcpiEvSystemMemoryRegion
  else if SpaceId =? 1 (* SYSTEM_IO *) then handler AcpiExSystemIoSpace AcpiEvIoSpaceRegion
  else if SpaceId =? 2 (* PCI_CONFIG *) then handler AcpiExPciConfigSpace AcpiEvPciConfigRegion
  else if SpaceId =? 5 (* CMOS *) then handler AcpiExCmosSpace AcpiEvCmosRegion
  else if SpaceId =? 6 (* PCI_BAR_TARGET *) then handler AcpiExPciBarSpace AcpiEvPciBarRegion
  else if SpaceId =? ACPI_ADR_SPACE_DATA_TABLE then handler AcpiExDataTableSpace AcpiEvDefaultRegion
  else None.

(** ** The dispatch *)

(** 0 is the null pointer. *)
Definition AcpiNsGetSecondaryObject (ObjDesc : Z) : M S Z :=
  if ObjDesc =? 0 then mret 0
  else
    o ← on_objects (load ObjDesc);
    match o with
    | OData => mret 0
    | ORegion r =>
        if NextObject r =? 0 then mret 0
        else
          n ← on_objects (load (NextObject r));
          mret (match n with OData => 0 | _ => NextObject r end)
    | _ => fault
    end.

Definition get_handler (p : Z) : M S addr_handler :=
  o ← on_objects (load p);
  match o with OAddressSpace h => mret h | _ => fault end.
Definition get_context (p : Z) : M S Z :=
  o ← on_objects (load p);
  match o with OExtra c => mret c | _ => fault end.

Definition set_complete (o : operand) : operand :=
  match o with
  | ORegion r => ORegion (Region (r_DATA_VALID r) true (NextObject r) (SpaceId r) (r_Handler r) (r_Address r) (r_Length r))
  | _ => o
  end.

(** A region that was never used is set up. *)
Definition setup_dispatch (RegionObj RegionObj2 : Z) (h : addr_handler) : M S ACPI_STATUS :=
  r ← get_region RegionObj;
  if negb (r_SETUP_COMPLETE r) then
    match h_Setup h with
    | None => mret AE_NOT_EXIST
    | Some RegionSetup =>
        AcpiExExitInterpreter;;
        '(Status, RegionContext) ← call_setup RegionSetup RegionObj ACPI_REGION_ACTIVATE (h_Context h) 0;
        AcpiExEnterInterpreter;;
        if negb (ok Status) then mret Status
        else
          r ← get_region RegionObj;
          if negb (r_SETUP_COMPLETE r) then
            on_objects (update RegionObj set_complete);;
            c ← get_context RegionObj2;
            (if c =? 0 then on_objects (update RegionObj2 (λ _, OExtra RegionContext)) else mret tt);;
            mret AE_OK
          else mret AE_OK
    end
  else mret AE_OK.

Definition AcpiEvAddressSpaceDispatch (RegionObj FieldObj Function RegionOffset BitWidth Value : Z) : M S (ACPI_STATUS * Z) :=
  RegionObj2 ← AcpiNsGetSecondaryObject RegionObj;
  if RegionObj2 =? 0 then mret (AE_NOT_EXIST, Value)
  else
    r ← get_region RegionObj;
    if r_Handler r =? 0 then mret (AE_NOT_EXIST, Value)
    else
      h ← get_handler (r_Handler r);
      let Context := h_Context h in
      Status ← setup_dispatch RegionObj RegionObj2 h;
      if negb (ok Status) then mret (Status, Value)
      else
        r ← get_region RegionObj;
        let Address := u32 (r_Address r + RegionOffset) in
        let connection f := on_connections (update Context (λ _, ConnectionInfo (ResourceBuffer f) (ResourceLength f) (AccessLength f))) in
        (if (SpaceId r =? ACPI_ADR_SPACE_GSBUS) && negb (Context =? 0) && negb (FieldObj =? 0) then f ← get_field FieldObj; connection f else mret tt);;
        '(Address, BitWidth) ←
          (if (SpaceId r =? ACPI_ADR_SPACE_GPIO) && negb (Context =? 0) && negb (FieldObj =? 0) then
             f ← get_field FieldObj; connection f;; mret (PinNumberIndex f, BitLength f)
           else mret (Address, BitWidth));
        let default := negb (Z.land (HandlerFlags h) ACPI_ADDR_HANDLER_DEFAULT_INSTALLED =? 0) in
        (if default then mret tt else AcpiExExitInterpreter);;
        RegionContext ← get_context RegionObj2;
        result ← call_space_handler (h_Handler h) Function Address BitWidth Value Context RegionContext;
        (if default then mret tt else AcpiExEnterInterpreter);;
        mret result.
End Regions.
