(* ===== verification/AcpiRegionSpec.v ===== *)
(** * ACPICA: fields in system memory

    What AcpiRegion.v expects of the memory functions of a host is the class
    [OsMemory]: a mapping makes a range of physical memory accessible, and there
    are resources for a number of mappings.  With it, the dispatch and the
    handler of system memory are a region in the sense of AcpiFieldNamed.v, so
    that a field of such a region is bits of the physical memory.  The mapping a
    region caches only ever moves towards the start of the region, which bounds
    how many mappings are made. *)

From stdpp Require Import base numbers list gmap fin_maps.
From S2P Require Import Prelude UtList AcpiUtil AcpiBits AcpiField AcpiFieldSpec AcpiFieldNamed AcpiOwner AcpiPorts AcpiRegion.

(** ** Memory as numbers *)

Definition bytes_in (m : Z → Z) (a : Z) (n : nat) : list Z := (λ i, m (a + Z.of_nat i)) <$> seq 0 n.
Definition memory_bits (m : Z → Z) (a : Z) (n : nat) : Z := le (bytes_in m a n).

Lemma bytes_in_length m a n : length (bytes_in m a n) = n.
Proof. unfold bytes_in. by rewrite length_fmap, length_seq. Qed.

Lemma bytes_in_bytes m a n : (∀ x, 0 ≤ m x < 256) → are_bytes (bytes_in m a n).
Proof. intros H. apply Forall_fmap, Forall_forall. intros i _. apply H. Qed.

Lemma bytes_in_ext m m' a n : (∀ x, a ≤ x < a + Z.of_nat n → m x = m' x) → bytes_in m a n = bytes_in m' a n.
Proof. intros H. apply list_fmap_ext. intros i x Hx%lookup_seq. apply H. lia. Qed.

Lemma slice_bytes_in m a n o w : (o + w ≤ n)%nat → slice o w (bytes_in m a n) = bytes_in m (a + Z.of_nat o) w.
Proof.
  intros H. unfold slice, bytes_in. rewrite <- fmap_drop, <- fmap_take, drop_seq, take_seq. replace (w `min` (n - o))%nat with w by lia.
  rewrite Nat.add_0_l, <- (Nat.add_0_r o) at 1. rewrite <- fmap_add_seq, <- list_fmap_compose. apply list_fmap_ext. intros i x _. cbn. f_equal. lia.
Qed.

(** A part of a memory, as bits of the whole. *)
Lemma memory_part m a n o w : (∀ x, 0 ≤ m x < 256) → 0 ≤ o → 0 ≤ w → o + w ≤ Z.of_nat n →
  memory_bits m (a + o) (Z.to_nat w) = bits_get (memory_bits m a n) (8 * o) (8 * w).
Proof.
  intros Hm Ho Hw Hs. unfold memory_bits. rewrite <- (Z2Nat.id o), <- (Z2Nat.id w) at 2 by lia.
  rewrite <- (Z2Nat.id w) at 1 by lia. rewrite Nat2Z.id. rewrite <- le_slice by (by apply bytes_in_bytes). rewrite slice_bytes_in by lia. by rewrite Z2Nat.id by lia.
Qed.

Lemma le_bit bs k : are_bytes bs → 0 ≤ k → Z.testbit (le bs) k = match bs !! Z.to_nat (k / 8) with Some b => Z.testbit b (k mod 8) | None => false end.
Proof.
  intros HB Hk. pose proof (Z.div_mod k 8 ltac:(lia)). pose proof (Z.mod_pos_bound k 8 ltac:(lia)). pose proof (Z.div_pos k 8 Hk ltac:(lia)).
  destruct (bs !! Z.to_nat (k / 8)) as [b|] eqn:E.
  - assert (drop (Z.to_nat (k / 8)) bs = b :: drop (Datatypes.S (Z.to_nat (k / 8))) bs) as Hd by (by apply drop_S).
    pose proof (le_drop bs (Z.to_nat (k / 8)) HB) as Hl. rewrite Hd, Z2Nat.id in Hl by lia. cbn [le] in Hl.
    apply (f_equal (λ z, Z.testbit z (k mod 8))) in Hl. rewrite Z.shiftr_spec in Hl by lia. replace (k mod 8 + 8 * (k / 8)) with k in Hl by lia. rewrite <- Hl.
    rewrite <- (Z.mod_pow2_bits_low _ 8) by lia. change (2 ^ 8) with 256. rewrite (Z.mul_comm 256), Z.mod_add by lia.
    rewrite Z.mod_small; [done|]. pose proof (proj1 (Forall_forall _ _) HB b) as Hb. apply Hb. by eapply list_elem_of_lookup_2.
  - apply lookup_ge_None in E. apply (high_bit_clear _ (8 * Z.of_nat (length bs))); [by apply le_range|lia|done].
Qed.

Lemma memory_bit m a n k : (∀ x, 0 ≤ m x < 256) → 0 ≤ k → Z.testbit (memory_bits m a n) k = (k <? 8 * Z.of_nat n) && Z.testbit (m (a + k / 8)) (k mod 8).
Proof.
  intros Hm Hk. pose proof (Z.div_mod k 8 ltac:(lia)). pose proof (Z.mod_pos_bound k 8 ltac:(lia)). pose proof (Z.div_pos k 8 Hk ltac:(lia)).
  unfold memory_bits. rewrite le_bit by (done || by apply bytes_in_bytes). unfold bytes_in. rewrite list_lookup_fmap. destruct (Z.ltb_spec k (8 * Z.of_nat n)).
  - rewrite lookup_seq_lt by lia. cbn. by rewrite Z2Nat.id by lia.
  - by rewrite lookup_seq_ge by lia.
Qed.

(** A store, seen in a memory and in the number it is. *)
Definition stored_at (m : Z → Z) (a w v : Z) (x : Z) : Z := if (a <=? x) && (x <? a + w) then bits_get v (8 * (x - a)) 8 else m x.

Lemma memory_store m m' a n o w v : (∀ x, 0 ≤ m x < 256) → (∀ x, m' x = stored_at m (a + o) w v x) → 0 ≤ o → 0 ≤ w → o + w ≤ Z.of_nat n →
  memory_bits m' a n = bits_set (memory_bits m a n) (8 * o) (8 * w) v.
Proof.
  intros Hm Hm' Ho Hw Hs. assert (∀ x, 0 ≤ m' x < 256) as Hb.
  { intros x. rewrite Hm'. unfold stored_at. destruct (_ && _); [|done]. by apply (bits_get_nonneg v _ 8). }
  apply bits_eq. intros k Hk. pose proof (Z.div_mod k 8 ltac:(lia)). pose proof (Z.mod_pos_bound k 8 ltac:(lia)).
  rewrite bits_set_bit, !memory_bit by (done || lia). rewrite Hm'. unfold stored_at.
  destruct (Z.leb_spec (8 * o) k), (Z.ltb_spec k (8 * o + 8 * w)); cbn [andb].
  - rewrite (proj2 (Z.leb_le _ _)), (proj2 (Z.ltb_lt (a + k / 8) _)), (proj2 (Z.ltb_lt k _)) by lia. cbn [andb]. rewrite bits_get_bit by lia.
    rewrite (proj2 (Z.ltb_lt (k mod 8) 8)) by lia. cbn [andb]. f_equal. lia.
  - by rewrite (proj2 (Z.ltb_ge (a + k / 8) _)), andb_false_r by lia.
  - by rewrite (proj2 (Z.leb_gt (a + o) _)) by lia.
  - by rewrite (proj2 (Z.leb_gt (a + o) _)) by lia.
Qed.

(** ** The memory of a host *)

Section Memory.
Context {K : Type} (os : os_layer K) (drv : drivers K) (unassigned : Z).
Abbreviation S := (acpi_state (world K)).
Abbreviation dispatch := (AcpiEvAddressSpaceDispatch os drv unassigned).

(** In a state that is [ready n], [n] mappings can be made, one at a time; in one
    that is [opened n k l p len], the [len] bytes of physical memory at [p] are
    mapped at [l], and [n] mappings can be made after this one. *)
Class OsMemory (ready : nat → K → Prop) (opened : nat → K → Z → Z → Z → Prop) (mem : K → Z → Z) (limit : Z) : Prop := {
  om_limit : limit + 4096 ≤ W32;
  om_byte : ∀ k x, 0 ≤ mem k x < 256;
  om_map : ∀ n k p len, ready (Datatypes.S n) k → 0 ≤ p → 0 < len → p + len ≤ limit →
    ∃ l k', os_MapMemory os p len k = Ret l k' ∧ l ≠ 0 ∧ opened n k' l p len ∧ ∀ x, mem k' x = mem k x;
  om_unmap : ∀ n k l p len, opened n k l p len →
    ∃ k', os_UnmapMemory os l len k = Ret tt k' ∧ ready n k' ∧ ∀ x, mem k' x = mem k x;
  om_range : ∀ n k l p len, opened n k l p len → 0 ≤ l ∧ l + len < W32;
  om_get : ∀ n k l p len i w, opened n k l p len → 0 ≤ i → w ∈ [1; 2; 4; 8] → i + w ≤ len →
    get_mem os (l + i) w k = Ret (memory_bits (mem k) (p + i) (Z.to_nat w)) k;
  om_set : ∀ n k l p len i w v, opened n k l p len → 0 ≤ i → w ∈ [1; 2; 4; 8] → i + w ≤ len → 0 ≤ v < 2 ^ 64 →
    ∃ k', set_mem os (l + i) w v k = Ret tt k' ∧ opened n k' l p len ∧ ∀ x, mem k' x = stored_at (mem k) (p + i) w v x
}.

Context {ready : nat → K → Prop} {opened : nat → K → Z → Z → Z → Prop} {mem : K → Z → Z} {limit : Z} `{!OsMemory ready opened mem limit}.

(** A region of system memory that is set up, and lies in one page. *)
Record memory_region (rp : Z) (r : region) : Prop := {
  mr_rp : rp ≠ 0;
  mr_space : SpaceId r = 0;
  mr_valid : r_DATA_VALID r = true;
  mr_complete : r_SETUP_COMPLETE r = true;
  mr_next : NextObject r ≠ 0;
  mr_handler : r_Handler r ≠ 0;
  mr_address : 0 ≤ r_Address r;
  mr_length : 0 < r_Length r;
  mr_limit : r_Address r + r_Length r ≤ limit;
  mr_page : (r_Address r + r_Length r - 1) / 4096 = r_Address r / 4096
}.

(** The mapping the context of a region caches, and that there are resources to
    move it down to the start of the region. *)
Definition mapping_ok (r : region) (m : ACPI_MEM_SPACE_CONTEXT) (k : K) : Prop :=
  m_Length m = r_Length r ∧ m_Address m = r_Address r ∧
  ((MappedLength m = 0 ∧ MappedPhysicalAddress m = 0 ∧ ∃ n, r_Length r ≤ Z.of_nat n ∧ ready n k) ∨
   (∃ n, opened n k (MappedLogicalAddress m) (MappedPhysicalAddress m) (MappedLength m) ∧
      r_Address r ≤ MappedPhysicalAddress m < r_Address r + r_Length r ∧
      MappedPhysicalAddress m + MappedLength m = r_Address r + r_Length r ∧ MappedPhysicalAddress m - r_Address r ≤ Z.of_nat n)).

(** The region's memory is the number [R], and the memory outside of it is as in
    [m0]. *)
Definition in_memory (rp : Z) (r : region) (c : Z) (m0 : Z → Z) (R : Z) (s : S) : Prop :=
  objects s !! rp = Some (ORegion r) ∧ objects s !! NextObject r = Some (OExtra c) ∧
  objects s !! r_Handler r = OAddressSpace <$> default_handler (SpaceId r) ∧
  (∃ m, contexts (outside s) !! c = Some m ∧ mapping_ok r m (host (outside s))) ∧
  R = memory_bits (mem (host (outside s))) (r_Address r) (Z.to_nat (r_Length r)) ∧
  ∀ x, x < r_Address r ∨ r_Address r + r_Length r ≤ x → mem (host (outside s)) x = m0 x.

Definition set_host (k : K) (s : S) : S :=
  IState (objects s) (World (contexts (outside s)) (connections (outside s)) (acpi_globals (outside s)) k).
Definition set_contexts (c : gmap Z ACPI_MEM_SPACE_CONTEXT) (s : S) : S :=
  IState (objects s) (World c (connections (outside s)) (acpi_globals (outside s)) (host (outside s))).

Lemma on_host_ok {A} (m : M K A) (s : S) a k : m (host (outside s)) = Ret a k → on_host m s = Ret a (set_host k s).
Proof. intros E. unfold on_host, zoom. by rewrite E. Qed.

Lemma on_contexts_load (s : S) c m : contexts (outside s) !! c = Some m → on_contexts (load c) s = Ret m s.
Proof. intros E. unfold on_contexts, zoom, load. rewrite E. by destruct s as [? []]. Qed.

Lemma on_contexts_update (s : S) c m f : contexts (outside s) !! c = Some m →
  on_contexts (update c f) s = Ret tt (set_contexts (<[c := f m]> (contexts (outside s))) s).
Proof.
  intros E. unfold on_contexts, zoom, update. assert (load c (contexts (outside s)) = Ret m (contexts (outside s))) as El by (unfold load; by rewrite E).
  rewrite (bind_ret _ _ _ _ _ El). unfold store. by rewrite E.
Qed.

(** The new mapping goes up to the end of the region. *)
Lemma map_length_ok rp r m a : memory_region rp r → m_Length m = r_Length r → m_Address m = r_Address r →
  r_Address r ≤ a < r_Address r + r_Length r → map_length m a = r_Address r + r_Length r - a.
Proof.
  intros [_ _ _ _ _ _ HA HL Hlim Hpage] Hml Hma Ha. pose proof om_limit. unfold map_length. rewrite Hml, Hma, (u32_small (r_Address r + r_Length r)), (u32_small (r_Address r + r_Length r - a)) by lia.
  change (ACPI_ROUND_UP a ACPI_DEFAULT_PAGE_SIZE) with (ACPI_ROUND_DOWN (u32 a + 4095) (2 ^ 12)). rewrite (u32_small a) by lia. rewrite round_down by lia.
  change (2 ^ 12) with 4096. set (E := r_Address r + r_Length r) in *.
  pose proof (Z.div_mod (E - 1) 4096 ltac:(lia)). pose proof (Z.mod_pos_bound (E - 1) 4096 ltac:(lia)).
  pose proof (Z.div_mod (r_Address r) 4096 ltac:(lia)). pose proof (Z.mod_pos_bound (r_Address r) 4096 ltac:(lia)).
  pose proof (Z.div_mod (a + 4095) 4096 ltac:(lia)). pose proof (Z.mod_pos_bound (a + 4095) 4096 ltac:(lia)).
  rewrite u32_small by lia. destruct (Z.eqb_spec (a + 4095 - (a + 4095) mod 4096 - a) 0); rewrite (proj2 (Z.ltb_ge _ _)); lia.
Qed.

(** What a request needs is mapped afterwards. *)
Lemma map_request_ok rp r c m (s : S) a w : memory_region rp r → contexts (outside s) !! c = Some m → mapping_ok r m (host (outside s)) →
  r_Address r ≤ a → 0 < w → a + w ≤ r_Address r + r_Length r →
  ∃ m' k', map_request os c a w s = Ret AE_OK (set_contexts (<[c := m']> (contexts (outside s))) (set_host k' s)) ∧
    mapping_ok r m' k' ∧ (∀ x, mem k' x = mem (host (outside s)) x) ∧
    MappedPhysicalAddress m' ≤ a ∧ a + w ≤ MappedPhysicalAddress m' + MappedLength m'.
Proof.
  intros Hr Hm (Hml & Hma & Hmap) Ha Hw He. pose proof (mr_address _ _ Hr). pose proof (mr_limit _ _ Hr). pose proof om_limit.
  unfold map_request. step (on_contexts_load s c m Hm).
  assert (map_length m a = r_Address r + r_Length r - a) as Hlen by (eapply map_length_ok; try done; lia).
  assert (∀ n k, ready (Datatypes.S n) k → a - r_Address r ≤ Z.of_nat n → (∀ x, mem k x = mem (host (outside s)) x) →
    ∃ m' k', (logical ← on_host (os_MapMemory os a (map_length m a));
      if logical =? 0 then on_contexts (update c (λ m, set_mapping (MappedPhysicalAddress m) 0 0 m));; mret AE_NO_MEMORY
      else on_contexts (update c (set_mapping a logical (map_length m a)));; mret AE_OK) (set_host k s) =
      Ret AE_OK (set_contexts (<[c := m']> (contexts (outside s))) (set_host k' s)) ∧ mapping_ok r m' k' ∧ (∀ x, mem k' x = mem (host (outside s)) x) ∧
      MappedPhysicalAddress m' ≤ a ∧ a + w ≤ MappedPhysicalAddress m' + MappedLength m') as Hnew.
  { intros n k Hn Hbud Hmem. rewrite Hlen. assert (a + (r_Address r + r_Length r - a) ≤ limit) as Hfit by lia. assert (0 < r_Address r + r_Length r - a) as Hpos by lia.
    assert (0 ≤ a) as Ha0 by lia. destruct (om_map n k a (r_Address r + r_Length r - a) Hn Ha0 Hpos Hfit) as (l & k' & E & Hl & Ho & Hmem').
    exists (set_mapping a l (r_Address r + r_Length r - a) m), k'. step (on_host_ok _ (set_host k s) l k' E). rewrite (proj2 (Z.eqb_neq l 0)) by done.
    step (on_contexts_update (set_host k' (set_host k s)) c m (set_mapping a l (r_Address r + r_Length r - a)) Hm). split; [done|]. split.
    - split; [done|]. split; [done|]. right. exists n. cbn. split; [done|]. lia.
    - split; [intros x; by rewrite Hmem'|]. cbn. lia. }
  destruct Hmap as [(Hz & Hp & n & Hn & Hready)|(n & Hopen & Hrange & Hend & Hbud)].
  - rewrite Hz, Hp, Z.add_0_r, (proj2 (Z.ltb_lt 0 (a + w))) by lia. rewrite orb_true_r. cbn [Z.eqb negb]. step (ret_ok tt s).
    destruct n as [|n]; [pose proof (mr_length _ _ Hr); lia|]. destruct (Hnew n (host (outside s)) Hready) as (m' & k' & E & Hres); [lia|done|].
    exists m', k'. split; [|done]. rewrite <- E. by destruct s as [? []].
  - destruct (Z.ltb_spec a (MappedPhysicalAddress m)); cbn [orb].
    + rewrite (proj2 (Z.eqb_neq (MappedLength m) 0)) by lia. cbn [negb].
      destruct (om_unmap n (host (outside s)) _ _ _ Hopen) as (k & E & Hready & Hmem). step (on_host_ok _ s tt k E).
      destruct n as [|n]; [lia|]. apply (Hnew n k Hready); [lia|done].
    + rewrite (proj2 (Z.ltb_ge (MappedPhysicalAddress m + _) _)) by lia. exists m, (host (outside s)). rewrite insert_id by done.
      split; [by destruct s as [? []]|]. split; [|split; [done|lia]]. split; [done|]. split; [done|]. right. by exists n.
Qed.

Lemma width_divides w : 1 ≤ w ≤ 8 → (w | 8) → w ∈ [1; 2; 4; 8] ∧ memory_width (8 * w) = Some w.
Proof.
  intros Hw [q Hq]. assert (w = 1 ∨ w = 2 ∨ w = 4 ∨ w = 8) as [H|[H|[H|H]]].
  { assert (w = 1 ∨ w = 2 ∨ w = 3 ∨ w = 4 ∨ w = 5 ∨ w = 6 ∨ w = 7 ∨ w = 8) as H by lia. naive_solver lia. }
  all: rewrite H; split; [set_solver|done].
Qed.

(** The state after an access: another mapping, and another memory. *)
Definition remapped (s : S) (c : Z) (m : ACPI_MEM_SPACE_CONTEXT) (k : K) : S := set_contexts (<[c := m]> (contexts (outside s))) (set_host k s).

Section Handler.
Variable rp c : Z.
Variable r : region.
Variable m0 : Z → Z.
Hypothesis Hr : memory_region rp r.

(** The window that is mapped for an access. *)
Lemma mapped_window m k a w : mapping_ok r m k → MappedPhysicalAddress m ≤ a → a + w ≤ MappedPhysicalAddress m + MappedLength m → r_Address r ≤ a → 0 < w →
  ∃ n, opened n k (MappedLogicalAddress m) (MappedPhysicalAddress m) (MappedLength m) ∧
    u32 (MappedLogicalAddress m + (a - MappedPhysicalAddress m)) = MappedLogicalAddress m + (a - MappedPhysicalAddress m) ∧
    ∀ k', opened n k' (MappedLogicalAddress m) (MappedPhysicalAddress m) (MappedLength m) → mapping_ok r m k'.
Proof.
  intros (Hml & Hma & [(Hz & Hp & _)|(n & Ho & Hrest)]) H1 H2 Ha Hw; [pose proof (mr_address _ _ Hr); lia|].
  exists n. split; [done|]. pose proof (om_range _ _ _ _ _ Ho). split; [apply u32_small; lia|].
  intros k' Ho'. split; [done|]. split; [done|]. right. by exists n.
Qed.

Lemma memory_read R s o w : in_memory rp r c m0 R s → 0 ≤ o → 1 ≤ w ≤ 8 → (w | 8) → o + w ≤ r_Length r →
  ∃ s', AcpiExSystemMemorySpaceHandler os ACPI_READ (r_Address r + o) (8 * w) 0 0 c s = Ret (AE_OK, bits_get R (8 * o) (8 * w)) s' ∧
    in_memory rp r c m0 R s' ∧ objects s' = objects s.
Proof.
  intros (H1 & H2 & H3 & (m & Hm & Hmap) & HR & Hout) Ho Hw Hw8 Hs. destruct (width_divides w Hw Hw8) as [Hin Hmw]. unfold AcpiExSystemMemorySpaceHandler. rewrite Hmw.
  destruct (map_request_ok rp r c m s (r_Address r + o) w Hr Hm Hmap) as (m' & k' & E & Hmap' & Hmem & Hlo & Hhi); [lia..|].
  step E. change (negb (ok AE_OK)) with false. cbv iota. fold (remapped s c m' k').
  assert (contexts (outside (remapped s c m' k')) !! c = Some m') as Hm' by (cbn; apply lookup_insert_eq). step (on_contexts_load _ c m' Hm').
  destruct (mapped_window m' k' (r_Address r + o) w Hmap' Hlo Hhi) as (n & Hopen & Hu & Hkeep); [lia..|]. rewrite Hu. cbn [Z.eqb Pos.eqb].
  assert (0 ≤ r_Address r + o - MappedPhysicalAddress m') as Hi0 by lia.
  assert (r_Address r + o - MappedPhysicalAddress m' + w ≤ MappedLength m') as Hi by lia.
  step (on_host_ok _ (remapped s c m' k') _ _ (om_get _ _ _ _ _ _ w Hopen Hi0 Hin Hi)).
  assert (∀ a n, memory_bits (mem k') a n = memory_bits (mem (host (outside s))) a n) as Hsame.
  { intros a j. unfold memory_bits. by rewrite (bytes_in_ext (mem k') (mem (host (outside s)))) by (intros; apply Hmem). }
  replace (MappedPhysicalAddress m' + (r_Address r + o - MappedPhysicalAddress m')) with (r_Address r + o) by lia.
  rewrite (memory_part (mem k') (r_Address r) (Z.to_nat (r_Length r))) by (lia || apply om_byte). rewrite Hsame, <- HR.
  eexists. split; [done|]. split; [|done]. split_and!; [done..| | |].
  - by exists m'.
  - cbn. by rewrite Hsame.
  - intros x Hx. cbn. by rewrite Hmem, Hout.
Qed.

Lemma memory_write R s o w v : in_memory rp r c m0 R s → 0 ≤ o → 1 ≤ w ≤ 8 → (w | 8) → o + w ≤ r_Length r → 0 ≤ v < 2 ^ 64 →
  ∃ s', AcpiExSystemMemorySpaceHandler os ACPI_WRITE (r_Address r + o) (8 * w) v 0 c s = Ret (AE_OK, v) s' ∧
    in_memory rp r c m0 (bits_set R (8 * o) (8 * w) v) s' ∧ objects s' = objects s.
Proof.
  intros (H1 & H2 & H3 & (m & Hm & Hmap) & HR & Hout) Ho Hw Hw8 Hs Hv. destruct (width_divides w Hw Hw8) as [Hin Hmw]. unfold AcpiExSystemMemorySpaceHandler. rewrite Hmw.
  destruct (map_request_ok rp r c m s (r_Address r + o) w Hr Hm Hmap) as (m' & k' & E & Hmap' & Hmem & Hlo & Hhi); [lia..|].
  step E. change (negb (ok AE_OK)) with false. cbv iota. fold (remapped s c m' k').
  assert (contexts (outside (remapped s c m' k')) !! c = Some m') as Hm' by (cbn; apply lookup_insert_eq). step (on_contexts_load _ c m' Hm').
  destruct (mapped_window m' k' (r_Address r + o) w Hmap' Hlo Hhi) as (n & Hopen & Hu & Hkeep); [lia..|]. rewrite Hu. cbn [Z.eqb Pos.eqb].
  assert (0 ≤ r_Address r + o - MappedPhysicalAddress m') as Hi0 by lia.
  assert (r_Address r + o - MappedPhysicalAddress m' + w ≤ MappedLength m') as Hi by lia.
  destruct (om_set _ _ _ _ _ _ w v Hopen Hi0 Hin Hi Hv) as (k2 & E2 & Hopen2 & Hmem2). step (on_host_ok _ (remapped s c m' k') _ _ E2).
  replace (MappedPhysicalAddress m' + (r_Address r + o - MappedPhysicalAddress m')) with (r_Address r + o) in Hmem2 by lia.
  eexists. split; [done|]. split; [|done]. split_and!; [done..| | |].
  - exists m'. split; [done|]. by apply Hkeep.
  - cbn. rewrite HR. rewrite <- (memory_store (mem (host (outside s))) (mem k2) (r_Address r) (Z.to_nat (r_Length r)) o w v); [done|apply om_byte| |lia..].
    intros x. rewrite Hmem2. unfold stored_at. by rewrite Hmem.
  - intros x Hx. cbn. rewrite Hmem2. unfold stored_at. rewrite Hmem, <- Hout by done. by destruct (Z.leb_spec (r_Address r + o) x), (Z.ltb_spec x (r_Address r + o + w)); try lia.
Qed.

Lemma get_region_ok (s : S) p q : objects s !! p = Some (ORegion q) → get_region p s = Ret q s.
Proof. intros E. unfold get_region. by step (on_objects_load s _ _ E). Qed.

(** An access to the region is one of the handler, at its place in memory. *)
Lemma dispatch_memory R s obj Function o w v : in_memory rp r c m0 R s → 0 ≤ o → o + w ≤ r_Length r → 0 < w →
  dispatch rp obj Function o (8 * w) v s = AcpiExSystemMemorySpaceHandler os Function (r_Address r + o) (8 * w) v 0 c s.
Proof.
  intros (H1 & H2 & H3 & _) Ho Hs Hw. pose proof Hr as [Hrp Hsp _ Hsc Hnx Hh HA HL Hlim _]. pose proof om_limit.
  unfold AcpiEvAddressSpaceDispatch, AcpiNsGetSecondaryObject. rewrite (proj2 (Z.eqb_neq rp 0)) by done.
  step (on_objects_load s _ _ H1). rewrite (proj2 (Z.eqb_neq (NextObject r) 0)) by done. step (on_objects_load s _ _ H2). step (ret_ok (NextObject r) s).
  rewrite (proj2 (Z.eqb_neq (NextObject r) 0)) by done. step (get_region_ok s _ _ H1). rewrite (proj2 (Z.eqb_neq (r_Handler r) 0)) by done.
  rewrite Hsp in H3. cbn in H3. unfold get_handler. step (on_objects_load s _ _ H3). set (h := AddrHandler _ _ _ _). step (ret_ok h s).
  unfold setup_dispatch. step (get_region_ok s _ _ H1). rewrite Hsc. cbn [negb]. step (ret_ok AE_OK s). change (negb (ok AE_OK)) with false. cbv iota.
  step (get_region_ok s _ _ H1). rewrite Hsp, u32_small by lia. cbn [Z.eqb andb]. step (ret_ok tt s). step (ret_ok (r_Address r + o, 8 * w) s).
  cbn [h HandlerFlags Z.land Pos.land Z.eqb negb]. step (ret_ok tt s). unfold get_context. step (on_objects_load s _ _ H2). step (ret_ok c s).
  cbn [h_Handler h_Context call_space_handler h]. destruct (AcpiExSystemMemorySpaceHandler os Function (r_Address r + o) (8 * w) v 0 c s) as [[st x] s'| | |] eqn:E;
    [by step E; step (ret_ok tt s')|..]; unfold mbind, M_bind; by rewrite E.
Qed.

#[export] Instance memory_linear : LinearRegion dispatch rp r (in_memory rp r c m0).
Proof.
  split.
  - by intros R s (H1 & _).
  - intros R s (_ & _ & _ & _ & -> & _). apply le_range, bytes_in_bytes. apply om_byte.
  - intros R s obj o w HR Ho Hw Hw8 Hs. rewrite (dispatch_memory R) by (done || lia). by apply memory_read.
  - intros R s obj o w v HR Ho Hw Hw8 Hs Hv. rewrite (dispatch_memory R) by (done || lia). by apply memory_write.
Qed.
End Handler.

(** ** The first access to a region *)

Lemma on_globals_ok {A} (m : M globals A) (s : S) a g : m (acpi_globals (outside s)) = Ret a g →
  on_globals m s = Ret a (IState (objects s) (World (contexts (outside s)) (connections (outside s)) g (host (outside s)))).
Proof. intros E. unfold on_globals, zoom. by rewrite E. Qed.

(** Leaving and entering the interpreter only changes the table of mutexes. *)
Lemma exit_ok (s : S) info : AcpiGbl_MutexInfo (acpi_globals (outside s)) !! 0%nat = Some info →
  ∃ g, AcpiExExitInterpreter s = Ret tt (IState (objects s) (World (contexts (outside s)) (connections (outside s)) g (host (outside s)))) ∧
    is_Some (AcpiGbl_MutexInfo g !! 0%nat).
Proof.
  intros E. assert (∃ st g, AcpiUtReleaseMutex ACPI_MTX_INTERPRETER (acpi_globals (outside s)) = Ret st g ∧ is_Some (AcpiGbl_MutexInfo g !! 0%nat)) as (st & g & Er & Hg).
  { unfold AcpiUtReleaseMutex. cbn [Z.ltb Z.compare]. rewrite bind_get. rewrite (bind_ret _ _ _ _ _ (index_ok _ 0 _ _ ltac:(lia) E)).
    destruct (_ =? _); [by eexists _, _|]. eexists _, _. split; [reflexivity|]. cbn. apply lookup_lt_Some in E.
    apply lookup_lt_is_Some. by rewrite length_insert. }
  exists g. unfold AcpiExExitInterpreter. by step (on_globals_ok _ s st g Er).
Qed.

Lemma enter_ok (s : S) : is_Some (AcpiGbl_MutexInfo (acpi_globals (outside s)) !! 0%nat) →
  ∃ g, AcpiExEnterInterpreter s = Ret tt (IState (objects s) (World (contexts (outside s)) (connections (outside s)) g (host (outside s)))).
Proof.
  intros [info E]. assert (∃ st g, AcpiUtAcquireMutex ACPI_MTX_INTERPRETER (acpi_globals (outside s)) = Ret st g) as (st & g & Er).
  { unfold AcpiUtAcquireMutex. cbn [Z.ltb Z.compare]. rewrite bind_get. rewrite (bind_ret _ _ _ _ _ (index_ok _ 0 _ _ ltac:(lia) E)).
    rewrite decide_True by done. by eexists _, _. }
  exists g. unfold AcpiExEnterInterpreter. by step (on_globals_ok _ s st g Er).
Qed.

Definition completed (r : region) : region := Region (r_DATA_VALID r) true (NextObject r) (SpaceId r) (r_Handler r) (r_Address r) (r_Length r).

(** The set-up of a region of system memory that was never accessed: there is a
    context for it, and the memory is as it was. *)
Lemma setup_memory_ok (s : S) rp r c k n : memory_region rp (completed r) → r_SETUP_COMPLETE r = false →
  objects s !! rp = Some (ORegion r) → objects s !! NextObject r = Some (OExtra 0) →
  objects s !! r_Handler r = OAddressSpace <$> default_handler (SpaceId r) →
  is_Some (AcpiGbl_MutexInfo (acpi_globals (outside s)) !! 0%nat) →
  os_Allocate os sizeof_ACPI_MEM_SPACE_CONTEXT (host (outside s)) = Ret c k → c ≠ 0 →
  ready n k → r_Length r ≤ Z.of_nat n → (∀ x, mem k x = mem (host (outside s)) x) →
  ∃ h s', default_handler (SpaceId r) = Some h ∧ setup_dispatch os drv rp (NextObject r) h s = Ret AE_OK s' ∧
    in_memory rp (completed r) c (mem (host (outside s))) (memory_bits (mem (host (outside s))) (r_Address r) (Z.to_nat (r_Length r))) s'.
Proof.
  intros Hr Hsc H1 H2 H3 [info Hinfo] Hal Hc Hready Hn Hmem. pose proof Hr as [Hrp Hsp _ _ Hnx Hh _ _ _ _]. cbn in Hsp, Hnx, Hh.
  rewrite Hsp in *. cbn in H3. set (h := AddrHandler _ _ _ _) in H3. exists h.
  assert (NextObject r ≠ rp ∧ r_Handler r ≠ rp ∧ r_Handler r ≠ NextObject r) as (N1 & N2 & N3) by (split_and!; intros He; rewrite He in *; congruence).
  unfold setup_dispatch. step (get_region_ok s _ _ H1). rewrite Hsc. cbn [negb h_Setup call_setup h_Context h].
  destruct (exit_ok s info Hinfo) as (g & E1 & Hg). rewrite (bind_ret _ _ _ _ _ E1). set (s1 := IState _ _).
  assert (AcpiEvSystemMemoryRegionSetup os rp ACPI_REGION_ACTIVATE 0 0 s1 =
    Ret (AE_OK, c) (set_contexts (<[c := MemSpaceContext (r_Length r) (r_Address r) 0 0 0]> (contexts (outside s))) (set_host k s1))) as Eset.
  { unfold AcpiEvSystemMemoryRegionSetup. cbn [Z.eqb]. step (on_host_ok _ s1 c k Hal). rewrite (proj2 (Z.eqb_neq c 0)) by done.
    step (get_region_ok (set_host k s1) rp r H1). done. }
  rewrite (bind_ret _ _ _ _ _ Eset). set (s2 := set_contexts _ _). destruct (enter_ok s2 Hg) as (g' & E3). rewrite (bind_ret _ _ _ _ _ E3). set (s3 := IState (objects s2) _).
  change (negb (ok AE_OK)) with false. cbv iota. step (get_region_ok s3 rp r H1). rewrite Hsc. cbn [negb].
  assert (on_objects (update rp set_complete) s3 = Ret tt (IState (<[rp := ORegion (completed r)]> (objects s)) (outside s3))) as E4.
  { unfold on_objects, zoom. by rewrite (update_ok (objects s3) rp (ORegion r) set_complete H1). }
  rewrite (bind_ret _ _ _ _ _ E4). set (s4 := IState (<[rp := _]> _) _).
  assert (objects s4 !! NextObject r = Some (OExtra 0)) as Hx by (cbn; by rewrite lookup_insert_ne).
  unfold get_context. step (on_objects_load s4 _ _ Hx). step (ret_ok 0 s4). cbn [Z.eqb]. step (put_object_ok s4 (NextObject r) (OExtra 0) (OExtra c) Hx).
  eexists. split; [done|]. split; [done|]. split_and!; cbn.
  - rewrite lookup_insert_ne by done. apply lookup_insert_eq.
  - apply lookup_insert_eq.
  - rewrite Hsp. by rewrite !lookup_insert_ne by done.
  - eexists. split; [apply lookup_insert_eq|]. split; [done|]. split; [done|]. left. split; [done|]. split; [done|]. by exists n.
  - unfold memory_bits. by rewrite (bytes_in_ext (mem k) (mem (host (outside s)))) by (intros; apply Hmem).
  - intros x _. apply Hmem.
Qed.

(** ** Fields of system memory *)

Section Access.
Variable AcpiDsGetRegionArguments AcpiDsGetBufferFieldArguments : Z → M S ACPI_STATUS.
Variable memory_for : Z → M S bool.
Variable AcpiExAcquireMutexObject AcpiExReleaseMutexObject : M S ACPI_STATUS.
Variable AcpiGbl_EnableInterpreterSlack : bool.
Variable AcpiGbl_IntegerByteWidth : Z.
Abbreviation read_field fuel := (AcpiExReadDataFromField dispatch AcpiDsGetRegionArguments AcpiDsGetBufferFieldArguments memory_for
  AcpiExAcquireMutexObject AcpiExReleaseMutexObject AcpiGbl_EnableInterpreterSlack AcpiGbl_IntegerByteWidth (Datatypes.S fuel)).
Abbreviation write_field fuel := (AcpiExWriteDataToField dispatch AcpiDsGetRegionArguments AcpiDsGetBufferFieldArguments memory_for
  AcpiExAcquireMutexObject AcpiExReleaseMutexObject AcpiGbl_EnableInterpreterSlack (Datatypes.S fuel)).

(** The objects of a region are not those of a field. *)
Lemma in_memory_field rp r c m0 R (s : S) obj o : obj ≠ rp → obj ≠ NextObject r → obj ≠ r_Handler r → in_memory rp r c m0 R s →
  in_memory rp r c m0 R (IState (<[obj := o]> (objects s)) (outside s)).
Proof. intros N1 N2 N3 (H1 & H2 & H3 & H). split_and!; cbn; try (by rewrite lookup_insert_ne); apply H. Qed.

(** C31: a field of system memory is bits of the physical memory.  Take
    a region of system memory that is set up, lies within one page and whose
    length is a multiple of 8 bytes, and a field of it that
    AcpiExPrepCommonFieldObject lays out at bit [p], [n > 0] bits long and inside
    the region, with any of the access types 0 to 5 and the rule Preserve.  If
    buffers can be allocated and the global lock leaves the region alone, then
    through the field code, the dispatch, the default handler and its cached
    mapping, and the mappings of the host, AcpiExReadDataFromField returns these
    bits of the memory at the region's address and changes no memory, and
    AcpiExWriteDataToField of a source shorter than 4 GB replaces them by the
    source and changes no other bit of memory, inside or outside the region.
    (In a region of another length the last datum of a field may stick out of
    the region, and the access is refused: see [odd_region].) *)
Theorem memory_field_access fuel obj f r c m0 R s flags attribute p n src B :
  memory_region (RegionObj f) r → in_memory (RegionObj f) r c m0 R s → objects s !! obj = Some (OField f) → f_Type f = ACPI_TYPE_LOCAL_REGION_FIELD →
  (∀ s k, memory_for k s = Ret true s) →
  lock_apart AcpiExAcquireMutexObject AcpiExReleaseMutexObject (in_memory (RegionObj f) r c m0) →
  access_known flags → Z.land flags AML_FIELD_UPDATE_RULE_MASK = AML_FIELD_UPDATE_PRESERVE → (8 | r_Length r) →
  0 ≤ p → 0 < n → p + n ≤ 8 * r_Length r →
  4 ≤ AcpiGbl_IntegerByteWidth ≤ 8 → source_bytes src = Some B → are_bytes B → Z.of_nat (length B) < W32 →
  ∃ s1, AcpiExPrepCommonFieldObject obj flags attribute p n s = Ret AE_OK s1 ∧
    (∃ s', read_field fuel obj s1 = Ret (AE_OK, Some (field_value AcpiGbl_IntegerByteWidth n (bits_get R p n))) s' ∧ in_memory (RegionObj f) r c m0 R s') ∧
    ∃ s2, write_field fuel src obj s1 = Ret (AE_OK, None) s2 ∧ in_memory (RegionObj f) r c m0 (bits_set R p n (le B)) s2.
Proof.
  intros Hr HR Hobj Hty Hmem Hlock Hacc Hrule Hdiv Hp Hn Hfit Hwidth Hsrc HB Hl. pose proof HR as (H1 & H2 & H3 & _).
  pose proof Hr as [_ Hsp Hv _ _ _ HA HL Hlim Hpg]. pose proof om_limit. rewrite Hsp in H3. cbn in H3.
  pose proof (memory_linear (RegionObj f) c r m0 Hr) as Hlin.
  assert (r_Length r ≤ 4096) as HL4.
  { pose proof (Z.div_mod (r_Address r + r_Length r - 1) 4096 ltac:(lia)). pose proof (Z.mod_pos_bound (r_Address r + r_Length r - 1) 4096 ltac:(lia)).
    pose proof (Z.div_mod (r_Address r) 4096 ltac:(lia)). pose proof (Z.mod_pos_bound (r_Address r) 4096 ltac:(lia)). lia. }
  assert (obj ≠ RegionObj f ∧ obj ≠ NextObject r ∧ obj ≠ r_Handler r) as (N1 & N2 & N3) by (split_and!; intros ->; congruence).
  destruct (region_field_access dispatch AcpiDsGetRegionArguments AcpiDsGetBufferFieldArguments memory_for AcpiExAcquireMutexObject AcpiExReleaseMutexObject
    AcpiGbl_EnableInterpreterSlack AcpiGbl_IntegerByteWidth fuel obj f r (in_memory (RegionObj f) r c m0) R s flags attribute p n src B)
    as (s1 & E & _ & Hrest); try done; [|by intros; apply in_memory_field|rewrite Hsp; set_solver|lia|by exists s1].
  split; [done|by rewrite Hsp|done|lia].
Qed.
End Access.
End Memory.

(** ** Examples *)

(** A host whose memory is a number, and whose mappings are 4096 bytes up. *)
Definition flat_mem (k x : Z) : Z := if x <? 0 then 0 else bits_get k (8 * x) 8.
Definition flat_os : os_layer Z :=
  OsLayer (λ p len, mret (p + 4096)) (λ _ _, mret tt) (λ _, mret 16) (λ _, mret tt)
    (λ a w k, Ret (bits_get k (8 * (a - 4096)) (8 * w)) k) (λ a w v k, Ret tt (bits_set k (8 * (a - 4096)) (8 * w) v))
    (λ _ _, mret (AE_LIMIT, 0)) (λ _ _ _, mret AE_LIMIT) (λ _ _ _ _, mret (AE_LIMIT, 0)) (λ _ _ _ _, mret AE_LIMIT) 0 false.
Definition flat_drivers : drivers Z :=
  Drivers (λ _ _ _ _ _ _ _, mret (AE_NOT_EXIST, 0)) (λ _ _ _ _ _, mret (AE_NOT_EXIST, 0)) (λ _ _ _ _, mret (AE_NOT_EXIST, 0)).

Lemma flat_mem_range k x : 0 ≤ flat_mem k x < 256.
Proof. unfold flat_mem. destruct (_ <? _); [done|]. by apply (bits_get_nonneg k _ 8). Qed.

#[export] Instance flat_memory :
  OsMemory flat_os (λ _ _, True) (λ _ _ l p len, l = p + 4096 ∧ 0 ≤ p ∧ p + len ≤ W32 - 8192) flat_mem (W32 - 8192).
Proof.
  split.
  - lia.
  - apply flat_mem_range.
  - intros n k p len _ Hp Hl Hs. exists (p + 4096), k. split; [done|]. split; [lia|]. done.
  - intros n k l p len _. by exists k.
  - intros n k l p len (-> & Hp & Hs). lia.
  - intros n k l p len i w (-> & Hp & Hs) Hi Hw _. cbn. do 2 f_equal. replace (p + 4096 + i - 4096) with (p + i) by lia.
    assert (0 ≤ w) as Hw0 by (rewrite !elem_of_cons, elem_of_nil in Hw; lia). apply bits_eq. intros j Hj.
    pose proof (Z.div_mod j 8 ltac:(lia)). pose proof (Z.mod_pos_bound j 8 ltac:(lia)). pose proof (Z.div_pos j 8 Hj ltac:(lia)).
    rewrite memory_bit by (done || apply flat_mem_range). unfold flat_mem. rewrite (proj2 (Z.ltb_ge _ 0)), !bits_get_bit by lia. rewrite Z2Nat.id by lia.
    f_equal. rewrite (proj2 (Z.ltb_lt (j mod 8) 8)) by lia. cbn [andb]. f_equal. lia.
  - intros n k l p len i w v (-> & Hp & Hs) Hi Hw Hl Hv. eexists. split; [done|]. split; [done|]. intros x. cbn.
    replace (p + 4096 + i - 4096) with (p + i) by lia. assert (0 ≤ w) as Hw0 by (rewrite !elem_of_cons, elem_of_nil in Hw; lia).
    unfold flat_mem, stored_at. destruct (Z.ltb_spec x 0); [by rewrite (proj2 (Z.leb_gt _ _)) by lia|]. apply bits_eq. intros j Hj.
    destruct (Z.leb_spec (p + i) x), (Z.ltb_spec x (p + i + w)); cbn [andb]; rewrite !bits_get_bit, bits_set_bit by lia; bit_cases; f_equal; lia.
Qed.

(** A region of 8 bytes at 0x2010, all of them 255. *)
Definition mem_region : region := Region true true 3 0 4 8208 8.
Definition mem_world : world Z :=
  World {[16 := MemSpaceContext 8 8208 0 0 0]} ∅ AcpiUtInitGlobals (bits_set 0 (8 * 8208) 64 (2 ^ 64 - 1)).
Definition mem_state : acpi_state (world Z) :=
  IState {[1 := OField ex_unit; 2 := ORegion mem_region; 3 := OExtra 16; 4 := OAddressSpace (AddrHandler 1 AcpiExSystemMemorySpace 0 (Some AcpiEvSystemMemoryRegion))]} mem_world.
Definition mem_arguments (obj : Z) : M (acpi_state (world Z)) ACPI_STATUS := mret AE_NOT_EXIST.
Abbreviation mem_keeps R := (in_memory (ready := λ _ _, True) (opened := λ _ _ l p len, l = p + 4096 ∧ 0 ≤ p ∧ p + len ≤ W32 - 8192) (mem := flat_mem) 2 mem_region 16
  (flat_mem (host mem_world)) R).

Lemma mem_region_ok : memory_region (limit := W32 - 8192) 2 mem_region.
Proof. by split. Qed.

Lemma mem_state_ok : mem_keeps (2 ^ 64 - 1) mem_state.
Proof.
  split; [done|]. split; [done|]. split; [done|]. split; [|split; [by vm_compute|done]].
  eexists. split; [done|]. split; [done|]. split; [done|]. left. split; [done|]. split; [done|]. by exists 8%nat.
Qed.

(** The field is the 12 bits at bit 9, accessed by double words. *)
Lemma memory_field_access_witness : ∃ s1, AcpiExPrepCommonFieldObject 1 3 0 9 12 mem_state = Ret AE_OK s1 ∧
  (∃ s', AcpiExReadDataFromField (AcpiEvAddressSpaceDispatch flat_os flat_drivers 0) mem_arguments mem_arguments ex_memory ex_mutex ex_mutex false 8 1 1 s1 =
    Ret (AE_OK, Some (OInteger 4095)) s' ∧ mem_keeps (2 ^ 64 - 1) s') ∧
  ∃ s2, AcpiExWriteDataToField (AcpiEvAddressSpaceDispatch flat_os flat_drivers 0) mem_arguments mem_arguments ex_memory ex_mutex ex_mutex false 1 (OInteger 5) 1 s1 =
    Ret (AE_OK, None) s2 ∧ mem_keeps (2 ^ 64 - 1 - 2 ^ 21 + 2 ^ 9 + 2 ^ 9 * 5) s2.
Proof.
  refine (memory_field_access flat_os flat_drivers 0 mem_arguments mem_arguments ex_memory ex_mutex ex_mutex false 8 0 1 ex_unit mem_region 16
    (flat_mem (host mem_world)) (2 ^ 64 - 1) mem_state 3 0 9 12 (OInteger 5) (bytes_of 8 5) mem_region_ok mem_state_ok _ _ _ _ _ _ _ _ _ _ _ _ _ _); cbn; try lia; try done.
  - intros R s HR. split; exists AE_OK, s; by split_and!.
  - by apply (bytes_of_bytes 8 5).
Defined.

(** A request that crosses a page gets a mapping that is too short for it: 4
    bytes for one of 8. *)
Example short_mapping : memory_width 64 = Some 8 ∧ map_length (MemSpaceContext 16 4092 0 0 0) 4092 = 4.
Proof. by split. Qed.

(** The region of the example with 6 bytes in place of 8: the 16 bits at bit 32,
    which are inside it, are refused, as their datum is 4 bytes wide. *)
Definition odd_state : acpi_state (world Z) :=
  IState (<[2 := ORegion (Region true true 3 0 4 8208 6)]> (objects mem_state)) mem_world.

Example odd_region : match AcpiExPrepCommonFieldObject 1 3 0 32 16 odd_state with
  | Ret st s1 => st = AE_OK ∧ AcpiExSetupRegion mem_arguments false 1 0 s1 = Ret AE_AML_REGION_LIMIT s1
  | _ => False end.
Proof. by split. Qed.
