(* ===== verification/AcpiTables.v ===== *)
(** * ACPICA: finding the root table in the BIOS memory

    libs/acpica/source/components/tables/tbxfroot.c and the checksum of
    tbprint.c, on the kernel's OS layer (kernel/ia32/acpica_osl.c), which maps
    physical memory with the functions of Kmem.v.  A byte is read through the
    page tables; [phys] is the content of physical memory, which nothing here
    writes.  The theorem says which address AcpiFindRootPointer returns, in
    terms of [phys], and that the address space is as before. *)

From stdpp Require Import base numbers list gmap strings.
From S2P Require Import Prelude UtList MemUtil Range RangeSpec RangeRefine Allocator VmMap Paging Kmem AcpiUtil.

Section Tables.
Variable KERNEL_VMA : Z.
Variable fresh_ar : Z → allocator_region.
Variable fresh_vr : Z → vm_map_region.
(** The content of physical memory. *)
Variable phys : Z → Z.

(** ** The OS layer *)

Definition map_size (phys_addr len : Z) : Z :=
  let phys_page_addr := align_address_down phys_addr KMEM_PAGE_SIZE in
  let phys_addr_offset := u32 (phys_addr - phys_page_addr) in
  KMEM_PAGE_ALIGN (u32 (len + phys_addr_offset)).

Definition AcpiOsMapMemory (phys_addr len : Z) : M kstate Z :=
  let phys_page_addr := align_address_down phys_addr KMEM_PAGE_SIZE in
  let phys_addr_offset := u32 (phys_addr - phys_page_addr) in
  let phys_total_size := map_size phys_addr len in
  r ← kmem_pages_map KERNEL_VMA fresh_ar fresh_vr phys_page_addr (phys_total_size / KMEM_PAGE_SIZE) true;
  match r with
  | Some vm_page_addr => mret (u32 (vm_page_addr + phys_addr_offset))
  | None => panic "assert"
  end.

Definition AcpiOsUnmapMemory (virtual_addr len : Z) : M kstate unit :=
  let v_page_addr := align_address_down virtual_addr KMEM_PAGE_SIZE in
  kmem_pages_unmap KERNEL_VMA fresh_ar v_page_addr true;;
  mret tt.

(** A read of a byte: through the page tables. *)
Definition read8 (v : Z) : M kstate Z := λ k,
  match current_translate KERNEL_VMA k v with
  | Some p => Ret (phys p) k
  | None => Fault
  end.

(** ** Checksums and signatures *)

(** [while (Buffer < End)], with the bytes that are left. *)
Fixpoint checksum_loop (n : nat) (Buffer Sum : Z) : M kstate Z :=
  match n with
  | O => mret Sum
  | S n => b ← read8 Buffer; checksum_loop n (u32 (Buffer + 1)) (u8 (Sum + b))
  end.

Definition AcpiTbChecksum (Buffer Length : Z) : M kstate Z := checksum_loop (Z.to_nat Length) Buffer 0.

Definition ACPI_SIG_RSDP : list Z := [82; 83; 68; 32; 80; 84; 82; 32].

(** [!ACPI_STRNCMP (a, ACPI_SIG_RSDP, 8)]: the comparison stops at the first
    character that differs. *)
Fixpoint match_sig (sig : list Z) (a : Z) : M kstate bool :=
  match sig with
  | [] => mret true
  | c :: sig => b ← read8 a; if b =? c then match_sig sig (u32 (a + 1)) else mret false
  end.

Definition ACPI_VALIDATE_RSDP_SIG (a : Z) : M kstate bool := match_sig ACPI_SIG_RSDP a.

Abbreviation ACPI_RSDP_CHECKSUM_LENGTH := 20 (only parsing).
Abbreviation ACPI_RSDP_XCHECKSUM_LENGTH := 36 (only parsing).
Abbreviation ACPI_RSDP_SCAN_STEP := 16 (only parsing).
Abbreviation ACPI_EBDA_PTR_LOCATION := 1038 (only parsing).
Abbreviation ACPI_EBDA_PTR_LENGTH := 2 (only parsing).
Abbreviation ACPI_EBDA_WINDOW_SIZE := 1024 (only parsing).
Abbreviation ACPI_HI_RSDP_WINDOW_BASE := 917504 (only parsing). (* 0xE0000 *)
Abbreviation ACPI_HI_RSDP_WINDOW_SIZE := 131072 (only parsing). (* 0x20000 *)

(** [Rsdp->Revision] is at offset 15. *)
Definition AcpiTbValidateRsdp (Rsdp : Z) : M kstate ACPI_STATUS :=
  sig ← ACPI_VALIDATE_RSDP_SIG Rsdp;
  if negb sig then mret AE_BAD_SIGNATURE else
  sum ← AcpiTbChecksum Rsdp ACPI_RSDP_CHECKSUM_LENGTH;
  if negb (sum =? 0) then mret AE_BAD_CHECKSUM else
  Revision ← read8 (u32 (Rsdp + 15));
  if 2 <=? Revision then
    sum ← AcpiTbChecksum Rsdp ACPI_RSDP_XCHECKSUM_LENGTH;
    if negb (sum =? 0) then mret AE_BAD_CHECKSUM else mret AE_OK
  else mret AE_OK.

(** The paragraphs from [MemRover] up to [EndAddress]. *)
Fixpoint scan_loop (fuel : nat) (MemRover EndAddress : Z) : M kstate (option Z) :=
  match fuel with
  | O => nofuel
  | S fuel =>
      if MemRover <? EndAddress then
        Status ← AcpiTbValidateRsdp MemRover;
        if decide (Status = AE_OK) then mret (Some MemRover)
        else scan_loop fuel (u32 (MemRover + ACPI_RSDP_SCAN_STEP)) EndAddress
      else mret None
  end.

Definition AcpiTbScanMemoryForRsdp (StartAddress Length : Z) : M kstate (option Z) :=
  let EndAddress := u32 (StartAddress + Length) in
  scan_loop (Z.to_nat Length + 1) StartAddress EndAddress.

(** The status, and the value [*TableAddress] is set to. *)
Definition AcpiFindRootPointer : M kstate (ACPI_STATUS * option Z) :=
  TablePtr ← AcpiOsMapMemory ACPI_EBDA_PTR_LOCATION ACPI_EBDA_PTR_LENGTH;
  if TablePtr =? 0 then mret (AE_NO_MEMORY, None) else
  lo ← read8 TablePtr;
  hi ← read8 (u32 (TablePtr + 1));
  let PhysicalAddress := u32 (Z.shiftl (lo + 256 * hi) 4) in
  AcpiOsUnmapMemory TablePtr ACPI_EBDA_PTR_LENGTH;;
  ebda ← (if 1024 <? PhysicalAddress then
      TablePtr ← AcpiOsMapMemory PhysicalAddress ACPI_EBDA_WINDOW_SIZE;
      if TablePtr =? 0 then mret (Some (AE_NO_MEMORY, None)) else
      MemRover ← AcpiTbScanMemoryForRsdp TablePtr ACPI_EBDA_WINDOW_SIZE;
      AcpiOsUnmapMemory TablePtr ACPI_EBDA_WINDOW_SIZE;;
      match MemRover with
      | Some MemRover => mret (Some (AE_OK, Some (u32 (PhysicalAddress + u32 (MemRover - TablePtr)))))
      | None => mret None
      end
    else mret None);
  match ebda with
  | Some res => mret res
  | None =>
      TablePtr ← AcpiOsMapMemory ACPI_HI_RSDP_WINDOW_BASE ACPI_HI_RSDP_WINDOW_SIZE;
      if TablePtr =? 0 then mret (AE_NO_MEMORY, None) else
      MemRover ← AcpiTbScanMemoryForRsdp TablePtr ACPI_HI_RSDP_WINDOW_SIZE;
      AcpiOsUnmapMemory TablePtr ACPI_HI_RSDP_WINDOW_SIZE;;
      match MemRover with
      | Some MemRover =>
          mret (AE_OK, Some (u32 (ACPI_HI_RSDP_WINDOW_BASE + u32 (MemRover - TablePtr))))
      | None => mret (AE_NOT_FOUND, None)
      end
  end.

(** ** What is in memory *)

Definition bytes_at (p : Z) (n : nat) : list Z := (λ i, phys (p + Z.of_nat i)) <$> seq 0 n.

(** The sum of [n] bytes, modulo 256. *)
Definition sum_at (p : Z) (n : nat) : Z := u8 (foldr Z.add 0 (bytes_at p n)).

Definition sig_at (p : Z) : bool := bool_decide (bytes_at p 8 = ACPI_SIG_RSDP).

(** A root pointer: the signature, and the checksums its revision has. *)
Definition rsdp_at (p : Z) : bool :=
  sig_at p && (sum_at p 20 =? 0) && (if 2 <=? phys (p + 15) then sum_at p 36 =? 0 else true).

(** The first root pointer at a paragraph of a window of [n] paragraphs. *)
Fixpoint first_rsdp (n : nat) (p : Z) : option Z :=
  match n with
  | O => None
  | S n => if rsdp_at p then Some p else first_rsdp n (p + 16)
  end.

(** Every signature in a window leaves room for the structure. *)
Definition window_ok (p len : Z) : Prop := ∀ i, 0 ≤ i < len → sig_at (p + i) = true → i + 36 ≤ len.

(** [va], of [len] bytes, is mapped to [pa]. *)
Definition window k (va pa len : Z) : Prop :=
  0 ≤ va ∧ va + len < W32 ∧ ∀ i, 0 ≤ i < len → current_translate KERNEL_VMA k (va + i) = Some (pa + i).

Lemma read_window k va pa len i : window k va pa len → 0 ≤ i < len → read8 (va + i) k = Ret (phys (pa + i)) k.
Proof. intros (_ & _ & H) Hi. unfold read8. by rewrite H. Qed.

Lemma bytes_at_S p n : bytes_at p (S n) = phys p :: bytes_at (p + 1) n.
Proof.
  unfold bytes_at. cbn [seq fmap list_fmap]. f_equal; [f_equal; lia|].
  rewrite <- fmap_S_seq, <- list_fmap_compose. apply list_fmap_ext. intros i x _. simpl. f_equal. lia.
Qed.

Lemma checksum_loop_spec k va pa len n i s :
  window k va pa len → 0 ≤ i → i + Z.of_nat n ≤ len → 0 ≤ s < W8 →
  checksum_loop n (va + i) s k = Ret (u8 (s + foldr Z.add 0 (bytes_at (pa + i) n))) k.
Proof.
  intros Hw. pose proof Hw as (H0 & He & _). revert i s. induction n as [|n IH]; intros i s Hi Hn Hs.
  - simpl. rewrite Z.add_0_r. unfold u8. by rewrite Z.mod_small.
  - cbn [checksum_loop]. rewrite (bind_ret _ _ _ _ _ (read_window k va pa len i Hw ltac:(lia))).
    rewrite (u32_small (va + i + 1)) by lia. replace (va + i + 1) with (va + (i + 1)) by lia.
    rewrite IH; [|lia|lia|unfold u8; apply Z.mod_pos_bound; lia].
    rewrite bytes_at_S. cbn [foldr]. replace (pa + (i + 1)) with (pa + i + 1) by lia. f_equal.
    unfold u8. rewrite Zplus_mod_idemp_l. f_equal. lia.
Qed.

Lemma AcpiTbChecksum_spec k va pa len i n :
  window k va pa len → 0 ≤ i → 0 ≤ n → i + n ≤ len →
  AcpiTbChecksum (va + i) n k = Ret (sum_at (pa + i) (Z.to_nat n)) k.
Proof.
  intros Hw Hi Hn Hl. unfold AcpiTbChecksum. rewrite (checksum_loop_spec k va pa len) by (try done; lia).
  unfold sum_at. by rewrite Z.add_0_l.
Qed.

Lemma match_sig_spec k va pa len sig i :
  window k va pa len → 0 ≤ i → i + Z.of_nat (length sig) ≤ len →
  match_sig sig (va + i) k = Ret (bool_decide (bytes_at (pa + i) (length sig) = sig)) k.
Proof.
  intros Hw. pose proof Hw as (H0 & He & _). revert i. induction sig as [|c sig IH]; intros i Hi Hl; [done|].
  cbn [length] in *. cbn [match_sig]. rewrite (bind_ret _ _ _ _ _ (read_window k va pa len i Hw ltac:(lia))).
  rewrite bytes_at_S. destruct (Z.eqb_spec (phys (pa + i)) c) as [->|Hne].
  - rewrite (u32_small (va + i + 1)) by lia. replace (va + i + 1) with (va + (i + 1)) by lia.
    rewrite IH by lia. replace (pa + (i + 1)) with (pa + i + 1) by lia. f_equal.
    apply bool_decide_ext. split; [by intros -> |by intros [=]].
  - rewrite bool_decide_false; [done|]. by intros [= ? _].
Qed.

(** A paragraph is checked for what [rsdp_at] says, without leaving the window. *)
Lemma AcpiTbValidateRsdp_spec k va pa len i :
  window k va pa len → window_ok pa len → 0 ≤ i → i + 16 ≤ len →
  ∃ st, AcpiTbValidateRsdp (va + i) k = Ret st k ∧ (st = AE_OK ↔ rsdp_at (pa + i) = true).
Proof.
  intros Hw Hok Hi Hl. pose proof Hw as (H0 & He & _). unfold AcpiTbValidateRsdp, ACPI_VALIDATE_RSDP_SIG.
  rewrite (bind_ret _ _ _ _ _ (match_sig_spec k va pa len ACPI_SIG_RSDP i Hw Hi ltac:(simpl; lia))).
  change (length ACPI_SIG_RSDP) with 8%nat. fold (sig_at (pa + i)). unfold rsdp_at.
  specialize (Hok i ltac:(lia)). destruct (sig_at (pa + i)); cbn [negb andb]; [|eexists; by split].
  specialize (Hok eq_refl).
  rewrite (bind_ret _ _ _ _ _ (AcpiTbChecksum_spec k va pa len i 20 Hw Hi ltac:(lia) ltac:(lia))).
  change (Z.to_nat 20) with 20%nat. destruct (sum_at (pa + i) 20 =? 0); cbn [negb andb]; [|eexists; by split].
  rewrite (u32_small (va + i + 15)) by lia. replace (va + i + 15) with (va + (i + 15)) by lia.
  rewrite (bind_ret _ _ _ _ _ (read_window k va pa len (i + 15) Hw ltac:(lia))).
  replace (pa + (i + 15)) with (pa + i + 15) by lia.
  destruct (2 <=? phys (pa + i + 15)); [|eexists; by split].
  rewrite (bind_ret _ _ _ _ _ (AcpiTbChecksum_spec k va pa len i 36 Hw Hi ltac:(lia) ltac:(lia))).
  change (Z.to_nat 36) with 36%nat. destruct (sum_at (pa + i) 36 =? 0); eexists; by split.
Qed.

Lemma scan_loop_spec k va pa len n i fuel :
  window k va pa len → window_ok pa len → 0 ≤ i → i + 16 * Z.of_nat n = len → (n < fuel)%nat →
  scan_loop fuel (va + i) (va + len) k = Ret ((λ p, va + (p - pa)) <$> first_rsdp n (pa + i)) k.
Proof.
  intros Hw Hok. pose proof Hw as (H0 & He & _). revert i fuel. induction n as [|n IH]; intros i [|fuel] Hi Hn Hf; try lia.
  - cbn [scan_loop]. rewrite (proj2 (Z.ltb_ge _ _)) by lia. done.
  - cbn [scan_loop]. rewrite (proj2 (Z.ltb_lt _ _)) by lia.
    destruct (AcpiTbValidateRsdp_spec k va pa len i Hw Hok Hi ltac:(lia)) as (st & E & Hst).
    rewrite (bind_ret _ _ _ _ _ E). cbn [first_rsdp]. destruct (rsdp_at (pa + i)) eqn:Er.
    + rewrite decide_True by tauto. cbn [fmap option_fmap option_map]. f_equal. f_equal. lia.
    + rewrite decide_False by (rewrite Hst; done). rewrite (u32_small (va + i + 16)) by lia.
      replace (va + i + 16) with (va + (i + 16)) by lia. rewrite IH by lia. do 3 f_equal. lia.
Qed.

(** Scanning a mapped window. *)
Lemma AcpiTbScanMemoryForRsdp_spec k va pa n :
  window k va pa (16 * Z.of_nat n) → window_ok pa (16 * Z.of_nat n) →
  AcpiTbScanMemoryForRsdp va (16 * Z.of_nat n) k = Ret ((λ p, va + (p - pa)) <$> first_rsdp n pa) k.
Proof.
  intros Hw Hok. pose proof Hw as (H0 & He & _). unfold AcpiTbScanMemoryForRsdp.
  rewrite (u32_small (va + _)) by lia. replace va with (va + 0) at 1 by lia.
  rewrite (scan_loop_spec k va pa (16 * Z.of_nat n) n 0) by (try done; lia). by rewrite Z.add_0_r.
Qed.

(** ** Mapping a window *)

Definition first_page (pa : Z) : Z := align_address_down pa KMEM_PAGE_SIZE.
Definition page_count (pa len : Z) : Z := map_size pa len / KMEM_PAGE_SIZE.

(** The kernel can serve a sequence of mappings, each undone before the next:
    there is address space, of one page table and below the last page. *)
Fixpoint served (calls : list (Z * Z)) (k : kstate) : Prop :=
  match calls with
  | [] => True
  | (pa, len) :: calls =>
      ∃ a k1, kmem_pages_map KERNEL_VMA fresh_ar fresh_vr (first_page pa) (page_count pa len) true k = Ret (Some a) k1 ∧
        one_table a (page_count pa len * PAGE_SIZE) ∧ a + page_count pa len * PAGE_SIZE < W32 ∧
        ∀ k2, kmem_pages_unmap KERNEL_VMA fresh_ar a true k1 = Ret true k2 → served calls k2
  end.

Definition map_cost : Z := 88 + 2 * PAGE_SIZE.

Lemma window_pages pa len :
  0 ≤ pa → 0 < len → pa + len ≤ W32 - 2 * PAGE_SIZE →
  (PAGE_SIZE | first_page pa) ∧ 0 ≤ first_page pa ≤ pa ∧ pa - first_page pa < PAGE_SIZE ∧
  0 < page_count pa len ∧ map_size pa len = page_count pa len * PAGE_SIZE ∧
  pa - first_page pa + len ≤ page_count pa len * PAGE_SIZE ≤ pa - first_page pa + len + PAGE_SIZE - 1.
Proof.
  intros H0 Hl He. unfold first_page, page_count, map_size, KMEM_PAGE_SIZE.
  rewrite align_address_down_eq by (try apply pow2_32_page; unfold PAGE_SIZE in *; lia).
  pose proof (Z.div_mod pa PAGE_SIZE ltac:(done)) as Hdm. pose proof (Z.mod_pos_bound pa PAGE_SIZE ltac:(done)) as Hm.
  assert (0 ≤ pa / PAGE_SIZE) by (apply Z.div_pos; [lia|done]).
  set (off := pa mod PAGE_SIZE) in *. replace (pa - (pa - off)) with off by lia.
  rewrite (u32_small off), (u32_small (len + off)) by (unfold PAGE_SIZE in *; lia).
  destruct (page_align_pages (len + off)) as (E & Hp & _); [lia|unfold PAGE_SIZE in *; lia|].
  rewrite E, Z.div_mul by done. split; [exists (pa / PAGE_SIZE); lia|].
  pose proof (Z.div_mod (len + off + PAGE_SIZE - 1) PAGE_SIZE ltac:(done)).
  pose proof (Z.mod_pos_bound (len + off + PAGE_SIZE - 1) PAGE_SIZE ltac:(done)).
  unfold PAGE_SIZE in *. split; [lia|]. split; [lia|]. split; [done|]. split; [done|]. lia.
Qed.

(** Mapping a window and unmapping it again. *)
Lemma os_map_unmap k ms pm vm ar pa len calls :
  kinv KERNEL_VMA k ms pm vm ar → room map_cost k → served ((pa, len) :: calls) k →
  0 ≤ pa → 0 < len → pa + len ≤ W32 - 2 * PAGE_SIZE →
  ∃ va k1, AcpiOsMapMemory pa len k = Ret va k1 ∧ va ≠ 0 ∧ window k1 va pa len ∧
  ∃ k2 ms2 vm2 ar2, AcpiOsUnmapMemory va len k1 = Ret tt k2 ∧ kinv KERNEL_VMA k2 ms2 pm vm2 ar2 ∧
    served calls k2 ∧ lay_grows map_cost (k_lay k) (k_lay k2) ∧
    (∀ x f, covers vm2 x f ↔ covers vm x f) ∧ areas ar2 = areas ar ∧
    ∀ x, 0 ≤ x < W32 → current_translate KERNEL_VMA k2 x = current_translate KERNEL_VMA k x.
Proof.
  intros Hk Hroom (a & k1 & E1 & Hone & Htop & Hnext) H0 Hl He.
  destruct (window_pages pa len H0 Hl He) as (Hd & Hf & Hoff & Hn & Hms & Hcnt).
  set (n := page_count pa len) in *. set (p := first_page pa) in *.
  destruct (pages_map_spec KERNEL_VMA fresh_ar fresh_vr k ms pm vm ar p n true)
    as (r & k1' & ms1 & vm1 & ar1 & E1' & _ & _ & Ht); [done|done|unfold PAGE_SIZE in *; lia| |done|lia|unfold PAGE_SIZE in *; lia|].
  { eapply room_mono; [|exact Hroom]. unfold map_cost. lia. }
  rewrite E1 in E1'. injection E1' as <- <-. destruct Ht as [(Ha0 & Had & Hae & _) _].
  destruct (pages_map_unmap_spec KERNEL_VMA fresh_ar fresh_vr k ms pm vm ar p n true a k1)
    as (Hin & k2 & ms2 & vm2 & ar2 & E2 & Hk2 & Hg & Hcov & Har & Htr); try done; [unfold PAGE_SIZE in *; lia|lia|unfold PAGE_SIZE in *; lia|].
  exists (a + (pa - p)), k1. unfold AcpiOsMapMemory.
  change (align_address_down pa KMEM_PAGE_SIZE) with p. rewrite Hms. unfold KMEM_PAGE_SIZE. rewrite Z.div_mul by done.
  rewrite (bind_ret _ _ _ _ _ E1). rewrite (u32_small (pa - p)), (u32_small (a + _)) by (unfold PAGE_SIZE in *; lia).
  split; [done|]. split; [lia|]. split.
  { split; [lia|]. split; [lia|]. intros i Hi. rewrite Hin by lia. f_equal. lia. }
  exists k2, ms2, vm2, ar2. split; [|by eauto 8].
  unfold AcpiOsUnmapMemory, KMEM_PAGE_SIZE. rewrite align_address_down_eq by (try apply pow2_32_page; lia).
  replace ((a + (pa - p)) mod PAGE_SIZE) with (pa - p).
  - replace (a + (pa - p) - (pa - p)) with a by lia. by rewrite (bind_ret _ _ _ _ _ E2).
  - destruct Had as [q ->]. rewrite Z.add_comm, Z.mod_add by done. symmetry. apply Z.mod_small. lia.
Qed.

(** ** The root pointer *)

(** The paragraphs of the upper window. *)
Definition hi_paragraphs : nat := Z.to_nat 8192.

(** The address of the extended BIOS data area, a real-mode segment. *)
Definition ebda : Z := 16 * (phys 1038 + 256 * phys 1039).
Definition has_ebda : bool := 1024 <? ebda.

(** The root pointer of the machine: the first in the data area, or the first
    in the BIOS read-only memory. *)
Definition root_pointer : option Z :=
  match (if has_ebda then first_rsdp 64 ebda else None) with
  | Some p => Some p
  | None => first_rsdp hi_paragraphs ACPI_HI_RSDP_WINDOW_BASE
  end.

Definition bios_windows : list (Z * Z) :=
  [(ACPI_EBDA_PTR_LOCATION, ACPI_EBDA_PTR_LENGTH)] ++
  (if has_ebda then [(ebda, ACPI_EBDA_WINDOW_SIZE)] else []) ++
  [(ACPI_HI_RSDP_WINDOW_BASE, ACPI_HI_RSDP_WINDOW_SIZE)].

(** What the search leaves: the invariant and the same address space. *)
Definition same_space k (vm : list allocator_region) (ar : list vm_map_region)
    k' (vm' : list allocator_region) (ar' : list vm_map_region) : Prop :=
  (∀ x f, covers vm' x f ↔ covers vm x f) ∧ areas ar' = areas ar ∧
  ∀ x, 0 ≤ x < W32 → current_translate KERNEL_VMA k' x = current_translate KERNEL_VMA k x.

Lemma same_space_trans k vm ar k1 vm1 ar1 k2 vm2 ar2 :
  same_space k vm ar k1 vm1 ar1 → same_space k1 vm1 ar1 k2 vm2 ar2 → same_space k vm ar k2 vm2 ar2.
Proof.
  intros (Hc1 & Ha1 & Ht1) (Hc2 & Ha2 & Ht2). split; [intros x f; by rewrite Hc2|]. split; [congruence|].
  intros x Hx. by rewrite Ht2, Ht1.
Qed.

Lemma first_rsdp_range n p q : first_rsdp n p = Some q → p ≤ q < p + 16 * Z.of_nat n.
Proof.
  revert p. induction n as [|n IH]; intros p; cbn [first_rsdp]; [done|]. destruct (rsdp_at p).
  - intros [= <-]. lia.
  - intros H%IH. lia.
Qed.

(** Mapping, scanning and unmapping a window. *)
Lemma scan_window {A} k ms pm vm ar pa n calls (fail : M kstate A) (K : Z → option Z → M kstate A) :
  kinv KERNEL_VMA k ms pm vm ar → room map_cost k → served ((pa, 16 * Z.of_nat n) :: calls) k →
  0 ≤ pa → (0 < n)%nat → pa + 16 * Z.of_nat n ≤ W32 - 2 * PAGE_SIZE → window_ok pa (16 * Z.of_nat n) →
  ∃ va k2 ms2 vm2 ar2,
    (TablePtr ← AcpiOsMapMemory pa (16 * Z.of_nat n);
     if TablePtr =? 0 then fail else
     MemRover ← AcpiTbScanMemoryForRsdp TablePtr (16 * Z.of_nat n);
     AcpiOsUnmapMemory TablePtr (16 * Z.of_nat n);; K TablePtr MemRover) k
    = K va ((λ p, va + (p - pa)) <$> first_rsdp n pa) k2 ∧
    (∀ p, first_rsdp n pa = Some p → u32 (va + (p - pa) - va) = p - pa) ∧
    kinv KERNEL_VMA k2 ms2 pm vm2 ar2 ∧ served calls k2 ∧ lay_grows map_cost (k_lay k) (k_lay k2) ∧
    same_space k vm ar k2 vm2 ar2.
Proof.
  intros Hk Hroom Hs H0 Hn He Hok.
  destruct (os_map_unmap k ms pm vm ar pa (16 * Z.of_nat n) calls)
    as (va & k1 & E1 & Hva & Hw & k2 & ms2 & vm2 & ar2 & E2 & Hk2 & Hs2 & Hg & Hrest); try done; [lia|].
  exists va, k2, ms2, vm2, ar2. rewrite (bind_ret _ _ _ _ _ E1). rewrite (proj2 (Z.eqb_neq va 0)) by done.
  rewrite (bind_ret _ _ _ _ _ (AcpiTbScanMemoryForRsdp_spec k1 va pa n Hw Hok)).
  rewrite (bind_ret _ _ _ _ _ E2). split; [done|]. split; [|done].
  intros p Hp. apply first_rsdp_range in Hp. replace (va + (p - pa) - va) with (p - pa) by lia.
  apply u32_small. unfold PAGE_SIZE in *. lia.
Qed.

Lemma ebda_shift : (∀ p, 0 ≤ phys p < W8) → u32 (Z.shiftl (phys 1038 + 256 * phys 1039) 4) = ebda ∧ 0 ≤ ebda < 1048576.
Proof.
  intros Hb. pose proof (Hb 1038). pose proof (Hb 1039). unfold ebda. rewrite Z.shiftl_mul_pow2 by lia.
  change (2 ^ 4) with 16. rewrite u32_small by lia. lia.
Qed.

(** The windows hold no signature that is cut off. *)
Definition bios_ok : Prop :=
  (∀ p, 0 ≤ phys p < W8) ∧ (has_ebda = true → window_ok ebda ACPI_EBDA_WINDOW_SIZE) ∧
  window_ok ACPI_HI_RSDP_WINDOW_BASE ACPI_HI_RSDP_WINDOW_SIZE.

(** The last part of the function. *)
Lemma high_window k ms pm vm ar :
  kinv KERNEL_VMA k ms pm vm ar → room map_cost k → bios_ok →
  served [(ACPI_HI_RSDP_WINDOW_BASE, ACPI_HI_RSDP_WINDOW_SIZE)] k →
  ∃ k2 ms2 vm2 ar2,
    (TablePtr ← AcpiOsMapMemory ACPI_HI_RSDP_WINDOW_BASE ACPI_HI_RSDP_WINDOW_SIZE;
     if TablePtr =? 0 then mret (AE_NO_MEMORY, None) else
     MemRover ← AcpiTbScanMemoryForRsdp TablePtr ACPI_HI_RSDP_WINDOW_SIZE;
     AcpiOsUnmapMemory TablePtr ACPI_HI_RSDP_WINDOW_SIZE;;
     match MemRover with
     | Some MemRover => mret (AE_OK, Some (u32 (ACPI_HI_RSDP_WINDOW_BASE + u32 (MemRover - TablePtr))))
     | None => mret (AE_NOT_FOUND, None)
     end) k =
    Ret (match first_rsdp hi_paragraphs ACPI_HI_RSDP_WINDOW_BASE with
         | Some p => (AE_OK, Some p) | None => (AE_NOT_FOUND, None) end) k2 ∧
    kinv KERNEL_VMA k2 ms2 pm vm2 ar2 ∧ same_space k vm ar k2 vm2 ar2.
Proof.
  intros Hk Hroom (_ & _ & Hhi) Hs.
  assert (Z.of_nat hi_paragraphs = 8192) as Hn by (apply Z2Nat.id; lia).
  assert (16 * Z.of_nat hi_paragraphs = 131072) as Hlen by (rewrite Hn; done). revert Hn Hlen.
  generalize hi_paragraphs. intros n Hn Hlen. rewrite <- Hlen in *.
  destruct (scan_window k ms pm vm ar ACPI_HI_RSDP_WINDOW_BASE n [] (mret (AE_NO_MEMORY, None))
    (λ TablePtr MemRover, match MemRover with
     | Some MemRover => mret (AE_OK, Some (u32 (ACPI_HI_RSDP_WINDOW_BASE + u32 (MemRover - TablePtr))))
     | None => mret (AE_NOT_FOUND, None) end)) as (va & k2 & ms2 & vm2 & ar2 & E & Hp & Hk2 & _ & _ & Hsame);
    [done|done|exact Hs|lia|lia|unfold PAGE_SIZE; lia|exact Hhi|].
  rewrite E. exists k2, ms2, vm2, ar2. split; [|done].
  destruct (first_rsdp n 917504) as [p|] eqn:Ep; [|done]. cbn [fmap option_fmap option_map].
  rewrite (Hp p eq_refl). apply first_rsdp_range in Ep. rewrite u32_small by lia. do 3 f_equal. lia.
Qed.

Lemma AcpiFindRootPointer_spec k ms pm vm ar :
  kinv KERNEL_VMA k ms pm vm ar → room (3 * map_cost) k → served bios_windows k → bios_ok →
  ∃ k' ms' vm' ar',
    AcpiFindRootPointer k =
      Ret (match root_pointer with Some p => (AE_OK, Some p) | None => (AE_NOT_FOUND, None) end) k' ∧
    kinv KERNEL_VMA k' ms' pm vm' ar' ∧ same_space k vm ar k' vm' ar'.
Proof.
  intros Hk Hroom Hs Hbios. pose proof Hbios as (Hb & Heb & _). destruct (ebda_shift Hb) as [He Hr].
  assert (Hcost : 0 ≤ map_cost) by (unfold map_cost, PAGE_SIZE; lia).
  unfold AcpiFindRootPointer. unfold bios_windows in Hs. cbn [app] in Hs.
  destruct (os_map_unmap k ms pm vm ar 1038 2 _ Hk ltac:(eapply room_mono; [|exact Hroom]; lia) Hs)
    as (va & k1 & E1 & Hva & Hw & k2 & ms2 & vm2 & ar2 & E2 & Hk2 & Hs2 & Hg & Hsame); [lia|lia|unfold PAGE_SIZE; lia|].
  rewrite (bind_ret _ _ _ _ _ E1). rewrite (proj2 (Z.eqb_neq va 0)) by done.
  pose proof (read_window k1 va 1038 2 0 Hw ltac:(lia)) as R0. rewrite !Z.add_0_r in R0. rewrite (bind_ret _ _ _ _ _ R0).
  pose proof (read_window k1 va 1038 2 1 Hw ltac:(lia)) as R1. change (1038 + 1) with 1039 in R1.
  rewrite (u32_small (va + 1)) by (destruct Hw as (? & ? & _); lia). rewrite (bind_ret _ _ _ _ _ R1).
  rewrite He. rewrite (bind_ret _ _ _ _ _ E2). fold has_ebda.
  apply (room_grows _ (2 * map_cost)) in Hg; [|eapply room_mono; [|exact Hroom]; lia].
  unfold root_pointer. destruct has_ebda eqn:Hhas.
  - cbn [app] in Hs2.
    destruct (scan_window k2 ms2 pm vm2 ar2 ebda 64 [(ACPI_HI_RSDP_WINDOW_BASE, ACPI_HI_RSDP_WINDOW_SIZE)]
      (mret (Some (AE_NO_MEMORY, None)))
      (λ TablePtr MemRover, match MemRover with
       | Some MemRover => mret (Some (AE_OK, Some (u32 (ebda + u32 (MemRover - TablePtr)))))
       | None => mret None end)) as (va2 & k3 & ms3 & vm3 & ar3 & E3 & Hp & Hk3 & Hs3 & Hg3 & Hsame3);
      [done|by eapply room_mono; [|exact Hg]; lia|exact Hs2|lia|lia|unfold PAGE_SIZE; lia|by apply Heb|].
    change (16 * Z.of_nat 64) with 1024 in E3. pose proof (same_space_trans _ _ _ _ _ _ _ _ _ Hsame Hsame3) as Hs13.
    destruct (first_rsdp 64 ebda) as [p|] eqn:Ep; cbn [fmap option_fmap option_map] in E3.
    + rewrite (Hp p eq_refl) in E3. rewrite (bind_ret _ _ _ _ _ E3). exists k3, ms3, vm3, ar3.
      split; [|done]. apply first_rsdp_range in Ep. rewrite u32_small by lia. do 3 f_equal. lia.
    + rewrite (bind_ret _ _ _ _ _ E3).
      destruct (high_window k3 ms3 pm vm3 ar3 Hk3) as (k4 & ms4 & vm4 & ar4 & E4 & Hk4 & Hsame4); [|done|done|].
      { apply (room_grows _ map_cost) in Hg3; [done|]. eapply room_mono; [|exact Hg]. lia. }
      exists k4, ms4, vm4, ar4. split; [exact E4|]. split; [done|]. by eapply same_space_trans.
  - rewrite (bind_ret (mret None) _ _ _ k2 eq_refl).
    destruct (high_window k2 ms2 pm vm2 ar2 Hk2) as (k4 & ms4 & vm4 & ar4 & E4 & Hk4 & Hsame4); [|done|done|].
    { eapply room_mono; [|exact Hg]. lia. }
    exists k4, ms4, vm4, ar4. split; [exact E4|]. split; [done|]. by eapply same_space_trans.
Qed.

(** The OS layer's answer to ACPICA: [*addr] is not initialised. *)
Definition AcpiOsGetRootPointer (garbage : Z) : M kstate Z :=
  '(_, addr) ← AcpiFindRootPointer; mret (default garbage addr).

(** C30: On a kernel that can map the BIOS windows, and if no root
    pointer signature begins in the last 35 bytes of a window,
    AcpiFindRootPointer returns the machine's root pointer: the first paragraph
    with the signature and valid checksums in the extended BIOS data area, or
    else in the BIOS memory, or that there is none; it does not touch memory
    that is not mapped, and it leaves the free address space, the areas in use
    and all translations as they were.  With a signature that is cut off by the
    end of a window the code reads behind the mapping, so the condition is
    needed.  If there is no root pointer the kernel's OS layer reports an
    address that was never set. *)
Theorem AcpiFindRootPointer_correct k ms pm vm ar garbage :
  kinv KERNEL_VMA k ms pm vm ar → room (3 * map_cost) k → served bios_windows k → bios_ok →
  ∃ k' ms' vm' ar',
    AcpiFindRootPointer k =
      Ret (match root_pointer with Some p => (AE_OK, Some p) | None => (AE_NOT_FOUND, None) end) k' ∧
    AcpiOsGetRootPointer garbage k = Ret (default garbage root_pointer) k' ∧
    kinv KERNEL_VMA k' ms' pm vm' ar' ∧ same_space k vm ar k' vm' ar'.
Proof.
  intros Hk Hroom Hs Hb. destruct (AcpiFindRootPointer_spec k ms pm vm ar Hk Hroom Hs Hb) as (k' & ms' & vm' & ar' & E & H).
  exists k', ms', vm', ar'. split; [done|]. split; [|done]. unfold AcpiOsGetRootPointer.
  rewrite (bind_ret _ _ _ _ _ E). by destruct root_pointer.
Qed.

Fixpoint serve_check (calls : list (Z * Z)) (k : kstate) : bool :=
  match calls with
  | [] => true
  | (pa, len) :: calls =>
      match kmem_pages_map KERNEL_VMA fresh_ar fresh_vr (first_page pa) (page_count pa len) true k with
      | Ret (Some a) k1 =>
          (a / PAGE_SIZE mod PT_ENTRIES + page_count pa len * PAGE_SIZE / PAGE_SIZE <=? PT_ENTRIES) &&
          (a + page_count pa len * PAGE_SIZE <? W32) &&
          match kmem_pages_unmap KERNEL_VMA fresh_ar a true k1 with
          | Ret true k2 => serve_check calls k2
          | _ => true
          end
      | _ => false
      end
  end.

Lemma serve_check_ok calls k : serve_check calls k = true → served calls k.
Proof.
  revert k. induction calls as [|[pa len] calls IH]; intros k; cbn [serve_check served]; [done|].
  destruct (kmem_pages_map _ _ _ _ _ _ k) as [[a|] k1| | |]; try done. intros H.
  apply andb_prop in H as [H1 H2]. apply andb_prop in H1 as [H0 H1]. apply Z.leb_le in H0. apply Z.ltb_lt in H1.
  exists a, k1. split; [done|]. split; [done|]. split; [done|]. intros k2 E. rewrite E in H2. by apply IH.
Qed.

End Tables.

(** ** A machine *)

(** A root pointer in the second paragraph of the BIOS memory. *)
Definition ex_rsdp : list Z := [82; 83; 68; 32; 80; 84; 82; 32; 225].
Definition ex_phys (p : Z) : Z :=
  if 917520 <=? p then nth (Z.to_nat (p - 917520)) ex_rsdp 0 else 0.

Lemma ex_phys_sig p : sig_at ex_phys p = true → p = 917520.
Proof.
  unfold sig_at. rewrite bool_decide_eq_true, !bytes_at_S. intros [= H0 H1 _ _ _ _ _ _].
  unfold ex_phys in *. destruct (Z.leb_spec 917520 p); [|done].
  destruct (decide (p < 917529)).
  - assert (p - 917520 ∈ [0; 1; 2; 3; 4; 5; 6; 7; 8]) as Hin by (rewrite !elem_of_cons; lia).
    rewrite !elem_of_cons in Hin. destruct_or!; [lia|..]; try (by rewrite Hin in H0); [|by apply not_elem_of_nil in Hin].
    replace p with 917526 in H1 by lia. done.
  - rewrite nth_overflow in H0; [done|]. simpl. lia.
Qed.

Lemma ex_bios : bios_ok ex_phys.
Proof.
  split; [|split].
  - intros p. unfold ex_phys. destruct (917520 <=? p); [|lia].
    destruct (nth_in_or_default (Z.to_nat (p - 917520)) ex_rsdp 0) as [Hin| ->]; [|lia].
    revert Hin. generalize (nth (Z.to_nat (p - 917520)) ex_rsdp 0). unfold ex_rsdp. simpl. lia.
  - done.
  - intros i Hi H%ex_phys_sig. lia.
Qed.

#[local] Opaque ex_kernel.

Lemma AcpiFindRootPointer_correct_witness :
  ∃ k', AcpiFindRootPointer ex_vma ex_fresh ex_vfresh ex_phys ex_kernel = Ret (AE_OK, Some 917520) k'.
Proof.
  destruct ex_kernel_inv as (ms & pm & vm & Hk & _).
  destruct (AcpiFindRootPointer_correct ex_vma ex_fresh ex_vfresh ex_phys ex_kernel ms pm vm [] 0 Hk)
    as (k' & _ & _ & _ & E & _ & _ & _).
  - apply ex_kernel_room. vm_compute. discriminate.
  - apply serve_check_ok. vm_compute. reflexivity.
  - exact ex_bios.
  - exists k'. rewrite E. reflexivity.
Defined.
