(* ===== verification/AcpiRegionKernel.v ===== *)
(** * ACPICA: the memory of system memory regions on the kernel

    The OS layer of AcpiRegion.v as the kernel has it (kernel/ia32/acpica_osl.c):
    memory is mapped by the functions of Kmem.v and AcpiTables.v, and accessed
    through the page tables.  The instance shows that it is what the theorems of
    AcpiRegionSpec.v expect, as long as the kernel has memory and address space
    for the mappings.  The physical memory here is what the kernel does not use
    for itself. *)

From stdpp Require Import base numbers list gmap strings.
From S2P Require Import Prelude UtList MemUtil Range RangeSpec RangeRefine Allocator VmMap Paging Kmem AcpiUtil AcpiBits AcpiField AcpiFieldNamed AcpiRegion AcpiRegionSpec AcpiTables.

(** The kernel, and the content of physical memory. *)
Record machine := Machine { kern : kstate; physical : Z → Z }.
Definition on_kern {A} (m : M kstate A) : M machine A := zoom kern (λ k s, Machine k (physical s)) m.

Section Kernel.
Variable KERNEL_VMA : Z.
Variable fresh_ar : Z → allocator_region.
Variable fresh_vr : Z → vm_map_region.
(** kmalloc and kfree. *)
Variable kmalloc : Z → M machine Z.
Variable kfree : Z → M machine unit.
Variable AcpiGbl_OsiData : Z.
Variable AcpiGbl_TruncateIoAddresses : bool.

Definition get_byte (v : Z) : M machine Z := λ s,
  match current_translate KERNEL_VMA (kern s) v with
  | Some p => Ret (u8 (physical s p)) s
  | None => Fault
  end.
Definition put_byte (v b : Z) : M machine unit := λ s,
  match current_translate KERNEL_VMA (kern s) v with
  | Some p => Ret tt (Machine (kern s) (λ x, if x =? p then b else physical s x))
  | None => Fault
  end.
Fixpoint get_bytes (n : nat) (v : Z) : M machine (list Z) :=
  match n with
  | O => mret []
  | S n => b ← get_byte v; bs ← get_bytes n (u32 (v + 1)); mret (b :: bs)
  end.
Fixpoint put_bytes (n : nat) (v x : Z) : M machine unit :=
  match n with
  | O => mret tt
  | S n => put_byte v (x mod 256);; put_bytes n (u32 (v + 1)) (x / 256)
  end.

(** The functions that only assert that they are implemented. *)
Definition AcpiOsReadPort (addr width : Z) : M machine (ACPI_STATUS * Z) := panic "assert".
Definition AcpiOsWritePort (addr value width : Z) : M machine ACPI_STATUS := panic "assert".
Definition AcpiOsReadPciConfiguration (pci_id reg value width : Z) : M machine (ACPI_STATUS * Z) := panic "assert".
Definition AcpiOsWritePciConfiguration (pci_id reg value width : Z) : M machine ACPI_STATUS := panic "assert".
Definition AcpiOsAllocate (len : Z) : M machine Z := kmalloc len.
Definition AcpiOsFree (ptr : Z) : M machine unit := kfree ptr.

Definition kernel_os : os_layer machine :=
  OsLayer (λ p len, on_kern (AcpiOsMapMemory KERNEL_VMA fresh_ar fresh_vr p len)) (λ l len, on_kern (AcpiOsUnmapMemory KERNEL_VMA fresh_ar l len))
    AcpiOsAllocate AcpiOsFree (λ a w, bs ← get_bytes (Z.to_nat w) a; mret (le bs)) (λ a w v, put_bytes (Z.to_nat w) a v)
    AcpiOsReadPort AcpiOsWritePort AcpiOsReadPciConfiguration AcpiOsWritePciConfiguration AcpiGbl_OsiData AcpiGbl_TruncateIoAddresses.

(** ** Resources *)

Definition kernel_mem (s : machine) (x : Z) : Z := u8 (physical s x).

(** A range that can be mapped. *)
Definition mappable (c : Z * Z) : Prop := 0 ≤ c.1 ∧ 0 < c.2 ∧ c.1 + c.2 ≤ W32 - 2 * PAGE_SIZE.

(** The kernel serves any [n] mappings, each undone before the next. *)
Definition can_map (n : nat) (k : kstate) : Prop :=
  (∃ ms pm vm ar, kinv KERNEL_VMA k ms pm vm ar) ∧ room (Z.of_nat n * map_cost) k ∧
  ∀ calls, length calls = n → Forall mappable calls → served KERNEL_VMA fresh_ar fresh_vr calls k.
Definition kernel_ready (n : nat) (s : machine) : Prop := can_map n (kern s).
Definition kernel_opened (n : nat) (s : machine) (l p len : Z) : Prop :=
  window KERNEL_VMA (kern s) l p len ∧ ∃ k, AcpiOsUnmapMemory KERNEL_VMA fresh_ar l len (kern s) = Ret tt k ∧ can_map n k.

Lemma map_then_unmap n k p len : can_map (S n) k → mappable (p, len) →
  ∃ va k1, AcpiOsMapMemory KERNEL_VMA fresh_ar fresh_vr p len k = Ret va k1 ∧ va ≠ 0 ∧ window KERNEL_VMA k1 va p len ∧
    ∃ k2, AcpiOsUnmapMemory KERNEL_VMA fresh_ar va len k1 = Ret tt k2 ∧ can_map n k2.
Proof.
  intros ((ms & pm & vm & ar & Hk) & Hroom & Hserve) Hm. pose proof Hm as (H0 & H1 & H2). cbn in H0, H1, H2.
  assert (room map_cost k) as Hr1 by (eapply room_mono; [|exact Hroom]; unfold map_cost, PAGE_SIZE; lia).
  assert (∀ calls, length calls = n → Forall mappable calls → served KERNEL_VMA fresh_ar fresh_vr ((p, len) :: calls) k) as Hs.
  { intros calls Hl Hf. apply Hserve; [cbn; lia|by constructor]. }
  destruct (os_map_unmap KERNEL_VMA fresh_ar fresh_vr k ms pm vm ar p len (replicate n (p, len)) Hk Hr1)
    as (va & k1 & E1 & Hva & Hw & k2 & ms2 & vm2 & ar2 & E2 & Hk2 & _ & Hg & _); try done.
  { apply Hs; [by rewrite length_replicate|by apply Forall_replicate]. }
  exists va, k1. split; [done|]. split; [done|]. split; [done|]. exists k2. split; [done|]. split; [by exists ms2, pm, vm2, ar2|]. split.
  - eapply room_grows; [exact Hg|]. eapply room_mono; [|exact Hroom]. lia.
  - intros calls Hl Hf. destruct (os_map_unmap KERNEL_VMA fresh_ar fresh_vr k ms pm vm ar p len calls Hk Hr1 (Hs _ Hl Hf))
      as (va' & k1' & E1' & _ & _ & k2' & ? & ? & ? & E2' & _ & Hsv & _); try done. congruence.
Qed.

(** ** Accesses through the window *)

Lemma get_bytes_ok s l p len n i : window KERNEL_VMA (kern s) l p len → 0 ≤ i → i + Z.of_nat n ≤ len →
  get_bytes n (l + i) s = Ret (bytes_in (kernel_mem s) (p + i) n) s.
Proof.
  intros (H0 & He & Hw). revert i. induction n as [|n IH]; intros i Hi Hn; [done|]. cbn [get_bytes].
  assert (get_byte (l + i) s = Ret (kernel_mem s (p + i)) s) as E by (unfold get_byte; by rewrite Hw by lia). step E.
  rewrite u32_small by lia. replace (l + i + 1) with (l + (i + 1)) by lia. assert (0 ≤ i + 1) as Hi1 by lia. assert (i + 1 + Z.of_nat n ≤ len) as Hn1 by lia.
  step (IH (i + 1) Hi1 Hn1). unfold bytes_in. cbn [seq fmap list_fmap]. rewrite Z.add_0_r. unfold mret, M_ret. do 2 f_equal.
  rewrite <- fmap_S_seq, <- list_fmap_compose. apply list_fmap_ext. intros j y _. cbn. f_equal. lia.
Qed.

Lemma next_byte v d : 0 ≤ d → bits_get (v / 256) (8 * d) 8 = bits_get v (8 + 8 * d) 8.
Proof.
  intros Hd. apply bits_eq. intros k Hk. rewrite !bits_get_bit by lia. change 256 with (2 ^ 8). rewrite <- Z.shiftr_div_pow2, Z.shiftr_spec by lia.
  do 2 f_equal. lia.
Qed.

Lemma put_bytes_ok l p len n : ∀ s i v, window KERNEL_VMA (kern s) l p len → 0 ≤ i → i + Z.of_nat n ≤ len → 0 ≤ v →
  ∃ s', put_bytes n (l + i) v s = Ret tt s' ∧ kern s' = kern s ∧ ∀ x, kernel_mem s' x = stored_at (kernel_mem s) (p + i) (Z.of_nat n) v x.
Proof.
  induction n as [|n IH]; intros s i v Hwin Hi Hn Hv; pose proof Hwin as (H0 & He & Hw); cbn [put_bytes].
  { exists s. split; [done|]. split; [done|]. intros x. unfold stored_at. destruct (Z.leb_spec (p + i) x); [|done]. by rewrite (proj2 (Z.ltb_ge _ _)) by lia. }
  set (s1 := Machine (kern s) (λ x, if x =? p + i then v mod 256 else physical s x)).
  assert (put_byte (l + i) (v mod 256) s = Ret tt s1) as E by (unfold put_byte; by rewrite Hw by lia). step E.
  rewrite u32_small by lia. replace (l + i + 1) with (l + (i + 1)) by lia.
  destruct (IH s1 (i + 1) (v / 256) Hwin ltac:(lia) ltac:(lia) ltac:(by apply Z.div_pos)) as (s' & E' & Hk & Hmem).
  exists s'. split; [done|]. split; [done|]. intros x. rewrite Hmem. unfold stored_at. rewrite Nat2Z.inj_succ.
  assert (kernel_mem s1 x = if x =? p + i then v mod 256 else kernel_mem s x) as Hs1.
  { unfold kernel_mem, s1, u8. cbn [physical]. destruct (x =? p + i); [apply Z.mod_mod; lia|done]. }
  rewrite Hs1. destruct (Z.eqb_spec x (p + i)) as [He1|Hne].
  - rewrite He1. rewrite (proj2 (Z.leb_gt (p + (i + 1)) _)), (proj2 (Z.leb_le _ _)), (proj2 (Z.ltb_lt (p + i) (p + i + Z.succ (Z.of_nat n)))) by lia. cbn [andb].
    rewrite Z.sub_diag. change (8 * 0) with 0. rewrite bits_get_low, Z.land_ones by lia. done.
  - destruct (Z.leb_spec (p + (i + 1)) x).
    + rewrite (proj2 (Z.leb_le (p + i) x)) by lia. cbn [andb]. replace (p + i + Z.succ (Z.of_nat n)) with (p + (i + 1) + Z.of_nat n) by lia.
      destruct (x <? p + (i + 1) + Z.of_nat n); [|done]. replace (8 * (x - (p + i))) with (8 + 8 * (x - (p + (i + 1)))) by lia. apply next_byte. lia.
    + by rewrite (proj2 (Z.leb_gt (p + i) x)) by lia.
Qed.

Lemma get_mem_ok n s l p len i w : kernel_opened n s l p len → 0 ≤ i → 0 ≤ w → i + w ≤ len →
  get_mem kernel_os (l + i) w s = Ret (memory_bits (kernel_mem s) (p + i) (Z.to_nat w)) s.
Proof.
  intros [Hw _] Hi Hw0 Hl. cbn. assert (i + Z.of_nat (Z.to_nat w) ≤ len) as Hn by lia. by step (get_bytes_ok s l p len (Z.to_nat w) i Hw Hi Hn).
Qed.

#[export] Instance kernel_memory : OsMemory kernel_os kernel_ready kernel_opened kernel_mem (W32 - 2 * PAGE_SIZE).
Proof.
  split.
  - unfold PAGE_SIZE. lia.
  - intros s x. apply Z.mod_pos_bound. lia.
  - intros n s p len Hr Hp Hl Hs. destruct (map_then_unmap n (kern s) p len Hr (conj Hp (conj Hl Hs))) as (va & k1 & E & Hva & Hw & Hun).
    exists va, (Machine k1 (physical s)). split; [cbn; unfold on_kern, zoom; by rewrite E|]. split; [done|]. by split.
  - intros n s l p len [_ (k & E & Hk)]. exists (Machine k (physical s)). split; [cbn; unfold on_kern, zoom; by rewrite E|]. by split.
  - by intros n s l p len [(H0 & H1 & _) _].
  - intros n s l p len i w Ho Hi Hw Hl. apply (get_mem_ok n s l p len); try done. rewrite !elem_of_cons, elem_of_nil in Hw. lia.
  - intros n s l p len i w v Ho Hi Hw Hl Hv. pose proof Ho as [Hwin Hun]. assert (0 ≤ w) as Hw0 by (rewrite !elem_of_cons, elem_of_nil in Hw; lia).
    destruct (put_bytes_ok l p len (Z.to_nat w) s i v Hwin Hi ltac:(lia) ltac:(lia)) as (s' & E & Hk & Hmem).
    exists s'. split; [exact E|]. split; [by split; rewrite Hk|]. by rewrite Z2Nat.id in Hmem by lia.
Qed.

(** So a region of system memory is one for the field code, on the kernel. *)
Lemma kernel_region drv unassigned rp r c m0 : memory_region (limit := W32 - 2 * PAGE_SIZE) rp r →
  LinearRegion (AcpiEvAddressSpaceDispatch kernel_os drv unassigned) rp r
    (in_memory (ready := kernel_ready) (opened := kernel_opened) (mem := kernel_mem) rp r c m0).
Proof. exact (memory_linear kernel_os drv unassigned rp c r m0). Qed.
End Kernel.
