(* ===== verification/AcpiAml.v ===== *)
(** * ACPICA: package lengths, names and data in AML

    The decoders of libs/acpica/source/components/parser/psargs.c, which the
    interpreter uses, and the encoder of package lengths of the compiler
    (libs/acpica/source/compiler: asllength.c, aslcodegen.c).  AML is bytes in
    memory; the parser state is the address of the next byte. *)

From stdpp Require Import base numbers list gmap strings fin_maps.
From S2P Require Import Prelude UtList MemUtil Bytes Cstring.

(** ** Decoding *)

(** [while (ByteCount)]: bytes 3, 2 and 1 of the length, as needed. *)
Fixpoint length_loop (ByteCount : nat) (Aml PackageLength ByteZeroMask : Z) : M bytes (Z * Z) :=
  match ByteCount with
  | O => mret (PackageLength, ByteZeroMask)
  | S n =>
      b ← load8 (u32 (Aml + Z.of_nat ByteCount));
      length_loop n Aml (Z.lor PackageLength (u32 (Z.shiftl b (8 * Z.of_nat ByteCount - 4)))) 15
  end.

(** The length, and the parser state after it. *)
Definition AcpiPsGetNextPackageLength (Aml : Z) : M bytes (Z * Z) :=
  b0 ← load8 Aml;
  let ByteCount := Z.shiftr b0 6 in
  '(PackageLength, ByteZeroMask) ← length_loop (Z.to_nat ByteCount) Aml 0 63;
  mret (Z.lor PackageLength (Z.land b0 ByteZeroMask), u32 (Aml + (ByteCount + 1))).

(** The end of the package, and the parser state after the length. *)
Definition AcpiPsGetNextPackageEnd (Aml : Z) : M bytes (Z * Z) :=
  '(PackageLength, Aml') ← AcpiPsGetNextPackageLength Aml;
  mret (u32 (Aml + PackageLength), Aml').

Abbreviation AML_DUAL_NAME_PREFIX := 46 (only parsing).
Abbreviation AML_MULTI_NAME_PREFIX_OP := 47 (only parsing).
Abbreviation ACPI_NAME_SIZE := 4 (only parsing).

(** [while (ACPI_IS_ROOT_PREFIX ( *End) || ACPI_IS_PARENT_PREFIX ( *End)) End++] *)
Fixpoint skip_prefix (fuel : nat) (End_ : Z) : M bytes Z :=
  match fuel with
  | O => nofuel
  | S fuel =>
      c ← load8 End_;
      if (c =? 92) || (c =? 94) then skip_prefix fuel (u32 (End_ + 1)) else mret End_
  end.

(** The start of the name, null for the null name, and the parser state. *)
Definition AcpiPsGetNextNamestring (Aml : Z) : M bytes (Z * Z) :=
  let Start := Aml in
  fuel ← fuel_of_heap;
  End_ ← skip_prefix fuel Aml;
  c ← load8 End_;
  if c =? 0 then mret (if End_ =? Start then NULL else Start, u32 (End_ + 1))
  else if c =? AML_DUAL_NAME_PREFIX then mret (Start, u32 (End_ + (1 + 2 * ACPI_NAME_SIZE)))
  else if c =? AML_MULTI_NAME_PREFIX_OP then
    n ← load8 (u32 (End_ + 1));
    mret (Start, u32 (End_ + (2 + n * ACPI_NAME_SIZE)))
  else mret (Start, u32 (End_ + ACPI_NAME_SIZE)).

(** A little-endian integer of [n] bytes. *)
Fixpoint load_le (n : nat) (p : Z) : M bytes Z :=
  match n with
  | O => mret 0
  | S n => b ← load8 p; r ← load_le n (u32 (p + 1)); mret (b + 256 * r)
  end.

Inductive arg_type :=
  | ARGP_BYTEDATA | ARGP_WORDDATA | ARGP_DWORDDATA | ARGP_QWORDDATA
  | ARGP_CHARLIST | ARGP_NAME | ARGP_NAMESTRING | ARGP_other.

(** The value of an argument: an integer, or a pointer into the AML. *)
Inductive arg_value :=
  | Value_Integer (opcode n : Z)
  | Value_String (opcode p : Z)
  | Value_Name (opcode p : Z)
  | Value_none.

Abbreviation AML_BYTE_OP := 10 (only parsing).
Abbreviation AML_WORD_OP := 11 (only parsing).
Abbreviation AML_DWORD_OP := 12 (only parsing).
Abbreviation AML_STRING_OP := 13 (only parsing).
Abbreviation AML_QWORD_OP := 14 (only parsing).
Abbreviation AML_INT_NAMEPATH_OP := 45 (only parsing).

(** [while (Aml[Length]) Length++] *)
Fixpoint charlist_length (fuel : nat) (Aml Length : Z) : M bytes Z :=
  match fuel with
  | O => nofuel
  | S fuel =>
      c ← load8 (u32 (Aml + Length));
      if c =? 0 then mret Length else charlist_length fuel Aml (u32 (Length + 1))
  end.

Definition AcpiPsGetNextSimpleArg (Aml : Z) (ArgType : arg_type) : M bytes (arg_value * Z) :=
  match ArgType with
  | ARGP_BYTEDATA => n ← load8 Aml; mret (Value_Integer AML_BYTE_OP n, u32 (Aml + 1))
  | ARGP_WORDDATA => n ← load_le 2 Aml; mret (Value_Integer AML_WORD_OP n, u32 (Aml + 2))
  | ARGP_DWORDDATA => n ← load_le 4 Aml; mret (Value_Integer AML_DWORD_OP n, u32 (Aml + 4))
  | ARGP_QWORDDATA => n ← load_le 8 Aml; mret (Value_Integer AML_QWORD_OP n, u32 (Aml + 8))
  | ARGP_CHARLIST =>
      fuel ← fuel_of_heap;
      Length ← charlist_length fuel Aml 0;
      mret (Value_String AML_STRING_OP Aml, u32 (Aml + u32 (Length + 1)))
  | ARGP_NAME | ARGP_NAMESTRING =>
      '(Name, Aml) ← AcpiPsGetNextNamestring Aml;
      mret (Value_Name AML_INT_NAMEPATH_OP Name, Aml)
  | ARGP_other => mret (Value_none, Aml)
  end.

(** ** Encoding *)

(** The number of bytes the length of a package needs; 0 if it is too large. *)
Definition CgGetPackageLenByteCount (PackageLength : Z) : Z :=
  if PackageLength <=? 63 - 1 then 1
  else if PackageLength <=? 4095 - 2 then 2
  else if PackageLength <=? 1048575 - 3 then 3
  else if PackageLength <=? 268435455 - 4 then 4
  else 0.

(** The bytes CgWriteAmlOpcode writes for the length [Len] of a package, in
    [AmlPkgLenBytes] bytes. *)
Definition write_package_length (Len AmlPkgLenBytes : Z) : list Z :=
  if AmlPkgLenBytes =? 1 then [u8 Len]
  else if negb (AmlPkgLenBytes =? 0) then
    u8 (Z.lor (Z.shiftl (AmlPkgLenBytes - 1) 6) (Z.land (u8 Len) 15)) ::
    ((λ i, u8 (Z.shiftr (Z.shiftr Len 4) (8 * Z.of_nat i))) <$> seq 0 (Z.to_nat (AmlPkgLenBytes - 1)))
  else [].

(** The length bytes of a package whose content has [AmlSubtreeLength] bytes. *)
Definition package_length (AmlSubtreeLength : Z) : list Z :=
  let AmlPkgLenBytes := CgGetPackageLenByteCount AmlSubtreeLength in
  write_package_length (u32 (AmlSubtreeLength + AmlPkgLenBytes)) AmlPkgLenBytes.

Implicit Types (m : bytes) (p : Z).

(** ** Package lengths *)

Lemma first_byte n Len (b := u8 (Z.lor (Z.shiftl (n - 1) 6) (Z.land (u8 Len) 15))) :
  1 ≤ n ≤ 4 → Z.shiftr b 6 = n - 1 ∧ Z.land b 15 = Len mod 16.
Proof.
  intros Hn. unfold b. change 15 with (Z.ones 4). rewrite !Z.land_ones, Z.shiftl_mul_pow2, Z.lor_comm by lia.
  unfold u8. change (2 ^ 4) with 16. pose proof (Z.mod_pos_bound (Len mod W8) 16 ltac:(lia)).
  rewrite lor_disjoint by lia. change (2 ^ 6) with 64. rewrite Z.shiftr_div_pow2 by lia. change (2 ^ 6) with 64.
  rewrite (Z.mod_small (_ + _) W8) by lia. split; Z.to_euclidean_division_equations; lia.
Qed.

(** The bytes after the first are the digits, in base 256, of the rest. *)
Lemma length_byte Len i : 0 ≤ Len → u8 (Z.shiftr (Z.shiftr Len 4) (8 * Z.of_nat i)) = (Len / 16 / 256 ^ Z.of_nat i) mod 256.
Proof. intros HL. rewrite !Z.shiftr_div_pow2, Z.pow_mul_r by lia. done. Qed.

Lemma lor_shifted a b k j :
  0 ≤ k → 0 ≤ j → 0 ≤ b < 2 ^ j → Z.lor (b * 2 ^ k) (a * 2 ^ j * 2 ^ k) = (a * 2 ^ j + b) * 2 ^ k.
Proof.
  intros Hk Hj Hb. rewrite <- (Z.shiftl_mul_pow2 b k), <- (Z.shiftl_mul_pow2 (a * 2 ^ j) k) by lia.
  rewrite <- Z.shiftl_lor, Z.shiftl_mul_pow2, lor_disjoint by lia. lia.
Qed.

Lemma length_loop_spec m p Len n k acc mask :
  (∀ i, (i < n)%nat → m !! (p + Z.of_nat i + 1) = Some ((Len / 16 / 256 ^ Z.of_nat i) mod 256)) →
  0 ≤ p → p + Z.of_nat n < W32 → (k ≤ n ≤ 3)%nat → 0 ≤ Len → 0 ≤ acc →
  length_loop k p (acc * 2 ^ (8 * Z.of_nat k + 4)) mask m =
    Ret ((acc * 256 ^ Z.of_nat k + (Len / 16) mod 256 ^ Z.of_nat k) * 16, if decide (k = 0)%nat then mask else 15) m.
Proof.
  intros Hm Hp He. revert acc mask. induction k as [|k IH]; intros acc mask Hk HL Ha.
  { simpl. rewrite Z.mod_1_r. f_equal. f_equal. change (2 ^ 4) with 16. lia. }
  cbn [length_loop]. rewrite (u32_small (p + _)) by lia.
  replace (p + Z.of_nat (S k)) with (p + Z.of_nat k + 1) by lia.
  rewrite (bind_ret _ _ _ _ _ (load8_ok m _ _ (Hm k ltac:(clear -Hk; lia)))).
  set (b := (Len / 16 / 256 ^ Z.of_nat k) mod 256).
  assert (0 ≤ b < 256) as Hb by (apply Z.mod_pos_bound; lia).
  replace (8 * Z.of_nat (S k) - 4) with (8 * Z.of_nat k + 4) by lia. rewrite Z.shiftl_mul_pow2 by lia.
  assert (2 ^ (8 * Z.of_nat k + 4) ≤ 2 ^ 20) as Hpow by (apply Z.pow_le_mono_r; lia).
  assert (0 < 2 ^ (8 * Z.of_nat k + 4)) as Hpos by (apply Z.pow_pos_nonneg; lia).
  rewrite (u32_small (b * _)) by (change (2 ^ 20) with 1048576 in Hpow; nia).
  replace (8 * Z.of_nat (S k) + 4) with (8 + (8 * Z.of_nat k + 4)) by lia. rewrite Z.pow_add_r by lia.
  rewrite Z.lor_comm, Z.mul_assoc.
  replace (Z.lor (b * 2 ^ (8 * Z.of_nat k + 4)) (acc * 2 ^ 8 * 2 ^ (8 * Z.of_nat k + 4)))
    with ((acc * 256 + b) * 2 ^ (8 * Z.of_nat k + 4)).
  - rewrite IH by lia. f_equal. f_equal; [|by repeat (destruct (decide _); try lia)].
    rewrite Nat2Z.inj_succ, Z.pow_succ_r, (Z.mul_comm 256 (256 ^ _)), (Z.rem_mul_r (Len / 16)) by lia. unfold b. lia.
  - symmetry. apply (lor_shifted acc b _ 8); lia.
Qed.

Lemma u8_small b : 0 ≤ b < W8 → u8 b = b.
Proof. intros. unfold u8. by apply Z.mod_small. Qed.

(** Reading a length that was written in [n] bytes. *)
Lemma read_package_length m p n Len :
  1 ≤ n ≤ 4 → 0 ≤ Len → Len < (if n =? 1 then 64 else 2 ^ (8 * n - 4)) →
  array m p (write_package_length Len n) → 0 ≤ p → p + n < W32 →
  AcpiPsGetNextPackageLength p m = Ret (Len, p + n) m.
Proof.
  intros Hn HL Hlt Harr Hp He. unfold AcpiPsGetNextPackageLength. unfold write_package_length in Harr.
  destruct (Z.eqb_spec n 1) as [->|Hn1].
  - apply array_cons in Harr as [H0 _]. rewrite u8_small in H0 by lia.
    rewrite (bind_ret _ _ _ _ _ (load8_ok m _ _ H0)). rewrite Z.shiftr_div_pow2 by lia. change (2 ^ 6) with 64.
    rewrite Z.div_small by lia. change (Z.to_nat 0) with 0%nat.
    rewrite (bind_ret (length_loop 0 p 0 63) _ m (0, 63) m eq_refl).
    rewrite Z.lor_0_l. change 63 with (Z.ones 6). rewrite Z.land_ones, Z.mod_small by lia.
    by rewrite u32_small by lia.
  - rewrite (proj2 (Z.eqb_neq n 0)) in Harr by lia. cbn [negb] in Harr. apply array_cons in Harr as [H0 Hrest].
    destruct (first_byte n Len ltac:(lia)) as [Hc Hlow].
    rewrite (bind_ret _ _ _ _ _ (load8_ok m _ _ H0)). rewrite Hc.
    set (k := Z.to_nat (n - 1)) in *.
    assert (∀ i, (i < k)%nat → m !! (p + Z.of_nat i + 1) = Some ((Len / 16 / 256 ^ Z.of_nat i) mod 256)) as Hm.
    { intros i Hi. rewrite <- length_byte by lia. replace (p + Z.of_nat i + 1) with (p + 1 + Z.of_nat i) by lia.
      apply Hrest. rewrite list_lookup_fmap, lookup_seq_lt by done. done. }
    pose proof (length_loop_spec m p Len k k 0 63 Hm Hp ltac:(lia) ltac:(lia) HL ltac:(lia)) as HLoop.
    rewrite Z.mul_0_l in HLoop. rewrite (bind_ret _ _ _ _ _ HLoop). rewrite decide_False by lia.
    rewrite Hlow, Z.mul_0_l, Z.add_0_l. rewrite u32_small by lia.
    assert (Len / 16 < 256 ^ Z.of_nat k) as Hk.
    { apply Z.div_lt_upper_bound; [lia|]. replace (16 * 256 ^ Z.of_nat k) with (2 ^ (8 * n - 4)); [done|].
      change 16 with (2 ^ 4). change 256 with (2 ^ 8). rewrite <- Z.pow_mul_r, <- Z.pow_add_r by lia. f_equal. lia. }
    rewrite Z.mod_small by (split; [apply Z.div_pos; lia|done]).
    rewrite Z.lor_comm. change 16 with (2 ^ 4) at 3. rewrite lor_disjoint by (try apply Z.mod_pos_bound; lia).
    change (2 ^ 4) with 16. f_equal. f_equal; [pose proof (Z.div_mod Len 16); lia|lia].
Qed.

(** C40: The interpreter reads the package lengths the compiler writes: for a
    package with up to 2^28 - 5 bytes of content that does not reach the end of
    the address space, whose length the compiler
    encodes in one to four bytes, the interpreter consumes exactly these
    bytes, the length it returns counts them and the content, and the end of
    the package it computes is the end of the content. *)
Theorem package_length_roundtrip m p L :
  0 ≤ L ≤ 268435455 - 4 → array m p (package_length L) → 0 ≤ p → p + L + 4 < W32 →
  let n := Z.of_nat (length (package_length L)) in
  1 ≤ n ≤ 4 ∧ AcpiPsGetNextPackageLength p m = Ret (L + n, p + n) m ∧
  AcpiPsGetNextPackageEnd p m = Ret (p + n + L, p + n) m.
Proof.
  intros HL Harr Hp He n.
  assert (1 ≤ CgGetPackageLenByteCount L ≤ 4 ∧ n = CgGetPackageLenByteCount L ∧
    L + n < if n =? 1 then 64 else 2 ^ (8 * n - 4)) as (Hn & En & Hlt).
  { unfold n, package_length, CgGetPackageLenByteCount, write_package_length.
    repeat (case_match; bool_to_prop; cbn [Z.eqb negb length] in *); simpl in *; try lia. }
  assert (AcpiPsGetNextPackageLength p m = Ret (L + n, p + n) m) as E.
  { apply read_package_length; try lia. unfold package_length in Harr. rewrite <- En, u32_small in Harr by lia. done. }
  split; [lia|]. split; [done|]. unfold AcpiPsGetNextPackageEnd. rewrite (bind_ret _ _ _ _ _ E).
  rewrite u32_small by lia. f_equal. f_equal. lia.
Qed.

Definition ex_aml : bytes := write_at 100 (package_length 100) ∅.

Lemma package_length_roundtrip_witness :
  AcpiPsGetNextPackageLength 100 ex_aml = Ret (102, 102) ex_aml ∧
  AcpiPsGetNextPackageEnd 100 ex_aml = Ret (202, 102) ex_aml.
Proof.
  destruct (package_length_roundtrip ex_aml 100 100) as (_ & E1 & E2);
    [lia|apply write_at_array|lia|lia|]. exact (conj E1 E2).
Defined.

(** ** Names *)

(** The bytes of a name: the prefixes, and the segments, of four characters,
    in the form their number asks for. *)
Definition name_bytes (prefix : list Z) (segs : list (list Z)) : list Z :=
  prefix ++ match segs with
  | [] => [0]
  | [s] => s
  | [s1; s2] => AML_DUAL_NAME_PREFIX :: s1 ++ s2
  | _ => AML_MULTI_NAME_PREFIX_OP :: Z.of_nat (length segs) :: concat segs
  end.

Definition is_prefix (c : Z) : Prop := c = 92 ∨ c = 94.

(** A segment starts with a letter or an underscore. *)
Definition name_seg (s : list Z) : Prop :=
  length s = 4%nat ∧ ∃ c, head s = Some c ∧ (65 ≤ c ≤ 90 ∨ c = 95).

Lemma skip_prefix_spec m p prefix c fuel :
  array m p (prefix ++ [c]) → Forall is_prefix prefix → ¬ is_prefix c →
  0 ≤ p → p + Z.of_nat (length prefix) < W32 → (length prefix < fuel)%nat →
  skip_prefix fuel p m = Ret (p + Z.of_nat (length prefix)) m.
Proof.
  intros Harr Hp Hc. revert p fuel Harr. induction Hp as [|b prefix Hb Hp IH]; intros p [|fuel] Harr H0 He Hf;
    simpl in Hf; try lia; cbn [app] in Harr; apply array_cons in Harr as [Hm Harr]; cbn [skip_prefix];
    rewrite (bind_ret _ _ _ _ _ (load8_ok m _ _ Hm)).
  - unfold is_prefix in Hc. destruct (Z.eqb_spec c 92), (Z.eqb_spec c 94); try tauto. simpl. by rewrite Z.add_0_r.
  - assert ((b =? 92) || (b =? 94) = true) as -> by (destruct Hb as [-> | ->]; done). cbn [length] in *.
    rewrite (u32_small (p + 1)) by lia. rewrite IH by (try done; lia). f_equal. lia.
Qed.

Lemma concat_segs segs : Forall name_seg segs → length (concat segs) = (4 * length segs)%nat.
Proof.
  induction 1 as [|s segs [Hl _] Hs IH]; [done|]. cbn [concat length]. rewrite length_app, IH, Hl. lia.
Qed.

(** The parser consumes exactly the bytes of a name. *)
Lemma AcpiPsGetNextNamestring_spec m p prefix segs :
  array m p (name_bytes prefix segs) → Forall is_prefix prefix → Forall name_seg segs →
  (length segs < 256)%nat → 0 ≤ p → p + Z.of_nat (length (name_bytes prefix segs)) < W32 →
  AcpiPsGetNextNamestring p m =
    Ret (if decide (prefix = [] ∧ segs = []) then NULL else p,
         p + Z.of_nat (length (name_bytes prefix segs))) m.
Proof.
  intros Harr Hp Hs Hlen H0 He. unfold AcpiPsGetNextNamestring.
  rewrite (bind_ret fuel_of_heap _ m _ m eq_refl). pose proof (array_size _ _ _ Harr) as Hsz.
  unfold name_bytes in *. rewrite length_app in *. apply array_app in Harr as [Hpre Hrest].
  set (rest := match segs with [] => _ | _ => _ end) in *.
  assert (∃ c t, rest = c :: t ∧ ¬ is_prefix c ∧ (c = 0 ↔ segs = [])) as (c & t & Er & Hc & Hc0).
  { unfold rest, is_prefix. destruct segs as [|s1 [|s2 [|s3 segs]]]; [eexists _, _; split; [done|]; naive_solver lia| |
      eexists _, _; split; [done|]; split; [lia|]; split; [lia|done]..].
    apply Forall_cons_1 in Hs as [(Hl & c & Hh & Hcc) _]. destruct s1 as [|c' s1]; [done|]. injection Hh as ->.
    exists c, s1. split; [done|]. split; [lia|]. split; [lia|done]. }
  assert (m !! (p + Z.of_nat (length prefix)) = Some c) as Hmc.
  { rewrite Er in Hrest. by apply array_cons in Hrest as [? _]. }
  rewrite Er in He. cbn [length] in He.
  rewrite (bind_ret _ _ _ _ _ (skip_prefix_spec m p prefix c (S (size m)) ltac:(apply array_app; split; [done|];
    apply array_cons; split; [done|apply array_nil]) Hp Hc H0 ltac:(lia) ltac:(rewrite Er in Hsz; cbn [length] in Hsz; lia))).
  rewrite (bind_ret _ _ _ _ _ (load8_ok m _ _ Hmc)).
  set (e := p + Z.of_nat (length prefix)) in *.
  destruct segs as [|s1 [|s2 [|s3 segs]]]; cbn [length] in *.
  - injection Er as <- <-. cbn [Z.eqb]. rewrite u32_small by lia. simpl length. f_equal. f_equal; [|lia].
    destruct prefix as [|b prefix]; cbn [length] in e.
    + replace (e =? p) with true by (symmetry; apply Z.eqb_eq; lia). by rewrite decide_True.
    + replace (e =? p) with false by (symmetry; apply Z.eqb_neq; lia). by rewrite decide_False by naive_solver.
  - apply Forall_cons_1 in Hs as [(Hl & c' & Hh & Hcc) _]. unfold rest in Er. subst s1. injection Hh as ->.
    rewrite !(proj2 (Z.eqb_neq _ _)) by lia. unfold rest. cbn [length] in *.
    rewrite decide_False by naive_solver. rewrite u32_small by lia. f_equal. f_equal. lia.
  - injection Er as <- <-. change (46 =? 0) with false. change (46 =? 46) with true. cbv iota.
    apply Forall_cons_1 in Hs as [(Hl1 & _) [(Hl2 & _) _]%Forall_cons_1]. unfold rest. cbn [length].
    rewrite length_app in *. rewrite decide_False by naive_solver. rewrite u32_small by lia. f_equal. f_equal. lia.
  - injection Er as <- Et. change (47 =? 0) with false. change (47 =? 46) with false. change (47 =? 47) with true. cbv iota.
    assert (length t = S (length (concat (s1 :: s2 :: s3 :: segs)))) as Hlt by (by rewrite <- Et).
    assert (m !! (e + 1) = Some (Z.of_nat (S (S (S (length segs)))))) as Hn.
    { unfold rest in Hrest. apply array_cons in Hrest as [_ [? _]%array_cons]. done. }
    rewrite (u32_small (e + 1)) by lia. rewrite (bind_ret _ _ _ _ _ (load8_ok m _ _ Hn)).
    rewrite (concat_segs _ Hs) in Hlt. cbn [length] in Hlt.
    assert (length rest = S (length t)) as -> by (unfold rest; by rewrite <- Et).
    rewrite decide_False by naive_solver. rewrite u32_small by lia. f_equal. f_equal. lia.
Qed.

(** ** Integers and strings *)

Fixpoint le_value (bs : list Z) : Z :=
  match bs with
  | [] => 0
  | b :: bs => b + 256 * le_value bs
  end.

Lemma load_le_ok m p bs :
  array m p bs → 0 ≤ p → p + Z.of_nat (length bs) ≤ W32 → load_le (length bs) p m = Ret (le_value bs) m.
Proof.
  revert p. induction bs as [|b bs IH]; intros p Ha Hp He; [done|]. simpl length in He.
  apply array_cons in Ha as [Hb Ha]. cbn [load_le length le_value]. step (load8_ok _ _ _ Hb).
  destruct bs as [|b' bs]; [done|]. simpl length in He. rewrite (u32_small (p + 1)) by lia.
  rewrite (bind_ret _ _ _ _ _ (IH (p + 1) Ha ltac:(lia) ltac:(simpl length; lia))). done.
Qed.

(** [n] bytes at offset [k] of an array. *)
Lemma load_field_ok m p bs k n :
  array m p bs → 0 ≤ p → p + Z.of_nat (length bs) ≤ W32 → (k + n ≤ length bs)%nat → (0 < n)%nat →
  load_le n (u32 (p + Z.of_nat k)) m = Ret (le_value (take n (drop k bs))) m.
Proof.
  intros Ha Hp He Hk Hn. rewrite u32_small by lia.
  assert (length (take n (drop k bs)) = n) as Hl by (rewrite length_take, length_drop; lia).
  rewrite <- Hl at 1. apply load_le_ok; [|lia|lia]. intros i b Hi. rewrite lookup_take_Some, lookup_drop in Hi.
  destruct Hi as [Hi _]. rewrite <- (Ha _ _ Hi). f_equal. lia.
Qed.

Lemma charlist_length_ok m p bs L fuel :
  cstr m (p + L) bs → 0 ≤ p → 0 ≤ L → (length bs < fuel)%nat →
  charlist_length fuel p L m = Ret (L + Z.of_nat (length bs)) m.
Proof.
  revert L fuel. induction bs as [|b bs IH]; intros L [|fuel] [Ha Hb Hl Hh] Hp HL Hf; simpl in *; try lia.
  - apply array_cons in Ha as [E _]. rewrite (u32_small (p + L)) by lia. step (load8_ok _ _ _ E). simpl. by rewrite Z.add_0_r.
  - apply array_cons in Ha as [E Ha]. apply Forall_cons_1 in Hb as [Hb Hbs]. rewrite (u32_small (p + L)) by lia.
    step (load8_ok _ _ _ E). rewrite (proj2 (Z.eqb_neq b 0)) by lia. rewrite (u32_small (L + 1)) by lia.
    rewrite IH; [f_equal; lia| |lia|lia|lia]. split; [|done|lia|lia].
    by replace (p + (L + 1)) with (p + L + 1) by lia.
Qed.

(** An integer argument is the little-endian value of the next bytes, and a
    string argument is the bytes up to the terminator, which is skipped. *)
Lemma AcpiPsGetNextSimpleArg_spec m p bs :
  0 ≤ p → p + Z.of_nat (length bs) < W32 →
  (array m p bs → length bs = 2%nat → AcpiPsGetNextSimpleArg p ARGP_WORDDATA m = Ret (Value_Integer AML_WORD_OP (le_value bs), p + 2) m) ∧
  (array m p bs → length bs = 4%nat → AcpiPsGetNextSimpleArg p ARGP_DWORDDATA m = Ret (Value_Integer AML_DWORD_OP (le_value bs), p + 4) m) ∧
  (array m p bs → length bs = 8%nat → AcpiPsGetNextSimpleArg p ARGP_QWORDDATA m = Ret (Value_Integer AML_QWORD_OP (le_value bs), p + 8) m) ∧
  (cstr m p bs → p + Z.of_nat (length bs) + 1 < W32 →
    AcpiPsGetNextSimpleArg p ARGP_CHARLIST m = Ret (Value_String AML_STRING_OP p, p + Z.of_nat (length bs) + 1) m).
Proof.
  intros Hp He.
  assert (Hi : ∀ n op, array m p bs → length bs = n →
    (x ← load_le n p; mret (Value_Integer op x, u32 (p + Z.of_nat n))) m = Ret (Value_Integer op (le_value bs), p + Z.of_nat n) m).
  { intros n op Ha Hn. pose proof (load_le_ok m p bs Ha Hp ltac:(lia)) as E. rewrite Hn in E. step E.
    by rewrite u32_small by lia. }
  split_and!; try (intros Ha Hn; by apply Hi).
  intros Hc Hh. unfold AcpiPsGetNextSimpleArg. rewrite (bind_ret fuel_of_heap _ m _ m eq_refl).
  pose proof (cstr_size _ _ _ Hc) as Hsz.
  rewrite (bind_ret _ _ _ _ _ (charlist_length_ok m p bs 0 (S (size m)) ltac:(by rewrite Z.add_0_r) Hp ltac:(done) ltac:(lia))).
  rewrite Z.add_0_l, (u32_small (Z.of_nat (length bs) + 1)), u32_small by lia. unfold mret, M_ret. do 2 f_equal. lia.
Qed.
