(* ===== verification/Multiboot.v ===== *)
(** * kernel/boot/multiboot.c: what the boot loader tells the kernel

    The boot loader leaves a struct with the command line, the modules and the
    map of physical memory somewhere in low memory.  [load_multiboot_info]
    copies it, with what it points to, into static memory of the kernel, and
    [multiboot_copy_mem_map_to_allocator] gives the available ranges of the
    map to the allocator of physical memory (Kmem.v).

    The loader's memory is byte memory; [_magic] and the address of the struct
    are what boot.S stores.  The theorems compose these functions with
    [kmem_init] and [kmem_load_layout] in the order of [kmain]. *)

From stdpp Require Import base numbers list gmap strings fin_maps.
From S2P Require Import Prelude UtList MemUtil Bytes Cstring Range RangeSpec RangeRefine Allocator VmMap Paging Kmem AcpiAml.

(** [struct multiboot_info]; of the union of symbol tables, whose members
    agree in where they have their address, the code uses the address only. *)
Record multiboot_info := MultibootInfo {
  mi_flags : Z;
  mi_mem_lower : Z; mi_mem_upper : Z;
  mi_boot_device : Z;
  mi_cmdline : Z;
  mi_mods_count : Z; mi_mods_addr : Z;
  mi_u_addr : Z;
  mi_mmap_length : Z; mi_mmap_addr : Z;
  mi_drives_length : Z; mi_drives_addr : Z;
  mi_config_table : Z;
  mi_boot_loader_name : Z;
  mi_apm_table : Z;
  mi_vbe_control_info : Z; mi_vbe_mode_info : Z; mi_vbe_mode : Z;
  mi_vbe_interface_seg : Z; mi_vbe_interface_off : Z; mi_vbe_interface_len : Z;
  mi_framebuffer_addr : Z; mi_framebuffer_pitch : Z; mi_framebuffer_width : Z; mi_framebuffer_height : Z;
  mi_framebuffer_bpp : Z; mi_framebuffer_type : Z; mi_framebuffer_colors_u : Z
}.

Abbreviation MULTIBOOT_BOOTLOADER_MAGIC := 0x2BADB002 (only parsing).
Abbreviation MULTIBOOT_INFO_MEMORY := 0x1 (only parsing).
Abbreviation MULTIBOOT_INFO_BOOTDEV := 0x2 (only parsing).
Abbreviation MULTIBOOT_INFO_CMDLINE := 0x4 (only parsing).
Abbreviation MULTIBOOT_INFO_MODS := 0x8 (only parsing).
Abbreviation MULTIBOOT_INFO_AOUT_SYMS := 0x10 (only parsing).
Abbreviation MULTIBOOT_INFO_ELF_SHDR := 0x20 (only parsing).
Abbreviation MULTIBOOT_INFO_MEM_MAP := 0x40 (only parsing).
Abbreviation MULTIBOOT_INFO_DRIVE_INFO := 0x80 (only parsing).
Abbreviation MULTIBOOT_INFO_CONFIG_TABLE := 0x100 (only parsing).
Abbreviation MULTIBOOT_INFO_BOOT_LOADER_NAME := 0x200 (only parsing).
Abbreviation MULTIBOOT_INFO_APM_TABLE := 0x400 (only parsing).
Abbreviation MULTIBOOT_INFO_VBE_INFO := 0x800 (only parsing).
Abbreviation MULTIBOOT_INFO_FRAMEBUFFER_INFO := 0x1000 (only parsing).
Abbreviation MULTIBOOT_MEMORY_AVAILABLE := 1 (only parsing).
Abbreviation sizeof_multiboot_info := 120 (only parsing).
Abbreviation sizeof_multiboot_mod_list := 16 (only parsing).

Record bstate := BState { b_kern : kstate; b_mem : bytes; _multiboot_info : multiboot_info }.

Definition set_kern (k : kstate) (b : bstate) : bstate := BState k (b_mem b) (_multiboot_info b).
Definition set_bmem (m : bytes) (b : bstate) : bstate := BState (b_kern b) m (_multiboot_info b).
Definition set_info (i : multiboot_info) (b : bstate) : bstate := BState (b_kern b) (b_mem b) i.
(** The state after static memory was taken or written. *)
Definition set_static (s : layout * bytes) (b : bstate) : bstate :=
  BState (put_lay s.1 (b_kern b)) s.2 (_multiboot_info b).

Definition on_kern {A} (m : M kstate A) : M bstate A := zoom b_kern set_kern m.
Definition on_bmem {A} (m : M bytes A) : M bstate A := zoom b_mem set_bmem m.
Definition on_static {A} (m : M (layout * bytes) A) : M bstate A :=
  zoom (λ b, (k_lay (b_kern b), b_mem b)) set_static m.

(** A member of [n] bytes at offset [k] of the struct at [p]. *)
Definition struct_member (n : nat) (p : Z) (k : nat) : M bstate Z :=
  on_bmem (load_le n (u32 (p + Z.of_nat k))).
Definition member_if (c : bool) (n : nat) (p : Z) (k : nat) : M bstate Z :=
  if c then struct_member n p k else mret 0.

Definition flag_set (flags bit : Z) : bool := negb (Z.land flags bit =? 0).

Section Multiboot.
Variable KERNEL_VMA : Z.
Variable fresh_ar : Z → allocator_region.
Variable junk : allocator_region.
(** Written by boot.S. *)
Variables _magic _bootstrap_multiboot_info : Z.

Definition multiboot_relocate_mem (physaddr size : Z) : M bstate Z :=
  b ← get;
  let vaddr := u32 (physaddr + segment_start (k_lay (b_kern b))) in
  on_static (kalloc_dup_static vaddr size 4).

Definition multiboot_relocate_str (physaddr : Z) : M bstate Z :=
  b ← get;
  let vaddr := u32 (physaddr + segment_start (k_lay (b_kern b))) in
  n ← on_bmem (strlen vaddr);
  on_static (kalloc_dup_static vaddr (u32 (n + 1)) 4).

(** The loop over [mods], which are in static memory already. *)
Fixpoint relocate_mods (n : nat) (mods : Z) : M bstate unit :=
  match n with
  | O => mret tt
  | S n =>
      mod_start ← struct_member 4 mods 0;
      mod_end ← struct_member 4 mods 4;
      let mod_size := u32 (mod_end - mod_start) in
      mod_start ← multiboot_relocate_mem mod_start mod_size;
      on_bmem (store32 mods mod_start);;
      on_bmem (store32 (u32 (mods + 4)) (u32 (mod_start + mod_size)));;
      relocate_mods n (u32 (mods + sizeof_multiboot_mod_list))
  end.

Definition load_cmdline (flags info : Z) : M bstate Z :=
  if flag_set flags MULTIBOOT_INFO_CMDLINE then
    cmdline ← struct_member 4 info 16; multiboot_relocate_str cmdline
  else mret 0.

Definition load_mods (flags info : Z) : M bstate (Z * Z) :=
  if flag_set flags MULTIBOOT_INFO_MODS then
    mods_count ← struct_member 4 info 20;
    mods_addr ← struct_member 4 info 24;
    mods_addr ← multiboot_relocate_mem mods_addr (u32 (mods_count * sizeof_multiboot_mod_list));
    relocate_mods (Z.to_nat mods_count) mods_addr;;
    mret (mods_count, mods_addr)
  else mret (0, 0).

Definition load_mmap (flags info : Z) : M bstate (Z * Z) :=
  if flag_set flags MULTIBOOT_INFO_MEM_MAP then
    mmap_length ← struct_member 4 info 44;
    mmap_addr ← struct_member 4 info 48;
    mmap_addr ← multiboot_relocate_mem mmap_addr mmap_length;
    mret (mmap_length, mmap_addr)
  else mret (0, 0).

(** The members the code does not assign are 0, and so is the address of the
    symbols before the segment is added to it. *)
Definition load_multiboot_info : M bstate unit :=
  if negb (_magic =? MULTIBOOT_BOOTLOADER_MAGIC) then mret tt
  else
    b ← get;
    let info := u32 (_bootstrap_multiboot_info + segment_start (k_lay (b_kern b))) in
    flags ← struct_member 4 info 0;
    let has := flag_set flags in
    mem_lower ← member_if (has MULTIBOOT_INFO_MEMORY) 4 info 4;
    mem_upper ← member_if (has MULTIBOOT_INFO_MEMORY) 4 info 8;
    boot_device ← member_if (has MULTIBOOT_INFO_BOOTDEV) 4 info 12;
    cmdline ← load_cmdline flags info;
    '(mods_count, mods_addr) ← load_mods flags info;
    b ← get;
    let u_addr := if has MULTIBOOT_INFO_AOUT_SYMS || has MULTIBOOT_INFO_ELF_SHDR
                  then u32 (0 + segment_start (k_lay (b_kern b))) else 0 in
    '(mmap_length, mmap_addr) ← load_mmap flags info;
    drives_length ← member_if (has MULTIBOOT_INFO_DRIVE_INFO) 4 info 52;
    drives_addr ← member_if (has MULTIBOOT_INFO_DRIVE_INFO) 4 info 56;
    config_table ← member_if (has MULTIBOOT_INFO_CONFIG_TABLE) 4 info 60;
    boot_loader_name ← member_if (has MULTIBOOT_INFO_BOOT_LOADER_NAME) 4 info 64;
    apm_table ← member_if (has MULTIBOOT_INFO_APM_TABLE) 4 info 68;
    vbe_control_info ← member_if (has MULTIBOOT_INFO_VBE_INFO) 4 info 72;
    vbe_mode_info ← member_if (has MULTIBOOT_INFO_VBE_INFO) 4 info 76;
    vbe_mode ← member_if (has MULTIBOOT_INFO_VBE_INFO) 2 info 80;
    vbe_interface_seg ← member_if (has MULTIBOOT_INFO_VBE_INFO) 2 info 82;
    vbe_interface_off ← member_if (has MULTIBOOT_INFO_VBE_INFO) 2 info 84;
    vbe_interface_len ← member_if (has MULTIBOOT_INFO_VBE_INFO) 2 info 86;
    fb_addr ← member_if (has MULTIBOOT_INFO_FRAMEBUFFER_INFO) 8 info 88;
    fb_pitch ← member_if (has MULTIBOOT_INFO_FRAMEBUFFER_INFO) 4 info 96;
    fb_width ← member_if (has MULTIBOOT_INFO_FRAMEBUFFER_INFO) 4 info 100;
    fb_height ← member_if (has MULTIBOOT_INFO_FRAMEBUFFER_INFO) 4 info 104;
    fb_bpp ← member_if (has MULTIBOOT_INFO_FRAMEBUFFER_INFO) 1 info 108;
    fb_type ← member_if (has MULTIBOOT_INFO_FRAMEBUFFER_INFO) 1 info 109;
    fb_colors_u ← member_if (has MULTIBOOT_INFO_FRAMEBUFFER_INFO) 8 info 112;
    modify (set_info (MultibootInfo flags mem_lower mem_upper boot_device cmdline mods_count mods_addr u_addr
      mmap_length mmap_addr drives_length drives_addr config_table boot_loader_name apm_table vbe_control_info
      vbe_mode_info vbe_mode vbe_interface_seg vbe_interface_off vbe_interface_len fb_addr fb_pitch fb_width
      fb_height fb_bpp fb_type fb_colors_u)).

(** Addresses and lengths of the map have 64 bits, the parameters of
    [kern_pm_alloc_region_add] have 32. *)
Definition add_entry (mmap : Z) : M bstate unit :=
  type ← struct_member 4 mmap 20;
  if type =? MULTIBOOT_MEMORY_AVAILABLE then
    addr ← struct_member 8 mmap 4;
    len ← struct_member 8 mmap 12;
    if negb (addr =? 0) then on_kern (kern_pm_alloc_region_add fresh_ar (u32 addr) (u32 len) ALLOC_PM_NORMAL)
    else if KMEM_PAGE_SIZE <? len then
      on_kern (kern_pm_alloc_region_add fresh_ar (u32 (addr + KMEM_PAGE_SIZE)) (u32 (len - KMEM_PAGE_SIZE)) ALLOC_PM_NORMAL)
    else mret tt
  else mret tt.

(** [while(mmap_cur < mmap_end)] *)
Fixpoint mmap_loop (fuel : nat) (mmap_cur mmap_end : Z) : M bstate unit :=
  match fuel with
  | O => nofuel
  | S fuel =>
      if mmap_cur <? mmap_end then
        add_entry mmap_cur;;
        size ← struct_member 4 mmap_cur 0;
        mmap_loop fuel (u32 (mmap_cur + u32 (size + 4))) mmap_end
      else mret tt
  end.

(** Every entry has four bytes at least, so a walk that does not wrap around
    takes no more steps than there are bytes. *)
Definition multiboot_copy_mem_map_to_allocator : M bstate unit :=
  b ← get;
  let i := _multiboot_info b in
  assert (flag_set (mi_flags i) MULTIBOOT_INFO_MEM_MAP) "_multiboot_info.flags & MULTIBOOT_INFO_MEM_MAP";;
  mmap_loop (S (Z.to_nat (mi_mmap_length i))) (mi_mmap_addr i) (u32 (mi_mmap_addr i + mi_mmap_length i)).

Definition multiboot_get_cmdline : M bstate Z := b ← get; mret (mi_cmdline (_multiboot_info b)).

(** The steps of [kmain] that set up the memory of the kernel. *)
Definition boot_memory : M bstate unit :=
  load_multiboot_info;;
  on_kern kmem_init;;
  multiboot_copy_mem_map_to_allocator;;
  on_kern (kmem_load_layout fresh_ar junk).

(** ** The map of physical memory *)

Definition at_offset (n : nat) (bs : list Z) (k : nat) : Z := le_value (take n (drop k bs)).

(** The bytes of an entry: its first word is the number of bytes after it. *)
Definition entry_ok (bs : list Z) : Prop :=
  (24 ≤ length bs)%nat ∧ at_offset 4 bs 0 = Z.of_nat (length bs) - 4.

(** Start and end of the memory an entry makes available: all of it but the
    first page of memory. *)
Definition available (bs : list Z) : option (Z * Z) :=
  let addr := at_offset 8 bs 4 in
  let len := at_offset 8 bs 12 in
  if at_offset 4 bs 20 =? MULTIBOOT_MEMORY_AVAILABLE then
    if negb (addr =? 0) then Some (addr, addr + len)
    else if KMEM_PAGE_SIZE <? len then Some (KMEM_PAGE_SIZE, len) else None
  else None.

Definition provides (bs : list Z) (x : Z) : Prop :=
  match available bs with Some (first, last) => first ≤ x < last | None => False end.

(** Below 4 GB, not empty, and starting at a page. *)
Definition entry_usable (bs : list Z) : Prop :=
  match available bs with
  | Some (first, last) => 0 < first < last ∧ last ≤ W32 ∧ (PAGE_SIZE | first)
  | None => True
  end.

Fixpoint separate (es : list (list Z)) : Prop :=
  match es with
  | [] => True
  | bs :: es => (∀ bs' x, bs' ∈ es → provides bs x → ¬ provides bs' x) ∧ separate es
  end.

Lemma struct_member_ok b p bs k n :
  array (b_mem b) p bs → 0 ≤ p → p + Z.of_nat (length bs) ≤ W32 → (k + n ≤ length bs)%nat → (0 < n)%nat →
  struct_member n p k b = Ret (at_offset n bs k) b.
Proof.
  intros Ha Hp He Hk Hn. unfold struct_member, on_bmem.
  rewrite (zoom_ret _ _ _ b _ _ (load_field_ok (b_mem b) p bs k n Ha Hp He Hk Hn)). by destruct b.
Qed.

(** The operation succeeds, changes the kernel's memory only, and adds the
    addresses of [P] to the free physical memory; [n] bytes of static memory
    are used. *)
Definition extends (b : bstate) (pm vm : list allocator_region) (ar : list vm_map_region) (n : Z) (P : Z → Prop) (r : result bstate unit) : Prop :=
  ∃ k' ms' pm', r = Ret tt (set_kern k' b) ∧ kinv KERNEL_VMA k' ms' pm' vm ar ∧
    lay_grows n (k_lay (b_kern b)) (k_lay k') ∧ k_pg k' = k_pg (b_kern b) ∧
    ∀ x f, covers pm' x f ↔ covers pm x f ∨ (f = ALLOC_PM_NORMAL ∧ P x).

Lemma extends_nothing b ms pm vm ar n (P : Z → Prop) :
  kinv KERNEL_VMA (b_kern b) ms pm vm ar → 0 ≤ n → (∀ x, ¬ P x) → extends b pm vm ar n P (Ret tt b).
Proof.
  intros Hk Hn HP. exists (b_kern b), ms, pm. split; [by destruct b|]. split; [done|].
  split; [by apply lay_grows_refl|]. split; [done|]. intros x f. specialize (HP x). tauto.
Qed.

Lemma extends_region b ms pm vm ar first last :
  kinv KERNEL_VMA (b_kern b) ms pm vm ar → room 23 (b_kern b) → 0 < first < last → last ≤ W32 → (PAGE_SIZE | first) →
  (∀ x f, covers pm x f → ¬ first ≤ x < last) →
  extends b pm vm ar 23 (λ x, first ≤ x < last)
    (on_kern (kern_pm_alloc_region_add fresh_ar first (last - first) ALLOC_PM_NORMAL) b).
Proof.
  intros Hk Hr H1 H2 H3 H4. destruct (pm_add_spec KERNEL_VMA fresh_ar (b_kern b) ms pm vm ar first (last - first))
    as (k' & ms' & pm' & E & Hk' & Hg & Hp' & Hc); try done; [lia|lia|lia| |].
  - intros x f Hx. specialize (H4 x f Hx). lia.
  - exists k', ms', pm'. split; [exact (zoom_ret _ _ _ b _ _ E)|]. split_and!; try done.
    intros x f. rewrite Hc. by replace (first + (last - first)) with last by lia.
Qed.

(** What [add_entry] does, and the state after it keeps. *)
Lemma add_entry_ok b p bs ms pm vm ar :
  kinv KERNEL_VMA (b_kern b) ms pm vm ar → room 23 (b_kern b) → array (b_mem b) p bs → entry_ok bs → entry_usable bs →
  0 ≤ p → p + Z.of_nat (length bs) ≤ W32 → (∀ x f, covers pm x f → ¬ provides bs x) →
  extends b pm vm ar 23 (provides bs) (add_entry p b).
Proof.
  intros Hk Hr Ha [Hl _] Hu Hp He Hfree.
  unfold add_entry. step (struct_member_ok b p bs 20 4 Ha Hp He ltac:(lia) ltac:(lia)).
  unfold entry_usable in Hu. unfold provides in Hfree |- *. unfold available in Hu, Hfree |- *.
  destruct (at_offset 4 bs 20 =? MULTIBOOT_MEMORY_AVAILABLE); [|apply extends_nothing with ms; [done|done|by intros x []]].
  step (struct_member_ok b p bs 4 8 Ha Hp He ltac:(lia) ltac:(lia)).
  step (struct_member_ok b p bs 12 8 Ha Hp He ltac:(lia) ltac:(lia)).
  set (addr := at_offset 8 bs 4) in *. set (len := at_offset 8 bs 12) in *.
  destruct (negb (addr =? 0)) eqn:Ez.
  - destruct Hu as (H1 & H2 & H3). rewrite !u32_small by lia.
    pose proof (extends_region b ms pm vm ar addr (addr + len) Hk Hr H1 H2 H3 Hfree) as H.
    by replace (addr + len - addr) with len in H by lia.
  - assert (addr = 0) as -> by (apply negb_false_iff, Z.eqb_eq in Ez; done).
    destruct (KMEM_PAGE_SIZE <? len); [|apply extends_nothing with ms; [done|done|by intros x []]].
    destruct Hu as (H1 & H2 & H3). rewrite !u32_small by lia. rewrite Z.add_0_l. by apply extends_region with ms.
Qed.

Definition offered (es : list (list Z)) (x : Z) : Prop := ∃ bs, bs ∈ es ∧ provides bs x.

(** The walk adds every entry and ends. *)
Lemma mmap_loop_ok es p fuel b ms pm vm ar :
  kinv KERNEL_VMA (b_kern b) ms pm vm ar → room (23 * Z.of_nat (length es)) (b_kern b) →
  array (b_mem b) p (concat es) → Forall entry_ok es → Forall entry_usable es → separate es →
  (∀ x f, covers pm x f → ¬ offered es x) → 0 ≤ p → p + Z.of_nat (length (concat es)) < W32 →
  (length (concat es) < fuel)%nat →
  extends b pm vm ar (23 * Z.of_nat (length es)) (offered es)
    (mmap_loop fuel p (p + Z.of_nat (length (concat es))) b).
Proof.
  revert p fuel b ms pm. induction es as [|bs es IH]; intros p [|fuel] b ms pm Hk Hr Ha Hok Hu Hsep Hfree Hp He Hf;
    simpl in Hf; try lia.
  - simpl. rewrite Z.add_0_r, Z.ltb_irrefl. apply extends_nothing with ms; [done|done|].
    intros x (bs & []%elem_of_nil & _).
  - simpl concat in Ha, He, Hf |- *. rewrite length_app in He, Hf |- *. apply array_app in Ha as [Ha Ha'].
    apply Forall_cons in Hok as [Hbs Hok]. apply Forall_cons in Hu as [Hub Hu]. destruct Hsep as [Hsb Hsep].
    simpl length in Hr |- *. pose proof Hbs as [Hlen Hsz].
    cbn [mmap_loop]. rewrite (proj2 (Z.ltb_lt p _)) by lia.
    destruct (add_entry_ok b p bs ms pm vm ar) as (k1 & ms1 & pm1 & E1 & Hk1 & Hg1 & Hp1 & Hc1); try done; [|lia| |].
    { eapply room_mono; [|exact Hr]. lia. }
    { intros x f Hx Hb. apply (Hfree x f Hx). exists bs. by rewrite elem_of_cons; auto. }
    step E1. assert (Ha1 : array (b_mem (set_kern k1 b)) p bs) by done.
    step (struct_member_ok (set_kern k1 b) p bs 0 4 Ha1 Hp ltac:(lia) ltac:(lia) ltac:(lia)).
    rewrite Hsz, (u32_small (_ - 4 + 4)), (u32_small (p + _)) by lia.
    replace (p + (Z.of_nat (length bs) - 4 + 4)) with (p + Z.of_nat (length bs)) by lia.
    replace (p + Z.of_nat (length bs + length (concat es)))
      with (p + Z.of_nat (length bs) + Z.of_nat (length (concat es))) by lia.
    destruct (IH (p + Z.of_nat (length bs)) fuel (set_kern k1 b) ms1 pm1)
      as (k2 & ms2 & pm2 & E2 & Hk2 & Hg2 & Hp2 & Hc2); try done; try lia.
    { eapply (room_grows 23); [exact Hg1|]. eapply room_mono; [|exact Hr]. lia. }
    { intros x f Hx (bs' & Hin & Hb'). apply Hc1 in Hx as [Hx|[_ Hb]].
      - apply (Hfree x f Hx). exists bs'. rewrite elem_of_cons; auto.
      - by apply (Hsb bs' x). }
    exists k2, ms2, pm2. split; [exact E2|]. split; [done|]. split.
    { replace (23 * Z.of_nat (S (length es))) with (23 + 23 * Z.of_nat (length es)) by lia.
      exact (lay_grows_trans _ _ _ _ _ Hg1 Hg2). }
    split; [by rewrite Hp2|]. intros x f. rewrite Hc2, Hc1. unfold offered. setoid_rewrite elem_of_cons. naive_solver.
Qed.

(** ** Copies in static memory *)

(** Static memory is there and can be written. *)
Definition static_ok (l : layout) (m : bytes) : Prop :=
  0 < memory_start l ≤ memory_end l ∧ memory_end l < W32 - 4 ∧
  mapped m (memory_start l) (memory_end l - memory_start l).

(** [n] bytes at [d] were taken from static memory. *)
Definition placed (l l' : layout) (d n : Z) : Prop :=
  segment_start l' = segment_start l ∧ memory_end l' = memory_end l ∧
  memory_start l ≤ d ≤ memory_start l + 3 ∧ memory_start l' = d + n ∧ d + n ≤ memory_end l.

(** The range is not in static memory. *)
Definition outside (l : layout) (p n : Z) : Prop := p + n ≤ memory_start l ∨ memory_end l ≤ p.

(** Only the free part of static memory was used, [n] bytes of it at most. *)
Definition relocates (n : Z) (l : layout) (m : bytes) (l' : layout) (m' : bytes) : Prop :=
  lay_grows n l l' ∧ memory_start l' ≤ memory_end l ∧
  (∀ x, x < memory_start l ∨ memory_end l ≤ x → m' !! x = m !! x) ∧ (∀ x, is_Some (m !! x) → is_Some (m' !! x)).

Lemma relocates_refl n l m : 0 ≤ n → memory_start l ≤ memory_end l → relocates n l m l m.
Proof. intros Hn Hl. split; [by apply lay_grows_refl|]. done. Qed.

Lemma relocates_trans n n' l m l1 m1 l2 m2 :
  relocates n l m l1 m1 → relocates n' l1 m1 l2 m2 → relocates (n + n') l m l2 m2.
Proof.
  intros (G & H1 & H2 & H3) (G' & H4 & H5 & H6). split; [by eapply lay_grows_trans|]. destruct G as (_ & Ge & Gs).
  split; [lia|]. split; [|by auto]. intros x Hx. rewrite H5 by lia. by apply H2.
Qed.

Lemma static_ok_relocates n l m l' m' : static_ok l m → relocates n l m l' m' → static_ok l' m'.
Proof.
  intros (H1 & H2 & H3) ((_ & Ge & Gs) & H4 & H5 & H6). split; [lia|]. split; [lia|].
  intros x Hx. apply H6, H3. lia.
Qed.

Lemma outside_relocates n l m l' m' p k : outside l p k → relocates n l m l' m' → outside l p k ∧
  (∀ bs, Z.of_nat (length bs) ≤ k → array m p bs → array m' p bs).
Proof.
  intros Ho (_ & _ & H & _). split; [done|]. intros bs Hl. apply array_ext. intros x Hx. apply H.
  unfold outside in Ho. lia.
Qed.

(** What lies below the free part stays. *)
Lemma below_relocates n l m l' m' p bs :
  relocates n l m l' m' → array m p bs → p + Z.of_nat (length bs) ≤ memory_start l → array m' p bs.
Proof. intros (_ & _ & H & _) Ha Hp. eapply array_ext; [|exact Ha]. intros x Hx. apply H. lia. Qed.

Lemma write_at_frame d bs m x : ¬ d ≤ x < d + Z.of_nat (length bs) → write_at d bs m !! x = m !! x.
Proof. intros Hx. rewrite write_at_lookup. by rewrite decide_False. Qed.

Lemma write_at_keeps d bs m x : is_Some (m !! x) → is_Some (write_at d bs m !! x).
Proof.
  intros Hx. rewrite write_at_lookup. destruct (decide _); [|done]. apply lookup_lt_is_Some. lia.
Qed.

Lemma placed_relocates l m l' d bs :
  placed l l' d (Z.of_nat (length bs)) → relocates (3 + Z.of_nat (length bs)) l m l' (write_at d bs m).
Proof.
  intros (H1 & H2 & H3 & H4 & H5). split; [split_and!; try done; lia|]. split; [lia|].
  split; [|intros x; apply write_at_keeps]. intros x Hx. apply write_at_frame. lia.
Qed.

Lemma dup_static_ok l m src bs :
  array m src bs → 0 ≤ src → src + Z.of_nat (length bs) ≤ W32 → static_ok l m →
  memory_start l + 3 + Z.of_nat (length bs) ≤ memory_end l →
  ∃ d l', kalloc_dup_static src (Z.of_nat (length bs)) 4 (l, m) = Ret d (l', write_at d bs m) ∧
    placed l l' d (Z.of_nat (length bs)).
Proof.
  intros Ha Hs He (Hl & Hend & Hm) Hr. pose proof (align_address_bounds (memory_start l) 4 pow2_32_4) as [Hd _]; [lia..|].
  set (d := align_address (memory_start l) 4) in *.
  assert (E : kalloc_static (Z.of_nat (length bs)) 4 l = Ret d (Layout (segment_start l) (d + Z.of_nat (length bs)) (memory_end l)))
    by (apply kalloc_static_ok; unfold static_room; fold d; lia).
  exists d, (Layout (segment_start l) (d + Z.of_nat (length bs)) (memory_end l)).
  split; [|split_and!; simpl; lia || done].
  unfold kalloc_dup_static. step (zoom_ret fst (λ l s, (l, snd s)) _ (l, m) _ _ E). cbn [snd].
  destruct (memmove_moves m d src bs) as [E' _]; [done| |lia|lia|lia|lia|].
  - intros x Hx. apply Hm. lia.
  - step (zoom_ret snd (λ m s, (fst s, m)) _ (Layout (segment_start l) (d + Z.of_nat (length bs)) (memory_end l), m) _ _ E'). done.
Qed.

(** The state with given static memory. *)
Definition st (k : kstate) (i : multiboot_info) (l : layout) (m : bytes) : bstate := BState (put_lay l k) m i.

Lemma relocate_mem_ok k i l m phys bs (v := u32 (phys + segment_start l)) :
  array m v bs → v + Z.of_nat (length bs) ≤ W32 → static_ok l m →
  memory_start l + 3 + Z.of_nat (length bs) ≤ memory_end l →
  ∃ d l', multiboot_relocate_mem phys (Z.of_nat (length bs)) (st k i l m) = Ret d (st k i l' (write_at d bs m)) ∧
    placed l l' d (Z.of_nat (length bs)).
Proof.
  intros Ha He Hst Hr. destruct (dup_static_ok l m v bs) as (d & l' & E & Hd); try done.
  { unfold v. pose proof (u32_range (phys + segment_start l)). lia. }
  exists d, l'. split; [|done]. unfold multiboot_relocate_mem. rewrite bind_get. exact (zoom_ret _ _ _ (st k i l m) _ _ E).
Qed.

Lemma relocate_str_ok k i l m phys cs (v := u32 (phys + segment_start l)) :
  cstr m v cs → static_ok l m → memory_start l + 4 + Z.of_nat (length cs) ≤ memory_end l →
  ∃ d l', multiboot_relocate_str phys (st k i l m) = Ret d (st k i l' (write_at d (cs ++ [0]) m)) ∧
    placed l l' d (Z.of_nat (length (cs ++ [0]))).
Proof.
  intros Hc Hst Hr. pose proof Hc as [Ha Hb Hlo Hhi].
  assert (Hl : Z.of_nat (length (cs ++ [0])) = Z.of_nat (length cs) + 1) by (rewrite length_app; simpl; lia).
  destruct (dup_static_ok l m v (cs ++ [0])) as (d & l' & E & Hd); try done; [lia|lia|].
  exists d, l'. split; [|done]. unfold multiboot_relocate_str. rewrite bind_get.
  step (zoom_ret b_mem set_bmem _ (st k i l m) _ _ (strlen_spec m v cs Hc)).
  rewrite (u32_small (_ + 1)) by (destruct Hst; lia). rewrite <- Hl. exact (zoom_ret _ _ _ (st k i l m) _ _ E).
Qed.

(** ** The modules *)

(** A module as the loader describes it, by an element of its list, with the
    bytes of the module. *)
Definition module_loaded (l : layout) (m : bytes) (e body : list Z) : Prop :=
  let v := u32 (at_offset 4 e 0 + segment_start l) in
  length e = 16%nat ∧ u32 (at_offset 4 e 4 - at_offset 4 e 0) = Z.of_nat (length body) ∧
  array m v body ∧ v + Z.of_nat (length body) ≤ W32 ∧ outside l v (Z.of_nat (length body)).

(** The list at [p] has start and end of a copy of each module, below [lim]. *)
Fixpoint modules_at (m : bytes) (lim p : Z) (bodies : list (list Z)) : Prop :=
  match bodies with
  | [] => True
  | body :: bodies =>
      (∃ d, array m p (le32 d ++ le32 (d + Z.of_nat (length body))) ∧ array m d body ∧
        d + Z.of_nat (length body) ≤ lim) ∧ p + 16 ≤ lim ∧
      modules_at m lim (p + 16) bodies
  end.

Lemma modules_at_ext m m' lim lim' p bodies :
  lim ≤ lim' → (∀ x, x < lim → m' !! x = m !! x) → modules_at m lim p bodies → modules_at m' lim' p bodies.
Proof.
  intros Hl Hm. revert p. induction bodies as [|body bodies IH]; intros p; [done|]. cbn [modules_at].
  intros ((d & H1 & H2 & H3) & Hp & H). split; [|split; [lia|by apply IH]].
  exists d. split; [|split; [|lia]]; (eapply array_ext; [|done]); intros x Hx; apply Hm; [|lia].
  rewrite length_app in Hx. simpl in Hx. lia.
Qed.

Fixpoint modules_size (bodies : list (list Z)) : Z :=
  match bodies with [] => 0 | body :: bodies => 3 + Z.of_nat (length body) + modules_size bodies end.

Lemma modules_size_nonneg bodies : 0 ≤ modules_size bodies.
Proof. induction bodies; simpl; lia. Qed.

Lemma module_loaded_ext l m m' e body :
  (∀ x, x < memory_start l ∨ memory_end l ≤ x → m' !! x = m !! x) → module_loaded l m e body → module_loaded l m' e body.
Proof.
  intros Hm (H1 & H2 & H3 & H4 & H5). split_and!; try done. eapply array_ext; [|exact H3].
  intros x Hx. apply Hm. unfold outside in H5. lia.
Qed.

Lemma mods_length l m mods bodies :
  Forall2 (module_loaded l m) mods bodies → Z.of_nat (length (concat mods)) = 16 * Z.of_nat (length mods).
Proof. induction 1 as [|e b mods bodies [Hl _] _ IH]; [done|]. simpl. rewrite length_app, Hl. lia. Qed.

(** One module: the copy is made and its element written. *)
Lemma relocate_mod_ok L k i l m p e body :
  module_loaded L m e body → array m p e → memory_start L ≤ p → p + 16 ≤ memory_start l → 0 ≤ p →
  segment_start l = segment_start L → memory_end l = memory_end L → static_ok l m →
  memory_start l + 3 + Z.of_nat (length body) ≤ memory_end l →
  ∃ d l', (let m' := write_at (p + 4) (le32 (d + Z.of_nat (length body)))
                       (write_at p (le32 d) (write_at d body m)) in
    ∀ n, relocate_mods (S n) p (st k i l m) = relocate_mods n (p + 16) (st k i l' m')) ∧
    placed l l' d (Z.of_nat (length body)).
Proof.
  intros (He & Hsz & Hb & Hv & Ho) Ha HLp Hp Hp0 Hseg Hend Hst Hr. pose proof Hst as (Hl & Hme & _).
  rewrite <- Hseg in Hb, Hv. destruct (relocate_mem_ok k i l m (at_offset 4 e 0) body) as (d & l' & E & Hd); try done.
  exists d, l'. split; [|done]. intros m' n. cbn [relocate_mods]. pose proof Hd as (_ & _ & Hd1 & _ & Hd2).
  assert (Hl1 : p + Z.of_nat (length e) ≤ W32) by lia.
  step (struct_member_ok (st k i l m) p e 0 4 Ha Hp0 Hl1 ltac:(lia) ltac:(lia)).
  step (struct_member_ok (st k i l m) p e 4 4 Ha Hp0 Hl1 ltac:(lia) ltac:(lia)).
  rewrite Hsz. step E. rewrite (u32_small (p + 4)), (u32_small (d + _)), (u32_small (p + 16)) by lia.
  assert (Hm : ∀ q, p ≤ q → q + 4 ≤ p + 16 → mapped m q 4).
  { intros q H1 H2 x Hx. apply (array_mapped _ _ _ Ha). lia. }
  set (m1 := write_at d body m).
  step (zoom_ret b_mem set_bmem _ (st k i l' m1) _ _ (store32_ok m1 p d ltac:(intros x Hx; apply write_at_keeps, (Hm p); lia) ltac:(lia) ltac:(lia))).
  set (m2 := write_at p (le32 d) m1).
  step (zoom_ret b_mem set_bmem _ (st k i l' m2) _ _ (store32_ok m2 (p + 4) (d + Z.of_nat (length body))
    ltac:(intros x Hx; do 2 apply write_at_keeps; apply (Hm (p + 4)); lia) ltac:(lia) ltac:(lia))).
  done.
Qed.

Lemma relocate_mods_ok L k i es bodies l m p :
  Forall2 (module_loaded L m) es bodies → array m p (concat es) → memory_start L ≤ p → 0 ≤ p →
  p + 16 * Z.of_nat (length es) ≤ memory_start l → segment_start l = segment_start L → memory_end l = memory_end L →
  static_ok l m → memory_start l + modules_size bodies ≤ memory_end l →
  ∃ l' m', relocate_mods (length es) p (st k i l m) = Ret tt (st k i l' m') ∧
    lay_grows (modules_size bodies) l l' ∧
    (∀ x, ¬ p ≤ x < p + 16 * Z.of_nat (length es) → ¬ memory_start l ≤ x < memory_end l → m' !! x = m !! x) ∧
    (∀ x, is_Some (m !! x) → is_Some (m' !! x)) ∧ modules_at m' (memory_start l') p bodies.
Proof.
  revert bodies l m p. induction es as [|e es IH]; intros bodies l m p Hes Ha HLp Hp0 Hp Hseg Hend Hst Hr.
  - apply Forall2_nil_inv_l in Hes as ->. exists l, m. split; [done|]. split; [by apply lay_grows_refl|done].
  - apply Forall2_cons_inv_l in Hes as (body & bodies' & He & Hes & ->).
    simpl concat in Ha. apply array_app in Ha as [Hae Ha]. pose proof He as (Hl16 & _). rewrite Hl16 in Ha.
    simpl length in Hp |- *. simpl modules_size in Hr |- *. pose proof (modules_size_nonneg bodies').
    destruct (relocate_mod_ok L k i l m p e body) as (d & l1 & E & Hd); try done; [lia..|].
    set (m1 := write_at (p + 4) _ _) in E. rewrite E. pose proof Hd as (Hd1 & Hd2 & Hd3 & Hd4 & Hd5).
    assert (Hm1 : ∀ x, ¬ p ≤ x < p + 8 → ¬ d ≤ x < d + Z.of_nat (length body) → m1 !! x = m !! x).
    { intros x H1 H2. unfold m1. by rewrite !write_at_frame by (simpl; lia). }
    assert (Hk1 : ∀ x, is_Some (m !! x) → is_Some (m1 !! x)) by (intros x Hx; unfold m1; by repeat apply write_at_keeps).
    pose proof Hst as (Hl & Hme & Hmap).
    destruct (IH bodies' l1 m1 (p + 16)) as (l2 & m2 & E2 & G2 & F2 & K2 & M2); try done; try lia.
    { eapply Forall2_impl; [exact Hes|]. intros e' b'. apply module_loaded_ext. intros x Hx. apply Hm1; lia. }
    { eapply array_ext; [|exact Ha]. intros x Hx.
      pose proof (mods_length _ _ _ _ Hes). apply Hm1; lia. }
    { split; [lia|]. split; [lia|]. intros x Hx. apply Hk1, Hmap. lia. }
    exists l2, m2. split; [exact E2|]. split.
    { apply (lay_grows_trans (3 + Z.of_nat (length body)) _ l l1 l2); [|done]. split_and!; try done; lia. }
    split; [intros x H1 H2; rewrite F2 by lia; apply Hm1; lia|].
    split; [by auto|]. destruct G2 as (_ & _ & G2). split; [|split; [lia|done]].
    exists d. split; [|split; [|lia]].
    + apply array_ext with m1; [rewrite length_app; simpl; intros x Hx; apply F2; lia|]. apply array_app.
      split; [|apply write_at_array]. eapply array_ext; [|apply write_at_array].
      intros x Hx. apply write_at_frame. simpl in Hx. lia.
    + apply array_ext with m1; [intros x Hx; apply F2; lia|]. eapply array_ext; [|apply (write_at_array body m)].
      intros x Hx. unfold m1. by rewrite !write_at_frame by (simpl; lia).
Qed.

(** ** What the loader left *)

Notation size_of bs := (Z.of_nat (length bs)) (only parsing).

(** Where the kernel sees the struct of the loader. *)
Definition info_address (l : layout) : Z := u32 (_bootstrap_multiboot_info + segment_start l).

(** The struct has the bytes [hdr]; the command line is [cmd], the elements of
    the list of modules are [mods] and their bytes [bodies], the entries of the
    memory map are [es].  None of this is in the static memory of the kernel. *)
Record loader_info (l : layout) (m : bytes) (hdr cmd : list Z) (mods bodies es : list (list Z)) : Prop := {
  li_hdr : array m (info_address l) hdr ∧ length hdr = 120%nat ∧ info_address l + 120 ≤ W32 ∧ outside l (info_address l) 120;
  li_cmd : flag_set (at_offset 4 hdr 0) MULTIBOOT_INFO_CMDLINE = true →
    let v := u32 (at_offset 4 hdr 16 + segment_start l) in cstr m v cmd ∧ outside l v (size_of cmd + 1);
  li_mods : flag_set (at_offset 4 hdr 0) MULTIBOOT_INFO_MODS = true →
    let v := u32 (at_offset 4 hdr 24 + segment_start l) in at_offset 4 hdr 20 = size_of mods ∧
    array m v (concat mods) ∧ v + 16 * size_of mods ≤ W32 ∧ outside l v (16 * size_of mods) ∧
    Forall2 (module_loaded l m) mods bodies;
  li_map : flag_set (at_offset 4 hdr 0) MULTIBOOT_INFO_MEM_MAP = true ∧
    let v := u32 (at_offset 4 hdr 48 + segment_start l) in at_offset 4 hdr 44 = size_of (concat es) ∧
    array m v (concat es) ∧ v + size_of (concat es) ≤ W32 ∧ outside l v (size_of (concat es))
}.

Lemma module_loaded_relocates n l m l' m' e body :
  relocates n l m l' m' → module_loaded l m e body → module_loaded l' m' e body.
Proof.
  intros (G & H & Hm & _) Hl. apply (module_loaded_ext _ _ m') in Hl; [|done].
  destruct Hl as (H1 & H2 & H3 & H4 & H5), G as (Gs & Ge & Gm). unfold module_loaded. rewrite Gs.
  split_and!; try done. unfold outside in *. lia.
Qed.

(** Copies into static memory do not touch it. *)
Lemma loader_info_relocates n l m l' m' hdr cmd mods bodies es :
  relocates n l m l' m' → loader_info l m hdr cmd mods bodies es → loader_info l' m' hdr cmd mods bodies es.
Proof.
  intros R [(A1 & A2 & A3 & A4) B C (D0 & D1 & D2 & D3 & D4)]. pose proof R as ((Gs & Ge & Gm) & Hle & Hm & _).
  assert (Ho : ∀ v k, outside l v k → outside l' v k) by (unfold outside; lia).
  assert (Ha : ∀ v k bs, outside l v k → size_of bs ≤ k → array m v bs → array m' v bs).
  { intros v k bs Hv Hk. by apply (outside_relocates n l m l' m' v k). }
  split; unfold info_address in *; rewrite ?Gs.
  - split_and!; try done; [|by apply Ho]. eapply Ha; [exact A4|lia|done].
  - intros H. destruct (B H) as [[Hc Hb Hlo Hhi] Hv]. split; [|by apply Ho]. split; try done.
    eapply Ha; [exact Hv|rewrite length_app; simpl; lia|done].
  - intros H. destruct (C H) as (C1 & C2 & C3 & C4 & C5). split_and!; try done; [|by apply Ho|].
    + eapply Ha; [exact C4|by rewrite (mods_length _ _ _ _ C5)|done].
    + eapply Forall2_impl; [exact C5|]. intros e b. by apply module_loaded_relocates with n.
  - split_and!; try done; [|by apply Ho]. eapply Ha; [exact D4|lia|done].
Qed.

Section Load.
Variables (k : kstate) (i : multiboot_info) (hdr cmd : list Z) (mods bodies es : list (list Z)).
Notation flags := (at_offset 4 hdr 0).

Lemma hdr_member_ok l m n off :
  loader_info l m hdr cmd mods bodies es → (off + n ≤ 120)%nat → (0 < n)%nat →
  struct_member n (info_address l) off (st k i l m) = Ret (at_offset n hdr off) (st k i l m).
Proof.
  intros [(Ha & Hl & He & _) _ _ _] Hn Hp. apply struct_member_ok; try done; rewrite ?Hl; try lia.
  unfold info_address. apply u32_range.
Qed.

Lemma member_if_ok l m c n off :
  loader_info l m hdr cmd mods bodies es → (off + n ≤ 120)%nat → (0 < n)%nat →
  member_if c n (info_address l) off (st k i l m) = Ret (if c then at_offset n hdr off else 0) (st k i l m).
Proof. intros. destruct c; [by apply hdr_member_ok|done]. Qed.

Lemma load_cmdline_ok l m :
  loader_info l m hdr cmd mods bodies es → static_ok l m → memory_start l + (4 + size_of cmd) ≤ memory_end l →
  ∃ p l' m', load_cmdline flags (info_address l) (st k i l m) = Ret p (st k i l' m') ∧
    relocates (4 + size_of cmd) l m l' m' ∧
    (flag_set flags MULTIBOOT_INFO_CMDLINE = true → cstr m' p cmd ∧ p + size_of cmd + 1 ≤ memory_start l').
Proof.
  intros Hi Hst Hr. unfold load_cmdline. destruct (flag_set flags MULTIBOOT_INFO_CMDLINE) eqn:Ef.
  - step (hdr_member_ok l m 4 16 Hi ltac:(lia) ltac:(lia)). destruct (li_cmd _ _ _ _ _ _ _ Hi Ef) as [Hc _].
    destruct (relocate_str_ok k i l m (at_offset 4 hdr 16) cmd) as (d & l' & E & Hd); try done; [lia|].
    exists d, l', (write_at d (cmd ++ [0]) m). split; [done|]. pose proof (placed_relocates l m l' d _ Hd) as R.
    rewrite length_app in Hd, R. simpl in Hd, R. destruct Hd as (_ & _ & ? & ? & ?), Hc, Hst as (? & ? & _).
    split; [by replace (4 + size_of cmd) with (3 + Z.of_nat (length cmd + 1)) by lia|]. intros _.
    split; [|lia]. split; [apply write_at_array|done|lia|lia].
  - exists 0, l, m. split; [done|]. split; [|done]. apply relocates_refl; [lia|]. destruct Hst. lia.
Qed.

Lemma load_mods_ok l m :
  loader_info l m hdr cmd mods bodies es → static_ok l m →
  memory_start l + (3 + 16 * size_of mods + modules_size bodies) ≤ memory_end l →
  ∃ n p l' m', load_mods flags (info_address l) (st k i l m) = Ret (n, p) (st k i l' m') ∧
    relocates (3 + 16 * size_of mods + modules_size bodies) l m l' m' ∧
    (flag_set flags MULTIBOOT_INFO_MODS = true → n = size_of mods ∧ modules_at m' (memory_start l') p bodies).
Proof.
  intros Hi Hst Hr. pose proof (modules_size_nonneg bodies). pose proof Hst as (Hl & Hend & _).
  unfold load_mods. destruct (flag_set flags MULTIBOOT_INFO_MODS) eqn:Ef.
  - step (hdr_member_ok l m 4 20 Hi ltac:(lia) ltac:(lia)). step (hdr_member_ok l m 4 24 Hi ltac:(lia) ltac:(lia)).
    destruct (li_mods _ _ _ _ _ _ _ Hi Ef) as (C1 & C2 & C3 & C4 & C5).
    assert (Hc : size_of (concat mods) = size_of mods * 16) by (rewrite (mods_length _ _ _ _ C5); lia).
    rewrite C1, (u32_small (size_of mods * 16)) by lia. rewrite <- Hc.
    destruct (relocate_mem_ok k i l m (at_offset 4 hdr 24) (concat mods)) as (d & l1 & E & Hd); try done; [lia..|].
    step E. pose proof (placed_relocates l m l1 d _ Hd) as R. pose proof (static_ok_relocates _ _ _ _ _ Hst R) as Hst1.
    destruct Hd as (? & ? & ? & ? & ?). rewrite Nat2Z.id.
    destruct (relocate_mods_ok l k i mods bodies l1 (write_at d (concat mods) m) d)
      as (l2 & m2 & E2 & G2 & F2 & K2 & M2); try done; try lia.
    { eapply Forall2_impl; [exact C5|]. intros e b. apply module_loaded_ext, R. }
    { apply write_at_array. }
    step E2. exists (size_of mods), d, l2, m2. split; [done|]. split; [|done].
    destruct R as (G & ? & Hm & Hk). split; [|split; [destruct G2; lia|split]].
    + rewrite Hc in G. replace (3 + 16 * size_of mods + modules_size bodies) with (3 + size_of mods * 16 + modules_size bodies) by lia.
      by eapply lay_grows_trans.
    + intros x Hx. rewrite F2 by lia. by apply Hm.
    + intros x Hx. by apply K2, Hk.
  - exists 0, 0, l, m. split; [done|]. split; [|done]. apply relocates_refl; lia.
Qed.

Lemma load_mmap_ok l m :
  loader_info l m hdr cmd mods bodies es → static_ok l m → memory_start l + (3 + size_of (concat es)) ≤ memory_end l →
  ∃ p l' m', load_mmap flags (info_address l) (st k i l m) = Ret (size_of (concat es), p) (st k i l' m') ∧
    relocates (3 + size_of (concat es)) l m l' m' ∧ array m' p (concat es) ∧
    memory_start l ≤ p ∧ p + size_of (concat es) ≤ memory_start l'.
Proof.
  intros Hi Hst Hr. destruct (li_map _ _ _ _ _ _ _ Hi) as (Ef & D1 & D2 & D3 & D4). unfold load_mmap. rewrite Ef.
  step (hdr_member_ok l m 4 44 Hi ltac:(lia) ltac:(lia)). step (hdr_member_ok l m 4 48 Hi ltac:(lia) ltac:(lia)).
  rewrite D1. destruct (relocate_mem_ok k i l m (at_offset 4 hdr 48) (concat es)) as (d & l1 & E & Hd); try done; [lia|].
  step E. exists d, l1, (write_at d (concat es) m). split; [done|]. split; [by apply placed_relocates|].
  split; [apply write_at_array|]. destruct Hd as (_ & _ & ? & ? & _). lia.
Qed.

Definition copy_cost : Z := (4 + size_of cmd) + (3 + 16 * size_of mods + modules_size bodies) + (3 + size_of (concat es)).

(** The copy of the loader's information: the flags, the memory map, the
    command line and the modules. *)
Definition info_copied (info : multiboot_info) (l : layout) (m : bytes) : Prop :=
  mi_flags info = flags ∧ mi_mmap_length info = size_of (concat es) ∧ array m (mi_mmap_addr info) (concat es) ∧
  0 ≤ mi_mmap_addr info ∧ mi_mmap_addr info + size_of (concat es) ≤ memory_start l ∧
  (flag_set flags MULTIBOOT_INFO_CMDLINE = true → cstr m (mi_cmdline info) cmd) ∧
  (flag_set flags MULTIBOOT_INFO_MODS = true →
    mi_mods_count info = size_of mods ∧ modules_at m (memory_start l) (mi_mods_addr info) bodies).

Lemma load_info_ok l m :
  _magic = MULTIBOOT_BOOTLOADER_MAGIC → loader_info l m hdr cmd mods bodies es → static_ok l m →
  memory_start l + copy_cost ≤ memory_end l →
  ∃ info l' m', load_multiboot_info (st k i l m) = Ret tt (st k info l' m') ∧ relocates copy_cost l m l' m' ∧
    info_copied info l' m'.
Proof.
  intros Hmagic Hi Hst Hr. unfold copy_cost in *. pose proof (modules_size_nonneg bodies).
  unfold load_multiboot_info. rewrite Hmagic, Z.eqb_refl. cbn [negb]. rewrite bind_get.
  change (u32 (_bootstrap_multiboot_info + _)) with (info_address l).
  step (hdr_member_ok l m 4 0 Hi ltac:(lia) ltac:(lia)).
  do 3 (erewrite bind_ret; [|apply member_if_ok; [exact Hi|lia|lia]]).
  destruct (load_cmdline_ok l m Hi Hst ltac:(lia)) as (pc & l1 & m1 & E1 & R1 & Hc). step E1.
  pose proof (loader_info_relocates _ _ _ _ _ _ _ _ _ _ R1 Hi) as Hi1. pose proof (static_ok_relocates _ _ _ _ _ Hst R1) as Hst1.
  assert (Hl1 : info_address l = info_address l1) by (unfold info_address; f_equal; f_equal; symmetry; apply R1). rewrite Hl1.
  pose proof R1 as ((_ & He1 & Hs1) & _).
  destruct (load_mods_ok l1 m1 Hi1 Hst1 ltac:(lia)) as (n & pm & l2 & m2 & E2 & R2 & Hm). step E2. rewrite bind_get.
  pose proof (loader_info_relocates _ _ _ _ _ _ _ _ _ _ R2 Hi1) as Hi2. pose proof (static_ok_relocates _ _ _ _ _ Hst1 R2) as Hst2.
  assert (Hl2 : info_address l1 = info_address l2) by (unfold info_address; f_equal; f_equal; symmetry; apply R2). rewrite Hl2.
  pose proof R2 as ((_ & He2 & Hs2) & _).
  destruct (load_mmap_ok l2 m2 Hi2 Hst2 ltac:(lia)) as (p & l3 & m3 & E3 & R3 & Ha & Hp & Hp3). step E3.
  pose proof (loader_info_relocates _ _ _ _ _ _ _ _ _ _ R3 Hi2) as Hi3.
  assert (Hl3 : info_address l2 = info_address l3) by (unfold info_address; f_equal; f_equal; symmetry; apply R3). rewrite Hl3.
  do 18 (erewrite bind_ret; [|apply member_if_ok; [exact Hi3|lia|lia]]).
  eexists _, l3, m3. split; [reflexivity|]. split; [by eapply relocates_trans; [eapply relocates_trans|]|].
  pose proof R3 as ((_ & He3 & Hs3) & _ & Hf3 & _). destruct Hst2 as (? & ? & _).
  split_and!; try done; [cbn; lia| |].
  - intros Hf. destruct (Hc Hf) as [[Hca Hcb Hcl Hch] Hcs]. split; try done. cbn.
    assert (size_of (cmd ++ [0]) = size_of cmd + 1) by (rewrite length_app; simpl; lia).
    apply (below_relocates _ _ _ _ _ _ _ R3); [|lia]. apply (below_relocates _ _ _ _ _ _ _ R2); [done|lia].
  - intros Hf. destruct (Hm Hf) as [-> Hma]. split; [done|]. cbn.
    apply (modules_at_ext m2 m3 (memory_start l2)); [lia| |done]. intros x Hx. apply Hf3. by left.
Qed.
End Load.

(** C18: The memory of the kernel is set up as the boot loader's map says,
    if the available entries of the map are not empty, lie below 4 GB, start at
    pages and do not overlap, and static memory is large enough.  [load_multiboot_info], [kmem_init], [multiboot_copy_mem_map_to_allocator]
    and [kmem_load_layout], in this order, succeed and establish the invariant
    of kmem.c: the free physical memory is exactly the available memory of the
    map, without the first page; the free address space is the user's part and
    the kernel's part above its image; and the map, the command line and the
    modules are copied unchanged into memory of the kernel. *)
Theorem boot_memory_correct k i m hdr cmd mods bodies es (l := k_lay k) :
  _magic = MULTIBOOT_BOOTLOADER_MAGIC → before_kmem_init KERNEL_VMA k → loader_info l m hdr cmd mods bodies es →
  static_ok l m → Forall entry_ok es → Forall entry_usable es → separate es →
  (PAGE_SIZE | segment_start l) → PAGE_SIZE < segment_start l ≤ memory_end l → (PAGE_SIZE | memory_end l) →
  memory_start l + copy_cost cmd mods bodies es + 23 * size_of es + 69 ≤ memory_end l →
  (∀ x, memory_end l ≤ x < W32 → current_translate KERNEL_VMA k x = None) →
  ∃ k' info m' ms pm vm, boot_memory (BState k m i) = Ret tt (BState k' m' info) ∧
    kinv KERNEL_VMA k' ms pm vm [] ∧ info_copied hdr cmd mods bodies es info (k_lay k') m' ∧
    (∀ x f, covers pm x f ↔ f = ALLOC_PM_NORMAL ∧ offered es x) ∧
    (∀ x f, covers vm x f ↔ (f = ALLOC_VM_USER ∧ PAGE_SIZE ≤ x < segment_start l) ∨
      (f = ALLOC_VM_KERNEL ∧ memory_end l ≤ x < W32)).
Proof.
  intros Hmagic Hk Hi Hst Hok Hu Hsep Hs1 Hs2 Hs3 Hr Hun. pose proof Hst as (Hst1 & Hst2 & _).
  destruct (load_info_ok k i hdr cmd mods bodies es l m) as (info & l1 & m1 & E1 & R1 & Hinfo); try done; [lia|].
  replace (BState k m i) with (st k i l m) by (unfold st, l; f_equal; by destruct k).
  unfold boot_memory. step E1. pose proof R1 as (G1 & Hle1 & _).
  destruct (kmem_init_spec KERNEL_VMA (put_lay l1 k)) as (k2 & E2 & Hk2 & Hl2 & Hp2 & _).
  { destruct Hk as (? & ? & ? & ? & Hpd). split_and!; try done.
    apply (pg_view_grows KERNEL_VMA k l1 _ (copy_cost cmd mods bodies es)); try done. destruct G1 as (_ & -> & _). lia. }
  step (zoom_ret b_kern set_kern _ (st k info l1 m1) _ _ E2).
  set (b2 := set_kern k2 (st k info l1 m1)).
  assert (Hlay : k_lay k2 = l1) by (by rewrite Hl2). pose proof Hinfo as (F1 & F2 & F3 & F4 & F5 & F6 & F7).
  destruct G1 as (Gs1 & Ge1 & Gm1).
  destruct (mmap_loop_ok es (mi_mmap_addr info) (S (Z.to_nat (mi_mmap_length info))) b2 no_free_memory [] [] [])
    as (k3 & ms3 & pm & E3 & Hk3 & G3 & Hp3 & Hc3); try done; try lia.
  { unfold room. cbn. rewrite Hlay. lia. }
  { by intros x f []%covers_nil. }
  assert (Ecopy : multiboot_copy_mem_map_to_allocator b2 = Ret tt (set_kern k3 b2)).
  { unfold multiboot_copy_mem_map_to_allocator. rewrite bind_get. cbn [_multiboot_info b2 set_kern st].
    rewrite F1. destruct (li_map _ _ _ _ _ _ _ Hi) as [-> _]. cbn [assert].
    rewrite (bind_ret _ _ _ tt b2 (ret_ok _ _)). rewrite F2 in E3 |- *. rewrite u32_small by lia. exact E3. }
  step Ecopy. cbn [b_kern b2 set_kern] in G3, Hp3. rewrite Hlay in G3. destruct G3 as (Gs3 & Ge3 & Gm3).
  destruct (load_layout_spec KERNEL_VMA fresh_ar junk k3 ms3 pm) as (k4 & ms4 & vm & E4 & Hk4 & (Gs4 & Ge4 & Gm4) & Hp4 & Hc4).
  { done. }
  { unfold space_layout. rewrite Gs3, Ge3, Gs1, Ge1. split_and!; try done; lia. }
  { intros x Hx. rewrite (same_translate KERNEL_VMA k k3 x) by (rewrite Hp3; by rewrite Hp2).
    apply Hun. rewrite Ge3, Ge1 in Hx. done. }
  exists k4, info, m1, ms4, pm, vm. split; [exact (zoom_ret b_kern set_kern _ (set_kern k3 b2) _ _ E4)|].
  split; [done|]. split.
  { unfold info_copied. split_and!; try done; [lia|]. intros Hf. destruct (F7 Hf) as [? Hma]. split; [done|].
    eapply modules_at_ext; [|done|exact Hma]. lia. }
  split.
  - intros x f. rewrite Hc3. split; [intros [[]%covers_nil|?]; done|by right].
  - intros x f. rewrite Hc4. by rewrite Gs3, Ge3, Gs1, Ge1.
Qed.
End Multiboot.

(** ** A concrete boot *)

Definition ex_static : layout := Layout ex_vma (ex_vma + 4194304 - 16384) (ex_vma + 4194304).
Definition ex_start : kstate := put_lay ex_static ex_before.

Definition ex_entry (addr len type : Z) : list Z :=
  le32 20 ++ le32 addr ++ le32 (addr / W32) ++ le32 len ++ le32 (len / W32) ++ le32 type.

(** A machine with 128 MB: conventional memory, memory above the first megabyte and a ROM. *)
Definition ex_map_entries : list (list Z) :=
  [ex_entry 0 0x9fc00 1; ex_entry 0x100000 0x7ee0000 1; ex_entry 0xfffc0000 0x40000 2].
Definition ex_cmd : list Z := [107; 98; 100].
Definition ex_body : list Z := [1; 2; 3; 4; 5].
Definition ex_module : list Z := le32 0x9400 ++ le32 0x9405 ++ le32 0 ++ le32 0.

(** The struct, with a command line, a list of one module and a memory map. *)
Definition ex_hdr (map_length : Z) : list Z :=
  concat (le32 <$> [0x4c; 0; 0; 0; 0x9100; 1; 0x9200; 0; 0; 0; 0; map_length; 0x9300] ++ replicate 17 0).

Definition ex_memory (es : list (list Z)) : bytes :=
  write_at (ex_vma + 0x9000) (ex_hdr (Z.of_nat (length (concat es))))
    (write_at (ex_vma + 0x9100) (ex_cmd ++ [0])
      (write_at (ex_vma + 0x9200) ex_module
        (write_at (ex_vma + 0x9300) (concat es)
          (write_at (ex_vma + 0x9400) ex_body
            (write_at (memory_start ex_static) (replicate (Z.to_nat 16384) 0) ∅))))).

Definition ex_no_info : multiboot_info :=
  MultibootInfo 0 0 0 0 0 0 0 0 0 0 0 0 0 0 0 0 0 0 0 0 0 0 0 0 0 0 0 0.

Definition ex_boots (es : list (list Z)) : M bstate unit :=
  λ _, boot_memory ex_fresh ex_region MULTIBOOT_BOOTLOADER_MAGIC 0x9000 (BState ex_start (ex_memory es) ex_no_info).

Fixpoint take_frames (n : nat) : M kstate Z :=
  p ← kmem_frame_alloc ex_fresh;
  match n with O => mret p | S n => take_frames n end.

Definition value {S A} (r : result S A) : option A := match r with Ret a _ => Some a | _ => None end.

Definition ex_frame (es : list (list Z)) (n : nat) : option Z :=
  value ((ex_boots es;; on_kern (take_frames n)) (BState ex_start ∅ ex_no_info)).

(** [KERNEL_LMA] of the linker script: the kernel's code is loaded there. *)
Definition KERNEL_LMA : Z := 0x101000.

(** Nothing takes the memory of the kernel's image off the map of free
    physical memory.  On this machine the pages below one megabyte serve the
    first 158 requests, and the 160th frame is the first page of the kernel's code. *)
Example kernel_code_handed_out : ex_frame ex_map_entries 159 = Some KERNEL_LMA.
Proof. vm_compute. reflexivity. Qed.

(** Memory above 4 GB is taken for memory at its address modulo 2^32: the
    second frame is one the map does not offer. *)
Example high_memory_truncated :
  let es := [ex_entry 0x100000 0x1000 1; ex_entry 0x100200000 0x100000 1] in
  ex_frame es 1 = Some 0x200000 ∧ ¬ offered es 0x200000.
Proof.
  split; [vm_compute; reflexivity|]. intros (bs & Hbs & Hp).
  apply elem_of_cons in Hbs as [->|[->|[]%elem_of_nil]%elem_of_cons]; vm_compute in Hp; destruct Hp; congruence.
Qed.

Lemma array_of_list m p bs :
  (λ i, m !! (p + Z.of_nat i)) <$> seq 0 (length bs) = Some <$> bs → array m p bs.
Proof.
  intros H i b Hi. assert (Some <$> bs !! i = Some (Some b)) as Hb by (by rewrite Hi).
  rewrite <- list_lookup_fmap, <- H, list_lookup_fmap in Hb.
  rewrite lookup_seq_lt in Hb by (by eapply lookup_lt_Some). by simplify_eq/=.
Qed.

Lemma ex_memory_static es : static_ok ex_static (ex_memory es).
Proof.
  split; [done|]. split; [done|]. intros x Hx. unfold ex_memory. do 5 apply write_at_keeps.
  rewrite write_at_lookup, length_replicate. cbn [memory_start memory_end ex_static] in Hx |- *. rewrite decide_True by lia.
  rewrite lookup_replicate_2 by lia. done.
Qed.

Lemma ex_start_init : before_kmem_init ex_vma ex_start.
Proof.
  split_and!; try done. apply (pg_view_grows ex_vma ex_before ex_static _ 4194304); [apply ex_pd_ok| |done].
  split_and!; done.
Qed.

Lemma ex_arrays (m := ex_memory ex_map_entries) :
  array m (ex_vma + 0x9000) (ex_hdr 72) ∧ array m (ex_vma + 0x9100) (ex_cmd ++ [0]) ∧
  array m (ex_vma + 0x9200) (concat [ex_module]) ∧ array m (ex_vma + 0x9300) (concat ex_map_entries) ∧
  array m (ex_vma + 0x9400) ex_body.
Proof. split_and!; apply array_of_list; vm_compute; reflexivity. Qed.

Lemma ex_loader_info :
  loader_info 0x9000 ex_static (ex_memory ex_map_entries) (ex_hdr 72) ex_cmd [ex_module] [ex_body] ex_map_entries.
Proof.
  destruct ex_arrays as (A1 & A2 & A3 & A4 & A5). revert A1 A2 A3 A4 A5. generalize (ex_memory ex_map_entries).
  intros m A1 A2 A3 A4 A5. split.
  - split; [exact A1|]. split; [done|]. split; [done|by left].
  - intros _. split; [|by left]. split; [exact A2|by repeat constructor|done|done].
  - intros _. split; [done|]. split; [exact A3|]. split; [done|]. split; [by left|].
    constructor; [|constructor]. split; [done|]. split; [done|]. split; [exact A5|]. split; [done|by left].
  - split; [done|]. split; [done|]. split; [exact A4|]. split; [done|by left].
Qed.

Lemma ex_start_unmapped x : memory_end ex_static ≤ x < W32 → current_translate ex_vma ex_start x = None.
Proof.
  intros Hx. rewrite (same_translate ex_vma ex_before ex_start x eq_refl). apply current_unmapped, ex_unmapped.
  simpl in Hx. unfold ex_vma in Hx. lia.
Qed.

Lemma ex_available :
  available (ex_entry 0 0x9fc00 1) = Some (0x1000, 0x9fc00) ∧
  available (ex_entry 0x100000 0x7ee0000 1) = Some (0x100000, 0x7fe0000) ∧
  available (ex_entry 0xfffc0000 0x40000 2) = None.
Proof. split_and!; vm_compute; reflexivity. Qed.

#[local] Opaque ex_memory ex_entry.

Lemma ex_separate : separate ex_map_entries.
Proof.
  destruct ex_available as (H1 & H2 & H3). unfold ex_map_entries. cbn [separate].
  split; [|split; [|split; [by intros ? ? []%elem_of_nil|done]]];
    intros bs x; rewrite ?elem_of_cons, elem_of_nil; unfold provides.
  - intros [->|[->|[]]]; rewrite H1; [rewrite H2|rewrite H3]; lia.
  - intros [->|[]]. rewrite H3. tauto.
Qed.

Lemma ex_entry_ok addr len type : entry_ok (ex_entry addr len type).
Proof. by split; [vm_compute; lia|vm_compute]. Qed.

Lemma ex_entries_ok : Forall entry_ok ex_map_entries.
Proof. unfold ex_map_entries. repeat apply Forall_cons_2; try apply Forall_nil_2; apply ex_entry_ok. Qed.

Lemma ex_entries_usable : Forall entry_usable ex_map_entries.
Proof.
  destruct ex_available as (H1 & H2 & H3). unfold ex_map_entries.
  repeat apply Forall_cons_2; try apply Forall_nil_2; unfold entry_usable; rewrite ?H1, ?H2, ?H3; [| |done].
  - split; [done|]. split; [done|by exists 1].
  - split; [done|]. split; [done|by exists 256].
Qed.

Lemma boot_memory_correct_witness :
  ∃ k' info m' ms pm vm,
    boot_memory ex_fresh ex_region MULTIBOOT_BOOTLOADER_MAGIC 0x9000
      (BState ex_start (ex_memory ex_map_entries) ex_no_info) = Ret tt (BState k' m' info) ∧
    kinv ex_vma k' ms pm vm [] ∧ cstr m' (mi_cmdline info) ex_cmd ∧
    ∀ x f, covers pm x f ↔ f = ALLOC_PM_NORMAL ∧ offered ex_map_entries x.
Proof.
  destruct (boot_memory_correct ex_vma ex_fresh ex_region MULTIBOOT_BOOTLOADER_MAGIC 0x9000 ex_start ex_no_info
    (ex_memory ex_map_entries) (ex_hdr 72) ex_cmd [ex_module] [ex_body] ex_map_entries)
    as (k' & info & m' & ms & pm & vm & E & Hk & Hi & Hc & _).
  - reflexivity.
  - exact ex_start_init.
  - exact ex_loader_info.
  - apply ex_memory_static.
  - exact ex_entries_ok.
  - exact ex_entries_usable.
  - exact ex_separate.
  - by exists 786432.
  - done.
  - by exists 787456.
  - by vm_compute.
  - exact ex_start_unmapped.
  - exists k', info, m', ms, pm, vm. split; [exact E|]. split; [exact Hk|]. split; [|exact Hc].
    apply Hi. reflexivity.
Defined.
