(* ===== verification/Ioapic.v ===== *)
(** * Interrupt controllers: kernel/ia32/apic.c and the interrupt lines of hal_x86.c

    The list of I/O APICs, sorted by the first interrupt each serves, their
    redirection tables, which are reached through a pair of memory-mapped
    registers (an index and a window), the registers of the local APIC, and the
    lines of kernel/ia32/hal_x86.c, which give every interrupt its vector.

    What a controller does is not part of the kernel.  As for the ports of
    Ports.v, the value a register gives is a function [dev] of the accesses made
    so far, and the state keeps the accesses, the last one first; [ioapic_device]
    states what the code relies on, that a redirection entry keeps the bits
    written to it. *)

From stdpp Require Import base numbers list gmap strings fin_maps sorting.
From S2P Require Import Prelude UtList MemUtil Listsort Paging Ports.

(** ** Data *)

Record ioapic := Ioapic {
  io_id : Z;
  io_phys_address : Z;
  io_address : Z;
  io_irq_count : Z;
  io_irq_base : Z;
  io_next : Z
}.

Definition io_set_id v i := Ioapic v (io_phys_address i) (io_address i) (io_irq_count i) (io_irq_base i) (io_next i).
Definition io_set_phys v i := Ioapic (io_id i) v (io_address i) (io_irq_count i) (io_irq_base i) (io_next i).
Definition io_set_address v i := Ioapic (io_id i) (io_phys_address i) v (io_irq_count i) (io_irq_base i) (io_next i).
Definition io_set_count v i := Ioapic (io_id i) (io_phys_address i) (io_address i) v (io_irq_base i) (io_next i).
Definition io_set_base v i := Ioapic (io_id i) (io_phys_address i) (io_address i) (io_irq_count i) v (io_next i).
Definition io_set_next v i := Ioapic (io_id i) (io_phys_address i) (io_address i) (io_irq_count i) (io_irq_base i) v.

#[export, refine] Instance ioapic_node : LLNode ioapic := {| ll_next := io_next; ll_set_next := io_set_next |}.
Proof. all: intros; by destruct n || done. Defined.

Abbreviation sizeof_ioapic := 24 (only parsing).

Record apic_base_msr := ApicBaseMsr { msr_low : Z; msr_high : Z }.

Record hal_irq_line := HalIrqLine { interrupt_vector : Z; upstream_interrupt_handler : Z }.

(** Accesses to registers in memory. *)
Inductive mmio_event :=
  | MRead (addr value : Z)
  | MWrite (addr value : Z).

Record apic_state := ApicState {
  _ioapics : Z;
  io_heap : gmap Z ioapic;
  _apic_base_msr : apic_base_msr;
  _hal_irqs : list hal_irq_line;
  mmio : list mmio_event;
  pages : pstate
}.

Definition set_ioapics p s := ApicState p (io_heap s) (_apic_base_msr s) (_hal_irqs s) (mmio s) (pages s).
Definition set_io_heap h s := ApicState (_ioapics s) h (_apic_base_msr s) (_hal_irqs s) (mmio s) (pages s).
Definition set_hal_irqs l s := ApicState (_ioapics s) (io_heap s) (_apic_base_msr s) l (mmio s) (pages s).
Definition set_mmio t s := ApicState (_ioapics s) (io_heap s) (_apic_base_msr s) (_hal_irqs s) t (pages s).
Definition set_pages p s := ApicState (_ioapics s) (io_heap s) (_apic_base_msr s) (_hal_irqs s) (mmio s) p.

Definition on_io {A} (m : M (gmap Z ioapic) A) : M apic_state A := zoom io_heap set_io_heap m.
Definition on_pages {A} (m : M pstate A) : M apic_state A := zoom pages set_pages m.

Abbreviation APIC_IRQ_BASE := 56 (only parsing). (* APIC_SIVR + 1 *)
Abbreviation HAL_MAX_IRQS := 96 (only parsing).
Abbreviation APIC_REG_ID := 32 (only parsing).
Abbreviation APIC_REG_SIVR := 240 (only parsing).
Abbreviation APIC_REG_EOI := 176 (only parsing).
Abbreviation IOAPIC_REGSEL_VER := 1 (only parsing).
Abbreviation IOAPIC_REGSEL_REDIRECT_TBL_BASE := 16 (only parsing).
Abbreviation I86_PTE_NOT_CACHEABLE := 16 (only parsing).

Abbreviation IOAPIC_RED_SET_DESTINATION upper v := (withbits upper 24 31 v) (only parsing).
Abbreviation IOAPIC_RED_SET_MASK e v := (withbit e 16 v) (only parsing).
Abbreviation IOAPIC_RED_SET_TRIGGER_MODE e v := (withbit e 15 v) (only parsing).
Abbreviation IOAPIC_RED_SET_POLARITY e v := (withbit e 13 v) (only parsing).
Abbreviation IOAPIC_RED_SET_DEST_MODE e v := (withbit e 11 v) (only parsing).
Abbreviation IOAPIC_RED_SET_DELIVERY_MODE e v := (withbits e 8 10 v) (only parsing).
Abbreviation IOAPIC_RED_SET_INTERRUPT_VECTOR e v := (withbits e 0 7 v) (only parsing).
Abbreviation IOAPIC_RED_GET_INTERRUPT_VECTOR e := (getbits e 0 7) (only parsing).
Abbreviation IOAPIC_RED_GET_MASK e := (getbit e 16) (only parsing).

Abbreviation ioapic_redirect_unmasked := 0 (only parsing).
Abbreviation ioapic_redirect_masked := 1 (only parsing).
Abbreviation ioapic_trigger_edge := 0 (only parsing).
Abbreviation ioapic_active_high := 0 (only parsing).
Abbreviation ioapic_dest_physical_mode := 0 (only parsing).
Abbreviation ioapic_delivery_fixed := 0 (only parsing).

Definition apic_interrupt_for_irq (irq : Z) : Z := u8 (irq + APIC_IRQ_BASE).
Definition apic_irq_for_interrupt (int_no : Z) : Z := u8 (int_no - APIC_IRQ_BASE).

(** The low and high part of the base address of the local APIC. *)
Definition apic_get_base (msr : apic_base_msr) : Z * Z :=
  (u32 (Z.shiftl (withbits 0 0 19 (getbits (msr_low msr) 12 31)) 12),
   withbits 0 20 23 (getbits (msr_high msr) 0 3)).

Definition apic_set_base (msr : apic_base_msr) (low high : Z) : apic_base_msr :=
  ApicBaseMsr (withbits (msr_low msr) 12 31 (getbits (Z.shiftr low 12) 0 19))
    (withbits (msr_high msr) 0 3 (getbits high 20 23)).

Section Apic.
Variable dev : list mmio_event → Z → Z.

Definition mmio_read (addr : Z) : M apic_state Z := λ s,
  let v := u32 (dev (mmio s) addr) in
  Ret v (set_mmio (MRead addr v :: mmio s) s).

Definition mmio_write (addr value : Z) : M apic_state unit :=
  modify (λ s, set_mmio (MWrite addr (u32 value) :: mmio s) s).

(** ** The local APIC *)

Definition apic_read_reg_32 (reg : Z) : M apic_state Z :=
  s ← get;
  let '(low, high) := apic_get_base (_apic_base_msr s) in
  mmio_read (u32 (low + reg)).

Definition apic_write_reg_32 (reg value : Z) : M apic_state unit :=
  s ← get;
  let '(low, high) := apic_get_base (_apic_base_msr s) in
  mmio_write (u32 (low + reg)) value.

Definition apic_current_cpu_apic_id : M apic_state Z :=
  result ← apic_read_reg_32 APIC_REG_ID;
  mret (u8 result).

Definition apic_eoi : M apic_state unit := apic_write_reg_32 APIC_REG_EOI 0.

Definition apic_sivr_enable : M apic_state unit :=
  sivr ← apic_read_reg_32 APIC_REG_SIVR;
  if getbit sivr 8 =? 0 then apic_write_reg_32 APIC_REG_SIVR (withbit sivr 8 1) else mret tt.

Definition apic_sivr_disable : M apic_state unit :=
  sivr ← apic_read_reg_32 APIC_REG_SIVR;
  if getbit sivr 8 =? 0 then apic_write_reg_32 APIC_REG_SIVR (withbit sivr 8 0) else mret tt.

(** ** The I/O APICs *)

(** [fresh] is what static memory holds before it is written. *)
Definition ioapic_alloc (fresh : Z → ioapic) : M apic_state Z :=
  p ← on_pages (zoom play set_play (kalloc_static sizeof_ioapic 0));
  modify (λ s, set_io_heap (<[p := fresh p]> (io_heap s)) s);;
  mret p.

Definition ioapic_compare_irq_base (a b : ioapic) : Z :=
  if io_irq_base a <? io_irq_base b then -1
  else if io_irq_base b <? io_irq_base a then 1
  else 0.

Definition ioapic_add (i : Z) : M apic_state unit :=
  s ← get;
  head ← on_io (LL_PREPEND (_ioapics s) i);
  head ← on_io (LL_SORT ioapic_compare_irq_base head);
  modify (set_ioapics head).

(** [LL_FOREACH(_ioapics, i)] *)
Fixpoint for_irq_loop (fuel : nat) (i irq : Z) : M (gmap Z ioapic) Z :=
  match fuel with
  | O => nofuel
  | S fuel =>
      if i =? NULL then mret NULL
      else
        n ← load i;
        if (io_irq_base n <=? irq) && (irq <? u32 (io_irq_base n + io_irq_count n)) then mret i
        else for_irq_loop fuel (io_next n) irq
  end.

Definition ioapic_for_irq (irq : Z) : M apic_state Z :=
  s ← get;
  fuel ← on_io fuel_of_heap;
  on_io (for_irq_loop fuel (_ioapics s) irq).

Definition ioapic_read_reg (i regsel : Z) : M apic_state Z :=
  n ← on_io (load i);
  mmio_write (io_address n) regsel;;
  mmio_read (Z.lor (io_address n) 16).

Definition ioapic_write_reg (i regsel value : Z) : M apic_state unit :=
  n ← on_io (load i);
  mmio_write (io_address n) regsel;;
  mmio_write (Z.lor (io_address n) 16) value.

Definition ioapic_get_max_redirect (i : Z) : M apic_state Z :=
  version ← ioapic_read_reg i IOAPIC_REGSEL_VER;
  mret (getbits version 16 23).

Definition ioapic_read_redirection_entry (i index : Z) : M apic_state (Z * Z) :=
  let regsel := s32 (IOAPIC_REGSEL_REDIRECT_TBL_BASE + index * 2) in
  lower ← ioapic_read_reg i regsel;
  upper ← ioapic_read_reg i (regsel + 1);
  mret (lower, upper).

Definition ioapic_write_redirection_entry (i index lower upper : Z) : M apic_state unit :=
  let regsel := s32 (IOAPIC_REGSEL_REDIRECT_TBL_BASE + index * 2) in
  ioapic_write_reg i regsel lower;;
  ioapic_write_reg i (regsel + 1) upper.

Definition ioapic_set_redirection
    (i index destination masked trigger_mode polarity dest_mode delivery_mode interrupt_vector : Z)
    : M apic_state unit :=
  let upper := IOAPIC_RED_SET_DESTINATION 0 destination in
  let lower := IOAPIC_RED_SET_MASK 0 masked in
  let lower := IOAPIC_RED_SET_TRIGGER_MODE lower trigger_mode in
  let lower := IOAPIC_RED_SET_POLARITY lower polarity in
  let lower := IOAPIC_RED_SET_DEST_MODE lower dest_mode in
  let lower := IOAPIC_RED_SET_DELIVERY_MODE lower delivery_mode in
  let lower := IOAPIC_RED_SET_INTERRUPT_VECTOR lower interrupt_vector in
  ioapic_write_redirection_entry i index lower upper.

Definition ioapic_setup_irq
    (irq destination masked trigger_mode polarity dest_mode delivery_mode interrupt_vector : Z)
    : M apic_state unit :=
  i ← ioapic_for_irq irq;
  assert (negb (i =? NULL)) "i";;
  ioapic_set_redirection i (s32 irq) destination ioapic_redirect_unmasked ioapic_trigger_edge
    ioapic_active_high ioapic_dest_physical_mode ioapic_delivery_fixed interrupt_vector.

Definition ioapic_interrupt_for_irq (irq : Z) : M apic_state Z :=
  i ← ioapic_for_irq irq;
  assert (negb (i =? NULL)) "i";;
  n ← on_io (load i);
  '(lower, upper) ← ioapic_read_redirection_entry i (s32 (u32 (irq - io_irq_base n)));
  mret (IOAPIC_RED_GET_INTERRUPT_VECTOR lower).

(** The common body of [ioapic_mask_irq] and [ioapic_unmask_irq]. *)
Definition set_irq_mask (irq masked : Z) : M apic_state unit :=
  i ← ioapic_for_irq irq;
  assert (negb (i =? NULL)) "i";;
  n ← on_io (load i);
  let index := s32 (u32 (irq - io_irq_base n)) in
  '(lower, upper) ← ioapic_read_redirection_entry i index;
  ioapic_write_redirection_entry i index (IOAPIC_RED_SET_MASK lower masked) upper.

Definition ioapic_mask_irq (irq : Z) : M apic_state unit := set_irq_mask irq ioapic_redirect_masked.
Definition ioapic_unmask_irq (irq : Z) : M apic_state unit := set_irq_mask irq ioapic_redirect_unmasked.

(** [KERNEL_VMA] is the kernel virtual address of physical address 0. *)
Definition apic_configure_ioapic (KERNEL_VMA : Z) (fresh : Z → ioapic) (id phys_address global_irq_base : Z)
    : M apic_state unit :=
  i ← ioapic_alloc fresh;
  assert (negb (i =? NULL)) "i";;
  on_io (update i (io_set_id id));;
  on_io (update i (io_set_phys phys_address));;
  on_io (update i (io_set_base global_irq_base));;
  ioapic_add i;;
  n ← on_io (load i);
  pd ← on_pages paging_pd_current;
  on_pages (paging_identity_map KERNEL_VMA pd (io_phys_address n) PAGE_SIZE
    (Z.lor (Z.lor I86_PTE_PRESENT I86_PTE_WRITABLE) I86_PTE_NOT_CACHEABLE));;
  n ← on_io (load i);
  on_io (update i (io_set_address (io_phys_address n)));;
  count ← ioapic_get_max_redirect i;
  on_io (update i (io_set_count (count + 1))).

(** ** Interrupt lines *)

Definition hal_x86_init_irq_lines : M apic_state unit :=
  modify (λ s, set_hal_irqs (imap (λ irq l, HalIrqLine (Z.of_nat irq + APIC_IRQ_BASE) (upstream_interrupt_handler l)) (_hal_irqs s)) s).

Definition hal_line (irq : Z) : M apic_state hal_irq_line := λ s,
  match _hal_irqs s !! Z.to_nat irq with Some l => Ret l s | None => Fault end.

Definition hal_unmask_irq (irq : Z) : M apic_state unit :=
  lapic_id ← apic_current_cpu_apic_id;
  irq_line ← hal_line irq;
  ioapic_setup_irq irq lapic_id ioapic_redirect_unmasked ioapic_trigger_edge ioapic_active_high
    ioapic_dest_physical_mode ioapic_delivery_fixed (interrupt_vector irq_line).

Definition hal_mask_irq (irq : Z) : M apic_state unit :=
  lapic_id ← apic_current_cpu_apic_id;
  irq_line ← hal_line irq;
  ioapic_setup_irq irq lapic_id ioapic_redirect_masked ioapic_trigger_edge ioapic_active_high
    ioapic_dest_physical_mode ioapic_delivery_fixed (interrupt_vector irq_line).

(** ** What a controller has received *)

(** The register selected in the controller at [base]. *)
Fixpoint selected (base : Z) (tr : list mmio_event) : option Z :=
  match tr with
  | [] => None
  | MWrite a v :: tr => if a =? base then Some v else selected base tr
  | MRead _ _ :: tr => selected base tr
  end.

(** The last value written to register [r] of the controller at [base]. *)
Fixpoint written (base r : Z) (tr : list mmio_event) : option Z :=
  match tr with
  | [] => None
  | MWrite a v :: tr =>
      if (a =? Z.lor base 16) && bool_decide (selected base tr = Some r) then Some v
      else written base r tr
  | MRead _ _ :: tr => written base r tr
  end.

(** The bits of a redirection register that can be written: of the lower half
    all but the delivery status, the remote IRR and the unused ones, of the
    upper half the destination. *)
Definition rw_mask (r : Z) : Z := if Z.even r then 110591 (* 0x1AFFF *) else 4278190080 (* 0xFF000000 *).

(** A redirection register keeps what is written to it. *)
Definition ioapic_device (base : Z) : Prop := ∀ tr r v,
  16 ≤ r < 64 → selected base tr = Some r → written base r tr = Some v →
  Z.land (dev tr (Z.lor base 16)) (rw_mask r) = Z.land v (rw_mask r).

(** Register pairs are aligned, so no two of them overlap. *)
Definition aligned (base : Z) : Prop := Z.land base 31 = 0.

Lemma aligned_window base b : aligned base → aligned b → Z.lor base 16 ≠ b.
Proof.
  unfold aligned. intros H1 H2 E. apply (f_equal (λ x, Z.testbit x 4)) in H2. rewrite <- E in H2.
  rewrite Z.land_spec, Z.lor_spec in H2. change (Z.testbit 16 4) with true in H2. change (Z.testbit 31 4) with true in H2.
  rewrite orb_true_r, Z.testbit_0_l in H2. done.
Qed.

Lemma aligned_window_inj base b : aligned base → aligned b → Z.lor base 16 = Z.lor b 16 → base = b.
Proof.
  unfold aligned. intros H1 H2 E. apply Z.bits_inj'. intros k Hk.
  apply (f_equal (λ x, Z.testbit x k)) in E, H1, H2. rewrite !Z.lor_spec in E. rewrite Z.land_spec, Z.testbit_0_l in H1, H2.
  destruct (decide (k = 4)) as [->|Hne].
  - change (Z.testbit 31 4) with true in H1, H2. rewrite andb_true_r in H1, H2. congruence.
  - assert (Z.testbit 16 k = false) as E16 by (change 16 with (2 ^ 4); by apply Z.pow2_bits_false).
    rewrite E16, !orb_false_r in E. done.
Qed.

(** Selecting a register and writing it, in one controller, as another sees it. *)
Lemma write_reg_trace base b r r' v tr :
  aligned base → aligned b →
  let tr' := MWrite (Z.lor base 16) v :: MWrite base r :: tr in
  written b r' tr' = (if decide (b = base ∧ r' = r) then Some v else written b r' tr) ∧
  selected b tr' = (if decide (b = base) then Some r else selected b tr).
Proof.
  intros H1 H2 tr'. simpl. pose proof (aligned_window base b H1 H2) as Hn. apply Z.eqb_neq in Hn.
  pose proof (aligned_window b base H2 H1) as Hn'. rewrite Hn. rewrite (proj2 (Z.eqb_neq base (Z.lor b 16))) by done. simpl.
  destruct (decide (b = base)) as [->|Hb].
  - rewrite !Z.eqb_refl. simpl. split; [|done].
    destruct (decide (r' = r)) as [->|Hr].
    + by rewrite bool_decide_true, decide_True.
    + rewrite bool_decide_false by congruence. by rewrite decide_False by tauto.
  - rewrite (proj2 (Z.eqb_neq base b)), (proj2 (Z.eqb_neq (Z.lor base 16) (Z.lor b 16))) by (intros E; by apply Hb, eq_sym; (exact E || apply aligned_window_inj)).
    simpl. by rewrite decide_False by tauto.
Qed.

(** Selecting and reading changes no register. *)
Lemma read_reg_trace base b r r' v tr :
  aligned base → aligned b →
  let tr' := MRead (Z.lor base 16) v :: MWrite base r :: tr in
  written b r' tr' = written b r' tr ∧ selected b tr' = (if decide (b = base) then Some r else selected b tr).
Proof.
  intros H1 H2 tr'. simpl. pose proof (aligned_window b base H2 H1) as Hn.
  rewrite (proj2 (Z.eqb_neq base (Z.lor b 16))) by done. simpl. split; [done|].
  destruct (decide (b = base)) as [->|Hb]; [by rewrite Z.eqb_refl|]. by rewrite (proj2 (Z.eqb_neq base b)) by done.
Qed.

Lemma ioapic_read_reg_ok s i n r :
  io_heap s !! i = Some n → 0 ≤ r < W32 →
  let tr := MWrite (io_address n) r :: mmio s in
  let v := u32 (dev tr (Z.lor (io_address n) 16)) in
  ioapic_read_reg i r s = Ret v (set_mmio (MRead (Z.lor (io_address n) 16) v :: tr) s).
Proof.
  intros Hi Hr tr v. unfold ioapic_read_reg. step (zoom_ret io_heap set_io_heap (load i) s _ _ (load_ok _ _ _ Hi)).
  destruct s. cbn. unfold mmio_write, mmio_read, modify, mbind, M_bind. cbn. by rewrite (u32_small r) by done.
Qed.

Lemma ioapic_write_reg_ok s i n r v :
  io_heap s !! i = Some n → 0 ≤ r < W32 → 0 ≤ v < W32 →
  ioapic_write_reg i r v s =
    Ret tt (set_mmio (MWrite (Z.lor (io_address n) 16) v :: MWrite (io_address n) r :: mmio s) s).
Proof.
  intros Hi Hr Hv. unfold ioapic_write_reg. step (zoom_ret io_heap set_io_heap (load i) s _ _ (load_ok _ _ _ Hi)).
  destruct s. cbn. unfold mmio_write, modify, mbind, M_bind. cbn. by rewrite (u32_small r), (u32_small v) by done.
Qed.

(** ** Finding the controller of an interrupt *)

Definition covers (n : ioapic) (irq : Z) : bool :=
  (io_irq_base n <=? irq) && (irq <? u32 (io_irq_base n + io_irq_count n)).

(** [i] is the first controller of the list that serves [irq]. *)
Definition served (s : apic_state) (irq i : Z) (n : ioapic) : Prop :=
  ∃ ps1 ps2, ll_rep (io_heap s) (_ioapics s) (ps1 ++ i :: ps2) ∧ io_heap s !! i = Some n ∧ covers n irq = true ∧
    ∀ q m, q ∈ ps1 → io_heap s !! q = Some m → covers m irq = false.

Lemma for_irq_loop_found h irq ps1 i ps2 n p fuel :
  ll_rep h p (ps1 ++ i :: ps2) → h !! i = Some n → covers n irq = true →
  (∀ q m, q ∈ ps1 → h !! q = Some m → covers m irq = false) →
  (length ps1 < fuel)%nat → for_irq_loop fuel p irq h = Ret i h.
Proof.
  intros Hr Hi Hc. revert p fuel Hr. induction ps1 as [|q ps1 IH]; intros p [|fuel] Hr Hn Hf; simpl in *; try lia.
  - destruct Hr as (-> & Hi0 & _). apply Z.eqb_neq in Hi0. rewrite Hi0. step (load_ok _ _ _ Hi).
    change (_ && _) with (covers n irq). by rewrite Hc.
  - destruct Hr as (-> & Hq & m & Hm & Hr). apply Z.eqb_neq in Hq. rewrite Hq. step (load_ok _ _ _ Hm).
    change (_ && _) with (covers m irq). rewrite (Hn q m) by (by left || done).
    apply IH; [done| |lia]. intros; eapply Hn; [by right|done].
Qed.

Lemma set_io_heap_id s : set_io_heap (io_heap s) s = s.
Proof. by destruct s. Qed.

Lemma ioapic_for_irq_ok s irq i n : served s irq i n → ioapic_for_irq irq s = Ret i s.
Proof.
  intros (ps1 & ps2 & Hr & Hi & Hc & Hn). unfold ioapic_for_irq. rewrite bind_get.
  step (zoom_ret io_heap set_io_heap fuel_of_heap s _ _ eq_refl). rewrite set_io_heap_id.
  pose proof (ll_rep_fuel _ _ _ Hr) as Hf. rewrite length_app in Hf. simpl in Hf.
  unfold on_io. rewrite (zoom_ret _ _ _ s i (io_heap s)); [by rewrite set_io_heap_id|].
  apply (for_irq_loop_found _ _ ps1 i ps2 n); try done. lia.
Qed.

Lemma served_not_null s irq i n : served s irq i n → negb (i =? NULL) = true.
Proof.
  intros (ps1 & ps2 & Hr & _). apply negb_true_iff, Z.eqb_neq.
  destruct (ll_rep_lookup _ _ _ i Hr) as [? _]; [set_solver|done].
Qed.

Lemma served_mmio s irq i n tr : served (set_mmio tr s) irq i n ↔ served s irq i n.
Proof. done. Qed.

(** ** Redirection entries *)

(** The trace after both halves of entry [index] have been written. *)
Definition entry_trace (n : ioapic) (index lower upper : Z) (tr : list mmio_event) : list mmio_event :=
  MWrite (Z.lor (io_address n) 16) upper :: MWrite (io_address n) (17 + index * 2) ::
  MWrite (Z.lor (io_address n) 16) lower :: MWrite (io_address n) (16 + index * 2) :: tr.

Lemma write_entry_ok s i n index lower upper :
  io_heap s !! i = Some n → 0 ≤ index < 24 → 0 ≤ lower < W32 → 0 ≤ upper < W32 →
  ioapic_write_redirection_entry i index lower upper s =
    Ret tt (set_mmio (entry_trace n index lower upper (mmio s)) s).
Proof.
  intros Hi Hx Hl Hu. unfold ioapic_write_redirection_entry. rewrite s32_small by lia.
  rewrite (bind_ret _ _ _ _ _ (ioapic_write_reg_ok s i n (16 + index * 2) lower Hi ltac:(lia) Hl)).
  rewrite (ioapic_write_reg_ok _ i n) by (done || lia). unfold entry_trace.
  replace (17 + index * 2) with (16 + index * 2 + 1) by lia. by destruct s.
Qed.

Lemma entry_trace_written n index lower upper tr b r :
  aligned (io_address n) → aligned b →
  written b r (entry_trace n index lower upper tr) =
    if decide (b = io_address n ∧ r = 17 + index * 2) then Some upper
    else if decide (b = io_address n ∧ r = 16 + index * 2) then Some lower else written b r tr.
Proof.
  intros Ha Hb. unfold entry_trace.
  rewrite (proj1 (write_reg_trace _ b _ r _ _ Ha Hb)), (proj1 (write_reg_trace _ b _ r _ _ Ha Hb)). done.
Qed.

Lemma read_entry_ok s i n index low0 up0 :
  io_heap s !! i = Some n → 0 ≤ index < 24 → aligned (io_address n) → ioapic_device (io_address n) →
  written (io_address n) (16 + index * 2) (mmio s) = Some low0 →
  written (io_address n) (17 + index * 2) (mmio s) = Some up0 →
  ∃ lower upper tr, ioapic_read_redirection_entry i index s = Ret (lower, upper) (set_mmio tr s) ∧
    0 ≤ lower < W32 ∧ 0 ≤ upper < W32 ∧
    Z.land lower 110591 = Z.land low0 110591 ∧ Z.land upper 4278190080 = Z.land up0 4278190080 ∧
    ∀ b r, aligned b → written b r tr = written b r (mmio s).
Proof.
  intros Hi Hx Ha Hd Hl Hu. unfold ioapic_read_redirection_entry. rewrite s32_small by lia.
  step (ioapic_read_reg_ok s i n (16 + index * 2) Hi ltac:(lia)).
  set (v1 := u32 _). set (tr1 := MRead _ v1 :: _).
  step (ioapic_read_reg_ok (set_mmio tr1 s) i n (16 + index * 2 + 1) Hi ltac:(lia)).
  set (v2 := u32 _). set (tr2 := MRead _ v2 :: _). exists v1, v2, tr2.
  assert (Hw1 : ∀ b r, aligned b → written b r tr1 = written b r (mmio s)).
  { intros b r Hb. apply (read_reg_trace _ b _ r _ _ Ha Hb). }
  split; [by destruct s|]. split; [apply u32_range|]. split; [apply u32_range|].
  assert (Hdev : ∀ tr r v, 16 ≤ r < 64 → written (io_address n) r tr = Some v →
    Z.land (u32 (dev (MWrite (io_address n) r :: tr) (Z.lor (io_address n) 16))) (rw_mask r) = Z.land v (rw_mask r)).
  { intros tr r v Hr Hw. rewrite <- (Hd (MWrite (io_address n) r :: tr) r v); [|done| |].
    - unfold u32. change W32 with (2 ^ 32). rewrite <- Z.land_ones, <- Z.land_assoc by lia. f_equal.
      unfold rw_mask. by destruct (Z.even r).
    - simpl. by rewrite Z.eqb_refl.
    - rewrite <- Hw. exact (proj1 (read_reg_trace (io_address n) (io_address n) r r 0 tr Ha Ha)). }
  split_and!.
  - specialize (Hdev (mmio s) (16 + index * 2) low0 ltac:(lia) Hl). unfold rw_mask in Hdev.
    replace (Z.even (16 + index * 2)) with true in Hdev; [exact Hdev|].
    by rewrite (Z.mul_comm index), Z.even_add_mul_2.
  - unfold v2. replace (16 + index * 2 + 1) with (17 + index * 2) by lia.
    specialize (Hdev tr1 (17 + index * 2) up0 ltac:(lia) ltac:(rewrite Hw1; done)). unfold rw_mask in Hdev.
    replace (Z.even (17 + index * 2)) with false in Hdev; [exact Hdev|].
    by rewrite (Z.mul_comm index), Z.even_add_mul_2.
  - intros b r Hb. unfold tr2. rewrite (proj1 (read_reg_trace _ b _ r _ _ Ha Hb)). by apply Hw1.
Qed.

(** ** Routing an interrupt *)

Lemma withbits_low v : withbits 0 0 7 v = v mod 256.
Proof.
  apply Z.bits_inj'. intros k Hk. rewrite withbits_testbit by lia. change 256 with (2 ^ 8).
  destruct (Z.leb_spec 0 k), (Z.leb_spec k 7); simpl; try lia.
  - rewrite Z.mod_pow2_bits_low by lia. f_equal. lia.
  - by rewrite Z.mod_pow2_bits_high, Z.bits_0 by lia.
Qed.

Lemma withbits_high v : withbits 0 24 31 (u8 v) = 2 ^ 24 * u8 v.
Proof.
  apply Z.bits_inj'. intros k Hk. rewrite withbits_testbit, Z.bits_0 by lia. rewrite Z.mul_comm, <- Z.shiftl_mul_pow2 by lia.
  rewrite Z.shiftl_spec by lia. unfold u8. change W8 with (2 ^ 8).
  destruct (Z.leb_spec 24 k), (Z.leb_spec k 31); cbn [andb]; try lia; [done|by rewrite Z.mod_pow2_bits_high by lia|by rewrite Z.testbit_neg_r by lia].
Qed.

Lemma u8_u32 v : u8 (u32 v) = v mod 256.
Proof. unfold u8, u32. change W32 with (W8 * 2 ^ 24). rewrite Z.rem_mul_r by done. by rewrite Z.mul_comm, Z.mod_add, Z.mod_mod by done. Qed.

(** The entry of an interrupt that is delivered, unmasked and edge-triggered,
    to one processor. *)
Lemma setup_irq_ok s irq i n destination masked tm pol dm del v :
  served s irq i n → 0 ≤ irq < 24 →
  ioapic_setup_irq irq destination masked tm pol dm del v s =
    Ret tt (set_mmio (entry_trace n irq (v mod 256) (withbits 0 24 31 destination) (mmio s)) s).
Proof.
  intros Hs Hx. unfold ioapic_setup_irq. step (ioapic_for_irq_ok _ _ _ _ Hs). rewrite (served_not_null _ _ _ _ Hs).
  rewrite (bind_ret (assert true "i") _ s tt s eq_refl). unfold ioapic_set_redirection. cbv zeta.
  change (IOAPIC_RED_SET_DELIVERY_MODE _ _) with 0. rewrite withbits_low.
  destruct Hs as (_ & _ & _ & Hi & _). rewrite s32_small by lia.
  apply write_entry_ok; [done|done| |by apply withbits_range].
  pose proof (Z.mod_pos_bound v 256). lia.
Qed.

Lemma land_mod_256 a b : Z.land a 110591 = Z.land b 110591 → a mod 256 = b mod 256.
Proof.
  intros E. change 256 with (2 ^ 8). rewrite <- !Z.land_ones by lia. change (Z.ones 8) with (Z.land 110591 255).
  by rewrite !Z.land_assoc, E.
Qed.

Lemma getbits_low a : 0 ≤ a < W32 → getbits a 0 7 = a mod 256.
Proof.
  intros Ha. unfold getbits. rewrite Z.shiftr_0_r, (u32_small a) by done. change (bitmask 0 7) with (Z.ones 8).
  by rewrite Z.land_ones by lia.
Qed.

Lemma current_id_ok s :
  let a := u32 (fst (apic_get_base (_apic_base_msr s)) + APIC_REG_ID) in
  let v := u32 (dev (mmio s) a) in
  apic_current_cpu_apic_id s = Ret (u8 v) (set_mmio (MRead a v :: mmio s) s).
Proof. by destruct s. Qed.

(** The vector the kernel reads back for an interrupt is the one in the entry. *)
Lemma interrupt_for_irq_ok s irq i n low0 up0 :
  served s irq i n → io_irq_base n = 0 → 0 ≤ irq < 24 → aligned (io_address n) → ioapic_device (io_address n) →
  written (io_address n) (16 + irq * 2) (mmio s) = Some low0 →
  written (io_address n) (17 + irq * 2) (mmio s) = Some up0 →
  ∃ s', ioapic_interrupt_for_irq irq s = Ret (low0 mod 256) s'.
Proof.
  intros Hs Hb Hx Ha Hd Hl Hu. unfold ioapic_interrupt_for_irq. step (ioapic_for_irq_ok _ _ _ _ Hs).
  rewrite (served_not_null _ _ _ _ Hs). rewrite (bind_ret (assert true "i") _ s tt s eq_refl).
  pose proof Hs as (_ & _ & _ & Hi & _). step (zoom_ret io_heap set_io_heap (load i) s _ _ (load_ok _ _ _ Hi)).
  rewrite set_io_heap_id, Hb, Z.sub_0_r, u32_small, s32_small by lia.
  destruct (read_entry_ok s i n irq low0 up0) as (lower & upper & tr & E & Hr & _ & Hlo & _); try done.
  step E. rewrite getbits_low by done. eexists. by rewrite (land_mod_256 _ _ Hlo).
Qed.

Definition only_mmio (s s' : apic_state) : Prop := s' = set_mmio (mmio s') s.

(** C27: if a controller, at an aligned address, serves [irq], below 24, and the
    vector of the line is a byte, then [hal_unmask_irq]
    writes the entry number [irq] of that controller: vector of the line,
    unmasked, edge-triggered, and as the destination the low byte of what the ID
    register of the local APIC reads; no other register of any controller
    changes.  (The id of the processor is in the high byte of that register, so
    the destination need not be the processor the kernel runs on.)
    [hal_mask_irq] does the same, so it unmasks as well.  If the controller's
    interrupts start at 0, [ioapic_interrupt_for_irq] then gives the vector of
    the line; otherwise the entry that belongs to the interrupt is left alone,
    and another one is overwritten. *)
Theorem hal_unmask_irq_routes s irq i n l :
  served s irq i n → _hal_irqs s !! Z.to_nat irq = Some l → 0 ≤ irq < 24 → 0 ≤ interrupt_vector l < 256 →
  aligned (io_address n) →
  let id := dev (mmio s) (u32 (fst (apic_get_base (_apic_base_msr s)) + APIC_REG_ID)) in
  ∃ s', hal_unmask_irq irq s = Ret tt s' ∧ hal_mask_irq irq s = Ret tt s' ∧ only_mmio s s' ∧
    written (io_address n) (16 + irq * 2) (mmio s') = Some (interrupt_vector l) ∧
    written (io_address n) (17 + irq * 2) (mmio s') = Some (2 ^ 24 * (id mod 256)) ∧
    (∀ b r, aligned b → b ≠ io_address n ∨ r ≠ 16 + irq * 2 ∧ r ≠ 17 + irq * 2 →
      written b r (mmio s') = written b r (mmio s)) ∧
    (io_irq_base n = 0 → ioapic_device (io_address n) →
      ∃ s'', ioapic_interrupt_for_irq irq s' = Ret (interrupt_vector l) s'') ∧
    (0 < io_irq_base n →
      written (io_address n) (16 + (irq - io_irq_base n) * 2) (mmio s') =
      written (io_address n) (16 + (irq - io_irq_base n) * 2) (mmio s)).
Proof.
  intros Hs Hl Hx Hv Ha id. set (v := u32 id).
  set (s1 := set_mmio (MRead (u32 (fst (apic_get_base (_apic_base_msr s)) + APIC_REG_ID)) v :: mmio s) s).
  assert (Hline : hal_line irq s1 = Ret l s1) by (unfold hal_line; cbn; by rewrite Hl).
  assert (Hs1 : served s1 irq i n) by done.
  set (tr := entry_trace n irq (interrupt_vector l mod 256) (withbits 0 24 31 (u8 v)) (mmio s1)).
  assert (Hw : ∀ b r, aligned b → written b r tr =
    if decide (b = io_address n ∧ r = 17 + irq * 2) then Some (withbits 0 24 31 (u8 v))
    else if decide (b = io_address n ∧ r = 16 + irq * 2) then Some (interrupt_vector l) else written b r (mmio s)).
  { intros b r Hb. unfold tr. rewrite entry_trace_written by done. by rewrite (Z.mod_small (interrupt_vector l)) by done. }
  exists (set_mmio tr s1). cbn [mmio set_mmio]. split_and!.
  - unfold hal_unmask_irq. step (current_id_ok s). fold v s1. step Hline. by apply (setup_irq_ok s1 irq i n).
  - unfold hal_mask_irq. step (current_id_ok s). fold v s1. step Hline. by apply (setup_irq_ok s1 irq i n).
  - by destruct s.
  - rewrite Hw by done. rewrite decide_False by lia. by rewrite decide_True.
  - rewrite Hw by done. rewrite decide_True, withbits_high by done. unfold v. by rewrite u8_u32.
  - intros b r Hb Hd. rewrite Hw by done. rewrite !decide_False; [done|intuition lia..].
  - intros Hb0 Hd. rewrite <- (Z.mod_small (interrupt_vector l) 256) by done.
    apply (interrupt_for_irq_ok (set_mmio tr s1) irq i n _ (withbits 0 24 31 (u8 v))); try done; cbn [mmio set_mmio].
    + rewrite Hw by done. rewrite decide_False by lia. by rewrite decide_True.
    + rewrite Hw by done. by rewrite decide_True.
  - intros Hb0. rewrite Hw by done. rewrite !decide_False; [done|lia..].
Qed.

(** ** Masking and unmasking an entry *)

Lemma land_withbit a k v m : 0 ≤ k ≤ 31 → 0 ≤ a < W32 → Z.testbit m k = false → Z.land (withbit a k v) m = Z.land a m.
Proof.
  intros Hk Ha Hm. apply Z.bits_inj'. intros j Hj. rewrite !Z.land_spec. unfold withbit. rewrite withbits_testbit, u32_small by lia.
  destruct (Z.leb_spec k j), (Z.leb_spec j k); simpl; try done. replace j with k by lia. by rewrite Hm, !andb_false_r.
Qed.

(** The writable bits of the lower half other than the mask, 0xAFFF. *)
Definition entry_mask : Z := 45055.

(** Masking or unmasking an interrupt sets the mask bit of its entry, keeps its
    other writable bits, and writes no other register. *)
Lemma set_irq_mask_ok s irq i n low0 up0 masked (index := irq - io_irq_base n) :
  served s irq i n → 0 ≤ index < 24 → aligned (io_address n) → ioapic_device (io_address n) →
  written (io_address n) (16 + index * 2) (mmio s) = Some low0 →
  written (io_address n) (17 + index * 2) (mmio s) = Some up0 →
  ∃ s' low up, set_irq_mask irq masked s = Ret tt s' ∧ only_mmio s s' ∧
    written (io_address n) (16 + index * 2) (mmio s') = Some low ∧
    written (io_address n) (17 + index * 2) (mmio s') = Some up ∧
    IOAPIC_RED_GET_MASK low = masked mod 2 ∧ Z.land low entry_mask = Z.land low0 entry_mask ∧
    Z.land up 4278190080 = Z.land up0 4278190080 ∧
    ∀ b r, aligned b → b ≠ io_address n ∨ r ≠ 16 + index * 2 ∧ r ≠ 17 + index * 2 →
      written b r (mmio s') = written b r (mmio s).
Proof.
  intros Hs Hx Ha Hd Hl Hu. unfold set_irq_mask. step (ioapic_for_irq_ok _ _ _ _ Hs).
  rewrite (served_not_null _ _ _ _ Hs). rewrite (bind_ret (assert true "i") _ s tt s eq_refl).
  pose proof Hs as (_ & _ & _ & Hi & _). step (zoom_ret io_heap set_io_heap (load i) s _ _ (load_ok _ _ _ Hi)).
  rewrite set_io_heap_id. fold index. rewrite u32_small, s32_small by lia.
  destruct (read_entry_ok s i n index low0 up0) as (lower & upper & tr & E & Hlr & Hur & Hlo & Hup & Hw); try done.
  step E. rewrite (write_entry_ok (set_mmio tr s) i n) by (done || (unfold withbit; apply withbits_range; lia)).
  assert (Hw' : ∀ b r, aligned b → _) by (intros b r Hb; exact (entry_trace_written n index (withbit lower 16 masked) upper tr b r Ha Hb)).
  eexists _, (withbit lower 16 masked), upper. split; [done|]. cbn [mmio set_mmio]. split_and!.
  - by destruct s.
  - rewrite Hw' by done. rewrite decide_False by lia. by rewrite decide_True.
  - rewrite Hw' by done. by rewrite decide_True.
  - apply getbit_withbit. lia.
  - rewrite land_withbit by (lia || done). change entry_mask with (Z.land 110591 entry_mask).
    by rewrite !Z.land_assoc, Hlo.
  - done.
  - intros b r Hb Hne. rewrite Hw' by done. rewrite !decide_False; [by apply Hw|intuition lia..].
Qed.

(** ** Registering a controller *)

Variable KERNEL_VMA : Z.
Variable fresh : Z → ioapic.

Lemma identity_page_ok s ptd a flags :
  pd_ok KERNEL_VMA s ptd → (PAGE_SIZE | a) → 0 ≤ a → a + PAGE_SIZE ≤ W32 →
  memory_start (play s) + 2 * PAGE_SIZE ≤ memory_end (play s) → 0 ≤ flags < PAGE_SIZE → Z.testbit flags 0 = true →
  ∃ s', paging_identity_map KERNEL_VMA ptd a PAGE_SIZE flags s = Ret tt s' ∧ pd_ok KERNEL_VMA s' ptd ∧
    same_regs s s' ∧ lay_grows (2 * PAGE_SIZE) (play s) (play s') ∧
    ∀ v, 0 ≤ v < W32 → translate KERNEL_VMA s' ptd v =
      if decide (a ≤ v < a + PAGE_SIZE) then Some v else translate KERNEL_VMA s ptd v.
Proof.
  intros Hok Ha Ha0 Hae Hroom Hf Hb. pose proof Hok as (_ & _ & _ & Hk & Hm).
  assert (H1 : static_room (play s) (4 * PT_ENTRIES) PAGE_SIZE).
  { unfold static_room. change (4 * PT_ENTRIES) with PAGE_SIZE.
    destruct (align_address_bounds (memory_start (play s)) PAGE_SIZE) as [? _]; [by exists 12|lia|lia|lia]. }
  destruct (paging_map_spec KERNEL_VMA s ptd a PAGE_SIZE a flags) as (s' & E & (Hok' & Hr & Hg & _) & Hw);
    try done; try (unfold PAGE_SIZE in *; lia).
  exists s'. split_and!; try done. intros v Hv. unfold translate. rewrite Hw by done.
  replace (table_pages a (PAGE_SIZE / PAGE_SIZE) * PAGE_SIZE) with PAGE_SIZE.
  - destruct (decide _) as [Hin|]; [|done]. rewrite (map_entry_translate a a PAGE_SIZE flags v) by (done || by exists 1).
    f_equal. lia.
  - rewrite Z.div_same by done. unfold table_pages. pose proof (Z.mod_pos_bound (a / PAGE_SIZE) PT_ENTRIES ltac:(done)).
    rewrite Z.min_l by lia. lia.
Qed.

(** The controllers of the list, in its order, but for their links. *)
Definition ioapics_rep (s : apic_state) (l : list ioapic) : Prop :=
  ∃ ps, ll_rep (io_heap s) (_ioapics s) ps ∧ (λ p, ll_data <$> io_heap s !! p) <$> ps = Some <$> l.

Definition base_le (a b : ioapic) : Prop := io_irq_base a ≤ io_irq_base b.

(** The structs lie below the static break, and the directory is well-formed. *)
Definition apic_inv (s : apic_state) (l : list ioapic) : Prop :=
  ioapics_rep s l ∧ (∀ p, is_Some (io_heap s !! p) → p < memory_start (play (pages s))) ∧
  pd_ok KERNEL_VMA (pages s) (_current_page_dir (pages s)).

Lemma sorted_nodes R (h : gmap Z ioapic) ps l :
  (∀ x y a b, ll_data <$> h !! x = Some a → ll_data <$> h !! y = Some b → R x y → base_le a b) →
  Sorted R ps → (λ p, ll_data <$> h !! p) <$> ps = Some <$> l → Sorted base_le l.
Proof.
  intros HR Hs. revert l. induction Hs as [|x ps Hs IH Hx]; intros [|a l] E; simplify_eq/=; [constructor|].
  match goal with H1 : ll_data <$> h !! x = Some a, H2 : _ <$> ps = _ |- _ => rename H1 into Ea; rename H2 into El end.
  constructor; [by apply IH|]. destruct l as [|b l], ps as [|y ps]; simplify_eq/=; [constructor|].
  match goal with H1 : ll_data <$> h !! y = Some b |- _ => rename H1 into Eb end.
  inversion Hx. constructor. by eapply HR.
Qed.

Lemma compare_total : cmp_total ioapic_compare_irq_base.
Proof.
  intros a b. unfold ioapic_compare_irq_base.
  destruct (Z.ltb_spec (io_irq_base a) (io_irq_base b)), (Z.ltb_spec (io_irq_base b) (io_irq_base a)); lia.
Qed.

Lemma compare_le a b : ioapic_compare_irq_base a b ≤ 0 → base_le a b.
Proof.
  unfold ioapic_compare_irq_base, base_le.
  destruct (Z.ltb_spec (io_irq_base a) (io_irq_base b)), (Z.ltb_spec (io_irq_base b) (io_irq_base a)); lia.
Qed.

Lemma ioapic_alloc_ok s :
  0 < memory_start (play (pages s)) → memory_end (play (pages s)) < W32 - PAGE_SIZE →
  memory_start (play (pages s)) + 32 ≤ memory_end (play (pages s)) →
  ∃ p lay', ioapic_alloc fresh s =
      Ret p (set_io_heap (<[p := fresh p]> (io_heap s)) (set_pages (set_play lay' (pages s)) s)) ∧
    memory_start (play (pages s)) ≤ p < memory_start lay' ∧ lay_grows 32 (play (pages s)) lay'.
Proof.
  intros H0 He Hr. set (l := play (pages s)) in *.
  destruct (align_address_bounds (memory_start l) 4) as [Hb _]; [by exists 2|lia|unfold PAGE_SIZE in *; lia|].
  exists (align_address (memory_start l) 4), (Layout (segment_start l) (align_address (memory_start l) 4 + 24) (memory_end l)).
  split_and!; simpl; try lia.
  - unfold ioapic_alloc. change (kalloc_static sizeof_ioapic 0) with (kalloc_static sizeof_ioapic 4).
    pose proof (kalloc_static_ok l 24 4 ltac:(done) ltac:(done) ltac:(unfold PAGE_SIZE in *; lia) ltac:(lia)
      ltac:(unfold static_room; lia)) as E.
    step (zoom_ret pages set_pages _ s _ _ (zoom_ret play set_play _ (pages s) _ _ E)). by destruct s.
  - unfold lay_grows; simpl. lia.
Qed.

Lemma Sorted_weaken {A} (R R' : A → A → Prop) l : (∀ x y, R x y → R' x y) → Sorted R l → Sorted R' l.
Proof. intros HR. induction 1 as [|x l Hs IH Hx]; [constructor|]. constructor; [done|]. destruct Hx; constructor; auto. Qed.

Definition data_le (h : gmap Z ioapic) (x y : Z) : Prop :=
  ∀ a b, ll_data <$> h !! x = Some a → ll_data <$> h !! y = Some b → base_le a b.

Lemma ioapic_add_ok s i n ps :
  ll_rep (io_heap s) (_ioapics s) ps → io_heap s !! i = Some n → i ≠ NULL → i ∉ ps →
  Z.of_nat (length ps) < 2 ^ 30 →
  ∃ head h ps', ioapic_add i s = Ret tt (set_ioapics head (set_io_heap h s)) ∧
    ll_rep h head ps' ∧ ps' ≡ₚ i :: ps ∧ Sorted (data_le h) ps' ∧ links_only (i :: ps) (io_heap s) h.
Proof.
  intros Hr Hi Hn Hni Hlen. unfold ioapic_add. rewrite bind_get.
  destruct (LL_PREPEND_spec _ _ _ _ _ Hr Hn Hni Hi) as (h1 & E1 & Hr1 & Hl1). step (zoom_ret io_heap set_io_heap _ s _ _ E1).
  destruct (LL_SORT_spec ioapic_compare_irq_base h1 i (i :: ps) Hr1 compare_total) as (head & h & ps' & E2 & Hr2 & Hp & Hs & Hl2);
    [done|simpl length; lia|].
  step (zoom_ret io_heap set_io_heap _ (set_io_heap h1 s) _ _ E2). exists head, h, ps'. split; [by destruct s|].
  split; [done|]. split; [done|]. split.
  - eapply (Sorted_weaken (node_le ioapic_compare_irq_base h1)); [|exact Hs].
    intros x y Hxy a b Ha Hb. destruct (Hl2 x) as [_ Dx], (Hl2 y) as [_ Dy]. rewrite Dx in Ha. rewrite Dy in Hb.
    unfold node_le in Hxy. destruct (h1 !! x) as [u|], (h1 !! y) as [w|]; simplify_eq/=. by apply compare_le in Hxy.
  - eapply links_only_trans; [exact Hl1|exact Hl2|set_solver..].
Qed.

(** The kernel writes the address and the number of interrupts after the list
    has been sorted. *)
Lemma rep_update s head h i n n' ps l :
  ll_rep h head ps → Sorted (data_le h) ps → h !! i = Some n → ll_next n' = ll_next n →
  io_irq_base n' = io_irq_base n →
  (λ p, ll_data <$> <[i := n']> h !! p) <$> ps = Some <$> l →
  ioapics_rep (set_ioapics head (set_io_heap (<[i := n']> h) s)) l ∧ Sorted base_le l.
Proof.
  intros Hr Hs Hi Hn Hb Hl. split.
  - exists ps. split; [|done]. by eapply ll_rep_update.
  - eapply sorted_nodes; [|exact Hs|exact Hl]. intros x y a b Ha Hb' Hxy. unfold base_le.
    assert (Hd : ∀ z c, ll_data <$> <[i:=n']> h !! z = Some c → ∃ c', ll_data <$> h !! z = Some c' ∧ io_irq_base c' = io_irq_base c).
    { intros z c. destruct (decide (z = i)) as [->|].
      - rewrite lookup_insert_eq, Hi. intros [= <-]. eexists. split; [done|]. by destruct n, n'; simpl in *.
      - rewrite lookup_insert_ne by done. eauto. }
    destruct (Hd _ _ Ha) as (a' & Ha' & <-), (Hd _ _ Hb') as (b' & Hb1 & <-). by apply Hxy.
Qed.

Lemma on_io_load s p n : io_heap s !! p = Some n → on_io (load p) s = Ret n s.
Proof. intros H. unfold on_io. rewrite (zoom_ret _ _ _ s _ _ (load_ok _ _ _ H)). by rewrite set_io_heap_id. Qed.

Lemma on_io_update s p n f :
  io_heap s !! p = Some n → on_io (update p f) s = Ret tt (set_io_heap (<[p := f n]> (io_heap s)) s).
Proof. intros H. unfold on_io. by rewrite (zoom_ret _ _ _ s _ _ (update_ok _ _ _ f H)). Qed.

Lemma on_io_update_new s p n f h :
  on_io (update p f) (set_io_heap (<[p := n]> h) s) = Ret tt (set_io_heap (<[p := f n]> h) s).
Proof.
  rewrite (on_io_update _ p n) by apply lookup_insert_eq. cbn [io_heap set_io_heap]. by rewrite insert_insert_eq.
Qed.

(** The number of redirection entries a controller reports. *)
Definition ioapic_version (base max_redirect : Z) : Prop := ∀ tr,
  selected base tr = Some 1 → getbits (dev tr (Z.lor base 16)) 16 23 = max_redirect.

Lemma max_redirect_ok s i n max_redirect :
  io_heap s !! i = Some n → ioapic_version (io_address n) max_redirect →
  ∃ v, ioapic_get_max_redirect i s =
    Ret max_redirect (set_mmio (MRead (Z.lor (io_address n) 16) v :: MWrite (io_address n) 1 :: mmio s) s).
Proof.
  intros Hi Hv. unfold ioapic_get_max_redirect. step (ioapic_read_reg_ok s i n 1 Hi ltac:(lia)). eexists.
  unfold mret, M_ret. do 2 f_equal. rewrite <- (Hv (MWrite (io_address n) 1 :: mmio s)) by (simpl; by rewrite Z.eqb_refl).
  unfold getbits. by rewrite u32_idemp.
Qed.

(** The first half of [apic_configure_ioapic]: a struct, filled in and listed. *)
Lemma configure_list_ok s l id phys base :
  apic_inv s l → Z.of_nat (length l) < 2 ^ 30 →
  memory_start (play (pages s)) + 32 ≤ memory_end (play (pages s)) →
  ∃ i n lay' head h ps ps',
    (∀ k, (i ← ioapic_alloc fresh; assert (negb (i =? NULL)) "i";; on_io (update i (io_set_id id));;
      on_io (update i (io_set_phys phys));; on_io (update i (io_set_base base));; ioapic_add i;; k i) s =
      (k i : M apic_state unit) (set_ioapics head (set_io_heap h (set_pages (set_play lay' (pages s)) s)))) ∧
    h !! i = Some n ∧ io_id n = id ∧ io_phys_address n = phys ∧ io_irq_base n = base ∧
    ll_rep h head ps' ∧ ps' ≡ₚ i :: ps ∧ i ∉ ps ∧ Sorted (data_le h) ps' ∧
    (λ p, ll_data <$> h !! p) <$> ps = Some <$> l ∧
    (∀ p, is_Some (h !! p) → p < memory_start lay') ∧ lay_grows 32 (play (pages s)) lay'.
Proof.
  intros ((ps & Hr & Hl) & Hbr & Hpd) Hlen Hroom. pose proof Hpd as (_ & _ & _ & Hk & Hm).
  destruct (ioapic_alloc_ok s) as (i & lay' & E & Hi & Hg); [lia..|].
  set (n0 := io_set_base base (io_set_phys phys (io_set_id id (fresh i)))).
  set (s0 := set_io_heap (<[i := n0]> (io_heap s)) (set_pages (set_play lay' (pages s)) s)).
  assert (Hni : i ∉ ps).
  { intros Hin. destruct (ll_rep_lookup _ _ _ i Hr Hin) as [_ H]. apply Hbr in H. lia. }
  assert (Hi0 : i ≠ NULL) by (unfold NULL; lia).
  destruct (ioapic_add_ok s0 i n0 ps) as (head & h & ps' & Ea & Hr' & Hp & Hso & Hlk); try done.
  { eapply ll_rep_frame; [|exact Hr]. intros q Hq. apply lookup_insert_ne. by intros ->. }
  { apply lookup_insert_eq. }
  { apply (f_equal length) in Hl. rewrite !length_fmap in Hl. lia. }
  pose proof (Hlk i) as [_ Di]. cbn [io_heap s0 set_io_heap] in Di. rewrite lookup_insert_eq in Di.
  destruct (h !! i) as [n|] eqn:Hn; [|done]. injection Di as Did Dphys _ _ Dbase.
  exists i, n, lay', head, h, ps, ps'. split_and!; try done.
  - intros k. step E. rewrite (proj2 (Z.eqb_neq i NULL) Hi0). rewrite (bind_ret (assert (negb false) "i") _ _ tt _ eq_refl).
    step (on_io_update_new (set_pages (set_play lay' (pages s)) s) i (fresh i) (io_set_id id) (io_heap s)).
    step (on_io_update_new (set_pages (set_play lay' (pages s)) s) i (io_set_id id (fresh i)) (io_set_phys phys) (io_heap s)).
    step (on_io_update_new (set_pages (set_play lay' (pages s)) s) i (io_set_phys phys (io_set_id id (fresh i))) (io_set_base base) (io_heap s)).
    by rewrite (bind_ret _ _ _ _ _ Ea).
  - rewrite <- Hl. apply list_fmap_ext. intros j q Hj. pose proof (Hlk q) as [_ Dq]. rewrite Dq. cbn [io_heap s0 set_io_heap].
    rewrite lookup_insert_ne; [done|]. intros ->. apply Hni. by eapply list_elem_of_lookup_2.
  - intros q Hq. pose proof (Hlk q) as [_ Dq]. cbn [io_heap s0 set_io_heap] in Dq.
    destruct (decide (q = i)) as [->|]; [lia|]. rewrite lookup_insert_ne in Dq by done.
    assert (is_Some (io_heap s !! q)) as Hs.
    { destruct Hq as [? Hq]. rewrite Hq in Dq. destruct (io_heap s !! q); [by eexists|done]. }
    apply Hbr in Hs. lia.
Qed.

(** What registering a controller with [max_redirect + 1] entries leaves. *)
Definition new_ioapic (id phys base max_redirect : Z) : ioapic := Ioapic id phys phys (max_redirect + 1) base NULL.

Lemma configure_ioapic_ok s l id phys base max_redirect :
  apic_inv s l → Z.of_nat (length l) < 2 ^ 30 → (PAGE_SIZE | phys) → 0 ≤ phys → phys + PAGE_SIZE ≤ W32 →
  memory_start (play (pages s)) + (32 + 2 * PAGE_SIZE) ≤ memory_end (play (pages s)) →
  ioapic_version phys max_redirect →
  ∃ s' l', apic_configure_ioapic KERNEL_VMA fresh id phys base s = Ret tt s' ∧ apic_inv s' l' ∧
    l' ≡ₚ new_ioapic id phys base max_redirect :: l ∧ Sorted base_le l' ∧
    lay_grows (32 + 2 * PAGE_SIZE) (play (pages s)) (play (pages s')) ∧ same_regs (pages s) (pages s') ∧
    ∀ v, 0 ≤ v < W32 → translate KERNEL_VMA (pages s') (_current_page_dir (pages s)) v =
      if decide (phys ≤ v < phys + PAGE_SIZE) then Some v
      else translate KERNEL_VMA (pages s) (_current_page_dir (pages s)) v.
Proof.
  intros Hinv Hlen Hal H0 He Hroom Hver. set (pd := _current_page_dir (pages s)).
  destruct (configure_list_ok s l id phys base Hinv Hlen ltac:(unfold PAGE_SIZE in *; lia))
    as (i & n & lay' & head & h & ps & ps' & Ek & Hi & Hid & Hph & Hbs & Hr & Hp & Hni & Hso & Hl & Hbr & Hg).
  pose proof Hg as (_ & Hme & Hms). destruct Hinv as (_ & _ & Hpd). pose proof Hpd as (_ & _ & _ & Hk & Hm).
  set (p1 := set_play lay' (pages s)).
  destruct (identity_page_ok p1 pd phys (Z.lor (Z.lor 1 2) 16)) as (p2 & Ep & Hok2 & Hrg & Hg2 & Ht); try done; [| |].
  { apply pd_ok_set_play; [done|simpl; unfold PAGE_SIZE in *; lia..]. }
  { simpl. lia. }
  set (s2 := set_ioapics head (set_io_heap h (set_pages p2 s))).
  set (n' := io_set_count (max_redirect + 1) (io_set_address phys n)).
  assert (Hdata : ll_data n' = new_ioapic id phys base max_redirect).
  { unfold n'. clear -Hid Hph Hbs. destruct n. simpl in *. by subst. }
  destruct (max_redirect_ok (set_io_heap (<[i := io_set_address phys n]> h) s2) i (io_set_address phys n) max_redirect)
    as [v Ev]; [apply lookup_insert_eq|done|]. cbn [mmio] in Ev.
  set (tr := MRead _ v :: _) in Ev.
  assert (Hfm : (λ p, ll_data <$> <[i := n']> h !! p) <$> (i :: ps) = Some <$> (new_ioapic id phys base max_redirect :: l)).
  { rewrite !fmap_cons, lookup_insert_eq. cbn [fmap option_fmap option_map]. rewrite Hdata. f_equal. rewrite <- Hl.
    apply list_fmap_ext. intros j q Hj. rewrite lookup_insert_ne; [done|]. intros ->. apply Hni. by eapply list_elem_of_lookup_2. }
  assert (Hpm : (λ p, ll_data <$> <[i := n']> h !! p) <$> ps' ≡ₚ Some <$> (new_ioapic id phys base max_redirect :: l)).
  { rewrite <- Hfm. by apply fmap_Permutation. }
  apply Permutation_map_inv in Hpm as (l' & El' & Hpl).
  destruct (rep_update (set_mmio tr (set_pages p2 s)) head h i n n' ps' l' Hr Hso Hi eq_refl eq_refl El') as [Hrep Hsl].
  exists (set_ioapics head (set_io_heap (<[i := n']> h) (set_mmio tr (set_pages p2 s)))), l'. split_and!; try done.
  - unfold apic_configure_ioapic. etransitivity; [apply (Ek (λ i, _))|]. cbv beta.
    step (on_io_load (set_ioapics head (set_io_heap h (set_pages p1 s))) i n Hi).
    step (eq_refl : on_pages paging_pd_current (set_ioapics head (set_io_heap h (set_pages p1 s))) =
      Ret pd (set_ioapics head (set_io_heap h (set_pages p1 s)))).
    rewrite Hph. step (zoom_ret pages set_pages _ (set_ioapics head (set_io_heap h (set_pages p1 s))) _ _ Ep).
    change (set_pages p2 (set_ioapics head (set_io_heap h (set_pages p1 s)))) with s2.
    step (on_io_load s2 i n Hi). rewrite Hph. step (on_io_update s2 i n (io_set_address phys) Hi).
    change (io_heap s2) with h. step Ev.
    exact (on_io_update_new (set_mmio tr s2) i (io_set_address phys n) (io_set_count (max_redirect + 1)) h).
  - split; [exact Hrep|]. split.
    + cbn [io_heap set_io_heap set_ioapics pages set_mmio set_pages]. intros q Hq. apply lookup_insert_is_Some' in Hq.
      destruct Hq as [<-|Hq]; [|apply Hbr in Hq]; destruct Hg2 as (_ & _ & Hg2); [assert (is_Some (h !! i)) as Hq by by eexists|];
        [apply Hbr in Hq|]; simpl in Hg2; lia.
    + cbn [pages set_io_heap set_ioapics set_mmio set_pages]. injection Hrg as _ -> _ _. exact Hok2.
  - cbn [pages set_io_heap set_ioapics set_mmio set_pages]. eapply lay_grows_trans; [exact Hg|exact Hg2].
Qed.
End Apic.

(** ** A concrete controller *)

Definition ex_base : Z := 4273995776. (* 0xFEC00000 *)

(** A controller of 24 entries that keeps what is written to it. *)
Definition ex_ioapic_dev (tr : list mmio_event) (addr : Z) : Z :=
  match selected ex_base tr with
  | Some 1 => 1507360 (* 0x170020 *)
  | Some r => default 0 (written ex_base r tr)
  | None => 0
  end.

Lemma ex_ioapic_device : ioapic_device ex_ioapic_dev ex_base.
Proof.
  intros tr r v Hr Hs Hw. unfold ex_ioapic_dev. rewrite Hs, Hw. destruct r as [|[]|]; try lia; done.
Qed.

Lemma ex_ioapic_version : ioapic_version ex_ioapic_dev ex_base 23.
Proof. intros tr Hs. unfold ex_ioapic_dev. by rewrite Hs. Qed.

(** One controller, and the lines as [hal_x86_init_irq_lines] leaves them. *)
Definition ex_apic : apic_state :=
  ApicState 4096 {[ 4096 := Ioapic 2 ex_base ex_base 24 0 0 ]} (ApicBaseMsr 4276095232 0)
    ((λ irq, HalIrqLine (Z.of_nat irq + APIC_IRQ_BASE) 0) <$> seq 0 96) [] ex_pstate.

Lemma ex_apic_served irq : 0 ≤ irq < 24 → served ex_apic irq 4096 (Ioapic 2 ex_base ex_base 24 0 0).
Proof.
  intros Hi. exists [], []. split_and!.
  - split_and!; [done..|]. eexists. by split.
  - done.
  - unfold covers. cbn [io_irq_base io_irq_count]. rewrite u32_small by lia. apply andb_true_iff. split; [apply Z.leb_le|apply Z.ltb_lt]; lia.
  - intros q m Hq. by apply not_elem_of_nil in Hq.
Qed.

Lemma hal_unmask_irq_routes_witness :
  ∃ s' s'', hal_unmask_irq ex_ioapic_dev 2 ex_apic = Ret tt s' ∧ ioapic_interrupt_for_irq ex_ioapic_dev 2 s' = Ret 58 s''.
Proof.
  destruct (hal_unmask_irq_routes ex_ioapic_dev ex_apic 2 4096 (Ioapic 2 ex_base ex_base 24 0 0) (HalIrqLine 58 0))
    as (s' & E & _ & _ & _ & _ & _ & Hv & _).
  - apply ex_apic_served. lia.
  - reflexivity.
  - lia.
  - simpl. lia.
  - reflexivity.
  - destruct (Hv eq_refl ex_ioapic_device) as [s'' Es]. exists s', s''. split; [exact E|exact Es].
Defined.
