(* ===== verification/KernelTests.v ===== *)
(** * kernel/tests: the kernel's own unit tests

    [test_all] runs the tests of the range allocator, of the bit macros of
    sys/param.h and of the register macros of arch/apic.h.  The tests are
    programs over the same definitions the rest of the development is about,
    so running them here checks the model against what the authors expect of
    the code.  A failed [assert] is a panic.

    The tests hand structs of their own stack frame to [allocator_region_add],
    and a merge gives such a struct back to the pool of the allocator; the
    last theorems follow what that leaves behind. *)

From stdpp Require Import base numbers list gmap strings fin_maps.
From S2P Require Import Prelude UtList MemUtil Range Allocator Ports.

Section Tests.
Variable fresh : Z → allocator_region.
(** The addresses of the locals [map], [a], [b] and [c]; the frames of the
    tests, which run one after the other, are taken to coincide. *)
Variables pmap pa pb pc : Z.

Definition set_region (p address size flags : Z) : M astate unit :=
  on_heap (update p (λ r, ar_set_flags flags (ar_set_size size (ar_set_address address r)))).

(** [map.regions] followed by [n] times [->next]. *)
Fixpoint follow (n : nat) (p : Z) : M astate Z :=
  match n with
  | O => mret p
  | S n => r ← on_heap (load p); follow n (ar_next r)
  end.
Definition regions_next (n : nat) : M astate Z :=
  head ← get_regions pmap; follow n head.

Definition expect_region (n : nat) : M astate unit :=
  p ← regions_next n; assert (negb (p =? NULL)) "region".
Definition expect_none (n : nat) : M astate unit :=
  p ← regions_next n; assert (p =? NULL) "no region".
Definition expect_address (n : nat) (address : Z) : M astate unit :=
  p ← regions_next n; r ← on_heap (load p); assert (ar_address r =? address) "address".
Definition expect_size (n : nat) (size : Z) : M astate unit :=
  p ← regions_next n; r ← on_heap (load p); assert (ar_size r =? size) "size".

Definition expect_struct_address (p address : Z) : M astate unit :=
  r ← on_heap (load p); assert (ar_address r =? address) "address".
Definition expect_struct_size (p size : Z) : M astate unit :=
  r ← on_heap (load p); assert (ar_size r =? size) "size".
(** [assert(b.size = n)], an assignment. *)
Definition assign_size (p n : Z) : M astate unit :=
  on_heap (update p (ar_set_size n));; assert (negb (n =? 0)) "size".

Definition cut_structs (p q : Z) : M astate bool :=
  a ← on_heap (load p); b ← on_heap (load q);
  let '(ret, a, b) := cut a b in
  on_heap (store p a);; on_heap (store q b);; mret ret.
Definition merge_structs (p q : Z) : M astate bool :=
  a ← on_heap (load p); b ← on_heap (load q);
  let '(ret, a) := merge a b in
  on_heap (store p a);; mret ret.
Definition subtract_struct (map p : Z) : M astate unit :=
  r ← on_heap (load p); allocator_region_subtract fresh map r.
Definition allocator_region_insert : Z → Z → M astate unit := region_insert.

(** The printing leaves the state alone; the walk is kept. *)
Fixpoint print_regions (fuel : nat) (region : Z) : M astate unit :=
  match fuel with
  | O => nofuel
  | S fuel =>
      if region =? NULL then mret tt
      else r ← on_heap (load region); print_regions fuel (ar_next r)
  end.
Definition print_map (map : Z) : M astate unit :=
  fuel ← fuel_of; head ← get_regions map; print_regions fuel head.

(** ** The tests of mm/allocator.h *)

Definition test_allocator_region_add_test : M astate Z :=
  allocator_map_init pmap;; set_region pa 1 4 0;; allocator_region_add fresh pmap pa;; expect_region 0;; expect_address 0 1;;
  expect_size 0 4;;
  allocator_map_init pmap;; set_region pa 1 4 0;; set_region pb 5 4 0;; allocator_region_add fresh pmap pa;;
  allocator_region_add fresh pmap pb;; expect_address 0 1;; expect_size 0 8;; expect_none 1;;
  allocator_map_init pmap;; set_region pa 5 4 0;; set_region pb 1 4 0;; allocator_region_add fresh pmap pa;;
  allocator_region_add fresh pmap pb;; expect_region 0;; expect_address 0 1;; expect_size 0 8;; expect_none 1;;
  allocator_map_init pmap;; set_region pa 1 4 0;; set_region pb 6 4 0;; allocator_region_add fresh pmap pa;;
  allocator_region_add fresh pmap pb;; expect_address 0 1;; expect_size 0 4;; expect_region 1;; expect_address 1 6;;
  expect_size 1 4;;
  allocator_map_init pmap;; set_region pa 6 4 0;; set_region pb 1 4 0;; allocator_region_add fresh pmap pa;;
  allocator_region_add fresh pmap pb;; expect_address 0 1;; expect_size 0 4;; expect_region 1;; expect_address 1 6;;
  expect_size 1 4;;
  allocator_map_init pmap;; set_region pa 1 4 0;; set_region pb 5 3 0;; set_region pc 9 2 0;;
  allocator_region_add fresh pmap pa;; allocator_region_add fresh pmap pb;; allocator_region_add fresh pmap pc;;
  expect_address 0 1;; expect_size 0 7;; expect_region 1;; expect_address 1 9;; expect_size 1 2;; expect_none 2;;
  allocator_map_init pmap;; set_region pa 1 4 0;; set_region pb 5 3 0;; set_region pc 8 2 0;;
  allocator_region_add fresh pmap pa;; allocator_region_add fresh pmap pb;; allocator_region_add fresh pmap pc;;
  expect_address 0 1;; expect_size 0 9;; expect_none 1;;
  mret 0.

Definition test_allocator_region_cut_test : M astate Z :=
  set_region pa 1 4 0;; set_region pb 1 4 0;; ret ← cut_structs pa pb; assert ret "ret";; expect_struct_size pa 0;;
  expect_struct_size pb 0;;
  set_region pa 1 4 0;; set_region pb 3 2 0;; ret ← cut_structs pa pb; assert ret "ret";; expect_struct_address pa 1;;
  expect_struct_size pa 2;; expect_struct_size pb 0;;
  set_region pa 1 4 0;; set_region pb 3 4 0;; ret ← cut_structs pa pb; assert ret "ret";; expect_struct_address pa 1;;
  expect_struct_size pa 2;; expect_struct_size pb 0;;
  set_region pa 1 4 0;; set_region pb 5 4 0;; ret ← cut_structs pa pb; assert (negb ret) "!ret";;
  expect_struct_address pa 1;; expect_struct_size pa 4;; expect_struct_address pb 5;; expect_struct_size pb 4;;
  set_region pa 1 4 0;; set_region pb 6 4 0;; ret ← cut_structs pa pb; assert (negb ret) "!ret";;
  expect_struct_address pa 1;; expect_struct_size pa 4;; expect_struct_address pb 6;; assign_size pb 4;;
  set_region pa 3 4 0;; set_region pb 1 11 0;; ret ← cut_structs pa pb; assert ret "ret";; expect_struct_address pa 3;;
  expect_struct_size pa 0;; expect_struct_address pb 1;; expect_struct_size pb 0;;
  set_region pa 1 4 0;; set_region pb 1 4 0;; ret ← cut_structs pb pa; assert ret "ret";; expect_struct_size pa 0;;
  expect_struct_size pb 0;;
  set_region pa 1 4 0;; set_region pb 3 2 0;; ret ← cut_structs pb pa; assert ret "ret";; expect_struct_size pa 0;;
  expect_struct_size pb 0;;
  set_region pa 1 4 0;; set_region pb 3 4 0;; ret ← cut_structs pb pa; assert ret "ret";; expect_struct_address pb 5;;
  expect_struct_size pb 2;; expect_struct_size pa 0;;
  set_region pa 1 4 0;; set_region pb 5 4 0;; ret ← cut_structs pb pa; assert ret "ret";; expect_struct_address pb 5;;
  expect_struct_size pb 4;; expect_struct_size pa 0;;
  set_region pa 1 11 0;; set_region pb 3 4 0;; ret ← cut_structs pa pb; assert ret "ret";; expect_struct_address pa 1;;
  expect_struct_size pa 2;; expect_struct_address pb 7;; expect_struct_size pb 5;;
  mret 0.

Definition test_allocator_region_insert_test : M astate Z :=
  allocator_map_init pmap;; set_region pa 1 4 0;; allocator_region_insert pmap pa;; expect_region 0;; expect_address 0 1;;
  expect_size 0 4;;
  allocator_map_init pmap;; set_region pa 1 4 0;; set_region pb 6 4 0;; allocator_region_insert pmap pa;;
  allocator_region_insert pmap pb;; expect_address 0 1;; expect_size 0 4;; expect_region 1;; expect_address 1 6;;
  expect_size 1 4;;
  allocator_map_init pmap;; set_region pa 6 4 0;; set_region pb 1 4 0;; allocator_region_insert pmap pa;;
  allocator_region_insert pmap pb;; expect_region 0;; expect_address 0 1;; expect_size 0 4;; expect_region 1;;
  expect_address 1 6;; expect_size 1 4;;
  allocator_map_init pmap;; set_region pa 1 4 0;; set_region pb 10 4 0;; set_region pc 6 3 0;;
  allocator_region_insert pmap pa;; allocator_region_insert pmap pb;; allocator_region_insert pmap pc;; expect_region 0;;
  expect_address 0 1;; expect_size 0 4;; expect_region 1;; expect_address 1 6;; expect_size 1 3;; expect_region 2;;
  expect_address 2 10;; expect_size 2 4;;
  mret 0.

Definition test_allocator_region_merge_test : M astate Z :=
  set_region pa 1 4 0;; set_region pb 1 4 0;; ret ← merge_structs pa pb; assert ret "ret";; expect_struct_address pa 1;;
  expect_struct_size pa 4;; expect_struct_address pb 1;; assign_size pb 4;;
  set_region pa 1 4 0;; set_region pb 3 2 0;; ret ← merge_structs pa pb; assert ret "ret";; expect_struct_address pa 1;;
  expect_struct_size pa 4;; expect_struct_address pb 3;; expect_struct_size pb 2;;
  set_region pa 1 4 0;; set_region pb 3 4 0;; ret ← merge_structs pa pb; assert ret "ret";; expect_struct_address pa 1;;
  expect_struct_size pa 6;; expect_struct_address pb 3;; expect_struct_size pb 4;;
  set_region pa 1 4 0;; set_region pb 5 4 0;; ret ← merge_structs pa pb; assert ret "ret";; expect_struct_address pa 1;;
  expect_struct_size pa 8;; expect_struct_address pb 5;; expect_struct_size pb 4;;
  set_region pa 1 4 0;; set_region pb 6 4 0;; ret ← merge_structs pa pb; assert (negb ret) "!ret";;
  expect_struct_address pa 1;; expect_struct_size pa 4;; expect_struct_address pb 6;; expect_struct_size pb 4;;
  set_region pa 1 4 0;; set_region pb 3 2 0;; ret ← merge_structs pb pa; assert ret "ret";; expect_struct_address pa 1;;
  expect_struct_size pa 4;; expect_struct_address pb 1;; expect_struct_size pb 4;;
  set_region pa 1 4 0;; set_region pb 3 4 0;; ret ← merge_structs pb pa; assert ret "ret";; expect_struct_address pa 1;;
  expect_struct_size pa 4;; expect_struct_address pb 1;; expect_struct_size pb 6;;
  set_region pa 1 4 0;; set_region pb 5 4 0;; ret ← merge_structs pb pa; assert ret "ret";; expect_struct_address pa 1;;
  expect_struct_size pa 4;; expect_struct_address pb 1;; expect_struct_size pb 8;;
  set_region pa 1 4 0;; set_region pb 6 4 0;; ret ← merge_structs pb pa; assert (negb ret) "!ret";;
  expect_struct_address pa 1;; expect_struct_size pa 4;; expect_struct_address pb 6;; expect_struct_size pb 4;;
  mret 0.

Definition test_allocator_region_subtract_test : M astate Z :=
  allocator_map_init pmap;; set_region pa 5 4 0;; set_region pb 1 4 0;; allocator_region_add fresh pmap pa;;
  subtract_struct pmap pb;; expect_region 0;; expect_address 0 5;; expect_size 0 4;;
  allocator_map_init pmap;; set_region pa 1 4 0;; set_region pb 5 4 0;; allocator_region_add fresh pmap pa;;
  subtract_struct pmap pb;; expect_address 0 1;; expect_size 0 4;; expect_none 1;;
  allocator_map_init pmap;; set_region pa 1 4 0;; set_region pb 10 4 0;; set_region pc 6 4 0;;
  allocator_region_add fresh pmap pa;; allocator_region_add fresh pmap pb;; subtract_struct pmap pc;; expect_region 0;;
  expect_address 0 1;; expect_size 0 4;; expect_region 1;; expect_address 1 10;; expect_size 1 4;;
  allocator_map_init pmap;; set_region pa 1 4 0;; set_region pb 10 4 0;; set_region pc 5 4 0;;
  allocator_region_add fresh pmap pa;; allocator_region_add fresh pmap pb;; subtract_struct pmap pc;; print_map pmap;;
  expect_region 0;; expect_address 0 1;; expect_size 0 4;; expect_region 1;; expect_address 1 10;; expect_size 1 4;;
  allocator_map_init pmap;; set_region pa 1 4 0;; set_region pb 10 4 0;; set_region pc 4 7 0;;
  allocator_region_add fresh pmap pa;; allocator_region_add fresh pmap pb;; subtract_struct pmap pc;; print_map pmap;;
  expect_region 0;; expect_address 0 1;; expect_size 0 3;; expect_region 1;; expect_address 1 11;; expect_size 1 3;;
  allocator_map_init pmap;; set_region pa 1 4 0;; set_region pb 10 4 0;; set_region pc 1 7 0;;
  allocator_region_add fresh pmap pa;; allocator_region_add fresh pmap pb;; subtract_struct pmap pc;; print_map pmap;;
  expect_region 0;; expect_address 0 10;; expect_size 0 4;; expect_none 1;;
  allocator_map_init pmap;; set_region pa 1 4 0;; set_region pb 10 4 0;; set_region pc 1 14 0;;
  allocator_region_add fresh pmap pa;; allocator_region_add fresh pmap pb;; subtract_struct pmap pc;; print_map pmap;;
  expect_none 0;;
  mret 0.

(** ** The tests of the macros *)

Definition APIC_LVT_GET_VECTOR (lvt : Z) : Z := getbits lvt 0 7.
Definition APIC_LVT_GET_DELIVERY_STATUS (lvt : Z) : Z := getbit lvt 12.
Definition APIC_LVT_GET_INPUT_PIN_POLARITY (lvt : Z) : Z := getbit lvt 13.
Definition APIC_LVT_GET_REMOTE_IRR (lvt : Z) : Z := getbit lvt 14.
Definition APIC_LVT_GET_TRIGGER_MODE (lvt : Z) : Z := getbit lvt 15.
Definition APIC_LVT_GET_MASK (lvt : Z) : Z := getbit lvt 16.
Definition APIC_LVT_GET_TIMER_MODE (lvt : Z) : Z := getbits lvt 17 18.
Definition APIC_LVT_SET_VECTOR (lvt value : Z) : Z := withbits lvt 0 7 value.
Definition APIC_LVT_SET_DELIVERY_STATUS (lvt value : Z) : Z := withbit lvt 12 value.
Definition APIC_LVT_SET_INPUT_PIN_POLARITY (lvt value : Z) : Z := withbit lvt 13 value.
Definition APIC_LVT_SET_REMOTE_IRR (lvt value : Z) : Z := withbit lvt 14 value.
Definition APIC_LVT_SET_TRIGGER_MODE (lvt value : Z) : Z := withbit lvt 15 value.
Definition APIC_LVT_SET_MASK (lvt value : Z) : Z := withbit lvt 16 value.
Definition APIC_LVT_SET_TIMER_MODE (lvt value : Z) : Z := withbits lvt 17 18 value.

Definition APIC_MSR_LOW_GET_BASE (msr : Z) : Z := withbits 0 0 19 (getbits msr 12 31).
Definition APIC_MSR_HIGH_GET_BASE (msr : Z) : Z := withbits 0 20 23 (getbits msr 0 3).
Definition APIC_MSR_GET_BASE (msr_high msr_low : Z) : Z :=
  Z.lor (APIC_MSR_LOW_GET_BASE msr_low) (APIC_MSR_HIGH_GET_BASE msr_high).
Definition APIC_MSR_LOW_SET_BASE (msr value : Z) : Z := withbits msr 12 31 (getbits value 0 19).
Definition APIC_MSR_HIGH_SET_BASE (msr value : Z) : Z := withbits msr 0 3 (getbits value 20 23).

(** [assert(macro == value)]; the macros have the type [unsigned]. *)
Definition expect_value (x y : Z) : M astate unit := assert (x =? u32 y) "value".

Definition test_apic_macros : M astate Z :=
  expect_value (APIC_LVT_GET_VECTOR (-1)) 0xff;;
  expect_value (APIC_LVT_GET_DELIVERY_STATUS (Z.shiftl 1 12)) 1;;
  expect_value (APIC_LVT_GET_INPUT_PIN_POLARITY (Z.shiftl 1 13)) 1;;
  expect_value (APIC_LVT_GET_REMOTE_IRR (Z.shiftl 1 14)) 1;;
  expect_value (APIC_LVT_GET_TRIGGER_MODE (Z.shiftl 1 15)) 1;;
  expect_value (APIC_LVT_GET_MASK (Z.shiftl 1 16)) 1;;
  expect_value (APIC_LVT_GET_TIMER_MODE (Z.shiftl 3 17)) 3;;
  expect_value (APIC_LVT_SET_VECTOR 0 (-1)) 0xff;;
  expect_value (APIC_LVT_SET_DELIVERY_STATUS 0 (-1)) (Z.shiftl 1 12);;
  expect_value (APIC_LVT_SET_INPUT_PIN_POLARITY 0 (-1)) (Z.shiftl 1 13);;
  expect_value (APIC_LVT_SET_REMOTE_IRR 0 (-1)) (Z.shiftl 1 14);;
  expect_value (APIC_LVT_SET_TRIGGER_MODE 0 (-1)) (Z.shiftl 1 15);;
  expect_value (APIC_LVT_SET_MASK 0 (-1)) (Z.shiftl 1 16);;
  expect_value (APIC_LVT_SET_TIMER_MODE 0 (-1)) (Z.shiftl 3 17);;
  expect_value (APIC_MSR_LOW_GET_BASE 0xfffff000) 0xfffff;;
  expect_value (APIC_MSR_LOW_GET_BASE 0x00000fff) 0x0;;
  expect_value (APIC_MSR_HIGH_GET_BASE 0xf) 0xf00000;;
  expect_value (APIC_MSR_HIGH_GET_BASE 0xfffffff0) 0x0;;
  expect_value (APIC_MSR_GET_BASE 0xf 0xfffff000) 0xffffff;;
  expect_value (APIC_MSR_GET_BASE 0xfffffff0 0x00000fff) 0x0;;
  expect_value (APIC_MSR_LOW_SET_BASE 0 0xffffff) 0xfffff000;;
  expect_value (APIC_MSR_HIGH_SET_BASE 0 0xffffff) 0xf;;
  mret 0.

(** The function has no [return]; [eax] is what its caller then reads. *)
Definition test_bits (eax : Z) : M astate Z :=
  expect_value (getbit 0xf0 4) 1;;
  expect_value (getbit 0xf0 3) 0;;
  expect_value (getbits 0xf0 4 7) 0xf;;
  expect_value (getbits 0xffffff0f 4 7) 0x0;;
  expect_value (withbits 0x0 4 7 0xf) 0xf0;;
  expect_value (withbits (-1) 4 7 0x0) 0xffffff0f;;
  expect_value (bitmask 0 0) 1;;
  expect_value (bitmask 0 1) 3;;
  expect_value (bitmask 1 1) 2;;
  expect_value (bitmask 1 3) 14;;
  expect_value (bitmask 1 31) (-2);;
  mret eax.

(** ** kernel/tests/tests.c *)

Definition passes (test : M astate Z) : M astate unit :=
  ret ← test; assert (ret =? 0) "test".

Definition test_all (eax : Z) : M astate Z :=
  passes test_allocator_region_add_test;;
  passes test_allocator_region_cut_test;;
  passes test_allocator_region_insert_test;;
  passes test_allocator_region_merge_test;;
  passes test_allocator_region_subtract_test;;
  passes test_apic_macros;;
  passes (test_bits eax);;
  mret 0.
End Tests.

(** ** What the tests show

    The structs hold anything when the tests start: the locals are not
    initialised. *)

Definition frame_map : Z := 96.
Definition frame_a : Z := 104.
Definition frame_b : Z := 124.
Definition frame_c : Z := 144.
Definition at_start (a b c : allocator_region) : astate :=
  RState {[ frame_a := a; frame_b := b; frame_c := c ]} NULL ∅ (Layout 3221225472 8192 4194304).

Definition run_tests (eax : Z) : M astate Z := test_all ex_fresh frame_map frame_a frame_b frame_c eax.

(** Every assertion of the tests holds of the model, whatever the locals hold
    at first; [test_all] returns 0 exactly if the missing return value of
    [test_bits] happens to be 0. *)
Theorem test_all_result (eax : Z) (a b c : allocator_region) :
  ∃ s', run_tests eax (at_start a b c) = if eax =? 0 then Ret 0 s' else Panic "test".
Proof.
  destruct eax as [|p|p]; [eexists; vm_compute; reflexivity|exists (at_start a b c); by vm_compute..].
Qed.

(** After the tests the pool of the allocator consists of locals of frames
    that no longer exist, and is circular: from the second allocation on,
    every caller is handed the same struct. *)
Theorem test_all_poisons_pool (a b c : allocator_region) :
  ∃ s', (run_tests 0;; p ← allocator_region_alloc ex_fresh; q ← allocator_region_alloc ex_fresh;
         r ← allocator_region_alloc ex_fresh; mret (p, q, r)) (at_start a b c) =
        Ret (frame_b, frame_a, frame_a) s'.
Proof. eexists. vm_compute. reflexivity. Qed.
