(* ===== verification/Irq.v ===== *)
(** * Handling interrupts: kernel/ia32/interrupts.c, hal_x86.c, kern/syscall.c

    Each of the 256 vectors has a list of handlers, the one installed last
    first.  The HAL installs one handler per vector it uses and keeps a second
    list behind it, of the handlers of drivers: a driver's fast handler runs in
    the interrupt, and can leave the work to a thread of the driver, which is
    then woken.  The state has both tables of lists, the interrupt controllers
    of Ioapic.v, and the threads and the heap of Spawn.v.

    Functions are addresses.  Two are installed as handlers of vectors,
    [hal_x86_fast_irq_handler] and [syscalls_handler]; what the drivers' own
    functions do is an argument. *)

From stdpp Require Import base numbers list gmap strings fin_maps functions.
From S2P Require Import Prelude UtList MemUtil Paging Malloc Ports Pic Ioapic Registers Sync Kheap Dlist Thread Scheduler Mutex MutexSafe MutexStep Spawn.

(** ** Data *)

(** The registers the stubs of isrs.S leave on the stack. *)
Record registers := Regs {
  r_ds : Z; r_cr2 : Z;
  r_edi : Z; r_esi : Z; r_ebp : Z; r_esp : Z; r_ebx : Z; r_edx : Z; r_ecx : Z; r_eax : Z;
  r_int_no : Z;
  r_err_code : Z;
  r_eip : Z; r_cs : Z; r_eflags : Z;
  r_useresp : Z; r_ss : Z
}.

Definition set_eax (v : Z) (r : registers) : registers :=
  Regs (r_ds r) (r_cr2 r) (r_edi r) (r_esi r) (r_ebp r) (r_esp r) (r_ebx r) (r_edx r) (r_ecx r) v (r_int_no r) (r_err_code r)
    (r_eip r) (r_cs r) (r_eflags r) (r_useresp r) (r_ss r).

Record interrupt_handler := IHandler { ih_int_no : Z; ih_next : Z; ih_handler : Z; ih_data : Z }.

Record hal_irq_handler := HHandler {
  hh_irq : Z;
  hh_interrupt_vector : Z;
  hh_fast_handler : Z;
  hh_name : string;
  hh_slow_handler : Z;
  hh_thread : Z;
  hh_next : Z;
  hh_data : Z
}.

#[export, refine] Instance ih_node : LLNode interrupt_handler :=
  {| ll_next := ih_next; ll_set_next p n := IHandler (ih_int_no n) p (ih_handler n) (ih_data n) |}.
Proof. all: intros; by destruct n || done. Defined.

#[export, refine] Instance hh_node : LLNode hal_irq_handler :=
  {| ll_next := hh_next;
     ll_set_next p n := HHandler (hh_irq n) (hh_interrupt_vector n) (hh_fast_handler n) (hh_name n) (hh_slow_handler n) (hh_thread n) p (hh_data n) |}.
Proof. all: intros; by destruct n || done. Defined.

Definition set_hh_thread (t : Z) (n : hal_irq_handler) : hal_irq_handler :=
  HHandler (hh_irq n) (hh_interrupt_vector n) (hh_fast_handler n) (hh_name n) (hh_slow_handler n) t (hh_next n) (hh_data n).

Abbreviation MAX_INTERRUPTS := 256 (only parsing).
Abbreviation IRQ_HANDLED := 0 (only parsing).
Abbreviation IRQ_DEFER := 1 (only parsing).
Abbreviation IRQ_PASS := 2 (only parsing).
Abbreviation sizeof_interrupt_handler := 16 (only parsing).
Abbreviation sizeof_hal_irq_handler := 32 (only parsing).

Record istate (H : Type) := IState {
  handlers : list Z;
  _free_handlers : Z;
  ih_heap : gmap Z interrupt_handler;
  _hal_irq_handlers : list Z;
  hh_heap : gmap Z hal_irq_handler;
  _interrupt_nesting : Z;
  i_apic : apic_state;
  i_ports : list io_event;
  i_k : kstate H
}.
Arguments IState {H}.
Arguments handlers {H}.
Arguments _free_handlers {H}.
Arguments ih_heap {H}.
Arguments _hal_irq_handlers {H}.
Arguments hh_heap {H}.
Arguments _interrupt_nesting {H}.
Arguments i_apic {H}.
Arguments i_ports {H}.
Arguments i_k {H}.

(** ** Tables of lists

    [tab_rep key h heads A]: in the heap [h] the list that starts at the [v]-th
    head has the nodes [A v], in order, with what they hold, links apart; the
    key of each is [v], so that no node is on two lists. *)
Section Tab.
Context {T : Type} `{LLNode T} (key : T → Z).

Definition tab_rep (h : gmap Z T) (heads : list Z) (A : nat → list (Z * T)) : Prop :=
  ∀ v hd, heads !! v = Some hd →
    ll_rep h hd (A v).*1 ∧ ∀ p d, (p, d) ∈ A v → ll_data <$> h !! p = Some d ∧ key d = Z.of_nat v.

(** Nodes on no list of the table. *)
Definition tab_free (n : nat) (A : nat → list (Z * T)) (p : Z) : Prop := ∀ v, (v < n)%nat → p ∉ (A v).*1.

Lemma tab_node h heads A v hd p d : tab_rep h heads A → heads !! v = Some hd → (p, d) ∈ A v →
  p ≠ NULL ∧ ∃ x, h !! p = Some x ∧ ll_data x = d ∧ key d = Z.of_nat v.
Proof.
  intros Ht Ev Hin. destruct (Ht v hd Ev) as [Hr Hd]. destruct (Hd p d Hin) as [Hp Hk].
  destruct (ll_rep_lookup _ _ _ p Hr) as [Hn [x Ex]]; [by apply (list_elem_of_fmap_2 fst _ (p, d))|].
  rewrite Ex in Hp. injection Hp as Hp. eauto 10.
Qed.

Lemma tab_disjoint h heads A v w hv hw p : tab_rep h heads A → heads !! v = Some hv → heads !! w = Some hw → v ≠ w →
  p ∈ (A v).*1 → p ∉ (A w).*1.
Proof.
  intros Ht Ev Ew Hne Hv Hw. apply list_elem_of_fmap in Hv as ([p1 d1] & E1 & H1). apply list_elem_of_fmap in Hw as ([p2 d2] & E2 & H2). simpl in *. subst p1 p2.
  destruct (Ht v hv Ev) as [_ Dv], (Ht w hw Ew) as [_ Dw]. destruct (Dv p d1 H1) as [A1 K1], (Dw p d2 H2) as [A2 K2].
  rewrite A1 in A2. injection A2 as ->. lia.
Qed.

(** Changing links of nodes of one list, or of nodes on no list, leaves the others alone. *)
Lemma tab_change h h' heads A v hd hd' ds X :
  tab_rep h heads A → heads !! v = Some hd → links_only X h h' →
  (∀ p, p ∈ X → p ∈ (A v).*1 ∨ tab_free (length heads) A p) →
  ll_rep h' hd' ds.*1 → (∀ p d, (p, d) ∈ ds → ll_data <$> h' !! p = Some d ∧ key d = Z.of_nat v) →
  tab_rep h' (<[v := hd']> heads) (<[v := ds]> A).
Proof.
  intros Ht Ev Hl HX Hr Hd w hw [(<- & <- & _)|[Hne Ew]]%list_lookup_insert_Some.
  - rewrite fn_lookup_insert. by split.
  - rewrite fn_lookup_insert_ne by done. destruct (Ht w hw Ew) as [Hrw Hdw]. split.
    + eapply ll_rep_frame_links; [exact Hl| |done]. intros q Hq Hin. apply HX in Hin as [Hin|Hf].
      * by apply (tab_disjoint h heads A v w hd hw q Ht Ev Ew Hne Hin).
      * apply (Hf w); [by eapply lookup_lt_Some|done].
    + intros p d Hin. rewrite (proj2 (Hl p)). by apply Hdw.
Qed.

Lemma tab_prepend h heads A v hd add x d :
  tab_rep h heads A → heads !! v = Some hd → add ≠ NULL → tab_free (length heads) A add →
  h !! add = Some x → ll_data x = d → key d = Z.of_nat v →
  ∃ h', LL_PREPEND hd add h = Ret add h' ∧ links_only [add] h h' ∧
    tab_rep h' (<[v := add]> heads) (<[v := (add, d) :: A v]> A).
Proof.
  intros Ht Ev Ha Hf Ex Hd Hk. destruct (Ht v hd Ev) as [Hr Hdv].
  destruct (LL_PREPEND_spec h hd (A v).*1 add x Hr Ha (Hf v ltac:(by eapply lookup_lt_Some)) Ex) as (h' & E & Hr' & Hl).
  exists h'. split; [done|]. split; [done|]. eapply tab_change; [exact Ht|exact Ev|exact Hl| |exact Hr'|].
  - intros p ->%list_elem_of_singleton. by right.
  - intros p d' [[= -> ->]|Hin]%elem_of_cons; rewrite (proj2 (Hl _)); [|by apply Hdv].
    rewrite Ex. simpl. by rewrite Hd.
Qed.

Lemma tab_delete h heads A v hd l1 del d l2 :
  tab_rep h heads A → heads !! v = Some hd → A v = l1 ++ (del, d) :: l2 →
  ∃ hd' h', LL_DELETE hd del h = Ret hd' h' ∧ links_only l1.*1 h h' ∧
    tab_rep h' (<[v := hd']> heads) (<[v := l1 ++ l2]> A).
Proof.
  intros Ht Ev EA. destruct (Ht v hd Ev) as [Hr Hdv]. rewrite EA, fmap_app in Hr. cbn in Hr.
  destruct (LL_DELETE_spec h hd l1.*1 del l2.*1 Hr) as (hd' & h' & E & Hr' & Hl).
  exists hd', h'. split; [done|]. split; [done|]. eapply tab_change; [exact Ht|exact Ev|exact Hl| |by rewrite fmap_app|].
  - intros p Hp. left. rewrite EA, fmap_app. apply elem_of_app. by left.
  - intros p d' Hin. rewrite (proj2 (Hl p)). apply Hdv. rewrite EA. apply elem_of_app in Hin as [Hin|Hin]; apply elem_of_app; [by left|right]. by right.
Qed.

(** Writing a node that is on no list, or a new one. *)
Lemma tab_write h heads A p x : tab_rep h heads A → tab_free (length heads) A p → tab_rep (<[p := x]> h) heads A.
Proof.
  intros Ht Hf v hd Ev. destruct (Ht v hd Ev) as [Hr Hd]. assert (Hp : p ∉ (A v).*1) by (apply Hf; by eapply lookup_lt_Some). split.
  - eapply ll_rep_frame; [|exact Hr]. intros q Hq. rewrite lookup_insert_ne; [done|]. by intros ->.
  - intros q d Hin. rewrite lookup_insert_ne; [by apply Hd|]. intros ->. apply Hp. by apply (list_elem_of_fmap_2 fst _ (q, d)).
Qed.

Lemma tab_in_heap h heads A p : tab_rep h heads A → h !! p = None → tab_free (length heads) A p.
Proof.
  intros Ht Hp v Hv Hin. apply lookup_lt_is_Some in Hv as [hd Ev]. destruct (Ht v hd Ev) as [Hr _].
  destruct (ll_rep_lookup _ _ _ p Hr Hin) as [_ [x Ex]]. congruence.
Qed.

(** Writing the first node of a list, link and key apart. *)
Lemma tab_update_head h heads A v hd p d ds m m' :
  tab_rep h heads (<[v := (p, d) :: ds]> A) → heads !! v = Some hd → h !! p = Some m →
  ll_next m' = ll_next m → key (ll_data m') = Z.of_nat v →
  tab_rep (<[p := m']> h) heads (<[v := (p, ll_data m') :: ds]> A).
Proof.
  intros Ht Ev Em Hn Hk w hw Ew. destruct (Ht w hw Ew) as [Hr Hd]. destruct (decide (w = v)) as [->|Hne].
  - rewrite fn_lookup_insert in Hr, Hd |- *. change (ll_rep h hw (p :: ds.*1)) in Hr.
    split; [exact (ll_rep_update h hw (p :: ds.*1) p m m' Em Hn Hr)|].
    intros q e [[= -> ->]|Hin]%elem_of_cons; [by rewrite lookup_insert_eq|]. rewrite lookup_insert_ne; [apply Hd; by right|].
    intros ->. apply ll_rep_nodup in Hr. apply (NoDup_split [] ds.*1 q Hr). by apply (list_elem_of_fmap_2 fst _ (q, e)).
  - assert (Hp : p ∉ (<[v := (p, d) :: ds]> A w).*1).
    { apply (tab_disjoint h heads _ v w hd hw p Ht Ev Ew (not_eq_sym Hne)). rewrite fn_lookup_insert. by left. }
    rewrite fn_lookup_insert_ne in Hr, Hd, Hp |- * by done. split.
    + eapply ll_rep_frame; [|exact Hr]. intros q Hq. rewrite lookup_insert_ne; [done|]. by intros ->.
    + intros q e Hin. rewrite lookup_insert_ne; [by apply Hd|]. intros ->. apply Hp. by apply (list_elem_of_fmap_2 fst _ (q, e)).
Qed.

(** The nodes [ds] are linked from [p] on. *)
Definition nodes (h : gmap Z T) (p : Z) (ds : list (Z * T)) : Prop :=
  ll_rep h p ds.*1 ∧ ∀ q d, (q, d) ∈ ds → ll_data <$> h !! q = Some d.

Lemma nodes_cons h p q d ds : nodes h p ((q, d) :: ds) →
  p = q ∧ p ≠ NULL ∧ ∃ n, h !! p = Some n ∧ ll_data n = d ∧ nodes h (ll_next n) ds.
Proof.
  intros [Hr Hd]. cbn in Hr. destruct Hr as (-> & Hq & n & En & Hr). split; [done|]. split; [done|]. exists n. split; [done|].
  pose proof (Hd q d ltac:(by left)) as E. rewrite En in E. assert (ll_data n = d) as <- by (by injection E).
  split; [done|]. split; [done|]. intros q' d' Hin. apply Hd. by right.
Qed.

Lemma tab_nodes h heads A v hd : tab_rep h heads A → heads !! v = Some hd →
  nodes h hd (A v) ∧ (length (A v) < S (size h))%nat.
Proof.
  intros Ht Ev. destruct (Ht v hd Ev) as [Hr Hd]. split; [split; [done|]; intros q d Hin; by apply Hd|].
  pose proof (ll_rep_fuel _ _ _ Hr) as Hf. rewrite length_fmap in Hf. lia.
Qed.
End Tab.

Section Irq.
Context {H : Type} `{Cpu H, Kheap H}.
Abbreviation S := (istate H).

Definition set_handlers v (s : S) : S := IState v (_free_handlers s) (ih_heap s) (_hal_irq_handlers s) (hh_heap s) (_interrupt_nesting s) (i_apic s) (i_ports s) (i_k s).
Definition set_free_handlers v (s : S) : S := IState (handlers s) v (ih_heap s) (_hal_irq_handlers s) (hh_heap s) (_interrupt_nesting s) (i_apic s) (i_ports s) (i_k s).
Definition set_ih_heap v (s : S) : S := IState (handlers s) (_free_handlers s) v (_hal_irq_handlers s) (hh_heap s) (_interrupt_nesting s) (i_apic s) (i_ports s) (i_k s).
Definition set_hal_handlers v (s : S) : S := IState (handlers s) (_free_handlers s) (ih_heap s) v (hh_heap s) (_interrupt_nesting s) (i_apic s) (i_ports s) (i_k s).
Definition set_hh_heap v (s : S) : S := IState (handlers s) (_free_handlers s) (ih_heap s) (_hal_irq_handlers s) v (_interrupt_nesting s) (i_apic s) (i_ports s) (i_k s).
Definition set_nesting v (s : S) : S := IState (handlers s) (_free_handlers s) (ih_heap s) (_hal_irq_handlers s) (hh_heap s) v (i_apic s) (i_ports s) (i_k s).
Definition set_apic v (s : S) : S := IState (handlers s) (_free_handlers s) (ih_heap s) (_hal_irq_handlers s) (hh_heap s) (_interrupt_nesting s) v (i_ports s) (i_k s).
Definition set_k v (s : S) : S := IState (handlers s) (_free_handlers s) (ih_heap s) (_hal_irq_handlers s) (hh_heap s) (_interrupt_nesting s) (i_apic s) (i_ports s) v.

#[export] Instance istate_ports : Ports S := {
  io_trace := i_ports;
  set_io_trace t s := IState (handlers s) (_free_handlers s) (ih_heap s) (_hal_irq_handlers s) (hh_heap s) (_interrupt_nesting s) (i_apic s) t (i_k s)
}.

Definition on_ih {A} (m : M (gmap Z interrupt_handler) A) : M S A := zoom ih_heap set_ih_heap m.
Definition on_hh {A} (m : M (gmap Z hal_irq_handler) A) : M S A := zoom hh_heap set_hh_heap m.
Definition on_apic {A} (m : M apic_state A) : M S A := zoom i_apic set_apic m.
Definition on_k {A} (m : M (kstate H) A) : M S A := zoom i_k set_k m.
Definition on_machine {A} (m : M sys A) : M S A := on_k (on_sys m).

(** The head of a list, [heads[i]]. *)
Definition head_at (heads : list Z) (i : Z) : M S Z :=
  match heads !! Z.to_nat i with Some p => mret p | None => fault end.

Variable dev : list mmio_event → Z → Z.
Variables kernel_vma_byte switch_return entry_point : Z.
Variable code : Z → Z → list op * list op.
(** What [get_cs_register] returns. *)
Variable cs : Z.
(** What static memory and a block of the heap hold before they are written. *)
Variable junk_ih : Z → interrupt_handler.
Variable junk_hh : Z → hal_irq_handler.
(** The addresses of functions of the kernel. *)
Variables hal_x86_fast_irq_handler_addr hal_x86_slow_handler_thread_entry_point_addr syscalls_handler_addr : Z.
(** A driver's fast handler, called with an interrupt, the registers and its data. *)
Variable fast_handler : Z → Z → registers → Z → M sys Z.
(** The functions of drivers/tty.c among the system calls, by number. *)
Variable tty_call : Z → Z → Z → Z → Z → Z → M sys Z.
(** [cli; hlt]: nothing runs any more. *)
Definition power_halt {T A} : M T A := panic "halted".

(** ** kern/syscall.c *)

Definition high_five (a b c d e : Z) : Z := s32 (a + b + c + d + e).
Definition syscalls_num_syscalls : Z := 6.

(** The function that the table has at [num] gets the registers as its arguments. *)
Definition syscalls_call (num : Z) (regs : registers) : M sys registers :=
  ret ← (if num =? 0 then power_halt
         else if num =? 1 then mret (u32 (high_five (r_ebx regs) (r_ecx regs) (r_edx regs) (r_esi regs) (r_edi regs)))
         else tty_call num (r_ebx regs) (r_ecx regs) (r_edx regs) (r_esi regs) (r_edi regs));
  mret (set_eax ret regs).

Definition syscalls_handler (regs : registers) : M sys (bool * registers) :=
  if r_eax regs <? syscalls_num_syscalls then
    regs ← syscalls_call (r_eax regs) regs;
    mret (true, regs)
  else panic "non-existant syscall".

(** ** Lists of handlers *)

Definition interrupts_handler_alloc : M S Z :=
  s ← get;
  if _free_handlers s =? NULL then
    handler ← on_apic (on_pages (zoom play set_play (kalloc_static sizeof_interrupt_handler sizeof_interrupt_handler)));
    assert (negb (handler =? NULL)) "handler";;
    on_ih (modify (insert handler (junk_ih handler)));;
    mret handler
  else
    let handler := _free_handlers s in
    head ← on_ih (LL_DELETE (_free_handlers s) (_free_handlers s));
    modify (set_free_handlers head);;
    mret handler.

Definition interrupts_handler_free (handler : Z) : M S unit :=
  s ← get;
  head ← on_ih (LL_PREPEND (_free_handlers s) handler);
  modify (set_free_handlers head).

Definition interrupts_install_handler (int_no handler_fn data : Z) : M S Z :=
  assert (int_no <? MAX_INTERRUPTS) "int_no < MAX_INTERRUPTS";;
  handler ← interrupts_handler_alloc;
  on_ih (update handler (λ n, IHandler int_no (ih_next n) handler_fn data));;
  s ← get;
  head ← head_at (handlers s) int_no;
  head ← on_ih (LL_PREPEND head handler);
  modify (λ s, set_handlers (<[Z.to_nat int_no := head]> (handlers s)) s);;
  mret handler.

(** The struct is not put on the list of free ones. *)
Definition interrupts_uninstall_handler (handler : Z) : M S unit :=
  n ← on_ih (load handler);
  s ← get;
  head ← head_at (handlers s) (ih_int_no n);
  head ← on_ih (LL_DELETE head handler);
  modify (λ s, set_handlers (<[Z.to_nat (ih_int_no n) := head]> (handlers s)) s).

Fixpoint uninstall_loop (fuel : nat) (int_no handler_fn handler : Z) : M S unit :=
  match fuel with
  | O => nofuel
  | Datatypes.S fuel =>
      if handler =? NULL then mret tt
      else
        n ← on_ih (load handler);
        if ih_handler n =? handler_fn then
          s ← get;
          head ← head_at (handlers s) int_no;
          head ← on_ih (LL_DELETE head handler);
          modify (λ s, set_handlers (<[Z.to_nat int_no := head]> (handlers s)) s);;
          interrupts_handler_free handler
        else uninstall_loop fuel int_no handler_fn (ih_next n)
  end.

Definition interrupts_uninstall_handler_func (int_no handler_fn : Z) : M S unit :=
  s ← get;
  head ← head_at (handlers s) int_no;
  fuel ← on_ih fuel_of_heap;
  uninstall_loop fuel int_no handler_fn head.

(** ** hal_x86.c *)

Definition hal_x86_irq_handler_alloc : M S Z :=
  p ← on_k (on_heap (k_alloc sizeof_hal_irq_handler));
  (if negb (p =? NULL) then on_hh (modify (insert p (junk_hh p))) else mret tt);;
  mret p.

Definition hal_x86_irq_handler_free (handler : Z) : M S unit := on_k (on_heap (k_free handler)).

Definition hal_x86_install_upstream_irq_handler (irq : Z) : M S unit :=
  irq_line ← on_apic (hal_line irq);
  if upstream_interrupt_handler irq_line =? NULL then
    h ← interrupts_install_handler (interrupt_vector irq_line) hal_x86_fast_irq_handler_addr NULL;
    on_apic (modify (λ a, set_hal_irqs (<[Z.to_nat irq := HalIrqLine (interrupt_vector irq_line) h]> (_hal_irqs a)) a))
  else mret tt.

Definition hal_x86_uninstall_upstream_irq_handler (irq : Z) : M S unit :=
  irq_line ← on_apic (hal_line irq);
  if negb (upstream_interrupt_handler irq_line =? NULL) then
    interrupts_uninstall_handler (upstream_interrupt_handler irq_line);;
    on_apic (modify (λ a, set_hal_irqs (<[Z.to_nat irq := HalIrqLine (interrupt_vector irq_line) NULL]> (_hal_irqs a)) a))
  else mret tt.

Definition hal_x86_start_slow_handler_thread (handler : Z) : M S unit :=
  n ← on_hh (load handler);
  t ← on_k (thread_spawn_kthread entry_point code cs hal_x86_slow_handler_thread_entry_point_addr (hh_name n) handler);
  on_hh (update handler (set_hh_thread t)).

(** The member [thread] is written only when there is a slow handler; the
    function ends without a [return]. *)
Definition hal_install_irq_handler (irq fast_handler slow_handler : Z) (name : string) (data : Z) : M S unit :=
  irq_line ← on_apic (hal_line irq);
  let int_no := interrupt_vector irq_line in
  handler ← hal_x86_irq_handler_alloc;
  on_hh (update handler (λ n, HHandler irq int_no fast_handler name slow_handler (hh_thread n) (hh_next n) data));;
  s ← get;
  head ← head_at (_hal_irq_handlers s) int_no;
  head ← on_hh (LL_PREPEND head handler);
  modify (λ s, set_hal_handlers (<[Z.to_nat int_no := head]> (_hal_irq_handlers s)) s);;
  (if negb (slow_handler =? NULL) then hal_x86_start_slow_handler_thread handler else mret tt);;
  hal_x86_install_upstream_irq_handler irq.

Fixpoint hal_uninstall_loop (fuel : nat) (int_no handler cur : Z) : M S bool :=
  match fuel with
  | O => nofuel
  | Datatypes.S fuel =>
      if cur =? NULL then mret false
      else
        n ← on_hh (load cur);
        if cur =? handler then
          s ← get;
          head ← head_at (_hal_irq_handlers s) int_no;
          head ← on_hh (LL_DELETE head cur);
          modify (λ s, set_hal_handlers (<[Z.to_nat int_no := head]> (_hal_irq_handlers s)) s);;
          mret true
        else hal_uninstall_loop fuel int_no handler (hh_next n)
  end.

Definition hal_uninstall_irq_handler (handler : Z) : M S bool :=
  n ← on_hh (load handler);
  irq_line ← on_apic (hal_line (hh_irq n));
  let int_no := interrupt_vector irq_line in
  s ← get;
  head ← head_at (_hal_irq_handlers s) int_no;
  fuel ← on_hh fuel_of_heap;
  hal_uninstall_loop fuel int_no handler head.

(** [LL_FOREACH] up to the first handler that does not pass: what it says, and
    the handler, null after the whole list. *)
Fixpoint fast_irq_loop (fuel : nat) (regs : registers) (handler result : Z) : M S (Z * Z) :=
  match fuel with
  | O => nofuel
  | Datatypes.S fuel =>
      if handler =? NULL then mret (result, NULL)
      else
        n ← on_hh (load handler);
        r ← on_machine (fast_handler (hh_fast_handler n) (hh_irq n) regs (hh_data n));
        if negb (r =? IRQ_PASS) then mret (r, handler) else fast_irq_loop fuel regs (hh_next n) r
  end.

Definition hal_x86_fast_irq_handler (int_no : Z) (regs : registers) : M S bool :=
  assert (int_no <? MAX_INTERRUPTS) "int_no < MAX_INTERRUPTS";;
  s ← get;
  list ← head_at (_hal_irq_handlers s) int_no;
  fuel ← on_hh fuel_of_heap;
  '(result, handler) ← fast_irq_loop fuel regs list IRQ_PASS;
  (if result =? IRQ_DEFER then
     n ← on_hh (load handler);
     if negb (hh_thread n =? NULL) then on_machine (thread_wake (hh_thread n)) else mret tt
   else mret tt);;
  mret (negb (result =? IRQ_PASS)).

(** ** Dispatch *)

(** [handler->handler(int_no, regs, handler->data)] *)
Definition call_handler (fn int_no : Z) (regs : registers) : M S (bool * registers) :=
  if fn =? hal_x86_fast_irq_handler_addr then
    r ← hal_x86_fast_irq_handler int_no regs;
    mret (r, regs)
  else if fn =? syscalls_handler_addr then on_machine (syscalls_handler regs)
  else fault.

Fixpoint dispatch_loop (fuel : nat) (int_no : Z) (regs : registers) (handler : Z) : M S (bool * registers) :=
  match fuel with
  | O => nofuel
  | Datatypes.S fuel =>
      if handler =? NULL then mret (false, regs)
      else
        n ← on_ih (load handler);
        '(result, regs) ← call_handler (ih_handler n) int_no regs;
        if (result : bool) then mret (true, regs)
        else n ← on_ih (load handler); dispatch_loop fuel int_no regs (ih_next n)
  end.

Definition interrupts_dispatch (int_no : Z) (regs : registers) : M S (bool * registers) :=
  assert (int_no <? MAX_INTERRUPTS) "int_no < MAX_INTERRUPTS";;
  s ← get;
  head ← head_at (handlers s) int_no;
  fuel ← on_ih fuel_of_heap;
  dispatch_loop fuel int_no regs head.

Definition interrupts_cpu_enter : M S unit := modify (λ s, set_nesting (s32 (_interrupt_nesting s + 1)) s).
Definition interrupts_cpu_leave : M S unit := modify (λ s, set_nesting (s32 (_interrupt_nesting s - 1)) s).
Definition interrupts_cpu_in_nested_isr : M S bool := s ← get; mret (negb (_interrupt_nesting s =? 0)).

(** Up to the call of [scheduler_yield], which is the frame [FCallYield]; the
    check after it repeats the first one on the same registers. *)
Definition interrupts_handler (regs : registers) : M S registers :=
  (if negb (r_int_no regs =? 128) then interrupts_cpu_enter else mret tt);;
  if r_eip regs <? kernel_vma_byte then panic "error: came from weird address 0x%lx"
  else
    on_machine interrupts_enable;;
    '(handled, regs) ← interrupts_dispatch (r_int_no regs) regs;
    (if (handled : bool) then mret tt else power_halt);;
    on_machine interrupts_disable;;
    (if negb (r_int_no regs =? 128) then interrupts_cpu_leave else mret tt);;
    nested ← interrupts_cpu_in_nested_isr;
    (if negb (nested : bool) then
       on_machine interrupts_enable;;
       on_machine (push FCallYield)
     else mret tt);;
    mret regs.

Definition interrupts_isr_handler (regs : registers) : M S registers := interrupts_handler regs.

Definition interrupts_irq_handler (regs : registers) : M S registers :=
  pic_eoi (pic_irq_for_interrupt (r_int_no regs));;
  interrupts_handler regs.

Definition interrupts_ioapic_irq_handler (regs : registers) : M S registers :=
  on_apic (apic_eoi);;
  interrupts_handler regs.

(** The processor takes an interrupt: it saves the flags for the [iret] of the
    stub, the frame [FIsr], and the gate turns interrupts off. *)
Definition take_interrupt {A} (handler : M S A) : M S A :=
  on_machine (s ← get;
    if Z.testbit (cpu_eflags s) flags_if_bit then push (FIsr (cpu_eflags s));; interrupts_disable else fault);;
  handler.

(** ** What a vector's lists do

    The effect on threads and drivers, on the lists as values. *)

Fixpoint run_drivers (ds : list hal_irq_handler) (regs : registers) : M sys (Z * Z) :=
  match ds with
  | [] => mret (IRQ_PASS, NULL)
  | d :: ds =>
      r ← fast_handler (hh_fast_handler d) (hh_irq d) regs (hh_data d);
      if negb (r =? IRQ_PASS) then mret (r, hh_thread d) else run_drivers ds regs
  end.

Definition hal_serve (ds : list hal_irq_handler) (regs : registers) : M sys bool :=
  '(r, t) ← run_drivers ds regs;
  (if (r =? IRQ_DEFER) && negb (t =? NULL) then thread_wake t else mret tt);;
  mret (negb (r =? IRQ_PASS)).

Fixpoint serve (hs : list interrupt_handler) (ds : list hal_irq_handler) (regs : registers) : M sys (bool * registers) :=
  match hs with
  | [] => mret (false, regs)
  | h :: hs =>
      '(result, regs) ←
        (if ih_handler h =? hal_x86_fast_irq_handler_addr then r ← hal_serve ds regs; mret (r, regs)
         else if ih_handler h =? syscalls_handler_addr then syscalls_handler regs
         else fault);
      if (result : bool) then mret (true, regs) else serve hs ds regs
  end.

Definition with_sys (x : sys) (s : S) : S := set_k (KState x (k_heap (i_k s)) (_next_tid (i_k s))) s.
Abbreviation machine s := (k_sys (i_k s)).

Lemma on_machine_ok {A} (m : M sys A) s a x : m (machine s) = Ret a x → on_machine m s = Ret a (with_sys x s).
Proof. intros E. unfold on_machine, on_k, on_sys, zoom. by rewrite E. Qed.

Lemma with_sys_with x y s : with_sys x (with_sys y s) = with_sys x s.
Proof. done. Qed.

Lemma with_sys_id s : with_sys (machine s) s = s.
Proof. by destruct s as [? ? ? ? ? ? ? ? []]. Qed.

Lemma on_ih_load p n s : ih_heap s !! p = Some n → on_ih (load p) s = Ret n s.
Proof. intros E. unfold on_ih, zoom. rewrite (load_ok _ _ _ E). by destruct s. Qed.

Lemma on_hh_load p n s : hh_heap s !! p = Some n → on_hh (load p) s = Ret n s.
Proof. intros E. unfold on_hh, zoom. rewrite (load_ok _ _ _ E). by destruct s. Qed.

Lemma head_at_ok heads i p s : heads !! Z.to_nat i = Some p → head_at heads i s = Ret p s.
Proof. intros E. unfold head_at. by rewrite E. Qed.

Lemma fast_irq_loop_ok fuel regs ds p s r t x : nodes (hh_heap s) p ds → (length ds < fuel)%nat →
  run_drivers ds.*2 regs (machine s) = Ret (r, t) x →
  ∃ q, fast_irq_loop fuel regs p IRQ_PASS s = Ret (r, q) (with_sys x s) ∧
    (r ≠ IRQ_PASS → ∃ n, hh_heap s !! q = Some n ∧ hh_thread n = t).
Proof.
  revert fuel p s. induction ds as [|[q d] ds IH]; intros [|fuel] p s Hn Hf E; simpl in Hf; try lia; cbn [fast_irq_loop].
  - destruct Hn as [-> _]. cbn in E. injection E as <- <- <-. exists NULL. rewrite with_sys_id. split; [done|]. by intros.
  - destruct (nodes_cons _ _ _ _ _ Hn) as (-> & Hq & n & En & Hd & Hn'). rewrite (proj2 (Z.eqb_neq q NULL)) by done.
    step (on_hh_load q n s En). cbn [run_drivers] in E. apply bind_ret_inv in E as (r1 & x1 & E1 & E).
    assert (Hd1 : hh_fast_handler n = hh_fast_handler d ∧ hh_irq n = hh_irq d ∧ hh_data n = hh_data d ∧ hh_thread n = hh_thread d) by (by rewrite <- Hd).
    destruct Hd1 as (-> & -> & -> & Ht). step (on_machine_ok _ s r1 x1 E1). destruct (r1 =? IRQ_PASS) eqn:Er; cbn [negb] in *.
    + apply Z.eqb_eq in Er as ->. destruct (IH fuel (hh_next n) (with_sys x1 s) Hn' ltac:(lia) E) as (q' & E' & Hq'). exists q'.
      rewrite with_sys_with in E'. done.
    + injection E as <- <- <-. exists q. split; [done|]. intros _. exists n. by rewrite Ht.
Qed.

(** The two tables: [A v] are the handlers of vector [v], [B v] those of the drivers. *)
Record irq_rep (s : S) (A : nat → list (Z * interrupt_handler)) (B : nat → list (Z * hal_irq_handler)) : Prop := {
  ir_len : length (handlers s) = 256%nat;
  ir_hal_len : length (_hal_irq_handlers s) = 256%nat;
  ir_tab : tab_rep ih_int_no (ih_heap s) (handlers s) A;
  ir_hal : tab_rep hh_interrupt_vector (hh_heap s) (_hal_irq_handlers s) B
}.

Lemma vector_head (l : list Z) v : length l = 256%nat → 0 ≤ v < 256 → ∃ p, l !! Z.to_nat v = Some p.
Proof. intros El Hv. apply lookup_lt_is_Some. lia. Qed.

Lemma hal_handler_ok s A B v regs b x : irq_rep s A B → 0 ≤ v < 256 →
  hal_serve (B (Z.to_nat v)).*2 regs (machine s) = Ret b x → hal_x86_fast_irq_handler v regs s = Ret b (with_sys x s).
Proof.
  intros Hi Hv E. destruct (vector_head _ v (ir_hal_len _ _ _ Hi) Hv) as [p Ep]. destruct (tab_nodes _ _ _ _ _ _ (ir_hal _ _ _ Hi) Ep) as [Hn Hf].
  unfold hal_x86_fast_irq_handler. step (assert_ok (v <? MAX_INTERRUPTS) "int_no < MAX_INTERRUPTS" s (proj2 (Z.ltb_lt v MAX_INTERRUPTS) (proj2 Hv))).
  rewrite bind_get. step (head_at_ok _ v p s Ep). assert (Ef : on_hh fuel_of_heap s = Ret (Datatypes.S (size (hh_heap s))) s) by (by destruct s).
  step Ef. unfold hal_serve in E. apply bind_ret_inv in E as ([r t] & x1 & E1 & E).
  destruct (fast_irq_loop_ok (Datatypes.S (size (hh_heap s))) regs (B (Z.to_nat v)) p s r t x1 Hn Hf E1) as (q & E2 & Hq).
  step E2. apply bind_ret_inv in E as ([] & x2 & E3 & E). injection E as <- <-. destruct (r =? IRQ_DEFER) eqn:Er; cbn [andb] in E3.
  - apply Z.eqb_eq in Er as ->. destruct (Hq ltac:(done)) as (n & En & Ht). step (on_hh_load q n (with_sys x1 s) En). rewrite Ht.
    destruct (negb (t =? NULL)); [|injection E3 as <-; done].
    step (on_machine_ok (thread_wake t) (with_sys x1 s) tt x2 E3). by rewrite with_sys_with.
  - injection E3 as <-. by step (ret_ok tt (with_sys x1 s)).
Qed.

Lemma dispatch_loop_ok fuel A B v hs p regs s b regs' x : irq_rep s A B → 0 ≤ v < 256 →
  nodes (ih_heap s) p hs → (length hs < fuel)%nat →
  serve hs.*2 (B (Z.to_nat v)).*2 regs (machine s) = Ret (b, regs') x →
  dispatch_loop fuel v regs p s = Ret (b, regs') (with_sys x s).
Proof.
  intros Hi Hv. revert fuel p regs s Hi. induction hs as [|[q d] hs IH]; intros [|fuel] p regs s Hi Hn Hf E; simpl in Hf; try lia; cbn [dispatch_loop].
  - destruct Hn as [-> _]. cbn in E. injection E as <- <- <-. by rewrite with_sys_id.
  - destruct (nodes_cons _ _ _ _ _ Hn) as (-> & Hq & n & En & Hd & Hn'). rewrite (proj2 (Z.eqb_neq q NULL)) by done.
    step (on_ih_load q n s En). cbn [serve] in E. apply bind_ret_inv in E as ([r regs1] & x1 & E1 & E).
    assert (Hh : ih_handler n = ih_handler d) by (by rewrite <- Hd).
    assert (Ec : call_handler (ih_handler n) v regs s = Ret (r, regs1) (with_sys x1 s)).
    { unfold call_handler. rewrite Hh. cbn [snd] in E1. destruct (ih_handler d =? hal_x86_fast_irq_handler_addr).
      - apply bind_ret_inv in E1 as (r0 & x0 & E0 & E1). injection E1 as <- <- <-. by step (hal_handler_ok s A B v regs r0 x0 Hi Hv E0).
      - destruct (ih_handler d =? syscalls_handler_addr); [by apply on_machine_ok|done]. }
    step Ec. destruct r; [by injection E as <- <- <-|]. step (on_ih_load q n (with_sys x1 s) En).
    rewrite (IH fuel (ih_next n) regs1 (with_sys x1 s)); [done| |done|lia|done]. by destruct Hi.
Qed.

Lemma dispatch_ok A B v regs s b regs' x : irq_rep s A B → 0 ≤ v < 256 →
  serve (A (Z.to_nat v)).*2 (B (Z.to_nat v)).*2 regs (machine s) = Ret (b, regs') x →
  interrupts_dispatch v regs s = Ret (b, regs') (with_sys x s).
Proof.
  intros Hi Hv E. destruct (vector_head _ v (ir_len _ _ _ Hi) Hv) as [p Ep]. destruct (tab_nodes _ _ _ _ _ _ (ir_tab _ _ _ Hi) Ep) as [Hn Hf].
  unfold interrupts_dispatch. step (assert_ok (v <? MAX_INTERRUPTS) "int_no < MAX_INTERRUPTS" s (proj2 (Z.ltb_lt v MAX_INTERRUPTS) (proj2 Hv))).
  rewrite bind_get. step (head_at_ok _ v p s Ep). assert (Ef : on_ih fuel_of_heap s = Ret (Datatypes.S (size (ih_heap s))) s) by (by destruct s).
  step Ef. by eapply (dispatch_loop_ok _ A B v (A (Z.to_nat v))).
Qed.

(** ** The machine while an interrupt is handled

    [calm] is the invariant of MutexStep.v without the clause on a thread that
    has just been blocked and is about to yield: an interrupt can come before
    it does. *)
Definition calm (x : sys) : Prop :=
  ∃ rs bs C G W c, sinv kernel_vma_byte x rs bs C ∧ minv x C G W ∧
    C !! current x = Some c ∧ state c ≠ thread_dead ∧ g_phase (G (current x)) ≠ PEntry.

Definition alive (x : sys) (t : Z) : Prop := ∃ th, threads x !! t = Some th ∧ state th ≠ thread_dead.

(** What interrupt handlers leave alone. *)
Definition same_run (x x' : sys) : Prop :=
  cpu_eflags x' = cpu_eflags x ∧ cpu_frames x' = cpu_frames x ∧ current x' = current x ∧ ∀ t, alive x t → alive x' t.

Lemma same_run_refl x : same_run x x.
Proof. by split_and!. Qed.

Lemma same_run_trans x y z : same_run x y → same_run y z → same_run x z.
Proof. intros (A1 & A2 & A3 & A4) (B1 & B2 & B3 & B4). split_and!; [congruence..|]. auto. Qed.

Lemma good_calm x : good kernel_vma_byte x → Z.testbit (cpu_eflags x) flags_if_bit = true → calm x.
Proof.
  intros (rs & bs & C & G & W & Hs & Hm & (c & Ec & Hd & _)) Hif. exists rs, bs, C, G, W, c. split_and!; try done.
  intros Hp. destruct (mi_entry _ _ _ _ Hm (current x)) as [Hf _]; [eauto|done|]. unfold flags_of in Hf. rewrite decide_True in Hf by done. congruence.
Qed.

(** Flags and frames that do not concern mutexes. *)
Lemma calm_cpu x f fs : calm x → 0 ≤ f < W32 → Forall frame_ok fs → strip fs = strip (cpu_frames x) → calm (set_cpu f fs x).
Proof.
  intros (rs & bs & C & G & W & c & Hs & Hm & Ec & Hd & Hp) Hf Hfs Hst. exists rs, bs, C, G, W, c.
  split; [by apply sinv_frames|]. split; [by apply minv_neutral|]. done.
Qed.

Lemma calm_flags x : calm x → 0 ≤ cpu_eflags x < W32 ∧ Forall frame_ok (cpu_frames x).
Proof. intros (rs & bs & C & G & W & c & Hs & _). split; [apply (si_flags _ _ _ _ _ Hs)|apply (si_frames _ _ _ _ _ Hs)]. Qed.

Lemma calm_good x fs : calm x → cpu_frames x = FCallYield :: fs → good kernel_vma_byte x.
Proof.
  intros (rs & bs & C & G & W & c & Hs & Hm & Ec & Hd & _) Ef. exists rs, bs, C, G, W. split; [done|]. split; [done|].
  exists c. split; [done|]. split; [done|]. intros _. by rewrite Ef.
Qed.

Lemma calm_wake x t : calm x → alive x t → ∃ x', thread_wake t x = Ret tt x' ∧ calm x' ∧ same_run x x'.
Proof.
  intros (rs & bs & C & G & W & c & Hs & Hm & Ec & Hd & Hp) (th & Et & Hnd).
  pose proof (rep_cores _ _ _ _ (si_rep _ _ _ _ _ Hs)) as HC.
  assert (Et' : C !! t = Some (core th)) by (rewrite <- HC, cores_lookup, Et; done).
  destruct (wake_sinv kernel_vma_byte x rs bs C t (core th) Hs Et' Hnd) as (x' & rs' & bs' & C' & E & Hs' & R & Hal & Hun & Hsame & Hrun).
  exists x'. split; [exact E|]. pose proof (rest_current _ _ R) as Hcur.
  assert (Hlive : ∀ q cq, C !! q = Some cq → state cq ≠ thread_dead → ∃ cq', C' !! q = Some cq' ∧ state cq' ≠ thread_dead).
  { intros q cq Eq Hq. destruct (decide (q = t)) as [->|Hne]; [|exists cq; by rewrite Hsame].
    destruct (alike_lookup _ _ _ _ Hal Eq) as (c' & Ec' & _). exists c'. by rewrite (Hrun c' Ec'). }
  split.
  - destruct (Hlive _ _ Ec Hd) as (c' & Ec' & Hd'). exists rs', bs', C', G, W, c'. split; [done|]. split; [|by rewrite Hcur].
    eapply minv_quiet; [exact Hm|by apply quiet_rest|by left].
  - split; [by apply rest_eflags|]. split; [by apply rest_frames|]. split; [done|]. intros q (tq & Eq & Hq).
    destruct (Hlive q (core tq)) as (c' & Ec' & Hd'); [by rewrite <- HC, cores_lookup, Eq|done|].
    destruct (rep_thread _ _ _ _ _ _ (si_rep _ _ _ _ _ Hs') Ec') as (tq' & Eq' & <-). by exists tq'.
Qed.

Lemma calm_ticks x n : calm x → calm (set_ticks n x).
Proof.
  intros (rs & bs & C & G & W & c & Hs & Hm & Ec & Hd & Hp). exists rs, bs, C, G, W, c. split; [|split; [|done]].
  - eapply sinv_relink; [exact Hs|by destruct (si_rep _ _ _ _ _ Hs)|done|done|done|exact (si_flags _ _ _ _ _ Hs)|exact (si_frames _ _ _ _ _ Hs)].
  - eapply minv_quiet; [exact Hm|by apply quiet_stay; [|apply undead_refl|..]|by left].
Qed.

(** A driver's fast handler ends, and leaves the machine as it has to be in an
    interrupt; the thread it may leave work to is there. *)
Definition driver_ok (x0 : sys) (regs : registers) (d : hal_irq_handler) : Prop :=
  (hh_thread d = NULL ∨ alive x0 (hh_thread d)) ∧
  ∀ x, calm x → ∃ r x', fast_handler (hh_fast_handler d) (hh_irq d) regs (hh_data d) x = Ret r x' ∧ calm x' ∧ same_run x x'.

Lemma run_drivers_calm x0 ds regs x : Forall (driver_ok x0 regs) ds → (∀ t, alive x0 t → alive x t) → calm x →
  ∃ r t x', run_drivers ds regs x = Ret (r, t) x' ∧ calm x' ∧ same_run x x' ∧ (t = NULL ∨ alive x' t).
Proof.
  intros Hds. revert x. induction Hds as [|d ds [Ht Hd] Hds IH]; intros x Hal Hc; cbn [run_drivers].
  - exists IRQ_PASS, NULL, x. split; [done|]. split; [done|]. split; [apply same_run_refl|by left].
  - destruct (Hd x Hc) as (r & x1 & E1 & Hc1 & Hr1). step E1. destruct (r =? IRQ_PASS) eqn:Er; cbn [negb].
    + destruct (IH x1) as (r' & t & x' & E' & Hc' & Hr' & Ht'); [|done|].
      { intros t Htx. apply Hr1, Hal, Htx. }
      exists r', t, x'. split; [done|]. split; [done|]. split; [by eapply same_run_trans|done].
    + exists r, (hh_thread d), x1. split; [done|]. split; [done|]. split; [done|]. destruct Ht as [->|Ht]; [by left|]. right. apply Hr1, Hal, Ht.
Qed.

Lemma hal_serve_calm x0 ds regs x : Forall (driver_ok x0 regs) ds → (∀ t, alive x0 t → alive x t) → calm x →
  ∃ b x', hal_serve ds regs x = Ret b x' ∧ calm x' ∧ same_run x x'.
Proof.
  intros Hds Hal Hc. destruct (run_drivers_calm x0 ds regs x Hds Hal Hc) as (r & t & x1 & E1 & Hc1 & Hr1 & Ht).
  unfold hal_serve. step E1. destruct ((r =? IRQ_DEFER) && negb (t =? NULL)) eqn:Ed.
  - apply andb_prop in Ed as [_ Hn]. apply negb_true_iff, Z.eqb_neq in Hn. destruct Ht as [?|Ht]; [done|].
    destruct (calm_wake x1 t Hc1 Ht) as (x2 & E2 & Hc2 & Hr2). step E2. eexists _, x2. split; [done|]. split; [done|]. by eapply same_run_trans.
  - step (ret_ok tt x1). by eexists _, x1.
Qed.

(** The machine in a handler: what the [iret] needs is on the stack, interrupts are on again. *)
Definition in_isr (x : sys) : sys := set_cpu (cpu_eflags x) (FIsr (cpu_eflags x) :: cpu_frames x) x.
(** At the end, outermost and nested. *)
Definition isr_done (f : Z) (fs : list frame) (nesting : Z) (x : sys) : sys :=
  if nesting =? 0 then set_cpu f (FCallYield :: FIsr f :: fs) x else set_cpu (Z.clearbit f flags_if_bit) (FIsr f :: fs) x.

Lemma set_clear_if f : Z.testbit f flags_if_bit = true → Z.setbit (Z.clearbit f flags_if_bit) flags_if_bit = f.
Proof.
  intros Hf. apply Z.bits_inj'. intros k Hk. rewrite Z.setbit_eqb, Z.clearbit_eqb by done.
  destruct (Z.eqb_spec flags_if_bit k) as [<-|]; [by rewrite Hf|]. cbn [orb negb]. by rewrite andb_true_r.
Qed.

Definition eoi_register (s : S) : Z := u32 ((apic_get_base (_apic_base_msr (i_apic s))).1 + APIC_REG_EOI).

Lemma isr_entry_ok s regs : Z.testbit (cpu_eflags (machine s)) flags_if_bit = true →
  take_interrupt (interrupts_ioapic_irq_handler regs) s =
    interrupts_handler regs (set_apic (set_mmio (MWrite (eoi_register s) 0 :: mmio (i_apic s)) (i_apic s))
      (with_sys (set_cpu (Z.clearbit (cpu_eflags (machine s)) flags_if_bit) (FIsr (cpu_eflags (machine s)) :: cpu_frames (machine s)) (machine s)) s)).
Proof.
  intros Hif. unfold take_interrupt. set (x0 := set_cpu _ _ (machine s)).
  assert (E : (s0 ← get; if Z.testbit (cpu_eflags s0) flags_if_bit then push (FIsr (cpu_eflags s0));; interrupts_disable else fault)
    (machine s) = Ret tt x0) by (rewrite bind_get, Hif; done).
  step (on_machine_ok _ s tt x0 E). unfold interrupts_ioapic_irq_handler.
  assert (Ee : on_apic apic_eoi (with_sys x0 s) = Ret tt (set_apic (set_mmio (MWrite (eoi_register s) 0 :: mmio (i_apic s)) (i_apic s)) (with_sys x0 s))) by done.
  by step Ee.
Qed.

Lemma handler_ok s A B v regs p h f fs b x1 :
  irq_rep s A B → 0 ≤ v < 256 → v ≠ 128 → r_int_no regs = v → kernel_vma_byte ≤ r_eip regs →
  A (Z.to_nat v) = [(p, h)] → ih_handler h = hal_x86_fast_irq_handler_addr →
  0 ≤ _interrupt_nesting s < 2147483647 →
  Z.testbit f flags_if_bit = true → cpu_eflags (machine s) = Z.clearbit f flags_if_bit → cpu_frames (machine s) = FIsr f :: fs →
  hal_serve (B (Z.to_nat v)).*2 regs (set_cpu f (FIsr f :: fs) (machine s)) = Ret b x1 →
  cpu_eflags x1 = f → cpu_frames x1 = FIsr f :: fs →
  interrupts_handler regs s =
    if b then Ret regs (with_sys (isr_done f fs (_interrupt_nesting s) x1) s) else Panic "halted".
Proof.
  intros Hi Hv Hv8 Hno Heip HA Hh Hk Hif Hf Hfs E Ef1 Efs1. unfold interrupts_handler. rewrite Hno, (proj2 (Z.eqb_neq v 128)) by done. cbn [negb].
  unfold interrupts_cpu_enter at 1. rewrite bind_modify. rewrite (s32_small (_interrupt_nesting s + 1)) by lia.
  set (s1 := set_nesting _ s). rewrite (proj2 (Z.ltb_ge (r_eip regs) kernel_vma_byte)) by done.
  assert (Een : interrupts_enable (machine s1) = Ret tt (set_cpu f (FIsr f :: fs) (machine s1))).
  { unfold interrupts_enable, modify. cbn [eflags set_eflags sys_cpu]. change (machine s1) with (machine s).
    by rewrite Hf, Hfs, set_clear_if. }
  step (on_machine_ok _ s1 tt _ Een). set (s2 := with_sys _ s1).
  assert (Esv : serve (A (Z.to_nat v)).*2 (B (Z.to_nat v)).*2 regs (machine s2) = Ret (b, regs) x1).
  { rewrite HA. cbn [fmap list_fmap snd serve]. rewrite Hh, Z.eqb_refl. change (machine s2) with (set_cpu f (FIsr f :: fs) (machine s)).
    rewrite bind_assoc, (bind_ret _ _ _ _ _ E). rewrite (bind_ret _ _ _ _ _ (ret_ok (b, regs) x1)). by destruct b. }
  assert (Hi2 : irq_rep s2 A B) by by destruct Hi.
  step (dispatch_ok A B v regs s2 b regs x1 Hi2 Hv Esv). destruct b; [|done]. rewrite (bind_ret _ _ _ _ _ (ret_ok tt _)).
  set (s3 := with_sys x1 s2). set (x4 := set_cpu (Z.clearbit f flags_if_bit) (FIsr f :: fs) x1).
  assert (Edi : interrupts_disable (machine s3) = Ret tt x4) by (unfold interrupts_disable, modify; cbn; by rewrite Ef1, Efs1).
  step (on_machine_ok _ s3 tt x4 Edi). rewrite Hno, (proj2 (Z.eqb_neq v 128)) by done. cbn [negb].
  unfold interrupts_cpu_leave. rewrite bind_modify. cbn [_interrupt_nesting set_nesting with_sys set_k s3 s2 s1].
  replace (_interrupt_nesting s + 1 - 1) with (_interrupt_nesting s) by lia. rewrite s32_small by lia.
  set (s5 := set_nesting _ _). assert (Es5 : s5 = with_sys x4 s) by (by destruct s as [? ? ? ? ? ? ? ? []]).
  rewrite Es5. unfold interrupts_cpu_in_nested_isr. rewrite bind_assoc, bind_get, (bind_ret _ _ _ _ _ (ret_ok _ _)).
  change (_interrupt_nesting (with_sys x4 s)) with (_interrupt_nesting s). unfold isr_done.
  destruct (_interrupt_nesting s =? 0); cbn [negb]; [|by step (ret_ok tt (with_sys x4 s))].
  assert (Ee2 : interrupts_enable x4 = Ret tt (set_cpu f (FIsr f :: fs) x1)) by (unfold interrupts_enable, modify; cbn; by rewrite set_clear_if).
  step (on_machine_ok _ (with_sys x4 s) tt _ Ee2). rewrite with_sys_with.
  by step (on_machine_ok (push FCallYield) (with_sys (set_cpu f (FIsr f :: fs) x1) s) tt (set_cpu f (FCallYield :: FIsr f :: fs) x1) eq_refl).
Qed.

Lemma isr_done_calm f fs n x : calm x → cpu_frames x = FIsr f :: fs → 0 ≤ f < W32 →
  calm (isr_done f fs n x) ∧ (n = 0 → good kernel_vma_byte (isr_done f fs n x)).
Proof.
  intros Hc Hfs Hf. destruct (calm_flags x Hc) as [_ Hok]. rewrite Hfs in Hok. unfold isr_done. destruct (Z.eqb_spec n 0) as [->|Hn].
  - assert (Hc' : calm (set_cpu f (FCallYield :: FIsr f :: fs) x)).
    { apply calm_cpu; [done|done|by constructor|]. by rewrite Hfs, strip_cons_neutral. }
    split; [done|]. intros _. by eapply calm_good.
  - split; [|done]. apply calm_cpu; [done| |done|by rewrite Hfs].
    apply word_bound. intros k Hk. rewrite Z.clearbit_eqb, word_high by lia. done.
Qed.

(** C4: an interrupt at a vector the HAL serves is handled as the lists say.
    The end of the interrupt is sent to the local APIC, the fast handlers of
    the drivers run, the one installed last first, up to the first that does
    not pass, whose thread is woken if it defers; if all pass the kernel halts.
    The lists and the count of nested interrupts are as before.  The machine
    keeps its invariant, and the interrupted thread yields exactly if this is
    the outermost interrupt.  When the drivers only count [n] ticks, this is the
    step [interrupt n] of the machine for which mutual exclusion is shown. *)
Theorem interrupt_served s A B v regs p h :
  irq_rep s A B → 0 ≤ v < 256 → v ≠ 128 → r_int_no regs = v → kernel_vma_byte ≤ r_eip regs →
  A (Z.to_nat v) = [(p, h)] → ih_handler h = hal_x86_fast_irq_handler_addr →
  Forall (driver_ok (machine s) regs) (B (Z.to_nat v)).*2 →
  calm (machine s) → Z.testbit (cpu_eflags (machine s)) flags_if_bit = true → 0 ≤ _interrupt_nesting s < 2147483647 →
  ∃ b x1, hal_serve (B (Z.to_nat v)).*2 regs (in_isr (machine s)) = Ret b x1 ∧ calm x1 ∧
    if b then
      ∃ s', take_interrupt (interrupts_ioapic_irq_handler regs) s = Ret regs s' ∧
        irq_rep s' A B ∧ _interrupt_nesting s' = _interrupt_nesting s ∧
        mmio (i_apic s') = MWrite (eoi_register s) 0 :: mmio (i_apic s) ∧
        machine s' = isr_done (cpu_eflags (machine s)) (cpu_frames (machine s)) (_interrupt_nesting s) x1 ∧
        calm (machine s') ∧ (_interrupt_nesting s = 0 → good kernel_vma_byte (machine s')) ∧
        (∀ n : nat, _interrupt_nesting s = 0 → x1 = set_ticks (ticks_since_boot (machine s) + Z.of_nat n) (in_isr (machine s)) →
          interrupt n (machine s) = Ret tt (machine s'))
    else take_interrupt (interrupts_ioapic_irq_handler regs) s = Panic "halted".
Proof.
  intros Hi Hv Hv8 Hno Heip HA Hh Hds Hc Hif Hk. set (f := cpu_eflags (machine s)) in *. set (fs := cpu_frames (machine s)).
  destruct (calm_flags _ Hc) as [Hfw Hfok]. fold f in Hfw. fold fs in Hfok.
  assert (Hin : calm (in_isr (machine s))).
  { apply calm_cpu; [done|done|by constructor|]. by rewrite strip_cons_neutral. }
  destruct (hal_serve_calm (machine s) _ regs (in_isr (machine s)) Hds (λ t Ht, Ht) Hin) as (b & x1 & E & Hc1 & Hf1 & Hfs1 & Hcur1 & _).
  exists b, x1. split; [done|]. split; [done|].
  rewrite (isr_entry_ok s regs Hif). fold f fs. set (a1 := set_mmio _ (i_apic s)). set (x0 := set_cpu (Z.clearbit f flags_if_bit) _ (machine s)).
  set (s1 := set_apic a1 (with_sys x0 s)). assert (Hi1 : irq_rep s1 A B) by by destruct Hi.
  assert (Hh1 : interrupts_handler regs s1 = if b then Ret regs (with_sys (isr_done f fs (_interrupt_nesting s) x1) s1) else Panic "halted").
  { by apply (handler_ok s1 A B v regs p h f fs b x1). }
  rewrite Hh1. destruct b; [|done]. eexists. split; [done|]. destruct (isr_done_calm f fs (_interrupt_nesting s) x1 Hc1 Hfs1 Hfw) as [Hcd Hgd].
  split; [by destruct Hi1|]. split; [done|]. split; [done|]. split; [done|]. split; [done|]. split; [done|].
  intros n Hn ->. unfold isr_done. rewrite Hn. cbn [Z.eqb]. unfold interrupt. rewrite bind_get. fold f. by rewrite Hif.
Qed.

(** ** Installing handlers *)

Abbreviation lay s := (play (pages (i_apic s))).

Record irq_inv (s : S) (A : nat → list (Z * interrupt_handler)) (B : nat → list (Z * hal_irq_handler)) (F : list Z) : Prop := {
  ii_rep : irq_rep s A B;
  ii_free : ll_rep (ih_heap s) (_free_handlers s) F;
  ii_disj : ∀ p, p ∈ F → tab_free 256 A p;
  ii_below : ∀ p, is_Some (ih_heap s !! p) → p < memory_start (lay s);
  ii_lay : 0 < memory_start (lay s) ∧ memory_end (lay s) < W32
}.

(** What installing a handler leaves alone: all but the handlers and the static break. *)
Definition same_but_handlers (s s' : S) : Prop :=
  i_k s' = i_k s ∧ _interrupt_nesting s' = _interrupt_nesting s ∧ _hal_irq_handlers s' = _hal_irq_handlers s ∧ hh_heap s' = hh_heap s ∧
  ∃ l, i_apic s' = set_pages (set_play l (pages (i_apic s))) (i_apic s) ∧ lay_grows 31 (lay s) l.

(** A struct that is on no list: a free one, or new static memory. *)
Lemma handler_alloc_ok s A B F : irq_inv s A B F → memory_start (lay s) + 31 ≤ memory_end (lay s) →
  ∃ p s', interrupts_handler_alloc s = Ret p s' ∧ p ≠ NULL ∧ is_Some (ih_heap s' !! p) ∧ tab_free 256 A p ∧ p ∉ tail F ∧
    irq_inv s' A B (tail F) ∧ handlers s' = handlers s ∧ same_but_handlers s s'.
Proof.
  intros [Hi Hf Hd Hb [Hl0 Hl1]] Hroom. unfold interrupts_handler_alloc. rewrite bind_get. destruct F as [|p F].
  - cbn in Hf. rewrite Hf, Z.eqb_refl. destruct (align_address_bounds (memory_start (lay s)) 16) as [Hal _]; [by exists 4|lia|lia|].
    pose proof (kalloc_static_ok (lay s) 16 16 ltac:(done) ltac:(done) ltac:(lia) ltac:(lia) ltac:(unfold static_room; lia)) as E.
    set (a := align_address (memory_start (lay s)) 16) in *. cbv zeta in E.
    set (l' := Layout (segment_start (lay s)) (a + 16) (memory_end (lay s))) in *.
    set (s1 := set_apic (set_pages (set_play l' (pages (i_apic s))) (i_apic s)) s).
    step (zoom_ret i_apic set_apic _ s _ _ (zoom_ret pages set_pages _ (i_apic s) _ _ (zoom_ret play set_play _ (pages (i_apic s)) _ _ E))).
    fold s1. step (assert_ok (negb (a =? NULL)) "handler" s1 ltac:(apply negb_true_iff, Z.eqb_neq; unfold NULL; lia)).
    assert (Hnew : ih_heap s !! a = None).
    { destruct (ih_heap s !! a) eqn:Ea; [|done]. pose proof (Hb a ltac:(eauto)). lia. }
    assert (Hfree : tab_free 256 A a) by (rewrite <- (ir_len _ _ _ Hi); by apply (tab_in_heap ih_int_no (ih_heap s)); [apply Hi|]).
    exists a, (set_ih_heap (<[a := junk_ih a]> (ih_heap s)) s1). split; [done|]. split; [unfold NULL; lia|].
    split; [cbn; rewrite lookup_insert_eq; by eexists|]. split; [done|]. split; [apply not_elem_of_nil|].
    split; [split|split; [done|]]; cbn.
    + destruct Hi as [A1 A2 A3 A4]. split; [done|done| |done]. cbn. apply tab_write; [done|by rewrite A1].
    + done.
    + intros q ?%elem_of_nil. done.
    + intros q [x [[<- _]|[_ Ex]]%lookup_insert_Some]; [lia|]. pose proof (Hb q ltac:(eauto)). lia.
    + lia.
    + split_and!; try done. exists l'. split; [done|]. unfold lay_grows. cbn. lia.
  - destruct Hf as (Ep & Hp & n & En & Hf). rewrite Ep, (proj2 (Z.eqb_neq p NULL)) by done.
    assert (E : LL_DELETE p p (ih_heap s) = Ret (ih_next n) (ih_heap s)).
    { unfold LL_DELETE. rewrite Z.eqb_refl. by step (load_ok _ _ _ En). }
    step (zoom_ret ih_heap set_ih_heap _ s _ _ E). rewrite bind_modify. eexists p, _. split; [done|]. split; [done|]. split; [by eexists|].
    assert (Hnd : p ∉ F).
    { assert (ll_rep (ih_heap s) p (p :: F)) as Hr by (cbn; eauto). apply ll_rep_nodup in Hr. by apply (NoDup_split [] F p). }
    split; [apply Hd; by left|]. split; [done|]. split; [split|split; [done|]]; cbn.
    + by destruct Hi.
    + done.
    + intros q Hq. apply Hd. by right.
    + done.
    + done.
    + split_and!; try done. exists (lay s). split; [by destruct s as [? ? ? ? ? ? [? ? ? ? ? []]]|apply lay_grows_refl; lia].
Qed.

Lemma install_handler_ok s A B F v fn data : irq_inv s A B F → 0 ≤ v < 256 → memory_start (lay s) + 31 ≤ memory_end (lay s) →
  ∃ p s', interrupts_install_handler v fn data s = Ret p s' ∧ p ≠ NULL ∧
    irq_inv s' (<[Z.to_nat v := (p, IHandler v 0 fn data) :: A (Z.to_nat v)]> A) B (tail F) ∧ same_but_handlers s s'.
Proof.
  intros Hinv Hv Hroom. unfold interrupts_install_handler.
  step (assert_ok (v <? MAX_INTERRUPTS) "int_no < MAX_INTERRUPTS" s (proj2 (Z.ltb_lt v MAX_INTERRUPTS) (proj2 Hv))).
  destruct (handler_alloc_ok s A B F Hinv Hroom) as (p & s1 & E1 & Hp & [n En] & Hfree & HpF & [Hi Hf Hd Hb Hl] & Hhs & Hsame). step E1.
  set (n1 := IHandler v (ih_next n) fn data). set (h1 := <[p := n1]> (ih_heap s1)).
  step (zoom_ret ih_heap set_ih_heap _ s1 _ _ (update_ok (ih_heap s1) p n (λ n, IHandler v (ih_next n) fn data) En)).
  fold n1 h1. set (s2 := set_ih_heap h1 s1). rewrite bind_get.
  destruct (vector_head _ v (ir_len _ _ _ Hi) Hv) as [hd Ehd]. step (head_at_ok (handlers s2) v hd s2 Ehd).
  assert (Ht1 : tab_rep ih_int_no h1 (handlers s1) A) by (apply tab_write; [apply Hi|by rewrite (ir_len _ _ _ Hi)]).
  destruct (tab_prepend ih_int_no h1 (handlers s1) A (Z.to_nat v) hd p n1 (IHandler v 0 fn data)) as (h' & E & Hlk & Ht');
    [done|done|done|by rewrite (ir_len _ _ _ Hi)|apply lookup_insert_eq|done|cbn; lia|].
  step (zoom_ret ih_heap set_ih_heap _ s2 _ _ E). rewrite bind_modify. eexists p, _. split; [done|]. split; [done|]. split; [|by destruct Hsame as (? & ? & ? & ? & ?)].
  split; cbn.
  - destruct Hi as [A1 A2 A3 A4]. split; cbn; [by rewrite length_insert|done|done|done].
  - eapply ll_rep_frame; [|exact Hf]. intros q Hq. rewrite (proj1 (Hlk q)) by (intros ->%list_elem_of_singleton; done).
    unfold h1. rewrite lookup_insert_ne; [done|]. by intros ->.
  - intros q Hq w Hw. destruct (decide (w = Z.to_nat v)) as [->|Hne]; [rewrite fn_lookup_insert|rewrite fn_lookup_insert_ne by done; by apply Hd].
    cbn. apply not_elem_of_cons. split; [by intros ->|by apply Hd].
  - intros q [x Ex]. apply Hb. pose proof (proj2 (Hlk q)) as Hq. rewrite Ex in Hq. unfold h1 in Hq.
    destruct (decide (q = p)) as [->|Hne]; [by eexists|]. rewrite lookup_insert_ne in Hq by done. destruct (ih_heap s1 !! q); [by eexists|done].
  - done.
Qed.

(** Taking a node off the list of its vector. *)
Lemma delete_handler_ok s A B F v l1 p d l2 : irq_inv s A B F → 0 ≤ v < 256 → A (Z.to_nat v) = l1 ++ (p, d) :: l2 →
  ∃ hd hd' h', head_at (handlers s) v s = Ret hd s ∧ on_ih (LL_DELETE hd p) s = Ret hd' (set_ih_heap h' s) ∧
    (∀ q, ll_data <$> h' !! q = ll_data <$> ih_heap s !! q) ∧ tab_free 256 (<[Z.to_nat v := l1 ++ l2]> A) p ∧
    irq_inv (set_handlers (<[Z.to_nat v := hd']> (handlers s)) (set_ih_heap h' s)) (<[Z.to_nat v := l1 ++ l2]> A) B F.
Proof.
  intros [Hi Hf Hd Hb Hl] Hv EA. destruct (vector_head _ v (ir_len _ _ _ Hi) Hv) as [hd Ehd].
  destruct (tab_delete ih_int_no (ih_heap s) (handlers s) A (Z.to_nat v) hd l1 p d l2 (ir_tab _ _ _ Hi) Ehd EA) as (hd' & h' & E & Hlk & Ht').
  exists hd, hd', h'. split; [by apply head_at_ok|]. split; [exact (zoom_ret ih_heap set_ih_heap _ s _ _ E)|]. split; [intros q; apply Hlk|].
  assert (Hsub : ∀ w q, q ∈ (<[Z.to_nat v := l1 ++ l2]> A w).*1 → q ∈ (A w).*1).
  { intros w q. destruct (decide (w = Z.to_nat v)) as [->|Hne]; [|by rewrite fn_lookup_insert_ne]. rewrite fn_lookup_insert, EA, !fmap_app. cbn. rewrite !elem_of_app, elem_of_cons. tauto. }
  split; [|split; cbn].
  - intros w Hw Hin. destruct (decide (w = Z.to_nat v)) as [->|Hne].
    + rewrite fn_lookup_insert, fmap_app in Hin. destruct (ir_tab _ _ _ Hi _ _ Ehd) as [Hr _]. rewrite EA, fmap_app in Hr. cbn in Hr.
      apply ll_rep_nodup, NoDup_split in Hr as (N1 & N2 & _). apply elem_of_app in Hin as [Hin|Hin]; done.
    + rewrite fn_lookup_insert_ne in Hin by done. rewrite <- (ir_len _ _ _ Hi) in Hw. apply lookup_lt_is_Some in Hw as [hw Ew].
      apply (tab_disjoint ih_int_no (ih_heap s) (handlers s) A (Z.to_nat v) w hd hw p (ir_tab _ _ _ Hi) Ehd Ew (not_eq_sym Hne)); [|done].
      rewrite EA, fmap_app. apply elem_of_app. right. by left.
  - destruct Hi as [A1 A2 A3 A4]. split; cbn; [by rewrite length_insert|done|done|done].
  - eapply ll_rep_frame_links; [exact Hlk| |exact Hf]. intros q Hq Hin. apply (Hd q Hq (Z.to_nat v)); [lia|]. rewrite EA, fmap_app. apply elem_of_app. by left.
  - intros q Hq w Hw Hin. by apply (Hd q Hq w Hw), Hsub.
  - intros q [x Ex]. apply Hb. pose proof (proj2 (Hlk q)) as Hq. rewrite Ex in Hq. destruct (ih_heap s !! q); [by eexists|done].
  - done.
Qed.

(** [interrupts_uninstall_handler] removes the handler; its struct is then on no list and is not used again. *)
Lemma uninstall_handler_ok s A B F v l1 p d l2 : irq_inv s A B F → 0 ≤ v < 256 → A (Z.to_nat v) = l1 ++ (p, d) :: l2 →
  ∃ s', interrupts_uninstall_handler p s = Ret tt s' ∧ irq_inv s' (<[Z.to_nat v := l1 ++ l2]> A) B F ∧
    tab_free 256 (<[Z.to_nat v := l1 ++ l2]> A) p ∧ p ∉ F.
Proof.
  intros Hinv Hv EA. pose proof Hinv as [Hi _ Hd _ _]. destruct (vector_head _ v (ir_len _ _ _ Hi) Hv) as [hd0 Ehd].
  destruct (tab_node ih_int_no (ih_heap s) (handlers s) A (Z.to_nat v) hd0 p d (ir_tab _ _ _ Hi) Ehd) as (_ & n & En & Hn & Hk);
    [rewrite EA; apply elem_of_app; right; by left|].
  assert (Hno : ih_int_no n = v) by (rewrite <- Hn in Hk; cbn in Hk; lia).
  destruct (delete_handler_ok s A B F v l1 p d l2 Hinv Hv EA) as (hd & hd' & h' & E1 & E2 & _ & Hfree & Hinv').
  unfold interrupts_uninstall_handler. step (on_ih_load p n s En). rewrite bind_get, Hno. step E1. step E2. eexists. split; [done|].
  split; [exact Hinv'|]. split; [done|]. intros Hin. apply (Hd p Hin (Z.to_nat v)); [lia|]. rewrite EA, fmap_app. apply elem_of_app. right. by left.
Qed.

Lemma handler_free_ok s A B F p n : irq_inv s A B F → p ≠ NULL → tab_free 256 A p → p ∉ F → ih_heap s !! p = Some n →
  ∃ s', interrupts_handler_free p s = Ret tt s' ∧ irq_inv s' A B (p :: F).
Proof.
  intros [Hi Hf Hd Hb Hl] Hp Hfree HpF En. destruct (LL_PREPEND_spec (ih_heap s) _ F p n Hf Hp HpF En) as (h' & E & Hr & Hlk).
  unfold interrupts_handler_free. rewrite bind_get. step (zoom_ret ih_heap set_ih_heap _ s _ _ E). eexists. split; [done|].
  split; cbn; [|done| | |done].
  - destruct Hi as [A1 A2 A3 A4]. split; try done. cbn. intros v hd Ev. destruct (A3 v hd Ev) as [Hrv Hdv]. split.
    + eapply ll_rep_frame_links; [exact Hlk| |exact Hrv]. intros q Hq ->%list_elem_of_singleton. apply (Hfree v); [|done].
      rewrite <- A1. by eapply lookup_lt_Some.
    + intros q d Hin. rewrite (proj2 (Hlk q)). by apply Hdv.
  - intros q [->|Hq]%elem_of_cons; [done|by apply Hd].
  - intros q [x Ex]. apply Hb. pose proof (proj2 (Hlk q)) as Hq. rewrite Ex in Hq. destruct (ih_heap s !! q); [by eexists|done].
Qed.

(** [interrupts_uninstall_handler_func] removes the first handler with the
    function, whose struct becomes a free one; without one nothing changes. *)
Lemma uninstall_func_ok s A B F v fn : irq_inv s A B F → 0 ≤ v < 256 →
  ∃ s', interrupts_uninstall_handler_func v fn s = Ret tt s' ∧
    ((Forall (λ e, ih_handler e.2 ≠ fn) (A (Z.to_nat v)) ∧ s' = s) ∨
     ∃ l1 p d l2, A (Z.to_nat v) = l1 ++ (p, d) :: l2 ∧ Forall (λ e, ih_handler e.2 ≠ fn) l1 ∧ ih_handler d = fn ∧
       irq_inv s' (<[Z.to_nat v := l1 ++ l2]> A) B (p :: F)).
Proof.
  intros Hinv Hv. pose proof Hinv as [Hi _ Hd _ _]. destruct (vector_head _ v (ir_len _ _ _ Hi) Hv) as [hd Ehd].
  unfold interrupts_uninstall_handler_func. rewrite bind_get. step (head_at_ok _ v hd s Ehd).
  assert (Ef : on_ih fuel_of_heap s = Ret (Datatypes.S (size (ih_heap s))) s) by (by destruct s). step Ef.
  destruct (tab_nodes _ _ _ _ _ _ (ir_tab _ _ _ Hi) Ehd) as [Hn Hfu]. generalize dependent (Datatypes.S (size (ih_heap s))). intros fuel _ Hfu.
  assert (Hloop : ∀ ds l1 q, A (Z.to_nat v) = l1 ++ ds → Forall (λ e, ih_handler e.2 ≠ fn) l1 → nodes (ih_heap s) q ds → (length ds < fuel)%nat →
    ∃ s', uninstall_loop fuel v fn q s = Ret tt s' ∧
      ((Forall (λ e, ih_handler e.2 ≠ fn) (A (Z.to_nat v)) ∧ s' = s) ∨
       ∃ l1 p d l2, A (Z.to_nat v) = l1 ++ (p, d) :: l2 ∧ Forall (λ e, ih_handler e.2 ≠ fn) l1 ∧ ih_handler d = fn ∧
         irq_inv s' (<[Z.to_nat v := l1 ++ l2]> A) B (p :: F))); [|by apply (Hloop (A (Z.to_nat v)) [])].
  clear Hfu Hn. induction fuel as [|fuel IH]; intros ds l1 q EA Hl1 Hn Hfu; [lia|]. destruct ds as [|[p d] ds]; cbn [uninstall_loop].
  - destruct Hn as [-> _]. exists s. split; [done|]. left. split; [|done]. rewrite EA. by rewrite app_nil_r.
  - destruct (nodes_cons _ _ _ _ _ Hn) as (-> & Hp & n & En & Hnd & Hn'). rewrite (proj2 (Z.eqb_neq p NULL)) by done. step (on_ih_load p n s En).
    assert (Hh : ih_handler n = ih_handler d) by (by rewrite <- Hnd). rewrite Hh. destruct (Z.eqb_spec (ih_handler d) fn) as [Efn|Efn].
    + rewrite bind_get. destruct (delete_handler_ok s A B F v l1 p d ds Hinv Hv EA) as (hd1 & hd' & h' & E1 & E2 & Hdat & Hfree & Hinv').
      step E1. step E2. rewrite bind_modify. pose proof (Hdat p) as Hdp. rewrite En in Hdp. destruct (h' !! p) as [n'|] eqn:En'; [|done].
      destruct (handler_free_ok _ _ B F p n' Hinv' Hp Hfree) as (s' & E3 & Hinv''); [|exact En'|].
      { intros Hin. apply (Hd p Hin (Z.to_nat v)); [lia|]. rewrite EA, fmap_app. apply elem_of_app. right. by left. }
      exists s'. split; [exact E3|]. right. by exists l1, p, d, ds.
    + apply (IH ds (l1 ++ [(p, d)]) (ih_next n)); [by rewrite <- app_assoc|by apply Forall_app; split; [|constructor]|done|simpl in Hfu; lia].
Qed.

Context `{!CpuLaws H, !KheapLaws H}.
#[local] Set Default Proof Using "Type*".

(** What installing a driver's handler needs: room for the structs, and the
    threads of the machine, with their invariant. *)
Record hal_pre (n : nat) (s : S) (L : gmap Z Z) : Prop := {
  hp_room : memory_start (lay s) + 31 ≤ memory_end (lay s);
  hp_live : k_live (6 + n) (k_heap (i_k s)) L;
  hp_hh : ∀ p, is_Some (hh_heap s !! p) → p ≠ NULL ∧ is_Some (L !! p);
  hp_threads : ∀ p, is_Some (threads (machine s) !! p) → is_Some (L !! p);
  hp_good : good kernel_vma_byte (machine s);
  hp_next : 0 ≤ _next_tid (i_k s) < W32 - 1;
  hp_ids : ids_below (_next_tid (i_k s)) (machine s)
}.

Lemma good_flags x : good kernel_vma_byte x → 0 ≤ cpu_eflags x < W32.
Proof. intros (rs & bs & C & G & W & Hs & _). apply (si_flags _ _ _ _ _ Hs). Qed.

Lemma hal_alloc_ok n s A B F L : irq_inv s A B F → hal_pre n s L →
  ∃ p h, hal_x86_irq_handler_alloc s =
      Ret p (let s1 := set_k (KState (machine s) h (_next_tid (i_k s))) s in
             if p =? NULL then s1 else set_hh_heap (<[p := junk_hh p]> (hh_heap s)) s1) ∧
    (p ≠ NULL → L !! p = None ∧ hh_heap s !! p = None ∧ k_live (5 + n) h (<[p := sizeof_hal_irq_handler]> L)).
Proof.
  intros Hi [Hroom Hl Hhh Hth Hg Hnx Hid].
  assert (Hl' : k_live (6 + n) (set_eflags (cpu_eflags (machine s)) (k_heap (i_k s))) L) by (apply k_live_flags; [done|by apply good_flags]).
  destruct (k_alloc_ok (5 + n) _ L sizeof_hal_irq_handler Hl' ltac:(done)) as (p & h & E & Ef & _ & Hp). rewrite eflags_set in Ef.
  exists p, h. split.
  - unfold hal_x86_irq_handler_alloc. step (zoom_ret i_k set_k _ s _ _ (heap_call_ok _ (i_k s) p h E Ef)).
    set (s1 := set_k _ s). destruct (p =? NULL) eqn:Ep; cbn [negb]; [by step (ret_ok tt s1)|done].
  - intros Hn. destruct Hp as [[? _]|(_ & HL & Hk)]; [done|]. split; [done|]. split; [|done].
    destruct (hh_heap s !! p) eqn:Eh; [|done]. destruct (Hhh p ltac:(eauto)) as [_ [z Hz]]. congruence.
Qed.

Lemma irq_inv_k s A B F x : irq_inv s A B F → irq_inv (set_k x s) A B F.
Proof. intros [[] ? ? ? ?]. by split. Qed.

(** A struct of a driver's handler is filled in and put first on the list of its vector. *)
Lemma hal_prepend_ok s A B F v p n d : irq_inv s A B F → 0 ≤ v < 256 → p ≠ NULL → tab_free 256 B p →
  hh_heap s !! p = Some n → ll_data n = d → hh_interrupt_vector d = v →
  ∃ hd hd' h', head_at (_hal_irq_handlers s) v s = Ret hd s ∧ on_hh (LL_PREPEND hd p) s = Ret hd' (set_hh_heap h' s) ∧
    (∀ q, is_Some (h' !! q) → is_Some (hh_heap s !! q)) ∧ (∃ m, h' !! p = Some m ∧ ll_data m = d) ∧
    irq_inv (set_hal_handlers (<[Z.to_nat v := hd']> (_hal_irq_handlers s)) (set_hh_heap h' s)) A (<[Z.to_nat v := (p, d) :: B (Z.to_nat v)]> B) F.
Proof.
  intros [Hi Hf Hd Hb Hl] Hv Hp Hfree En Hn Hk. destruct (vector_head _ v (ir_hal_len _ _ _ Hi) Hv) as [hd Ehd].
  destruct (tab_prepend hh_interrupt_vector (hh_heap s) (_hal_irq_handlers s) B (Z.to_nat v) hd p n d) as (h' & E & Hlk & Ht');
    [apply Hi|done|done|by rewrite (ir_hal_len _ _ _ Hi)|done|done|lia|].
  exists hd, p, h'. split; [by apply head_at_ok|]. split; [exact (zoom_ret hh_heap set_hh_heap _ s _ _ E)|].
  split; [|split]; [| |split; try done; destruct Hi as [A1 A2 A3 A4]; split; cbn; [done|by rewrite length_insert|done|done]].
  - intros q [x Ex]. pose proof (proj2 (Hlk q)) as Hq. rewrite Ex in Hq. destruct (hh_heap s !! q); [by eexists|done].
  - pose proof (proj2 (Hlk p)) as Hq. rewrite En in Hq. destruct (h' !! p) as [m|] eqn:Em; [|done]. exists m. split; [done|].
    assert (ll_data m = ll_data n) as -> by exact (Some_inj _ _ Hq). exact Hn.
Qed.

Lemma install_upstream_ok s A B F irq l : irq_inv s A B F → memory_start (lay s) + 31 ≤ memory_end (lay s) →
  _hal_irqs (i_apic s) !! Z.to_nat irq = Some l → 0 ≤ interrupt_vector l < 256 →
  let v := Z.to_nat (interrupt_vector l) in
  ∃ s' A' F', hal_x86_install_upstream_irq_handler irq s = Ret tt s' ∧ irq_inv s' A' B F' ∧ i_k s' = i_k s ∧
    _interrupt_nesting s' = _interrupt_nesting s ∧
    (if upstream_interrupt_handler l =? NULL
     then ∃ u, u ≠ NULL ∧ A' = <[v := (u, IHandler (interrupt_vector l) 0 hal_x86_fast_irq_handler_addr NULL) :: A v]> A ∧
       _hal_irqs (i_apic s') = <[Z.to_nat irq := HalIrqLine (interrupt_vector l) u]> (_hal_irqs (i_apic s))
     else A' = A ∧ _hal_irqs (i_apic s') = _hal_irqs (i_apic s)).
Proof.
  intros Hi Hroom El Hv v. unfold hal_x86_install_upstream_irq_handler.
  assert (E0 : on_apic (hal_line irq) s = Ret l s) by (unfold on_apic, hal_line, zoom; rewrite El; by destruct s).
  step E0. destruct (upstream_interrupt_handler l =? NULL); [|by exists s, A, F].
  destruct (install_handler_ok s A B F (interrupt_vector l) hal_x86_fast_irq_handler_addr NULL Hi Hv Hroom) as (u & s1 & E1 & Hu & Hi1 & Hs1).
  step E1. destruct Hs1 as (Hk & Hn & _ & _ & l1 & Ha & _). eexists _, _, (tail F). split; [done|]. split; [|split; [exact Hk|split; [exact Hn|]]].
  - destruct Hi1 as [[] ? ? ? ?]. by split.
  - exists u. split; [done|]. split; [done|]. cbn. by rewrite Ha.
Qed.

(** The program of the thread of a driver uses mutexes properly. *)
Definition slow_fits (x : sys) : Prop :=
  kernel_vma_byte ≤ entry_point ∧
  ∀ data, program_fits x (code hal_x86_slow_handler_thread_entry_point_addr data).1 (code hal_x86_slow_handler_thread_entry_point_addr data).2.

(** Starting the thread of a handler that is first on the list of its vector. *)
Lemma start_slow_ok n s A B F L v p d ds : irq_inv s A (<[v := (p, d) :: ds]> B) F → hh_interrupt_vector d = Z.of_nat v → (v < 256)%nat →
  (∃ m, hh_heap s !! p = Some m ∧ ll_data m = d) →
  k_live (5 + n) (k_heap (i_k s)) L → (∀ q, is_Some (threads (machine s) !! q) → is_Some (L !! q)) →
  good kernel_vma_byte (machine s) → 0 ≤ _next_tid (i_k s) < W32 - 1 → ids_below (_next_tid (i_k s)) (machine s) → slow_fits (machine s) →
  frame_fits (i_k s) →
  ∃ t s', hal_x86_start_slow_handler_thread p s = Ret tt s' ∧ irq_inv s' A (<[v := (p, set_hh_thread t d) :: ds]> B) F ∧
    i_apic s' = i_apic s ∧ _interrupt_nesting s' = _interrupt_nesting s ∧ good kernel_vma_byte (machine s') ∧
    (t = NULL ∨ alive (machine s') t ∧ L !! t = None).
Proof.
  intros Hi Hd Hv (m & Em & Hm) Hl Hth Hg Hnx Hid [He Hfit] Hfr. unfold hal_x86_start_slow_handler_thread. step (on_hh_load p m s Em).
  destruct (thread_spawn_spec kernel_vma_byte entry_point code cs n (i_k s) L hal_x86_slow_handler_thread_entry_point_addr (hh_name m) p
    Hg Hl Hth Hnx Hid He (Hfit p) Hfr) as (t & k' & E & Hg' & _ & _ & Ho).
  step (zoom_ret i_k set_k _ s _ _ E). set (s1 := set_k k' s).
  assert (E2 : on_hh (update p (set_hh_thread t)) s1 = Ret tt (set_hh_heap (<[p := set_hh_thread t m]> (hh_heap s)) s1)).
  { exact (zoom_ret hh_heap set_hh_heap _ s1 _ _ (update_ok (hh_heap s) p m _ Em)). }
  rewrite E2. exists t. eexists. split; [done|]. split; [|split; [done|split; [done|split; [done|]]]].
  - destruct Hi as [[A1 A2 A3 A4] ? ? ? ?]. split; try done. split; try done. cbn.
    destruct (lookup_lt_is_Some_2 (_hal_irq_handlers s) v ltac:(lia)) as [hd Ehd].
    replace (set_hh_thread t d) with (ll_data (set_hh_thread t m)) by (by rewrite <- Hm).
    eapply (tab_update_head hh_interrupt_vector (hh_heap s) (_hal_irq_handlers s) B v hd p d ds m); [done|done|done|done|]. rewrite <- Hd, <- Hm. done.
  - destruct Ho as [(-> & _)|(Hp & HL & st & kst & _ & _ & _ & HC)]; [by left|]. right. split; [|done].
    assert (Hc : cores (threads (k_sys k')) !! t = Some (new_thread entry_point code (machine s) t (_next_tid (i_k s) + 1)
      hal_x86_slow_handler_thread_entry_point_addr (hh_name m) p st kst)) by (rewrite HC; apply lookup_insert_eq).
    rewrite cores_lookup in Hc. destruct (threads (k_sys k') !! t) as [th|] eqn:Et; [|done]. exists th. split; [done|].
    apply (f_equal (fmap state)) in Hc. cbn in Hc. injection Hc as ->. done.
Qed.

(** C5: with room in the static memory and in the heap's bookkeeping for the
    structs, and identifiers left for threads, [hal_install_irq_handler] puts the driver first on the list of the
    vector of its line, keeps every other handler, and makes the HAL itself
    handle the vector if it does not yet.  A driver with a slow handler gets a
    thread, whose first frame is written outside of its stack; if that frame
    falls into free memory of the heap, the driver has a new thread, which fits
    the machine, or none if there is no memory for it.  Without a slow handler
    its thread is whatever the block from the heap held.  Only when there is no
    memory for the struct does it not return: it then writes through a null
    pointer. *)
Theorem hal_install_irq_handler_correct n s A B F L irq l fast slow name data :
  irq_inv s A B F → hal_pre n s L → _hal_irqs (i_apic s) !! Z.to_nat irq = Some l → 0 ≤ interrupt_vector l < 256 →
  slow_fits (machine s) → (slow ≠ NULL → ∀ p s1, hal_x86_irq_handler_alloc s = Ret p s1 → p ≠ NULL → frame_fits (i_k s1)) →
  let v := Z.to_nat (interrupt_vector l) in
  (∃ s1, hal_x86_irq_handler_alloc s = Ret NULL s1 ∧ hal_install_irq_handler irq fast slow name data s = Fault) ∨
  ∃ p t s' A' F', hal_install_irq_handler irq fast slow name data s = Ret tt s' ∧ p ≠ NULL ∧ hh_heap s !! p = None ∧
    irq_inv s' A' (<[v := (p, HHandler irq (interrupt_vector l) fast name slow t 0 data) :: B v]> B) F' ∧
    good kernel_vma_byte (machine s') ∧ _interrupt_nesting s' = _interrupt_nesting s ∧
    (if slow =? NULL then t = hh_thread (junk_hh p) ∧ machine s' = machine s
     else t = NULL ∨ alive (machine s') t ∧ threads (machine s) !! t = None) ∧
    (if upstream_interrupt_handler l =? NULL
     then ∃ u, u ≠ NULL ∧ A' = <[v := (u, IHandler (interrupt_vector l) 0 hal_x86_fast_irq_handler_addr NULL) :: A v]> A ∧
       _hal_irqs (i_apic s') = <[Z.to_nat irq := HalIrqLine (interrupt_vector l) u]> (_hal_irqs (i_apic s))
     else A' = A ∧ _hal_irqs (i_apic s') = _hal_irqs (i_apic s)).
Proof.
  intros Hi Hp El Hv Hfit Hfr v. pose proof Hp as [Hroom _ Hhh Hth Hg Hnx Hid]. unfold hal_install_irq_handler.
  assert (E0 : on_apic (hal_line irq) s = Ret l s) by (unfold on_apic, hal_line, zoom; rewrite El; by destruct s).
  step E0. cbv zeta. destruct (hal_alloc_ok n s A B F L Hi Hp) as (p & h & E1 & Hfresh). pose proof E1 as E1'. step E1. cbv zeta.
  set (s1 := set_k _ s). destruct (Z.eqb_spec p NULL) as [->|Hpn].
  { left. eexists. split; [exact E1|]. apply bind_fault. unfold on_hh, zoom, update. rewrite bind_fault; [done|]. unfold load.
    destruct (hh_heap s1 !! NULL) eqn:En; [|done]. by destruct (Hhh NULL ltac:(eauto)). }
  destruct (Hfresh Hpn) as (HL & Hhp & Hlive). right. set (s2 := set_hh_heap _ s1).
  set (m := junk_hh p). set (m3 := HHandler irq (interrupt_vector l) fast name slow (hh_thread m) (hh_next m) data).
  step (zoom_ret hh_heap set_hh_heap _ s2 _ _ (update_ok (hh_heap s2) p m
    (λ n, HHandler irq (interrupt_vector l) fast name slow (hh_thread n) (hh_next n) data) (lookup_insert_eq _ _ _))).
  fold m3. set (s3 := set_hh_heap (<[p := m3]> (hh_heap s2)) s2). rewrite bind_get.
  assert (Hfree : tab_free 256 B p).
  { destruct Hi as [Hir _ _ _ _]. rewrite <- (ir_hal_len _ _ _ Hir). apply (tab_in_heap hh_interrupt_vector (hh_heap s)); [apply Hir|done]. }
  assert (Hi3 : irq_inv s3 A B F).
  { destruct Hi as [[A1 A2 A3 A4] ? ? ? ?]. split; try done. split; try done. cbn. do 2 (apply tab_write; [|by rewrite A2]). done. }
  set (d := HHandler irq (interrupt_vector l) fast name slow (hh_thread m) 0 data).
  destruct (hal_prepend_ok s3 A B F (interrupt_vector l) p m3 d Hi3 Hv Hpn Hfree (lookup_insert_eq _ _ _) eq_refl eq_refl)
    as (hd & hd' & h4 & E4 & E5 & Hsub & Hm4 & Hi4). step E4. step E5. rewrite bind_modify. fold v in Hi4 |- *.
  set (s4 := set_hal_handlers _ (set_hh_heap h4 s3)) in Hi4 |- *.
  destruct (Z.eqb_spec slow NULL) as [Esl|Esl]; cbn [negb].
  - step (ret_ok tt s4). destruct (install_upstream_ok s4 A _ F irq l Hi4 Hroom El Hv) as (s' & A' & F' & E6 & Hi6 & Hk6 & Hn6 & Hu).
    exists p, (hh_thread m), s', A', F'. split; [exact E6|]. split; [done|]. split; [done|]. split; [exact Hi6|].
    rewrite Hk6. split; [done|]. split; [exact Hn6|]. split; [done|exact Hu].
  - destruct (start_slow_ok n s4 A B F (<[p := sizeof_hal_irq_handler]> L) v p d (B v) Hi4 ltac:(cbn; unfold v; lia) ltac:(unfold v; lia) Hm4 Hlive)
      as (t & s5 & E5' & Hi5 & Ha5 & Hn5 & Hg5 & Ht); [| | | |exact Hfit|exact (Hfr Esl p _ E1' Hpn)|]; [|done..|].
    { intros q Hq. destruct (decide (q = p)) as [->|Hne]; [rewrite lookup_insert_eq; by eexists|]. rewrite lookup_insert_ne by done. by apply Hth. }
    step E5'. destruct (install_upstream_ok s5 A _ F irq l Hi5 ltac:(by rewrite Ha5) ltac:(by rewrite Ha5) Hv) as (s' & A' & F' & E6 & Hi6 & Hk6 & Hn6 & Hu).
    exists p, t, s', A', F'. split; [exact E6|]. split; [done|]. split; [done|]. split; [exact Hi6|].
    rewrite Hk6. split; [done|]. split; [by rewrite Hn6, Hn5|]. split; [|by rewrite Ha5 in Hu].
    destruct Ht as [->|[Hal Ht]]; [by left|right]. split; [done|]. destruct (threads (machine s) !! t) eqn:Et; [|done].
    destruct (Hth t ltac:(eauto)) as [z Hz]. apply lookup_insert_None in Ht as [Ht _]. congruence.
Qed.
End Irq.

(** ** A concrete kernel: one thread, an I/O APIC, and a driver that counts ticks *)

#[local] Existing Instance sp_kheap.
#[local] Existing Instance sp_kheap_laws.

Definition ir_fast (_ _ : Z) (_ : registers) (_ : Z) : M sys Z := λ x, Ret IRQ_HANDLED (set_ticks (ticks_since_boot x + 1) x).
Definition ir_junk_ih (_ : Z) : interrupt_handler := IHandler 0 0 0 0.
Definition ir_junk_hh (_ : Z) : hal_irq_handler := HHandler 0 0 0 EmptyString 0 0 0 0.
Definition ir_hal_fn : Z := 3222283000.
Definition ir_slow : Z := 3222283500.
Definition ir_regs : registers := Regs 16 0 0 0 0 0 0 0 0 0 58 0 3222281500 8 514 0 0.
Definition ir_ih : interrupt_handler := IHandler 58 0 ir_hal_fn 0.
Definition ir_hh : hal_irq_handler := HHandler 2 58 3222290000 "ticks" 0 0 0 0.

(** Before and after the driver of line 2, vector 58, is installed. *)
Definition ir_empty : istate mstate :=
  IState (replicate 256 NULL) NULL ∅ (replicate 256 NULL) ∅ 0 ex_apic [] (KState sp_sys sp_heap 1).
Definition ir_one : istate mstate :=
  IState (<[58%nat := 4096]> (replicate 256 NULL)) NULL {[4096 := ir_ih]} (<[58%nat := 8192]> (replicate 256 NULL)) {[8192 := ir_hh]} 0 ex_apic []
    (KState sp_sys sp_heap 1).

Lemma ir_tab_empty {T} `{LLNode T} (key : T → Z) h : tab_rep key h (replicate 256 NULL) (λ _, []).
Proof. intros v hd [-> _]%lookup_replicate. split; [done|]. by intros p d ?%elem_of_nil. Qed.

Lemma ir_tab_one {T} `{LLNode T} (key : T → Z) p x : p ≠ NULL → ll_next x = NULL → key x = 58 → ll_data x = x →
  tab_rep key {[p := x]} (<[58%nat := p]> (replicate 256 NULL)) (<[58%nat := [(p, x)]]> (λ _, [])).
Proof.
  intros Hp Hn Hk Hd v hd [(<- & <- & _)|[Hne Ev]]%list_lookup_insert_Some.
  - rewrite fn_lookup_insert. split; [split; [done|]; split; [done|]; exists x; by rewrite lookup_singleton_eq|].
    intros q d [[= -> ->]|?%elem_of_nil]%elem_of_cons; [|done]. rewrite lookup_singleton_eq. cbn. by rewrite Hd, Hk.
  - rewrite fn_lookup_insert_ne by done. by apply (ir_tab_empty key _ v).
Qed.

Lemma ir_empty_inv : irq_inv ir_empty (λ _, []) (λ _, []) [].
Proof.
  split; [split; [done|done|apply ir_tab_empty..]|done|by intros p ?%elem_of_nil| |].
  - intros p [x E]. cbn in E. by rewrite lookup_empty in E.
  - split; vm_compute; reflexivity.
Qed.

Lemma ir_empty_pre : hal_pre 83 3 ir_empty {[sp_main := sizeof_thread]}.
Proof.
  split.
  - vm_compute. discriminate.
  - apply sp_heap_live. lia.
  - intros p [x E]. cbn in E. by rewrite lookup_empty in E.
  - intros p [x E]. cbn in E. apply lookup_singleton_Some in E as [<- _]. rewrite lookup_singleton_eq. by eexists.
  - exact sp_good.
  - cbn. lia.
  - split; [|intros m y E; cbn in E; by rewrite lookup_empty in E]. intros t th E. cbn in E. apply lookup_singleton_Some in E as [_ <-]. cbn. lia.
Qed.

Lemma ir_alloc : match hal_x86_irq_handler_alloc ir_junk_hh ir_empty with Ret p _ => p =? NULL | _ => true end = false.
Proof. vm_compute. reflexivity. Qed.

Lemma ir_frame_fits p s1 : hal_x86_irq_handler_alloc ir_junk_hh ir_empty = Ret p s1 → frame_fits (i_k s1).
Proof.
  assert (Hc : match hal_x86_irq_handler_alloc ir_junk_hh ir_empty with
    | Ret _ s1 => match k_alloc sizeof_thread (heap_of (i_k s1)) with Ret _ h => frame_check h | _ => false end
    | _ => false end = true) by (vm_compute; reflexivity).
  intros E t h E' _. rewrite E, E' in Hc. by apply frame_check_ok.
Qed.

Abbreviation ir_install :=
  (hal_install_irq_handler 3222281500 sp_code 8 ir_junk_ih ir_junk_hh ir_hal_fn ir_slow 2 3222290000 3222291000 "ticks" 0).

Lemma ir_threads s' : ir_install ir_empty = Ret tt s' → size (threads (k_sys (i_k s'))) = 2%nat.
Proof.
  assert (Hc : match ir_install ir_empty with Ret _ s' => (size (threads (k_sys (i_k s'))) =? 2)%nat | _ => false end = true) by (vm_compute; reflexivity).
  intros E. rewrite E in Hc. by apply Nat.eqb_eq.
Qed.

(** The driver has a slow handler, and there are two threads afterwards. *)
Lemma hal_install_irq_handler_correct_witness :
  ∃ s', ir_install ir_empty = Ret tt s' ∧ good 83 (k_sys (i_k s')) ∧ size (threads (k_sys (i_k s'))) = 2%nat.
Proof.
  destruct (hal_install_irq_handler_correct 83 3222281500 sp_code 8 ir_junk_ih ir_junk_hh ir_hal_fn ir_slow 3 ir_empty (λ _, []) (λ _, []) []
    {[sp_main := sizeof_thread]} 2 (HalIrqLine 58 0) 3222290000 3222291000 "ticks" 0) as [(s1 & E & _)|(p & t & s' & A' & F' & E & _ & _ & _ & Hg & _)].
  - exact ir_empty_inv.
  - exact ir_empty_pre.
  - reflexivity.
  - cbn. lia.
  - split; [lia|]. intros d. destruct (sp_fits [] (or_introl eq_refl)) as [P1 D1], (sp_fits [OYield] (or_intror eq_refl)) as [P2 D2].
    exact (conj P1 (conj P2 (conj D1 D2))).
  - intros _ p s1 E _. exact (ir_frame_fits p s1 E).
  - pose proof ir_alloc as Hal. rewrite E in Hal. discriminate Hal.
  - exists s'. exact (conj E (conj Hg (ir_threads s' E))).
Defined.

Lemma ir_one_rep : irq_rep ir_one (<[58%nat := [(4096, ir_ih)]]> (λ _, [])) (<[58%nat := [(8192, ir_hh)]]> (λ _, [])).
Proof. split; [done|done|by apply ir_tab_one|by apply ir_tab_one]. Qed.

Lemma ir_driver x0 : driver_ok 83 ir_fast x0 ir_regs ir_hh.
Proof.
  split; [by left|]. intros x Hc. exists IRQ_HANDLED, (set_ticks (ticks_since_boot x + 1) x). split; [done|]. split; [by apply calm_ticks|].
  by split_and!.
Qed.

Lemma interrupt_served_witness :
  ∃ s', take_interrupt (interrupts_ioapic_irq_handler 83 ir_hal_fn 0 ir_fast (λ _ _ _ _ _ _, mret 0) ir_regs) ir_one = Ret ir_regs s' ∧
    good 83 (k_sys (i_k s')) ∧ interrupt 1 sp_sys = Ret tt (k_sys (i_k s')).
Proof.
  destruct (interrupt_served 83 ir_hal_fn 0 ir_fast (λ _ _ _ _ _ _, mret 0) ir_one (<[58%nat := [(4096, ir_ih)]]> (λ _, []))
    (<[58%nat := [(8192, ir_hh)]]> (λ _, [])) 58 ir_regs 4096 ir_ih) as (b & x1 & E & _ & Hb).
  - exact ir_one_rep.
  - lia.
  - lia.
  - reflexivity.
  - cbn. lia.
  - reflexivity.
  - reflexivity.
  - constructor; [apply ir_driver|constructor].
  - apply (good_calm 83 sp_sys sp_good eq_refl).
  - reflexivity.
  - cbn. lia.
  - injection E as <- <-. destruct Hb as (s' & E' & _ & _ & _ & _ & _ & Hg & Hint). exists s'.
    exact (conj E' (conj (Hg eq_refl) (Hint 1%nat eq_refl eq_refl))).
Defined.
