(* ===== verification/Madt.v ===== *)
(** * The table of interrupt controllers: kernel/ia32/acpi.c

    ACPI describes the interrupt controllers of the machine in a table, the
    MADT: a header and a sequence of subtables, each of which starts with its
    type and its length.  [acpi_foreach_subtable] walks them, and
    [acpi_madt_configure_apic_subtable] registers every I/O APIC it meets with
    apic.c (Ioapic.v); of the other kinds it reads the members and passes them
    to functions that do nothing.

    The pointer to the table, which [acpi_get_madt] obtains from ACPICA's table
    manager, is an argument. *)

From stdpp Require Import base numbers list gmap strings fin_maps sorting.
From S2P Require Import Prelude UtList MemUtil Bytes Paging Ports AcpiAml Ioapic.

Record madt_state := MadtState { table_mem : bytes; apics : apic_state }.

Definition on_mem {A} (m : M bytes A) : M madt_state A := zoom table_mem (λ t s, MadtState t (apics s)) m.
Definition on_apics {A} (m : M apic_state A) : M madt_state A := zoom apics (λ a s, MadtState (table_mem s) a) m.

Abbreviation sizeof_ACPI_SUBTABLE_HEADER := 2 (only parsing).
Abbreviation sizeof_ACPI_TABLE_MADT := 44 (only parsing).

Section Madt.
Variable dev : list mmio_event → Z → Z.
Variable KERNEL_VMA : Z.
Variable fresh : Z → ioapic.

(** A member of [n] bytes at offset [k] of a struct. *)
Definition member (n : nat) (p : Z) (k : nat) : M madt_state Z := on_mem (load_le n (u32 (p + Z.of_nat k))).

Definition acpi_madt_configure_apic_subtable (header : Z) : M madt_state unit :=
  Type_ ← member 1 header 0;
  match Type_ with
  | 0 =>
      Id ← member 1 header 3; ProcessorId ← member 1 header 2; LapicFlags ← member 4 header 4;
      mret tt (* apic_configure_lapic *)
  | 1 =>
      Id ← member 1 header 2; Address ← member 4 header 4; GlobalIrqBase ← member 4 header 8;
      on_apics (apic_configure_ioapic dev KERNEL_VMA fresh Id Address GlobalIrqBase)
  | 2 =>
      Bus ← member 1 header 2; SourceIrq ← member 1 header 3; GlobalIrq ← member 4 header 4;
      IntiFlags ← member 2 header 8;
      mret tt (* apic_configure_int_override *)
  | 3 =>
      GlobalIrq ← member 4 header 4; IntiFlags ← member 2 header 2;
      mret tt (* apic_configure_nmi_source *)
  | 4 =>
      ProcessorId ← member 1 header 2; Lint ← member 1 header 5; IntiFlags ← member 2 header 3;
      mret tt (* apic_configure_lapic_nmi *)
  | 5 =>
      Address ← member 8 header 4;
      mret tt (* apic_configure_lapic_override *)
  | _ => mret tt
  end.

(** [while(subtable_header < end)] *)
Fixpoint subtable_loop (fuel : nat) (subtable_header end_ : Z) (handler : Z → M madt_state unit) : M madt_state unit :=
  match fuel with
  | O => nofuel
  | S fuel =>
      if subtable_header <? end_ then
        Length ← member 1 subtable_header 1;
        if Length <? sizeof_ACPI_SUBTABLE_HEADER then mret tt
        else
          handler subtable_header;;
          Length ← member 1 subtable_header 1;
          subtable_loop fuel (u32 (subtable_header + Length)) end_ handler
      else mret tt
  end.

(** Every subtable has two bytes at least, so a walk that does not wrap around
    takes no more steps than there are bytes. *)
Definition acpi_foreach_subtable (table first : Z) (handler : Z → M madt_state unit) : M madt_state unit :=
  Length ← member 4 table 4;
  let end_ := u32 (table + Length) in
  subtable_loop (S (Z.to_nat (end_ - first))) first end_ handler.

Definition acpi_madt_foreach_subtable (madt : Z) (handler : Z → M madt_state unit) : M madt_state unit :=
  assert (negb (madt =? NULL)) "madt != NULL";;
  acpi_foreach_subtable madt (u32 (madt + sizeof_ACPI_TABLE_MADT)) handler.

Definition acpi_configure_apic (madt : Z) : M madt_state unit :=
  acpi_madt_foreach_subtable madt acpi_madt_configure_apic_subtable.

(** ** Well-formed tables *)

(** The bytes a subtable of each type has at least. *)
Definition least_length (type : Z) : nat :=
  match type with 0 => 8%nat | 1 => 12%nat | 2 => 10%nat | 3 => 8%nat | 4 => 6%nat | 5 => 12%nat | _ => 2%nat end.

(** A subtable: its second byte is its length, and its members are there. *)
Definition sub_ok (bs : list Z) : Prop :=
  ∃ type rest, bs = type :: Z.of_nat (length bs) :: rest ∧ (least_length type ≤ length bs)%nat.

Definition field (n : nat) (bs : list Z) (k : nat) : Z := le_value (take n (drop k bs)).

(** Identifier, address and first interrupt of the I/O APIC a subtable describes. *)
Definition ioapic_of (bs : list Z) : option (Z * Z * Z) :=
  match bs with
  | 1 :: _ => Some (field 1 bs 2, field 4 bs 4, field 4 bs 8)
  | _ => None
  end.

Lemma member_ok s p bs k n :
  array (table_mem s) p bs → 0 ≤ p → p + Z.of_nat (length bs) ≤ W32 → (k + n ≤ length bs)%nat → (0 < n)%nat →
  member n p k s = Ret (field n bs k) s.
Proof.
  intros Ha Hp He Hk Hn. unfold member, on_mem.
  rewrite (zoom_ret _ _ _ s _ _ (load_field_ok (table_mem s) p bs k n Ha Hp He Hk Hn)). by destruct s.
Qed.

Lemma least_length_ge type : (2 ≤ least_length type)%nat.
Proof. unfold least_length. repeat case_match; lia. Qed.

(** The walk calls the handler on every subtable, in order, and ends. *)
Lemma subtable_loop_ok handler (P : list (list Z) → madt_state → Prop) m all subs done p fuel s :
  (∀ d bs r q s, all = d ++ bs :: r → P d s → array m q bs → sub_ok bs → 0 ≤ q → q + Z.of_nat (length bs) < W32 →
    table_mem s = m → ∃ s', handler q s = Ret tt s' ∧ P (d ++ [bs]) s' ∧ table_mem s' = m) →
  all = done ++ subs → array m p (concat subs) → Forall sub_ok subs → 0 ≤ p → p + Z.of_nat (length (concat subs)) < W32 →
  (length (concat subs) < fuel)%nat → table_mem s = m → P done s →
  ∃ s', subtable_loop fuel p (p + Z.of_nat (length (concat subs))) handler s = Ret tt s' ∧ P all s' ∧ table_mem s' = m.
Proof.
  intros Hh Hall Ha Hok. revert done p fuel s Ha Hall. induction Hok as [|bs subs Hbs Hok IH];
    intros d p [|fuel] s Ha Hall Hp He Hf Hm HP; simpl in Hf; try lia.
  - exists s. simpl. rewrite Z.add_0_r, Z.ltb_irrefl. rewrite app_nil_r in Hall. by subst.
  - simpl concat in Ha, He, Hf |- *. rewrite length_app in He, Hf |- *. apply array_app in Ha as [Ha Ha'].
    destruct Hbs as (type & rest & Ebs & Hlen). pose proof (least_length_ge type).
    cbn [subtable_loop]. rewrite (proj2 (Z.ltb_lt p _)) by lia.
    assert (Hl : ∀ s', table_mem s' = m → member 1 p 1 s' = Ret (Z.of_nat (length bs)) s').
    { intros s' Hs'. rewrite (member_ok s' p bs 1 1) by (rewrite ?Hs'; done || lia). do 2 f_equal.
      unfold field. rewrite Ebs at 1. simpl. lia. }
    step (Hl s Hm). rewrite (proj2 (Z.ltb_ge _ 2)) by lia.
    destruct (Hh d bs subs p s) as (s1 & E1 & HP1 & Hm1); try done; try lia; [by exists type, rest|].
    step E1. step (Hl s1 Hm1). rewrite u32_small by lia.
    destruct (IH (d ++ [bs]) (p + Z.of_nat (length bs)) fuel s1) as (s' & E & HP' & Hm'); try done; try lia.
    { by rewrite <- app_assoc. }
    exists s'. split; [|done].
    by replace (p + Z.of_nat (length bs + length (concat subs))) with (p + Z.of_nat (length bs) + Z.of_nat (length (concat subs))) by lia.
Qed.

(** ** Registering the controllers of a table *)

Variable max_redirect : Z → Z.

Definition ioapic_entry (e : Z * Z * Z) : ioapic :=
  let '(id, phys, base) := e in new_ioapic id phys base (max_redirect phys).

(** Addresses the kernel can map, and controllers that report their size. *)
Definition entry_ok (e : Z * Z * Z) : Prop :=
  let '(id, phys, base) := e in
  (PAGE_SIZE | phys) ∧ 0 ≤ phys ∧ phys + PAGE_SIZE ≤ W32 ∧ ioapic_version dev phys (max_redirect phys).

Definition entry_cost : Z := 32 + 2 * PAGE_SIZE.

(** The state after the subtables [subs], starting from [s0]. *)
Definition configured (s0 : apic_state) (subs : list (list Z)) (s : apic_state) : Prop :=
  let es := omap ioapic_of subs in
  let pd := _current_page_dir (pages s0) in
  ∃ l, apic_inv KERNEL_VMA s l ∧ l ≡ₚ ioapic_entry <$> es ∧ Sorted base_le l ∧
    lay_grows (Z.of_nat (length es) * entry_cost) (play (pages s0)) (play (pages s)) ∧ same_regs (pages s0) (pages s) ∧
    ∀ v, 0 ≤ v < W32 → translate KERNEL_VMA (pages s) pd v =
      if decide (Exists (λ e, e.1.2 ≤ v < e.1.2 + PAGE_SIZE) es) then Some v
      else translate KERNEL_VMA (pages s0) pd v.

Lemma configured_step s0 subs bs e s :
  configured s0 subs s → ioapic_of bs = Some e → entry_ok e →
  Z.of_nat (length subs) < 2 ^ 30 →
  memory_start (play (pages s0)) + (Z.of_nat (length (omap ioapic_of subs)) + 1) * entry_cost ≤ memory_end (play (pages s0)) →
  ∃ s', apic_configure_ioapic dev KERNEL_VMA fresh (e.1.1) (e.1.2) (e.2) s = Ret tt s' ∧ configured s0 (subs ++ [bs]) s'.
Proof.
  intros (l & Hinv & Hp & Hso & Hg & Hr & Ht) Hbs He Hn Hroom. destruct e as [[id phys] base]. destruct He as (Hal & H0 & H1 & Hv).
  pose proof Hg as (_ & Hme & Hms).
  assert (Hlen : (length l ≤ length subs)%nat).
  { rewrite Hp, length_fmap. clear. induction subs as [|x subs IH]; [done|].
    change (omap ioapic_of (x :: subs)) with (match ioapic_of x with Some y => y :: omap ioapic_of subs | None => omap ioapic_of subs end).
    destruct (ioapic_of x); cbn [length]; lia. }
  destruct (configure_ioapic_ok dev KERNEL_VMA fresh s l id phys base (max_redirect phys)) as (s' & l' & E & Hinv' & Hp' & Hso' & Hg' & Hr' & Ht');
    try done; [lia|rewrite Hme; fold entry_cost; lia|].
  exists s'. split; [done|]. exists l'. rewrite omap_app. cbn [omap list_omap]. rewrite Hbs. split_and!; try done.
  - rewrite Hp', Hp, fmap_app. cbn. by rewrite <- Permutation_cons_append.
  - rewrite length_app. cbn [length]. replace (Z.of_nat _ * entry_cost) with (Z.of_nat (length (omap ioapic_of subs)) * entry_cost + entry_cost) by lia.
    eapply lay_grows_trans; [exact Hg|exact Hg'].
  - unfold same_regs in *. by rewrite Hr'.
  - intros v Hv'. injection Hr as _ Hpd _ _. rewrite Hpd in Ht'. rewrite Ht' by done. rewrite Ht by done.
    destruct (decide (phys ≤ v < phys + PAGE_SIZE)) as [Hin|Hout].
    + rewrite decide_True; [done|]. apply Exists_app. right. by constructor.
    + destruct (decide (Exists _ (omap ioapic_of subs))) as [Hx|Hx].
      * rewrite decide_True; [done|]. apply Exists_app. by left.
      * rewrite decide_False; [done|]. rewrite Exists_app, Exists_cons, Exists_nil. tauto.
Qed.

Lemma subtable_ok s q bs :
  array (table_mem s) q bs → sub_ok bs → 0 ≤ q → q + Z.of_nat (length bs) < W32 →
  acpi_madt_configure_apic_subtable q s =
    match ioapic_of bs with
    | Some e => on_apics (apic_configure_ioapic dev KERNEL_VMA fresh (e.1.1) (e.1.2) (e.2)) s
    | None => Ret tt s
    end.
Proof.
  intros Ha (type & rest & Ebs & Hlen) Hq He. unfold acpi_madt_configure_apic_subtable.
  assert (Hm : ∀ n k, (k + n ≤ length bs)%nat → (0 < n)%nat → member n q k s = Ret (field n bs k) s).
  { intros n k Hk Hn. apply member_ok; (done || lia). }
  step (Hm 1%nat 0%nat ltac:(pose proof (least_length_ge type); lia) ltac:(lia)).
  replace (field 1 bs 0) with type by (rewrite Ebs; unfold field; simpl; lia).
  assert (Hi : ioapic_of bs = if type =? 1 then Some (field 1 bs 2, field 4 bs 4, field 4 bs 8) else None).
  { rewrite Ebs at 1. unfold ioapic_of. destruct (Z.eqb_spec type 1) as [->|]; [by rewrite <- Ebs|]. repeat case_match; done. }
  rewrite Hi. unfold least_length in Hlen.
  repeat case_match; try done;
    repeat match goal with |- context [member ?n q ?k] => step (Hm n k ltac:(lia) ltac:(lia)) end; done.
Qed.

Lemma covers_data n irq : covers (ll_data n) irq = covers n irq.
Proof. done. Qed.

(** A controller of the list that alone covers an interrupt is found for it. *)
Lemma apic_inv_served s l irq n :
  apic_inv KERNEL_VMA s l → n ∈ l → covers n irq = true → (∀ n', n' ∈ l → covers n' irq = true → n' = n) →
  ∃ i n', served s irq i n' ∧ ll_data n' = n.
Proof.
  intros ((ps & Hr & Hl) & _) Hn Hc Hu.
  set (P q := match io_heap s !! q with Some m => covers m irq | None => false end = true).
  assert (Hd : ∀ q m, q ∈ ps → io_heap s !! q = Some m → ll_data m ∈ l).
  { intros q m Hq Hm. apply (list_elem_of_fmap_2 (λ p, ll_data <$> io_heap s !! p)) in Hq. rewrite Hl, Hm in Hq.
    apply list_elem_of_fmap in Hq as (x & Ex & Hx). assert (ll_data m = x) as -> by by injection Ex. done. }
  assert (∃ q, q ∈ ps ∧ P q) as (q & Hq & HPq).
  { assert (Some n ∈ Some <$> l) as H by by apply list_elem_of_fmap_2. rewrite <- Hl in H.
    apply list_elem_of_fmap in H as (q & Eq & Hq). exists q. split; [done|]. unfold P.
    destruct (io_heap s !! q) as [m|]; [|done].
    assert (n = ll_data m) as En by by injection Eq. by rewrite <- covers_data, <- En. }
  destruct (list_find_elem_of P ps q Hq HPq) as [[k i] Hf]. apply list_find_Some in Hf as (Hk & HPi & Hbefore).
  unfold P in HPi. destruct (io_heap s !! i) as [m|] eqn:Hm; [|done]. exists i, m. split.
  - exists (take k ps), (drop (S k) ps). rewrite take_drop_middle by done. split_and!; try done.
    intros q' m' (j & Hj)%list_elem_of_lookup Hm'. apply lookup_take_Some in Hj as [Hj Hjk].
    specialize (Hbefore j q' Hj Hjk). unfold P in Hbefore. rewrite Hm' in Hbefore. by destruct (covers m' irq).
  - apply Hu; [|done]. eapply Hd; [|exact Hm]. by eapply list_elem_of_lookup_2.
Qed.

Lemma configured_next s0 d bs r s :
  configured s0 d (apics s) → Forall entry_ok (omap ioapic_of (d ++ bs :: r)) → Z.of_nat (length (d ++ bs :: r)) < 2 ^ 30 →
  memory_start (play (pages s0)) + Z.of_nat (length (omap ioapic_of (d ++ bs :: r))) * entry_cost ≤ memory_end (play (pages s0)) →
  ∃ s', match ioapic_of bs with
    | Some e => on_apics (apic_configure_ioapic dev KERNEL_VMA fresh (e.1.1) (e.1.2) (e.2)) s
    | None => Ret tt s
    end = Ret tt s' ∧ configured s0 (d ++ [bs]) (apics s') ∧ table_mem s' = table_mem s.
Proof.
  intros HP Hes Hn Hroom. rewrite omap_app in Hes, Hroom. rewrite length_app in Hn, Hroom.
  change (omap ioapic_of (bs :: r)) with (match ioapic_of bs with Some y => y :: omap ioapic_of r | None => omap ioapic_of r end) in Hes, Hroom.
  destruct (ioapic_of bs) as [e|] eqn:Eb.
  - apply Forall_app in Hes as [_ [He _]%Forall_cons_1]. simpl length in Hn, Hroom.
    destruct (configured_step s0 d bs e (apics s) HP Eb He) as (a' & Ea & HP'); [lia|unfold entry_cost, PAGE_SIZE in *; lia|].
    exists (MadtState (table_mem s) a'). unfold on_apics. by rewrite (zoom_ret _ _ _ s _ _ Ea).
  - exists s. split; [done|]. split; [|done]. destruct HP as (l & HP). exists l. rewrite omap_app. cbn [omap list_omap]. rewrite Eb, app_nil_r.
    exact HP.
Qed.

(** C23: for a well-formed table [acpi_configure_apic] ends, having registered
    exactly the I/O APICs the table describes, sorted by their first interrupt,
    each with the number of entries it reports, and having mapped the page of
    registers of each, and no other, to itself; an interrupt that one of them
    serves is then found to be served by that one. *)
Theorem acpi_configure_apic_correct s madt header subs
    (es := omap ioapic_of subs) (end_ := Z.of_nat (length (concat subs)) + sizeof_ACPI_TABLE_MADT) :
  array (table_mem s) madt (header ++ concat subs) → length header = 44%nat → field 4 header 4 = end_ →
  Forall sub_ok subs → 0 < madt → madt + end_ < W32 → Z.of_nat (length subs) < 2 ^ 30 →
  apic_inv KERNEL_VMA (apics s) [] → Forall entry_ok es →
  memory_start (play (pages (apics s))) + Z.of_nat (length es) * entry_cost ≤ memory_end (play (pages (apics s))) →
  ∃ s', acpi_configure_apic madt s = Ret tt s' ∧ table_mem s' = table_mem s ∧ configured (apics s) subs (apics s') ∧
    ∀ irq n, n ∈ ioapic_entry <$> es → covers n irq = true →
      (∀ n', n' ∈ ioapic_entry <$> es → covers n' irq = true → n' = n) →
      ∃ i n', served (apics s') irq i n' ∧ ll_data n' = n.
Proof.
  intros Ha Hh Hf Hok H0 He Hn Hinv Hes Hroom. unfold acpi_configure_apic, acpi_madt_foreach_subtable.
  rewrite (proj2 (Z.eqb_neq madt NULL)) by (unfold NULL; lia). rewrite (bind_ret (assert (negb false) _) _ s tt s eq_refl).
  unfold acpi_foreach_subtable.
  apply array_app in Ha as [Hah Has]. rewrite Hh in Has.
  step (member_ok s madt header 4 4 Hah ltac:(lia) ltac:(lia) ltac:(lia) ltac:(lia)). rewrite Hf. fold end_ in He.
  rewrite (u32_small (madt + end_)), (u32_small (madt + 44)) by lia.
  replace (madt + end_) with (madt + 44 + Z.of_nat (length (concat subs))) by (unfold end_; lia).
  destruct (subtable_loop_ok acpi_madt_configure_apic_subtable (λ d s', configured (apics s) d (apics s')) (table_mem s) subs subs []
    (madt + 44) (S (Z.to_nat (madt + 44 + Z.of_nat (length (concat subs)) - (madt + 44)))) s) as (s' & E & HP & Hm); try done; try lia.
  - intros d bs r q s1 Hd HP Hq Hb Hq0 Hqe Hm1. rewrite (subtable_ok s1 q bs) by (by rewrite ?Hm1).
    rewrite <- Hm1. apply (configured_next (apics s) d bs r s1); try done; rewrite <- Hd; done.
  - exists []. split; [done|]. split; [done|]. split; [constructor|]. split; [by apply lay_grows_refl|]. split; [done|].
    intros v Hv. rewrite decide_False; [done|]. intros Hx. by apply Exists_nil in Hx.
  - exists s'. split; [exact E|]. split; [done|]. split; [done|]. intros irq n Hnin Hc Hu.
    destruct HP as (l & Hinv' & Hp & _). apply (apic_inv_served (apics s') l irq n); [done|by rewrite Hp|done|].
    intros n' Hn'. apply Hu. unfold es. by rewrite <- Hp.
Qed.
End Madt.

(** ** A concrete table *)

(** A local APIC and an I/O APIC of 24 interrupts. *)
Definition ex_header : list Z := replicate 4 0 ++ [64; 0; 0; 0] ++ replicate 36 0.
Definition ex_subs : list (list Z) := [[0; 8; 0; 0; 1; 0; 0; 0]; [1; 12; 2; 0; 0; 0; 192; 254; 0; 0; 0; 0]].

Definition ex_madt_state : madt_state :=
  MadtState (write_at 4096 (ex_header ++ concat ex_subs) ∅)
    (ApicState NULL ∅ (ApicBaseMsr 4276095232 0) [] [] ex_pstate).

Lemma acpi_configure_apic_correct_witness :
  ∃ s', acpi_configure_apic ex_ioapic_dev ex_vma (λ _, Ioapic 0 0 0 0 0 0) 4096 ex_madt_state = Ret tt s' ∧
    ∃ i n, served (apics s') 2 i n ∧ ll_data n = new_ioapic 2 ex_base 0 23.
Proof.
  destruct (acpi_configure_apic_correct ex_ioapic_dev ex_vma (λ _, Ioapic 0 0 0 0 0 0) (λ _, 23)
    ex_madt_state 4096 ex_header ex_subs) as (s' & E & _ & _ & Hs).
  - apply write_at_array.
  - reflexivity.
  - reflexivity.
  - repeat constructor; eexists _, _; (split; [reflexivity|simpl; lia]).
  - lia.
  - vm_compute. reflexivity.
  - simpl. lia.
  - split; [exists []; by split|]. split; [intros p [? Hp]; discriminate Hp|]. exact ex_pd_ok.
  - apply Forall_cons_2; [|by apply Forall_nil_2]. split; [by exists 1043456|]. split; [done|]. split; [done|]. exact ex_ioapic_version.
  - done.
  - exists s'. split; [exact E|]. apply (Hs 2 (new_ioapic 2 ex_base 0 23)).
    + by left.
    + reflexivity.
    + intros n' Hn _. apply list_elem_of_singleton in Hn as ->. reflexivity.
Defined.
