(* ===== verification/Tty.v ===== *)
(** * The line discipline: kernel/drivers/tty.c

    Keys go into one line buffer, which can be edited with backspace and grows
    on demand, and are echoed on the terminal; readers take characters from its
    front and wait, as observers, while there are none.

    The buffer is a block of [capacity] bytes from the kernel heap that only
    this file uses, so it is a list in the struct.  The kernel's krealloc and
    [tty_compact_buffer] read past the end of the block: what they find there is
    the argument [beyond], and whether an allocation succeeds is the argument
    [alloc].  scheduler_yield lets the other threads run: the batches of
    key events that the driver delivers while the reader does not run are part of
    the state, and a reader that stays blocked when they are used up never
    returns. *)

From stdpp Require Import base numbers list gmap strings fin_maps sets.
From S2P Require Import Prelude MemUtil.

(** ** Data *)

Record tty_line := TtyLine {
  data : list Z;
  capacity : Z;
  line_length : Z;
  read_pos : Z;
  write_pos : Z
}.

Inductive tty_key_event_type := tty_key_down | tty_key_up.

Abbreviation tty_mod_shift := 1 (only parsing).
Abbreviation tty_mod_alt := 2 (only parsing).
Abbreviation tty_mod_ctrl := 4 (only parsing).
Abbreviation TTY_NEW_LINE_CHAR := 10 (only parsing).

Record tty_key_event := TtyKeyEvent {
  event_type : tty_key_event_type;
  character : Z;
  mod_keys : Z
}.

(** The line, the threads that wait for characters, the threads that are
    blocked, the characters echoed (the last one first), the keys still to come,
    and the number of allocations made. *)
Record tty := Tty {
  lines : tty_line;
  observers : list Z;
  blocked : gset Z;
  echo : list Z;
  keys : list (list tty_key_event);
  allocs : nat
}.

Definition set_line l s := Tty l (observers s) (blocked s) (echo s) (keys s) (allocs s).
Definition set_observers o s := Tty (lines s) o (blocked s) (echo s) (keys s) (allocs s).
Definition set_blocked b s := Tty (lines s) (observers s) b (echo s) (keys s) (allocs s).
Definition set_echo e s := Tty (lines s) (observers s) (blocked s) e (keys s) (allocs s).
Definition set_keys k s := Tty (lines s) (observers s) (blocked s) (echo s) k (allocs s).
Definition set_allocs n s := Tty (lines s) (observers s) (blocked s) (echo s) (keys s) n.

Section Tty.
Variable alloc : nat → Z → bool.
Variable beyond : nat → nat → Z.

(** ** The line *)

Definition tty_init : tty → tty :=
  λ s, Tty (TtyLine [] 0 0 0 0) [] (blocked s) (echo s) (keys s) (allocs s).

(** [terminal_putchar(c)] *)
Definition echo_char (c : Z) : M tty unit := modify (λ s, set_echo (c :: echo s) s).

(** [krealloc(line->data, size)]: the new block, filled from the old one and from what lies behind it. *)
Definition realloc_block (old : list Z) (size : Z) : M tty (option (list Z)) :=
  s ← get;
  put (set_allocs (S (allocs s)) s);;
  if alloc (allocs s) size then
    mret (Some ((λ i, default (beyond (allocs s) i) (old !! i)) <$> seq 0 (Z.to_nat size)))
  else mret None.

Definition tty_line_write_space_available (line : tty_line) : Z := u32 (capacity line - write_pos line).
Definition tty_line_read_chars_available (line : tty_line) : Z := u32 (line_length line - read_pos line).

Definition tty_line_reserve_space (size : Z) : M tty Z :=
  s ← get;
  let line := lines s in
  if tty_line_write_space_available line <? size then
    let new_capacity := Z.max size (u32 (capacity line * 2)) in
    new_data ← realloc_block (data line) new_capacity;
    match new_data with
    | Some d =>
        modify (set_line (TtyLine d new_capacity (line_length line) (read_pos line) (write_pos line)));;
        mret 0
    | None => mret (-1)
    end
  else mret 0.

Definition tty_line_append_char (c : Z) : M tty Z :=
  s ← get;
  let line := lines s in
  if c =? 8 then
    (if read_pos line <? write_pos line then
       modify (set_line (TtyLine (data line) (capacity line) (u32 (line_length line - 1)) (read_pos line) (u32 (write_pos line - 1))));;
       echo_char c
     else mret tt);;
    mret 0
  else
    r ← tty_line_reserve_space 1;
    if negb (r =? 0) then mret (-1)
    else
      s ← get;
      let line := lines s in
      assert (0 <? tty_line_write_space_available line) "tty_line_write_space_available(line) > 0";;
      if decide (Z.to_nat (write_pos line) < length (data line))%nat then
        modify (set_line (TtyLine (<[Z.to_nat (write_pos line) := u8 c]> (data line)) (capacity line)
          (u32 (line_length line + 1)) (read_pos line) (u32 (write_pos line + 1))));;
        echo_char c;;
        mret 0
      else fault.

(** [memmove(line->data, line->data + line->read_pos, line->length)] *)
Definition moved (line : tty_line) (n : nat) : list Z :=
  ((λ i, default (beyond n i) (data line !! (Z.to_nat (read_pos line) + i)%nat)) <$> seq 0 (Z.to_nat (line_length line)))
  ++ drop (Z.to_nat (line_length line)) (data line).

Definition tty_compact_buffer : M tty unit :=
  modify (λ s, let line := lines s in
    set_line (TtyLine (moved line (allocs s)) (capacity line) (u32 (line_length line - read_pos line)) 0
      (u32 (write_pos line - read_pos line))) s).

(** [scheduler_make_runnable] of every observer. *)
Definition tty_notify_chars_available : M tty unit :=
  modify (λ s, set_blocked (blocked s ∖ list_to_set (observers s)) s).

Definition tty_line_newline : M tty Z :=
  r ← tty_line_append_char 10;
  if r =? 0 then
    tty_compact_buffer;;
    tty_notify_chars_available;;
    mret 0
  else mret (-1).

Definition tty_send_key_event (event : tty_key_event) : M tty unit :=
  match event_type event with
  | tty_key_down =>
      if (mod_keys event =? 0) || (mod_keys event =? tty_mod_shift) then
        if character event =? TTY_NEW_LINE_CHAR then _ ← tty_line_newline; mret tt
        else _ ← tty_line_append_char (character event); mret tt
      else mret tt
  | tty_key_up => mret tt
  end.

(** ** Readers *)

Fixpoint send_keys (es : list tty_key_event) : M tty unit :=
  match es with
  | [] => mret tt
  | e :: es => tty_send_key_event e;; send_keys es
  end.

(** The driver's thread runs: the next batch of keys arrives. *)
Definition others_run : M tty unit :=
  s ← get;
  match keys s with
  | [] => mret tt
  | es :: rest => put (set_keys rest s);; send_keys es
  end.

(** [scheduler_yield()]: the others run, until the caller is not blocked. *)
Fixpoint yield_loop (fuel : nat) (me : Z) : M tty unit :=
  match fuel with
  | O => nofuel
  | S fuel =>
      s ← get;
      if decide (me ∈ blocked s) then others_run;; yield_loop fuel me else mret tt
  end.

Section Wait.
(** Rounds of the waiting loops beyond one for each batch of keys. *)
Variable more : nat.

Definition yield_until_runnable (me : Z) : M tty unit := s ← get; yield_loop (S (length (keys s) + more)) me.

(** [do { scheduler_make_blocked(...); scheduler_yield(); ... } while(!available)] *)
Fixpoint wait_loop (fuel : nat) (me : Z) : M tty unit :=
  match fuel with
  | O => nofuel
  | S fuel =>
      modify (λ s, set_blocked ({[me]} ∪ blocked s) s);;
      yield_until_runnable me;;
      s ← get;
      if tty_line_read_chars_available (lines s) =? 0 then wait_loop fuel me else mret tt
  end.

(** An interrupt may let the driver run between the test and the blocking. *)
Definition tty_wait_chars_available (me : Z) : M tty Z :=
  s ← get;
  if tty_line_read_chars_available (lines s) =? 0 then
    others_run;;
    modify (λ s, set_observers (me :: observers s) s);;
    s ← get;
    wait_loop (S (length (keys s) + more)) me;;
    modify (λ s, set_observers (filter (.≠ me) (observers s)) s);;
    mret 0
  else mret 0.

Definition tty_getc (me : Z) : M tty Z :=
  _ ← tty_wait_chars_available me;
  s ← get;
  let line := lines s in
  if tty_line_read_chars_available line =? 0 then mret (-1)
  else
    match data line !! Z.to_nat (read_pos line) with
    | Some b =>
        put (set_line (TtyLine (data line) (capacity line) (line_length line) (u32 (read_pos line + 1)) (write_pos line)) s);;
        mret (s8 b)
    | None => fault
    end.

(** The result, and the characters stored in the caller's buffer. *)
Fixpoint gets_loop (fuel : nat) (me c i maxlength : Z) : M tty (Z * list Z) :=
  match fuel with
  | O => nofuel
  | S fuel =>
      if negb (c =? TTY_NEW_LINE_CHAR) && (i <? maxlength) then
        c ← tty_getc me;
        if s8 c <? 0 then mret (s8 c, [])
        else
          '(r, cs) ← gets_loop fuel me (s8 c) (i + 1) maxlength;
          mret (r, s8 c :: cs)
      else mret (i, [])
  end.

Definition tty_gets (me maxlength : Z) : M tty (Z * list Z) := gets_loop (S (Z.to_nat maxlength)) me 0 0 maxlength.
End Wait.

(** ** The invariant *)

(** Positions are in order, and the block has [capacity] bytes. *)
Record line_ok (l : tty_line) : Prop := {
  lo_read : 0 ≤ read_pos l ≤ write_pos l;
  lo_length : line_length l = write_pos l;
  lo_write : write_pos l ≤ capacity l;
  lo_data : Z.of_nat (length (data l)) = capacity l;
  lo_capacity : capacity l ≤ 2 ^ 30
}.

(** The characters stored and not yet read. *)
Definition unread (l : tty_line) : list Z :=
  take (Z.to_nat (write_pos l - read_pos l)) (drop (Z.to_nat (read_pos l)) (data l)).

(** No block is larger than the kernel's part of the address space. *)
Hypothesis alloc_small : ∀ n size, alloc n size = true → size ≤ 2 ^ 30.

Lemma unread_length l : line_ok l → Z.of_nat (length (unread l)) = write_pos l - read_pos l.
Proof. intros []. unfold unread. rewrite length_take, length_drop. lia. Qed.

Lemma unread_nil l : line_ok l → (tty_line_read_chars_available l =? 0) = bool_decide (unread l = []).
Proof.
  intros Hl. pose proof (unread_length l Hl) as Hn. destruct Hl. unfold tty_line_read_chars_available.
  rewrite lo_length0, u32_small by lia. destruct (unread l) eqn:E; simpl in Hn.
  - rewrite bool_decide_true by done. apply Z.eqb_eq. lia.
  - rewrite bool_decide_false by done. apply Z.eqb_neq. lia.
Qed.

Lemma lookup_unread l i : line_ok l → (i < Z.to_nat (write_pos l - read_pos l))%nat →
  unread l !! i = data l !! (Z.to_nat (read_pos l) + i)%nat.
Proof. intros Hl Hi. unfold unread. rewrite lookup_take_lt by done. by rewrite lookup_drop. Qed.

(** Two lines with the same positions and the same bytes between them. *)
Lemma unread_ext l l' :
  line_ok l → line_ok l' → write_pos l' - read_pos l' = write_pos l - read_pos l →
  (∀ i, (i < Z.to_nat (write_pos l - read_pos l))%nat →
    data l' !! (Z.to_nat (read_pos l') + i)%nat = data l !! (Z.to_nat (read_pos l) + i)%nat) →
  unread l' = unread l.
Proof.
  intros Hl Hl' Hw Hd. pose proof (unread_length l Hl). pose proof (unread_length l' Hl').
  apply list_eq. intros i. destruct (decide (i < Z.to_nat (write_pos l - read_pos l))%nat) as [Hi|Hi].
  - rewrite !lookup_unread by (done || lia). by apply Hd.
  - rewrite !lookup_ge_None_2 by lia. done.
Qed.

Lemma reserve_ok s :
  line_ok (lines s) →
  ∃ r s', tty_line_reserve_space 1 s = Ret r s' ∧
    ((r = 0 ∧ s' = set_allocs (allocs s') (set_line (lines s') s) ∧ line_ok (lines s') ∧
      unread (lines s') = unread (lines s) ∧ write_pos (lines s') < capacity (lines s') ∧
      read_pos (lines s') = read_pos (lines s) ∧ write_pos (lines s') = write_pos (lines s)) ∨
     (r = -1 ∧ s' = set_allocs (allocs s') s ∧
      ∃ size, size ≤ 2 * write_pos (lines s) + 1 ∧ alloc (allocs s) size = false)).
Proof.
  intros Hl. unfold tty_line_reserve_space. rewrite bind_get. pose proof Hl as [].
  unfold tty_line_write_space_available. rewrite u32_small by lia.
  destruct (Z.ltb_spec (capacity (lines s) - write_pos (lines s)) 1) as [Hlt|Hge].
  - set (size := Z.max 1 _). unfold realloc_block. rewrite bind_assoc, bind_get. rewrite bind_assoc.
    rewrite (bind_ret (put _) _ _ tt _ eq_refl). destruct (alloc (allocs s) size) eqn:Ea.
    + pose proof (alloc_small _ _ Ea) as Hs. assert (Hsz : size = Z.max 1 (capacity (lines s) * 2)).
      { unfold size. f_equal. apply u32_small. lia. }
      set (d := _ <$> seq 0 (Z.to_nat size)).
      assert (Hlen : length d = Z.to_nat size) by (unfold d; by rewrite length_fmap, length_seq).
      assert (Hl' : line_ok (TtyLine d size (line_length (lines s)) (read_pos (lines s)) (write_pos (lines s)))).
      { split; simpl; lia. }
      exists 0. eexists. split; [by destruct s|]. left. cbn [lines set_line]. split; [done|]. split; [by destruct s|].
      split; [done|]. split.
      * apply unread_ext; [done|done|done|]. simpl. intros i Hi. unfold d. rewrite list_lookup_fmap, lookup_seq_lt by lia. simpl.
        destruct (lookup_lt_is_Some_2 (data (lines s)) (Z.to_nat (read_pos (lines s)) + i)) as [b Hb]; [lia|]. by rewrite Hb.
      * simpl. lia.
    + exists (-1). eexists. split; [done|]. right. split; [done|]. split; [by destruct s|]. exists size. split; [|done].
      unfold size. rewrite u32_small by lia. lia.
  - exists 0, s. split; [done|]. left. split; [done|]. split; [by destruct s|]. split_and!; try done. lia.
Qed.

(** Storing one more character. *)
Lemma push_ok l b :
  line_ok l → write_pos l < capacity l →
  let l' := TtyLine (<[Z.to_nat (write_pos l) := b]> (data l)) (capacity l) (u32 (line_length l + 1)) (read_pos l) (u32 (write_pos l + 1)) in
  line_ok l' ∧ unread l' = unread l ++ [b].
Proof.
  intros Hl Hw l'. pose proof Hl as [].
  assert (Hl' : line_ok l').
  { unfold l'. rewrite !u32_small by lia. split; cbn [read_pos write_pos capacity data line_length]; rewrite ?length_insert; lia. }
  split; [done|]. pose proof (unread_length l Hl) as Hn. pose proof (unread_length l' Hl') as Hn'.
  assert (E : write_pos l' - read_pos l' = write_pos l - read_pos l + 1).
  { unfold l'. cbn [write_pos read_pos]. rewrite u32_small; lia. }
  apply list_eq. intros i. destruct (decide (i < length (unread l))%nat) as [Hi|Hi].
  - rewrite lookup_app_l by done. rewrite !lookup_unread by (done || lia). cbn [l' data read_pos].
    apply list_lookup_insert_ne. lia.
  - destruct (decide (i = length (unread l))) as [->|Hne].
    + rewrite lookup_app_r, Nat.sub_diag by done. rewrite lookup_unread by (done || lia). cbn [l' data read_pos].
      replace (Z.to_nat (read_pos l) + length (unread l))%nat with (Z.to_nat (write_pos l)) by lia.
      apply list_lookup_insert_eq. lia.
    + rewrite !lookup_ge_None_2 by (rewrite ?length_app; simpl; lia). done.
Qed.

(** Removing the last one. *)
Lemma pop_ok l :
  line_ok l → read_pos l < write_pos l →
  let l' := TtyLine (data l) (capacity l) (u32 (line_length l - 1)) (read_pos l) (u32 (write_pos l - 1)) in
  line_ok l' ∧ unread l' = removelast (unread l).
Proof.
  intros Hl Hw l'. pose proof Hl as []. pose proof (unread_length l Hl) as Hn.
  assert (E : write_pos l' = write_pos l - 1) by (unfold l'; cbn [write_pos]; apply u32_small; lia).
  assert (Hl' : line_ok l').
  { unfold l'. rewrite !u32_small by lia. split; cbn [read_pos write_pos capacity data line_length]; lia. }
  split; [done|]. rewrite removelast_firstn_len. unfold unread. rewrite E. cbn [l' read_pos data]. rewrite take_take.
  f_equal. unfold unread in Hn. lia.
Qed.

Lemma compact_ok l n :
  line_ok l →
  let l' := TtyLine (moved l n) (capacity l) (u32 (line_length l - read_pos l)) 0 (u32 (write_pos l - read_pos l)) in
  line_ok l' ∧ unread l' = unread l.
Proof.
  intros Hl l'. pose proof Hl as []. assert (Hn : Z.of_nat (length (moved l n)) = capacity l).
  { unfold moved. rewrite length_app, length_fmap, length_seq, length_drop. lia. }
  assert (Hl' : line_ok l').
  { unfold l'. rewrite !u32_small by lia. split; cbn [read_pos write_pos capacity data line_length]; lia. }
  split; [done|]. apply unread_ext; [done|done| |].
  - unfold l'. cbn [write_pos read_pos]. rewrite u32_small; lia.
  - intros i Hi. unfold l'. cbn [read_pos data]. change (Z.to_nat 0 + i)%nat with i. unfold moved.
    rewrite lookup_app_l by (rewrite length_fmap, length_seq; lia). rewrite list_lookup_fmap, lookup_seq_lt by lia. simpl.
    destruct (lookup_lt_is_Some_2 (data l) (Z.to_nat (read_pos l) + i)) as [b Hb]; [lia|]. by rewrite Hb.
Qed.

(** ** Keys *)

(** What a key does to the characters waiting to be read, and what it echoes. *)
Definition accepted (e : tty_key_event) : bool :=
  match event_type e with
  | tty_key_down => (mod_keys e =? 0) || (mod_keys e =? tty_mod_shift)
  | tty_key_up => false
  end.

Definition key_spec (e : tty_key_event) (q : list Z) : list Z :=
  if accepted e then if character e =? 8 then removelast q else q ++ [u8 (character e)] else q.

Definition key_echo (e : tty_key_event) (q : list Z) : list Z :=
  if accepted e then if (character e =? 8) && bool_decide (q = []) then [] else [character e] else [].

(** The observers a key wakes. *)
Definition key_wakes (e : tty_key_event) (s : tty) : gset Z :=
  if accepted e && (character e =? 10) then list_to_set (observers s) else ∅.

Lemma append_ok s c :
  line_ok (lines s) →
  ∃ r s', tty_line_append_char c s = Ret r s' ∧
    line_ok (lines s') ∧ observers s' = observers s ∧ blocked s' = blocked s ∧ keys s' = keys s ∧
    write_pos (lines s') ≤ write_pos (lines s) + 1 ∧
    ((r = 0 ∧ unread (lines s') = (if c =? 8 then removelast (unread (lines s)) else unread (lines s) ++ [u8 c]) ∧
      echo s' = (if (c =? 8) && bool_decide (unread (lines s) = []) then [] else [c]) ++ echo s) ∨
     (r = -1 ∧ lines s' = lines s ∧ echo s' = echo s ∧
      ∃ size, size ≤ 2 * write_pos (lines s) + 1 ∧ alloc (allocs s) size = false)).
Proof.
  intros Hl. pose proof Hl as []. unfold tty_line_append_char. rewrite bind_get. pose proof (unread_length _ Hl) as Hn.
  destruct (Z.eqb_spec c 8) as [->|Hc].
  - destruct (Z.ltb_spec (read_pos (lines s)) (write_pos (lines s))) as [Hlt|Hge].
    + destruct (pop_ok (lines s) Hl Hlt) as [Hl' Hu']. exists 0. eexists. split; [by destruct s|]. cbn [lines observers blocked keys echo set_echo set_line].
      split; [exact Hl'|]. split_and!; try done; [cbn [write_pos]; rewrite u32_small; lia|]. left. split; [done|]. split; [exact Hu'|].
      rewrite bool_decide_false; [done|]. intros E. rewrite E in Hn. simpl in Hn. lia.
    + exists 0, s. split; [done|]. split_and!; try done; [lia|]. left. split; [done|].
      assert (unread (lines s) = []) as -> by (apply length_zero_iff_nil; lia). done.
  - destruct (reserve_ok s Hl) as (r & s1 & E & [(-> & Hs1 & Hl1 & Hu1 & Hw1 & Hr1 & Hw1')|(-> & Hs1 & Hf)]); step E.
    + change (negb (0 =? 0)) with false. cbv iota. rewrite bind_get. pose proof Hl1 as [].
      assert (Hsp : (0 <? tty_line_write_space_available (lines s1)) = true).
      { unfold tty_line_write_space_available. rewrite u32_small by lia. apply Z.ltb_lt. lia. }
      rewrite Hsp. rewrite (bind_ret (assert true _) _ _ tt s1 eq_refl). rewrite decide_True by lia.
      destruct (push_ok (lines s1) (u8 c) Hl1 Hw1) as [Hl2 Hu2].
      exists 0. eexists. split; [reflexivity|]. cbn [lines observers blocked keys echo set_echo set_line].
      split; [exact Hl2|]. rewrite Hs1. split_and!; try done.
      { cbn [write_pos lines set_allocs set_line]. rewrite u32_small; lia. }
      left. split; [done|]. split; [|done]. rewrite <- Hu1, Hs1 in *. exact Hu2.
    + exists (-1), s1. split; [done|]. rewrite Hs1. split_and!; try done; [cbn; lia|]. right. done.
Qed.

(** The effect of a key: it is taken, or dropped because the line cannot grow. *)
Definition key_taken (e : tty_key_event) (s s' : tty) : Prop :=
  unread (lines s') = key_spec e (unread (lines s)) ∧ echo s' = key_echo e (unread (lines s)) ++ echo s ∧
  blocked s' = blocked s ∖ key_wakes e s.

Definition key_dropped (s s' : tty) : Prop :=
  unread (lines s') = unread (lines s) ∧ echo s' = echo s ∧ blocked s' = blocked s ∧
  ∃ size, size ≤ 2 * write_pos (lines s) + 1 ∧ alloc (allocs s) size = false.

Lemma send_key_ok s e :
  line_ok (lines s) →
  ∃ s', tty_send_key_event e s = Ret tt s' ∧ line_ok (lines s') ∧ observers s' = observers s ∧ keys s' = keys s ∧
    write_pos (lines s') ≤ write_pos (lines s) + 1 ∧ (key_taken e s s' ∨ key_dropped s s').
Proof.
  intros Hl. unfold tty_send_key_event, key_taken, key_spec, key_echo, key_wakes, accepted.
  destruct (event_type e); [destruct (_ || _)|]; cbn [andb].
  2,3: exists s; split_and!; try done; [lia|]; left; split_and!; try done; set_solver.
  destruct (append_ok s (character e) Hl) as (r & s1 & E & Hl1 & Ho & Hb & Hk & Hw & Hr).
  destruct (Z.eqb_spec (character e) 10) as [E10|Hne].
  - rewrite E10 in *. unfold tty_line_newline. rewrite bind_assoc. step E.
    destruct Hr as [(-> & Hu & He)|(-> & Hu & He & Hf)].
    + cbn [Z.eqb]. destruct (compact_ok (lines s1) (allocs s1) Hl1) as [Hl2 Hu2]. eexists. split; [by destruct s1|].
      cbn [lines observers keys blocked echo set_line set_blocked]. split; [exact Hl2|]. split; [done|]. split; [done|].
      split; [cbn [write_pos]; destruct Hl1; rewrite u32_small; lia|]. left. split; [exact (eq_trans Hu2 Hu)|]. split; [exact He|]. by rewrite Hb, Ho.
    + change (-1 =? 0) with false. cbv iota. exists s1. split_and!; try done. right. split_and!; try done. by rewrite Hu.
  - step E. exists s1. split; [done|]. split_and!; try done. destruct Hr as [(-> & Hu & He)|(-> & Hu & He & Hf)].
    + left. split_and!; try done. rewrite Hb. set_solver.
    + right. split_and!; try done. by rewrite Hu.
Qed.

(** ** Keys and the line *)

(** Memory for a line of up to 2^18 characters. *)
Definition roomy : Prop := ∀ n size, size ≤ 2 ^ 20 → alloc n size = true.

Lemma send_keys_ok s es :
  roomy → line_ok (lines s) → write_pos (lines s) + Z.of_nat (length es) ≤ 2 ^ 18 →
  ∃ s', send_keys es s = Ret tt s' ∧ line_ok (lines s') ∧ observers s' = observers s ∧ keys s' = keys s ∧
    unread (lines s') = fold_left (λ q e, key_spec e q) es (unread (lines s)) ∧
    blocked s' = blocked s ∖ ⋃ ((λ e, key_wakes e s) <$> es) ∧
    write_pos (lines s') ≤ write_pos (lines s) + Z.of_nat (length es).
Proof.
  intros Hroom. revert s. induction es as [|e es IH]; intros s Hl Hw; cbn [send_keys fold_left].
  - exists s. split_and!; try done; [set_solver|simpl; lia].
  - simpl length in Hw. destruct (send_key_ok s e Hl) as (s1 & E & Hl1 & Ho & Hk & Hw1 & Hr). step E.
    destruct Hr as [(Hu & _ & Hb)|(_ & _ & _ & size & Hsz & Hf)]; [|by rewrite Hroom in Hf by lia].
    destruct (IH s1 Hl1 ltac:(lia)) as (s' & E' & Hl' & Ho' & Hk' & Hu' & Hb' & Hw'). exists s'.
    split_and!; try done; try congruence; [|simpl length; lia].
    rewrite Hb', Hb. unfold key_wakes. rewrite Ho. rewrite fmap_cons. cbn [union_list foldr]. set_solver.
Qed.

(** The keys that have been typed, edited. *)
Definition typed (es : list tty_key_event) (q : list Z) : list Z := fold_left (λ q e, key_spec e q) es q.

Definition char_range (e : tty_key_event) : Prop := -128 ≤ character e < 128.

(** A newline in the line was a newline key, which wakes the observers. *)
Lemma typed_newline es q :
  Forall char_range es → 10 ∈ typed es q → 10 ∈ q ∨ ∃ e, e ∈ es ∧ accepted e && (character e =? 10) = true.
Proof.
  unfold typed. revert q. induction es as [|e es IH]; intros q Hc Hin; [by left|].
  apply Forall_cons_1 in Hc as [Hc Hcs]. cbn [fold_left] in Hin. destruct (IH _ Hcs Hin) as [Hq|(e' & He' & Ha)].
  - unfold key_spec in Hq. destruct (accepted e) eqn:Ea; [|by left]. destruct (character e =? 8) eqn:E8.
    + left. clear -Hq. induction q as [|x q IH]; [done|]. destruct q as [|y q]; [by apply not_elem_of_nil in Hq|].
      change (removelast (x :: y :: q)) with (x :: removelast (y :: q)) in Hq. apply elem_of_cons in Hq as [->|Hq]; [by left|]. right. auto.
    + apply elem_of_app in Hq as [Hq|Hq%list_elem_of_singleton]; [by left|]. right. exists e. split; [by left|].
      rewrite Ea. simpl. apply Z.eqb_eq. unfold char_range, u8 in *. Z.to_euclidean_division_equations. lia.
  - right. exists e'. split; [by right|done].
Qed.

(** ** Reading a line *)

Section Reading.
Variable more : nat.
Notation tty_getc := (tty_getc more).
Notation tty_wait_chars_available := (tty_wait_chars_available more).
Notation wait_loop := (wait_loop more).
Notation yield_until_runnable := (yield_until_runnable more).
Notation gets_loop := (gets_loop more).
Notation tty_gets := (tty_gets more).

Lemma getc_ok s me b q :
  line_ok (lines s) → unread (lines s) = b :: q →
  ∃ s', tty_getc me s = Ret (s8 b) s' ∧ line_ok (lines s') ∧ unread (lines s') = q ∧ s' = set_line (lines s') s.
Proof.
  intros Hl Hq. unfold tty_getc, tty_wait_chars_available. rewrite bind_assoc, bind_get. rewrite (unread_nil _ Hl), Hq.
  rewrite bool_decide_false by done. rewrite (bind_ret (mret 0) _ s 0 s eq_refl). rewrite bind_get, (unread_nil _ Hl), Hq.
  rewrite bool_decide_false by done. pose proof (unread_length _ Hl) as Hn. rewrite Hq in Hn. simpl length in Hn. pose proof Hl as [].
  assert (Hb : data (lines s) !! Z.to_nat (read_pos (lines s)) = Some b).
  { rewrite <- (Nat.add_0_r (Z.to_nat (read_pos (lines s)))), <- lookup_unread by (done || lia). by rewrite Hq. }
  rewrite Hb. eexists. split; [by destruct s|]. cbn [lines set_line].
  assert (Hl' : line_ok (TtyLine (data (lines s)) (capacity (lines s)) (line_length (lines s)) (u32 (read_pos (lines s) + 1)) (write_pos (lines s)))).
  { rewrite u32_small by lia. split; cbn [read_pos write_pos capacity data line_length]; lia. }
  split; [done|]. split; [|by destruct s].
  change q with (tail (b :: q)). rewrite <- Hq. unfold unread. cbn [read_pos write_pos data]. rewrite u32_small by lia.
  replace (Z.to_nat (read_pos (lines s) + 1)) with (S (Z.to_nat (read_pos (lines s)))) by lia.
  destruct (drop (Z.to_nat (read_pos (lines s))) (data (lines s))) as [|x d] eqn:Ed.
  { apply (f_equal length) in Ed. rewrite length_drop in Ed. simpl in Ed. lia. }
  replace (Z.to_nat (write_pos (lines s) - read_pos (lines s))) with (S (Z.to_nat (write_pos (lines s) - (read_pos (lines s) + 1)))) by lia.
  cbn [take tail]. f_equal. change d with (tail (x :: d)). rewrite <- Ed.
  rewrite <- (Nat.add_1_r (Z.to_nat (read_pos (lines s)))), <- drop_drop. by destruct (drop _ _).
Qed.

(** C25: every key leaves the line well-formed, with its positions in order and
    within the block, and acts on the characters that wait to be read as on a
    queue: backspace removes the last one, if there is one, any other character is put
    at the end and echoed, a newline wakes the observers as well, releases and keys
    with control or alt do nothing; a key is dropped only if an allocation fails.
    Reading takes the first character of the queue. *)
Theorem tty_line_queue s :
  line_ok (lines s) →
  (∀ e, ∃ s', tty_send_key_event e s = Ret tt s' ∧ line_ok (lines s') ∧ observers s' = observers s ∧
    (key_taken e s s' ∨ key_dropped s s')) ∧
  (∀ me b q, unread (lines s) = b :: q →
    ∃ s', tty_getc me s = Ret (s8 b) s' ∧ line_ok (lines s') ∧ unread (lines s') = q ∧ s' = set_line (lines s') s).
Proof.
  intros Hl. split.
  - intros e. destruct (send_key_ok s e Hl) as (s' & E & Hl' & Ho & _ & _ & H). by exists s'.
  - intros me b q Hq. apply getc_ok; done.
Qed.

Lemma gets_loop_ok fuel me c i maxlength s cs q :
  line_ok (lines s) → unread (lines s) = cs ++ 10 :: q → c ≠ 10 → Forall (λ b, 0 ≤ b < 128 ∧ b ≠ 10) cs →
  i + Z.of_nat (length cs) < maxlength → (length cs + 1 < fuel)%nat →
  ∃ s', gets_loop fuel me c i maxlength s = Ret (i + Z.of_nat (length cs) + 1, cs ++ [10]) s' ∧
    line_ok (lines s') ∧ unread (lines s') = q ∧ s' = set_line (lines s') s.
Proof.
  revert fuel c i s. induction cs as [|b cs IH]; intros [|fuel] c i s Hl Hu Hc Hcs Hi Hf; simpl in Hf, Hi; try lia;
    cbn [gets_loop]; rewrite (proj2 (Z.eqb_neq c 10) Hc), (proj2 (Z.ltb_lt i maxlength)) by lia; cbn [negb andb].
  - destruct (getc_ok s me 10 q Hl Hu) as (s1 & E & Hl1 & Hu1 & Hs1). step E. change (s8 (s8 10)) with 10. change (10 <? 0) with false. cbv iota.
    destruct fuel as [|fuel]; [lia|]. cbn [gets_loop]. change (negb (10 =? 10)) with false. cbn [andb].
    exists s1. split; [|done]. rewrite Z.add_0_r. done.
  - apply Forall_cons_1 in Hcs as [[Hb Hb10] Hcs]. destruct (getc_ok s me b (cs ++ 10 :: q) Hl Hu) as (s1 & E & Hl1 & Hu1 & Hs1). step E.
    assert (Hs8 : s8 b = b) by (unfold s8; Z.to_euclidean_division_equations; lia). rewrite !Hs8.
    rewrite (proj2 (Z.ltb_ge b 0)) by lia.
    destruct (IH fuel b (i + 1) s1 Hl1 Hu1 Hb10 Hcs ltac:(lia) ltac:(lia)) as (s' & E' & Hl' & Hu' & Hs').
    rewrite (bind_ret _ _ _ _ _ E'). exists s'. split; [|split_and!; [done|done|by rewrite Hs', Hs1]].
    unfold mret, M_ret. do 2 f_equal. simpl length. lia.
Qed.

(** The keys [es] arrive while the reader waits. *)
Lemma wait_ok s me es rest :
  roomy → line_ok (lines s) → unread (lines s) = [] → keys s = [] :: es :: rest → me ∉ observers s →
  write_pos (lines s) + Z.of_nat (length es) ≤ 2 ^ 18 → Forall char_range es → 10 ∈ typed es [] →
  ∃ s', tty_wait_chars_available me s = Ret 0 s' ∧ line_ok (lines s') ∧ unread (lines s') = typed es [] ∧
    observers s' = observers s ∧ keys s' = rest ∧ me ∉ blocked s'.
Proof.
  intros Hroom Hl Hu Hk Hme Hw Hc Hn. unfold tty_wait_chars_available. rewrite bind_get.
  rewrite (unread_nil _ Hl), Hu. rewrite bool_decide_true by done.
  set (s1 := set_observers (me :: observers s) (set_keys (es :: rest) s)).
  assert (E1 : others_run s = Ret tt (set_keys (es :: rest) s)) by (unfold others_run; rewrite bind_get, Hk; done).
  step E1. rewrite bind_modify. fold s1. rewrite bind_get. cbn [wait_loop]. rewrite bind_assoc, bind_modify.
  set (s2 := set_blocked ({[me]} ∪ blocked s1) s1).
  destruct (send_keys_ok (set_keys rest s2) es Hroom Hl Hw) as (s3 & E3 & Hl3 & Ho3 & Hk3 & Hu3 & Hb3 & _).
  assert (Hwake : me ∉ blocked s3).
  { destruct (typed_newline es [] Hc Hn) as [H|(e & He & Ha)]; [by apply not_elem_of_nil in H|].
    rewrite Hb3. intros [_ Hnot]%elem_of_difference. apply Hnot. apply elem_of_union_list.
    exists (key_wakes e (set_keys rest s2)). split; [by apply (list_elem_of_fmap_2 (λ e, key_wakes e (set_keys rest s2)))|].
    unfold key_wakes. rewrite Ha. simpl. set_solver. }
  assert (Ey : yield_until_runnable me s2 = Ret tt s3).
  { unfold yield_until_runnable. rewrite bind_get. cbn [keys s2 s1 set_blocked set_observers set_keys length Nat.add yield_loop]. rewrite bind_get.
    rewrite decide_True by (cbn; set_solver). unfold others_run. rewrite bind_assoc, bind_get.
    cbn [keys s2 s1 set_blocked set_observers set_keys]. rewrite bind_assoc.
    rewrite (bind_ret (put _) _ _ tt _ eq_refl). rewrite (bind_ret _ _ _ _ _ E3). rewrite bind_get. by rewrite decide_False by done. }
  rewrite bind_assoc. step Ey. rewrite bind_assoc, bind_get. rewrite (unread_nil _ Hl3), Hu3.
  change (unread (lines (set_keys rest s2))) with (unread (lines s)). rewrite Hu. fold (typed es []).
  rewrite bool_decide_false by (intros E; rewrite E in Hn; by apply not_elem_of_nil in Hn).
  rewrite (bind_ret (mret tt) _ s3 tt s3 eq_refl). rewrite bind_modify. eexists. split; [done|].
  cbn [lines observers keys blocked set_observers]. split; [done|]. split; [by rewrite Hu3; change (unread (lines (set_keys rest s2))) with (unread (lines s)); rewrite Hu|].
  split; [|by split]. rewrite Ho3. cbn [observers s2 s1 set_keys set_blocked set_observers].
  rewrite filter_cons_False by (intros H; by apply H). clear -Hme. induction (observers s) as [|o os IH]; [done|].
  rewrite filter_cons_True by set_solver. f_equal. apply IH. set_solver.
Qed.

(** A reader that found characters, at once or after waiting, goes on the same way. *)
Lemma gets_after_wait me maxlength s s1 :
  0 < maxlength → line_ok (lines s1) → unread (lines s1) ≠ [] → tty_wait_chars_available me s = Ret 0 s1 →
  tty_gets me maxlength s = tty_gets me maxlength s1.
Proof.
  intros Hmax Hl Hu Hw. unfold tty_gets. replace (Z.to_nat maxlength) with (S (Z.to_nat (maxlength - 1))) by lia.
  cbn [gets_loop]. rewrite (proj2 (Z.ltb_lt 0 maxlength) Hmax). cbn [negb andb Z.eqb]. apply bind_run. unfold tty_getc.
  rewrite (bind_ret _ _ _ _ _ Hw). symmetry.
  assert (Hw1 : tty_wait_chars_available me s1 = Ret 0 s1).
  { unfold tty_wait_chars_available. rewrite bind_get, (unread_nil _ Hl). by rewrite bool_decide_false. }
  by rewrite (bind_ret _ _ _ _ _ Hw1).
Qed.

Lemma bind_nofuel {S A B} (m : M S A) (k : A → M S B) s : m s = NoFuel → (m ≫= k) s = NoFuel.
Proof. intros H. unfold mbind, M_bind. by rewrite H. Qed.

Lemma blocked_forever fuel fuel' me s :
  line_ok (lines s) → keys s = [] → me ∈ blocked s → yield_loop fuel me s = NoFuel ∧ wait_loop fuel' me s = NoFuel.
Proof.
  intros Hl Hk Hb. assert (Hy : ∀ fuel s, keys s = [] → me ∈ blocked s → yield_loop fuel me s = NoFuel).
  { clear. induction fuel as [|fuel IH]; intros s Hk Hb; [done|]. cbn [yield_loop]. rewrite bind_get, decide_True by done.
    assert (E : others_run s = Ret tt s) by (unfold others_run; by rewrite bind_get, Hk). step E. by apply IH. }
  split; [by apply Hy|]. destruct fuel' as [|fuel']; [done|]. cbn [wait_loop]. rewrite bind_modify.
  unfold yield_until_runnable. rewrite bind_assoc, bind_get. unfold mbind, M_bind. rewrite Hy; [done|done|]. cbn. set_solver.
Qed.

(** C26: let a line of 7-bit characters be typed, of at most 2^18 keys,
    while every allocation succeeds and while no characters wait to be read, and
    let the line be shorter than [maxlength].  If the keys arrive while
    [tty_gets] is blocked, the line is returned, as edited, with its newline, and the
    characters after it stay in the buffer; the reader is no longer an observer
    and runs.  If they arrive after the test for characters and before the
    reader is blocked, and none follow, the reader never returns, although the
    line is there: the wait does not end in any number of rounds. *)
Theorem tty_gets_reads_line s me es rest cs q maxlength :
  (∀ n size, size ≤ 2 ^ 20 → alloc n size = true) →
  line_ok (lines s) → unread (lines s) = [] → me ∉ observers s →
  write_pos (lines s) + Z.of_nat (length es) ≤ 2 ^ 18 → Forall char_range es →
  typed es [] = cs ++ 10 :: q → Forall (λ b, 0 ≤ b < 128 ∧ b ≠ 10) cs → Z.of_nat (length cs) < maxlength →
  (keys s = [] :: es :: rest →
    ∃ s', tty_gets me maxlength s = Ret (Z.of_nat (length cs) + 1, cs ++ [10]) s' ∧ line_ok (lines s') ∧
      unread (lines s') = q ∧ observers s' = observers s ∧ keys s' = rest ∧ me ∉ blocked s') ∧
  (keys s = [es] → tty_gets me maxlength s = NoFuel).
Proof.
  intros Hroom Hl Hu Hme Hw Hc Ht Hcs Hmax. split; intros Hk.
  - assert (Hn : 10 ∈ typed es []) by (rewrite Ht; set_solver).
    destruct (wait_ok s me es rest Hroom Hl Hu Hk Hme Hw Hc Hn) as (s1 & E1 & Hl1 & Hu1 & Ho1 & Hk1 & Hb1).
    rewrite (gets_after_wait me maxlength s s1) by (done || lia || (rewrite Hu1, Ht; by destruct cs)).
    destruct (gets_loop_ok (S (Z.to_nat maxlength)) me 0 0 maxlength s1 cs q) as (s' & E & Hl' & Hu' & Hs'); try done; try lia.
    { by rewrite Hu1. }
    exists s'. split; [exact E|]. split; [done|]. split; [done|]. rewrite Hs'. done.
  - destruct (send_keys_ok (set_keys [] s) es Hroom Hl Hw) as (s1 & E1 & Hl1 & _ & Hk1 & _).
    assert (E : others_run s = Ret tt s1) by (unfold others_run; rewrite bind_get, Hk; exact E1).
    assert (Hwait : tty_wait_chars_available me s = NoFuel).
    { unfold tty_wait_chars_available. rewrite bind_get. rewrite (unread_nil _ Hl), Hu. rewrite bool_decide_true by done.
      rewrite (bind_ret _ _ _ _ _ E). rewrite bind_modify, bind_get. cbn [wait_loop]. apply bind_nofuel. rewrite bind_modify.
      apply bind_nofuel. unfold yield_until_runnable. rewrite bind_get. apply (blocked_forever _ 0); [done|done|]. cbn. set_solver. }
    unfold tty_gets. replace (Z.to_nat maxlength) with (S (Z.to_nat (maxlength - 1))) by lia. cbn [gets_loop].
    rewrite (proj2 (Z.ltb_lt 0 maxlength)) by lia. cbn [negb andb Z.eqb]. apply bind_nofuel. unfold tty_getc. by apply bind_nofuel.
Qed.
End Reading.
End Tty.

(** ** A concrete line *)

Definition ex_alloc (n : nat) (size : Z) : bool := size <=? 2 ^ 20.

Lemma ex_alloc_small n size : ex_alloc n size = true → size ≤ 2 ^ 30.
Proof. intros H%Z.leb_le. lia. Qed.

Definition ex_key (c : Z) : tty_key_event := TtyKeyEvent tty_key_down c 0.
Definition ex_tty (ks : list (list tty_key_event)) : tty := Tty (TtyLine [] 0 0 0 0) [] ∅ [] ks 0.

Lemma ex_tty_ok ks : line_ok (lines (ex_tty ks)).
Proof. split; simpl; lia. Qed.

Lemma tty_line_queue_witness :
  ∃ s', tty_send_key_event ex_alloc (λ _ _, 0) (ex_key 97) (ex_tty []) = Ret tt s' ∧ line_ok (lines s').
Proof.
  destruct (tty_line_queue ex_alloc (λ _ _, 0) ex_alloc_small 0 (ex_tty []) (ex_tty_ok [])) as [H _].
  destruct (H (ex_key 97)) as (s' & E & Hl & _). exists s'. split; [exact E|exact Hl].
Defined.

(** [a], [b], backspace, [c] and newline. *)
Definition ex_line : list tty_key_event := ex_key <$> [97; 98; 8; 99; 10].

Lemma tty_gets_reads_line_witness :
  (∃ s', tty_gets ex_alloc (λ _ _, 0) 0 7 80 (ex_tty [[]; ex_line]) = Ret (3, [97; 99; 10]) s') ∧
  (∀ more, tty_gets ex_alloc (λ _ _, 0) more 7 80 (ex_tty [ex_line]) = NoFuel).
Proof.
  assert (Hc : Forall char_range ex_line) by (repeat constructor; done).
  assert (Hcs : Forall (λ b, 0 ≤ b < 128 ∧ b ≠ 10) [97; 99]) by (repeat constructor; done).
  split.
  - destruct (proj1 (tty_gets_reads_line ex_alloc (λ _ _, 0) ex_alloc_small 0 (ex_tty [[]; ex_line]) 7 ex_line [] [97; 99] [] 80
      (λ n size H, proj2 (Z.leb_le _ _) H) (ex_tty_ok _) eq_refl (not_elem_of_nil _) ltac:(simpl; lia) Hc eq_refl Hcs ltac:(simpl; lia)) eq_refl)
      as (s' & E & _). exists s'. exact E.
  - intros more. exact (proj2 (tty_gets_reads_line ex_alloc (λ _ _, 0) ex_alloc_small more (ex_tty [ex_line]) 7 ex_line [] [97; 99] [] 80
      (λ n size H, proj2 (Z.leb_le _ _) H) (ex_tty_ok _) eq_refl (not_elem_of_nil _) ltac:(simpl; lia) Hc eq_refl Hcs ltac:(simpl; lia)) eq_refl).
Defined.
