(* ===== verification/Ps2.v ===== *)
(** * The keyboard driver: kernel/ia32/ps2.c

    The thread of the driver reads bytes from the controller, collects the bytes
    of a scan code (set 2: a prefix E0 for extended keys, F0 for releases),
    keeps the state of the modifier keys in a word of bits and sends the
    characters of the other keys to the line discipline of Tty.v.

    What the controller gives is a function [dev] of the accesses made so far,
    as in Ports.v.  The states in which the thread sends commands are never
    entered, nothing queues a command, and they are left out. *)

From stdpp Require Import base numbers list gmap strings fin_maps sets.
From S2P Require Import Prelude MemUtil Ports Tty.

Definition _ps2_kbd_scancodes_set_2_en_gb : list Z :=
  [96; 0; 0; 0; 0; 0; 0; 0; 0; 0; 0; 0; 0; 9; 92; 0;
   0; 0; 0; 0; 0; 113; 49; 0; 0; 0; 122; 115; 97; 119; 50; 0;
   0; 99; 120; 100; 101; 52; 51; 0; 0; 32; 118; 102; 116; 114; 53; 0;
   0; 110; 98; 104; 103; 121; 54; 0; 0; 0; 109; 106; 117; 55; 56; 0;
   0; 44; 107; 105; 111; 48; 57; 0; 0; 46; 47; 108; 59; 112; 45; 0;
   0; 0; 39; 0; 91; 61; 0; 0; 0; 0; 10; 93; 0; 35; 0; 0;
   0; 0; 8; 0; 0; 49; 8; 52; 55; 0; 0; 0; 48; 46; 50; 53;
   54; 56; 27; 0; 0; 43; 51; 45; 42; 57; 0; 0; 0; 0; 0; 0].

Definition _ps2_kbd_scancodes_set_2_en_gb_shift : list Z :=
  [96; 0; 0; 0; 0; 0; 0; 0; 0; 0; 0; 0; 0; 9; 124; 0;
   0; 0; 0; 0; 0; 81; 33; 0; 0; 0; 90; 83; 65; 87; 34; 0;
   0; 67; 88; 68; 69; 36; 35; 0; 0; 32; 86; 70; 84; 82; 37; 0;
   0; 78; 66; 72; 71; 89; 94; 0; 0; 0; 77; 74; 85; 38; 42; 0;
   0; 60; 75; 73; 79; 41; 40; 0; 0; 62; 63; 76; 58; 80; 95; 0;
   0; 0; 64; 0; 123; 43; 0; 0; 0; 0; 10; 125; 0; 126; 0; 0;
   0; 0; 8; 0; 0; 49; 0; 52; 55; 0; 0; 0; 48; 46; 50; 53;
   54; 56; 27; 0; 0; 43; 51; 45; 42; 57; 0; 0; 0; 0; 0; 0].

Inductive ps2_driver_state := waiting_scancode_start | waiting_scancode_end.

Record ps2_state := Ps2State {
  ps2_trace : list io_event;
  _ps2_kbd_mod_state : Z;
  state : ps2_driver_state;
  scancode : list Z;
  scancode_i : Z;
  the_tty : tty
}.

Definition set_ps2_trace t s := Ps2State t (_ps2_kbd_mod_state s) (state s) (scancode s) (scancode_i s) (the_tty s).
Definition set_mod_state m s := Ps2State (ps2_trace s) m (state s) (scancode s) (scancode_i s) (the_tty s).
Definition set_state d s := Ps2State (ps2_trace s) (_ps2_kbd_mod_state s) d (scancode s) (scancode_i s) (the_tty s).
Definition set_scancode c i s := Ps2State (ps2_trace s) (_ps2_kbd_mod_state s) (state s) c i (the_tty s).
Definition set_the_tty t s := Ps2State (ps2_trace s) (_ps2_kbd_mod_state s) (state s) (scancode s) (scancode_i s) t.

#[export] Instance ps2_ports : Ports ps2_state := { io_trace := ps2_trace; set_io_trace := set_ps2_trace }.

Abbreviation PS2_DATA_PORT := 96 (only parsing).
Abbreviation PS2_SC_PORT := 100 (only parsing).
Abbreviation MAX_SCANCODE_BYTES := 8 (only parsing).
Abbreviation PS2_SC_ALT := 17 (only parsing).
Abbreviation PS2_SC_LEFT_SHIFT := 18 (only parsing).
Abbreviation PS2_SC_CTRL := 20 (only parsing).
Abbreviation PS2_SC_RIGHT_SHIFT := 89 (only parsing).
Abbreviation ps2_kbd_left_shift := 1 (only parsing).
Abbreviation ps2_kbd_right_shift := 2 (only parsing).
Abbreviation ps2_kbd_left_ctrl := 3 (only parsing).
Abbreviation ps2_kbd_right_ctrl := 4 (only parsing).
Abbreviation ps2_kbd_left_alt := 5 (only parsing).
Abbreviation ps2_kbd_right_alt := 6 (only parsing).

Definition ps2_kbd_mod_shift_pressed (m : Z) : bool := (getbit m ps2_kbd_left_shift =? 1) || (getbit m ps2_kbd_right_shift =? 1).
Definition ps2_kbd_mod_ctrl_pressed (m : Z) : bool := (getbit m ps2_kbd_left_ctrl =? 1) || (getbit m ps2_kbd_right_ctrl =? 1).
Definition ps2_kbd_mod_alt_pressed (m : Z) : bool := (getbit m ps2_kbd_left_alt =? 1) || (getbit m ps2_kbd_right_alt =? 1).

(** Element [i] of an array; outside it the code is undefined. *)
Definition elem (a : list Z) (i : Z) : M ps2_state Z :=
  match a !! Z.to_nat i with Some b => mret b | None => fault end.

Definition ps2_kbd_scancode_complete (scancode : list Z) (length : Z) : M ps2_state bool :=
  if length =? 1 then
    b0 ← elem scancode 0;
    mret (negb ((b0 =? 224) || (b0 =? 240) || (b0 =? 225)))
  else if length =? 2 then
    b0 ← elem scancode 0; b1 ← elem scancode 1;
    mret (negb ((b0 =? 224) && (b1 =? 240) || (b0 =? 225)))
  else if (3 <=? length) && (length <=? 7) then
    b0 ← elem scancode 0;
    mret (negb (b0 =? 225))
  else mret true.

Section Ps2.
Variable alloc : nat → Z → bool.
Variable beyond : nat → nat → Z.
Variable dev : list io_event → Z → Z.

Definition ps2_read_data : M ps2_state Z := inb dev PS2_DATA_PORT.
Definition ps2_read_status : M ps2_state Z := inb dev PS2_SC_PORT.
Definition ps2_can_read_data : M ps2_state bool := status ← ps2_read_status; mret (getbit status 0 =? 1).

(** [switch(key)] *)
Definition handle_key (pressed key : Z) (e0 : bool) : M ps2_state unit :=
  let set_mod bit := modify (λ s, set_mod_state (withbit (_ps2_kbd_mod_state s) bit pressed) s) in
  if key =? PS2_SC_ALT then set_mod (if e0 then ps2_kbd_right_alt else ps2_kbd_left_alt)
  else if key =? PS2_SC_CTRL then set_mod (if e0 then ps2_kbd_right_ctrl else ps2_kbd_left_ctrl)
  else if key =? PS2_SC_LEFT_SHIFT then set_mod ps2_kbd_left_shift
  else if key =? PS2_SC_RIGHT_SHIFT then set_mod ps2_kbd_right_shift
  else
    charset_key ← elem _ps2_kbd_scancodes_set_2_en_gb key;
    s ← get;
    let m := _ps2_kbd_mod_state s in
    '(charset_key, mods) ←
      (if ps2_kbd_mod_ctrl_pressed m || ps2_kbd_mod_alt_pressed m then
         mret (charset_key, Z.lor (Z.lor (if ps2_kbd_mod_ctrl_pressed m then tty_mod_ctrl else 0)
           (if ps2_kbd_mod_alt_pressed m then tty_mod_alt else 0)) (if ps2_kbd_mod_shift_pressed m then tty_mod_shift else 0))
       else if ps2_kbd_mod_shift_pressed m then
         c ← elem _ps2_kbd_scancodes_set_2_en_gb_shift key; mret (c, 0)
       else mret (charset_key, 0));
    if negb (charset_key =? 0) then
      zoom the_tty set_the_tty (tty_send_key_event alloc beyond
        (TtyKeyEvent (if pressed =? 1 then tty_key_down else tty_key_up) charset_key mods))
    else mret tt.

Definition ps2_kbd_handle_scancode (scancode : list Z) (length : Z) : M ps2_state unit :=
  assert (negb (length =? 0)) "length != 0";;
  b0 ← elem scancode 0;
  if b0 =? 240 then key ← elem scancode 1; handle_key 0 key false
  else if b0 =? 224 then
    b1 ← elem scancode 1;
    if b1 =? 240 then key ← elem scancode 2; handle_key 0 key true
    else handle_key 1 b1 true
  else handle_key 1 b0 false.

(** The cases of the switch that read a byte of a scan code. *)
Definition kbd_byte : M ps2_state unit :=
  s ← get;
  b ← ps2_read_data;
  match state s with
  | waiting_scancode_start =>
      modify (λ s, set_scancode (<[0%nat := b]> (scancode s)) 1 s);;
      s ← get;
      complete ← ps2_kbd_scancode_complete (scancode s) 1;
      if complete : bool then ps2_kbd_handle_scancode (scancode s) 1
      else modify (set_state waiting_scancode_end)
  | waiting_scancode_end =>
      s ← get;
      if decide (Z.to_nat (scancode_i s) < length (scancode s))%nat then
        modify (λ s, set_scancode (<[Z.to_nat (scancode_i s) := b]> (scancode s)) (scancode_i s + 1) s);;
        s ← get;
        complete ← ps2_kbd_scancode_complete (scancode s) (scancode_i s);
        if complete : bool then
          ps2_kbd_handle_scancode (scancode s) (scancode_i s);;
          modify (set_state waiting_scancode_start)
        else mret tt
      else fault
  end.

(** [do { ... } while(!done)] of [ps2_kbd_thread]: one byte, and more while
    the controller has some. *)
Fixpoint kbd_loop (fuel : nat) : M ps2_state unit :=
  match fuel with
  | O => nofuel
  | S fuel =>
      kbd_byte;;
      more ← ps2_can_read_data;
      if more : bool then kbd_loop fuel else mret tt
  end.

(** [ps2_flush_output_buffer], at most [fuel] bytes. *)
Fixpoint ps2_flush_output_buffer (fuel : nat) : M ps2_state unit :=
  match fuel with
  | O => nofuel
  | S fuel =>
      more ← ps2_can_read_data;
      if more : bool then _ ← ps2_read_data; ps2_flush_output_buffer fuel else mret tt
  end.

(** ** Scan codes *)

(** A key, extended or not, pressed or released. *)
Inductive code := Code (ext down : bool) (key : Z).

Definition code_bytes (c : code) : list Z :=
  let '(Code ext down key) := c in
  (if ext then [224] else []) ++ (if down then [] else [240]) ++ [key].

Definition code_ok (c : code) : Prop := let '(Code _ _ key) := c in 0 ≤ key < 128.

(** The bit of a modifier key. *)
Definition modifier (c : code) : option Z :=
  let '(Code ext _ key) := c in
  if key =? PS2_SC_ALT then Some (if ext then ps2_kbd_right_alt else ps2_kbd_left_alt)
  else if key =? PS2_SC_CTRL then Some (if ext then ps2_kbd_right_ctrl else ps2_kbd_left_ctrl)
  else if key =? PS2_SC_LEFT_SHIFT then Some ps2_kbd_left_shift
  else if key =? PS2_SC_RIGHT_SHIFT then Some ps2_kbd_right_shift
  else None.

Definition is_down (c : code) : bool := let '(Code _ down _) := c in down.

(** A modifier is held if the last code for it, of those so far, the last one
    first, is a press. *)
Fixpoint held (bit : Z) (hist : list code) : bool :=
  match hist with
  | [] => false
  | c :: hist => if bool_decide (modifier c = Some bit) then is_down c else held bit hist
  end.

Definition shift_held hist := held ps2_kbd_left_shift hist || held ps2_kbd_right_shift hist.
Definition ctrl_held hist := held ps2_kbd_left_ctrl hist || held ps2_kbd_right_ctrl hist.
Definition alt_held hist := held ps2_kbd_left_alt hist || held ps2_kbd_right_alt hist.

(** The character of a key, and the modifiers reported with it: shift selects
    the character, unless control or alt are held, which are reported. *)
Definition key_char (hist : list code) (key : Z) : Z :=
  if shift_held hist && negb (ctrl_held hist || alt_held hist)
  then nth (Z.to_nat key) _ps2_kbd_scancodes_set_2_en_gb_shift 0
  else nth (Z.to_nat key) _ps2_kbd_scancodes_set_2_en_gb 0.

Definition key_mods (hist : list code) : Z :=
  if ctrl_held hist || alt_held hist
  then 4 * Z.b2z (ctrl_held hist) + 2 * Z.b2z (alt_held hist) + Z.b2z (shift_held hist)
  else 0.

Definition events_of (hist : list code) (c : code) : list tty_key_event :=
  let '(Code ext down key) := c in
  match modifier c with
  | Some _ => []
  | None =>
      if key_char hist key =? 0 then []
      else [TtyKeyEvent (if down then tty_key_down else tty_key_up) (key_char hist key) (key_mods hist)]
  end.

(** The events of a sequence of codes. *)
Fixpoint all_events (hist : list code) (cs : list code) : list tty_key_event :=
  match cs with
  | [] => []
  | c :: cs => events_of hist c ++ all_events (c :: hist) cs
  end.

(** The word of modifier bits shows what is held. *)
Definition mods_rep (m : Z) (hist : list code) : Prop :=
  ∀ bit, 1 ≤ bit ≤ 6 → getbit m bit = Z.b2z (held bit hist).

Lemma getbit_withbit_same m b v : 0 ≤ b ≤ 31 → getbit (withbit m b (Z.b2z v)) b = Z.b2z v.
Proof.
  intros Hb. rewrite getbit_withbit by done. by destruct v.
Qed.

Lemma getbit_withbit_other m b b' v : 0 ≤ b ≤ 31 → 0 ≤ b' ≤ 31 → b ≠ b' → getbit (withbit m b v) b' = getbit m b'.
Proof.
  intros Hb Hb' Hne. destruct (withbits_bits m b b v ltac:(lia) ltac:(lia)) as [_ H].
  unfold getbit, withbit. apply H; lia.
Qed.

Lemma modifier_range c b : modifier c = Some b → 1 ≤ b ≤ 6.
Proof. destruct c as [[] d k]; unfold modifier; repeat case_match; intros [= <-]; lia. Qed.

Lemma mods_rep_step m hist c :
  mods_rep m hist →
  mods_rep (match modifier c with Some b => withbit m b (Z.b2z (is_down c)) | None => m end) (c :: hist).
Proof.
  intros Hm bit Hbit. cbn [held]. destruct (modifier c) as [b|] eqn:E; [|rewrite bool_decide_false by done; by apply Hm].
  apply modifier_range in E as Hb. destruct (decide (b = bit)) as [->|Hne].
  - rewrite bool_decide_true by done. apply getbit_withbit_same. lia.
  - rewrite bool_decide_false by congruence. rewrite getbit_withbit_other by lia. by apply Hm.
Qed.

Lemma pressed_held m hist :
  mods_rep m hist →
  ps2_kbd_mod_shift_pressed m = shift_held hist ∧ ps2_kbd_mod_ctrl_pressed m = ctrl_held hist ∧
  ps2_kbd_mod_alt_pressed m = alt_held hist.
Proof.
  intros Hm. unfold ps2_kbd_mod_shift_pressed, ps2_kbd_mod_ctrl_pressed, ps2_kbd_mod_alt_pressed, shift_held, ctrl_held, alt_held.
  rewrite !Hm by lia. repeat match goal with |- context [held ?b hist] => destruct (held b hist) end; done.
Qed.

(** ** Handling a scan code *)

Hypothesis alloc_small : ∀ n size, alloc n size = true → size ≤ 2 ^ 30.

Definition same_driver (s s' : ps2_state) : Prop :=
  ps2_trace s' = ps2_trace s ∧ state s' = state s ∧ scancode s' = scancode s ∧ scancode_i s' = scancode_i s.

Lemma elem_ok a i b (s : ps2_state) : a !! Z.to_nat i = Some b → elem a i s = Ret b s.
Proof. intros H. unfold elem. by rewrite H. Qed.

Lemma table_elem (t : list Z) key : length t = 128%nat → 0 ≤ key < 128 → t !! Z.to_nat key = Some (nth (Z.to_nat key) t 0).
Proof.
  intros Ht Hk. destruct (lookup_lt_is_Some_2 t (Z.to_nat key)) as [b Hb]; [lia|]. by rewrite (nth_lookup_Some _ _ _ _ Hb).
Qed.

(** What a key does once it has been decoded. *)
Definition key_effect (c : code) (s s' : ps2_state) (hist : list code) : Prop :=
  same_driver s s' ∧ mods_rep (_ps2_kbd_mod_state s') (c :: hist) ∧
  line_ok (lines (the_tty s')) ∧ send_keys alloc beyond (events_of hist c) (the_tty s) = Ret tt (the_tty s').

Lemma handle_key_ok s ext down key hist :
  0 ≤ key < 128 → mods_rep (_ps2_kbd_mod_state s) hist → line_ok (lines (the_tty s)) →
  ∃ s', handle_key (Z.b2z down) key ext s = Ret tt s' ∧ key_effect (Code ext down key) s s' hist.
Proof.
  intros Hk Hm Hl. pose proof (mods_rep_step _ _ (Code ext down key) Hm) as Hm'. cbn [is_down] in Hm'.
  destruct (pressed_held _ _ Hm) as (Hsh & Hct & Hal). unfold handle_key, key_effect, events_of.
  destruct (modifier (Code ext down key)) as [b|] eqn:Eb; unfold modifier in Eb.
  - exists (set_mod_state (withbit (_ps2_kbd_mod_state s) b (Z.b2z down)) s). split; [|done].
    repeat case_match; by simplify_eq.
  - destruct (key =? PS2_SC_ALT), (key =? PS2_SC_CTRL), (key =? PS2_SC_LEFT_SHIFT), (key =? PS2_SC_RIGHT_SHIFT); try done.
    step (elem_ok _ _ _ s (table_elem _ps2_kbd_scancodes_set_2_en_gb key eq_refl Hk)). rewrite bind_get. rewrite Hsh, Hct, Hal.
    assert (Hmatch : (if ctrl_held hist || alt_held hist then
        mret (nth (Z.to_nat key) _ps2_kbd_scancodes_set_2_en_gb 0,
          Z.lor (Z.lor (if ctrl_held hist then 4 else 0) (if alt_held hist then 2 else 0)) (if shift_held hist then 1 else 0))
      else if shift_held hist then c ← elem _ps2_kbd_scancodes_set_2_en_gb_shift key; mret (c, 0)
      else mret (nth (Z.to_nat key) _ps2_kbd_scancodes_set_2_en_gb 0, 0)) s = Ret (key_char hist key, key_mods hist) s).
    { unfold key_char, key_mods. destruct (ctrl_held hist), (alt_held hist), (shift_held hist); cbn [orb andb negb]; try done.
      by step (elem_ok _ _ _ s (table_elem _ps2_kbd_scancodes_set_2_en_gb_shift key eq_refl Hk)). }
    step Hmatch. destruct (key_char hist key =? 0); cbn [negb].
    + exists s. split; [done|]. by split.
    + set (e := TtyKeyEvent _ _ _). destruct (send_key_ok alloc beyond alloc_small (the_tty s) e Hl) as (t' & E & Hl' & _).
      exists (set_the_tty t' s). split; [by rewrite (zoom_ret _ _ _ s _ _ E)|]. split; [done|]. split; [done|]. split; [done|].
      cbn [send_keys the_tty set_the_tty].
      replace (TtyKeyEvent (if down then tty_key_down else tty_key_up) (key_char hist key) (key_mods hist)) with e by by destruct down.
      by step E.
Qed.

(** A key above 127, such as F7 (131) or the first byte of pause (225), indexes
    the table of characters outside its bounds. *)
Lemma handle_key_outside s pressed key e0 : 128 ≤ key → handle_key pressed key e0 s = Fault.
Proof.
  intros Hk. unfold handle_key. repeat (rewrite (proj2 (Z.eqb_neq key _)) by lia). apply bind_fault. unfold elem.
  rewrite lookup_ge_None_2; [done|]. change (length _ps2_kbd_scancodes_set_2_en_gb) with 128%nat. lia.
Qed.

Lemma handle_scancode_ok s c a hist :
  code_ok c → (∀ i b, code_bytes c !! i = Some b → a !! i = Some b) →
  mods_rep (_ps2_kbd_mod_state s) hist → line_ok (lines (the_tty s)) →
  ∃ s', ps2_kbd_handle_scancode a (Z.of_nat (length (code_bytes c))) s = Ret tt s' ∧ key_effect c s s' hist.
Proof.
  intros Hc Ha Hm Hl. destruct c as [ext down key]. simpl in Hc.
  destruct (handle_key_ok s ext down key hist Hc Hm Hl) as (s' & E & He). exists s'. split; [|done]. rewrite <- E.
  assert (H240 : (key =? 240) = false) by (apply Z.eqb_neq; lia). assert (H224 : (key =? 224) = false) by (apply Z.eqb_neq; lia).
  unfold ps2_kbd_handle_scancode.
  destruct ext, down; cbn [code_bytes app length] in Ha |- *;
    (match goal with |- context [assert ?b ?m] => rewrite (bind_ret (assert b m) _ s tt s eq_refl) end;
     step (elem_ok a 0 _ s (Ha 0%nat _ eq_refl));
     cbn [Z.eqb Pos.eqb]; rewrite ?H240, ?H224);
    try (step (elem_ok a 1 _ s (Ha 1%nat _ eq_refl)); cbn [Z.eqb Pos.eqb]; rewrite ?H240, ?H224);
    try step (elem_ok a 2 _ s (Ha 2%nat _ eq_refl)); done.
Qed.

(** ** Collecting the bytes of a scan code *)

(** The bytes [pre] of a code have been read. *)
Definition collected (s : ps2_state) (pre : list Z) : Prop :=
  length (scancode s) = 8%nat ∧ (∀ i b, pre !! i = Some b → scancode s !! i = Some b) ∧
  match pre with
  | [] => state s = waiting_scancode_start
  | _ => state s = waiting_scancode_end ∧ scancode_i s = Z.of_nat (length pre)
  end.

Lemma complete_ok c pre post a (s : ps2_state) :
  code_ok c → code_bytes c = pre ++ post → pre ≠ [] → (∀ i b, pre !! i = Some b → a !! i = Some b) →
  ps2_kbd_scancode_complete a (Z.of_nat (length pre)) s = Ret (bool_decide (post = [])) s.
Proof.
  intros Hc Hb Hpre Ha. destruct c as [ext down key]. simpl in Hc.
  assert (H240 : (key =? 240) = false) by (apply Z.eqb_neq; lia). assert (H224 : (key =? 224) = false) by (apply Z.eqb_neq; lia).
  assert (H225 : (key =? 225) = false) by (apply Z.eqb_neq; lia).
  unfold ps2_kbd_scancode_complete. destruct pre as [|b0 pre]; [done|].
  destruct ext, down; cbn [code_bytes app] in Hb; destruct pre as [|b1 [|b2 [|b3 pre]]]; destruct post as [|x post]; simplify_eq/=;
    step (elem_ok a 0 _ s (Ha 0%nat _ eq_refl)); try step (elem_ok a 1 _ s (Ha 1%nat _ eq_refl));
    rewrite ?H240, ?H224, ?H225; done.
Qed.

Lemma code_length c : (1 ≤ length (code_bytes c) ≤ 3)%nat.
Proof. destruct c as [[] [] key]; simpl; lia. Qed.

(** The array after one more byte. *)
Lemma insert_prefix (a : list Z) pre b : length a = 8%nat → (length pre < 8)%nat →
  (∀ i x, pre !! i = Some x → a !! i = Some x) → ∀ i x, (pre ++ [b]) !! i = Some x → <[length pre := b]> a !! i = Some x.
Proof.
  intros Hlen Hp Ha i x Hi. destruct (decide (i = length pre)) as [->|Hne].
  - rewrite lookup_app_r, Nat.sub_diag in Hi by done. injection Hi as <-. apply list_lookup_insert_eq. lia.
  - rewrite list_lookup_insert_ne by done. apply Ha. rewrite <- Hi. symmetry. apply lookup_app_l.
    apply lookup_lt_Some in Hi. rewrite length_app in Hi. simpl in Hi. lia.
Qed.

Lemma kbd_byte_ok s c pre b post hist :
  code_ok c → code_bytes c = pre ++ b :: post → collected s pre → dev (ps2_trace s) PS2_DATA_PORT = b →
  mods_rep (_ps2_kbd_mod_state s) hist → line_ok (lines (the_tty s)) →
  ∃ s', kbd_byte s = Ret tt s' ∧ ps2_trace s' = In PS2_DATA_PORT b :: ps2_trace s ∧
    if bool_decide (post = []) then
      collected s' [] ∧ mods_rep (_ps2_kbd_mod_state s') (c :: hist) ∧ line_ok (lines (the_tty s')) ∧
      send_keys alloc beyond (events_of hist c) (the_tty s) = Ret tt (the_tty s')
    else collected s' (pre ++ [b]) ∧ _ps2_kbd_mod_state s' = _ps2_kbd_mod_state s ∧ the_tty s' = the_tty s.
Proof.
  intros Hc Hb (Hlen & Hpre & Hst) Hdev Hm Hl. pose proof (code_length c) as Hcl. rewrite Hb, length_app in Hcl. simpl in Hcl.
  assert (Hbr : 0 ≤ b < 256).
  { destruct c as [ext down key]. simpl in Hc. assert (b ∈ code_bytes (Code ext down key)) as Hin by (rewrite Hb; set_solver).
    destruct ext, down; cbn [code_bytes app] in Hin;
      repeat (apply elem_of_cons in Hin as [->|Hin]; [lia|]); by apply not_elem_of_nil in Hin. }
  assert (Hread : ps2_read_data s = Ret b (set_ps2_trace (In PS2_DATA_PORT b :: ps2_trace s) s)).
  { unfold ps2_read_data, inb. change (u16 96) with 96. cbn [io_trace ps2_ports set_io_trace]. rewrite Hdev.
    unfold u8. by rewrite Z.mod_small by lia. }
  set (a := <[length pre := b]> (scancode s)).
  assert (Ha : ∀ i x, (pre ++ [b]) !! i = Some x → a !! i = Some x) by (apply insert_prefix; [done|lia|done]).
  assert (Hla : length a = 8%nat) by (unfold a; by rewrite length_insert).
  set (s1 := set_scancode a (Z.of_nat (length (pre ++ [b]))) (set_ps2_trace (In PS2_DATA_PORT b :: ps2_trace s) s)).
  assert (Hco : ps2_kbd_scancode_complete a (Z.of_nat (length (pre ++ [b]))) s1 = Ret (bool_decide (post = [])) s1).
  { apply (complete_ok c); [done|by rewrite Hb, <- app_assoc|by destruct pre|done]. }
  assert (Hlp : Z.of_nat (length pre) + 1 = Z.of_nat (length (pre ++ [b]))) by (rewrite length_app; simpl; lia).
  destruct (bool_decide (post = [])) eqn:Hpost.
  - apply bool_decide_eq_true in Hpost as ->.
    destruct (handle_scancode_ok s1 c a hist) as (s2 & E2 & (Ht2 & Hst2 & Hsc2 & Hi2) & Hm2 & Hl2 & Hs2); [done|by rewrite Hb|done|done|].
    rewrite Hb in E2. exists (set_state waiting_scancode_start s2). split; [|split; [exact Ht2|]].
    + unfold kbd_byte. rewrite bind_get. step Hread. destruct pre as [|p pre].
      * rewrite Hst, bind_modify, bind_get. fold a. step Hco. refine (eq_trans E2 _). f_equal.
        destruct s2. cbn in *. by rewrite Hst2, Hst.
      * destruct Hst as [-> Hi]. rewrite bind_get. cbn [scancode_i scancode set_ps2_trace]. rewrite Hi, decide_True by (rewrite Nat2Z.id; lia).
        rewrite bind_modify. cbn [scancode_i scancode set_ps2_trace]. rewrite Hi, Nat2Z.id. fold a.
        rewrite Hlp. fold s1. rewrite bind_get. cbn [scancode scancode_i s1 set_scancode]. step Hco. by step E2.
    + split; [|done]. split; [by cbn; rewrite Hsc2|]. split; [by intros i x Hx|done].
  - apply bool_decide_eq_false in Hpost. exists (set_state waiting_scancode_end s1). split; [|split; [done|]].
    + unfold kbd_byte. rewrite bind_get. step Hread. destruct pre as [|p pre].
      * rewrite Hst, bind_modify, bind_get. fold a. by step Hco.
      * destruct Hst as [Hst Hi]. rewrite Hst, bind_get. cbn [scancode_i scancode set_ps2_trace]. rewrite Hi, decide_True by (rewrite Nat2Z.id; lia).
        rewrite bind_modify. cbn [scancode_i scancode set_ps2_trace]. rewrite Hi, Nat2Z.id. fold a.
        rewrite Hlp. fold s1. rewrite bind_get. cbn [scancode scancode_i s1 set_scancode]. step Hco. unfold mret, M_ret. f_equal.
        unfold s1. destruct s. cbn in *. by rewrite Hst.
    + split; [|done]. split; [done|]. split; [done|]. by destruct pre.
Qed.

(** The main keys of a British keyboard, by the scan codes of set 2, with their
    characters: the tables are right about them.  The keys of the keypad, and
    the shifted backspace, are elsewhere in the tables. *)
Definition main_keys : list (Z * Z * Z) :=
  [(21, 113, 81); (29, 119, 87); (36, 101, 69); (45, 114, 82); (44, 116, 84); (53, 121, 89); (60, 117, 85); (67, 105, 73); (68, 111, 79); (77, 112, 80);
   (28, 97, 65); (27, 115, 83); (35, 100, 68); (43, 102, 70); (52, 103, 71); (51, 104, 72); (59, 106, 74); (66, 107, 75); (75, 108, 76);
   (26, 122, 90); (34, 120, 88); (33, 99, 67); (42, 118, 86); (50, 98, 66); (49, 110, 78); (58, 109, 77);
   (22, 49, 33); (30, 50, 34); (37, 52, 36); (46, 53, 37); (54, 54, 94); (61, 55, 38); (62, 56, 42); (70, 57, 40); (69, 48, 41);
   (78, 45, 95); (85, 61, 43); (84, 91, 123); (91, 93, 125); (76, 59, 58); (82, 39, 64); (93, 35, 126); (65, 44, 60); (73, 46, 62); (74, 47, 63);
   (41, 32, 32); (90, 10, 10); (13, 9, 9)].

Lemma main_keys_in_tables : Forall (λ '(key, plain, shifted),
  nth (Z.to_nat key) _ps2_kbd_scancodes_set_2_en_gb 0 = plain ∧
  nth (Z.to_nat key) _ps2_kbd_scancodes_set_2_en_gb_shift 0 = shifted) main_keys.
Proof. repeat constructor. Qed.

(** ** A sequence of scan codes *)

(** The number of bytes taken from the controller. *)
Fixpoint data_reads (tr : list io_event) : nat :=
  match tr with
  | [] => 0
  | In port _ :: tr => if port =? PS2_DATA_PORT then S (data_reads tr) else data_reads tr
  | Out _ _ :: tr => data_reads tr
  end.

(** The controller hands out [bytes], one by one, and says whether there are more. *)
Definition ps2_device (bytes : list Z) : Prop := ∀ tr,
  (∀ b, bytes !! data_reads tr = Some b → dev tr PS2_DATA_PORT = b) ∧
  getbit (u8 (dev tr PS2_SC_PORT)) 0 = Z.b2z (bool_decide (data_reads tr < length bytes)%nat).

Lemma can_read_ok bytes s :
  ps2_device bytes →
  ∃ tr, ps2_can_read_data s = Ret (bool_decide (data_reads (ps2_trace s) < length bytes)%nat) (set_ps2_trace tr s) ∧
    data_reads tr = data_reads (ps2_trace s).
Proof.
  intros Hd. eexists. split.
  - unfold ps2_can_read_data, ps2_read_status, inb. change (u16 100) with 100. cbn [io_trace ps2_ports set_io_trace].
    unfold mbind, M_bind. rewrite (proj2 (Hd _)). unfold mret, M_ret. f_equal. by destruct (bool_decide _).
  - done.
Qed.

Lemma send_keys_app es1 es2 (t t1 : tty) :
  send_keys alloc beyond es1 t = Ret tt t1 → send_keys alloc beyond (es1 ++ es2) t = send_keys alloc beyond es2 t1.
Proof.
  revert t. induction es1 as [|e es IH]; intros t; simpl; [by intros [= ->]|]. intros H.
  apply bind_ret_inv in H as ([] & t' & E & H). step E. by apply IH.
Qed.

Lemma kbd_loop_ok bytes fuel : ∀ s c cs pre post hist,
  ps2_device bytes → Forall code_ok (c :: cs) → code_bytes c = pre ++ post → post ≠ [] → collected s pre →
  drop (data_reads (ps2_trace s)) bytes = post ++ concat (code_bytes <$> cs) →
  (length (post ++ concat (code_bytes <$> cs)) ≤ fuel)%nat →
  mods_rep (_ps2_kbd_mod_state s) hist → line_ok (lines (the_tty s)) →
  ∃ s', kbd_loop fuel s = Ret tt s' ∧ collected s' [] ∧ mods_rep (_ps2_kbd_mod_state s') (reverse (c :: cs) ++ hist) ∧
    send_keys alloc beyond (all_events hist (c :: cs)) (the_tty s) = Ret tt (the_tty s') ∧
    data_reads (ps2_trace s') = length bytes.
Proof.
  induction fuel as [|fuel IH]; intros s c cs pre [|b post] hist Hd Hcs Hc Hpost Hcol Hdrop Hf Hm Hl; try done; [simpl in Hf; lia|].
  apply Forall_cons_1 in Hcs as Hcs'. destruct Hcs' as [Hc0 Hcs1].
  assert (Hb : bytes !! data_reads (ps2_trace s) = Some b).
  { rewrite <- (Nat.add_0_r (data_reads _)), <- lookup_drop, Hdrop. done. }
  destruct (kbd_byte_ok s c pre b post hist Hc0 Hc Hcol (proj1 (Hd _) b Hb) Hm Hl) as (s1 & E1 & Ht1 & H1).
  assert (Hr1 : data_reads (ps2_trace s1) = S (data_reads (ps2_trace s))) by by rewrite Ht1.
  assert (Hdrop1 : drop (data_reads (ps2_trace s1)) bytes = post ++ concat (code_bytes <$> cs)).
  { rewrite Hr1, <- Nat.add_1_r, <- drop_drop, Hdrop. done. }
  destruct (can_read_ok bytes s1 Hd) as (tr & E2 & Hr2). cbn [kbd_loop]. step E1. step E2.
  assert (Hmore : (length bytes - data_reads (ps2_trace s1))%nat = length (post ++ concat (code_bytes <$> cs))).
  { by rewrite <- Hdrop1, length_drop. }
  assert (Hf' : (length (post ++ concat (code_bytes <$> cs)) ≤ fuel)%nat) by (cbn [app length] in Hf; lia).
  set (s2 := set_ps2_trace tr s1).
  destruct (decide (post = [])) as [->|Hp]; [rewrite bool_decide_true in H1 by done|rewrite bool_decide_false in H1 by done].
  - destruct H1 as (Hcol1 & Hm1 & Hl1 & Hs1). destruct cs as [|c' cs].
    + rewrite bool_decide_false by (simpl in Hmore; lia). exists s2. split; [done|]. split; [exact Hcol1|]. split; [exact Hm1|].
      cbn [all_events]. rewrite app_nil_r. split; [exact Hs1|]. cbn [ps2_trace s2 set_ps2_trace].
      apply lookup_lt_Some in Hb. simpl in Hmore. lia.
    + pose proof (code_length c') as Hcl. rewrite bool_decide_true by (simpl in Hmore; rewrite length_app in Hmore; lia).
      destruct (IH s2 c' cs [] (code_bytes c') (c :: hist) Hd Hcs1 eq_refl) as (s' & E & Hcol' & Hm' & Hs' & Hr'); try done.
      { intros E. rewrite E in Hcl. simpl in Hcl. lia. }
      { cbn [ps2_trace s2 set_ps2_trace]. by rewrite Hr2. }
      exists s'. split; [done|]. split; [done|]. split; [|split; [|exact Hr']].
      * rewrite (reverse_cons (c' :: cs) c), <- app_assoc. exact Hm'.
      * change (all_events hist (c :: c' :: cs)) with (events_of hist c ++ all_events (c :: hist) (c' :: cs)).
        by rewrite (send_keys_app _ _ _ _ Hs1).
  - destruct H1 as (Hcol1 & Hm1 & Hl1).
    rewrite bool_decide_true by (destruct post; [done|]; simpl in Hmore; lia).
    destruct (IH s2 c cs (pre ++ [b]) post hist Hd Hcs) as (s' & E & Hcol' & Hm' & Hs' & Hr'); try done.
    { by rewrite Hc, <- app_assoc. }
    { cbn [ps2_trace s2 set_ps2_trace]. by rewrite Hr2. }
    { cbn [_ps2_kbd_mod_state s2 set_ps2_trace]. by rewrite Hm1. }
    { cbn [the_tty s2 set_ps2_trace]. by rewrite Hl1. }
    exists s'. split_and!; try done. cbn [the_tty s2 set_ps2_trace] in Hs'. by rewrite Hl1 in Hs'.
Qed.

(** C24: let the controller present the bytes of a sequence of scan
    codes, plain or extended, presses or releases, of keys below 128, while
    every allocation succeeds and the line stays below 2^18 characters.  Then the
    driver reads exactly those bytes, ends ready for the next code, knows which
    modifiers are held, and the line buffer holds what the keys have typed: for
    every key that is no modifier the character the driver's table has for it,
    taken from the shifted table while a shift key is held and neither control
    nor alt is, and nothing while control or alt is held.  (For a key from 128
    on the driver reads outside its table, see [handle_key_outside]; which
    entries of the tables are those of the keyboard, see [main_keys_in_tables].) *)
Theorem kbd_types bytes c cs s hist fuel (es := all_events hist (c :: cs)) :
  ps2_device bytes → Forall code_ok (c :: cs) → collected s [] →
  drop (data_reads (ps2_trace s)) bytes = concat (code_bytes <$> (c :: cs)) →
  (length bytes ≤ fuel)%nat → mods_rep (_ps2_kbd_mod_state s) hist →
  line_ok (lines (the_tty s)) → (∀ n size, size ≤ 2 ^ 20 → alloc n size = true) →
  write_pos (lines (the_tty s)) + Z.of_nat (length es) ≤ 2 ^ 18 →
  ∃ s', kbd_loop fuel s = Ret tt s' ∧ data_reads (ps2_trace s') = length bytes ∧ collected s' [] ∧
    mods_rep (_ps2_kbd_mod_state s') (reverse (c :: cs) ++ hist) ∧ line_ok (lines (the_tty s')) ∧ unread (lines (the_tty s')) = typed es (unread (lines (the_tty s))).
Proof.
  intros Hd Hcs Hcol Hdrop Hf Hm Hl Hroom Hw.
  destruct (kbd_loop_ok bytes fuel s c cs [] (code_bytes c) hist) as (s' & E & Hcol' & Hm' & Hs' & Hr'); try done.
  { pose proof (code_length c) as Hcl. intros H. rewrite H in Hcl. simpl in Hcl. lia. }
  { change (code_bytes c ++ concat (code_bytes <$> cs)) with (concat (code_bytes <$> (c :: cs))).
    rewrite <- Hdrop, length_drop. lia. }
  destruct (send_keys_ok alloc beyond alloc_small (the_tty s) es Hroom Hl Hw) as (t' & Et & Hl' & _ & _ & Hu & _).
  fold es in Hs'. rewrite Et in Hs'. injection Hs' as Ht. exists s'. rewrite <- Ht. done.
Qed.
End Ps2.

(** ** A concrete keyboard *)

(** Left shift down, A, left shift up, B, E0-prefixed return. *)
Definition ex_codes : list code :=
  [Code false true 18; Code false true 28; Code false false 28; Code false false 18; Code false true 50; Code true true 90].

Definition ex_bytes : list Z := concat (code_bytes <$> ex_codes).

Definition ex_ps2_dev (tr : list io_event) (port : Z) : Z :=
  if port =? PS2_DATA_PORT then default 0 (ex_bytes !! data_reads tr)
  else Z.b2z (bool_decide (data_reads tr < length ex_bytes)%nat).

Lemma ex_ps2_device : ps2_device ex_ps2_dev ex_bytes.
Proof.
  intros tr. unfold ex_ps2_dev. cbn [Z.eqb Pos.eqb]. split; [by intros b ->|]. by destruct (bool_decide _).
Qed.

Definition ex_ps2 : ps2_state := Ps2State [] 0 waiting_scancode_start (replicate 8 0) 0 (ex_tty []).

Lemma kbd_types_witness :
  ∃ s', kbd_loop ex_alloc (λ _ _, 0) ex_ps2_dev 10 ex_ps2 = Ret tt s' ∧ unread (lines (the_tty s')) = [65; 98; 10].
Proof.
  destruct (kbd_types ex_alloc (λ _ _, 0) ex_ps2_dev ex_alloc_small ex_bytes (Code false true 18) (tail ex_codes) ex_ps2 [] 10)
    as (s' & E & _ & _ & _ & _ & Hu).
  - exact ex_ps2_device.
  - repeat constructor; lia.
  - split; [done|]. split; [by intros i b Hb|done].
  - reflexivity.
  - vm_compute. lia.
  - intros bit Hbit. unfold getbit, getbits. by rewrite Z.land_0_l, Z.shiftr_0_l.
  - exact (ex_tty_ok []).
  - intros n size H. by apply Z.leb_le.
  - vm_compute. discriminate.
  - exists s'. split; [exact E|exact Hu].
Defined.
